(* ===== verification/_CoqProject ===== *)
-Q . S2P
Prelude.v
GoStrings.v
GoJson.v
Tenancy.v
Store.v
StoreLoops.v
StoreIsolation.v
StoreOps.v
Crypto.v
CryptoProofs.v
Blob.v
ControlPlane.v
ControlPlaneProofs.v
Erasure.v
ErasureProofs.v
Admin.v
Document.v
Chunker.v
ChunkerProofs.v
Interleave.v
Kafka.v
KafkaProofs.v
Ingest.v
GoTime.v
IndexWriter.v
HubScheduler.v
HubSchedulerProofs.v
HubSync.v
HubClient.v
HubSyncProofs.v
GoText.v
GoEncode.v
GoFloat.v
GoNet.v
SafeHttp.v
GoDate.v
GoRegex.v
QueryVespa.v
QueryVespaProofs.v
QueryRank.v
QueryPlan.v
QueryScope.v
Personalization.v
QueryPersonalize.v
QueryModels.v
QueryServer.v
QueryCacheProofs.v
QueryServerProofs.v
OAuth.v
GoHttp.v
GatewayEdge.v
GatewayRedis.v
GatewaySearch.v
GatewayPeople.v
Gateway.v
GatewayProofs.v
GatewayLimitsProofs.v
GatewayStack.v
ConnectorRun.v
HtmlText.v
Gmail.v
GmailSyncProofs.v
GoMime.v
Upload.v
HubHttp.v
Slack.v
SlackSyncProofs.v
ICal.v
ICalSyncProofs.v
GoFormat.v
Jira.v
GCal.v
GoLayout.v
WhatsApp.v
PgStore.v
PgStoreProofs.v
KeyCustody.v
KeyCustodyProofs.v
S3.v
