(* ===== verification/Prelude.v ===== *)
(** * Asker: a verification development

    Asker is a multi-tenant personal search engine written in Go.  Connectors
    pull documents from a user's sources into a Kafka pipeline; services
    normalise, chunk, enrich and index them into Vespa; a control plane keeps
    each tenant's connector instances, sync states, sealed credentials and
    preferences, and erases a tenant on request; the query service answers
    searches over the index; the gateway is the only way in from outside.
    This development models the code that decides whose data goes where and whether it survives, and
    proves that it does what its comments and contracts promise.

    ** Parts of the program and where they are modelled

    A file holds the model of its part and then the theorems on it; where the
    theorems are long they have a file of their own, named [...Proofs].

    - Shared foundations.  This file: [result] for Go's (value, error) pairs
      with the notation [let?], 64-bit wrap-around, the byte order of strings
      and sorting by it, the closure [star], the hint database and the shared
      tactics.  [GoStrings], [GoJson], [GoTime]: the functions of the packages
      strings, encoding/json (json.Valid), time and strconv that the sources
      call, byte for byte; [GoText] (runes, fields, search and replace),
      [GoDate] (civil dates and zones), [GoRegex] (a derivative matcher),
      [GoFloat] (binary64 arithmetic and stable sorting by a float key),
      [GoEncode] (base64, hex, cutting and trimming), [GoFormat] and [GoLayout]
      (times by layout), [GoMime] (media types), [GoHttp] (requests, headers,
      route patterns).
    - Tenant identity, [Tenancy]: platform/tenancy and tenancygrpc ([Context],
      [FromClaims], [FromHeaderValue], the client and server interceptors).
    - Control-plane store, [Store]: services/control-plane/store.go (the class
      [Store], the row records) and store_mem.go (module [memStore]).
      [StoreLoops] gives closed forms of its map loops, [StoreIsolation] the
      invariant and the refinement to one private store per tenant,
      [StoreOps] the functional behaviour.  The Postgres store, [PgStore] and
      [PgStoreProofs]: store_pg.go, a method being a program of SQL statements
      on tables, with transactions, cascades and lost connections.
    - Tenant encryption, [Crypto] and [CryptoProofs]: platform/crypto
      ([TenantCipher], [fileKEK], [memDEKStore]).  The type [prog] of [Crypto]
      is the effect model of the whole development: a program is a
      sequence of atomic actions on a shared state, each reading one input
      [Inp] (clock, randomness, whether the context has ended).
    - Key custody, [KeyCustody] and [KeyCustodyProofs]: the KEK file (kek.go),
      Vault Transit (vault.go), the choice between them (selectkek.go) and the
      hub's directory of wrapped keys (services/connector-hub/dekstore.go).
    - Encrypted blobs, [Blob]: platform/blob.
    - Control-plane RPCs, [ControlPlane] and [ControlPlaneProofs]: server.go
      and personalization.go of services/control-plane over any [Store].
    - Tenant erasure, [Erasure] and [ErasureProofs]: delete.go and purge.go.
    - Operator and scheduler RPCs, [Admin]: admin.go and scheduler.go.
    - Documents, [Document]: the protobuf messages the pipeline carries.
    - Ingest, [Chunker], [ChunkerProofs], [Ingest]:
      services/ingest (chunker.go, normalize.go, handler.go) and
      connectors/sdk/docid.go.
    - Document bus, [Kafka] and [KafkaProofs]: platform/kafkautil.
      [Interleave] is the rely-guarantee logic for programs that interleave.
    - Index writer, [IndexWriter]: services/index-writer/writer.go.
    - Connector hub, [HubScheduler], [HubSchedulerProofs], [HubSync],
      [HubClient], [HubSyncProofs]: scheduler.go and emit.go of
      services/connector-hub/internal/hub and platform/oauth/token.go.
      Its HTTP endpoints, [HubHttp]: http.go and media.go
      (webhooks, direct uploads, sync status, the media hop).
    - Connectors.  [ConnectorRun]: what a connector of connectors/ is, a
      program that asks its source, emits and checkpoints ([api]), its run
      under the hub ([resolve]), its steps against a source that changes
      meanwhile ([astep]) and a logic for them ([sure]).  Gmail: [HtmlText]
      (the conversion of HTML to text), [Gmail] (with cursors and the
      folding of the history), [GmailSyncProofs] (synchronisation).  Slack:
      [Slack] (with callbacks), [SlackSyncProofs] (synchronisation).
      iCalendar feeds: [ICal] (with the parser), [ICalSyncProofs].  Jira:
      [Jira].  Google Calendar: [GCal].  WhatsApp exports: [WhatsApp].  S3
      buckets: [S3].  Uploads: [Upload].
    - OAuth, [OAuth]: platform/oauth (providers, authorization URLs, exchange
      and refresh).
    - Gateway, services/gateway: [GatewayEdge] (the edge: authentication,
      CORS, security headers, throttle, errors), [GatewayRedis] (rate limiter,
      OAuth states, feedback and recent people), [GatewaySearch] (search, count
      and their parameters), [GatewayPeople] (people.go), [Gateway] (clients,
      the other handlers, routes).  [GatewayProofs] and [GatewayLimitsProofs]
      hold its theorems, [GatewayStack] its composition with the control plane.
    - Safe HTTP client, [GoNet], [SafeHttp]: platform/safehttp (the address guard, dialling, redirects).
    - Query service, services/query: [QueryPlan] (understand.go) and
      [QueryScope] (temporal.go, intent.go, scope.go), [QueryVespa] (vespa.go),
      [QueryRank] (merging, rrf.go, rerank.go, paging), [QueryPersonalize]
      (attention.go and the ranking of personalize.go), [QueryModels] (the
      clients of the model services, the rerank pass, the profile loader),
      [QueryServer] (server.go, degrade.go, cache.go); the theorems on
      the last and on Vespa are in [QueryVespaProofs], [QueryCacheProofs] and
      [QueryServerProofs].
    - Personalization, [Personalization]: platform/personalization.

    ** How the parts interact

    An RPC enters through the interceptors of [Tenancy], which put exactly one
    verified tenant into the context; a handler of [ControlPlane] takes its
    tenant only from there, validates, and calls the [Store] interface and the
    cipher of [Crypto].  [Erasure.cascadeDelete] drives the store, the DEK
    store, the cipher cache, Vespa, the blob store and Redis.  The hub's
    scheduler starts one worker per instance; a worker's pass ([HubSync]) uses
    the control plane through [ControlPlaneClient], whose laws [HubClient]
    proves of the server itself over [memStore], and emits documents through
    [Kafka.ProduceDocument].  [Ingest.Handle] and [IndexWriter.writer_Handle]
    are handlers of the bus: theorems about the bus are proved for any handler
    that meets its contract, which [Ingest] discharges.

    The gateway verifies a bearer token, puts the tenant of its claims into
    the context and calls the control plane, the query service and the hub
    with that tenant stamped on; [GatewayStack] runs its handlers against the
    interceptor and the handlers of [ControlPlane] over [memStore].  An upload
    goes from the gateway to the hub, into the blob store sealed under the
    tenant's key, and back out through the media hop.  A connector runs inside
    a pass of [HubSync]; its theorems are about its own programs, with the
    source's API as a class.

    A search ([QueryServer.Search]) understands and scopes the request, loads
    the profile the control plane wrote, consults the result cache, embeds the
    text, runs the retrieval arms side by side ([Interleave.par]) and ranks.
    It is written against the interface [QueryDeps]; [wired] implements it
    with the clients of [QueryVespa] and [QueryModels], and the stage lemmas of
    [QueryServerProofs] serve both its safety and its liveness theorem.
    [Personalization] gives the [Model] interface of [ControlPlane] its
    real implementation.

    Code outside the repository (AES-GCM, SHA-256, UUID and timestamp
    packages, protobuf marshalling, Kafka, Redis, Vespa, the object store, the
    OAuth provider, the model services, DNS) and the parts of the standard
    library that are tables or platform code (Unicode case and categories,
    exp, the zone database, JSON decoding into structs) is a class; a law class next to it states documented
    behaviour only, and a concrete instance in the proof files shows that the
    laws can hold.  Go's time.Now, uuid and crypto/rand are inputs.

    ** What the theorems show

    - Isolation: the shared store, and the whole RPC surface under any
      interleaving, is for each tenant indistinguishable from a private one
      ([run_isolated], [rpc_isolation]), and the Postgres store is the one in
      memory up to the forms a database keeps values in ([pg_refines_mem]), its
      methods all or nothing ([pg_all_or_nothing]); a search queries, reads
      and caches only under the tenant of its context
      ([search_tenant_scoped]), cache keys of tenants never meet, and requests
      share one exactly when they agree, where hash and separator tell them
      apart ([cache_keys_faithful]); foreign ids look unknown
      ([foreign_id_not_found]); the interceptors fail closed and carry the
      tenant unchanged; a sync pass writes and emits only for its own tenant
      ([sync_pass]); blob keys and Redis keys of tenants do not meet.
    - The edge: what a request does, it does for the tenant of its verified
      token, from the network to the rows of the store ([gateway_isolation],
      [gateway_tenant_scoped]); the hub's endpoints act for the tenant of the
      header or of the instance ([hub_http_scoped]); an OAuth state works once
      and only for the flow that made it ([oauth_state_single_use]); the rate
      limit holds under concurrency ([rate_limit_holds]) and the throttle's
      table stays bounded.
    - Connectors: against a source that changes while they run, Gmail (over
      readable mail) and Slack neither panic nor hang, store only cursors that
      tell the truth, and catch up with the mailbox and with the channels'
      histories as they were when a pass began ([gmail_sync_converges],
      [slack_sync_complete]); Google Calendar, over descriptions its HTML
      stripping can cut, stores only cursors that tell the truth
      ([gcal_cursors_truthful]); when that stripping, which three more
      connectors share, panics is settled exactly
      ([stripHTML_panics_exactly]); a pass over a feed whose events have
      distinct UIDs mirrors it ([ical_sync_mirrors]), what a pass over a bucket
      does to the index is exact for any cursor and listing
      ([s3_pass_exact]), parsing a calendar inverts printing it
      ([calendar_roundtrip]), a Jira pass over a quiet site ends and misses
      nothing ([jira_scan_complete]), and a WhatsApp import holds every message
      of the export, up to messages that share an id
      ([whatsapp_import_complete]); a Slack callback counts only if Slack
      signed it ([webhook_authentic]); an upload is served back to its tenant
      unchanged, under none of the listed script types
      ([upload_served_back]); a refresh
      keeps the credential whole ([refresh_keeps_credential]).
    - Confidentiality: one data key per tenant whatever interleaves
      ([one_key_per_tenant]), whatever store and key back end
      ([pgDEKStore_Laws], [fileDEKStore_Laws], [anyKEK_Laws]), one
      key-encryption key however many processes create it at once
      ([kek_file_converges]), round trips of the cipher, the token vault and
      the blobs, and what crypto-shredding guarantees and does not
      ([shred_unreadable], [inflight_load_survives_shred]).
    - Erasure: the cascade's order, its scope (rows, keys, blobs, documents of
      the index and Redis keys of other tenants stay), completeness, report and
      retryability and the termination of its loops ([cascade_delete_correct],
      [cascade_converges], [purge_group_drains], [purge_tenant_complete]).
    - The pipeline: no record below a committed offset is lost, wherever
      consumers crash ([ingest_no_loss]); chunks are whole runes, bounded,
      and tile the body, of a chat message or calendar event its first 8192
      bytes ([chunks_tile_body]); normalisation is idempotent; the index holds each
      document's last write ([index_last_write]); vectors are routed by length.
    - The scheduler: passes of an instance never overlap, at most four run at
      once, and the per-tenant cap holds in every reachable state
      ([scheduler_exclusive]).
    - Outbound requests: a guarded client connects only to addresses the
      policy permits, whatever names resolve to and servers redirect to
      ([guarded_fetch], [guard_decision_exact]).
    - Search: no filter value escapes its literal ([yql_injection_free]);
      scoping keeps every stated filter ([scope_keeps_filters]) and time
      phrases name the right windows ([time_windows_correct]); merging, fusion
      and the rerank pass lose and invent nothing ([merge_hits_correct],
      [rrf_fuse_correct], [rerank_only_reorders]); a personalized page is a
      window of one ranking of the eligible hits, the greedy order of marginal
      relevance where novelty is asked ([personalized_page]); learning stays
      bounded ([learned_weights_bounded]); and a search does not fail while its
      keyword path works, unless the engine refuses a hybrid query for good
      ([search_never_fails_closed]).
    - Validity and errors: the store invariant, what validation guarantees of
      stored rows, quotas, paging, and errors that reveal nothing.
    - Defects: the ingest dedupe key does not name the tenant
      ([dedupe_crosses_tenants]), a null configuration brings the hub down
      ([null_config_panics]), an HTML mail whose lower-cased text grows does
      too ([html_mail_panics], [gcal_html_panics]), as does a null comment
      ([null_comment_panics]); full resyncs keep what was deleted in between
      ([resync_keeps_deleted], [gcal_resync_keeps_cancelled],
      [removed_message_stays]); a feed answered with another page deletes its
      events, repeated UIDs flip and edits of one sequence number are missed
      ([error_page_deletes], [repeated_uid_flips], [same_sequence_missed]);
      Jira passes over updates at the cursor and across pages
      ([boundary_update_lost], [page_drift_loses]), S3 over an overwrite behind
      the newest object of a torn listing, and an S3 pass cut short leaves
      objects that are never deleted ([overwrite_behind_lost],
      [partial_pass_keeps]); WhatsApp ids can collide
      ([bar_ids_collide]); needs-attention pages leave hits on no page
      ([attention_pages_gap]), and a separator byte in a query makes two
      requests share a cache key ([key_text_collides]).

    ** Bounds and fuel

    Loops the source bounds keep its bound: 1000 rounds of the Vespa purge, 3
    handler attempts, 2 index requests, 64 chunks.  Poll and scan loops that
    run until an outside answer take a number of rounds and the theorems hold
    for every number.  Chunking loops take the body's length as fuel, and the
    theorems prove that it suffices (the result is never the out-of-fuel
    value); diversification takes the number of candidates, and redirects
    their limit.  A connector's page loop takes fuel and hangs when it runs
    out; the law class of its source bounds the pages that remain at a page
    token, and the theorems prove that fuel above that bound never runs out.
    Go int and int64 counters wrap where the code can overflow them ([wrap64],
    [wrap32]).  Floats round after every operation; compilers that fuse a
    product with a sum (as Go does on arm64) can differ in the last place.
    Sorts by a comparison with NaN are those of an insertion sort; theorems on
    order exclude NaN.

    ** Not modelled

    The connectors of other sources (Outlook, Confluence, Drive, Teams
    and the iMessage agent: each is a client of one more API; a sync pass is proved
    for any connector behaviour), the HTTP transports under the connectors' API
    clients, schema migrations (run by a library), process start-up,
    configuration, logging and metrics, the Python services, the command-line
    tools and the web front end.  The composition of a connector's run with
    the pass of the hub goes through the behaviours [ConnectorRun.resolve]
    gives; it is not a theorem of its own. *)

From stdpp Require Import base gmap strings list sorting.
From Stdlib Require Import ZArith Lia.

(** ** Error values

    A Go function that returns [(T, error)] is modelled by a value of
    [result E T]: exactly one of the two is meaningful. *)
Inductive result (E A : Type) : Type :=
| Ok (a : A)
| Err (e : E).
Arguments Ok {E A} a.
Arguments Err {E A} e.

Declare Scope go_scope.
Delimit Scope go_scope with go.
Open Scope go_scope.

(** [let? x := c in k] is the Go idiom [x, err := c; if err != nil { return
    err }; k]. *)
Notation "'let?' x := c 'in' k" :=
  (match c with Ok x => k | Err e => Err e end)
  (at level 10, x name, c at level 100, k at level 200) : go_scope.

Definition is_ok {E A} (r : result E A) : bool :=
  match r with Ok _ => true | Err _ => false end.

(** The context errors [ctx.Err()] can report. *)
Inductive CtxErr := Canceled | DeadlineExceeded.

#[global] Instance CtxErr_eq_dec : EqDecision CtxErr.
Proof. solve_decision. Defined.

(** ** The environment

    What an operation reads from its environment: the successive results of
    [time.Now().UTC()] (nanoseconds) outside loops, the time read in the round
    of a map loop that handles a key, and the result of [uuid.NewString()]. *)
Record Env := mkEnv { clock : nat → Z; clock_at : string → Z; new_uuid : string }.

(** ** Machine integers

    Go's [int64] arithmetic wraps around; [int] is 64 bits wide on the
    platforms the services are built for. *)
Definition wrap64 (z : Z) : Z := ((z + 2 ^ 63) mod 2 ^ 64 - 2 ^ 63)%Z.

Definition int64_ok (z : Z) : Prop := (- 2 ^ 63 <= z < 2 ^ 63)%Z.

(** ** Byte-wise order of Go strings ([strings.Compare], [<] on strings) *)
Definition str_leb (a b : string) : bool :=
  match String.compare a b with Gt => false | _ => true end.

Definition str_ltb (a b : string) : bool :=
  match String.compare a b with Lt => true | _ => false end.

(** ** Sorting with a total comparison

    [slices.SortFunc] and [sort.Strings] on a slice: any comparison sort
    yields the same list when the order is total and antisymmetric on the
    elements, which [sort_unique] below states. *)
Fixpoint insert_sorted {A} (leb : A → A → bool) (x : A) (l : list A) : list A :=
  match l with
  | [] => [x]
  | y :: l' => if leb x y then x :: l else y :: insert_sorted leb x l'
  end.

Definition sort_by {A} (leb : A → A → bool) (l : list A) : list A :=
  foldr (insert_sorted leb) [] l.

(** ** Finite sequences of steps *)
Inductive star {A : Type} (R : A → A → Prop) : A → A → Prop :=
| star_refl a : star R a a
| star_step a b c : R a b → star R b c → star R a c.

(** ** Lemma bases and tactics *)
Create HintDb asker.

Ltac simplify_result :=
  repeat match goal with
  | H : Ok _ = Ok _ |- _ => injection H as H; subst
  | H : Err _ = Err _ |- _ => injection H as H; subst
  | H : Ok _ = Err _ |- _ => discriminate H
  | H : Err _ = Ok _ |- _ => discriminate H
  end.

(** Split the [match]/[if] at the head of a hypothesis or of the goal. *)
Ltac case_match_in H :=
  match type of H with
  | context [match ?x with _ => _ end] => destruct x eqn:?
  end.

Ltac inv_pair := repeat match goal with
  | H : (_, _) = (_, _) |- _ => injection H as ? ?; subst
  end.

(** ** Lemmas on machine integers *)
Lemma wrap64_range z : int64_ok (wrap64 z).
Proof.
  unfold wrap64, int64_ok.
  pose proof (Z.mod_pos_bound (z + 2 ^ 63) (2 ^ 64) ltac:(lia)). lia.
Qed.

Lemma wrap64_id z : int64_ok z → wrap64 z = z.
Proof. unfold wrap64, int64_ok. intros. rewrite Z.mod_small; lia. Qed.

Lemma wrap64_wrap a b : wrap64 (wrap64 a + b) = wrap64 (a + b).
Proof.
  unfold wrap64. f_equal. replace ((a + 2 ^ 63) mod 2 ^ 64 - 2 ^ 63 + b + 2 ^ 63)%Z
    with ((a + 2 ^ 63) mod 2 ^ 64 + b)%Z by lia.
  rewrite Zplus_mod_idemp_l. f_equal. lia.
Qed.

Lemma wrap64_wrap_r a b : wrap64 (a + wrap64 b) = wrap64 (a + b).
Proof. rewrite Z.add_comm, wrap64_wrap. f_equal. lia. Qed.

Lemma wrap64_max : wrap64 (2 ^ 63 - 1 + 1) = (- 2 ^ 63)%Z.
Proof. reflexivity. Qed.

(** ** Lemmas on the string order *)
Lemma ascii_compare_trans a b c :
  Ascii.compare a b = Lt → Ascii.compare b c = Lt → Ascii.compare a c = Lt.
Proof.
  unfold Ascii.compare. rewrite !N.compare_lt_iff. lia.
Qed.

Lemma ascii_compare_eq a b : Ascii.compare a b = Eq ↔ a = b.
Proof.
  unfold Ascii.compare. rewrite N.compare_eq_iff. split; [|by intros ->].
  intros H. rewrite <- (Ascii.ascii_N_embedding a), <- (Ascii.ascii_N_embedding b).
  by rewrite H.
Qed.

Lemma string_compare_lt_trans a b c :
  String.compare a b = Lt → String.compare b c = Lt → String.compare a c = Lt.
Proof.
  revert b c. induction a as [|x a IH]; intros [|y b] [|z c]; simpl; try done.
  destruct (Ascii.compare x y) eqn:E1; destruct (Ascii.compare y z) eqn:E2; try done.
  - apply ascii_compare_eq in E1 as ->. rewrite E2. apply IH.
  - apply ascii_compare_eq in E1 as ->. by rewrite E2.
  - apply ascii_compare_eq in E2 as ->. by rewrite E1.
  - by rewrite (ascii_compare_trans _ _ _ E1 E2).
Qed.

Lemma string_compare_eq a b : String.compare a b = Eq ↔ a = b.
Proof.
  revert b. induction a as [|x a IH]; intros [|y b]; simpl; try done.
  destruct (Ascii.compare x y) eqn:E.
  - apply ascii_compare_eq in E as ->. rewrite IH. split; congruence.
  - split; [done|]. intros [= -> ->].
    assert (Ascii.compare y y = Eq) by by apply ascii_compare_eq. congruence.
  - split; [done|]. intros [= -> ->].
    assert (Ascii.compare y y = Eq) by by apply ascii_compare_eq. congruence.
Qed.

Lemma string_compare_antisym a b : String.compare a b = CompOpp (String.compare b a).
Proof.
  revert b. induction a as [|x a IH]; intros [|y b]; simpl; try done.
  unfold Ascii.compare. rewrite N.compare_antisym.
  destruct (N.compare _ _); simpl; auto.
Qed.

Lemma str_leb_total a b : str_leb a b = true ∨ str_leb b a = true.
Proof.
  unfold str_leb. rewrite (string_compare_antisym b a).
  destruct (String.compare a b); simpl; auto.
Qed.

Lemma str_leb_trans a b c :
  str_leb a b = true → str_leb b c = true → str_leb a c = true.
Proof.
  unfold str_leb.
  destruct (String.compare a b) eqn:E1; try done;
    destruct (String.compare b c) eqn:E2; try done; intros _ _.
  - apply string_compare_eq in E1 as ->. by rewrite E2.
  - apply string_compare_eq in E1 as ->. by rewrite E2.
  - apply string_compare_eq in E2 as ->. by rewrite E1.
  - by rewrite (string_compare_lt_trans _ _ _ E1 E2).
Qed.

Lemma str_leb_antisym a b :
  str_leb a b = true → str_leb b a = true → a = b.
Proof.
  unfold str_leb. rewrite (string_compare_antisym b a).
  destruct (String.compare a b) eqn:E; simpl; try done.
  intros _ _. by apply string_compare_eq.
Qed.

Lemma str_ltb_irrefl a : str_ltb a a = false.
Proof.
  unfold str_ltb. by rewrite (proj2 (string_compare_eq a a) eq_refl).
Qed.

Lemma str_ltb_trans a b c :
  str_ltb a b = true → str_ltb b c = true → str_ltb a c = true.
Proof.
  unfold str_ltb. destruct (String.compare a b) eqn:E1; try done.
  destruct (String.compare b c) eqn:E2; try done.
  by rewrite (string_compare_lt_trans _ _ _ E1 E2).
Qed.

Lemma str_ltb_leb a b : str_ltb a b = true ↔ str_leb a b = true ∧ a ≠ b.
Proof.
  unfold str_ltb, str_leb. rewrite <- string_compare_eq.
  destruct (String.compare a b); split; try done; intros [??]; done.
Qed.

(** ** Lemmas on sorting *)
Lemma sort_ext {A} (f g : A → A → bool) l : (∀ a b, f a b = g a b) → sort_by f l = sort_by g l.
Proof.
  intros Hfg. induction l as [|x l IH]; [done|]. simpl. rewrite IH. generalize (sort_by g l). clear IH l. intros l.
  induction l as [|y l IH]; [done|]. simpl. by rewrite Hfg, IH.
Qed.

Section sort.
Context {A : Type} (leb : A → A → bool).
Hypothesis leb_total : ∀ a b, leb a b = true ∨ leb b a = true.
Hypothesis leb_trans : ∀ a b c, leb a b = true → leb b c = true → leb a c = true.

Lemma insert_sorted_perm x l : insert_sorted leb x l ≡ₚ x :: l.
Proof using Type.
  induction l as [|y l IH]; simpl; [done|].
  destruct (leb x y); [done|]. rewrite IH. apply Permutation_swap.
Qed.

Lemma sort_by_perm l : sort_by leb l ≡ₚ l.
Proof using Type.
  induction l as [|x l IH]; simpl; [done|]. by rewrite insert_sorted_perm, IH.
Qed.

Lemma insert_sorted_sorted x l :
  StronglySorted leb l → StronglySorted leb (insert_sorted leb x l).
Proof using leb_total leb_trans.
  induction 1 as [|y l Hl IH Hall]; simpl; [repeat constructor|].
  destruct (leb x y) eqn:E.
  - constructor; [by constructor|]. constructor; [by rewrite E|].
    eapply Forall_impl; [exact Hall|]. intros z Hz. simpl in *.
    apply Is_true_true. apply Is_true_true in Hz. eauto.
  - constructor; [done|].
    rewrite insert_sorted_perm. constructor; [|done].
    apply Is_true_true. destruct (leb_total x y); congruence.
Qed.

Lemma sort_by_sorted l : StronglySorted leb (sort_by leb l).
Proof using leb_total leb_trans.
  induction l as [|x l IH]; simpl; [constructor|]. by apply insert_sorted_sorted.
Qed.

(** Two sorted permutations of a list are equal when the order is
    antisymmetric on its members: the result does not depend on the
    algorithm, nor on the order in which a map was iterated. *)
Lemma sorted_perm_unique l1 l2 :
  (∀ a b, a ∈ l1 → b ∈ l1 → leb a b = true → leb b a = true → a = b) →
  StronglySorted leb l1 → StronglySorted leb l2 → l1 ≡ₚ l2 → l1 = l2.
Proof using Type.
  intros Hanti H1. revert l2 Hanti.
  induction H1 as [|x l1 Hl1 IH Hall1]; intros l2 Hanti H2 Hp.
  - by apply Permutation_nil_l in Hp.
  - destruct H2 as [|y l2 Hl2 Hall2].
    { by apply Permutation_nil_r in Hp. }
    assert (x = y) as ->.
    { assert (Hxin : x ∈ y :: l2) by (rewrite <- Hp; left).
      assert (Hyin : y ∈ x :: l1) by (rewrite Hp; left).
      rewrite elem_of_cons in Hxin. rewrite elem_of_cons in Hyin.
      destruct Hxin as [->|Hxin]; [done|].
      destruct Hyin as [->|Hyin]; [done|].
      rewrite Forall_forall in Hall1, Hall2.
      apply Hanti; [left | by right | |]; apply Is_true_true; eauto. }
    f_equal. apply IH; [|done|].
    + intros a b Ha Hb. apply Hanti; by right.
    + by apply Permutation_cons_inv in Hp.
Qed.

Lemma sort_unique l1 l2 :
  (∀ a b, a ∈ l1 → b ∈ l1 → leb a b = true → leb b a = true → a = b) →
  l1 ≡ₚ l2 → sort_by leb l1 = sort_by leb l2.
Proof using leb_total leb_trans.
  intros Hanti Hp. apply sorted_perm_unique.
  - intros a b Ha Hb. rewrite sort_by_perm in Ha. rewrite sort_by_perm in Hb. auto.
  - apply sort_by_sorted.
  - apply sort_by_sorted.
  - by rewrite !sort_by_perm.
Qed.
End sort.

(** ** Lemmas on maps and lists *)
Lemma star_trans {A} (R : A → A → Prop) a b c :
  star R a b → star R b c → star R a c.
Proof. induction 1; eauto using star. Qed.

(** Invariants by rule induction. *)
Lemma star_invariant {A} (R : A → A → Prop) (I : A → Prop) :
  (∀ a b, I a → R a b → I b) → ∀ a b, star R a b → I a → I b.
Proof. intros HI a b. induction 1; eauto. Qed.

#[export] Hint Resolve str_leb_total str_leb_trans str_leb_antisym wrap64_range : asker.
