(* ===== verification/GoStrings.v ===== *)
(** * Go strings

    A Go string is a sequence of bytes; [string] (a list of 8-bit [ascii]
    characters) is used for it throughout.  This file models the functions of
    the Go package [strings] that the services call: [TrimSpace], [HasPrefix],
    [Split] and friends, byte for byte, including the multi-byte white space
    that [unicode.IsSpace] recognises in UTF-8 text. *)

From stdpp Require Import base strings list.
From Stdlib Require Import Ascii ZArith Lia.
From S2P Require Import Prelude.

Abbreviation bytes := (list ascii).

Definition to_bytes : string → bytes := String.list_ascii_of_string.
Definition of_bytes : bytes → string := String.string_of_list_ascii.

Definition byte_val (a : ascii) : N := N_of_ascii a.

Definition byte_in (lo hi : N) (a : ascii) : bool :=
  (lo <=? byte_val a)%N && (byte_val a <=? hi)%N.

(** ** [unicode.IsSpace] on UTF-8

    The ASCII members are 9-13 and 32; the two-byte ones are U+0085 and
    U+00A0; the three-byte ones U+1680, U+2000-200A, U+2028, U+2029, U+202F,
    U+205F and U+3000. *)
Definition is_space1 (a : ascii) : bool :=
  byte_in 9 13 a || (byte_val a =? 32)%N.

Definition is_space2 (a b : ascii) : bool :=
  (byte_val a =? 194)%N && ((byte_val b =? 133)%N || (byte_val b =? 160)%N).

Definition is_space3 (a b c : ascii) : bool :=
  let '(x, y, z) := (byte_val a, byte_val b, byte_val c) in
  ((x =? 225)%N && (y =? 154)%N && (z =? 128)%N)
  || ((x =? 226)%N && (y =? 128)%N
      && (byte_in 128 138 c || (z =? 168)%N || (z =? 169)%N || (z =? 175)%N))
  || ((x =? 226)%N && (y =? 129)%N && (z =? 159)%N)
  || ((x =? 227)%N && (y =? 128)%N && (z =? 128)%N).

Fixpoint trim_left (l : bytes) : bytes :=
  match l with
  | [] => []
  | a :: l1 =>
    if is_space1 a then trim_left l1
    else match l1 with
    | [] => l
    | b :: l2 =>
      if is_space2 a b then trim_left l2
      else match l2 with
      | [] => l
      | c :: l3 => if is_space3 a b c then trim_left l3 else l
      end
    end
  end.

(** The same from the right end, on the reversed bytes. *)
Fixpoint trim_right_rev (l : bytes) : bytes :=
  match l with
  | [] => []
  | a :: l1 =>
    if is_space1 a then trim_right_rev l1
    else match l1 with
    | [] => l
    | b :: l2 =>
      if is_space2 b a then trim_right_rev l2
      else match l2 with
      | [] => l
      | c :: l3 => if is_space3 c b a then trim_right_rev l3 else l
      end
    end
  end.

Definition trim_right (l : bytes) : bytes := rev (trim_right_rev (rev l)).

(** [strings.TrimSpace] *)
Definition TrimSpace (s : string) : string :=
  of_bytes (trim_right (trim_left (to_bytes s))).

(** [strings.HasPrefix] *)
Definition HasPrefix (s prefix : string) : bool := String.prefix prefix s.

(** [strings.Split(s, sep)] for a one-byte separator. *)
Fixpoint split_bytes (sep : ascii) (cur : bytes) (l : bytes) : list bytes :=
  match l with
  | [] => [rev cur]
  | a :: l' =>
    if Ascii.eqb a sep then rev cur :: split_bytes sep [] l'
    else split_bytes sep (a :: cur) l'
  end.

Definition Split (s : string) (sep : ascii) : list string :=
  of_bytes <$> split_bytes sep [] (to_bytes s).

(** [s[n:]] *)
Fixpoint drop_str (n : nat) (s : string) : string :=
  match n, s with
  | O, _ => s
  | S n', String _ s' => drop_str n' s'
  | S _, EmptyString => EmptyString
  end.

(** [s[:n]] *)
Fixpoint take_str (n : nat) (s : string) : string :=
  match n, s with
  | O, _ => EmptyString
  | S n', String a s' => String a (take_str n' s')
  | S _, EmptyString => EmptyString
  end.

Definition str_forallb (f : ascii → bool) (s : string) : bool :=
  forallb f (to_bytes s).

(** ** Lemmas *)
Lemma of_to_bytes s : of_bytes (to_bytes s) = s.
Proof. apply String.string_of_list_ascii_of_string. Qed.

Lemma to_of_bytes l : to_bytes (of_bytes l) = l.
Proof. apply String.list_ascii_of_string_of_list_ascii. Qed.

Lemma to_bytes_app s t : to_bytes (s +:+ t) = to_bytes s ++ to_bytes t.
Proof.
  unfold to_bytes. induction s as [|a s IH]; [done|]. simpl. by rewrite IH.
Qed.

Lemma to_bytes_inj s t : to_bytes s = to_bytes t → s = t.
Proof. intros H. by rewrite <- (of_to_bytes s), <- (of_to_bytes t), H. Qed.

Lemma length_to_bytes s : length (to_bytes s) = String.length s.
Proof. unfold to_bytes. induction s as [|a s IH]; simpl; congruence. Qed.

Lemma HasPrefix_spec s p : HasPrefix s p = true ↔ ∃ t, s = p +:+ t.
Proof.
  unfold HasPrefix. revert s. induction p as [|a p IH]; intros s.
  - split; [by exists s|by destruct s].
  - destruct s as [|b s]; [split; [done|]; by intros [t Ht]|].
    simpl. destruct (ascii_dec a b) as [->|Hab].
    + rewrite IH. split; intros [t Ht]; exists t; [by rewrite Ht|].
      change (String b s = String b (p +:+ t)) in Ht. congruence.
    + split; [done|]. intros [t Ht].
      change (String b s = String a (p +:+ t)) in Ht. congruence.
Qed.

Lemma drop_str_app p t : drop_str (String.length p) (p +:+ t) = t.
Proof. induction p as [|a p IH]; [by destruct t|exact IH]. Qed.

Lemma length_drop_str n s : String.length (drop_str n s) = String.length s - n.
Proof.
  revert s. induction n as [|n IH]; intros [|a s]; simpl; try lia. by rewrite IH.
Qed.

Lemma take_str_all n s : (String.length s <= n)%nat → take_str n s = s.
Proof.
  revert s. induction n as [|n IH]; intros [|a s] Hl; simpl in *; [done|lia|done|].
  rewrite IH; [done|lia].
Qed.

Lemma length_take_str n s : String.length (take_str n s) = Nat.min n (String.length s).
Proof.
  revert s. induction n as [|n IH]; intros [|a s]; simpl; try lia. by rewrite IH.
Qed.

Lemma str_app_inj_l p s t : p +:+ s = p +:+ t → s = t.
Proof.
  induction p as [|a p IH]; [done|].
  change (String a (p +:+ s) = String a (p +:+ t) → s = t).
  intros [= H]. by apply IH.
Qed.

Lemma str_forallb_app f s t :
  str_forallb f (s +:+ t) = str_forallb f s && str_forallb f t.
Proof. unfold str_forallb. by rewrite to_bytes_app, forallb_app. Qed.

(** A byte that occurs in a string whose bytes all satisfy [f] satisfies [f]. *)
Lemma str_forallb_elem f s a : str_forallb f s = true → a ∈ to_bytes s → f a = true.
Proof.
  unfold str_forallb. rewrite forallb_forall. intros H Ha.
  apply H. by apply list_elem_of_In.
Qed.

(** A separator cannot occur in the part before it: splitting a key at the
    first byte that the prefix alphabet excludes is unambiguous. *)
Lemma sep_unique (sep : ascii) (p1 p2 : bytes) (t1 t2 : bytes) :
  sep ∉ p1 → sep ∉ p2 → p1 ++ sep :: t1 = p2 ++ sep :: t2 → p1 = p2 ∧ t1 = t2.
Proof.
  revert p2. induction p1 as [|a p1 IH]; intros [|b p2] H1 H2; simpl.
  - by intros [= ->].
  - intros [= -> _]. destruct H2. left.
  - intros [= -> _]. destruct H1. left.
  - intros [= -> E]. rewrite not_elem_of_cons in H1, H2.
    destruct (IH p2) as [-> ->]; [naive_solver..|done].
Qed.

#[export] Hint Rewrite of_to_bytes to_of_bytes to_bytes_app : asker.

Lemma split_none sep cur l : sep ∉ l → split_bytes sep cur l = [rev cur ++ l].
Proof.
  revert cur. induction l as [|a l IH]; intros cur; [by rewrite app_nil_r|]. rewrite not_elem_of_cons. intros [Ha Hl]. cbn.
  destruct (Ascii.eqb_spec a sep); [congruence|]. rewrite IH by done. cbn. by rewrite <- app_assoc.
Qed.
