(* ===== verification/GoJson.v ===== *)
(** * JSON well-formedness

    [json.Valid] of the Go package [encoding/json], which the control plane
    applies to connector configurations and profiles: a byte-level pushdown
    automaton.  As in Go, strings are not checked to be UTF-8, control
    characters below U+0020 are refused in them, and arrays and objects may
    nest at most 10000 deep. *)

From stdpp Require Import base strings list.
From Stdlib Require Import Ascii ZArith Lia.
From S2P Require Import Prelude GoStrings.

Definition json_ws (a : ascii) : bool :=
  (byte_val a =? 32)%N || (byte_val a =? 9)%N || (byte_val a =? 10)%N || (byte_val a =? 13)%N.

Fixpoint skip_ws (l : bytes) : bytes :=
  match l with a :: l' => if json_ws a then skip_ws l' else l | [] => [] end.

Definition is_digit (a : ascii) : bool := byte_in 48 57 a.

Definition is_hex (a : ascii) : bool := is_digit a || byte_in 97 102 a || byte_in 65 70 a.

Fixpoint skip_digits (l : bytes) : bytes :=
  match l with a :: l' => if is_digit a then skip_digits l' else l | [] => [] end.

(** One or more digits. *)
Definition digits1 (l : bytes) : option bytes :=
  match l with a :: l' => if is_digit a then Some (skip_digits l') else None | [] => None end.

Definition json_exp (l : bytes) : option bytes :=
  match l with
  | a :: l1 =>
    if (byte_val a =? 101)%N || (byte_val a =? 69)%N then
      match l1 with
      | s :: l2 => if (byte_val s =? 43)%N || (byte_val s =? 45)%N then digits1 l2 else digits1 l1
      | [] => None
      end
    else Some l
  | [] => Some l
  end.

Definition json_frac (l : bytes) : option bytes :=
  match l with
  | a :: l1 => if (byte_val a =? 46)%N then digits1 l1 ≫= json_exp else json_exp l
  | [] => Some l
  end.

(** A number after its optional minus sign: no leading zero. *)
Definition json_unsigned (l : bytes) : option bytes :=
  match l with
  | a :: l1 =>
    if (byte_val a =? 48)%N then json_frac l1
    else if is_digit a then json_frac (skip_digits l1)
    else None
  | [] => None
  end.

Definition json_escape (e : ascii) : bool :=
  existsb (Ascii.eqb e) (to_bytes "bfnrt\/") || (byte_val e =? 34)%N.

(** A string after its opening quote. *)
Fixpoint json_string (l : bytes) : option bytes :=
  match l with
  | [] => None
  | a :: l1 =>
    if (byte_val a =? 34)%N then Some l1
    else if (byte_val a =? 92)%N then
      match l1 with
      | [] => None
      | e :: l2 =>
        if json_escape e then json_string l2
        else if (byte_val e =? 117)%N then
          match l2 with
          | h1 :: h2 :: h3 :: h4 :: l3 =>
            if is_hex h1 && is_hex h2 && is_hex h3 && is_hex h4 then json_string l3 else None
          | _ => None
          end
        else None
      end
    else if (byte_val a <? 32)%N then None
    else json_string l1
  end.

(** The rest of [l] after the literal [lit]. *)
Fixpoint json_lit (lit l : bytes) : option bytes :=
  match lit, l with
  | [], _ => Some l
  | a :: lit', b :: l' => if Ascii.eqb a b then json_lit lit' l' else None
  | _ :: _, [] => None
  end.

Inductive container := InArray | InObject.
Inductive json_mode := WantValue | WantKey | AfterValue.

Definition maxNestingDepth : nat := 10000.

(** One step of the automaton: the next mode, stack and input, or the
    verdict. *)
Definition json_step (m : json_mode) (stack : list container) (l : bytes)
    : bool + (json_mode * list container * bytes) :=
  match m, skip_ws l with
  | WantValue, a :: l1 =>
    let scalar (r : option bytes) :=
      match r with Some l2 => inr (AfterValue, stack, l2) | None => inl false end in
    let push (c : container) (empty : N) (next : json_mode) :=
      if bool_decide (maxNestingDepth ≤ length stack) then inl false
      else match skip_ws l1 with
      | b :: l2 =>
        if (byte_val b =? empty)%N then inr (AfterValue, stack, l2)
        else inr (next, c :: stack, l1)
      | [] => inl false
      end in
    if (byte_val a =? 34)%N then scalar (json_string l1)
    else if (byte_val a =? 123)%N then push InObject 125%N WantKey
    else if (byte_val a =? 91)%N then push InArray 93%N WantValue
    else if (byte_val a =? 45)%N then scalar (json_unsigned l1)
    else if (byte_val a =? 116)%N then scalar (json_lit (to_bytes "rue") l1)
    else if (byte_val a =? 102)%N then scalar (json_lit (to_bytes "alse") l1)
    else if (byte_val a =? 110)%N then scalar (json_lit (to_bytes "ull") l1)
    else scalar (json_unsigned (a :: l1))
  | WantKey, a :: l1 =>
    if (byte_val a =? 34)%N then
      match json_string l1 with
      | Some l2 =>
        match skip_ws l2 with
        | c :: l3 => if (byte_val c =? 58)%N then inr (WantValue, stack, l3) else inl false
        | [] => inl false
        end
      | None => inl false
      end
    else inl false
  | AfterValue, l1 =>
    match stack, l1 with
    | [], [] => inl true
    | c :: stack', a :: l2 =>
      let '(close, next) := match c with InArray => (93%N, WantValue) | InObject => (125%N, WantKey) end in
      if (byte_val a =? close)%N then inr (AfterValue, stack', l2)
      else if (byte_val a =? 44)%N then inr (next, stack, l2)
      else inl false
    | _, _ => inl false
    end
  | _, [] => inl false
  end.

Fixpoint json_run (fuel : nat) (m : json_mode) (stack : list container) (l : bytes) : bool :=
  match fuel with
  | O => false
  | S fuel' =>
    match json_step m stack l with
    | inl v => v
    | inr (m', stack', l') => json_run fuel' m' stack' l'
    end
  end.

(** [json.Valid] *)
Definition json_Valid (s : string) : bool :=
  json_run (S (String.length s)) WantValue [] (to_bytes s).

(** ** The fuel suffices: every step that goes on consumes a byte *)
Lemma skip_ws_le l : length (skip_ws l) ≤ length l.
Proof. induction l as [|a l IH]; simpl; [done|]. destruct (json_ws a); simpl; lia. Qed.

Lemma skip_digits_le l : length (skip_digits l) ≤ length l.
Proof. induction l as [|a l IH]; simpl; [done|]. destruct (is_digit a); simpl; lia. Qed.

Lemma digits1_le l r : digits1 l = Some r → length r ≤ length l.
Proof.
  destruct l as [|a l]; simpl; [done|]. destruct (is_digit a); [|done]. intros [= <-].
  pose proof (skip_digits_le l). lia.
Qed.

Lemma json_exp_le l r : json_exp l = Some r → length r ≤ length l.
Proof.
  destruct l as [|a l]; simpl; [by intros [= <-]|].
  destruct (_ || _); [|by intros [= <-]]. destruct l as [|s l]; [done|].
  destruct (_ || _); intros H%digits1_le; simpl in *; lia.
Qed.

Lemma json_frac_le l r : json_frac l = Some r → length r ≤ length l.
Proof.
  destruct l as [|a l]; [by intros [= <-]|]. unfold json_frac.
  destruct (byte_val a =? 46)%N; [|by intros ?%json_exp_le].
  intros (m & H1%digits1_le & H2%json_exp_le)%bind_Some. simpl. lia.
Qed.

Lemma json_unsigned_lt l r : json_unsigned l = Some r → length r < length l.
Proof.
  destruct l as [|a l]; simpl; [done|].
  destruct (byte_val a =? 48)%N; [intros H%json_frac_le; lia|].
  destruct (is_digit a); [|done]. intros H%json_frac_le.
  pose proof (skip_digits_le l). lia.
Qed.

Lemma json_string_lt l r : json_string l = Some r → length r < length l.
Proof.
  revert r. induction l as [l IH] using (induction_ltof1 _ (@length ascii)). unfold ltof in IH.
  intros r. destruct l as [|a l]; simpl; [done|].
  destruct (_ =? 34)%N; [intros [= <-]; lia|].
  destruct (_ =? 92)%N.
  - destruct l as [|e l]; [done|]. destruct (json_escape e).
    { intros H%IH; simpl in *; lia. }
    destruct (_ =? 117)%N; [|done]. destruct l as [|h1 [|h2 [|h3 [|h4 l]]]]; try done.
    destruct (_ && _); [|done]. intros H%IH; simpl in *; lia.
  - destruct (_ <? 32)%N; [done|]. intros H%IH; simpl in *; lia.
Qed.

Lemma json_lit_le lit l r : json_lit lit l = Some r → length r ≤ length l.
Proof.
  revert l. induction lit as [|a lit IH]; intros [|b l]; simpl; try done;
    try (by intros [= <-]).
  destruct (Ascii.eqb a b); [|done]. intros H%IH. lia.
Qed.

Lemma json_step_lt m stack l m' stack' l' :
  json_step m stack l = inr (m', stack', l') → length l' < length l.
Proof.
  unfold json_step. pose proof (skip_ws_le l) as Hws.
  destruct m; destruct (skip_ws l) as [|a l1] eqn:E; simpl in Hws; try done; clear E.
  - pose proof (skip_ws_le l1) as Hws1.
    repeat (case_match; try done); intros [= <- <- <-]; try lia;
      repeat match goal with
      | H : json_string _ = Some _ |- _ => apply json_string_lt in H
      | H : json_unsigned _ = Some _ |- _ => apply json_unsigned_lt in H; simpl in H
      | H : json_lit _ _ = Some _ |- _ => apply json_lit_le in H
      end; simpl in Hws1; lia.
  - destruct (_ =? 34)%N; [|done]. destruct (json_string l1) as [l2|] eqn:Es; [|done].
    apply json_string_lt in Es. pose proof (skip_ws_le l2) as Hws1.
    destruct (skip_ws l2) as [|c l3]; [done|]. simpl in Hws1.
    destruct (_ =? 58)%N; [|done]. intros [= <- <- <-]. lia.
  - by destruct stack.
  - destruct stack as [|c stack]; [done|]. destruct c;
      repeat (case_match; try done); intros [= <- <- <-]; simpl in *; lia.
Qed.

Lemma json_run_fuel f1 f2 m stack l :
  length l < f1 → length l < f2 → json_run f1 m stack l = json_run f2 m stack l.
Proof.
  revert f2 m stack l. induction f1 as [|f1 IH]; intros [|f2] m stack l H1 H2; try lia.
  simpl. destruct (json_step m stack l) as [v|[[m' stack'] l']] eqn:E; [done|].
  apply json_step_lt in E. apply IH; lia.
Qed.
