(* ===== verification/Tenancy.v ===== *)
(** * Tenant identity

    Models [platform/tenancy] (tenancy.go, header.go), the gRPC interceptors
    of [platform/tenancy/tenancygrpc] and the control plane's
    [tenantInterceptorSkipping].  A [Context] can only be built from verified
    claims or from a re-validated header value, and the interceptors are the
    only way it crosses an internal RPC. *)

From stdpp Require Import base gmap strings list pretty.
From Stdlib Require Import Ascii ZArith Lia.
From S2P Require Import Prelude GoStrings.

Abbreviation TenantID := string (only parsing).

(** [tenancy.Context] *)
Record Context := mkContext {
  tenantID : TenantID;
  subject : string
}.

(** [ErrNoTenant], [ErrInvalidTenant] *)
Inductive TenErr := ErrNoTenant | ErrInvalidTenant.

(** A claim value of type [any]: a string, or a value of another type. *)
Inductive AnyVal := AnyString (s : string) | AnyOther.

(** [tenantPattern]: [^[A-Za-z0-9._-]{1,128}$] *)
Definition tenant_byte (a : ascii) : bool :=
  byte_in 65 90 a || byte_in 97 122 a || byte_in 48 57 a
  || (byte_val a =? 46)%N || (byte_val a =? 95)%N || (byte_val a =? 45)%N.

Definition tenantPattern (s : string) : bool :=
  (1 <=? String.length s) && (String.length s <=? 128) && str_forallb tenant_byte s.

Definition validTenant (s : string) : bool :=
  if String.eqb s "." || String.eqb s ".." then false else tenantPattern s.

Definition stringClaim (v : AnyVal) : option string :=
  match v with
  | AnyOther => None
  | AnyString s =>
    let s := TrimSpace s in
    if String.eqb s "" then None else Some s
  end.

Definition FromClaims (claims : gmap string AnyVal) : result TenErr Context :=
  let tenantRaw := claims !! "tenant_id" in
  let subRaw := claims !! "sub" in
  match tenantRaw, subRaw with
  | None, None => Err ErrNoTenant
  | _, _ =>
    let tenantVal := match tenantRaw with Some v => Some v | None => subRaw end in
    match tenantVal ≫= stringClaim with
    | None => Err ErrInvalidTenant
    | Some tenant =>
      if validTenant tenant then
        let subject :=
          match subRaw ≫= stringClaim with Some s => s | None => tenant end in
        Ok (mkContext tenant subject)
      else Err ErrInvalidTenant
    end
  end.

(** The parts of a Go [context.Context] the services use: its error at the
    instant of a call, the tenant stored by [WithContext], and the incoming
    and outgoing gRPC metadata. *)
Record Ctx := mkCtx {
  ctx_err : option CtxErr;
  ctx_tenant : option Context;
  ctx_md_in : option (gmap string (list string));
  ctx_md_out : gmap string (list string)
}.

Definition WithContext (ctx : Ctx) (tc : Context) : Ctx :=
  mkCtx ctx.(ctx_err) (Some tc) ctx.(ctx_md_in) ctx.(ctx_md_out).

Definition FromContext (ctx : Ctx) : result TenErr Context :=
  match ctx.(ctx_tenant) with
  | Some tc => if String.eqb tc.(tenantID) "" then Err ErrNoTenant else Ok tc
  | None => Err ErrNoTenant
  end.

(** header.go *)
Definition HeaderValue (tc : Context) : string := tc.(tenantID).

Definition FromHeaderValue (v : string) : result TenErr Context :=
  if validTenant v then Ok (mkContext v v) else Err ErrInvalidTenant.

(** ** gRPC status values *)
Inductive code :=
| OK | CanceledCode | UnknownCode | InvalidArgument | DeadlineExceededCode | NotFound
| AlreadyExists | PermissionDenied | ResourceExhausted | FailedPrecondition | Internal
| Unavailable | Unauthenticated.

#[global] Instance code_eq_dec : EqDecision code.
Proof. solve_decision. Defined.

Record Status := mkStatus { st_code : code; st_msg : string }.

(** ** [tenancygrpc] *)
Definition MetadataKey : string := "x-asker-tenant".

(** [md.Get(key)]: the values under the (lower-case) key. *)
Definition md_get (md : gmap string (list string)) (k : string) : list string :=
  default [] (md !! k).

(** [metadata.AppendToOutgoingContext] *)
Definition AppendToOutgoingContext (ctx : Ctx) (k v : string) : Ctx :=
  mkCtx ctx.(ctx_err) ctx.(ctx_tenant) ctx.(ctx_md_in)
    (<[k := md_get ctx.(ctx_md_out) k ++ [v]]> ctx.(ctx_md_out)).

(** What the transport does with a call: the outgoing metadata of the client
    becomes the incoming metadata of the server, whose context carries no
    tenant of its own yet. *)
Definition wire (ctx : Ctx) : Ctx :=
  mkCtx ctx.(ctx_err) None (Some ctx.(ctx_md_out)) ∅.

Section interceptors.
Context {R : Type}.

Definition UnaryClientInterceptor (ctx : Ctx) (method : string)
    (invoker : Ctx → result Status R) : result Status R :=
  match FromContext ctx with
  | Err _ => Err (mkStatus FailedPrecondition
      ("tenancygrpc: refusing tenant-less call to " +:+ method))
  | Ok tc => invoker (AppendToOutgoingContext ctx MetadataKey (HeaderValue tc))
  end.

Definition UnaryServerInterceptor (ctx : Ctx) (fullMethod : string)
    (handler : Ctx → result Status R) : result Status R :=
  match ctx.(ctx_md_in) with
  | None => Err (mkStatus Unauthenticated
      ("tenancygrpc: missing metadata on " +:+ fullMethod))
  | Some md =>
    match md_get md MetadataKey with
    | [] => Err (mkStatus Unauthenticated
        ("tenancygrpc: missing " +:+ MetadataKey +:+ " metadata on " +:+ fullMethod))
    | [v] =>
      match FromHeaderValue v with
      | Err _ => Err (mkStatus Unauthenticated
          ("tenancygrpc: invalid " +:+ MetadataKey +:+ " metadata on " +:+ fullMethod))
      | Ok tc => handler (WithContext ctx tc)
      end
    | vals => Err (mkStatus Unauthenticated
        ("tenancygrpc: " +:+ pretty (length vals) +:+ " " +:+ MetadataKey
         +:+ " metadata values on " +:+ fullMethod +:+ ", want exactly 1"))
    end
  end.

(** control-plane/scheduler.go *)
Definition tenantInterceptorSkipping (exempt : list string) (ctx : Ctx)
    (fullMethod : string) (handler : Ctx → result Status R) : result Status R :=
  if bool_decide (fullMethod ∈ exempt) then handler ctx
  else UnaryServerInterceptor ctx fullMethod handler.
End interceptors.

(** ** Lemmas *)

(** A well-formed tenant identity. *)
Definition valid_ctx (tc : Context) : Prop := validTenant tc.(tenantID) = true.

Lemma validTenant_pattern s : validTenant s = true → tenantPattern s = true.
Proof. unfold validTenant. by destruct (_ || _). Qed.

Lemma validTenant_nonempty s : validTenant s = true → s ≠ "".
Proof. by intros H ->. Qed.

Lemma validTenant_bytes s a :
  validTenant s = true → a ∈ to_bytes s → tenant_byte a = true.
Proof.
  intros Hv. apply validTenant_pattern in Hv.
  unfold tenantPattern in Hv. rewrite !andb_true_iff in Hv.
  destruct Hv as [_ Hf]. by apply str_forallb_elem.
Qed.

Lemma validTenant_no_byte s a :
  validTenant s = true → tenant_byte a = false → a ∉ to_bytes s.
Proof. intros Hv Ha Hin. pose proof (validTenant_bytes _ _ Hv Hin). congruence. Qed.

Lemma FromHeaderValue_Ok v tc :
  FromHeaderValue v = Ok tc ↔ validTenant v = true ∧ tc = mkContext v v.
Proof.
  unfold FromHeaderValue. destruct (validTenant v); split.
  - by intros [= <-].
  - by intros [_ ->].
  - done.
  - by intros [? _].
Qed.

Lemma FromContext_Ok ctx tc :
  FromContext ctx = Ok tc ↔ ctx.(ctx_tenant) = Some tc ∧ tc.(tenantID) ≠ "".
Proof.
  unfold FromContext. destruct (ctx_tenant ctx) as [c|]; [|naive_solver].
  destruct (String.eqb_spec (tenantID c) ""); split; try naive_solver congruence.
Qed.

Lemma FromContext_WithContext ctx tc :
  valid_ctx tc → FromContext (WithContext ctx tc) = Ok tc.
Proof.
  intros Hv. apply FromContext_Ok. split; [done|]. by apply validTenant_nonempty.
Qed.

#[export] Hint Resolve validTenant_nonempty FromContext_WithContext : asker.

(** ** Theorems *)

(** Derivation of the tenant: [FromClaims] yields a context only for a
    syntactically valid tenant, taken from the trimmed [tenant_id] claim, and
    from [sub] only when [tenant_id] is absent: a present but unusable
    [tenant_id] never falls back.  [ErrNoTenant] means neither claim exists. *)
Theorem from_claims_spec (claims : gmap string AnyVal) :
  let chosen := match claims !! "tenant_id" with Some v => Some v | None => claims !! "sub" end in
  match FromClaims claims with
  | Ok tc =>
    validTenant (tenantID tc) = true ∧ subject tc ≠ "" ∧
    ∃ raw, chosen = Some (AnyString raw) ∧ tenantID tc = TrimSpace raw
  | Err ErrNoTenant => claims !! "tenant_id" = None ∧ claims !! "sub" = None
  | Err ErrInvalidTenant =>
    ∃ v, chosen = Some v ∧
      match v with AnyString raw => validTenant (TrimSpace raw) = false | AnyOther => True end
  end.
Proof.
  assert (Hsc : ∀ v s, stringClaim v = Some s →
    s ≠ "" ∧ ∃ raw, v = AnyString raw ∧ s = TrimSpace raw).
  { intros [raw|] s; simpl; [|done].
    destruct (String.eqb_spec (TrimSpace raw) ""); [done|]. intros [= <-]. eauto. }
  assert (Hnone : ∀ v, stringClaim v = None →
    match v with AnyString raw => validTenant (TrimSpace raw) = false | AnyOther => True end).
  { intros [raw|]; simpl; [|done]. by destruct (String.eqb_spec (TrimSpace raw) "") as [->|]. }
  intros chosen. unfold FromClaims.
  set (tr := claims !! "tenant_id") in *. set (sr := claims !! "sub") in *.
  assert (Hsub : ∀ tenant, tenant ≠ "" →
    match sr ≫= stringClaim with Some s => s | None => tenant end ≠ "").
  { intros tenant Ht. destruct (sr ≫= stringClaim) as [s|] eqn:E; [|done].
    apply bind_Some in E as (v & _ & Hv). by destruct (Hsc _ _ Hv). }
  change (match tr with Some v => Some v | None => sr end) with chosen.
  assert (Hmain : (tr = None ∧ sr = None ∧ chosen = None) ∨ ∃ v, chosen = Some v).
  { unfold chosen. destruct tr, sr; eauto. }
  destruct Hmain as [(-> & -> & _)|(v & Hv)]; [done|].
  assert (Hred : ∀ (X : result TenErr Context),
    match tr, sr with None, None => Err ErrNoTenant | _, _ => X end = X).
  { intros X. unfold chosen in Hv. by destruct tr, sr. }
  rewrite Hred, Hv. simpl. destruct (stringClaim v) as [s|] eqn:Es;
    [|exists v; split; [done|by apply Hnone]].
  destruct (Hsc _ _ Es) as (Hs & raw & -> & ->).
  destruct (validTenant (TrimSpace raw)) eqn:Ev; simpl; [|by exists (AnyString raw)].
  split_and!; [done|by apply Hsub|eauto].
Qed.

(** An internal hop carries the tenant unchanged: what the client
    interceptor sends, the server interceptor of the callee re-validates and
    installs, so the handler sees exactly the caller's tenant. *)
Theorem hop_preserves_tenant {R} ctx tc method (handler : Ctx → result Status R) :
  FromContext ctx = Ok tc → validTenant (tenantID tc) = true →
  md_get (ctx_md_out ctx) MetadataKey = [] →
  ∃ sctx, FromContext sctx = Ok (mkContext (tenantID tc) (tenantID tc)) ∧
    UnaryClientInterceptor ctx method
      (λ c, UnaryServerInterceptor (wire c) method handler) = handler sctx.
Proof.
  intros Hctx Hv Hmd. unfold UnaryClientInterceptor. rewrite Hctx.
  unfold UnaryServerInterceptor, wire, AppendToOutgoingContext. simpl.
  unfold md_get at 1. rewrite lookup_insert_eq, Hmd. simpl.
  unfold FromHeaderValue, HeaderValue. rewrite Hv.
  eexists. split; [|reflexivity]. by apply FromContext_WithContext.
Qed.

(** The control plane's gate fails closed: outside the exact exempt
    methods, either exactly one valid tenant value arrives and the handler runs
    under that tenant, or the call is refused as Unauthenticated before any
    handler runs. *)
Theorem interceptor_fails_closed {R} exempt ctx method (handler : Ctx → result Status R) :
  method ∉ exempt →
  (∃ v, ctx_md_in ctx ≫= (λ md, md !! MetadataKey) = Some [v] ∧ validTenant v = true ∧
     tenantInterceptorSkipping exempt ctx method handler
     = handler (WithContext ctx (mkContext v v))) ∨
  (∃ st, tenantInterceptorSkipping exempt ctx method handler = Err st ∧
     st_code st = Unauthenticated).
Proof.
  intros Hex. unfold tenantInterceptorSkipping. rewrite bool_decide_false by done.
  unfold UnaryServerInterceptor. destruct (ctx_md_in ctx) as [md|]; simpl; [|eauto].
  unfold md_get. destruct (md !! MetadataKey) as [vals|]; simpl; [|eauto].
  destruct vals as [|v [|v' vs]]; [eauto| |eauto].
  unfold FromHeaderValue. destruct (validTenant v) eqn:E; eauto 6.
Qed.

(** ** Witnesses *)
Definition demo_tenant_ctx : Ctx :=
  mkCtx None (Some (mkContext "alice" "sub-1")) None ∅.

Lemma hop_preserves_tenant_witness :
  ∃ sctx, FromContext sctx = Ok (mkContext "alice" "alice") ∧
    UnaryClientInterceptor demo_tenant_ctx "/m"
      (λ c, UnaryServerInterceptor (wire c) "/m" (λ c, Ok (ctx_tenant c))) = Ok (ctx_tenant sctx).
Proof.
  apply (hop_preserves_tenant demo_tenant_ctx (mkContext "alice" "sub-1") "/m"
    (λ c, Ok (ctx_tenant c))); reflexivity.
Defined.

Lemma interceptor_fails_closed_witness :
  (∃ v, ctx_md_in demo_tenant_ctx ≫= (λ md, md !! MetadataKey) = Some [v] ∧ validTenant v = true ∧
     tenantInterceptorSkipping ["/admin"] demo_tenant_ctx "/m" (λ c, Ok (ctx_tenant c))
     = Ok (ctx_tenant (WithContext demo_tenant_ctx (mkContext v v)))) ∨
  (∃ st, tenantInterceptorSkipping ["/admin"] demo_tenant_ctx "/m" (λ c, Ok (ctx_tenant c)) = Err st ∧
     st_code st = Unauthenticated).
Proof.
  apply (interceptor_fails_closed ["/admin"] demo_tenant_ctx "/m" (λ c, Ok (ctx_tenant c))).
  rewrite list_elem_of_singleton. discriminate.
Defined.
