(* ===== verification/Store.v ===== *)
(** * The control-plane store

    Models [services/control-plane/store.go] (the row types, the [Store]
    persistence interface) and [store_mem.go] ([memStore], its in-memory
    implementation).  A method is a function from the store state to the
    method's result and the new state: the mutex makes every method one
    atomic step.  [time.Now()] and [uuid.NewString()] are read from an [Env].
    A [range] over a Go map is a fold over the map in an unspecified order. *)

From stdpp Require Import base gmap strings list.
From Stdlib Require Import ZArith Lia.
From S2P Require Import Prelude GoStrings Tenancy.

(** ** Errors and rows (store.go) *)
Inductive StoreErr :=
| ErrNotFound
| ErrQuotaExceeded
| ErrCtx (e : CtxErr)
| ErrOther (msg : string).

Record Tenant := mkTenant { ten_id : TenantID; ten_created : Z }.

Record PurgeCounts := mkPurgeCounts { pc_instances : Z; pc_tokens : Z }.

Record TenantUsage := mkTenantUsage {
  tu_tenant : TenantID;
  tu_created : Z;
  tu_instances : Z;
  tu_docs : Z;
  tu_suspended : bool
}.

Record ConnectorInstance := mkInstance {
  ci_id : string;
  ci_tenant : TenantID;
  ci_connector : string;
  ci_display : string;
  ci_config : string;
  ci_status : string;
  ci_created : Z;
  ci_updated : Z
}.

Record SyncState := mkSyncState {
  ss_instance : string;
  ss_tenant : TenantID;
  ss_cursor : string;
  ss_phase : string;
  ss_started : option Z;
  ss_completed : option Z;
  ss_last_error : string;
  ss_docs : Z
}.

Record UserPreferences := mkPrefs {
  up_profile : string;
  up_version : Z;
  up_exists : bool
}.

Record LearnedWeights := mkWeights {
  lw_weights : string;
  lw_samples : Z;
  lw_exists : bool
}.

Record FeedbackEvent := mkFeedback {
  fe_doc : string;
  fe_type : string;
  fe_connector : string;
  fe_action : string;
  fe_dwell : Z;
  fe_query : string
}.

#[global] Instance ConnectorInstance_eq_dec : EqDecision ConnectorInstance.
Proof. solve_decision. Defined.

(** The zero values Go reads from a map without the key. *)
Definition zeroPrefs : UserPreferences := mkPrefs "" 0 false.
Definition zeroWeights : LearnedWeights := mkWeights "" 0 false.

(** ** The persistence interface (store.go, [Store]) *)
Class Store (S : Type) := {
  Store_EnsureTenant : Env → Ctx → TenantID → S → result StoreErr Tenant * S;
  Store_CreateConnectorInstance :
    Env → Ctx → ConnectorInstance → Z → S → result StoreErr ConnectorInstance * S;
  Store_ListConnectorInstances : Ctx → TenantID → S → result StoreErr (list ConnectorInstance);
  Store_GetConnectorInstance : Ctx → TenantID → string → S → result StoreErr ConnectorInstance;
  Store_DeleteConnectorInstance : Ctx → TenantID → string → S → result StoreErr unit * S;
  Store_GetSyncState : Ctx → TenantID → string → S → result StoreErr SyncState;
  Store_SetSyncState : Ctx → TenantID → SyncState → S → result StoreErr SyncState * S;
  Store_PutToken : Ctx → TenantID → string → string → S → result StoreErr unit * S;
  Store_GetToken : Ctx → TenantID → string → S → result StoreErr string;
  Store_DeleteToken : Ctx → TenantID → string → S → result StoreErr unit * S;
  Store_ListAll : Ctx → S → result StoreErr (list ConnectorInstance);
  Store_CountConnectorInstances : Ctx → TenantID → S → result StoreErr Z;
  Store_PurgeTenant : Ctx → TenantID → S → result StoreErr PurgeCounts * S;
  Store_TenantResidue : Ctx → TenantID → S → result StoreErr bool;
  Store_ListTenants : Ctx → string → Z → S → result StoreErr (list TenantUsage);
  Store_GetTenantUsage : Ctx → TenantID → S → result StoreErr TenantUsage;
  Store_SetTenantConnectorStatus : Env → Ctx → TenantID → string → S → result StoreErr Z * S;
  Store_GetPersonalization :
    Ctx → TenantID → S → result StoreErr (UserPreferences * LearnedWeights);
  Store_PutPreferences : Env → Ctx → TenantID → string → S → result StoreErr Z * S;
  Store_AppendFeedback : Env → Ctx → TenantID → FeedbackEvent → S → result StoreErr unit * S;
  Store_UpdateLearnedWeights : Env → Ctx → TenantID →
    (string → Z → result StoreErr (string * Z)) → S → result StoreErr unit * S;
  Store_ResetLearning : Ctx → TenantID → S → result StoreErr Z * S
}.

(** ** [memStore] (store_mem.go) *)
Module memStore.

Record memToken := mkToken { tok_tenant : TenantID; tok_cipher : string }.

Record memStore := mk {
  tenants : gmap TenantID Z;
  instances : gmap string ConnectorInstance;
  syncs : gmap string SyncState;
  tokens : gmap string memToken;
  prefs : gmap TenantID UserPreferences;
  weights : gmap TenantID LearnedWeights;
  feedback : gmap TenantID (list FeedbackEvent)
}.

Definition newMemStore : memStore := mk ∅ ∅ ∅ ∅ ∅ ∅ ∅.

(** The guard every method starts with: [if err := ctx.Err(); err != nil]. *)
Definition guarded {A} (ctx : Ctx) (m : memStore)
    (k : result StoreErr A * memStore) : result StoreErr A * memStore :=
  match ctx.(ctx_err) with Some e => (Err (ErrCtx e), m) | None => k end.

Definition guarded_read {A} (ctx : Ctx) (k : result StoreErr A) : result StoreErr A :=
  match ctx.(ctx_err) with Some e => Err (ErrCtx e) | None => k end.

Definition set_tenants f m := mk (f (tenants m)) (instances m) (syncs m) (tokens m) (prefs m) (weights m) (feedback m).
Definition set_instances f m := mk (tenants m) (f (instances m)) (syncs m) (tokens m) (prefs m) (weights m) (feedback m).
Definition set_syncs f m := mk (tenants m) (instances m) (f (syncs m)) (tokens m) (prefs m) (weights m) (feedback m).
Definition set_tokens f m := mk (tenants m) (instances m) (syncs m) (f (tokens m)) (prefs m) (weights m) (feedback m).
Definition set_prefs f m := mk (tenants m) (instances m) (syncs m) (tokens m) (f (prefs m)) (weights m) (feedback m).
Definition set_weights f m := mk (tenants m) (instances m) (syncs m) (tokens m) (prefs m) (f (weights m)) (feedback m).
Definition set_feedback f m := mk (tenants m) (instances m) (syncs m) (tokens m) (prefs m) (weights m) (f (feedback m)).

(** [if _, ok := m.tenants[id]; !ok { m.tenants[id] = time.Now().UTC() }] *)
Definition ensureRow (t : TenantID) (now : Z) (m : memStore) : memStore :=
  match tenants m !! t with
  | Some _ => m
  | None => set_tenants (insert t now) m
  end.

Definition EnsureTenant (env : Env) (ctx : Ctx) (t : TenantID) (m : memStore)
    : result StoreErr Tenant * memStore :=
  guarded ctx m
    match tenants m !! t with
    | Some created => (Ok (mkTenant t created), m)
    | None =>
      let created := clock env 0 in
      (Ok (mkTenant t created), set_tenants (insert t created) m)
    end.

(** The loop that counts a tenant's instances. *)
Definition countOwned (t : TenantID) (insts : gmap string ConnectorInstance) : Z :=
  map_fold (λ _ inst n, if String.eqb (ci_tenant inst) t then (n + 1)%Z else n) 0%Z insts.

Definition cloneInstance (inst : ConnectorInstance) : ConnectorInstance := inst.

Definition CreateConnectorInstance (env : Env) (ctx : Ctx) (inst : ConnectorInstance)
    (maxInstances : Z) (m : memStore) : result StoreErr ConnectorInstance * memStore :=
  guarded ctx m
    (if (0 <? maxInstances)%Z
        && (maxInstances <=? countOwned (ci_tenant inst) (instances m))%Z
     then (Err ErrQuotaExceeded, m)
     else
       let m := ensureRow (ci_tenant inst) (clock env 0) m in
       let now := clock env 1 in
       let inst := mkInstance (new_uuid env) (ci_tenant inst) (ci_connector inst)
         (ci_display inst) (ci_config inst) (ci_status inst) now now in
       (Ok (cloneInstance inst), set_instances (insert (ci_id inst) inst) m)).

(** The comparison of [ListConnectorInstances]: creation time, then ID. *)
Definition inst_leb (a b : ConnectorInstance) : bool :=
  match (ci_created a ?= ci_created b)%Z with
  | Lt => true
  | Gt => false
  | Eq => str_leb (ci_id a) (ci_id b)
  end.

(** The comparison of [ListAll]: tenant, then creation time, then ID. *)
Definition all_leb (a b : ConnectorInstance) : bool :=
  match String.compare (ci_tenant a) (ci_tenant b) with
  | Lt => true
  | Gt => false
  | Eq => inst_leb a b
  end.

Definition ListConnectorInstances (ctx : Ctx) (t : TenantID) (m : memStore)
    : result StoreErr (list ConnectorInstance) :=
  guarded_read ctx
    (Ok (sort_by inst_leb ((λ kv, cloneInstance kv.2) <$>
       base.filter (λ kv, ci_tenant kv.2 = t) (map_to_list (instances m))))).

Definition ownedInstance (t : TenantID) (id : string) (m : memStore) : option ConnectorInstance :=
  match instances m !! id with
  | Some inst => if String.eqb (ci_tenant inst) t then Some inst else None
  | None => None
  end.

Definition GetConnectorInstance (ctx : Ctx) (t : TenantID) (id : string) (m : memStore)
    : result StoreErr ConnectorInstance :=
  guarded_read ctx
    match ownedInstance t id m with
    | Some inst => Ok (cloneInstance inst)
    | None => Err ErrNotFound
    end.

Definition DeleteConnectorInstance (ctx : Ctx) (t : TenantID) (id : string) (m : memStore)
    : result StoreErr unit * memStore :=
  guarded ctx m
    match ownedInstance t id m with
    | None => (Err ErrNotFound, m)
    | Some _ =>
      (Ok tt, set_tokens (delete id) (set_syncs (delete id) (set_instances (delete id) m)))
    end.

Definition cloneSyncState (st : SyncState) : SyncState := st.

Definition GetSyncState (ctx : Ctx) (t : TenantID) (id : string) (m : memStore)
    : result StoreErr SyncState :=
  guarded_read ctx
    match ownedInstance t id m with
    | None => Err ErrNotFound
    | Some _ =>
      match syncs m !! id with
      | None => Ok (mkSyncState id t "" "PENDING" None None "" 0)
      | Some st => Ok (cloneSyncState st)
      end
    end.

Definition with_tenant (st : SyncState) (t : TenantID) : SyncState :=
  mkSyncState (ss_instance st) t (ss_cursor st) (ss_phase st) (ss_started st)
    (ss_completed st) (ss_last_error st) (ss_docs st).

Definition SetSyncState (ctx : Ctx) (t : TenantID) (st : SyncState) (m : memStore)
    : result StoreErr SyncState * memStore :=
  guarded ctx m
    match ownedInstance t (ss_instance st) m with
    | None => (Err ErrNotFound, m)
    | Some _ =>
      let st := cloneSyncState (with_tenant st t) in
      (Ok (cloneSyncState st), set_syncs (insert (ss_instance st) st) m)
    end.

Definition PutToken (ctx : Ctx) (t : TenantID) (id ciphertext : string) (m : memStore)
    : result StoreErr unit * memStore :=
  guarded ctx m
    match ownedInstance t id m with
    | None => (Err ErrNotFound, m)
    | Some _ => (Ok tt, set_tokens (insert id (mkToken t ciphertext)) m)
    end.

Definition ownedToken (t : TenantID) (id : string) (m : memStore) : option memToken :=
  match tokens m !! id with
  | Some tok => if String.eqb (tok_tenant tok) t then Some tok else None
  | None => None
  end.

Definition GetToken (ctx : Ctx) (t : TenantID) (id : string) (m : memStore)
    : result StoreErr string :=
  guarded_read ctx
    match ownedToken t id m with
    | None => Err ErrNotFound
    | Some tok => Ok (tok_cipher tok)
    end.

Definition DeleteToken (ctx : Ctx) (t : TenantID) (id : string) (m : memStore)
    : result StoreErr unit * memStore :=
  guarded ctx m
    match ownedToken t id m with
    | None => (Err ErrNotFound, m)
    | Some _ => (Ok tt, set_tokens (delete id) m)
    end.

Definition ListAll (ctx : Ctx) (m : memStore) : result StoreErr (list ConnectorInstance) :=
  guarded_read ctx
    (Ok (sort_by all_leb ((λ kv, cloneInstance kv.2) <$> map_to_list (instances m)))).

Definition CountConnectorInstances (ctx : Ctx) (t : TenantID) (m : memStore)
    : result StoreErr Z :=
  guarded_read ctx (Ok (countOwned t (instances m))).

(** One round of the [PurgeTenant] loop: the entry [(id, inst)] of the map. *)
Definition purge_round (t : TenantID) (id : string) (inst : ConnectorInstance)
    (acc : PurgeCounts * memStore) : PurgeCounts * memStore :=
  let '(counts, m) := acc in
  if String.eqb (ci_tenant inst) t then
    let counts := mkPurgeCounts (pc_instances counts + 1) (pc_tokens counts) in
    let '(counts, m) :=
      match ownedToken t id m with
      | Some _ => (mkPurgeCounts (pc_instances counts) (pc_tokens counts + 1),
                   set_tokens (delete id) m)
      | None => (counts, m)
      end in
    (counts, set_syncs (delete id) (set_instances (delete id) m))
  else (counts, m).

Definition PurgeTenant (ctx : Ctx) (t : TenantID) (m : memStore)
    : result StoreErr PurgeCounts * memStore :=
  guarded ctx m
    (let '(counts, m) :=
       map_fold (purge_round t) (mkPurgeCounts 0 0, m) (instances m) in
     (Ok counts,
      set_feedback (delete t) (set_weights (delete t) (set_prefs (delete t)
        (set_tenants (delete t) m))))).

Definition TenantResidue (ctx : Ctx) (t : TenantID) (m : memStore) : result StoreErr bool :=
  guarded_read ctx
    (if bool_decide (is_Some (tenants m !! t)) then Ok false
     else if existsb (λ kv, String.eqb (ci_tenant kv.2) t) (map_to_list (instances m)) then Ok false
     else if existsb (λ kv, String.eqb (tok_tenant kv.2) t) (map_to_list (tokens m)) then Ok false
     else if bool_decide (is_Some (prefs m !! t)) then Ok false
     else if bool_decide (is_Some (weights m !! t)) then Ok false
     else if bool_decide (0 < length (default [] (feedback m !! t))) then Ok false
     else Ok true).

(** One round of the [usageLocked] loop; [docs] wraps like an [int64]. *)
Definition usage_round (t : TenantID) (m : memStore) (id : string) (inst : ConnectorInstance)
    (acc : Z * Z * Z) : Z * Z * Z :=
  let '(n, paused, docs) := acc in
  if String.eqb (ci_tenant inst) t then
    ((n + 1)%Z,
     if String.eqb (ci_status inst) "PAUSED" then (paused + 1)%Z else paused,
     match syncs m !! id with
     | Some st => wrap64 (docs + ss_docs st)
     | None => docs
     end)
  else (n, paused, docs).

Definition usageLocked (t : TenantID) (created : Z) (m : memStore) : TenantUsage :=
  let '(n, paused, docs) := map_fold (usage_round t m) (0, 0, 0)%Z (instances m) in
  mkTenantUsage t created n docs ((0 <? n)%Z && (paused =? n)%Z).

Definition ListTenants (ctx : Ctx) (after : string) (limit : Z) (m : memStore)
    : result StoreErr (list TenantUsage) :=
  guarded_read ctx
    (let ids := List.filter (λ kv, str_ltb after kv.1) (map_to_list (tenants m)) in
     let ids := sort_by (λ a b, str_leb a.1 b.1) ids in
     let ids := if (0 <? limit)%Z then firstn (Z.to_nat limit) ids else ids in
     Ok ((λ kv, usageLocked kv.1 kv.2 m) <$> ids)).

Definition GetTenantUsage (ctx : Ctx) (t : TenantID) (m : memStore)
    : result StoreErr TenantUsage :=
  guarded_read ctx
    match tenants m !! t with
    | None => Err ErrNotFound
    | Some created => Ok (usageLocked t created m)
    end.

Definition set_status (inst : ConnectorInstance) (status : string) (now : Z) : ConnectorInstance :=
  mkInstance (ci_id inst) (ci_tenant inst) (ci_connector inst) (ci_display inst)
    (ci_config inst) status (ci_created inst) now.

Definition status_round (env : Env) (t : TenantID) (status : string)
    (id : string) (inst : ConnectorInstance) (acc : Z * memStore) : Z * memStore :=
  let '(changed, m) := acc in
  if String.eqb (ci_tenant inst) t && negb (String.eqb (ci_status inst) status)
  then ((changed + 1)%Z,
        set_instances (insert id (set_status inst status (clock_at env id))) m)
  else (changed, m).

Definition SetTenantConnectorStatus (env : Env) (ctx : Ctx) (t : TenantID) (status : string)
    (m : memStore) : result StoreErr Z * memStore :=
  guarded ctx m
    (let '(changed, m) :=
       map_fold (status_round env t status) (0%Z, m) (instances m) in
     (Ok changed, m)).

Definition GetPersonalization (ctx : Ctx) (t : TenantID) (m : memStore)
    : result StoreErr (UserPreferences * LearnedWeights) :=
  guarded_read ctx
    (Ok (default zeroPrefs (prefs m !! t), default zeroWeights (weights m !! t))).

Definition PutPreferences (env : Env) (ctx : Ctx) (t : TenantID) (profileJSON : string)
    (m : memStore) : result StoreErr Z * memStore :=
  guarded ctx m
    (let m := ensureRow t (clock env 0) m in
     let cur := default zeroPrefs (prefs m !! t) in
     let version := wrap64 (up_version cur + 1) in
     let version := if (version <? 1)%Z then 1%Z else version in
     (Ok version, set_prefs (insert t (mkPrefs profileJSON version true)) m)).

Definition AppendFeedback (env : Env) (ctx : Ctx) (t : TenantID) (ev : FeedbackEvent)
    (m : memStore) : result StoreErr unit * memStore :=
  guarded ctx m
    (let m := ensureRow t (clock env 0) m in
     (Ok tt, set_feedback (insert t (default [] (feedback m !! t) ++ [ev])) m)).

Definition UpdateLearnedWeights (env : Env) (ctx : Ctx) (t : TenantID)
    (update : string → Z → result StoreErr (string * Z)) (m : memStore)
    : result StoreErr unit * memStore :=
  guarded ctx m
    (let m := ensureRow t (clock env 0) m in
     let cur := default zeroWeights (weights m !! t) in
     match update (lw_weights cur) (lw_samples cur) with
     | Err e => (Err e, m)
     | Ok (newJSON, newSamples) =>
       (Ok tt, set_weights (insert t (mkWeights newJSON newSamples true)) m)
     end).

Definition ResetLearning (ctx : Ctx) (t : TenantID) (m : memStore)
    : result StoreErr Z * memStore :=
  guarded ctx m
    (let n := Z.of_nat (length (default [] (feedback m !! t))) in
     (Ok n, set_feedback (delete t) (set_weights (delete t) m))).

#[global] Instance memStore_Store : Store memStore := {
  Store_EnsureTenant := EnsureTenant;
  Store_CreateConnectorInstance := CreateConnectorInstance;
  Store_ListConnectorInstances := ListConnectorInstances;
  Store_GetConnectorInstance := GetConnectorInstance;
  Store_DeleteConnectorInstance := DeleteConnectorInstance;
  Store_GetSyncState := GetSyncState;
  Store_SetSyncState := SetSyncState;
  Store_PutToken := PutToken;
  Store_GetToken := GetToken;
  Store_DeleteToken := DeleteToken;
  Store_ListAll := ListAll;
  Store_CountConnectorInstances := CountConnectorInstances;
  Store_PurgeTenant := PurgeTenant;
  Store_TenantResidue := TenantResidue;
  Store_ListTenants := ListTenants;
  Store_GetTenantUsage := GetTenantUsage;
  Store_SetTenantConnectorStatus := SetTenantConnectorStatus;
  Store_GetPersonalization := GetPersonalization;
  Store_PutPreferences := PutPreferences;
  Store_AppendFeedback := AppendFeedback;
  Store_UpdateLearnedWeights := UpdateLearnedWeights;
  Store_ResetLearning := ResetLearning
}.
End memStore.
