(* ===== verification/StoreLoops.v ===== *)
(** * Closed forms of the store's map loops

    Each loop of [memStore] over a Go map (count, purge, suspend, usage, list)
    is characterised independently of the iteration order: a count is the size
    of a filtered map, an update is a pointwise map. *)

From stdpp Require Import base gmap strings list.
From Stdlib Require Import ZArith Lia.
From S2P Require Import Prelude GoStrings Tenancy Store.
Import memStore.

(** ** Counting *)
Definition countZ {A} (P : string * A → Prop) `{∀ x, Decision (P x)} (m : gmap string A) : Z :=
  Z.of_nat (size (base.filter P m)).

Section count.
Context {A : Type} (P : string * A → Prop) `{∀ x, Decision (P x)}.

Lemma countZ_empty : countZ P ∅ = 0%Z.
Proof. unfold countZ. by rewrite map_filter_empty, map_size_empty. Qed.

Lemma countZ_insert m i x :
  m !! i = None →
  countZ P (<[i:=x]> m) = (countZ P m + if decide (P (i, x)) then 1 else 0)%Z.
Proof.
  intros Hi. unfold countZ. rewrite map_filter_insert. case_decide.
  - rewrite map_size_insert_None; [lia|]. apply map_lookup_filter_None. by left.
  - rewrite delete_id by done. lia.
Qed.

Lemma countZ_nonneg m : (0 <= countZ P m)%Z.
Proof. unfold countZ. lia. Qed.

Lemma countZ_zero m : countZ P m = 0%Z ↔ ∀ i x, m !! i = Some x → ¬ P (i, x).
Proof.
  unfold countZ. split.
  - intros Hs i x Hx HP.
    assert (base.filter P m = ∅) as He by (apply map_size_empty_inv; lia).
    assert (base.filter P m !! i = Some x) as Hf by by apply map_lookup_filter_Some.
    by rewrite He, lookup_empty in Hf.
  - intros Hn. assert (base.filter P m = ∅) as ->.
    { apply map_empty. intros i. apply map_lookup_filter_None. naive_solver. }
    by rewrite map_size_empty.
Qed.

(** A count does not see the entries that a filter with a weaker condition
    removes. *)
Lemma countZ_filter (Q : string * A → Prop) `{∀ x, Decision (Q x)} m :
  (∀ x, P x → Q x) → countZ P (base.filter Q m) = countZ P m.
Proof.
  intros HPQ. unfold countZ. rewrite map_filter_filter. do 2 f_equal.
  apply map_filter_ext. naive_solver.
Qed.
End count.

Lemma countZ_ext {A} (P Q : string * A → Prop) `{∀ x, Decision (P x)} `{∀ x, Decision (Q x)} m :
  (∀ i x, m !! i = Some x → P (i, x) ↔ Q (i, x)) → countZ P m = countZ Q m.
Proof. intros HPQ. unfold countZ. do 2 f_equal. by apply map_filter_ext. Qed.

(** The entries owned by a tenant. *)
Definition owned (t : TenantID) (kv : string * ConnectorInstance) : Prop := ci_tenant kv.2 = t.

#[global] Instance owned_dec t kv : Decision (owned t kv).
Proof. unfold owned. apply _. Defined.

Lemma eqb_decide (a b : string) : String.eqb a b = bool_decide (a = b).
Proof. by destruct (String.eqb_spec a b); case_bool_decide. Qed.

Lemma countOwned_countZ t insts : countOwned t insts = countZ (owned t) insts.
Proof.
  unfold countOwned.
  apply (map_fold_weak_ind (λ r m, r = countZ (owned t) m)); [by rewrite countZ_empty|].
  intros i x m r Hi ->. rewrite countZ_insert by done.
  rewrite eqb_decide.
  case_bool_decide; case_decide; unfold owned in *; simpl in *; done || lia.
Qed.

(** ** Suspending *)
Definition status_of (env : Env) (t : TenantID) (status : string)
    (id : string) (inst : ConnectorInstance) : ConnectorInstance :=
  if decide (ci_tenant inst = t ∧ ci_status inst ≠ status)
  then set_status inst status (clock_at env id) else inst.

Definition to_change (t : TenantID) (status : string) (kv : string * ConnectorInstance) : Prop :=
  ci_tenant kv.2 = t ∧ ci_status kv.2 ≠ status.

#[global] Instance to_change_dec t s kv : Decision (to_change t s kv).
Proof. unfold to_change. apply _. Defined.

Definition suspended_instances (env : Env) t status (insts : gmap string ConnectorInstance) :=
  map_imap (λ id inst, Some (status_of env t status id inst)) insts.

Lemma lookup_suspended env t status insts id :
  suspended_instances env t status insts !! id = status_of env t status id <$> insts !! id.
Proof. unfold suspended_instances. rewrite map_lookup_imap. by destruct (insts !! id). Qed.

Lemma status_fold_gen env t status m0 ds :
  ds ⊆ instances m0 →
  map_fold (status_round env t status) (0%Z, m0) ds =
  (countZ (to_change t status) ds,
   set_instances (λ i, suspended_instances env t status ds ∪ i) m0).
Proof.
  apply (map_fold_weak_ind (λ r d, d ⊆ instances m0 → r = (countZ (to_change t status) d,
   set_instances (λ i, suspended_instances env t status d ∪ i) m0))).
  - intros _. rewrite countZ_empty. f_equal.
    assert (suspended_instances env t status ∅ = ∅) as ->.
    { apply map_eq. intros i. by rewrite lookup_suspended, !lookup_empty. }
    destruct m0. unfold set_instances; simpl. by rewrite (left_id_L ∅ (∪)).
  - intros i x m r Hi IH Hsub.
    rewrite IH by (etrans; [|exact Hsub]; by apply insert_subseteq).
    unfold status_round. rewrite !eqb_decide, countZ_insert by done.
    assert (Hx : instances m0 !! i = Some x).
    { eapply lookup_weaken; [|exact Hsub]. apply lookup_insert_eq. }
    destruct (decide (to_change t status (i, x))) as [[Ht Hs]|Hn]; simpl in *.
    + rewrite bool_decide_true by done. rewrite bool_decide_false by done. simpl.
      f_equal. unfold set_instances. simpl. f_equal. apply map_eq. intros j.
      rewrite lookup_union, lookup_suspended.
      destruct (decide (i = j)) as [->|Hne].
      * rewrite !lookup_insert_eq. simpl. unfold status_of.
        rewrite decide_True by done. by destruct (instances m0 !! j).
      * by rewrite !lookup_insert_ne, lookup_union, lookup_suspended by done.
    + assert (bool_decide (ci_tenant x = t) && negb (bool_decide (ci_status x = status)) = false) as ->.
      { unfold to_change in Hn. simpl in Hn. do 2 case_bool_decide; naive_solver. }
      f_equal; [lia|]. unfold set_instances. f_equal. apply map_eq. intros j.
      rewrite !lookup_union, !lookup_suspended.
      destruct (decide (i = j)) as [->|Hne].
      * rewrite !lookup_insert_eq, Hi, Hx. simpl. unfold status_of.
        rewrite decide_False; [done|]. exact Hn.
      * by rewrite !lookup_insert_ne by done.
Qed.

(** [SetTenantConnectorStatus] changes exactly the tenant's instances whose
    status differs, and reports how many. *)
Lemma SetTenantConnectorStatus_spec env ctx t status m :
  ctx_err ctx = None →
  SetTenantConnectorStatus env ctx t status m =
  (Ok (countZ (to_change t status) (instances m)),
   set_instances (suspended_instances env t status) m).
Proof.
  intros Hc. unfold SetTenantConnectorStatus, guarded. rewrite Hc.
  rewrite status_fold_gen by done. f_equal. unfold set_instances. f_equal.
  apply map_eq. intros i. rewrite lookup_union, lookup_suspended.
  by destruct (instances m !! i).
Qed.

(** ** Purging *)
Definition purged_token (t : TenantID) (m : memStore) (kv : string * ConnectorInstance) : Prop :=
  ci_tenant kv.2 = t ∧ is_Some (ownedToken t kv.1 m).

#[global] Instance purged_token_dec t m kv : Decision (purged_token t m kv).
Proof. unfold purged_token. apply _. Defined.

(** Remove from [x] the keys of the entries of [ds] that satisfy [P]. *)
Definition minus {A B} (P : string * A → Prop) `{∀ x, Decision (P x)}
    (ds : gmap string A) (x : gmap string B) : gmap string B :=
  map_imap (λ i b, match ds !! i with
    | Some y => if decide (P (i, y)) then None else Some b
    | None => Some b
    end) x.

Lemma lookup_minus {A B} (P : string * A → Prop) `{∀ x, Decision (P x)}
    (ds : gmap string A) (x : gmap string B) i :
  minus P ds x !! i =
  match ds !! i with
  | Some y => if decide (P (i, y)) then None else x !! i
  | None => x !! i
  end.
Proof.
  unfold minus. rewrite map_lookup_imap.
  destruct (x !! i); destruct (ds !! i); simpl; try case_decide; done.
Qed.

Lemma minus_empty {A B} (P : string * A → Prop) `{∀ x, Decision (P x)} (x : gmap string B) :
  minus P (∅ : gmap string A) x = x.
Proof. apply map_eq. intros i. by rewrite lookup_minus, lookup_empty. Qed.

Lemma minus_insert {A B} (P : string * A → Prop) `{∀ x, Decision (P x)}
    (ds : gmap string A) (x : gmap string B) i y :
  ds !! i = None →
  minus P (<[i:=y]> ds) x = if decide (P (i, y)) then delete i (minus P ds x) else minus P ds x.
Proof.
  intros Hi. apply map_eq. intros j. rewrite lookup_minus.
  destruct (decide (i = j)) as [->|Hne].
  - rewrite lookup_insert_eq. case_decide; [by rewrite lookup_delete_eq|].
    by rewrite lookup_minus, Hi.
  - rewrite lookup_insert_ne by done.
    case_decide; rewrite ?lookup_delete_ne by done; by rewrite lookup_minus.
Qed.

Lemma purge_fold_gen t m0 ds :
  map_fold (purge_round t) (mkPurgeCounts 0 0, m0) ds =
  (mkPurgeCounts (countZ (owned t) ds) (countZ (purged_token t m0) ds),
   mk (tenants m0) (minus (owned t) ds (instances m0)) (minus (owned t) ds (syncs m0))
     (minus (purged_token t m0) ds (tokens m0)) (prefs m0) (weights m0) (feedback m0)).
Proof.
  apply (map_fold_weak_ind (λ r d, r =
   (mkPurgeCounts (countZ (owned t) d) (countZ (purged_token t m0) d),
    mk (tenants m0) (minus (owned t) d (instances m0)) (minus (owned t) d (syncs m0))
     (minus (purged_token t m0) d (tokens m0)) (prefs m0) (weights m0) (feedback m0)))).
  - rewrite !countZ_empty, !minus_empty. by destruct m0.
  - intros i x d r Hi ->. unfold purge_round.
    rewrite !countZ_insert, !minus_insert by done. rewrite eqb_decide.
    assert (Htok : ∀ T S I, ownedToken t i
      (mk T I S (minus (purged_token t m0) d (tokens m0)) (prefs m0) (weights m0) (feedback m0))
      = ownedToken t i m0).
    { intros. unfold ownedToken. simpl. by rewrite lookup_minus, Hi. }
    rewrite Htok.
    destruct (decide (owned t (i, x))) as [Ho|Ho];
      destruct (decide (purged_token t m0 (i, x))) as [[Hp1 Hp2]|Hp].
    + rewrite bool_decide_true by done. destruct Hp2 as [tok Htk]. simpl in Htk.
      by rewrite Htk.
    + rewrite bool_decide_true by done.
      destruct (ownedToken t i m0) eqn:E; [destruct Hp; by split; simpl; eauto|].
      by rewrite Z.add_0_r.
    + done.
    + rewrite bool_decide_false by done. by rewrite !Z.add_0_r.
Qed.

Definition purged (t : TenantID) (m : memStore) : memStore :=
  mk (delete t (tenants m)) (minus (owned t) (instances m) (instances m))
    (minus (owned t) (instances m) (syncs m))
    (minus (purged_token t m) (instances m) (tokens m))
    (delete t (prefs m)) (delete t (weights m)) (delete t (feedback m)).

(** [PurgeTenant] removes the tenant's rows and reports how many instances and
    tokens it removed. *)
Lemma PurgeTenant_spec ctx t m :
  ctx_err ctx = None →
  PurgeTenant ctx t m =
  (Ok (mkPurgeCounts (countZ (owned t) (instances m)) (countZ (purged_token t m) (instances m))),
   purged t m).
Proof. intros Hc. unfold PurgeTenant, guarded. rewrite Hc, purge_fold_gen. done. Qed.
