(* ===== verification/StoreIsolation.v ===== *)
(** * The store keeps tenants apart

    The well-formedness invariant of [memStore], its preservation, and the
    refinement that makes the tenancy contract of [store.go] precise: the
    shared store behaves, for each tenant, exactly like a private store that
    holds only that tenant's rows.  Every theorem is over all the
    tenant-scoped operations of the [Store] interface at once, through the
    command type [Op]. *)

From stdpp Require Import base gmap strings list.
From Stdlib Require Import ZArith Lia.
From S2P Require Import Prelude GoStrings Tenancy Store StoreLoops.
Import memStore.

(** ** Well-formed stores *)
Record WF (m : memStore) : Prop := {
  wf_id : ∀ id inst, instances m !! id = Some inst → ci_id inst = id;
  wf_reg : ∀ id inst, instances m !! id = Some inst → is_Some (tenants m !! ci_tenant inst);
  wf_sync : ∀ id st, syncs m !! id = Some st →
    ss_instance st = id ∧ ∃ inst, instances m !! id = Some inst ∧ ci_tenant inst = ss_tenant st;
  wf_tok : ∀ id tok, tokens m !! id = Some tok →
    ∃ inst, instances m !! id = Some inst ∧ ci_tenant inst = tok_tenant tok
}.

(** ** Commands: the tenant-scoped operations of the interface *)
Inductive Op :=
| OpEnsureTenant
| OpCreate (connector display config status : string) (maxInstances : Z)
| OpList
| OpGet (id : string)
| OpDelete (id : string)
| OpGetSync (id : string)
| OpSetSync (st : SyncState)
| OpPutToken (id ciphertext : string)
| OpGetToken (id : string)
| OpDeleteToken (id : string)
| OpCount
| OpPurge
| OpResidue
| OpUsage
| OpSetStatus (status : string)
| OpGetPersonalization
| OpPutPreferences (profileJSON : string)
| OpAppendFeedback (ev : FeedbackEvent)
| OpUpdateWeights (update : string → Z → result StoreErr (string * Z))
| OpResetLearning.

Inductive Resp :=
| RTenant (r : result StoreErr Tenant)
| RInst (r : result StoreErr ConnectorInstance)
| RInsts (r : result StoreErr (list ConnectorInstance))
| RUnit (r : result StoreErr unit)
| RSync (r : result StoreErr SyncState)
| RBytes (r : result StoreErr string)
| RCount (r : result StoreErr Z)
| RPurge (r : result StoreErr PurgeCounts)
| RBool (r : result StoreErr bool)
| RUsage (r : result StoreErr TenantUsage)
| RPers (r : result StoreErr (UserPreferences * LearnedWeights)).

(** A call: who calls, in which context and environment, what. *)
Record Call := mkCall { c_tenant : TenantID; c_ctx : Ctx; c_env : Env; c_op : Op }.

Definition wrap_st {A} (f : result StoreErr A → Resp) (x : result StoreErr A * memStore)
    : Resp * memStore := (f x.1, x.2).

Definition exec (c : Call) (m : memStore) : Resp * memStore :=
  let '(mkCall t ctx env op) := c in
  match op with
  | OpEnsureTenant => wrap_st RTenant (EnsureTenant env ctx t m)
  | OpCreate cn d cfg s max =>
    wrap_st RInst (CreateConnectorInstance env ctx (mkInstance "" t cn d cfg s 0 0) max m)
  | OpList => (RInsts (ListConnectorInstances ctx t m), m)
  | OpGet id => (RInst (GetConnectorInstance ctx t id m), m)
  | OpDelete id => wrap_st RUnit (DeleteConnectorInstance ctx t id m)
  | OpGetSync id => (RSync (GetSyncState ctx t id m), m)
  | OpSetSync st => wrap_st RSync (SetSyncState ctx t st m)
  | OpPutToken id c => wrap_st RUnit (PutToken ctx t id c m)
  | OpGetToken id => (RBytes (GetToken ctx t id m), m)
  | OpDeleteToken id => wrap_st RUnit (DeleteToken ctx t id m)
  | OpCount => (RCount (CountConnectorInstances ctx t m), m)
  | OpPurge => wrap_st RPurge (PurgeTenant ctx t m)
  | OpResidue => (RBool (TenantResidue ctx t m), m)
  | OpUsage => (RUsage (GetTenantUsage ctx t m), m)
  | OpSetStatus s => wrap_st RCount (SetTenantConnectorStatus env ctx t s m)
  | OpGetPersonalization => (RPers (GetPersonalization ctx t m), m)
  | OpPutPreferences p => wrap_st RCount (PutPreferences env ctx t p m)
  | OpAppendFeedback ev => wrap_st RUnit (AppendFeedback env ctx t ev m)
  | OpUpdateWeights f => wrap_st RUnit (UpdateLearnedWeights env ctx t f m)
  | OpResetLearning => wrap_st RCount (ResetLearning ctx t m)
  end.

(** [uuid.NewString()] yields an identifier no row has. *)
Definition fresh_call (c : Call) (m : memStore) : Prop :=
  match c_op c with OpCreate _ _ _ _ _ => instances m !! new_uuid (c_env c) = None | _ => True end.

#[global] Instance fresh_call_dec c m : Decision (fresh_call c m).
Proof. unfold fresh_call. destruct (c_op c); apply _. Defined.

(** A run of calls, in the order the mutex serialises them. *)
Fixpoint run (cs : list Call) (m : memStore) : list (TenantID * Resp) * memStore :=
  match cs with
  | [] => ([], m)
  | c :: cs =>
    let '(r, m) := exec c m in
    let '(rs, m) := run cs m in
    ((c_tenant c, r) :: rs, m)
  end.

Fixpoint fresh_run (cs : list Call) (m : memStore) : Prop :=
  match cs with
  | [] => True
  | c :: cs => fresh_call c m ∧ fresh_run cs (exec c m).2
  end.

(** ** A tenant's private view *)
Definition restrict (t : TenantID) (m : memStore) : memStore :=
  mk (base.filter (λ kv, kv.1 = t) (tenants m))
     (base.filter (owned t) (instances m))
     (base.filter (λ kv, ss_tenant kv.2 = t) (syncs m))
     (base.filter (λ kv, tok_tenant kv.2 = t) (tokens m))
     (base.filter (λ kv, kv.1 = t) (prefs m))
     (base.filter (λ kv, kv.1 = t) (weights m))
     (base.filter (λ kv, kv.1 = t) (feedback m)).

(** ** Lookup lemmas for the view *)
Lemma lookup_key_filter {A} (t k : string) (m : gmap string A) :
  base.filter (λ kv : string * A, kv.1 = t) m !! k = if decide (k = t) then m !! k else None.
Proof.
  rewrite map_lookup_filter. destruct (m !! k); simpl; [|by case_decide].
  case_decide; [by rewrite option_guard_True|by rewrite option_guard_False].
Qed.

Lemma key_filter_insert_eq {A} (t : string) (x : A) (m : gmap string A) :
  base.filter (λ kv : string * A, kv.1 = t) (<[t:=x]> m)
  = <[t:=x]> (base.filter (λ kv, kv.1 = t) m).
Proof. by rewrite map_filter_insert_True. Qed.

Lemma key_filter_insert_ne {A} (t t' : string) (x : A) (m : gmap string A) :
  t ≠ t' → base.filter (λ kv : string * A, kv.1 = t') (<[t:=x]> m)
  = base.filter (λ kv, kv.1 = t') m.
Proof. intros. by rewrite map_filter_insert_not'. Qed.

Lemma key_filter_delete_ne {A} (t t' : string) (m : gmap string A) :
  t ≠ t' → base.filter (λ kv : string * A, kv.1 = t') (delete t m)
  = base.filter (λ kv, kv.1 = t') m.
Proof. intros. rewrite map_filter_delete_not; [done|]. naive_solver. Qed.

Section view.
Context (t : TenantID) (m : memStore).

Lemma tenants_restrict : tenants (restrict t m) !! t = tenants m !! t.
Proof. simpl. rewrite lookup_key_filter. by rewrite decide_True. Qed.

Lemma prefs_restrict : prefs (restrict t m) !! t = prefs m !! t.
Proof. simpl. rewrite lookup_key_filter. by rewrite decide_True. Qed.

Lemma weights_restrict : weights (restrict t m) !! t = weights m !! t.
Proof. simpl. rewrite lookup_key_filter. by rewrite decide_True. Qed.

Lemma feedback_restrict : feedback (restrict t m) !! t = feedback m !! t.
Proof. simpl. rewrite lookup_key_filter. by rewrite decide_True. Qed.

Lemma instances_restrict id :
  instances (restrict t m) !! id =
  match instances m !! id with
  | Some i => if decide (ci_tenant i = t) then Some i else None
  | None => None
  end.
Proof.
  simpl. rewrite map_lookup_filter. destruct (instances m !! id) as [i|]; simpl; [|done].
  unfold owned; simpl.
  case_decide; [by rewrite option_guard_True|by rewrite option_guard_False].
Qed.

Lemma tokens_restrict id :
  tokens (restrict t m) !! id =
  match tokens m !! id with
  | Some i => if decide (tok_tenant i = t) then Some i else None
  | None => None
  end.
Proof.
  simpl. rewrite map_lookup_filter. destruct (tokens m !! id) as [i|]; simpl; [|done].
  case_decide; [by rewrite option_guard_True|by rewrite option_guard_False].
Qed.

Lemma syncs_restrict id :
  syncs (restrict t m) !! id =
  match syncs m !! id with
  | Some i => if decide (ss_tenant i = t) then Some i else None
  | None => None
  end.
Proof.
  simpl. rewrite map_lookup_filter. destruct (syncs m !! id) as [i|]; simpl; [|done].
  case_decide; [by rewrite option_guard_True|by rewrite option_guard_False].
Qed.

Lemma ownedInstance_restrict id : ownedInstance t id (restrict t m) = ownedInstance t id m.
Proof.
  unfold ownedInstance. rewrite instances_restrict.
  destruct (instances m !! id) as [i|]; [|done]. rewrite eqb_decide.
  case_decide; [|by rewrite bool_decide_false]. by rewrite eqb_decide.
Qed.

Lemma ownedToken_restrict id : ownedToken t id (restrict t m) = ownedToken t id m.
Proof.
  unfold ownedToken. rewrite tokens_restrict.
  destruct (tokens m !! id) as [i|]; [|done]. rewrite eqb_decide.
  case_decide; [|by rewrite bool_decide_false]. by rewrite eqb_decide.
Qed.
End view.

Lemma ownedInstance_Some t id m inst :
  ownedInstance t id m = Some inst ↔ instances m !! id = Some inst ∧ ci_tenant inst = t.
Proof.
  unfold ownedInstance. destruct (instances m !! id) as [i|]; [|naive_solver].
  rewrite eqb_decide. case_bool_decide; naive_solver.
Qed.

Lemma ownedToken_Some t id m tok :
  ownedToken t id m = Some tok ↔ tokens m !! id = Some tok ∧ tok_tenant tok = t.
Proof.
  unfold ownedToken. destruct (tokens m !! id) as [i|]; [|naive_solver].
  rewrite eqb_decide. case_bool_decide; naive_solver.
Qed.

(** Equality of stores, component by component. *)
Lemma store_eq m1 m2 :
  tenants m1 = tenants m2 → instances m1 = instances m2 → syncs m1 = syncs m2 →
  tokens m1 = tokens m2 → prefs m1 = prefs m2 → weights m1 = weights m2 →
  feedback m1 = feedback m2 → m1 = m2.
Proof. destruct m1, m2. simpl. by intros -> -> -> -> -> -> ->. Qed.

(** ** The loops and the view *)

(** A commutative map loop that skips the entries outside [P] does the same
    work on the filtered map. *)
Lemma map_fold_filter {A B} (P : string * A → Prop) `{∀ x, Decision (P x)}
    (f g : string → A → B → B) (b : B) (m : gmap string A) :
  (∀ i x, m !! i = Some x → P (i, x) → ∀ y, f i x y = g i x y) →
  (∀ i x, m !! i = Some x → ¬ P (i, x) → ∀ y, f i x y = y) →
  (∀ j1 j2 z1 z2 y, f j1 z1 (f j2 z2 y) = f j2 z2 (f j1 z1 y)) →
  (∀ j1 j2 z1 z2 y, g j1 z1 (g j2 z2 y) = g j2 z2 (g j1 z1 y)) →
  map_fold f b m = map_fold g b (base.filter P m).
Proof.
  intros Hin Hout Hcf Hcg. induction m as [|i x m Hi IH] using map_ind.
  { by rewrite map_filter_empty, !map_fold_empty. }
  rewrite map_fold_insert_L by auto.
  rewrite IH.
  2-3: intros j y Hj; (apply Hin || apply Hout); rewrite lookup_insert_ne; congruence.
  destruct (decide (P (i, x))) as [HP|HP].
  - rewrite map_filter_insert_True by done.
    rewrite map_fold_insert_L by (auto; apply map_lookup_filter_None; by left).
    apply Hin; [apply lookup_insert_eq|done].
  - rewrite map_filter_insert_False, delete_id by done.
    apply Hout; [apply lookup_insert_eq|done].
Qed.

Lemma wrap64_add_comm a b c : wrap64 (wrap64 (a + b) + c) = wrap64 (wrap64 (a + c) + b).
Proof.
  unfold wrap64. f_equal.
  replace ((a + b + 2 ^ 63) mod 2 ^ 64 - 2 ^ 63 + c + 2 ^ 63)%Z
    with ((a + b + 2 ^ 63) mod 2 ^ 64 + c)%Z by lia.
  replace ((a + c + 2 ^ 63) mod 2 ^ 64 - 2 ^ 63 + b + 2 ^ 63)%Z
    with ((a + c + 2 ^ 63) mod 2 ^ 64 + b)%Z by lia.
  rewrite !Zplus_mod_idemp_l. f_equal. lia.
Qed.

Lemma usage_round_comm t m j1 j2 z1 z2 y :
  usage_round t m j1 z1 (usage_round t m j2 z2 y) = usage_round t m j2 z2 (usage_round t m j1 z1 y).
Proof.
  destruct y as [[n p] d]. unfold usage_round.
  destruct (String.eqb (ci_tenant z1) t), (String.eqb (ci_tenant z2) t); try done.
  f_equal; [f_equal|].
  - by repeat case_match.
  - destruct (syncs m !! j1), (syncs m !! j2); try done. apply wrap64_add_comm.
Qed.

Lemma usageLocked_restrict t created m :
  WF m → usageLocked t created (restrict t m) = usageLocked t created m.
Proof.
  intros Hwf. unfold usageLocked.
  rewrite (map_fold_filter (owned t) (usage_round t m) (usage_round t (restrict t m))); [done|..].
  - intros i x Hi Ho [[n p] d]. unfold usage_round. rewrite syncs_restrict.
    destruct (syncs m !! i) as [st|] eqn:Hs; [|done].
    destruct (wf_sync m Hwf _ _ Hs) as (_ & inst & Hinst & Hten).
    rewrite decide_True; [done|]. rewrite <- Hten. unfold owned in Ho. simpl in Ho. congruence.
  - intros i x Hi Ho [[n p] d]. unfold usage_round. rewrite eqb_decide.
    by rewrite bool_decide_false.
  - apply usage_round_comm.
  - apply usage_round_comm.
Qed.

Lemma filter_map_to_list {A} (P : string * A → Prop) `{∀ x, Decision (P x)} (m : gmap string A) :
  base.filter P (map_to_list m) ≡ₚ map_to_list (base.filter P m).
Proof.
  rewrite map_filter_alt, map_to_list_to_map; [done|].
  eapply sublist_NoDup; [apply (NoDup_fst_map_to_list m)|]. apply fmap_sublist, sublist_filter.
Qed.

Lemma inst_leb_total a b : inst_leb a b = true ∨ inst_leb b a = true.
Proof.
  unfold inst_leb. rewrite (Z.compare_antisym (ci_created a) (ci_created b)).
  destruct (ci_created a ?= ci_created b)%Z; simpl; auto. apply str_leb_total.
Qed.

Lemma inst_leb_trans a b c :
  inst_leb a b = true → inst_leb b c = true → inst_leb a c = true.
Proof.
  unfold inst_leb.
  destruct (Z.compare_spec (ci_created a) (ci_created b)); try done;
  destruct (Z.compare_spec (ci_created b) (ci_created c)); try done; intros H1 H2;
  destruct (Z.compare_spec (ci_created a) (ci_created c)); try done; try lia.
  eapply str_leb_trans; eauto.
Qed.

Lemma inst_leb_antisym a b : inst_leb a b = true → inst_leb b a = true → ci_id a = ci_id b.
Proof.
  unfold inst_leb. rewrite (Z.compare_antisym (ci_created a) (ci_created b)).
  destruct (ci_created a ?= ci_created b)%Z; simpl; try done. apply str_leb_antisym.
Qed.

(** The values of a well-formed instance table are told apart by their ID. *)
Lemma instances_id_inj m a b :
  WF m → a ∈ (λ kv, cloneInstance kv.2) <$> map_to_list (instances m) →
  b ∈ (λ kv, cloneInstance kv.2) <$> map_to_list (instances m) → ci_id a = ci_id b → a = b.
Proof.
  intros Hwf Ha Hb Hid.
  apply list_elem_of_fmap in Ha as ([i x] & -> & Hx).
  apply list_elem_of_fmap in Hb as ([j y] & -> & Hy).
  apply elem_of_map_to_list in Hx, Hy. unfold cloneInstance in *. simpl in *.
  rewrite (wf_id m Hwf _ _ Hx), (wf_id m Hwf _ _ Hy) in Hid. subst. congruence.
Qed.

Lemma ListConnectorInstances_restrict ctx t m :
  WF m → ListConnectorInstances ctx t (restrict t m) = ListConnectorInstances ctx t m.
Proof.
  intros Hwf. unfold ListConnectorInstances, guarded_read. destruct (ctx_err ctx); [done|].
  f_equal. symmetry. apply sort_unique; eauto using inst_leb_total, inst_leb_trans.
  - intros a b Ha Hb H1 H2. apply (instances_id_inj m); [done|..|by apply inst_leb_antisym].
    + eapply elem_of_submseteq; [exact Ha|]. apply sublist_submseteq, fmap_sublist, sublist_filter.
    + eapply elem_of_submseteq; [exact Hb|]. apply sublist_submseteq, fmap_sublist, sublist_filter.
  - apply fmap_Permutation. rewrite !filter_map_to_list. simpl.
    rewrite map_filter_filter.
    match goal with |- map_to_list ?a ≡ₚ map_to_list ?b => replace b with a; [done|] end.
    apply map_filter_ext. unfold owned. naive_solver.
Qed.

Lemma purged_restrict t m : WF m → purged t (restrict t m) = restrict t (purged t m).
Proof.
  intros Hwf. apply store_eq; simpl; rewrite ?map_filter_delete; try done;
    apply map_eq; intros id.
  - change (base.filter (owned t) (instances m)) with (instances (restrict t m)).
    change (base.filter (owned t) (minus (owned t) (instances m) (instances m)))
      with (instances (restrict t (purged t m))).
    rewrite lookup_minus, !instances_restrict. simpl. rewrite lookup_minus.
    destruct (instances m !! id) as [i|]; [|done]. unfold owned; simpl.
    repeat case_decide; done.
  - change (base.filter (owned t) (instances m)) with (instances (restrict t m)).
    change (base.filter _ (syncs m)) with (syncs (restrict t m)).
    change (base.filter _ (minus (owned t) (instances m) (syncs m)))
      with (syncs (restrict t (purged t m))).
    rewrite lookup_minus, instances_restrict, !syncs_restrict. simpl. rewrite lookup_minus.
    destruct (syncs m !! id) as [st|] eqn:Hs.
    + destruct (wf_sync m Hwf _ _ Hs) as (_ & inst & -> & Hten).
      unfold owned; simpl. repeat case_decide; try done; congruence.
    + destruct (instances m !! id); [|done]. repeat case_decide; done.
  - change (base.filter (owned t) (instances m)) with (instances (restrict t m)).
    change (base.filter _ (tokens m)) with (tokens (restrict t m)).
    change (base.filter _ (minus (purged_token t m) (instances m) (tokens m)))
      with (tokens (restrict t (purged t m))).
    rewrite lookup_minus, instances_restrict, !tokens_restrict. simpl. rewrite lookup_minus.
    destruct (tokens m !! id) as [tok|] eqn:Hs.
    + destruct (wf_tok m Hwf _ _ Hs) as (inst & -> & Hten).
      assert (ci_tenant inst = t → is_Some (ownedToken t id m)).
      { intros <-. exists tok. by apply ownedToken_Some. }
      unfold purged_token; simpl.
      repeat case_decide; rewrite ?ownedToken_restrict in *; try naive_solver congruence.
    + destruct (instances m !! id); [|done]. repeat case_decide; done.
Qed.

Lemma suspended_restrict env t s m :
  set_instances (suspended_instances env t s) (restrict t m)
  = restrict t (set_instances (suspended_instances env t s) m).
Proof.
  apply store_eq; simpl; try done. apply map_eq. intros id.
  change (base.filter (owned t) (instances m)) with (instances (restrict t m)).
  change (base.filter (owned t) (suspended_instances env t s (instances m)))
    with (instances (restrict t (set_instances (suspended_instances env t s) m))).
  rewrite lookup_suspended, !instances_restrict. simpl. rewrite lookup_suspended.
  destruct (instances m !! id) as [i|]; [|done]. simpl. unfold status_of.
  destruct (decide (ci_tenant i = t)) as [<-|Hne]; simpl.
  - repeat case_decide; simpl in *; done || naive_solver.
  - rewrite (decide_False (P := ci_tenant i = t ∧ _)) by naive_solver. by rewrite decide_False.
Qed.

Lemma ensureRow_restrict t now m : ensureRow t now (restrict t m) = restrict t (ensureRow t now m).
Proof.
  unfold ensureRow. rewrite tenants_restrict. destruct (tenants m !! t); [done|].
  apply store_eq; try done. simpl. by rewrite key_filter_insert_eq.
Qed.

Lemma residue_scan_restrict {A} (f : A → string) t (M : gmap string A) :
  existsb (λ kv, String.eqb (f kv.2) t) (map_to_list (base.filter (λ kv, f kv.2 = t) M))
  = existsb (λ kv, String.eqb (f kv.2) t) (map_to_list M).
Proof.
  apply eq_true_iff_eq. rewrite !existsb_exists. split; intros ([k x] & Hin & He).
  - exists (k, x). split; [|done]. apply list_elem_of_In. apply list_elem_of_In in Hin.
    apply elem_of_map_to_list in Hin. apply map_lookup_filter_Some in Hin as [??].
    by apply elem_of_map_to_list.
  - exists (k, x). split; [|done]. apply list_elem_of_In. apply list_elem_of_In in Hin.
    apply elem_of_map_to_list in Hin. apply elem_of_map_to_list.
    apply map_lookup_filter_Some. split; [done|]. by apply String.eqb_eq.
Qed.

(** The view of the store after each mutator, as rewrite rules. *)
Lemma set_tokens_delete_restrict t id m :
  set_tokens (delete id) (restrict t m) = restrict t (set_tokens (delete id) m).
Proof. apply store_eq; try done. simpl. by rewrite map_filter_delete. Qed.

Lemma set_syncs_delete_restrict t id m :
  set_syncs (delete id) (restrict t m) = restrict t (set_syncs (delete id) m).
Proof. apply store_eq; try done. simpl. by rewrite map_filter_delete. Qed.

Lemma set_instances_delete_restrict t id m :
  set_instances (delete id) (restrict t m) = restrict t (set_instances (delete id) m).
Proof. apply store_eq; try done. simpl. by rewrite map_filter_delete. Qed.

Lemma set_tokens_insert_restrict t id c m :
  set_tokens (insert id (mkToken t c)) (restrict t m) = restrict t (set_tokens (insert id (mkToken t c)) m).
Proof. apply store_eq; try done. simpl. by rewrite map_filter_insert_True. Qed.

Lemma set_syncs_insert_restrict t id st m :
  ss_tenant st = t →
  set_syncs (insert id st) (restrict t m) = restrict t (set_syncs (insert id st) m).
Proof. intros. apply store_eq; try done. simpl. by rewrite map_filter_insert_True. Qed.

Lemma set_instances_insert_restrict t id i m :
  ci_tenant i = t →
  set_instances (insert id i) (restrict t m) = restrict t (set_instances (insert id i) m).
Proof. intros. apply store_eq; try done. simpl. by rewrite map_filter_insert_True. Qed.

Lemma set_prefs_insert_restrict t p m :
  set_prefs (insert t p) (restrict t m) = restrict t (set_prefs (insert t p) m).
Proof. apply store_eq; try done. simpl. by rewrite key_filter_insert_eq. Qed.

Lemma set_weights_insert_restrict t p m :
  set_weights (insert t p) (restrict t m) = restrict t (set_weights (insert t p) m).
Proof. apply store_eq; try done. simpl. by rewrite key_filter_insert_eq. Qed.

Lemma set_feedback_insert_restrict t p m :
  set_feedback (insert t p) (restrict t m) = restrict t (set_feedback (insert t p) m).
Proof. apply store_eq; try done. simpl. by rewrite key_filter_insert_eq. Qed.

Lemma set_weights_delete_restrict t k m :
  set_weights (delete k) (restrict t m) = restrict t (set_weights (delete k) m).
Proof. apply store_eq; try done. simpl. by rewrite map_filter_delete. Qed.

Lemma set_feedback_delete_restrict t k m :
  set_feedback (delete k) (restrict t m) = restrict t (set_feedback (delete k) m).
Proof. apply store_eq; try done. simpl. by rewrite map_filter_delete. Qed.

#[export] Hint Rewrite tenants_restrict prefs_restrict weights_restrict feedback_restrict
  ownedInstance_restrict ownedToken_restrict ensureRow_restrict
  set_tokens_delete_restrict set_syncs_delete_restrict set_instances_delete_restrict
  set_tokens_insert_restrict set_prefs_insert_restrict set_weights_insert_restrict
  set_feedback_insert_restrict set_weights_delete_restrict set_feedback_delete_restrict
  suspended_restrict : view.

Lemma GetSyncState_restrict ctx t id m :
  WF m → GetSyncState ctx t id (restrict t m) = GetSyncState ctx t id m.
Proof.
  intros Hwf. unfold GetSyncState, guarded_read. destruct (ctx_err ctx); [done|].
  rewrite ownedInstance_restrict. destruct (ownedInstance t id m) as [inst|] eqn:Ho; [|done].
  rewrite syncs_restrict. destruct (syncs m !! id) as [st|] eqn:Hs; [|done].
  apply ownedInstance_Some in Ho as [Hi Ht].
  destruct (wf_sync m Hwf _ _ Hs) as (_ & inst' & Hi' & Ht'). rewrite decide_True; [done|congruence].
Qed.

Lemma countOwned_restrict t m : countOwned t (instances (restrict t m)) = countOwned t (instances m).
Proof. rewrite !countOwned_countZ. simpl. by rewrite countZ_filter. Qed.

(** Run on the private view, an operation answers the same and leaves the view
    of the new store. *)
Lemma exec_restrict c m :
  WF m → exec c (restrict (c_tenant c) m)
         = ((exec c m).1, restrict (c_tenant c) (exec c m).2).
Proof.
  intros Hwf. destruct c as [t ctx env op]. simpl c_tenant.
  destruct op; simpl; unfold wrap_st; simpl;
    rewrite ?GetSyncState_restrict, ?ListConnectorInstances_restrict by done; try done.
  - unfold EnsureTenant, guarded. autorewrite with view. destruct (ctx_err ctx); [done|].
    destruct (tenants m !! t) eqn:E; [done|]. simpl. f_equal.
    apply store_eq; try done. simpl. by rewrite key_filter_insert_eq.
  - unfold CreateConnectorInstance, guarded. simpl ci_tenant.
    rewrite countOwned_restrict. destruct (ctx_err ctx); [done|]. destruct (_ && _); [done|].
    simpl. autorewrite with view. by rewrite set_instances_insert_restrict.
  - unfold GetConnectorInstance. by autorewrite with view.
  - unfold DeleteConnectorInstance, guarded. autorewrite with view.
    destruct (ctx_err ctx); [done|]. by destruct (ownedInstance t id m).
  - unfold SetSyncState, guarded. autorewrite with view. destruct (ctx_err ctx); [done|].
    destruct (ownedInstance _ _ _); [|done]. simpl. by rewrite set_syncs_insert_restrict.
  - unfold PutToken, guarded. autorewrite with view. destruct (ctx_err ctx); [done|].
    by destruct (ownedInstance _ _ _).
  - unfold GetToken. by autorewrite with view.
  - unfold DeleteToken, guarded. autorewrite with view. destruct (ctx_err ctx); [done|].
    by destruct (ownedToken _ _ _).
  - unfold CountConnectorInstances. by rewrite countOwned_restrict.
  - destruct (ctx_err ctx) eqn:E; [unfold PurgeTenant, guarded; by rewrite E|].
    rewrite !PurgeTenant_spec by done. simpl.
    rewrite purged_restrict by done. do 4 f_equal.
    + by apply countZ_filter.
    + rewrite countZ_filter by (unfold purged_token, owned; naive_solver).
      apply countZ_ext. intros i x _. unfold purged_token. simpl. by rewrite ownedToken_restrict.
  - unfold TenantResidue. autorewrite with view. simpl.
    by rewrite (residue_scan_restrict ci_tenant), (residue_scan_restrict tok_tenant).
  - unfold GetTenantUsage. autorewrite with view. destruct (tenants m !! t); [|done].
    by rewrite usageLocked_restrict.
  - destruct (ctx_err ctx) eqn:E; [unfold SetTenantConnectorStatus, guarded; by rewrite E|].
    rewrite !SetTenantConnectorStatus_spec by done. autorewrite with view. simpl.
    rewrite countZ_filter; [done|]. unfold to_change, owned. naive_solver.
  - unfold GetPersonalization. by autorewrite with view.
  - unfold PutPreferences, guarded. autorewrite with view. by destruct (ctx_err ctx).
  - unfold AppendFeedback, guarded. autorewrite with view. by destruct (ctx_err ctx).
  - unfold UpdateLearnedWeights, guarded. autorewrite with view. destruct (ctx_err ctx); [done|].
    destruct (update _ _) as [[??]|]; simpl; by autorewrite with view.
  - unfold ResetLearning, guarded. autorewrite with view. by destruct (ctx_err ctx).
Qed.

(** ** Other tenants' views *)
Section frame.
Context (t t' : TenantID) (m : memStore).
Hypothesis Hne : t ≠ t'.

Lemma ensureRow_frame now : restrict t' (ensureRow t now m) = restrict t' m.
Proof.
  unfold ensureRow. destruct (tenants m !! t); [done|].
  apply store_eq; try done. simpl. by rewrite key_filter_insert_ne.
Qed.

Lemma instances_filter_skip id (f : option ConnectorInstance) :
  (∀ i, instances m !! id = Some i → ci_tenant i = t) →
  (∀ i, f = Some i → ci_tenant i = t) →
  base.filter (owned t') (partial_alter (λ _, f) id (instances m))
  = base.filter (owned t') (instances m).
Proof.
  intros H1 H2. apply map_eq. intros j. rewrite !map_lookup_filter.
  destruct (decide (id = j)) as [->|Hj]; [|by rewrite lookup_partial_alter_ne].
  rewrite lookup_partial_alter_eq.
  destruct f as [i|], (instances m !! j) as [i'|]; simpl; unfold owned; simpl; try done;
    rewrite ?option_guard_False; naive_solver.
Qed.

Lemma syncs_filter_skip id (f : option SyncState) :
  (∀ i, syncs m !! id = Some i → ss_tenant i = t) →
  (∀ i, f = Some i → ss_tenant i = t) →
  base.filter (λ kv, ss_tenant kv.2 = t') (partial_alter (λ _, f) id (syncs m))
  = base.filter (λ kv, ss_tenant kv.2 = t') (syncs m).
Proof.
  intros H1 H2. apply map_eq. intros j. rewrite !map_lookup_filter.
  destruct (decide (id = j)) as [->|Hj]; [|by rewrite lookup_partial_alter_ne].
  rewrite lookup_partial_alter_eq.
  destruct f as [i|], (syncs m !! j) as [i'|]; simpl; try done;
    rewrite ?option_guard_False; naive_solver.
Qed.

Lemma tokens_filter_skip id (f : option memToken) :
  (∀ i, tokens m !! id = Some i → tok_tenant i = t) →
  (∀ i, f = Some i → tok_tenant i = t) →
  base.filter (λ kv, tok_tenant kv.2 = t') (partial_alter (λ _, f) id (tokens m))
  = base.filter (λ kv, tok_tenant kv.2 = t') (tokens m).
Proof.
  intros H1 H2. apply map_eq. intros j. rewrite !map_lookup_filter.
  destruct (decide (id = j)) as [->|Hj]; [|by rewrite lookup_partial_alter_ne].
  rewrite lookup_partial_alter_eq.
  destruct f as [i|], (tokens m !! j) as [i'|]; simpl; try done;
    rewrite ?option_guard_False; naive_solver.
Qed.

Lemma owned_rows id inst :
  WF m → ownedInstance t id m = Some inst →
  (∀ i, instances m !! id = Some i → ci_tenant i = t) ∧
  (∀ s, syncs m !! id = Some s → ss_tenant s = t) ∧
  (∀ k, tokens m !! id = Some k → tok_tenant k = t).
Proof.
  clear Hne t'. intros Hwf [Hi Ht]%ownedInstance_Some. split_and!.
  - naive_solver.
  - intros s Hs. destruct (wf_sync m Hwf _ _ Hs) as (_ & i & Hi' & Ht'). congruence.
  - intros s Hs. destruct (wf_tok m Hwf _ _ Hs) as (i & Hi' & Ht'). congruence.
Qed.

Lemma purged_frame : WF m → restrict t' (purged t m) = restrict t' m.
Proof.
  intros Hwf. apply store_eq; simpl; rewrite ?key_filter_delete_ne by done; try done;
    apply map_eq; intros id; rewrite !map_lookup_filter, lookup_minus.
  - destruct (instances m !! id) as [i|]; [|done]. simpl. unfold owned. simpl.
    case_decide; [|done]. rewrite option_guard_False; [done|congruence].
  - destruct (syncs m !! id) as [s|] eqn:Hs; [|by repeat case_match].
    destruct (wf_sync m Hwf _ _ Hs) as (_ & i & -> & Ht). simpl. unfold owned. simpl.
    case_decide; [|done]. rewrite option_guard_False; [done|congruence].
  - destruct (tokens m !! id) as [s|] eqn:Hs; [|by repeat case_match].
    destruct (wf_tok m Hwf _ _ Hs) as (i & -> & Ht). simpl.
    case_decide as Hp; [|done]. unfold purged_token in Hp. simpl in Hp.
    rewrite option_guard_False; [done|]. destruct Hp. congruence.
Qed.

Lemma suspended_frame env s :
  restrict t' (set_instances (suspended_instances env t s) m) = restrict t' m.
Proof.
  apply store_eq; try done. simpl. apply map_eq. intros id.
  rewrite !map_lookup_filter, lookup_suspended.
  destruct (instances m !! id) as [i|]; [|done]. simpl. unfold status_of, owned. simpl.
  case_decide as Hd; [|done]. simpl. rewrite !option_guard_False; [done|..]; naive_solver.
Qed.
End frame.

(** An operation of one tenant leaves every other tenant's view as it was. *)
Lemma exec_frame c t' m :
  WF m → fresh_call c m → c_tenant c ≠ t' → restrict t' (exec c m).2 = restrict t' m.
Proof.
  intros Hwf Hf Hne. destruct c as [t ctx env op]. simpl in Hne. simpl.
  destruct op; simpl; try done.
  - unfold EnsureTenant, guarded. destruct (ctx_err ctx); [done|].
    destruct (tenants m !! t); [done|]. apply store_eq; try done. simpl.
    by rewrite key_filter_insert_ne.
  - unfold CreateConnectorInstance, guarded. destruct (ctx_err ctx); [done|].
    destruct (_ && _); [done|]. simpl.
    rewrite <- (ensureRow_frame t t' m Hne (clock env 0)).
    apply store_eq; try done. simpl. unfold insert, map_insert.
    apply (instances_filter_skip t); [done| |naive_solver].
    unfold fresh_call in Hf. simpl in Hf. unfold ensureRow.
    destruct (tenants m !! t); simpl; intros i Hi; congruence.
  - unfold DeleteConnectorInstance, guarded. destruct (ctx_err ctx); [done|].
    destruct (ownedInstance t id m) eqn:Ho; [|done].
    destruct (owned_rows _ _ _ _ Hwf Ho) as (H1 & H2 & H3).
    apply store_eq; try done; simpl; unfold delete, map_delete.
    + by apply (instances_filter_skip t).
    + by apply (syncs_filter_skip t).
    + by apply (tokens_filter_skip t).
  - unfold SetSyncState, guarded. destruct (ctx_err ctx); [done|].
    destruct (ownedInstance t _ m) eqn:Ho; [|done].
    destruct (owned_rows _ _ _ _ Hwf Ho) as (H1 & H2 & H3).
    apply store_eq; try done. simpl. unfold insert, map_insert.
    apply (syncs_filter_skip t); [done..|naive_solver].
  - unfold PutToken, guarded. destruct (ctx_err ctx); [done|].
    destruct (ownedInstance t _ m) eqn:Ho; [|done].
    destruct (owned_rows _ _ _ _ Hwf Ho) as (H1 & H2 & H3).
    apply store_eq; try done. simpl. unfold insert, map_insert.
    apply (tokens_filter_skip t); [done..|naive_solver].
  - unfold DeleteToken, guarded. destruct (ctx_err ctx); [done|].
    destruct (ownedToken t _ m) eqn:Ho; [|done]. apply ownedToken_Some in Ho as [Hk Ht].
    apply store_eq; try done. simpl. unfold delete, map_delete.
    apply (tokens_filter_skip t); [done|naive_solver|done].
  - destruct (ctx_err ctx) eqn:E; [unfold PurgeTenant, guarded; by rewrite E|].
    rewrite PurgeTenant_spec by done. by apply purged_frame.
  - destruct (ctx_err ctx) eqn:E; [unfold SetTenantConnectorStatus, guarded; by rewrite E|].
    rewrite SetTenantConnectorStatus_spec by done. by apply suspended_frame.
  - unfold PutPreferences, guarded. destruct (ctx_err ctx); [done|]. simpl.
    rewrite <- (ensureRow_frame t t' m Hne (clock env 0)).
    apply store_eq; try done. simpl. by rewrite key_filter_insert_ne.
  - unfold AppendFeedback, guarded. destruct (ctx_err ctx); [done|]. simpl.
    rewrite <- (ensureRow_frame t t' m Hne (clock env 0)).
    apply store_eq; try done. simpl. by rewrite key_filter_insert_ne.
  - unfold UpdateLearnedWeights, guarded. destruct (ctx_err ctx); [done|].
    destruct (update _ _) as [[??]|]; simpl; [|by apply ensureRow_frame].
    rewrite <- (ensureRow_frame t t' m Hne (clock env 0)).
    apply store_eq; try done. simpl. by rewrite key_filter_insert_ne.
  - unfold ResetLearning, guarded. destruct (ctx_err ctx); [done|]. simpl.
    apply store_eq; try done; simpl; by rewrite key_filter_delete_ne.
Qed.

(** ** The invariant is preserved *)
Lemma ensureRow_WF t now m : WF m → WF (ensureRow t now m).
Proof.
  intros Hwf. unfold ensureRow. destruct (tenants m !! t) eqn:E; [done|].
  destruct Hwf as [H1 H2 H3 H4]. constructor; simpl; try done.
  intros id inst Hi. destruct (decide (t = ci_tenant inst)) as [->|].
  - rewrite lookup_insert_eq. eauto.
  - rewrite lookup_insert_ne by done. eauto.
Qed.

Lemma ensureRow_tenant t now m : is_Some (tenants (ensureRow t now m) !! t).
Proof.
  unfold ensureRow. destruct (tenants m !! t) eqn:E; [by rewrite E|].
  simpl. rewrite lookup_insert_eq. eauto.
Qed.

Lemma create_WF id inst m :
  WF m → instances m !! id = None → ci_id inst = id → is_Some (tenants m !! ci_tenant inst) →
  WF (set_instances (insert id inst) m).
Proof.
  intros [H1 H2 H3 H4] Hf Hid Hreg.
  assert (Hlift : ∀ k x, instances m !! k = Some x → <[id:=inst]> (instances m) !! k = Some x).
  { intros k x Hk. rewrite lookup_insert_ne; [done|congruence]. }
  constructor; simpl.
  - intros k x Hk. destruct (decide (id = k)) as [->|].
    + rewrite lookup_insert_eq in Hk. naive_solver.
    + rewrite lookup_insert_ne in Hk by done. eauto.
  - intros k x Hk. destruct (decide (id = k)) as [->|].
    + rewrite lookup_insert_eq in Hk. naive_solver.
    + rewrite lookup_insert_ne in Hk by done. eauto.
  - intros k st Hk. destruct (H3 _ _ Hk) as (? & x & ? & ?). eauto 6.
  - intros k tok Hk. destruct (H4 _ _ Hk) as (x & ? & ?). eauto 6.
Qed.

Lemma delete_WF id m :
  WF m → WF (set_tokens (delete id) (set_syncs (delete id) (set_instances (delete id) m))).
Proof.
  intros [H1 H2 H3 H4].
  constructor; simpl; intros k x [Hne Hk]%lookup_delete_Some; eauto.
  - destruct (H3 _ _ Hk) as (? & i & ? & ?). split; [done|]. exists i.
    by rewrite lookup_delete_ne.
  - destruct (H4 _ _ Hk) as (i & ? & ?). exists i. by rewrite lookup_delete_ne.
Qed.

Lemma set_sync_WF t st m inst :
  WF m → ownedInstance t (ss_instance st) m = Some inst →
  WF (set_syncs (insert (ss_instance st) (with_tenant st t)) m).
Proof.
  intros [H1 H2 H3 H4] [Hi Ht]%ownedInstance_Some. constructor; simpl; eauto.
  intros k x. rewrite lookup_insert_Some. intros [[<- <-]|[? Hk]]; [|by eauto].
  simpl. split; [done|]. by exists inst.
Qed.

Lemma put_token_WF t id c m inst :
  WF m → ownedInstance t id m = Some inst → WF (set_tokens (insert id (mkToken t c)) m).
Proof.
  intros [H1 H2 H3 H4] [Hi Ht]%ownedInstance_Some. constructor; simpl; eauto.
  intros k x. rewrite lookup_insert_Some. intros [[<- <-]|[? Hk]]; [|by eauto].
  simpl. by exists inst.
Qed.

Lemma purged_WF t m : WF m → WF (purged t m).
Proof.
  intros [H1 H2 H3 H4].
  assert (Hkeep : ∀ k i, minus (owned t) (instances m) (instances m) !! k = Some i ↔
    instances m !! k = Some i ∧ ci_tenant i ≠ t).
  { intros k i. rewrite lookup_minus. unfold owned.
    destruct (instances m !! k) as [x|]; [|naive_solver]. simpl. case_decide; naive_solver. }
  constructor; simpl.
  - intros k i [Hk _]%Hkeep. eauto.
  - intros k i [Hk Hn]%Hkeep. rewrite lookup_delete_ne by done. eauto.
  - intros k s Hk. rewrite lookup_minus in Hk.
    destruct (instances m !! k) as [x|] eqn:Hx.
    + unfold owned in Hk. simpl in Hk. case_decide as Hd; [done|].
      destruct (H3 _ _ Hk) as (? & i & ? & ?). split; [done|]. exists i. rewrite Hkeep. naive_solver.
    + destruct (H3 _ _ Hk) as (? & i & ? & ?). congruence.
  - intros k s Hk. rewrite lookup_minus in Hk.
    destruct (instances m !! k) as [x|] eqn:Hx.
    + case_decide as Hd; [done|]. destruct (H4 _ _ Hk) as (i & Hi & Hit).
      exists i. split; [|done]. apply Hkeep. split; [done|]. intros Heq.
      apply Hd. split; simpl; [congruence|]. exists s. apply ownedToken_Some. split; congruence.
    + destruct (H4 _ _ Hk) as (i & ? & ?). congruence.
Qed.

Lemma suspended_WF env t s m : WF m → WF (set_instances (suspended_instances env t s) m).
Proof.
  intros [H1 H2 H3 H4].
  assert (Hst : ∀ k i, ci_id (status_of env t s k i) = ci_id i
    ∧ ci_tenant (status_of env t s k i) = ci_tenant i).
  { intros k i. unfold status_of. by case_decide. }
  constructor; simpl.
  - intros k i. rewrite lookup_suspended. intros (x & Hx & ->)%fmap_Some.
    destruct (Hst k x) as [-> _]. eauto.
  - intros k i. rewrite lookup_suspended. intros (x & Hx & ->)%fmap_Some.
    destruct (Hst k x) as [_ ->]. eauto.
  - intros k st Hk. destruct (H3 _ _ Hk) as (? & x & Hx & ?). split; [done|].
    exists (status_of env t s k x). rewrite lookup_suspended, Hx.
    destruct (Hst k x) as [_ ->]. done.
  - intros k st Hk. destruct (H4 _ _ Hk) as (x & Hx & ?).
    exists (status_of env t s k x). rewrite lookup_suspended, Hx.
    destruct (Hst k x) as [_ ->]. done.
Qed.

Lemma newMemStore_WF : WF newMemStore.
Proof. by constructor. Qed.

#[export] Hint Resolve ensureRow_WF create_WF delete_WF set_sync_WF put_token_WF purged_WF
  suspended_WF newMemStore_WF : asker.

(** Fields that the invariant does not mention can be updated freely. *)
Lemma WF_same m m' :
  tenants m' = tenants m → instances m' = instances m → syncs m' = syncs m →
  tokens m' = tokens m → WF m → WF m'.
Proof. intros H1 H2 H3 H4 [? ? ? ?]. constructor; rewrite ?H1, ?H2, ?H3, ?H4; eauto. Qed.

Lemma exec_WF c m : WF m → fresh_call c m → WF (exec c m).2.
Proof.
  intros Hwf Hf. destruct c as [t ctx env op]. destruct op; simpl; try done.
  - unfold EnsureTenant, guarded. destruct (ctx_err ctx); [done|].
    pose proof (ensureRow_WF t (clock env 0) m Hwf) as He. unfold ensureRow in He.
    by destruct (tenants m !! t).
  - unfold CreateConnectorInstance, guarded. destruct (ctx_err ctx); [done|].
    destruct (_ && _); [done|]. unfold fresh_call in Hf. simpl in *.
    apply create_WF; simpl; auto using ensureRow_WF, ensureRow_tenant.
    unfold ensureRow. by destruct (tenants m !! t).
  - unfold DeleteConnectorInstance, guarded. destruct (ctx_err ctx); [done|].
    destruct (ownedInstance t id m); [|done]. by apply delete_WF.
  - unfold SetSyncState, guarded. destruct (ctx_err ctx); [done|].
    destruct (ownedInstance t _ m) eqn:Ho; [|done]. simpl. by eapply set_sync_WF.
  - unfold PutToken, guarded. destruct (ctx_err ctx); [done|].
    destruct (ownedInstance t _ m) eqn:Ho; [|done]. simpl. by eapply put_token_WF.
  - unfold DeleteToken, guarded. destruct (ctx_err ctx); [done|].
    destruct (ownedToken t _ m) eqn:Ho; [|done]. destruct Hwf as [H1 H2 H3 H4].
    constructor; simpl; eauto. intros k x [_ Hk]%lookup_delete_Some. eauto.
  - destruct (ctx_err ctx) eqn:E; [unfold PurgeTenant, guarded; by rewrite E|].
    rewrite PurgeTenant_spec by done. by apply purged_WF.
  - destruct (ctx_err ctx) eqn:E; [unfold SetTenantConnectorStatus, guarded; by rewrite E|].
    rewrite SetTenantConnectorStatus_spec by done. by apply suspended_WF.
  - unfold PutPreferences, guarded. destruct (ctx_err ctx); [done|]. simpl.
    eapply WF_same; last by apply (ensureRow_WF t (clock env 0)). all: done.
  - unfold AppendFeedback, guarded. destruct (ctx_err ctx); [done|]. simpl.
    eapply WF_same; last by apply (ensureRow_WF t (clock env 0)). all: done.
  - unfold UpdateLearnedWeights, guarded. destruct (ctx_err ctx); [done|].
    destruct (update _ _) as [[??]|]; simpl; [|by apply ensureRow_WF].
    eapply WF_same; last by apply (ensureRow_WF t (clock env 0)). all: done.
  - unfold ResetLearning, guarded. destruct (ctx_err ctx); [done|]. simpl.
    by apply (WF_same m).
Qed.

Lemma run_WF cs m : WF m → fresh_run cs m → WF (run cs m).2.
Proof.
  revert m. induction cs as [|c cs IH]; intros m Hwf Hf; [done|].
  destruct Hf as [Hf1 Hf2]. simpl. pose proof (exec_WF c m Hwf Hf1) as Hwf'.
  destruct (exec c m) as [r m'] eqn:E. simpl in *.
  specialize (IH m' Hwf' Hf2). by destruct (run cs m').
Qed.

(** ** Theorems *)

(** C4. Tenant isolation of the store (refinement).  In any run of
    tenant-scoped operations, interleaved over any set of tenants from a
    well-formed store, the answers tenant [t] gets and the rows [t] ends with
    are those of a private store that holds only [t]'s rows and executes only
    [t]'s operations: nothing another tenant does is observable, and nothing
    [t] does reaches another tenant's rows. *)
Theorem run_isolated cs m t :
  WF m → fresh_run cs m →
  run (base.filter (λ c, c_tenant c = t) cs) (restrict t m)
  = (base.filter (λ tr, tr.1 = t) (run cs m).1, restrict t (run cs m).2).
Proof.
  revert m. induction cs as [|c cs IH]; intros m Hwf [Hf1 Hf2] || intros m Hwf Hf; [done|].
  simpl. pose proof (exec_WF c m Hwf Hf1) as Hwf'.
  pose proof (exec_restrict c m Hwf) as Hown.
  pose proof (exec_frame c t m Hwf Hf1) as Hframe.
  destruct (exec c m) as [r m'] eqn:E. simpl in *.
  specialize (IH m' Hwf' Hf2). destruct (run cs m') as [rs m''] eqn:E'. simpl in *.
  destruct (decide (c_tenant c = t)) as [<-|Hne].
  - rewrite !filter_cons_True by done. simpl. rewrite Hown, IH. done.
  - rewrite !filter_cons_False by done. rewrite <- Hframe by done. exact IH.
Qed.

(** The well-formedness invariant: in every reachable store, each row is
    filed under its own ID, its tenant is registered, and every sync state and
    token belongs to an existing instance of the same tenant. *)
Theorem run_well_formed cs : fresh_run cs newMemStore → WF (run cs newMemStore).2.
Proof. apply run_WF, newMemStore_WF. Qed.

(** No existence oracle: for an instance ID that is unknown and for one
    that another tenant owns, every lookup and every mutation by ID gives the
    same answer [ErrNotFound] and changes nothing. *)
Theorem foreign_id_not_found ctx t id c m :
  WF m → ctx_err ctx = None → (∀ inst, instances m !! id = Some inst → ci_tenant inst ≠ t) →
  GetConnectorInstance ctx t id m = Err ErrNotFound ∧
  DeleteConnectorInstance ctx t id m = (Err ErrNotFound, m) ∧
  GetSyncState ctx t id m = Err ErrNotFound ∧
  (∀ st, ss_instance st = id → SetSyncState ctx t st m = (Err ErrNotFound, m)) ∧
  PutToken ctx t id c m = (Err ErrNotFound, m) ∧
  GetToken ctx t id m = Err ErrNotFound ∧
  DeleteToken ctx t id m = (Err ErrNotFound, m).
Proof.
  intros Hwf Hc Hforeign.
  assert (Hi : ownedInstance t id m = None).
  { destruct (ownedInstance t id m) as [i|] eqn:E; [|done].
    apply ownedInstance_Some in E. naive_solver. }
  assert (Ht : ownedToken t id m = None).
  { destruct (ownedToken t id m) as [k|] eqn:E; [|done]. apply ownedToken_Some in E as [Hk <-].
    destruct (wf_tok m Hwf _ _ Hk) as (i & Hi' & He). destruct (Hforeign _ Hi'). done. }
  unfold GetConnectorInstance, DeleteConnectorInstance, GetSyncState, SetSyncState,
    PutToken, GetToken, DeleteToken, guarded, guarded_read.
  rewrite Hc, Hi, Ht. split_and!; try done. intros st ->. by rewrite Hi.
Qed.

(** ** A concrete run *)
Definition demo_ctx : Ctx := mkCtx None None None ∅.
Definition demo_env (id : string) : Env := mkEnv (λ n, Z.of_nat n) (λ _, 7%Z) id.

(** Two tenants, interleaved: each creates an instance, [alice] stores a token,
    [bob] tries to read and delete it, then [bob] is purged. *)
Definition demo_calls : list Call :=
  [ mkCall "alice" demo_ctx (demo_env "i1") (OpCreate "gmail" "mail" "{}" "ACTIVE" 2);
    mkCall "bob" demo_ctx (demo_env "i2") (OpCreate "slack" "chat" "{}" "ACTIVE" 2);
    mkCall "alice" demo_ctx (demo_env "") (OpPutToken "i1" "secret");
    mkCall "bob" demo_ctx (demo_env "") (OpGetToken "i1");
    mkCall "bob" demo_ctx (demo_env "") (OpDelete "i1");
    mkCall "bob" demo_ctx (demo_env "") OpPurge;
    mkCall "alice" demo_ctx (demo_env "") (OpGetToken "i1") ].

Lemma demo_fresh : fresh_run demo_calls newMemStore.
Proof. repeat split; vm_compute; reflexivity. Qed.

Lemma run_isolated_witness :
  run (base.filter (λ c, c_tenant c = "alice") demo_calls) (restrict "alice" newMemStore)
  = (base.filter (λ tr, tr.1 = "alice") (run demo_calls newMemStore).1,
     restrict "alice" (run demo_calls newMemStore).2)
  ∧ (run demo_calls newMemStore).1 !! 6 = Some ("alice", RBytes (Ok "secret")).
Proof.
  split; [|vm_compute; reflexivity].
  apply (run_isolated demo_calls newMemStore "alice"); [apply newMemStore_WF|apply demo_fresh].
Defined.

Lemma run_well_formed_witness : WF (run demo_calls newMemStore).2.
Proof. apply (run_well_formed demo_calls). apply demo_fresh. Defined.

Definition demo_store : memStore := (run (firstn 3 demo_calls) newMemStore).2.

Lemma demo_store_WF : WF demo_store.
Proof. apply run_WF; [apply newMemStore_WF|]. repeat split; vm_compute; reflexivity. Qed.

Lemma foreign_id_not_found_witness :
  GetToken demo_ctx "bob" "i1" demo_store = Err ErrNotFound
  ∧ GetToken demo_ctx "bob" "i9" demo_store = Err ErrNotFound.
Proof.
  split.
  - apply (foreign_id_not_found demo_ctx "bob" "i1" "" demo_store demo_store_WF eq_refl).
    vm_compute. intros inst [= <-]. discriminate.
  - apply (foreign_id_not_found demo_ctx "bob" "i9" "" demo_store demo_store_WF eq_refl).
    vm_compute. intros inst [=].
Defined.
