(* ===== verification/StoreOps.v ===== *)
(** * Functional behaviour of the store operations

    Quotas, listings, round trips and erasure of [memStore], on top of the
    closed forms of [StoreLoops] and the invariant of [StoreIsolation]. *)

From stdpp Require Import base gmap strings list sorting.
From Stdlib Require Import ZArith Lia.
From S2P Require Import Prelude GoStrings Tenancy Store StoreLoops StoreIsolation.
Import memStore.

(** ** Counting lemmas *)
Lemma countZ_dom {A} (P : string * A → Prop) `{∀ x, Decision (P x)} (m1 m2 : gmap string A) :
  (∀ i, (∃ x, m1 !! i = Some x ∧ P (i, x)) → ∃ x, m2 !! i = Some x ∧ P (i, x)) →
  (countZ P m1 <= countZ P m2)%Z.
Proof.
  intros Hsub. unfold countZ. rewrite <- !(size_dom (D := gset string)).
  apply Nat2Z.inj_le, subseteq_size. intros i.
  rewrite !elem_of_dom. intros [x Hx]. apply map_lookup_filter_Some in Hx.
  destruct (Hsub i) as (y & Hy & HP); [naive_solver|].
  exists y. by apply map_lookup_filter_Some.
Qed.

Lemma countOwned_delete t id insts : (countOwned t (delete id insts) <= countOwned t insts)%Z.
Proof.
  rewrite !countOwned_countZ. apply countZ_dom. intros i (x & [_ Hx]%lookup_delete_Some & HP).
  eauto.
Qed.

Lemma countOwned_insert_new t id inst insts :
  insts !! id = None → ci_tenant inst = t →
  countOwned t (<[id:=inst]> insts) = (countOwned t insts + 1)%Z.
Proof.
  intros Hid Ht. rewrite !countOwned_countZ, countZ_insert by done. by rewrite decide_True.
Qed.

Lemma countOwned_suspended t env s insts :
  countOwned t (suspended_instances env t s insts) = countOwned t insts.
Proof.
  rewrite !countOwned_countZ.
  apply Z.le_antisymm; apply countZ_dom; intros i (x & Hx & HP).
  - rewrite lookup_suspended in Hx. apply fmap_Some in Hx as (y & Hy & ->).
    exists y. split; [done|]. unfold owned, status_of in *. simpl in *. by case_decide.
  - exists (status_of env t s i x). rewrite lookup_suspended, Hx. split; [done|].
    unfold owned, status_of in *. simpl in *. by case_decide.
Qed.

Lemma countOwned_purged t m : countOwned t (instances (purged t m)) = 0%Z.
Proof.
  rewrite countOwned_countZ. apply countZ_zero. intros i x Hx Ho.
  simpl in Hx. rewrite lookup_minus in Hx. destruct (instances m !! i) as [y|] eqn:E; [|congruence].
  case_decide as Hd; [done|]. apply Hd. unfold owned in *. simpl in *. congruence.
Qed.

(** One operation raises the count of a tenant's instances only through a
    create that was admitted below the cap. *)
Lemma exec_count t k c m :
  WF m → fresh_call c m →
  (∀ cn d cfg s max, c_tenant c = t → c_op c = OpCreate cn d cfg s max → (0 < max <= k)%Z) →
  (countOwned t (instances m) <= k)%Z →
  (countOwned t (instances (exec c m).2) <= k)%Z.
Proof.
  intros Hwf Hf Hmax Hk. destruct (decide (c_tenant c = t)) as [Ht|Ht].
  2:{ rewrite <- countOwned_restrict, exec_frame by done. by rewrite countOwned_restrict. }
  destruct c as [t0 ctx env op]. simpl in Ht. subst t0.
  assert (0 <= countOwned t (instances m))%Z.
  { rewrite countOwned_countZ. apply countZ_nonneg. }
  assert (Hrow : ∀ now, instances (ensureRow t now m) = instances m).
  { intros now. unfold ensureRow. by destruct (tenants m !! t). }
  destruct op; simpl; try done.
  - unfold EnsureTenant, guarded. destruct (ctx_err ctx); [done|]. by destruct (tenants m !! t).
  - specialize (Hmax _ _ _ _ _ eq_refl eq_refl).
    unfold CreateConnectorInstance, guarded. destruct (ctx_err ctx); [done|]. simpl ci_tenant.
    rewrite (proj2 (Z.ltb_lt 0 maxInstances)) by lia. simpl.
    destruct (Z.leb_spec maxInstances (countOwned t (instances m))); [done|].
    simpl. rewrite Hrow, countOwned_insert_new by done. lia.
  - unfold DeleteConnectorInstance, guarded. destruct (ctx_err ctx); [done|].
    destruct (ownedInstance t id m); [|done]. simpl.
    pose proof (countOwned_delete t id (instances m)). lia.
  - unfold SetSyncState, guarded. destruct (ctx_err ctx); [done|].
    by destruct (ownedInstance t _ m).
  - unfold PutToken, guarded. destruct (ctx_err ctx); [done|].
    by destruct (ownedInstance t _ m).
  - unfold DeleteToken, guarded. destruct (ctx_err ctx); [done|].
    by destruct (ownedToken t _ m).
  - destruct (ctx_err ctx) eqn:E; [unfold PurgeTenant, guarded; by rewrite E|].
    rewrite PurgeTenant_spec by done. simpl snd. rewrite countOwned_purged. lia.
  - destruct (ctx_err ctx) eqn:E; [unfold SetTenantConnectorStatus, guarded; by rewrite E|].
    rewrite SetTenantConnectorStatus_spec by done. simpl.
    pose proof (countOwned_suspended t env status (instances m)). lia.
  - unfold PutPreferences, guarded. destruct (ctx_err ctx); [done|]. simpl. by rewrite Hrow.
  - unfold AppendFeedback, guarded. destruct (ctx_err ctx); [done|]. simpl. by rewrite Hrow.
  - unfold UpdateLearnedWeights, guarded. destruct (ctx_err ctx); [done|].
    destruct (update _ _) as [[??]|]; simpl; by rewrite Hrow.
  - unfold ResetLearning, guarded. by destruct (ctx_err ctx).
Qed.

(** ** Erasure lemmas *)
Lemma purged_residue ctx t m :
  WF m → ctx_err ctx = None → TenantResidue ctx t (purged t m) = Ok true.
Proof.
  intros Hwf Hc. unfold TenantResidue, guarded_read. rewrite Hc. simpl.
  rewrite !lookup_delete_eq. simpl.
  assert (existsb (λ kv, String.eqb (ci_tenant kv.2) t)
    (map_to_list (minus (owned t) (instances m) (instances m))) = false) as ->.
  { apply not_true_iff_false. intros ([k x] & Hin & He)%existsb_exists.
    apply list_elem_of_In, elem_of_map_to_list in Hin. simpl in He. apply String.eqb_eq in He.
    rewrite lookup_minus in Hin. destruct (instances m !! k) eqn:E; [|congruence].
    case_decide as Hd; [done|]. apply Hd. unfold owned. simpl. congruence. }
  assert (existsb (λ kv, String.eqb (tok_tenant kv.2) t)
    (map_to_list (minus (purged_token t m) (instances m) (tokens m))) = false) as ->.
  { apply not_true_iff_false. intros ([k x] & Hin & He)%existsb_exists.
    apply list_elem_of_In, elem_of_map_to_list in Hin. simpl in He. apply String.eqb_eq in He.
    rewrite lookup_minus in Hin. destruct (instances m !! k) as [i|] eqn:E.
    - case_decide as Hd; [done|]. apply Hd.
      destruct (wf_tok m Hwf _ _ Hin) as (j & Hj & Ht). split; simpl; [congruence|].
      exists x. by apply ownedToken_Some.
    - destruct (wf_tok m Hwf _ _ Hin) as (j & Hj & Ht). congruence. }
  done.
Qed.

Lemma minus_none {A B} (P : string * A → Prop) `{∀ x, Decision (P x)}
    (ds : gmap string A) (x : gmap string B) :
  (∀ i y, ds !! i = Some y → ¬ P (i, y)) → minus P ds x = x.
Proof.
  intros Hn. apply map_eq. intros i. rewrite lookup_minus.
  destruct (ds !! i) eqn:E; [|done]. rewrite decide_False; [done|]. eauto.
Qed.

(** Nothing left to purge: a second erasure is the identity. *)
Lemma purged_idem t m : purged t (purged t m) = purged t m.
Proof.
  assert (Hn : ∀ i y, instances (purged t m) !! i = Some y → ¬ owned t (i, y)).
  { apply (proj1 (countZ_zero (owned t) _)). rewrite <- countOwned_countZ.
    apply countOwned_purged. }
  apply store_eq; simpl; rewrite ?delete_delete_eq; try done; apply minus_none; intros i y Hi.
  - by apply Hn.
  - by apply Hn.
  - intros [Ho _]. by apply (Hn i y Hi).
Qed.

(** ** Theorems *)

(** Quota: when every create of tenant [t] in a run carries a positive cap
    of at most [k], tenant [t] never holds more than [k] connector instances,
    however creates of [t] interleave with deletes and with other tenants. *)
Theorem quota_respected t k cs m :
  WF m → fresh_run cs m →
  (∀ c cn d cfg s max, c ∈ cs → c_tenant c = t → c_op c = OpCreate cn d cfg s max →
     (0 < max <= k)%Z) →
  (countOwned t (instances m) <= k)%Z →
  (countOwned t (instances (run cs m).2) <= k)%Z.
Proof.
  revert m. induction cs as [|c cs IH]; intros m Hwf Hf Hmax Hk; [done|].
  destruct Hf as [Hf1 Hf2]. simpl.
  pose proof (exec_WF c m Hwf Hf1) as Hwf'.
  assert (Hc : (countOwned t (instances (exec c m).2) <= k)%Z).
  { apply exec_count; try done. intros. eapply (Hmax c); eauto. left. }
  destruct (exec c m) as [r m'] eqn:E. simpl in *.
  specialize (IH m' Hwf' Hf2). destruct (run cs m') as [rs m''] eqn:E'. simpl in *.
  apply IH; [|done]. intros c' **. eapply (Hmax c'); eauto. by right.
Qed.

(** Listing: [ListConnectorInstances] returns exactly the tenant's
    instances, each once, in order of creation time and then ID; the answer
    does not depend on the order in which the map was iterated. *)
Theorem list_instances_correct ctx t m l :
  WF m → ListConnectorInstances ctx t m = Ok l →
  StronglySorted inst_leb l ∧ NoDup l ∧
  (∀ inst, inst ∈ l ↔ ∃ id, instances m !! id = Some inst ∧ ci_tenant inst = t) ∧
  (∀ order, order ≡ₚ map_to_list (instances m) →
     sort_by inst_leb (snd <$> base.filter (λ kv, ci_tenant kv.2 = t) order) = l).
Proof.
  intros Hwf. unfold ListConnectorInstances, guarded_read. destruct (ctx_err ctx); [done|].
  intros [= <-]. set (vals := _ <$> base.filter _ (map_to_list (instances m))).
  assert (Hin : ∀ inst, inst ∈ vals ↔ ∃ id, instances m !! id = Some inst ∧ ci_tenant inst = t).
  { intros inst. unfold vals, cloneInstance. rewrite list_elem_of_fmap. split.
    - intros ([k x] & -> & Hx). apply list_elem_of_filter in Hx as [Ht Hx].
      apply elem_of_map_to_list in Hx. eauto.
    - intros (id & Hi & Ht). exists (id, inst). split; [done|].
      apply list_elem_of_filter. split; [done|]. by apply elem_of_map_to_list. }
  assert (Hanti : ∀ a b, a ∈ vals → b ∈ vals → inst_leb a b = true → inst_leb b a = true → a = b).
  { intros a b (i & Hi & _)%Hin (j & Hj & _)%Hin H1 H2.
    pose proof (inst_leb_antisym a b H1 H2) as Hid.
    rewrite (wf_id m Hwf _ _ Hi), (wf_id m Hwf _ _ Hj) in Hid. subst. congruence. }
  split_and!.
  - apply sort_by_sorted; eauto using inst_leb_total, inst_leb_trans.
  - rewrite sort_by_perm. unfold vals, cloneInstance. apply NoDup_fmap_2_strong.
    + intros [i a] [j b] Ha Hb Hab. simpl in Hab. subst b.
      apply list_elem_of_filter in Ha as [_ Ha]. apply list_elem_of_filter in Hb as [_ Hb].
      apply elem_of_map_to_list in Ha, Hb.
      by rewrite <- (wf_id m Hwf _ _ Ha), <- (wf_id m Hwf _ _ Hb).
    + apply NoDup_filter, NoDup_map_to_list.
  - intros inst. rewrite sort_by_perm. apply Hin.
  - intros order Hp. symmetry. apply sort_unique; eauto using inst_leb_total, inst_leb_trans.
    apply fmap_Permutation. by rewrite Hp.
Qed.

(** The tokens a purge removes are the tokens of the tenant. *)
Lemma purged_tokens_count t m : WF m →
  countZ (purged_token t m) (instances m) = Z.of_nat (size (base.filter (λ kv, tok_tenant kv.2 = t) (tokens m))).
Proof.
  intros Hwf. apply Z.le_antisymm.
  - unfold countZ. rewrite <- !(size_dom (D := gset string)). apply Nat2Z.inj_le, subseteq_size.
    intros i. rewrite !elem_of_dom. intros [x Hx].
    apply map_lookup_filter_Some in Hx as [Hx [_ [k Hk]]]. simpl in Hk.
    apply ownedToken_Some in Hk. exists k. by apply map_lookup_filter_Some.
  - unfold countZ. rewrite <- !(size_dom (D := gset string)). apply Nat2Z.inj_le, subseteq_size.
    intros i. rewrite !elem_of_dom. intros [k Hk].
    apply map_lookup_filter_Some in Hk as [Hk Ht]. simpl in Ht.
    destruct (wf_tok m Hwf _ _ Hk) as (x & Hx & Hxt). exists x.
    apply map_lookup_filter_Some. split; [done|]. split; simpl; [congruence|].
    exists k. by apply ownedToken_Some.
Qed.

(** Erasure of the store: after [PurgeTenant], [TenantResidue] reports
    nothing left of the tenant, the counts reported are the numbers of the
    tenant's instances and tokens, every other tenant's view is unchanged, and
    purging again reports zero and changes nothing. *)
Theorem purge_tenant_complete ctx t m counts m' :
  WF m → PurgeTenant ctx t m = (Ok counts, m') →
  TenantResidue ctx t m' = Ok true ∧
  pc_instances counts = countOwned t (instances m) ∧
  pc_tokens counts = Z.of_nat (size (base.filter (λ kv, tok_tenant kv.2 = t) (tokens m))) ∧
  (∀ t', t' ≠ t → restrict t' m' = restrict t' m) ∧
  PurgeTenant ctx t m' = (Ok (mkPurgeCounts 0 0), m').
Proof.
  intros Hwf Hp. destruct (ctx_err ctx) eqn:Hc.
  { unfold PurgeTenant, guarded in Hp. by rewrite Hc in Hp. }
  rewrite PurgeTenant_spec in Hp by done. injection Hp as <- <-.
  assert (Hz : countZ (owned t) (instances (purged t m)) = 0%Z).
  { rewrite <- countOwned_countZ. apply countOwned_purged. }
  split_and!; simpl.
  - by apply purged_residue.
  - by rewrite countOwned_countZ.
  - by apply purged_tokens_count.
  - intros t' Hne. by apply purged_frame.
  - rewrite PurgeTenant_spec, purged_idem, Hz by done. do 3 f_equal.
    apply countZ_zero. intros i x Hi [Ho _].
    by apply (proj1 (countZ_zero (owned t) _) Hz i x Hi).
Qed.

(** The preference version is at least 1 after every write, and is the
    previous version plus one unless the 64-bit counter would overflow. *)
Theorem put_preferences_version env ctx t p m v m' :
  int64_ok (up_version (default zeroPrefs (prefs m !! t))) →
  PutPreferences env ctx t p m = (Ok v, m') →
  (1 <= v)%Z ∧
  prefs m' !! t = Some (mkPrefs p v true) ∧
  ((0 <= up_version (default zeroPrefs (prefs m !! t)) < 2 ^ 63 - 1)%Z →
     v = (up_version (default zeroPrefs (prefs m !! t)) + 1)%Z).
Proof.
  intros Hok. unfold PutPreferences, guarded. destruct (ctx_err ctx); [done|].
  assert (prefs (ensureRow t (clock env 0) m) = prefs m) as Hp.
  { unfold ensureRow. by destruct (tenants m !! t). }
  rewrite Hp. set (cur := up_version _) in *.
  intros [= <- <-]. split_and!.
  - destruct (Z.ltb_spec (wrap64 (cur + 1)) 1); lia.
  - simpl. apply lookup_insert_eq.
  - intros Hr. rewrite wrap64_id by (unfold int64_ok; lia).
    destruct (Z.ltb_spec (cur + 1) 1); lia.
Qed.

(** Round trips through the store: an owned instance's sync state and
    token read back as written (the sync state under the caller's tenant),
    and feedback is appended in order. *)
Theorem store_round_trips ctx env t id inst st c ev m :
  ctx_err ctx = None → instances m !! id = Some inst → ci_tenant inst = t → ss_instance st = id →
  (∃ m1, SetSyncState ctx t st m = (Ok (with_tenant st t), m1) ∧
     GetSyncState ctx t id m1 = Ok (with_tenant st t)) ∧
  (∃ m2, PutToken ctx t id c m = (Ok tt, m2) ∧ GetToken ctx t id m2 = Ok c ∧
     (DeleteToken ctx t id m2).1 = Ok tt ∧
     GetToken ctx t id (DeleteToken ctx t id m2).2 = Err ErrNotFound) ∧
  (∃ m3, AppendFeedback env ctx t ev m = (Ok tt, m3) ∧
     feedback m3 !! t = Some (default [] (feedback m !! t) ++ [ev])).
Proof.
  intros Hc Hi Ht <-.
  assert (Ho : ownedInstance t (ss_instance st) m = Some inst) by by apply ownedInstance_Some.
  unfold SetSyncState, GetSyncState, PutToken, GetToken, DeleteToken, AppendFeedback,
    guarded, guarded_read. rewrite Hc, Ho. split_and!.
  - eexists. split; [done|]. unfold ownedInstance in *. simpl. rewrite Ho.
    by rewrite lookup_insert_eq.
  - eexists. split; [done|]. unfold ownedToken. simpl. rewrite lookup_insert_eq. simpl.
    rewrite String.eqb_refl. simpl. split_and!; try done. simpl. by rewrite lookup_delete_eq.
  - eexists. split; [done|]. simpl. rewrite lookup_insert_eq.
    unfold ensureRow. by destruct (tenants m !! t).
Qed.

(** ** Witnesses *)
Lemma quota_respected_witness :
  (countOwned "alice" (instances (run demo_calls newMemStore).2) <= 2)%Z.
Proof.
  apply (quota_respected "alice" 2 demo_calls newMemStore).
  - apply newMemStore_WF.
  - apply demo_fresh.
  - unfold demo_calls. intros c cn d cfg s max Hin _ Hop.
    rewrite !elem_of_cons in Hin. repeat destruct Hin as [->|Hin]; simpl in Hop; try discriminate.
    all: try (injection Hop as <- <- <- <- <-; lia). by apply elem_of_nil in Hin.
  - vm_compute. discriminate.
Defined.

Lemma list_instances_correct_witness :
  ∃ l, ListConnectorInstances demo_ctx "alice" demo_store = Ok l ∧ NoDup l ∧
    ci_id <$> l = ["i1"].
Proof.
  eexists. split; [vm_compute; reflexivity|]. split; [|reflexivity].
  eapply (list_instances_correct demo_ctx "alice" demo_store _ demo_store_WF).
  vm_compute. reflexivity.
Defined.

Lemma purge_tenant_complete_witness :
  TenantResidue demo_ctx "alice" (PurgeTenant demo_ctx "alice" demo_store).2 = Ok true
  ∧ TenantResidue demo_ctx "alice" demo_store = Ok false.
Proof.
  split; [|vm_compute; reflexivity].
  apply (purge_tenant_complete demo_ctx "alice" demo_store (mkPurgeCounts 1 1) _ demo_store_WF).
  vm_compute. reflexivity.
Defined.

Lemma put_preferences_version_witness :
  ∃ m', PutPreferences (demo_env "") demo_ctx "alice" "{}" demo_store = (Ok 1%Z, m') ∧
    prefs m' !! "alice" = Some (mkPrefs "{}" 1 true).
Proof.
  eexists. split; [vm_compute; reflexivity|].
  eapply (put_preferences_version (demo_env "") demo_ctx "alice" "{}" demo_store 1).
  - vm_compute. split; discriminate || reflexivity.
  - vm_compute. reflexivity.
Defined.

Lemma store_round_trips_witness :
  ∃ m1, SetSyncState demo_ctx "alice" (mkSyncState "i1" "" "c42" "INCREMENTAL" None None "" 5)
      demo_store = (Ok (mkSyncState "i1" "alice" "c42" "INCREMENTAL" None None "" 5), m1) ∧
    GetSyncState demo_ctx "alice" "i1" m1
    = Ok (mkSyncState "i1" "alice" "c42" "INCREMENTAL" None None "" 5).
Proof.
  eapply (store_round_trips demo_ctx (demo_env "") "alice" "i1" _
    (mkSyncState "i1" "" "c42" "INCREMENTAL" None None "" 5) "x"
    (mkFeedback "" "" "" "" 0 "") demo_store); [reflexivity|vm_compute; reflexivity|reflexivity|reflexivity].
Defined.
