(* ===== verification/Crypto.v ===== *)
(** * Per-tenant envelope encryption

    Models [platform/crypto]: [dekstore.go] (the [DEKStore] contract and
    [memDEKStore]), [kek.go] ([KEKProvider], [fileKEK], [newAESGCM]) and
    [cipher.go] ([TenantCipher]).  AES-GCM is the interface [GCM] with the
    documented behaviour of [crypto/cipher] as its laws.

    The methods of [TenantCipher] touch shared state (the AEAD cache behind
    its mutex, the DEK store) several times per call, so a method is a [prog]:
    a sequence of atomic actions.  [run] executes one alone; [pstep]
    interleaves any number of them, in several processes that share a store. *)

From stdpp Require Import base gmap strings list.
From Stdlib Require Import Ascii ZArith Lia.
From S2P Require Import Prelude GoStrings Tenancy.

(** Errors of a DEK store or a KEK provider: the ones [errors.Is] can tell
    apart, and a tag for each plain error. *)
Inductive BackErr :=
| BE_NoTenant
| BE_DEKNotFound
| BE_Ctx (e : CtxErr)
| BE_UnsupportedVersion (b : ascii)
| BE_UnwrapFailed
| BE_Other (msg : string).

(** Errors of [TenantCipher]; [CE_Back] wraps ([%w]) an error from below. *)
Inductive CryptoErr :=
| CE_Back (e : BackErr)
| CE_NoTenant
| CE_UnsupportedVersion (b : ascii)
| CE_AuthFailed
| CE_Other (msg : string).

(** What one atomic action reads from outside: the state of the call's
    context at that instant, the next bytes of [rand.Reader] ([None] when
    reading fails), and the clock and UUID source. *)
Record Inp := mkInp {
  in_ctx : option CtxErr;
  in_rand : option (nat → ascii);
  in_env : Env
}.

(** [io.ReadFull(rand.Reader, make([]byte, n))] *)
Definition ReadFull (i : Inp) (n : nat) : option bytes :=
  (λ f, f <$> seq 0 n) <$> i.(in_rand).

Definition dekSize : nat := 32.
Definition gcmNonceSize : nat := 12.
Definition blobVersion1 : ascii := "001"%char.
Definition wrapVersion1 : ascii := "001"%char.

(** ** AES-GCM

    [crypto/cipher.AEAD] for a given key.  [gcm_sound]: the plaintext that
    [Open] accepts seals to the very ciphertext it was given (GCM is
    deterministic for a fixed nonce). *)
Class GCM := {
  gcm_seal : bytes → bytes → bytes → bytes → bytes;
  gcm_open : bytes → bytes → bytes → bytes → option bytes;
  gcm_overhead : nat
}.

Class GCMLaws `{!GCM} : Prop := {
  gcm_open_seal k n p a : gcm_open k n (gcm_seal k n p a) a = Some p;
  gcm_sound k n c a p : gcm_open k n c a = Some p → c = gcm_seal k n p a;
  gcm_length k n p a : length (gcm_seal k n p a) = length p + gcm_overhead
}.

(** An AEAD value is determined by its key.  [aes.NewCipher] accepts 16, 24
    and 32 bytes. *)
Definition newAESGCM (key : bytes) : result string bytes :=
  if bool_decide (length key = 16 ∨ length key = 24 ∨ length key = 32) then Ok key
  else Err "crypto/aes: invalid key size".

(** ** The interfaces *)
Class DEKStore (S : Type) := {
  GetWrappedDEK : Inp → TenantID → S → result BackErr bytes;
  PutWrappedDEK : Inp → TenantID → bytes → S → result BackErr unit * S;
  DeleteDEK : Inp → TenantID → S → result BackErr unit * S
}.

(** The documented contract: a read reports what is stored, Put is
    first-writer-wins and may answer nil or an error, Delete removes the
    tenant's entry. *)
Class DEKStoreLaws (S : Type) `{!DEKStore S} := {
  dek_view : S → gmap TenantID bytes;
  dek_get_ok i t s w : GetWrappedDEK i t s = Ok w → dek_view s !! t = Some w;
  dek_get_absent i t s : GetWrappedDEK i t s = Err BE_DEKNotFound → dek_view s !! t = None;
  dek_put_view i t w s :
    dek_view (PutWrappedDEK i t w s).2 = dek_view s ∨
    (dek_view s !! t = None ∧ dek_view (PutWrappedDEK i t w s).2 = <[t := w]> (dek_view s));
  dek_delete_ok i t s :
    (DeleteDEK i t s).1 = Ok tt → dek_view (DeleteDEK i t s).2 = delete t (dek_view s)
}.

Class KEKProvider (K : Type) := {
  WrapDEK : K → Inp → TenantID → bytes → result BackErr bytes;
  UnwrapDEK : K → Inp → TenantID → bytes → result BackErr bytes
}.

(** Unwrapping is a function of the tenant and the blob alone, and what was
    wrapped for a tenant unwraps for it. *)
Class KEKLaws (K : Type) `{!KEKProvider K} := {
  kek_spec : K → TenantID → bytes → option bytes;
  kek_unwrap_ok k i t w d : UnwrapDEK k i t w = Ok d → kek_spec k t w = Some d;
  kek_wrap_ok k i t d w : WrapDEK k i t d = Ok w → kek_spec k t w = Some d;
  kek_spec_size k t w d : kek_spec k t w = Some d → length d = dekSize
}.

(** ** [memDEKStore] *)
Abbreviation memDEKStore := (gmap TenantID bytes) (only parsing).

Definition mem_GetWrappedDEK (i : Inp) (t : TenantID) (s : memDEKStore)
    : result BackErr bytes :=
  match in_ctx i with
  | Some e => Err (BE_Ctx e)
  | None =>
    if String.eqb t "" then Err BE_NoTenant
    else match s !! t with Some w => Ok w | None => Err BE_DEKNotFound end
  end.

Definition mem_PutWrappedDEK (i : Inp) (t : TenantID) (wrapped : bytes) (s : memDEKStore)
    : result BackErr unit * memDEKStore :=
  match in_ctx i with
  | Some e => (Err (BE_Ctx e), s)
  | None =>
    if String.eqb t "" then (Err BE_NoTenant, s)
    else if bool_decide (length wrapped = 0) then
      (Err (BE_Other "crypto: refusing to store empty wrapped DEK"), s)
    else match s !! t with
    | Some _ => (Ok tt, s)
    | None => (Ok tt, <[t := wrapped]> s)
    end
  end.

Definition mem_Delete (i : Inp) (t : TenantID) (s : memDEKStore)
    : result BackErr unit * memDEKStore :=
  match in_ctx i with
  | Some e => (Err (BE_Ctx e), s)
  | None =>
    if String.eqb t "" then (Err BE_NoTenant, s) else (Ok tt, delete t s)
  end.

#[export] Instance memDEKStore_DEKStore : DEKStore memDEKStore :=
  Build_DEKStore _ mem_GetWrappedDEK mem_PutWrappedDEK mem_Delete.

(** ** [fileKEK] *)
Record fileKEK := mkFileKEK { kek_aead : bytes }.

Section fileKEK.
Context `{!GCM}.

Definition file_WrapDEK (k : fileKEK) (i : Inp) (t : TenantID) (dek : bytes)
    : result BackErr bytes :=
  match in_ctx i with
  | Some e => Err (BE_Ctx e)
  | None =>
    if String.eqb t "" then Err BE_NoTenant
    else if negb (bool_decide (length dek = dekSize)) then
      Err (BE_Other "crypto: wrap DEK: key size")
    else match ReadFull i gcmNonceSize with
    | None => Err (BE_Other "crypto: wrap DEK: nonce")
    | Some nonce =>
      Ok (wrapVersion1 :: nonce ++ gcm_seal (kek_aead k) nonce dek (to_bytes t))
    end
  end.

(** The part of UnwrapDEK after the guards on the call. *)
Definition open_wrapped (k : fileKEK) (t : TenantID) (wrapped : bytes)
    : result BackErr bytes :=
  match wrapped with
  | [] => Err (BE_Other "crypto: unwrap DEK: empty blob")
  | v :: body =>
    if negb (Ascii.eqb v wrapVersion1) then Err (BE_UnsupportedVersion v)
    else if bool_decide (length body < gcmNonceSize + gcm_overhead) then
      Err (BE_Other "crypto: unwrap DEK: blob too short")
    else match gcm_open (kek_aead k) (take gcmNonceSize body) (drop gcmNonceSize body) (to_bytes t) with
    | None => Err BE_UnwrapFailed
    | Some dek =>
      if negb (bool_decide (length dek = dekSize)) then
        Err (BE_Other "crypto: unwrap DEK: unexpected key size")
      else Ok dek
    end
  end.

Definition file_UnwrapDEK (k : fileKEK) (i : Inp) (t : TenantID) (wrapped : bytes)
    : result BackErr bytes :=
  match in_ctx i with
  | Some e => Err (BE_Ctx e)
  | None => if String.eqb t "" then Err BE_NoTenant else open_wrapped k t wrapped
  end.

#[export] Instance fileKEK_KEKProvider : KEKProvider fileKEK :=
  Build_KEKProvider _ file_WrapDEK file_UnwrapDEK.
End fileKEK.

(** ** Programs: sequences of atomic actions *)
Inductive prog (W A : Type) : Type :=
| Ret (a : A)
| Atomic (B : Type) (f : Inp → W → B * W) (k : B → prog W A).
Arguments Ret {W A} a.
Arguments Atomic {W A} B f k.

Fixpoint bind {W A B} (p : prog W A) (q : A → prog W B) : prog W B :=
  match p with
  | Ret a => q a
  | Atomic X f k => Atomic X f (λ b, bind (k b) q)
  end.

(** One call alone: action number [n] reads the input [ins n]. *)
Fixpoint run {W A} (p : prog W A) (ins : nat → Inp) (w : W) : A * W :=
  match p with
  | Ret a => (a, w)
  | Atomic X f k => let '(b, w') := f (ins 0) w in run (k b) (λ n, ins (S n)) w'
  end.

(** Run a program of a component of the state, given how to read and write
    the component. *)
Fixpoint zoom {V W A} (get : W → V) (put : V → W → W) (p : prog V A) : prog W A :=
  match p with
  | Ret a => Ret a
  | Atomic X f k =>
    Atomic X (λ i w, let '(b, v) := f i (get w) in (b, put v w)) (λ b, zoom get put (k b))
  end.

(** An action that only reads the inputs. *)
Definition input {W B} (f : Inp → B) : Inp → W → B * W := λ i w, (f i, w).

(** ** [TenantCipher] *)
Section TenantCipher.
Context `{!GCM} {DS : Type} `{!DEKStore DS} {K : Type} `{!KEKProvider K} (kek : K).

(** The cache of AEADs (by tenant), and the DEK store it shares. *)
Record TenantCipher := mkCipher { aeads : gmap TenantID bytes; store : DS }.

Definition NewTenantCipher (s : DS) : TenantCipher := mkCipher ∅ s.

Definition unwrap (t : TenantID) (w : bytes) : prog TenantCipher (result BackErr bytes) :=
  Atomic _ (input (λ i, UnwrapDEK kek i t w)) Ret.

Definition get_dek (t : TenantID) (i : Inp) (c : TenantCipher)
    : result BackErr bytes * TenantCipher :=
  (GetWrappedDEK i t (store c), c).

Definition put_dek (t : TenantID) (wrapped : bytes) (i : Inp) (c : TenantCipher)
    : result BackErr unit * TenantCipher :=
  let '(r, s') := PutWrappedDEK i t wrapped (store c) in (r, mkCipher (aeads c) s').

Definition provisionDEK (t : TenantID) : prog TenantCipher (result BackErr bytes) :=
  Atomic _ (input (λ i, ReadFull i dekSize)) (λ r,
  match r with
  | None => Ret (Err (BE_Other "generate DEK"))
  | Some dek =>
    Atomic _ (input (λ i, WrapDEK kek i t dek)) (λ r,
    match r with
    | Err e => Ret (Err e)
    | Ok wrapped =>
      Atomic _ (put_dek t wrapped) (λ putErr,
      Atomic _ (get_dek t) (λ stored,
      match stored with
      | Err getErr =>
        match putErr with
        | Err e => Ret (Err e)
        | Ok _ => Ret (Err getErr)
        end
      | Ok stored => unwrap t stored
      end))
    end)
  end).

Definition loadDEK (t : TenantID) (create : bool) : prog TenantCipher (result BackErr bytes) :=
  Atomic _ (get_dek t) (λ r,
  match r with
  | Ok wrapped => unwrap t wrapped
  | Err BE_DEKNotFound => if create then provisionDEK t else Ret (Err BE_DEKNotFound)
  | Err e => Ret (Err e)
  end).

(** The two critical sections of [aeadFor]. *)
Definition read_cache (t : TenantID) (i : Inp) (c : TenantCipher)
    : option bytes * TenantCipher := (aeads c !! t, c).

Definition fill_cache (t : TenantID) (aead : bytes) (i : Inp) (c : TenantCipher)
    : bytes * TenantCipher :=
  match aeads c !! t with
  | Some existing => (existing, c)
  | None => (aead, mkCipher (<[t := aead]> (aeads c)) (store c))
  end.

Definition aeadFor (t : TenantID) (create : bool) : prog TenantCipher (result CryptoErr bytes) :=
  Atomic _ (read_cache t) (λ cached,
  match cached with
  | Some aead => Ret (Ok aead)
  | None =>
    bind (loadDEK t create) (λ r,
    match r with
    | Err e => Ret (Err (CE_Back e))
    | Ok dek =>
      match newAESGCM dek with
      | Err e => Ret (Err (CE_Other ("init data cipher: " +:+ e)))
      | Ok aead => Atomic _ (fill_cache t aead) (λ a, Ret (Ok a))
      end
    end)
  end).

Definition Encrypt (tc : Context) (plaintext : bytes) : prog TenantCipher (result CryptoErr bytes) :=
  if String.eqb (tenantID tc) "" then Ret (Err CE_NoTenant)
  else bind (aeadFor (tenantID tc) true) (λ r,
  match r with
  | Err e => Ret (Err e)
  | Ok aead =>
    Atomic _ (input (λ i, ReadFull i gcmNonceSize)) (λ r,
    match r with
    | None => Ret (Err (CE_Other "crypto: encrypt: nonce"))
    | Some nonce =>
      Ret (Ok (blobVersion1 :: nonce ++ gcm_seal aead nonce plaintext (to_bytes (tenantID tc))))
    end)
  end).

Definition Decrypt (tc : Context) (ciphertext : bytes) : prog TenantCipher (result CryptoErr bytes) :=
  if String.eqb (tenantID tc) "" then Ret (Err CE_NoTenant)
  else match ciphertext with
  | [] => Ret (Err (CE_Other "crypto: decrypt: empty ciphertext"))
  | v :: body =>
    if negb (Ascii.eqb v blobVersion1) then Ret (Err (CE_UnsupportedVersion v))
    else bind (aeadFor (tenantID tc) false) (λ r,
    match r with
    | Err e => Ret (Err e)
    | Ok aead =>
      if bool_decide (length body < gcmNonceSize + gcm_overhead) then
        Ret (Err (CE_Other "crypto: decrypt: ciphertext too short"))
      else match gcm_open aead (take gcmNonceSize body) (drop gcmNonceSize body)
                   (to_bytes (tenantID tc)) with
      | None => Ret (Err CE_AuthFailed)
      | Some plaintext => Ret (Ok plaintext)
      end
    end)
  end.

Definition Forget (t : TenantID) (c : TenantCipher) : TenantCipher :=
  mkCipher (delete t (aeads c)) (store c).
End TenantCipher.
Arguments TenantCipher DS : clear implicits.
