(* ===== verification/CryptoProofs.v ===== *)
(** * Per-tenant encryption: proofs

    A rely-guarantee logic for [prog] ([wp]) in which the environment may only
    extend the DEK store, the instances of the store and KEK contracts, and
    the theorems on [TenantCipher]: one key per tenant under any interleaving,
    the encrypt/decrypt round trip, and what crypto-shredding leaves. *)

From stdpp Require Import base gmap strings list pretty.
From Stdlib Require Import Ascii ZArith Lia.
From S2P Require Import Prelude GoStrings Tenancy Crypto.

(** ** The contracts are met *)
#[export] Instance memDEKStore_Laws : DEKStoreLaws memDEKStore.
Proof.
  refine {| dek_view := λ s : memDEKStore, s |}; simpl.
  - intros i t s w. unfold mem_GetWrappedDEK.
    destruct (in_ctx i), (String.eqb t ""); try done. destruct (s !! t); by intros [= ->].
  - intros i t s. unfold mem_GetWrappedDEK.
    destruct (in_ctx i), (String.eqb t ""); try done. by destruct (s !! t).
  - intros i t w s. unfold mem_PutWrappedDEK.
    destruct (in_ctx i); [by left|]. destruct (String.eqb t ""); [by left|].
    case_bool_decide; [by left|]. destruct (s !! t) eqn:E; [by left|by right].
  - intros i t s. unfold mem_Delete. by destruct (in_ctx i), (String.eqb t "").
Defined.

Lemma ReadFull_length i n b : ReadFull i n = Some b → length b = n.
Proof.
  unfold ReadFull. destruct (in_rand i); simpl; [|done]. intros [= <-].
  by rewrite length_fmap, length_seq.
Qed.

Section fileKEK.
Context `{HG : !GCM} `{HL : !GCMLaws}.

Definition file_spec (k : fileKEK) (t : TenantID) (w : bytes) : option bytes :=
  match open_wrapped k t w with Ok d => Some d | Err _ => None end.

Lemma open_wrapped_seal k t n d :
  length n = gcmNonceSize → length d = dekSize →
  open_wrapped k t (wrapVersion1 :: n ++ gcm_seal (kek_aead k) n d (to_bytes t)) = Ok d.
Proof using HL.
  intros Hn Hd. unfold open_wrapped. simpl negb.
  rewrite <- Hn, take_app_length, drop_app_length, gcm_open_seal.
  rewrite bool_decide_false by (rewrite length_app, gcm_length; lia).
  by rewrite bool_decide_true.
Qed.

#[export] Instance fileKEK_Laws : KEKLaws fileKEK.
Proof using HL.
  refine {| kek_spec := file_spec |}; simpl.
  - intros k i t w d. unfold file_UnwrapDEK, file_spec.
    destruct (in_ctx i), (String.eqb t ""); try done. by intros ->.
  - intros k i t d w. unfold file_WrapDEK, file_spec.
    destruct (in_ctx i), (String.eqb t ""); try done.
    case_bool_decide as Hd; [|done]. simpl.
    destruct (ReadFull i gcmNonceSize) as [n|] eqn:En; [|done]. intros [= <-].
    by rewrite open_wrapped_seal by eauto using ReadFull_length.
  - intros k t w d. unfold file_spec, open_wrapped. destruct w as [|v w]; [done|].
    destruct (negb _); [done|]. case_bool_decide; [done|].
    destruct (gcm_open _ _ _ _) as [d'|]; [|done].
    case_bool_decide; simpl; congruence.
Defined.
End fileKEK.

(** [run] of a sequence, when all inputs satisfy [G]. *)
Lemma run_bind_inputs {W A B} (G : Inp → Prop) (p : prog W A) (q : A → prog W B) ins w :
  (∀ n, G (ins n)) →
  ∃ ins', (∀ n, G (ins' n)) ∧
    run (bind p q) ins w = run (q (run p ins w).1) ins' (run p ins w).2.
Proof.
  revert ins w. induction p as [a|X f k IH]; intros ins w HG'; simpl; [by exists ins|].
  destruct (f (ins 0) w) as [b c']. apply IH. auto.
Qed.

Lemma run_zoom {V W A} (get : W → V) (put : V → W → W) (p : prog V A) ins w :
  (∀ w, put (get w) w = w) → (∀ v w, get (put v w) = v) →
  (∀ v v' w, put v' (put v w) = put v' w) →
  run (zoom get put p) ins w = ((run p ins (get w)).1, put (run p ins (get w)).2 w).
Proof.
  intros Hpg Hgp Hpp. revert ins w.
  induction p as [a|X f k IH]; intros ins w; simpl; [by rewrite Hpg|].
  destruct (f (ins 0) (get w)) as [b v]. by rewrite IH, Hgp, Hpp.
Qed.

(** ** Hoare triples *)
Definition hoare {W A} (P : W → Prop) (p : prog W A) (Q : A → W → Prop) : Prop :=
  ∀ ins w, P w → Q (run p ins w).1 (run p ins w).2.

Lemma hoare_ret {W A} (P : W → Prop) (a : A) (Q : A → W → Prop) :
  (∀ w, P w → Q a w) → hoare P (Ret a) Q.
Proof. intros H ins w Hw. by apply H. Qed.

Lemma hoare_atomic {W A X} (P : W → Prop) (R : X → W → Prop) f (k : X → prog W A) Q :
  (∀ i w, P w → R (f i w).1 (f i w).2) → (∀ x, hoare (R x) (k x) Q) →
  hoare P (Atomic X f k) Q.
Proof.
  intros Hf Hk ins w Hw. simpl. specialize (Hf (ins 0) w Hw).
  destruct (f (ins 0) w) as [x w']. by apply Hk.
Qed.

Lemma hoare_bind {W A B} (P : W → Prop) (R : A → W → Prop) (p : prog W A) (q : A → prog W B) Q :
  hoare P p R → (∀ a, hoare (R a) (q a) Q) → hoare P (bind p q) Q.
Proof.
  intros Hp Hq ins w Hw. specialize (Hp ins w Hw).
  destruct (run_bind_inputs (λ _, True) p q ins w) as (ins' & _ & ->); [done|]. by apply Hq.
Qed.

Lemma hoare_weaken {W A} (P P' : W → Prop) (p : prog W A) Q :
  (∀ w, P w → P' w) → hoare P' p Q → hoare P p Q.
Proof. intros HP H ins w Hw. apply H. auto. Qed.

(** A program of a component: a relation between the component before and
    after, for any [ins]. *)
Lemma hoare_zoom {V W A} (get : W → V) (put : V → W → W) (p : prog V A) (P : W → Prop) Q :
  (∀ w, put (get w) w = w) → (∀ v w, get (put v w) = v) →
  (∀ v v' w, put v' (put v w) = put v' w) →
  (∀ ins w, P w → Q (run p ins (get w)).1 (put (run p ins (get w)).2 w)) →
  hoare P (zoom get put p) Q.
Proof. intros H1 H2 H3 H ins w Hw. rewrite run_zoom by done. by apply H. Qed.

(** Every value a program can return satisfies [Q]. *)
Fixpoint rets {W A} (Q : A → Prop) (p : prog W A) : Prop :=
  match p with
  | Ret a => Q a
  | Atomic X f k => ∀ x, rets Q (k x)
  end.

Lemma rets_run {W A} (Q : A → Prop) (p : prog W A) ins w : rets Q p → Q (run p ins w).1.
Proof.
  revert ins w. induction p as [a|X f k IH]; intros ins w H; simpl; [done|].
  destruct (f (ins 0) w) as [x w']. by apply IH.
Qed.

Lemma rets_bind {W A B} (Q : B → Prop) (p : prog W A) (q : A → prog W B) :
  (∀ a, rets Q (q a)) → rets Q (bind p q).
Proof. intros H. induction p as [a|X f k IH]; simpl; auto. Qed.

(** ** Rely-guarantee reasoning *)
Section logic.
Context `{HG : !GCM} `{HL : !GCMLaws} {DS : Type} `{HD : !DEKStore DS} `{HDL : !DEKStoreLaws DS}
  {K : Type} `{HK : !KEKProvider K} `{HKL : !KEKLaws K} (kek : K).

Abbreviation View := (gmap TenantID bytes).
Abbreviation Cipher := (TenantCipher DS).

(** The data key the stored wrapped DEK of a tenant stands for. *)
Definition key_of (v : View) (t : TenantID) : option bytes := v !! t ≫= kek_spec kek t.

(** Every cached AEAD is the one the stored DEK yields. *)
Definition coherent_with (v : View) (cache : View) : Prop :=
  ∀ t k, cache !! t = Some k → key_of v t = Some k.

Definition coherent (c : Cipher) : Prop := coherent_with (dek_view (store c)) (aeads c).

(** The sealed form of a plaintext for a tenant under a key. *)
Definition is_blob (k : bytes) (t : TenantID) (p blob : bytes) : Prop :=
  ∃ n, length n = gcmNonceSize ∧ blob = blobVersion1 :: n ++ gcm_seal k n p (to_bytes t).

(** [wp Q p v]: started when the store holds at least [v], and while others
    only extend the store, [p] keeps the cache coherent, only extends the
    store, and returns a value satisfying [Q]. *)
Fixpoint wp {A} (Q : A → View → Prop) (p : prog Cipher A) (v : View) : Prop :=
  match p with
  | Ret a => Q a v
  | Atomic X f k =>
    ∀ i c, coherent c → v ⊆ dek_view (store c) →
      coherent (f i c).2 ∧ dek_view (store c) ⊆ dek_view (store (f i c).2) ∧
      wp Q (k (f i c).1) (dek_view (store (f i c).2))
  end.

Definition stable {A} (Q : A → View → Prop) : Prop :=
  ∀ a v v', v ⊆ v' → Q a v → Q a v'.

Lemma key_of_mono v v' t k : v ⊆ v' → key_of v t = Some k → key_of v' t = Some k.
Proof using Type.
  unfold key_of. intros Hsub Hk. apply bind_Some in Hk as (w & Hw & Hk).
  apply bind_Some. exists w. split; [|done]. by eapply lookup_weaken.
Qed.

Lemma key_of_size v t k : key_of v t = Some k → length k = dekSize.
Proof using Type.
  unfold key_of. intros Hk. apply bind_Some in Hk as (w & _ & Hk).
  by eapply kek_spec_size.
Qed.

Lemma coherent_with_mono v v' cache :
  v ⊆ v' → coherent_with v cache → coherent_with v' cache.
Proof using Type. intros Hsub Hc t k Ht. eapply key_of_mono; eauto. Qed.

Lemma wp_mono {A} (Q : A → View → Prop) p v v' :
  stable Q → v ⊆ v' → wp Q p v → wp Q p v'.
Proof using Type.
  intros HQ Hsub. destruct p as [a|X f k]; simpl; [by apply HQ|].
  intros H i c Hc Hv. apply H; [done|]. by transitivity v'.
Qed.

Lemma wp_conseq {A} (Q R : A → View → Prop) p v :
  (∀ a v, Q a v → R a v) → wp Q p v → wp R p v.
Proof using Type.
  intros HQR. revert v. induction p as [a|X f k IH]; intros v; simpl; [apply HQR|].
  intros H i c Hc Hv. destruct (H i c Hc Hv) as (? & ? & ?). eauto.
Qed.

Lemma wp_bind {A B} (Q : B → View → Prop) (p : prog Cipher A) q v :
  wp (λ a v, wp Q (q a) v) p v → wp Q (bind p q) v.
Proof using Type.
  revert v. induction p as [a|X f k IH]; intros v; simpl; [done|].
  intros H i c Hc Hv. destruct (H i c Hc Hv) as (? & ? & ?). eauto.
Qed.

(** An action that reads inputs, or only looks at the state. *)
Lemma wp_read {A X} (Q : A → View → Prop) (f : Inp → Cipher → X) k v :
  (∀ i c, coherent c → v ⊆ dek_view (store c) → wp Q (k (f i c)) (dek_view (store c))) →
  wp Q (Atomic X (λ i c, (f i c, c)) k) v.
Proof using Type. intros H i c Hc Hv. simpl. eauto. Qed.

Lemma wp_put {A} (Q : A → View → Prop) t wrapped k v :
  (∀ r v', v ⊆ v' → wp Q (k r) v') →
  wp Q (Atomic _ (put_dek t wrapped) k) v.
Proof using Type.
  intros H i c Hc Hv. unfold put_dek.
  destruct (PutWrappedDEK i t wrapped (store c)) as [r s'] eqn:E. simpl.
  assert (Hext : dek_view (store c) ⊆ dek_view s').
  { replace s' with (PutWrappedDEK i t wrapped (store c)).2 by by rewrite E.
    destruct (dek_put_view i t wrapped (store c)) as [->|[Hn ->]]; [done|].
    by apply insert_subseteq. }
  split_and!; [|done|].
  - by eapply coherent_with_mono.
  - apply H. by transitivity (dek_view (store c)).
Qed.

Lemma wp_fill {A} (Q : A → View → Prop) t a k v :
  key_of v t = Some a → (∀ v', v ⊆ v' → wp Q (k a) v') →
  wp Q (Atomic _ (fill_cache t a) k) v.
Proof using Type.
  intros Hk H i c Hc Hv. unfold fill_cache.
  destruct (aeads c !! t) as [b|] eqn:Eb; simpl.
  - split_and!; [done..|].
    assert (a = b) as <-; [|eauto].
    pose proof (Hc _ _ Eb). pose proof (key_of_mono _ _ _ _ Hv Hk). congruence.
  - split_and!; [|done|eauto]. intros t' k'. simpl.
    destruct (decide (t = t')) as [->|Hne].
    + rewrite lookup_insert_eq. intros [= <-]. by eapply key_of_mono.
    + rewrite lookup_insert_ne by done. apply Hc.
Qed.

(** The post-conditions of the loading functions and of the two calls. *)
Definition loads {E} (t : TenantID) (r : result E bytes) (v : View) : Prop :=
  match r with Ok k => key_of v t = Some k | Err _ => True end.

Definition keyed (t : TenantID) (r : result CryptoErr bytes) (v : View) : Prop :=
  match r with Ok k => key_of v t = Some k | Err e => e ≠ CE_AuthFailed end.

Inductive CipherCall := CallEncrypt (tc : Context) (p : bytes) | CallDecrypt (tc : Context) (c : bytes).

Definition call_prog (call : CipherCall) : prog Cipher (result CryptoErr bytes) :=
  match call with
  | CallEncrypt tc p => Encrypt kek tc p
  | CallDecrypt tc c => Decrypt kek tc c
  end.

(** What a finished call has established about the tenant's key. *)
Definition call_post (call : CipherCall) (r : result CryptoErr bytes) (v : View) : Prop :=
  match call, r with
  | CallEncrypt tc p, Ok blob =>
    ∃ k, key_of v (tenantID tc) = Some k ∧ is_blob k (tenantID tc) p blob
  | CallDecrypt tc blob, Ok p =>
    ∃ k, key_of v (tenantID tc) = Some k ∧ is_blob k (tenantID tc) p blob
  | CallDecrypt tc blob, Err CE_AuthFailed =>
    ∃ k, key_of v (tenantID tc) = Some k ∧ ∀ p, ¬ is_blob k (tenantID tc) p blob
  | _, _ => True
  end.

Lemma loads_stable {E} t : stable (@loads E t).
Proof using Type. intros [k|e] v v' Hsub; simpl; [by apply key_of_mono|done]. Qed.

Lemma call_post_stable call : stable (call_post call).
Proof using Type.
  intros r v v' Hsub. destruct call, r as [b|[]]; simpl; try done;
    intros (k & Hk & Hb); exists k; eauto using key_of_mono.
Qed.

Lemma wp_unwrap t w v :
  v !! t = Some w → wp (loads t) (unwrap kek t w) v.
Proof using Type.
  intros Hw. apply wp_read. intros i c _ Hv. simpl.
  destruct (UnwrapDEK kek i t w) as [d|e] eqn:E; simpl; [|done].
  unfold key_of. rewrite (lookup_weaken _ _ _ _ Hw Hv). simpl. by eapply kek_unwrap_ok.
Qed.

Lemma wp_provisionDEK t v : wp (loads t) (provisionDEK kek t) v.
Proof using Type.
  apply wp_read. intros i c _ _. destruct (ReadFull i dekSize) as [dek|]; [|done].
  apply wp_read. intros i1 c1 _ _. destruct (WrapDEK kek i1 t dek) as [w|]; [|done].
  apply wp_put. intros putErr v' _.
  apply wp_read. intros i2 c2 _ _. destruct (GetWrappedDEK i2 t (store c2)) as [w'|] eqn:E.
  - apply wp_unwrap. by eapply dek_get_ok.
  - by destruct putErr.
Qed.

Lemma wp_loadDEK t create v : wp (loads t) (loadDEK kek t create) v.
Proof using Type.
  apply wp_read. intros i c _ _. destruct (GetWrappedDEK i t (store c)) as [w|[]] eqn:E; try done.
  - apply wp_unwrap. by eapply dek_get_ok.
  - destruct create; [apply wp_provisionDEK|done].
Qed.

Lemma newAESGCM_key k : length k = dekSize → newAESGCM k = Ok k.
Proof using Type. intros Hk. unfold newAESGCM. rewrite bool_decide_true; auto. Qed.

Lemma wp_aeadFor t create v : wp (keyed t) (aeadFor kek t create) v.
Proof using Type.
  apply wp_read. intros i c Hc _.
  destruct (aeads c !! t) as [a|] eqn:E; [by apply Hc|].
  apply wp_bind. eapply wp_conseq; [|apply wp_loadDEK].
  intros [dek|e] v' Hk; [|done]. simpl in Hk.
  rewrite newAESGCM_key by by eapply key_of_size.
  apply wp_fill; [done|]. intros v'' Hsub. simpl. by eapply key_of_mono.
Qed.

Lemma wp_Encrypt tc p v : wp (call_post (CallEncrypt tc p)) (Encrypt kek tc p) v.
Proof using Type.
  unfold Encrypt. destruct (String.eqb _ _); [done|].
  apply wp_bind. eapply wp_conseq; [|apply wp_aeadFor]. intros [k|e] v' Hk; [|done].
  apply wp_read. intros i c _ Hv. simpl. destruct (ReadFull i gcmNonceSize) as [n|] eqn:En; [|done].
  exists k. split; [by eapply key_of_mono|]. exists n. eauto using ReadFull_length.
Qed.

Lemma is_blob_inv k t p v body :
  is_blob k t p (v :: body) →
  v = blobVersion1 ∧ gcmNonceSize + gcm_overhead ≤ length body ∧
  gcm_open k (take gcmNonceSize body) (drop gcmNonceSize body) (to_bytes t) = Some p.
Proof using HL.
  intros (n & Hn & [= -> ->]). split; [done|]. split.
  - rewrite length_app, gcm_length. lia.
  - by rewrite <- Hn, take_app_length, drop_app_length, gcm_open_seal.
Qed.

Lemma is_blob_intro k t p body :
  gcmNonceSize + gcm_overhead ≤ length body →
  gcm_open k (take gcmNonceSize body) (drop gcmNonceSize body) (to_bytes t) = Some p →
  is_blob k t p (blobVersion1 :: body).
Proof using HL.
  intros Hl Ho. exists (take gcmNonceSize body). split; [rewrite length_take; lia|].
  f_equal. rewrite <- (take_drop gcmNonceSize body) at 1. f_equal. by apply gcm_sound.
Qed.

Lemma wp_Decrypt tc ct v : wp (call_post (CallDecrypt tc ct)) (Decrypt kek tc ct) v.
Proof using HL.
  unfold Decrypt. destruct (String.eqb _ _); [done|]. destruct ct as [|b body]; [done|].
  destruct (Ascii.eqb_spec b blobVersion1) as [->|]; [|done]. simpl negb. cbv iota.
  apply wp_bind. eapply wp_conseq; [|apply wp_aeadFor].
  intros [k|e] v' Hk; simpl in Hk; [|by destruct e].
  case_bool_decide as Hl; [done|].
  destruct (gcm_open _ _ _ _) as [p|] eqn:Ho; simpl; exists k; split; try done.
  - apply is_blob_intro; [lia|done].
  - intros p Hb. apply is_blob_inv in Hb as (_ & _ & Hb). congruence.
Qed.

Lemma wp_call call v : wp (call_post call) (call_prog call) v.
Proof using HL. destruct call; [apply wp_Encrypt|apply wp_Decrypt]. Qed.

(** ** One call alone *)
Lemma run_wp {A} (Q : A → View → Prop) p ins c v :
  wp Q p v → coherent c → v ⊆ dek_view (store c) → (∀ a, p = Ret a → v = dek_view (store c)) →
  Q (run p ins c).1 (dek_view (store (run p ins c).2)) ∧ coherent (run p ins c).2 ∧
  dek_view (store c) ⊆ dek_view (store (run p ins c).2).
Proof using Type.
  revert ins c v. induction p as [a|X f k IH]; intros ins c v Hwp Hc Hv Hret; simpl in *.
  - by rewrite <- (Hret a eq_refl).
  - destruct (f (ins 0) c) as [b c'] eqn:E.
    destruct (Hwp (ins 0) c Hc Hv) as (Hc' & Hsub & Hk). rewrite E in Hc', Hsub, Hk. simpl in *.
    destruct (IH b (λ n, ins (S n)) c' _ Hk Hc' (reflexivity _)) as (? & ? & ?); [done|].
    split_and!; [done..|]. by etransitivity.
Qed.

(** A load without creation reads, and changes nothing but the cache. *)
Lemma load_absent t ins c :
  dek_view (store c) !! t = None →
  ∃ e, run (loadDEK kek t false) ins c = (Err e, c).
Proof using HDL.
  intros Hn. simpl. destruct (GetWrappedDEK (ins 0) t (store c)) as [w|e] eqn:E; simpl.
  - apply dek_get_ok in E. congruence.
  - destruct e; simpl; eauto.
Qed.

Lemma aeadFor_absent t ins c :
  aeads c !! t = None → dek_view (store c) !! t = None →
  ∃ e, run (aeadFor kek t false) ins c = (Err (CE_Back e), c).
Proof using HDL.
  intros Hc Hn. unfold aeadFor. cbn [run read_cache]. unfold read_cache. rewrite Hc.
  destruct (run_bind_inputs (λ _, True) (loadDEK kek t false) (λ r,
    match r with
    | Err e => Ret (Err (CE_Back e))
    | Ok dek =>
      match newAESGCM dek with
      | Err e => Ret (Err (CE_Other ("init data cipher: " +:+ e)))
      | Ok aead => Atomic _ (fill_cache t aead) (λ a, Ret (Ok a))
      end
    end) (λ n, ins (S n)) c) as (ins' & _ & ->); [done|].
  destruct (load_absent t (λ n, ins (S n)) c Hn) as (e & ->). simpl. eauto.
Qed.

Lemma Decrypt_absent tc ct ins c :
  aeads c !! tenantID tc = None → dek_view (store c) !! tenantID tc = None →
  ∃ e, run (Decrypt kek tc ct) ins c = (Err e, c) ∧
    (∀ body, ct = blobVersion1 :: body → tenantID tc ≠ "" → ∃ e', e = CE_Back e').
Proof using HDL.
  intros Hc Hn. unfold Decrypt.
  destruct (String.eqb_spec (tenantID tc) ""); [eexists; split; [done|]; by intros|].
  destruct ct as [|b body]; [eexists; split; [done|]; by intros|].
  destruct (Ascii.eqb_spec b blobVersion1) as [->|Hb];
    [|eexists; split; [done|]; intros ? [= ->]; done].
  cbv [negb]. match goal with |- context [bind ?p ?q] =>
    destruct (run_bind_inputs (λ _, True) p q ins c) as (ins' & _ & ->); [done|] end.
  destruct (aeadFor_absent (tenantID tc) ins c Hc Hn) as (e & ->). simpl. eauto 6.
Qed.

(** ** Interleavings *)

(** Processes [0, 1, ...], each with the cache of its own [TenantCipher], the
    store they share, and the calls in flight or finished. *)
Record Pool := mkPool {
  caches : nat → View;
  pstore : DS;
  threads : list (nat * CipherCall * prog Cipher (result CryptoErr bytes))
}.

Definition set_cache (f : nat → View) (p : nat) (v : View) : nat → View :=
  λ q, if decide (q = p) then v else f q.

Inductive Event := Spawn (proc : nat) (call : CipherCall) | Act (j : nat) (i : Inp).

(** A call starts, or thread [j] performs its next atomic action. *)
Definition pool_event (ev : Event) (P : Pool) : Pool :=
  match ev with
  | Spawn proc call =>
    mkPool (caches P) (pstore P) (threads P ++ [(proc, call, call_prog call)])
  | Act j i =>
    match threads P !! j with
    | Some (proc, call, Atomic X f k) =>
      let '(b, c') := f i (mkCipher (caches P proc) (pstore P)) in
      mkPool (set_cache (caches P) proc (aeads c')) (store c')
        (<[j := (proc, call, k b)]> (threads P))
    | _ => P
    end
  end.

Definition pstep (P Q : Pool) : Prop := ∃ ev, Q = pool_event ev P.

Definition pool_inv (P : Pool) : Prop :=
  (∀ proc, coherent_with (dek_view (pstore P)) (caches P proc)) ∧
  (∀ th, th ∈ threads P → wp (call_post th.1.2) th.2 (dek_view (pstore P))).

Lemma pool_inv_step P Q : pool_inv P → pstep P Q → pool_inv Q.
Proof using HL.
  intros [Hc Ht] [ev ->]. destruct ev as [proc call|j i]; simpl.
  - split; [done|]. intros th. simpl. rewrite elem_of_app, list_elem_of_singleton.
    intros [Hin| ->]; [by apply Ht|]. apply wp_call.
  - destruct (threads P !! j) as [[[proc call] [a|X f k]]|] eqn:Ej; [by split| |by split].
    pose proof (Ht _ (list_elem_of_lookup_2 _ _ _ Ej)) as Hwp. simpl in Hwp.
    destruct (Hwp i (mkCipher (caches P proc) (pstore P)) (Hc proc) (reflexivity _))
      as (Hc' & Hsub & Hk).
    destruct (f i _) as [b c'] eqn:E. simpl in *. split.
    + intros proc'. simpl. unfold set_cache. destruct (decide _) as [->|]; [done|].
      eapply coherent_with_mono; eauto.
    + intros th Hin. simpl in *. apply list_elem_of_lookup_1 in Hin as [j' Hj'].
      apply list_lookup_insert_Some in Hj' as [(-> & <- & _)|[_ Hj']]; [done|].
      eapply wp_mono; [apply call_post_stable|exact Hsub|].
      apply Ht. by eapply list_elem_of_lookup_2.
Qed.

Definition run_events (evs : list Event) (P : Pool) : Pool := foldl (λ P ev, pool_event ev P) P evs.

Lemma run_events_star evs P : star pstep P (run_events evs P).
Proof using Type.
  revert P. induction evs as [|ev evs IH]; intros P; simpl; [constructor|].
  econstructor; [by exists ev|]. apply IH.
Qed.

End logic.

(** ** Progress with a healthy store and context *)
Section progress.
Context `{HG : !GCM} `{HL : !GCMLaws}.

Definition healthy (i : Inp) : Prop := in_ctx i = None ∧ is_Some (in_rand i).

(** The stored DEK of the tenant, if any, was wrapped by this KEK. *)
Definition usable (k : fileKEK) (t : TenantID) (s : memDEKStore) : Prop :=
  s !! t = None ∨ is_Some (key_of k s t).

Lemma mem_get_healthy i t (s : memDEKStore) :
  healthy i → t ≠ "" →
  GetWrappedDEK i t s = match s !! t with Some w => Ok w | None => Err BE_DEKNotFound end.
Proof using Type.
  intros [Hi _] Ht. simpl. unfold mem_GetWrappedDEK. rewrite Hi.
  by rewrite (proj2 (String.eqb_neq t "")).
Qed.

Lemma file_unwrap_healthy k i t w d :
  healthy i → t ≠ "" → kek_spec k t w = Some d → UnwrapDEK k i t w = Ok d.
Proof using Type.
  intros [Hi _] Ht. simpl. unfold file_UnwrapDEK, file_spec. rewrite Hi.
  rewrite (proj2 (String.eqb_neq t "")) by done. destruct (open_wrapped k t w); congruence.
Qed.

Lemma file_wrap_healthy k i t d :
  healthy i → t ≠ "" → length d = dekSize →
  ∃ w, WrapDEK k i t d = Ok w ∧ w ≠ [].
Proof using Type.
  intros [Hi [f Hf]] Ht Hd. simpl. unfold file_WrapDEK, ReadFull. rewrite Hi, Hf.
  rewrite (proj2 (String.eqb_neq t "")), bool_decide_true by done. simpl. eauto.
Qed.

Lemma provision_healthy k t ins c :
  (∀ n, healthy (ins n)) → t ≠ "" → store c !! t = None →
  is_ok (run (provisionDEK k t) ins c).1 = true.
Proof using HL.
  intros Hins Ht Hn. unfold provisionDEK. cbn [run input].
  unfold input. destruct (Hins 0) as [_ [f Hf]].
  destruct (ReadFull (ins 0) dekSize) as [d|] eqn:Er;
    [|unfold ReadFull in Er; by rewrite Hf in Er].
  cbn [run]. destruct (file_wrap_healthy k (ins 1) t d (Hins 1) Ht (ReadFull_length _ _ _ Er))
    as (w & Hw & Hne). rewrite Hw. cbn [run]. unfold put_dek, get_dek. simpl PutWrappedDEK.
  unfold mem_PutWrappedDEK. destruct (Hins 2) as [-> _].
  rewrite (proj2 (String.eqb_neq t "")) by done.
  rewrite bool_decide_false by (by destruct w). rewrite Hn. cbn [run store].
  rewrite mem_get_healthy by done.
  rewrite (lookup_insert_eq (store c : gmap string bytes) t w).
  cbn [run unwrap]. unfold input.
  rewrite (file_unwrap_healthy _ _ _ _ d (Hins 4) Ht); [done|]. by eapply kek_wrap_ok.
Qed.

Lemma load_healthy k t create ins c :
  (∀ n, healthy (ins n)) → t ≠ "" → usable k t (store c) →
  (create = true ∨ is_Some (key_of k (store c) t)) →
  is_ok (run (loadDEK k t create) ins c).1 = true.
Proof using HL.
  intros Hins Ht Hu Hcr. unfold loadDEK. cbn [run]. unfold get_dek.
  rewrite mem_get_healthy by done.
  destruct (store c !! t) as [w|] eqn:E.
  - destruct Hu as [Hu|[d Hd]]; [congruence|]. unfold key_of in Hd. rewrite E in Hd.
    cbn [run unwrap input]. unfold input.
    by rewrite (file_unwrap_healthy _ _ _ _ d (Hins 1) Ht Hd).
  - destruct Hcr as [->|[d Hd]]; [|unfold key_of in Hd; by rewrite E in Hd].
    by apply provision_healthy.
Qed.

Lemma aeadFor_healthy k t create ins c :
  (∀ n, healthy (ins n)) → t ≠ "" → usable k t (store c) →
  (create = true ∨ is_Some (key_of k (store c) t)) → coherent k c →
  is_ok (run (aeadFor k t create) ins c).1 = true.
Proof using HL.
  intros Hins Ht Hu Hcr Hc. unfold aeadFor. cbn [run]. unfold read_cache.
  destruct (aeads c !! t) as [a|] eqn:E; [done|].
  pose proof (load_healthy k t create (λ n, ins (S n)) c (λ n, Hins (S n)) Ht Hu Hcr) as Hok.
  pose proof (run_wp k (loads k t) _ (λ n, ins (S n)) c _ (wp_loadDEK k t create (dek_view (store c)))
    Hc (reflexivity _)) as (Hl & _ & _); [done|].
  match goal with |- context [bind ?p ?q] =>
    destruct (run_bind_inputs healthy p q (λ n, ins (S n)) c) as (ins' & _ & ->); [auto|] end.
  destruct (run (loadDEK k t create) _ c) as [[dek|e] c']; simpl in *; [|done].
  rewrite (newAESGCM_key dek) by by eapply key_of_size.
  simpl. by destruct (fill_cache t dek (ins' 0) c') as [b c''].
Qed.

Lemma encrypt_healthy k tc p ins c :
  (∀ n, healthy (ins n)) → tenantID tc ≠ "" → usable k (tenantID tc) (store c) → coherent k c →
  is_ok (run (Encrypt k tc p) ins c).1 = true.
Proof using HL.
  intros Hins Ht Hu Hc. unfold Encrypt. rewrite (proj2 (String.eqb_neq _ "")) by done.
  pose proof (aeadFor_healthy k (tenantID tc) true ins c Hins Ht Hu (or_introl eq_refl) Hc) as Hok.
  match goal with |- context [bind ?p ?q] =>
    destruct (run_bind_inputs healthy p q ins c) as (ins' & Hins' & ->); [auto|] end.
  destruct (run (aeadFor k _ true) ins c) as [[a|e] c']; simpl in *; [|done].
  unfold ReadFull. destruct (Hins' 0) as [_ [f ->]]. done.
Qed.

Lemma decrypt_healthy k tc p blob key ins c :
  (∀ n, healthy (ins n)) → tenantID tc ≠ "" → coherent k c →
  key_of k (store c) (tenantID tc) = Some key → is_blob key (tenantID tc) p blob →
  (run (Decrypt k tc blob) ins c).1 = Ok p.
Proof using HL.
  intros Hins Ht Hc Hk Hb. unfold Decrypt. rewrite (proj2 (String.eqb_neq _ "")) by done.
  destruct blob as [|v body]; [by destruct Hb as (? & ? & ?)|].
  apply is_blob_inv in Hb as (-> & Hlen & Hopen).
  rewrite Ascii.eqb_refl. simpl negb. cbv iota.
  pose proof (aeadFor_healthy k (tenantID tc) false ins c Hins Ht (or_intror (mk_is_Some _ _ Hk))
    (or_intror (mk_is_Some _ _ Hk)) Hc) as Hok.
  pose proof (run_wp k (keyed k (tenantID tc)) _ ins c _
    (wp_aeadFor k (tenantID tc) false (dek_view (store c))) Hc (reflexivity _)) as (Ha & _ & Hsub); [done|].
  match goal with |- context [bind ?p ?q] =>
    destruct (run_bind_inputs healthy p q ins c) as (ins' & _ & ->); [auto|] end.
  destruct (run (aeadFor k _ false) ins c) as [[a|e] c']; simpl in *; [|done].
  assert (a = key) as ->.
  { pose proof (key_of_mono k _ _ _ _ Hsub Hk). congruence. }
  rewrite bool_decide_false by lia. by rewrite Hopen.
Qed.
End progress.

(** ** Theorems *)

(** C6. One data key per tenant: however many Encrypt and Decrypt calls, in
    however many processes that share a DEK store, interleave action by action,
    and whatever contexts are cancelled and random bytes drawn, every finished
    Encrypt of a tenant sealed under the same key, everything Decrypt returned
    is exactly what was sealed under that key for that tenant, and Decrypt
    reports an authentication failure only for a blob that was not. *)
Theorem one_key_per_tenant `{!GCM, !GCMLaws} {DS} `{!DEKStore DS, !DEKStoreLaws DS}
    {K} `{!KEKProvider K, !KEKLaws K} (kek : K) (P0 P : Pool) :
  (∀ proc, caches P0 proc = ∅) → threads P0 = [] → star (pstep kek) P0 P →
  ∃ key : TenantID → bytes, ∀ proc call r, (proc, call, Ret r) ∈ threads P →
    match call, r with
    | CallEncrypt tc p, Ok blob => is_blob (key (tenantID tc)) (tenantID tc) p blob
    | CallDecrypt tc blob, Ok p => is_blob (key (tenantID tc)) (tenantID tc) p blob
    | CallDecrypt tc blob, Err CE_AuthFailed =>
      ∀ p, ¬ is_blob (key (tenantID tc)) (tenantID tc) p blob
    | _, _ => True
    end.
Proof.
  intros Hc Ht Hstar.
  assert (HI : pool_inv kek P).
  { eapply star_invariant; [apply pool_inv_step|exact Hstar|]. split.
    - intros proc t k. by rewrite Hc, lookup_empty.
    - rewrite Ht. intros th Hth. by apply not_elem_of_nil in Hth. }
  exists (λ t, default [] (key_of kek (dek_view (pstore P)) t)). intros proc call r Hin.
  destruct HI as [_ HI]. specialize (HI _ Hin). simpl in HI.
  destruct call, r as [b|[]]; simpl in *; try done; destruct HI as (k & -> & HI); done.
Qed.

(** Encrypt/decrypt round trip: with a live context and a working random
    source, Encrypt always yields a blob, and every cipher that shares the DEK
    store, now or after further tenants were provisioned, decrypts it to the
    plaintext. *)
Theorem encrypt_decrypt_roundtrip `{!GCM, !GCMLaws} (k : fileKEK) tc p ins1
    (c : TenantCipher memDEKStore) :
  (∀ n, healthy (ins1 n)) → tenantID tc ≠ "" → coherent k c → usable k (tenantID tc) (store c) →
  ∃ blob c1, run (Encrypt k tc p) ins1 c = (Ok blob, c1) ∧
    ∀ c2 ins2, (∀ n, healthy (ins2 n)) → coherent k c2 → store c1 ⊆ store c2 →
      (run (Decrypt k tc blob) ins2 c2).1 = Ok p.
Proof.
  intros Hins Ht Hc Hu. pose proof (encrypt_healthy k tc p ins1 c Hins Ht Hu Hc) as Hok.
  destruct (run_wp k (call_post k (CallEncrypt tc p)) _ ins1 c _
    (wp_Encrypt k tc p (store c)) Hc (reflexivity _)) as (Hpost & _ & _); [done|].
  destruct (run (Encrypt k tc p) ins1 c) as [[blob|e] c1]; simpl in *; [|done].
  exists blob, c1. split; [done|]. intros c2 ins2 Hins2 Hc2 Hsub.
  destruct Hpost as (key & Hkey & Hb).
  eapply decrypt_healthy; eauto. by eapply key_of_mono.
Qed.

(** Crypto-shredding: once Delete has answered nil and the process has
    called Forget, no Decrypt of the tenant succeeds in that process, whatever
    the blob, and Decrypt neither provisions a key nor changes any state. *)
Theorem shred_unreadable `{!GCM} {DS} `{!DEKStore DS, !DEKStoreLaws DS}
    {K} `{!KEKProvider K} (kek : K) i (c : TenantCipher DS) tc ct ins s' :
  DeleteDEK i (tenantID tc) (store c) = (Ok tt, s') →
  let c1 := Forget (tenantID tc) (mkCipher (aeads c) s') in
  ∃ e, run (Decrypt kek tc ct) ins c1 = (Err e, c1).
Proof.
  intros Hdel c1. destruct (Decrypt_absent kek tc ct ins c1) as (e & He & _); [| |eauto].
  - apply lookup_delete_eq.
  - assert (Hv : (DeleteDEK i (tenantID tc) (store c)).1 = Ok tt) by by rewrite Hdel.
    apply dek_delete_ok in Hv. rewrite Hdel in Hv. simpl in Hv.
    simpl. rewrite Hv. apply lookup_delete_eq.
Qed.

(** The first [n] actions of a call: what is left of it, and the state. *)
Fixpoint run_n {W A} (n : nat) (p : prog W A) (ins : nat → Inp) (w : W) : prog W A * W :=
  match n, p with
  | S n', Atomic X f k =>
    let '(b, w') := f (ins 0) w in run_n n' (k b) (λ m, ins (S m)) w'
  | _, _ => (p, w)
  end.

(** The limit of Forget: a Decrypt that has already read the wrapped DEK
    when Delete and Forget run puts the shredded key back into the cache, so
    that later Decrypts of the tenant's ciphertext still succeed although the
    DEK is gone from the store. *)
Theorem inflight_load_survives_shred `{!GCM, !GCMLaws} (k : fileKEK) tc p blob key ins ins1 ins2
    (c : TenantCipher memDEKStore) :
  (∀ n, healthy (ins n)) → (∀ n, healthy (ins1 n)) → tenantID tc ≠ "" →
  aeads c !! tenantID tc = None → key_of k (store c) (tenantID tc) = Some key →
  is_blob key (tenantID tc) p blob →
  let in_flight := run_n 2 (Decrypt k tc blob) ins c in
  let shredded := Forget (tenantID tc)
    (mkCipher (aeads in_flight.2) (delete (tenantID tc) (store in_flight.2))) in
  let after := (run in_flight.1 ins1 shredded).2 in
  store after !! tenantID tc = None ∧ (run (Decrypt k tc blob) ins2 after).1 = Ok p.
Proof.
  intros Hins Hins1 Ht Hc Hk Hb. destruct blob as [|v body]; [by destruct Hb as (? & ? & ?)|].
  apply is_blob_inv in Hb as (-> & Hlen & Hopen).
  pose proof (key_of_size _ _ _ _ Hk) as Hsize.
  unfold key_of in Hk. apply bind_Some in Hk as (w & Hw & Hk).
  assert (Ht' : String.eqb (tenantID tc) "" = false) by by apply String.eqb_neq.
  eassert (E : run_n 2 (Decrypt k tc (blobVersion1 :: body)) ins c = (_, c)).
  { unfold Decrypt, aeadFor, loadDEK. rewrite Ht', Ascii.eqb_refl. simpl negb. cbv iota.
    cbn [bind run_n]. unfold read_cache at 1. rewrite Hc. cbn [bind run_n]. unfold get_dek at 1.
    rewrite mem_get_healthy, Hw by done. cbn [bind run_n unwrap]. reflexivity. }
  rewrite E. cbn zeta. cbn [fst snd aeads store Forget run]. unfold input.
  rewrite (file_unwrap_healthy _ _ _ _ key (Hins1 0) Ht Hk). cbn [bind].
  rewrite newAESGCM_key by done. cbn [bind run]. unfold fill_cache, Forget. cbn [aeads store].
  rewrite lookup_delete_eq. rewrite bool_decide_false, Hopen by lia. cbn [run snd store aeads].
  split; [apply lookup_delete_eq|].
  unfold Decrypt, aeadFor. rewrite Ht', Ascii.eqb_refl. simpl negb. cbv iota.
  cbn [bind run]. unfold read_cache. cbn [aeads]. rewrite lookup_insert_eq. cbn [bind run].
  by rewrite bool_decide_false, Hopen by lia.
Qed.

(** ** Witnesses *)

(** A (useless) AEAD that meets the laws: the plaintext followed by 16 bytes
    computed from nonce, associated data and key. *)
Definition toy_tag (k n a : bytes) : bytes := take 16 (n ++ a ++ k ++ repeat zero 16).

#[local] Instance toy_GCM : GCM := {|
  gcm_seal k n p a := p ++ toy_tag k n a;
  gcm_open k n c a :=
    if bool_decide (16 ≤ length c ∧ drop (length c - 16) c = toy_tag k n a)
    then Some (take (length c - 16) c) else None;
  gcm_overhead := 16
|}.

Lemma toy_tag_length k n a : length (toy_tag k n a) = 16.
Proof.
  unfold toy_tag. rewrite length_take, !length_app, repeat_length. lia.
Qed.

#[local] Instance toy_GCMLaws : GCMLaws.
Proof.
  split; simpl.
  - intros k n p a. rewrite length_app, toy_tag_length.
    replace (length p + 16 - 16) with (length p) by lia.
    rewrite drop_app_length, take_app_length, bool_decide_true; [done|]. split; [lia|done].
  - intros k n c a p. case_bool_decide as H; [|done]. destruct H as [_ H]. intros [= <-].
    by rewrite <- H, take_drop.
  - intros k n p a. by rewrite length_app, toy_tag_length.
Qed.

Definition demo_kek : fileKEK := mkFileKEK (repeat zero 32).
Definition demo_rand (b : nat) : Inp :=
  mkInp None (Some (λ n, ascii_of_nat (b + n)))
    (mkEnv (λ n, Z.of_nat (b + n)) (λ _, Z.of_nat b) ("uuid-" +:+ pretty b)).
Definition demo_tc : Context := mkContext "alice" "alice".
Definition demo_pool : Pool (DS := memDEKStore) := mkPool (λ _, ∅) ∅ [].

(** Two processes encrypt for the same tenant, in lock step: both find no
    DEK, both generate one, and the second Put loses the race. *)
Definition demo_race : list Event :=
  [Spawn 0 (CallEncrypt demo_tc (to_bytes "hello")); Spawn 1 (CallEncrypt demo_tc (to_bytes "world"))]
  ++ mjoin ((λ n, [Act 0 (demo_rand n); Act 1 (demo_rand (n + 100))]) <$> seq 0 9).

Lemma demo_race_finishes :
  ∀ j, j < 2 → ∃ proc call b,
    threads (run_events demo_kek demo_race demo_pool) !! j = Some (proc, call, Ret (Ok b)).
Proof.
  intros [|[|j]] Hj; [| |lia]; vm_compute; do 3 eexists; reflexivity.
Qed.

Lemma one_key_per_tenant_witness :
  (∀ j, j < 2 → ∃ proc call b,
    threads (run_events demo_kek demo_race demo_pool) !! j = Some (proc, call, Ret (Ok b))) ∧
  ∃ key : TenantID → bytes, ∀ proc call r,
    (proc, call, Ret r) ∈ threads (run_events demo_kek demo_race demo_pool) →
    match call, r with
    | CallEncrypt tc p, Ok blob => is_blob (key (tenantID tc)) (tenantID tc) p blob
    | CallDecrypt tc blob, Ok p => is_blob (key (tenantID tc)) (tenantID tc) p blob
    | CallDecrypt tc blob, Err CE_AuthFailed =>
      ∀ p, ¬ is_blob (key (tenantID tc)) (tenantID tc) p blob
    | _, _ => True
    end.
Proof.
  split; [exact demo_race_finishes|].
  apply (one_key_per_tenant demo_kek demo_pool (run_events demo_kek demo_race demo_pool)).
  - reflexivity.
  - reflexivity.
  - apply run_events_star.
Defined.

Lemma encrypt_decrypt_roundtrip_witness :
  ∃ blob c1, run (Encrypt demo_kek demo_tc (to_bytes "hello")) demo_rand
      (NewTenantCipher ∅) = (Ok blob, c1) ∧
    ∀ c2 ins2, (∀ n, healthy (ins2 n)) → coherent demo_kek c2 → store c1 ⊆ store c2 →
      (run (Decrypt demo_kek demo_tc blob) ins2 c2).1 = Ok (to_bytes "hello").
Proof.
  apply (encrypt_decrypt_roundtrip demo_kek demo_tc (to_bytes "hello") demo_rand (NewTenantCipher ∅)).
  - intros n. split; [reflexivity|eexists; reflexivity].
  - discriminate.
  - intros t k. simpl. rewrite lookup_empty. discriminate.
  - left. reflexivity.
Defined.

(** A cipher that has just encrypted for alice. *)
Definition demo_cipher : TenantCipher memDEKStore :=
  (run (Encrypt demo_kek demo_tc (to_bytes "hello")) demo_rand (NewTenantCipher ∅)).2.

Lemma shred_unreadable_witness :
  let c1 := Forget "alice" (mkCipher (aeads demo_cipher) (delete "alice" (store demo_cipher))) in
  ∃ e, run (Decrypt demo_kek demo_tc [blobVersion1]) demo_rand c1 = (Err e, c1).
Proof.
  apply (shred_unreadable demo_kek (demo_rand 0) demo_cipher demo_tc [blobVersion1] demo_rand).
  reflexivity.
Defined.

(** The DEK of [demo_cipher], the blob it made, and another process that has
    not used the key yet. *)
Definition demo_key : bytes := default [] (key_of demo_kek (store demo_cipher) "alice").
Definition demo_blob : bytes :=
  blobVersion1 :: repeat zero 12 ++ gcm_seal demo_key (repeat zero 12) (to_bytes "hi") (to_bytes "alice").

Lemma inflight_load_survives_shred_witness :
  let in_flight := run_n 2 (Decrypt demo_kek demo_tc demo_blob) demo_rand (mkCipher ∅ (store demo_cipher)) in
  let shredded := Forget "alice" (mkCipher (aeads in_flight.2) (delete "alice" (store in_flight.2))) in
  let after := (run in_flight.1 demo_rand shredded).2 in
  store after !! "alice" = None ∧
  (run (Decrypt demo_kek demo_tc demo_blob) demo_rand after).1 = Ok (to_bytes "hi").
Proof.
  apply (inflight_load_survives_shred demo_kek demo_tc (to_bytes "hi") demo_blob demo_key
    demo_rand demo_rand demo_rand (mkCipher ∅ (store demo_cipher))).
  - intros n. split; [reflexivity|eexists; reflexivity].
  - intros n. split; [reflexivity|eexists; reflexivity].
  - discriminate.
  - reflexivity.
  - vm_compute. reflexivity.
  - exists (repeat zero 12). split; reflexivity.
Defined.
