(* ===== verification/Blob.v ===== *)
(** * The encrypted blob store

    Models [platform/blob/blob.go]: [Store] over an object store ([objectAPI],
    an interface) and the tenant cipher of [Crypto].  Objects live under
    "<tenant>/<key>"; every read first passes [checkTenantKey].  SHA-256 is a
    parameter; hexadecimal encoding is modelled. *)

From stdpp Require Import base gmap strings list.
From Stdlib Require Import Ascii ZArith Lia.
From S2P Require Import Prelude GoStrings Tenancy Crypto CryptoProofs.

Definition defaultBucket : string := "asker-blobs".
Definition defaultContentType : string := "application/octet-stream".

Inductive BlobErr :=
| BErr_NotFound
| BErr_TenantMismatch
| BErr_ChecksumMismatch
| BErr_NoTenant
| BErr_Crypto (e : CryptoErr)
| BErr_Other (msg : string).

Record BlobRef := mkBlobRef {
  br_bucket : string;
  br_key : string;
  br_size : Z;
  br_content_type : string;
  br_sha256 : string
}.

(** The object store: ensureBucket, putObject, getObject, removePrefix. *)
Class objectAPI (O : Type) := {
  ensureBucket : Inp → string → O → result BlobErr unit * O;
  putObject : Inp → string → string → string → bytes → O → result BlobErr unit * O;
  getObject : Inp → string → string → O → result BlobErr (bytes * string);
  removePrefix : Inp → string → string → O → (Z * option BlobErr) * O
}.

(** What the interface documents: a stored object is read back as it was
    written, a write touches no other object, a missing one is ErrNotFound, and
    removePrefix deletes only keys
    with the prefix, all of them when it reports no error, and returns their
    number. *)
Class objectAPILaws (O : Type) `{!objectAPI O} := {
  obj_view : O → gmap (string * string) (string * bytes);
  obj_put_ok i b k ct d o :
    (putObject i b k ct d o).1 = Ok tt →
    obj_view (putObject i b k ct d o).2 = <[(b, k) := (ct, d)]> (obj_view o);
  obj_put_other i b k ct d o b' k' :
    (b', k') ≠ (b, k) → obj_view (putObject i b k ct d o).2 !! (b', k') = obj_view o !! (b', k');
  obj_get_ok i b k o d ct : getObject i b k o = Ok (d, ct) → obj_view o !! (b, k) = Some (ct, d);
  obj_remove_other i b p o b' k :
    b' ≠ b ∨ HasPrefix k p = false →
    obj_view (removePrefix i b p o).2 !! (b', k) = obj_view o !! (b', k);
  obj_remove_all i b p o n k :
    (removePrefix i b p o).1 = (n, None) → HasPrefix k p = true →
    obj_view (removePrefix i b p o).2 !! (b, k) = None;
  obj_remove_count i b p o n :
    (removePrefix i b p o).1 = (n, None) →
    n = Z.of_nat (size (filter (λ e, e.1.1 = b ∧ HasPrefix e.1.2 p = true) (obj_view o)))
}.

(** [hex.EncodeToString] *)
Definition hex_digit (n : N) : ascii :=
  ascii_of_N (if (n <? 10)%N then 48 + n else 87 + n)%N.

Definition EncodeToString (b : bytes) : string :=
  of_bytes (mjoin ((λ a, [hex_digit (byte_val a / 16); hex_digit (byte_val a mod 16)]) <$> b)).

(** [strings.EqualFold(x, y)] when [x] is hexadecimal text: the letters a-f
    fold only to themselves and to A-F. *)
Definition lower_byte (a : ascii) : ascii :=
  if byte_in 65 90 a then ascii_of_N (byte_val a + 32) else a.

Definition EqualFold (x y : string) : bool :=
  bool_decide (lower_byte <$> to_bytes x = lower_byte <$> to_bytes y).

Definition validKey (key : string) : bool :=
  if String.eqb key "" then false
  else forallb (λ seg, negb (String.eqb seg "" || String.eqb seg "." || String.eqb seg ".."))
         (Split key "/").

Definition checkTenantKey (tc : Context) (key : string) : result BlobErr unit :=
  let prefix := tenantID tc +:+ "/" in
  if negb (HasPrefix key prefix) then Err BErr_TenantMismatch
  else if negb (validKey (drop_str (String.length prefix) key)) then Err BErr_TenantMismatch
  else Ok tt.

(** Run a program of the first component of a product state. *)
Definition lift {C O A} (p : prog C A) : prog (C * O) A :=
  zoom fst (λ c w, (c, w.2)) p.

Section Store.
Context `{!GCM} {DS : Type} `{!DEKStore DS} {K : Type} `{!KEKProvider K} (kek : K).
Context {O : Type} `{!objectAPI O} (sha256 : bytes → bytes) (bucket : string).

(** The state behind a [Store]: its cipher and the object store. *)
Abbreviation World := (TenantCipher DS * O)%type.

(** [newStore]: the bucket the store will use, once it exists. *)
Definition newStore (cfg_bucket : string) (cipher : option unit) : prog O (result BlobErr string) :=
  match cipher with
  | None => Ret (Err (BErr_Other "blob: nil tenant cipher"))
  | Some _ =>
    let b := if String.eqb cfg_bucket "" then defaultBucket else cfg_bucket in
    Atomic _ (λ i o, ensureBucket i b o) (λ r,
    match r with Err e => Ret (Err e) | Ok _ => Ret (Ok b) end)
  end.

Definition put_object (key contentType : string) (data : bytes) (i : Inp) (w : World)
    : result BlobErr unit * World :=
  let '(r, o') := putObject i bucket key contentType data w.2 in (r, (w.1, o')).

Definition get_object (key : string) (i : Inp) (w : World)
    : result BlobErr (bytes * string) * World :=
  (getObject i bucket key w.2, w).

Definition Put (tc : Context) (key contentType : string) (data : bytes)
    : prog World (result BlobErr BlobRef) :=
  if String.eqb (tenantID tc) "" then Ret (Err BErr_NoTenant)
  else if negb (validKey key) then Ret (Err (BErr_Other "blob: put: invalid object key"))
  else
    let objectKey := tenantID tc +:+ "/" +:+ key in
    let sum := sha256 data in
    bind (lift (Encrypt kek tc data)) (λ r,
    match r with
    | Err e => Ret (Err (BErr_Crypto e))
    | Ok ciphertext =>
      Atomic _ (put_object objectKey contentType ciphertext) (λ r,
      match r with
      | Err e => Ret (Err e)
      | Ok _ =>
        Ret (Ok (mkBlobRef bucket objectKey (Z.of_nat (length data)) contentType
                   (EncodeToString sum)))
      end)
    end).

Definition Get (tc : Context) (ref : option BlobRef) : prog World (result BlobErr bytes) :=
  if String.eqb (tenantID tc) "" then Ret (Err BErr_NoTenant)
  else match ref with
  | None => Ret (Err (BErr_Other "blob: get: nil or empty blob ref"))
  | Some ref =>
    if String.eqb (br_key ref) "" then Ret (Err (BErr_Other "blob: get: nil or empty blob ref"))
    else if negb (String.eqb (br_bucket ref) "") && negb (String.eqb (br_bucket ref) bucket) then
      Ret (Err (BErr_Other "blob: get: ref bucket does not match store bucket"))
    else if String.eqb (br_sha256 ref) "" then
      Ret (Err (BErr_Other "blob: get: blob ref carries no sha256"))
    else match checkTenantKey tc (br_key ref) with
    | Err e => Ret (Err e)
    | Ok _ =>
      Atomic _ (get_object (br_key ref)) (λ r,
      match r with
      | Err e => Ret (Err e)
      | Ok (ciphertext, _) =>
        bind (lift (Decrypt kek tc ciphertext)) (λ r,
        match r with
        | Err e => Ret (Err (BErr_Crypto e))
        | Ok plaintext =>
          if negb (EqualFold (EncodeToString (sha256 plaintext)) (br_sha256 ref))
          then Ret (Err BErr_ChecksumMismatch)
          else Ret (Ok plaintext)
        end)
      end)
    end
  end.

Definition GetByKey (tc : Context) (key : string) : prog World (result BlobErr (bytes * string)) :=
  if String.eqb (tenantID tc) "" then Ret (Err BErr_NoTenant)
  else if String.eqb key "" then Ret (Err (BErr_Other "blob: get by key: empty key"))
  else match checkTenantKey tc key with
  | Err e => Ret (Err e)
  | Ok _ =>
    Atomic _ (get_object key) (λ r,
    match r with
    | Err e => Ret (Err e)
    | Ok (ciphertext, storedContentType) =>
      bind (lift (Decrypt kek tc ciphertext)) (λ r,
      match r with
      | Err e => Ret (Err (BErr_Crypto e))
      | Ok plaintext =>
        Ret (Ok (plaintext, if String.eqb storedContentType "" then defaultContentType
                            else storedContentType))
      end)
    end)
  end.

(** Returns the count and the error, both of which the caller uses. *)
Definition DeletePrefix (tc : Context) : prog World (Z * option BlobErr) :=
  let t := tenantID tc in
  if String.eqb t "" then Ret (0%Z, Some BErr_NoTenant)
  else
    let prefix := t +:+ "/" in
    Atomic _ (λ i w, let '(r, o') := removePrefix i bucket prefix w.2 in (r, (w.1, o'))) (λ r,
    match r with (n, Some e) => Ret (n, Some e) | (n, None) => Ret (n, None) end).
End Store.

(** ** Lemmas *)

(** The object key of a tenant's key. *)
Definition object_key (t : TenantID) (key : string) : string := t +:+ "/" +:+ key.

Lemma str_app_assoc a b c : (a +:+ b) +:+ c = a +:+ (b +:+ c).
Proof. apply to_bytes_inj. by rewrite !to_bytes_app, (assoc_L (++)). Qed.

Lemma checkTenantKey_spec tc key :
  checkTenantKey tc key = Ok tt ↔ ∃ k, key = object_key (tenantID tc) k ∧ validKey k = true.
Proof.
  unfold checkTenantKey, object_key.
  destruct (HasPrefix key (tenantID tc +:+ "/")) eqn:Hp; simpl.
  - apply HasPrefix_spec in Hp as [r ->]. rewrite drop_str_app. split.
    + destruct (validKey r) eqn:Hv; [|done]. intros _. exists r.
      by rewrite str_app_assoc.
    + intros (k & Hk & Hv). rewrite <- str_app_assoc in Hk.
      apply str_app_inj_l in Hk as ->. by rewrite Hv.
  - split; [done|]. intros (k & -> & _). rewrite <- str_app_assoc in Hp.
    enough (HasPrefix ((tenantID tc +:+ "/") +:+ k) (tenantID tc +:+ "/") = true) by congruence.
    apply HasPrefix_spec. by exists k.
Qed.

Lemma checkTenantKey_result tc key :
  checkTenantKey tc key = Ok tt ∨ checkTenantKey tc key = Err BErr_TenantMismatch.
Proof. unfold checkTenantKey. destruct (negb _); [by right|]. destruct (negb _); auto. Qed.

Lemma slash_not_tenant_byte : tenant_byte "/" = false.
Proof. reflexivity. Qed.

(** The tenant is the part of an object key before its first slash. *)
Lemma object_key_inj t1 t2 k1 k2 :
  validTenant t1 = true → validTenant t2 = true →
  object_key t1 k1 = object_key t2 k2 → t1 = t2 ∧ k1 = k2.
Proof.
  intros H1 H2 E. apply (f_equal to_bytes) in E. unfold object_key in E.
  rewrite !to_bytes_app in E. change (to_bytes "/") with ["/"%char] in E. simpl in E.
  apply sep_unique in E as [E1 E2];
    [|eapply validTenant_no_byte; [done|apply slash_not_tenant_byte]..].
  by apply to_bytes_inj in E1, E2.
Qed.

Lemma object_key_prefix t1 t2 k :
  validTenant t1 = true → validTenant t2 = true →
  HasPrefix (object_key t2 k) (t1 +:+ "/") = true ↔ t1 = t2.
Proof.
  intros H1 H2. rewrite HasPrefix_spec. split.
  - intros [r Hr]. rewrite str_app_assoc in Hr.
    by apply object_key_inj in Hr as [-> _].
  - intros ->. exists k. by rewrite str_app_assoc.
Qed.

Lemma run_lift {C O A} (p : prog C A) ins (c : C) (o : O) :
  run (lift p) ins (c, o) = ((run p ins c).1, ((run p ins c).2, o)).
Proof.
  unfold lift. rewrite run_zoom; [done|by intros []|done|done].
Qed.

Lemma EqualFold_refl s : EqualFold s s = true.
Proof. unfold EqualFold. by rewrite bool_decide_true. Qed.

Lemma EncodeToString_nonempty b : b ≠ [] → EncodeToString b ≠ "".
Proof. by destruct b. Qed.

Section blob_proofs.
Context `{HG : !GCM} `{HL : !GCMLaws} (k : fileKEK).
Context {O : Type} `{HO : !objectAPI O} `{HOL : !objectAPILaws O}.
Context (sha256 : bytes → bytes) (bucket : string).

Abbreviation W := (TenantCipher memDEKStore * O)%type.

(** The reads of a stored ciphertext by the tenant it was sealed for. *)
Lemma GetByKey_sealed tc key ct p blob dek ins (w : W) :
  (∀ n, healthy (ins n)) → tenantID tc ≠ "" → validKey key = true → coherent k w.1 →
  key_of k (store w.1) (tenantID tc) = Some dek → is_blob dek (tenantID tc) p blob →
  obj_view w.2 !! (bucket, object_key (tenantID tc) key) = Some (ct, blob) →
  (run (GetByKey k bucket tc (object_key (tenantID tc) key)) ins w).1
  = match getObject (ins 0) bucket (object_key (tenantID tc) key) w.2 with
    | Ok _ => Ok (p, if String.eqb ct "" then defaultContentType else ct)
    | Err e => Err e
    end.
Proof using HL HOL.
  intros Hins Ht Hv Hc Hk Hb Ho. unfold GetByKey.
  rewrite (proj2 (String.eqb_neq _ "")) by done.
  rewrite (proj2 (String.eqb_neq (object_key _ _) "")) by (unfold object_key; by destruct (tenantID tc)).
  rewrite (proj2 (checkTenantKey_spec tc _)) by eauto.
  cbn [run]. unfold get_object. destruct (getObject _ _ _ _) as [[d ct']|e] eqn:Eg; [|done].
  apply obj_get_ok in Eg. rewrite Ho in Eg. injection Eg as <- <-.
  match goal with |- context [bind ?p ?q] =>
    destruct (run_bind_inputs healthy p q (λ n, ins (S n)) w) as (ins' & _ & ->); [auto|] end.
  destruct w as [c o]. rewrite run_lift. simpl in *.
  by rewrite (decrypt_healthy k tc p blob dek (λ n, ins (S n)) c).
Qed.

Lemma Get_sealed tc key ref p ct blob dek ins (w : W) :
  (∀ n, healthy (ins n)) → tenantID tc ≠ "" → validKey key = true → coherent k w.1 →
  key_of k (store w.1) (tenantID tc) = Some dek → is_blob dek (tenantID tc) p blob →
  obj_view w.2 !! (bucket, object_key (tenantID tc) key) = Some (ct, blob) →
  br_bucket ref = bucket → br_key ref = object_key (tenantID tc) key → br_sha256 ref ≠ "" →
  (run (Get k sha256 bucket tc (Some ref)) ins w).1
  = match getObject (ins 0) bucket (object_key (tenantID tc) key) w.2 with
    | Ok _ => if EqualFold (EncodeToString (sha256 p)) (br_sha256 ref) then Ok p
              else Err BErr_ChecksumMismatch
    | Err e => Err e
    end.
Proof using HL HOL.
  intros Hins Ht Hv Hc Hk Hb Ho Hbk Hkey Hsha. unfold Get.
  rewrite (proj2 (String.eqb_neq _ "")) by done. rewrite Hkey, Hbk.
  rewrite (proj2 (String.eqb_neq (object_key _ _) "")) by (unfold object_key; by destruct (tenantID tc)).
  rewrite String.eqb_refl, andb_false_r, (proj2 (String.eqb_neq (br_sha256 ref) "")) by done.
  rewrite (proj2 (checkTenantKey_spec tc _)) by eauto.
  cbn [run]. unfold get_object. destruct (getObject _ _ _ _) as [[d ct']|e] eqn:Eg; [|done].
  apply obj_get_ok in Eg. rewrite Ho in Eg. injection Eg as <- <-.
  match goal with |- context [bind ?p ?q] =>
    destruct (run_bind_inputs healthy p q (λ n, ins (S n)) w) as (ins' & _ & ->); [auto|] end.
  destruct w as [c o]. rewrite run_lift. simpl in *.
  rewrite (decrypt_healthy k tc p blob dek (λ n, ins (S n)) c) by done.
  by destruct (EqualFold _ _).
Qed.

(** What a Put leaves. *)
Lemma Put_sealed tc key ct p ins (w : W) :
  (∀ n, healthy (ins n)) → tenantID tc ≠ "" → validKey key = true → coherent k w.1 → usable k (tenantID tc) (store w.1) →
  match run (Put k sha256 bucket tc key ct p) ins w with
  | (Ok ref, w1) =>
    ref = mkBlobRef bucket (object_key (tenantID tc) key) (Z.of_nat (length p)) ct (EncodeToString (sha256 p)) ∧
    ∃ dek blob, key_of k (store w1.1) (tenantID tc) = Some dek ∧ is_blob dek (tenantID tc) p blob ∧
      obj_view w1.2 = <[(bucket, object_key (tenantID tc) key) := (ct, blob)]> (obj_view w.2)
  | (Err e, _) => ∃ i d o, (putObject i bucket (object_key (tenantID tc) key) ct d o).1 = Err e
  end.
Proof using HL HOL.
  intros Hins Ht Hv Hc Hu. unfold Put.
  rewrite (proj2 (String.eqb_neq _ "")), Hv by done. simpl negb. cbv iota.
  match goal with |- context [bind ?p ?q] =>
    destruct (run_bind_inputs healthy p q ins w) as (ins' & _ & ->); [auto|] end.
  destruct w as [c o]. rewrite run_lift. simpl in Hc, Hu.
  pose proof (encrypt_healthy k tc p ins c Hins Ht Hu Hc) as Hok.
  destruct (run_wp k (call_post k (CallEncrypt tc p)) _ ins c _
    (wp_Encrypt k tc p (store c)) Hc (reflexivity _)) as (Hpost & _ & _); [done|].
  destruct (run (Encrypt k tc p) ins c) as [[blob|e] c1]; simpl in *; [|done].
  destruct Hpost as (dek & Hdek & Hb).
  unfold put_object. simpl snd. fold (object_key (tenantID tc) key).
  destruct (putObject (ins' 0) bucket (object_key (tenantID tc) key) ct blob o) as [[[]|e] o1] eqn:Ep;
    simpl; [|exists (ins' 0), blob, o; by rewrite Ep].
  split; [done|]. exists dek, blob. split_and!; [done|done|].
  pose proof (obj_put_ok (ins' 0) bucket (object_key (tenantID tc) key) ct blob o) as Hpo. rewrite Ep in Hpo. by apply Hpo.
Qed.
End blob_proofs.

(** What DeletePrefix leaves, with or without an error. *)
Lemma DeletePrefix_spec {DS O} `{!objectAPI O, !objectAPILaws O}
    bucket tc ins (w : TenantCipher DS * O) :
  validTenant (tenantID tc) = true →
  let '((n, err), w') := run (DeletePrefix bucket tc) ins w in
  w'.1 = w.1 ∧
  (∀ t key, validTenant t = true → t ≠ tenantID tc →
     obj_view w'.2 !! (bucket, object_key t key) = obj_view w.2 !! (bucket, object_key t key)) ∧
  (err = None →
     (∀ key, obj_view w'.2 !! (bucket, object_key (tenantID tc) key) = None) ∧
     n = Z.of_nat (size (filter (λ e, e.1.1 = bucket ∧
           HasPrefix e.1.2 (tenantID tc +:+ "/") = true) (obj_view w.2)))).
Proof.
  intros Hv. unfold DeletePrefix. rewrite (proj2 (String.eqb_neq _ "")) by eauto with asker.
  cbn [run]. pose proof (obj_remove_other (ins 0) bucket (tenantID tc +:+ "/") (snd w)) as Hother.
  pose proof (obj_remove_all (ins 0) bucket (tenantID tc +:+ "/") (snd w)) as Hall.
  pose proof (obj_remove_count (ins 0) bucket (tenantID tc +:+ "/") (snd w)) as Hcount.
  destruct (removePrefix _ _ _ _) as [[n err] o'] eqn:E.
  destruct err as [e|]; simpl in *; (split_and!; [done| |]).
  1, 3: intros t key Hvt Hne; apply Hother; right; apply not_true_is_false;
    rewrite object_key_prefix by done; congruence.
  - done.
  - intros _. split; [|by apply Hcount]. intros key. eapply Hall; [done|].
    by apply object_key_prefix.
Qed.

(** ** Theorems *)

(** Blob round trip: with a healthy context, Put stores the sealed data
    under "<tenant>/<key>" and returns a reference from which Get, and a key
    from which GetByKey, return exactly the data (or the object store's own
    error), for as long as that object stays; Put itself fails only if the
    object store refused the write. *)
Theorem blob_roundtrip `{!GCM, !GCMLaws} {O} `{!objectAPI O, !objectAPILaws O} (k : fileKEK)
    sha256 bucket tc key ct p ins (w : TenantCipher memDEKStore * O) :
  (∀ b, sha256 b ≠ []) →
  (∀ n, healthy (ins n)) → tenantID tc ≠ "" → validKey key = true →
  coherent k w.1 → usable k (tenantID tc) (store w.1) →
  match run (Put k sha256 bucket tc key ct p) ins w with
  | (Ok ref, w1) =>
    br_key ref = object_key (tenantID tc) key ∧
    ∀ ins2 w2, (∀ n, healthy (ins2 n)) → coherent k w2.1 → store w1.1 ⊆ store w2.1 →
      obj_view w2.2 !! (bucket, br_key ref) = obj_view w1.2 !! (bucket, br_key ref) →
      let got := getObject (ins2 0) bucket (br_key ref) w2.2 in
      (run (Get k sha256 bucket tc (Some ref)) ins2 w2).1 =
        match got with Ok _ => Ok p | Err e => Err e end ∧
      (run (GetByKey k bucket tc (br_key ref)) ins2 w2).1 =
        match got with
        | Ok _ => Ok (p, if String.eqb ct "" then defaultContentType else ct)
        | Err e => Err e
        end
  | (Err e, _) => ∃ i d o, (putObject i bucket (object_key (tenantID tc) key) ct d o).1 = Err e
  end.
Proof.
  intros Hsha Hins Ht Hv Hc Hu. pose proof (Put_sealed k sha256 bucket tc key ct p ins w Hins Ht Hv Hc Hu) as Hput.
  destruct (run (Put k sha256 bucket tc key ct p) ins w) as [[ref|e] w1]; [|done].
  destruct Hput as (-> & dek & blob & Hdek & Hb & Hview). cbn [br_key]. split; [done|].
  intros ins2 w2 Hins2 Hc2 Hsub Hobj. rewrite Hview, lookup_insert_eq in Hobj.
  pose proof (key_of_mono k _ _ _ _ Hsub Hdek) as Hdek2. split.
  - erewrite Get_sealed; eauto; simpl; [|by apply EncodeToString_nonempty].
    by rewrite EqualFold_refl.
  - by eapply GetByKey_sealed.
Qed.

(** Object keys partition by tenant: a key that passes the gate of one
    valid tenant has the tenant as its only owner, the rest of its path has no
    empty, "." or ".." segment, and any other key is refused as a tenant
    mismatch by Get and GetByKey without touching the object store. *)
Theorem tenant_keys_partition `{!GCM} {DS} `{!DEKStore DS} {K} `{!KEKProvider K} (kek : K)
    {O} `{!objectAPI O} bucket tc key ins (w : TenantCipher DS * O) :
  validTenant (tenantID tc) = true → key ≠ "" →
  match checkTenantKey tc key with
  | Ok _ =>
    (∃ rest, key = object_key (tenantID tc) rest ∧
       ∀ seg, seg ∈ Split rest "/" → seg ≠ "" ∧ seg ≠ "." ∧ seg ≠ "..") ∧
    ∀ tc', validTenant (tenantID tc') = true → checkTenantKey tc' key = Ok tt →
      tenantID tc' = tenantID tc
  | Err e =>
    e = BErr_TenantMismatch ∧
    run (GetByKey kek bucket tc key) ins w = (Err BErr_TenantMismatch, w) ∧
    ∀ sha256 ref, br_key ref = key → br_bucket ref = bucket → br_sha256 ref ≠ "" →
      run (Get kek sha256 bucket tc (Some ref)) ins w = (Err BErr_TenantMismatch, w)
  end.
Proof.
  intros Hv Hne. pose proof (validTenant_nonempty _ Hv) as Ht.
  destruct (checkTenantKey_result tc key) as [E|E]; rewrite E.
  - apply checkTenantKey_spec in E as (rest & -> & Hk). split.
    + exists rest. split; [done|]. unfold validKey in Hk.
      destruct (String.eqb rest ""); [done|]. rewrite forallb_forall in Hk. intros seg Hseg.
      apply list_elem_of_In in Hseg. specialize (Hk _ Hseg).
      apply negb_true_iff in Hk. rewrite !orb_false_iff, !String.eqb_neq in Hk. naive_solver.
    + intros tc' Hv' E'. apply checkTenantKey_spec in E' as (rest' & E' & _).
      by apply object_key_inj in E' as [-> _].
  - split_and!; [done| |].
    + unfold GetByKey. by rewrite (proj2 (String.eqb_neq _ "")), (proj2 (String.eqb_neq key "")), E.
    + intros sha256 ref <- Hb Hs. unfold Get.
      by rewrite (proj2 (String.eqb_neq (tenantID tc) "")), (proj2 (String.eqb_neq (br_key ref) "")),
        Hb, String.eqb_refl, andb_false_r, (proj2 (String.eqb_neq (br_sha256 ref) "")), E.
Qed.

(** DeletePrefix is exact: when it reports no error, no object of the
    tenant is left, every object of any other valid tenant is untouched
    (even when its name extends the tenant's), and the count is the number of
    objects removed; even when it fails, other tenants lose nothing. *)
Theorem delete_prefix_exact {DS O} `{!objectAPI O, !objectAPILaws O}
    bucket tc ins (w : TenantCipher DS * O) :
  validTenant (tenantID tc) = true →
  let '((n, err), w') := run (DeletePrefix bucket tc) ins w in
  w'.1 = w.1 ∧
  (∀ t key, validTenant t = true → t ≠ tenantID tc →
     obj_view w'.2 !! (bucket, object_key t key) = obj_view w.2 !! (bucket, object_key t key)) ∧
  (err = None →
     (∀ key, obj_view w'.2 !! (bucket, object_key (tenantID tc) key) = None) ∧
     n = Z.of_nat (size (filter (λ e, e.1.1 = bucket ∧
           HasPrefix e.1.2 (tenantID tc +:+ "/") = true) (obj_view w.2)))).
Proof. apply DeletePrefix_spec. Qed.

(** ** Witnesses: an object store kept in a map *)
#[local] Existing Instance toy_GCM.
#[local] Existing Instance toy_GCMLaws.

Definition memObjects : Type := gmap (string * string) (string * bytes).

#[local] Instance memObjects_api : objectAPI memObjects := {|
  ensureBucket _ _ o := (Ok tt, o);
  putObject _ b k ct d o := (Ok tt, <[(b, k) := (ct, d)]> (o : gmap _ _));
  getObject _ b k o :=
    match (o : gmap _ _) !! (b, k) with
    | Some (ct, d) => Ok (d, ct)
    | None => Err BErr_NotFound
    end;
  removePrefix _ b p o :=
    ((Z.of_nat (size (filter (λ e, e.1.1 = b ∧ HasPrefix e.1.2 p = true) (o : gmap _ _))), None),
     filter (λ e, ¬ (e.1.1 = b ∧ HasPrefix e.1.2 p = true)) (o : gmap _ _))
|}.

#[local] Instance memObjects_laws : objectAPILaws memObjects.
Proof.
  refine {| obj_view := λ o : memObjects, (o : gmap _ _) |}; simpl.
  - done.
  - intros _ b k ct d o b' k' Hne. apply lookup_insert_ne. congruence.
  - intros _ b k o d ct. destruct ((o : gmap _ _) !! (b, k)) as [[ct' d']|]; [|done].
    by intros [= -> ->].
  - intros _ b p o b' k Hne. apply option_eq. intros x. rewrite map_lookup_filter_Some. simpl.
    split; [by intros [? _]|]. intros ->. split; [done|]. intros [-> Hp].
    destruct Hne as [Hne|Hne]; congruence.
  - intros _ b p o n k _ Hp. apply map_lookup_filter_None. right. simpl. intros x _. tauto.
  - intros _ b p o n [= <-]. done.
Defined.

Definition demo_sha (b : bytes) : bytes := ["a"%char].
Definition demo_world : TenantCipher memDEKStore * memObjects := (NewTenantCipher ∅, ∅).

Definition demo_put : result BlobErr BlobRef * (TenantCipher memDEKStore * memObjects) :=
  run (Put demo_kek demo_sha "bkt" demo_tc "docs/a" "text/plain" (to_bytes "hello")) demo_rand demo_world.

Lemma blob_roundtrip_witness :
  is_ok demo_put.1 = true ∧
  match demo_put with
  | (Ok ref, w1) =>
    br_key ref = "alice/docs/a" ∧
    ∀ ins2 w2, (∀ n, healthy (ins2 n)) → coherent demo_kek w2.1 → store w1.1 ⊆ store w2.1 →
      obj_view w2.2 !! ("bkt", br_key ref) = obj_view w1.2 !! ("bkt", br_key ref) →
      let got := getObject (ins2 0) "bkt" (br_key ref) w2.2 in
      (run (Get demo_kek demo_sha "bkt" demo_tc (Some ref)) ins2 w2).1 =
        match got with Ok _ => Ok (to_bytes "hello") | Err e => Err e end ∧
      (run (GetByKey demo_kek "bkt" demo_tc (br_key ref)) ins2 w2).1 =
        match got with
        | Ok _ => Ok (to_bytes "hello", "text/plain")
        | Err e => Err e
        end
  | (Err e, _) => ∃ i d o, (putObject i "bkt" "alice/docs/a" "text/plain" d o).1 = Err e
  end.
Proof.
  split; [vm_compute; reflexivity|].
  apply (blob_roundtrip demo_kek demo_sha "bkt" demo_tc "docs/a" "text/plain" (to_bytes "hello")
    demo_rand demo_world).
  - discriminate.
  - intros n. split; [reflexivity|eexists; reflexivity].
  - discriminate.
  - reflexivity.
  - intros t k. simpl. rewrite lookup_empty. discriminate.
  - left. reflexivity.
Defined.

(** A traversal out of the tenant's prefix. *)
Lemma tenant_keys_partition_witness :
  match checkTenantKey demo_tc "alice/../bob/x" with
  | Ok _ =>
    (∃ rest, "alice/../bob/x" = object_key "alice" rest ∧
       ∀ seg, seg ∈ Split rest "/" → seg ≠ "" ∧ seg ≠ "." ∧ seg ≠ "..") ∧
    ∀ tc', validTenant (tenantID tc') = true → checkTenantKey tc' "alice/../bob/x" = Ok tt →
      tenantID tc' = "alice"
  | Err e =>
    e = BErr_TenantMismatch ∧
    run (GetByKey demo_kek "bkt" demo_tc "alice/../bob/x") demo_rand demo_world
      = (Err BErr_TenantMismatch, demo_world) ∧
    ∀ sha256 ref, br_key ref = "alice/../bob/x" → br_bucket ref = "bkt" → br_sha256 ref ≠ "" →
      run (Get demo_kek sha256 "bkt" demo_tc (Some ref)) demo_rand demo_world
      = (Err BErr_TenantMismatch, demo_world)
  end.
Proof.
  apply (tenant_keys_partition demo_kek "bkt" demo_tc "alice/../bob/x" demo_rand demo_world);
    [reflexivity|discriminate].
Defined.

Definition demo_objects : memObjects :=
  <[("bkt", "alice/x") := ("", [])]> (<[("bkt", "alice-2/x") := ("", [])]> ∅).

Lemma delete_prefix_exact_witness :
  let '((n, err), w') :=
    run (DeletePrefix "bkt" demo_tc) demo_rand (NewTenantCipher (∅ : memDEKStore), demo_objects) in
  w'.1 = NewTenantCipher ∅ ∧
  (∀ t key, validTenant t = true → t ≠ "alice" →
     obj_view w'.2 !! ("bkt", object_key t key) = obj_view demo_objects !! ("bkt", object_key t key)) ∧
  (err = None →
     (∀ key, obj_view w'.2 !! ("bkt", object_key "alice" key) = None) ∧
     n = Z.of_nat (size (filter (λ e, e.1.1 = "bkt" ∧
           HasPrefix e.1.2 "alice/" = true) (obj_view demo_objects)))).
Proof.
  apply (delete_prefix_exact "bkt" demo_tc demo_rand (NewTenantCipher (∅ : memDEKStore), demo_objects)).
  reflexivity.
Defined.
