(* ===== verification/ControlPlane.v ===== *)
(** * The control plane's RPC handlers

    Models [services/control-plane/server.go] and [personalization.go]: the
    methods of [server] with their validation, error mapping and proto
    conversion, over any [Store], and the token vault over the tenant cipher.
    A handler is a [prog]: each call to the store, the cipher or an external
    service is an atomic action that sees the context as it is then.

    [github.com/google/uuid] and the protobuf [timestamppb] package are the
    interface [Deps]; the personalization model code the feedback handler calls
    is the interface [Model]. *)

From stdpp Require Import base gmap strings list pretty.
From Stdlib Require Import Ascii ZArith Lia.
From S2P Require Import Prelude GoStrings GoJson Tenancy Store Crypto.

Open Scope Z_scope.

(** ** Wire types (controlplane.proto) *)
Record Timestamp := mkTimestamp { ts_seconds : Z; ts_nanos : Z }.

Class Deps := {
  uuid_Parse : string → option string;
  ts_CheckValid : Timestamp → bool;
  ts_AsTime : Timestamp → Z;
  ts_New : Z → Timestamp
}.

(** [uuid.Parse(s).String()] is canonical. *)
Class DepsLaws `{!Deps} : Prop := {
  uuid_canonical s u : uuid_Parse s = Some u → uuid_Parse u = Some u ∧ u ≠ ""
}.

Definition SyncPhase_name (p : Z) : option string :=
  if p =? 0 then Some "SYNC_PHASE_UNSPECIFIED"
  else if p =? 1 then Some "PENDING"
  else if p =? 2 then Some "FULL_SYNC"
  else if p =? 3 then Some "INCREMENTAL"
  else if p =? 4 then Some "FAILED"
  else None.

Definition phaseFromText (s : string) : Z :=
  if String.eqb s "SYNC_PHASE_UNSPECIFIED" then 0
  else if String.eqb s "PENDING" then 1
  else if String.eqb s "FULL_SYNC" then 2
  else if String.eqb s "INCREMENTAL" then 3
  else if String.eqb s "FAILED" then 4
  else 0.

Definition statusFromText (s : string) : Z :=
  if String.eqb s "CONNECTOR_STATUS_UNSPECIFIED" then 0
  else if String.eqb s "ACTIVE" then 1
  else if String.eqb s "PAUSED" then 2
  else if String.eqb s "ERROR" then 3
  else 0.

Record PTenant := mkPTenant { pt_id : string; pt_created : Timestamp }.

Record PInstance := mkPInstance {
  pi_id : string; pi_connector : string; pi_display : string; pi_config : string;
  pi_status : Z; pi_created : Timestamp; pi_updated : Timestamp
}.

Record PSyncState := mkPSyncState {
  ps_instance : string; ps_cursor : string; ps_phase : Z;
  ps_started : option Timestamp; ps_completed : option Timestamp;
  ps_last_error : string; ps_docs : Z
}.

Record PFeedback := mkPFeedback {
  pf_doc : string; pf_type : string; pf_connector : string; pf_action : string;
  pf_dwell : Z; pf_query : string; pf_senders : list string; pf_topics : list string
}.

Record PersonalizationResponse := mkPersonalization {
  pr_profile : string; pr_version : Z; pr_weights : string; pr_samples : Z; pr_exists : bool
}.

Record FeedbackResponse := mkFeedbackResponse {
  fr_weights : string; fr_samples : Z; fr_paused : bool
}.

(** ** Request bounds *)
Definition maxConnectorIDLen : Z := 128.
Definition maxDisplayNameLen : Z := 256.
Definition maxConfigJSONBytes : Z := 262144.
Definition maxTokenBytes : Z := 65536.
Definition maxCursorBytes : Z := 65536.
Definition maxLastErrorLen : Z := 4096.
Definition maxProfileJSONBytes : Z := 65536.
Definition maxFeedbackStrLen : Z := 1024.
Definition maxFeedbackList : Z := 64.

Definition slen (s : string) : Z := Z.of_nat (String.length s).

(** ** Helpers of server.go *)
Definition callerTenant (ctx : Ctx) : result Status Context :=
  match FromContext ctx with
  | Err _ => Err (mkStatus Unauthenticated "no tenant in request context")
  | Ok tc => Ok tc
  end.

Definition rpcErr (rpc : string) (err : StoreErr) : Status :=
  match err with
  | ErrNotFound => mkStatus NotFound "not found"
  | ErrCtx Canceled => mkStatus CanceledCode "request canceled"
  | ErrCtx DeadlineExceeded => mkStatus DeadlineExceededCode "deadline exceeded"
  | _ => mkStatus Internal (rpc +:+ " failed")
  end.

Definition invalid (msg : string) : Status := mkStatus InvalidArgument msg.

Section helpers.
Context `{!Deps}.

Definition parseInstanceID (id field : string) : result Status string :=
  if String.eqb id "" then Err (invalid (field +:+ " is required"))
  else match uuid_Parse id with
  | None => Err (invalid (field +:+ " must be a UUID"))
  | Some u => Ok u
  end.

Definition normalizePhase (p : Z) : result Status string :=
  let p := if p =? 0 then 1 else p in
  match SyncPhase_name p with
  | None => Err (invalid ("state.phase " +:+ pretty p +:+ " is not a known SyncPhase"))
  | Some name => Ok name
  end.

Definition instanceToProto (inst : ConnectorInstance) : PInstance :=
  mkPInstance (ci_id inst) (ci_connector inst) (ci_display inst) (ci_config inst)
    (statusFromText (ci_status inst)) (ts_New (ci_created inst)) (ts_New (ci_updated inst)).

Definition syncStateToProto (st : SyncState) : PSyncState :=
  mkPSyncState (ss_instance st) (ss_cursor st) (phaseFromText (ss_phase st))
    (ts_New <$> ss_started st) (ts_New <$> ss_completed st) (ss_last_error st) (ss_docs st).

Definition timeFromProto (ts : option Timestamp) (field : string) : result Status (option Z) :=
  match ts with
  | None => Ok None
  | Some ts =>
    if ts_CheckValid ts then Ok (Some (ts_AsTime ts))
    else Err (invalid (field +:+ " is not a valid timestamp"))
  end.

(** The first field over its bound. *)
Fixpoint first_over (fields : list (string * string)) : result Status unit :=
  match fields with
  | [] => Ok tt
  | (name, val) :: fields' =>
    if maxFeedbackStrLen <? slen val then
      Err (invalid ("event." +:+ name +:+ " exceeds " +:+ pretty maxFeedbackStrLen +:+ " bytes"))
    else first_over fields'
  end.

Definition validateFeedback (ev : PFeedback) : result Status unit :=
  let? _ := first_over [("doc_id", pf_doc ev); ("doc_type", pf_type ev);
    ("connector_id", pf_connector ev); ("action", pf_action ev); ("query", pf_query ev)] in
  if (maxFeedbackList <? Z.of_nat (length (pf_senders ev)))
     || (maxFeedbackList <? Z.of_nat (length (pf_topics ev))) then
    Err (invalid ("event senders/topics exceed " +:+ pretty maxFeedbackList +:+ " entries"))
  else Ok tt.
End helpers.

(** ** The personalization code the feedback handler calls

    [json.Unmarshal] into a profile or a model, [json.Marshal] of a model,
    [FeatureKeys], [LabelForAction] and [LearnedModel.Update]. *)
Class Model (M L : Type) := {
  profile_paused : string → option bool;
  model_zero : M;
  model_decode : string → option M;
  model_encode : M → result string string;
  model_samples : M → Z;
  feature_keys : string → string → list string → list string → list string;
  label_for_action : string → option L;
  model_update : M → list string → L → M
}.

(** ** The process state as main.go wires it *)
Record World (S DS O V R : Type) := mkWorld {
  w_store : S;
  w_cipher : TenantCipher DS;
  w_objects : O;
  w_vespa : V;
  w_redis : R
}.
Arguments mkWorld {S DS O V R}.
Arguments w_store {S DS O V R}.
Arguments w_cipher {S DS O V R}.
Arguments w_objects {S DS O V R}.
Arguments w_vespa {S DS O V R}.
Arguments w_redis {S DS O V R}.

(** The context of a call at the instant of an action. *)
Definition at_ctx (ctx : Ctx) (i : Inp) : Ctx :=
  mkCtx (in_ctx i) (ctx_tenant ctx) (ctx_md_in ctx) (ctx_md_out ctx).

Section server.
Context `{!Deps} {S : Type} `{!Store S} {DS : Type} `{!GCM, !DEKStore DS}
  {K : Type} `{!KEKProvider K} (kek : K) {O V R : Type}.

Abbreviation W := (World S DS O V R).
Abbreviation rpc A := (prog W (result Status A)).

(** [serverConfig]: the quota, and which optional stores are configured. *)
Record serverConfig := mkConfig {
  maxConnectorInstances : Z;
  cfg_dek : bool;
  cfg_vespa : bool;
  cfg_blobs : bool;
  cfg_cache : bool
}.

Context (cfg : serverConfig).

Definition set_store (s : S) (w : W) : W :=
  mkWorld s (w_cipher w) (w_objects w) (w_vespa w) (w_redis w).

Definition set_cipher (c : TenantCipher DS) (w : W) : W :=
  mkWorld (w_store w) c (w_objects w) (w_vespa w) (w_redis w).

(** A store method that may write, and one that only reads. *)
Definition on_store {A} (f : Inp → S → result StoreErr A * S) (i : Inp) (w : W)
    : result StoreErr A * W :=
  let '(r, s') := f i (w_store w) in (r, set_store s' w).

Definition read_store {A} (f : Inp → S → result StoreErr A) (i : Inp) (w : W)
    : result StoreErr A * W := (f i (w_store w), w).

Definition on_cipher {A} (p : prog (TenantCipher DS) A) : prog W A := zoom w_cipher set_cipher p.

(** Return an error, or go on. *)
Definition check {A B} (r : result Status A) (k : A → rpc B) : rpc B :=
  match r with Err st => Ret (Err st) | Ok a => k a end.

(** Map a store error with [rpcErr], or go on. *)
Definition stored {A B} (rpcName : string) (k : A → rpc B) (r : result StoreErr A) : rpc B :=
  match r with Err e => Ret (Err (rpcErr rpcName e)) | Ok a => k a end.

Definition server_EnsureTenant (ctx : Ctx) : rpc PTenant :=
  check (callerTenant ctx) (λ tc,
  Atomic _ (on_store (λ i, Store_EnsureTenant (in_env i) (at_ctx ctx i) (tenantID tc)))
  (stored "EnsureTenant" (λ t, Ret (Ok (mkPTenant (ten_id t) (ts_New (ten_created t))))))).

Definition validateCreate (connectorId displayName configJson : string) : result Status string :=
  if String.eqb connectorId "" then Err (invalid "connector_id is required")
  else if maxConnectorIDLen <? slen connectorId then
    Err (invalid ("connector_id exceeds " +:+ pretty maxConnectorIDLen +:+ " bytes"))
  else if maxDisplayNameLen <? slen displayName then
    Err (invalid ("display_name exceeds " +:+ pretty maxDisplayNameLen +:+ " bytes"))
  else if maxConfigJSONBytes <? slen configJson then
    Err (invalid ("config_json exceeds " +:+ pretty maxConfigJSONBytes +:+ " bytes"))
  else
    let configJSON := if String.eqb configJson "" then "{}" else configJson in
    if negb (json_Valid configJSON) then Err (invalid "config_json is not valid JSON")
    else Ok configJSON.

Definition server_CreateConnectorInstance (ctx : Ctx)
    (connectorId displayName configJson : string) : rpc PInstance :=
  check (callerTenant ctx) (λ tc,
  check (validateCreate connectorId displayName configJson) (λ configJSON,
  Atomic _ (on_store (λ i, Store_CreateConnectorInstance (in_env i) (at_ctx ctx i)
    (mkInstance "" (tenantID tc) connectorId displayName configJSON "ACTIVE" 0 0)
    (maxConnectorInstances cfg)))
  (λ r, match r with
  | Err ErrQuotaExceeded =>
    Ret (Err (mkStatus ResourceExhausted
      ("connector instance quota reached (" +:+ pretty (maxConnectorInstances cfg)
       +:+ "); delete an existing connector first")))
  | Err e => Ret (Err (rpcErr "CreateConnectorInstance" e))
  | Ok inst => Ret (Ok (instanceToProto inst))
  end))).

Definition server_ListConnectorInstances (ctx : Ctx) : rpc (list PInstance) :=
  check (callerTenant ctx) (λ tc,
  Atomic _ (read_store (λ i, Store_ListConnectorInstances (at_ctx ctx i) (tenantID tc)))
  (stored "ListConnectorInstances" (λ insts, Ret (Ok (instanceToProto <$> insts))))).

Definition server_GetConnectorInstance (ctx : Ctx) (reqId : string) : rpc PInstance :=
  check (callerTenant ctx) (λ tc,
  check (parseInstanceID reqId "id") (λ id,
  Atomic _ (read_store (λ i, Store_GetConnectorInstance (at_ctx ctx i) (tenantID tc) id))
  (stored "GetConnectorInstance" (λ inst, Ret (Ok (instanceToProto inst)))))).

Definition server_DeleteConnectorInstance (ctx : Ctx) (reqId : string) : rpc unit :=
  check (callerTenant ctx) (λ tc,
  check (parseInstanceID reqId "id") (λ id,
  Atomic _ (on_store (λ i, Store_DeleteConnectorInstance (at_ctx ctx i) (tenantID tc) id))
  (stored "DeleteConnectorInstance" (λ _, Ret (Ok tt))))).

Definition server_GetSyncState (ctx : Ctx) (reqId : string) : rpc PSyncState :=
  check (callerTenant ctx) (λ tc,
  check (parseInstanceID reqId "connector_instance_id") (λ id,
  Atomic _ (read_store (λ i, Store_GetSyncState (at_ctx ctx i) (tenantID tc) id))
  (stored "GetSyncState" (λ st, Ret (Ok (syncStateToProto st)))))).

(** The validation part of SetSyncState: the row to be written. *)
Definition validateSync (tc : Context) (st : option PSyncState) : result Status SyncState :=
  match st with
  | None => Err (invalid "state is required")
  | Some st =>
    let? id := parseInstanceID (ps_instance st) "state.connector_instance_id" in
    if maxCursorBytes <? slen (ps_cursor st) then
      Err (invalid ("state.cursor exceeds " +:+ pretty maxCursorBytes +:+ " bytes"))
    else
      let? phase := normalizePhase (ps_phase st) in
      let? started := timeFromProto (ps_started st) "state.last_sync_started" in
      let? completed := timeFromProto (ps_completed st) "state.last_sync_completed" in
      if ps_docs st <? 0 then Err (invalid "state.docs_emitted must be >= 0")
      else
        let lastError :=
          if maxLastErrorLen <? slen (ps_last_error st)
          then take_str (Z.to_nat maxLastErrorLen) (ps_last_error st)
          else ps_last_error st in
        Ok (mkSyncState id (tenantID tc) (ps_cursor st) phase started completed lastError (ps_docs st))
  end.

Definition server_SetSyncState (ctx : Ctx) (req : option PSyncState) : rpc PSyncState :=
  check (callerTenant ctx) (λ tc,
  check (validateSync tc req) (λ st,
  Atomic _ (on_store (λ i, Store_SetSyncState (at_ctx ctx i) (tenantID tc) st))
  (stored "SetSyncState" (λ st, Ret (Ok (syncStateToProto st)))))).

Definition server_PutToken (ctx : Ctx) (reqId token : string) : rpc unit :=
  check (callerTenant ctx) (λ tc,
  check (parseInstanceID reqId "connector_instance_id") (λ id,
  if String.eqb token "" then Ret (Err (invalid "token is required"))
  else if maxTokenBytes <? slen token then
    Ret (Err (invalid ("token exceeds " +:+ pretty maxTokenBytes +:+ " bytes")))
  else bind (on_cipher (Encrypt kek tc (to_bytes token))) (λ r,
  match r with
  | Err _ => Ret (Err (mkStatus Internal "PutToken failed"))
  | Ok ciphertext =>
    Atomic _ (on_store (λ i, Store_PutToken (at_ctx ctx i) (tenantID tc) id (of_bytes ciphertext)))
    (stored "PutToken" (λ _, Ret (Ok tt)))
  end))).

Definition server_GetToken (ctx : Ctx) (reqId : string) : rpc string :=
  check (callerTenant ctx) (λ tc,
  check (parseInstanceID reqId "connector_instance_id") (λ id,
  Atomic _ (read_store (λ i, Store_GetToken (at_ctx ctx i) (tenantID tc) id))
  (stored "GetToken" (λ ciphertext,
  bind (on_cipher (Decrypt kek tc (to_bytes ciphertext))) (λ r,
  match r with
  | Err _ => Ret (Err (mkStatus Internal "GetToken failed"))
  | Ok token => Ret (Ok (of_bytes token))
  end))))).

Definition server_DeleteToken (ctx : Ctx) (reqId : string) : rpc unit :=
  check (callerTenant ctx) (λ tc,
  check (parseInstanceID reqId "connector_instance_id") (λ id,
  Atomic _ (on_store (λ i, Store_DeleteToken (at_ctx ctx i) (tenantID tc) id))
  (stored "DeleteToken" (λ _, Ret (Ok tt))))).

(** ** personalization.go *)
Definition server_GetPersonalization (ctx : Ctx) : rpc PersonalizationResponse :=
  check (callerTenant ctx) (λ tc,
  Atomic _ (read_store (λ i, Store_GetPersonalization (at_ctx ctx i) (tenantID tc)))
  (stored "GetPersonalization" (λ pw, Ret (Ok (mkPersonalization (up_profile pw.1) (up_version pw.1)
     (lw_weights pw.2) (lw_samples pw.2) (up_exists pw.1)))))).

Definition server_PutPreferences (ctx : Ctx) (profileJSON : string) : rpc Z :=
  check (callerTenant ctx) (λ tc,
  if String.eqb profileJSON "" then Ret (Err (invalid "profile_json is required"))
  else if maxProfileJSONBytes <? slen profileJSON then
    Ret (Err (invalid ("profile_json exceeds " +:+ pretty maxProfileJSONBytes +:+ " bytes")))
  else if negb (json_Valid profileJSON) then
    Ret (Err (invalid "profile_json is not valid JSON"))
  else
    Atomic _ (on_store (λ i, Store_PutPreferences (in_env i) (at_ctx ctx i) (tenantID tc) profileJSON))
    (stored "PutPreferences" (λ version, Ret (Ok version)))).

Definition server_ResetLearning (ctx : Ctx) : rpc Z :=
  check (callerTenant ctx) (λ tc,
  Atomic _ (on_store (λ i, Store_ResetLearning (at_ctx ctx i) (tenantID tc)))
  (stored "ResetLearning" (λ n, Ret (Ok n)))).

Section feedback.
Context {M L : Type} `{!Model M L}.

Definition profilePaused (profileJSON : string) : bool :=
  if String.eqb profileJSON "" then false
  else match profile_paused profileJSON with None => false | Some b => b end.

Definition decodeModel (weightsJSON : string) : M :=
  if String.eqb weightsJSON "" then model_zero
  else match model_decode weightsJSON with None => model_zero | Some m => m end.

(** The closure RecordFeedback passes to UpdateLearnedWeights; its result is
    also what the closure assigns to [updatedJSON] and [updatedSamples]. *)
Definition feedbackUpdate (ev : PFeedback) (curJSON : string) (_ : Z)
    : result StoreErr (string * Z) :=
  let model := decodeModel curJSON in
  let features := feature_keys (pf_type ev) (pf_connector ev) (pf_senders ev) (pf_topics ev) in
  let model :=
    match label_for_action (pf_action ev) with
    | Some label => if bool_decide (features = []) then model else model_update model features label
    | None => model
    end in
  match model_encode model with
  | Err e => Err (ErrOther ("marshal learned model: " +:+ e))
  | Ok b => Ok (b, model_samples model)
  end.

(** UpdateLearnedWeights hands the closure the weights row it has locked, so
    the variables the closure assigns are its result on that row. *)
Definition captured (ctx : Ctx) (t : TenantID) (ev : PFeedback) (s : S)
    : result StoreErr (string * Z) :=
  match Store_GetPersonalization (mkCtx None (ctx_tenant ctx) (ctx_md_in ctx) (ctx_md_out ctx)) t s with
  | Err e => Err e
  | Ok pw => feedbackUpdate ev (lw_weights pw.2) (lw_samples pw.2)
  end.

Definition server_RecordFeedback (ctx : Ctx) (req : option PFeedback) : rpc FeedbackResponse :=
  check (callerTenant ctx) (λ tc,
  match req with
  | None => Ret (Err (invalid "event is required"))
  | Some ev =>
    check (validateFeedback ev) (λ _,
    Atomic _ (read_store (λ i, Store_GetPersonalization (at_ctx ctx i) (tenantID tc)))
    (stored "RecordFeedback" (λ pw,
    if profilePaused (up_profile pw.1) then
      Ret (Ok (mkFeedbackResponse (lw_weights pw.2) (lw_samples pw.2) true))
    else
      Atomic _ (on_store (λ i, Store_AppendFeedback (in_env i) (at_ctx ctx i) (tenantID tc)
        (mkFeedback (pf_doc ev) (pf_type ev) (pf_connector ev) (pf_action ev) (pf_dwell ev) (pf_query ev))))
      (stored "RecordFeedback" (λ _,
      Atomic _ (on_store (λ i s,
        let '(r, s') := Store_UpdateLearnedWeights (in_env i) (at_ctx ctx i) (tenantID tc)
                          (feedbackUpdate ev) s in
        (match r with Err e => Err e | Ok _ => captured ctx (tenantID tc) ev s end, s')))
      (stored "RecordFeedback" (λ upd,
      Ret (Ok (mkFeedbackResponse upd.1 upd.2 false)))))))))
  end).
End feedback.
End server.
