(* ===== verification/ControlPlaneProofs.v ===== *)
(** * The control plane's RPC handlers: proofs

    Tenant isolation of the RPC surface under any interleaving of the handlers'
    actions, the token vault's round trip, what validation guarantees of stored
    rows, the opacity of errors, and the feedback handler. *)

From stdpp Require Import base gmap strings list pretty.
From Stdlib Require Import Ascii ZArith Lia.
From S2P Require Import Prelude GoStrings GoJson Tenancy Store StoreLoops StoreIsolation StoreOps.
From S2P Require Import Crypto CryptoProofs ControlPlane.
Import memStore.

Open Scope Z_scope.

(** ** Requests *)
Inductive Request :=
| RqEnsureTenant
| RqCreate (connectorId displayName configJson : string)
| RqList
| RqGet (id : string)
| RqDelete (id : string)
| RqGetSync (id : string)
| RqSetSync (st : option PSyncState)
| RqPutToken (id token : string)
| RqGetToken (id : string)
| RqDeleteToken (id : string)
| RqGetPersonalization
| RqPutPreferences (profile : string)
| RqFeedback (ev : option PFeedback)
| RqResetLearning.

Inductive Reply :=
| RpTenant (t : PTenant)
| RpInstance (i : PInstance)
| RpInstances (l : list PInstance)
| RpUnit
| RpSync (s : PSyncState)
| RpToken (t : string)
| RpPersonalization (p : PersonalizationResponse)
| RpNumber (n : Z)
| RpFeedback (f : FeedbackResponse).

(** Tag the reply of a handler. *)
Fixpoint reply {W A} (f : A → Reply) (p : prog W (result Status A)) : prog W (result Status Reply) :=
  match p with
  | Ret (Ok a) => Ret (Ok (f a))
  | Ret (Err e) => Ret (Err e)
  | Atomic X g k => Atomic X g (λ x, reply f (k x))
  end.

(** The dispatch of [ControlPlaneService]. *)
Section dispatch.
Context `{!Deps} `{!GCM} {K : Type} `{!KEKProvider K} (kek : K) {S : Type} `{!Store S}
  {DS : Type} `{!DEKStore DS} {M L : Type} `{!Model M L} {OB V R : Type} (cfg : serverConfig).

Definition handle (ctx : Ctx) (rq : Request) : prog (World S DS OB V R) (result Status Reply) :=
  match rq with
  | RqEnsureTenant => reply RpTenant (server_EnsureTenant ctx)
  | RqCreate c d j => reply RpInstance (server_CreateConnectorInstance cfg ctx c d j)
  | RqList => reply RpInstances (server_ListConnectorInstances ctx)
  | RqGet id => reply RpInstance (server_GetConnectorInstance ctx id)
  | RqDelete id => reply (λ _, RpUnit) (server_DeleteConnectorInstance ctx id)
  | RqGetSync id => reply RpSync (server_GetSyncState ctx id)
  | RqSetSync st => reply RpSync (server_SetSyncState ctx st)
  | RqPutToken id tok => reply (λ _, RpUnit) (server_PutToken kek ctx id tok)
  | RqGetToken id => reply RpToken (server_GetToken kek ctx id)
  | RqDeleteToken id => reply (λ _, RpUnit) (server_DeleteToken ctx id)
  | RqGetPersonalization => reply RpPersonalization (server_GetPersonalization ctx)
  | RqPutPreferences p => reply RpNumber (server_PutPreferences ctx p)
  | RqFeedback ev => reply RpFeedback (server_RecordFeedback ctx ev)
  | RqResetLearning => reply RpNumber (server_ResetLearning ctx)
  end.
End dispatch.

Section proofs.
Context `{HD : !Deps} `{HG : !GCM} {K : Type} `{HK : !KEKProvider K} (kek : K)
  {M L : Type} `{HM : !Model M L} {OB V R : Type} (cfg : serverConfig).

Abbreviation W := (World memStore memDEKStore OB V R).

(** ** A tenant's private view of the process state *)
Definition own {A} (t : TenantID) (m : gmap string A) : gmap string A :=
  base.filter (λ kv, kv.1 = t) m.

Definition restrict_c (t : TenantID) (c : TenantCipher memDEKStore) : TenantCipher memDEKStore :=
  mkCipher (own t (aeads c)) (own t (store c)).

Definition restrict_w (t : TenantID) (w : W) : W :=
  mkWorld (restrict t (w_store w)) (restrict_c t (w_cipher w)) (w_objects w) (w_vespa w) (w_redis w).

(** The UUID source yields an identifier that no row has. *)
Definition fresh_inp (i : Inp) (w : W) : Prop :=
  instances (w_store w) !! new_uuid (in_env i) = None.

(** An action of tenant [t]: it sees and changes only the tenant's view. *)
Definition action_of {X} (t : TenantID) (f : Inp → W → X * W) : Prop :=
  ∀ i w, WF (w_store w) → fresh_inp i w →
    f i (restrict_w t w) = ((f i w).1, restrict_w t (f i w).2) ∧
    WF (w_store (f i w).2) ∧
    ∀ t', t' ≠ t → restrict_w t' (f i w).2 = restrict_w t' w.

Fixpoint scoped {A} (t : TenantID) (p : prog W A) : Prop :=
  match p with
  | Ret _ => True
  | Atomic X f k => action_of t f ∧ ∀ x, scoped t (k x)
  end.

Lemma scoped_bind {A B} t (p : prog W A) (q : A → prog W B) :
  scoped t p → (∀ a, scoped t (q a)) → scoped t (bind p q).
Proof using Type. intros Hp Hq. induction p as [a|X f k IH]; simpl in *; [done|]. naive_solver. Qed.

Lemma scoped_reply {A} t (f : A → Reply) (p : prog W (result Status A)) :
  scoped t p → scoped t (reply f p).
Proof using Type.
  intros Hp. induction p as [[a|e]|X g k IH]; simpl in *; [done|done|]. naive_solver.
Qed.

Lemma scoped_check {A B} t (r : result Status A) (k : A → prog W (result Status B)) :
  (∀ a, r = Ok a → scoped t (k a)) → scoped t (check r k).
Proof using Type. intros H. destruct r; simpl; auto. Qed.

Lemma scoped_stored {A B} t name (k : A → prog W (result Status B)) (r : result StoreErr A) :
  (∀ a, scoped t (k a)) → scoped t (stored name k r).
Proof using Type. intros H. destruct r; simpl; auto. Qed.

(** A store method that is a call of the tenant. *)
Lemma on_store_action {A} t ctx (op : Inp → Op) (wr : result StoreErr A → Resp)
    (f : Inp → memStore → result StoreErr A * memStore) :
  (∀ r r', wr r = wr r' → r = r') →
  (∀ i m, exec (mkCall t (at_ctx ctx i) (in_env i) (op i)) m = (wr (f i m).1, (f i m).2)) →
  action_of t (on_store f : Inp → W → _).
Proof using Type.
  intros Hinj Hex i w Hwf Hfr. unfold on_store. simpl.
  set (c := mkCall t (at_ctx ctx i) (in_env i) (op i)).
  assert (Hfc : fresh_call c (w_store w)).
  { unfold fresh_call. simpl. by destruct (op i). }
  pose proof (exec_restrict c (w_store w) Hwf) as Hr. pose proof (exec_WF c _ Hwf Hfc) as Hw'.
  pose proof (λ t' Hne, exec_frame c t' _ Hwf Hfc Hne) as Hf.
  subst c. simpl c_tenant in *. rewrite !Hex in *. cbn [fst snd] in *.
  destruct (f i (restrict t (w_store w))) as [r1 m1], (f i (w_store w)) as [r2 m2]. simpl in *.
  injection Hr as ->%Hinj ->. split_and!; [done|done|].
  intros t' Hne. unfold restrict_w. simpl. by rewrite Hf.
Qed.

Lemma read_store_action {A} t ctx (op : Inp → Op) (wr : result StoreErr A → Resp)
    (f : Inp → memStore → result StoreErr A) :
  (∀ r r', wr r = wr r' → r = r') →
  (∀ i m, exec (mkCall t (at_ctx ctx i) (in_env i) (op i)) m = (wr (f i m), m)) →
  action_of t (read_store f : Inp → W → _).
Proof using Type.
  intros Hinj Hex i w Hwf _. unfold read_store. simpl. split_and!; [|done|done].
  pose proof (exec_restrict (mkCall t (at_ctx ctx i) (in_env i) (op i)) (w_store w) Hwf) as Hr.
  simpl c_tenant in Hr. rewrite !Hex in Hr. simpl in Hr. by injection Hr as ->%Hinj.
Qed.

(** ** The cipher *)
Definition cipher_action {X} (t : TenantID)
    (f : Inp → TenantCipher memDEKStore → X * TenantCipher memDEKStore) : Prop :=
  ∀ i c, f i (restrict_c t c) = ((f i c).1, restrict_c t (f i c).2) ∧
    ∀ t', t' ≠ t → restrict_c t' (f i c).2 = restrict_c t' c.

Fixpoint cipher_scoped {A} (t : TenantID) (p : prog (TenantCipher memDEKStore) A) : Prop :=
  match p with
  | Ret _ => True
  | Atomic X f k => cipher_action t f ∧ ∀ x, cipher_scoped t (k x)
  end.

Lemma own_lookup {A} t (m : gmap string A) : own t m !! t = m !! t.
Proof using Type. unfold own. rewrite lookup_key_filter. by case_decide. Qed.

Lemma own_insert {A} t (m : gmap string A) x : own t (<[t:=x]> m) = <[t:=x]> (own t m).
Proof using Type. apply key_filter_insert_eq. Qed.

Lemma own_insert_ne {A} t t' (m : gmap string A) x : t' ≠ t → own t' (<[t:=x]> m) = own t' m.
Proof using Type. intros Hne. apply key_filter_insert_ne. congruence. Qed.

Lemma cipher_scoped_bind {A B} t (p : prog (TenantCipher memDEKStore) A) (q : A → prog _ B) :
  cipher_scoped t p → (∀ a, cipher_scoped t (q a)) → cipher_scoped t (bind p q).
Proof using Type. intros Hp Hq. induction p as [a|X f k IH]; simpl in *; [done|]. naive_solver. Qed.

Lemma input_action {X} t (f : Inp → X) : cipher_action t (input f).
Proof using Type. done. Qed.

Lemma get_dek_action t : cipher_action t (get_dek t).
Proof using Type.
  intros i c. unfold get_dek. simpl. split; [|done]. f_equal. unfold mem_GetWrappedDEK.
  by rewrite own_lookup.
Qed.

Lemma put_dek_action t w : cipher_action t (put_dek t w).
Proof using Type.
  intros i c. unfold put_dek. simpl. unfold mem_PutWrappedDEK. simpl.
  destruct (in_ctx i); [done|]. destruct (String.eqb t ""); [done|].
  case_bool_decide; [done|]. rewrite own_lookup. destruct (store c !! t); [done|]. simpl.
  unfold restrict_c. simpl. split; [by rewrite own_insert|].
  intros t' Hne. by rewrite own_insert_ne.
Qed.

Lemma read_cache_action t : cipher_action t (read_cache t : Inp → TenantCipher memDEKStore → _).
Proof using Type. intros i c. unfold read_cache. simpl. by rewrite own_lookup. Qed.

Lemma fill_cache_action t a : cipher_action t (fill_cache t a : Inp → TenantCipher memDEKStore → _).
Proof using Type.
  intros i c. unfold fill_cache. simpl. rewrite own_lookup.
  destruct (aeads c !! t); [done|]. simpl. unfold restrict_c. simpl. split; [by rewrite own_insert|].
  intros t' Hne. by rewrite own_insert_ne.
Qed.

Lemma aeadFor_scoped t create : cipher_scoped t (aeadFor kek t create).
Proof using Type.
  unfold aeadFor. split; [apply read_cache_action|]. intros [a|]; [done|].
  apply cipher_scoped_bind.
  - unfold loadDEK, provisionDEK, unwrap. simpl. split; [apply get_dek_action|].
    intros [w|[]]; simpl; try done. destruct create; simpl; [|done].
    split; [done|]. intros [d|]; [|done]. simpl. split; [done|].
    intros [w|]; [|done]. simpl. split; [apply put_dek_action|]. intros pe.
    split; [apply get_dek_action|]. intros [w'|]; [done|]. by destruct pe.
  - intros [d|]; [|done]. destruct (newAESGCM d); [|done]. simpl.
    split; [apply fill_cache_action|done].
Qed.

Lemma on_cipher_scoped {A} t (p : prog (TenantCipher memDEKStore) A) :
  cipher_scoped t p → scoped t (on_cipher p : prog W A).
Proof using Type.
  unfold on_cipher. intros Hp. induction p as [a|X f k IH]; simpl in *; [done|].
  destruct Hp as [Hf Hk]. split; [|auto]. intros i w Hwf _.
  destruct (Hf i (w_cipher w)) as [Hr Hfr]. simpl. rewrite Hr.
  destruct (f i (w_cipher w)) as [x c]. simpl in *. split_and!; [done|done|].
  intros t' Hne. unfold restrict_w. simpl. by rewrite Hfr.
Qed.

Lemma Encrypt_scoped tc p : scoped (tenantID tc) (on_cipher (Encrypt kek tc p) : prog W _).
Proof using Type.
  apply on_cipher_scoped. unfold Encrypt. destruct (String.eqb _ _); [done|].
  apply cipher_scoped_bind; [apply aeadFor_scoped|]. intros [a|]; [|done].
  simpl. split; [done|]. by intros [].
Qed.

Lemma Decrypt_scoped tc p : scoped (tenantID tc) (on_cipher (Decrypt kek tc p) : prog W _).
Proof using Type.
  apply on_cipher_scoped. unfold Decrypt. destruct (String.eqb _ _); [done|].
  destruct p; [done|]. destruct (negb _); [done|].
  apply cipher_scoped_bind; [apply aeadFor_scoped|]. intros [k|]; [|done].
  case_bool_decide; [done|]. by destruct (gcm_open _ _ _ _).
Qed.

(** ** Every handler acts for its caller only *)
Lemma captured_restrict ctx t ev m :
  captured ctx t ev (restrict t m) = captured (M := M) ctx t ev m.
Proof using Type.
  unfold captured. cbn [Store_GetPersonalization memStore_Store].
  unfold GetPersonalization, guarded_read. cbn [ctx_err].
  by rewrite weights_restrict, prefs_restrict.
Qed.

(** The update step of RecordFeedback, with the captured variables. *)
Lemma feedback_action t ctx ev :
  action_of t (on_store (λ i s,
    let '(r, s') := Store_UpdateLearnedWeights (in_env i) (at_ctx ctx i) t (feedbackUpdate (M := M) ev) s in
    (match r with Err e => Err e | Ok _ => captured (M := M) ctx t ev s end, s')) : Inp → W → _).
Proof using Type.
  intros i w Hwf Hfr.
  pose proof (on_store_action t ctx (λ _, OpUpdateWeights (feedbackUpdate (M := M) ev)) RUnit
    (λ i, UpdateLearnedWeights (in_env i) (at_ctx ctx i) t (feedbackUpdate (M := M) ev))
    ltac:(by intros ?? [=]) ltac:(done) i w Hwf Hfr) as (Hr & Hw & Hf).
  unfold on_store in *. simpl in *.
  rewrite captured_restrict.
  destruct (UpdateLearnedWeights _ _ _ _ (restrict t (w_store w))) as [r1 m1].
  destruct (UpdateLearnedWeights _ _ _ _ (w_store w)) as [r2 m2]. simpl in *.
  injection Hr as -> ->. split_and!; [done|done|exact Hf].
Qed.

Ltac store_call ctx op wr :=
  split; [first [eapply (on_store_action _ ctx op wr); [by intros ?? [=]|done]
                |eapply (read_store_action _ ctx op wr); [by intros ?? [=]|done]]
         |intros ?; try (apply scoped_stored; done)].

Lemma handle_scoped ctx tc rq :
  FromContext ctx = Ok tc → scoped (tenantID tc) (handle kek cfg ctx rq : prog W _).
Proof using Type.
  intros Hctx. assert (Hct : ∀ tc', callerTenant ctx = Ok tc' → tc' = tc).
  { unfold callerTenant. rewrite Hctx. congruence. }
  destruct rq; apply scoped_reply; apply scoped_check; intros tc' ->%Hct.
  - store_call ctx (λ _ : Inp, OpEnsureTenant) RTenant.
  - apply scoped_check. intros cj _.
    store_call ctx (λ _ : Inp, OpCreate connectorId displayName cj "ACTIVE" (maxConnectorInstances cfg)) RInst.
    by destruct x as [|[]].
  - store_call ctx (λ _ : Inp, OpList) RInsts.
  - apply scoped_check. intros id' _. store_call ctx (λ _ : Inp, OpGet id') RInst.
  - apply scoped_check. intros id' _. store_call ctx (λ _ : Inp, OpDelete id') RUnit.
  - apply scoped_check. intros id' _. store_call ctx (λ _ : Inp, OpGetSync id') RSync.
  - apply scoped_check. intros st' _. store_call ctx (λ _ : Inp, OpSetSync st') RSync.
  - apply scoped_check. intros id' _. destruct (String.eqb token ""); [done|].
    destruct (_ <? _); [done|]. apply scoped_bind; [apply Encrypt_scoped|]. intros [ct|]; [|done].
    store_call ctx (λ _ : Inp, OpPutToken id' (of_bytes ct)) RUnit.
  - apply scoped_check. intros id' _. store_call ctx (λ _ : Inp, OpGetToken id') RBytes.
    apply scoped_stored. intros ct. apply scoped_bind; [apply Decrypt_scoped|]. by intros [].
  - apply scoped_check. intros id' _. store_call ctx (λ _ : Inp, OpDeleteToken id') RUnit.
  - store_call ctx (λ _ : Inp, OpGetPersonalization) RPers.
  - destruct (String.eqb _ _); [done|]. destruct (_ <? _); [done|]. destruct (negb _); [done|].
    store_call ctx (λ _ : Inp, OpPutPreferences profile) RCount.
  - destruct ev as [ev|]; [|done]. apply scoped_check. intros _ _.
    store_call ctx (λ _ : Inp, OpGetPersonalization) RPers. apply scoped_stored. intros pw.
    destruct (profilePaused _); [done|].
    store_call ctx (λ _ : Inp, OpAppendFeedback (mkFeedback (pf_doc ev) (pf_type ev) (pf_connector ev)
      (pf_action ev) (pf_dwell ev) (pf_query ev))) RUnit.
    apply scoped_stored. intros _. split; [apply feedback_action|].
    intros r. by apply scoped_stored.
  - store_call ctx (λ _ : Inp, OpResetLearning) RCount.
Qed.

(** ** Interleavings of RPCs *)

(** The process and the calls in flight, each with its caller. *)
Record Server := mkServer {
  sv_world : W;
  sv_calls : list (TenantID * prog W (result Status Reply))
}.

(** Call number [j] performs its next action on the inputs [i]. *)
Definition serve (ev : nat * Inp) (sv : Server) : Server :=
  match sv_calls sv !! ev.1 with
  | Some (t, Atomic X f k) =>
    let '(x, w') := f ev.2 (sv_world sv) in
    mkServer w' (<[ev.1 := (t, k x)]> (sv_calls sv))
  | _ => sv
  end.

Definition serve_all (evs : list (nat * Inp)) (sv : Server) : Server := foldl (λ s e, serve e s) sv evs.

Fixpoint fresh_events (evs : list (nat * Inp)) (sv : Server) : Prop :=
  match evs with
  | [] => True
  | e :: evs => fresh_inp e.2 (sv_world sv) ∧ fresh_events evs (serve e sv)
  end.

(** The events of one tenant's calls. *)
Definition event_of (t : TenantID) (calls : list (TenantID * prog W (result Status Reply)))
    (e : nat * Inp) : Prop := fst <$> calls !! e.1 = Some t.

#[export] Instance event_of_dec t calls e : Decision (event_of t calls e).
Proof using Type. unfold event_of. apply _. Defined.

(** The two servers agree on what tenant [t] can see. *)
Definition agree (t : TenantID) (sv sv' : Server) : Prop :=
  sv_world sv' = restrict_w t (sv_world sv) ∧
  (sv_calls sv').*1 = (sv_calls sv).*1 ∧
  ∀ j c, sv_calls sv !! j = Some (t, c) → sv_calls sv' !! j = Some (t, c).

Definition all_scoped (sv : Server) : Prop :=
  ∀ t c, (t, c) ∈ sv_calls sv → scoped t c.

Lemma serve_scoped e sv :
  WF (w_store (sv_world sv)) → fresh_inp e.2 (sv_world sv) → all_scoped sv →
  WF (w_store (sv_world (serve e sv))) ∧ all_scoped (serve e sv) ∧
  (sv_calls (serve e sv)).*1 = (sv_calls sv).*1.
Proof using Type.
  intros Hwf Hfr Hs. unfold serve. destruct (sv_calls sv !! e.1) as [[t [a|X f k]]|] eqn:E; [done| |done].
  destruct (Hs _ _ (list_elem_of_lookup_2 _ _ _ E)) as [Hf Hk].
  destruct (Hf e.2 (sv_world sv) Hwf Hfr) as (_ & Hw & _).
  destruct (f e.2 (sv_world sv)) as [x w']. simpl in *. split_and!; [done| |].
  - intros t' c (j & Hj)%list_elem_of_lookup_1. simpl in Hj.
    apply list_lookup_insert_Some in Hj as [(_ & [= <- <-] & _)|[_ Hj]]; [apply Hk|].
    apply Hs. by eapply list_elem_of_lookup_2.
  - rewrite list_fmap_insert. simpl. apply list_insert_id. by rewrite list_lookup_fmap, E.
Qed.

Lemma serve_agree t e sv sv' :
  WF (w_store (sv_world sv)) → fresh_inp e.2 (sv_world sv) → all_scoped sv → agree t sv sv' →
  agree t (serve e sv) (if decide (event_of t (sv_calls sv) e) then serve e sv' else sv').
Proof using Type.
  intros Hwf Hfr Hs (Hw & Hl & Hc). case_decide as He; unfold event_of in He.
  - unfold serve. destruct (sv_calls sv !! e.1) as [[t0 c]|] eqn:E; [|discriminate He].
    simpl in He. injection He as ->. pose proof (Hc _ _ E) as E'. rewrite E'.
    destruct c as [a|X f k]; [by split_and!|].
    destruct (Hs _ _ (list_elem_of_lookup_2 _ _ _ E)) as [Hf _].
    destruct (Hf e.2 (sv_world sv) Hwf Hfr) as (Hr & _ & _). rewrite Hw, Hr.
    destruct (f e.2 (sv_world sv)) as [x w']. simpl. split_and!; simpl; [done| |].
    + by rewrite !list_fmap_insert, Hl.
    + intros j c. rewrite !list_lookup_insert_Some. intros [(Hej & Hck & Hlt)|[Hne Hj]].
      * left. split_and!; [done|done|]. rewrite <- Hej. by apply lookup_lt_Some in E'.
      * right. split; [done|]. auto.
  - unfold serve. destruct (sv_calls sv !! e.1) as [[t0 c]|] eqn:E; [|by split_and!].
    simpl in He. destruct c as [a|X f k]; [by split_and!|].
    destruct (Hs _ _ (list_elem_of_lookup_2 _ _ _ E)) as [Hf _].
    destruct (Hf e.2 (sv_world sv) Hwf Hfr) as (_ & _ & Hfr').
    destruct (f e.2 (sv_world sv)) as [x w']. simpl in *. split_and!; simpl.
    + rewrite Hw. symmetry. apply Hfr'. congruence.
    + rewrite Hl, list_fmap_insert. symmetry. apply list_insert_id. by rewrite list_lookup_fmap, E.
    + intros j c. rewrite list_lookup_insert_Some. intros [(_ & Hck & _)|[_ Hj]]; [congruence|auto].
Qed.

Lemma serve_all_agree t evs sv sv' :
  WF (w_store (sv_world sv)) → fresh_events evs sv → all_scoped sv → agree t sv sv' →
  agree t (serve_all evs sv) (serve_all (base.filter (event_of t (sv_calls sv)) evs) sv').
Proof using Type.
  revert sv sv'. induction evs as [|e evs IH]; intros sv sv' Hwf Hfr Hs Ha; [done|].
  destruct Hfr as [Hf Hfr]. pose proof (serve_agree t e sv sv' Hwf Hf Hs Ha) as Ha'.
  destruct (serve_scoped e sv Hwf Hf Hs) as (Hwf' & Hs' & Hl).
  specialize (IH (serve e sv) _ Hwf' Hfr Hs' Ha').
  assert (Hsame : ∀ x, event_of t (sv_calls (serve e sv)) x ↔ event_of t (sv_calls sv) x).
  { intros x. unfold event_of. by rewrite <- !list_lookup_fmap, Hl. }
  rewrite (list_filter_iff _ _ _ Hsame) in IH.
  rewrite filter_cons. cbn [serve_all foldl]. case_decide; exact IH.
Qed.

(** The process with the given calls about to start. *)
Definition start (calls : list (Ctx * Context * Request)) (w : W) : Server :=
  mkServer w ((λ c, (tenantID c.1.2, handle kek cfg c.1.1 c.2)) <$> calls).

Lemma start_scoped calls w :
  (∀ c, c ∈ calls → FromContext c.1.1 = Ok c.1.2) → all_scoped (start calls w).
Proof using Type.
  intros Hc t p Hin. simpl in Hin. apply list_elem_of_fmap in Hin as (c & [= -> ->] & Hin).
  apply handle_scoped. auto.
Qed.
End proofs.

(** ** Theorems *)

(** C1. Isolation of the RPC surface: let any number of calls of the control
    plane's tenant RPCs, by any tenants, interleave action by action.  Then
    what each call of tenant [t] has got so far, and everything the process
    holds of [t] (rows, tokens, profile, cached and stored keys), is the same as
    if only the calls of [t] had run, on a process holding only [t]'s data. *)
Theorem rpc_isolation `{!Deps, !GCM} {K} `{!KEKProvider K} (kek : K) {M L} `{!Model M L}
    {OB V R} cfg (calls : list (Ctx * Context * Request)) evs t
    (w : World memStore memDEKStore OB V R) :
  WF (w_store w) → (∀ c, c ∈ calls → FromContext c.1.1 = Ok c.1.2) →
  fresh_events evs (start kek cfg calls w) →
  let sv := serve_all evs (start kek cfg calls w) in
  let alone := serve_all (base.filter (event_of t (sv_calls (start kek cfg calls w))) evs)
                 (start kek cfg calls (restrict_w t w)) in
  sv_world alone = restrict_w t (sv_world sv) ∧
  ∀ j p, sv_calls sv !! j = Some (t, p) → sv_calls alone !! j = Some (t, p).
Proof.
  intros Hwf Hc Hfr sv alone.
  destruct (serve_all_agree t evs (start kek cfg calls w) (start kek cfg calls (restrict_w t w)))
    as (H1 & _ & H2); [done|done|by apply start_scoped|by split_and!|done].
Qed.

(** ** The token vault *)
Section vault.
Context `{HD : !Deps} `{HG : !GCM} `{HL : !GCMLaws} (k : fileKEK) {OB V R : Type}.

Abbreviation W := (World memStore memDEKStore OB V R).

Lemma run_on_cipher {A} (p : prog (TenantCipher memDEKStore) A) ins (w : W) :
  run (on_cipher p) ins w = ((run p ins (w_cipher w)).1, set_cipher (run p ins (w_cipher w)).2 w).
Proof using Type. unfold on_cipher. by rewrite run_zoom by (done || by intros []). Qed.

Lemma caller_ok ctx tc : FromContext ctx = Ok tc → callerTenant ctx = Ok tc.
Proof using Type. unfold callerTenant. by intros ->. Qed.

(** PutToken leaves the token sealed under the tenant's key. *)
Lemma PutToken_sealed ctx tc id u token ins (w : W) :
  FromContext ctx = Ok tc → parseInstanceID id "connector_instance_id" = Ok u →
  token ≠ "" → slen token <= maxTokenBytes →
  is_Some (ownedInstance (tenantID tc) u (w_store w)) →
  (∀ n, healthy (ins n)) → coherent k (w_cipher w) → usable k (tenantID tc) (store (w_cipher w)) →
  ∃ w1 dek blob, run (server_PutToken k ctx id token) ins w = (Ok tt, w1) ∧
    coherent k (w_cipher w1) ∧
    tokens (w_store w1) !! u = Some (mkToken (tenantID tc) (of_bytes blob)) ∧
    key_of k (store (w_cipher w1)) (tenantID tc) = Some dek ∧
    is_blob dek (tenantID tc) (to_bytes token) blob.
Proof using HL.
  intros Hctx Hid Htok Hlen [inst Hinst] Hins Hc Hu. unfold server_PutToken.
  rewrite (caller_ok _ _ Hctx). cbn [check]. rewrite Hid. cbn [check].
  rewrite (proj2 (String.eqb_neq token "")), (proj2 (Z.ltb_ge _ _)) by done.
  assert (Ht : tenantID tc ≠ "") by by apply FromContext_Ok in Hctx as [_ ?].
  match goal with |- context [bind ?p ?q] =>
    destruct (run_bind_inputs healthy p q ins w) as (ins' & Hins' & ->); [auto|] end.
  rewrite run_on_cipher. cbn [fst snd].
  pose proof (encrypt_healthy k tc (to_bytes token) ins (w_cipher w) Hins Ht Hu Hc) as Hok.
  destruct (run_wp k (call_post k (CallEncrypt tc (to_bytes token))) _ ins (w_cipher w) _
    (wp_Encrypt k tc (to_bytes token) (store (w_cipher w))) Hc (reflexivity _)) as (Hpost & Hc1 & _); [done|].
  destruct (run (Encrypt k tc (to_bytes token)) ins (w_cipher w)) as [[blob|e] c1]; [|done].
  destruct Hpost as (dek & Hdek & Hb). cbn [fst snd run]. unfold on_store. simpl w_store.
  cbn [Store_PutToken memStore_Store]. unfold PutToken, guarded, at_ctx. simpl ctx_err.
  destruct (Hins' 0%nat) as [-> _]. rewrite Hinst. cbn [stored run].
  eexists _, dek, blob. split; [reflexivity|]. simpl. rewrite lookup_insert_eq. done.
Qed.

Lemma GetToken_sealed ctx tc id u dek token blob ins (w : W) :
  FromContext ctx = Ok tc → parseInstanceID id "connector_instance_id" = Ok u →
  (∀ n, healthy (ins n)) → coherent k (w_cipher w) →
  tokens (w_store w) !! u = Some (mkToken (tenantID tc) (of_bytes blob)) →
  key_of k (store (w_cipher w)) (tenantID tc) = Some dek →
  is_blob dek (tenantID tc) (to_bytes token) blob →
  (run (server_GetToken k ctx id) ins w).1 = Ok token.
Proof using HL.
  intros Hctx Hid Hins Hc Htok Hk Hb. unfold server_GetToken.
  rewrite (caller_ok _ _ Hctx). cbn [check]. rewrite Hid. cbn [check run]. unfold read_store.
  cbn [Store_GetToken memStore_Store]. unfold GetToken, guarded_read, at_ctx. simpl ctx_err.
  destruct (Hins 0%nat) as [-> _].
  rewrite (proj2 (ownedToken_Some (tenantID tc) u (w_store w) _)) by (split; [exact Htok|done]).
  simpl tok_cipher. cbn [stored]. rewrite to_of_bytes.
  match goal with |- context [bind ?p ?q] =>
    destruct (run_bind_inputs healthy p q (λ n, ins (S n)) w) as (ins' & _ & ->); [auto|] end.
  rewrite run_on_cipher. cbn [fst snd].
  assert (Ht : tenantID tc ≠ "") by by apply FromContext_Ok in Hctx as [_ ?].
  rewrite (decrypt_healthy k tc (to_bytes token) blob dek) by auto.
  simpl. by rewrite of_to_bytes.
Qed.
End vault.

(** C28. The token vault: for a caller who owns the instance, PutToken
    succeeds, what rests in the store is the token sealed, for that tenant,
    under the key that the tenant's own wrapped DEK in the DEK store stands for
    ([key_of]), and GetToken returns the token, then and in any later state that
    still holds that row and has not lost the tenant's DEK. *)
Theorem token_vault_roundtrip `{!Deps, !GCM, !GCMLaws} (k : fileKEK) {OB V R}
    ctx tc id u token ins (w : World memStore memDEKStore OB V R) :
  FromContext ctx = Ok tc → parseInstanceID id "connector_instance_id" = Ok u →
  token ≠ "" → slen token <= maxTokenBytes →
  is_Some (ownedInstance (tenantID tc) u (w_store w)) →
  (∀ n, healthy (ins n)) → coherent k (w_cipher w) → usable k (tenantID tc) (store (w_cipher w)) →
  ∃ w1 dek blob, run (server_PutToken k ctx id token) ins w = (Ok tt, w1) ∧
    tokens (w_store w1) !! u = Some (mkToken (tenantID tc) (of_bytes blob)) ∧
    key_of k (store (w_cipher w1)) (tenantID tc) = Some dek ∧
    is_blob dek (tenantID tc) (to_bytes token) blob ∧
    ∀ ins2 (w2 : World memStore memDEKStore OB V R),
      (∀ n, healthy (ins2 n)) → coherent k (w_cipher w2) →
      store (w_cipher w1) ⊆ store (w_cipher w2) →
      tokens (w_store w2) !! u = tokens (w_store w1) !! u →
      (run (server_GetToken k ctx id) ins2 w2).1 = Ok token.
Proof.
  intros Hctx Hid Htok Hlen Hinst Hins Hc Hu.
  destruct (PutToken_sealed k ctx tc id u token ins w) as (w1 & dek & blob & Hrun & Hc1 & Hrow & Hk & Hb);
    [done..|].
  exists w1, dek, blob. split_and!; [done..|]. intros ins2 w2 Hins2 Hc2 Hsub Hrow2.
  eapply GetToken_sealed; eauto; [by rewrite Hrow2|]. by eapply key_of_mono.
Qed.

(** ** Errors *)
Definition rq_name (rq : Request) : string :=
  match rq with
  | RqEnsureTenant => "EnsureTenant"
  | RqCreate _ _ _ => "CreateConnectorInstance"
  | RqList => "ListConnectorInstances"
  | RqGet _ => "GetConnectorInstance"
  | RqDelete _ => "DeleteConnectorInstance"
  | RqGetSync _ => "GetSyncState"
  | RqSetSync _ => "SetSyncState"
  | RqPutToken _ _ => "PutToken"
  | RqGetToken _ => "GetToken"
  | RqDeleteToken _ => "DeleteToken"
  | RqGetPersonalization => "GetPersonalization"
  | RqPutPreferences _ => "PutPreferences"
  | RqFeedback _ => "RecordFeedback"
  | RqResetLearning => "ResetLearning"
  end.

(** The statuses a caller may see, none of which carries a store error's
    text. *)
Definition public_error (name : string) (st : Status) : Prop :=
  (st_code st = InvalidArgument) ∨
  (st_code st = ResourceExhausted ∧ name = "CreateConnectorInstance") ∨
  st ∈ [mkStatus Unauthenticated "no tenant in request context"; mkStatus NotFound "not found";
        mkStatus CanceledCode "request canceled"; mkStatus DeadlineExceededCode "deadline exceeded";
        mkStatus Internal (name +:+ " failed")].

Definition public {A} (name : string) (r : result Status A) : Prop :=
  match r with Ok _ => True | Err st => public_error name st end.

Lemma rpcErr_public name e : public_error name (rpcErr name e).
Proof. right. right. destruct e as [| |[]|]; simpl; set_solver. Qed.

Lemma invalid_public name msg : public_error name (invalid msg).
Proof. by left. Qed.

Lemma rets_reply {W A} name (f : A → Reply) (p : prog W (result Status A)) :
  rets (public name) p → rets (public name) (reply f p).
Proof. induction p as [[a|e]|X g k IH]; simpl; auto. Qed.

Lemma rets_stored {S DS OB V R A B} name (k : A → prog (World S DS OB V R) (result Status B)) r :
  (∀ a, rets (public name) (k a)) → rets (public name) (stored name k r).
Proof. intros H. destruct r; simpl; [apply H|apply rpcErr_public]. Qed.

Lemma rets_check {S DS OB V R A B} name r (k : A → prog (World S DS OB V R) (result Status B)) :
  public name r → (∀ a, rets (public name) (k a)) → rets (public name) (check r k).
Proof. intros Hr H. destruct r; simpl; auto. Qed.

Lemma caller_public name ctx : public name (callerTenant ctx).
Proof. unfold callerTenant. destruct (FromContext ctx); simpl; [done|]. right; right. left. Qed.

Lemma parse_public `{!Deps} name id f : public name (parseInstanceID id f).
Proof.
  unfold parseInstanceID. destruct (String.eqb id ""); [apply invalid_public|].
  destruct (uuid_Parse id); [done|apply invalid_public].
Qed.

Lemma validateCreate_public name c d j : public name (validateCreate c d j).
Proof.
  unfold validateCreate. repeat (case_match; try apply invalid_public); done.
Qed.

Lemma validateSync_public `{!Deps} name tc st : public name (validateSync tc st).
Proof.
  unfold validateSync. destruct st as [st|]; [|apply invalid_public].
  pose proof (parse_public name (ps_instance st) "state.connector_instance_id") as Hp.
  destruct (parseInstanceID _ _); [|done]. destruct (_ <? _); [apply invalid_public|].
  unfold normalizePhase, timeFromProto.
  repeat (case_match; simplify_eq; try apply invalid_public); done.
Qed.

Lemma validateFeedback_public name ev : public name (validateFeedback ev).
Proof.
  unfold validateFeedback.
  assert (Hf : ∀ l, public name (first_over l)).
  { induction l as [|[n v] l IH]; simpl; [done|]. destruct (_ <? _); [apply invalid_public|done]. }
  specialize (Hf [("doc_id", pf_doc ev); ("doc_type", pf_type ev);
    ("connector_id", pf_connector ev); ("action", pf_action ev); ("query", pf_query ev)]).
  destruct (first_over _); [|done]. destruct (_ || _); [apply invalid_public|done].
Qed.

Lemma handle_public `{!Deps, !GCM} {K} `{!KEKProvider K} (kek : K) {S} `{!Store S}
    {DS} `{!DEKStore DS} {M L} `{!Model M L} {OB V R} cfg ctx rq :
  rets (public (rq_name rq)) (handle kek cfg ctx rq : prog (World S DS OB V R) _).
Proof.
  assert (Hint : ∀ name, public_error name (mkStatus Internal (name +:+ " failed"))).
  { intros name. right. right. set_solver. }
  destruct rq; apply rets_reply; apply rets_check; try apply caller_public; intros tc;
    try (apply rets_check; [first [apply parse_public|apply validateCreate_public
      |apply validateSync_public]|]; intros ?); simpl rq_name;
    try (by intros ?; apply rets_stored).
  - intros [inst|[| |[]|]]; simpl; [done|..]; try apply (rpcErr_public "CreateConnectorInstance" ErrNotFound).
    + right; left. done.
    + apply (rpcErr_public _ (ErrCtx Canceled)).
    + apply (rpcErr_public _ (ErrCtx DeadlineExceeded)).
    + apply Hint.
  - destruct (String.eqb token ""); [apply invalid_public|].
    destruct (_ <? _); [apply invalid_public|]. apply rets_bind. intros [ct|]; [|apply (Hint "PutToken")].
    intros r. by apply rets_stored.
  - intros r. apply rets_stored. intros ct. apply rets_bind. intros [p|]; [done|apply (Hint "GetToken")].
  - destruct (String.eqb _ _); [apply invalid_public|]. destruct (_ <? _); [apply invalid_public|].
    destruct (negb _); [apply invalid_public|]. intros r. by apply rets_stored.
  - destruct ev as [ev|]; [|apply invalid_public]. apply rets_check; [apply validateFeedback_public|].
    intros _ r. apply rets_stored. intros pw. destruct (profilePaused _); [done|].
    intros r'. apply rets_stored. intros _ r''. by apply rets_stored.
Qed.

(** Errors do not leak: over any store, cipher and model, every error a
    tenant RPC returns is an argument error, the quota error, or one of five
    fixed statuses, so the text of a store, cipher or SQL error never reaches
    the caller. *)
Theorem rpc_errors_opaque `{!Deps, !GCM} {K} `{!KEKProvider K} (kek : K) {S} `{!Store S}
    {DS} `{!DEKStore DS} {M L} `{!Model M L} {OB V R} cfg ctx rq ins (w : World S DS OB V R) :
  match (run (handle kek cfg ctx rq) ins w).1 with
  | Ok _ => True
  | Err st =>
    st_code st = InvalidArgument ∨
    (st_code st = ResourceExhausted ∧ rq_name rq = "CreateConnectorInstance") ∨
    st ∈ [mkStatus Unauthenticated "no tenant in request context"; mkStatus NotFound "not found";
          mkStatus CanceledCode "request canceled"; mkStatus DeadlineExceededCode "deadline exceeded";
          mkStatus Internal (rq_name rq +:+ " failed")]
  end.
Proof. exact (rets_run (public (rq_name rq)) _ ins w (handle_public kek cfg ctx rq)). Qed.

(** ** Validation *)
Definition instance_ok (inst : ConnectorInstance) : Prop :=
  1 <= slen (ci_connector inst) <= maxConnectorIDLen ∧ slen (ci_display inst) <= maxDisplayNameLen ∧
  json_Valid (ci_config inst) = true ∧ slen (ci_config inst) <= maxConfigJSONBytes ∧
  ci_status inst ∈ ["ACTIVE"; "PAUSED"].

Definition sync_ok (st : SyncState) : Prop :=
  slen (ss_cursor st) <= maxCursorBytes ∧
  ss_phase st ∈ ["PENDING"; "FULL_SYNC"; "INCREMENTAL"; "FAILED"] ∧
  slen (ss_last_error st) <= maxLastErrorLen ∧ 0 <= ss_docs st.

Definition prefs_ok (p : UserPreferences) : Prop :=
  1 <= slen (up_profile p) <= maxProfileJSONBytes ∧ json_Valid (up_profile p) = true.

(** Every row of the store is within the request bounds. *)
Definition rows_ok (m : memStore) : Prop :=
  map_Forall (λ _, instance_ok) (instances m) ∧ map_Forall (λ _, sync_ok) (syncs m) ∧
  map_Forall (λ _, prefs_ok) (prefs m).

(** What an operation must satisfy to keep the rows within bounds. *)
Definition op_ok (op : Op) : Prop :=
  match op with
  | OpCreate c d j s _ => ∀ id t a b, instance_ok (mkInstance id t c d j s a b)
  | OpSetSync st => sync_ok st
  | OpPutPreferences p => ∀ v b, prefs_ok (mkPrefs p v b)
  | OpSetStatus s => s ∈ ["ACTIVE"; "PAUSED"]
  | _ => True
  end.

Lemma ensureRow_rows t now m : rows_ok m → rows_ok (ensureRow t now m).
Proof. unfold ensureRow. by destruct (tenants m !! t). Qed.

Lemma minus_Forall {A B} (P : string * A → Prop) `{∀ x, Decision (P x)} ds (x : gmap string B) Q :
  map_Forall (λ _, Q) x → map_Forall (λ _, Q) (minus P ds x).
Proof.
  intros H0 i b Hb. rewrite lookup_minus in Hb.
  destruct (ds !! i); [case_decide; [done|]|]; by eapply H0.
Qed.

Lemma exec_rows t ctx env op m :
  op_ok op → rows_ok m → rows_ok (exec (mkCall t ctx env op) m).2.
Proof.
  intros Hop Hm. destruct op; simpl; try done;
    unfold EnsureTenant, CreateConnectorInstance, DeleteConnectorInstance, SetSyncState, PutToken,
      DeleteToken, PutPreferences, AppendFeedback, UpdateLearnedWeights, ResetLearning, guarded;
    try (destruct (ctx_err ctx); [done|]); simpl.
  - by destruct (tenants m !! t).
  - destruct (_ && _); [done|].
    destruct (ensureRow_rows t (clock env 0) m Hm) as (Hi & Hs & Hp). split_and!; try done.
    apply map_Forall_insert_2; [apply Hop|done].
  - destruct (ownedInstance t id m); [|done]. destruct Hm as (Hi & Hs & Hp).
    split_and!; try done; by apply map_Forall_delete.
  - destruct (ownedInstance _ _ m); [|done]. destruct Hm as (Hi & Hs & Hp). split_and!; try done.
    apply map_Forall_insert_2; [|done]. unfold sync_ok in *. simpl in *. done.
  - by destruct (ownedInstance t id m).
  - by destruct (ownedToken t id m).
  - destruct (ctx_err ctx) eqn:Hc; [unfold PurgeTenant, guarded; by rewrite Hc|].
    rewrite PurgeTenant_spec by done. destruct Hm as (Hi & Hs & Hp).
    split_and!; simpl; [by apply minus_Forall..|by apply map_Forall_delete].
  - destruct (ctx_err ctx) eqn:Hc; [unfold SetTenantConnectorStatus, guarded; by rewrite Hc|].
    rewrite SetTenantConnectorStatus_spec by done. destruct Hm as (Hi & Hs & Hp). split_and!; try done.
    intros id inst. simpl. rewrite lookup_suspended. intros (i & Hi' & ->)%fmap_Some.
    specialize (Hi _ _ Hi'). unfold status_of. case_decide; [|done].
    unfold instance_ok in *. simpl in *. tauto.
  - destruct (ensureRow_rows t (clock env 0) m Hm) as (Hi & Hs & Hp). split_and!; try done.
    apply map_Forall_insert_2; [apply Hop|done].
  - by apply ensureRow_rows.
  - pose proof (ensureRow_rows t (clock env 0) m Hm) as Hr.
    by destruct (update _ _) as [[??]|].
  - done.
Qed.

(** Every action of the program keeps the invariant. *)
Fixpoint keeps {W A} (I : W → Prop) (p : prog W A) : Prop :=
  match p with
  | Ret _ => True
  | Atomic X f k => (∀ i w, I w → I (f i w).2) ∧ ∀ x, keeps I (k x)
  end.

Lemma keeps_run {W A} (I : W → Prop) (p : prog W A) ins w : keeps I p → I w → I (run p ins w).2.
Proof.
  revert ins w. induction p as [a|X f k IH]; intros ins w Hk Hw; simpl; [done|].
  destruct Hk as [Hf Hk]. specialize (Hf (ins 0%nat) w Hw).
  destruct (f (ins 0%nat) w) as [x w']. by apply IH.
Qed.

Lemma keeps_bind {W A B} (I : W → Prop) (p : prog W A) (q : A → prog W B) :
  keeps I p → (∀ a, keeps I (q a)) → keeps I (bind p q).
Proof. intros Hp Hq. induction p as [a|X f k IH]; simpl in *; [done|]. naive_solver. Qed.

Lemma keeps_reply {W A} (I : W → Prop) (f : A → Reply) (p : prog W (result Status A)) :
  keeps I p → keeps I (reply f p).
Proof. intros Hp. induction p as [[a|e]|X g k IH]; simpl in *; [done|done|]. naive_solver. Qed.

Section validation.
Context `{HD : !Deps} `{HG : !GCM} {K : Type} `{HK : !KEKProvider K} (kek : K)
  {M L : Type} `{HM : !Model M L} {OB V R : Type} (cfg : serverConfig).

Abbreviation W := (World memStore memDEKStore OB V R).

Definition rows_w (w : W) : Prop := rows_ok (w_store w).

Lemma keeps_cipher {A} (p : prog (TenantCipher memDEKStore) A) : keeps rows_w (on_cipher p : prog W A).
Proof using Type.
  unfold on_cipher. induction p as [a|X f k IH]; simpl; [done|]. split; [|done].
  intros i w Hw. by destruct (f i (w_cipher w)).
Qed.

Lemma keeps_check {A B} (r : result Status A) (k : A → prog W (result Status B)) :
  (∀ a, r = Ok a → keeps rows_w (k a)) → keeps rows_w (check r k).
Proof using Type. intros H. destruct r; simpl; auto. Qed.

Lemma keeps_stored {A B} name (k : A → prog W (result Status B)) r :
  (∀ a, keeps rows_w (k a)) → keeps rows_w (stored name k r).
Proof using Type. intros H. destruct r; simpl; auto. Qed.

Lemma keeps_on_store {A B} t ctx (op : Op) (f : Inp → memStore → result StoreErr A * memStore)
    (k : result StoreErr A → prog W B) :
  op_ok op → (∀ i m, (f i m).2 = (exec (mkCall t (at_ctx ctx i) (in_env i) op) m).2) →
  (∀ r, keeps rows_w (k r)) → keeps rows_w (Atomic _ (on_store f) k).
Proof using Type.
  intros Hop Hf Hk. split; [|done]. intros i w Hw.
  pose proof (exec_rows t (at_ctx ctx i) (in_env i) op (w_store w) Hop Hw) as Hr.
  rewrite <- Hf in Hr. unfold on_store, rows_w. by destruct (f i (w_store w)).
Qed.

Lemma keeps_read_store {A B} (f : Inp → memStore → result StoreErr A) (k : result StoreErr A → prog W B) :
  (∀ r, keeps rows_w (k r)) → keeps rows_w (Atomic _ (read_store f) k).
Proof using Type. intros Hk. by split. Qed.

Lemma slen_pos s : s ≠ "" → 1 <= slen s.
Proof using Type. unfold slen. destruct s; simpl; [done|lia]. Qed.

Lemma validateCreate_ok c d j cj max :
  validateCreate c d j = Ok cj → op_ok (OpCreate c d cj "ACTIVE" max).
Proof using Type.
  unfold validateCreate. destruct (String.eqb_spec c "") as [|Hc]; [done|].
  destruct (Z.ltb_spec maxConnectorIDLen (slen c)); [done|].
  destruct (Z.ltb_spec maxDisplayNameLen (slen d)); [done|].
  destruct (Z.ltb_spec maxConfigJSONBytes (slen j)); [done|].
  pose proof (slen_pos c Hc).
  destruct (String.eqb_spec j "") as [->|Hj].
  - intros [= <-] id t a b. unfold instance_ok. simpl. split_and!; try done. set_solver.
  - destruct (json_Valid j) eqn:Ej; [|done]. intros [= <-] id t a b. unfold instance_ok. simpl.
    split_and!; try done. set_solver.
Qed.

Lemma validateSync_ok tc st row : validateSync tc st = Ok row → op_ok (OpSetSync row).
Proof using Type.
  unfold validateSync. destruct st as [st|]; [|done].
  destruct (parseInstanceID _ _) as [id|]; [|done].
  destruct (Z.ltb_spec maxCursorBytes (slen (ps_cursor st))); [done|].
  destruct (normalizePhase (ps_phase st)) as [ph|] eqn:Eph; [|done].
  destruct (timeFromProto _ _) as [a|]; [|done]. destruct (timeFromProto _ _) as [b|]; [|done].
  destruct (Z.ltb_spec (ps_docs st) 0); [done|].
  remember (Z.to_nat maxLastErrorLen) as n eqn:Hn. intros [= <-].
  unfold op_ok, sync_ok. cbn [ss_cursor ss_phase ss_last_error ss_docs]. split_and!; try assumption.
  - unfold normalizePhase, SyncPhase_name in Eph.
    repeat (case_match; simplify_eq/=); try set_solver; lia.
  - destruct (Z.ltb_spec maxLastErrorLen (slen (ps_last_error st))); [|done].
    unfold slen. rewrite length_take_str. unfold maxLastErrorLen in *. lia.
Qed.

Lemma handle_keeps ctx rq : keeps rows_w (handle kek cfg ctx rq : prog W _).
Proof using Type.
  destruct rq; apply keeps_reply; apply keeps_check; intros tc _; try (apply keeps_check; intros ? Hval).
  - apply (keeps_on_store (tenantID tc) ctx OpEnsureTenant); [done..|]. intros. by apply keeps_stored.
  - apply (keeps_on_store (tenantID tc) ctx (OpCreate connectorId displayName a "ACTIVE" (maxConnectorInstances cfg)));
      [by eapply validateCreate_ok|done|]. by intros [|[]].
  - apply keeps_read_store. intros. by apply keeps_stored.
  - apply keeps_read_store. intros. by apply keeps_stored.
  - apply (keeps_on_store (tenantID tc) ctx (OpDelete a)); [done..|]. intros. by apply keeps_stored.
  - apply keeps_read_store. intros. by apply keeps_stored.
  - apply (keeps_on_store (tenantID tc) ctx (OpSetSync a)); [by eapply validateSync_ok|done|].
    intros. by apply keeps_stored.
  - destruct (String.eqb token ""); [done|]. destruct (_ <? _); [done|].
    apply keeps_bind; [apply keeps_cipher|]. intros [ct|]; [|done].
    apply (keeps_on_store (tenantID tc) ctx (OpPutToken a (of_bytes ct))); [done..|].
    intros. by apply keeps_stored.
  - apply keeps_read_store. intros. apply keeps_stored. intros ct.
    apply keeps_bind; [apply keeps_cipher|]. by intros [].
  - apply (keeps_on_store (tenantID tc) ctx (OpDeleteToken a)); [done..|]. intros. by apply keeps_stored.
  - apply keeps_read_store. intros. by apply keeps_stored.
  - destruct (String.eqb_spec profile "") as [|Hp]; [done|].
    destruct (Z.ltb_spec maxProfileJSONBytes (slen profile)); [done|].
    destruct (json_Valid profile) eqn:Ej; [|done].
    apply (keeps_on_store (tenantID tc) ctx (OpPutPreferences profile)); [|done|].
    + intros v b. unfold prefs_ok. simpl. pose proof (slen_pos profile Hp). done.
    + intros. by apply keeps_stored.
  - destruct ev as [ev|]; [|done]. apply keeps_check. intros _ _. apply keeps_read_store. intros.
    apply keeps_stored. intros pw. destruct (profilePaused _); [done|].
    eapply (keeps_on_store (tenantID tc) ctx (OpAppendFeedback _)); [done|done|]. intros.
    apply keeps_stored. intros _.
    apply (keeps_on_store (tenantID tc) ctx (OpUpdateWeights (feedbackUpdate (M := M) ev))); [done| |].
    + intros i m. simpl. by destruct (UpdateLearnedWeights _ _ _ _ m).
    + intros. by apply keeps_stored.
  - apply (keeps_on_store (tenantID tc) ctx OpResetLearning); [done..|]. intros. by apply keeps_stored.
Qed.
End validation.

(** C29. Validation is an invariant: starting from a store whose rows are
    within the request bounds, any sequence of tenant RPCs, with any inputs and
    however contexts are cancelled, leaves every instance, sync state and
    profile within them: identifiers and sizes bounded, JSON well formed, the
    phase one of the four stored names, the document count not negative. *)
Theorem stored_rows_valid `{!Deps, !GCM} {K} `{!KEKProvider K} (kek : K) {M L} `{!Model M L}
    {OB V R} cfg (calls : list (Ctx * Request * (nat → Inp))) (w : World memStore memDEKStore OB V R) :
  rows_ok (w_store w) →
  rows_ok (w_store (foldl (λ w c, (run (handle kek cfg c.1.1 c.1.2) c.2 w).2) w calls)).
Proof.
  revert w. induction calls as [|c calls IH]; intros w Hw; [done|]. simpl. apply IH.
  apply (keeps_run rows_w); [apply handle_keeps|done].
Qed.

(** ** Feedback *)

(** Learning obeys the pause switch: while the stored profile pauses
    learning, RecordFeedback of a valid event stores nothing, anywhere, and
    reports the model as it is; otherwise, with a live context and a model
    that can be encoded, the event is appended to the caller's log, the model
    is updated from the stored one by exactly this event, and the reply is
    what was stored. *)
Theorem feedback_obeys_pause `{!Deps} {M L} `{!Model M L} {DS OB V R} ctx tc ev ins
    (w : World memStore DS OB V R) :
  FromContext ctx = Ok tc → validateFeedback ev = Ok tt → (∀ n, in_ctx (ins n) = None) →
  let t := tenantID tc in
  let cur := default zeroWeights (weights (w_store w) !! t) in
  let row := mkFeedback (pf_doc ev) (pf_type ev) (pf_connector ev) (pf_action ev) (pf_dwell ev) (pf_query ev) in
  let '(r, w') := run (server_RecordFeedback ctx (Some ev)) ins w in
  if profilePaused (up_profile (default zeroPrefs (prefs (w_store w) !! t))) then
    r = Ok (mkFeedbackResponse (lw_weights cur) (lw_samples cur) true) ∧ w' = w
  else
    feedback (w_store w') !! t = Some (default [] (feedback (w_store w) !! t) ++ [row]) ∧
    match feedbackUpdate ev (lw_weights cur) (lw_samples cur) with
    | Ok (json, n) =>
      r = Ok (mkFeedbackResponse json n false) ∧
      weights (w_store w') !! t = Some (mkWeights json n true)
    | Err _ =>
      r = Err (mkStatus Internal "RecordFeedback failed") ∧
      weights (w_store w') !! t = weights (w_store w) !! t
    end.
Proof.
  intros Hctx Hval Hins t cur row. unfold server_RecordFeedback.
  rewrite (caller_ok _ _ Hctx). cbn [check]. rewrite Hval. cbn [check run]. unfold read_store.
  cbn [Store_GetPersonalization memStore_Store]. unfold GetPersonalization, guarded_read, at_ctx.
  cbn [ctx_err]. rewrite Hins. cbn [stored fst snd]. fold t.
  destruct (profilePaused _) eqn:Ep; [done|].
  cbn [run]. unfold on_store at 1. cbn [Store_AppendFeedback memStore_Store].
  unfold AppendFeedback, guarded, at_ctx. cbn [ctx_err]. rewrite Hins. cbn [stored run].
  unfold on_store. cbn [Store_UpdateLearnedWeights memStore_Store].
  unfold UpdateLearnedWeights, guarded, at_ctx. cbn [ctx_err]. rewrite Hins.
  unfold captured. cbn [Store_GetPersonalization memStore_Store].
  unfold GetPersonalization, guarded_read. cbn [ctx_err snd]. fold t row.
  set (m1 := set_feedback _ _).
  assert (Hw : weights m1 !! t = weights (w_store w) !! t).
  { subst m1. simpl. unfold ensureRow. by destruct (tenants (w_store w) !! t). }
  assert (Hf : feedback m1 !! t = Some (default [] (feedback (w_store w) !! t) ++ [row])).
  { subst m1. simpl. rewrite lookup_insert_eq. unfold ensureRow.
    by destruct (tenants (w_store w) !! t). }
  assert (He : ∀ now, weights (ensureRow t now m1) = weights m1 ∧
    feedback (ensureRow t now m1) = feedback m1).
  { intros now. unfold ensureRow. by destruct (tenants m1 !! t). }
  clearbody m1. simpl w_store. destruct (He (clock (in_env (ins 2%nat)) 0)) as [Hew Hef].
  rewrite Hew, Hw. fold cur.
  destruct (feedbackUpdate ev (lw_weights cur) (lw_samples cur)) as [[json n]|e] eqn:Eu;
    cbn [stored run w_store set_store]; rewrite ?Eu; cbn [stored run w_store set_store fst snd].
  - simpl. rewrite Hef, lookup_insert_eq. done.
  - rewrite Hef, Hew. split; [done|]. split; [|done].
    unfold feedbackUpdate in Eu. destruct (model_encode _) eqn:Em; [done|]. by injection Eu as <-.
Qed.

(** ** Witnesses *)
#[local] Existing Instance toy_GCM.
#[local] Existing Instance toy_GCMLaws.

#[export] Instance demo_deps : Deps := {|
  uuid_Parse s := if String.eqb s "" then None else Some s;
  ts_CheckValid ts := true;
  ts_AsTime ts := ts_seconds ts * 1000000000 + ts_nanos ts;
  ts_New t := mkTimestamp (t / 1000000000) (t mod 1000000000)
|}.

(** A model that counts its updates. *)
#[export] Instance demo_model : Model Z unit := {|
  profile_paused s := if String.eqb s "paused" then Some true else None;
  model_zero := 0;
  model_decode s := Some (slen s);
  model_encode n := Ok (pretty n);
  model_samples n := n;
  feature_keys a b c d := [a];
  label_for_action s := Some tt;
  model_update n _ _ := n + 1
|}.

Definition tenant_ctx (t : TenantID) : Ctx := mkCtx None (Some (mkContext t t)) None ∅.

Definition demo_process : World memStore memDEKStore unit unit unit :=
  mkWorld demo_store (NewTenantCipher ∅) tt tt tt.

(** alice stores a token while bob creates an instance. *)
Definition demo_rpcs : list (Ctx * Context * Request) :=
  [ (tenant_ctx "alice", mkContext "alice" "alice", RqPutToken "i1" "secret");
    (tenant_ctx "bob", mkContext "bob" "bob", RqCreate "slack" "" "") ].

Definition demo_events : list (nat * Inp) :=
  [(0, demo_rand 1); (0, demo_rand 2); (1, demo_rand 3); (0, demo_rand 4); (0, demo_rand 5);
   (0, demo_rand 6); (0, demo_rand 7); (0, demo_rand 8); (0, demo_rand 9); (0, demo_rand 10);
   (0, demo_rand 11)]%nat.

Definition demo_cfg3 : serverConfig := mkConfig 3 true false false false.

Definition demo_serve := serve_all demo_events (start demo_kek demo_cfg3 demo_rpcs demo_process).

Lemma rpc_isolation_witness :
  (∃ p, sv_calls demo_serve !! 0%nat = Some ("alice", Ret (Ok p))) ∧
  (let alone := serve_all
     (base.filter (event_of "alice" (sv_calls (start demo_kek demo_cfg3 demo_rpcs demo_process))) demo_events)
     (start demo_kek demo_cfg3 demo_rpcs (restrict_w "alice" demo_process)) in
   sv_world alone = restrict_w "alice" (sv_world demo_serve) ∧
   ∀ j p, sv_calls demo_serve !! j = Some ("alice", p) → sv_calls alone !! j = Some ("alice", p)).
Proof.
  split; [vm_compute; eexists; reflexivity|].
  apply (rpc_isolation demo_kek demo_cfg3 demo_rpcs demo_events "alice" demo_process).
  - apply demo_store_WF.
  - intros c Hc. repeat (apply elem_of_cons in Hc as [->|Hc]; [reflexivity|]).
    by apply not_elem_of_nil in Hc.
  - repeat split; vm_compute; reflexivity.
Defined.

Lemma token_vault_roundtrip_witness :
  ∃ w1 dek blob,
    run (server_PutToken demo_kek (tenant_ctx "alice") "i1" "secret") demo_rand demo_process = (Ok tt, w1) ∧
    tokens (w_store w1) !! "i1" = Some (mkToken "alice" (of_bytes blob)) ∧
    key_of demo_kek (store (w_cipher w1)) "alice" = Some dek ∧
    is_blob dek "alice" (to_bytes "secret") blob ∧
    ∀ ins2 (w2 : World memStore memDEKStore unit unit unit),
      (∀ n, healthy (ins2 n)) → coherent demo_kek (w_cipher w2) →
      store (w_cipher w1) ⊆ store (w_cipher w2) →
      tokens (w_store w2) !! "i1" = tokens (w_store w1) !! "i1" →
      (run (server_GetToken demo_kek (tenant_ctx "alice") "i1") ins2 w2).1 = Ok "secret".
Proof.
  apply (token_vault_roundtrip demo_kek (tenant_ctx "alice") (mkContext "alice" "alice") "i1" "i1"
    "secret" demo_rand demo_process).
  - reflexivity.
  - reflexivity.
  - discriminate.
  - vm_compute. discriminate.
  - vm_compute. eexists. reflexivity.
  - intros n. split; [reflexivity|eexists; reflexivity].
  - intros t k. simpl. rewrite lookup_empty. discriminate.
  - left. reflexivity.
Defined.

Lemma stored_rows_valid_witness :
  rows_ok (w_store (foldl (λ w c, (run (handle demo_kek demo_cfg3 c.1.1 c.1.2) c.2 w).2)
    (mkWorld newMemStore (NewTenantCipher (∅ : memDEKStore)) tt tt tt)
    [(tenant_ctx "alice", RqCreate "gmail" "mail" "", demo_rand);
     (tenant_ctx "alice", RqPutPreferences "{}", demo_rand)])).
Proof.
  apply (stored_rows_valid demo_kek demo_cfg3
    [(tenant_ctx "alice", RqCreate "gmail" "mail" "", demo_rand);
     (tenant_ctx "alice", RqPutPreferences "{}", demo_rand)]).
  split; [|split]; intros i x; simpl; rewrite lookup_empty; discriminate.
Defined.

Definition demo_feedback : PFeedback := mkPFeedback "d" "email" "gmail" "click" 10 "q" [] [].

Lemma feedback_obeys_pause_witness :
  let '(r, w') := run (server_RecordFeedback (tenant_ctx "alice") (Some demo_feedback)) demo_rand demo_process in
  feedback (w_store w') !! "alice" = Some [mkFeedback "d" "email" "gmail" "click" 10 "q"] ∧
  r = Ok (mkFeedbackResponse "1" 1 false).
Proof.
  pose proof (feedback_obeys_pause (tenant_ctx "alice") (mkContext "alice" "alice") demo_feedback demo_rand
    demo_process eq_refl eq_refl (λ _, eq_refl)) as H.
  assert (Hp : profilePaused (up_profile (default zeroPrefs (prefs demo_store !! "alice"))) = false)
    by (vm_compute; reflexivity).
  cbv zeta in H. destruct (run _ demo_rand demo_process) as [r w'].
  simpl w_store in H. simpl tenantID in H. rewrite Hp in H. destruct H as [H1 H2].
  split; [exact H1|]. apply H2.
Defined.
