(* ===== verification/Erasure.v ===== *)
(** * Tenant erasure

    Models [services/control-plane/purge.go] (the Vespa group delete with its
    continuation loop, the Redis key scan) and [delete.go] ([DeleteTenant],
    [cascadeDelete]).  The Vespa HTTP endpoint and the Redis server are
    interfaces; the loops over their answers are modelled as written. *)

From stdpp Require Import base gmap strings list pretty.
From Stdlib Require Import Ascii ZArith Lia.
From S2P Require Import Prelude GoStrings GoJson Tenancy Store Crypto Blob ControlPlane.

Open Scope Z_scope.

(** ** net/url escaping *)
Definition url_unreserved (a : ascii) : bool :=
  byte_in 48 57 a || byte_in 65 90 a || byte_in 97 122 a
  || existsb (Ascii.eqb a) (to_bytes "-_.~").

Definition upper_hex (n : N) : ascii :=
  ascii_of_N (if (n <? 10)%N then 48 + n else 55 + n)%N.

Definition percent (a : ascii) : bytes :=
  ["%"%char; upper_hex (byte_val a / 16); upper_hex (byte_val a mod 16)].

(** [url.PathEscape] *)
Definition PathEscape (s : string) : string :=
  of_bytes (mjoin ((λ a,
    if url_unreserved a || existsb (Ascii.eqb a) (to_bytes "$&+:=@") then [a]
    else percent a) <$> to_bytes s)).

(** [url.QueryEscape] *)
Definition QueryEscape (s : string) : string :=
  of_bytes (mjoin ((λ a,
    if url_unreserved a then [a]
    else if Ascii.eqb a " " then ["+"%char]
    else percent a) <$> to_bytes s)).

(** [url.Values.Encode] of values in key order. *)
Fixpoint encode_values (kvs : list (string * string)) : string :=
  match kvs with
  | [] => ""
  | [(k, v)] => QueryEscape k +:+ "=" +:+ QueryEscape v
  | (k, v) :: kvs' => QueryEscape k +:+ "=" +:+ QueryEscape v +:+ "&" +:+ encode_values kvs'
  end.

(** ** The Vespa purger *)
Inductive PurgeErr := PE_NoTenant | PE_Ctx (e : CtxErr) | PE_Other (msg : string).

(** One DELETE request (building it included): an error, or the status code
    and the body; and the continuation field of a JSON body, empty when the
    body is not JSON or has none. *)
Class VespaHTTP (V : Type) := {
  http_delete : Inp → string → V → result string (Z * string) * V;
  json_continuation : string → string
}.

Record httpVespaPurger := mkVespaPurger { vp_base : string; vp_cluster : string }.

(** [strings.TrimRight(s, "/")] *)
Fixpoint trim_slashes_rev (l : bytes) : bytes :=
  match l with a :: l' => if Ascii.eqb a "/" then trim_slashes_rev l' else l | [] => [] end.

Definition TrimRightSlash (s : string) : string :=
  of_bytes (rev (trim_slashes_rev (rev (to_bytes s)))).

Definition newHTTPVespaPurger (vespaURL cluster : string) : httpVespaPurger :=
  mkVespaPurger (TrimRightSlash vespaURL) cluster.

Definition truncate (b : string) (n : nat) : string :=
  let s := TrimSpace b in
  if bool_decide (n < String.length s)%nat then take_str n s +:+ "..." else s.

(** [io.LimitReader(resp.Body, 1<<20)] *)
Definition bodyLimit : nat := Z.to_nat (2 ^ 20).
#[global] Opaque bodyLimit.

Section vespa.
Context {V : Type} `{!VespaHTTP V} (p : httpVespaPurger).

Definition doDelete (reqURL : string) (i : Inp) (v : V) : result PurgeErr string * V :=
  let '(r, v') := http_delete i reqURL v in
  (match r with
   | Err e => Err (PE_Other ("vespa purge: " +:+ e))
   | Ok (statusCode, body) =>
     let body := take_str bodyLimit body in
     if (statusCode <? 200) || (299 <? statusCode) then
       Err (PE_Other ("vespa purge: status " +:+ pretty statusCode +:+ ": " +:+ truncate body 512))
     else Ok (json_continuation body)
   end, v').

Definition purge_url (t : TenantID) (continuation : string) : string :=
  vp_base p +:+ "/document/v1/asker/doc/group/" +:+ PathEscape t +:+ "?" +:+
  encode_values
    ((if String.eqb (vp_cluster p) "" then [] else [("cluster", vp_cluster p)]) ++
     (if String.eqb continuation "" then [] else [("continuation", continuation)]) ++
     [("selection", "true")]).

(** Rounds [i, i+1, ...] of the loop, [n] of them left. *)
Fixpoint purge_rounds (n : nat) (t : TenantID) (continuation : string)
    : prog V (result PurgeErr unit) :=
  match n with
  | O => Ret (Err (PE_Other ("vespa purge: group " +:+ t +:+ " did not drain within the continuation bound")))
  | S n' =>
    Atomic _ (input in_ctx) (λ ctxErr,
    match ctxErr with
    | Some e => Ret (Err (PE_Ctx e))
    | None =>
      Atomic _ (doDelete (purge_url t continuation)) (λ r,
      match r with
      | Err e => Ret (Err e)
      | Ok next => if String.eqb next "" then Ret (Ok tt) else purge_rounds n' t next
      end)
    end)
  end.

Definition purgeBound : nat := 1000.

Definition PurgeGroup (t : TenantID) : prog V (result PurgeErr unit) :=
  if String.eqb t "" then Ret (Err PE_NoTenant) else purge_rounds purgeBound t "".
End vespa.

(** ** The Redis purger *)
Class RedisAPI (R : Type) := {
  redis_scan : Inp → Z → string → R → result string (list string * Z);
  redis_del : Inp → list string → R → result string unit * R
}.

Section redis.
Context {R : Type} `{!RedisAPI R}.

(** The scan loop.  The request's deadline ends it: [fuel] is the number of
    rounds after which Scan reports the expired context. *)
Fixpoint scanDel (fuel : nat) (pat : string) (cursor : Z) : prog R (result PurgeErr unit) :=
  match fuel with
  | O => Ret (Err (PE_Other ("redis purge scan " +:+ pat +:+ ": context deadline exceeded")))
  | S fuel' =>
    Atomic _ (λ i r, (redis_scan i cursor pat r, r)) (λ res,
    match res with
    | Err e => Ret (Err (PE_Other ("redis purge scan " +:+ pat +:+ ": " +:+ e)))
    | Ok (keys, next) =>
      let continue :=
        if next =? 0 then Ret (Ok tt) else scanDel fuel' pat next in
      if bool_decide (keys = []) then continue
      else Atomic _ (λ i r, redis_del i keys r) (λ res,
           match res with
           | Err e => Ret (Err (PE_Other ("redis purge del: " +:+ e)))
           | Ok _ => continue
           end)
    end)
  end.

Definition redis_patterns (t : TenantID) : list string :=
  ["q:" +:+ t +:+ ":*"; "rl:" +:+ t +:+ ":*"; "asker:pref:" +:+ t; "asker:weights:" +:+ t;
   "asker:recent:" +:+ t].

Fixpoint scan_all (fuel : nat) (pats : list string) : prog R (result PurgeErr unit) :=
  match pats with
  | [] => Ret (Ok tt)
  | pat :: pats' =>
    bind (scanDel fuel pat 0) (λ r,
    match r with Err e => Ret (Err e) | Ok _ => scan_all fuel pats' end)
  end.

Definition redis_PurgeTenant (fuel : nat) (t : TenantID) : prog R (result PurgeErr unit) :=
  if String.eqb t "" then Ret (Err PE_NoTenant) else scan_all fuel (redis_patterns t).
End redis.

(** ** The cascade (delete.go) *)
Record DeleteReport := mkReport {
  rep_tenant : string;
  rep_actor : string;
  rep_instances : Z;
  rep_tokens : Z;
  rep_dek : bool;
  rep_vespa : bool;
  rep_blobs : Z;
  rep_redis : bool;
  rep_verified : bool
}.

Section cascade.
Context `{!Deps} {S : Type} `{!Store S} {DS : Type} `{!GCM, !DEKStore DS}
  {O : Type} `{!objectAPI O} {V : Type} `{!VespaHTTP V} {R : Type} `{!RedisAPI R}.
Context (cfg : serverConfig) (bucket : string) (vespa : httpVespaPurger) (scan_fuel : nat).

Abbreviation W := (World S DS O V R).
Abbreviation rpc A := (prog W (result Status A)).

Definition delete_failed : Status := mkStatus Internal "DeleteTenant failed".

Definition on_dek (f : Inp → DS → result BackErr unit * DS) (i : Inp) (w : W)
    : result BackErr unit * W :=
  let '(r, d) := f i (store (w_cipher w)) in
  (r, set_cipher (mkCipher (aeads (w_cipher w)) d) w).

Definition forget (t : TenantID) (_ : Inp) (w : W) : unit * W :=
  (tt, set_cipher (Forget t (w_cipher w)) w).

Definition on_vespa {A} (q : prog V A) : prog W A :=
  zoom w_vespa (λ v w, mkWorld (w_store w) (w_cipher w) (w_objects w) v (w_redis w)) q.

Definition on_redis {A} (q : prog R A) : prog W A :=
  zoom w_redis (λ r w, mkWorld (w_store w) (w_cipher w) (w_objects w) (w_vespa w) r) q.

Definition on_blobs {A} (q : prog (TenantCipher DS * O) A) : prog W A :=
  zoom (λ w, (w_cipher w, w_objects w))
    (λ co w, mkWorld (w_store w) co.1 co.2 (w_vespa w) (w_redis w)) q.

(** Step 0: the re-ingest fence. *)
Definition step_fence (ctx : Ctx) (t : TenantID) {A} (k : rpc A) : rpc A :=
  Atomic _ (on_store (λ i, Store_SetTenantConnectorStatus (in_env i) (at_ctx ctx i) t "PAUSED"))
  (λ r, match r with Err _ => Ret (Err delete_failed) | Ok _ => k end).

(** Step 1: the crypto-shred; the continuation gets [DekDestroyed]. *)
Definition step_shred (t : TenantID) {A} (k : bool → rpc A) : rpc A :=
  let forget_then (destroyed : bool) := Atomic _ (forget t) (λ _, k destroyed) in
  if cfg_dek cfg then
    Atomic _ (on_dek (λ i, DeleteDEK i t)) (λ r,
    match r with Err _ => Ret (Err delete_failed) | Ok _ => forget_then true end)
  else forget_then false.

(** Step 2: Postgres. *)
Definition step_store (ctx : Ctx) (t : TenantID) {A} (k : PurgeCounts → rpc A) : rpc A :=
  Atomic _ (on_store (λ i, Store_PurgeTenant (at_ctx ctx i) t))
  (λ r, match r with Err _ => Ret (Err delete_failed) | Ok counts => k counts end).

(** Step 3a: the Vespa group; the continuation gets [VespaGroupPurged]. *)
Definition step_vespa (t : TenantID) {A} (k : bool → rpc A) : rpc A :=
  if cfg_vespa cfg then
    bind (on_vespa (PurgeGroup vespa t)) (λ r,
    match r with Err _ => Ret (Err delete_failed) | Ok _ => k true end)
  else k false.

(** Step 3b: the blob prefix; the continuation gets [BlobsDeleted]. *)
Definition step_blobs (tc : Context) {A} (k : Z → rpc A) : rpc A :=
  if cfg_blobs cfg then
    bind (on_blobs (DeletePrefix bucket tc)) (λ r,
    match r with (_, Some _) => Ret (Err delete_failed) | (n, None) => k n end)
  else k 0.

(** Step 3c: Redis, best effort; the continuation gets [RedisPurged] and
    [redisFailed]. *)
Definition step_redis (t : TenantID) {A} (k : bool → bool → rpc A) : rpc A :=
  if cfg_cache cfg then
    bind (on_redis (redis_PurgeTenant scan_fuel t)) (λ r,
    match r with Err _ => k false true | Ok _ => k true false end)
  else k false false.

Definition cascadeDelete (ctx : Ctx) (t : TenantID) (actor : string) : rpc DeleteReport :=
  if String.eqb t "" then Ret (Err (invalid "empty tenant"))
  else match FromHeaderValue t with
  | Err _ => Ret (Err (invalid "invalid tenant"))
  | Ok tc =>
    step_fence ctx t (
    step_shred t (λ dekDestroyed,
    step_store ctx t (λ counts,
    step_vespa t (λ vespaPurged,
    step_blobs tc (λ blobsDeleted,
    step_redis t (λ redisPurged redisFailed,
    Atomic _ (read_store (λ i, Store_TenantResidue (at_ctx ctx i) t)) (λ r,
    match r with
    | Err _ => Ret (Err delete_failed)
    | Ok false =>
      Ret (Err (mkStatus Internal "DeleteTenant verification failed: residual data remains"))
    | Ok true =>
      Ret (Ok (mkReport t actor (pc_instances counts) (pc_tokens counts) dekDestroyed
        vespaPurged blobsDeleted redisPurged (negb redisFailed)))
    end)))))))
  end.

Definition server_DeleteTenant (ctx : Ctx) (confirm : string) : rpc DeleteReport :=
  check (callerTenant ctx) (λ tc,
  if negb (String.eqb confirm (tenantID tc)) then
    Ret (Err (invalid "confirm must equal your own tenant id (from GET /v1/me); this action is irreversible"))
  else cascadeDelete ctx (tenantID tc) "self").
End cascade.
