(* ===== verification/ErasureProofs.v ===== *)
(** * Tenant erasure: proofs

    The delete cascade erases its tenant in every store and touches nobody
    else, given what Vespa, Redis and the object store are documented to do;
    and it gets there when they answer.  The purgers' loops follow every
    continuation and delete nothing outside the tenant. *)

From stdpp Require Import base gmap strings list pretty.
From Stdlib Require Import Ascii ZArith Lia.
From S2P Require Import Prelude GoStrings GoJson Tenancy Store StoreLoops StoreIsolation StoreOps Crypto CryptoProofs Blob ControlPlane Erasure.

Open Scope Z_scope.

(** ** [PathEscape] is injective and hides the separator *)
Definition esc (a : ascii) : bytes :=
  if url_unreserved a || existsb (Ascii.eqb a) (to_bytes "$&+:=@") then [a] else percent a.

Definition hex_val (a : ascii) : N :=
  if (byte_val a <? 58)%N then (byte_val a - 48)%N else (byte_val a - 55)%N.

Lemma percent_decode a :
  ascii_of_N (16 * hex_val (upper_hex (byte_val a / 16)) + hex_val (upper_hex (byte_val a mod 16))) = a.
Proof. by destruct a as [[] [] [] [] [] [] [] []]. Qed.

Lemma esc_not_percent a : esc a = [a] → a ≠ "%"%char.
Proof. by intros H ->. Qed.

Lemma esc_cases a : esc a = [a] ∨ esc a = percent a.
Proof. unfold esc. destruct (_ || _); auto. Qed.

Lemma esc_no_slash a : "/"%char ∉ esc a.
Proof.
  assert (H : forallb (λ b, negb (Ascii.eqb "/" b)) (esc a) = true)
    by (by destruct a as [[] [] [] [] [] [] [] []]).
  rewrite List.forallb_forall in H. intros Hin%list_elem_of_In. by apply H in Hin.
Qed.

Lemma esc_app_inj a b x y : esc a ++ x = esc b ++ y → a = b ∧ x = y.
Proof.
  pose proof (esc_not_percent a) as Ha. pose proof (esc_not_percent b) as Hb.
  destruct (esc_cases a) as [Ea|Ea], (esc_cases b) as [Eb|Eb]; rewrite Ea, Eb; simpl.
  - by intros [= -> ->].
  - intros [= -> _]. by apply Ha in Ea.
  - intros [= <- _]. by apply Hb in Eb.
  - intros [= H1 H2 ->]. split; [|done].
    rewrite <- (percent_decode a), <- (percent_decode b), H1, H2. done.
Qed.

Lemma PathEscape_bytes s : to_bytes (PathEscape s) = mjoin (esc <$> to_bytes s).
Proof. unfold PathEscape. by rewrite to_of_bytes. Qed.

Lemma mjoin_esc_inj l1 l2 : mjoin (esc <$> l1) = mjoin (esc <$> l2) → l1 = l2.
Proof.
  assert (Hne : ∀ a x, esc a ++ x ≠ []) by (intros a x; destruct (esc_cases a) as [-> | ->]; done).
  revert l2. induction l1 as [|a l1 IH]; intros [|b l2]; simpl; try done.
  - intros H. symmetry in H. by apply Hne in H.
  - intros H. by apply Hne in H.
  - intros [-> H]%esc_app_inj. f_equal. by apply IH.
Qed.

Lemma PathEscape_inj s t : PathEscape s = PathEscape t → s = t.
Proof.
  intros H. apply (f_equal to_bytes) in H. rewrite !PathEscape_bytes in H.
  by apply mjoin_esc_inj, to_bytes_inj in H.
Qed.

Lemma PathEscape_no_query s : "?"%char ∉ to_bytes (PathEscape s).
Proof.
  rewrite PathEscape_bytes. intros (l & Hin & (a & -> & _)%list_elem_of_fmap)%list_elem_of_join.
  assert (H : forallb (λ b, negb (Ascii.eqb "?" b)) (esc a) = true) by (by destruct a as [[] [] [] [] [] [] [] []]).
  rewrite List.forallb_forall in H. apply list_elem_of_In in Hin. by apply H in Hin.
Qed.

Lemma PathEscape_no_slash s : "/"%char ∉ to_bytes (PathEscape s).
Proof.
  rewrite PathEscape_bytes. intros (l & Hin & (a & -> & _)%list_elem_of_fmap)%list_elem_of_join.
  by apply esc_no_slash in Hin.
Qed.

Import memStore.


(** ** The Vespa endpoint

    What the purger relies on.  [vespa_docs v t] are the documents of the
    streaming group [t]; [vespa_ahead v t c] says that a visit that goes on from
    the token [c] meets every document the group still has.  A DELETE on the
    group's URL with a selection deletes documents of that group alone; when
    it is answered without a continuation the visit is over and what it met is
    gone.  Answers are smaller than the purger's read limit. *)
Definition group_url (base : string) (t : TenantID) (kvs : list (string * string)) : string :=
  base +:+ "/document/v1/asker/doc/group/" +:+ PathEscape t +:+ "?" +:+ encode_values kvs.

Definition value_of (k : string) (kvs : list (string * string)) : string :=
  match List.find (λ kv, String.eqb kv.1 k) kvs with Some kv => kv.2 | None => "" end.

Class PurgeLaws (V : Type) `{!VespaHTTP V} (base : string) := {
  vespa_docs : V → TenantID → gset string;
  vespa_ahead : V → TenantID → string → Prop;
  vespa_start v t : vespa_ahead v t "";
  vespa_scoped i t kvs v t' :
    t' ≠ t → vespa_docs (http_delete i (group_url base t kvs) v).2 t' = vespa_docs v t';
  vespa_visit i t kvs v code body :
    (http_delete i (group_url base t kvs) v).1 = Ok (code, body) → 200 <= code <= 299 →
    ("selection", "true") ∈ kvs → vespa_ahead v t (value_of "continuation" kvs) →
    (String.length body <= bodyLimit)%nat ∧
    (json_continuation body = "" → vespa_docs (http_delete i (group_url base t kvs) v).2 t = ∅) ∧
    (json_continuation body ≠ "" → vespa_ahead (http_delete i (group_url base t kvs) v).2 t (json_continuation body))
}.

Section vespa_proofs.
Context {V : Type} `{HV : !VespaHTTP V} (p : httpVespaPurger) `{HVL : !PurgeLaws V (vp_base p)}.

(** The documents of other groups are those of [v0]. *)
Definition groups_kept (t : TenantID) (v0 v : V) : Prop := ∀ t', t' ≠ t → vespa_docs v t' = vespa_docs v0 t'.

Definition purge_values (c : string) : list (string * string) :=
  (if String.eqb (vp_cluster p) "" then [] else [("cluster", vp_cluster p)]) ++
  (if String.eqb c "" then [] else [("continuation", c)]) ++ [("selection", "true")].

Lemma purge_values_continuation c : value_of "continuation" (purge_values c) = c.
Proof using Type.
  unfold purge_values, value_of. destruct (String.eqb (vp_cluster p) ""); cbn; destruct (String.eqb_spec c "") as [->|]; done.
Qed.

Lemma purge_values_selection c : ("selection", "true") ∈ purge_values c.
Proof using Type. unfold purge_values. rewrite !elem_of_app. right. right. by left. Qed.

Lemma doDelete_ok t c i v : vespa_ahead v t c →
  groups_kept t v (doDelete (purge_url p t c) i v).2 ∧
  match (doDelete (purge_url p t c) i v).1 with
  | Ok next => let v' := (doDelete (purge_url p t c) i v).2 in
               (next = "" → vespa_docs v' t = ∅) ∧ (next ≠ "" → vespa_ahead v' t next)
  | Err _ => True
  end.
Proof using Type.
  intros Ha. unfold doDelete.
  pose proof (vespa_scoped i t (purge_values c) v) as Hs. pose proof (vespa_visit i t (purge_values c) v) as Hv.
  change (group_url (vp_base p) t (purge_values c)) with (purge_url p t c) in Hs, Hv.
  destruct (http_delete i (purge_url p t c) v) as [[[code body]|e] v']; cbn [fst snd] in *; [|by split; [intros t'; apply Hs|]].
  split; [intros t'; apply Hs|]. destruct ((code <? 200) || (299 <? code)) eqn:Ec; [done|].
  destruct (Hv code body eq_refl) as (Hb & H0 & H1); [lia|apply purge_values_selection|by rewrite purge_values_continuation|].
  rewrite take_str_all by done. by split.
Qed.

Lemma purge_rounds_ok n t c v0 :
  hoare (λ v, groups_kept t v0 v ∧ vespa_ahead v t c) (purge_rounds p n t c)
    (λ r v, groups_kept t v0 v ∧ (r = Ok tt → vespa_docs v t = ∅)).
Proof using Type.
  revert c. induction n as [|n IH]; intros c; cbn [purge_rounds]; [apply hoare_ret; by intros v [? _]|].
  eapply hoare_atomic with (R := λ _ v, groups_kept t v0 v ∧ vespa_ahead v t c); [by intros|].
  intros [e|]; [apply hoare_ret; by intros v [? _]|].
  eapply hoare_atomic with (R := λ r v, groups_kept t v0 v ∧
    match r with Ok next => (next = "" → vespa_docs v t = ∅) ∧ (next ≠ "" → vespa_ahead v t next) | Err _ => True end).
  - intros i v [Hk Ha]. destruct (doDelete_ok t c i v Ha) as [Hg Hr]. split; [|exact Hr].
    intros t' Hne. rewrite Hg by done. by apply Hk.
  - intros [next|e]; [|apply hoare_ret; by intros v [? _]]. destruct (String.eqb_spec next "") as [->|Hne].
    + apply hoare_ret. intros v (Hk & H0 & _). split; auto.
    + eapply hoare_weaken; [|apply IH]. intros v (Hk & _ & H1). auto.
Qed.

Lemma PurgeGroup_ok t v0 : t ≠ "" →
  hoare (λ v, v = v0) (PurgeGroup p t) (λ r v, groups_kept t v0 v ∧ (r = Ok tt → vespa_docs v t = ∅)).
Proof using Type.
  intros Ht. unfold PurgeGroup. rewrite (proj2 (String.eqb_neq t "")) by done.
  eapply hoare_weaken; [|apply purge_rounds_ok]. intros v ->. split; [done|apply vespa_start].
Qed.
End vespa_proofs.

(** ** Redis patterns *)

(** What the purger relies on: SCAN returns keys that match the pattern, and
    from cursor 0 back to 0 it returns every matching key that stays
    ([redis_due r pat c k]: the scan has yet to return [k] at cursor [c]); DEL
    removes exactly the given keys; and a glob whose literal part has no
    metacharacter matches exactly that text, or that prefix before a final
    star. *)
Class RedisLaws (R : Type) `{!RedisAPI R} := {
  redis_keys : R → gset string;
  redis_match : string → string → bool;
  redis_due : R → string → Z → string → Prop;
  redis_scan_sound i c pat r ks n :
    redis_scan i c pat r = Ok (ks, n) → ∀ k, k ∈ ks → redis_match pat k = true;
  redis_scan_start r pat k : k ∈ redis_keys r → redis_match pat k = true → redis_due r pat 0 k;
  redis_scan_all i c pat r ks n k :
    redis_scan i c pat r = Ok (ks, n) → k ∈ redis_keys r → redis_due r pat c k → k ∈ ks ∨ n ≠ 0 ∧ redis_due r pat n k;
  redis_del_only i ks r k :
    k ∈ redis_keys r → k ∉ ks → k ∈ redis_keys (redis_del i ks r).2;
  redis_del_gone i ks r k : (redis_del i ks r).1 = Ok tt → k ∈ ks → k ∉ redis_keys (redis_del i ks r).2;
  redis_del_less i ks r k : k ∈ redis_keys (redis_del i ks r).2 → k ∈ redis_keys r;
  redis_del_due i ks r pat c k : redis_due r pat c k → redis_due (redis_del i ks r).2 pat c k;
  redis_match_literal lit k :
    str_forallb (λ a, negb (existsb (Ascii.eqb a) (to_bytes "*?[]\"))) lit = true →
    redis_match lit k = true ↔ k = lit;
  redis_match_prefix lit k :
    str_forallb (λ a, negb (existsb (Ascii.eqb a) (to_bytes "*?[]\"))) lit = true →
    redis_match (lit +:+ "*") k = true ↔ HasPrefix k lit = true
}.

Section redis_proofs.
Context {R : Type} `{HR : !RedisAPI R} `{HRL : !RedisLaws R}.

(** The keys of a tenant. *)
Definition redis_owned (t : TenantID) (k : string) : Prop :=
  HasPrefix k ("q:" +:+ t +:+ ":") = true ∨ HasPrefix k ("rl:" +:+ t +:+ ":") = true ∨
  k = "asker:pref:" +:+ t ∨ k = "asker:weights:" +:+ t ∨ k = "asker:recent:" +:+ t.

#[export] Instance redis_owned_dec t k : Decision (redis_owned t k).
Proof using Type. unfold redis_owned. apply _. Defined.

Definition kept_but (P : string → Prop) (r0 r : R) : Prop :=
  ∀ k, k ∈ redis_keys r0 → ¬ P k → k ∈ redis_keys r.

Lemma scanDel_scoped (P : string → Prop) r0 fuel pat c :
  (∀ k, redis_match pat k = true → P k) →
  hoare (kept_but P r0) (scanDel fuel pat c) (λ _, kept_but P r0).
Proof using Type.
  intros HP. revert c. induction fuel as [|fuel IH]; intros c; simpl; [by apply hoare_ret|].
  eapply hoare_atomic with (R := λ res r, kept_but P r0 r ∧
    match res with Ok (ks, _) => ∀ k, k ∈ ks → P k | Err _ => True end).
  { intros i r Hr. simpl. split; [done|].
    destruct (redis_scan i c pat r) as [[ks n]|] eqn:E; [|done].
    intros k Hk. apply HP. by eapply redis_scan_sound. }
  intros [[ks next]|e]; [|apply hoare_ret; by intros w [? _]].
  assert (Hgo : hoare (kept_but P r0) (if next =? 0 then Ret (Ok tt) else scanDel fuel pat next)
    (λ _, kept_but P r0)) by (destruct (next =? 0); [by apply hoare_ret|apply IH]).
  case_bool_decide; [eapply hoare_weaken; [|exact Hgo]; by intros w [? _]|].
  intros ins r [Hr Hks]. revert ins r Hr.
  change (hoare (kept_but P r0) (Atomic _ (λ i r, redis_del i ks r) (λ res,
    match res with
    | Err e => Ret (Err (PE_Other ("redis purge del: " +:+ e)))
    | Ok _ => if next =? 0 then Ret (Ok tt) else scanDel fuel pat next
    end)) (λ _, kept_but P r0)).
  eapply hoare_atomic with (R := λ _, kept_but P r0).
  - intros i r Hr k Hk HnP. apply redis_del_only; [by apply Hr|]. intros Hin. by apply HnP, Hks.
  - intros [[]|e]; [exact Hgo|by apply hoare_ret].
Qed.

Lemma str_forallb_impl (f g : ascii → bool) s :
  (∀ a, f a = true → g a = true) → str_forallb f s = true → str_forallb g s = true.
Proof using Type.
  unfold str_forallb. rewrite !forallb_forall. intros Hfg H a Ha. auto.
Qed.

Lemma tenant_no_glob t :
  validTenant t = true →
  str_forallb (λ a, negb (existsb (Ascii.eqb a) (to_bytes "*?[]\"))) t = true.
Proof using Type.
  intros Hv. apply validTenant_pattern in Hv. unfold tenantPattern in Hv.
  rewrite !andb_true_iff in Hv. destruct Hv as [_ Hv].
  eapply str_forallb_impl; [|exact Hv]. intros a Ha.
  destruct (existsb (Ascii.eqb a) (to_bytes "*?[]\")) eqn:E; [|done].
  apply existsb_exists in E as (b & Hb & ->%Ascii.eqb_eq).
  unfold to_bytes in Hb. simpl in Hb.
  repeat (destruct Hb as [<-|Hb]; [vm_compute in Ha; discriminate Ha|]). by destruct Hb.
Qed.

(** The patterns match the keys of the tenant and nothing else. *)
Lemma redis_patterns_owned t k :
  validTenant t = true → (∃ pat, pat ∈ redis_patterns t ∧ redis_match pat k = true) ↔ redis_owned t k.
Proof using Type.
  intros Hv. pose proof (tenant_no_glob t Hv) as Hg.
  assert (Hp : ∀ a, str_forallb (λ a, negb (existsb (Ascii.eqb a) (to_bytes "*?[]\"))) a = true →
    redis_match (a +:+ t +:+ ":*") k = true ↔ HasPrefix k (a +:+ t +:+ ":") = true).
  { intros a Ha. replace (a +:+ t +:+ ":*") with ((a +:+ t +:+ ":") +:+ "*") by (rewrite !str_app_assoc; done).
    apply redis_match_prefix. by rewrite !str_forallb_app, Ha, Hg. }
  assert (Hl : ∀ a, str_forallb (λ a, negb (existsb (Ascii.eqb a) (to_bytes "*?[]\"))) a = true →
    redis_match (a +:+ t) k = true ↔ k = a +:+ t).
  { intros a Ha. apply redis_match_literal. by rewrite str_forallb_app, Ha, Hg. }
  unfold redis_owned, redis_patterns. rewrite <- !Hp, <- !Hl by done. setoid_rewrite elem_of_cons. setoid_rewrite elem_of_cons.
  setoid_rewrite elem_of_cons. setoid_rewrite elem_of_cons. setoid_rewrite list_elem_of_singleton. split.
  - intros (pat & Hin & Hm). destruct Hin as [->|[->|[->|[->| ->]]]]; tauto.
  - intros [Hm|[Hm|[Hm|[Hm|Hm]]]]; (eexists; split; [|exact Hm]); tauto.
Qed.

Lemma redis_purge_kept fuel t r0 :
  validTenant t = true →
  hoare (λ r, r = r0) (redis_PurgeTenant fuel t) (λ _, kept_but (redis_owned t) r0).
Proof using Type.
  intros Hv. unfold redis_PurgeTenant. rewrite (proj2 (String.eqb_neq t "")) by eauto with asker.
  eapply hoare_weaken with (P' := kept_but (redis_owned t) r0); [by intros r -> k Hk _|].
  assert (Hall : ∀ pat, pat ∈ redis_patterns t → ∀ k, redis_match pat k = true → redis_owned t k).
  { intros pat Hp k Hm. apply (redis_patterns_owned t k Hv). eauto. }
  revert Hall. generalize (redis_patterns t) as pats.
  induction pats as [|pat pats IH]; intros Hall; simpl; [by apply hoare_ret|].
  eapply hoare_bind with (R := λ _, kept_but (redis_owned t) r0).
  - apply scanDel_scoped. apply Hall. left.
  - intros [[]|e]; [|by apply hoare_ret]. apply IH. intros p Hp. apply Hall. by right.
Qed.

(** No key satisfies [P]. *)
Definition absent (P : string → Prop) (r : R) : Prop := ∀ k, k ∈ redis_keys r → ¬ P k.

Lemma scanDel_gone (P : string → Prop) fuel pat c :
  hoare (λ r, absent P r ∧ ∀ k, k ∈ redis_keys r → redis_match pat k = true → redis_due r pat c k) (scanDel fuel pat c)
    (λ res r, absent P r ∧ (res = Ok tt → absent (λ k, redis_match pat k = true) r)).
Proof using Type.
  revert c. induction fuel as [|fuel IH]; intros c; cbn [scanDel]; [apply hoare_ret; by intros r [? _]|].
  eapply hoare_atomic with (R := λ res r, absent P r ∧
    match res with
    | Ok (ks, n) => ∀ k, k ∈ redis_keys r → redis_match pat k = true → k ∈ ks ∨ n ≠ 0 ∧ redis_due r pat n k
    | Err _ => True
    end).
  { intros i r [Hp Hd]. cbn. split; [done|]. destruct (redis_scan i c pat r) as [[ks n]|] eqn:E; [|done].
    intros k Hk Hm. eapply redis_scan_all; eauto. }
  intros [[ks next]|e]; [|apply hoare_ret; by intros r [? _]].
  assert (Hgo : hoare (λ r, absent P r ∧ ∀ k, k ∈ redis_keys r → redis_match pat k = true → next ≠ 0 ∧ redis_due r pat next k)
    (if next =? 0 then Ret (Ok tt) else scanDel fuel pat next) (λ res r, absent P r ∧ (res = Ok tt → absent (λ k, redis_match pat k = true) r))).
  { destruct (Z.eqb_spec next 0) as [->|Hne].
    - apply hoare_ret. intros r [Hp Hd]. split; [done|]. intros _ k Hk Hm. by destruct (Hd k Hk Hm).
    - eapply hoare_weaken; [|apply IH]. intros r [Hp Hd]. split; [done|]. intros k Hk Hm. by apply Hd. }
  case_bool_decide as Hks.
  - eapply hoare_weaken; [|exact Hgo]. intros r [Hp Hd]. split; [done|]. intros k Hk Hm. destruct (Hd k Hk Hm) as [Hin|?]; [|done].
    rewrite Hks in Hin. by apply not_elem_of_nil in Hin.
  - eapply hoare_atomic with (R := λ res r, absent P r ∧
      (res = Ok tt → ∀ k, k ∈ redis_keys r → redis_match pat k = true → next ≠ 0 ∧ redis_due r pat next k)).
    + intros i r [Hp Hd]. split; [intros k Hk%redis_del_less; by apply Hp|]. intros Hok k Hk Hm.
      pose proof (redis_del_less i ks r k Hk) as Hk'. destruct (Hd k Hk' Hm) as [Hin|[? ?]]; [|split; [done|by apply redis_del_due]].
      by destruct (redis_del_gone i ks r k Hok Hin).
    + intros [[]|e]; [|apply hoare_ret; by intros r [? _]]. eapply hoare_weaken; [|exact Hgo]. intros r [Hp Hd]. auto.
Qed.

Lemma scan_all_gone (P : string → Prop) fuel pats :
  hoare (absent P) (scan_all fuel pats)
    (λ res r, absent P r ∧ (res = Ok tt → ∀ pat, pat ∈ pats → absent (λ k, redis_match pat k = true) r)).
Proof using Type.
  revert P. induction pats as [|pat pats IH]; intros P; cbn [scan_all].
  { apply hoare_ret. intros r Hr. split; [done|]. by intros _ pat ?%not_elem_of_nil. }
  eapply hoare_bind.
  { eapply hoare_weaken; [|apply (scanDel_gone P)]. intros r Hr. split; [done|]. intros k. apply redis_scan_start. }
  intros [[]|e]; [|apply hoare_ret; by intros r [? _]].
  eapply hoare_weaken with (P' := absent (λ k, P k ∨ redis_match pat k = true)).
  { intros r [Hr Hm] k Hk [HP|HP]; [by apply (Hr k)|by apply (Hm eq_refl k)]. }
  intros ins r Hr. destruct (IH _ ins r Hr) as [Ha Hall]. split.
  - intros k Hk HP. by apply (Ha k Hk); left.
  - intros Hok q [->|Hq]%elem_of_cons; [|by apply Hall]. intros k Hk HP. by apply (Ha k Hk); right.
Qed.

(** A purge that reports no error leaves no key of the tenant. *)
Lemma redis_purge_gone fuel t : validTenant t = true →
  hoare (λ _, True) (redis_PurgeTenant fuel t) (λ res r, res = Ok tt → absent (redis_owned t) r).
Proof using Type.
  intros Hv. unfold redis_PurgeTenant. rewrite (proj2 (String.eqb_neq t "")) by eauto with asker.
  intros ins r _. destruct (scan_all_gone (λ _, False) fuel (redis_patterns t) ins r) as [_ Hall]; [by intros k _ []|].
  intros Hok k Hk Ho. apply (redis_patterns_owned t k Hv) in Ho as (pat & Hp & Hm). by apply (Hall Hok pat Hp k Hk).
Qed.

Lemma redis_purge_less fuel t r0 : hoare (λ r, r = r0) (redis_PurgeTenant fuel t) (λ _ r, ∀ k, k ∈ redis_keys r → k ∈ redis_keys r0).
Proof using Type.
  unfold redis_PurgeTenant. destruct (String.eqb t ""); [by apply hoare_ret; intros r ->|].
  eapply hoare_weaken with (P' := absent (λ k, k ∉ redis_keys r0)); [by intros r -> k Hk Hn|].
  intros ins r Hr. destruct (scan_all_gone _ fuel (redis_patterns t) ins r Hr) as [Ha _].
  intros k Hk. destruct (decide (k ∈ redis_keys r0)) as [|Hn]; [done|]. by destruct (Ha k Hk).
Qed.

(** Keys of distinct valid tenants are distinct. *)
Lemma redis_owned_unique t1 t2 k :
  validTenant t1 = true → validTenant t2 = true → redis_owned t1 k → redis_owned t2 k → t1 = t2.
Proof using Type.
  intros H1 H2 O1 O2.
  assert (Hsep : ∀ a, validTenant a = true → ":"%char ∉ to_bytes a).
  { intros a Ha. by eapply validTenant_no_byte. }
  assert (Hcut : ∀ p r1 r2, p +:+ t1 +:+ ":" +:+ r1 = p +:+ t2 +:+ ":" +:+ r2 → t1 = t2).
  { intros p r1 r2 E%str_app_inj_l. apply (f_equal to_bytes) in E. rewrite !to_bytes_app in E.
    apply sep_unique in E as [E _]; [by apply to_bytes_inj|by apply Hsep..]. }
  unfold redis_owned in *. rewrite !HasPrefix_spec in *. setoid_rewrite str_app_assoc in O1.
  setoid_rewrite str_app_assoc in O2.
  assert (Happ : ∀ a b c : string, (a +:+ b) +:+ c = a +:+ b +:+ c) by (intros; by rewrite str_app_assoc).
  setoid_rewrite Happ in O1. setoid_rewrite Happ in O2.
  destruct O1 as [[r1 ->]|[[r1 ->]|[->|[->| ->]]]];
    destruct O2 as [[r2 E]|[[r2 E]|[E|[E|E]]]]; try discriminate E;
    try (by eapply Hcut); by apply str_app_inj_l in E.
Qed.
End redis_proofs.

(** ** The Vespa loop, against a scripted endpoint

    The endpoint answers request number [n] with [script n] and logs the URLs
    it was asked. *)
Section scripted.
Context (script : nat → result string (Z * string)) (cont : string → string).

Abbreviation Endpoint := (list string).

#[local] Instance scripted_vespa : VespaHTTP Endpoint := {|
  http_delete _ url log := (script (length log), log ++ [url]);
  json_continuation := cont
|}.

(** What the purger does with an answer: an error, the end, or go on with a
    continuation. *)
Definition verdict (r : result string (Z * string)) : result unit string :=
  match r with
  | Err _ => Err tt
  | Ok (code, body) =>
    if (code <? 200) || (299 <? code) then Err tt else Ok (cont (take_str bodyLimit body))
  end.

(** The continuation sent with request [n]: the one answer [n-1] carried. *)
Definition sent (n : nat) : string :=
  match n with O => "" | S m => match verdict (script m) with Ok c => c | Err _ => "" end end.

Definition goes_on (n : nat) : Prop :=
  match verdict (script n) with Ok c => c ≠ "" | Err _ => False end.

Lemma doDelete_verdict url i (log : Endpoint) :
  (doDelete url i log).2 = log ++ [url] ∧
  match (doDelete url i log).1 with
  | Ok c => verdict (script (length log)) = Ok c
  | Err _ => verdict (script (length log)) = Err tt
  end.
Proof using Type.
  unfold doDelete, verdict. cbn [http_delete scripted_vespa fst snd].
  destruct (script (length log)) as [[code body]|e]; [|split; reflexivity].
  destruct (_ || _); split; reflexivity.
Qed.

Lemma purge_rounds_spec p t k n ins :
  (∀ j, in_ctx (ins j) = None) →
  let log0 := purge_url p t ∘ sent <$> seq 0 n in
  let '(r, log) := run (purge_rounds p k t (sent n)) ins log0 in
  ∃ m, log = (purge_url p t ∘ sent <$> seq 0 m) ∧ (n ≤ m ≤ n + k)%nat ∧
    (∀ j, (n ≤ j)%nat → (j < m)%nat → S j ≠ m → goes_on j) ∧
    match r with
    | Ok _ => (n < m)%nat ∧ verdict (script (m - 1)) = Ok ""
    | Err _ => (n < m ∧ verdict (script (m - 1)) = Err tt)%nat ∨
               (m = n + k ∧ ∀ j, n ≤ j < m → goes_on j)%nat
    end.
Proof using Type.
  revert n ins. induction k as [|k IH]; intros n ins Hins log0; cbn [purge_rounds run].
  { exists n. split_and!; try done; try lia. right. split; [lia|]. intros; lia. }
  unfold input. rewrite Hins. cbn [run].
  pose proof (doDelete_verdict (purge_url p t (sent n)) (ins 1%nat) log0) as [Hlog Hv].
  assert (Hlen : length log0 = n) by (unfold log0; by rewrite length_fmap, length_seq).
  assert (Hlog' : log0 ++ [purge_url p t (sent n)] = (purge_url p t ∘ sent <$> seq 0 (S n))).
  { unfold log0. rewrite seq_S, fmap_app. done. }
  rewrite Hlen in Hv. rewrite Hlog' in Hlog.
  destruct (doDelete _ _ _) as [[next|e] log1]; cbn [fst snd] in Hlog, Hv; subst log1.
  2: { exists (S n). replace (S n - 1)%nat with n by lia.
       split_and!; try done; try lia. left. split; [lia|done]. }
  destruct (String.eqb_spec next "") as [->|Hne]; cbn [run].
  { exists (S n). replace (S n - 1)%nat with n by lia. split_and!; try done; try lia. }
  assert (Hsent : next = sent (S n)) by (simpl; by rewrite Hv).
  assert (Hgo : goes_on n) by (unfold goes_on; by rewrite Hv).
  rewrite Hsent. specialize (IH (S n) (λ m, ins (S (S m))) (λ m, Hins (S (S m)))). cbn zeta in IH.
  destruct (run (purge_rounds p k t (sent (S n))) (λ m, ins (S (S m)))
    (purge_url p t ∘ sent <$> seq 0 (S n))) as [r log].
  destruct IH as (m & -> & Hm & Hgo' & Hr).
  exists m. split_and!; try done; try lia.
  - intros j Hj1 Hj2 Hj3. destruct (decide (j = n)) as [->|]; [done|]. apply Hgo'; lia.
  - destruct r as [[]|e]; [destruct Hr; split; [lia|done]|].
    destruct Hr as [[? ?]|[? Hall]]; [left; split; [lia|done]|right].
    split; [lia|]. intros j Hj. destruct (decide (j = n)) as [->|]; [done|]. apply Hall. lia.
Qed.
End scripted.

(** ** The cascade *)
Section cascade_proofs.
Context `{HG : !GCM} `{HDe : !Deps} {OB : Type} `{HO : !objectAPI OB} `{HOL : !objectAPILaws OB}
  {V : Type} `{HV : !VespaHTTP V} {R : Type} `{HR : !RedisAPI R} `{HRL : !RedisLaws R}.
Context (cfg : serverConfig) (bucket : string) (vespa : httpVespaPurger) `{HVL : !PurgeLaws V (vp_base vespa)} (scan_fuel : nat).

Abbreviation W := (World memStore memDEKStore OB V R).

(** Nothing of another tenant has changed since [w0]: no row, no key, no blob,
    no document of the index and no Redis key. *)
Definition others_kept (t : TenantID) (w0 w : W) : Prop :=
  (∀ t', t' ≠ t → restrict t' (w_store w) = restrict t' (w_store w0)) ∧
  (∀ t', t' ≠ t → aeads (w_cipher w) !! t' = aeads (w_cipher w0) !! t') ∧
  (∀ t', t' ≠ t → store (w_cipher w) !! t' = store (w_cipher w0) !! t') ∧
  (∀ t' key, validTenant t' = true → t' ≠ t →
     obj_view (w_objects w) !! (bucket, object_key t' key)
     = obj_view (w_objects w0) !! (bucket, object_key t' key)) ∧
  groups_kept vespa t (w_vespa w0) (w_vespa w) ∧
  (∀ k, ¬ redis_owned t k → k ∈ redis_keys (w_redis w) ↔ k ∈ redis_keys (w_redis w0)).

(** No instance of the tenant can be scheduled. *)
Definition fenced (t : TenantID) (m : memStore) : Prop :=
  ∀ id inst, instances m !! id = Some inst → ci_tenant inst = t → ci_status inst = "PAUSED".

Definition shredded (t : TenantID) (w : W) : Prop :=
  aeads (w_cipher w) !! t = None ∧ (cfg_dek cfg = true → store (w_cipher w) !! t = None).

Definition erased (t : TenantID) (m : memStore) : Prop := restrict t m = newMemStore.

Definition no_blobs (t : TenantID) (w : W) : Prop :=
  cfg_blobs cfg = true → ∀ key, obj_view (w_objects w) !! (bucket, object_key t key) = None.

Definition no_docs (t : TenantID) (w : W) : Prop := cfg_vespa cfg = true → vespa_docs (w_vespa w) t = ∅.

(** What the report counts. *)
Definition tokens_of (t : TenantID) (w : W) : Z :=
  Z.of_nat (size (base.filter (λ kv, tok_tenant kv.2 = t) (tokens (w_store w)))).
Definition blobs_of (t : TenantID) (w : W) : Z :=
  Z.of_nat (size (base.filter (λ e, e.1.1 = bucket ∧ HasPrefix e.1.2 (t +:+ "/") = true) (obj_view (w_objects w)))).

(** The invariant of the steps after the fence. *)
Definition fenced_inv (t : TenantID) (w0 w : W) : Prop :=
  WF (w_store w) ∧ others_kept t w0 w ∧ fenced t (w_store w).

Definition cascade_post (t : TenantID) (actor : string) (w0 : W) (r : result Status DeleteReport)
    (w : W) : Prop :=
  WF (w_store w) ∧ others_kept t w0 w ∧
  match r with
  | Err st => w = w0 ∨ fenced t (w_store w)
  | Ok rep =>
    erased t (w_store w) ∧ shredded t w ∧ no_docs t w ∧ no_blobs t w ∧
    (rep_redis rep = true → ∀ k, redis_owned t k → k ∉ redis_keys (w_redis w)) ∧
    (rep_redis rep = true → cfg_cache cfg = true) ∧
    rep = mkReport t actor (countOwned t (instances (w_store w0))) (tokens_of t w0) (cfg_dek cfg) (cfg_vespa cfg)
      (if cfg_blobs cfg then blobs_of t w0 else 0) (rep_redis rep) (negb (cfg_cache cfg) || rep_redis rep)
  end.

Lemma others_kept_refl t w : others_kept t w w.
Proof using Type. done. Qed.

Lemma fenced_suspended t env m :
  fenced t (set_instances (suspended_instances env t "PAUSED") m).
Proof using Type.
  intros id inst. simpl. rewrite lookup_suspended. intros (i & Hi & ->)%fmap_Some.
  unfold status_of. case_decide as Hd; simpl; [done|]. intros Ht.
  destruct (decide (ci_status i = "PAUSED")); [done|]. naive_solver.
Qed.

Lemma purged_erased t m : WF m → erased t (purged t m).
Proof using Type.
  intros Hwf. pose proof (purged_WF t m Hwf) as Hwf'.
  assert (Hno : ∀ i x, instances (purged t m) !! i = Some x → ¬ owned t (i, x)).
  { apply (proj1 (countZ_zero (owned t) _)). rewrite <- countOwned_countZ. apply countOwned_purged. }
  unfold erased, restrict, newMemStore. apply store_eq; simpl; apply map_empty; intros i;
    apply map_lookup_filter_None; right; simpl; intros x Hx; try (intros ->; by rewrite lookup_delete_eq in Hx).
  - by apply Hno.
  - intros Ht. destruct (wf_sync _ Hwf' i x Hx) as (_ & j & Hj & Hjt).
    apply (Hno i j Hj). unfold owned. simpl. congruence.
  - intros Ht. destruct (wf_tok _ Hwf' i x Hx) as (j & Hj & Hjt).
    apply (Hno i j Hj). unfold owned. simpl. congruence.
Qed.

Lemma erased_fenced t m : erased t m → fenced t m.
Proof using Type.
  intros He id inst Hi Ht. apply (f_equal instances) in He. simpl in He.
  assert (Hl : base.filter (owned t) (instances m) !! id = Some inst)
    by (apply map_lookup_filter_Some; done).
  by rewrite He, lookup_empty in Hl.
Qed.

Lemma erased_tokens t w : erased t (w_store w) → tokens_of t w = 0.
Proof using Type.
  intros He. apply (f_equal tokens) in He. unfold tokens_of. simpl in He. rewrite He. done.
Qed.

Lemma no_blobs_count t w : (∀ key, obj_view (w_objects w) !! (bucket, object_key t key) = None) → blobs_of t w = 0.
Proof using Type.
  intros Hb. unfold blobs_of. replace (base.filter _ _) with (∅ : gmap (string * string) (string * bytes)); [done|].
  symmetry. apply map_empty. intros [b k]. apply map_lookup_filter_None. right. intros x Hx [Hbk (k' & Hk)%HasPrefix_spec]. cbn in Hbk, Hk. subst b.
  rewrite Hk in Hx. specialize (Hb k'). unfold object_key in Hb. rewrite str_app_assoc in Hx. by rewrite Hb in Hx.
Qed.

Lemma SetStatus_frame env ctx t s m :
  WF m → WF (SetTenantConnectorStatus env ctx t s m).2 ∧
  ∀ t', t' ≠ t → restrict t' (SetTenantConnectorStatus env ctx t s m).2 = restrict t' m.
Proof using Type.
  intros Hwf. split.
  - by apply (exec_WF (mkCall t ctx env (OpSetStatus s))).
  - intros t' Hne. apply (exec_frame (mkCall t ctx env (OpSetStatus s)) t' m); done.
Qed.

Lemma others_kept_store t w0 w s :
  others_kept t w0 w → (∀ t', t' ≠ t → restrict t' s = restrict t' (w_store w)) →
  others_kept t w0 (set_store s w).
Proof using Type.
  intros (H1 & H2 & H3 & H4 & H5 & H6) Hs. split_and!; try done. intros t' Hne. simpl.
  rewrite Hs by done. by apply H1.
Qed.

(** What holds after each step; [A_n] for step [n]. *)
Definition A0 (t : TenantID) (w0 w : W) : Prop :=
  fenced_inv t w0 w ∧ w_objects w = w_objects w0 ∧ tokens_of t w = tokens_of t w0 ∧
  countOwned t (instances (w_store w)) = countOwned t (instances (w_store w0)).

Definition A1 (t : TenantID) (w0 w : W) : Prop := A0 t w0 w ∧ shredded t w.

Definition A2 (t : TenantID) (w0 w : W) : Prop :=
  WF (w_store w) ∧ others_kept t w0 w ∧ erased t (w_store w) ∧ shredded t w.

Definition A2o (t : TenantID) (w0 w : W) : Prop := A2 t w0 w ∧ w_objects w = w_objects w0.

Definition A3 (t : TenantID) (w0 w : W) : Prop := A2 t w0 w ∧ no_docs t w ∧ no_blobs t w.

Lemma step_fence_ok ctx t w0 actor (k : prog W (result Status DeleteReport)) :
  WF (w_store w0) →
  hoare (A0 t w0) k (cascade_post t actor w0) →
  hoare (λ w, w = w0) (step_fence ctx t k) (cascade_post t actor w0).
Proof using Type.
  intros Hwf Hk. eapply hoare_atomic with
    (R := λ r w, match r with Err _ => w = w0 | Ok _ => A0 t w0 w end).
  - intros i w ->. unfold on_store. simpl.
    destruct (SetStatus_frame (in_env i) (at_ctx ctx i) t "PAUSED" (w_store w0) Hwf) as [Hwf' Hfr].
    destruct (in_ctx i) as [e|] eqn:Hi.
    { unfold SetTenantConnectorStatus, guarded, at_ctx. simpl. rewrite Hi. simpl. by destruct w0. }
    rewrite SetTenantConnectorStatus_spec in * by done. simpl in *.
    split_and!; [|done|done|apply countOwned_suspended]. split; [done|]. split; [|apply fenced_suspended].
    apply others_kept_store; [apply others_kept_refl|done].
  - intros [n|e]; [done|]. apply hoare_ret. intros w ->. split; [done|]. split; [done|by left].
Qed.

Lemma step_shred_ok t w0 actor (k : bool → prog W (result Status DeleteReport)) :
  hoare (A1 t w0) (k (cfg_dek cfg)) (cascade_post t actor w0) →
  hoare (A0 t w0) (step_shred cfg t k) (cascade_post t actor w0).
Proof using Type.
  intros Hk. unfold step_shred.
  assert (Hforget : hoare (λ w, A0 t w0 w ∧ (cfg_dek cfg = true → store (w_cipher w) !! t = None))
    (Atomic _ (forget t) (λ _, k (cfg_dek cfg))) (cascade_post t actor w0)).
  { eapply hoare_atomic with (R := λ _, A1 t w0); [|done].
    intros i w [[(Hwf & (H1 & H2 & H3 & H4 & H5 & H6) & Hf) Hc] Hd]. simpl. split.
    - split; [|done]. unfold fenced_inv, others_kept. simpl. split_and!; try done.
      intros t' Hne. rewrite lookup_delete_ne by done. auto.
    - split; simpl; [apply lookup_delete_eq|done]. }
  destruct (cfg_dek cfg) eqn:Ecfg.
  - eapply hoare_atomic with (R := λ r w, match r with Err _ => A0 t w0 w
      | Ok _ => A0 t w0 w ∧ (true = true → store (w_cipher w) !! t = None) end).
    + intros i w [(Hwf & (H1 & H2 & H3 & H4 & H5 & H6) & Hf) Hc]. unfold on_dek. simpl. unfold mem_Delete.
      assert (Hsame : ∀ d : memDEKStore, (∀ t', t' ≠ t → d !! t' = store (w_cipher w) !! t') →
        A0 t w0 (set_cipher (mkCipher (aeads (w_cipher w)) d) w)).
      { intros d Hd. split; [|done]. unfold fenced_inv, others_kept. simpl. split_and!; try done.
        intros t' Hne. rewrite Hd by done. auto. }
      destruct (in_ctx i); simpl; [by apply Hsame|].
      destruct (String.eqb t ""); simpl; [by apply Hsame|].
      split; [|intros _; simpl; apply lookup_delete_eq].
      apply Hsame. intros t' Hne. by rewrite lookup_delete_ne.
    + intros [[]|e]; [done|]. apply hoare_ret. intros w [(Hwf & Ho & Hf) _].
      split; [done|]. split; [done|by right].
  - eapply hoare_weaken; [|exact Hforget]. intros w Hw. by split.
Qed.

Lemma step_store_ok ctx t w0 actor (k : PurgeCounts → prog W (result Status DeleteReport)) :
  hoare (A2o t w0) (k (mkPurgeCounts (countOwned t (instances (w_store w0))) (tokens_of t w0))) (cascade_post t actor w0) →
  hoare (A1 t w0) (step_store ctx t k) (cascade_post t actor w0).
Proof using Type.
  intros Hk. eapply hoare_atomic with (R := λ r w, match r with
    | Err _ => A1 t w0 w
    | Ok counts => counts = mkPurgeCounts (countOwned t (instances (w_store w0))) (tokens_of t w0) ∧ A2o t w0 w end).
  - intros i w [[(Hwf & Ho & Hf) (Hob & Htk & Hc)] Hs]. unfold on_store. simpl.
    destruct (in_ctx i) as [e|] eqn:Hi.
    { unfold PurgeTenant, guarded, at_ctx. simpl. rewrite Hi. by destruct w. }
    rewrite PurgeTenant_spec by done. simpl. split; [by rewrite <- Hc, <- Htk, countOwned_countZ, purged_tokens_count|].
    split; [|done]. unfold A2. split_and!; simpl.
    + by apply purged_WF.
    + apply others_kept_store; [done|]. intros t' Hne. by apply purged_frame.
    + by apply purged_erased.
    + done.
  - intros [counts|e].
    + intros ins w [-> Hw]. by apply Hk.
    + apply hoare_ret. intros w [[(Hwf & Ho & Hf) _] _].
      split; [done|]. split; [done|by right].
Qed.

Lemma A2_failed t w0 w actor st : A2 t w0 w → cascade_post t actor w0 (Err st) w.
Proof using Type.
  intros (Hwf & Ho & He & _). split; [done|]. split; [done|]. right. by apply erased_fenced.
Qed.

Lemma step_vespa_ok t w0 actor (k : bool → prog W (result Status DeleteReport)) : t ≠ "" →
  hoare (λ w, A2o t w0 w ∧ no_docs t w) (k (cfg_vespa cfg)) (cascade_post t actor w0) →
  hoare (A2o t w0) (step_vespa cfg vespa t k) (cascade_post t actor w0).
Proof using Type.
  intros Ht Hk. unfold step_vespa. unfold no_docs in Hk. destruct (cfg_vespa cfg) eqn:Ecfg; [|eapply hoare_weaken; [|exact Hk]; by intros w Hw].
  eapply hoare_bind with (R := λ r w, A2o t w0 w ∧ (r = Ok tt → vespa_docs (w_vespa w) t = ∅)).
  - apply hoare_zoom; [by intros []|done|done|]. intros ins w [(Hwf & (H1 & H2 & H3 & H4 & H5 & H6) & He & Hs) Hob].
    destruct (PurgeGroup_ok vespa t (w_vespa w) Ht ins (w_vespa w) eq_refl) as [Hg Hr]. split; [|exact Hr]. split; [|done].
    unfold A2, others_kept. simpl. split_and!; try done. intros t' Hne. rewrite Hg by done. by apply H5.
  - intros [[]|e]; [|apply hoare_ret; intros w [[Hw _] _]; by apply A2_failed].
    eapply hoare_weaken; [|exact Hk]. intros w [Hw Hd]. auto.
Qed.

Lemma step_blobs_ok tc w0 actor (k : Z → prog W (result Status DeleteReport)) :
  validTenant (tenantID tc) = true →
  hoare (A3 (tenantID tc) w0) (k (if cfg_blobs cfg then blobs_of (tenantID tc) w0 else 0)) (cascade_post (tenantID tc) actor w0) →
  hoare (λ w, A2o (tenantID tc) w0 w ∧ no_docs (tenantID tc) w) (step_blobs cfg bucket tc k) (cascade_post (tenantID tc) actor w0).
Proof using HOL.
  intros Hv Hk. unfold step_blobs. destruct (cfg_blobs cfg) eqn:Ecfg.
  - eapply hoare_bind with (R := λ r w, (A2 (tenantID tc) w0 w ∧ no_docs (tenantID tc) w) ∧
      (r.2 = None → no_blobs (tenantID tc) w ∧ r.1 = blobs_of (tenantID tc) w0)).
    + apply hoare_zoom; [by intros []|by intros []|done|].
      intros ins w [[(Hwf & (H1 & H2 & H3 & H4 & H5 & H6) & He & Hs) Hob] Hnd].
      pose proof (DeletePrefix_spec bucket tc ins (w_cipher w, w_objects w) Hv) as Hd.
      destruct (run (DeletePrefix bucket tc) ins (w_cipher w, w_objects w)) as [[n err] w'].
      destruct Hd as (Hc & Hoth & Hall). simpl in *. rewrite Hc. split.
      * split; [|done]. unfold A2, others_kept. simpl. split_and!; try done. intros t' key Hvt Hne.
        rewrite Hoth by done. auto.
      * intros Hn. destruct (Hall Hn) as [Ha ->]. split; [intros _ key; apply Ha|]. by rewrite Hob.
    + intros [n [e|]].
      * apply hoare_ret. intros w [[Hw _] _]. by apply A2_failed.
      * intros ins w [[Hw Hd] Hn]. destruct (Hn eq_refl) as [Hb E]. cbn in E. subst n. apply Hk. by split.
  - eapply hoare_weaken; [|exact Hk]. intros w [[Hw _] Hd]. split; [done|]. split; [done|].
    unfold no_blobs. by rewrite Ecfg.
Qed.

(** After the last purge: [purged] says that Redis was purged. *)
Definition A4 (t : TenantID) (w0 : W) (purged : bool) (w : W) : Prop :=
  A3 t w0 w ∧ (purged = true → cfg_cache cfg = true ∧ ∀ k, redis_owned t k → k ∉ redis_keys (w_redis w)).

Lemma step_redis_ok t w0 actor (k : bool → bool → prog W (result Status DeleteReport)) : validTenant t = true →
  (∀ purged, hoare (A4 t w0 purged) (k purged (negb (negb (cfg_cache cfg) || purged))) (cascade_post t actor w0)) →
  hoare (A3 t w0) (step_redis cfg scan_fuel t k) (cascade_post t actor w0).
Proof using Type.
  intros Hv Hk. unfold step_redis. unfold A4 in Hk. destruct (cfg_cache cfg) eqn:Ecfg.
  - eapply hoare_bind with (R := λ r w, A3 t w0 w ∧ (r = Ok tt → ∀ k, redis_owned t k → k ∉ redis_keys (w_redis w))).
    + apply hoare_zoom; [by intros []|done|done|]. intros ins w [(Hwf & (H1 & H2 & H3 & H4 & H5 & H6) & He & Hs) Hn].
      pose proof (redis_purge_kept scan_fuel t (w_redis w) Hv ins (w_redis w) eq_refl) as Hkept.
      pose proof (redis_purge_less scan_fuel t (w_redis w) ins (w_redis w) eq_refl) as Hless.
      pose proof (redis_purge_gone scan_fuel t Hv ins (w_redis w) I) as Hgone. split.
      * split; [|done]. unfold A2, others_kept. simpl. split_and!; try done. intros k' Hk'. rewrite <- (H6 k' Hk').
        split; [apply Hless|]. intros Hin. by apply Hkept.
      * intros Hok k' Ho Hin. by apply (Hgone Hok k').
    + intros [[]|e].
      * eapply hoare_weaken; [|apply (Hk true)]. intros w [Hw Hr]. split; [done|]. auto.
      * eapply hoare_weaken; [|apply (Hk false)]. intros w [Hw _]. by split.
  - eapply hoare_weaken; [|apply (Hk false)]. intros w Hw. by split.
Qed.

Lemma cascade_ok ctx t actor w0 :
  validTenant t = true → WF (w_store w0) →
  hoare (λ w, w = w0) (cascadeDelete cfg bucket vespa scan_fuel ctx t actor)
    (cascade_post t actor w0).
Proof using HOL HRL HVL.
  intros Hv Hwf. unfold cascadeDelete.
  assert (Hne : t ≠ "") by eauto with asker. rewrite (proj2 (String.eqb_neq t "")) by done.
  unfold FromHeaderValue. rewrite Hv.
  apply step_fence_ok; [done|]. apply step_shred_ok. apply step_store_ok.
  apply step_vespa_ok; [done|]. apply (step_blobs_ok (mkContext t t)); [done|].
  apply step_redis_ok; [done|]. intros purged. simpl tenantID.
  eapply hoare_atomic with (R := λ _, A4 t w0 purged).
  - intros i w Hw. exact Hw.
  - intros [[]|e]; apply hoare_ret; intros w [[Hw [Hnd Hnb]] Hr]; try by apply A2_failed.
    destruct Hw as (Hwf' & Ho & He & Hs). split; [done|]. split; [done|]. simpl. rewrite negb_involutive. split_and!; try done.
    + intros Hp. by apply Hr.
    + intros Hp. by apply Hr.
Qed.
End cascade_proofs.

(** ** Theorems *)

(** C2. The delete cascade: whatever the contexts and the external stores do,
    nothing of any other tenant changes: no row, cached or wrapped key, blob,
    document of the index or Redis key.  If it reports success, no row and no
    cached key of the tenant is left, and where configured no wrapped DEK, no
    document in its Vespa group, no blob and, if the report says that Redis was
    purged, none of its Redis keys; the report counts exactly the instances,
    tokens and blobs there were, says which stores were purged, and withholds
    VerifiedEmpty exactly when a configured Redis was not purged.  If it reports
    an error, either nothing has happened yet or every remaining instance of the
    tenant is PAUSED, so that no new sync is scheduled. *)
Theorem cascade_delete_correct `{!objectAPI OB, !objectAPILaws OB, !VespaHTTP V, !RedisAPI R, !RedisLaws R}
    cfg bucket vespa `{!PurgeLaws V (vp_base vespa)} fuel ctx t actor ins (w0 : World memStore memDEKStore OB V R) :
  validTenant t = true → WF (w_store w0) →
  let '(r, w) := run (cascadeDelete cfg bucket vespa fuel ctx t actor) ins w0 in
  others_kept bucket vespa t w0 w ∧
  match r with
  | Ok rep =>
    restrict t (w_store w) = newMemStore ∧
    aeads (w_cipher w) !! t = None ∧
    (cfg_dek cfg = true → store (w_cipher w) !! t = None) ∧
    (cfg_vespa cfg = true → vespa_docs (w_vespa w) t = ∅) ∧
    (cfg_blobs cfg = true → ∀ key, obj_view (w_objects w) !! (bucket, object_key t key) = None) ∧
    (rep_redis rep = true → ∀ k, redis_owned t k → k ∉ redis_keys (w_redis w)) ∧
    (rep_redis rep = true → cfg_cache cfg = true) ∧
    rep = mkReport t actor (countOwned t (instances (w_store w0))) (tokens_of t w0) (cfg_dek cfg) (cfg_vespa cfg)
      (if cfg_blobs cfg then blobs_of bucket t w0 else 0) (rep_redis rep) (negb (cfg_cache cfg) || rep_redis rep)
  | Err _ =>
    w = w0 ∨ ∀ id inst, instances (w_store w) !! id = Some inst → ci_tenant inst = t →
      ci_status inst = "PAUSED"
  end.
Proof.
  intros Hv Hwf. pose proof (cascade_ok cfg bucket vespa fuel ctx t actor w0 Hv Hwf ins w0 eq_refl) as H.
  destruct (run _ ins w0) as [[rep|st] w]; destruct H as (_ & Ho & H); (split; [done|]); [|done].
  destruct H as (?&[??]&?&?&?&?&?). split_and!; done.
Qed.

(** ** Progress

    The external stores answer: Vespa with a 2xx status and an end of the visit
    in sight ([vespa_left] bounds the answers still to come), the object store
    and Redis without errors, a scan with an end in sight ([scan_left]). *)
Class StoresUp (OB : Type) `{!objectAPI OB} (V : Type) `{!VespaHTTP V} (R : Type) `{!RedisAPI R} (base : string) := {
  vespa_left : V → TenantID → string → nat;
  vespa_up i t kvs v :
    ∃ code body, (http_delete i (group_url base t kvs) v).1 = Ok (code, body) ∧ 200 <= code <= 299 ∧
      let next := json_continuation (take_str bodyLimit body) in
      (next ≠ "" → (vespa_left (http_delete i (group_url base t kvs) v).2 t next < vespa_left v t (value_of "continuation" kvs))%nat);
  objects_up i b p (o : OB) : (removePrefix i b p o).1.2 = None;
  scan_left : R → string → Z → nat;
  scan_up i c pat (r : R) :
    ∃ ks n, redis_scan i c pat r = Ok (ks, n) ∧ (n ≠ 0 → (scan_left r pat n < scan_left r pat c)%nat);
  del_up i ks (r : R) :
    (redis_del i ks r).1 = Ok tt ∧ ∀ pat c, (scan_left (redis_del i ks r).2 pat c <= scan_left r pat c)%nat
}.

Section progress.
Context `{HDe : !Deps} {OB : Type} `{HO : !objectAPI OB} `{HOL : !objectAPILaws OB} {V : Type} `{HV : !VespaHTTP V} {R : Type} `{HR : !RedisAPI R}.
Context (cfg : serverConfig) (bucket : string) (vespa : httpVespaPurger) (fuel : nat) `{HUp : !StoresUp OB V R (vp_base vespa)}.

(** Every run with live contexts from a state in [P] answers a value in [Q]. *)
Definition live (ins : nat → Inp) : Prop := ∀ n, in_ctx (ins n) = None.
Definition succeeds {W A E} (P : W → Prop) (p : prog W (result E A)) (Q : A → Prop) : Prop :=
  ∀ ins w, live ins → P w → ∃ a, (run p ins w).1 = Ok a ∧ Q a.

Lemma purge_rounds_up n t c : succeeds (λ v, (vespa_left v t c < n)%nat) (purge_rounds vespa n t c) (λ _, True).
Proof using Type.
  revert c. induction n as [|n IH]; intros c ins v Hi Hl; [lia|]. cbn [purge_rounds run]. unfold input. rewrite Hi. cbn [run].
  unfold doDelete. destruct (vespa_up (ins 1%nat) t (purge_values vespa c) v) as (code & body & E & Hc & Hn).
  change (group_url (vp_base vespa) t (purge_values vespa c)) with (purge_url vespa t c) in *.
  destruct (http_delete _ _ v) as [x v']. cbn [fst snd] in *. subst x. replace ((code <? 200) || (299 <? code)) with false by lia.
  destruct (String.eqb_spec (json_continuation (take_str bodyLimit body)) "") as [|Hne]; [by eexists|].
  specialize (Hn Hne). rewrite purge_values_continuation in Hn. apply IH; [intros m; apply Hi|lia].
Qed.

Lemma scanDel_up pat n c : succeeds (λ r, (scan_left r pat c < n)%nat) (scanDel (R := R) n pat c) (λ _, True).
Proof using HUp.
  revert c. induction n as [|n IH]; intros c ins r Hi Hl; [lia|]. cbn [scanDel run].
  destruct (scan_up (ins 0%nat) c pat r) as (ks & nx & E & Hn). rewrite E.
  assert (Hgo : succeeds (λ r, nx ≠ 0 → (scan_left r pat nx < n)%nat) (if nx =? 0 then Ret (Ok tt) else scanDel (R := R) n pat nx) (λ _, True)).
  { intros ins' r' Hi' Hr'. destruct (Z.eqb_spec nx 0) as [|Hne]; [by eexists|]. by apply IH; auto. }
  case_bool_decide; [apply Hgo; [intros m; apply Hi|intros Hne; specialize (Hn Hne); lia]|].
  cbn [run]. destruct (del_up (ins 1%nat) ks r) as [Hok Hless]. destruct (redis_del _ _ r) as [x r']. cbn [fst snd] in *. subst x.
  apply Hgo; [intros m; apply Hi|]. intros Hne. specialize (Hn Hne). specialize (Hless pat nx). lia.
Qed.

Context (Hv : ∀ (v : V) t, (vespa_left v t "" < purgeBound)%nat) (Hr : ∀ (r : R) pat, (scan_left r pat 0 < fuel)%nat).

Lemma scan_all_up pats : succeeds (λ _, True) (scan_all (R := R) fuel pats) (λ _, True).
Proof using HUp Hr.
  induction pats as [|pat pats IH]; [by eexists|]. cbn [scan_all]. intros ins r Hi _.
  destruct (run_bind_inputs (λ i, in_ctx i = None) (scanDel fuel pat 0) (λ r,
    match r with Err e => Ret (Err e) | Ok _ => scan_all fuel pats end) ins r Hi) as (ins' & Hi' & ->).
  destruct (scanDel_up pat fuel 0 ins r Hi (Hr r pat)) as ([] & -> & _). by apply IH.
Qed.

Abbreviation W := (World memStore memDEKStore OB V R).

(** A step of another store, whose result the continuation gets. *)
Lemma succeeds_zoom {X A B} (get : W → X) put (p : prog X A) (P : W → Prop) (R0 : A → Prop) (q : A → prog W (result Status B)) Q :
  (∀ w, put (get w) w = w) → (∀ x w, get (put x w) = x) → (∀ x x' w, put x' (put x w) = put x' w) →
  (∀ x w, P w → P (put x w)) → (∀ ins x, live ins → R0 (run p ins x).1) → (∀ a, R0 a → succeeds P (q a) Q) →
  succeeds P (bind (zoom get put p) q) Q.
Proof using Type.
  intros H1 H2 H3 HP HR0 Hq ins w Hi Hw.
  destruct (run_bind_inputs (λ i, in_ctx i = None) (zoom get put p) q ins w Hi) as (ins' & Hi' & ->).
  rewrite run_zoom by done. cbn [fst snd]. apply (Hq _ (HR0 ins (get w) Hi)); [done|by apply HP].
Qed.

(** The store is well formed; it holds nothing of [t]. *)
Definition good_store (w : W) : Prop := WF (w_store w).
Definition empty_store (t : TenantID) (w : W) : Prop := ∃ m, WF m ∧ w_store w = purged t m.

Lemma succ_shred t (k : bool → prog W (result Status DeleteReport)) Q :
  t ≠ "" → (∀ b, succeeds good_store (k b) Q) → succeeds good_store (step_shred cfg t k) Q.
Proof using Type.
  intros Ht Hk ins w Hi Hw. unfold step_shred. destruct (cfg_dek cfg); cbn [run].
  - unfold on_dek. simpl DeleteDEK. unfold mem_Delete. rewrite Hi, (proj2 (String.eqb_neq t "")) by done. cbn [run].
    apply Hk; [intros m; apply Hi|exact Hw].
  - apply Hk; [intros m; apply Hi|exact Hw].
Qed.

Lemma succ_store ctx t (k : PurgeCounts → prog W (result Status DeleteReport)) Q :
  (∀ c, succeeds (empty_store t) (k c) Q) → succeeds good_store (step_store ctx t k) Q.
Proof using Type.
  intros Hk ins w Hi Hw. unfold step_store. cbn [run]. unfold on_store. simpl Store_PurgeTenant.
  rewrite PurgeTenant_spec by apply Hi. apply Hk; [intros m; apply Hi|]. by exists (w_store w).
Qed.

Lemma succ_vespa t (k : bool → prog W (result Status DeleteReport)) Q :
  t ≠ "" → (∀ b, succeeds (empty_store t) (k b) Q) → succeeds (empty_store t) (step_vespa cfg vespa t k) Q.
Proof using HUp Hv.
  intros Ht Hk. unfold step_vespa. destruct (cfg_vespa cfg); [|apply Hk].
  eapply (succeeds_zoom _ _ _ _ (λ r, r = Ok tt)); [by intros []|done|done|done| |by intros a ->].
  intros ins v Hi. unfold PurgeGroup. rewrite (proj2 (String.eqb_neq t "")) by done.
  by destruct (purge_rounds_up purgeBound t "" ins v Hi (Hv v t)) as ([] & -> & _).
Qed.

Lemma succ_blobs t tc (k : Z → prog W (result Status DeleteReport)) Q :
  tenantID tc ≠ "" → (∀ n, succeeds (empty_store t) (k n) Q) → succeeds (empty_store t) (step_blobs cfg bucket tc k) Q.
Proof using HUp.
  intros Ht Hk. unfold step_blobs. destruct (cfg_blobs cfg); [|apply Hk].
  eapply (succeeds_zoom _ _ _ _ (λ r, r.2 = None)); [by intros []|by intros []|done|done| |].
  - intros ins [c o] _. unfold DeletePrefix. rewrite (proj2 (String.eqb_neq _ "")) by done. cbn [run fst snd].
    pose proof (objects_up (ins 0%nat) bucket (tenantID tc +:+ "/") o) as Hup. destruct (removePrefix _ _ _ o) as [[n [e|]] o']; done.
  - intros [n [e|]]; [done|]. intros _. apply Hk.
Qed.

Lemma succ_redis t (k : bool → bool → prog W (result Status DeleteReport)) Q :
  t ≠ "" → (∀ p f, p = cfg_cache cfg → succeeds (empty_store t) (k p f) Q) → succeeds (empty_store t) (step_redis cfg fuel t k) Q.
Proof using HUp Hr.
  intros Ht Hk. unfold step_redis. destruct (cfg_cache cfg); [|by apply Hk].
  eapply (succeeds_zoom _ _ _ _ (λ r, r = Ok tt)); [by intros []|done|done|done| |intros a ->; by apply Hk].
  intros ins r Hi. unfold redis_PurgeTenant. rewrite (proj2 (String.eqb_neq t "")) by done.
  by destruct (scan_all_up (redis_patterns t) ins r Hi I) as ([] & -> & _).
Qed.

Lemma cascade_up ctx t actor : validTenant t = true →
  succeeds good_store (cascadeDelete cfg bucket vespa fuel ctx t actor) (λ rep, rep_redis rep = cfg_cache cfg).
Proof using HUp Hv Hr.
  intros Hvt. assert (Hne : t ≠ "") by eauto with asker. unfold cascadeDelete. rewrite (proj2 (String.eqb_neq t "")) by done.
  unfold FromHeaderValue. rewrite Hvt. intros ins w Hi Hw. unfold step_fence. cbn [run]. unfold on_store at 1. simpl Store_SetTenantConnectorStatus.
  rewrite SetTenantConnectorStatus_spec by apply Hi.
  set (w1 := set_store _ w). assert (Hw1 : good_store w1) by by apply suspended_WF. clearbody w1.
  apply (succ_shred t); [done| |intros m; apply Hi|exact Hw1]. clear w w1 Hw Hw1 ins Hi. intros b.
  apply succ_store. intros counts. apply succ_vespa; [done|]. intros v. apply succ_blobs; [done|]. intros n. apply succ_redis; [done|].
  intros p f Ep. intros ins w Hi (m & Hm & E). cbn [run]. unfold read_store. simpl Store_TenantResidue. rewrite E.
  rewrite purged_residue by (done || apply Hi). by eexists.
Qed.
End progress.

(** C31. Erasure converges: while the contexts live and the configured stores
    answer, Vespa within the 1000 rounds of a purge, whichever of the DEK table,
    Vespa, the blob store and Redis are configured, the cascade succeeds with VerifiedEmpty, and running it again
    succeeds with VerifiedEmpty and has nothing left to delete: no instance, no
    token and no blob. *)
Theorem cascade_converges `{!objectAPI OB, !objectAPILaws OB, !VespaHTTP V, !RedisAPI R, !RedisLaws R}
    cfg bucket vespa `{!PurgeLaws V (vp_base vespa), !StoresUp OB V R (vp_base vespa)} fuel ctx t actor ins ins2
    (w0 : World memStore memDEKStore OB V R) :
  validTenant t = true → WF (w_store w0) → live ins → live ins2 →
  (∀ (v : V) t, (vespa_left v t "" < purgeBound)%nat) → (∀ (r : R) pat, (scan_left r pat 0 < fuel)%nat) →
  ∃ rep w1 rep2 w2,
    run (cascadeDelete cfg bucket vespa fuel ctx t actor) ins w0 = (Ok rep, w1) ∧ rep_verified rep = true ∧
    run (cascadeDelete cfg bucket vespa fuel ctx t actor) ins2 w1 = (Ok rep2, w2) ∧ rep_verified rep2 = true ∧
    rep_instances rep2 = 0 ∧ rep_tokens rep2 = 0 ∧ rep_blobs rep2 = 0.
Proof.
  intros Hv Hwf Hi Hi2 Hvl Hrl.
  destruct (cascade_up cfg bucket vespa fuel Hvl Hrl ctx t actor Hv ins w0 Hi Hwf) as (rep & E1 & Hr1).
  pose proof (cascade_ok cfg bucket vespa fuel ctx t actor w0 Hv Hwf ins w0 eq_refl) as H1.
  destruct (run _ ins w0) as [x w1]. cbn [fst snd] in E1, H1. subst x. destruct H1 as (Hwf1 & _ & He & _ & _ & Hb & _ & _ & Hrep).
  destruct (cascade_up cfg bucket vespa fuel Hvl Hrl ctx t actor Hv ins2 w1 Hi2 Hwf1) as (rep2 & E2 & Hr2).
  pose proof (cascade_ok cfg bucket vespa fuel ctx t actor w1 Hv Hwf1 ins2 w1 eq_refl) as H2.
  destruct (run _ ins2 w1) as [x w2] eqn:Erun. cbn [fst snd] in E2, H2. subst x. destruct H2 as (_ & _ & _ & _ & _ & _ & _ & _ & Hrep2).
  exists rep, w1, rep2, w2. split_and!; [done| |done| | | |].
  - rewrite Hrep. cbn. rewrite Hr1. by destruct (cfg_cache cfg).
  - rewrite Hrep2. cbn. rewrite Hr2. by destruct (cfg_cache cfg).
  - rewrite Hrep2. cbn. rewrite <- countOwned_restrict. unfold erased in He. by rewrite He.
  - rewrite Hrep2. cbn. by apply erased_tokens.
  - rewrite Hrep2. cbn. destruct (cfg_blobs cfg) eqn:Ec; [|done]. apply no_blobs_count. by apply Hb.
Qed.

(** Self-service erasure selects its target from the caller's context
    alone: without a tenant it is Unauthenticated, with a confirmation other
    than the caller's own id it is InvalidArgument, in both cases before any
    action; otherwise it is the cascade for the caller's tenant. *)
Theorem delete_tenant_self_only {S} `{!Store S} {DS} `{!DEKStore DS}
    `{!objectAPI OB, !VespaHTTP V, !RedisAPI R}
    cfg bucket vespa fuel ctx confirm ins (w : World S DS OB V R) :
  let call := run (server_DeleteTenant cfg bucket vespa fuel ctx confirm) ins w in
  match ctx_tenant ctx with
  | Some tc =>
    if String.eqb (tenantID tc) "" then
      ∃ st, call = (Err st, w) ∧ st_code st = Unauthenticated
    else if String.eqb confirm (tenantID tc) then
      call = run (cascadeDelete cfg bucket vespa fuel ctx (tenantID tc) "self") ins w
    else ∃ st, call = (Err st, w) ∧ st_code st = InvalidArgument
  | None => ∃ st, call = (Err st, w) ∧ st_code st = Unauthenticated
  end.
Proof.
  unfold server_DeleteTenant, callerTenant, FromContext.
  destruct (ctx_tenant ctx) as [tc|]; [|by eexists].
  destruct (String.eqb (tenantID tc) ""); [by eexists|].
  cbn [check]. destruct (String.eqb confirm (tenantID tc)); [done|by eexists].
Qed.

(** The Vespa purge follows every continuation, and only those: against
    an endpoint that answers request [n] with [script n], the requests sent are
    exactly numbers 0 to m-1 for some 1 <= m <= 1000, request [n+1] carrying
    the continuation of answer [n]; the purge succeeds exactly when the last
    answer is a 2xx without continuation, and fails when it is an error or when
    1000 answers in a row asked for more. *)
Theorem purge_group_drains script cont p t ins :
  t ≠ "" → (∀ j, in_ctx (ins j) = None) →
  let '(r, log) := run (PurgeGroup (V := list string) (VespaHTTP0 := scripted_vespa script cont) p t) ins [] in
  ∃ m, log = (purge_url p t ∘ sent script cont <$> seq 0 m) ∧ (1 ≤ m ≤ 1000)%nat ∧
    (∀ j, (j < m)%nat → S j ≠ m → goes_on script cont j) ∧
    match r with
    | Ok _ => verdict cont (script (m - 1)%nat) = Ok ""
    | Err _ => verdict cont (script (m - 1)%nat) = Err tt ∨
               (m = 1000%nat ∧ goes_on script cont 999)
    end.
Proof.
  intros Ht Hins. unfold PurgeGroup. rewrite (proj2 (String.eqb_neq t "")) by done.
  pose proof (purge_rounds_spec script cont p t purgeBound 0 ins Hins) as H.
  cbn zeta in H. cbn [seq fmap list_fmap] in H. change (sent script cont 0) with "" in H.
  destruct (run _ ins []) as [r log]. destruct H as (m & -> & Hm & Hgo & Hr).
  unfold purgeBound in *.
  assert (H1 : (1 ≤ m)%nat) by (destruct r; [lia|]; destruct Hr as [[??]|[??]]; lia).
  exists m. split_and!; try done; try lia; [intros j; apply Hgo; lia|].
  destruct r as [[]|e]; [by destruct Hr|]. destruct Hr as [[_ ?]|[-> Hall]]; [by left|right].
  split; [done|]. apply Hall. lia.
Qed.

(** The Redis purge cannot widen: for a valid tenant, whatever SCAN
    returns and wherever the purge stops, it deletes only keys of that tenant,
    and no key of another valid tenant. *)
Theorem redis_purge_scoped {R} `{!RedisAPI R, !RedisLaws R} fuel t ins (r0 : R) :
  validTenant t = true →
  let r := (run (redis_PurgeTenant fuel t) ins r0).2 in
  (∀ k, k ∈ redis_keys r0 → k ∉ redis_keys r → redis_owned t k) ∧
  (∀ t' k, validTenant t' = true → t' ≠ t → redis_owned t' k →
     k ∈ redis_keys r0 → k ∈ redis_keys r).
Proof.
  intros Hv r. pose proof (redis_purge_kept fuel t r0 Hv ins r0 eq_refl) as Hk. fold r in Hk. split.
  - intros k Hin Hout. destruct (decide (redis_owned t k)) as [|Hn]; [done|].
    exfalso. by apply Hout, Hk.
  - intros t' k Hv' Hne Ho Hin. apply Hk; [done|]. intros Ho'. apply Hne.
    by eapply redis_owned_unique.
Qed.

(** ** Witnesses *)
#[local] Existing Instance toy_GCM.
#[local] Existing Instance memObjects_api.
#[local] Existing Instance memObjects_laws.

(** An endpoint that answers two continuations, then completes. *)
Definition demo_script (n : nat) : result string (Z * string) :=
  Ok (200, match n with 0%nat => "next1" | 1%nat => "next2" | _ => "" end).

Definition demo_vespa_http : VespaHTTP (list string) := scripted_vespa demo_script (λ b, b).

Lemma purge_group_drains_witness :
  let p := newHTTPVespaPurger "http://vespa:8080/" "asker" in
  let '(r, log) := run (PurgeGroup (VespaHTTP0 := demo_vespa_http) p "alice") (λ _, demo_rand 0) [] in
  ∃ m, log = (purge_url p "alice" ∘ sent demo_script (λ b, b) <$> seq 0 m) ∧ (1 ≤ m ≤ 1000)%nat ∧
    (∀ j, (j < m)%nat → S j ≠ m → goes_on demo_script (λ b, b) j) ∧
    match r with
    | Ok _ => verdict (λ b, b) (demo_script (m - 1)%nat) = Ok ""
    | Err _ => verdict (λ b, b) (demo_script (m - 1)%nat) = Err tt ∨
               (m = 1000%nat ∧ goes_on demo_script (λ b, b) 999)
    end.
Proof.
  apply (purge_group_drains demo_script (λ b, b) (newHTTPVespaPurger "http://vespa:8080/" "asker")
    "alice" (λ _, demo_rand 0)); [discriminate|reflexivity].
Defined.

(** A Redis whose SCAN returns every matching key in one page. *)
Definition demo_match (pat k : string) : bool :=
  match rev (to_bytes pat) with
  | "*"%char :: lit => HasPrefix k (of_bytes (rev lit))
  | _ => String.eqb k pat
  end.

#[local] Instance demo_redis : RedisAPI (gset string) := {|
  redis_scan _ _ pat r := Ok (elements (filter (λ k, demo_match pat k = true) r), 0);
  redis_del _ ks r := (Ok tt, r ∖ list_to_set ks)
|}.

Lemma demo_match_plain lit k :
  str_forallb (λ a, negb (existsb (Ascii.eqb a) (to_bytes "*?[]\"))) lit = true → demo_match lit k = String.eqb k lit.
Proof.
  intros Hl. unfold demo_match. destruct (rev (to_bytes lit)) as [|a l] eqn:E; [done|].
  assert (Ha : a ∈ to_bytes lit).
  { apply list_elem_of_In, in_rev. rewrite E. by left. }
  apply (str_forallb_elem _ _ _ Hl) in Ha.
  destruct (Ascii.ascii_dec a "*") as [->|Hne]; [by vm_compute in Ha|].
  by destruct a as [[] [] [] [] [] [] [] []].
Qed.

Lemma demo_match_prefix lit k : demo_match (lit +:+ "*") k = true ↔ HasPrefix k lit = true.
Proof.
  unfold demo_match. rewrite to_bytes_app, rev_app_distr. simpl.
  by rewrite rev_involutive, of_to_bytes.
Qed.

#[local] Instance demo_redis_laws : RedisLaws (gset string).
Proof.
  refine {| redis_keys := λ r : gset string, r; redis_match := demo_match; redis_due := λ _ pat _ k, demo_match pat k = true |}; simpl.
  - intros i c pat r ks n [= <- <-] k. rewrite elem_of_elements, elem_of_filter. by intros [? _].
  - done.
  - intros i c pat r ks n k [= <- <-] Hk Hm. left. by rewrite elem_of_elements, elem_of_filter.
  - intros i ks r k Hk Hn. rewrite elem_of_difference, elem_of_list_to_set. done.
  - intros i ks r k _ Hk. rewrite elem_of_difference, elem_of_list_to_set. tauto.
  - intros i ks r k. rewrite elem_of_difference. by intros [? _].
  - done.
  - intros lit k Hl. rewrite demo_match_plain by done. apply String.eqb_eq.
  - intros lit k _. apply demo_match_prefix.
Defined.

Definition demo_keys : gset string :=
  {[ "q:alice:1"; "q:alice-2:1"; "asker:pref:alice"; "asker:pref:bob" ]}.

Lemma redis_purge_scoped_witness :
  let r := (run (redis_PurgeTenant 5 "alice") (λ _, demo_rand 0) demo_keys).2 in
  (∀ k, k ∈ redis_keys demo_keys → k ∉ redis_keys r → redis_owned "alice" k) ∧
  (∀ t' k, validTenant t' = true → t' ≠ "alice" → redis_owned t' k →
     k ∈ redis_keys demo_keys → k ∈ redis_keys r).
Proof.
  apply (redis_purge_scoped 5 "alice" (λ _, demo_rand 0) demo_keys). reflexivity.
Defined.

(** A Vespa that empties the group of a request at once. *)
Abbreviation demo_docs := (gset (string * string)).

Definition demo_group (url g : string) : bool := HasPrefix url ("v/document/v1/asker/doc/group/" +:+ PathEscape g +:+ "?").

#[local] Instance demo_vespa : VespaHTTP demo_docs := {|
  http_delete _ url v := (Ok (200, ""), base.filter (λ d, demo_group url d.1 = false) v);
  json_continuation _ := ""
|}.

Lemma demo_group_url t kvs g : demo_group (group_url "v" t kvs) g = true ↔ g = t.
Proof.
  unfold demo_group, group_url. rewrite HasPrefix_spec. split.
  - intros [q E]. assert (E' : PathEscape t +:+ "?" +:+ encode_values kvs = PathEscape g +:+ "?" +:+ q).
    { apply (str_app_inj_l "v/document/v1/asker/doc/group/"). 
      transitivity (("v/document/v1/asker/doc/group/" +:+ PathEscape g +:+ "?") +:+ q); [exact E|by rewrite <- !str_app_assoc]. }
    apply (f_equal to_bytes) in E'. rewrite !to_bytes_app in E'. change (to_bytes "?") with ["?"%char] in E'. simpl in E'.
    apply sep_unique in E' as [E' _]; [|apply PathEscape_no_query..]. by apply to_bytes_inj, PathEscape_inj in E'.
  - intros ->. exists (encode_values kvs). by rewrite !str_app_assoc.
Qed.

#[local] Instance demo_purge_laws : PurgeLaws demo_docs "v".
Proof.
  refine {| vespa_docs := λ v t, set_map snd (base.filter (λ d, d.1 = t) v); vespa_ahead := λ _ _ _, True |}.
  - done.
  - intros i t kvs v t' Hne. cbn. apply set_eq. intros d. rewrite !elem_of_map. setoid_rewrite elem_of_filter. setoid_rewrite elem_of_filter.
    split; intros ([g d'] & -> & Hg & Hd); cbn in *; subst g; exists (t', d'); cbn; [by destruct Hd|]. split_and!; [done|done| |done].
    apply not_true_iff_false. by rewrite demo_group_url.
  - intros i t kvs v code body [= <- <-] _ _ _. cbn. split_and!; [apply Nat.le_0_l| |done]. intros _. apply set_eq. intros d.
    rewrite elem_of_map. setoid_rewrite elem_of_filter. setoid_rewrite elem_of_filter. split; [|by intros ?%not_elem_of_empty].
    intros ([g d'] & -> & Hg & Hd & _). cbn in *. subst g. by rewrite (proj2 (demo_group_url t kvs t) eq_refl) in Hd.
Defined.

#[local] Instance demo_up : StoresUp memObjects demo_docs (gset string) "v".
Proof.
  refine {| vespa_left := λ _ _ _, 0%nat; scan_left := λ _ _ _, 0%nat |}.
  - intros i t kvs v. eexists _, _. split; [done|]. split; [lia|]. done.
  - done.
  - intros i c pat r. eexists _, _. split; [done|]. done.
  - intros i ks r. split; [done|]. lia.
Defined.

Definition demo_delete_world : World memStore memDEKStore memObjects demo_docs (gset string) :=
  mkWorld demo_store demo_cipher demo_objects {[("alice", "d1"); ("bob", "d2")]} demo_keys.

Definition demo_cfg (external : bool) : serverConfig := mkConfig 3 true external external external.

Lemma cascade_delete_correct_witness :
  let '(r, w) := run
    (cascadeDelete (demo_cfg true) "bkt" (mkVespaPurger "v" "") 5
       demo_ctx "alice" "self") (λ _, demo_rand 0) demo_delete_world in
  is_ok r = true ∧ others_kept "bkt" (mkVespaPurger "v" "") "alice" demo_delete_world w.
Proof.
  pose proof (cascade_delete_correct (demo_cfg true) "bkt"
    (mkVespaPurger "v" "") 5 demo_ctx "alice" "self" (λ _, demo_rand 0) demo_delete_world
    eq_refl demo_store_WF) as H.
  assert (Hok : is_ok (run (cascadeDelete (demo_cfg true) "bkt"
    (mkVespaPurger "v" "") 5 demo_ctx "alice" "self") (λ _, demo_rand 0) demo_delete_world).1 = true)
    by (vm_compute; reflexivity).
  destruct (run _ _ demo_delete_world) as [r w]. split; [exact Hok|apply H].
Defined.

Lemma cascade_converges_witness :
  ∃ rep w1 rep2 w2,
    run (cascadeDelete (demo_cfg true) "bkt" (mkVespaPurger "v" "") 5
       demo_ctx "alice" "self") (λ _, demo_rand 0) demo_delete_world = (Ok rep, w1) ∧
    rep_verified rep = true ∧
    run (cascadeDelete (demo_cfg true) "bkt" (mkVespaPurger "v" "") 5
       demo_ctx "alice" "self") (λ _, demo_rand 0) w1 = (Ok rep2, w2) ∧
    rep_verified rep2 = true ∧ rep_instances rep2 = 0 ∧ rep_tokens rep2 = 0 ∧ rep_blobs rep2 = 0.
Proof.
  apply (cascade_converges (demo_cfg true) "bkt"
    (mkVespaPurger "v" "") 5 demo_ctx "alice" "self" (λ _, demo_rand 0) (λ _, demo_rand 0)
    demo_delete_world); [reflexivity|apply demo_store_WF|done|done| |]; intros; apply Nat.ltb_lt; vm_compute; reflexivity.
Defined.
