(* ===== verification/Admin.v ===== *)
(** * The cross-tenant surfaces

    Models [services/control-plane/admin.go] (the operator RPCs, with their
    keyset paging) and [scheduler.go]'s [ListAllInstances]. *)

From stdpp Require Import base gmap strings list pretty sorting.
From Stdlib Require Import Ascii ZArith Lia.
From S2P Require Import Prelude GoStrings Tenancy Store StoreLoops StoreIsolation Crypto CryptoProofs Blob ControlPlane ControlPlaneProofs Erasure ErasureProofs.

Open Scope Z_scope.

Definition adminSubjectMetadataKey : string := "x-asker-admin-subject".

Definition adminActor (ctx : Ctx) : string :=
  let subject :=
    match ctx_md_in ctx with
    | Some md =>
      match md_get md adminSubjectMetadataKey with
      | v :: _ => if String.eqb (TrimSpace v) "" then "unknown" else TrimSpace v
      | [] => "unknown"
      end
    | None => "unknown"
    end in
  "admin:" +:+ subject.

Definition defaultAdminListLimit : Z := 100.
Definition maxAdminListLimit : Z := 1000.

Record PTenantUsage := mkPUsage {
  pu_tenant : string; pu_created : Timestamp; pu_instances : Z; pu_docs : Z; pu_suspended : bool
}.

Record ListTenantsResponse := mkListTenants {
  lt_tenants : list PTenantUsage;
  lt_next : string
}.

Definition adminTenant (raw : string) : result Status TenantID :=
  if String.eqb raw "" then Err (invalid "tenant_id is required")
  else match FromHeaderValue raw with
  | Err _ => Err (invalid "tenant_id is not a valid tenant identifier")
  | Ok tc => Ok (tenantID tc)
  end.

Definition storeErr (rpc : string) (err : StoreErr) : Status :=
  match err with
  | ErrNotFound => mkStatus NotFound "tenant not found"
  | ErrCtx Canceled => mkStatus CanceledCode "request canceled"
  | ErrCtx DeadlineExceeded => mkStatus DeadlineExceededCode "deadline exceeded"
  | _ => mkStatus Internal (rpc +:+ " failed")
  end.

Section admin.
Context `{!Deps} {S : Type} `{!Store S} {DS : Type} `{!GCM, !DEKStore DS}
  {O : Type} `{!objectAPI O} {V : Type} `{!VespaHTTP V} {R : Type} `{!RedisAPI R}.
Context (cfg : serverConfig) (bucket : string) (vespa : httpVespaPurger) (scan_fuel : nat).

Abbreviation W := (World S DS O V R).
Abbreviation rpc A := (prog W (result Status A)).

Definition usageToProto (u : TenantUsage) : PTenantUsage :=
  mkPUsage (tu_tenant u) (ts_New (tu_created u)) (tu_instances u) (tu_docs u) (tu_suspended u).

Definition admin_stored {A B} (rpcName : string) (k : A → rpc B) (r : result StoreErr A) : rpc B :=
  match r with Err e => Ret (Err (storeErr rpcName e)) | Ok a => k a end.

(** The page size asked of the store. *)
Definition clampLimit (reqLimit : Z) : Z :=
  let limit := if reqLimit <=? 0 then defaultAdminListLimit else reqLimit in
  if maxAdminListLimit <? limit then maxAdminListLimit else limit.

Definition admin_ListTenants (ctx : Ctx) (reqLimit : Z) (pageToken : string) : rpc ListTenantsResponse :=
  let limit := clampLimit reqLimit in
  Atomic _ (read_store (λ i, Store_ListTenants (at_ctx ctx i) pageToken limit))
  (admin_stored "ListTenants" (λ usages,
  let next :=
    if Z.of_nat (length usages) =? limit
    then match last usages with Some u => tu_tenant u | None => "" end
    else "" in
  Ret (Ok (mkListTenants (usageToProto <$> usages) next)))).

Definition admin_GetTenantUsage (ctx : Ctx) (tenant : string) : rpc PTenantUsage :=
  check (adminTenant tenant) (λ t,
  Atomic _ (read_store (λ i, Store_GetTenantUsage (at_ctx ctx i) t))
  (admin_stored "GetTenantUsage" (λ u, Ret (Ok (usageToProto u))))).

Definition admin_SuspendTenant (ctx : Ctx) (tenant : string) (suspended : bool) : rpc Z :=
  check (adminTenant tenant) (λ t,
  let newStatus := if suspended then "PAUSED" else "ACTIVE" in
  Atomic _ (on_store (λ i, Store_SetTenantConnectorStatus (in_env i) (at_ctx ctx i) t newStatus))
  (admin_stored "SuspendTenant" (λ n, Ret (Ok n)))).

Definition AdminDeleteTenant (ctx : Ctx) (tenant : string) : rpc DeleteReport :=
  check (adminTenant tenant) (λ t,
  cascadeDelete cfg bucket vespa scan_fuel ctx t (adminActor ctx)).

(** scheduler.go *)
Definition ListAllInstances (ctx : Ctx) : rpc (list (string * PInstance)) :=
  Atomic _ (read_store (λ i, Store_ListAll (at_ctx ctx i)))
  (λ r, match r with
  | Err (ErrCtx Canceled) => Ret (Err (mkStatus CanceledCode "request canceled"))
  | Err (ErrCtx DeadlineExceeded) => Ret (Err (mkStatus DeadlineExceededCode "deadline exceeded"))
  | Err _ => Ret (Err (mkStatus Internal "ListAllInstances failed"))
  | Ok instances => Ret (Ok ((λ inst, (ci_tenant inst, instanceToProto inst)) <$> instances))
  end).
End admin.

(** ** Paging *)
Import memStore.

(** What a client that follows NextPageToken collects, in at most [n] calls. *)
Section paging.
Context `{!Deps} {DS OB V R : Type}.

Fixpoint all_pages (n : nat) (ctx : Ctx) (limit : Z) (token : string) (i : Inp)
    (w : World memStore DS OB V R) : option (list PTenantUsage) :=
  match n with
  | O => None
  | S n' =>
    match (run (admin_ListTenants ctx limit token) (λ _, i) w).1 with
    | Err _ => None
    | Ok resp =>
      if String.eqb (lt_next resp) "" then Some (lt_tenants resp)
      else (app (lt_tenants resp)) <$> all_pages n' ctx limit (lt_next resp) i w
    end
  end.
End paging.

Definition key_leb (a b : string * Z) : bool := str_leb a.1 b.1.

(** The tenant rows in key order. *)
Definition sorted_tenants (m : memStore) : list (string * Z) :=
  sort_by key_leb (map_to_list (tenants m)).

Definition after_key (k : string) (kv : string * Z) : bool := str_ltb k kv.1.

Lemma key_leb_total a b : key_leb a b = true ∨ key_leb b a = true.
Proof. apply str_leb_total. Qed.

Lemma key_leb_trans a b c : key_leb a b = true → key_leb b c = true → key_leb a c = true.
Proof. apply str_leb_trans. Qed.

Lemma sorted_tenants_NoDup m : NoDup (sorted_tenants m).*1.
Proof.
  unfold sorted_tenants. rewrite (sort_by_perm key_leb). apply NoDup_fst_map_to_list.
Qed.

Lemma key_leb_antisym m a b :
  a ∈ map_to_list (tenants m) → b ∈ map_to_list (tenants m) →
  key_leb a b = true → key_leb b a = true → a = b.
Proof.
  destruct a as [k1 v1], b as [k2 v2]. rewrite !elem_of_map_to_list. unfold key_leb. simpl.
  intros H1 H2 Hab Hba. pose proof (str_leb_antisym _ _ Hab Hba). subst. congruence.
Qed.

Lemma StronglySorted_List_filter {A} (R : A → A → Prop) (f : A → bool) l :
  StronglySorted R l → StronglySorted R (List.filter f l).
Proof.
  induction 1 as [|x l Hl IH Hall]; simpl; [constructor|].
  destruct (f x); [|done]. constructor; [done|].
  rewrite Forall_forall in *. intros y Hy.
  apply list_elem_of_In, filter_In in Hy as [Hy _]. apply Hall. by apply list_elem_of_In.
Qed.

Lemma List_filter_perm {A} (f : A → bool) l1 l2 : l1 ≡ₚ l2 → List.filter f l1 ≡ₚ List.filter f l2.
Proof.
  induction 1 as [|x l1 l2 _ IH|x y l|l1 l2 l3 _ IH1 _ IH2]; simpl; [done| | |by etransitivity].
  - destruct (f x); [by constructor|done].
  - destruct (f x), (f y); try done. constructor.
Qed.

(** Filtering by key and then sorting is a suffix of the sorted rows. *)
Lemma sort_filter_after k m :
  sort_by key_leb (List.filter (after_key k) (map_to_list (tenants m)))
  = List.filter (after_key k) (sorted_tenants m).
Proof.
  apply (sorted_perm_unique key_leb).
  - intros a b Ha Hb. rewrite (sort_by_perm key_leb) in Ha, Hb.
    apply list_elem_of_In, filter_In in Ha as [Ha _], Hb as [Hb _].
    apply (key_leb_antisym m); by apply list_elem_of_In.
  - apply sort_by_sorted; [apply key_leb_total|apply key_leb_trans].
  - apply StronglySorted_List_filter, sort_by_sorted; [apply key_leb_total|apply key_leb_trans].
  - rewrite (sort_by_perm key_leb). apply List_filter_perm.
    unfold sorted_tenants. by rewrite (sort_by_perm key_leb).
Qed.

(** In a list sorted by distinct keys, the rows after the key of a member are
    the ones that follow it. *)
Lemma filter_after_split (l1 l2 : list (string * Z)) x :
  StronglySorted key_leb (l1 ++ x :: l2) → NoDup ((l1 ++ x :: l2).*1) →
  List.filter (after_key x.1) (l1 ++ x :: l2) = l2.
Proof.
  intros Hs Hn. rewrite List.filter_app.
  assert (H1 : List.filter (after_key x.1) l1 = []).
  { induction l1 as [|y l1 IH]; [done|]. simpl in *. inversion Hs as [|? ? Hs' Hall]; subst.
    inversion Hn; subst. rewrite IH by done.
    unfold after_key. destruct (str_ltb x.1 y.1) eqn:E; [|done]. exfalso.
    rewrite Forall_forall in Hall.
    assert (Hyx : key_leb y x = true) by (apply Is_true_true, Hall; set_solver).
    apply str_ltb_leb in E as [E Hne]. apply Hne. by apply str_leb_antisym. }
  rewrite H1. simpl. unfold after_key at 1. rewrite str_ltb_irrefl.
  rewrite fmap_app in Hn. apply NoDup_app in Hn as (_ & _ & Hn). simpl in Hn.
  apply NoDup_cons in Hn as [Hx Hn].
  assert (Hall : Forall (key_leb x) l2).
  { clear -Hs. induction l1 as [|y l1 IH]; simpl in Hs; inversion Hs; subst; auto. }
  clear Hs H1. induction l2 as [|y l2 IH]; [done|]. simpl in *.
  apply not_elem_of_cons in Hx as [Hne Hx].
  inversion Hall as [|? ? Hxy Hall']; subst. inversion Hn; subst. unfold after_key at 1.
  rewrite (proj2 (str_ltb_leb x.1 y.1)).
  - by rewrite IH.
  - split; [by apply Is_true_true|congruence].
Qed.

Section paging_proofs.
Context `{HD : !Deps} {DS OB V R : Type}.

Abbreviation W := (World memStore DS OB V R).

Definition usage_of (m : memStore) (kv : string * Z) : PTenantUsage :=
  usageToProto (usageLocked kv.1 kv.2 m).

Lemma clampLimit_bounds l : 1 <= clampLimit l <= maxAdminListLimit.
Proof using Type.
  unfold clampLimit, defaultAdminListLimit, maxAdminListLimit.
  destruct (Z.leb_spec l 0); [simpl; lia|]. destruct (Z.ltb_spec 1000 l); lia.
Qed.

Lemma usageLocked_tenant t created m : tu_tenant (usageLocked t created m) = t.
Proof using Type. unfold usageLocked. by destruct (map_fold _ _ _) as [[??]?]. Qed.

(** One page: the first rows after the token, and the key of the last one
    when the page is full. *)
Lemma page_spec ctx limit token i (w : W) :
  in_ctx i = None →
  let m := w_store w in
  let n := Z.to_nat (clampLimit limit) in
  let rest := List.filter (after_key token) (sorted_tenants m) in
  (run (admin_ListTenants ctx limit token) (λ _, i) w).1 =
  Ok (mkListTenants (usage_of m <$> firstn n rest)
        (if (n <=? length rest)%nat then from_option fst "" (last (firstn n rest)) else "")).
Proof using Type.
  intros Hi m n rest. unfold admin_ListTenants. cbn [run read_store].
  unfold read_store, Store_ListTenants. simpl Store_ListTenants. unfold memStore_Store, ListTenants.
  unfold guarded_read, at_ctx. simpl. rewrite Hi.
  change (λ a b : string * Z, str_leb a.1 b.1) with key_leb.
  change (λ kv : string * Z, str_ltb token kv.1) with (after_key token).
  rewrite sort_filter_after. fold m. fold rest.
  pose proof (clampLimit_bounds limit) as Hb.
  rewrite (proj2 (Z.ltb_lt 0 _)) by lia. simpl. f_equal. unfold n.
  rewrite <- list_fmap_compose. f_equal.
  rewrite length_fmap, length_firstn.
  destruct (Nat.leb_spec (Z.to_nat (clampLimit limit)) (length rest)).
  - rewrite (proj2 (Z.eqb_eq _ _)) by lia. rewrite fmap_last.
    destruct (last (firstn _ rest)); simpl; [|done]. apply usageLocked_tenant.
  - rewrite (proj2 (Z.eqb_neq _ _)) by lia. done.
Qed.

(** From any token that splits the sorted rows, the pages are the rows after
    it. *)
Lemma all_pages_from ctx limit i (w : W) done_rows rest token fuel :
  in_ctx i = None → tenants (w_store w) !! "" = None →
  sorted_tenants (w_store w) = done_rows ++ rest →
  List.filter (after_key token) (sorted_tenants (w_store w)) = rest →
  (length rest < fuel)%nat →
  all_pages fuel ctx limit token i w = Some (usage_of (w_store w) <$> rest).
Proof using Type.
  intros Hi Hne. revert done_rows rest token.
  induction fuel as [|fuel IH]; intros done_rows rest token Hsplit Hrest Hfuel; [lia|].
  cbn [all_pages]. rewrite page_spec by done. cbn zeta. rewrite Hrest.
  set (n := Z.to_nat (clampLimit limit)). simpl.
  pose proof (clampLimit_bounds limit) as Hb.
  destruct (Nat.leb_spec n (length rest)) as [Hle|Hlt].
  2: { simpl. rewrite firstn_all2 by lia. done. }
  rewrite <- (take_drop n rest) in Hsplit.
  destruct (last (firstn n rest)) as [x|] eqn:Hlast.
  2: { apply last_None in Hlast. apply (f_equal length) in Hlast.
       rewrite length_firstn in Hlast. simpl in Hlast. lia. }
  apply last_Some in Hlast as [l1 Hl1]. rewrite Hl1 in Hsplit.
  assert (Hx : from_option fst "" (Some x) ≠ "").
  { simpl. intros E. assert (Hin : x ∈ sorted_tenants (w_store w)).
    { rewrite Hsplit. set_solver. }
    unfold sorted_tenants in Hin. rewrite (sort_by_perm key_leb) in Hin.
    destruct x as [k v]. simpl in E. subst. apply elem_of_map_to_list in Hin. congruence. }
  rewrite (proj2 (String.eqb_neq _ "")) by done. simpl.
  rewrite (IH ((done_rows ++ l1) ++ [x]) (drop n rest)).
  - simpl. rewrite <- fmap_app. by rewrite take_drop.
  - rewrite Hsplit. by rewrite <- !(assoc_L (++)).
  - rewrite Hsplit. rewrite <- (assoc_L (++)). simpl. rewrite (assoc_L (++)).
    apply filter_after_split.
    + rewrite <- (assoc_L (++)). change (x :: drop n rest) with ([x] ++ drop n rest).
      rewrite (assoc_L (++) l1), <- Hsplit.
      apply sort_by_sorted; [apply key_leb_total|apply key_leb_trans].
    + rewrite <- (assoc_L (++)). change (x :: drop n rest) with ([x] ++ drop n rest).
      rewrite (assoc_L (++) l1), <- Hsplit. apply sorted_tenants_NoDup.
  - rewrite length_drop. lia.
Qed.
End paging_proofs.

(** ** Theorems *)

(** Paging is complete and duplicate-free: an operator who starts without
    a token and follows NextPageToken, for any requested page size (clamped to
    1..1000), reaches the last page after finitely many calls and has then seen
    the usage of every tenant exactly once, in order of tenant id. *)
Theorem admin_paging_complete `{!Deps} {DS OB V R} ctx limit i (w : World memStore DS OB V R) fuel :
  in_ctx i = None → tenants (w_store w) !! "" = None →
  (size (tenants (w_store w)) < fuel)%nat →
  ∃ ids, StronglySorted str_leb ids ∧ NoDup ids ∧
    (∀ t, t ∈ ids ↔ is_Some (tenants (w_store w) !! t)) ∧
    all_pages fuel ctx limit "" i w
    = Some ((λ t, usageToProto (usageLocked t (default 0 (tenants (w_store w) !! t)) (w_store w))) <$> ids).
Proof.
  intros Hi Hne Hfuel. set (m := w_store w) in *. exists (sorted_tenants m).*1.
  assert (Hsort : StronglySorted key_leb (sorted_tenants m)).
  { apply sort_by_sorted; [apply key_leb_total|apply key_leb_trans]. }
  assert (Hin : ∀ kv, kv ∈ sorted_tenants m ↔ tenants m !! kv.1 = Some kv.2).
  { intros [k v]. unfold sorted_tenants. rewrite (sort_by_perm key_leb).
    by rewrite elem_of_map_to_list. }
  split_and!.
  - clear Hin. induction Hsort as [|x l Hl IH Hall]; simpl; constructor; [done|].
    rewrite Forall_fmap. exact Hall.
  - apply sorted_tenants_NoDup.
  - intros t. rewrite list_elem_of_fmap. split.
    + intros (kv & -> & Hkv). apply Hin in Hkv. eauto.
    + intros [v Hv]. exists (t, v). split; [done|]. by apply Hin.
  - rewrite (all_pages_from ctx limit i w [] (sorted_tenants m)); try done.
    + f_equal. rewrite <- list_fmap_compose. apply list_fmap_ext. intros j kv Hj.
      apply list_elem_of_lookup_2, Hin in Hj. unfold usage_of. simpl. by rewrite Hj.
    + fold m. apply forallb_filter_id. rewrite forallb_forall. intros kv Hkv.
      apply list_elem_of_In, Hin in Hkv. unfold after_key. apply str_ltb_leb.
      split; [by destruct kv.1|]. intros E. rewrite <- E in Hkv. congruence.
    + unfold sorted_tenants. rewrite (sort_by_perm key_leb). rewrite length_map_to_list. done.
Qed.

(** The operator surface names its target safely: a tenant id from a
    request reaches the store only when it satisfies the tenant syntax;
    otherwise the call is InvalidArgument and nothing changes.  The audited
    actor is never a bare "admin". *)
Theorem admin_target_validated `{!Deps} {S} `{!Store S} {DS} `{!DEKStore DS} {OB} `{!objectAPI OB}
    {V} `{!VespaHTTP V} {R} `{!RedisAPI R} cfg bucket vespa fuel ctx tenant b ins
    (w : World S DS OB V R) :
  validTenant tenant = false →
  (∃ st, run (admin_GetTenantUsage ctx tenant) ins w = (Err st, w) ∧ st_code st = InvalidArgument) ∧
  (∃ st, run (admin_SuspendTenant ctx tenant b) ins w = (Err st, w) ∧ st_code st = InvalidArgument) ∧
  (∃ st, run (AdminDeleteTenant cfg bucket vespa fuel ctx tenant) ins w = (Err st, w) ∧
     st_code st = InvalidArgument) ∧
  (∃ who, adminActor ctx = "admin:" +:+ who ∧ who ≠ "").
Proof.
  intros Hv.
  assert (Ht : ∃ st, adminTenant tenant = Err st ∧ st_code st = InvalidArgument).
  { unfold adminTenant, FromHeaderValue. rewrite Hv. destruct (String.eqb tenant ""); eauto. }
  destruct Ht as (st & Ht & Hst).
  split_and!; [exists st; unfold admin_GetTenantUsage; by rewrite Ht
    |exists st; unfold admin_SuspendTenant; by rewrite Ht
    |exists st; unfold AdminDeleteTenant; by rewrite Ht|].
  unfold adminActor. eexists. split; [reflexivity|].
  destruct (ctx_md_in ctx) as [md|]; [|done].
  destruct (md_get md adminSubjectMetadataKey) as [|v vs]; [done|].
  destruct (String.eqb_spec (TrimSpace v) ""); done.
Qed.

(** ** Witnesses *)

Definition demo_inp : Inp := mkInp None None (mkEnv (λ _, 0) (λ _, 0) "u").
Definition demo_admin_ctx : Ctx := mkCtx None None None ∅.

Definition demo_three : memStore :=
  mk (<["a" := 1]> (<["b" := 2]> (<["c" := 3]> ∅))) ∅ ∅ ∅ ∅ ∅ ∅.

Definition demo_admin_world : World memStore unit unit unit unit :=
  mkWorld demo_three (mkCipher ∅ tt) tt tt tt.

(** Three tenants in pages of two: two calls. *)
Lemma demo_pages :
  option_map (List.map pu_tenant) (all_pages 2 demo_admin_ctx 2 "" demo_inp demo_admin_world)
  = Some ["a"; "b"; "c"].
Proof. vm_compute. reflexivity. Qed.

Lemma admin_paging_complete_witness :
  ∃ ids, StronglySorted str_leb ids ∧ NoDup ids ∧
    (∀ t, t ∈ ids ↔ is_Some (tenants demo_three !! t)) ∧
    all_pages 4 demo_admin_ctx 2 "" demo_inp demo_admin_world
    = Some ((λ t, usageToProto (usageLocked t (default 0 (tenants demo_three !! t)) demo_three)) <$> ids).
Proof.
  apply (admin_paging_complete demo_admin_ctx 2 demo_inp demo_admin_world 4).
  - reflexivity.
  - reflexivity.
  - vm_compute. lia.
Defined.

#[local] Existing Instance memObjects_api.
#[local] Existing Instance demo_redis.
#[local] Existing Instance demo_vespa.

Lemma admin_target_validated_witness :
  (∃ st, run (admin_GetTenantUsage demo_admin_ctx "../x") demo_rand demo_delete_world
     = (Err st, demo_delete_world) ∧ st_code st = InvalidArgument) ∧
  (∃ st, run (admin_SuspendTenant demo_admin_ctx "../x" true) demo_rand demo_delete_world
     = (Err st, demo_delete_world) ∧ st_code st = InvalidArgument) ∧
  (∃ st, run (AdminDeleteTenant (demo_cfg true) "bkt"
       (mkVespaPurger "v" "") 5 demo_admin_ctx "../x") demo_rand demo_delete_world
     = (Err st, demo_delete_world) ∧ st_code st = InvalidArgument) ∧
  (∃ who, adminActor demo_admin_ctx = "admin:" +:+ who ∧ who ≠ "").
Proof.
  apply (admin_target_validated (demo_cfg true) "bkt"
    (mkVespaPurger "v" "") 5 demo_admin_ctx "../x" true demo_rand demo_delete_world).
  reflexivity.
Defined.
