(* ===== verification/Document.v ===== *)
(** * The canonical document

    The data of [platform/proto/asker/v1/document.proto] as the services use
    it: proto3 messages with nil sub-messages as [None] and the generated
    getters' defaults.  Generated marshalling is the interface [ProtoCodec]. *)

From stdpp Require Import base gmap strings list.
From Stdlib Require Import Ascii ZArith Lia.
From S2P Require Import Prelude GoStrings Blob ControlPlane.

(** An open proto3 enum: a value without a name is [DocTypeNum]. *)
Inductive DocType :=
| DOC_TYPE_UNSPECIFIED | EMAIL | CHAT_MESSAGE | FILE | CALENDAR_EVENT | WIKI_PAGE | TICKET
| IMAGE | VIDEO | AUDIO | DocTypeNum (n : Z).

(** Embedding components are never computed with: they are carried as the
    bit patterns of their float32 values. *)
Record Chunk := mkChunk {
  ck_id : string;
  ck_text : string;
  ck_embedding_ref : string;
  ck_char_start : Z;
  ck_char_end : Z;
  ck_embedding : list Z;
  ck_start_ms : Z;
  ck_end_ms : Z;
  ck_modality : string
}.

Record Participant := mkParticipant {
  pa_name : string; pa_email : string; pa_handle : string; pa_role : string
}.

Record Timestamps := mkTimestamps {
  created : option Timestamp; modified : option Timestamp; ingested : option Timestamp
}.

Record AclInfo := mkAcl { allowed_principals : list string; is_private : bool }.

Record Tombstone := mkTombstone { deleted : bool; deleted_at : option Timestamp }.

Record MediaInfo := mkMedia {
  duration_ms : Z; width : Z; height : Z; thumbnail : option BlobRef;
  keyframes : list (Z * option BlobRef * string); transcript_lang : string
}.

Record Document := mkDoc {
  tenant_id : string;
  doc_id : string;
  connector_id : string;
  source_native_id : string;
  doc_type : DocType;
  title : string;
  body_text : string;
  chunks : list Chunk;
  metadata : gmap string string;
  participants : list Participant;
  doc_ts : option Timestamps;
  acl : option AclInfo;
  original : option BlobRef;
  version_etag : string;
  tombstone : option Tombstone;
  media : option MediaInfo
}.

(** The assignments the pipeline makes to a document's fields. *)
Definition set_text (t b : string) (d : Document) : Document :=
  mkDoc (tenant_id d) (doc_id d) (connector_id d) (source_native_id d) (doc_type d) t b
    (chunks d) (metadata d) (participants d) (doc_ts d) (acl d) (original d) (version_etag d)
    (tombstone d) (media d).

Definition set_version_etag (e : string) (d : Document) : Document :=
  mkDoc (tenant_id d) (doc_id d) (connector_id d) (source_native_id d) (doc_type d) (title d)
    (body_text d) (chunks d) (metadata d) (participants d) (doc_ts d) (acl d) (original d) e
    (tombstone d) (media d).

Definition set_chunks (cs : list Chunk) (d : Document) : Document :=
  mkDoc (tenant_id d) (doc_id d) (connector_id d) (source_native_id d) (doc_type d) (title d)
    (body_text d) cs (metadata d) (participants d) (doc_ts d) (acl d) (original d)
    (version_etag d) (tombstone d) (media d).

Definition set_connector_ts (c : string) (ts : Timestamps) (d : Document) : Document :=
  mkDoc (tenant_id d) (doc_id d) c (source_native_id d) (doc_type d) (title d)
    (body_text d) (chunks d) (metadata d) (participants d) (Some ts) (acl d) (original d)
    (version_etag d) (tombstone d) (media d).

(** [doc.GetTombstone().GetDeleted()] *)
Definition is_deleted (d : Document) : bool :=
  match tombstone d with Some t => deleted t | None => false end.

(** [doc.GetOriginal().GetContentType()] *)
Definition original_content_type (d : Document) : string :=
  match original d with Some r => br_content_type r | None => "" end.

(** [proto.Marshal], [proto.Unmarshal] *)
Class ProtoCodec := {
  Marshal : Document → result string string;
  Unmarshal : string → result string Document
}.

Class ProtoCodecLaws `{!ProtoCodec} : Prop := {
  unmarshal_marshal d v : Marshal d = Ok v → Unmarshal v = Ok d
}.

(** [connectors/sdk/docid.go]: the id of a source record. *)
Definition DocID (sha256 : bytes → bytes) (connectorID sourceNativeID : string) : string :=
  EncodeToString (sha256 (to_bytes (connectorID +:+ ":" +:+ sourceNativeID))).
