(* ===== verification/Chunker.v ===== *)
(** * Chunking of document bodies

    Models [services/ingest/chunker.go]: windows of about 2048 bytes with an
    overlap of 256, cut at paragraph, line or word breaks and always between
    UTF-8 runes; email bodies are first cut at quoted replies.  Offsets are
    byte offsets ([nat]); indexing a string out of range panics in Go and is
    [None] here. *)

From stdpp Require Import base strings list pretty.
From Stdlib Require Import Ascii ZArith Lia.
From S2P Require Import Prelude GoStrings Document.

Definition chunkWindowBytes : nat := 2048.
Definition chunkOverlapBytes : nat := 256.
Definition maxChunksPerDoc : nat := 64.
Definition singleChunkCapBytes : nat := 8192.
#[global] Opaque chunkWindowBytes singleChunkCapBytes chunkOverlapBytes.

(** [span]: the byte range [start, end). *)
Record span := mkSpan { sp_start : nat; sp_end : nat }.

(** [utf8.RuneStart] *)
Definition RuneStart (b : ascii) : bool := negb (N.land (byte_val b) 192 =? 128)%N.

Definition isSpaceByte (b : ascii) : bool :=
  (byte_val b =? 32)%N || (byte_val b =? 9)%N || (byte_val b =? 10)%N || (byte_val b =? 13)%N.

Definition newline : ascii := "010".

(** [body[a:b]] *)
Definition slice (body : bytes) (a b : nat) : bytes := take (b - a) (drop a body).

(** ** Searching a window from its end *)
Fixpoint last_such (f : nat → bool) (n : nat) : option nat :=
  match n with
  | O => None
  | S n' => if f n' then Some n' else last_such f n'
  end.

Definition byte_is (w : bytes) (f : ascii → bool) (i : nat) : bool :=
  match w !! i with Some b => f b | None => false end.

(** [strings.LastIndex(w, "\n\n")], [strings.LastIndexByte(w, '\n')],
    [strings.LastIndexAny(w, " \t")] *)
Definition last_paragraph (w : bytes) : option nat :=
  last_such (λ i, byte_is w (Ascii.eqb newline) i && byte_is w (Ascii.eqb newline) (S i)) (length w).

Definition last_line (w : bytes) : option nat :=
  last_such (byte_is w (Ascii.eqb newline)) (length w).

Definition last_blank (w : bytes) : option nat :=
  last_such (byte_is w (λ b, (byte_val b =? 32)%N || (byte_val b =? 9)%N)) (length w).

(** The loop that moves [limit] back to a rune start. *)
Fixpoint back_rune (body : bytes) (start limit : nat) : option nat :=
  match limit with
  | O => Some O
  | S limit' =>
    if start <? limit then
      b ← body !! limit;
      if RuneStart b then Some limit else back_rune body start limit'
    else Some limit
  end.

(** A soft cut after byte [i + k - 1] of the window, if it leaves more than
    the overlap. *)
Definition soft_cut (i : option nat) (k : nat) : option nat :=
  match i with
  | Some i => if chunkOverlapBytes <? i + k then Some (i + k) else None
  | None => None
  end.

Definition cutPoint (body : bytes) (start secEnd : nat) : option nat :=
  if secEnd - start <=? chunkWindowBytes then Some secEnd
  else
    limit ← back_rune body start (start + chunkWindowBytes);
    let window := slice body start limit in
    match soft_cut (last_paragraph window) 2 with
    | Some c => Some (start + c)
    | None =>
      match soft_cut (last_line window) 1 with
      | Some c => Some (start + c)
      | None =>
        match soft_cut (last_blank window) 1 with
        | Some c => Some (start + c)
        | None => Some limit
        end
      end
    end.

(** Advance from [i] while the byte satisfies [f], at most [k] times. *)
Fixpoint advance (body : bytes) (f : ascii → bool) (i k : nat) : option nat :=
  match k with
  | O => Some i
  | S k' => b ← body !! i; if f b then advance body f (S i) k' else Some i
  end.

(** The result [-1] is [Some None]. *)
Definition wordStartWithin (body : bytes) (from limit : nat) : option (option nat) :=
  if from =? 0 then Some None
  else
    before ← body !! (from - 1);
    if isSpaceByte before then Some None
    else
      at_from ← body !! from;
      if isSpaceByte at_from then Some None
      else
        i ← advance body (λ b, negb (isSpaceByte b)) from (limit - from);
        i ← advance body isSpaceByte i (limit - i);
        if limit <=? i then Some None else Some (Some i).

Definition nextWindowStart (body : bytes) (prevStart prevEnd : nat) : option nat :=
  let next := prevEnd - chunkOverlapBytes in
  let next := if next <=? prevStart then prevStart + 1 else next in
  next ← advance body (λ b, negb (RuneStart b)) next (prevEnd - next);
  ws ← wordStartWithin body next prevEnd;
  match ws with
  | Some ws => Some ws
  | None => Some next
  end.

(** The loop of [appendWindowSpans] from [start]. *)
Fixpoint window_spans (fuel : nat) (body : bytes) (start secEnd : nat) : option (list span) :=
  match fuel with
  | O => None
  | S fuel' =>
    if start <? secEnd then
      end_ ← cutPoint body start secEnd;
      if secEnd <=? end_ then Some [mkSpan start end_]
      else
        next ← nextWindowStart body start end_;
        rest ← window_spans fuel' body next secEnd;
        Some (mkSpan start end_ :: rest)
    else Some []
  end.

Definition appendWindowSpans (spans : list span) (body : bytes) (sec : span) : option (list span) :=
  new ← window_spans (S (sp_end sec - sp_start sec)) body (sp_start sec) (sp_end sec);
  Some (spans ++ new).

(** ** Email sections *)

(** [quoteMarkerRe]: [^On .+ wrote:\s*$] on a line without its newline. *)
Definition re_space (b : ascii) : bool :=
  (byte_val b =? 9)%N || (byte_val b =? 10)%N || (byte_val b =? 12)%N || (byte_val b =? 13)%N
  || (byte_val b =? 32)%N.

Fixpoint drop_while (f : ascii → bool) (l : bytes) : bytes :=
  match l with a :: l' => if f a then drop_while f l' else l | [] => [] end.

Definition quoteMarker (line : bytes) : bool :=
  let stripped := rev (drop_while re_space (rev line)) in
  bool_decide (take 3 stripped = to_bytes "On ") &&
  bool_decide (take 7 (rev stripped) = rev (to_bytes " wrote:")) &&
  (11 <=? length stripped).

Definition quotedLine (line : bytes) : bool :=
  match drop_while (λ b, (byte_val b =? 32)%N || (byte_val b =? 9)%N) line with
  | a :: _ => Ascii.eqb a ">"
  | [] => false
  end.

(** [strings.IndexByte(l, '\n')] *)
Fixpoint index_newline (l : bytes) : option nat :=
  match l with
  | [] => None
  | a :: l' => if Ascii.eqb a newline then Some 0 else S <$> index_newline l'
  end.

(** The scan over lines from [offset]: the section bounds found from here. *)
Fixpoint section_bounds (fuel : nat) (body : bytes) (offset : nat) (prevSticky : bool) : list nat :=
  match fuel with
  | O => []
  | S fuel' =>
    if offset <? length body then
      let '(lineEnd, next) :=
        match index_newline (drop offset body) with
        | Some nl => (offset + nl, offset + nl + 1)
        | None => (length body, length body)
        end in
      let line := slice body offset lineEnd in
      if String.eqb (TrimSpace (of_bytes line)) "" then section_bounds fuel' body next prevSticky
      else
        let quoted := quotedLine line in
        let marker := quoteMarker line in
        (if (0 <? offset) && (marker || (quoted && negb prevSticky)) then [offset] else [])
        ++ section_bounds fuel' body next (quoted || marker)
    else []
  end.

(** The spans between consecutive bounds, empty ones dropped. *)
Fixpoint bounds_spans (bounds : list nat) (len : nat) : list span :=
  match bounds with
  | [] => []
  | b :: bounds' =>
    let end_ := match bounds' with b' :: _ => b' | [] => len end in
    (if b <? end_ then [mkSpan b end_] else []) ++ bounds_spans bounds' len
  end.

Definition emailSections (body : bytes) : list span :=
  bounds_spans (0 :: section_bounds (S (length body)) body 0 false) (length body).

(** ** The whole *)
Fixpoint trunc_back (body : bytes) (end_ : nat) : option nat :=
  match end_ with
  | O => Some O
  | S end' => b ← body !! end_; if RuneStart b then Some end_ else trunc_back body end'
  end.

Definition truncateRuneSafe (body : bytes) (capBytes : nat) : option nat :=
  if length body <=? capBytes then Some (length body) else trunc_back body capBytes.

Fixpoint append_sections (body : bytes) (secs : list span) (spans : list span) : option (list span) :=
  match secs with
  | [] => Some spans
  | sec :: secs' =>
    spans ← appendWindowSpans spans body sec;
    append_sections body secs' spans
  end.

Definition buildSpans (type : DocType) (body : bytes) : option (list span) :=
  match type with
  | CHAT_MESSAGE | CALENDAR_EVENT =>
    e ← truncateRuneSafe body singleChunkCapBytes; Some [mkSpan 0 e]
  | EMAIL => append_sections body (emailSections body) []
  | _ => appendWindowSpans [] body (mkSpan 0 (length body))
  end.

Definition to_chunk (docId : string) (body : bytes) (i : nat) (sp : span) : Chunk :=
  mkChunk (docId +:+ "#" +:+ pretty i) (of_bytes (slice body (sp_start sp) (sp_end sp))) ""
    (Z.of_nat (sp_start sp)) (Z.of_nat (sp_end sp)) [] 0 0 "".

Definition buildChunks (doc : Document) : option (list Chunk * bool) :=
  let body := to_bytes (body_text doc) in
  if String.eqb (body_text doc) "" then Some ([], false)
  else
    spans ← buildSpans (doc_type doc) body;
    let truncated := maxChunksPerDoc <? length spans in
    let spans := if truncated then take maxChunksPerDoc spans else spans in
    Some (imap (to_chunk (doc_id doc) body) spans, truncated).
