(* ===== verification/ChunkerProofs.v ===== *)
(** * Chunking of document bodies: proofs

    UTF-8 text as a sequence of runes, and the theorems on [buildChunks]: it
    never panics, cuts only between runes, covers the body, overlaps boundedly
    and makes progress. *)

From stdpp Require Import base strings list pretty.
From Stdlib Require Import Ascii ZArith Lia Sorted.
From S2P Require Import Prelude GoStrings Document Chunker.

#[local] Transparent chunkWindowBytes chunkOverlapBytes.

(** ** Runes *)

(** The encoding of one rune: a start byte and up to three continuation
    bytes; an ASCII byte stands alone. *)
Definition rune (r : bytes) : Prop :=
  match r with
  | [] => False
  | h :: tl =>
    RuneStart h = true ∧ Forall (λ b, RuneStart b = false) tl ∧ length tl ≤ 3 ∧
    ((byte_val h < 128)%N → tl = [])
  end.

(** [p] is the offset of a rune of the text [rs], or its end. *)
Definition boundary (rs : list bytes) (p : nat) : Prop :=
  ∃ rs1 rs2, rs = rs1 ++ rs2 ∧ length (concat rs1) = p.

Lemma boundary_0 rs : boundary rs 0.
Proof. by exists [], rs. Qed.

Lemma boundary_end rs : boundary rs (length (concat rs)).
Proof. exists rs, []. by rewrite app_nil_r. Qed.

Lemma boundary_cons r rs p : boundary rs p → boundary (r :: rs) (length r + p).
Proof.
  intros (rs1 & rs2 & -> & Hp). exists (r :: rs1), rs2. split; [done|]. simpl.
  rewrite length_app. lia.
Qed.

(** The bytes of a text at an offset: in its first rune or in the rest. *)
Lemma concat_lookup (r : bytes) (rs : list bytes) p :
  concat (r :: rs) !! p = if decide (p < length r) then r !! p else concat rs !! (p - length r).
Proof.
  simpl. case_decide; [by rewrite lookup_app_l|]. by rewrite lookup_app_r by lia.
Qed.

Lemma start_boundary (rs : list bytes) p b :
  Forall rune rs → concat rs !! p = Some b → RuneStart b = true → boundary rs p.
Proof.
  intros Hrs. revert p. induction Hrs as [|r rs Hr Hrs IH]; intros p; [done|].
  rewrite concat_lookup. destruct r as [|h tl]; [done|]. destruct Hr as (Hh & Htl & _ & _).
  case_decide as Hp.
  - destruct p as [|p]; [intros _ _; apply boundary_0|]. simpl. intros Hb Hs.
    rewrite Forall_forall in Htl. rewrite (Htl b) in Hs; [done|]. by eapply list_elem_of_lookup_2.
  - intros Hb Hs. replace p with (length (h :: tl) + (p - length (h :: tl))) by lia.
    apply boundary_cons. by apply IH.
Qed.

Lemma ascii_RuneStart b : (byte_val b < 128)%N → RuneStart b = true.
Proof. by destruct b as [[] [] [] [] [] [] [] []]. Qed.

(** The offset after an ASCII byte is a boundary. *)
Lemma ascii_boundary (rs : list bytes) p b :
  Forall rune rs → concat rs !! p = Some b → (byte_val b < 128)%N → boundary rs (S p).
Proof.
  intros Hrs. revert p. induction Hrs as [|r rs Hr Hrs IH]; intros p; [done|].
  rewrite concat_lookup. destruct r as [|h tl]; [done|]. destruct Hr as (Hh & Htl & _ & Hasc).
  case_decide as Hp.
  - destruct p as [|p].
    + intros [= ->] Hb. rewrite (Hasc Hb). change 1 with (length [b] + 0). apply boundary_cons, boundary_0.
    + simpl. intros Hb Hlt. rewrite Forall_forall in Htl.
      pose proof (ascii_RuneStart b Hlt) as Hs. rewrite (Htl b) in Hs; [done|].
      by eapply list_elem_of_lookup_2.
  - intros Hb Hlt. replace (S p) with (length (h :: tl) + S (p - length (h :: tl))) by lia.
    apply boundary_cons. by apply IH.
Qed.

(** Among the four offsets up to [p], one starts a rune. *)
Lemma near_start (rs : list bytes) p :
  Forall rune rs → p < length (concat rs) →
  ∃ q b, q ≤ p ∧ p ≤ q + 3 ∧ concat rs !! q = Some b ∧ RuneStart b = true.
Proof.
  intros Hrs. revert p. induction Hrs as [|r rs Hr Hrs IH]; intros p Hp; simpl in Hp; [lia|].
  destruct r as [|h tl]; [done|]. destruct Hr as (Hh & Htl & Hlen & _).
  destruct (decide (p < length (h :: tl))) as [Hin|Hout].
  - exists 0, h. simpl in Hin. rewrite concat_lookup. rewrite decide_True by (simpl; lia).
    split_and!; [lia|lia|done|done].
  - rewrite length_app in Hp. destruct (IH (p - length (h :: tl))) as (q & b & H1 & H2 & Hq & Hb); [lia|].
    exists (length (h :: tl) + q), b. rewrite concat_lookup, decide_False by lia.
    split_and!; [lia|lia| |done]. by replace (length (h :: tl) + q - length (h :: tl)) with q by lia.
Qed.

(** Between two boundaries lie whole runes. *)
Lemma slice_runes (rs : list bytes) a b :
  boundary rs a → boundary rs b → a ≤ b →
  ∃ rs1 mid rs2, rs = rs1 ++ mid ++ rs2 ∧ length (concat rs1) = a ∧ slice (concat rs) a b = concat mid.
Proof.
  intros (r1 & r2 & -> & Ha) (r3 & r4 & Heq & Hb) Hab.
  assert (Hpre : ∃ m, r3 = r1 ++ m ∨ r1 = r3 ++ m ∧ concat m = []).
  { apply app_eq_inv in Heq as [(k & -> & ->)|(k & -> & ->)]; [|by exists k; left].
    exists k. right. split; [done|]. rewrite concat_app, length_app in Ha.
    apply nil_length_inv. lia. }
  destruct Hpre as [m [->|[-> Hm]]].
  - rewrite <- (assoc_L (++)) in Heq. apply app_inv_head in Heq as ->.
    exists r1, m, r4. split_and!; [done|done|]. unfold slice.
    rewrite !concat_app, <- Ha, drop_app_length.
    replace (b - length (concat r1)) with (length (concat m))
      by (rewrite concat_app, length_app in Hb; lia).
    by rewrite take_app_length.
  - exists (r3 ++ m), [], r2. split_and!; [done|done|]. unfold slice.
    rewrite concat_app, Hm, app_nil_r in Ha.
    replace (b - a) with 0 by lia. done.
Qed.

(** ** The loops *)
Lemma last_such_spec f n i : last_such f n = Some i → i < n ∧ f i = true.
Proof.
  induction n as [|n IH]; simpl; [done|]. destruct (f n) eqn:E.
  - intros [= <-]. auto.
  - intros [? ?]%IH. auto.
Qed.

Lemma byte_is_true w f i : byte_is w f i = true → ∃ b, w !! i = Some b ∧ f b = true.
Proof. unfold byte_is. destruct (w !! i) as [b|]; [eauto|done]. Qed.

Lemma slice_lookup body a b i x : slice body a b !! i = Some x → body !! (a + i) = Some x ∧ i < b - a.
Proof.
  unfold slice. intros H. rewrite lookup_take_Some in H. destruct H as [H Hi].
  by rewrite lookup_drop in H.
Qed.

Lemma index_newline_spec l :
  match index_newline l with
  | Some i => l !! i = Some newline ∧ ∀ j, j < i → l !! j ≠ Some newline
  | None => newline ∉ l
  end.
Proof.
  induction l as [|a l IH]; simpl; [apply not_elem_of_nil|].
  destruct (Ascii.eqb_spec a newline) as [->|Hne]; [split; [done|lia]|].
  destruct (index_newline l) as [i|]; simpl.
  - destruct IH as [Hi Hmin]. split; [done|]. intros [|j] Hj; simpl; [by intros [= ->]|]. apply Hmin. lia.
  - rewrite elem_of_cons. intros [<-|?]; done.
Qed.

(** What is left of a line without its trailing [f]-bytes is a prefix. *)
Lemma stripped_prefix f l : ∃ suf, l = rev (drop_while f (rev l)) ++ suf.
Proof.
  assert (H : ∀ m, ∃ pre, m = pre ++ drop_while f m).
  { induction m as [|a m [pre Hm]]; simpl; [by exists []|]. destruct (f a); [|by exists []].
    exists (a :: pre). simpl. by rewrite <- Hm. }
  destruct (H (rev l)) as [pre Hp]. exists (rev pre).
  rewrite <- rev_app_distr, <- Hp. by rewrite rev_involutive.
Qed.

(** A marker line is not blank: it starts with the letter O. *)
Lemma trim_right_rev_keeps l : trim_right_rev (l ++ ["O"%char]) ≠ [].
Proof.
  induction l as [l IH] using (induction_ltof1 _ length). unfold ltof in IH.
  destruct l as [|a [|b [|c l]]]; [done| | |]; simpl.
  - destruct (is_space1 a); [done|]. by destruct a as [[] [] [] [] [] [] [] []].
  - destruct (is_space1 a); [apply (IH [b]); simpl; lia|].
    destruct (is_space2 b a); [done|]. done.
  - destruct (is_space1 a); [apply (IH (b :: c :: l)); simpl; lia|].
    destruct (is_space2 b a); [apply (IH (c :: l)); simpl; lia|].
    destruct (is_space3 c b a); [|done]. apply IH. simpl. lia.
Qed.

Lemma quoteMarker_nonblank line :
  quoteMarker line = true → String.eqb (TrimSpace (of_bytes line)) "" = false.
Proof.
  unfold quoteMarker. intros [[H _]%andb_true_iff _]%andb_true_iff. apply bool_decide_eq_true in H.
  assert (Hl : ∃ tl, line = "O"%char :: tl).
  { destruct (stripped_prefix re_space line) as [suf Hs].
    destruct (rev (drop_while re_space (rev line))) as [|a l]; [done|].
    simpl in H. injection H as -> _. simpl in Hs. eauto. }
  destruct Hl as [tl ->]. apply String.eqb_neq. intros Hc.
  unfold TrimSpace in Hc. rewrite to_of_bytes in Hc.
  assert (Ht : trim_left ("O"%char :: tl) = "O"%char :: tl) by (by destruct tl as [|? [|??]]).
  rewrite Ht in Hc. unfold trim_right in Hc. simpl in Hc.
  apply (trim_right_rev_keeps (rev tl)).
  destruct (trim_right_rev (rev tl ++ ["O"%char])) as [|x l]; [done|].
  simpl in Hc. exfalso. by destruct (rev l).
Qed.

Section text.
Context (rs : list bytes).
Hypothesis Hrs : Forall rune rs.

Abbreviation body := (concat rs).

Lemma back_rune_spec start limit q0 b0 :
  limit < length body → start < q0 ≤ limit → body !! q0 = Some b0 → RuneStart b0 = true →
  ∃ q b, back_rune body start limit = Some q ∧ q0 ≤ q ≤ limit ∧ body !! q = Some b ∧ RuneStart b = true.
Proof using Type.
  intros Hl Hq Hb0 Hs0. induction limit as [|l IH]; [lia|]. cbn [back_rune].
  rewrite (proj2 (Nat.ltb_lt start (S l))) by lia.
  destruct (lookup_lt_is_Some_2 body (S l) Hl) as [b Hb]. rewrite Hb. simpl.
  destruct (RuneStart b) eqn:Es; [exists (S l), b; split_and!; (done || lia)|].
  assert (q0 ≠ S l) by (intros ->; congruence).
  destruct IH as (q & b' & Hq' & Hr & Hqb & Hqs); [lia|lia|].
  exists q, b'. split_and!; (done || lia).
Qed.

(** A cut after an ASCII byte of the window. *)
Lemma soft_cut_spec start limit i k c (f : ascii → bool) :
  soft_cut i k = Some c → (∀ b, f b = true → (byte_val b < 128)%N) → 1 ≤ k →
  (∀ j, i = Some j → byte_is (slice body start limit) f (j + k - 1) = true) →
  chunkOverlapBytes < c ≤ limit - start ∧ boundary rs (start + c).
Proof using Hrs.
  unfold soft_cut. destruct i as [i|]; [|done].
  destruct (Nat.ltb_spec chunkOverlapBytes (i + k)); [|done]. intros [= <-] Hf Hk Hi.
  destruct (byte_is_true _ _ _ (Hi i eq_refl)) as (b & [Hb Hlt]%slice_lookup & Hfb).
  split; [lia|]. replace (start + (i + k)) with (S (start + (i + k - 1))) by lia.
  eapply ascii_boundary; eauto.
Qed.

Lemma newline_ascii b : Ascii.eqb newline b = true → (byte_val b < 128)%N.
Proof using Type. by intros <-%Ascii.eqb_eq. Qed.

Lemma blank_ascii b : ((byte_val b =? 32)%N || (byte_val b =? 9)%N) = true → (byte_val b < 128)%N.
Proof using Type. rewrite orb_true_iff, !N.eqb_eq. lia. Qed.

Lemma space_ascii b : isSpaceByte b = true → (byte_val b < 128)%N.
Proof using Type. unfold isSpaceByte. rewrite !orb_true_iff, !N.eqb_eq. lia. Qed.

(** A window ends at a boundary, within the limit, and is longer than the
    overlap unless it is the last. *)
Lemma cutPoint_spec start secEnd :
  start < secEnd → secEnd ≤ length body → boundary rs secEnd →
  ∃ c, cutPoint body start secEnd = Some c ∧ start < c ≤ secEnd ∧ c - start ≤ chunkWindowBytes ∧
    boundary rs c ∧ (c = secEnd ∨ chunkOverlapBytes < c - start).
Proof using Hrs.
  intros Hlt Hle Hb. unfold cutPoint.
  destruct (Nat.leb_spec (secEnd - start) chunkWindowBytes) as [Hs|Hs].
  { exists secEnd. split_and!; (done || lia || by left). }
  destruct (near_start rs (start + chunkWindowBytes) Hrs) as (q0 & b0 & H1 & H2 & Hq0 & Hs0);
    [unfold chunkWindowBytes in *; lia|].
  destruct (back_rune_spec start (start + chunkWindowBytes) q0 b0) as (q & b & Hq & Hr & Hqb & Hqs);
    [unfold chunkWindowBytes in *; lia|unfold chunkWindowBytes in *; lia|done|done|].
  rewrite Hq. cbn [mbind option_bind].
  assert (Hout : ∀ c, chunkOverlapBytes < c ≤ q - start → boundary rs (start + c) →
    ∃ c', Some (start + c) = Some c' ∧ start < c' ≤ secEnd ∧ c' - start ≤ chunkWindowBytes ∧
      boundary rs c' ∧ (c' = secEnd ∨ chunkOverlapBytes < c' - start)).
  { intros c Hc Hbc. exists (start + c).
    split_and!; try done; unfold chunkWindowBytes, chunkOverlapBytes in *; lia. }
  destruct (soft_cut (last_paragraph _) 2) as [c|] eqn:E1.
  { eapply soft_cut_spec in E1 as [??]; [by apply Hout|apply newline_ascii|lia|].
    intros j Hj. apply last_such_spec in Hj as [_ Hj]. apply andb_true_iff in Hj as [_ Hj].
    by replace (j + 2 - 1) with (S j) by lia. }
  destruct (soft_cut (last_line _) 1) as [c|] eqn:E2.
  { eapply soft_cut_spec in E2 as [??]; [by apply Hout|apply newline_ascii|lia|].
    intros j Hj. apply last_such_spec in Hj as [_ Hj]. by replace (j + 1 - 1) with j by lia. }
  destruct (soft_cut (last_blank _) 1) as [c|] eqn:E3.
  { eapply soft_cut_spec in E3 as [??]; [by apply Hout|apply blank_ascii|lia|].
    intros j Hj. apply last_such_spec in Hj as [_ Hj]. by replace (j + 1 - 1) with j by lia. }
  exists q. unfold chunkWindowBytes, chunkOverlapBytes in *. split_and!; try done; try lia.
  by eapply start_boundary.
Qed.

Lemma advance_spec f i k :
  i + k ≤ length body →
  ∃ j, advance body f i k = Some j ∧ i ≤ j ≤ i + k ∧
    (∀ x, i ≤ x < j → byte_is body f x = true) ∧
    (j < i + k → byte_is body (λ b, negb (f b)) j = true).
Proof using Type.
  revert i. induction k as [|k IH]; intros i Hi; simpl.
  { exists i. split_and!; try done; lia. }
  destruct (lookup_lt_is_Some_2 body i) as [b Hb]; [lia|]. rewrite Hb. simpl.
  destruct (f b) eqn:E.
  - destruct (IH (S i)) as (j & Hj & Hr & Hall & Hstop); [lia|].
    exists j. split_and!; [done|lia|lia| |].
    + intros x Hx. destruct (decide (x = i)) as [->|]; [unfold byte_is; by rewrite Hb|].
      apply Hall. lia.
    + intros Hlt. apply Hstop. lia.
  - exists i. split_and!; [done|lia|lia|intros x Hx; lia|].
    intros _. unfold byte_is. by rewrite Hb, E.
Qed.

(** The next word start follows a space, strictly inside the overlap. *)
Lemma wordStartWithin_spec from limit :
  from ≤ limit → limit < length body →
  ∃ r, wordStartWithin body from limit = Some r ∧
    match r with Some i => from < i < limit ∧ boundary rs i | None => True end.
Proof using Hrs.
  intros Hf Hl. unfold wordStartWithin. destruct (Nat.eqb_spec from 0); [by exists None|].
  destruct (lookup_lt_is_Some_2 body (from - 1)) as [b0 Hb0]; [lia|]. rewrite Hb0. simpl.
  destruct (isSpaceByte b0); [by exists None|].
  destruct (lookup_lt_is_Some_2 body from) as [b1 Hb1]; [lia|]. rewrite Hb1. simpl.
  destruct (isSpaceByte b1) eqn:Es1; [by exists None|].
  destruct (advance_spec (λ b, negb (isSpaceByte b)) from (limit - from)) as (i & Hi & Hri & Hall & Hstop); [lia|].
  rewrite Hi. simpl.
  destruct (advance_spec isSpaceByte i (limit - i)) as (j & Hj & Hrj & Hallj & Hstopj); [lia|].
  rewrite Hj. simpl. destruct (Nat.leb_spec limit j); [by exists None|].
  exists (Some j). split; [done|].
  assert (Hilim : i < limit) by lia.
  assert (Hsp : byte_is body isSpaceByte i = true).
  { assert (Hst : byte_is body (λ b, negb (negb (isSpaceByte b))) i = true) by (apply Hstop; lia).
    apply byte_is_true in Hst as (b & Hb & Hn). unfold byte_is. rewrite Hb.
    by rewrite negb_involutive in Hn. }
  assert (Hij : i < j).
  { destruct (decide (i = j)) as [->|]; [|lia].
    assert (Hst : byte_is body (λ b, negb (isSpaceByte b)) j = true) by (apply Hstopj; lia).
    apply byte_is_true in Hst as (b & Hb & Hn). unfold byte_is in Hsp. rewrite Hb in Hsp.
    by rewrite Hsp in Hn. }
  split; [lia|]. destruct (byte_is_true _ _ _ (Hallj (j - 1) ltac:(lia))) as (b & Hb & Hsb).
  replace j with (S (j - 1)) by lia. eapply ascii_boundary; eauto. by apply space_ascii.
Qed.

Lemma nextWindowStart_spec prevStart prevEnd :
  prevEnd < length body → boundary rs prevEnd → chunkOverlapBytes < prevEnd - prevStart →
  ∃ n, nextWindowStart body prevStart prevEnd = Some n ∧ prevStart < n ≤ prevEnd ∧ boundary rs n ∧
    prevEnd - n ≤ chunkOverlapBytes.
Proof using Hrs.
  intros Hl Hb Hov. unfold nextWindowStart.
  rewrite (proj2 (Nat.leb_gt _ _)) by lia.
  set (n0 := prevEnd - chunkOverlapBytes).
  destruct (advance_spec (λ b, negb (RuneStart b)) n0 (prevEnd - n0)) as (n & Hn & Hr & _ & Hstop); [lia|].
  rewrite Hn. cbn [mbind option_bind].
  assert (Hnb : boundary rs n).
  { destruct (decide (n = prevEnd)) as [->|]; [done|].
    assert (Hst : byte_is body (λ b, negb (negb (RuneStart b))) n = true) by (apply Hstop; lia).
    apply byte_is_true in Hst as (b & Hbn & Hs). rewrite negb_involutive in Hs.
    by eapply start_boundary. }
  destruct (wordStartWithin_spec n prevEnd) as (ws & Hws & Hspec); [lia|lia|].
  rewrite Hws. cbn [mbind option_bind]. destruct ws as [ws|].
  - destruct Hspec as [Hi Hbi]. exists ws. split_and!; try done; lia.
  - exists n. split_and!; try done; lia.
Qed.

(** ** Tilings

    [chain a b l]: the spans [l] cover [a, b) in order, without a gap.  Each
    span is a non-empty piece of whole runes of at most a window; the next one
    starts after its start, overlaps its last bytes by no more than the
    overlap, and ends after its end. *)
Inductive chain : nat → nat → list span → Prop :=
| chain_last a b :
    a < b → b - a ≤ chunkWindowBytes → boundary rs a → boundary rs b → chain a b [mkSpan a b]
| chain_more a e n b sp l :
    a < e → e - a ≤ chunkWindowBytes → boundary rs a → boundary rs e →
    a < n ≤ e → e - n ≤ chunkOverlapBytes → e < sp_end sp →
    chain n b (sp :: l) → chain a b (mkSpan a e :: sp :: l).

Lemma chain_lt a b l : chain a b l → a < b.
Proof using Type. induction 1; lia. Qed.

Lemma chain_inv a b l : chain a b l → ∃ e l', l = mkSpan a e :: l' ∧ a < e.
Proof using Type. by inversion 1; subst; eauto. Qed.

(** Adjacent tilings compose. *)
Lemma chain_app a m b l1 l2 : chain a m l1 → chain m b l2 → chain a b (l1 ++ l2).
Proof using Type.
  intros H1 H2. induction H1 as [a m|a e n m sp l]; simpl.
  - destruct (chain_inv _ _ _ H2) as (e & l' & -> & ?).
    apply (chain_more _ _ m); simpl; try done; lia.
  - eapply chain_more; eauto.
Qed.

Lemma chain_span a b l sp :
  chain a b l → sp ∈ l →
  a ≤ sp_start sp ∧ sp_start sp < sp_end sp ∧ sp_end sp ≤ b ∧
  sp_end sp - sp_start sp ≤ chunkWindowBytes ∧ boundary rs (sp_start sp) ∧ boundary rs (sp_end sp).
Proof using Type.
  intros H. revert sp.
  induction H as [a b|a e n b sp' l Hae Hw Ha He Hn Hov Hsp H IH]; intros sp Hin.
  - apply list_elem_of_singleton in Hin as ->. simpl. split_and!; (done || lia).
  - apply elem_of_cons in Hin as [->|Hin].
    + assert (sp_end sp' ≤ b) by (apply (IH sp'); by left). simpl. split_and!; (done || lia).
    + destruct (IH sp Hin) as (? & ? & ? & ? & ? & ?). split_and!; (done || lia).
Qed.

(** A non-empty prefix of a tiling is a tiling, a proper one of less. *)
Lemma chain_take a b l k : chain a b l → ∃ e, e ≤ b ∧ (S k < length l → e < b) ∧ chain a e (take (S k) l).
Proof using Type.
  intros H. revert k. induction H as [a b|a e n b sp l Hae Hw Ha He Hn Hov Hsp H IH]; intros k; simpl.
  - exists b. rewrite take_nil. split; [done|]. split; [lia|by constructor].
  - destruct k as [|k]; simpl.
    + exists e. destruct (chain_span _ _ _ sp H) as (_ & _ & ? & _); [by left|].
      split; [lia|]. split; [lia|by constructor].
    + destruct (IH k) as (e' & Hle & Hlt & IH'). exists e'. split; [done|]. simpl in IH', Hlt. split; [intros; apply Hlt; lia|].
      eapply chain_more; eauto.
Qed.

(** Every offset of the tiled range lies in some span. *)
Lemma chain_covers a b l p : chain a b l → a ≤ p < b → ∃ sp, sp ∈ l ∧ sp_start sp ≤ p < sp_end sp.
Proof using Type.
  induction 1 as [a b|a e n b sp l Hae Hw Ha He Hn Hov Hsp H IH]; intros Hp.
  - exists (mkSpan a b). split; [by apply list_elem_of_singleton|done].
  - destruct (decide (p < e)).
    + exists (mkSpan a e). split; [by left|]. simpl. lia.
    + destruct IH as (sp' & Hin & ?); [lia|]. exists sp'. split; [by right|done].
Qed.

(** A section is tiled by its windows, within the fuel. *)
Lemma window_spans_chain fuel start secEnd :
  secEnd - start < fuel → start < secEnd → secEnd ≤ length body →
  boundary rs start → boundary rs secEnd →
  ∃ sp l, window_spans fuel body start secEnd = Some (sp :: l) ∧ chain start secEnd (sp :: l) ∧
    (sp_end sp = secEnd ∨ chunkOverlapBytes < sp_end sp - start).
Proof using Hrs.
  revert start. induction fuel as [|fuel IH]; intros start Hf Hlt Hle Hbs Hbe; [lia|].
  cbn [window_spans]. rewrite (proj2 (Nat.ltb_lt _ _) Hlt).
  destruct (cutPoint_spec start secEnd Hlt Hle Hbe) as (c & Hc & Hr & Hw & Hbc & Hprog).
  rewrite Hc. cbn [mbind option_bind]. destruct (Nat.leb_spec secEnd c) as [Hend|Hend].
  { assert (c = secEnd) as -> by lia. eexists _, []. split_and!; [done|by constructor|by left]. }
  destruct Hprog as [->|Hprog]; [lia|].
  destruct (nextWindowStart_spec start c) as (n & Hn & Hnr & Hbn & Hov); [lia|done|done|].
  rewrite Hn. cbn [mbind option_bind].
  destruct (IH n) as (sp & l & Hl & Hch & Hend'); [lia|lia|done|done|done|].
  rewrite Hl. cbn [mbind option_bind]. eexists _, _. split_and!; [done| |by right].
  apply (chain_more _ _ n); try done; lia.
Qed.

Lemma appendWindowSpans_chain spans sec :
  sp_start sec < sp_end sec → sp_end sec ≤ length body →
  boundary rs (sp_start sec) → boundary rs (sp_end sec) →
  ∃ l, appendWindowSpans spans body sec = Some (spans ++ l) ∧ chain (sp_start sec) (sp_end sec) l.
Proof using Hrs.
  intros. unfold appendWindowSpans.
  destruct (window_spans_chain (S (sp_end sec - sp_start sec)) (sp_start sec) (sp_end sec))
    as (sp & l & Hl & Hch & _); [lia|done..|].
  rewrite Hl. cbn [mbind option_bind]. eauto.
Qed.

(** ** Email sections *)
Lemma newline_boundary p : body !! p = Some newline → boundary rs (S p).
Proof using Hrs. intros H. by eapply ascii_boundary. Qed.

(** The end of the line at [offset] and the start of the next. *)
Definition line_bounds (offset : nat) : nat * nat :=
  match index_newline (drop offset body) with
  | Some nl => (offset + nl, offset + nl + 1)
  | None => (length body, length body)
  end.

Lemma line_bounds_spec offset :
  offset < length body →
  offset < (line_bounds offset).2 ≤ length body ∧ boundary rs (line_bounds offset).2 ∧
  ∀ p, offset ≤ p → body !! p = Some newline → (line_bounds offset).2 ≤ S p.
Proof using Hrs.
  intros Ho. unfold line_bounds. pose proof (index_newline_spec (drop offset body)) as H.
  destruct (index_newline _) as [nl|]; simpl.
  - destruct H as [Hnl Hmin]. rewrite lookup_drop in Hnl. pose proof (lookup_lt_Some _ _ _ Hnl).
    split_and!; [lia|lia| |].
    + rewrite Nat.add_1_r. by apply newline_boundary.
    + intros p Hp Hb. destruct (decide (p < offset + nl)); [|lia].
      exfalso. apply (Hmin (p - offset)); [lia|]. rewrite lookup_drop.
      by replace (offset + (p - offset)) with p by lia.
  - split_and!; [lia|lia|apply boundary_end|]. intros p Hp Hb. exfalso.
    apply H. apply (list_elem_of_lookup_2 _ (p - offset)). rewrite lookup_drop.
    by replace (offset + (p - offset)) with p by lia.
Qed.

Lemma section_bounds_spec fuel offset sticky :
  boundary rs offset →
  StronglySorted lt (section_bounds fuel body offset sticky) ∧
  Forall (λ p, offset ≤ p < length body ∧ 0 < p ∧ boundary rs p) (section_bounds fuel body offset sticky).
Proof using Hrs.
  revert offset sticky. induction fuel as [|fuel IH]; intros offset sticky Hb; simpl; [repeat constructor|].
  destruct (Nat.ltb_spec offset (length body)) as [Hlt|]; [|repeat constructor].
  pose proof (line_bounds_spec offset Hlt) as (Hn & Hbn & _). unfold line_bounds in *.
  destruct (match index_newline (drop offset body) with Some _ => _ | None => _ end) as [lineEnd next].
  simpl in *.
  assert (Hrest : ∀ st, Forall (λ p, offset ≤ p < length body ∧ 0 < p ∧ boundary rs p)
    (section_bounds fuel body next st)).
  { intros st. destruct (IH next st Hbn) as [_ HF]. eapply Forall_impl; [exact HF|].
    simpl. intros p (? & ? & ?). split_and!; (done || lia). }
  case_match; [split; [by apply IH|done]|].
  case_match eqn:Ecut; simpl; [|split; [by apply IH|done]].
  apply andb_true_iff in Ecut as [Hpos%Nat.ltb_lt _].
  match goal with |- context [section_bounds fuel body next ?st] => destruct (IH next st Hbn) as [HS HF] end.
  split; constructor; try done.
  eapply Forall_impl; [exact HF|]. simpl. intros p (? & ? & ?). lia.
Qed.

(** Every marker line found from [offset] on starts a section. *)
Lemma section_bounds_marker fuel offset sticky p :
  length body - offset < fuel → offset ≤ p → 0 < p < length body →
  (p = offset ∨ body !! (p - 1) = Some newline) →
  quoteMarker (slice body p (line_bounds p).1) = true →
  p ∈ section_bounds fuel body offset sticky.
Proof using Hrs.
  revert offset sticky. induction fuel as [|fuel IH]; intros offset sticky Hf Hle Hp Hstart Hm; [lia|].
  cbn [section_bounds]. rewrite (proj2 (Nat.ltb_lt offset (length body))) by lia.
  pose proof (line_bounds_spec offset ltac:(lia)) as (Hn & _ & Hnext).
  change (match index_newline (drop offset body) with Some nl => _ | None => _ end)
    with (line_bounds offset).
  destruct (decide (p = offset)) as [<-|Hne].
  - destruct (line_bounds p) as [lineEnd next]. simpl in *.
    rewrite (quoteMarker_nonblank _ Hm). rewrite Hm, (proj2 (Nat.ltb_lt 0 p)) by lia. by left.
  - destruct Hstart as [->|Hnl]; [done|]. assert ((line_bounds offset).2 ≤ p).
    { specialize (Hnext (p - 1)). assert (offset ≤ p - 1) by lia. apply Hnext in Hnl; lia. }
    destruct (line_bounds offset) as [lineEnd next]. simpl in *.
    case_match; [apply IH; auto; lia|]. apply elem_of_app. right. apply IH; auto; lia.
Qed.

(** The sections between sorted bounds: each is tiled by its windows. *)
Lemma append_sections_chain b l spans :
  StronglySorted lt (b :: l) → Forall (λ p, p < length body ∧ boundary rs p) (b :: l) →
  ∃ w, append_sections body (bounds_spans (b :: l) (length body)) spans = Some (spans ++ w) ∧
    chain b (length body) w ∧
    ∀ sp p, sp ∈ w → p ∈ b :: l → ¬ (sp_start sp < p < sp_end sp).
Proof using Hrs.
  revert b spans. induction l as [|b' l IH]; intros b spans HS HF; apply Forall_cons in HF as [[Hb Hbb] HF].
  - simpl. rewrite (proj2 (Nat.ltb_lt b (length body))) by lia. simpl.
    destruct (appendWindowSpans_chain spans (mkSpan b (length body))) as (w & Hw & Hch);
      [done|done|done|apply boundary_end|].
    rewrite Hw. simpl. exists w. split_and!; [done|done|].
    intros sp p Hsp Hp%list_elem_of_singleton. apply (chain_span _ _ _ _ Hch) in Hsp. simpl in Hsp. lia.
  - pose proof HF as HF'. apply Forall_cons in HF' as [[Hb' Hbb'] _].
    apply StronglySorted_inv in HS as [HS Hlt]. apply Forall_cons in Hlt as [Hbl Hlt].
    change (bounds_spans (b :: b' :: l) (length body)) with
      ((if b <? b' then [mkSpan b b'] else []) ++ bounds_spans (b' :: l) (length body)).
    rewrite (proj2 (Nat.ltb_lt b b')) by lia. cbn [app].
    remember (bounds_spans (b' :: l) (length body)) as secs eqn:Hsecs. cbn [append_sections].
    destruct (appendWindowSpans_chain spans (mkSpan b b')) as (w & Hw & Hch); simpl; [lia|lia|done|done|].
    rewrite Hw. cbn [mbind option_bind].
    destruct (IH b' (spans ++ w) HS HF) as (w' & Hw' & Hch' & Hin).
    exists (w ++ w'). rewrite <- Hsecs in Hw'. rewrite Hw', (assoc_L (++)). split_and!; [done|by eapply chain_app|].
    intros sp p [Hsp|Hsp]%elem_of_app Hp.
    + apply (chain_span _ _ _ _ Hch) in Hsp. simpl in Hsp.
      apply elem_of_cons in Hp as [->|Hp]; [lia|].
      apply elem_of_cons in Hp as [->|Hp]; [lia|].
      apply StronglySorted_inv in HS as [_ HS]. apply list_elem_of_In in Hp.
      pose proof (proj1 (List.Forall_forall _ _) HS p Hp). lia.
    + apply elem_of_cons in Hp as [->|Hp]; [|by apply Hin].
      apply (chain_span _ _ _ _ Hch') in Hsp. lia.
Qed.

(** ** Single chunks *)
Lemma boundary_start x : boundary rs x → x < length body → ∃ b, body !! x = Some b ∧ RuneStart b = true.
Proof using Hrs.
  intros (r1 & r2 & Heq & Hx) Hlt. destruct r2 as [|r r2].
  { rewrite Heq, app_nil_r in Hlt. lia. }
  rewrite Heq in Hrs. apply Forall_app in Hrs as [_ [Hr _]%Forall_cons].
  destruct r as [|h tl]; [done|]. exists h. destruct Hr as [Hh _]. split; [|done].
  rewrite Heq, concat_app, lookup_app_r by lia. by rewrite Hx, Nat.sub_diag.
Qed.

(** [p] is the end of the longest prefix of whole runes within [cap]. *)
Definition longest_prefix (cap p : nat) : Prop :=
  p ≤ cap ∧ boundary rs p ∧ ∀ x, boundary rs x → x ≤ cap → x ≤ length body → x ≤ p.

Lemma trunc_back_spec cap :
  cap < length body → ∃ q, trunc_back body cap = Some q ∧ longest_prefix cap q.
Proof using Hrs.
  induction cap as [|cap IH]; intros Hlt; cbn [trunc_back].
  { exists 0. split; [done|]. split_and!; [done|apply boundary_0|auto]. }
  destruct (lookup_lt_is_Some_2 body (S cap) Hlt) as [b Hb]. rewrite Hb. cbn [mbind option_bind].
  destruct (RuneStart b) eqn:Es.
  { exists (S cap). split; [done|]. split_and!; [done|by eapply start_boundary|auto]. }
  destruct IH as (q & Hq & Hle & Hbq & Hmax); [lia|]. exists q. split; [done|].
  split_and!; [lia|done|]. intros x Hx Hxc Hxl.
  assert (x ≠ S cap) by (intros ->; destruct (boundary_start _ Hx Hlt) as (? & ? & ?); congruence).
  apply Hmax; auto; lia.
Qed.

Lemma truncateRuneSafe_spec cap :
  ∃ q, truncateRuneSafe body cap = Some q ∧ longest_prefix cap q ∧ q ≤ length body.
Proof using Hrs.
  unfold truncateRuneSafe. destruct (Nat.leb_spec (length body) cap) as [Hle|Hlt].
  - exists (length body). split; [done|]. split; [|done]. split_and!; [done|apply boundary_end|auto].
  - destruct (trunc_back_spec cap Hlt) as (q & Hq & Hlp). exists q. split; [done|]. split; [done|].
    destruct Hlp as [? _]. lia.
Qed.

Lemma longest_prefix_pos cap q : 3 < cap → 0 < length body → longest_prefix cap q → 0 < q.
Proof using Hrs.
  intros Hcap Hlen (Hle & _ & Hmax). destruct (decide (length body ≤ cap)) as [Hs|Hs].
  - specialize (Hmax _ (boundary_end rs)). lia.
  - destruct (near_start rs cap Hrs) as (x & b & H1 & H2 & Hx & Hsx); [lia|].
    pose proof (lookup_lt_Some _ _ _ Hx).
    assert (x ≤ q); [|lia]. apply Hmax; [by eapply start_boundary|lia|lia].
Qed.

(** ** The whole *)

(** What the spans of a non-empty body are, by document type. *)
Definition spans_ok (type : DocType) (e : nat) (l : list span) : Prop :=
  match type with
  | CHAT_MESSAGE | CALENDAR_EVENT => l = [mkSpan 0 e] ∧ longest_prefix singleChunkCapBytes e
  | _ => chain 0 e l
  end.

Definition full_end (type : DocType) (e : nat) : Prop :=
  match type with
  | CHAT_MESSAGE | CALENDAR_EVENT => e ≤ length body ∧ (e = length body ↔ length body ≤ singleChunkCapBytes)
  | _ => e = length body
  end.

Lemma longest_whole cap e : longest_prefix cap e → e ≤ length body → e = length body ↔ length body ≤ cap.
Proof using Hrs. intros (He & _ & Hmax) Hle. split; [lia|]. intros Hc. specialize (Hmax _ (boundary_end rs)). lia. Qed.

Lemma email_spans :
  0 < length body → ∃ w, append_sections body (emailSections body) [] = Some w ∧
    chain 0 (length body) w ∧ w ≠ [] ∧
    ∀ p sp, 0 < p < length body → body !! (p - 1) = Some newline →
      quoteMarker (slice body p (line_bounds p).1) = true → sp ∈ w →
      ¬ (sp_start sp < p < sp_end sp).
Proof using Hrs.
  intros Hlen. unfold emailSections.
  destruct (section_bounds_spec (S (length body)) 0 false (boundary_0 rs)) as [HS HF].
  destruct (append_sections_chain 0 (section_bounds (S (length body)) body 0 false) [])
    as (w & Hw & Hch & Hcross).
  - constructor; [done|]. eapply Forall_impl; [exact HF|]. simpl. lia.
  - constructor; [by split; [|apply boundary_0]|]. eapply Forall_impl; [exact HF|]. naive_solver.
  - exists w. split_and!; [done|done| |].
    { by destruct (chain_inv _ _ _ Hch) as (? & ? & -> & _). }
    intros p sp Hp Hnl Hm Hsp. apply Hcross; [done|]. right.
    apply section_bounds_marker; auto; lia.
Qed.

Lemma buildSpans_spec type :
  body ≠ [] → ∃ spans e, buildSpans type body = Some spans ∧ spans_ok type e spans ∧ full_end type e ∧
    spans ≠ [] ∧
    ∀ p sp, type = EMAIL → 0 < p < length body → body !! (p - 1) = Some newline →
      quoteMarker (slice body p (line_bounds p).1) = true → sp ∈ spans →
      ¬ (sp_start sp < p < sp_end sp).
Proof using Hrs.
  intros Hne. assert (Hlen : 0 < length body) by (destruct body; [done|simpl; lia]).
  assert (Hsingle : ∃ e, (e ← truncateRuneSafe body singleChunkCapBytes; Some [mkSpan 0 e])
      = Some [mkSpan 0 e] ∧ longest_prefix singleChunkCapBytes e ∧ e ≤ length body).
  { destruct (truncateRuneSafe_spec singleChunkCapBytes) as (q & -> & Hq & Hle). by exists q. }
  assert (Hwin : ∃ w, appendWindowSpans [] body (mkSpan 0 (length body)) = Some w ∧
      chain 0 (length body) w ∧ w ≠ []).
  { destruct (appendWindowSpans_chain [] (mkSpan 0 (length body))) as (w & Hw & Hch);
      [done|done|apply boundary_0|apply boundary_end|].
    exists w. split_and!; try done. by destruct (chain_inv _ _ _ Hch) as (? & ? & -> & _). }
  assert (Hemail := email_spans Hlen).
  destruct type; cbn [buildSpans spans_ok full_end].
  2: by destruct Hemail as (w & ? & ? & ? & ?); exists w, (length body); split_and!; auto.
  all: try (destruct Hsingle as (e & -> & ? & ?); exists [mkSpan 0 e], e; split_and!; (done || by apply longest_whole)).
  all: destruct Hwin as (w & -> & ? & ?); exists w, (length body); by split_and!.
Qed.

Lemma single_cap_large : 3 < singleChunkCapBytes.
Proof using Type. apply Nat.ltb_lt. vm_compute. reflexivity. Qed.

(** Each span is a non-empty run of whole runes within its type's bound. *)
Definition chunk_cap (type : DocType) : nat :=
  match type with CHAT_MESSAGE | CALENDAR_EVENT => singleChunkCapBytes | _ => chunkWindowBytes end.

Lemma spans_ok_span type e l sp :
  0 < length body → e ≤ length body → spans_ok type e l → sp ∈ l →
  sp_start sp < sp_end sp ≤ length body ∧ sp_end sp - sp_start sp ≤ chunk_cap type ∧
  boundary rs (sp_start sp) ∧ boundary rs (sp_end sp).
Proof using Hrs.
  intros Hlen He Hok Hin.
  destruct type; simpl in *;
    try (destruct Hok as [-> Hlp]; apply list_elem_of_singleton in Hin as ->; simpl;
         pose proof (longest_prefix_pos _ _ single_cap_large Hlen Hlp);
         destruct Hlp as (? & ? & _); split_and!; (done || lia || apply boundary_0)).
  all: destruct (chain_span _ _ _ _ Hok Hin) as (? & ? & ? & ? & ? & ?); split_and!; (done || lia).
Qed.
End text.

(** ** Totality on arbitrary bytes

    No index is out of range even when the body is not UTF-8. *)
Section total.
Context (body : bytes).

Lemma back_rune_total start limit :
  start ≤ limit < length body → ∃ q, back_rune body start limit = Some q ∧ start ≤ q ≤ limit.
Proof using Type.
  induction limit as [|l IH]; intros H; cbn [back_rune]; [exists 0; split; [done|lia]|].
  destruct (Nat.ltb_spec start (S l)); [|exists (S l); split; [done|lia]].
  destruct (lookup_lt_is_Some_2 body (S l)) as [b ->]; [lia|]. cbn [mbind option_bind].
  destruct (RuneStart b); [exists (S l); split; [done|lia]|].
  destruct IH as (q & -> & ?); [lia|]. exists q. split; [done|lia].
Qed.

Lemma last_paragraph_fits w c : soft_cut (last_paragraph w) 2 = Some c → c ≤ length w.
Proof using Type.
  unfold soft_cut, last_paragraph. destruct (last_such _ _) as [i|] eqn:E; [|done].
  apply last_such_spec in E as [? [_ Hi]%andb_true_iff]. apply byte_is_true in Hi as (b & Hb & _).
  apply lookup_lt_Some in Hb. case_match; [|done]. intros [= <-]. lia.
Qed.

Lemma soft_cut_fits f (w : bytes) c : soft_cut (last_such f (length w)) 1 = Some c → c ≤ length w.
Proof using Type.
  unfold soft_cut. destruct (last_such f _) as [i|] eqn:E; [|done].
  apply last_such_spec in E as [? _]. case_match; [|done]. intros [= <-]. lia.
Qed.

Lemma cutPoint_total start secEnd :
  start < secEnd ≤ length body →
  ∃ c, cutPoint body start secEnd = Some c ∧ start ≤ c ≤ secEnd ∧
    (c = secEnd ∨ chunkWindowBytes < secEnd - start).
Proof using Type.
  intros Hs. unfold cutPoint. destruct (Nat.leb_spec (secEnd - start) chunkWindowBytes) as [|Hw].
  { exists secEnd. split_and!; [done|lia|lia|by left]. }
  destruct (back_rune_total start (start + chunkWindowBytes)) as (q & -> & Hq); [lia|].
  cbn [mbind option_bind].
  assert (Hlen : length (slice body start q) ≤ q - start).
  { unfold slice. rewrite length_take. lia. }
  destruct (soft_cut (last_paragraph _) 2) as [c|] eqn:E1.
  { apply last_paragraph_fits in E1. exists (start + c). split_and!; [done|lia|lia|by right]. }
  destruct (soft_cut (last_line _) 1) as [c|] eqn:E2.
  { apply soft_cut_fits in E2. exists (start + c). split_and!; [done|lia|lia|by right]. }
  destruct (soft_cut (last_blank _) 1) as [c|] eqn:E3.
  { apply soft_cut_fits in E3. exists (start + c). split_and!; [done|lia|lia|by right]. }
  exists q. split_and!; [done|lia|lia|by right].
Qed.

Lemma advance_total f i k :
  i + k ≤ length body → ∃ j, advance body f i k = Some j ∧ i ≤ j ≤ i + k.
Proof using Type.
  revert i. induction k as [|k IH]; intros i Hi; simpl; [exists i; split; [done|lia]|].
  destruct (lookup_lt_is_Some_2 body i) as [b ->]; [lia|]. simpl.
  destruct (f b); [|exists i; split; [done|lia]].
  destruct (IH (S i)) as (j & -> & ?); [lia|]. exists j. split; [done|lia].
Qed.

Lemma wordStartWithin_total from limit :
  from < length body → limit ≤ length body →
  ∃ r, wordStartWithin body from limit = Some r ∧
    match r with Some i => from ≤ i < limit | None => True end.
Proof using Type.
  intros Hf Hl. unfold wordStartWithin. destruct (Nat.eqb_spec from 0); [by exists None|].
  destruct (lookup_lt_is_Some_2 body (from - 1)) as [b0 ->]; [lia|]. simpl.
  destruct (isSpaceByte b0); [by exists None|].
  destruct (lookup_lt_is_Some_2 body from) as [b1 ->]; [lia|]. simpl.
  destruct (isSpaceByte b1); [by exists None|].
  destruct (advance_total (λ b, negb (isSpaceByte b)) from (limit - from)) as (i & -> & Hi); [lia|]. simpl.
  destruct (advance_total isSpaceByte i (limit - i)) as (j & -> & Hj); [lia|]. simpl.
  destruct (Nat.leb_spec limit j); [by exists None|]. exists (Some j). split; [done|lia].
Qed.

Lemma nextWindowStart_total prevStart prevEnd :
  prevStart ≤ prevEnd < length body → S prevStart < length body →
  ∃ n, nextWindowStart body prevStart prevEnd = Some n ∧ prevStart < n ≤ Nat.max prevEnd (S prevStart).
Proof using Type.
  intros Hp Hs. unfold nextWindowStart.
  set (next := if prevEnd - chunkOverlapBytes <=? prevStart then prevStart + 1
               else prevEnd - chunkOverlapBytes).
  assert (Hn : prevStart < next ≤ Nat.max prevEnd (S prevStart)).
  { unfold next. destruct (Nat.leb_spec (prevEnd - chunkOverlapBytes) prevStart); lia. }
  clearbody next.
  destruct (advance_total (λ b, negb (RuneStart b)) next (prevEnd - next)) as (j & -> & Hj); [lia|].
  cbn [mbind option_bind].
  destruct (wordStartWithin_total j prevEnd) as (ws & -> & Hws); [lia|lia|]. cbn [mbind option_bind].
  destruct ws as [ws|]; [exists ws|exists j]; (split; [done|lia]).
Qed.

Lemma window_spans_total fuel start secEnd :
  secEnd - start < fuel → secEnd ≤ length body →
  ∃ l, window_spans fuel body start secEnd = Some l.
Proof using Type.
  revert start. induction fuel as [|fuel IH]; intros start Hf Hle; [lia|]. cbn [window_spans].
  destruct (Nat.ltb_spec start secEnd) as [Hlt|]; [|eauto].
  destruct (cutPoint_total start secEnd) as (c & -> & Hc & Hw); [lia|]. cbn [mbind option_bind].
  destruct (Nat.leb_spec secEnd c); [eauto|].
  assert (chunkWindowBytes < secEnd - start) by (destruct Hw; lia).
  destruct (nextWindowStart_total start c) as (n & -> & Hn); [lia|unfold chunkWindowBytes in *; lia|].
  cbn [mbind option_bind]. destruct (IH n) as [l ->]; [unfold chunkWindowBytes in *; lia|done|]. eauto.
Qed.

Lemma appendWindowSpans_total spans sec :
  sp_end sec ≤ length body → ∃ l, appendWindowSpans spans body sec = Some l.
Proof using Type.
  intros H. unfold appendWindowSpans.
  destruct (window_spans_total (S (sp_end sec - sp_start sec)) (sp_start sec) (sp_end sec)) as [l ->];
    [lia|done|]. cbn [mbind option_bind]. eauto.
Qed.

Lemma bounds_spans_fit bounds :
  Forall (λ p, p ≤ length body) bounds → Forall (λ s, sp_end s ≤ length body) (bounds_spans bounds (length body)).
Proof using Type.
  induction 1 as [|b l Hb Hl IH]; simpl; [constructor|]. apply Forall_app. split; [|done].
  case_match; [|constructor]. apply Forall_singleton. simpl. destruct Hl; lia.
Qed.

Lemma section_bounds_fit fuel offset sticky :
  Forall (λ p, p ≤ length body) (section_bounds fuel body offset sticky).
Proof using Type.
  revert offset sticky. induction fuel as [|fuel IH]; intros offset sticky; simpl; [constructor|].
  destruct (Nat.ltb_spec offset (length body)); [|constructor].
  destruct (match index_newline (drop offset body) with Some _ => _ | None => _ end) as [le nx].
  case_match; [apply IH|]. apply Forall_app. split; [|apply IH].
  case_match; [|constructor]. apply Forall_singleton. lia.
Qed.

Lemma append_sections_total secs spans :
  Forall (λ s, sp_end s ≤ length body) secs → ∃ l, append_sections body secs spans = Some l.
Proof using Type.
  intros H. revert spans. induction H as [|sec secs Hs _ IH]; intros spans; simpl; [eauto|].
  destruct (appendWindowSpans_total spans sec Hs) as [l ->]. apply IH.
Qed.

Lemma trunc_back_total n : n < length body → ∃ q, trunc_back body n = Some q.
Proof using Type.
  induction n as [|n IH]; intros H; simpl; [eauto|].
  destruct (lookup_lt_is_Some_2 body (S n)) as [b ->]; [lia|]. simpl.
  destruct (RuneStart b); [eauto|]. apply IH. lia.
Qed.

Lemma buildSpans_total type : ∃ l, buildSpans type body = Some l.
Proof using Type.
  assert (Hone : ∃ l, (e ← truncateRuneSafe body singleChunkCapBytes; Some [mkSpan 0 e]) = Some l).
  { unfold truncateRuneSafe. destruct (Nat.leb_spec (length body) singleChunkCapBytes); [eauto|].
    destruct (trunc_back_total singleChunkCapBytes) as [q ->]; [lia|]. eauto. }
  assert (Hwin := appendWindowSpans_total [] (mkSpan 0 (length body)) ltac:(done)).
  destruct type; cbn [buildSpans]; try done. apply append_sections_total, bounds_spans_fit.
  constructor; [lia|]. apply section_bounds_fit.
Qed.
End total.

Lemma buildChunks_total doc : ∃ r, buildChunks doc = Some r.
Proof.
  unfold buildChunks. destruct (String.eqb (body_text doc) ""); [eauto|].
  destruct (buildSpans_total (to_bytes (body_text doc)) (doc_type doc)) as [l ->].
  cbn [mbind option_bind]. eauto.
Qed.

Lemma chain_capped rs a b l :
  chain rs a b l → ∃ e, e ≤ b ∧ (maxChunksPerDoc < length l → e < b) ∧ chain rs a e (take maxChunksPerDoc l).
Proof. apply chain_take. Qed.

(** The types of one chunk. *)
Definition single_chunk (type : DocType) : bool := match type with CHAT_MESSAGE | CALENDAR_EVENT => true | _ => false end.

Lemma cap_many (x : span) : ¬ maxChunksPerDoc < length [x].
Proof. unfold maxChunksPerDoc. simpl. lia. Qed.

#[local] Opaque maxChunksPerDoc.

(** The spans behind the chunks, after the cap of 64. *)
Lemma buildChunks_spans (rs : list bytes) doc :
  to_bytes (body_text doc) = concat rs → Forall rune rs → concat rs ≠ [] →
  ∃ spans e truncated,
    buildChunks doc = Some (imap (to_chunk (doc_id doc) (concat rs)) spans, truncated) ∧
    spans_ok rs (doc_type doc) e spans ∧ e ≤ length (concat rs) ∧
    (truncated = false → full_end rs (doc_type doc) e) ∧
    length spans ≤ maxChunksPerDoc ∧
    (truncated = true → length spans = maxChunksPerDoc ∧ e < length (concat rs) ∧ single_chunk (doc_type doc) = false) ∧
    ∀ p sp, doc_type doc = EMAIL → 0 < p < length (concat rs) → concat rs !! (p - 1) = Some newline →
      quoteMarker (slice (concat rs) p (line_bounds rs p).1) = true → sp ∈ spans →
      ¬ (sp_start sp < p < sp_end sp).
Proof.
  intros Hbody Hrs Hne. unfold buildChunks. rewrite Hbody. set (type := doc_type doc).
  destruct (String.eqb_spec (body_text doc) "") as [Hb|_]; [by rewrite Hb in Hbody|].
  destruct (buildSpans_spec rs Hrs type Hne) as (spans & e & Hsp & Hok & Hfull & Hnil & Hmark).
  rewrite Hsp. cbn [mbind option_bind].
  assert (He : e ≤ length (concat rs)) by (destruct type; simpl in Hfull; lia).
  destruct (Nat.ltb_spec maxChunksPerDoc (length spans)) as [Hlt|Hge].
  - assert (Hcut : ∃ e', e' < e ∧ single_chunk type = false ∧ spans_ok rs type e' (take maxChunksPerDoc spans)).
    { destruct type; simpl in Hok;
        first [destruct (chain_capped _ _ _ _ Hok) as (e' & _ & Hs & Hc); exists e'; by split_and!; [apply Hs|..]
              |destruct Hok as [-> _]; by apply cap_many in Hlt]. }
    destruct Hcut as (e' & Hle & Hsc & Hok'). exists (take maxChunksPerDoc spans), e', true.
    split_and!; try done; try lia.
    + rewrite length_take. lia.
    + intros _. rewrite length_take. split_and!; [lia|lia|done].
    + intros p sp Ht Hp Hnl Hm Hin. eapply Hmark; eauto.
      apply list_elem_of_lookup_1 in Hin as [i Hi]. rewrite lookup_take_Some in Hi.
      destruct Hi as [Hi _]. by eapply list_elem_of_lookup_2.
  - by exists spans, e, false.
Qed.

Lemma elem_of_chunks docId body ck spans :
  ck ∈ imap (to_chunk docId body) spans → ∃ i sp, sp ∈ spans ∧ ck = to_chunk docId body i sp.
Proof.
  intros [i Hi]%list_elem_of_lookup_1. rewrite list_lookup_imap in Hi.
  apply fmap_Some in Hi as (sp & Hsp & ->). exists i, sp. split; [|done]. by eapply list_elem_of_lookup_2.
Qed.

Lemma chunk_ids_NoDup docId body spans : NoDup (ck_id <$> imap (to_chunk docId body) spans).
Proof.
  apply NoDup_alt. intros i j x Hi Hj. rewrite list_lookup_fmap, list_lookup_imap in Hi, Hj.
  destruct (spans !! i); [|done]. destruct (spans !! j); [|done].
  simpl in Hi, Hj. injection Hi as <-. injection Hj as Heq.
  apply (inj (String.append docId)) in Heq. injection Heq as Heq. simpl in Heq. symmetry. by apply (inj pretty).
Qed.

Lemma length_slice body a b : b ≤ length body → length (slice body a b) = b - a.
Proof. intros. unfold slice. rewrite length_take, length_drop. lia. Qed.

Definition ck_start (ck : Chunk) : nat := Z.to_nat (ck_char_start ck).
Definition ck_end (ck : Chunk) : nat := Z.to_nat (ck_char_end ck).

Definition chunk_span (ck : Chunk) : span := mkSpan (ck_start ck) (ck_end ck).

Lemma chunk_spans docId body spans : chunk_span <$> imap (to_chunk docId body) spans = spans.
Proof.
  rewrite fmap_imap. apply list_eq. intros i. rewrite list_lookup_imap.
  destruct (spans !! i) as [[]|]; simpl; [|done].
  unfold chunk_span, ck_start, ck_end. simpl. by rewrite !Nat2Z.id.
Qed.

(** Chunks are well formed: on any body of UTF-8 runes [buildChunks] returns
    (no string index is out of range, every loop ends), at most 64 chunks with
    pairwise different ids; each is a non-empty slice of the body between its
    offsets, a run of whole runes, of at most 2048 bytes (8192 for a chat
    message or a calendar event). *)
Theorem chunks_well_formed (rs : list bytes) (doc : Document) :
  to_bytes (body_text doc) = concat rs → Forall rune rs →
  ∃ chunks truncated,
    buildChunks doc = Some (chunks, truncated) ∧
    length chunks ≤ maxChunksPerDoc ∧ NoDup (ck_id <$> chunks) ∧
    ∀ ck, ck ∈ chunks →
      (0 ≤ ck_char_start ck < ck_char_end ck)%Z ∧
      ck_end ck ≤ length (to_bytes (body_text doc)) ∧
      to_bytes (ck_text ck) = slice (to_bytes (body_text doc)) (ck_start ck) (ck_end ck) ∧
      length (to_bytes (ck_text ck)) ≤ chunk_cap (doc_type doc) ∧
      ∃ before mid after, rs = before ++ mid ++ after ∧
        length (concat before) = ck_start ck ∧ to_bytes (ck_text ck) = concat mid.
Proof.
  intros Hbody Hrs. destruct (decide (concat rs = [])) as [Hnil|Hne].
  { exists [], false. rewrite Hnil in Hbody. split_and!; try done; [|apply Nat.le_0_l|constructor|].
    { unfold buildChunks. by destruct (body_text doc). }
    by intros ck ?%not_elem_of_nil. }
  destruct (buildChunks_spans rs doc Hbody Hrs Hne)
    as (spans & e & tr & Hb & Hok & He & _ & Hlen & _).
  eexists _, _. split; [exact Hb|]. rewrite length_imap. split_and!; [done|apply chunk_ids_NoDup|].
  assert (Hpos : 0 < length (concat rs)) by (destruct (concat rs); [done|simpl; lia]).
  intros ck (i & sp & Hsp & ->)%elem_of_chunks. unfold ck_start, ck_end. simpl.
  rewrite !Nat2Z.id, to_of_bytes, Hbody.
  destruct (spans_ok_span rs Hrs _ e spans sp Hpos He Hok Hsp) as (Hr & Hcap & Hb1 & Hb2).
  split_and!; [lia|lia|lia|done| |].
  - rewrite length_slice by lia. done.
  - destruct (slice_runes rs _ _ Hb1 Hb2 ltac:(lia)) as (r1 & mid & r2 & ? & ? & ?). eauto 10.
Qed.

(** C39. Chunks tile the body.  The windows of a document start at its first
    byte, follow each other without a gap, each overlapping the previous one by
    at most 256 bytes and ending after it; every byte of the body is in one of
    them, unless there are 64 and the truncation is reported, which is then
    real.  A chat message or a calendar event is one chunk, the longest prefix
    of whole runes within 8192 bytes: all of a body of at most that size, while
    the rest of a longer one is in no chunk and no truncation is reported. *)
Theorem chunks_tile_body (rs : list bytes) (doc : Document) :
  to_bytes (body_text doc) = concat rs → Forall rune rs → concat rs ≠ [] →
  ∃ chunks truncated e,
    buildChunks doc = Some (chunks, truncated) ∧
    if single_chunk (doc_type doc) then
      chunk_span <$> chunks = [mkSpan 0 e] ∧ longest_prefix rs singleChunkCapBytes e ∧
      (e = length (concat rs) ↔ length (concat rs) ≤ singleChunkCapBytes) ∧ truncated = false
    else
      chain rs 0 e (chunk_span <$> chunks) ∧
      (truncated = true → length chunks = maxChunksPerDoc ∧ e < length (concat rs)) ∧
      (truncated = false → e = length (concat rs) ∧
         ∀ p, p < length (concat rs) → ∃ ck, ck ∈ chunks ∧ ck_start ck ≤ p < ck_end ck).
Proof.
  intros Hbody Hrs Hne.
  destruct (buildChunks_spans rs doc Hbody Hrs Hne)
    as (spans & e & tr & Hb & Hok & He & Hfull & _ & Htr & _).
  eexists _, tr, e. split; [exact Hb|]. rewrite length_imap, chunk_spans.
  destruct (single_chunk (doc_type doc)) eqn:Es.
  - assert (tr = false) as -> by (destruct tr; [by destruct (Htr eq_refl) as (_ & _ & ?)|done]). specialize (Hfull eq_refl).
    destruct (doc_type doc); try discriminate Es; destruct Hok as [-> ?]; destruct Hfull; by split_and!.
  - assert (Hc : chain rs 0 e spans) by (destruct (doc_type doc); (done || discriminate Es)).
    assert (Hf : tr = false → e = length (concat rs)) by (intros ->; specialize (Hfull eq_refl); destruct (doc_type doc); (done || discriminate Es)).
    split_and!; [done|intros Ht; by destruct (Htr Ht) as (? & ? & _)|]. intros ->. rewrite <- (Hf eq_refl). split; [done|]. intros p Hp.
    destruct (chain_covers _ _ _ _ p Hc) as (sp & [i Hi]%list_elem_of_lookup_1 & Hr); [lia|].
    exists (to_chunk (doc_id doc) (concat rs) i sp).
    split; [|unfold ck_start, ck_end; simpl; by rewrite !Nat2Z.id].
    apply (list_elem_of_lookup_2 _ i). by rewrite list_lookup_imap, Hi.
Qed.

(** Quoted replies start chunks: in an email no chunk runs across the start
    of an attribution line (a line [On ... wrote:] that is not the first). *)
Theorem email_chunks_keep_quotes (rs : list bytes) (doc : Document) (p : nat) :
  doc_type doc = EMAIL → to_bytes (body_text doc) = concat rs → Forall rune rs → 0 < p < length (concat rs) →
  concat rs !! (p - 1) = Some newline →
  quoteMarker (slice (concat rs) p (line_bounds rs p).1) = true →
  ∃ chunks truncated,
    buildChunks doc = Some (chunks, truncated) ∧
    ∀ ck, ck ∈ chunks → ¬ (ck_start ck < p < ck_end ck).
Proof.
  intros Ht Hbody Hrs Hp Hnl Hm.
  assert (Hne : concat rs ≠ []) by (intros Hc; rewrite Hc in Hp; simpl in Hp; lia).
  destruct (buildChunks_spans rs doc Hbody Hrs Hne)
    as (spans & e & tr & Hb & _ & _ & _ & _ & _ & Hmark).
  eexists _, _. split; [exact Hb|]. intros ck (i & sp & Hsp & ->)%elem_of_chunks.
  unfold ck_start, ck_end. simpl. rewrite !Nat2Z.id. by eapply Hmark.
Qed.

(** ** A concrete email

    A short reply with an accented letter, then the quoted message. *)
Definition ascii_text (s : string) : list bytes := (λ a, [a]) <$> to_bytes s.

Lemma ascii_text_runes s :
  forallb (λ a, (byte_val a <? 128)%N) (to_bytes s) = true → Forall rune (ascii_text s).
Proof.
  unfold ascii_text. intros H. apply Forall_fmap. rewrite List.forallb_forall in H.
  apply List.Forall_forall. intros a Ha. specialize (H a Ha). apply N.ltb_lt in H.
  simpl. split_and!; [by apply ascii_RuneStart|constructor|lia|done].
Qed.

Definition demo_email : list bytes :=
  ascii_text "Caf" ++ [[ascii_of_N 195; ascii_of_N 169]] ++ ascii_text "? yes" ++ [[newline]] ++
  ascii_text "On Mon, Ann wrote:" ++ [[newline]] ++ ascii_text "> lunch?".

Lemma demo_email_runes : Forall rune demo_email.
Proof.
  unfold demo_email. rewrite !Forall_app.
  split_and!; try (apply ascii_text_runes; reflexivity); apply Forall_singleton.
  2,3: by split_and!; [|constructor|simpl; lia|].
  split_and!; [done|by repeat constructor|simpl; lia|done].
Qed.

Definition demo_doc (type : DocType) : Document :=
  mkDoc "acme" "d" "gmail" "m1" type "Lunch" (of_bytes (concat demo_email)) [] ∅ [] None None None
    "v1" None None.

Lemma demo_doc_body type : to_bytes (body_text (demo_doc type)) = concat demo_email.
Proof. apply to_of_bytes. Qed.

Example demo_email_chunks :
  (λ r : list Chunk * bool, (chunk_span <$> r.1, r.2)) <$> buildChunks (demo_doc EMAIL)
  = Some ([mkSpan 0 11; mkSpan 11 38], false).
Proof. vm_compute. reflexivity. Qed.

Lemma chunks_well_formed_witness :
  ∃ chunks truncated,
    buildChunks (demo_doc EMAIL) = Some (chunks, truncated) ∧ length chunks ≤ maxChunksPerDoc.
Proof.
  destruct (chunks_well_formed demo_email (demo_doc EMAIL) (demo_doc_body EMAIL) demo_email_runes)
    as (ck & tr & H1 & H2 & _).
  exists ck, tr. split; assumption.
Defined.

Lemma chunks_tile_body_witness :
  concat demo_email ≠ [] ∧
  (∃ chunks truncated e,
    buildChunks (demo_doc WIKI_PAGE) = Some (chunks, truncated) ∧ chain demo_email 0 e (chunk_span <$> chunks)) ∧
  ∃ chunks truncated e,
    buildChunks (demo_doc CHAT_MESSAGE) = Some (chunks, truncated) ∧ chunk_span <$> chunks = [mkSpan 0 e] ∧ truncated = false.
Proof.
  assert (Hne : concat demo_email ≠ []) by (intros H; vm_compute in H; discriminate).
  split; [exact Hne|].
  destruct (chunks_tile_body demo_email (demo_doc WIKI_PAGE) (demo_doc_body WIKI_PAGE)
    demo_email_runes Hne) as (ck & tr & e & H1 & H2 & _).
  destruct (chunks_tile_body demo_email (demo_doc CHAT_MESSAGE) (demo_doc_body CHAT_MESSAGE)
    demo_email_runes Hne) as (ck' & tr' & e' & H1' & H2' & _ & _ & H3').
  split; [exists ck, tr, e; split; assumption|]. exists ck', tr', e'. split; [assumption|]. split; assumption.
Defined.

Lemma email_chunks_keep_quotes_witness :
  quoteMarker (slice (concat demo_email) 11 (line_bounds demo_email 11).1) = true ∧
  ∃ chunks truncated,
    buildChunks (demo_doc EMAIL) = Some (chunks, truncated) ∧
    ∀ ck, ck ∈ chunks → ¬ (ck_start ck < 11 < ck_end ck).
Proof.
  assert (Hm : quoteMarker (slice (concat demo_email) 11 (line_bounds demo_email 11).1) = true)
    by (vm_compute; reflexivity).
  split; [exact Hm|].
  apply (email_chunks_keep_quotes demo_email (demo_doc EMAIL) 11 eq_refl (demo_doc_body EMAIL)
    demo_email_runes).
  - vm_compute. split; repeat constructor.
  - vm_compute. reflexivity.
  - exact Hm.
Defined.
