(* ===== verification/Interleave.v ===== *)
(** * Interleavings of programs

    A rely-guarantee logic for [prog] over any shared state, and the step
    relation of a set of programs that interleave atomic action by atomic
    action with each other and with an environment.  A process that crashes is
    one whose thread takes no further step. *)

From stdpp Require Import base list.
From Stdlib Require Import Ascii Lia.
From S2P Require Import Prelude Crypto.

Section rg.
Context {W : Type} (Inv : W → Prop) (rely guar : W → W → Prop).

(** [rg Q p w0]: from [w0], while others move the state along [rely] and keep
    [Inv], every action of [p] keeps [Inv] and moves it along [guar], and [p]
    ends with [Q]. *)
Fixpoint rg {A} (Q : A → W → Prop) (p : prog W A) (w0 : W) : Prop :=
  match p with
  | Ret a => Q a w0
  | Atomic X f k =>
    ∀ i w, rely w0 w → Inv w →
      guar w (f i w).2 ∧ Inv (f i w).2 ∧ rg Q (k (f i w).1) (f i w).2
  end.

Lemma rg_conseq {A} (Q Q' : A → W → Prop) p w0 :
  (∀ a w, Q a w → Q' a w) → rg Q p w0 → rg Q' p w0.
Proof.
  intros HQ. revert w0. induction p as [a|X f k IH]; intros w0; simpl; [apply HQ|].
  intros H i w Hr Hi. destruct (H i w Hr Hi) as (? & ? & ?). auto.
Qed.

Lemma rg_bind {A B} (Q : B → W → Prop) (p : prog W A) (q : A → prog W B) w0 :
  rg (λ a w, rg Q (q a) w) p w0 → rg Q (bind p q) w0.
Proof.
  revert w0. induction p as [a|X f k IH]; intros w0; simpl; [done|].
  intros H i w Hr Hi. destruct (H i w Hr Hi) as (? & ? & ?). auto.
Qed.

(** What neither side changes is as it was. *)
Lemma rg_frame {A X} (φ : W → X) (Q : A → W → Prop) p w0 :
  (∀ w w', rely w w' → φ w' = φ w) → (∀ w w', guar w w' → φ w' = φ w) →
  rg Q p w0 → rg (λ a w, Q a w ∧ φ w = φ w0) p w0.
Proof.
  intros Hr Hg. revert w0. induction p as [a|X' f k IH]; intros w0; simpl; [done|].
  intros H i w Hw Hi. destruct (H i w Hw Hi) as (Hgw & Hi' & Hk). split_and!; [done|done|].
  eapply rg_conseq; [|by apply IH]. intros a w' [HQ Heq]. split; [done|].
  rewrite Heq, (Hg _ _ Hgw). by apply Hr.
Qed.

Context `{!Transitive rely}.

(** A triple survives the moves of the others. *)
Lemma rg_mono {A} (Q : A → W → Prop) p w w' :
  (∀ a w w', rely w w' → Q a w → Q a w') → rely w w' → rg Q p w → rg Q p w'.
Proof using Type*.
  intros HQ Hr. destruct p as [a|X f k]; simpl; [by apply HQ|].
  intros H i v Hv. apply H. by etrans.
Qed.
End rg.

Lemma rg_guar {W A} (Inv : W → Prop) (rely guar guar' : W → W → Prop) (Q : A → W → Prop) p w0 :
  (∀ w w', guar w w' → guar' w w') → rg Inv rely guar Q p w0 → rg Inv rely guar' Q p w0.
Proof.
  intros Hg. revert w0. induction p as [a|X f k IH]; intros w0; simpl; [done|].
  intros H i w Hw Hi. destruct (H i w Hw Hi) as (? & ? & ?). auto.
Qed.

(** ** Nets of programs *)
Record Net (W A : Type) := mkNet { net_world : W; net_threads : list (prog W A) }.
Arguments mkNet {W A} _ _.
Arguments net_world {W A} _.
Arguments net_threads {W A} _.

Section net.
Context {W A : Type} (env : W → W → Prop).

Inductive net_step : Net W A → Net W A → Prop :=
| net_env w w' ths : env w w' → net_step (mkNet w ths) (mkNet w' ths)
| net_thread w ths j X f k i :
    ths !! j = Some (Atomic X f k) →
    net_step (mkNet w ths) (mkNet (f i w).2 (<[j := k (f i w).1]> ths)).

Context (Inv : W → Prop) (rely guar : nat → W → W → Prop) (Q : nat → A → W → Prop).
Context `{!∀ j, Transitive (rely j)}.
Hypothesis Q_stable : ∀ j a w w', rely j w w' → Q j a w → Q j a w'.
Hypothesis guar_rely : ∀ j j' w w', j ≠ j' → guar j w w' → rely j' w w'.
Hypothesis rely_refl : ∀ j w, rely j w w.
Hypothesis env_rely : ∀ j w w', Inv w → env w w' → rely j w w'.
Hypothesis env_inv : ∀ w w', Inv w → env w w' → Inv w'.

Definition net_ok (N : Net W A) : Prop :=
  Inv (net_world N) ∧
  ∀ j p, net_threads N !! j = Some p → rg Inv (rely j) (guar j) (Q j) p (net_world N).

Lemma net_ok_step N N' : net_ok N → net_step N N' → net_ok N'.
Proof using Type*.
  intros [HI HT] Hs. destruct Hs as [w w' ths He|w ths j X f k i Hj]; simpl in *.
  - split; [by eapply env_inv|]. intros j p Hp. simpl in *.
    by apply (rg_mono Inv (rely j) (guar j) (Q j) p w w'); eauto.
  - destruct (HT j _ Hj i w (rely_refl j w) HI) as (Hg & HI' & Hk).
    split; [done|]. intros j' p. simpl. rewrite list_lookup_insert_Some.
    intros [(<- & <- & _)|[Hne Hp]]; [done|].
    by apply (rg_mono Inv (rely j') (guar j') (Q j') p w); eauto.
Qed.

Lemma net_invariant N N' : net_ok N → star net_step N N' → net_ok N'.
Proof using Type*. intros Hok Hs. by eapply star_invariant; eauto using net_ok_step. Qed.
End net.

(** A schedule: which thread acts next, on which input. *)
Fixpoint schedule {W A} (js : list (nat * Inp)) (N : Net W A) : Net W A :=
  match js with
  | [] => N
  | (j, i) :: js =>
    schedule js
      match net_threads N !! j with
      | Some (Atomic X f k) => mkNet (f i (net_world N)).2 (<[j := k (f i (net_world N)).1]> (net_threads N))
      | _ => N
      end
  end.

Lemma schedule_star {W A} (env : W → W → Prop) js (N : Net W A) : star (net_step env) N (schedule js N).
Proof.
  revert N. induction js as [|[j i] js IH]; intros N; simpl; [constructor|].
  destruct N as [w ths]. simpl. destruct (ths !! j) as [[a|X f k]|] eqn:E; [apply IH| |apply IH].
  eapply star_step; [by apply (net_thread env w ths j X f k i)|apply IH].
Qed.

(** ** Programs in any environment

    [each I G Q p]: on inputs of [I], whatever others do to the state between
    its actions, every action of [p] moves the state along [G], and what [p]
    returns satisfies [Q]. *)
Fixpoint each {W A} (I : Inp → Prop) (G : W → W → Prop) (Q : A → Prop) (p : prog W A) : Prop :=
  match p with
  | Ret a => Q a
  | Atomic X f k => ∀ i w, I i → G w (f i w).2 ∧ each I G Q (k (f i w).1)
  end.

Definition anyhow (i : Inp) : Prop := True.
Definition anything {W} (w w' : W) : Prop := True.

(** Two programs side by side: the inputs choose who acts. *)
Definition left_first (i : Inp) : bool :=
  match in_rand i with Some f => Ascii.eqb (f 0) Ascii.zero | None => true end.

Fixpoint par {W A B} (p : prog W A) : prog W B → prog W (A * B) :=
  match p with
  | Ret a => λ q, bind q (λ b, Ret (a, b))
  | Atomic X f k =>
    fix par_q (q : prog W B) : prog W (A * B) :=
      match q with
      | Ret b => Atomic X f (λ x, bind (k x) (λ a, Ret (a, b)))
      | Atomic Y g h =>
        Atomic bool (input left_first) (λ c,
          if c then Atomic X f (λ x, par (k x) (Atomic Y g h)) else Atomic Y g (λ y, par_q (h y)))
      end
  end.

Fixpoint par_list {W A} (ps : list (prog W A)) : prog W (list A) :=
  match ps with
  | [] => Ret []
  | p :: ps' => bind (par p (par_list ps')) (λ r, Ret (r.1 :: r.2))
  end.

Section each.
Context {W : Type} (I : Inp → Prop) (G : W → W → Prop).

Lemma each_conseq {A} (Q Q' : A → Prop) p : (∀ a, Q a → Q' a) → each I G Q p → each I G Q' p.
Proof.
  intros HQ. induction p as [a|X f k IH]; simpl; [apply HQ|]. intros H i w Hi. destruct (H i w Hi). auto.
Qed.

Lemma each_bind {A B} (Q : B → Prop) (p : prog W A) (q : A → prog W B) :
  each I G (λ a, each I G Q (q a)) p → each I G Q (bind p q).
Proof. induction p as [a|X f k IH]; simpl; [done|]. intros H i w Hi. destruct (H i w Hi). auto. Qed.

Lemma each_par {A B} (P : A → Prop) (Q : B → Prop) p q :
  Reflexive G → each I G P p → each I G Q q → each I G (λ r, P r.1 ∧ Q r.2) (par p q).
Proof.
  intros HR. revert q. induction p as [a|X f k IH]; intros q Hp Hq.
  - cbn [par]. apply each_bind. eapply each_conseq; [|exact Hq]. intros b Hb. by split.
  - induction q as [b|Y g h IHq].
    + intros i w Hi. destruct (Hp i w Hi) as [? Hk]. split; [done|]. apply each_bind.
      eapply each_conseq; [|exact Hk]. intros a Ha. by split.
    + intros i w Hi. split; [apply HR|]. cbn [input fst]. destruct (left_first i).
      * intros i' w' Hi'. destruct (Hp i' w' Hi') as [? Hk]. split; [done|]. by apply IH.
      * intros i' w' Hi'. destruct (Hq i' w' Hi') as [? Hk]. split; [done|]. by apply IHq.
Qed.

Lemma each_par_list {A} (Q : A → Prop) ps :
  Reflexive G → Forall (each I G Q) ps → each I G (λ rs, Forall Q rs ∧ length rs = length ps) (par_list ps).
Proof.
  intros HR. induction 1 as [|p ps Hp _ IH]; [by split|]. cbn [par_list]. apply each_bind.
  eapply each_conseq; [|apply each_par; [done|exact Hp|exact IH]].
  intros [a rs] [Ha [Hrs Hl]]. split; [by constructor|by cbn; f_equal].
Qed.

(** In particular for a run on its own. *)
Lemma each_run {A} (Q : A → Prop) p ins w : (∀ n, I (ins n)) → each I G Q p → Q (run p ins w).1 ∧ star G w (run p ins w).2.
Proof.
  revert ins w. induction p as [a|X f k IH]; intros ins w Hi H; [split; [done|constructor]|].
  cbn [run]. destruct (H (ins 0) w (Hi 0)) as [Hg Hk]. destruct (f (ins 0) w) as [b w'] eqn:E. cbn [fst snd] in *.
  destruct (IH b (λ n, ins (S n)) w' (λ n, Hi (S n)) Hk) as [? ?]. split; [done|]. by eapply star_step.
Qed.
End each.

(** ** Programs action by action

    [acts G Q p]: every action of [p], on any inputs and from any state, is
    one of [G] for those inputs, and what [p] returns satisfies [Q]. *)
Fixpoint acts {W A} (G : Inp → W → W → Prop) (Q : A → Prop) (p : prog W A) : Prop :=
  match p with
  | Ret a => Q a
  | Atomic X f k => ∀ i w, G i w (f i w).2 ∧ acts G Q (k (f i w).1)
  end.

(** The actions of a program. *)
Fixpoint does {W A} (p : prog W A) (i : Inp) (w w' : W) : Prop :=
  match p with
  | Ret _ => False
  | Atomic X f k => w' = (f i w).2 ∨ ∃ x, does (k x) i w w'
  end.

Section acts.
Context {W : Type}.
Implicit Types G : Inp → W → W → Prop.

Lemma acts_mono {A} G G' (Q : A → Prop) p : (∀ i w w', G i w w' → G' i w w') → acts G Q p → acts G' Q p.
Proof. intros HG. induction p as [a|X f k IH]; [done|]. intros H i w. destruct (H i w). auto. Qed.

Lemma acts_conseq {A} G (Q Q' : A → Prop) p : (∀ a, Q a → Q' a) → acts G Q p → acts G Q' p.
Proof. intros HQ. induction p as [a|X f k IH]; [apply HQ|]. intros H i w. destruct (H i w). auto. Qed.

Lemma acts_bind {A B} G (Q : B → Prop) (p : prog W A) (q : A → prog W B) :
  acts G (λ a, acts G Q (q a)) p → acts G Q (bind p q).
Proof. induction p as [a|X f k IH]; [done|]. intros H i w. destruct (H i w). auto. Qed.

Lemma acts_does {A} (p : prog W A) : acts (does p) (λ _, True) p.
Proof.
  induction p as [a|X f k IH]; [done|]. intros i w. split; [by left|].
  eapply acts_mono; [|apply IH]. intros j v v' Hd. right. by eexists.
Qed.

End acts.
