(* ===== verification/Kafka.v ===== *)
(** * The document bus

    Models [platform/kafkautil]: [Producer.ProduceDocument] and the consumer
    with its per-record contract ([processRecord], [quarantine], [commit]) and
    poll loop ([Run]).  The Kafka client (franz-go) is the interface
    [KafkaAPI]; its laws state what a broker documents: an acknowledged
    produce is in the log, offsets grow, a commit moves the group's offset to
    just after the record, and a consumer is delivered every record of a
    partition in order from the group's committed offset. *)

From stdpp Require Import base gmap strings list pretty.
From Stdlib Require Import Ascii ZArith Lia.
From S2P Require Import Prelude GoStrings Tenancy Crypto Document.

Definition TopicDocsRaw : string := "docs.raw".
Definition TopicDocsChunked : string := "docs.chunked".
Definition TopicDocsEnriched : string := "docs.enriched".
Definition TopicDocsDeadletter : string := "docs.deadletter".

Definition HeaderTenantID : string := "tenant_id".
Definition HeaderDocID : string := "doc_id".
Definition HeaderVersionEtag : string := "version_etag".
Definition HeaderError : string := "error".
Definition HeaderOriginTopic : string := "origin_topic".

(** [kgo.Record] *)
Record KRec := mkKRec {
  r_topic : string;
  r_partition : Z;
  r_offset : Z;
  r_key : string;
  r_value : string;
  r_headers : list (string * string)
}.

(** A record to produce: the broker assigns the partition and the offset. *)
Definition new_record (topic key value : string) (headers : list (string * string)) : KRec :=
  mkKRec topic 0 0 key value headers.

Definition placed (r : KRec) (p o : Z) : KRec :=
  mkKRec (r_topic r) p o (r_key r) (r_value r) (r_headers r).

Definition same_partition (r s : KRec) : Prop :=
  r_topic r = r_topic s ∧ r_partition r = r_partition s.

(** Errors: the context's, or any other by its text. *)
Inductive GoErr := GE_Ctx (e : CtxErr) | GE_Msg (msg : string).

Definition ctx_text (e : CtxErr) : string :=
  match e with Canceled => "context canceled" | DeadlineExceeded => "context deadline exceeded" end.

Definition err_text (e : GoErr) : string :=
  match e with GE_Ctx e => ctx_text e | GE_Msg m => m end.

(** The texts of [tenancy.ErrNoTenant] and of [FromHeaderValue]'s error. *)
Definition tenancy_text (e : TenErr) : string :=
  match e with
  | ErrNoTenant => "tenancy: no tenant in context or claims"
  | ErrInvalidTenant => "tenancy: invalid tenant claim: header value"
  end.

(** A group member: its consumer group and its identity. *)
Record Member := mkMember { m_group : string; m_id : nat }.

Class KafkaAPI (B : Type) := {
  ProduceSync : Inp → KRec → B → result GoErr unit * B;
  CommitRecords : Inp → Member → KRec → B → result GoErr unit * B;
  PollFetches : Inp → Member → B → (bool * list KRec) * B
}.

(** The view of a broker: every record in its log, the highest offset a group
    has committed (records below it are committed), and what each member has
    been delivered so far. *)
Class KafkaLaws (B : Type) `{!KafkaAPI B} := {
  klog : B → list KRec;
  committed : B → string → string → Z → Z;
  delivered : B → nat → list KRec;
  produce_log i r b :
    klog (ProduceSync i r b).2 = klog b ∨
    ∃ p o, klog (ProduceSync i r b).2 = klog b ++ [placed r p o] ∧ (0 ≤ o)%Z ∧
      ∀ s, s ∈ klog b → r_topic s = r_topic r → r_partition s = p → (r_offset s < o)%Z;
  produce_ok i r b :
    (ProduceSync i r b).1 = Ok tt → ∃ p o, klog (ProduceSync i r b).2 = klog b ++ [placed r p o];
  produce_frame i r b :
    committed (ProduceSync i r b).2 = committed b ∧ delivered (ProduceSync i r b).2 = delivered b;
  commit_offset i m r b g t p :
    committed (CommitRecords i m r b).2 g t p = committed b g t p ∨
    (g = m_group m ∧ t = r_topic r ∧ p = r_partition r ∧
     committed (CommitRecords i m r b).2 g t p = Z.max (committed b g t p) (r_offset r + 1));
  commit_frame i m r b :
    klog (CommitRecords i m r b).2 = klog b ∧ delivered (CommitRecords i m r b).2 = delivered b;
  poll_frame i m b :
    klog (PollFetches i m b).2 = klog b ∧ committed (PollFetches i m b).2 = committed b;
  poll_delivered i m b :
    delivered (PollFetches i m b).2 (m_id m) = delivered b (m_id m) ++ (PollFetches i m b).1.2 ∧
    ∀ c, c ≠ m_id m → delivered (PollFetches i m b).2 c = delivered b c;
  poll_in_order i m b n r :
    (PollFetches i m b).1.2 !! n = Some r → r ∈ klog b ∧
    ∀ s, s ∈ klog b → same_partition s r → (r_offset s < r_offset r)%Z →
      (r_offset s < committed b (m_group m) (r_topic s) (r_partition s))%Z ∨
      s ∈ delivered b (m_id m) ∨ s ∈ take n (PollFetches i m b).1.2
}.

(** [strconv.Quote] (the verb %q), which consults the Unicode tables. *)
Class Quoting := { Quote : string → string }.

(** ** Producer *)
Section producer.
Context {B : Type} `{!KafkaAPI B} `{!ProtoCodec} `{!Quoting}.

Definition document_record (topic value : string) (doc : Document) : KRec :=
  new_record topic (tenant_id doc) value
    [(HeaderTenantID, tenant_id doc); (HeaderDocID, doc_id doc);
     (HeaderVersionEtag, version_etag doc)].

Definition ProduceDocument (ctx : Ctx) (topic : string) (doc : option Document)
    : prog B (result GoErr unit) :=
  let fail (msg : string) : prog B (result GoErr unit) :=
    Ret (Err (GE_Msg ("kafkautil: produce document to " +:+ Quote topic +:+ ": " +:+ msg))) in
  if String.eqb topic "" then Ret (Err (GE_Msg "kafkautil: produce document: empty topic"))
  else match doc with
  | None => fail "nil document"
  | Some doc =>
    match FromContext ctx with
    | Err e => fail (tenancy_text e)
    | Ok tc =>
      if negb (String.eqb (tenantID tc) (tenant_id doc)) then
        fail ("tenant mismatch: context tenant " +:+ Quote (tenantID tc) +:+ ", document tenant " +:+
              Quote (tenant_id doc))
      else match Marshal doc with
      | Err e => fail ("marshal: " +:+ e)
      | Ok value =>
        Atomic _ (λ i, ProduceSync i (document_record topic value doc)) (λ r,
        match r with Err e => fail (err_text e) | Ok _ => Ret (Ok tt) end)
      end
    end
  end.
End producer.

(** ** Consumer *)
Definition maxHandlerAttempts : nat := 3.

(** [handlerBackoff], in milliseconds. *)
Definition handlerBackoff : list Z := [100; 500; 2000]%Z.

Definition backoffFor (i : nat) : Z :=
  default 0%Z (handlerBackoff !! (if length handlerBackoff <=? i then length handlerBackoff - 1 else i)).

Definition tenantFromRecord (rec : KRec) : result TenErr Context :=
  match List.find (λ h, String.eqb h.1 HeaderTenantID) (r_headers rec) with
  | Some h => FromHeaderValue h.2
  | None => Err ErrNoTenant
  end.

Section consumer.
Context {B : Type} `{!KafkaAPI B} `{!ProtoCodec} `{!Quoting} {St : Type}.

(** The broker and the rest of the state the handler uses. *)
Abbreviation W := (B * St)%type.

(** A handler may mutate the document it is given: it returns it. *)
Context (h : Ctx → Document → prog W (result GoErr unit * Document)).
Context (m : Member) (ctx : Ctx).

Definition on_broker {A} (f : Inp → B → A * B) (i : Inp) (w : W) : A * W :=
  let '(a, b) := f i w.1 in (a, (b, w.2)).

(** A failed commit is only logged. *)
Definition commit (rec : KRec) : prog W unit :=
  Atomic _ (on_broker (λ i, CommitRecords i m rec)) (λ _, Ret tt).

Definition deadletter_record (rec : KRec) (cause : GoErr) : KRec :=
  new_record TopicDocsDeadletter (r_key rec) (r_value rec)
    (r_headers rec ++ [(HeaderError, err_text cause); (HeaderOriginTopic, r_topic rec)]).

Definition quarantine (rec : KRec) (cause : GoErr) : prog W (result GoErr unit) :=
  if String.eqb (r_topic rec) TopicDocsDeadletter then
    bind (commit rec) (λ _, Ret (Ok tt))
  else
    Atomic _ (on_broker (λ i, ProduceSync i (deadletter_record rec cause))) (λ r,
    match r with
    | Err e =>
      Ret (Err (GE_Msg ("kafkautil: quarantine " +:+ r_topic rec +:+ "[" +:+ pretty (r_partition rec) +:+
        "]@" +:+ pretty (r_offset rec) +:+ " to " +:+ TopicDocsDeadletter +:+ ": " +:+ err_text e)))
    | Ok _ => bind (commit rec) (λ _, Ret (Ok tt))
    end).

(** [sleepCtx]: the context's error when it ends during the wait of [d]. *)
Definition sleepCtx (d : Z) : prog W (option CtxErr) := Atomic _ (input in_ctx) Ret.

(** Attempts [attempt, attempt + 1, ...], [n] of them left, on the document as
    the previous attempts left it. *)
Fixpoint attempts (n attempt : nat) (rec : KRec) (hctx : Ctx) (doc : Document) (lastErr : GoErr)
    : prog W (result GoErr unit) :=
  match n with
  | O => quarantine rec (GE_Msg ("handler failed after " +:+ pretty maxHandlerAttempts +:+
      " attempts: " +:+ err_text lastErr))
  | S n' =>
    let attempt_now : prog W (result GoErr unit) :=
      bind (h hctx doc) (λ '(r, doc'),
      match r with
      | Ok _ => bind (commit rec) (λ _, Ret (Ok tt))
      | Err e =>
        Atomic _ (input in_ctx) (λ ctxErr,
        match ctxErr with
        | Some ce => Ret (Err (GE_Ctx ce))
        | None => attempts n' (S attempt) rec hctx doc' e
        end)
      end) in
    if 1 <? attempt then
      bind (sleepCtx (backoffFor (attempt - 2))) (λ r,
      match r with Some ce => Ret (Err (GE_Ctx ce)) | None => attempt_now end)
    else attempt_now
  end.

Definition processRecord (rec : KRec) : prog W (result GoErr unit) :=
  match tenantFromRecord rec with
  | Err e => quarantine rec (GE_Msg ("invalid tenant header: " +:+ tenancy_text e))
  | Ok tc =>
    match Unmarshal (r_value rec) with
    | Err e => quarantine rec (GE_Msg ("unmarshal document: " +:+ e))
    | Ok doc =>
      if negb (String.eqb (tenant_id doc) (tenantID tc)) then
        quarantine rec (GE_Msg ("tenant header " +:+ Quote (tenantID tc) +:+
          " does not match document tenant " +:+ Quote (tenant_id doc)))
      else attempts maxHandlerAttempts 1 rec (WithContext ctx tc) doc (GE_Msg "")
    end
  end.

(** The records of one fetch, in order; [Err] ends the run. *)
Fixpoint process_all (recs : list KRec) : prog W (result (option GoErr) unit) :=
  match recs with
  | [] => Ret (Ok tt)
  | rec :: recs' =>
    bind (processRecord rec) (λ r,
    match r with
    | Err e =>
      Atomic _ (input in_ctx) (λ ctxErr,
      match ctxErr with Some _ => Ret (Err None) | None => Ret (Err (Some e)) end)
    | Ok _ => process_all recs'
    end)
  end.

(** [Run] for at most [n] polls: [None] when it is still running then. *)
Fixpoint Run (n : nat) : prog W (option (result GoErr unit)) :=
  match n with
  | O => Ret None
  | S n' =>
    Atomic _ (on_broker (λ i, PollFetches i m)) (λ '(closed, recs),
    if (closed : bool) then Ret (Some (Ok tt))
    else Atomic _ (input in_ctx) (λ ctxErr,
    match ctxErr with
    | Some _ => Ret (Some (Ok tt))
    | None =>
      bind (process_all recs) (λ r,
      match r with
      | Err None => Ret (Some (Ok tt))
      | Err (Some e) => Ret (Some (Err e))
      | Ok _ => Run n'
      end)
    end))
  end.
End consumer.
