(* ===== verification/KafkaProofs.v ===== *)
(** * The document bus: proofs

    The delivery contract of the consumer, for any handler: whatever the
    interleaving of the consumers of a group and wherever one crashes, every
    record below the group's committed offset has been handled or
    quarantined. *)

From stdpp Require Import base gmap strings list.
From Stdlib Require Import Ascii ZArith Lia.
From S2P Require Import Prelude GoStrings Tenancy Crypto Document Interleave Kafka.

Section contract.
Context {B : Type} {HK : KafkaAPI B} {HL : KafkaLaws B} {HC : ProtoCodec} {HQ : Quoting} {St : Type}.

Abbreviation W := (B * St)%type.

(** ** Logs *)

(** [b'] has the records of [b] and newer ones. *)
Definition extends (b b' : B) : Prop :=
  (∀ s, s ∈ klog b → s ∈ klog b') ∧
  (∀ s r, s ∈ klog b' → r ∈ klog b → same_partition s r → (r_offset s ≤ r_offset r)%Z → s ∈ klog b).

Definition log_ok (b : B) : Prop :=
  (∀ s, s ∈ klog b → (0 ≤ r_offset s)%Z) ∧
  (∀ s r, s ∈ klog b → r ∈ klog b → same_partition s r → r_offset s = r_offset r → s = r).

#[export] Instance extends_refl : Reflexive extends.
Proof using Type. by split. Qed.

#[export] Instance extends_trans : Transitive extends.
Proof using Type.
  intros b1 b2 b3 [H1 F1] [H2 F2]. split; [auto|].
  intros s r Hs Hr Hp Ho. apply (F1 s r); auto. apply (F2 s r); auto.
Qed.

Lemma extends_same b b' : klog b' = klog b → extends b b'.
Proof using Type. intros Heq. split; rewrite Heq; auto. Qed.

Lemma produce_extends i r b : log_ok b → extends b (ProduceSync i r b).2 ∧ log_ok (ProduceSync i r b).2.
Proof using Type.
  intros [Hpos Huniq]. destruct (produce_log i r b) as [Heq|(p & o & Heq & Ho & Hfresh)].
  { split; [by apply extends_same|]. by split; rewrite Heq. }
  assert (Hnew : ∀ s, s ∈ klog b → same_partition (placed r p o) s → (r_offset s < o)%Z).
  { intros s Hs [Ht Hp]. by apply Hfresh. }
  split; split; rewrite Heq.
  - intros s Hs. apply elem_of_app. by left.
  - intros s s' [Hs| ->%list_elem_of_singleton]%elem_of_app Hs' Hp Hle; [done|].
    specialize (Hnew s' Hs' Hp). simpl in Hle. lia.
  - intros s [Hs| ->%list_elem_of_singleton]%elem_of_app; [by apply Hpos|done].
  - intros s s' [Hs| ->%list_elem_of_singleton]%elem_of_app
      [Hs'| ->%list_elem_of_singleton]%elem_of_app Hp He; [by apply Huniq| | |done].
    + assert (r_offset s < o)%Z by (apply Hnew; [done|by destruct Hp]). simpl in He. lia.
    + assert (r_offset s' < o)%Z by (by apply Hnew). simpl in He. lia.
Qed.

(** ** The contract *)
Context (g : string).

(** What it means for the service that its handler has dealt with a document,
    and the service's own invariant. *)
Context (handled : Document → W → Prop) (InvH : W → Prop).
Hypothesis handled_stable : ∀ d w w', extends w.1 w'.1 → handled d w → handled d w'.
Hypothesis InvH_grows : ∀ w w', InvH w → extends w.1 w'.1 → w'.2 = w.2 → InvH w'.

Definition settled (w : W) (s : KRec) : Prop :=
  r_topic s = TopicDocsDeadletter ∨
  (∃ cause p o, placed (deadletter_record s cause) p o ∈ klog w.1) ∨
  (∃ tc doc, tenantFromRecord s = Ok tc ∧ Unmarshal (r_value s) = Ok doc ∧
     tenant_id doc = tenantID tc ∧ handled doc w).

Definition commits_settled (w : W) : Prop :=
  ∀ s, s ∈ klog w.1 → (r_offset s < committed w.1 g (r_topic s) (r_partition s))%Z → settled w s.

(** The group never commits past the end of a partition. *)
Definition commits_bounded (b : B) : Prop :=
  ∀ t p, (committed b g t p ≤ 0)%Z ∨
    ∃ r, r ∈ klog b ∧ r_topic r = t ∧ r_partition r = p ∧ (committed b g t p ≤ r_offset r + 1)%Z.

Record Inv (w : W) : Prop := {
  inv_h : InvH w;
  inv_log : log_ok w.1;
  inv_bound : commits_bounded w.1;
  inv_settled : commits_settled w
}.

Definition rely (j : nat) (w w' : W) : Prop :=
  extends w.1 w'.1 ∧ delivered w'.1 j = delivered w.1 j.

Definition quiet (w w' : W) : Prop :=
  extends w.1 w'.1 ∧ delivered w'.1 = delivered w.1.

Definition guar (j : nat) (w w' : W) : Prop :=
  extends w.1 w'.1 ∧ ∀ c, c ≠ j → delivered w'.1 c = delivered w.1 c.

#[export] Instance rely_trans j : Transitive (rely j).
Proof using Type. intros w1 w2 w3 [? H1] [? H2]. split; [by etrans|congruence]. Qed.

Lemma settled_stable w w' s : extends w.1 w'.1 → settled w s → settled w' s.
Proof using handled_stable.
  intros He [H|[(c & p & o & H)|(tc & d & ? & ? & ? & H)]]; [by left|right; left|right; right].
  - exists c, p, o. by apply He.
  - exists tc, d. eauto 6.
Qed.

(** A step that only adds records keeps the contract. *)
Lemma grow_inv w w' :
  Inv w → InvH w' → log_ok w'.1 → extends w.1 w'.1 → (∀ t p, committed w'.1 g t p = committed w.1 g t p) →
  Inv w'.
Proof using handled_stable.
  intros [_ Hlog Hb Hs] HI' Hl' He Hc. split; [done|done| |].
  - intros t p. rewrite Hc. destruct (Hb t p) as [?|(r & Hr & ? & ? & ?)]; [by left|right].
    exists r. split_and!; try done. by apply He.
  - intros s Hin Hlt. rewrite Hc in Hlt. eapply settled_stable; [done|]. apply Hs; [|done].
    destruct (Hb (r_topic s) (r_partition s)) as [Hle|(r & Hr & Ht & Hp & Hle)].
    + destruct Hl' as [Hpos _]. specialize (Hpos s Hin). lia.
    + apply (proj2 He s r); [done|done|by split|lia].
Qed.

(** ** The consumer *)
Context (h : Ctx → Document → prog W (result GoErr unit * Document)) (j : nat) (ctx : Ctx).
Context (stage : Document → Document → Prop).

Abbreviation m := (mkMember g j).
Abbreviation triple Q p w0 := (rg Inv (rely j) quiet Q p w0).

(** What the contract asks of a handler: on the document as delivered, or as
    its own failed attempts left it ([stage]), it keeps the invariant, and a
    nil answer means the document is dealt with. *)
Definition handler_ok : Prop :=
  (∀ d, stage d d) ∧
  ∀ tc d cur w0, valid_ctx tc → tenant_id d = tenantID tc → stage d cur →
    rg Inv (rely j) quiet (λ rd w, stage d rd.2 ∧ (rd.1 = Ok tt → handled d w))
      (h (WithContext ctx tc) cur) w0.

Hypothesis Hh : handler_ok.

(** Every record of the partition up to [rec] is settled. *)
Definition settled_upto (w : W) (rec : KRec) : Prop :=
  rec ∈ klog w.1 ∧
  ∀ s, s ∈ klog w.1 → same_partition s rec → (r_offset s ≤ r_offset rec)%Z → settled w s.

Definition settled_below (w : W) (rec : KRec) : Prop :=
  rec ∈ klog w.1 ∧
  ∀ s, s ∈ klog w.1 → same_partition s rec → (r_offset s < r_offset rec)%Z → settled w s.

Lemma settled_below_stable w w' rec : extends w.1 w'.1 → settled_below w rec → settled_below w' rec.
Proof using handled_stable.
  intros He [Hin Hs]. split; [by apply He|]. intros s Hs' Hp Hlt.
  eapply settled_stable; [done|]. apply Hs; [|done|done]. apply (proj2 He s rec); auto. lia.
Qed.

Lemma settled_upto_intro w rec : log_ok w.1 → settled_below w rec → settled w rec → settled_upto w rec.
Proof using Type.
  intros [_ Hu] [Hin Hb] Hs. split; [done|]. intros s Hsin Hp Hle.
  destruct (decide (r_offset s = r_offset rec)) as [Heq|]; [|apply Hb; auto; lia].
  by rewrite (Hu s rec).
Qed.

(** The log at the end of a program extends the one at its start. *)
Lemma rg_keep {A} w0 (Q : A → W → Prop) p :
  log_ok w0.1 → triple Q p w0 → triple (λ a w, Q a w ∧ extends w0.1 w.1 ∧ log_ok w.1) p w0.
Proof using Type.
  assert (Hgen : ∀ w, extends w0.1 w.1 → log_ok w.1 → triple Q p w →
    triple (λ a w, Q a w ∧ extends w0.1 w.1 ∧ log_ok w.1) p w).
  { induction p as [a|X f k IH]; intros w He Hl; simpl; [done|].
    intros Ht i w' Hr HI. destruct (Ht i w' Hr HI) as (Hq & HI' & Hk). split_and!; [done|done|].
    apply IH; [|apply HI'|done]. etrans; [exact He|]. etrans; [apply Hr|apply Hq]. }
  intros Hl. by apply Hgen.
Qed.

Lemma rg_input {A X} (f : Inp → X) (k : X → prog W A) Q w0 :
  (∀ x w, rely j w0 w → Inv w → triple Q (k x) w) → triple Q (Atomic X (input f) k) w0.
Proof using Type.
  intros Hk i w Hr HI. simpl. split_and!; [by split|done|by apply Hk].
Qed.

Lemma rg_produce {A} rec (k : result GoErr unit → prog W A) Q w0 :
  (∀ r w, rely j w0 w → Inv w → (r = Ok tt → ∃ p o, placed rec p o ∈ klog w.1) → triple Q (k r) w) →
  triple Q (Atomic _ (on_broker (λ i, ProduceSync i rec)) k) w0.
Proof using handled_stable InvH_grows.
  intros Hk i w Hr HI. unfold on_broker. pose proof (produce_ok i rec w.1) as Hok.
  destruct (produce_frame i rec w.1) as [Hc Hd].
  destruct (produce_extends i rec w.1 (inv_log w HI)) as [He Hl].
  destruct (ProduceSync i rec w.1) as [r b]. simpl in *.
  assert (HI' : Inv (b, w.2)).
  { eapply grow_inv; [exact HI|by apply (InvH_grows w); [apply HI|..]|done|done|]. intros t p. simpl. by rewrite Hc. }
  split_and!; [by split|done|]. destruct Hr as [Hre Hrd].
  apply Hk; [split; [by etrans|]; simpl; by rewrite Hd|done|].
  intros Hr. destruct (Hok Hr) as (p & o & Heq). exists p, o. simpl. rewrite Heq.
  apply elem_of_app. right. by apply list_elem_of_singleton.
Qed.

Lemma rg_commit rec w0 :
  settled_upto w0 rec → triple (λ _ w, settled w rec) (commit m rec) w0.
Proof using handled_stable InvH_grows.
  intros [Hin Hup] i w Hr HI. unfold on_broker.
  destruct (commit_frame i m rec w.1) as [Hlog Hd]. pose proof (commit_offset i m rec w.1) as Hoff.
  destruct (CommitRecords i m rec w.1) as [r b]. simpl in *.
  destruct HI as [HIh Hlok Hb Hs]. destruct Hr as [He Hrd].
  assert (Hsame : extends w.1 b) by (by apply extends_same).
  assert (Hset : settled (b, w.2) rec).
  { apply (settled_stable w0); [by etrans|]. apply Hup; [done|by split|lia]. }
  split_and!; [by split| |done].
  split; simpl.
  - by apply (InvH_grows w).
  - split; rewrite Hlog; apply Hlok.
  - intros t p. destruct (Hoff g t p) as [Heq|(_ & Ht & Hp & Heq)]; rewrite Heq, Hlog.
    + apply Hb.
    + destruct (Hb t p) as [Hle|(r' & Hr' & Hrt & Hrp & Hle)]; right.
      * exists rec. split_and!; [by apply He|done|done|].
        assert (0 ≤ r_offset rec)%Z by (apply Hlok; by apply He). lia.
      * destruct (decide (r_offset rec ≤ r_offset r')%Z).
        -- exists r'. split_and!; [done|done|done|lia].
        -- exists rec. split_and!; [by apply He|done|done|lia].
  - intros s Hsin Hlt. simpl in *. rewrite Hlog in Hsin.
    apply (settled_stable w); [done|].
    destruct (Hoff g (r_topic s) (r_partition s)) as [Heq|(_ & Ht & Hp & Heq)];
      rewrite Heq in Hlt; [by apply Hs|].
    destruct (decide (r_offset s < committed w.1 g (r_topic s) (r_partition s))%Z); [by apply Hs|].
    apply (settled_stable w0); [done|].
    assert (Hsp : same_partition s rec) by (by split).
    apply Hup; [|done|lia]. apply (proj2 He s rec); [done|done|done|lia].
Qed.

Abbreviation settles rec := (λ (r : result GoErr unit) w, r = Ok tt → settled w rec).

Lemma rely_settled_below w0 w rec : rely j w0 w → settled_below w0 rec → settled_below w rec.
Proof using handled_stable. intros [He _]. by apply settled_below_stable. Qed.

Lemma rg_commit_ok rec w0 :
  log_ok w0.1 → settled_below w0 rec → settled w0 rec →
  triple (settles rec) (bind (commit m rec) (λ _, Ret (Ok tt))) w0.
Proof using handled_stable InvH_grows.
  intros Hl Hb Hs. apply rg_bind. eapply rg_conseq; [|apply rg_commit; by apply settled_upto_intro].
  by intros [] w Hw _.
Qed.

Lemma rg_quarantine rec cause w0 :
  log_ok w0.1 → settled_below w0 rec → triple (settles rec) (quarantine m rec cause) w0.
Proof using handled_stable InvH_grows.
  intros Hl Hb. unfold quarantine. destruct (String.eqb_spec (r_topic rec) TopicDocsDeadletter) as [Heq|].
  { apply rg_commit_ok; [done|done|by left]. }
  apply rg_produce. intros [[]|e] w Hr HI Hp; [|done].
  apply rg_commit_ok; [apply HI|by eapply rely_settled_below|].
  right; left. destruct (Hp eq_refl) as (p & o & ?). eauto.
Qed.

Lemma rg_attempts n attempt rec tc d cur lastErr w0 :
  log_ok w0.1 → settled_below w0 rec → valid_ctx tc → tenantFromRecord rec = Ok tc →
  Unmarshal (r_value rec) = Ok d → tenant_id d = tenantID tc → stage d cur →
  triple (settles rec) (attempts h m n attempt rec (WithContext ctx tc) cur lastErr) w0.
Proof using handled_stable InvH_grows Hh.
  intros Hl Hb Hv Ht Hu Hten. revert attempt cur lastErr w0 Hl Hb.
  induction n as [|n IH]; intros attempt cur lastErr w0 Hl Hb Hst; cbn [attempts].
  { by apply rg_quarantine. }
  assert (Hnow : ∀ w, log_ok w.1 → settled_below w rec →
    triple (settles rec)
      (bind (h (WithContext ctx tc) cur) (λ '(r, doc'),
         match r with
         | Ok _ => bind (commit m rec) (λ _, Ret (Ok tt))
         | Err e =>
           Atomic _ (input in_ctx) (λ ctxErr,
           match ctxErr with
           | Some ce => Ret (Err (GE_Ctx ce))
           | None => attempts h m n (S attempt) rec (WithContext ctx tc) doc' e
           end)
         end)) w).
  { intros w Hlw Hbw. apply rg_bind.
    pose proof (proj2 Hh tc d cur w Hv Hten Hst) as Htr.
    apply (rg_keep w) in Htr; [|done]. eapply rg_conseq; [|exact Htr].
    intros [[[]|e] doc'] w' [[Hst' Hdone] [He Hl']]; simpl in Hst', Hdone.
    - apply rg_commit_ok; [done|by eapply settled_below_stable|]. right; right. eauto 8.
    - apply rg_input. intros [ce|] w'' Hr HI; [done|].
      apply IH; [apply HI| |done]. eapply settled_below_stable, settled_below_stable; [apply Hr|exact He|done]. }
  destruct (1 <? attempt); [|by apply Hnow].
  apply rg_bind, rg_input. intros [ce|] w Hr HI; [done|].
  apply Hnow; [apply HI|by eapply rely_settled_below].
Qed.

Lemma tenantFromRecord_valid rec tc : tenantFromRecord rec = Ok tc → valid_ctx tc.
Proof using Type.
  unfold tenantFromRecord. destruct (List.find _ _) as [[k v]|]; [|done].
  intros [Hv ->]%FromHeaderValue_Ok. exact Hv.
Qed.

Lemma rg_processRecord rec w0 :
  log_ok w0.1 → settled_below w0 rec → triple (settles rec) (processRecord h m ctx rec) w0.
Proof using handled_stable InvH_grows Hh.
  intros Hl Hb. unfold processRecord.
  destruct (tenantFromRecord rec) as [tc|e] eqn:Et; [|by apply rg_quarantine].
  destruct (Unmarshal (r_value rec)) as [d|e] eqn:Eu; [|by apply rg_quarantine].
  destruct (String.eqb_spec (tenant_id d) (tenantID tc)); cbn [negb]; [|by apply rg_quarantine].
  eapply rg_attempts; eauto using tenantFromRecord_valid. apply Hh.
Qed.

(** The records of a fetch still to process: each is in the log, and what
    precedes it in its partition is settled or comes earlier in the fetch. *)
Definition pending (w : W) (recs : list KRec) : Prop :=
  ∀ n r, recs !! n = Some r → r ∈ klog w.1 ∧
    ∀ s, s ∈ klog w.1 → same_partition s r → (r_offset s < r_offset r)%Z →
      settled w s ∨ s ∈ take n recs.

Lemma pending_stable w w' recs : extends w.1 w'.1 → pending w recs → pending w' recs.
Proof using handled_stable.
  intros He Hp n r Hr. destruct (Hp n r Hr) as [Hin Hb]. split; [by apply He|].
  intros s Hs Hsp Hlt. destruct (Hb s) as [?|?]; [|done|done|left|by right].
  - apply (proj2 He s r); auto. lia.
  - by eapply settled_stable.
Qed.

Lemma pending_head w r recs : pending w (r :: recs) → settled_below w r.
Proof using Type.
  intros Hp. destruct (Hp 0 r eq_refl) as [Hin Hb]. split; [done|].
  intros s Hs Hsp Hlt. by destruct (Hb s Hs Hsp Hlt) as [?|?%not_elem_of_nil].
Qed.

Lemma pending_tail w r recs : pending w (r :: recs) → settled w r → pending w recs.
Proof using Type.
  intros Hp Hset n r' Hr'. destruct (Hp (S n) r' Hr') as [Hin Hb]. split; [done|].
  intros s Hs Hsp Hlt. destruct (Hb s Hs Hsp Hlt) as [?|Hin']; [by left|]. simpl in Hin'.
  apply elem_of_cons in Hin' as [->|?]; [by left|by right].
Qed.

Lemma rg_process_all recs w0 :
  log_ok w0.1 → pending w0 recs →
  triple (λ r w, r = Ok tt → ∀ s, s ∈ recs → settled w s) (process_all h m ctx recs) w0.
Proof using handled_stable InvH_grows Hh.
  revert w0. induction recs as [|r recs IH]; intros w0 Hl Hp; cbn [process_all].
  { by intros _ s ?%not_elem_of_nil. }
  apply rg_bind. pose proof (rg_processRecord r w0 Hl (pending_head _ _ _ Hp)) as Ht.
  apply (rg_keep w0) in Ht; [|done]. eapply rg_conseq; [|exact Ht].
  intros [[]|e] w [Hset [He Hlw]].
  - assert (Hr : settled w r) by (by apply Hset).
    assert (Hp' : pending w recs) by (eapply pending_tail; [by eapply pending_stable|done]).
    pose proof (IH w Hlw Hp') as Ht'. apply (rg_keep w) in Ht'; [|done].
    eapply rg_conseq; [|exact Ht']. intros [[]|e] w' [Hall [He' _]]; [|done].
    intros _ s [->|Hs]%elem_of_cons; [by eapply settled_stable|by apply Hall].
  - apply rg_input. by intros [ce|] w' _ _.
Qed.

(** All that was delivered to this consumer is settled. *)
Definition caught_up (w : W) : Prop := ∀ s, s ∈ delivered w.1 j → settled w s.

Lemma quiet_guar w w' : quiet w w' → guar j w w'.
Proof using Type. intros [? Hd]. split; [done|]. intros c _. by rewrite Hd. Qed.

Lemma rg_Run n w0 :
  caught_up w0 → rg Inv (rely j) (guar j) (λ _ _, True) (Run h m ctx n) w0.
Proof using handled_stable InvH_grows Hh.
  revert w0. induction n as [|n IH]; intros w0 Hc; cbn [Run]; [done|].
  intros i w [He Hd] HI. unfold on_broker.
  destruct (poll_frame i m w.1) as [Hlog Hcm]. destruct (poll_delivered i m w.1) as [Hmine Hother].
  pose proof (poll_in_order i m w.1) as Hord.
  destruct (PollFetches i m w.1) as [[closed recs] b]. simpl in Hlog, Hcm, Hmine, Hother, Hord.
  cbn [fst snd]. set (w1 := (b, w.2)).
  assert (He1 : extends w.1 b) by (by apply extends_same).
  assert (HI1 : Inv w1).
  { eapply grow_inv; [exact HI|by apply (InvH_grows w); [apply HI|..]| |done|].
    - split; simpl; rewrite Hlog; apply HI.
    - intros t p. simpl. by rewrite Hcm. }
  assert (Hc1 : ∀ s, s ∈ delivered w.1 j → settled w1 s).
  { intros s Hs. rewrite Hd in Hs. eapply settled_stable; [|by apply Hc]. simpl. by etrans. }
  assert (Hp : pending w1 recs).
  { intros k r Hr. destruct (Hord k r Hr) as [Hin Hb]. simpl. rewrite Hlog. split; [done|].
    intros s Hs Hsp Hlt. destruct (Hb s Hs Hsp Hlt) as [?|[?|?]]; [left|left; by apply Hc1|by right].
    apply (settled_stable w); [done|]. by apply HI. }
  split_and!; [split; [done|]; intros c Hne; simpl; by apply Hother|done|].
  destruct closed; [done|].
  intros i2 w2 [He2 Hd2] HI2. cbn [input fst snd]. split_and!; [by apply quiet_guar|done|].
  destruct (in_ctx i2) as [ce|]; [done|].
  apply rg_bind.
  assert (Ht := rg_process_all recs w2 (inv_log w2 HI2) (pending_stable _ _ _ He2 Hp)).
  apply (rg_keep w2) in Ht; [|apply HI2].
  apply (rg_frame _ _ _ (λ w, delivered w.1 j)) in Ht; [|by intros ?? [_ ?]|intros ?? [_ Heq]; by rewrite Heq].
  apply (rg_guar _ _ _ (guar j)) in Ht; [|apply quiet_guar].
  eapply rg_conseq; [|exact Ht]. clear Ht. intros [[]|[e|]] w3 [[Hall [He3 _]] Hd3]; [|done|done].
  apply IH. intros s Hs. rewrite Hd3, Hd2 in Hs. simpl in Hs. rewrite Hmine in Hs.
  apply elem_of_app in Hs as [Hs|Hs]; [|by apply Hall].
  eapply settled_stable; [|by apply Hc1]. simpl. by etrans.
Qed.
End contract.

(** ** A consumer group

    Any number of members of the group [g], each running [Run]; members join
    and crash at will (a thread starts late or stops), while the rest of the
    system adds records. *)
Section group.
Context {B : Type} {HK : KafkaAPI B} {HL : KafkaLaws B} {HC : ProtoCodec} {HQ : Quoting} {St : Type}.
Context (g : string) (handled : Document → B * St → Prop) (InvH : B * St → Prop).
Context (h : Ctx → Document → prog (B * St) (result GoErr unit * Document)).
Context (stage : Document → Document → Prop).

(** What others may do: produce records and let the service's own state change
    within its invariant. *)
Definition others (step : B * St → B * St → Prop) : Prop :=
  ∀ w w', step w w' → log_ok w.1 →
    extends w.1 w'.1 ∧ log_ok w'.1 ∧ (∀ t p, committed w'.1 g t p = committed w.1 g t p) ∧
    delivered w'.1 = delivered w.1 ∧ (InvH w → InvH w').

Definition members (runs : list (Ctx * nat)) : list (prog (B * St) (option (result GoErr unit))) :=
  imap (λ j cn, Run h (mkMember g j) cn.1 cn.2) runs.

Lemma group_invariant env runs w0 N :
  (∀ d w w', extends w.1 w'.1 → handled d w → handled d w') →
  (∀ w w', InvH w → extends w.1 w'.1 → w'.2 = w.2 → InvH w') →
  (∀ j ctx, handler_ok g handled InvH h j ctx stage) →
  others env →
  Inv g handled InvH w0 → (∀ j, delivered w0.1 j = []) →
  star (net_step env) (mkNet w0 (members runs)) N →
  Inv g handled InvH (net_world N).
Proof.
  intros Hst Hgr Hh He HI0 Hd0 Hs.
  assert (Hok : net_ok (Inv g handled InvH) rely guar (λ _ _ _, True) (mkNet w0 (members runs))).
  { split; [done|]. intros j p Hp. unfold members in Hp. simpl in Hp.
    rewrite list_lookup_imap in Hp. apply fmap_Some in Hp as (cn & _ & ->).
    eapply rg_Run; [done|done|apply Hh|]. intros s Hin. simpl in Hin. rewrite Hd0 in Hin.
    by apply not_elem_of_nil in Hin. }
  eapply net_invariant in Hok as [HI _]; [done|..|exact Hs].
  - apply _.
  - done.
  - intros j j' w w' Hne [Hex Hdel]. split; [done|]. by apply Hdel.
  - done.
  - intros j w w' HI Hstep. destruct (He w w' Hstep (inv_log _ _ _ _ HI)) as (? & ? & ? & Heq & ?).
    split; [done|]. by rewrite Heq.
  - intros w w' HI Hstep. destruct (He w w' Hstep (inv_log _ _ _ _ HI)) as (? & ? & ? & ? & ?).
    eapply grow_inv; eauto. destruct HI; auto.
Qed.
End group.

(** ** An in-memory broker

    One partition per topic; it shows that the laws can hold and lets the
    consumer run. *)
#[export] Instance KRec_eq_dec : EqDecision KRec.
Proof. solve_decision. Defined.

Record memBroker := mkMemBroker {
  mb_log : list KRec;
  mb_committed : gmap (string * string * Z) Z;
  mb_delivered : gmap nat (list KRec)
}.

Definition mb_offset (b : memBroker) (g t : string) (p : Z) : Z :=
  default 0%Z (mb_committed b !! (g, t, p)).

Definition mb_history (b : memBroker) (c : nat) : list KRec := default [] (mb_delivered b !! c).

Definition next_offset (l : list KRec) : Z := foldr (λ r o, Z.max (r_offset r + 1) o) 0%Z l.

Definition mb_produce (i : Inp) (r : KRec) (b : memBroker) : result GoErr unit * memBroker :=
  match in_ctx i with
  | Some e => (Err (GE_Ctx e), b)
  | None =>
    (Ok tt, mkMemBroker (mb_log b ++ [placed r 0 (next_offset (mb_log b))]) (mb_committed b) (mb_delivered b))
  end.

Definition mb_commit (i : Inp) (m : Member) (r : KRec) (b : memBroker) : result GoErr unit * memBroker :=
  match in_ctx i with
  | Some e => (Err (GE_Ctx e), b)
  | None =>
    (Ok tt, mkMemBroker (mb_log b)
      (<[(m_group m, r_topic r, r_partition r) :=
         Z.max (mb_offset b (m_group m) (r_topic r) (r_partition r)) (r_offset r + 1)]> (mb_committed b))
      (mb_delivered b))
  end.

(** The records a member may be given next. *)
Definition deliverable (b : memBroker) (m : Member) (r : KRec) : bool :=
  negb (bool_decide (r ∈ mb_history b (m_id m))) &&
  negb (bool_decide (r_offset r < mb_offset b (m_group m) (r_topic r) (r_partition r))%Z) &&
  forallb (λ s,
    negb (bool_decide (r_topic s = r_topic r ∧ r_partition s = r_partition r ∧
                       (r_offset s < r_offset r)%Z)) ||
    bool_decide (r_offset s < mb_offset b (m_group m) (r_topic s) (r_partition s))%Z ||
    bool_decide (s ∈ mb_history b (m_id m))) (mb_log b).

Definition mb_poll (topics : list string) (i : Inp) (m : Member) (b : memBroker)
    : (bool * list KRec) * memBroker :=
  let recs := List.filter (λ r, bool_decide (r_topic r ∈ topics) && deliverable b m r) (mb_log b) in
  ((false, recs),
   mkMemBroker (mb_log b) (mb_committed b)
     (<[m_id m := mb_history b (m_id m) ++ recs]> (mb_delivered b))).

Definition memKafka (topics : list string) : KafkaAPI memBroker :=
  Build_KafkaAPI _ mb_produce mb_commit (mb_poll topics).

Lemma next_offset_above l : (0 ≤ next_offset l)%Z ∧ ∀ s, s ∈ l → (r_offset s < next_offset l)%Z.
Proof.
  induction l as [|r l [IH1 IH2]]; simpl; [split; [done|by intros s ?%not_elem_of_nil]|].
  split; [lia|]. intros s [->|Hs]%elem_of_cons; [lia|]. specialize (IH2 s Hs). lia.
Qed.

Lemma deliverable_in_order b m r s :
  deliverable b m r = true → s ∈ mb_log b → same_partition s r → (r_offset s < r_offset r)%Z →
  (r_offset s < mb_offset b (m_group m) (r_topic s) (r_partition s))%Z ∨ s ∈ mb_history b (m_id m).
Proof.
  unfold deliverable. intros [_ Hall]%andb_true_iff Hs [Ht Hp] Hlt.
  rewrite List.forallb_forall in Hall. specialize (Hall s). rewrite <- list_elem_of_In in Hall.
  specialize (Hall Hs). rewrite !orb_true_iff in Hall. destruct Hall as [[Hall|Hall]|Hall].
  - apply negb_true_iff, bool_decide_eq_false in Hall. by destruct Hall.
  - left. by apply bool_decide_eq_true in Hall.
  - right. by apply bool_decide_eq_true in Hall.
Qed.

#[refine] Definition memKafka_laws (topics : list string) : @KafkaLaws memBroker (memKafka topics) :=
  @Build_KafkaLaws memBroker (memKafka topics) mb_log mb_offset mb_history _ _ _ _ _ _ _ _.
Proof.
  - intros i r b. simpl. unfold mb_produce. destruct (in_ctx i); [by left|right]. simpl.
    exists 0%Z, (next_offset (mb_log b)). destruct (next_offset_above (mb_log b)) as [H0 H1].
    split_and!; [done|done|]. intros s Hs _ _. by apply H1.
  - intros i r b. simpl. unfold mb_produce. destruct (in_ctx i); [done|]. intros _. simpl.
    by eexists _, _.
  - intros i r b. simpl. unfold mb_produce. by destruct (in_ctx i).
  - intros i m r b g t p. simpl. unfold mb_commit. destruct (in_ctx i); [by left|]. simpl.
    unfold mb_offset. simpl.
    destruct (decide ((m_group m, r_topic r, r_partition r) = (g, t, p))) as [Heq|Hne].
    + injection Heq as <- <- <-. right. rewrite lookup_insert_eq. done.
    + left. by rewrite lookup_insert_ne.
  - intros i m r b. simpl. unfold mb_commit. by destruct (in_ctx i).
  - done.
  - intros i m b. simpl. unfold mb_history. simpl. rewrite lookup_insert_eq. split; [done|].
    intros c Hc. by rewrite lookup_insert_ne.
  - intros i m b n r Hr. simpl in *. apply list_elem_of_lookup_2 in Hr as Hin.
    apply list_elem_of_In, filter_In in Hin as [Hin Hd]. apply list_elem_of_In in Hin.
    apply andb_true_iff in Hd as [_ Hd]. split; [done|]. intros s Hs Hsp Hlt.
    destruct (deliverable_in_order b m r s Hd Hs Hsp Hlt) as [?|?]; [by left|by right; left].
Defined.

(** Run one thread alone for [n] actions, with the same input each time. *)
Fixpoint solo {W A} (n : nat) (i : Inp) (p : prog W A) (w : W) : W * prog W A :=
  match n, p with
  | S n', Atomic X f k => let '(x, w') := f i w in solo n' i (k x) w'
  | _, p => (w, p)
  end.

Lemma solo_star {W A} (env : W → W → Prop) n i (p : prog W A) w :
  star (net_step env) (mkNet w [p]) (mkNet (solo n i p w).1 [(solo n i p w).2]).
Proof.
  revert p w. induction n as [|n IH]; intros p w; simpl; [constructor|].
  destruct p as [a|X f k]; simpl; [constructor|].
  eapply star_step; [by apply (net_thread env w [Atomic X f k] 0 X f k i)|]. simpl.
  destruct (f i w) as [x w']. simpl. apply IH.
Qed.
