(* ===== verification/Ingest.v ===== *)
(** * The ingest stage

    Models [services/ingest]: [normalize.go] and [handler.go] (docs.raw to
    docs.chunked: normalise, dedupe, chunk, produce, mark), as a handler of the
    consumer of [Kafka].  The dedupe store (Redis) is the interface
    [seenStore]; SHA-256 is a parameter. *)

From stdpp Require Import base gmap strings list.
From Stdlib Require Import Ascii ZArith Lia.
From S2P Require Import Prelude GoStrings Tenancy Crypto Blob ControlPlane Document Chunker ChunkerProofs Interleave Kafka KafkaProofs.

(** ** normalize.go *)

Definition cr : ascii := "013".

(** [strings.ReplaceAll(body, "\r\n", "\n")] *)
Fixpoint replace_crlf (l : bytes) : bytes :=
  match l with
  | a :: (b :: l') as tl =>
    if Ascii.eqb a cr && Ascii.eqb b newline then newline :: replace_crlf l'
    else a :: replace_crlf tl
  | l => l
  end.

(** [strings.ReplaceAll(body, "\r", "\n")] *)
Definition replace_cr (l : bytes) : bytes := (λ a, if Ascii.eqb a cr then newline else a) <$> l.

Definition starts_with (p : ascii → bool) (l : bytes) : bool :=
  match l with a :: _ => p a | [] => false end.

Definition is_blank (a : ascii) : bool := (byte_val a =? 32)%N || (byte_val a =? 9)%N.

(** A replacement that, scanning from the right, drops a byte depending on
    what is kept after it. *)
Fixpoint squash (drops : ascii → bytes → bool) (l : bytes) : bytes :=
  match l with
  | [] => []
  | a :: l' => let r := squash drops l' in if drops a r then r else a :: r
  end.

Definition starts_newline : bytes → bool := starts_with (Ascii.eqb newline).

(** [trailingWSRe.ReplaceAllString(body, "\n")] for [[ \t]+\n]: a blank is
    dropped when only blanks separate it from a newline. *)
Definition strip_trailing : bytes → bytes := squash (λ a r, is_blank a && starts_newline r).

(** [blankLinesRunRe.ReplaceAllString(body, "\n\n")] for [\n{3,}]: a newline
    is dropped when two follow it. *)
Definition squeeze_newlines : bytes → bytes :=
  squash (λ a r, Ascii.eqb newline a && starts_newline r && starts_newline (drop 1 r)).

(** [wsRunRe.ReplaceAllString(title, " ")] for [\s+]: every white space
    becomes a space, and a space followed by another is dropped. *)
Definition collapse_ws (l : bytes) : bytes :=
  squash (λ a r, Ascii.eqb " " a && starts_with (Ascii.eqb " ") r)
    ((λ a, if re_space a then " "%char else a) <$> l).

Definition normalizeTitle (title : string) : string :=
  TrimSpace (of_bytes (collapse_ws (to_bytes title))).

Definition normalizeBody (body : string) : string :=
  if String.eqb body "" then ""
  else
    let body := replace_crlf (to_bytes body) in
    let body := replace_cr body in
    let body := strip_trailing body in
    let body := squeeze_newlines body in
    TrimSpace (of_bytes body).

Section normalize.
Context (sha256 : bytes → bytes).

Definition normalizeDocument (doc : Document) : Document :=
  let doc := set_text (normalizeTitle (title doc)) (normalizeBody (body_text doc)) doc in
  if String.eqb (version_etag doc) "" then
    set_version_etag (EncodeToString (sha256 (to_bytes (title doc +:+ body_text doc)))) doc
  else doc.
End normalize.

(** ** handler.go *)
Definition seenKeyPrefix : string := "ingest:seen:".

(** [48 * time.Hour] in nanoseconds. *)
Definition seenTTL : Z := (48 * 3600 * 1000000000)%Z.

Class seenStore (R : Type) := {
  Seen : Inp → string → R → result GoErr bool;
  MarkSeen : Inp → string → Z → R → result GoErr unit * R
}.

(** Keys appear only by being marked; they may expire at any time. *)
Class seenStoreLaws (R : Type) `{!seenStore R} := {
  seen_keys : R → gset string;
  seen_true i k r : Seen i k r = Ok true → k ∈ seen_keys r;
  mark_keys i k ttl r : seen_keys (MarkSeen i k ttl r).2 ⊆ {[k]} ∪ seen_keys r
}.

Definition isMediaDoc (doc : Document) : bool :=
  match doc_type doc with
  | IMAGE | VIDEO | AUDIO => true
  | _ =>
    let ct := original_content_type doc in
    HasPrefix ct "image/" || HasPrefix ct "audio/" || HasPrefix ct "video/"
  end.

Section handler.
Context {B : Type} `{!KafkaAPI B} `{!ProtoCodec} `{!Quoting} {R : Type} `{!seenStore R}.
Context (sha256 : bytes → bytes).

Abbreviation W := (B * R)%type.

Definition produce (ctx : Ctx) (topic : string) (doc : Document) : prog W (result GoErr unit) :=
  zoom fst (λ b w, (b, w.2)) (ProduceDocument ctx topic (Some doc)).

Definition seen (key : string) (i : Inp) (w : W) : result GoErr bool * W := (Seen i key w.2, w).

Definition mark_seen (key : string) (i : Inp) (w : W) : result GoErr unit * W :=
  let '(r, s) := MarkSeen i key seenTTL w.2 in (r, (w.1, s)).

Definition seen_key (doc : Document) : string :=
  seenKeyPrefix +:+ doc_id doc +:+ ":" +:+ version_etag doc.

(** The document is the one the caller holds: it is returned as the handler
    leaves it.  A panic of [buildChunks] (an index out of range; it never
    happens, [buildChunks_total]) would end the process. *)
Definition Handle (ctx : Ctx) (doc : Document) : prog W (result GoErr unit * Document) :=
  if is_deleted doc then
    bind (produce ctx TopicDocsChunked doc) (λ r,
    match r with
    | Err e => Ret (Err (GE_Msg ("produce tombstone " +:+ doc_id doc +:+ ": " +:+ err_text e)), doc)
    | Ok _ => Ret (Ok tt, doc)
    end)
  else
    let doc := normalizeDocument sha256 doc in
    let key := seen_key doc in
    Atomic _ (seen key) (λ seen_before,
    match seen_before with
    | Ok true => Ret (Ok tt, doc)
    | _ =>
      match (if isMediaDoc doc then Some doc
             else (λ r : list Chunk * bool, set_chunks r.1 doc) <$> buildChunks doc) with
      | None => Ret (Err (GE_Msg "panic: index out of range"), doc)
      | Some doc =>
        bind (produce ctx TopicDocsChunked doc) (λ r,
        match r with
        | Err e => Ret (Err (GE_Msg ("produce chunked " +:+ doc_id doc +:+ ": " +:+ err_text e)), doc)
        | Ok _ => Atomic _ (mark_seen key) (λ _, Ret (Ok tt, doc))
        end)
      end
    end).
End handler.

(** * The ingest stage: proofs

    Normalisation is idempotent, so that retries and replays of a record see
    the same document; the handler against the delivery contract of [Kafka];
    and what the dedupe store can drop. *)

Open Scope nat_scope.

(** ** Squashing replacements *)
Section squash.
Context (drops : ascii → bytes → bool).

Lemma squash_length l : length (squash drops l) ≤ length l.
Proof. induction l as [|a l IH]; simpl; [done|]. destruct (drops a _); simpl; lia. Qed.

Lemma squash_subset l a : a ∈ squash drops l → a ∈ l.
Proof.
  induction l as [|b l IH]; simpl; [done|]. destruct (drops b _); [by right; apply IH|].
  rewrite !elem_of_cons. naive_solver.
Qed.

Lemma squash_idem l : squash drops (squash drops l) = squash drops l.
Proof.
  induction l as [|a l IH]; simpl; [done|]. destruct (drops a (squash drops l)) eqn:E; [done|].
  simpl. by rewrite IH, E.
Qed.

Lemma squash_fix_cons a l : squash drops (a :: l) = a :: l → squash drops l = l ∧ drops a l = false.
Proof.
  simpl. destruct (drops a (squash drops l)) eqn:E; intros Heq.
  - pose proof (squash_length l) as Hl. rewrite Heq in Hl. simpl in Hl. lia.
  - injection Heq as Heq. by rewrite Heq in E.
Qed.

Lemma squash_fix_suffix x y : squash drops (x ++ y) = x ++ y → squash drops y = y.
Proof. induction x as [|a x IH]; simpl app; [done|]. intros [H _]%squash_fix_cons. auto. Qed.

Lemma squash_fix_prefix x y :
  (∀ a l l', drops a l = true → drops a (l ++ l') = true) →
  squash drops (x ++ y) = x ++ y → squash drops x = x.
Proof.
  intros Hmono. induction x as [|a x IH]; simpl app; [done|].
  intros [H Hd]%squash_fix_cons. simpl. rewrite (IH H).
  destruct (drops a x) eqn:E; [|done]. apply (Hmono _ _ y) in E. congruence.
Qed.
End squash.

Lemma starts_with_app f l l' : starts_with f l = true → starts_with f (l ++ l') = true.
Proof. by destruct l. Qed.

Lemma squeeze_cons a l :
  squeeze_newlines (a :: l) =
  if Ascii.eqb newline a && starts_newline (squeeze_newlines l)
     && starts_newline (drop 1 (squeeze_newlines l))
  then squeeze_newlines l else a :: squeeze_newlines l.
Proof. done. Qed.

(** Squeezing keeps the first byte. *)
Lemma squeeze_head l : starts_newline (squeeze_newlines l) = starts_newline l.
Proof.
  destruct l as [|a l]; [done|]. rewrite squeeze_cons.
  match goal with |- context [if ?c then _ else _] => destruct c eqn:E end; [|done].
  rewrite !andb_true_iff in E. destruct E as [[Ha ->] _]. symmetry. exact Ha.
Qed.

Lemma strip_squeeze l :
  strip_trailing l = l → strip_trailing (squeeze_newlines l) = squeeze_newlines l.
Proof.
  induction l as [|a l IH]; [done|]. intros [Hl Hd]%squash_fix_cons. rewrite squeeze_cons.
  match goal with |- context [if ?c then _ else _] => destruct c end; [by apply IH|].
  unfold strip_trailing. cbn [squash]. fold strip_trailing. rewrite (IH Hl).
  by rewrite squeeze_head, Hd.
Qed.

(** ** [TrimSpace] *)
Lemma trim_left_suffix l : ∃ x, l = x ++ trim_left l.
Proof.
  induction l as [l IH] using (induction_ltof1 _ length). unfold ltof in IH.
  destruct l as [|a l1]; [by exists []|]. simpl.
  destruct (is_space1 a).
  { destruct (IH l1) as [x Hx]; [simpl; lia|]. exists (a :: x). simpl. by rewrite <- Hx. }
  destruct l1 as [|b l2]; [by exists []|]. destruct (is_space2 a b).
  { destruct (IH l2) as [x Hx]; [simpl; lia|]. exists (a :: b :: x). simpl. by rewrite <- Hx. }
  destruct l2 as [|c l3]; [by exists []|]. destruct (is_space3 a b c); [|by exists []].
  destruct (IH l3) as [x Hx]; [simpl; lia|]. exists (a :: b :: c :: x). simpl. by rewrite <- Hx.
Qed.

Lemma trim_right_rev_suffix l : ∃ x, l = x ++ trim_right_rev l.
Proof.
  induction l as [l IH] using (induction_ltof1 _ length). unfold ltof in IH.
  destruct l as [|a l1]; [by exists []|]. simpl.
  destruct (is_space1 a).
  { destruct (IH l1) as [x Hx]; [simpl; lia|]. exists (a :: x). simpl. by rewrite <- Hx. }
  destruct l1 as [|b l2]; [by exists []|]. destruct (is_space2 b a).
  { destruct (IH l2) as [x Hx]; [simpl; lia|]. exists (a :: b :: x). simpl. by rewrite <- Hx. }
  destruct l2 as [|c l3]; [by exists []|]. destruct (is_space3 c b a); [|by exists []].
  destruct (IH l3) as [x Hx]; [simpl; lia|]. exists (a :: b :: c :: x). simpl. by rewrite <- Hx.
Qed.

Lemma trim_left_idem l : trim_left (trim_left l) = trim_left l.
Proof.
  induction l as [l IH] using (induction_ltof1 _ length). unfold ltof in IH.
  destruct l as [|a l1]; [done|]. simpl.
  destruct (is_space1 a) eqn:E1; [apply IH; simpl; lia|].
  destruct l1 as [|b l2]; [simpl; by rewrite E1|].
  destruct (is_space2 a b) eqn:E2; [apply IH; simpl; lia|].
  destruct l2 as [|c l3]; [simpl; by rewrite E1, E2|].
  destruct (is_space3 a b c) eqn:E3; [apply IH; simpl; lia|].
  simpl. by rewrite E1, E2, E3.
Qed.

Lemma trim_right_rev_idem l : trim_right_rev (trim_right_rev l) = trim_right_rev l.
Proof.
  induction l as [l IH] using (induction_ltof1 _ length). unfold ltof in IH.
  destruct l as [|a l1]; [done|]. simpl.
  destruct (is_space1 a) eqn:E1; [apply IH; simpl; lia|].
  destruct l1 as [|b l2]; [simpl; by rewrite E1|].
  destruct (is_space2 b a) eqn:E2; [apply IH; simpl; lia|].
  destruct l2 as [|c l3]; [simpl; by rewrite E1, E2|].
  destruct (is_space3 c b a) eqn:E3; [apply IH; simpl; lia|].
  simpl. by rewrite E1, E2, E3.
Qed.

Lemma trim_left_length l : length (trim_left l) ≤ length l.
Proof.
  destruct (trim_left_suffix l) as [x Hx]. apply (f_equal length) in Hx.
  rewrite length_app in Hx. lia.
Qed.

(** A prefix of a text that does not start with space does not either. *)
Lemma trim_left_prefix x y : trim_left (x ++ y) = x ++ y → trim_left x = x.
Proof.
  intros H. assert (Hlen : ∀ l, (length l < length (x ++ y))%nat → trim_left l ≠ x ++ y).
  { intros l Hl Heq. pose proof (trim_left_length l). rewrite Heq in *. lia. }
  destruct x as [|a x]; [done|]. simpl in *.
  destruct (is_space1 a); [by apply Hlen in H; [|simpl; lia]|].
  destruct x as [|b x]; [done|]. simpl in *.
  destruct (is_space2 a b); [by apply Hlen in H; [|simpl; lia]|].
  destruct x as [|c x]; [done|]. simpl in *.
  destruct (is_space3 a b c); [by apply Hlen in H; [|simpl; lia]|]. done.
Qed.

Definition trim (l : bytes) : bytes := trim_right (trim_left l).

Lemma TrimSpace_trim s : to_bytes (TrimSpace s) = trim (to_bytes s).
Proof. unfold TrimSpace. by rewrite to_of_bytes. Qed.

Lemma trim_right_prefix l : ∃ z, l = trim_right l ++ z.
Proof.
  unfold trim_right. destruct (trim_right_rev_suffix (rev l)) as [x Hx]. exists (rev x).
  rewrite <- rev_app_distr, <- Hx. by rewrite rev_involutive.
Qed.

Lemma trim_infix l : ∃ x z, l = x ++ trim l ++ z.
Proof.
  destruct (trim_left_suffix l) as [x Hx]. destruct (trim_right_prefix (trim_left l)) as [z Hz].
  exists x, z. unfold trim. by rewrite <- Hz.
Qed.

Lemma trim_idem l : trim (trim l) = trim l.
Proof.
  unfold trim. destruct (trim_right_prefix (trim_left l)) as [z Hz].
  rewrite (trim_left_prefix _ z).
  - unfold trim_right. by rewrite rev_involutive, trim_right_rev_idem.
  - rewrite <- Hz. apply trim_left_idem.
Qed.

(** ** Normal forms *)
Lemma replace_crlf_no_cr l : cr ∉ l → replace_crlf l = l.
Proof.
  induction l as [l IH] using (induction_ltof1 _ length). unfold ltof in IH.
  intros Hn. destruct l as [|a [|b l]]; [done|done|]. simpl.
  destruct (Ascii.eqb_spec a cr) as [->|]; [by destruct Hn; left|]. simpl.
  f_equal. apply (IH (b :: l)); [simpl; lia|]. intros Hin. apply Hn. by right.
Qed.

Lemma replace_cr_no_cr l : cr ∉ l → replace_cr l = l.
Proof.
  unfold replace_cr. induction l as [|a l IH]; [done|]. rewrite not_elem_of_cons. intros [Ha Hl]. simpl.
  destruct (Ascii.eqb_spec a cr) as [->|]; [done|]. f_equal. by apply IH.
Qed.

Lemma no_cr_replace_cr l : cr ∉ replace_cr l.
Proof.
  unfold replace_cr. intros (a & Heq & _)%list_elem_of_fmap.
  destruct (Ascii.eqb_spec a cr); [discriminate Heq|congruence].
Qed.

Lemma trim_elem l a : a ∈ trim l → a ∈ l.
Proof.
  destruct (trim_infix l) as (x & z & Hl). intros Ha. rewrite Hl. rewrite !elem_of_app. by right; left.
Qed.

(** A fixpoint of a squashing replacement stays one when trimmed. *)
Lemma squash_fix_trim drops l :
  (∀ a x y, drops a x = true → drops a (x ++ y) = true) →
  squash drops l = l → squash drops (trim l) = trim l.
Proof.
  intros Hm Hf. destruct (trim_infix l) as (x & z & Hl). rewrite Hl in Hf at 1 2.
  apply squash_fix_suffix in Hf. by apply squash_fix_prefix in Hf.
Qed.

Definition body_steps (l : bytes) : bytes :=
  squeeze_newlines (strip_trailing (replace_cr (replace_crlf l))).

Lemma to_bytes_normalizeBody s : to_bytes (normalizeBody s) = trim (body_steps (to_bytes s)).
Proof.
  unfold normalizeBody. destruct (String.eqb_spec s "") as [->|]; [done|].
  by rewrite TrimSpace_trim, to_of_bytes.
Qed.

(** The normal form of a body. *)
Record body_normal (l : bytes) : Prop := {
  bn_cr : cr ∉ l;
  bn_strip : strip_trailing l = l;
  bn_squeeze : squeeze_newlines l = l;
  bn_trim : trim l = l
}.

Lemma normalizeBody_normal s : body_normal (to_bytes (normalizeBody s)).
Proof.
  rewrite to_bytes_normalizeBody. unfold body_steps.
  set (l := replace_cr (replace_crlf (to_bytes s))).
  assert (Hcr : cr ∉ l) by apply no_cr_replace_cr.
  split.
  - intros Ha. apply trim_elem in Ha. by apply squash_subset, squash_subset in Ha.
  - apply squash_fix_trim; [|apply strip_squeeze, squash_idem].
    intros a x y [Hb Hn]%andb_true_iff. rewrite Hb. by apply starts_with_app.
  - apply squash_fix_trim; [|apply squash_idem].
    intros a x y. rewrite !andb_true_iff. intros [[-> Hx] Hd].
    destruct x as [|b [|c x]]; done.
  - apply trim_idem.
Qed.

Lemma normalizeBody_fix s : body_normal (to_bytes s) → normalizeBody s = s.
Proof.
  intros [Hcr Hst Hsq Htr]. rewrite <- (of_to_bytes (normalizeBody s)), to_bytes_normalizeBody.
  unfold body_steps. rewrite (replace_crlf_no_cr _ Hcr), (replace_cr_no_cr _ Hcr), Hst, Hsq, Htr.
  apply of_to_bytes.
Qed.

Definition spaced (l : bytes) : bytes := (λ a, if re_space a then " "%char else a) <$> l.

Lemma spaced_elem l a : a ∈ spaced l → re_space a = true → a = " "%char.
Proof.
  intros (b & -> & _)%list_elem_of_fmap. destruct (re_space b) eqn:E; [done|]. congruence.
Qed.

Lemma spaced_fix l : (∀ a, a ∈ l → re_space a = true → a = " "%char) → spaced l = l.
Proof.
  induction l as [|a l IH]; intros H; [done|]. change (spaced (a :: l)) with
    ((if re_space a then " "%char else a) :: spaced l). rewrite IH.
  - destruct (re_space a) eqn:E; [|done]. f_equal. symmetry. apply H; [by left|done].
  - intros b Hb. apply H. by right.
Qed.

Lemma normalizeTitle_idem s : normalizeTitle (normalizeTitle s) = normalizeTitle s.
Proof.
  rewrite <- (of_to_bytes (normalizeTitle (normalizeTitle s))). unfold normalizeTitle at 1.
  rewrite TrimSpace_trim, to_of_bytes.
  assert (Hb : to_bytes (normalizeTitle s) = trim (collapse_ws (to_bytes s)))
    by (unfold normalizeTitle; by rewrite TrimSpace_trim, to_of_bytes).
  rewrite Hb. unfold collapse_ws at 1. fold (spaced (trim (collapse_ws (to_bytes s)))).
  rewrite spaced_fix.
  - rewrite squash_fix_trim; [|intros a x y [-> Hx]%andb_true_iff; by apply starts_with_app|apply squash_idem].
    rewrite trim_idem, <- Hb. apply of_to_bytes.
  - intros a Ha. apply trim_elem, squash_subset in Ha. by eapply spaced_elem.
Qed.

Lemma normalizeDocument_idem sha256 doc :
  normalizeDocument sha256 (normalizeDocument sha256 doc) = normalizeDocument sha256 doc.
Proof.
  assert (Hf : ∀ s, normalizeBody (normalizeBody s) = normalizeBody s)
    by (intros s; apply normalizeBody_fix, normalizeBody_normal).
  assert (Ht := normalizeTitle_idem (title doc)). specialize (Hf (body_text doc)).
  set (t := normalizeTitle (title doc)) in *. set (b := normalizeBody (body_text doc)) in *.
  assert (Hn : ∀ e, normalizeDocument sha256 (set_version_etag e (set_text t b doc)) =
    if String.eqb e "" then set_version_etag (EncodeToString (sha256 (to_bytes (t +:+ b)))) (set_text t b doc)
    else set_version_etag e (set_text t b doc)).
  { intros e. unfold normalizeDocument, set_text, set_version_etag.
    cbn [title body_text version_etag]. by rewrite Ht, Hf. }
  assert (Hd : normalizeDocument sha256 doc = if String.eqb (version_etag doc) "" then
    set_version_etag (EncodeToString (sha256 (to_bytes (t +:+ b)))) (set_text t b doc)
    else set_version_etag (version_etag doc) (set_text t b doc)) by done.
  rewrite Hd. destruct (String.eqb (version_etag doc) "") eqn:E; rewrite Hn; [|by rewrite E].
  case_match; reflexivity.
Qed.

(** Normalisation is idempotent and reaches a normal form: running it again, on
    a retry or a replay, changes nothing (so the derived version etag and the
    dedupe key are stable); the body has no carriage return, no blank before a
    newline, no three newlines in a row, and no white space at its ends. *)
Theorem normalize_idempotent (sha256 : bytes → bytes) (doc : Document) :
  let doc' := normalizeDocument sha256 doc in
  let body := to_bytes (body_text doc') in
  normalizeDocument sha256 doc' = doc' ∧
  cr ∉ body ∧
  (∀ x y b, is_blank b = true → body ≠ x ++ b :: newline :: y) ∧
  (∀ x y, body ≠ x ++ newline :: newline :: newline :: y) ∧
  trim body = body.
Proof.
  intros doc' body. split; [apply normalizeDocument_idem|].
  assert (Hn : body_normal body).
  { unfold body, doc', normalizeDocument. simpl.
    destruct (String.eqb _ ""); apply normalizeBody_normal. }
  destruct Hn as [Hcr Hst Hsq Htr]. split_and!; [done| | |done].
  - intros x y b Hb Heq. rewrite Heq in Hst. apply squash_fix_suffix in Hst.
    apply squash_fix_cons in Hst as [_ Hd]. by rewrite Hb in Hd.
  - intros x y Heq. rewrite Heq in Hsq. apply squash_fix_suffix in Hsq.
    by apply squash_fix_cons in Hsq as [_ Hd].
Qed.

(** ** The handler *)
Section handler.
Context {B : Type} {HK : KafkaAPI B} {HL : KafkaLaws B} {HC : ProtoCodec} {HQ : Quoting}.
Context {R : Type} {HR : seenStore R} {HS : seenStoreLaws R}.
Context (sha256 : bytes → bytes).

Abbreviation W := (B * R)%type.
Abbreviation normalized := (normalizeDocument sha256).

(** The document is on docs.chunked. *)
Definition on_chunked (b : B) (d : Document) : Prop :=
  ∃ v p o, Marshal d = Ok v ∧ placed (document_record TopicDocsChunked v d) p o ∈ klog b.

(** What the stage produces for a document that is not a tombstone. *)
Definition ready (d : Document) : option Document :=
  if isMediaDoc (normalized d) then Some (normalized d)
  else (λ r : list Chunk * bool, set_chunks r.1 (normalized d)) <$> buildChunks (normalized d).

(** A tombstone is passed on as it is; another document is passed on
    normalised and chunked, or one with its dedupe key was before. *)
Definition ingested (d : Document) (w : W) : Prop :=
  if is_deleted d then on_chunked w.1 d
  else (∃ out, ready d = Some out ∧ on_chunked w.1 out) ∨
       (∃ other, on_chunked w.1 other ∧ is_deleted other = false ∧
          seen_key other = seen_key (normalized d)).

(** The dedupe store holds only keys of documents that are on docs.chunked. *)
Definition seen_backed (w : W) : Prop :=
  ∀ k, k ∈ seen_keys w.2 → ∃ d, on_chunked w.1 d ∧ is_deleted d = false ∧ seen_key d = k.

Lemma on_chunked_stable b b' d : extends b b' → on_chunked b d → on_chunked b' d.
Proof using Type. intros He (v & p & o & ? & ?). exists v, p, o. split; [done|]. by apply He. Qed.

Lemma ingested_stable d (w w' : W) : extends w.1 w'.1 → ingested d w → ingested d w'.
Proof using Type.
  intros He. unfold ingested. destruct (is_deleted d); [by apply on_chunked_stable|].
  intros [(out & ? & ?)|(o & ? & ? & ?)]; [left|right]; eauto 6 using on_chunked_stable.
Qed.

Lemma seen_backed_grows (w w' : W) : seen_backed w → extends w.1 w'.1 → w'.2 = w.2 → seen_backed w'.
Proof using Type.
  intros Hs He Heq k Hk. rewrite Heq in Hk. destruct (Hs k Hk) as (d & ? & ? & ?).
  eauto 6 using on_chunked_stable.
Qed.

(** *** The document across attempts *)
Lemma normalized_chunks cs d : normalized (set_chunks cs d) = set_chunks cs (normalized d).
Proof using Type.
  unfold normalizeDocument, set_text, set_chunks, set_version_etag. cbn [title body_text version_etag].
  by destruct (String.eqb (version_etag d) "").
Qed.

Lemma normalized_deleted d : is_deleted (normalized d) = is_deleted d.
Proof using Type.
  unfold normalizeDocument, is_deleted, set_text. cbn [version_etag].
  by destruct (String.eqb (version_etag d) "").
Qed.

Definition stage (d cur : Document) : Prop :=
  cur = d ∨ (is_deleted d = false ∧ (cur = normalized d ∨ ready d = Some cur)).

Lemma ready_shape d out : ready d = Some out →
  is_deleted out = is_deleted d ∧ seen_key out = seen_key (normalized d) ∧
  tenant_id out = tenant_id d ∧ ∃ cs, out = set_chunks cs (normalized d).
Proof using Type.
  assert (Ht : tenant_id (normalized d) = tenant_id d) by (unfold normalizeDocument, set_text; cbn [version_etag];
      by destruct (String.eqb (version_etag d) "")).
  unfold ready. destruct (isMediaDoc _).
  - intros [= <-]. split_and!; [apply normalized_deleted|done|done|].
    exists (chunks (normalized d)). by destruct (normalized d).
  - intros (r & _ & ->)%fmap_Some. rewrite <- (normalized_deleted d), <- Ht. split_and!; [done|done|done|by eexists].
Qed.

Lemma ready_again cs d : isMediaDoc (normalized d) = false → ready (set_chunks cs (normalized d)) = ready d.
Proof using Type.
  intros Hm. unfold ready. rewrite normalized_chunks, normalizeDocument_idem.
  by replace (isMediaDoc (set_chunks cs (normalized d))) with (isMediaDoc (normalized d)) by done;
    rewrite Hm.
Qed.

Lemma ready_normalized d : ready (normalized d) = ready d.
Proof using Type. unfold ready. by rewrite normalizeDocument_idem. Qed.

Lemma stage_ready d cur :
  stage d cur → is_deleted cur = is_deleted d ∧
  (is_deleted d = false → ready cur = ready d ∧ seen_key (normalized cur) = seen_key (normalized d)).
Proof using Type.
  intros [->|[Hd [->|Hr]]]; [done| |].
  - split; [apply normalized_deleted|]. intros _. by rewrite ready_normalized, normalizeDocument_idem.
  - destruct (ready_shape d cur Hr) as (Hdel & Hkey & _ & cs & ->). split; [done|]. intros _.
    split; [|by rewrite normalized_chunks, normalizeDocument_idem].
    unfold ready in Hr. destruct (isMediaDoc (normalized d)) eqn:Em; [|by apply ready_again].
    injection Hr as Heq. by rewrite <- Heq, ready_normalized.
Qed.

(** *** Against the delivery contract *)
Context (g : string) (j : nat).

Abbreviation IInv := (Inv g ingested seen_backed).
Abbreviation itriple Q p w0 := (rg IInv (rely j) quiet Q p w0).

Lemma rg_produce_document ctx d (w0 : W) :
  itriple (λ r w, r = Ok tt → on_chunked w.1 d) (produce ctx TopicDocsChunked d) w0.
Proof using Type.
  unfold produce, ProduceDocument. cbn [String.eqb TopicDocsChunked].
  destruct (FromContext ctx) as [tc|e]; [|done].
  destruct (String.eqb (tenantID tc) (tenant_id d)); [|done]. cbn [negb].
  destruct (Marshal d) as [v|e] eqn:Em; [|done].
  apply (rg_produce g ingested seen_backed ingested_stable seen_backed_grows j).
  intros [[]|e] w Hr HI Hp; [|done]. intros _.
  destruct (Hp eq_refl) as (p & o & ?). by exists v, p, o.
Qed.

(** Recording a key keeps the store backed when its document was produced. *)
Lemma rg_mark_seen {A} d (k : result GoErr unit → prog W A) Q (w0 : W) :
  on_chunked w0.1 d → is_deleted d = false →
  (∀ r w, rely j w0 w → itriple Q (k r) w) →
  itriple Q (Atomic _ (mark_seen (seen_key d)) k) w0.
Proof using Type.
  intros Hd Hdel Hk i w Hr HI. unfold mark_seen.
  pose proof (mark_keys i (seen_key d) seenTTL w.2) as Hkeys.
  destruct (MarkSeen i (seen_key d) seenTTL w.2) as [r s]. simpl in Hkeys. cbn [fst snd].
  assert (He : extends w.1 w.1) by done. split_and!; [by split| |].
  - apply (grow_inv g ingested seen_backed ingested_stable w); [done| |apply HI|done|done].
    intros key Hkey. simpl in Hkey. apply Hkeys in Hkey. apply elem_of_union in Hkey as [Hkey|Hkey].
    + apply elem_of_singleton in Hkey as ->. exists d. split_and!; [|done|done].
      eapply on_chunked_stable; [apply Hr|done].
    + by apply (inv_h _ _ _ _ HI).
  - apply Hk. exact Hr.
Qed.

Lemma Handle_ok ctx : handler_ok g ingested seen_backed (Handle sha256) j ctx stage.
Proof using Type.
  split; [by left|]. intros tc d cur w0 Hv Hten Hst.
  destruct (stage_ready d cur Hst) as [Hdel Hready]. unfold Handle. rewrite Hdel.
  destruct (is_deleted d) eqn:Ed.
  { assert (cur = d) as -> by (destruct Hst as [?|[? _]]; congruence).
    apply rg_bind. eapply rg_conseq; [|apply rg_produce_document].
    intros [[]|e] w Hp; (split; [by left|]); simpl; [|done].
    intros _. unfold ingested. rewrite Ed. by apply Hp. }
  destruct (Hready eq_refl) as [Hrd Hkey].
  assert (Hnorm : stage d (normalized cur)).
  { destruct Hst as [->|[_ [->|Hr]]]; right; (split; [done|]); [by left|left|right].
    - apply normalizeDocument_idem.
    - destruct (ready_shape d cur Hr) as (_ & _ & _ & cs & Hcs).
      rewrite Hcs, normalized_chunks, normalizeDocument_idem. by rewrite <- Hcs. }
  intros i w Hr HI. unfold seen. cbn [fst snd]. split_and!; [by split|done|].
  assert (Hgo : itriple (λ rd w, stage d rd.2 ∧ (rd.1 = Ok tt → ingested d w))
    match ready cur with
    | None => Ret (Err (GE_Msg "panic: index out of range"), normalized cur)
    | Some doc =>
      bind (produce (WithContext ctx tc) TopicDocsChunked doc) (λ r,
      match r with
      | Err e => Ret (Err (GE_Msg ("produce chunked " +:+ doc_id doc +:+ ": " +:+ err_text e)), doc)
      | Ok _ => Atomic _ (mark_seen (seen_key (normalized cur))) (λ _, Ret (Ok tt, doc))
      end)
    end w).
  { rewrite Hrd. destruct (ready d) as [out|] eqn:Er; [|done].
    destruct (ready_shape d out Er) as (Hod & Hok & _).
    apply rg_bind. eapply rg_conseq; [|apply rg_produce_document].
    intros [[]|e] w' Hp; [|by split; [right; split; [done|by right]|]].
    rewrite Hkey, <- Hok. apply rg_mark_seen; [by apply Hp|congruence|].
    intros r w'' Hr''. split; [right; split; [done|by right]|]. intros _.
    unfold ingested. rewrite Ed. left. exists out. split; [done|].
    eapply on_chunked_stable; [apply Hr''|by apply Hp]. }
  destruct (Seen i (seen_key (normalized cur)) w.2) as [[]|e] eqn:Eseen; [|exact Hgo..].
  split; [done|]. intros _. unfold ingested. rewrite Ed. right.
  destruct (inv_h _ _ _ _ HI (seen_key (normalized cur))) as (other & ? & ? & ?);
    [by eapply seen_true|].
  exists other. rewrite <- Hkey. by split_and!.
Qed.
End handler.

(** C8. No silent loss: in any interleaving of the members of the ingest group with
    each other and with the producers of the rest of the system, and wherever
    a member crashes, every docs.raw record below the group's committed offset
    is accounted for: it is on the dead-letter topic with its key, value and
    headers, or it carries a document of the tenant of its header that is on
    docs.chunked (a tombstone unchanged, another document normalised and
    chunked) or shares its dedupe key with one that is. *)
Theorem ingest_no_loss {B} `{!KafkaAPI B, !KafkaLaws B, !ProtoCodec, !Quoting}
    {R} `{!seenStore R, !seenStoreLaws R} (sha256 : bytes → bytes)
    (g : string) (env : B * R → B * R → Prop) (runs : list (Ctx * nat)) (w0 : B * R) N s :
  others g seen_backed env →
  log_ok w0.1 → (∀ t p, (committed w0.1 g t p ≤ 0)%Z) → (∀ j, delivered w0.1 j = []) →
  seen_backed w0 →
  star (net_step env) (mkNet w0 (members g (Handle sha256) runs)) N →
  s ∈ klog (net_world N).1 → r_topic s = TopicDocsRaw →
  (r_offset s < committed (net_world N).1 g (r_topic s) (r_partition s))%Z →
  (∃ cause p o, placed (deadletter_record s cause) p o ∈ klog (net_world N).1) ∨
  (∃ tc doc, tenantFromRecord s = Ok tc ∧ Unmarshal (r_value s) = Ok doc ∧
     tenant_id doc = tenantID tc ∧ ingested sha256 doc (net_world N)).
Proof.
  intros Henv Hlog Hcom Hdel Hseen Hs Hin Ht Hlt.
  assert (HI : Inv g (ingested sha256) seen_backed (net_world N)).
  { eapply (group_invariant g (ingested sha256) seen_backed (Handle sha256) (stage sha256)); try done.
    - intros d w w'. apply ingested_stable.
    - intros w w'. apply seen_backed_grows.
    - intros j ctx. apply Handle_ok.
    - split; [done|done|by left; apply Hcom|].
      intros s' Hs' Hlt'. pose proof (proj1 Hlog s' Hs').
      specialize (Hcom (r_topic s') (r_partition s')). lia. }
  destruct (inv_settled _ _ _ _ HI s Hin Hlt) as [Hdl|[?|?]]; [|by left|by right].
  rewrite Hdl in Ht. discriminate.
Qed.

(** The dedupe key does not name the tenant: when a source record is shared by
    two tenants (same connector, same native id, same version), and the key of
    the first tenant's copy is recorded, the record of the second tenant's copy
    is consumed, its offset committed, and nothing is produced. *)
Theorem dedupe_crosses_tenants {B} `{!KafkaAPI B, !ProtoCodec, !Quoting} {R} `{!seenStore R}
    (sha256 : bytes → bytes) (m : Member) (ctx : Ctx) (rec : KRec) (d1 d2 : Document) (tc2 : Context)
    (connector native etag : string) (ins : nat → Inp) (w : B * R) :
  doc_id d1 = DocID sha256 connector native → doc_id d2 = DocID sha256 connector native →
  version_etag d1 = etag → version_etag d2 = etag → etag ≠ "" →
  is_deleted d2 = false →
  tenant_id d1 ≠ tenant_id d2 →
  Seen (ins 0) (seen_key (normalizeDocument sha256 d1)) w.2 = Ok true →
  tenantFromRecord rec = Ok tc2 → Unmarshal (r_value rec) = Ok d2 → tenant_id d2 = tenantID tc2 →
  run (processRecord (Handle sha256) m ctx rec) ins w
  = (Ok tt, ((CommitRecords (ins 1) m rec w.1).2, w.2)).
Proof.
  intros Hid1 Hid2 He1 He2 Hne Hdel Hten Hseen Ht Hu Htc.
  assert (Hkey : ∀ d, version_etag d = etag →
    seen_key (normalizeDocument sha256 d) = seenKeyPrefix +:+ doc_id d +:+ ":" +:+ etag).
  { intros d He. unfold normalizeDocument, set_text. cbn [version_etag]. rewrite He.
    destruct (String.eqb_spec etag ""); [done|]. done. }
  rewrite (Hkey d1 He1), Hid1 in Hseen.
  unfold processRecord. rewrite Ht, Hu, Htc, String.eqb_refl. cbn [negb maxHandlerAttempts attempts Nat.ltb Nat.leb].
  unfold Handle. rewrite Hdel, (Hkey d2 He2), Hid2. cbn [bind run seen fst snd].
  rewrite Hseen. cbn [bind run commit on_broker].
  unfold on_broker. by destruct (CommitRecords (ins 1) m rec w.1) as [r b].
Qed.

(** ** A concrete run

    Two tenants share a ticket; the broker, the dedupe store and the codec are
    in memory. *)
#[local] Instance DocType_eq_dec : EqDecision DocType.
Proof. solve_decision. Defined.
#[local] Instance BlobRef_eq_dec : EqDecision BlobRef.
Proof. solve_decision. Defined.
#[local] Instance Chunk_eq_dec : EqDecision Chunk.
Proof. solve_decision. Defined.
#[local] Instance Participant_eq_dec : EqDecision Participant.
Proof. solve_decision. Defined.
#[local] Instance Timestamp_eq_dec : EqDecision Timestamp.
Proof. solve_decision. Defined.
#[local] Instance Timestamps_eq_dec : EqDecision Timestamps.
Proof. solve_decision. Defined.
#[local] Instance AclInfo_eq_dec : EqDecision AclInfo.
Proof. solve_decision. Defined.
#[local] Instance Tombstone_eq_dec : EqDecision Tombstone.
Proof. solve_decision. Defined.
#[local] Instance MediaInfo_eq_dec : EqDecision MediaInfo.
Proof. solve_decision. Defined.
#[local] Instance Document_eq_dec : EqDecision Document.
Proof. solve_decision. Defined.

Definition table_codec (table : list (string * Document)) : ProtoCodec := {|
  Marshal d :=
    match List.find (λ e, bool_decide (e.2 = d)) table with
    | Some e => Ok e.1 | None => Err "not in the table"
    end;
  Unmarshal v :=
    match List.find (λ e, String.eqb e.1 v) table with
    | Some e => Ok e.2 | None => Err "not in the table"
    end
|}.

#[local] Instance memSeen : seenStore (gset string) := {|
  Seen i k r := match in_ctx i with Some e => Err (GE_Ctx e) | None => Ok (bool_decide (k ∈ r)) end;
  MarkSeen i k _ r := match in_ctx i with Some e => (Err (GE_Ctx e), r) | None => (Ok tt, {[k]} ∪ r) end
|}.

#[local] Instance memSeen_laws : seenStoreLaws (gset string).
Proof.
  refine {| seen_keys := (λ r : gset string, r) |}.
  - intros i k r. simpl. destruct (in_ctx i); [done|]. intros [= H]. by apply bool_decide_eq_true in H.
  - intros i k ttl r. simpl. destruct (in_ctx i); simpl; set_solver.
Defined.

Definition demo_sha (b : bytes) : bytes := take 4 b.

Definition ticket (tenant : string) : Document :=
  mkDoc tenant (DocID demo_sha "jira" "10001") "jira" "10001" TICKET " Fix  it " "Broken. " [] ∅ []
    None None None "2025-06-02" None None.

Definition ticket_out (tenant : string) : Document :=
  default (ticket tenant) (ready demo_sha (ticket tenant)).

#[local] Instance demo_codec : ProtoCodec :=
  table_codec [("a", ticket "acme"); ("g", ticket "globex"); ("ao", ticket_out "acme");
               ("go", ticket_out "globex")].
#[local] Instance demo_quoting : Quoting := {| Quote s := s |}.
#[local] Instance demo_kafka : KafkaAPI memBroker := memKafka [TopicDocsRaw].
#[local] Instance demo_kafka_laws : KafkaLaws memBroker := memKafka_laws [TopicDocsRaw].

Definition raw_record (tenant value : string) (o : Z) : KRec :=
  mkKRec TopicDocsRaw 0 o tenant value [(HeaderTenantID, tenant)].

Definition demo_broker : memBroker :=
  mkMemBroker [raw_record "acme" "a" 0; raw_record "globex" "g" 1] ∅ ∅.

Definition live_inp : Inp := mkInp None None (mkEnv (λ _, 0%Z) (λ _, 0%Z) "").
Definition plain_ctx : Ctx := mkCtx None None None ∅.

Definition demo_world : memBroker * gset string := (demo_broker, ∅).

Definition demo_run : (memBroker * gset string) * prog (memBroker * gset string) (option (result GoErr unit)) :=
  solo 20 live_inp (Run (Handle demo_sha) (mkMember "ingest" 0) plain_ctx 2) demo_world.

(** Both records are committed, one document is on docs.chunked. *)
Example demo_run_result :
  mb_offset demo_run.1.1 "ingest" TopicDocsRaw 0 = 2%Z ∧
  (r_value <$> base.filter (λ r, r_topic r = TopicDocsChunked) (mb_log demo_run.1.1)) = ["ao"].
Proof. split; vm_compute; reflexivity. Qed.

Lemma ingest_no_loss_witness :
  (r_offset (raw_record "acme" "a" 0) < committed demo_run.1.1 "ingest" TopicDocsRaw 0)%Z ∧
  ((∃ cause p o, placed (deadletter_record (raw_record "acme" "a" 0) cause) p o ∈ klog demo_run.1.1) ∨
   (∃ tc doc, tenantFromRecord (raw_record "acme" "a" 0) = Ok tc ∧
      Unmarshal (r_value (raw_record "acme" "a" 0)) = Ok doc ∧
      tenant_id doc = tenantID tc ∧ ingested demo_sha doc demo_run.1)).
Proof.
  assert (Hlt : (r_offset (raw_record "acme" "a" 0) < committed demo_run.1.1 "ingest" TopicDocsRaw 0)%Z)
    by (vm_compute; reflexivity).
  split; [exact Hlt|].
  apply (ingest_no_loss demo_sha "ingest" (λ _ _, False) [(plain_ctx, 2)] demo_world
    (mkNet demo_run.1 [demo_run.2]) (raw_record "acme" "a" 0)).
  - intros w w' [].
  - assert (Hl : ∀ s, s ∈ klog (demo_world.1) → s = raw_record "acme" "a" 0 ∨ s = raw_record "globex" "g" 1).
    { intros s Hs. simpl in Hs. rewrite !elem_of_cons, elem_of_nil in Hs. tauto. }
    split.
    + intros s Hs. destruct (Hl s Hs) as [->| ->]; simpl; lia.
    + intros s r Hs Hr _. destruct (Hl s Hs) as [->| ->], (Hl r Hr) as [->| ->]; simpl; (done || lia).
  - intros t p. simpl. unfold mb_offset. simpl. rewrite lookup_empty. simpl. lia.
  - intros j. reflexivity.
  - intros k Hk. simpl in Hk. set_solver.
  - apply solo_star.
  - apply (bool_decide_unpack _). vm_compute. exact I.
  - reflexivity.
  - exact Hlt.
Defined.

Lemma dedupe_crosses_tenants_witness :
  ∃ w : memBroker * gset string,
    Seen live_inp (seen_key (normalizeDocument demo_sha (ticket "acme"))) w.2 = Ok true ∧
    run (processRecord (Handle demo_sha) (mkMember "ingest" 0) plain_ctx (raw_record "globex" "g" 1))
      (λ _, live_inp) w
    = (Ok tt, ((CommitRecords live_inp (mkMember "ingest" 0) (raw_record "globex" "g" 1) w.1).2, w.2)).
Proof.
  exists (run (Handle demo_sha (WithContext plain_ctx (mkContext "acme" "acme")) (ticket "acme"))
    (λ _, live_inp) demo_world).2.
  assert (Hs : Seen live_inp (seen_key (normalizeDocument demo_sha (ticket "acme")))
    (run (Handle demo_sha (WithContext plain_ctx (mkContext "acme" "acme")) (ticket "acme"))
       (λ _, live_inp) demo_world).2.2 = Ok true) by (vm_compute; reflexivity).
  split; [exact Hs|].
  apply (dedupe_crosses_tenants demo_sha (mkMember "ingest" 0) plain_ctx (raw_record "globex" "g" 1)
    (ticket "acme") (ticket "globex") (mkContext "globex" "globex") "jira" "10001" "2025-06-02"
    (λ _, live_inp)); try reflexivity; try discriminate.
Defined.
