(* ===== verification/GoTime.v ===== *)
(** * Go times and integers from text

    [time.Parse] for the three layouts the index writer uses (RFC 3339, a date
    with a time, a date), followed by [Unix()], and [strconv.ParseInt(s, 10,
    64)]. *)

From stdpp Require Import base strings list.
From Stdlib Require Import Ascii ZArith Lia.
From S2P Require Import Prelude GoStrings.

Open Scope Z_scope.

Definition is_digit (a : ascii) : bool := byte_in 48 57 a.
Definition digit_val (a : ascii) : Z := Z.of_N (byte_val a) - 48.

(** ** The calendar *)
Definition leap (y : Z) : bool := (y mod 4 =? 0) && (negb (y mod 100 =? 0) || (y mod 400 =? 0)).

Definition daysIn (m y : Z) : Z :=
  if (m =? 2) then (if leap y then 29 else 28)
  else if existsb (Z.eqb m) [4; 6; 9; 11] then 30 else 31.

(** Days from 1970-01-01 to the first of January of [y]. *)
Definition days_to_year (y : Z) : Z :=
  365 * (y - 1970) + ((y - 1) / 4 - 1969 / 4) - ((y - 1) / 100 - 1969 / 100)
  + ((y - 1) / 400 - 1969 / 400).

Definition days_to_month (m y : Z) : Z :=
  foldr Z.add 0 ((λ k, daysIn (Z.of_nat k) y) <$> seq 1 (Z.to_nat (m - 1))).

Definition unix_days (y m d : Z) : Z := days_to_year y + days_to_month m y + (d - 1).

(** ** Reading the pieces of a layout *)
Definition getnum (fixed : bool) (l : bytes) : option (Z * bytes) :=
  match l with
  | a :: l1 =>
    if is_digit a then
      match l1 with
      | b :: l2 =>
        if is_digit b then Some (10 * digit_val a + digit_val b, l2)
        else if fixed then None else Some (digit_val a, l1)
      | [] => if fixed then None else Some (digit_val a, [])
      end
    else None
  | [] => None
  end.

Definition expect (c : ascii) (l : bytes) : option bytes :=
  match l with a :: l' => if Ascii.eqb a c then Some l' else None | [] => None end.

Definition in_range (lo hi n : Z) : option unit :=
  if (lo <=? n) && (n <=? hi) then Some tt else None.

Definition get_year (l : bytes) : option (Z * bytes) :=
  match l with
  | a :: b :: c :: d :: l' =>
    if is_digit a && is_digit b && is_digit c && is_digit d then
      Some (1000 * digit_val a + 100 * digit_val b + 10 * digit_val c + digit_val d, l')
    else None
  | _ => None
  end.

(** "2006-01-02" *)
Definition get_date (l : bytes) : option (Z * bytes) :=
  '(y, l) ← get_year l; l ← expect "-" l;
  '(m, l) ← getnum true l; _ ← in_range 1 12 m; l ← expect "-" l;
  '(d, l) ← getnum true l; _ ← in_range 1 (daysIn m y) d;
  Some (unix_days y m d * 86400, l).

(** A fraction after the seconds is skipped even when the layout has none. *)
Fixpoint skip_digits (l : bytes) : bytes :=
  match l with a :: l' => if is_digit a then skip_digits l' else l | [] => [] end.

Definition skip_fraction (l : bytes) : bytes :=
  match l with
  | a :: (b :: _) as l1 =>
    if (Ascii.eqb a "." || Ascii.eqb a ",") && is_digit b then skip_digits l1 else l
  | _ => l
  end.

(** "T15:04:05" *)
Definition get_time (l : bytes) : option (Z * bytes) :=
  l ← expect "T" l; '(hh, l) ← getnum false l; _ ← in_range 0 23 hh;
  l ← expect ":" l; '(mm, l) ← getnum true l; _ ← in_range 0 59 mm;
  l ← expect ":" l; '(ss, l) ← getnum true l; _ ← in_range 0 59 ss;
  Some (hh * 3600 + mm * 60 + ss, skip_fraction l).

(** "Z07:00": the offset east of UTC in seconds. *)
Definition get_zone (l : bytes) : option (Z * bytes) :=
  match l with
  | a :: l1 =>
    if Ascii.eqb a "Z" then Some (0, l1)
    else
      match l1 with
      | h1 :: h2 :: c :: m1 :: m2 :: l' =>
        if negb (Ascii.eqb c ":") then None
        else
          '(hr, _) ← getnum true [h1; h2]; '(mm, _) ← getnum true [m1; m2];
          _ ← in_range 0 24 hr; _ ← in_range 0 60 mm;
          if Ascii.eqb a "+" then Some ((hr * 60 + mm) * 60, l')
          else if Ascii.eqb a "-" then Some (- ((hr * 60 + mm) * 60), l')
          else None
      | _ => None
      end
  | [] => None
  end.

Inductive layout := RFC3339 | DateTime | DateOnly.

Definition at_end (r : Z * bytes) : option Z :=
  match r.2 with [] => Some r.1 | _ => None end.

(** [t, err := time.Parse(layout, s)]; [t.UTC().Unix()] when [err] is nil. *)
Definition parse_unix (ly : layout) (s : string) : option Z :=
  let l := to_bytes s in
  match ly with
  | DateOnly => get_date l ≫= at_end
  | DateTime =>
    '(d, l) ← get_date l; '(t, l) ← get_time l; at_end (d + t, l)
  | RFC3339 =>
    '(d, l) ← get_date l; '(t, l) ← get_time l; '(z, l) ← get_zone l; at_end (d + t - z, l)
  end.

(** ** [strconv.ParseInt(s, 10, 64)] *)
Definition digits_val (l : bytes) : Z := foldl (λ n a, 10 * n + digit_val a) 0 l.

Definition ParseInt (s : string) : option Z :=
  let l := to_bytes s in
  let '(sign, ds) :=
    match l with
    | a :: l' => if Ascii.eqb a "-" then (-1, l') else if Ascii.eqb a "+" then (1, l') else (1, l)
    | [] => (1, [])
    end in
  if bool_decide (ds = []) || negb (forallb is_digit ds) then None
  else
    let n := sign * digits_val ds in
    if (- 2 ^ 63 <=? n) && (n <? 2 ^ 63) then Some n else None.

(** ** Checks against known instants *)
Example epoch : parse_unix RFC3339 "1970-01-01T00:00:00Z" = Some 0.
Proof. reflexivity. Qed.

Example leap_day : parse_unix RFC3339 "2024-02-29T12:00:00+02:00" = Some 1709200800.
Proof. reflexivity. Qed.

Example no_leap_day : parse_unix DateOnly "2023-02-29" = None.
Proof. reflexivity. Qed.

Example fraction : parse_unix RFC3339 "2001-09-09T01:46:40.123Z" = Some 1000000000.
Proof. reflexivity. Qed.
