(* ===== verification/IndexWriter.v ===== *)
(** * The index writer

    Models [services/index-writer/writer.go]: documents from docs.enriched
    become Vespa document/v1 requests, a full-document POST or a DELETE, at a
    URL that names the tenant's group.  Vespa's HTTP endpoint and
    encoding/json (which prints the float32 vectors) are interfaces. *)

From stdpp Require Import base gmap strings list pretty.
From Stdlib Require Import Ascii ZArith Lia.
From S2P Require Import Prelude GoStrings Tenancy Crypto CryptoProofs Blob ControlPlane Erasure ErasureProofs Document Kafka GoTime.

Record writer := mkWriter { vespaURL : string; dim : Z; clipDim : Z }.

Definition newWriter (url : string) (d c : Z) : result string writer :=
  let url := TrimRightSlash url in
  if String.eqb url "" then Err "index-writer: vespa url must not be empty"
  else if (d <=? 0)%Z then
    Err ("index-writer: embedding dim must be positive, got " +:+ pretty d)
  else if (c <=? 0)%Z then
    Err ("index-writer: clip dim must be positive, got " +:+ pretty c)
  else if (d =? c)%Z then
    Err ("index-writer: clip dim (" +:+ pretty c +:+ ") must differ from embedding dim (" +:+ pretty d +:+ ")")
  else Ok (mkWriter url d c).

(** [vespaFields]; a nil tensor is [None], and an absent (omitempty) list or
    number is empty or zero. *)
Record vespaFields := mkFields {
  f_doc_id : string; f_connector_id : string; f_type : DocType; f_title : string; f_body : string;
  f_chunks : list string;
  f_embedding : option (gmap string (list Z));
  f_clip_embedding : option (gmap string (list Z));
  f_starts_ms : list Z; f_ends_ms : list Z; f_modalities : list string;
  f_participants : list string;
  f_metadata_json : string;
  f_created_at : Z; f_event_start : Z; f_event_end : Z; f_modified_at : Z;
  f_version_etag : string;
  f_acl : list string;
  f_duration_ms : Z; f_width : Z; f_height : Z; f_thumbnail_key : string; f_transcript_lang : string
}.

(** [json.Marshal] of a string map and of the feed envelope. *)
Class JsonEnc := {
  json_map : gmap string string → result string string;
  json_feed : vespaFields → result string string
}.

Definition chunkModality (c : Chunk) : string :=
  if String.eqb (ck_modality c) "" then "text" else ck_modality c.

Definition participantString (p : Participant) : option string :=
  let name := if String.eqb (pa_name p) "" then pa_handle p else pa_name p in
  let email := pa_email p in
  if negb (String.eqb name "") && negb (String.eqb email "") then
    Some (name +:+ " <" +:+ email +:+ ">")
  else if negb (String.eqb email "") then Some email
  else if negb (String.eqb name "") then Some name
  else None.

Definition participantStrings (ps : list Participant) : list string := omap participantString ps.

Definition eventEpoch (s : string) : Z :=
  let s := TrimSpace s in
  if String.eqb s "" then 0%Z
  else match parse_unix RFC3339 s with
  | Some t => t
  | None =>
    match parse_unix DateTime s with
    | Some t => t
    | None =>
      match parse_unix DateOnly s with
      | Some t => t
      | None =>
        match ParseInt s with
        | Some sec => if (0 <? sec)%Z then sec else 0%Z
        | None => 0%Z
        end
      end
    end
  end.

Section build.
Context `{!JsonEnc} `{!Quoting} (w : writer).

Definition emb_len (c : Chunk) : Z := Z.of_nat (length (ck_embedding c)).

(** The loop over the chunks from index [i]: the vectors of each space by
    chunk index, or the error of the first chunk with another length. *)
Fixpoint route_vectors (docID : string) (i : nat) (cs : list Chunk)
    (textBlocks clipBlocks : gmap string (list Z))
    : result string (gmap string (list Z) * gmap string (list Z)) :=
  match cs with
  | [] => Ok (textBlocks, clipBlocks)
  | c :: cs' =>
    let n := emb_len c in
    if (n =? 0)%Z then route_vectors docID (S i) cs' textBlocks clipBlocks
    else if (n =? dim w)%Z then
      route_vectors docID (S i) cs' (<[pretty i := ck_embedding c]> textBlocks) clipBlocks
    else if (n =? clipDim w)%Z then
      route_vectors docID (S i) cs' textBlocks (<[pretty i := ck_embedding c]> clipBlocks)
    else Err ("index-writer: doc " +:+ docID +:+ " chunk " +:+ pretty i +:+ " (modality " +:+
           Quote (chunkModality c) +:+ "): embedding has " +:+ pretty n +:+ " dims, expected EMBEDDING_DIM=" +:+
           pretty (dim w) +:+ " or CLIP_DIM=" +:+ pretty (clipDim w) +:+ "; refusing to index")
  end.

Definition textChunkCount (cs : list Chunk) : nat :=
  length (List.filter (λ c, negb (emb_len c =? clipDim w)%Z) cs).

Definition opt_seconds (t : option Timestamp) : Z :=
  match t with Some t => ts_seconds t | None => 0%Z end.

Definition buildFields (doc : Document) : result string vespaFields :=
  let cs := chunks doc in
  match route_vectors (doc_id doc) 0 cs ∅ ∅ with
  | Err e => Err e
  | Ok (textBlocks, clipBlocks) =>
    let n := textChunkCount cs in
    let tensor := if bool_decide (0 < n ∧ size textBlocks = n)%nat then Some textBlocks else None in
    let clipTensor := if bool_decide (0 < size clipBlocks)%nat then Some clipBlocks else None in
    let meta := metadata doc in
    match json_map meta with
    | Err e => Err ("index-writer: doc " +:+ doc_id doc +:+ ": marshal metadata: " +:+ e)
    | Ok metaJSON =>
      let created_s := opt_seconds (doc_ts doc ≫= created) in
      let modified_s :=
        match doc_ts doc ≫= modified with Some m => ts_seconds m | None => created_s end in
      Ok (mkFields (doc_id doc) (connector_id doc) (doc_type doc) (title doc) (body_text doc)
        (ck_text <$> cs) tensor clipTensor (ck_start_ms <$> cs) (ck_end_ms <$> cs)
        (chunkModality <$> cs) (participantStrings (participants doc)) metaJSON
        created_s (eventEpoch (default "" (meta !! "start"))) (eventEpoch (default "" (meta !! "end")))
        modified_s (version_etag doc)
        (match acl doc with Some a => allowed_principals a | None => [] end)
        (match media doc with Some m => duration_ms m | None => 0%Z end)
        (match media doc with Some m => width m | None => 0%Z end)
        (match media doc with Some m => height m | None => 0%Z end)
        (match media doc ≫= thumbnail with Some r => br_key r | None => "" end)
        (match media doc with Some m => transcript_lang m | None => "" end))
    end
  end.
End build.

(** ** Vespa *)
Inductive Method := POST | DELETE.

(** The outcome of one HTTP request: an error building it (not retried), a
    transport error, or a status and a body. *)
Inductive HttpRes := BuildErr (e : string) | TransportErr (e : string) | Response (status : Z) (body : string).

Class VespaAPI (V : Type) := {
  http_do : Inp → Method → string → option string → V → HttpRes * V
}.

(** document/v1: a 2xx POST has replaced the document at the URL, a 2xx DELETE
    has removed it; any other answer leaves every other document alone. *)
Class VespaLaws (V : Type) `{!VespaAPI V} := {
  vdocs : V → gmap string string;
  vespa_post_ok i u b v s body :
    (http_do i POST u (Some b) v).1 = Response s body → (200 ≤ s ≤ 299)%Z →
    vdocs (http_do i POST u (Some b) v).2 !! u = Some b;
  vespa_delete_ok i u v s body :
    (http_do i DELETE u None v).1 = Response s body → (200 ≤ s ≤ 299)%Z →
    vdocs (http_do i DELETE u None v).2 !! u = None;
  vespa_other i m u b v u' : u' ≠ u → vdocs (http_do i m u b v).2 !! u' = vdocs v !! u'
}.

(** [io.LimitReader(resp.Body, 4096)] *)
Definition respLimit : nat := 4096.
#[global] Opaque respLimit.

Section handle.
Context `{!JsonEnc} `{!Quoting} {V : Type} `{!VespaAPI V} (w : writer).

Definition method_text (m : Method) : string := match m with POST => "POST" | DELETE => "DELETE" end.

(** [errVespaPermanent]'s text. *)
Definition permanent_text : string := "vespa rejected the request (4xx, permanent)".

(** The pair of [sendOnce]: retryable, and the error. *)
Definition sendOnce (m : Method) (reqURL : string) (body : option string) (i : Inp) (v : V)
    : (bool * option GoErr) * V :=
  let '(r, v') := http_do i m reqURL body v in
  let where_ := method_text m +:+ " " +:+ reqURL in
  (match r with
   | BuildErr e => (false, Some (GE_Msg ("index-writer: build " +:+ where_ +:+ ": " +:+ e)))
   | TransportErr e => (true, Some (GE_Msg ("index-writer: " +:+ where_ +:+ ": " +:+ e)))
   | Response s respBody =>
     let respBody := take_str respLimit respBody in
     if (200 <=? s)%Z && (s <=? 299)%Z then (false, None)
     else
       let text := "index-writer: " +:+ where_ +:+ ": status " +:+ pretty s +:+ ": " +:+ respBody in
       if (400 <=? s)%Z && (s <=? 499)%Z then
         (false, Some (GE_Msg (text +:+ ": " +:+ permanent_text)))
       else (true, Some (GE_Msg text))
   end, v').

Definition sendAttempts : nat := 2.

(** The attempts left of [send]; [lastErr] is returned when there is none. *)
Fixpoint send_loop (n : nat) (m : Method) (reqURL : string) (body : option string)
    (lastErr : option GoErr) : prog V (option GoErr) :=
  match n with
  | O => Ret lastErr
  | S n' =>
    Atomic _ (sendOnce m reqURL body) (λ '(retryable, err),
    match err with
    | None => Ret None
    | Some e =>
      if negb retryable then Ret (Some e)
      else Atomic _ (input in_ctx) (λ ctxErr,
        match ctxErr with
        | Some _ => Ret (Some e)
        | None => send_loop n' m reqURL body (Some e)
        end)
    end)
  end.

Definition send (m : Method) (reqURL : string) (body : option string) : prog V (option GoErr) :=
  send_loop sendAttempts m reqURL body None.

Definition documentURL (tenantID docID : string) : string :=
  vespaURL w +:+ "/document/v1/asker/doc/group/" +:+ PathEscape tenantID +:+ "/" +:+ PathEscape docID.

Definition writer_Handle (ctx : Ctx) (doc : Document) : prog V (option GoErr) :=
  match FromContext ctx with
  | Err e => Ret (Some (GE_Msg ("index-writer: refusing to index without tenant: " +:+ tenancy_text e)))
  | Ok tc =>
    if negb (String.eqb (tenantID tc) (tenant_id doc)) then
      Ret (Some (GE_Msg ("index-writer: context tenant " +:+ Quote (tenantID tc) +:+
        " does not match document tenant " +:+ Quote (tenant_id doc))))
    else if String.eqb (doc_id doc) "" then
      Ret (Some (GE_Msg "index-writer: document without doc_id"))
    else
      let docURL := documentURL (tenant_id doc) (doc_id doc) in
      if is_deleted doc then send DELETE docURL None
      else match buildFields w doc with
      | Err e => Ret (Some (GE_Msg e))
      | Ok fields =>
        match json_feed fields with
        | Err e => Ret (Some (GE_Msg ("index-writer: marshal feed for doc " +:+ doc_id doc +:+ ": " +:+ e)))
        | Ok body => send POST docURL (Some body)
        end
      end
  end.
End handle.

(** * The index writer: proofs

    Document URLs determine tenant and document; the requests leave the index
    in the state the document describes and touch nothing else; vectors are
    routed by their length and a partial embedding is never fed. *)

Open Scope nat_scope.

(** The URL of a document determines its tenant and its id. *)
Lemma documentURL_inj w t d t' d' : documentURL w t d = documentURL w t' d' → t = t' ∧ d = d'.
Proof.
  unfold documentURL. intros H. apply str_app_inj_l, str_app_inj_l in H.
  apply (f_equal to_bytes) in H. rewrite !to_bytes_app in H.
  change (to_bytes "/") with ["/"%char] in H. simpl in H.
  apply sep_unique in H as [H1 H2]; [|apply PathEscape_no_slash..].
  apply to_bytes_inj, PathEscape_inj in H1. by apply to_bytes_inj, PathEscape_inj in H2.
Qed.

(** ** Requests *)
Section requests.
Context {HJ : JsonEnc} {HQ : Quoting} {V : Type} {HV : VespaAPI V} {HL : VespaLaws V} (w : writer).

(** What a request asks the index to hold at its URL. *)
Definition asked (m : Method) (body : option string) : option string :=
  match m with POST => body | DELETE => None end.

Definition well_formed (m : Method) (body : option string) : Prop :=
  match m with POST => is_Some body | DELETE => body = None end.

Lemma sendOnce_spec m u b i v :
  well_formed m b →
  (∀ u', u' ≠ u → vdocs (sendOnce m u b i v).2 !! u' = vdocs v !! u') ∧
  ((sendOnce m u b i v).1.2 = None → vdocs (sendOnce m u b i v).2 !! u = asked m b).
Proof using HL.
  intros Hwf. unfold sendOnce. pose proof (vespa_other i m u b v) as Hother.
  assert (Hok : ∀ s body, (http_do i m u b v).1 = Response s body → (200 ≤ s ≤ 299)%Z →
    vdocs (http_do i m u b v).2 !! u = asked m b).
  { destruct m; simpl in *.
    - destruct Hwf as [x ->]. intros s body. apply vespa_post_ok.
    - subst b. intros s body. apply vespa_delete_ok. }
  destruct (http_do i m u b v) as [r v']. simpl in *. split; [intros u' ?; by apply Hother|].
  destruct r as [e|e|s body]; simpl; [done|done|].
  destruct ((200 <=? s)%Z && (s <=? 299)%Z) eqn:E; [|by case_match].
  apply andb_true_iff in E as [?%Z.leb_le ?%Z.leb_le]. intros _. by eapply Hok.
Qed.

Lemma send_loop_spec n m u b lastErr :
  well_formed m b → lastErr ≠ None ∨ 0 < n →
  ∀ ins v, let '(r, v') := run (send_loop n m u b lastErr) ins v in
  (∀ u', u' ≠ u → vdocs v' !! u' = vdocs v !! u') ∧ (r = None → vdocs v' !! u = asked m b).
Proof using HL.
  intros Hwf. revert lastErr. induction n as [|n IH]; intros lastErr Hl ins v.
  { simpl. split; [done|]. intros ->. destruct Hl; [done|lia]. }
  cbn [send_loop run]. destruct (sendOnce_spec m u b (ins 0) v Hwf) as [Hother Hok].
  destruct (sendOnce m u b (ins 0) v) as [[retry err] v1]. simpl in Hother, Hok.
  destruct err as [e|]; [|by simpl; auto].
  destruct retry; [|by simpl; split].
  cbn [negb run input]. destruct (in_ctx (ins 1)); [by simpl; split|].
  specialize (IH (Some e) (or_introl _ (Some_ne_None e)) (λ k, ins (S (S k))) v1).
  destruct (run _ _ _) as [r v']. destruct IH as [H1 H2]. split; [|done].
  intros u' Hu. rewrite H1 by done. by apply Hother.
Qed.

Lemma send_spec m u b ins v :
  well_formed m b →
  let '(r, v') := run (send m u b) ins v in
  (∀ u', u' ≠ u → vdocs v' !! u' = vdocs v !! u') ∧ (r = None → vdocs v' !! u = asked m b).
Proof using HL. intros Hwf. apply send_loop_spec; [done|]. right. unfold sendAttempts. lia. Qed.

(** What the index should hold for a document. *)
Definition indexed (doc : Document) (entry : option string) : Prop :=
  if is_deleted doc then entry = None
  else ∃ fields body, buildFields w doc = Ok fields ∧ json_feed fields = Ok body ∧ entry = Some body.

Lemma writer_Handle_spec ctx doc ins v :
  let '(r, v') := run (writer_Handle w ctx doc) ins v in
  (∀ t d, (t, d) ≠ (tenant_id doc, doc_id doc) →
     vdocs v' !! documentURL w t d = vdocs v !! documentURL w t d) ∧
  (r = None →
     (∃ tc, FromContext ctx = Ok tc ∧ tenantID tc = tenant_id doc) ∧ doc_id doc ≠ "" ∧
     indexed doc (vdocs v' !! documentURL w (tenant_id doc) (doc_id doc))).
Proof using HL.
  unfold writer_Handle. destruct (FromContext ctx) as [tc|e] eqn:Ec; [|done].
  destruct (String.eqb_spec (tenantID tc) (tenant_id doc)) as [Ht|]; [|done]. cbn [negb].
  destruct (String.eqb_spec (doc_id doc) "") as [|Hid]; [done|].
  set (url := documentURL w (tenant_id doc) (doc_id doc)).
  assert (Hfin : ∀ m b, well_formed m b → indexed doc (asked m b) →
    let '(r, v') := run (send m url b) ins v in
    (∀ t d, (t, d) ≠ (tenant_id doc, doc_id doc) →
       vdocs v' !! documentURL w t d = vdocs v !! documentURL w t d) ∧
    (r = None →
       (∃ tc0, @Ok TenErr Context tc = Ok tc0 ∧ tenantID tc0 = tenant_id doc) ∧ doc_id doc ≠ "" ∧
       indexed doc (vdocs v' !! url))).
  { intros m b Hwf Hidx. pose proof (send_spec m url b ins v Hwf) as Hs.
    destruct (run (send m url b) ins v) as [r v']. destruct Hs as [Hother Hok]. split.
    - intros t d Hne. apply Hother. intros Heq%documentURL_inj. destruct Heq as [-> ->]. done.
    - intros Hr. split; [eauto|]. split; [done|]. by rewrite (Hok Hr). }
  destruct (is_deleted doc) eqn:Ed; [by apply Hfin; [|unfold indexed; rewrite Ed]|].
  destruct (buildFields w doc) as [f|e] eqn:Ef; [|done].
  destruct (json_feed f) as [body|e] eqn:Ej; [|done].
  apply Hfin; [by eexists|]. unfold indexed. rewrite Ed. eauto.
Qed.
End requests.

(** ** Sequences of writes *)
Section writes.
Context {HJ : JsonEnc} {HQ : Quoting} {V : Type} {HV : VespaAPI V} {HL : VespaLaws V} (w : writer).

(** The handler calls of a consumer, redeliveries and failures included. *)
Definition call_writer (v : V) (c : Ctx * Document * (nat → Inp)) : V :=
  (run (writer_Handle w c.1.1 c.1.2) c.2 v).2.

Definition doc_key (c : Ctx * Document * (nat → Inp)) : string * string :=
  (tenant_id c.1.2, doc_id c.1.2).

Lemma calls_other calls v t d :
  Forall (λ c, doc_key c ≠ (t, d)) calls →
  vdocs (foldl call_writer v calls) !! documentURL w t d = vdocs v !! documentURL w t d.
Proof using HL.
  intros H. revert v. induction H as [|[[ctx doc] ins] calls Hc _ IH]; intros v; simpl; [done|].
  rewrite IH. unfold call_writer. simpl. pose proof (writer_Handle_spec w ctx doc ins v) as Hs.
  destruct (run _ _ _) as [r v']. apply Hs. unfold doc_key in Hc. simpl in Hc. congruence.
Qed.
End writes.

(** C9. The last write wins and stays in its place: after any sequence of handler
    calls, if the last call for a document succeeded, its context carried the
    document's tenant and the index holds exactly the feed of that document (or
    nothing, for a tombstone) at its URL, whatever redeliveries, failures and
    other documents came before and after; and calls for other documents or
    other tenants never change it. *)
Theorem index_last_write {HJ : JsonEnc} {HQ : Quoting} {V} {HV : VespaAPI V} {HL : VespaLaws V}
    (w : writer) (before after : list (Ctx * Document * (nat → Inp))) ctx doc ins (v : V) :
  let v1 := foldl (call_writer w) v before in
  (run (writer_Handle w ctx doc) ins v1).1 = None →
  Forall (λ c, doc_key c ≠ (tenant_id doc, doc_id doc)) after →
  (∃ tc, FromContext ctx = Ok tc ∧ tenantID tc = tenant_id doc) ∧
  indexed w doc
    (vdocs (foldl (call_writer w) v (before ++ (ctx, doc, ins) :: after))
       !! documentURL w (tenant_id doc) (doc_id doc)) ∧
  (∀ t d, Forall (λ c, doc_key c ≠ (t, d)) (before ++ (ctx, doc, ins) :: after) →
     vdocs (foldl (call_writer w) v (before ++ (ctx, doc, ins) :: after)) !! documentURL w t d
     = vdocs v !! documentURL w t d).
Proof.
  intros v1 Hr Hafter. pose proof (writer_Handle_spec w ctx doc ins v1) as Hs.
  destruct (run (writer_Handle w ctx doc) ins v1) as [r v2] eqn:Erun. simpl in Hr. subst r.
  destruct Hs as [_ Hs]. destruct (Hs eq_refl) as (Htc & _ & Hidx). split; [done|]. split.
  - rewrite foldl_app. simpl. rewrite calls_other by done.
    unfold v1 in Erun. unfold call_writer at 1. simpl. by rewrite Erun.
  - intros t d Hall. by apply calls_other.
Qed.

(** ** Vector routing *)
Section vectors.
Context {HJ : JsonEnc} {HQ : Quoting} (w : writer).
Hypothesis Hdims : (0 < dim w)%Z ∧ (0 < clipDim w)%Z ∧ dim w ≠ clipDim w.

Definition routable (c : Chunk) : Prop :=
  emb_len c = 0%Z ∨ emb_len c = dim w ∨ emb_len c = clipDim w.

(** The vectors of length [n] of the chunks, by chunk index from [i]. *)
Definition blocks_of (n : Z) (i : nat) (cs : list Chunk) (base b : gmap string (list Z)) : Prop :=
  (∀ k c, cs !! k = Some c → b !! pretty (i + k) = if (emb_len c =? n)%Z then Some (ck_embedding c)
                                                  else base !! pretty (i + k)) ∧
  (∀ s, (∀ k, k < length cs → s ≠ pretty (i + k)) → b !! s = base !! s).

Definition fresh_from (i : nat) (m : gmap string (list Z)) : Prop := ∀ k, i ≤ k → m !! pretty k = None.

Definition count_len (n : Z) (cs : list Chunk) : nat := length (List.filter (λ c, (emb_len c =? n)%Z) cs).

Lemma pretty_nat_ne (i k : nat) : i ≠ k → pretty i ≠ pretty k.
Proof using Type. intros Hne Heq. by apply (inj pretty) in Heq. Qed.

Lemma fresh_insert i m v : fresh_from i m → fresh_from (S i) (<[pretty i := v]> m).
Proof using Type.
  intros Hf k Hk. rewrite lookup_insert_ne by (apply pretty_nat_ne; lia). apply Hf. lia.
Qed.

Lemma fresh_S i m : fresh_from i m → fresh_from (S i) m.
Proof using Type. intros Hf k Hk. apply Hf. lia. Qed.

(** One step of the loop: the vector at index [i] is kept, the rest goes on. *)
Lemma blocks_of_cons n i c cs base b :
  blocks_of n (S i) cs (if (emb_len c =? n)%Z then <[pretty i := ck_embedding c]> base else base) b →
  fresh_from i base →
  blocks_of n i (c :: cs) base b.
Proof using Type.
  intros [H1 H2] Hf.
  assert (Hi : b !! pretty i =
    if (emb_len c =? n)%Z then Some (ck_embedding c) else base !! pretty i).
  { rewrite H2; [|intros k _; apply pretty_nat_ne; lia].
    destruct (emb_len c =? n)%Z; [apply lookup_insert_eq|done]. }
  split.
  - intros [|k] c' Hc'; simpl in Hc'.
    + injection Hc' as <-. rewrite Nat.add_0_r. exact Hi.
    + replace (i + S k) with (S i + k) by lia. rewrite (H1 k c' Hc').
      destruct (emb_len c' =? n)%Z; [done|]. destruct (emb_len c =? n)%Z; [|done].
      apply lookup_insert_ne, pretty_nat_ne. lia.
  - intros s Hs. rewrite H2.
    + destruct (emb_len c =? n)%Z; [|done]. apply lookup_insert_ne.
      intros Heq. apply (Hs 0); [simpl; lia|]. by rewrite Nat.add_0_r.
    + intros k Hk. replace (S i + k) with (i + S k) by lia. apply Hs. simpl. lia.
Qed.

Lemma route_vectors_spec docID cs i t c0 :
  fresh_from i t → fresh_from i c0 →
  match route_vectors w docID i cs t c0 with
  | Ok (t', c') =>
    Forall routable cs ∧ blocks_of (dim w) i cs t t' ∧ blocks_of (clipDim w) i cs c0 c' ∧
    size t' = size t + count_len (dim w) cs ∧ size c' = size c0 + count_len (clipDim w) cs
  | Err _ => ¬ Forall routable cs
  end.
Proof using Hdims.
  revert i t c0. induction cs as [|c cs IH]; intros i t c0 Ht Hc; simpl.
  { split_and!; try constructor; try done; unfold count_len; simpl; lia. }
  assert (Hstep : ∀ t1 c1,
    t1 = (if (emb_len c =? dim w)%Z then <[pretty i := ck_embedding c]> t else t) →
    c1 = (if (emb_len c =? clipDim w)%Z then <[pretty i := ck_embedding c]> c0 else c0) →
    routable c →
    match route_vectors w docID (S i) cs t1 c1 with
    | Ok (t', c') =>
      Forall routable (c :: cs) ∧ blocks_of (dim w) i (c :: cs) t t' ∧
      blocks_of (clipDim w) i (c :: cs) c0 c' ∧
      size t' = size t + count_len (dim w) (c :: cs) ∧
      size c' = size c0 + count_len (clipDim w) (c :: cs)
    | Err _ => ¬ Forall routable (c :: cs)
    end).
  { intros t1 c1 Et Ec Hrt. specialize (IH (S i) t1 c1).
    assert (Ht1 : fresh_from (S i) t1)
      by (subst t1; destruct (emb_len c =? dim w)%Z; [by apply fresh_insert|by apply fresh_S]).
    assert (Hc1 : fresh_from (S i) c1)
      by (subst c1; destruct (emb_len c =? clipDim w)%Z; [by apply fresh_insert|by apply fresh_S]).
    specialize (IH Ht1 Hc1). destruct (route_vectors w docID (S i) cs t1 c1) as [[t' c']|e].
    - destruct IH as (HF & Hb1 & Hb2 & Hs1 & Hs2). subst t1 c1.
      split_and!; [by constructor|by apply blocks_of_cons|by apply blocks_of_cons| |].
      + rewrite Hs1. unfold count_len. simpl. destruct (emb_len c =? dim w)%Z; [|done]. simpl.
        rewrite map_size_insert_None by (apply Ht; lia). lia.
      + rewrite Hs2. unfold count_len. simpl. destruct (emb_len c =? clipDim w)%Z; [|done]. simpl.
        rewrite map_size_insert_None by (apply Hc; lia). lia.
    - intros HF. apply IH. by inversion HF. }
  destruct Hdims as (Hd & Hcl & Hne).
  destruct (Z.eqb_spec (emb_len c) 0) as [E0|E0].
  { apply Hstep; [|  |by left].
    - rewrite (proj2 (Z.eqb_neq _ _)) by lia. done.
    - rewrite (proj2 (Z.eqb_neq _ _)) by lia. done. }
  destruct (Z.eqb_spec (emb_len c) (dim w)) as [Ed|Ed].
  { apply Hstep; [done| |by right; left]. rewrite (proj2 (Z.eqb_neq _ _)) by lia. done. }
  destruct (Z.eqb_spec (emb_len c) (clipDim w)) as [Ecl|Ecl].
  { apply Hstep; [done|done|by right; right]. }
  intros HF. inversion HF as [|?? Hr]; subst. destruct Hr as [?|[?|?]]; done.
Qed.

Lemma count_len_le n m cs :
  n ≠ m → count_len n cs ≤ length (List.filter (λ c, negb (emb_len c =? m)%Z) cs) ∧
  (count_len n cs = length (List.filter (λ c, negb (emb_len c =? m)%Z) cs) ↔
   ∀ c, c ∈ cs → emb_len c ≠ m → emb_len c = n).
Proof using Type.
  intros Hne. unfold count_len. induction cs as [|c cs [IH1 IH2]]; simpl.
  { split; [done|]. split; [|done]. by intros _ c ?%not_elem_of_nil. }
  destruct (Z.eqb_spec (emb_len c) n) as [E1|E1], (Z.eqb_spec (emb_len c) m) as [E2|E2];
    simpl; [congruence|..].
  - split; [lia|]. split.
    + intros Heq c' [->|Hc']%elem_of_cons; [done|]. apply IH2; [lia|done].
    + intros Hall. f_equal. apply IH2. intros c' Hc'. apply Hall. by right.
  - split; [lia|]. rewrite IH2. split; intros Hall c'.
    + intros [->|Hc']%elem_of_cons; [done|by apply Hall].
    + intros Hc'. apply Hall. by right.
  - split; [lia|]. split; [lia|]. intros Hall. exfalso. apply E1, Hall; [by left|done].
Qed.
End vectors.

#[export] Instance routable_dec w c : Decision (routable w c).
Proof. unfold routable. apply _. Defined.

Lemma filter_pos (n : Z) cs :
  0 < length (List.filter (λ c, negb (emb_len c =? n)%Z) cs) ↔ ∃ ck, ck ∈ cs ∧ emb_len ck ≠ n.
Proof.
  induction cs as [|c cs IH]; simpl.
  - split; [lia|]. by intros (ck & ?%not_elem_of_nil & _).
  - destruct (Z.eqb_spec (emb_len c) n) as [E|E]; simpl.
    + rewrite IH. split; intros (ck & Hin & Hne); exists ck; split; try done; [by right|].
      by apply elem_of_cons in Hin as [->|?].
    + split; [|lia]. intros _. exists c. split; [by left|done].
Qed.

(** The blocks built from the empty map: exactly the vectors of the length. *)
Lemma blocks_of_exact n cs b :
  blocks_of n 0 cs ∅ b →
  ∀ s v, b !! s = Some v ↔
    ∃ i c, cs !! i = Some c ∧ s = pretty i ∧ emb_len c = n ∧ v = ck_embedding c.
Proof.
  intros [H1 H2] s v. split.
  - intros Hs. destruct (decide (Exists (λ k, s = pretty k) (seq 0 (length cs)))) as [Hex|Hno].
    + apply Exists_exists in Hex as (k & Hk & ->). rewrite elem_of_seq in Hk.
      destruct (lookup_lt_is_Some_2 cs k) as [c Hc]; [lia|]. specialize (H1 k c Hc). simpl in H1.
      rewrite Hs in H1. destruct (Z.eqb_spec (emb_len c) n) as [E|E].
      * injection H1 as ->. eauto 8.
      * by rewrite lookup_empty in H1.
    + rewrite H2 in Hs; [by rewrite lookup_empty in Hs|]. intros k Hk ->. apply Hno.
      apply Exists_exists. exists k. rewrite elem_of_seq. split; [lia|done].
  - intros (i & c & Hc & -> & He & ->). specialize (H1 i c Hc). simpl in H1.
    rewrite H1. by rewrite He, Z.eqb_refl.
Qed.

Lemma newWriter_dims url d c w :
  newWriter url d c = Ok w → (0 < dim w)%Z ∧ (0 < clipDim w)%Z ∧ dim w ≠ clipDim w.
Proof.
  unfold newWriter. destruct (String.eqb _ ""); [done|].
  destruct (Z.leb_spec d 0); [done|]. destruct (Z.leb_spec c 0); [done|].
  destruct (Z.eqb_spec d c); [done|]. by intros [= <-].
Qed.

(** Vector routing: with a writer made by [newWriter], a document is refused
    exactly when some chunk vector has a length that is neither zero nor one of
    the two dimensions; otherwise the text tensor is fed exactly when there is a
    text chunk and every text chunk has a text vector, with the vector of chunk
    [i] under label [i], and the clip tensor holds exactly the clip vectors; the
    per-chunk arrays are parallel to the chunks. *)
Theorem vectors_routed {HJ : JsonEnc} {HQ : Quoting} url d c w doc meta :
  newWriter url d c = Ok w → json_map (metadata doc) = Ok meta →
  match buildFields w doc with
  | Err _ => ∃ ck, ck ∈ chunks doc ∧ ¬ routable w ck
  | Ok f =>
    Forall (routable w) (chunks doc) ∧
    length (f_chunks f) = length (chunks doc) ∧ length (f_starts_ms f) = length (chunks doc) ∧
    length (f_ends_ms f) = length (chunks doc) ∧ length (f_modalities f) = length (chunks doc) ∧
    (is_Some (f_embedding f) ↔
       (∃ ck, ck ∈ chunks doc ∧ emb_len ck ≠ clipDim w) ∧
       ∀ ck, ck ∈ chunks doc → emb_len ck ≠ clipDim w → emb_len ck = dim w) ∧
    (∀ b, f_embedding f = Some b → ∀ s v, b !! s = Some v ↔
       ∃ i ck, chunks doc !! i = Some ck ∧ s = pretty i ∧ emb_len ck = dim w ∧ v = ck_embedding ck) ∧
    (∀ s v, default ∅ (f_clip_embedding f) !! s = Some v ↔
       ∃ i ck, chunks doc !! i = Some ck ∧ s = pretty i ∧ emb_len ck = clipDim w ∧ v = ck_embedding ck)
  end.
Proof.
  intros Hw Hm. apply newWriter_dims in Hw. unfold buildFields. rewrite Hm.
  pose proof (route_vectors_spec w Hw (doc_id doc) (chunks doc) 0 ∅ ∅) as Hr.
  assert (Hf : fresh_from 0 ∅) by (intros k _; apply lookup_empty).
  specialize (Hr Hf Hf). destruct (route_vectors w (doc_id doc) 0 (chunks doc) ∅ ∅) as [[t cl]|e].
  - destruct Hr as (HF & Hb1 & Hb2 & Hs1 & Hs2). rewrite map_size_empty in Hs1, Hs2. simpl in Hs1, Hs2.
    simpl. rewrite !length_fmap.
    destruct (count_len_le (dim w) (clipDim w) (chunks doc)) as [Hle Hiff]; [apply Hw|].
    split_and!; try done.
    + unfold textChunkCount. rewrite Hs1. rewrite <- Hiff.
      assert (Hpos : 0 < length (List.filter (λ c, negb (emb_len c =? clipDim w)%Z) (chunks doc)) ↔
        ∃ ck, ck ∈ chunks doc ∧ emb_len ck ≠ clipDim w) by apply filter_pos.
      rewrite <- Hpos. case_bool_decide as Hd; split; try done.
    + intros b. case_bool_decide; [|done]. intros [= <-]. by apply blocks_of_exact.
    + intros s v. rewrite <- (blocks_of_exact _ _ _ Hb2). case_bool_decide as Hd; [done|]. simpl.
      assert (cl = ∅) as -> by (apply map_size_empty_inv; lia). done.
  - apply not_Forall_Exists in Hr; [|intros ck; apply routable_dec].
    apply Exists_exists in Hr as (ck & ? & ?). eauto.
Qed.

(** ** A concrete index *)
#[local] Instance demo_json : JsonEnc := {|
  json_map _ := Ok "{}";
  json_feed f := Ok (f_doc_id f +:+ "@" +:+ f_version_etag f)
|}.
#[local] Instance demo_quote : Quoting := {| Quote s := s |}.

(** A Vespa in memory, down while the context is done. *)
#[local] Instance mem_vespa : VespaAPI (gmap string string) := {|
  http_do i m u b v :=
    match in_ctx i, m, b with
    | Some _, _, _ => (TransportErr "unavailable", v)
    | None, POST, Some body => (Response 200 "", <[u := body]> v)
    | None, POST, None => (Response 400 "", v)
    | None, DELETE, _ => (Response 200 "", delete u v)
    end
|}.

#[local] Instance mem_vespa_laws : VespaLaws (gmap string string).
Proof.
  refine {| vdocs := (λ v : gmap string string, v) |}.
  - intros i u b v s body. simpl. destruct (in_ctx i); [done|]. intros _ _. apply lookup_insert_eq.
  - intros i u v s body. simpl. destruct (in_ctx i); [done|]. intros _ _. apply lookup_delete_eq.
  - intros i m u b v u' Hne. simpl. destruct (in_ctx i), m, b; simpl; try done;
      (by rewrite lookup_insert_ne) || (by rewrite lookup_delete_ne).
Defined.

Definition demo_writer : writer := mkWriter "http://vespa:8080" 2 3.
Definition demo_inp (down : bool) : nat → Inp :=
  λ _, mkInp (if down then Some Canceled else None) None (mkEnv (λ _, 0%Z) (λ _, 0%Z) "").

Definition demo_chunk (e : list Z) : Chunk := mkChunk "c" "text" "" 0 4 e 0 0 "".

Definition demo_doc (tenant etag : string) (cs : list Chunk) : Document :=
  mkDoc tenant "d1" "jira" "1" TICKET "t" "b" cs ∅ [] None None None etag None None.

Definition as_tenant (t : string) : Ctx := mkCtx None (Some (mkContext t t)) None ∅.

Lemma index_last_write_witness :
  indexed demo_writer (demo_doc "acme" "v2" [])
    (vdocs (foldl (call_writer demo_writer) (∅ : gmap string string)
       ([(as_tenant "acme", demo_doc "acme" "v1" [], demo_inp false)] ++
        (as_tenant "acme", demo_doc "acme" "v2" [], demo_inp false) ::
        [(as_tenant "globex", demo_doc "globex" "v9" [], demo_inp false)]))
       !! documentURL demo_writer "acme" "d1").
Proof.
  apply (index_last_write demo_writer [(as_tenant "acme", demo_doc "acme" "v1" [], demo_inp false)]
    [(as_tenant "globex", demo_doc "globex" "v9" [], demo_inp false)]
    (as_tenant "acme") (demo_doc "acme" "v2" []) (demo_inp false) ∅).
  - vm_compute. reflexivity.
  - apply Forall_singleton. discriminate.
Defined.

Lemma vectors_routed_witness :
  match buildFields demo_writer (demo_doc "acme" "v1" [demo_chunk [1%Z; 2%Z]; demo_chunk [3%Z; 4%Z; 5%Z]]) with
  | Err _ => False
  | Ok f => is_Some (f_embedding f)
  end.
Proof.
  pose proof (vectors_routed "http://vespa:8080/" 2 3 demo_writer
    (demo_doc "acme" "v1" [demo_chunk [1%Z; 2%Z]; demo_chunk [3%Z; 4%Z; 5%Z]]) "{}" eq_refl eq_refl) as H.
  destruct (buildFields demo_writer _) as [f|e] eqn:E.
  - destruct H as (_ & _ & _ & _ & _ & H & _). apply H. split.
    + exists (demo_chunk [1%Z; 2%Z]). split; [left|vm_compute; discriminate].
    + intros ck Hck Hne. apply elem_of_cons in Hck as [->|Hck]; [reflexivity|].
      apply list_elem_of_singleton in Hck as ->. exfalso. apply Hne. reflexivity.
  - vm_compute in E. discriminate E.
Defined.
