(* ===== verification/HubScheduler.v ===== *)
(** * The connector hub's scheduler

    Models [services/connector-hub/internal/hub/scheduler.go] up to the sync
    pass itself: [reconcile] with its per-tenant cap, [stopAll], [lookup],
    [trigger], the worker loop [runWorker] and [backoffDelay].  Workers are
    goroutines behind pointers: a worker is an entry of a heap, the maps
    [workers] and [draining] hold its address, and the loop is the state
    machine of its select statements. *)

From stdpp Require Import base gmap strings list.
From Stdlib Require Import Ascii ZArith Lia.
From S2P Require Import Prelude GoStrings Tenancy ControlPlane Erasure.

Open Scope nat_scope.

(** Durations in nanoseconds. *)
Definition maxConcurrentSyncs : nat := 4.
Definition failureBackoffBase : Z := (5 * 1000000000)%Z.
Definition failureBackoffCap : Z := (300 * 1000000000)%Z.

(** [ConnectorStatus_ACTIVE] *)
Definition status_ACTIVE : Z := 1.

Record instanceSnap := mkSnap { snap_tenant : Context; snap_inst : PInstance }.

(** ** [backoffDelay] *)
Fixpoint backoff_loop (n : nat) (d limit : Z) : Z :=
  match n with
  | O => Z.min d limit
  | S n' => let d := wrap64 (d * 2) in if (limit <=? d)%Z then limit else backoff_loop n' d limit
  end.

Definition backoffDelay (base limit : Z) (failures : Z) : Z :=
  backoff_loop (Z.to_nat (failures - 1)) base limit.

(** ** Workers *)

(** Where a worker's goroutine is: at the select on its delay, at the select
    on the semaphore, in [syncOnce], or returned ([done] closed). *)
Inductive Position := AtDelay | AtSem | InSync | Exited.

#[export] Instance Position_eq_dec : EqDecision Position.
Proof. solve_decision. Defined.

Record worker := mkWorker {
  w_instance : string;
  w_cancelled : bool;
  w_wake : bool;
  w_snap : instanceSnap;
  w_pos : Position;
  w_failures : Z;
  w_delay : Z
}.

Definition newWorker (id : string) (snap : instanceSnap) : worker :=
  mkWorker id false false snap AtSem 0 0.

Definition update (snap : instanceSnap) (w : worker) : worker :=
  mkWorker (w_instance w) (w_cancelled w) (w_wake w) snap (w_pos w) (w_failures w) (w_delay w).

Definition cancel (w : worker) : worker :=
  mkWorker (w_instance w) true (w_wake w) (w_snap w) (w_pos w) (w_failures w) (w_delay w).

Definition set_wake (b : bool) (w : worker) : worker :=
  mkWorker (w_instance w) (w_cancelled w) b (w_snap w) (w_pos w) (w_failures w) (w_delay w).

Definition at_pos (p : Position) (w : worker) : worker :=
  mkWorker (w_instance w) (w_cancelled w) (w_wake w) (w_snap w) p (w_failures w) (w_delay w).

Record schedulerOpts := mkOpts {
  o_webhookBase : string; o_syncInterval : Z; o_backoffBase : Z; o_backoffCap : Z;
  o_maxInstancesPerTenant : Z
}.

Record scheduler := mkScheduler {
  webhookBase : string;
  syncInterval : Z;
  backoffBase : Z;
  backoffCap : Z;
  maxInstancesPerTenant : Z;
  sem : nat;
  workers : gmap string nat;
  draining : gmap string nat;
  heap : gmap nat worker;
  next_worker : nat;
  root_done : bool;
  stopped : bool
}.

(** [newScheduler] *)
Definition newScheduler (o : schedulerOpts) : scheduler :=
  mkScheduler (TrimRightSlash (o_webhookBase o)) (o_syncInterval o)
    (if (o_backoffBase o <=? 0)%Z then failureBackoffBase else o_backoffBase o)
    (if (o_backoffCap o <=? 0)%Z then failureBackoffCap else o_backoffCap o)
    (o_maxInstancesPerTenant o) 0 ∅ ∅ ∅ 0 false false.

Definition set_maps (ws ds : gmap string nat) (h : gmap nat worker) (n : nat) (s : scheduler) : scheduler :=
  mkScheduler (webhookBase s) (syncInterval s) (backoffBase s) (backoffCap s)
    (maxInstancesPerTenant s) (sem s) ws ds h n (root_done s) (stopped s).

Definition set_worker (j : nat) (w : worker) (n : nat) (s : scheduler) : scheduler :=
  mkScheduler (webhookBase s) (syncInterval s) (backoffBase s) (backoffCap s)
    (maxInstancesPerTenant s) n (workers s) (draining s) (<[j := w]> (heap s)) (next_worker s)
    (root_done s) (stopped s).

(** ** [reconcile] *)

(** The instances to schedule, from the listing. *)
Definition desired_step (m : gmap string instanceSnap) (ti : string * PInstance)
    : gmap string instanceSnap :=
  let '(tenant, inst) := ti in
  if String.eqb (pi_id inst) "" then m
  else match FromHeaderValue tenant with
  | Err _ => m
  | Ok tc =>
    if negb (pi_status inst =? status_ACTIVE)%Z then m
    else <[pi_id inst := mkSnap tc inst]> m
  end.

Definition desiredOf (resp : list (string * PInstance)) : gmap string instanceSnap :=
  foldl desired_step ∅ resp.

(** [byTenant[t]], sorted. *)
Definition ids_of (desired : gmap string instanceSnap) (t : TenantID) : list string :=
  sort_by str_leb
    (fst <$> List.filter (λ e, String.eqb (tenantID (snap_tenant e.2)) t) (map_to_list desired)).

Definition tenants_of (desired : gmap string instanceSnap) : list TenantID :=
  remove_dups ((λ e, tenantID (snap_tenant e.2)) <$> map_to_list desired).

Definition applyTenantCap (cap : Z) (desired : gmap string instanceSnap) : gmap string instanceSnap :=
  if (cap <=? 0)%Z then desired
  else
    foldl (λ m t,
      let ids := ids_of desired t in
      if (Z.of_nat (length ids) <=? cap)%Z then m
      else foldl (λ m id, delete id m) m (drop (Z.to_nat cap) ids))
    desired (tenants_of desired).

(** Reap the draining workers that have returned. *)
Definition is_live (w : worker) : bool := negb (bool_decide (w_pos w = Exited)).

Definition reap (h : gmap nat worker) (ds : gmap string nat) : gmap string nat :=
  base.filter (λ e, is_live <$> h !! e.2 = Some true) ds.

Record Maps := mkMaps {
  mp_workers : gmap string nat; mp_draining : gmap string nat; mp_heap : gmap nat worker; mp_next : nat
}.

(** The body of the loop over [desired]: refresh, defer, or start. *)
Definition start_step (m : Maps) (e : string * instanceSnap) : Maps :=
  let '(id, snap) := e in
  match mp_workers m !! id with
  | Some j =>
    mkMaps (mp_workers m) (mp_draining m) (alter (update snap) j (mp_heap m)) (mp_next m)
  | None =>
    match mp_draining m !! id with
    | Some _ => m
    | None =>
      mkMaps (<[id := mp_next m]> (mp_workers m)) (mp_draining m)
        (<[mp_next m := newWorker id snap]> (mp_heap m)) (S (mp_next m))
    end
  end.

(** The body of the loop over the workers: cancel and move to draining. *)
Definition stop_step (desired : gmap string instanceSnap) (m : Maps) (e : string * nat) : Maps :=
  let '(id, j) := e in
  match desired !! id with
  | Some _ => m
  | None =>
    mkMaps (delete id (mp_workers m)) (<[id := j]> (mp_draining m)) (alter cancel j (mp_heap m)) (mp_next m)
  end.

Definition reconcile (resp : result Status (list (string * PInstance))) (s : scheduler) : scheduler :=
  match resp with
  | Err _ => s
  | Ok instances =>
    let desired := applyTenantCap (maxInstancesPerTenant s) (desiredOf instances) in
    let m := mkMaps (workers s) (reap (heap s) (draining s)) (heap s) (next_worker s) in
    let m := foldl start_step m (map_to_list desired) in
    let m := foldl (stop_step desired) m (map_to_list (mp_workers m)) in
    set_maps (mp_workers m) (mp_draining m) (mp_heap m) (mp_next m) s
  end.

Definition cancel_all (ids : gmap string nat) (h : gmap nat worker) : gmap nat worker :=
  foldl (λ h e, alter cancel e.2 h) h (map_to_list ids).

Definition stopAll (s : scheduler) : scheduler :=
  let h := cancel_all (draining s) (cancel_all (workers s) (heap s)) in
  mkScheduler (webhookBase s) (syncInterval s) (backoffBase s) (backoffCap s)
    (maxInstancesPerTenant s) (sem s) ∅ ∅ h (next_worker s) (root_done s) true.

Definition lookup_instance (s : scheduler) (id : string) : option instanceSnap :=
  j ← workers s !! id; w_snap <$> heap s !! j.

Definition trigger (id : string) (s : scheduler) : scheduler :=
  match workers s !! id with
  | Some j => set_maps (workers s) (draining s) (alter (set_wake true) j (heap s)) (next_worker s) s
  | None => s
  end.

(** ** [runWorker] *)
Inductive Move := TimerFires | WakeReceived | SeesDone | AcquiresSem | SyncReturns (failed : bool).

(** The worker's context is its own, derived from the scheduler's. *)
Definition ctx_done (s : scheduler) (w : worker) : bool := w_cancelled w || root_done s.

(** The top of the loop, with the delay chosen. *)
Definition loop_top (w : worker) (failures delay : Z) : worker :=
  mkWorker (w_instance w) (w_cancelled w) (w_wake w) (w_snap w)
    (if (0 <? delay)%Z then AtDelay else AtSem) failures delay.

(** What a goroutine does at a move; [None] when the move cannot happen. *)
Definition worker_move (s : scheduler) (w : worker) (mv : Move) : option (worker * nat) :=
  match w_pos w, mv with
  | AtDelay, SeesDone => if ctx_done s w then Some (at_pos Exited w, sem s) else None
  | AtDelay, TimerFires => Some (at_pos AtSem w, sem s)
  | AtDelay, WakeReceived =>
    if w_wake w then Some (at_pos AtSem (set_wake false w), sem s) else None
  | AtSem, SeesDone => if ctx_done s w then Some (at_pos Exited w, sem s) else None
  | AtSem, AcquiresSem =>
    if sem s <? maxConcurrentSyncs then Some (at_pos InSync w, S (sem s)) else None
  | InSync, SyncReturns failed =>
    let sem' := Nat.pred (sem s) in
    if ctx_done s w then Some (at_pos Exited w, sem')
    else if failed then
      let failures := wrap64 (w_failures w + 1) in
      Some (loop_top w failures (backoffDelay (backoffBase s) (backoffCap s) failures), sem')
    else Some (loop_top w 0 (syncInterval s), sem')
  | _, _ => None
  end.

(** ** The scheduler as a whole *)
Inductive sched_step : scheduler → scheduler → Prop :=
| step_reconcile s resp : stopped s = false → sched_step s (reconcile resp s)
| step_trigger s id : sched_step s (trigger id s)
| step_root_done s :
    sched_step s (mkScheduler (webhookBase s) (syncInterval s) (backoffBase s) (backoffCap s)
      (maxInstancesPerTenant s) (sem s) (workers s) (draining s) (heap s) (next_worker s) true (stopped s))
| step_stop_all s : root_done s = true → sched_step s (stopAll s)
| step_worker s j w mv w' n :
    heap s !! j = Some w → worker_move s w mv = Some (w', n) → sched_step s (set_worker j w' n s).
