(* ===== verification/HubSchedulerProofs.v ===== *)
(** * The connector hub's scheduler: proofs

    Whatever the listings, the timing of the workers and the wake-ups: passes
    of one instance never overlap, at most four passes run at once, and no
    tenant occupies more workers than its cap. *)

From stdpp Require Import base gmap strings list.
From Stdlib Require Import Ascii ZArith Lia.
From S2P Require Import Prelude GoStrings Tenancy ControlPlane Erasure HubScheduler.

Open Scope nat_scope.

#[local] Arguments start_step : simpl never.
#[local] Arguments stop_step : simpl never.

(** ** The shape of a heap: whose worker is where *)
Definition shape_of (w : worker) : string * Position := (w_instance w, w_pos w).
Definition shape (h : gmap nat worker) : gmap nat (string * Position) := shape_of <$> h.

Lemma shape_alter f j h : (∀ w, shape_of (f w) = shape_of w) → shape (alter f j h) = shape h.
Proof.
  intros Hf. unfold shape. apply map_eq. intros k. rewrite !lookup_fmap.
  destruct (decide (j = k)) as [<-|]; [|by rewrite lookup_alter_ne].
  rewrite lookup_alter_eq. destruct (h !! j); simpl; [by rewrite Hf|done].
Qed.

Lemma shape_insert j w h : shape (<[j := w]> h) = <[j := shape_of w]> (shape h).
Proof. apply fmap_insert. Qed.

Lemma shape_lookup h j p : shape h !! j = Some p ↔ ∃ w, h !! j = Some w ∧ shape_of w = p.
Proof.
  unfold shape. rewrite lookup_fmap. destruct (h !! j); simpl; naive_solver.
Qed.

(** Passes in progress. *)
Definition passes (sh : gmap nat (string * Position)) : nat :=
  size (base.filter (λ e, e.2.2 = InSync) sh).

Definition busy (p : Position) : nat := if decide (p = InSync) then 1 else 0.

Lemma passes_insert_new sh j id p :
  sh !! j = None → passes (<[j := (id, p)]> sh) = passes sh + busy p.
Proof.
  intros Hn. unfold passes, busy. destruct (decide (p = InSync)) as [->|].
  - rewrite map_filter_insert_True by done. rewrite map_size_insert_None; [lia|].
    apply map_lookup_filter_None. by left.
  - rewrite map_filter_insert_False by done. rewrite delete_id by done. lia.
Qed.

Lemma passes_insert sh j id p id' p' :
  sh !! j = Some (id, p) → passes (<[j := (id', p')]> sh) + busy p = passes sh + busy p'.
Proof.
  intros Hj. rewrite <- (insert_delete_id sh j (id, p) Hj) at 2.
  rewrite <- (insert_delete_eq sh j (id', p')).
  rewrite !passes_insert_new by apply lookup_delete_eq. lia.
Qed.

(** ** The maps *)
Record MInv (ws ds : gmap string nat) (sh : gmap nat (string * Position)) (n : nat) : Prop := {
  mi_workers id j : ws !! id = Some j → (∃ p, sh !! j = Some (id, p)) ∧ ds !! id = None;
  mi_draining id j : ds !! id = Some j → ∃ p, sh !! j = Some (id, p);
  mi_next j : n ≤ j → sh !! j = None;
  mi_live j id p : sh !! j = Some (id, p) → p ≠ Exited → ws !! id = Some j ∨ ds !! id = Some j
}.

Definition MInv' (m : Maps) : Prop := MInv (mp_workers m) (mp_draining m) (shape (mp_heap m)) (mp_next m).

Lemma reap_inv ws ds h n : MInv ws ds (shape h) n → MInv ws (reap h ds) (shape h) n.
Proof.
  intros [Hw Hd Hn Hl]. split; [| |done|].
  - intros id j Hj. destruct (Hw id j Hj) as [? Hnone]. split; [done|].
    apply map_lookup_filter_None. by left.
  - intros id j [Hj _]%map_lookup_filter_Some. by apply Hd.
  - intros j id p Hj Hp. destruct (Hl j id p Hj Hp) as [?|Hds]; [by left|right].
    apply map_lookup_filter_Some. split; [done|]. simpl.
    apply shape_lookup in Hj as (w & -> & Hw'). simpl. f_equal. unfold is_live.
    injection Hw' as _ Hpos. rewrite bool_decide_eq_false_2; [done|congruence].
Qed.

Lemma start_inv m e : MInv' m → MInv' (start_step m e).
Proof.
  destruct e as [id snap]. intros HI. unfold start_step.
  destruct (mp_workers m !! id) as [j|] eqn:Ew.
  { unfold MInv'. cbn [mp_workers mp_draining mp_heap mp_next]. by rewrite shape_alter. }
  destruct (mp_draining m !! id) as [j|] eqn:Ed; [done|].
  destruct HI as [Hw Hd Hn Hl]. unfold MInv'. cbn [mp_workers mp_draining mp_heap mp_next].
  rewrite shape_insert. assert (Hfresh := Hn (mp_next m) (le_n _)). split.
  - intros id' j [[<- <-]|[Hne Hj]]%lookup_insert_Some.
    + split; [|done]. exists AtSem. apply lookup_insert_eq.
    + destruct (Hw id' j Hj) as [[p Hp] ?]. split; [|done]. exists p.
      rewrite lookup_insert_ne; [done|]. congruence.
  - intros id' j Hj. destruct (Hd id' j Hj) as [p Hp]. exists p.
    rewrite lookup_insert_ne; [done|]. congruence.
  - intros j Hj. rewrite lookup_insert_ne by lia. apply Hn. lia.
  - intros j id' p [[<- [= <- <-]]|[Hne Hj]]%lookup_insert_Some Hp.
    + left. apply lookup_insert_eq.
    + destruct (Hl j id' p Hj Hp) as [H|H]; [left|by right].
      rewrite lookup_insert_ne; [done|]. congruence.
Qed.

Lemma stop_inv desired m id j : mp_workers m !! id = Some j → MInv' m → MInv' (stop_step desired m (id, j)).
Proof.
  intros Hid HI. unfold stop_step. destruct (desired !! id); [done|].
  destruct HI as [Hw Hd Hn Hl]. unfold MInv'. cbn [mp_workers mp_draining mp_heap mp_next].
  rewrite shape_alter by done. split.
  - intros id' j' [Hne Hj']%lookup_delete_Some. destruct (Hw id' j' Hj') as [? ?]. split; [done|].
    by rewrite lookup_insert_ne.
  - intros id' j' [[<- <-]|[Hne Hj']]%lookup_insert_Some; [by apply Hw|by apply Hd].
  - done.
  - intros j' id' p Hj' Hp. destruct (decide (id = id')) as [<-|Hne].
    + right. destruct (Hl j' id p Hj' Hp) as [H|H].
      * rewrite lookup_insert_eq. congruence.
      * destruct (Hw id j Hid) as [_ Hnone]. congruence.
    + destruct (Hl j' id' p Hj' Hp) as [H|H]; [left|right].
      * by rewrite lookup_delete_ne.
      * by rewrite lookup_insert_ne.
Qed.

(** The loop over the workers, on a list of distinct entries of the map. *)
Lemma stop_all_inv desired l m :
  NoDup l.*1 → (∀ id j, (id, j) ∈ l → mp_workers m !! id = Some j) →
  MInv' m → MInv' (foldl (stop_step desired) m l).
Proof.
  revert m. induction l as [|[id j] l IH]; intros m Hnd Hin HI; [done|]. simpl in *.
  apply NoDup_cons in Hnd as [Hni Hnd]. apply IH; [done| |].
  - intros id' j' Hj'. unfold stop_step. destruct (desired !! id); [apply Hin; by right|].
    cbn [mp_workers]. rewrite lookup_delete_ne; [apply Hin; by right|].
    intros <-. apply Hni. apply list_elem_of_fmap. by exists (id, j').
  - apply stop_inv; [|done]. apply Hin. by left.
Qed.

Lemma reconcile_maps_inv s desired :
  MInv (workers s) (draining s) (shape (heap s)) (next_worker s) →
  let m := foldl start_step (mkMaps (workers s) (reap (heap s) (draining s)) (heap s) (next_worker s))
             (map_to_list desired) in
  MInv' m ∧ MInv' (foldl (stop_step desired) m (map_to_list (mp_workers m))).
Proof.
  intros HI m. assert (Hm : MInv' m).
  { unfold m. assert (H0 : MInv' (mkMaps (workers s) (reap (heap s) (draining s)) (heap s) (next_worker s)))
      by (by apply reap_inv). revert H0. generalize (map_to_list desired).
    intros l. generalize (mkMaps (workers s) (reap (heap s) (draining s)) (heap s) (next_worker s)).
    induction l as [|e l IH]; intros m0 H0; simpl; [done|]. by apply IH, start_inv. }
  split; [done|]. apply stop_all_inv; [apply NoDup_fst_map_to_list| |done].
  intros id j Hin. by apply elem_of_map_to_list in Hin.
Qed.

(** Reconciling moves no worker. *)
Lemma reconcile_passes desired l1 l2 m :
  (∀ j, mp_next m ≤ j → shape (mp_heap m) !! j = None) →
  passes (shape (mp_heap (foldl (stop_step desired) (foldl start_step m l1) l2)))
  = passes (shape (mp_heap m)).
Proof.
  intros Hn.
  assert (Hstop : ∀ l m, passes (shape (mp_heap (foldl (stop_step desired) m l))) = passes (shape (mp_heap m))).
  { induction l as [|[id j] l IH]; intros m'; simpl; [done|]. rewrite IH. unfold stop_step.
    destruct (desired !! id); [done|]. cbn [mp_heap]. by rewrite shape_alter. }
  rewrite Hstop. revert m Hn. induction l1 as [|[id snap] l1 IH]; intros m Hn; simpl; [done|].
  assert (Hs : passes (shape (mp_heap (start_step m (id, snap)))) = passes (shape (mp_heap m)) ∧
    ∀ j, mp_next (start_step m (id, snap)) ≤ j → shape (mp_heap (start_step m (id, snap))) !! j = None).
  { unfold start_step. destruct (mp_workers m !! id).
    { cbn [mp_heap mp_next]. by rewrite shape_alter. }
    destruct (mp_draining m !! id); [done|]. cbn [mp_heap mp_next]. rewrite shape_insert. split.
    - change (shape_of (newWorker id snap)) with (id, AtSem).
      rewrite passes_insert_new by (apply Hn; lia). unfold busy. rewrite decide_False by done. lia.
    - intros j Hj. rewrite lookup_insert_ne by lia. apply Hn. lia. }
  destruct Hs as [Hp Hn']. by rewrite IH.
Qed.

(** ** The per-tenant cap *)

(** At most [k] distinct ids have a snapshot of tenant [t]. *)
Definition at_most (k : Z) (look : string → option instanceSnap) : Prop :=
  ∀ t ids, NoDup ids →
    (∀ id, id ∈ ids → ∃ snap, look id = Some snap ∧ tenantID (snap_tenant snap) = t) →
    (Z.of_nat (length ids) ≤ k)%Z.

Lemma elem_of_ids_of desired t id :
  id ∈ ids_of desired t ↔ ∃ snap, desired !! id = Some snap ∧ tenantID (snap_tenant snap) = t.
Proof.
  unfold ids_of. rewrite sort_by_perm. rewrite list_elem_of_fmap. split.
  - intros ([id' snap] & -> & Hin). apply list_elem_of_In, filter_In in Hin as [Hin Ht].
    apply list_elem_of_In, elem_of_map_to_list in Hin. apply String.eqb_eq in Ht. eauto.
  - intros (snap & Hs & Ht). exists (id, snap). split; [done|].
    apply list_elem_of_In, filter_In. split; [|by apply String.eqb_eq].
    by apply list_elem_of_In, elem_of_map_to_list.
Qed.

Lemma NoDup_ids_of desired t : NoDup (ids_of desired t).
Proof.
  unfold ids_of. rewrite sort_by_perm. apply (sublist_NoDup _ (map_to_list desired).*1).
  - apply NoDup_fst_map_to_list.
  - apply fmap_sublist. induction (map_to_list desired) as [|e l IH]; simpl; [done|].
    case_match; by constructor.
Qed.

Lemma delete_all_lookup {V : Type} (l : list string) (m : gmap string V) (id : string) :
  foldl (λ m id, delete id m) m l !! id = if decide (id ∈ l) then None else m !! id.
Proof.
  revert m. induction l as [|a l IH]; intros m; simpl; [done|]. rewrite IH.
  destruct (decide (id = a)) as [->|Hne].
  - rewrite lookup_delete_eq. rewrite (decide_True (P := a ∈ a :: l)) by (by left). by case_decide.
  - rewrite lookup_delete_ne by done. do 2 case_decide; try done.
    + exfalso. set_solver.
    + exfalso. set_solver.
Qed.

(** The ids the cap drops. *)
Definition dropped (cap : Z) (desired : gmap string instanceSnap) (t : TenantID) : list string :=
  let ids := ids_of desired t in
  if (Z.of_nat (length ids) <=? cap)%Z then [] else drop (Z.to_nat cap) ids.

Lemma cap_lookup cap desired id :
  (0 < cap)%Z →
  applyTenantCap cap desired !! id =
  if decide (Exists (λ t, id ∈ dropped cap desired t) (tenants_of desired)) then None else desired !! id.
Proof.
  intros Hcap. unfold applyTenantCap. rewrite (proj2 (Z.leb_gt cap 0)) by lia.
  generalize (tenants_of desired) as ts. intros ts.
  assert (Hgen : ∀ m : gmap string instanceSnap, foldl (λ m t,
      let ids := ids_of desired t in
      if (Z.of_nat (length ids) <=? cap)%Z then m
      else foldl (λ m id, delete id m) m (drop (Z.to_nat cap) ids)) m ts !! id
    = if decide (Exists (λ t, id ∈ dropped cap desired t) ts) then None else m !! id); [|apply Hgen].
  induction ts as [|t ts IH]; intros m; [done|]. cbn [foldl].
  rewrite IH. cbv zeta. assert (Hhead : (if (Z.of_nat (length (ids_of desired t)) <=? cap)%Z then m
      else foldl (λ m id, delete id m) m (drop (Z.to_nat cap) (ids_of desired t))) !! id
    = if decide (id ∈ dropped cap desired t) then None else m !! id).
  { unfold dropped.
    destruct (Z.of_nat (length (ids_of desired t)) <=? cap)%Z; [|apply delete_all_lookup].
    rewrite decide_False; [done|]. apply not_elem_of_nil. }
  rewrite Hhead. destruct (decide (Exists _ ts)) as [Hex|Hno].
  - rewrite decide_True; [done|]. by right.
  - destruct (decide (id ∈ dropped cap desired t)) as [Hin|Hnin].
    + rewrite decide_True; [done|]. by left.
    + rewrite decide_False; [done|]. by rewrite Exists_cons; intros [?|?].
Qed.

Lemma cap_subset cap desired id snap :
  applyTenantCap cap desired !! id = Some snap → desired !! id = Some snap.
Proof.
  destruct (decide (0 < cap)%Z) as [Hc|Hc].
  - rewrite cap_lookup by done. by case_decide.
  - unfold applyTenantCap. by rewrite (proj2 (Z.leb_le cap 0)) by lia.
Qed.

Lemma cap_holds cap desired : (0 < cap)%Z → at_most cap (λ id, applyTenantCap cap desired !! id).
Proof.
  intros Hcap t ids Hnd Hids.
  assert (Hsub : ∀ id, id ∈ ids → id ∈ take (Z.to_nat cap) (ids_of desired t)).
  { intros id Hid. destruct (Hids id Hid) as (snap & Hs & Ht).
    rewrite cap_lookup in Hs by done. case_decide as Hex; [done|].
    assert (Hin : id ∈ ids_of desired t) by (apply elem_of_ids_of; eauto).
    destruct (decide (Z.of_nat (length (ids_of desired t)) ≤ cap)%Z) as [Hle|Hgt].
    - rewrite take_ge by lia. done.
    - rewrite <- (take_drop (Z.to_nat cap) (ids_of desired t)) in Hin.
      apply elem_of_app in Hin as [?|Hd]; [done|]. exfalso. apply Hex. apply Exists_exists.
      exists t. split.
      + unfold tenants_of. rewrite elem_of_remove_dups. apply list_elem_of_fmap.
        exists (id, snap). split; [done|]. by apply elem_of_map_to_list.
      + unfold dropped. by rewrite (proj2 (Z.leb_gt _ _)) by lia. }
  assert (Hlen : length ids ≤ length (take (Z.to_nat cap) (ids_of desired t))).
  { apply submseteq_length. apply NoDup_submseteq; [done|]. exact Hsub. }
  rewrite length_take in Hlen. lia.
Qed.

(** ** Snapshots *)
Definition fresh_snap (m : Maps) (id : string) (snap : instanceSnap) : Prop :=
  ∀ j, mp_workers m !! id = Some j → w_snap <$> mp_heap m !! j = Some snap.

Lemma start_makes m id snap : MInv' m → fresh_snap (start_step m (id, snap)) id snap.
Proof.
  intros HI j. unfold start_step. destruct (mp_workers m !! id) as [j'|] eqn:Ew; cbn [mp_workers mp_heap].
  - rewrite Ew. intros [= ->]. rewrite lookup_alter_eq.
    destruct (mi_workers _ _ _ _ HI id j Ew) as [[p Hp] _].
    apply shape_lookup in Hp as (w & -> & _). done.
  - destruct (mp_draining m !! id); cbn [mp_workers mp_heap]; [congruence|].
    rewrite lookup_insert_eq. intros [= <-]. by rewrite lookup_insert_eq.
Qed.

Lemma start_keeps m id snap id' snap' :
  MInv' m → id ≠ id' → fresh_snap m id snap → fresh_snap (start_step m (id', snap')) id snap.
Proof.
  intros HI Hne Hf j. unfold start_step.
  destruct (mp_workers m !! id') as [j'|] eqn:Ew; cbn [mp_workers mp_heap].
  - intros Hj. specialize (Hf j Hj). rewrite lookup_alter_ne; [done|]. intros ->.
    destruct (mi_workers _ _ _ _ HI id j Hj) as [[p Hp] _].
    destruct (mi_workers _ _ _ _ HI id' j Ew) as [[p' Hp'] _]. congruence.
  - destruct (mp_draining m !! id'); cbn [mp_workers mp_heap]; [by apply Hf|].
    rewrite lookup_insert_ne by done. intros Hj. specialize (Hf j Hj).
    rewrite lookup_insert_ne; [done|]. intros <-.
    destruct (mi_workers _ _ _ _ HI id _ Hj) as [[p Hp] _].
    by rewrite (mi_next _ _ _ _ HI _ (le_n _)) in Hp.
Qed.

Lemma start_all_snaps l m :
  NoDup l.*1 → MInv' m → ∀ id snap, (id, snap) ∈ l → fresh_snap (foldl start_step m l) id snap.
Proof.
  assert (Hkeep : ∀ l m id snap, id ∉ l.*1 → MInv' m → fresh_snap m id snap →
    fresh_snap (foldl start_step m l) id snap).
  { clear. induction l as [|[id' snap'] l IH]; intros m id snap Hni HI Hf; simpl in *; [done|].
    apply not_elem_of_cons in Hni as [??]. apply IH; [done|by apply start_inv|by apply start_keeps]. }
  revert m. induction l as [|[id' snap'] l IH]; intros m Hnd HI id snap Hin; simpl in *.
  { by apply not_elem_of_nil in Hin. }
  apply NoDup_cons in Hnd as [Hni Hnd]. apply elem_of_cons in Hin as [[= -> ->]|Hin].
  - apply Hkeep; [done|by apply start_inv|by apply start_makes].
  - apply IH; [done|by apply start_inv|done].
Qed.

Lemma stop_workers desired l m id j :
  mp_workers (foldl (stop_step desired) m l) !! id = Some j →
  mp_workers m !! id = Some j ∧ (desired !! id = None → id ∉ l.*1) ∧
  w_snap <$> mp_heap (foldl (stop_step desired) m l) !! j = w_snap <$> mp_heap m !! j.
Proof.
  revert m. induction l as [|[id' j'] l IH]; intros m Hj; simpl in *.
  { split_and!; [done|intros _; apply not_elem_of_nil|done]. }
  destruct (IH _ Hj) as (Hm & Hd & Hs). rewrite Hs. clear IH Hs. unfold stop_step in *.
  destruct (desired !! id') eqn:Ed.
  - split_and!; [done| |done]. intros Hn. rewrite not_elem_of_cons. split; [congruence|auto].
  - cbn [mp_workers mp_heap] in *. apply lookup_delete_Some in Hm as [Hne Hm]. split_and!; [done| |].
    + intros Hn. rewrite not_elem_of_cons. split; [congruence|auto].
    + destruct (decide (j' = j)) as [->|]; [|by rewrite lookup_alter_ne].
      rewrite lookup_alter_eq. by destruct (mp_heap m !! j).
Qed.

(** After a reconcile, only desired instances are scheduled, each with the
    snapshot of the listing. *)
Lemma reconcile_lookup instances s id snap :
  MInv (workers s) (draining s) (shape (heap s)) (next_worker s) →
  lookup_instance (reconcile (Ok instances) s) id = Some snap →
  applyTenantCap (maxInstancesPerTenant s) (desiredOf instances) !! id = Some snap.
Proof.
  intros HI. unfold lookup_instance, reconcile.
  set (desired := applyTenantCap (maxInstancesPerTenant s) (desiredOf instances)).
  cbn [workers heap set_maps].
  set (m0 := mkMaps (workers s) (reap (heap s) (draining s)) (heap s) (next_worker s)).
  set (m1 := foldl start_step m0 (map_to_list desired)).
  intros (j & Hj & Hs)%bind_Some. apply stop_workers in Hj as (Hj & Hd & Hsnap). rewrite Hsnap in Hs.
  destruct (desired !! id) as [snap'|] eqn:Ed.
  - assert (Hf : fresh_snap m1 id snap').
    { apply start_all_snaps; [apply NoDup_fst_map_to_list|by apply reap_inv|].
      by apply elem_of_map_to_list. }
    specialize (Hf j Hj). congruence.
  - exfalso. apply Hd; [done|]. apply list_elem_of_fmap. exists (id, j). split; [done|].
    by apply elem_of_map_to_list.
Qed.

(** ** The invariant *)
Record SInv (s : scheduler) : Prop := {
  si_maps : stopped s = false →
    MInv (workers s) (draining s) (shape (heap s)) (next_worker s);
  si_stopped : stopped s = true → workers s = ∅;
  si_unique j1 j2 id p1 p2 :
    shape (heap s) !! j1 = Some (id, p1) → shape (heap s) !! j2 = Some (id, p2) →
    p1 ≠ Exited → p2 ≠ Exited → j1 = j2;
  si_sem : passes (shape (heap s)) = sem s;
  si_bound : sem s ≤ maxConcurrentSyncs;
  si_cap : (0 < maxInstancesPerTenant s)%Z → at_most (maxInstancesPerTenant s) (lookup_instance s)
}.

(** Passes of an instance are serial when its live workers are all listed. *)
Lemma maps_unique ws ds sh n j1 j2 id p1 p2 :
  MInv ws ds sh n → sh !! j1 = Some (id, p1) → sh !! j2 = Some (id, p2) →
  p1 ≠ Exited → p2 ≠ Exited → j1 = j2.
Proof.
  intros [Hw _ _ Hl] H1 H2 Hp1 Hp2.
  destruct (Hl _ _ _ H1 Hp1) as [A|A], (Hl _ _ _ H2 Hp2) as [B|B]; try congruence.
  - destruct (Hw _ _ A) as [_ ?]. congruence.
  - destruct (Hw _ _ B) as [_ ?]. congruence.
Qed.

Lemma reconcile_inv resp s : SInv s → stopped s = false → SInv (reconcile resp s).
Proof.
  intros HS Hst. destruct resp as [instances|e]; [|done].
  pose proof (si_maps s HS Hst) as HM.
  assert (Hlook : ∀ id snap, lookup_instance (reconcile (Ok instances) s) id = Some snap →
    applyTenantCap (maxInstancesPerTenant s) (desiredOf instances) !! id = Some snap)
    by (intros id snap; by apply reconcile_lookup).
  unfold reconcile in *. set (desired := applyTenantCap _ _) in *.
  destruct (reconcile_maps_inv s desired HM) as [_ HM'].
  set (m0 := mkMaps (workers s) (reap (heap s) (draining s)) (heap s) (next_worker s)) in *.
  set (m2 := foldl (stop_step desired) (foldl start_step m0 (map_to_list desired))
    (map_to_list (mp_workers (foldl start_step m0 (map_to_list desired))))) in *.
  split; cbn [workers draining heap next_worker set_maps sem maxInstancesPerTenant stopped].
  - intros _. exact HM'.
  - congruence.
  - intros j1 j2 id p1 p2. by eapply maps_unique.
  - rewrite <- (si_sem s HS). apply (reconcile_passes desired (map_to_list desired) _ m0).
    apply (mi_next _ _ _ _ HM).
  - apply HS.
  - intros Hcap t ids Hnd Hids. apply (cap_holds _ (desiredOf instances) Hcap t ids Hnd).
    intros id Hid. destruct (Hids id Hid) as (snap & Hs & Ht). exists snap. split; [|done].
    by apply Hlook.
Qed.

Lemma at_most_ext k f g : (∀ id, f id = g id) → at_most k f → at_most k g.
Proof.
  intros Heq H t ids Hnd Hids. apply (H t ids Hnd). intros id Hid. rewrite Heq. by apply Hids.
Qed.

Lemma trigger_inv id s : SInv s → SInv (trigger id s).
Proof.
  intros HS. unfold trigger. destruct (workers s !! id) as [j|] eqn:Ej; [|done].
  assert (Hsh : shape (alter (set_wake true) j (heap s)) = shape (heap s)) by (by apply shape_alter).
  destruct HS as [H1 H2 H3 H4 H5 H6].
  split; cbn [workers draining heap next_worker set_maps sem maxInstancesPerTenant stopped];
    rewrite ?Hsh; try done.
  intros Hcap. eapply at_most_ext; [|by apply H6]. intros id'. unfold lookup_instance. simpl.
  destruct (workers s !! id') as [j'|]; simpl; [|done].
  destruct (decide (j = j')) as [<-|]; [|by rewrite lookup_alter_ne].
  rewrite lookup_alter_eq. by destruct (heap s !! j).
Qed.

Lemma cancel_all_shape ids h : shape (cancel_all ids h) = shape h.
Proof.
  unfold cancel_all. generalize (map_to_list ids). intros l. revert h.
  induction l as [|e l IH]; intros h; simpl; [done|]. rewrite IH. by apply shape_alter.
Qed.

Lemma stopAll_inv s : SInv s → SInv (stopAll s).
Proof.
  intros HS. destruct HS as [H1 H2 H3 H4 H5 H6].
  split; unfold stopAll; cbn [workers draining heap next_worker sem maxInstancesPerTenant stopped];
    rewrite ?cancel_all_shape; try done.
  intros Hcap t [|id ids] _ Hids; [simpl; lia|].
  destruct (Hids id) as (snap & Hs & _); [by left|]. unfold lookup_instance in Hs. simpl in Hs.
  by rewrite lookup_empty in Hs.
Qed.

Lemma worker_move_spec s w mv w' n :
  worker_move s w mv = Some (w', n) → (w_pos w = InSync → 0 < sem s) → sem s ≤ maxConcurrentSyncs →
  w_instance w' = w_instance w ∧ w_snap w' = w_snap w ∧ w_pos w ≠ Exited ∧
  n + busy (w_pos w) = sem s + busy (w_pos w') ∧ n ≤ maxConcurrentSyncs.
Proof.
  assert (Htop : ∀ d, busy (if (0 <? d)%Z then AtDelay else AtSem) = 0) by (intros d; by case_match).
  unfold worker_move, maxConcurrentSyncs. intros Hm Hpos Hb.
  destruct (w_pos w) eqn:Ep, mv as [| | | |failed]; cbv beta iota in Hm; try done.
  - injection Hm as <- <-. simpl. split_and!; (done || lia).
  - destruct (w_wake w); [|done]. injection Hm as <- <-. simpl. split_and!; (done || lia).
  - destruct (ctx_done s w); [|done]. injection Hm as <- <-. simpl. split_and!; (done || lia).
  - destruct (ctx_done s w); [|done]. injection Hm as <- <-. simpl. split_and!; (done || lia).
  - destruct (Nat.ltb_spec (sem s) 4); [|done]. injection Hm as <- <-. simpl.
    split_and!; try done; unfold busy; simpl; lia.
  - specialize (Hpos eq_refl). destruct (ctx_done s w); [|destruct failed]; cbv zeta in Hm; injection Hm as <- <-; simpl;
      rewrite ?Htop; split_and!; try done; unfold busy; simpl; lia.
Qed.

Lemma MInv_move ws ds sh n j id p p' :
  MInv ws ds sh n → sh !! j = Some (id, p) → p ≠ Exited → MInv ws ds (<[j := (id, p')]> sh) n.
Proof.
  intros [Hw Hd Hn Hl] Hj Hp.
  assert (Hsome : ∀ k id', (∃ q, sh !! k = Some (id', q)) → ∃ q, <[j := (id, p')]> sh !! k = Some (id', q)).
  { intros k id' [q Hq]. destruct (decide (j = k)) as [<-|].
    - exists p'. rewrite lookup_insert_eq. congruence.
    - exists q. by rewrite lookup_insert_ne. }
  split.
  - intros id' k Hk. destruct (Hw id' k Hk) as [??]. auto.
  - intros id' k Hk. auto.
  - intros k Hk. rewrite lookup_insert_ne; [by apply Hn|]. intros <-. rewrite Hn in Hj; [done|lia].
  - intros k id' q [[<- [= <- <-]]|[Hne Hk]]%lookup_insert_Some Hq; [by eapply Hl|by eapply Hl].
Qed.

Lemma worker_inv s j w mv w' n :
  SInv s → heap s !! j = Some w → worker_move s w mv = Some (w', n) → SInv (set_worker j w' n s).
Proof.
  intros [H1 H2 H3 H4 H5 H6] Hj Hm.
  assert (Hsj : shape (heap s) !! j = Some (w_instance w, w_pos w)) by (apply shape_lookup; eauto).
  assert (Hpos : w_pos w = InSync → 0 < sem s).
  { intros Hp. rewrite <- H4. rewrite Hp in Hsj.
    pose proof (passes_insert _ j _ _ (w_instance w) Exited Hsj) as Hc.
    unfold busy in Hc. simpl in Hc. lia. }
  destruct (worker_move_spec s w mv w' n Hm Hpos H5) as (Hid & Hsnap & Hlive & Hn & Hb).
  assert (Hsh : shape (<[j := w']> (heap s)) = <[j := (w_instance w, w_pos w')]> (shape (heap s))).
  { rewrite shape_insert. unfold shape_of. by rewrite Hid. }
  split; cbn [workers draining heap next_worker set_worker sem maxInstancesPerTenant stopped];
    rewrite ?Hsh; try done.
  - intros Hst. eapply MInv_move; eauto.
  - intros j1 j2 id p1 p2 A B Hp1 Hp2. apply lookup_insert_Some in A, B.
    destruct A as [[<- A]|[_ A]], B as [[<- B]|[_ B]]; [done| | |by eapply H3].
    + injection A as <- _. by eapply H3.
    + injection B as <- _. by eapply H3.
  - pose proof (passes_insert _ j _ _ (w_instance w) (w_pos w') Hsj) as Hc. lia.
  - intros Hcap. eapply at_most_ext; [|by apply H6]. intros id'. unfold lookup_instance. simpl.
    destruct (workers s !! id') as [j'|]; simpl; [|done].
    destruct (decide (j = j')) as [<-|]; [|by rewrite lookup_insert_ne].
    rewrite lookup_insert_eq, Hj. simpl. by rewrite Hsnap.
Qed.

Lemma sched_step_inv s s' : SInv s → sched_step s s' → SInv s'.
Proof.
  intros HS Hstep. destruct Hstep.
  - by apply reconcile_inv.
  - by apply trigger_inv.
  - destruct HS as [H1 H2 H3 H4 H5 H6]. by split.
  - by apply stopAll_inv.
  - by eapply worker_inv.
Qed.

Lemma newScheduler_inv o : SInv (newScheduler o).
Proof.
  split; unfold newScheduler; cbn [workers draining heap next_worker sem maxInstancesPerTenant stopped].
  - intros _. unfold shape. rewrite fmap_empty. split; intros *; rewrite lookup_empty; done.
  - done.
  - intros j1 j2 id p1 p2. unfold shape. rewrite fmap_empty, lookup_empty. done.
  - unfold shape, passes. by rewrite fmap_empty, map_filter_empty, map_size_empty.
  - unfold maxConcurrentSyncs. lia.
  - intros Hcap t [|id ids] _ Hids; [simpl; lia|].
    destruct (Hids id) as (snap & Hs & _); [by left|]. unfold lookup_instance in Hs. simpl in Hs.
    by rewrite lookup_empty in Hs.
Qed.

(** C10. Exclusive, bounded, fair scheduling: in every state the scheduler can
    reach, whatever listings it is given and however its workers, their timers
    and the webhooks interleave, two live workers of one instance are the same
    worker (so its sync passes never overlap, across pauses and resumes), at
    most four passes are in progress, and when the cap is set no tenant has
    more scheduled instances than the cap. *)
Theorem scheduler_exclusive (o : schedulerOpts) (s : scheduler) :
  star sched_step (newScheduler o) s →
  (∀ j1 j2 w1 w2, heap s !! j1 = Some w1 → heap s !! j2 = Some w2 →
     is_live w1 = true → is_live w2 = true → w_instance w1 = w_instance w2 → j1 = j2) ∧
  size (base.filter (λ e, w_pos e.2 = InSync) (heap s)) ≤ maxConcurrentSyncs ∧
  ((0 < o_maxInstancesPerTenant o)%Z → at_most (o_maxInstancesPerTenant o) (lookup_instance s)).
Proof.
  intros Hs. assert (HI : SInv s ∧ maxInstancesPerTenant s = o_maxInstancesPerTenant o).
  { eapply (star_invariant sched_step
      (λ s, SInv s ∧ maxInstancesPerTenant s = o_maxInstancesPerTenant o)); [|exact Hs|].
    - intros a b [HI Hc] Hab. split; [by eapply sched_step_inv|].
      rewrite <- Hc. destruct Hab as [? [?|?]|? ?|?|?|]; try done.
      unfold trigger. by case_match.
    - split; [apply newScheduler_inv|done]. }
  destruct HI as [[H1 H2 H3 H4 H5 H6] Hc]. split_and!.
  - intros j1 j2 w1 w2 Hj1 Hj2 Hl1 Hl2 Heq. unfold is_live in *.
    apply negb_true_iff, bool_decide_eq_false in Hl1, Hl2.
    eapply (H3 j1 j2 (w_instance w1) (w_pos w1) (w_pos w2)); try done; apply shape_lookup; [eauto|].
    exists w2. unfold shape_of. split; [done|]. by rewrite Heq.
  - assert (Hsz : size (base.filter (λ e, w_pos e.2 = InSync) (heap s)) = passes (shape (heap s))).
    { unfold passes, shape. rewrite map_filter_fmap, map_size_fmap. done. }
    rewrite Hsz, H4. done.
  - intros Hcap. rewrite <- Hc in *. by apply H6.
Qed.

(** ** A concrete history

    Two instances of one tenant under a cap of one: the first starts and
    acquires the semaphore, is paused mid-pass, and its replacement is deferred
    while it drains. *)
Definition demo_opts : schedulerOpts := mkOpts "http://hub/" 60 0 0 1.

Definition demo_ts : Timestamp := mkTimestamp 0 0.

Definition demo_instance (id : string) (status : Z) : string * PInstance :=
  ("acme", mkPInstance id "gmail" "" "" status demo_ts demo_ts).

Definition demo_s1 : scheduler :=
  reconcile (Ok [demo_instance "b" 1; demo_instance "a" 1]) (newScheduler demo_opts).

Definition demo_worker : worker :=
  at_pos InSync (newWorker "a" (mkSnap (mkContext "acme" "acme") (demo_instance "a" 1).2)).

Definition demo_s2 : scheduler := set_worker 0 demo_worker 1 demo_s1.
Definition demo_s3 : scheduler := reconcile (Ok [demo_instance "a" 2]) demo_s2.
Definition demo_s4 : scheduler := reconcile (Ok [demo_instance "a" 1]) demo_s3.

Example demo_history :
  workers demo_s1 !! "a" = Some 0 ∧ workers demo_s1 !! "b" = None ∧
  draining demo_s3 !! "a" = Some 0 ∧ workers demo_s4 !! "a" = None ∧ draining demo_s4 !! "a" = Some 0.
Proof. vm_compute. repeat split. Qed.

Lemma scheduler_exclusive_witness :
  star sched_step (newScheduler demo_opts) demo_s4 ∧
  size (base.filter (λ e, w_pos e.2 = InSync) (heap demo_s4)) ≤ maxConcurrentSyncs.
Proof.
  assert (Hs : star sched_step (newScheduler demo_opts) demo_s4).
  { apply (star_step _ _ demo_s1); [apply step_reconcile; reflexivity|].
    apply (star_step _ _ demo_s2).
    - apply (step_worker demo_s1 0 (newWorker "a" (mkSnap (mkContext "acme" "acme") (demo_instance "a" 1).2))
        AcquiresSem); vm_compute; reflexivity.
    - apply (star_step _ _ demo_s3); [apply step_reconcile; vm_compute; reflexivity|].
      apply (star_step _ _ demo_s4); [apply step_reconcile; vm_compute; reflexivity|]. apply star_refl. }
  split; [exact Hs|]. apply (scheduler_exclusive demo_opts demo_s4 Hs).
Defined.
