(* ===== verification/HubSync.v ===== *)
(** * One sync pass of the connector hub

    Models the rest of [services/connector-hub/internal/hub/scheduler.go]
    ([syncOnce], [writeState], [recordFailure], [buildConfig], [fetchToken],
    [mergeWebhookURL]), [emit.go] and the parts of [platform/oauth/token.go]
    they use.  The control-plane client, the OAuth refresh and JSON are
    interfaces; a connector is any behaviour that emits documents, checkpoints
    cursors and returns, panics or never ends ([connRun]). *)

From stdpp Require Import base gmap strings list.
From Stdlib Require Import Ascii ZArith Lia.
From S2P Require Import Prelude GoStrings Tenancy Crypto ControlPlane Erasure Document Kafka HubScheduler.

Open Scope Z_scope.

(** [SyncPhase] values *)
Definition phase_FULL_SYNC : Z := 2.
Definition phase_INCREMENTAL : Z := 3.
Definition phase_FAILED : Z := 4.

(** ** The interfaces *)
(** A failed call: whether its status code is NotFound, and its text. *)
Record CallErr := mkCallErr { is_not_found : bool; call_text : string }.

Class ControlPlaneClient (C : Type) := {
  cp_GetSyncState : Inp → Ctx → string → C → result CallErr PSyncState;
  cp_SetSyncState : Inp → Ctx → PSyncState → C → result CallErr unit * C;
  cp_GetToken : Inp → Ctx → string → C → result CallErr string;
  cp_PutToken : Inp → Ctx → string → string → C → result CallErr unit * C
}.

(** platform/oauth/token.go; times in nanoseconds, the zero time as [None]. *)
Record Token := mkOAuthToken {
  tk_asker_oauth : string; tk_provider : string; tk_connector : string;
  tk_access : string; tk_refresh : string; tk_type : string;
  tk_expiry : option Z; tk_scope : string
}.

(** [json.Unmarshal] and [json.Marshal] of a token and of a map (its values
    kept as JSON texts; [None] is the nil map), [json.Marshal] of a string, and
    a provider's answer to a refresh. *)
Class HubDeps := {
  json_to_token : string → result string Token;
  token_to_json : Token → result string string;
  json_to_map : string → result string (option (gmap string string));
  map_to_json : gmap string string → result string string;
  string_to_json : string → string;
  oauth_refresh : Inp → string → Token → result string Token
}.

Definition tokenMarker : string := "v1".

Definition oauth_Marshal `{!HubDeps} (t : Token) : result string string :=
  let t := if String.eqb (tk_asker_oauth t) "" then
    mkOAuthToken tokenMarker (tk_provider t) (tk_connector t) (tk_access t) (tk_refresh t)
      (tk_type t) (tk_expiry t) (tk_scope t) else t in
  token_to_json t.

Definition oauth_Parse `{!HubDeps} (b : string) : option Token :=
  match json_to_token b with
  | Err _ => None
  | Ok t => if String.eqb (tk_asker_oauth t) tokenMarker then Some t else None
  end.

Definition NeedsRefresh (t : Token) (now skew : Z) : bool :=
  if String.eqb (tk_refresh t) "" then false
  else match tk_expiry t with
  | None => false
  | Some e => negb (now <? e - skew)
  end.

(** [60 * time.Second] *)
Definition refreshSkew : Z := 60 * 1000000000.

(** ** emit.go *)
Section emit.
Context {B : Type} `{!KafkaAPI B} `{!ProtoCodec} `{!Quoting} `{!Deps}.

(** [emitFor]: the document produced, stamped with the emit time, or the
    error; the counter is the caller's. *)
Definition emit_doc (topic : string) (ctx : Ctx) (tc : Context) (connectorID : string)
    (doc : option Document) : prog B (result GoErr unit) :=
  match doc with
  | None => Ret (Err (GE_Msg "hub: emit: nil document"))
  | Some doc =>
    if negb (String.eqb (tenant_id doc) (tenantID tc)) then
      Ret (Err (GE_Msg ("hub: emit: document tenant " +:+ Quote (tenant_id doc) +:+
        " does not match instance tenant " +:+ Quote (tenantID tc) +:+ " (doc_id " +:+
        Quote (doc_id doc) +:+ ", connector " +:+ Quote connectorID +:+ ")")))
    else
      Atomic _ (input (λ i, ts_New (clock (in_env i) 0))) (λ now,
      let cid := if String.eqb (connector_id doc) "" then connectorID else connector_id doc in
      let ts := match doc_ts doc with Some t => t | None => mkTimestamps None None None end in
      let doc' := set_connector_ts cid (mkTimestamps (created ts) (modified ts) (Some now)) doc in
      bind (ProduceDocument (WithContext ctx tc) topic (Some doc')) (λ r,
      match r with
      | Err e => Ret (Err (GE_Msg ("hub: emit doc " +:+ Quote (doc_id doc) +:+ ": " +:+ err_text e)))
      | Ok _ => Ret (Ok tt)
      end))
  end.
End emit.

(** ** Connectors *)
Record Config := mkSdkConfig {
  c_tenant : Context; c_instance : string; c_config_json : string; c_token : option string
}.

(** An error of a connector: whether it wraps ErrCursorExpired, and its text. *)
Record ConnErr := mkConnErr { expired : bool; ce_text : string }.

Inductive connRun :=
| ConnRet (cur : string) (err : option ConnErr)
| ConnPanic
| ConnHang
| ConnEmit (doc : option Document) (k : result GoErr unit → connRun)
| ConnCheckpoint (cur : string) (k : result GoErr unit → connRun).

Record Connector := mkConnector {
  FullSync : Config → connRun;
  IncrementalSync : Config → string → connRun
}.

(** ** syncRun *)
Record syncRun := mkRun {
  run_instance : string; run_cursor : string;
  run_started : option Timestamp; run_completed : option Timestamp;
  run_last_error : string; run_docs_base : Z; run_emitted : Z
}.

Definition run_state (r : syncRun) (phase : Z) : PSyncState :=
  mkPSyncState (run_instance r) (run_cursor r) phase (run_started r) (run_completed r)
    (run_last_error r) (wrap64 (run_docs_base r + run_emitted r)).

Definition set_cursor (c : string) (r : syncRun) : syncRun :=
  mkRun (run_instance r) c (run_started r) (run_completed r) (run_last_error r) (run_docs_base r)
    (run_emitted r).

Definition set_started (t : Timestamp) (r : syncRun) : syncRun :=
  mkRun (run_instance r) (run_cursor r) (Some t) (run_completed r) (run_last_error r)
    (run_docs_base r) (run_emitted r).

Definition set_completed (t : Timestamp) (r : syncRun) : syncRun :=
  mkRun (run_instance r) (run_cursor r) (run_started r) (Some t) (run_last_error r)
    (run_docs_base r) (run_emitted r).

Definition set_last_error (e : string) (r : syncRun) : syncRun :=
  mkRun (run_instance r) (run_cursor r) (run_started r) (run_completed r) e
    (run_docs_base r) (run_emitted r).

Definition count_emit (r : syncRun) : syncRun :=
  mkRun (run_instance r) (run_cursor r) (run_started r) (run_completed r) (run_last_error r)
    (run_docs_base r) (wrap64 (run_emitted r + 1)).

(** A configuration that cannot be built; storing into a nil map panics. *)
Inductive CfgErr := CfgPanics | CfgFailed (msg : string).

(** How a pass ends: it returns, nil or an error, or panics (nothing recovers,
    so the process ends with it), or does not end. *)
Inductive passEnd := PassReturns (err : option GoErr) | PassPanics | PassHangs.

Section pass.
Context {C : Type} `{!ControlPlaneClient C} {B : Type} `{!KafkaAPI B} `{!ProtoCodec} `{!Quoting}.
Context `{!Deps, !HubDeps}.
Context (registry : string → option Connector) (oauth_on : bool) (base topic : string).

(** The control plane and the broker. *)
Abbreviation W := (C * B)%type.

Definition writeState (tctx : Ctx) (r : syncRun) (phase : Z) : prog W (option GoErr) :=
  Atomic _ (λ i w, let '(x, c) := cp_SetSyncState i tctx (run_state r phase) w.1 in (x, (c, w.2))) (λ x,
  match x with
  | Err st => Ret (Some (GE_Msg ("hub: set sync state for " +:+ run_instance r +:+ ": " +:+ call_text st)))
  | Ok _ => Ret None
  end).

(** Best effort; the run keeps the error. *)
Definition recordFailure (tctx : Ctx) (r : syncRun) (cause : string) : prog W unit :=
  bind (writeState tctx (set_last_error cause r) phase_FAILED) (λ _, Ret tt).

Definition mergeWebhookURL (configJSON : string) (connectorID instanceID : string)
    : result CfgErr string :=
  match (if String.eqb configJSON "" then Ok (Some ∅) else json_to_map configJSON) with
  | Err e => Err (CfgFailed ("hub: instance config is not a JSON object: " +:+ e))
  | Ok None => Err CfgPanics
  | Ok (Some m) =>
    match map_to_json (<["webhook_url" := string_to_json
            (TrimRightSlash base +:+ "/webhooks/" +:+ connectorID +:+ "/" +:+ instanceID)]> m) with
    | Err e => Err (CfgFailed ("hub: merge webhook_url: " +:+ e))
    | Ok out => Ok out
    end
  end.

Definition read_cp {A} (f : Inp → C → A) (i : Inp) (w : W) : A * W := (f i w.1, w).

Definition same_expiry (a b : option Z) : bool := bool_decide (a = b).

Definition fetchToken (tctx : Ctx) (instanceID : string) : prog W (result string (option string)) :=
  Atomic _ (read_cp (λ i, cp_GetToken i tctx instanceID)) (λ r,
  match r with
  | Err st =>
    if is_not_found st then Ret (Ok None)
    else Ret (Err ("hub: get token for " +:+ instanceID +:+ ": " +:+ call_text st))
  | Ok stored =>
    match oauth_Parse stored with
    | None => Ret (Ok (Some stored))
    | Some tok =>
      Atomic _ (input (λ i, clock (in_env i) 0)) (λ now,
      if negb (NeedsRefresh tok now refreshSkew) then Ret (Ok (Some (tk_access tok)))
      else if negb oauth_on then
        Ret (Err ("hub: oauth token for " +:+ instanceID +:+
          " needs refresh but no oauth service is configured"))
      else
        Atomic _ (input (λ i, oauth_refresh i (tk_provider tok) tok)) (λ r,
        match r with
        | Err e => Ret (Err ("hub: refresh oauth token for " +:+ instanceID +:+ ": " +:+ e))
        | Ok newTok =>
          if String.eqb (tk_access newTok) "" then
            Ret (Err ("hub: refresh oauth token for " +:+ instanceID +:+ ": empty access token"))
          else if negb (String.eqb (tk_access newTok) (tk_access tok))
               || negb (String.eqb (tk_refresh newTok) (tk_refresh tok))
               || negb (same_expiry (tk_expiry newTok) (tk_expiry tok)) then
            match oauth_Marshal newTok with
            | Err e => Ret (Err ("hub: marshal refreshed oauth token for " +:+ instanceID +:+ ": " +:+ e))
            | Ok blob =>
              Atomic _ (λ i w, let '(x, c) := cp_PutToken i tctx instanceID blob w.1 in (x, (c, w.2))) (λ x,
              match x with
              | Err st =>
                Ret (Err ("hub: store refreshed oauth token for " +:+ instanceID +:+ ": " +:+ call_text st))
              | Ok _ => Ret (Ok (Some (tk_access newTok)))
              end)
            end
          else Ret (Ok (Some (tk_access newTok)))
        end))
    end
  end).

Definition buildConfig (tctx : Ctx) (snap : instanceSnap) : prog W (result CfgErr Config) :=
  bind (fetchToken tctx (pi_id (snap_inst snap))) (λ r,
  match r with
  | Err e => Ret (Err (CfgFailed e))
  | Ok token =>
    match mergeWebhookURL (pi_config (snap_inst snap)) (pi_connector (snap_inst snap))
            (pi_id (snap_inst snap)) with
    | Err e => Ret (Err e)
    | Ok cfgJSON => Ret (Ok (mkSdkConfig (snap_tenant snap) (pi_id (snap_inst snap)) cfgJSON token))
    end
  end).

(** A connector's run against the hub's callbacks: emits go to the topic under
    the instance's tenant and are counted, checkpoints store the cursor. *)
Fixpoint drive (tctx : Ctx) (tc : Context) (connectorID : string) (cr : connRun) (r : syncRun)
    : prog W (result passEnd (string * option ConnErr * syncRun)) :=
  match cr with
  | ConnRet cur err => Ret (Ok (cur, err, r))
  | ConnPanic => Ret (Err PassPanics)
  | ConnHang => Ret (Err PassHangs)
  | ConnEmit doc k =>
    bind (zoom snd (λ b w, (w.1, b)) (emit_doc topic tctx tc connectorID doc)) (λ x,
    drive tctx tc connectorID (k x) (match x with Ok _ => count_emit r | Err _ => r end))
  | ConnCheckpoint cur k =>
    let r := set_cursor cur r in
    bind (writeState (WithContext tctx tc) r phase_FULL_SYNC) (λ e,
    drive tctx tc connectorID (k (match e with Some e => Err e | None => Ok tt end)) r)
  end.

(** The end of a pass: the connector's answer recorded. *)
Definition finish (tctx : Ctx) (x : result passEnd (string * option ConnErr * syncRun)) : prog W passEnd :=
  match x with
  | Err e => Ret e
  | Ok (_, Some e, r) =>
    bind (recordFailure tctx r (ce_text e)) (λ _, Ret (PassReturns (Some (GE_Msg (ce_text e)))))
  | Ok (cur, None, r) =>
    Atomic _ (input (λ i, ts_New (clock (in_env i) 0))) (λ now,
    bind (writeState tctx (set_last_error "" (set_completed now (set_cursor cur r))) phase_INCREMENTAL) (λ e,
    Ret (PassReturns e)))
  end.

(** The pass from the sync state [st] it read. *)
Definition sync_from (tctx : Ctx) (snap : instanceSnap) (st : PSyncState) : prog W passEnd :=
  let inst := snap_inst snap in
  let r := mkRun (pi_id inst) (ps_cursor st) None (ps_completed st) "" (ps_docs st) 0 in
  match registry (pi_connector inst) with
  | None =>
    let msg := "hub: connector " +:+ Quote (pi_connector inst) +:+ " is not registered" in
    bind (recordFailure tctx r msg) (λ _, Ret (PassReturns (Some (GE_Msg msg))))
  | Some conn =>
    let full := String.eqb (run_cursor r) "" && negb (ps_phase st =? phase_INCREMENTAL) in
    let phase := if full then phase_FULL_SYNC else phase_INCREMENTAL in
    Atomic _ (input (λ i, ts_New (clock (in_env i) 0))) (λ now,
    let r := set_started now r in
    bind (writeState tctx r phase) (λ e,
    match e with
    | Some e => Ret (PassReturns (Some e))
    | None =>
      bind (buildConfig tctx snap) (λ cfg,
      match cfg with
      | Err CfgPanics => Ret PassPanics
      | Err (CfgFailed msg) => bind (recordFailure tctx r msg) (λ _, Ret (PassReturns (Some (GE_Msg msg))))
      | Ok cfg =>
        if full then
          bind (drive tctx (snap_tenant snap) (pi_connector inst) (FullSync conn cfg) r) (finish tctx)
        else
          bind (drive tctx (snap_tenant snap) (pi_connector inst)
                  (IncrementalSync conn cfg (run_cursor r)) r) (λ x,
          match x with
          | Ok (_, Some (mkConnErr true _), r) =>
            Atomic _ (input (λ i, ts_New (clock (in_env i) 0))) (λ now,
            let r := set_started now (set_cursor "" r) in
            bind (writeState tctx r phase_FULL_SYNC) (λ e,
            match e with
            | Some e => Ret (PassReturns (Some e))
            | None =>
              bind (drive tctx (snap_tenant snap) (pi_connector inst) (FullSync conn cfg) r) (finish tctx)
            end))
          | _ => finish tctx x
          end)
      end)
    end))
  end.

Definition syncOnce (ctx : Ctx) (snap : instanceSnap) : prog W passEnd :=
  let inst := snap_inst snap in
  let tctx := WithContext ctx (snap_tenant snap) in
  Atomic _ (read_cp (λ i, cp_GetSyncState i tctx (pi_id inst))) (λ stResp,
  match stResp with
  | Err st => Ret (PassReturns (Some (GE_Msg ("hub: get sync state for " +:+ pi_id inst +:+ ": " +:+ call_text st))))
  | Ok st => sync_from tctx snap st
  end).
End pass.
