(* ===== verification/HubClient.v ===== *)
(** * The control plane as the hub sees it

    What a sync pass relies on ([ControlPlaneLaws]), and that the control
    plane's own server over its store provides it. *)

From stdpp Require Import base gmap strings list.
From Stdlib Require Import Ascii ZArith Lia.
From S2P Require Import Prelude GoStrings Tenancy Store Crypto CryptoProofs ControlPlane ControlPlaneProofs.
From S2P Require Import Kafka HubSync.

Import memStore.
Open Scope Z_scope.

(** The stored form of an accepted state: its error text cut, its times kept. *)
Definition stored_as (st st' : PSyncState) : Prop :=
  ps_cursor st' = ps_cursor st ∧ ps_phase st' = ps_phase st ∧
  (is_Some (ps_completed st') ↔ is_Some (ps_completed st)) ∧
  ps_last_error st' = take_str (Z.to_nat maxLastErrorLen) (ps_last_error st) ∧
  ps_docs st' = ps_docs st.

(** [cp_id]: the instance an id of a request names.  An accepted state is the
    instance's state, and a call changes no other instance's. *)
Class ControlPlaneLaws (C : Type) `{!ControlPlaneClient C} := {
  cp_id : string → string;
  cp_state : C → TenantID * string → option PSyncState;
  cp_set_ok i ctx st c tc :
    FromContext ctx = Ok tc → ps_phase st ≠ 0 → (cp_SetSyncState i ctx st c).1 = Ok tt →
    ∃ st', cp_state (cp_SetSyncState i ctx st c).2 (tenantID tc, cp_id (ps_instance st)) = Some st' ∧
      stored_as st st';
  cp_set_other i ctx st c tc k :
    FromContext ctx = Ok tc → k ≠ (tenantID tc, cp_id (ps_instance st)) →
    cp_state (cp_SetSyncState i ctx st c).2 k = cp_state c k;
  cp_put_state i ctx id blob c k : cp_state (cp_PutToken i ctx id blob c).2 k = cp_state c k
}.

(** ** The server as the hub's control plane *)
Section server.
Context {HD : Deps} {DS : Type} {HG : GCM} {HDS : DEKStore DS} {K : Type} {HKEK : KEKProvider K}
  (kek : K) {O V R : Type}.

Abbreviation W := (World memStore DS O V R).

(** A status as the client's error, with grpc-go's text for it. *)
Definition code_text (c : code) : string :=
  match c with
  | OK => "OK" | CanceledCode => "Canceled" | UnknownCode => "Unknown" | InvalidArgument => "InvalidArgument"
  | DeadlineExceededCode => "DeadlineExceeded" | NotFound => "NotFound"
  | AlreadyExists => "AlreadyExists" | PermissionDenied => "PermissionDenied"
  | ResourceExhausted => "ResourceExhausted" | FailedPrecondition => "FailedPrecondition"
  | Internal => "Internal" | Unavailable => "Unavailable" | Unauthenticated => "Unauthenticated"
  end.

Definition call_err (st : Status) : CallErr :=
  mkCallErr (bool_decide (st_code st = NotFound))
    ("rpc error: code = " +:+ code_text (st_code st) +:+ " desc = " +:+ st_msg st).

Definition called {A B} (f : A → B) (x : result Status A * W) : result CallErr B * W :=
  (match x.1 with Ok a => Ok (f a) | Err st => Err (call_err st) end, x.2).

(** Each RPC run to its answer. *)
Definition serverClient : ControlPlaneClient W := {|
  cp_GetSyncState i ctx id w := (called (λ a, a) (run (server_GetSyncState ctx id) (λ _, i) w)).1;
  cp_SetSyncState i ctx st w := called (λ _, tt) (run (server_SetSyncState ctx (Some st)) (λ _, i) w);
  cp_GetToken i ctx id w := (called (λ a, a) (run (server_GetToken kek ctx id) (λ _, i) w)).1;
  cp_PutToken i ctx id blob w := called (λ a, a) (run (server_PutToken kek ctx id blob) (λ _, i) w)
|}.

(** The sync state of an instance its tenant owns. *)
Definition server_state (w : W) (k : TenantID * string) : option PSyncState :=
  match ownedInstance k.1 k.2 (w_store w) with
  | None => None
  | Some _ => syncStateToProto <$> syncs (w_store w) !! k.2
  end.

Lemma phase_round p name : p ≠ 0 → normalizePhase p = Ok name → phaseFromText name = p.
Proof using Type.
  unfold normalizePhase. intros Hp. rewrite (proj2 (Z.eqb_neq p 0) Hp). unfold SyncPhase_name.
  destruct (Z.eqb_spec p 0) as [->|]; [done|].
  destruct (Z.eqb_spec p 1) as [->|]; [by intros [= <-]|].
  destruct (Z.eqb_spec p 2) as [->|]; [by intros [= <-]|].
  destruct (Z.eqb_spec p 3) as [->|]; [by intros [= <-]|].
  destruct (Z.eqb_spec p 4) as [->|]; [by intros [= <-]|done].
Qed.

Lemma validateSync_stored tc st row :
  validateSync tc (Some st) = Ok row →
  ss_instance row = default (ps_instance st) (uuid_Parse (ps_instance st)) ∧
  (ps_phase st ≠ 0 → stored_as st (syncStateToProto row)).
Proof using Type.
  unfold validateSync, parseInstanceID.
  destruct (String.eqb _ _); [done|]. destruct (uuid_Parse _) as [u|]; [|done]. simpl.
  destruct (_ <? slen _) eqn:?; [done|].
  destruct (normalizePhase _) as [ph|] eqn:Eph; [|done]. simpl.
  destruct (timeFromProto (ps_started st) _) as [s|]; [|done]. simpl.
  destruct (timeFromProto (ps_completed st) _) as [c|] eqn:Ec; [|done]. simpl.
  destruct (ps_docs st <? 0); [done|]. intros [= <-]. split; [done|]. intros Hp. simpl.
  split_and!; [done|by eapply phase_round| | |done].
  - unfold timeFromProto in Ec. destruct (ps_completed st) as [ts|]; [|by injection Ec as <-].
    destruct (ts_CheckValid ts); [|done]. injection Ec as <-. simpl. split; eauto.
  - destruct (Z.ltb_spec maxLastErrorLen (slen (ps_last_error st))) as [|Hle]; [done|].
    symmetry. apply take_str_all. cbn [syncStateToProto ps_last_error ss_last_error].
    unfold slen, maxLastErrorLen in *. lia.
Qed.

(** [server_SetSyncState] on the store. *)
Lemma run_set i ctx tc st (w : W) :
  FromContext ctx = Ok tc →
  run (server_SetSyncState ctx (Some st)) (λ _, i) w =
    match validateSync tc (Some st) with
    | Err e => (Err e, w)
    | Ok row =>
      let '(r, s) := SetSyncState (at_ctx ctx i) (tenantID tc) row (w_store w) in
      (match r with Err e => Err (rpcErr "SetSyncState" e) | Ok st => Ok (syncStateToProto st) end,
       set_store s w)
    end.
Proof using Type.
  intros Hc. unfold server_SetSyncState, callerTenant. rewrite Hc. cbn [check].
  destruct (validateSync _ _) as [row|e]; [|done]. cbn [check run]. unfold on_store.
  change (Store_SetSyncState (at_ctx ctx i)) with (SetSyncState (at_ctx ctx i)).
  by destruct (SetSyncState _ _ _ _) as [[r|e] s].
Qed.

(** The states after [SetSyncState] of the store. *)
Lemma store_set_state ctx tn row s x (w : W) k :
  SetSyncState ctx tn row (w_store w) = (x, s) →
  server_state (set_store s w) k =
    match x with
    | Ok _ => if decide (k = (tn, ss_instance row))
              then Some (syncStateToProto (with_tenant row tn)) else server_state w k
    | Err _ => server_state w k
    end.
Proof using Type.
  unfold SetSyncState, guarded. destruct (ctx_err ctx) as [ce|]; [by intros [= <- <-]|].
  destruct (ownedInstance tn (ss_instance row) _) as [inst|] eqn:Eo; intros [= <- <-]; [|done].
  destruct k as [t id]; unfold server_state; simpl.
  destruct (decide (id = ss_instance row)) as [->|Hid].
  - rewrite lookup_insert_eq. unfold ownedInstance in *. simpl.
    destruct (instances (w_store w) !! ss_instance row) as [i|]; [|done].
    destruct (String.eqb_spec (ci_tenant i) tn) as [Hi|]; [|done].
    destruct (decide _) as [[= ->]|Hne]; [by rewrite (proj2 (String.eqb_eq _ _) Hi)|].
    destruct (String.eqb_spec (ci_tenant i) t); [congruence|done].
  - rewrite lookup_insert_ne, decide_False by congruence. done.
Qed.

Lemma put_state ctx id blob s k :
  hoare (λ w : W, server_state w k = s) (server_PutToken kek ctx id blob) (λ _ w, server_state w k = s).
Proof using Type.
  unfold server_PutToken.
  destruct (callerTenant ctx) as [tc|]; cbn [check]; [|by apply hoare_ret].
  destruct (parseInstanceID _ _) as [u|]; cbn [check]; [|by apply hoare_ret].
  destruct (String.eqb _ _); [by apply hoare_ret|]. destruct (_ <? _); [by apply hoare_ret|].
  eapply (hoare_bind _ (λ _ (w : W), server_state w k = s)).
  { by apply hoare_zoom; [intros []|..]. }
  intros [ct|e]; [|by apply hoare_ret].
  apply (hoare_atomic _ (λ _ w, server_state w k = s)).
  - intros i w Hw. rewrite <- Hw. unfold on_store. simpl. unfold PutToken, guarded.
    destruct (ctx_err _); [done|]. by destruct (ownedInstance _ u _).
  - intros [x|e]; by apply hoare_ret.
Qed.

(** The server over the memory store is the control plane a pass relies on. *)
#[refine] Definition server_laws : @ControlPlaneLaws W serverClient :=
  @Build_ControlPlaneLaws W serverClient (λ s, default s (uuid_Parse s)) server_state _ _ _.
Proof using Type.
  - intros i ctx st w tc Hc Hp. unfold cp_SetSyncState, serverClient, called. cbn [fst snd].
    rewrite (run_set i ctx tc st w Hc).
    destruct (validateSync tc (Some st)) as [row|e] eqn:Ev; [|done].
    destruct (validateSync_stored tc st row Ev) as [Hi Hs]. specialize (Hs Hp).
    destruct (SetSyncState _ _ _ _) as [x s] eqn:Es. cbn [fst snd].
    destruct x as [x|e]; [|done]. intros _. rewrite (store_set_state _ _ _ _ _ _ _ Es), <- Hi.
    rewrite decide_True by done. eexists. split; [done|]. by destruct row.
  - intros i ctx st w tc k Hc Hk. unfold cp_SetSyncState, serverClient, called. cbn [fst snd].
    rewrite (run_set i ctx tc st w Hc).
    destruct (validateSync tc (Some st)) as [row|e] eqn:Ev; [|done].
    destruct (SetSyncState _ _ _ _) as [x s] eqn:Es. cbn [fst snd].
    rewrite (store_set_state _ _ _ _ _ _ _ Es). destruct x; [|done].
    rewrite decide_False; [done|]. by rewrite (proj1 (validateSync_stored tc st row Ev)).
  - intros i ctx id blob w k. by apply put_state.
Defined.
End server.
