(* ===== verification/HubSyncProofs.v ===== *)
(** * One sync pass of the connector hub: proofs

    Whatever the connector does, a pass touches only its own instance's sync
    state and produces only documents of the instance's tenant, and a pass
    that succeeds has recorded it. *)

From stdpp Require Import base gmap strings list.
From Stdlib Require Import Ascii ZArith Lia.
From S2P Require Import Prelude GoStrings Tenancy Store StoreIsolation Crypto CryptoProofs.
From S2P Require Import ControlPlane ControlPlaneProofs Document Kafka KafkaProofs.
From S2P Require Import HubScheduler HubSync HubClient.

Import memStore.
Open Scope nat_scope.

Section pass.
Context {C : Type} {HC : ControlPlaneClient C} {HCL : ControlPlaneLaws C}.
Context {B : Type} {HK : KafkaAPI B} {HKL : KafkaLaws B} {HP : ProtoCodec} {HQ : Quoting}.
Context {HD : Deps} {HH : HubDeps}.
Context (topic : string).
Context (ctx : Ctx) (snap : instanceSnap).
Hypothesis Hvalid : valid_ctx (snap_tenant snap).

Abbreviation W := (C * B)%type.
Abbreviation t := (tenantID (snap_tenant snap)).
Abbreviation id := (pi_id (snap_inst snap)).
Abbreviation key := (tenantID (snap_tenant snap), cp_id (pi_id (snap_inst snap))).
Abbreviation tctx := (WithContext ctx (snap_tenant snap)).

Context (w0 : W).

(** A record of a document of the instance's tenant. *)
Definition own_record (rec : KRec) : Prop :=
  ∃ doc v p o, Marshal doc = Ok v ∧ tenant_id doc = t ∧
    rec = placed (document_record topic v doc) p o.

(** A broker whose refused produces store nothing. *)
Definition definite : Prop :=
  ∀ i r b e, (ProduceSync i r b).1 = Err e → klog (ProduceSync i r b).2 = klog b.

(** Since [w0] only the instance's own state changed, and at least [n] records
    were added, all of the tenant; on a definite broker exactly [n]. *)
Definition scoped (n : nat) (w : W) : Prop :=
  (∀ k, k ≠ key → cp_state w.1 k = cp_state w0.1 k) ∧
  ∃ new, klog w.2 = klog w0.2 ++ new ∧ (n ≤ length new ∧ (definite → n = length new)) ∧
    Forall own_record new.

Lemma scoped_grow n n' w b l :
  scoped n w → klog b = klog w.2 ++ l → Forall own_record l →
  n' ≤ n + length l → (definite → n' = n + length l) → scoped n' (w.1, b).
Proof using Type.
  intros (Hst & new & Hnew & [Hlen Hdef] & Hown) Hl Hrec Hn Hn'. split; [done|].
  exists (new ++ l). simpl. rewrite Hl, Hnew, (assoc_L (++)), length_app.
  split_and!; [done|lia| |by apply Forall_app]. intros H. rewrite Hn', (Hdef H) by done. done.
Qed.

Section run.
Context (d : Z).

(** [r] is a run of the instance from [d] documents that counts its emits. *)
Definition tracked (r : syncRun) (w : W) : Prop :=
  (run_instance r = id ∧ run_docs_base r = d) ∧ ∃ n, run_emitted r = wrap64 (Z.of_nat n) ∧ scoped n w.

Lemma tctx_tenant : FromContext tctx = Ok (snap_tenant snap).
Proof using Hvalid. by apply FromContext_WithContext. Qed.

Lemma tctx_again : WithContext tctx (snap_tenant snap) = tctx.
Proof using Type. done. Qed.

(** [writeState] records the state when it answers nil. *)
Lemma hoare_writeState r phase :
  phase ≠ 0%Z →
  hoare (tracked r) (writeState tctx r phase)
    (λ e w, tracked r w ∧
       (e = None → ∃ st, cp_state w.1 key = Some st ∧ stored_as (run_state r phase) st)).
Proof using Hvalid HCL.
  intros Hphase. eapply (hoare_atomic _ (λ x w, tracked r w ∧
    (x = Ok tt → ∃ st, cp_state w.1 key = Some st ∧ stored_as (run_state r phase) st))).
  - intros i w ((Hid & Hd) & n & Hn & Hst & new & Hnew).
    pose proof (cp_set_ok i tctx (run_state r phase) w.1 _ tctx_tenant Hphase) as Hok.
    pose proof (λ k, cp_set_other i tctx (run_state r phase) w.1 _ k tctx_tenant) as Hother.
    destruct (cp_SetSyncState i tctx (run_state r phase) w.1) as [x c]. simpl in *. rewrite Hid in *.
    split; [|done]. split; [done|]. exists n. split; [done|]. split; [|by exists new].
    intros k Hk. simpl. rewrite <- Hst by done. by apply Hother.
  - intros [[]|st]; apply hoare_ret; intros w [Hw Hs]; (split; [done|]); naive_solver.
Qed.

Lemma tracked_input {A X} (f : Inp → X) (k : X → prog W A) r Q :
  (∀ x, hoare (tracked r) (k x) Q) → hoare (tracked r) (Atomic X (input f) k) Q.
Proof using Type. intros Hk. apply (hoare_atomic _ (λ _, tracked r)); auto. Qed.

(** The parts of a run the bookkeeping does not change. *)
Lemma tracked_same r r' w :
  run_instance r' = run_instance r → run_docs_base r' = run_docs_base r →
  run_emitted r' = run_emitted r → tracked r w → tracked r' w.
Proof using Type. unfold tracked. intros -> -> ->. done. Qed.

Lemma hoare_emit doc r :
  hoare (tracked r) (zoom snd (λ b w, (w.1, b)) (emit_doc topic tctx (snap_tenant snap)
      (pi_connector (snap_inst snap)) doc))
    (λ x w, tracked (match x with Ok _ => count_emit r | Err _ => r end) w).
Proof using Hvalid HKL.
  apply hoare_zoom; [by intros []|by intros ? []|by intros ?? []|].
  intros ins w Ht. unfold emit_doc. destruct doc as [doc|]; [|by destruct w].
  destruct (String.eqb_spec (tenant_id doc) t) as [Hten|]; cbn [negb]; [|by destruct w].
  cbn [run input]. set (doc' := set_connector_ts _ _ doc).
  assert (Hten' : tenant_id doc' = t) by done. clearbody doc'.
  unfold ProduceDocument. destruct (String.eqb topic ""); [by destruct w|].
  rewrite tctx_again, tctx_tenant, Hten', String.eqb_refl. cbn [negb].
  destruct (Marshal doc') as [v|e] eqn:Em; [|by destruct w]. cbn [bind run].
  set (rec := document_record topic v doc').
  pose proof (produce_log (ins 1) rec w.2) as Hlog. pose proof (produce_ok (ins 1) rec w.2) as Hok.
  destruct (ProduceSync (ins 1) rec w.2) as [x b] eqn:Ep. simpl in Hlog, Hok.
  destruct Ht as (Hid & n & Hn & Hsc).
  assert (Hadd : ∀ p o, Forall own_record [placed rec p o])
    by (intros p o; apply Forall_singleton; by exists doc', v, p, o).
  destruct x as [[]|e]; (split; [done|]).
  - destruct (Hok eq_refl) as (p & o & Heq). exists (S n). split.
    { simpl. rewrite Hn, wrap64_wrap. f_equal. lia. }
    apply (scoped_grow n _ w b _ Hsc Heq (Hadd p o)); simpl; lia.
  - exists n. split; [done|]. destruct Hlog as [Heq|(p & o & Heq & _)].
    + apply (scoped_grow n _ w b [] Hsc); [by rewrite app_nil_r|done|simpl; lia..].
    + apply (scoped_grow n _ w b _ Hsc Heq (Hadd p o)); simpl; [lia|].
      intros Hdef. pose proof (Hdef (ins 1) rec w.2 e) as Hsame. rewrite Ep in Hsame. simpl in Hsame.
      rewrite (Hsame eq_refl) in Heq. apply (f_equal length) in Heq. rewrite length_app in Heq.
      simpl in Heq. lia.
Qed.

Lemma hoare_drive cr r :
  hoare (tracked r) (drive topic tctx (snap_tenant snap) (pi_connector (snap_inst snap)) cr r)
    (λ x w, match x with Ok x => tracked x.2 w | Err e => e ≠ PassReturns None ∧ ∃ n, scoped n w end).
Proof using Hvalid HCL HKL.
  revert r. induction cr as [cur err| | |doc k IH|cur k IH]; intros r; cbn [drive].
  - by apply hoare_ret.
  - apply hoare_ret. intros w (_ & n & _ & Hsc). eauto.
  - apply hoare_ret. intros w (_ & n & _ & Hsc). eauto.
  - eapply hoare_bind; [apply hoare_emit|]. intros x. apply IH.
  - rewrite tctx_again. eapply hoare_bind.
    + eapply hoare_weaken; [|by apply hoare_writeState]. intros w. by apply tracked_same.
    + intros e. eapply hoare_weaken; [|apply IH]. by intros w [].
Qed.

(** A pass that answered nil stored a completed, error-free incremental state
    that counts the documents. *)
Definition recorded (w : W) : Prop :=
  ∃ n st, scoped n w ∧ cp_state w.1 key = Some st ∧
    ps_phase st = phase_INCREMENTAL ∧ ps_last_error st = "" ∧ is_Some (ps_completed st) ∧
    ps_docs st = wrap64 (d + Z.of_nat n).

Definition pass_post (e : passEnd) (w : W) : Prop :=
  (∃ n, scoped n w) ∧ (e = PassReturns None → recorded w).

Lemma tracked_scoped r w : tracked r w → ∃ n, scoped n w.
Proof using Type. intros (_ & n & _ & Hsc). eauto. Qed.

(** An end that is not nil. *)
Lemma hoare_fails r e : e ≠ PassReturns None → hoare (tracked r) (Ret e) pass_post.
Proof using Type. intros He. apply hoare_ret. intros w Hw. split; [by eapply tracked_scoped|done]. Qed.

Lemma hoare_recordFailure r cause e :
  hoare (tracked r) (bind (recordFailure tctx r cause) (λ _, Ret (PassReturns (Some e)))) pass_post.
Proof using Hvalid HCL.
  unfold recordFailure. eapply (hoare_bind _ (λ _, tracked r)).
  - eapply hoare_bind.
    + eapply hoare_weaken; [|by apply hoare_writeState]. intros w. by apply tracked_same.
    + intros x. apply hoare_ret. intros w [Hw _]. by eapply tracked_same, Hw.
  - intros []. by apply hoare_fails.
Qed.

Lemma hoare_finish x :
  hoare (λ w, match x with Ok x => tracked x.2 w | Err e => e ≠ PassReturns None ∧ ∃ n, scoped n w end)
    (finish tctx x) pass_post.
Proof using Hvalid HCL.
  destruct x as [[[cur [err|]] r]|e]; cbn [finish]; [apply hoare_recordFailure| |apply hoare_ret; by intros w []].
  apply tracked_input. intros now. eapply hoare_bind.
  - eapply hoare_weaken; [|by apply hoare_writeState]. intros w. by apply tracked_same.
  - intros e. apply hoare_ret. intros w [Hw Hs]. split; [by eapply tracked_scoped|].
    intros [= ->]. destruct Hw as ((_ & Hd) & n & Hn & Hsc). simpl in Hd, Hn.
    destruct (Hs eq_refl) as (st & Hst & _ & Hp & Hc & Hl & Hdocs). simpl in Hp, Hc, Hl, Hdocs.
    exists n, st. split_and!; [done..|by apply Hc| ]. by rewrite Hdocs, Hd, Hn, wrap64_wrap_r.
Qed.
End run.

Context (registry : string → option Connector) (oauth_on : bool) (base : string).

(** Steps of a program that keep an invariant. *)
Lemma keep_atomic {A X} (P : W → Prop) f (k : X → prog W A) :
  (∀ i w, P w → P (f i w).2) → (∀ x, hoare P (k x) (λ _, P)) → hoare P (Atomic X f k) (λ _, P).
Proof using Type. intros Hf Hk. by apply (hoare_atomic _ (λ _, P)). Qed.

Lemma keep_ret {A} (P : W → Prop) (a : A) : hoare P (Ret a) (λ _, P).
Proof using Type. by apply hoare_ret. Qed.

Lemma hoare_fetchToken d r :
  hoare (tracked d r) (fetchToken oauth_on tctx id) (λ _, tracked d r).
Proof using HCL.
  unfold fetchToken.
  repeat first [apply keep_ret | apply keep_atomic; [by intros i w|intros ?] | case_match].
  apply keep_atomic; [|intros ?; case_match; apply keep_ret].
  intros i w (Hr & n & Hn & Hst & Hnew). split; [done|]. exists n. split; [done|].
  split; [|by destruct (cp_PutToken _ _ _ _ _)]. intros k Hk. rewrite <- Hst by done.
  match goal with |- context [cp_PutToken i ?c ?j ?b w.1] =>
    rewrite <- (cp_put_state i c j b w.1) end.
  by destruct (cp_PutToken _ _ _ _ _).
Qed.

Lemma hoare_buildConfig d r :
  hoare (tracked d r) (buildConfig oauth_on base tctx snap) (λ _, tracked d r).
Proof using HCL.
  unfold buildConfig. eapply hoare_bind; [apply hoare_fetchToken|].
  intros x. repeat case_match; apply keep_ret.
Qed.

(** [writeState] of a run that differs in its bookkeeping, and what follows it
    when it answers nil. *)
Lemma hoare_begin d r r' phase k :
  phase ≠ 0%Z →
  run_instance r' = run_instance r → run_docs_base r' = run_docs_base r →
  run_emitted r' = run_emitted r → hoare (tracked d r') k (pass_post d) →
  hoare (tracked d r) (bind (writeState tctx r' phase) (λ e,
    match e with Some e => Ret (PassReturns (Some e)) | None => k end)) (pass_post d).
Proof using Hvalid HCL.
  intros Hphase H1 H2 H3 Hk. eapply hoare_bind.
  - eapply hoare_weaken; [|by apply hoare_writeState]. intros w. by apply tracked_same.
  - intros [e|]; (eapply hoare_weaken; [intros w [Hw _]; exact Hw|]); [by apply hoare_fails|done].
Qed.

Lemma hoare_full d r conn cfg :
  hoare (tracked d r) (bind (drive topic tctx (snap_tenant snap) (pi_connector (snap_inst snap))
    (FullSync conn cfg) r) (finish tctx)) (pass_post d).
Proof using Hvalid HCL HKL. eapply hoare_bind; [apply hoare_drive|]. apply hoare_finish. Qed.

Lemma hoare_sync_from st r :
  run_instance r = id → run_docs_base r = ps_docs st → run_emitted r = 0%Z →
  hoare (tracked (ps_docs st) r) (sync_from registry oauth_on base topic tctx snap st)
    (pass_post (ps_docs st)).
Proof using Hvalid HCL HKL.
  intros H1 H2 H3. unfold sync_from.
  destruct (registry _) as [conn|].
  2: { eapply hoare_weaken; [|apply hoare_recordFailure]. intros w. by apply tracked_same. }
  apply tracked_input. intros now. apply hoare_begin; [by case_match || done|done..|].
  eapply hoare_bind; [apply hoare_buildConfig|]. intros [cfg|[|msg]]; cycle 1.
  - by apply hoare_fails.
  - apply hoare_recordFailure.
  - case_match; [apply hoare_full|]. eapply hoare_bind; [apply hoare_drive|].
    intros [[[cur [[[] msg]|]] r']|e]; cbn [snd]; 
      [|exact (hoare_finish _ (Ok (_, _, _)))|exact (hoare_finish _ (Ok (_, _, _)))|exact (hoare_finish _ (Err _))].
    apply tracked_input. intros now'. apply hoare_begin; [by case_match || done|done..|]. apply hoare_full.
Qed.

Lemma tracked_start st : ∃ r, run_instance r = id ∧ run_docs_base r = ps_docs st ∧
  run_emitted r = 0%Z ∧ tracked (ps_docs st) r w0.
Proof using Type.
  exists (mkRun id "" None None "" (ps_docs st) 0). split_and!; [done..|]. split; [done|].
  exists 0. split; [done|]. split; [done|]. exists []. by rewrite app_nil_r.
Qed.

(** C11. Whatever the connector does, a sync pass of the hub writes no sync
    state but its own instance's, and every record it adds to the broker is a
    document of the instance's tenant on the configured topic; when it answers
    nil, the instance's stored state is INCREMENTAL, completed, free of error,
    and its document count is the count read at the start plus the documents
    the broker acknowledged, which on a broker whose refusals store nothing is
    exactly the records added. *)
Theorem sync_pass ins e w :
  run (syncOnce registry oauth_on base topic ctx snap) ins w0 = (e, w) →
  (∀ k, k ≠ key → cp_state w.1 k = cp_state w0.1 k) ∧
  ∃ new, klog w.2 = klog w0.2 ++ new ∧ Forall own_record new ∧
  (e = PassReturns None → ∃ st0 n st,
     cp_GetSyncState (ins 0) tctx id w0.1 = Ok st0 ∧ (n ≤ length new ∧ (definite → n = length new)) ∧
     cp_state w.1 key = Some st ∧ ps_phase st = phase_INCREMENTAL ∧
     ps_last_error st = "" ∧ is_Some (ps_completed st) ∧ ps_docs st = wrap64 (ps_docs st0 + Z.of_nat n)).
Proof using Hvalid HCL HKL.
  unfold syncOnce. cbn [run read_cp fst]. destruct (cp_GetSyncState _ _ _ _) as [st|err] eqn:Eg.
  - destruct (tracked_start st) as (r & H1 & H2 & H3 & Ht).
    pose proof (hoare_sync_from st r H1 H2 H3 (λ n, ins (S n)) w0 Ht) as Hpost.
    intros Hrun. rewrite Hrun in Hpost. destruct Hpost as [(n0 & Hst & new & Hnew & _ & Hown) Hrec].
    split; [done|]. exists new. split_and!; [done..|]. intros ->.
    destruct (Hrec eq_refl) as (n & st' & (_ & new' & Hnew' & Hlen & _) & ?).
    rewrite Hnew in Hnew'. apply app_inv_head in Hnew' as <-. exists st, n, st'. done.
  - intros [= <- <-]. split; [done|]. exists []. by rewrite app_nil_r.
Qed.
End pass.

(** ** A pass of alice's instance against the control plane's own server *)
#[local] Existing Instance toy_GCM.
#[local] Instance id_codec : ProtoCodec := {| Marshal d := Ok (doc_id d); Unmarshal _ := Err "" |}.
#[local] Instance raw_quoting : Quoting := {| Quote s := s |}.
#[local] Instance hub_broker : KafkaAPI memBroker := memKafka [TopicDocsRaw].
#[local] Instance hub_broker_laws : KafkaLaws memBroker := memKafka_laws [TopicDocsRaw].

Abbreviation demo_W := (World memStore memDEKStore unit unit unit).
#[local] Instance demo_client : ControlPlaneClient demo_W := serverClient demo_kek.
#[local] Instance demo_client_laws : ControlPlaneLaws demo_W := server_laws demo_kek.

#[local] Instance demo_hub_deps : HubDeps := {|
  json_to_token _ := Err "no token";
  token_to_json _ := Ok "";
  json_to_map s := if String.eqb s "null" then Ok None else Ok (Some ∅);
  map_to_json m := Ok (String.concat "," (map_to_list m).*1);
  string_to_json s := s;
  oauth_refresh _ _ t := Ok t
|}.

Definition mail (tenant id : string) : Document :=
  mkDoc tenant id "" id EMAIL "" "" [] ∅ [] None None None "" None None.

(** It emits a mail, checkpoints, and tries to emit into another tenant. *)
Definition demo_connector : Connector :=
  mkConnector
    (λ _, ConnEmit (Some (mail "alice" "m1")) (λ _, ConnCheckpoint "page2" (λ _,
          ConnEmit (Some (mail "bob" "m2")) (λ _, ConnRet "h42" None))))
    (λ _ cur, ConnRet cur None).

Definition demo_registry (id : string) : option Connector :=
  if String.eqb id "gmail" then Some demo_connector else None.

Definition demo_snap : instanceSnap :=
  mkSnap (mkContext "alice" "alice") (mkPInstance "i1" "gmail" "" "{}" 1 (ts_New 0) (ts_New 0)).

(** alice's instance holds no token. *)
Definition demo_hub : demo_W * memBroker :=
  (set_store (DeleteToken demo_ctx "alice" "i1" demo_store).2 demo_process, mkMemBroker [] ∅ ∅).

Definition demo_pass : passEnd * (demo_W * memBroker) :=
  run (syncOnce demo_registry false "http://hub/" TopicDocsRaw (mkCtx None None None ∅) demo_snap)
    demo_rand demo_hub.

Example demo_pass_result :
  demo_pass.1 = PassReturns None ∧ length (klog demo_pass.2.2) = 1 ∧
  (ps_cursor <$> cp_state demo_pass.2.1 ("alice", "i1")) = Some "h42".
Proof. split_and!; vm_compute; reflexivity. Qed.

Lemma sync_pass_witness :
  demo_pass.1 = PassReturns None ∧
  (∀ k, k ≠ ("alice", "i1") → cp_state demo_pass.2.1 k = cp_state demo_hub.1 k) ∧
  ∃ new st0 n st, klog demo_pass.2.2 = klog demo_hub.2 ++ new ∧ n ≤ length new ∧
    cp_state demo_pass.2.1 ("alice", "i1") = Some st ∧ ps_phase st = phase_INCREMENTAL ∧
    ps_docs st = wrap64 (ps_docs st0 + Z.of_nat n).
Proof.
  assert (He : demo_pass.1 = PassReturns None) by (vm_compute; reflexivity).
  pose proof (sync_pass TopicDocsRaw (mkCtx None None None ∅) demo_snap eq_refl demo_hub
    demo_registry false "http://hub/" demo_rand demo_pass.1 demo_pass.2 (surjective_pairing _)) as H.
  change (tenantID (snap_tenant demo_snap), cp_id (pi_id (snap_inst demo_snap))) with ("alice", "i1") in H.
  revert He H. generalize demo_pass demo_hub. intros out w He (Hst & new & Hnew & _ & Hok).
  destruct (Hok He) as (st0 & n & st & _ & [Hn _] & Hs & Hp & _ & _ & Hd).
  split; [exact He|]. split; [exact Hst|]. by exists new, st0, n, st.
Defined.

Section null_config.
Context {C : Type} {HC : ControlPlaneClient C} {B : Type} {HK : KafkaAPI B} {HP : ProtoCodec}.
Context {HQ : Quoting} {HD : Deps} {HH : HubDeps}.
Context (registry : string → option Connector) (oauth_on : bool) (base topic : string).

(** A configuration that is the JSON text null passes the control plane's
    checks, but the hub decodes it into a nil map: a pass of such an instance
    that can read and mark its sync state and holds no token panics, before
    the connector runs, and leaves the state it marked as started. *)
Theorem null_config_panics ctx snap conn st w ins :
  let tctx := WithContext ctx (snap_tenant snap) in
  json_to_map "null" = Ok None →
  pi_config (snap_inst snap) = "null" → registry (pi_connector (snap_inst snap)) = Some conn →
  (∀ c, cp_GetSyncState (ins 0) tctx (pi_id (snap_inst snap)) c = Ok st) →
  (∀ s c, (cp_SetSyncState (ins 2) tctx s c).1 = Ok tt) →
  (∀ c, ∃ msg, cp_GetToken (ins 3) tctx (pi_id (snap_inst snap)) c = Err (mkCallErr true msg)) →
  validateCreate "gmail" "" "null" = Ok "null" ∧
  ∃ s, run (syncOnce registry oauth_on base topic ctx snap) ins w =
    (PassPanics, ((cp_SetSyncState (ins 2) tctx s w.1).2, w.2)).
Proof using Type.
  intros tctx Hnull Hcfg Hreg Hget Hset Htok. split; [vm_compute; reflexivity|].
  unfold syncOnce. cbn [run read_cp]. rewrite Hget. unfold sync_from. rewrite Hreg.
  cbn [run input]. unfold writeState. cbn [bind run].
  set (s := run_state _ _). exists s. specialize (Hset s w.1). fold tctx.
  destruct (cp_SetSyncState (ins 2) tctx s w.1) as [x c]. simpl in Hset. subst x.
  cbn [bind run]. unfold buildConfig, fetchToken. cbn [bind run read_cp fst].
  destruct (Htok c) as [msg Hm]. fold tctx. rewrite Hm. cbn [is_not_found bind run].
  unfold mergeWebhookURL. rewrite Hcfg. cbn [String.eqb]. rewrite Hnull. done.
Qed.
End null_config.

Definition null_snap : instanceSnap :=
  mkSnap (mkContext "alice" "alice") (mkPInstance "i1" "gmail" "" "null" 1 (ts_New 0) (ts_New 0)).

(** A control plane that accepts every state and holds no token. *)
Definition bare_client : ControlPlaneClient (list PSyncState) := {|
  cp_GetSyncState _ _ id _ := Ok (mkPSyncState id "" 1 None None "" 0);
  cp_SetSyncState _ _ st l := (Ok tt, st :: l);
  cp_GetToken _ _ _ _ := Err (mkCallErr true "not found");
  cp_PutToken _ _ _ _ l := (Ok tt, l)
|}.

Lemma null_config_panics_witness :
  ∃ w, run (syncOnce (ControlPlaneClient0 := bare_client) demo_registry false "http://hub" TopicDocsRaw
    (mkCtx None None None ∅) null_snap) demo_rand ([], mkMemBroker [] ∅ ∅) = (PassPanics, w).
Proof.
  destruct (null_config_panics (HC := bare_client) demo_registry false "http://hub" TopicDocsRaw
    (mkCtx None None None ∅) null_snap demo_connector (mkPSyncState "i1" "" 1 None None "" 0)
    ([], mkMemBroker [] ∅ ∅) demo_rand) as [_ [s Hs]]; try reflexivity.
  - intros c. by exists "not found".
  - eexists. exact Hs.
Defined.
