(* ===== verification/GoText.v ===== *)
(** * Text functions of the Go standard library

    UTF-8 decoding as [range] over a string, [[]rune] and [unicode/utf8] do it
    (an ill-formed byte is U+FFFD of width one), and what the query service
    uses of the package [strings] beyond GoStrings: [Fields], [FieldsFunc],
    [Index], [Contains], [ContainsAny], [ReplaceAll], [Trim], [Join]. *)

From stdpp Require Import base sets strings list pretty.
From Stdlib Require Import Ascii ZArith Lia.
From S2P Require Import Prelude GoStrings.

Open Scope Z_scope.

(** [strings.ToLower] and [strings.ToUpper], which consult the Unicode tables. *)
Class Casing := { ToLower : string → string; ToUpper : string → string }.

(** [strings.EqualFold], under Unicode simple folding. *)
Class Folding := { fold_eq : string → string → bool }.

(** [unicode.IsLetter], [unicode.IsNumber] and [unicode.IsMark]. *)
Class Letters := { IsLetter : Z → bool; IsNumber : Z → bool; IsMark : Z → bool }.

(** ** Runes *)
Definition zbyte (a : ascii) : Z := Z.of_N (byte_val a).

Definition RuneError : Z := 0xFFFD.

Definition cont (lo hi : Z) (a : ascii) : bool := (lo <=? zbyte a) && (zbyte a <=? hi).

(** [utf8.DecodeRune] of a non-empty slice: the rune and its width. *)
Definition DecodeRune (l : bytes) : Z * nat :=
  match l with
  | [] => (RuneError, 0%nat)
  | a :: l1 =>
    let b := zbyte a in
    if b <? 0x80 then (b, 1%nat)
    else if (0xC2 <=? b) && (b <=? 0xDF) then
      match l1 with
      | c1 :: _ => if cont 0x80 0xBF c1 then ((b - 0xC0) * 64 + (zbyte c1 - 0x80), 2%nat) else (RuneError, 1%nat)
      | _ => (RuneError, 1%nat)
      end
    else if (0xE0 <=? b) && (b <=? 0xEF) then
      let lo := if b =? 0xE0 then 0xA0 else 0x80 in
      let hi := if b =? 0xED then 0x9F else 0xBF in
      match l1 with
      | c1 :: c2 :: _ =>
        if cont lo hi c1 && cont 0x80 0xBF c2
        then ((b - 0xE0) * 4096 + (zbyte c1 - 0x80) * 64 + (zbyte c2 - 0x80), 3%nat) else (RuneError, 1%nat)
      | _ => (RuneError, 1%nat)
      end
    else if (0xF0 <=? b) && (b <=? 0xF4) then
      let lo := if b =? 0xF0 then 0x90 else 0x80 in
      let hi := if b =? 0xF4 then 0x8F else 0xBF in
      match l1 with
      | c1 :: c2 :: c3 :: _ =>
        if cont lo hi c1 && cont 0x80 0xBF c2 && cont 0x80 0xBF c3
        then ((b - 0xF0) * 262144 + (zbyte c1 - 0x80) * 4096 + (zbyte c2 - 0x80) * 64 + (zbyte c3 - 0x80), 4%nat)
        else (RuneError, 1%nat)
      | _ => (RuneError, 1%nat)
      end
    else (RuneError, 1%nat)
  end.

(** The runes of a string, each with the bytes it was decoded from; [skip]
    counts the bytes that belong to the previous one. *)
Fixpoint runes_from (skip : nat) (l : bytes) : list (Z * bytes) :=
  match l with
  | [] => []
  | _ :: l' =>
    match skip with
    | S k => runes_from k l'
    | O => let '(r, n) := DecodeRune l in (r, take n l) :: runes_from (n - 1) l'
    end
  end.

Definition runes (s : string) : list (Z * bytes) := runes_from 0 (to_bytes s).

(** [string(r)] for the value of a decoded rune. *)
Definition EncodeRune (r : Z) : bytes :=
  let chr z := ascii_of_N (Z.to_N z) in
  if r <? 0x80 then [chr r]
  else if r <? 0x800 then [chr (0xC0 + r / 64); chr (0x80 + r mod 64)]
  else if r <? 0x10000 then [chr (0xE0 + r / 4096); chr (0x80 + (r / 64) mod 64); chr (0x80 + r mod 64)]
  else [chr (0xF0 + r / 262144); chr (0x80 + (r / 4096) mod 64); chr (0x80 + (r / 64) mod 64); chr (0x80 + r mod 64)].

(** [unicode.IsSpace] *)
Definition IsSpace (r : Z) : bool :=
  ((9 <=? r) && (r <=? 13)) || (r =? 32) || (r =? 0x85) || (r =? 0xA0) || (r =? 0x1680)
  || ((0x2000 <=? r) && (r <=? 0x200a)) || (r =? 0x2028) || (r =? 0x2029) || (r =? 0x202f)
  || (r =? 0x205f) || (r =? 0x3000).

(** ** Splitting *)
Fixpoint fields_loop (sep : Z → bool) (cur : bytes) (rs : list (Z * bytes)) : list bytes :=
  match rs with
  | [] => match cur with [] => [] | _ => [cur] end
  | (r, b) :: rs' =>
    if sep r then match cur with [] => fields_loop sep [] rs' | _ => cur :: fields_loop sep [] rs' end
    else fields_loop sep (cur ++ b) rs'
  end.

Definition FieldsFunc (s : string) (sep : Z → bool) : list string := of_bytes <$> fields_loop sep [] (runes s).

Definition Fields (s : string) : list string := FieldsFunc s IsSpace.

(** [strings.Join] *)
Definition Join (l : list string) (sep : string) : string := String.concat sep l.

(** ** Searching *)
Fixpoint is_prefix (p l : bytes) : bool :=
  match p, l with
  | [], _ => true
  | a :: p', b :: l' => Ascii.eqb a b && is_prefix p' l'
  | _ :: _, [] => false
  end.

(** [strings.Index]; [None] is -1. *)
Fixpoint index_bytes (sub l : bytes) : option nat :=
  if is_prefix sub l then Some 0%nat
  else match l with [] => None | _ :: l' => S <$> index_bytes sub l' end.

Definition Index (s sub : string) : option nat := index_bytes (to_bytes sub) (to_bytes s).

Definition Contains (s sub : string) : bool := bool_decide (is_Some (Index s sub)).

(** [strings.ContainsAny] of a set of ASCII characters. *)
Definition ContainsAny (s chars : string) : bool :=
  existsb (λ a, existsb (Ascii.eqb a) (to_bytes chars)) (to_bytes s).

(** [strings.IndexByte] *)
Definition IndexByte (s : string) (c : ascii) : option nat := index_bytes [c] (to_bytes s).

(** [strings.ReplaceAll] of one byte. *)
Definition replace_byte (c : ascii) (by_ : bytes) (l : bytes) : bytes :=
  l ≫= λ a, if Ascii.eqb a c then by_ else [a].

Definition ReplaceByte (s : string) (c : ascii) (by_ : string) : string :=
  of_bytes (replace_byte c (to_bytes by_) (to_bytes s)).

(** [strings.ReplaceAll] of a non-empty text: [skip] bytes belong to the last
    match. *)
Fixpoint replace_from (old by_ : bytes) (skip : nat) (l : bytes) : bytes :=
  match l with
  | [] => []
  | a :: l' =>
    match skip with
    | S k => replace_from old by_ k l'
    | O => if is_prefix old l then by_ ++ replace_from old by_ (length old - 1) l'
           else a :: replace_from old by_ 0 l'
    end
  end.

Definition ReplaceAll (s old by_ : string) : string :=
  of_bytes (replace_from (to_bytes old) (to_bytes by_) 0 (to_bytes s)).

(** [strings.Trim] with a cutset of runes. *)
Fixpoint drop_runes (cut : Z → bool) (rs : list (Z * bytes)) : list (Z * bytes) :=
  match rs with (r, b) :: rs' => if cut r then drop_runes cut rs' else rs | [] => [] end.

Definition TrimFunc (s : string) (cut : Z → bool) : string :=
  of_bytes (concat ((rev (drop_runes cut (rev (drop_runes cut (runes s))))).*2)).

Definition Trim (s cutset : string) : string :=
  TrimFunc s (λ r, existsb (λ p, (p.1 =? r)) (runes cutset)).

(** [strings.CutSuffix] and [strings.CutPrefix] *)
Definition CutSuffix (s suffix : string) : option string :=
  let n := (String.length s - String.length suffix)%nat in
  if String.eqb (drop_str n s) suffix then Some (take_str n s) else None.

Definition CutPrefix (s prefix : string) : option string :=
  if HasPrefix s prefix then Some (drop_str (String.length prefix) s) else None.

(** ** Lemmas *)
Lemma byte_val_lt a : (byte_val a < 256)%N.
Proof. destruct a as [[] [] [] [] [] [] [] []]; vm_compute; reflexivity. Qed.

Lemma DecodeRune_width a l : (1 <= (DecodeRune (a :: l)).2 <= length (a :: l))%nat.
Proof.
  cbn [DecodeRune length]. repeat case_match; cbn [snd length]; lia.
Qed.

(** A rune below U+0080 is the single byte of its value. *)
Lemma DecodeRune_ascii a l :
  if zbyte a <? 0x80 then DecodeRune (a :: l) = (zbyte a, 1%nat) else 0x80 <= (DecodeRune (a :: l)).1.
Proof.
  destruct (zbyte a <? 0x80) eqn:E; cbn [DecodeRune]; rewrite E; [done|].
  repeat case_match; cbn [fst]; unfold RuneError, cont in *; lia.
Qed.

Lemma runes_from_concat k l : concat ((runes_from k l).*2) = drop k l.
Proof.
  revert k. induction l as [|a l IH]; intros [|k]; [done..| |by apply IH].
  cbn [runes_from]. pose proof (DecodeRune_width a l) as Hw.
  destruct (DecodeRune (a :: l)) as [r n]. cbn [snd] in Hw. cbn [fmap list_fmap snd concat].
  rewrite IH, drop_0. destruct n as [|n]; [lia|]. cbn [Nat.sub take]. rewrite Nat.sub_0_r.
  cbn [app]. by rewrite take_drop.
Qed.

Lemma runes_concat s : concat ((runes s).*2) = to_bytes s.
Proof. apply runes_from_concat. Qed.

(** A test of runes that holds of none above U+007F is a test of bytes. *)
Lemma runes_ascii_test (f : Z → bool) k l :
  (∀ r, 0x80 <= r → f r = false) → (k <= length l)%nat → (∀ a, a ∈ take k l → 0x80 <= zbyte a) →
  existsb (λ p, f p.1) (runes_from k l) = existsb (λ a, f (zbyte a)) l.
Proof.
  intros Hf. revert k. induction l as [|a l IH]; intros k Hk Ht; [by destruct k|].
  destruct k as [|k].
  - cbn [runes_from]. pose proof (DecodeRune_width a l) as Hw. pose proof (DecodeRune_ascii a l) as Ha.
    assert (Hc : ∀ c, c ∈ take ((DecodeRune (a :: l)).2 - 1) l → 0x80 <= zbyte c).
    { clear. cbn [DecodeRune]. repeat case_match; cbn [snd Nat.sub take]; subst; intros c Hc;
        repeat (apply elem_of_cons in Hc as [->|Hc]); try (by apply not_elem_of_nil in Hc); unfold cont in *; lia. }
    destruct (DecodeRune (a :: l)) as [r n]. cbn [fst snd] in *. cbn [existsb].
    rewrite IH by (cbn [length] in *; lia || done). f_equal.
    destruct (zbyte a <? 0x80) eqn:E; [by injection Ha as -> ->|].
    rewrite !Hf; [done|lia|done].
  - cbn [runes_from existsb]. rewrite IH; [|cbn [length] in Hk; lia|intros c Hc; apply Ht; by apply elem_of_cons; right].
    rewrite Hf; [done|]. apply Ht. by apply elem_of_cons; left.
Qed.

Lemma fields_loop_bytes sep cur rs f a :
  f ∈ fields_loop sep cur rs → a ∈ f → a ∈ cur ++ concat (rs.*2).
Proof.
  revert cur. induction rs as [|[r b] rs IH]; intros cur; cbn [fields_loop fmap list_fmap snd concat].
  - destruct cur as [|c cur]; [by intros []%not_elem_of_nil|].
    by intros ->%list_elem_of_singleton; rewrite app_nil_r.
  - destruct (sep r).
    + destruct cur as [|c cur]; intros Hf Ha; rewrite !elem_of_app.
      * specialize (IH [] Hf Ha). auto.
      * apply elem_of_cons in Hf as [->|Hf]; [by left|]. specialize (IH [] Hf Ha). auto.
    + intros Hf Ha. specialize (IH _ Hf Ha). by rewrite app_assoc.
Qed.

Lemma Fields_bytes s w a : w ∈ Fields s → a ∈ to_bytes w → a ∈ to_bytes s.
Proof.
  unfold Fields, FieldsFunc. intros (f & -> & Hf)%list_elem_of_fmap. rewrite to_of_bytes. intros Ha.
  rewrite <-(runes_concat s). exact (fields_loop_bytes _ [] _ _ _ Hf Ha).
Qed.

(** A printed integer consists of digits and a minus sign. *)
Definition num_byte (a : ascii) : bool := byte_in 48 57 a || Ascii.eqb a "-".

Lemma pretty_N_go_bytes x s :
  str_forallb num_byte s = true → str_forallb num_byte (pretty_N_go x s) = true.
Proof.
  revert s. induction (N.lt_wf_0 x) as [x _ IH]; intros s Hs.
  destruct (decide (0 < x)%N) as [Hx|Hx].
  - rewrite pretty_N_go_step by done. apply IH; [by apply N.div_lt|].
    unfold str_forallb in *. cbn. rewrite Hs, andb_true_r. unfold pretty_N_char. by repeat case_match.
  - replace x with 0%N by lia. by rewrite pretty_N_go_0.
Qed.

Lemma pretty_N_bytes (n : N) : str_forallb num_byte (pretty n) = true.
Proof.
  destruct n as [|p]; [done|]. change (pretty (N.pos p)) with (pretty_N_go (N.pos p) ""). by apply pretty_N_go_bytes.
Qed.

Lemma pretty_Z_bytes (z : Z) : str_forallb num_byte (pretty z) = true.
Proof.
  destruct z as [|p|p]; [done|exact (pretty_N_bytes (N.pos p))|].
  change (pretty (Z.neg p)) with ("-" +:+ pretty (N.pos p)). by rewrite str_forallb_app, pretty_N_bytes.
Qed.

Lemma index_bytes_skip (c : ascii) (sub l m : bytes) :
  c ∉ l → index_bytes (c :: sub) (l ++ m) = (λ i, (length l + i)%nat) <$> index_bytes (c :: sub) m.
Proof.
  intros Hc. induction l as [|a l IH]; [cbn; by destruct (index_bytes _ m)|]. rewrite not_elem_of_cons in Hc.
  cbn [app]. cbn [index_bytes is_prefix]. destruct (Ascii.eqb_spec c a); [naive_solver|]. cbn [andb].
  rewrite IH by naive_solver. by destruct (index_bytes _ m).
Qed.

Lemma Index_first (c : ascii) (s t : string) : c ∉ to_bytes s → IndexByte (s +:+ String c t) c = Some (String.length s).
Proof.
  intros Hc. unfold IndexByte. rewrite to_bytes_app. change (to_bytes (String c t)) with (c :: to_bytes t).
  rewrite index_bytes_skip by done. cbn. rewrite Ascii.eqb_refl. cbn. by rewrite Nat.add_0_r, length_to_bytes.
Qed.

Lemma Index_none (c : ascii) (s : string) : c ∉ to_bytes s → IndexByte s c = None.
Proof.
  intros Hc. unfold IndexByte. rewrite <- (app_nil_r (to_bytes s)), index_bytes_skip by done. done.
Qed.

Lemma take_str_app (s t : string) : take_str (String.length s) (s +:+ t) = s.
Proof. induction s as [|a s IH]; [by destruct t|]. cbn. by f_equal. Qed.

