(* ===== verification/GoEncode.v ===== *)
(** * Encodings of the standard library

    [encoding/base64] decoding, [strconv.ParseUint] and [FormatUint],
    [strings.Cut] and [strings.ToValidUTF8], as the connectors use them;
    [net/mail], [url.Parse] and the entity table of package html are
    parameters. *)

From stdpp Require Import base strings list pretty.
From Stdlib Require Import Ascii ZArith Lia.
From S2P Require Import Prelude GoStrings GoText GoTime.

Open Scope Z_scope.

(** [mail.ParseAddressList] and [mail.ParseAddress]: names with addresses. *)
Class Mail := {
  ParseAddressList : string → option (list (string * string));
  ParseAddress : string → option (string * string)
}.

(** [url.Parse]: the scheme and the host. *)
Class URLs := { url_Parse : string → option (string * string) }.

(** [html.UnescapeString] *)
Class HtmlEntities := { UnescapeString : string → string }.

(** ** strings *)

(** [strings.Cut]: the text before and after the first separator. *)
Definition Cut (s sep : string) : option (string * string) :=
  match Index s sep with
  | Some i => Some (take_str i s, drop_str (i + String.length sep) s)
  | None => None
  end.

(** [strings.ToValidUTF8(s, "")]: bytes that are no rune are dropped. *)
Definition ToValidUTF8 (s : string) : string :=
  of_bytes (concat (List.filter (λ r, negb ((r.1 =? RuneError) && (length r.2 =? 1)%nat)) (runes s)).*2).

(** Valid UTF-8, which JSON keeps as it is. *)
Definition valid_text (s : string) : Prop := ToValidUTF8 s = s.

(** ** strconv *)

(** [strconv.ParseUint(s, 10, 64)] *)
Definition ParseUint (s : string) : option Z :=
  let l := to_bytes s in
  if bool_decide (l = []) || negb (forallb is_digit l) then None
  else if digits_val l <? 2 ^ 64 then Some (digits_val l) else None.

(** [strconv.FormatUint(n, 10)] *)
Definition FormatUint (n : Z) : string := pretty (Z.to_N n).

(** ** base64 *)
Record Encoding := mkEncoding { enc_url : bool; enc_padded : bool }.

Definition RawURLEncoding : Encoding := mkEncoding true false.
Definition URLEncoding : Encoding := mkEncoding true true.
Definition StdEncoding : Encoding := mkEncoding false true.
Definition RawStdEncoding : Encoding := mkEncoding false false.

(** The value of a digit of the alphabet. *)
Definition b64_digit (url : bool) (a : ascii) : option Z :=
  let z := zbyte a in
  if byte_in 65 90 a then Some (z - 65)
  else if byte_in 97 122 a then Some (z - 71)
  else if byte_in 48 57 a then Some (z + 4)
  else if Ascii.eqb a (if url then "-" else "+") then Some 62
  else if Ascii.eqb a (if url then "_" else "/") then Some 63
  else None.

Definition byte_of (z : Z) : ascii := ascii_of_N (Z.to_N (z mod 256)).

(** The digits of a text, four to three bytes; a rest of two or three digits
    gives one or two bytes and its spare bits are not checked. *)
Fixpoint b64_bytes (ds : list Z) : option bytes :=
  match ds with
  | [] => Some []
  | [_] => None
  | [a; b] => Some [byte_of (a * 4 + b / 16)]
  | [a; b; c] => Some [byte_of (a * 4 + b / 16); byte_of (b * 16 + c / 4)]
  | a :: b :: c :: d :: ds' =>
    t ← b64_bytes ds'; Some (byte_of (a * 4 + b / 16) :: byte_of (b * 16 + c / 4) :: byte_of (c * 64 + d) :: t)
  end.

(** The text without its padding, when the padding is right. *)
Definition unpadded (l : bytes) : option bytes :=
  if negb (length l mod 4 =? 0)%nat then None
  else match rev l with
  | "="%char :: "="%char :: l' => Some (rev l')
  | "="%char :: l' => Some (rev l')
  | _ => Some l
  end.

(** [DecodeString]: newlines are skipped. *)
Definition DecodeString (e : Encoding) (s : string) : option bytes :=
  let l := List.filter (λ a, negb (Ascii.eqb a "010" || Ascii.eqb a "013")) (to_bytes s) in
  l ← (if enc_padded e then unpadded l else Some l);
  ds ← mapM (b64_digit (enc_url e)) l;
  b64_bytes ds.

(** The digit of a value below 64. *)
Definition b64_char (url : bool) (z : Z) : ascii :=
  if z <? 26 then byte_of (z + 65)
  else if z <? 52 then byte_of (z + 71)
  else if z <? 62 then byte_of (z - 4)
  else if z =? 62 then if url then "-" else "+"
  else if url then "_" else "/".

Fixpoint b64_digits (l : bytes) : list Z :=
  match l with
  | [] => []
  | [a] => [zbyte a / 4; zbyte a mod 4 * 16]
  | [a; b] => [zbyte a / 4; zbyte a mod 4 * 16 + zbyte b / 16; zbyte b mod 16 * 4]
  | a :: b :: c :: l' =>
    zbyte a / 4 :: zbyte a mod 4 * 16 + zbyte b / 16 :: zbyte b mod 16 * 4 + zbyte c / 64 :: zbyte c mod 64 :: b64_digits l'
  end.

Fixpoint b64_padding (l : bytes) : bytes :=
  match l with
  | [] => []
  | [_] => ["="; "="]%char
  | [_; _] => ["="]%char
  | _ :: _ :: _ :: l' => b64_padding l'
  end.

(** [EncodeToString] *)
Definition base64_Encode (e : Encoding) (l : bytes) : string :=
  of_bytes ((b64_char (enc_url e) <$> b64_digits l) ++ (if enc_padded e then b64_padding l else [])).

Example encode_raw : base64_Encode RawURLEncoding (to_bytes "hi") = "aGk".
Proof. reflexivity. Qed.
Example encode_padded : base64_Encode StdEncoding (to_bytes "hi") = "aGk=".
Proof. reflexivity. Qed.
Example decode_padded : DecodeString StdEncoding "aGk=" = Some (to_bytes "hi").
Proof. reflexivity. Qed.
Example decode_raw : DecodeString RawURLEncoding "aGk" = Some (to_bytes "hi").
Proof. reflexivity. Qed.
Example decode_wrong : DecodeString StdEncoding "aGk" = None ∧ DecodeString RawStdEncoding "aGk=" = None.
Proof. by split. Qed.
Example decode_url : DecodeString RawURLEncoding "_-8" = Some ["255"%char; "239"%char].
Proof. reflexivity. Qed.

(** ** A printed number reads back *)
Lemma digits_val_app l m : digits_val (l ++ m) = digits_val l * 10 ^ Z.of_nat (length m) + digits_val m.
Proof.
  unfold digits_val. assert (H : ∀ n l, foldl (λ n a, 10 * n + digit_val a) n l = n * 10 ^ Z.of_nat (length l) + foldl (λ n a, 10 * n + digit_val a) 0 l).
  { intros n l'. revert n. induction l' as [|a l' IH]; intros n; cbn [foldl length]; [lia|].
    rewrite IH, (IH (10 * 0 + digit_val a)). rewrite Nat2Z.inj_succ, Z.pow_succ_r by lia. lia. }
  rewrite foldl_app. apply H.
Qed.

Lemma pretty_char_digit (n : N) : (n < 10)%N →
  is_digit (pretty_N_char n) = true ∧ digit_val (pretty_N_char n) = Z.of_N n.
Proof.
  intros Hn. destruct n as [|p]; [done|].
  destruct p as [[[p|p|]|[p|p|]|]|[[p|p|]|[p|p|]|]|]; try lia; try done; destruct p; try lia; done.
Qed.

Lemma pretty_N_go_digits (x : N) s :
  forallb is_digit (to_bytes s) = true →
  forallb is_digit (to_bytes (pretty_N_go x s)) = true ∧
  digits_val (to_bytes (pretty_N_go x s)) = Z.of_N x * 10 ^ Z.of_nat (length (to_bytes s)) + digits_val (to_bytes s).
Proof.
  revert s. induction (N.lt_wf_0 x) as [x _ IH]; intros s Hs.
  destruct (decide (0 < x)%N) as [Hx|Hx].
  - rewrite pretty_N_go_step by done. destruct (pretty_char_digit (x `mod` 10)) as [Hd Hv]; [by apply N.mod_lt|].
    destruct (IH (x `div` 10)%N (N.div_lt x 10 Hx ltac:(done)) (String (pretty_N_char (x `mod` 10)) s)) as [H1 H2].
    { change (is_digit (pretty_N_char (x `mod` 10)) && forallb is_digit (to_bytes s) = true). by rewrite Hd. }
    split; [done|]. rewrite H2. change (to_bytes (String (pretty_N_char (x `mod` 10)) s)) with ([pretty_N_char (x `mod` 10)] ++ to_bytes s).
    rewrite digits_val_app, length_app. cbn [length]. rewrite Nat2Z.inj_add, Z.pow_add_r by lia.
    change (digits_val [pretty_N_char (x `mod` 10)]) with (10 * 0 + digit_val (pretty_N_char (x `mod` 10))). rewrite Hv.
    pose proof (N.div_mod x 10 ltac:(done)) as Hdm. rewrite N2Z.inj_div, N2Z.inj_mod. change (Z.of_N 10) with 10. 
    apply (f_equal Z.of_N) in Hdm. rewrite N2Z.inj_add, N2Z.inj_mul, N2Z.inj_div, N2Z.inj_mod in Hdm. change (Z.of_N 10) with 10 in Hdm. nia.
  - replace x with 0%N by lia. rewrite pretty_N_go_0. split; [done|]. lia.
Qed.

Lemma FormatUint_digits n : forallb is_digit (to_bytes (FormatUint n)) = true ∧ to_bytes (FormatUint n) ≠ [] ∧
  digits_val (to_bytes (FormatUint n)) = Z.max 0 n.
Proof.
  unfold FormatUint. destruct (Z.to_N n) as [|p] eqn:E.
  - split_and!; [done|done|]. by replace (Z.max 0 n) with 0 by lia.
  - change (pretty (N.pos p)) with (pretty_N_go (N.pos p) ""). destruct (pretty_N_go_digits (N.pos p) "" eq_refl) as [H1 H2].
    change (to_bytes "") with (@nil ascii) in H2. change (digits_val []) with 0 in H2. cbn [length] in H2.
    split_and!; [done| |rewrite H2; lia]. intros Hn. rewrite Hn in H2. change (digits_val []) with 0 in H2. lia.
Qed.

Lemma ParseUint_FormatUint n : 0 <= n < 2 ^ 64 → ParseUint (FormatUint n) = Some n.
Proof.
  intros Hn. destruct (FormatUint_digits n) as (Hd & Hne & Hv). unfold ParseUint. rewrite bool_decide_false by done.
  rewrite Hd, Hv. cbn [orb negb]. replace (Z.max 0 n) with n by lia. by destruct (Z.ltb_spec n (2 ^ 64)); [|lia].
Qed.

Lemma ParseInt_FormatUint n : 0 <= n < 2 ^ 63 → ParseInt (FormatUint n) = Some n.
Proof.
  intros Hn. destruct (FormatUint_digits n) as (Hd & Hne & Hv). unfold ParseInt.
  destruct (to_bytes (FormatUint n)) as [|a l] eqn:E; [done|]. pose proof Hd as Ha. cbn [forallb] in Ha. apply andb_true_iff in Ha as [Ha _].
  destruct (Ascii.eqb_spec a "-") as [->|_]; [done|]. destruct (Ascii.eqb_spec a "+") as [->|_]; [done|].
  rewrite bool_decide_false, Hd by done. cbn [orb negb]. rewrite Hv. replace (1 * Z.max 0 n) with n by lia.
  by destruct (Z.leb_spec (- 2 ^ 63) n), (Z.ltb_spec n (2 ^ 63)); [|lia..].
Qed.

Lemma FormatUint_free c n : is_digit c = false → c ∉ to_bytes (FormatUint n).
Proof. intros Hc Hin%list_elem_of_In. destruct (FormatUint_digits n) as [Hd _]. apply (proj1 (forallb_forall _ _) Hd) in Hin. by rewrite Hin in Hc. Qed.

(** ** Base64 reads back *)
Lemma zbyte_range a : 0 <= zbyte a < 256.
Proof. unfold zbyte. pose proof (byte_val_lt a). lia. Qed.

Lemma byte_of_zbyte a z : z mod 256 = zbyte a → byte_of z = a.
Proof. unfold byte_of, zbyte. intros ->. rewrite N2Z.id. apply ascii_N_embedding. Qed.

Lemma b64_digit_char url z : 0 <= z < 64 →
  b64_digit url (b64_char url z) = Some z ∧ b64_char url z ≠ "010"%char ∧ b64_char url z ≠ "013"%char.
Proof.
  intros Hz. assert (Hall : forallb (λ n, let z := Z.of_nat n in
    bool_decide (b64_digit url (b64_char url z) = Some z ∧ b64_char url z ≠ "010"%char ∧ b64_char url z ≠ "013"%char)) (seq 0 64) = true)
    by (destruct url; vm_compute; reflexivity).
  rewrite forallb_forall in Hall. specialize (Hall (Z.to_nat z)). cbv zeta in Hall. rewrite in_seq, Z2Nat.id in Hall by lia.
  eapply bool_decide_eq_true_1, Hall. lia.
Qed.

Lemma three_bytes (P : bytes → Prop) :
  P [] → (∀ a, P [a]) → (∀ a b, P [a; b]) → (∀ a b c l, P l → P (a :: b :: c :: l)) → ∀ l, P l.
Proof.
  intros H0 H1 H2 H3 l. assert (H : P l ∧ (∀ a, P (a :: l)) ∧ (∀ a b, P (a :: b :: l))); [|apply H].
  induction l as [|x l (IH1 & IH2 & IH3)]; [by auto|]. split_and!; [apply IH2|intros a; apply IH3|]. intros a b. by apply H3.
Qed.

Ltac split_bytes_bits :=
  repeat match goal with a : ascii |- _ => lazymatch goal with H : 0 <= zbyte a < 256 |- _ => fail | _ => pose proof (zbyte_range a) end end;
  Z.div_mod_to_equations; lia.

Lemma b64_digits_range l : Forall (λ z, 0 <= z < 64) (b64_digits l).
Proof. induction l using three_bytes; cbn; repeat constructor; try done; split_bytes_bits. Qed.

Lemma b64_bytes_digits l : b64_bytes (b64_digits l) = Some l.
Proof.
  induction l as [|a|a b|a b c l IH] using three_bytes; cbn; [done| | |rewrite IH; cbn]; do 2 f_equal;
    repeat first [apply byte_of_zbyte; split_bytes_bits|f_equal].
Qed.

Lemma b64_chars e ds : Forall (λ z, 0 <= z < 64) ds →
  let text := b64_char (enc_url e) <$> ds in
  Forall (λ a, (Ascii.eqb a "010" || Ascii.eqb a "013") = false ∧ a ≠ "="%char) text ∧ mapM (b64_digit (enc_url e)) text = Some ds.
Proof.
  induction 1 as [|z ds Hz _ [IH1 IH2]]; [done|]. destruct (b64_digit_char (enc_url e) z Hz) as (Hd & H1 & H2).
  cbn. split.
  - constructor; [|done]. rewrite (proj2 (Ascii.eqb_neq _ _) H1), (proj2 (Ascii.eqb_neq _ _) H2). split; [done|].
    intros Heq. rewrite Heq in Hd. by destruct (enc_url e).
  - rewrite Hd. cbn. fold (b64_char (enc_url e) <$> ds). by rewrite IH2.
Qed.

Lemma unpadded_app l p :
  Forall (λ a, a ≠ "="%char) l → p = [] ∨ p = ["="]%char ∨ p = ["="; "="]%char → (length (l ++ p) mod 4 = 0)%nat → unpadded (l ++ p) = Some l.
Proof.
  intros Hl Hp Hm. unfold unpadded. rewrite Hm. cbn [negb Nat.eqb]. rewrite rev_app_distr.
  apply Forall_rev in Hl. assert (He : ∀ l', rev l = l' → rev l' = l) by (intros ? <-; apply rev_involutive).
  destruct Hp as [->|[->| ->]]; cbn [rev app].
  - destruct (rev l) as [|a l'] eqn:E; [by rewrite app_nil_r|]. apply Forall_cons_1 in Hl as [Ha _]. rewrite app_nil_r.
    destruct a as [[] [] [] [] [] [] [] []]; done.
  - destruct (rev l) as [|a l'] eqn:E; [by rewrite <- (He _ eq_refl)|]. apply Forall_cons_1 in Hl as [Ha _].
    rewrite <- (He _ eq_refl). destruct a as [[] [] [] [] [] [] [] []]; done.
  - by rewrite rev_involutive.
Qed.

Lemma b64_padding_shape l :
  (b64_padding l = [] ∨ b64_padding l = ["="]%char ∨ b64_padding l = ["="; "="]%char) ∧
  ((length (b64_digits l) + length (b64_padding l)) mod 4 = 0)%nat.
Proof.
  induction l as [|a|a b|a b c l [IH1 IH2]] using three_bytes; cbn -[Nat.modulo]; auto. split; [done|].
  apply Nat.Div0.mod_divides in IH2 as [q Hq]. apply Nat.Div0.mod_divides. exists (S q). lia.
Qed.

Lemma DecodeString_Encode e l : DecodeString e (base64_Encode e l) = Some l.
Proof.
  unfold DecodeString, base64_Encode. rewrite to_of_bytes. destruct (b64_chars e _ (b64_digits_range l)) as [Hc Hm].
  destruct (b64_padding_shape l) as [Hp Hlen]. set (text := b64_char (enc_url e) <$> b64_digits l) in *.
  assert (Hf : ∀ m, Forall (λ a, (Ascii.eqb a "010" || Ascii.eqb a "013") = false) m → List.filter (λ a, negb (Ascii.eqb a "010" || Ascii.eqb a "013")) m = m).
  { induction 1 as [|a m Ha _ IH]; [done|]. cbn. by rewrite Ha, IH. }
  assert (Ht : Forall (λ a, (Ascii.eqb a "010" || Ascii.eqb a "013") = false) text) by (eapply Forall_impl; [exact Hc|naive_solver]).
  destruct (enc_padded e).
  - rewrite Hf by (apply Forall_app; split; [done|]; destruct Hp as [->|[->| ->]]; repeat constructor).
    rewrite unpadded_app; [cbn [mbind option_bind]; rewrite Hm; apply b64_bytes_digits|..].
    + eapply Forall_impl; [exact Hc|naive_solver].
    + done.
    + unfold text. by rewrite length_app, length_fmap.
  - rewrite app_nil_r, Hf by done. cbn [mbind option_bind]. rewrite Hm. apply b64_bytes_digits.
Qed.

(** ** Numbers as digits

    A text for any countable value, for the concrete instances of interfaces. *)
Fixpoint number_bytes (p : positive) : bytes :=
  match p with xH => [] | xO p' => "0"%char :: number_bytes p' | xI p' => "1"%char :: number_bytes p' end.
Fixpoint bytes_number (l : bytes) : positive :=
  match l with [] => xH | a :: l' => if Ascii.eqb a "0" then xO (bytes_number l') else xI (bytes_number l') end.

Lemma bytes_number_bytes p : bytes_number (number_bytes p) = p.
Proof. induction p as [p IH|p IH|]; cbn; by rewrite ?IH. Qed.
