(* ===== verification/GoFloat.v ===== *)
(** * float64

    Go's [float64] as IEEE 754 binary64 in the executable specification of the
    Standard Library ([SpecFloat]): arithmetic, comparison, conversion from an
    integer; and the stable descending sort of [sort.SliceStable] by a score,
    with the order theory of the comparison. *)

From stdpp Require Import base strings list sorting.
From Stdlib Require Import ZArith Lia SpecFloat.
From S2P Require Import Prelude.

Open Scope Z_scope.

Notation float64 := spec_float.

Definition prec64 : Z := 53.
Definition emax64 : Z := 1024.

Definition fadd : float64 → float64 → float64 := SFadd prec64 emax64.
Definition fsub : float64 → float64 → float64 := SFsub prec64 emax64.
Definition fmul : float64 → float64 → float64 := SFmul prec64 emax64.
Definition fdiv : float64 → float64 → float64 := SFdiv prec64 emax64.

(** [float64(n)] *)
Definition float_of_Z (n : Z) : float64 := binary_normalize prec64 emax64 n 0 false.

(** A decimal constant [n / d] of the source, correctly rounded ([n] and [d]
    below 2^53). *)
Definition frac (n d : Z) : float64 := fdiv (float_of_Z n) (float_of_Z d).

Definition fzero : float64 := S754_zero false.
Definition fone : float64 := float_of_Z 1.

(** [x < y], [x > y], [x <= y]: false when either is NaN. *)
Definition flt (x y : float64) : bool := SFltb x y.
Definition fgt (x y : float64) : bool := SFltb y x.
Definition fle (x y : float64) : bool := SFleb x y.

Definition is_nan (x : float64) : bool := match x with S754_nan => true | _ => false end.
Definition is_inf (x : float64) : bool := match x with S754_infinity _ => true | _ => false end.

(** [int32(x)] and [int(x)] truncate toward zero. *)
Definition ftrunc (x : float64) : Z :=
  match x with
  | S754_finite s m e =>
    let v := if 0 <=? e then Z.pos m * 2 ^ e else Z.pos m / 2 ^ (- e) in
    if s then - v else v
  | _ => 0
  end.

#[export] Instance float64_eq_dec : EqDecision float64.
Proof. solve_decision. Defined.

(** ** Sorting *)
(** [sort.SliceStable] with [less i j := key i > key j]: the stable order by
    descending key, which the sort specification determines uniquely when no
    key is NaN. *)
Fixpoint insert_desc {A} (key : A → float64) (x : A) (l : list A) : list A :=
  match l with
  | [] => [x]
  | y :: l' => if fgt (key y) (key x) then y :: insert_desc key x l' else x :: l
  end.

Definition sort_desc {A} (key : A → float64) (l : list A) : list A := foldr (insert_desc key) [] l.

(** ** The order *)

(** The value order: sign, then exponent and mantissa lexicographically. *)
Definition sf_key (x : float64) : Z * (Z * Z) :=
  match x with
  | S754_nan | S754_zero _ => (0, (0, 0))
  | S754_infinity false => (2, (0, 0))
  | S754_infinity true => (-2, (0, 0))
  | S754_finite false m e => (1, (e, Z.pos m))
  | S754_finite true m e => (-1, (- e, - Z.pos m))
  end.

Definition lex2 (a b : Z * Z) : comparison :=
  match a.1 ?= b.1 with Eq => a.2 ?= b.2 | c => c end.
Definition lex3 (a b : Z * (Z * Z)) : comparison :=
  match a.1 ?= b.1 with Eq => lex2 a.2 b.2 | c => c end.

Lemma compare_key x y :
  is_nan x = false → is_nan y = false → SFcompare x y = Some (lex3 (sf_key x) (sf_key y)).
Proof.
  intros Hx Hy. destruct x as [|[]| |[] m e], y as [|[]| |[] m' e']; try done; unfold lex3, lex2; cbn.
  all: try reflexivity.
  rewrite Z.compare_opp, (Z.compare_antisym e e'). by destruct (e ?= e').
Qed.

Lemma lex3_lt a b :
  lex3 a b = Lt ↔ a.1 < b.1 ∨ a.1 = b.1 ∧ (a.2.1 < b.2.1 ∨ a.2.1 = b.2.1 ∧ a.2.2 < b.2.2).
Proof.
  destruct a as [a1 [a2 a3]], b as [b1 [b2 b3]]. unfold lex3, lex2. cbn.
  destruct (Z.compare_spec a1 b1), (Z.compare_spec a2 b2), (Z.compare_spec a3 b3);
    (split; [try done; lia|intros; try done; lia]).
Qed.

Lemma flt_spec x y :
  is_nan x = false → is_nan y = false →
  flt x y = true ↔ lex3 (sf_key x) (sf_key y) = Lt.
Proof. intros Hx Hy. unfold flt, SFltb. rewrite compare_key by done. by destruct (lex3 _ _). Qed.

Lemma flt_nan x y : flt x y = true → is_nan x = false ∧ is_nan y = false.
Proof. by destruct x as [|[]| |[]], y as [|[]| |[]]. Qed.

Lemma flt_trans x y z : flt x y = true → flt y z = true → flt x z = true.
Proof.
  intros H1 H2. destruct (flt_nan _ _ H1), (flt_nan _ _ H2).
  apply flt_spec in H1, H2; try done. apply flt_spec; try done. rewrite lex3_lt in *. lia.
Qed.

Lemma flt_irrefl x : flt x x = false.
Proof.
  destruct (flt x x) eqn:E; [|done]. destruct (flt_nan _ _ E).
  apply flt_spec in E; try done. rewrite lex3_lt in E. lia.
Qed.

(** Without NaN, "not less" is transitive: a total preorder. *)
Lemma nlt_trans x y z :
  is_nan x = false → is_nan y = false → is_nan z = false →
  flt y x = false → flt z y = false → flt z x = false.
Proof.
  intros Hx Hy Hz H1 H2. apply not_true_iff_false. intros H3. apply not_true_iff_false in H1, H2.
  rewrite flt_spec in H1, H2, H3 by done. rewrite lex3_lt in *. lia.
Qed.

Lemma flt_asym x y : flt x y = true → flt y x = false.
Proof.
  intros H. destruct (flt y x) eqn:E; [|done]. rewrite <-(flt_irrefl x). symmetry. by apply (flt_trans _ y).
Qed.

(** ** Non-negative values *)

(** Neither NaN nor negative. *)
Definition nonneg (x : float64) : bool :=
  match x with S754_zero false | S754_infinity false | S754_finite false _ _ => true | _ => false end.

Lemma nonneg_nan x : nonneg x = true → is_nan x = false.
Proof. by destruct x as [[]|[]| |[]]. Qed.

Lemma shr_1_nonneg r : 0 <= shr_m r → 0 <= shr_m (shr_1 r).
Proof. destruct r as [m r s]. cbn. destruct m as [|[]|]; cbn; lia. Qed.

Lemma iter_pos_inv {B} (P : B → Prop) f n (x : B) : (∀ y, P y → P (f y)) → P x → P (iter_pos f n x).
Proof. intros Hf. revert x. induction n as [n IH|n IH|]; intros x Hx; cbn; auto. Qed.

Lemma shr_fexp_nonneg p e m x l : 0 <= m → 0 <= shr_m (shr_fexp p e m x l).1.
Proof.
  intros Hm. unfold shr_fexp, shr.
  assert (0 <= shr_m (shr_record_of_loc m l)) by (by destruct l as [|[]]).
  destruct (_ - _); cbn [fst]; [done| |done]. apply (iter_pos_inv (λ r, 0 <= shr_m r)); [apply shr_1_nonneg|done].
Qed.

Lemma binary_round_aux_sign p e s m x l :
  0 <= m → match binary_round_aux p e s m x l with
    | S754_zero s' | S754_infinity s' | S754_finite s' _ _ => s' = s | S754_nan => False end.
Proof.
  intros Hm. unfold binary_round_aux. pose proof (shr_fexp_nonneg p e m x l Hm) as H1.
  destruct (shr_fexp p e m x l) as [r1 e1]. cbn [fst] in H1.
  assert (H2 : 0 <= round_nearest_even (shr_m r1) (loc_of_shr_record r1))
    by (destruct r1 as [m1 [] []]; cbn in *; repeat case_match; lia).
  pose proof (shr_fexp_nonneg p e _ e1 loc_Exact H2) as H3. destruct (shr_fexp p e _ e1 loc_Exact) as [r2 e2].
  cbn [fst] in H3. destruct (shr_m r2); [done|by destruct (_ <=? _)|lia].
Qed.

Lemma binary_round_aux_nonneg p e m x l : 0 <= m → nonneg (binary_round_aux p e false m x l) = true.
Proof.
  intros Hm. pose proof (binary_round_aux_sign p e false m x l Hm) as H.
  destruct (binary_round_aux p e false m x l); by subst.
Qed.

Lemma normalize_nonneg p e m x : 0 <= m → nonneg (binary_normalize p e m x false) = true.
Proof.
  destruct m as [|m|m]; [done| |lia]. intros _. unfold binary_normalize, binary_round.
  destruct (shl_align _ _ _). by apply binary_round_aux_nonneg.
Qed.

Lemma float_of_Z_nonneg n : 0 <= n → nonneg (float_of_Z n) = true.
Proof. apply normalize_nonneg. Qed.

Lemma fadd_nonneg x y : nonneg x = true → nonneg y = true → nonneg (fadd x y) = true.
Proof.
  destruct x as [[]|[]| |[] m e], y as [[]|[]| |[] m' e']; try done. intros _ _. unfold fadd, SFadd. cbn [cond_Zopp].
  apply normalize_nonneg. lia.
Qed.

Lemma fdiv_nonneg x y : nonneg x = true → is_inf x = false → nonneg y = true → flt fzero x = true → nonneg (fdiv x y) = true.
Proof.
  destruct x as [[]|[]| |[] m e], y as [[]|[]| |[] m' e']; try done. intros _ _ _ _. unfold fdiv, SFdiv.
  unfold SFdiv_core_binary. set (a := match _ with Z0 => _ | _ => _ end).
  assert (Ha : 0 <= a).
  { subst a. destruct (_ - _); [lia| |lia]. apply Z.shiftl_nonneg. lia. }
  pose proof (Z_div_pos a (Z.pos m') ltac:(lia) Ha) as Hq. unfold Z.div in Hq.
  destruct (Z.div_eucl a (Z.pos m')) as [q r]. by apply binary_round_aux_nonneg.
Qed.

(** ** Results that are not NaN *)
Definition finite (x : float64) : bool := match x with S754_zero _ | S754_finite _ _ _ => true | _ => false end.

Lemma round_not_nan p e s m x l : 0 <= m → is_nan (binary_round_aux p e s m x l) = false.
Proof. intros Hm. pose proof (binary_round_aux_sign p e s m x l Hm). by destruct (binary_round_aux p e s m x l). Qed.

Lemma normalize_not_nan p e m x s : is_nan (binary_normalize p e m x s) = false.
Proof.
  destruct m; [done| |]; unfold binary_normalize, binary_round; destruct (shl_align _ _ _); by apply round_not_nan.
Qed.

Lemma fadd_not_nan x y : is_nan x = false → finite y = true → is_nan (fadd x y) = false.
Proof.
  intros Hx Hy. destruct x as [[]|[]| |], y as [[]|[]| |]; try done. unfold fadd, SFadd. apply normalize_not_nan.
Qed.

Lemma fadd_not_nan_l x y : finite x = true → is_nan y = false → is_nan (fadd x y) = false.
Proof.
  intros Hx Hy. destruct x as [[]|[]| |], y as [[]|[]| |]; try done; unfold fadd, SFadd; apply normalize_not_nan.
Qed.

Lemma fsub_not_nan x y : finite x = true → is_nan y = false → is_nan (fsub x y) = false.
Proof.
  intros Hx Hy. destruct x as [[]|[]| |], y as [[]|[]| |]; try done; unfold fsub, SFsub; apply normalize_not_nan.
Qed.

Lemma fmul_not_nan x y : finite x = true → flt fzero x = true → is_nan y = false → is_nan (fmul x y) = false.
Proof.
  destruct x as [[]|[]| |[] m e], y as [[]|[]| |[] m' e']; try done; intros _ _ _; unfold fmul, SFmul; by apply round_not_nan.
Qed.

Lemma fdiv_not_nan x y : finite x = true → flt fzero x = true → is_nan y = false → is_nan (fdiv x y) = false.
Proof.
  destruct x as [[]|[]| |[] m e], y as [[]|[]| |s m' e']; try done; intros _ _ _. unfold fdiv, SFdiv.
  unfold SFdiv_core_binary. set (a := match _ with Z0 => _ | _ => _ end).
  assert (Ha : 0 <= a).
  { subst a. destruct (_ - _); [lia| |lia]. apply Z.shiftl_nonneg. lia. }
  pose proof (Z_div_pos a (Z.pos m') ltac:(lia) Ha) as Hq. unfold Z.div in Hq.
  destruct (Z.div_eucl a (Z.pos m')) as [q r]. by apply round_not_nan.
Qed.

(** ** The sort *)
Section sort.
Context {A : Type} (key : A → float64).

(** [x] may stand before [y]: its key is not smaller. *)
Definition desc (x y : A) : Prop := flt (key x) (key y) = false.

Lemma insert_desc_perm x l : insert_desc key x l ≡ₚ x :: l.
Proof.
  induction l as [|y l IH]; simpl; [done|]. destruct (fgt (key y) (key x)); [|done].
  rewrite IH. apply perm_swap.
Qed.

Lemma sort_desc_perm l : sort_desc key l ≡ₚ l.
Proof. induction l as [|x l IH]; simpl; [done|]. by rewrite insert_desc_perm, IH. Qed.

Lemma sort_desc_length l : length (sort_desc key l) = length l.
Proof. by rewrite sort_desc_perm. Qed.

Lemma insert_desc_sorted x l :
  is_nan (key x) = false → Forall (λ y, is_nan (key y) = false) l →
  StronglySorted desc l → StronglySorted desc (insert_desc key x l).
Proof.
  intros Hx. induction l as [|y l IH]; intros Hn Hs; simpl; [repeat constructor|].
  apply StronglySorted_inv in Hs as [Hs Hy]. pose proof (Forall_inv Hn) as Hy'. cbn beta in Hy'.
  apply Forall_inv_tail in Hn. unfold fgt. fold (flt (key x) (key y)).
  destruct (flt (key x) (key y)) eqn:E.
  - constructor; [by apply IH|]. rewrite insert_desc_perm. constructor; [|done].
    by apply flt_asym.
  - constructor; [by constructor|]. constructor; [done|].
    rewrite !Forall_forall in *. intros z Hz. unfold desc in *.
    apply (nlt_trans (key z) (key y) (key x)); auto.
Qed.

Lemma sort_desc_sorted l :
  Forall (λ y, is_nan (key y) = false) l → StronglySorted desc (sort_desc key l).
Proof.
  induction l as [|x l IH]; intros Hn; simpl; [constructor|]. apply Forall_cons in Hn as [Hx Hn].
  apply insert_desc_sorted; [done|by rewrite sort_desc_perm|auto].
Qed.

(** Stability: the elements of one key class keep their order. *)
Lemma insert_desc_stable (P : A → bool) x l :
  (∀ y z, P y = true → P z = true → flt (key y) (key z) = false) →
  List.filter P (insert_desc key x l) = List.filter P (x :: l).
Proof.
  intros HP. induction l as [|y l IH]; [done|]. cbn [insert_desc]. unfold fgt. fold (flt (key x) (key y)).
  destruct (flt (key x) (key y)) eqn:E; [|done]. cbn [List.filter] in *.
  destruct (P y) eqn:Ey, (P x) eqn:Ex; rewrite IH; try done. by rewrite HP in E.
Qed.

Lemma sort_desc_stable (P : A → bool) l :
  (∀ y z, P y = true → P z = true → flt (key y) (key z) = false) →
  List.filter P (sort_desc key l) = List.filter P l.
Proof.
  intros HP. induction l as [|x l IH]; [done|]. cbn [sort_desc foldr]. rewrite insert_desc_stable by done.
  cbn [List.filter]. by fold (sort_desc key l); rewrite IH.
Qed.
End sort.

(** ** Checks against known values *)
Example tenth : frac 1 10 = S754_finite false 7205759403792794 (-56).
Proof. reflexivity. Qed.

Example rounding : flt (fadd (frac 1 10) (frac 2 10)) (frac 3 10) = false ∧ flt (frac 3 10) (fadd (frac 1 10) (frac 2 10)) = true.
Proof. split; reflexivity. Qed.
