(* ===== verification/GoNet.v ===== *)
(** * Network addresses

    The parts of the Go packages [net] and [net/netip] that the outbound guard
    uses: parsing of addresses, networks and host:port pairs, and the address
    classes.  An address is a byte slice, of 4 or 16 bytes when it is valid. *)

From stdpp Require Import base list strings.
From Stdlib Require Import Ascii ZArith Lia.
From S2P Require Import Prelude GoStrings.

Open Scope Z_scope.

(** [net.IP]: bytes as integers; a nil address is [None] where one can occur. *)
Abbreviation IP := (list Z).

Definition v4InV6Prefix : list Z := [0; 0; 0; 0; 0; 0; 0; 0; 0; 0; 255; 255].

(** [net.IPv4]: the 16-byte form. *)
Definition IPv4 (a b c d : Z) : IP := v4InV6Prefix ++ [a; b; c; d].

Definition To4 (ip : IP) : option IP :=
  if bool_decide (length ip = 4%nat) then Some ip
  else if bool_decide (length ip = 16%nat) && bool_decide (take 12 ip = v4InV6Prefix) then Some (drop 12 ip)
  else None.

Definition To16 (ip : IP) : option IP :=
  if bool_decide (length ip = 4%nat) then Some (v4InV6Prefix ++ ip)
  else if bool_decide (length ip = 16%nat) then Some ip
  else None.

Definition ip_Equal (ip x : IP) : bool :=
  if bool_decide (length ip = length x) then bool_decide (ip = x)
  else if bool_decide (length ip = 4%nat) && bool_decide (length x = 16%nat) then
    bool_decide (take 12 x = v4InV6Prefix) && bool_decide (ip = drop 12 x)
  else if bool_decide (length ip = 16%nat) && bool_decide (length x = 4%nat) then
    bool_decide (take 12 ip = v4InV6Prefix) && bool_decide (drop 12 ip = x)
  else false.

(** The byte at [i] of an address known to be long enough. *)
Definition at_byte (ip : IP) (i : nat) : Z := default 0 (ip !! i).

Definition IPv6unspecified : IP := replicate 16 0.
Definition IPv6loopback : IP := replicate 15 0 ++ [1].

Definition IsUnspecified (ip : IP) : bool :=
  ip_Equal ip (IPv4 0 0 0 0) || ip_Equal ip IPv6unspecified.

Definition is16 (ip : IP) : bool := bool_decide (length ip = 16%nat).

Definition IsLoopback (ip : IP) : bool :=
  match To4 ip with Some ip4 => at_byte ip4 0 =? 127 | None => ip_Equal ip IPv6loopback end.

Definition IsPrivate (ip : IP) : bool :=
  match To4 ip with
  | Some ip4 =>
    (at_byte ip4 0 =? 10) ||
    ((at_byte ip4 0 =? 172) && (Z.land (at_byte ip4 1) 0xf0 =? 16)) ||
    ((at_byte ip4 0 =? 192) && (at_byte ip4 1 =? 168))
  | None => is16 ip && (Z.land (at_byte ip 0) 0xfe =? 0xfc)
  end.

Definition IsMulticast (ip : IP) : bool :=
  match To4 ip with
  | Some ip4 => Z.land (at_byte ip4 0) 0xf0 =? 0xe0
  | None => is16 ip && (at_byte ip 0 =? 0xff)
  end.

Definition IsInterfaceLocalMulticast (ip : IP) : bool :=
  is16 ip && (at_byte ip 0 =? 0xff) && (Z.land (at_byte ip 1) 0x0f =? 0x01).

Definition IsLinkLocalMulticast (ip : IP) : bool :=
  match To4 ip with
  | Some ip4 => (at_byte ip4 0 =? 224) && (at_byte ip4 1 =? 0) && (at_byte ip4 2 =? 0)
  | None => is16 ip && (at_byte ip 0 =? 0xff) && (Z.land (at_byte ip 1) 0x0f =? 0x02)
  end.

Definition IsLinkLocalUnicast (ip : IP) : bool :=
  match To4 ip with
  | Some ip4 => (at_byte ip4 0 =? 169) && (at_byte ip4 1 =? 254)
  | None => is16 ip && (at_byte ip 0 =? 0xfe) && (Z.land (at_byte ip 1) 0xc0 =? 0x80)
  end.

(** ** Networks *)
Record IPNet := mkIPNet { net_ip : IP; net_mask : list Z }.

(** [net.CIDRMask]: [n] leading ones in [len] bytes. *)
Fixpoint CIDRMask (n : nat) (len : nat) : list Z :=
  match len with
  | O => []
  | S len' =>
    (if (8 <=? n)%nat then 255 else 255 - Z.shiftr 255 (Z.of_nat n)) :: CIDRMask (n - 8) len'
  end.

Definition ip_Mask (ip : IP) (mask : list Z) : IP :=
  let mask := if bool_decide (length mask = 16%nat) && bool_decide (length ip = 4%nat)
                 && forallb (Z.eqb 255) (take 12 mask) then drop 12 mask else mask in
  let ip := if bool_decide (length mask = 4%nat) && bool_decide (length ip = 16%nat)
               && bool_decide (take 12 ip = v4InV6Prefix) then drop 12 ip else ip in
  if bool_decide (length ip = length mask) then zip_with Z.land ip mask else [].

Definition networkNumberAndMask (n : IPNet) : IP * list Z :=
  match To4 (net_ip n) with
  | Some ip =>
    if bool_decide (length (net_mask n) = 4%nat) then (ip, net_mask n)
    else if bool_decide (length (net_mask n) = 16%nat) then (ip, drop 12 (net_mask n))
    else ([], [])
  | None =>
    if negb (bool_decide (length (net_ip n) = 16%nat)) then ([], [])
    else if bool_decide (length (net_mask n) = 16%nat) then (net_ip n, net_mask n)
    else ([], [])
  end.

Definition net_Contains (n : IPNet) (ip : IP) : bool :=
  let '(nn, m) := networkNumberAndMask n in
  let ip := default ip (To4 ip) in
  bool_decide (length ip = length nn) &&
  bool_decide (zip_with Z.land nn m = zip_with Z.land ip m).

(** ** Parsing (netip.ParseAddr) *)
Definition dec_digit (a : ascii) : option Z :=
  if byte_in 48 57 a then Some (Z.of_N (byte_val a) - 48) else None.

Definition hex_digit (a : ascii) : option Z :=
  if byte_in 48 57 a then Some (Z.of_N (byte_val a) - 48)
  else if byte_in 97 102 a then Some (Z.of_N (byte_val a) - 87)
  else if byte_in 65 70 a then Some (Z.of_N (byte_val a) - 55)
  else None.

(** The loop of [parseIPv4Fields]: [val] and [digLen] of the current octet, the
    fields before it. *)
Fixpoint ipv4_loop (l : bytes) (val : Z) (digLen : nat) (fields : list Z) : option (list Z) :=
  match l with
  | [] => if (length fields <? 3)%nat then None else Some (fields ++ [val])
  | a :: l' =>
    match dec_digit a with
    | Some d =>
      if (Nat.eqb digLen 1) && (val =? 0) then None
      else let val := val * 10 + d in
        if 255 <? val then None else ipv4_loop l' val (S digLen) fields
    | None =>
      if Ascii.eqb a "." then
        if Nat.eqb digLen 0 || bool_decide (l' = []) then None
        else if Nat.eqb (length fields) 3 then None
        else ipv4_loop l' 0 0 (fields ++ [val])
      else None
    end
  end.

Definition parseIPv4Fields (l : bytes) : option (list Z) := ipv4_loop l 0 0 [].

(** A group of hexadecimal digits: its value, how many, and the rest; [None]
    for more than four digits. *)
Fixpoint hex_group (l : bytes) (acc : Z) (off : nat) : option (Z * nat * bytes) :=
  match l with
  | [] => Some (acc, off, [])
  | a :: l' =>
    match hex_digit a with
    | Some d => if (3 <? off)%nat then None else hex_group l' (16 * acc + d) (S off)
    | None => Some (acc, off, l)
    end
  end.

(** The loop of [parseIPv6]: the bytes so far, where the ellipsis is; the
    result has the bytes, the ellipsis and the unread text. *)
Fixpoint ipv6_loop (fuel : nat) (s : bytes) (ip : list Z) (ellipsis : option nat)
    : option (list Z * option nat * bytes) :=
  match fuel with
  | O => Some (ip, ellipsis, s)
  | S fuel' =>
    match hex_group s 0 0 with
    | None | Some (_, O, _) => None
    | Some (acc, _, rest) =>
      let next := ip ++ [Z.shiftr acc 8; Z.land acc 255] in
      match rest with
      | [] => Some (next, ellipsis, [])
      | c :: s1 =>
        if Ascii.eqb c "." then
          if bool_decide (ellipsis = None) && negb (Nat.eqb (length ip) 12) then None
          else if (16 <? length ip + 4)%nat then None
          else match parseIPv4Fields s with
          | None => None
          | Some f => Some (ip ++ f, ellipsis, [])
          end
        else if negb (Ascii.eqb c ":") then None
        else match s1 with
        | [] => None
        | c1 :: s2 =>
          if Ascii.eqb c1 ":" then
            if negb (bool_decide (ellipsis = None)) then None
            else match s2 with
            | [] => Some (next, Some (length next), [])
            | _ => ipv6_loop fuel' s2 next (Some (length next))
            end
          else ipv6_loop fuel' s1 next ellipsis
        end
      end
    end
  end.

(** A leading "::" is the ellipsis; each round adds two bytes, so eight rounds
    fill the address. *)
Definition parseIPv6 (l : bytes) : option IP :=
  let '(start, s) := match l with
    | c :: c1 :: s => if Ascii.eqb c ":" && Ascii.eqb c1 ":" then (Some 0%nat, s) else (None, l)
    | _ => (None, l)
    end in
  if bool_decide (start = Some 0%nat) && bool_decide (s = []) then Some IPv6unspecified
  else match ipv6_loop 8 s [] start with
  | Some (ip, ellipsis, []) =>
    if (length ip <? 16)%nat then
      match ellipsis with
      | None => None
      | Some e => Some (take e ip ++ replicate (16 - length ip) 0 ++ drop e ip)
      end
    else match ellipsis with Some _ => None | None => Some ip end
  | _ => None
  end.

(** [netip.ParseAddr] without zones: the bytes, 4 or 16 of them.  [net.ParseIP]
    and [net.ParseCIDR] refuse a zone. *)
Definition ParseAddr (s : string) : option IP :=
  let l := to_bytes s in
  match List.find (λ a, Ascii.eqb a "." || Ascii.eqb a ":" || Ascii.eqb a "%") l with
  | None => None
  | Some c =>
    if Ascii.eqb c "." then parseIPv4Fields l
    else if Ascii.eqb c ":" then if existsb (Ascii.eqb "%") l then None else parseIPv6 l
    else None
  end.

(** [net.ParseIP]: always the 16-byte form. *)
Definition ParseIP (s : string) : option IP := ParseAddr s ≫= To16.

(** [dtoi] of the whole text. *)
Fixpoint dtoi_loop (l : bytes) (n : Z) : option Z :=
  match l with
  | [] => Some n
  | a :: l' =>
    match dec_digit a with
    | None => None
    | Some d => let n := n * 10 + d in if 0xFFFFFF <=? n then None else dtoi_loop l' n
    end
  end.

(** The address and the prefix length of "address/length". *)
Definition cidr_parts (s : string) : option (IP * nat) :=
  match Split s "/" with
  | addr :: _ :: _ =>
    let mask := drop_str (S (String.length addr)) s in
    match ParseAddr addr, (if String.eqb mask "" then None else dtoi_loop (to_bytes mask) 0) with
    | Some ip, Some n => if 8 * Z.of_nat (length ip) <? n then None else Some (ip, Z.to_nat n)
    | _, _ => None
    end
  | _ => None
  end.

Definition ParseCIDR (s : string) : option IPNet :=
  match cidr_parts s with
  | None => None
  | Some (ip, n) =>
    let m := CIDRMask n (length ip) in
    Some (mkIPNet (ip_Mask (default [] (To16 ip)) m) m)
  end.

(** [net.SplitHostPort]'s host. *)
Fixpoint last_index (c : ascii) (l : bytes) : option nat :=
  match l with
  | [] => None
  | a :: l' =>
    match last_index c l' with
    | Some i => Some (S i)
    | None => if Ascii.eqb a c then Some 0%nat else None
    end
  end.

Fixpoint first_index (c : ascii) (l : bytes) : option nat :=
  match l with
  | [] => None
  | a :: l' => if Ascii.eqb a c then Some 0%nat else S <$> first_index c l'
  end.

Definition has_byte (c : ascii) (l : bytes) : bool := existsb (Ascii.eqb c) l.

Definition SplitHostPort (hostport : string) : option (string * string) :=
  let l := to_bytes hostport in
  match last_index ":" l with
  | None => None
  | Some i =>
    let port := of_bytes (drop (S i) l) in
    if match l with c :: _ => Ascii.eqb c "[" | [] => false end then
      match first_index "]" l with
      | None => None
      | Some e =>
        if negb (Nat.eqb (S e) i) then None
        else if has_byte "[" (drop 1 l) || has_byte "]" (drop (S e) l) then None
        else Some (of_bytes (take (e - 1) (drop 1 l)), port)
      end
    else
      let host := take i l in
      if has_byte ":" host || has_byte "[" l || has_byte "]" l then None
      else Some (of_bytes host, port)
  end.

(** * Network addresses: proofs

    Addresses as integers: what a network contains is a numeric prefix match,
    the address classes are numeric ranges, and what the parsers return are
    well-formed addresses. *)

(** A byte, and the value of a big-endian byte string. *)
Definition is_byte (b : Z) : Prop := 0 ≤ b < 256.

Fixpoint be (l : list Z) : Z :=
  match l with [] => 0 | a :: l' => a * 2 ^ (8 * Z.of_nat (length l')) + be l' end.

(** A valid address: 4 or 16 bytes. *)
Definition ip_ok (ip : IP) : Prop := (length ip = 4 ∨ length ip = 16)%nat ∧ Forall is_byte ip.

(** Decide a boolean property of bytes by trying them all. *)
Lemma byte_forall (P : Z → bool) :
  forallb P (Z.of_nat <$> seq 0 256) = true → ∀ b, is_byte b → P b = true.
Proof.
  intros H b Hb. apply (proj1 (forallb_forall P _) H).
  apply list_elem_of_In, list_elem_of_fmap. exists (Z.to_nat b).
  unfold is_byte in Hb. split; [lia|]. apply elem_of_seq. lia.
Qed.

Ltac byte_case P b := let H := fresh in
  pose proof (byte_forall P ltac:(vm_compute; reflexivity) b) as H; cbv beta in H.

Lemma be_bound l : Forall is_byte l → 0 ≤ be l < 2 ^ (8 * Z.of_nat (length l)).
Proof.
  induction 1 as [|a l Ha Hl IH]; simpl be; [simpl; lia|]. unfold is_byte in Ha.
  replace (8 * Z.of_nat (length (a :: l))) with (8 + 8 * Z.of_nat (length l)) by (simpl; lia).
  rewrite Z.pow_add_r by lia. nia.
Qed.

Lemma be_app l k : be (l ++ k) = be l * 2 ^ (8 * Z.of_nat (length k)) + be k.
Proof.
  induction l as [|a l IH]; [done|]. simpl. rewrite IH, length_app.
  rewrite Nat2Z.inj_add, Z.mul_add_distr_l, Z.pow_add_r by lia. ring.
Qed.

Lemma be_inj l k :
  length l = length k → Forall is_byte l → Forall is_byte k → be l = be k → l = k.
Proof.
  revert k. induction l as [|a l IH]; intros [|b k]; try done. simpl. intros [= Hlen].
  rewrite !Forall_cons. intros [Ha Hl] [Hb Hk] Heq. rewrite Hlen in Heq.
  pose proof (be_bound l Hl) as Bl. pose proof (be_bound k Hk) as Bk. rewrite Hlen in Bl.
  assert (a = b) as -> by nia. f_equal. apply IH; [done..|]. lia.
Qed.

(** ** Masks *)

(** The high [n] bits of a byte. *)
Lemma byte_mask (n : nat) b :
  (n < 8)%nat → is_byte b →
  Z.land b (255 - Z.shiftr 255 (Z.of_nat n)) = 2 ^ (8 - Z.of_nat n) * (b / 2 ^ (8 - Z.of_nat n)).
Proof.
  intros Hn Hb. apply Z.eqb_eq.
  assert (H : forallb (λ n, forallb (λ b, Z.land b (255 - Z.shiftr 255 (Z.of_nat n)) =?
    2 ^ (8 - Z.of_nat n) * (b / 2 ^ (8 - Z.of_nat n))) (Z.of_nat <$> seq 0 256)) (seq 0 8) = true)
    by (vm_compute; reflexivity).
  refine (byte_forall (λ b, Z.land b (255 - Z.shiftr 255 (Z.of_nat n)) =?
    2 ^ (8 - Z.of_nat n) * (b / 2 ^ (8 - Z.of_nat n))) _ b Hb).
  apply (proj1 (forallb_forall _ _) H). apply in_seq. lia.
Qed.

Lemma land_255 b : is_byte b → Z.land b 255 = b.
Proof. intros Hb. apply Z.eqb_eq. by apply (byte_forall (λ b, Z.land b 255 =? b)). Qed.

Lemma length_CIDRMask n k : length (CIDRMask n k) = k.
Proof. revert n. induction k as [|k IH]; intros n; simpl; [done|]. by rewrite IH. Qed.

Lemma land_zeros l k : length l = k → zip_with Z.land l (CIDRMask 0 k) = replicate k 0.
Proof.
  revert k. induction l as [|a l IH]; intros k <-; [done|]. simpl.
  rewrite (IH (length l)) by done. f_equal. apply Z.land_0_r.
Qed.

Lemma CIDRMask_S n k :
  CIDRMask n (S k) = (if (8 <=? n)%nat then 255 else 255 - Z.shiftr 255 (Z.of_nat n)) :: CIDRMask (n - 8) k.
Proof. done. Qed.

Arguments CIDRMask : simpl never.

(** Dividing by at most the weight of the first byte splits it off. *)
Lemma div_head a x (k s : Z) :
  0 ≤ s ≤ k → 0 ≤ x < 2 ^ k → (a * 2 ^ k + x) / 2 ^ s = a * 2 ^ (k - s) + x / 2 ^ s.
Proof.
  intros Hs Hx. replace (a * 2 ^ k) with (a * 2 ^ (k - s) * 2 ^ s).
  - rewrite Z.div_add_l by (apply Z.pow_nonzero; lia). done.
  - rewrite <- Z.mul_assoc, <- Z.pow_add_r by lia. do 2 f_equal. lia.
Qed.

Lemma div_high a x (k s : Z) :
  0 ≤ k ≤ s → 0 ≤ x < 2 ^ k → (a * 2 ^ k + x) / 2 ^ s = a / 2 ^ (s - k).
Proof.
  intros Hs Hx. replace s with (k + (s - k)) at 1 by lia. rewrite Z.pow_add_r by lia.
  rewrite <- Z.div_div by (try apply Z.pow_nonzero; try apply Z.pow_pos_nonneg; lia).
  rewrite Z.div_add_l, (Z.div_small x) by (try apply Z.pow_nonzero; lia). f_equal. lia.
Qed.

Lemma div_bound x k s : 0 ≤ s ≤ k → 0 ≤ x < 2 ^ k → 0 ≤ x / 2 ^ s < 2 ^ (k - s).
Proof.
  intros Hs Hx. split; [apply Z.div_pos; [lia|apply Z.pow_pos_nonneg; lia]|].
  apply Z.div_lt_upper_bound; [apply Z.pow_pos_nonneg; lia|].
  rewrite <- Z.pow_add_r by lia. replace (s + (k - s)) with k by lia. lia.
Qed.

(** Two addresses agree under a mask of [n] ones exactly when their first [n]
    bits do. *)
Lemma masked_eq n l k :
  length l = length k → (n ≤ 8 * length l)%nat → Forall is_byte l → Forall is_byte k →
  zip_with Z.land l (CIDRMask n (length l)) = zip_with Z.land k (CIDRMask n (length l)) ↔
  be l / 2 ^ (8 * Z.of_nat (length l) - Z.of_nat n) = be k / 2 ^ (8 * Z.of_nat (length l) - Z.of_nat n).
Proof.
  revert n k. induction l as [|a l IH]; intros n [|b k]; try done. simpl length. intros [= Hlen] Hn.
  rewrite !Forall_cons. intros [Ha Hl] [Hb Hk]. cbn [zip_with be]. rewrite CIDRMask_S. cbn [zip_with]. rewrite <- Hlen.
  pose proof (be_bound l Hl) as Bl. pose proof (be_bound k Hk) as Bk. rewrite <- Hlen in Bk.
  set (K := 8 * Z.of_nat (length l)) in *.
  replace (8 * Z.of_nat (S (length l))) with (8 + K) by lia.
  destruct (Nat.leb_spec 8 n) as [H8|H8].
  - rewrite !land_255 by done. rewrite !(div_head _ _ K) by lia.
    set (s := 8 + K - Z.of_nat n).
    pose proof (div_bound (be l) K s ltac:(lia) Bl) as Dl.
    pose proof (div_bound (be k) K s ltac:(lia) Bk) as Dk.
    assert (Hiff : a * 2 ^ (K - s) + be l / 2 ^ s = b * 2 ^ (K - s) + be k / 2 ^ s ↔
      a = b ∧ be l / 2 ^ s = be k / 2 ^ s).
    { split; [|by intros [-> ->]]. intros He. assert (a = b) as -> by nia. split; [done|]. lia. }
    rewrite Hiff. replace s with (K - Z.of_nat (n - 8)) by lia.
    rewrite <- (IH (n - 8)%nat k) by (done || lia). split; [intros [= -> ->]; done|intros [-> ->]; done].
  - replace (n - 8)%nat with 0%nat by lia. rewrite !land_zeros by done.
    rewrite !byte_mask by done. rewrite !(div_high _ _ K) by lia.
    replace (8 + K - Z.of_nat n - K) with (8 - Z.of_nat n) by lia.
    assert (0 < 2 ^ (8 - Z.of_nat n)) by (apply Z.pow_pos_nonneg; lia).
    split; [intros [= He]; nia|intros ->; done].
Qed.

(** ** Families *)
Inductive Addr := V4 (n : Z) | V6 (n : Z).

Lemma split12 ip :
  length ip = 16%nat → Forall is_byte ip →
  be ip = be (take 12 ip) * 2 ^ 32 + be (drop 12 ip) ∧ 0 ≤ be (drop 12 ip) < 2 ^ 32.
Proof.
  intros Hl Hb. split.
  - rewrite <- (take_drop 12 ip) at 1. rewrite be_app, length_drop, Hl. done.
  - pose proof (be_bound (drop 12 ip) (Forall_drop _ _ _ Hb)) as H. by rewrite length_drop, Hl in H.
Qed.

(** The first twelve bytes of an address by value. *)
Lemma prefix12 ip p :
  length ip = 16%nat → Forall is_byte ip → length p = 12%nat → Forall is_byte p →
  take 12 ip = p ↔ be ip / 2 ^ 32 = be p.
Proof.
  intros Hl Hb Hlp Hp. destruct (split12 ip Hl Hb) as [-> Hd].
  rewrite Z.div_add_l, (Z.div_small _ _ Hd), Z.add_0_r by lia. split; [by intros ->|].
  apply be_inj; [rewrite length_take; lia|by apply Forall_take|done].
Qed.

Lemma low32 ip :
  length ip = 16%nat → Forall is_byte ip → be (drop 12 ip) = be ip mod 2 ^ 32.
Proof.
  intros Hl Hb. destruct (split12 ip Hl Hb) as [-> Hd].
  rewrite Z.add_comm, Z.mod_add, Z.mod_small by lia. done.
Qed.

Lemma v4prefix_bytes : Forall is_byte v4InV6Prefix.
Proof. repeat constructor; unfold is_byte; lia. Qed.

Lemma To4_value ip :
  length ip = 16%nat → Forall is_byte ip →
  To4 ip = if be ip / 2 ^ 32 =? 0xffff then Some (drop 12 ip) else None.
Proof.
  intros Hl Hb. unfold To4. rewrite Hl. cbn [bool_decide]. simpl.
  rewrite bool_decide_decide. destruct (decide _) as [He|He];
    rewrite (prefix12 ip v4InV6Prefix Hl Hb eq_refl v4prefix_bytes) in He; change (be v4InV6Prefix) with 0xffff in He.
  - by rewrite He.
  - by rewrite (proj2 (Z.eqb_neq _ _) He).
Qed.

Definition family (ip : IP) : Addr :=
  match To4 ip with Some v4 => V4 (be v4) | None => V6 (be ip) end.

(** ** Networks *)
Lemma land_idem l m : zip_with Z.land (zip_with Z.land l m) m = zip_with Z.land l m.
Proof.
  revert m. induction l as [|a l IH]; intros [|b m]; simpl; [done..|].
  rewrite IH, <- Z.land_assoc, Z.land_diag. done.
Qed.

Lemma CIDRMask_take n i j : (i ≤ j)%nat → take i (CIDRMask n j) = CIDRMask n i.
Proof.
  revert n j. induction i as [|i IH]; intros n [|j] Hij; [done|done|lia|]. rewrite !CIDRMask_S. cbn [take].
  rewrite IH by lia. done.
Qed.

Lemma CIDRMask_drop n i j : (i ≤ j)%nat → drop i (CIDRMask n j) = CIDRMask (n - 8 * i) (j - i).
Proof.
  revert n j. induction i as [|i IH]; intros n j Hij.
  - by rewrite drop_0, Nat.mul_0_r, !Nat.sub_0_r.
  - destruct j as [|j]; [lia|]. rewrite CIDRMask_S. cbn [drop]. rewrite IH by lia. f_equal. lia.
Qed.

Lemma land_bytes n l : Forall is_byte l → Forall is_byte (zip_with Z.land l (CIDRMask n (length l))).
Proof.
  intros Hl. revert n. induction Hl as [|a l Ha Hl IH]; intros n;
    cbn [length]; [constructor|]; rewrite CIDRMask_S; constructor; [|apply IH].
  destruct (Nat.leb_spec 8 n); [by rewrite land_255|]. rewrite byte_mask by done.
  assert (0 < 2 ^ (8 - Z.of_nat n)) by (apply Z.pow_pos_nonneg; lia).
  pose proof (Z.mul_div_le a (2 ^ (8 - Z.of_nat n)) ltac:(lia)) as H1.
  pose proof (Z.div_pos a (2 ^ (8 - Z.of_nat n))) as H2. unfold is_byte in *. nia.
Qed.

Lemma mask_all l n : Forall is_byte l → (8 * length l ≤ n)%nat → zip_with Z.land l (CIDRMask n (length l)) = l.
Proof.
  intros Hl. revert n. induction Hl as [|a l Ha Hl IH]; intros n Hn; [done|].
  cbn [length] in *. rewrite CIDRMask_S. cbn [zip_with].
  rewrite (proj2 (Nat.leb_le 8 n)) by lia. rewrite land_255, IH by (done || lia). done.
Qed.

(** A masked address is an IPv4-mapped one only if the mask keeps the whole
    prefix and the address is. *)
Lemma masked_mapped ip n :
  length ip = 16%nat → Forall is_byte ip →
  take 12 (zip_with Z.land ip (CIDRMask n 16)) = v4InV6Prefix ↔
  (96 ≤ n)%nat ∧ take 12 ip = v4InV6Prefix.
Proof.
  intros Hl Hb. rewrite zip_with_take, CIDRMask_take by lia.
  assert (Hb12 : Forall is_byte (take 12 ip)) by by apply Forall_take.
  assert (Hl12 : length (take 12 ip) = 12%nat) by (rewrite length_take; lia).
  destruct (decide (96 ≤ n)%nat) as [Hn|Hn].
  - rewrite <- Hl12 at 2. rewrite mask_all by (done || lia). tauto.
  - split; [|tauto]. intros He. exfalso.
    destruct (lookup_lt_is_Some_2 (take 12 ip) 11 ltac:(lia)) as [b Hbl].
    apply (f_equal (lookup 11%nat)) in He. rewrite lookup_zip_with, Hbl in He.
    assert (Hbb : is_byte b) by (eapply Forall_lookup_1 in Hbl; eauto).
    assert (Hm : CIDRMask n 12 !! 11%nat = Some (255 - Z.shiftr 255 (Z.of_nat (n - 88)))).
    { pose proof (CIDRMask_drop n 11 12 ltac:(lia)) as Hd. apply (f_equal (lookup 0%nat)) in Hd.
      rewrite lookup_drop in Hd. change (11 + 0)%nat with 11%nat in Hd. rewrite Hd.
      change (12 - 11)%nat with 1%nat. change (8 * 11)%nat with 88%nat.
      rewrite CIDRMask_S. cbn [lookup list_lookup]. by rewrite (proj2 (Nat.leb_gt 8 (n - 88))) by lia. }
    rewrite Hm in He. simpl in He. injection He as He. rewrite byte_mask in He by (done || lia).
    replace (8 - Z.of_nat (n - 88)) with (Z.succ (7 - Z.of_nat (n - 88))) in He by lia.
    rewrite Z.pow_succ_r in He by lia. lia.
Qed.

(** What "ip/n" covers: the addresses with the same first [n] bits; a prefix of
    at least 96 bits of an IPv4-mapped address is a network of IPv4. *)
Definition covers (ip : IP) (n : nat) (a : Addr) : Prop :=
  match a with
  | V4 x =>
    if bool_decide (length ip = 4%nat)
    then x / 2 ^ (32 - Z.of_nat n) = be ip / 2 ^ (32 - Z.of_nat n)
    else (96 ≤ n)%nat ∧ be ip / 2 ^ 32 = 0xffff ∧
         x / 2 ^ (128 - Z.of_nat n) = (be ip mod 2 ^ 32) / 2 ^ (128 - Z.of_nat n)
  | V6 x => length ip = 16%nat ∧ x / 2 ^ (128 - Z.of_nat n) = be ip / 2 ^ (128 - Z.of_nat n)
  end.

Definition cidr_net (ip : IP) (n : nat) : IPNet :=
  let m := CIDRMask n (length ip) in mkIPNet (ip_Mask (default [] (To16 ip)) m) m.

(** The network number and mask of a parsed CIDR. *)
Lemma number_v4 ip n :
  length ip = 4%nat → Forall is_byte ip →
  networkNumberAndMask (cidr_net ip n) = (zip_with Z.land ip (CIDRMask n 4), CIDRMask n 4).
Proof.
  intros Hl _. destruct ip as [|a [|b [|c [|d [|]]]]]; try done.
Qed.

Lemma number_v6 ip n :
  length ip = 16%nat → Forall is_byte ip →
  networkNumberAndMask (cidr_net ip n) =
    if decide ((96 ≤ n)%nat ∧ take 12 ip = v4InV6Prefix)
    then (zip_with Z.land (drop 12 ip) (CIDRMask (n - 96) 4), CIDRMask (n - 96) 4)
    else (zip_with Z.land ip (CIDRMask n 16), CIDRMask n 16).
Proof.
  intros Hl Hb. assert (Hm : length (CIDRMask n 16) = 16%nat) by apply length_CIDRMask.
  assert (Hz : length (zip_with Z.land ip (CIDRMask n 16)) = 16%nat) by (rewrite length_zip_with; lia).
  assert (H416 : bool_decide (16 = 4)%nat = false) by done.
  assert (H16 : bool_decide (16 = 16)%nat = true) by done.
  assert (HM : ip_Mask ip (CIDRMask n 16) = zip_with Z.land ip (CIDRMask n 16)).
  { unfold ip_Mask. rewrite Hm, Hl, H416, H16. cbn [andb]. rewrite Hm, H416. cbn [andb].
    by rewrite Hl, H16. }
  unfold cidr_net, To16. rewrite Hl, H416, H16. cbn [default from_option id]. rewrite HM.
  unfold networkNumberAndMask, To4. cbn [net_ip net_mask]. rewrite Hz, Hm, H416, H16. cbn [andb].
  rewrite bool_decide_decide.
  pose proof (masked_mapped ip n Hl Hb) as Hmm. destruct (decide (take 12 _ = _)) as [H1|H1].
  - rewrite decide_True by tauto. rewrite zip_with_drop, CIDRMask_drop by lia. done.
  - by rewrite decide_False by tauto.
Qed.

Lemma contains_masked net nn n x :
  networkNumberAndMask net = (zip_with Z.land nn (CIDRMask n (length nn)), CIDRMask n (length nn)) →
  Forall is_byte nn → Forall is_byte (default x (To4 x)) → (n ≤ 8 * length nn)%nat →
  net_Contains net x = true ↔
  length (default x (To4 x)) = length nn ∧
  be (default x (To4 x)) / 2 ^ (8 * Z.of_nat (length nn) - Z.of_nat n) =
    be nn / 2 ^ (8 * Z.of_nat (length nn) - Z.of_nat n).
Proof.
  intros Hn Hnn Hx Hle. unfold net_Contains. rewrite Hn. set (y := default x (To4 x)) in *.
  rewrite andb_true_iff, !bool_decide_eq_true, length_zip_with, length_CIDRMask, land_idem.
  rewrite Nat.min_id. split; intros [Hl He]; (split; [done|]).
  - symmetry. by apply (masked_eq n nn y).
  - symmetry in He. by apply (masked_eq n nn y).
Qed.

Lemma To4_cases ip : ip_ok ip →
  (∃ v4, To4 ip = Some v4 ∧ length v4 = 4%nat ∧ Forall is_byte v4) ∨
  (To4 ip = None ∧ length ip = 16%nat).
Proof.
  intros [[Hl|Hl] Hb]; unfold To4; rewrite Hl; simpl; [left; by exists ip|].
  case_bool_decide; [left|by right]. exists (drop 12 ip). rewrite length_drop.
  split_and!; [done|lia|by apply Forall_drop].
Qed.

Lemma contains_spec ip n x :
  ip_ok ip → ip_ok x → (n ≤ 8 * length ip)%nat →
  net_Contains (cidr_net ip n) x = true ↔ covers ip n (family x).
Proof.
  intros [Hl Hb] Hx Hn. unfold family.
  assert (Hy : Forall is_byte (default x (To4 x)) ∧
    length (default x (To4 x)) = (if To4 x then 4 else 16)%nat).
  { destruct (To4_cases x Hx) as [(v & -> & ? & ?)|[-> ?]]; [done|]. by destruct Hx. }
  destruct Hy as [Hyb Hyl]. destruct Hl as [Hl|Hl].
  - rewrite (contains_masked (cidr_net ip n) ip n x); [|by rewrite Hl; apply number_v4|done|done|lia].
    rewrite Hyl. destruct (To4 x) as [v|]; cbn [covers default from_option id].
    + rewrite bool_decide_true by done. rewrite Hl. change (8 * Z.of_nat 4) with 32. naive_solver.
    + rewrite Hl. naive_solver.
  - pose proof (number_v6 ip n Hl Hb) as Hnum.
    pose proof (prefix12 ip v4InV6Prefix Hl Hb eq_refl v4prefix_bytes) as Hpre.
    change (be v4InV6Prefix) with 0xffff in Hpre.
    assert (Hnb : bool_decide (length ip = 4%nat) = false) by by rewrite Hl.
    destruct (decide _) as [[H96 Hmap%Hpre]|Hno] in Hnum.
    + assert (Hdl : length (drop 12 ip) = 4%nat) by (rewrite length_drop; lia).
      rewrite (contains_masked (cidr_net ip n) (drop 12 ip) (n - 96) x).
      2: by rewrite Hdl. 2: by apply Forall_drop. 2: done. 2: lia.
      rewrite Hyl, Hdl, low32 by done. replace (8 * Z.of_nat 4 - Z.of_nat (n - 96)) with (128 - Z.of_nat n) by lia.
      destruct (To4 x) as [v|] eqn:Ex; cbn [covers]; [rewrite Hnb; cbn [default from_option id]; tauto|].
      split; [by intros []|]. intros [_ He]. exfalso.
      assert (Hxl : length x = 16%nat) by done. destruct Hx as [_ Hxb].
      rewrite (To4_value x Hxl Hxb) in Ex. destruct (Z.eqb_spec (be x / 2 ^ 32) 0xffff) as [|Hne]; [done|].
      apply Hne. rewrite <- Hmap. replace 32 with ((128 - Z.of_nat n) + (Z.of_nat n - 96)) by lia.
      rewrite !Z.pow_add_r, <- !Z.div_div by (try apply Z.pow_nonzero; try apply Z.pow_pos_nonneg; lia).
      by rewrite He.
    + rewrite (contains_masked (cidr_net ip n) ip n x); [|by rewrite Hl|done|done|lia].
      rewrite Hyl, Hl.
      destruct (To4 x) as [v|]; cbn [covers default from_option id]; rewrite ?Hnb; [|tauto].
      split; [by intros []|]. intros (? & ? & _). tauto.
Qed.

(** ** Parsing *)
Lemma byte_in_range lo hi a : byte_in lo hi a = true → Z.of_N lo ≤ Z.of_N (byte_val a) ≤ Z.of_N hi.
Proof. unfold byte_in. rewrite andb_true_iff, !N.leb_le. lia. Qed.

Lemma dec_digit_range a d : dec_digit a = Some d → 0 ≤ d < 10.
Proof.
  unfold dec_digit. destruct (byte_in _ _ a) eqn:E; [|done]. intros [= <-].
  apply byte_in_range in E. lia.
Qed.

Lemma hex_digit_range a d : hex_digit a = Some d → 0 ≤ d < 16.
Proof.
  unfold hex_digit.
  repeat (destruct (byte_in _ _ a) eqn:E; [intros [= <-]; apply byte_in_range in E; lia|clear E]). done.
Qed.

Lemma ipv4_loop_ok l val digLen fields r :
  is_byte val → Forall is_byte fields → (length fields ≤ 3)%nat →
  ipv4_loop l val digLen fields = Some r → length r = 4%nat ∧ Forall is_byte r.
Proof.
  revert val digLen fields. induction l as [|a l IH]; intros val digLen fields Hv Hf Hl; simpl.
  - destruct (Nat.ltb_spec (length fields) 3); [done|]. intros [= <-]. rewrite length_app. simpl.
    split; [lia|]. by apply Forall_app_2, Forall_singleton.
  - destruct (dec_digit a) as [d|] eqn:Ed.
    + apply dec_digit_range in Ed. case_match; [done|]. destruct (Z.ltb_spec 255 (val * 10 + d)); [done|].
      apply IH; [unfold is_byte in *; lia|done|done].
    + case_match; [|done]. case_match; [done|]. destruct (Nat.eqb_spec (length fields) 3); [done|].
      apply IH; [unfold is_byte; lia|by apply Forall_app_2, Forall_singleton|rewrite length_app; simpl; lia].
Qed.

Lemma hex_group_ok l acc off r n rest :
  0 ≤ acc < 16 ^ Z.of_nat off → (off ≤ 4)%nat →
  hex_group l acc off = Some (r, n, rest) → 0 ≤ r < 65536.
Proof.
  assert (Hp : ∀ k, (k ≤ 4)%nat → 16 ^ Z.of_nat k ≤ 65536).
  { intros k Hk. change 65536 with (16 ^ 4). apply Z.pow_le_mono_r; lia. }
  revert acc off. induction l as [|a l IH]; intros acc off Ha Ho; simpl.
  - intros [= <- <- <-]. specialize (Hp off Ho). lia.
  - destruct (hex_digit a) as [d|] eqn:Ed; [|intros [= <- <- <-]; specialize (Hp off Ho); lia].
    apply hex_digit_range in Ed. destruct (Nat.ltb_spec 3 off); [done|].
    apply IH; [|lia]. rewrite Nat2Z.inj_succ, Z.pow_succ_r by lia. lia.
Qed.

Definition v6_state (ip : list Z) (e : option nat) : Prop :=
  Forall is_byte ip ∧ (length ip ≤ 16)%nat ∧ ∀ k, e = Some k → (k ≤ length ip)%nat.

Lemma group_bytes acc : 0 ≤ acc < 65536 → Forall is_byte [Z.shiftr acc 8; Z.land acc 255].
Proof.
  intros H. rewrite !Forall_cons. unfold is_byte. rewrite Z.shiftr_div_pow2 by lia.
  change 255 with (Z.ones 8). rewrite Z.land_ones by lia.
  split_and!; [..|constructor]; Z.div_mod_to_equations; lia.
Qed.

Lemma ipv6_loop_ok fuel s ip e ip' e' s' :
  v6_state ip e → (length ip + 2 * fuel ≤ 16)%nat →
  ipv6_loop fuel s ip e = Some (ip', e', s') → v6_state ip' e'.
Proof.
  revert s ip e. induction fuel as [|fuel IH]; intros s ip e Hst Hf; cbn [ipv6_loop].
  { by intros [= <- <- <-]. }
  destruct (hex_group s 0 0) as [[[acc [|n]] rest]|] eqn:Eg; [done| |done].
  pose proof (hex_group_ok s 0 0 acc (S n) rest ltac:(simpl; lia) ltac:(lia) Eg) as Hacc.
  assert (Hnext : v6_state (ip ++ [Z.shiftr acc 8; Z.land acc 255]) e).
  { destruct Hst as (H1 & H2 & H3). split_and!.
    - apply Forall_app. split; [done|by apply group_bytes].
    - rewrite length_app. simpl. lia.
    - intros k Hk. rewrite length_app. specialize (H3 k Hk). lia. }
  assert (Hlen : length (ip ++ [Z.shiftr acc 8; Z.land acc 255]) = (length ip + 2)%nat)
    by (rewrite length_app; done).
  set (ip1 := ip ++ [Z.shiftr acc 8; Z.land acc 255]) in *. clearbody ip1.
  assert (Hmark : v6_state ip1 (Some (length ip1))).
  { destruct Hnext as (? & ? & _). split_and!; [done..|]. by intros k [= <-]. }
  destruct rest as [|c s1]; [by intros [= <- <- <-]|].
  destruct (Ascii.eqb c "."). { 
    case_match; [done|]. destruct (Nat.ltb_spec 16 (length ip + 4)); [done|].
    destruct (parseIPv4Fields s) as [f|] eqn:Ef; [|done]. intros [= <- <- <-].
    destruct (ipv4_loop_ok s 0 0 [] f ltac:(unfold is_byte; lia) (Forall_nil_2 _) ltac:(simpl; lia) Ef) as [Hfl Hfb].
    destruct Hst as (H1 & H2 & H3). split_and!; [by apply Forall_app|rewrite length_app; lia|].
    intros k Hk. rewrite length_app. specialize (H3 k Hk). lia. }
  destruct (negb _); [done|]. destruct s1 as [|c1 s2]; [done|].
  destruct (Ascii.eqb c1 ":"); [|apply IH; [done|lia]].
  destruct (negb _); [done|]. destruct s2 as [|c2 s3]; [by intros [= <- <- <-]|].
  apply IH; [done|lia].
Qed.

Lemma parseIPv6_ok l ip : parseIPv6 l = Some ip → length ip = 16%nat ∧ Forall is_byte ip.
Proof.
  unfold parseIPv6.
  assert (Hz : ∀ n, Forall is_byte (replicate n 0)) by (intros n; apply Forall_replicate; unfold is_byte; lia).
  destruct (match l with [] => _ | _ => _ end) as [start s] eqn:Es.
  assert (Hs : v6_state [] start).
  { split_and!; [constructor|simpl; lia|]. intros k ->. revert Es. repeat case_match; intros [= <- <-]; done. }
  destruct (_ && _). { intros E. injection E as <-. split; [done|apply (Hz 16%nat)]. }
  destruct (ipv6_loop 8 s [] start) as [[[ip' e] s']|] eqn:El; [|done]. destruct s'; [|done].
  destruct (ipv6_loop_ok 8 s [] start ip' e [] Hs ltac:(simpl; lia) El) as (H1 & H2 & H3).
  destruct (Nat.ltb_spec (length ip') 16).
  - destruct e as [e|]; [|done]. intros [= <-]. specialize (H3 e eq_refl).
    rewrite !length_app, length_replicate, length_take, length_drop. split; [lia|].
    rewrite !Forall_app. split_and!; [by apply Forall_take|apply Hz|by apply Forall_drop].
  - destruct e; [done|]. intros [= <-]. split; [lia|done].
Qed.

Lemma ParseAddr_ok s ip : ParseAddr s = Some ip → ip_ok ip.
Proof.
  unfold ParseAddr. destruct (List.find _ _) as [c|]; [|done]. repeat case_match; try done; intros E.
  - destruct (ipv4_loop_ok (to_bytes s) 0 0 [] ip ltac:(unfold is_byte; lia) (Forall_nil_2 _) ltac:(simpl; lia) E).
    split; [by left|done].
  - destruct (parseIPv6_ok _ _ E). split; [by right|done].
Qed.

Lemma ParseIP_ok s ip : ParseIP s = Some ip → length ip = 16%nat ∧ Forall is_byte ip.
Proof.
  unfold ParseIP. destruct (ParseAddr s) as [x|] eqn:E; [|done]. simpl. unfold To16.
  destruct (ParseAddr_ok s x E) as [[Hl|Hl] Hb].
  - rewrite bool_decide_true by done. intros <-%(inj Some). rewrite length_app, Hl.
    split; [done|]. apply Forall_app. split; [apply v4prefix_bytes|done].
  - rewrite bool_decide_false, bool_decide_true by lia. by intros [= <-].
Qed.

Lemma cidr_parts_ok s ip n : cidr_parts s = Some (ip, n) → ip_ok ip ∧ (n ≤ 8 * length ip)%nat.
Proof.
  unfold cidr_parts. repeat case_match; try done. intros [= <- <-].
  split; [by eapply ParseAddr_ok|]. rewrite Z.ltb_ge in *. lia.
Qed.
