(* ===== verification/SafeHttp.v ===== *)
(** * The outbound HTTP guard

    Models [platform/safehttp/safehttp.go]: the options and the environment,
    the compiled guard ([newGuard], [checkIP], [checkHost], [control]), the
    redirect policy, and a client's exchange: every request and every redirect
    hop resolved, checked and dialled. *)

From stdpp Require Import base gmap sets strings list.
From Stdlib Require Import Ascii ZArith Lia.
From S2P Require Import Prelude GoStrings GoText GoNet.

Open Scope Z_scope.

(** Errors by their sentinel; a blocked address carries the reason. *)
Inductive GuardErr :=
| ErrBlockedAddress (reason : string)
| ErrBlockedScheme
| ErrTooManyRedirects
| ErrUseLastResponse
| ErrInvalidCIDR (cidr : string).

(** Durations in nanoseconds. *)
Definition defaultDialTimeout : Z := 10 * 1000000000.
Definition defaultTimeout : Z := 30 * 1000000000.
Definition defaultMaxRedirects : Z := 5.

Definition metadataIP : IP := IPv4 169 254 169 254.

Definition nat64Prefix : list Z := [0x00; 0x64; 0xff; 0x9b; 0; 0; 0; 0; 0; 0; 0; 0].

Definition builtinDeniedCIDRs : list IPNet :=
  omap ParseCIDR ["100.64.0.0/10"; "192.0.0.0/24"; "198.18.0.0/15"; "240.0.0.0/4"].

(** [Options] without the transport and the logger. *)
Record Options := mkOptions {
  AllowPrivate : bool;
  ExtraDenyCIDRs : list string;
  AllowHosts : list string;
  Timeout : Z;
  DialTimeout : Z;
  MaxRedirects : Z;
  allowAllForTest : bool
}.

Definition zeroOptions : Options := mkOptions false [] [] 0 0 0 false.

(** The environment the options are read from. *)
Record SafeEnv := mkSafeEnv {
  env_allow_private : string; env_extra_deny : string; env_allow_hosts : string
}.

Record guard := mkGuard {
  g_allowPrivate : bool; g_allowAll : bool; g_extraDeny : list IPNet; g_allowHosts : gset string
}.

Definition splitlist (s : string) : list string :=
  List.filter (λ p, negb (String.eqb p "")) (TrimSpace <$> Split s ",").

(** ** The decision on an address *)
Definition cidrContains (nets : list IPNet) (ip : IP) : bool := existsb (λ n, net_Contains n ip) nets.

Definition embeddedNAT64 (ip : IP) : option IP :=
  match To16 ip, To4 ip with
  | Some v6, None =>
    if bool_decide (take 12 v6 = nat64Prefix)
    then Some (IPv4 (at_byte v6 12) (at_byte v6 13) (at_byte v6 14) (at_byte v6 15)) else None
  | _, _ => None
  end.

Definition isULA (ip : IP) : bool :=
  match To16 ip, To4 ip with
  | Some v6, None => Z.land (at_byte v6 0) 0xfe =? 0xfc
  | _, _ => false
  end.

Definition extraDenied (g : guard) (ip : IP) : bool := cidrContains (g_extraDeny g) ip.

(** [checkIP] of an address that is not a NAT64 one. *)
Definition check_family (g : guard) (ip : IP) : option GuardErr :=
  let ip := default ip (To4 ip) in
  if ip_Equal ip metadataIP then Some (ErrBlockedAddress "cloud metadata endpoint")
  else if IsUnspecified ip then Some (ErrBlockedAddress "unspecified address")
  else if cidrContains builtinDeniedCIDRs ip then Some (ErrBlockedAddress "reserved/denied range")
  else if extraDenied g ip then Some (ErrBlockedAddress "denied CIDR")
  else if g_allowPrivate g then None
  else if IsLoopback ip then Some (ErrBlockedAddress "loopback")
  else if IsLinkLocalUnicast ip then Some (ErrBlockedAddress "link-local")
  else if IsLinkLocalMulticast ip then Some (ErrBlockedAddress "link-local multicast")
  else if IsInterfaceLocalMulticast ip then Some (ErrBlockedAddress "interface-local multicast")
  else if IsMulticast ip then Some (ErrBlockedAddress "multicast")
  else if IsPrivate ip then Some (ErrBlockedAddress "private")
  else if isULA ip then Some (ErrBlockedAddress "unique-local")
  else None.

(** The recursion of the source goes one level deep: the address it recurses
    on is an IPv4 one, which is not NAT64. *)
Definition checkIP (g : guard) (ip : option IP) : option GuardErr :=
  if g_allowAll g then None
  else match ip with
  | None => Some (ErrBlockedAddress "nil IP")
  | Some ip =>
    match embeddedNAT64 ip with
    | Some v4 => check_family g v4
    | None => check_family g ip
    end
  end.

Definition control (g : guard) (address : string) : option GuardErr :=
  let host := match SplitHostPort address with Some (h, _) => h | None => address end in
  match ParseIP host with
  | None => Some (ErrBlockedAddress "did not resolve to an IP")
  | Some ip => checkIP g (Some ip)
  end.

Section guard.
Context `{!Casing}.

(** ** Options *)
Definition envTrue (v : string) : bool :=
  existsb (String.eqb (ToLower (TrimSpace v))) ["1"; "true"; "yes"; "on"].

Definition resolveOptions (env : SafeEnv) (o : Options) : Options :=
  mkOptions
    (AllowPrivate o || envTrue (env_allow_private env))
    (let e := TrimSpace (env_extra_deny env) in
     if String.eqb e "" then ExtraDenyCIDRs o else ExtraDenyCIDRs o ++ splitlist e)
    (let e := TrimSpace (env_allow_hosts env) in
     if String.eqb e "" then AllowHosts o else AllowHosts o ++ splitlist e)
    (if Timeout o =? 0 then defaultTimeout else Timeout o)
    (if DialTimeout o =? 0 then defaultDialTimeout else DialTimeout o)
    (if MaxRedirects o =? 0 then defaultMaxRedirects else MaxRedirects o)
    (allowAllForTest o).

(** [Option]: the exported ones; the test seam's field has none. *)
Inductive Option :=
| WithAllowPrivate (allow : bool)
| WithExtraDenyCIDRs (cidrs : list string)
| WithAllowHosts (hosts : list string)
| WithTimeout (d : Z)
| WithDialTimeout (d : Z)
| WithMaxRedirects (n : Z).

Definition apply_option (o : Options) (opt : Option) : Options :=
  match opt with
  | WithAllowPrivate b =>
    mkOptions b (ExtraDenyCIDRs o) (AllowHosts o) (Timeout o) (DialTimeout o) (MaxRedirects o) (allowAllForTest o)
  | WithExtraDenyCIDRs l =>
    mkOptions (AllowPrivate o) (ExtraDenyCIDRs o ++ l) (AllowHosts o) (Timeout o) (DialTimeout o) (MaxRedirects o)
      (allowAllForTest o)
  | WithAllowHosts l =>
    mkOptions (AllowPrivate o) (ExtraDenyCIDRs o) (AllowHosts o ++ l) (Timeout o) (DialTimeout o) (MaxRedirects o)
      (allowAllForTest o)
  | WithTimeout d =>
    mkOptions (AllowPrivate o) (ExtraDenyCIDRs o) (AllowHosts o) d (DialTimeout o) (MaxRedirects o) (allowAllForTest o)
  | WithDialTimeout d =>
    mkOptions (AllowPrivate o) (ExtraDenyCIDRs o) (AllowHosts o) (Timeout o) d (MaxRedirects o) (allowAllForTest o)
  | WithMaxRedirects n =>
    mkOptions (AllowPrivate o) (ExtraDenyCIDRs o) (AllowHosts o) (Timeout o) (DialTimeout o) n (allowAllForTest o)
  end.

(** [testSeam]: a test binary that opted in. *)
Definition buildOptions (testSeam : bool) (env : SafeEnv) (opts : list Option) : Options :=
  let o := foldl apply_option zeroOptions opts in
  let o := if testSeam then apply_option o (WithAllowPrivate true) else o in
  resolveOptions env o.

Fixpoint parse_denied (cidrs : list string) : result GuardErr (list IPNet) :=
  match cidrs with
  | [] => Ok []
  | c :: cidrs' =>
    let c := TrimSpace c in
    if String.eqb c "" then parse_denied cidrs'
    else match ParseCIDR c with
    | None => Err (ErrInvalidCIDR c)
    | Some n => let? rest := parse_denied cidrs' in Ok (n :: rest)
    end
  end.

Definition host_key (h : string) : string := TrimSpace (ToLower h).

Definition newGuard (o : Options) : result GuardErr guard :=
  let? deny := parse_denied (ExtraDenyCIDRs o) in
  Ok (mkGuard (AllowPrivate o) (allowAllForTest o) deny
    (list_to_set (List.filter (λ h, negb (String.eqb h "")) (host_key <$> AllowHosts o)))).

Definition checkHost (g : guard) (host : string) : option GuardErr :=
  if g_allowAll g || bool_decide (g_allowHosts g = ∅) then None
  else if bool_decide (ToLower host ∈ g_allowHosts g) then None
  else Some (ErrBlockedAddress "not in the allowlist").

(** ** Requests *)

(** A request of a chain: the URL's scheme and hostname, and the addresses the
    dialer tries in turn with whether a connection to each succeeds. *)
Record Hop := mkHop { h_scheme : string; h_host : string; h_dials : list (string * bool) }.

(** [via]: how many requests have been made. *)
Definition checkRedirect (g : guard) (max : Z) (via : nat) (req : Hop) : option GuardErr :=
  if max <? 0 then Some ErrUseLastResponse
  else if max <=? Z.of_nat via then Some ErrTooManyRedirects
  else
    let s := ToLower (h_scheme req) in
    if negb (String.eqb s "http") && negb (String.eqb s "https") then Some ErrBlockedScheme
    else checkHost g (h_host req).

(** [net.Dialer]: the first address that passes the hook and connects. *)
Fixpoint dial (g : guard) (addrs : list (string * bool)) : option string :=
  match addrs with
  | [] => None
  | (a, up) :: addrs' =>
    match control g a with
    | None => if up : bool then Some a else dial g addrs'
    | Some _ => dial g addrs'
    end
  end.

(** [hostGuarded] around a transport; a round tripper is given by the address
    it connects to. *)
Definition hostGuarded (g : guard) (rt : Hop → option string) (req : Hop) : option string :=
  if bool_decide (g_allowHosts g = ∅) then rt req
  else match checkHost g (h_host req) with Some _ => None | None => rt req end.

(** The transport of [NewClient]. *)
Definition roundTrip (g : guard) (req : Hop) : option string :=
  hostGuarded g (λ r, dial g (h_dials r)) req.

(** [http.Client.Do]: the requests that reached a server, each with the address
    it was sent to; [next] are the redirects the servers answer with. *)
Fixpoint client_do (g : guard) (max : Z) (via : nat) (req : Hop) (next : list Hop) : list (Hop * string) :=
  match roundTrip g req with
  | None => []
  | Some a =>
    (req, a) :: match next with
    | [] => []
    | req' :: next' =>
      match checkRedirect g max (S via) req' with
      | Some _ => []
      | None => client_do g max (S via) req' next'
      end
    end
  end.

(** [NewClient] and one exchange with it. *)
Definition fetch (testSeam : bool) (env : SafeEnv) (opts : list Option) (req : Hop) (next : list Hop)
    : result GuardErr (list (Hop * string)) :=
  let o := buildOptions testSeam env opts in
  let? g := newGuard o in
  Ok (client_do g (MaxRedirects o) 0 req next).

(** [NewClientOrDefault]: on a bad configuration the client of no options, and
    one that refuses everything when that fails too. *)
Definition fetchOrDefault (testSeam : bool) (env : SafeEnv) (opts : list Option) (req : Hop) (next : list Hop)
    : list (Hop * string) :=
  match fetch testSeam env opts req next with
  | Ok l => l
  | Err _ => match fetch testSeam env [] req next with Ok l => l | Err _ => [] end
  end.

(** [GuardedBase]: on a bad configuration the transport of no options behind
    the host check of the zero options. *)
Definition guardedBase (testSeam : bool) (env : SafeEnv) (opts : list Option) (req : Hop) : option string :=
  match newGuard (buildOptions testSeam env opts) with
  | Ok g => hostGuarded g (λ r, dial g (h_dials r)) req
  | Err _ =>
    match newGuard (buildOptions testSeam env []) with
    | Err _ => None
    | Ok g =>
      match newGuard zeroOptions with
      | Err _ => dial g (h_dials req)
      | Ok g0 => hostGuarded g0 (λ r, dial g (h_dials r)) req
      end
    end
  end.
End guard.

(** [ReadResponse]: at most [max] bytes. *)
Definition DefaultMaxResponseBytes : Z := 67108864.

Definition ReadResponse (body : bytes) (max : Z) : bytes :=
  take (Z.to_nat (if max <=? 0 then DefaultMaxResponseBytes else max)) body.

(** * The outbound HTTP guard: proofs

    The guard's decision is exactly a set of numeric address ranges applied to
    the address a connection really goes to, and a client built with any
    options opens no connection outside it, whatever the redirects. *)

(** ** The policy *)
Definition ipv4 (a b c d : Z) : Z := a * 2 ^ 24 + b * 2 ^ 16 + c * 2 ^ 8 + d.

(** Refused under every configuration: the metadata service, the unspecified
    addresses, carrier-grade NAT and the reserved IPv4 ranges. *)
Definition always_refused (a : Addr) : Prop :=
  match a with
  | V4 x =>
    x = ipv4 169 254 169 254 ∨ x = 0 ∨
    ipv4 100 64 0 0 ≤ x ≤ ipv4 100 127 255 255 ∨ ipv4 192 0 0 0 ≤ x ≤ ipv4 192 0 0 255 ∨
    ipv4 198 18 0 0 ≤ x ≤ ipv4 198 19 255 255 ∨ ipv4 240 0 0 0 ≤ x
  | V6 x => x = 0
  end.

(** Loopback, link-local, multicast, private and unique-local addresses. *)
Definition private_space (a : Addr) : Prop :=
  match a with
  | V4 x =>
    ipv4 127 0 0 0 ≤ x ≤ ipv4 127 255 255 255 ∨ ipv4 169 254 0 0 ≤ x ≤ ipv4 169 254 255 255 ∨
    ipv4 224 0 0 0 ≤ x ≤ ipv4 239 255 255 255 ∨ ipv4 10 0 0 0 ≤ x ≤ ipv4 10 255 255 255 ∨
    ipv4 172 16 0 0 ≤ x ≤ ipv4 172 31 255 255 ∨ ipv4 192 168 0 0 ≤ x ≤ ipv4 192 168 255 255
  | V6 x => x = 1 ∨ x / 2 ^ 118 = 0x3fa ∨ x / 2 ^ 120 = 0xff ∨ x / 2 ^ 121 = 0x7e
  end.

(** [deny]: the operator's networks; [relaxed]: the private space is open. *)
Definition refused (deny : list (IP * nat)) (relaxed : bool) (a : Addr) : Prop :=
  always_refused a ∨ (∃ ip n, (ip, n) ∈ deny ∧ covers ip n a) ∨ (relaxed = false ∧ private_space a).

(** The machine a 128-bit address reaches: the IPv4 host behind an IPv4-mapped
    (::ffff:0:0/96) or NAT64 (64:ff9b::/96) address, else itself. *)
Definition target (x : Z) : Addr :=
  if (x / 2 ^ 32 =? 0xffff) || (x / 2 ^ 32 =? 0x64ff9b * 2 ^ 64) then V4 (x mod 2 ^ 32) else V6 x.

Definition any_private (ip : IP) : bool :=
  IsLoopback ip || IsLinkLocalUnicast ip || IsLinkLocalMulticast ip || IsInterfaceLocalMulticast ip
  || IsMulticast ip || IsPrivate ip || isULA ip.

(** Bit masks of bytes as divisions. *)
Lemma land_f0 b : is_byte b → Z.land b 0xf0 = 16 * (b / 16).
Proof. intros Hb. apply Z.eqb_eq. by apply (byte_forall (λ b, Z.land b 0xf0 =? 16 * (b / 16))). Qed.

Lemma land_fe b : is_byte b → Z.land b 0xfe = 2 * (b / 2).
Proof. intros Hb. apply Z.eqb_eq. by apply (byte_forall (λ b, Z.land b 0xfe =? 2 * (b / 2))). Qed.

Lemma land_c0 b : is_byte b → Z.land b 0xc0 = 64 * (b / 64).
Proof. intros Hb. apply Z.eqb_eq. by apply (byte_forall (λ b, Z.land b 0xc0 =? 64 * (b / 64))). Qed.

(** ** IPv4 *)
Section v4.
Context (a b c d : Z) (Ha : is_byte a) (Hb : is_byte b) (Hc : is_byte c) (Hd : is_byte d).

Abbreviation ip := [a; b; c; d].

Lemma be_v4 : be ip = ipv4 a b c d.
Proof using Type. cbn [be length]. unfold ipv4. lia. Qed.

Lemma v4_equal p q r s : ip_Equal ip (IPv4 p q r s) = true ↔ ip = [p; q; r; s].
Proof using Type. unfold ip_Equal, IPv4. simpl. by rewrite bool_decide_eq_true. Qed.

Lemma v4_unspecified : IsUnspecified ip = true ↔ be ip = 0.
Proof using All.
  unfold IsUnspecified. rewrite orb_true_iff, v4_equal, be_v4. unfold is_byte, ipv4 in *.
  split; [intros [[= -> -> -> ->]|H]; [done|by vm_compute in H]|]. intros H. left. repeat f_equal; lia.
Qed.

Lemma v4_metadata : ip_Equal ip metadataIP = true ↔ be ip = ipv4 169 254 169 254.
Proof using All.
  unfold metadataIP. rewrite v4_equal, be_v4. unfold is_byte, ipv4 in *.
  split; [by intros [= -> -> -> ->]|]. intros H. repeat f_equal; lia.
Qed.

Lemma v4_ok : ip_ok ip.
Proof using All. split; [by left|]. rewrite !Forall_cons. auto using Forall_nil_2. Qed.

Lemma v4_builtin : cidrContains builtinDeniedCIDRs ip = true ↔
  ipv4 100 64 0 0 ≤ be ip ≤ ipv4 100 127 255 255 ∨ ipv4 192 0 0 0 ≤ be ip ≤ ipv4 192 0 0 255 ∨
  ipv4 198 18 0 0 ≤ be ip ≤ ipv4 198 19 255 255 ∨ ipv4 240 0 0 0 ≤ be ip.
Proof using All.
  assert (Hnets : builtinDeniedCIDRs =
    [cidr_net [100; 64; 0; 0] 10; cidr_net [192; 0; 0; 0] 24; cidr_net [198; 18; 0; 0] 15;
     cidr_net [240; 0; 0; 0] 4]) by (vm_compute; reflexivity).
  pose proof (be_bound ip (proj2 v4_ok)) as Hx. change (2 ^ (8 * Z.of_nat (length ip))) with (2 ^ 32) in Hx.
  assert (Hcov : ∀ p q r s n, (n ≤ 32)%nat → is_byte p → is_byte q → is_byte r → is_byte s →
    net_Contains (cidr_net [p; q; r; s] n) ip = true ↔
    be ip / 2 ^ (32 - Z.of_nat n) = be [p; q; r; s] / 2 ^ (32 - Z.of_nat n)).
  { intros p q r s n Hn ????. rewrite contains_spec; [done| |apply v4_ok|simpl; lia].
    split; [by left|]. rewrite !Forall_cons. auto using Forall_nil_2. }
  rewrite Hnets. unfold cidrContains. cbn [existsb]. rewrite !orb_true_iff, !Hcov by (unfold is_byte; lia).
  clear Hcov Hnets. generalize (be ip) Hx. intros x Hx'. unfold ipv4. simpl be.
  split.
  - intros [H|[H|[H|[H|H]]]]; [| | | |done]; revert H; simpl; Z.div_mod_to_equations; lia.
  - intros [H|[H|[H|H]]]; [left|right; left|do 2 right; left|do 3 right; left]; simpl;
      Z.div_mod_to_equations; lia.
Qed.

Lemma v4_private : any_private ip = true ↔ private_space (V4 (be ip)).
Proof using All.
  rewrite be_v4. unfold any_private, IsLoopback, IsLinkLocalUnicast, IsLinkLocalMulticast,
    IsInterfaceLocalMulticast, IsMulticast, IsPrivate, isULA, To16, To4, at_byte, is16.
  cbn [length bool_decide decide_rel decide lookup list_lookup default from_option id]. simpl.
  rewrite !land_f0 by done. unfold private_space, ipv4, is_byte in *.
  repeat first [rewrite orb_true_iff | rewrite andb_true_iff]. rewrite !Z.eqb_eq.
  Z.div_mod_to_equations. lia.
Qed.
End v4.

(** ** IPv6 *)
Section v6.
Context (ip : IP) (Hl : length ip = 16%nat) (Hb : Forall is_byte ip) (H4 : To4 ip = None).

Lemma v6_ok : ip_ok ip.
Proof using All. split; [by right|done]. Qed.

(** Equality with a 16-byte address, by value. *)
Lemma v6_equal x : length x = 16%nat → Forall is_byte x → ip_Equal ip x = true ↔ be ip = be x.
Proof using All.
  intros Hx Hxb. unfold ip_Equal. rewrite bool_decide_true, bool_decide_eq_true by congruence.
  split; [by intros ->|]. apply be_inj; [congruence|done|done].
Qed.

Lemma v6_not_v4 p q r s : is_byte p → is_byte q → is_byte r → is_byte s → ip_Equal ip (IPv4 p q r s) = false.
Proof using All.
  intros _ _ _ _. apply not_true_is_false. intros H. unfold ip_Equal in H.
  rewrite bool_decide_true in H by by rewrite Hl. apply bool_decide_eq_true in H. rewrite H in H4.
  by vm_compute in H4.
Qed.

Lemma v6_unspecified : IsUnspecified ip = true ↔ be ip = 0.
Proof using All.
  unfold IsUnspecified. rewrite v6_not_v4 by (unfold is_byte; lia). cbn [orb].
  rewrite v6_equal; [done|done|]. repeat (constructor; [unfold is_byte; lia|]). constructor.
Qed.

Lemma v6_builtin : cidrContains builtinDeniedCIDRs ip = false.
Proof using All.
  assert (Hnets : builtinDeniedCIDRs =
    [cidr_net [100; 64; 0; 0] 10; cidr_net [192; 0; 0; 0] 24; cidr_net [198; 18; 0; 0] 15;
     cidr_net [240; 0; 0; 0] 4]) by (vm_compute; reflexivity).
  apply not_true_is_false. rewrite Hnets. intros H. unfold cidrContains in H.
  apply existsb_exists in H as (net & Hin & Hc).
  assert (∃ p q r s n, net = cidr_net [p; q; r; s] n ∧ (n ≤ 32)%nat ∧ Forall is_byte [p; q; r; s])
    as (p & q & r & s & n & -> & Hn & Hpb).
  { simpl in Hin. destruct Hin as [<-|[<-|[<-|[<-|[]]]]]; do 5 eexists; (split; [reflexivity|]);
      (split; [lia|repeat (constructor; [unfold is_byte; lia|]); constructor]). }
  apply contains_spec in Hc; [|by split; [left|]|apply v6_ok|simpl; lia].
  unfold family in Hc. rewrite H4 in Hc. by destruct Hc.
Qed.

Lemma v6_split : ∃ b0 b1 r, at_byte ip 0 = b0 ∧ at_byte ip 1 = b1 ∧ is_byte b0 ∧ is_byte b1 ∧
  be ip = b0 * 2 ^ 120 + b1 * 2 ^ 112 + r ∧ 0 ≤ r < 2 ^ 112.
Proof using Hl Hb.
  clear H4. destruct ip as [|b0 [|b1 l]]; try done. inversion Hb as [|? ? H0 Hb1]; subst.
  inversion Hb1 as [|? ? H1 Hb2]; subst. exists b0, b1, (be l). simpl in Hl. injection Hl as Hl'.
  pose proof (be_bound l Hb2) as Hr. rewrite Hl' in Hr. split_and!; try done; [|lia..].
  cbn [be length]. rewrite Hl'. lia.
Qed.

Lemma v6_private : any_private ip = true ↔ private_space (V6 (be ip)).
Proof using All.
  assert (Hlo : ip_Equal ip IPv6loopback = true ↔ be ip = 1).
  { rewrite v6_equal; [done|done|]. repeat (constructor; [unfold is_byte; lia|]). constructor. }
  assert (H16 : bool_decide (length ip = 16%nat) = true) by by rewrite Hl.
  assert (Hn4 : bool_decide (length ip = 4%nat) = false) by by rewrite Hl.
  unfold any_private, IsLoopback, IsLinkLocalUnicast, IsLinkLocalMulticast,
    IsInterfaceLocalMulticast, IsMulticast, IsPrivate, isULA, To16, is16. rewrite H4, Hn4, H16.
  cbn [andb]. rewrite !orb_true_iff, !andb_true_iff, Hlo, !Z.eqb_eq.
  destruct v6_split as (b0 & b1 & r & -> & -> & Hb0 & Hb1 & -> & Hr).
  rewrite !land_fe, !land_c0 by done. unfold private_space, is_byte in *.
  assert (E1 : (b0 * 2 ^ 120 + b1 * 2 ^ 112 + r) / 2 ^ 118 = 4 * b0 + b1 / 64)
    by (Z.div_mod_to_equations; lia).
  assert (E2 : (b0 * 2 ^ 120 + b1 * 2 ^ 112 + r) / 2 ^ 120 = b0) by (Z.div_mod_to_equations; lia).
  assert (E3 : (b0 * 2 ^ 120 + b1 * 2 ^ 112 + r) / 2 ^ 121 = b0 / 2) by (Z.div_mod_to_equations; lia).
  rewrite E1, E2, E3. clear E1 E2 E3.
  assert (0 ≤ b1 / 64 < 4) by (Z.div_mod_to_equations; lia).
  intuition (try lia).
Qed.
End v6.

(** ** The decision *)
Definition cidr_ok (p : IP * nat) : Prop := ip_ok p.1 ∧ (p.2 ≤ 8 * length p.1)%nat.

(** [g] denies exactly the networks [deny]. *)
Definition denies (g : guard) (deny : list (IP * nat)) : Prop :=
  g_extraDeny g = (λ p, cidr_net p.1 p.2) <$> deny ∧ Forall cidr_ok deny.

Lemma extra_denied g deny ip :
  denies g deny → ip_ok ip →
  extraDenied g ip = true ↔ ∃ net n, (net, n) ∈ deny ∧ covers net n (family ip).
Proof.
  intros [Hg Hok] Hip. unfold extraDenied, cidrContains. rewrite Hg, existsb_exists.
  rewrite Forall_forall in Hok. split.
  - intros (x & Hin & Hc). apply list_elem_of_In, list_elem_of_fmap in Hin as ([net n] & -> & Hin).
    destruct (Hok _ Hin) as [Hnet Hn]. exists net, n. split; [done|]. by apply (contains_spec net n ip).
  - intros (net & n & Hin & Hc). exists (cidr_net net n).
    destruct (Hok _ Hin) as [Hnet Hn]. split; [|by apply (contains_spec net n ip)].
    apply list_elem_of_In, list_elem_of_fmap. by exists (net, n).
Qed.

(** [check_family] passes when every test does. *)
Lemma check_family_None g ip :
  let ip' := default ip (To4 ip) in
  check_family g ip = None ↔
  ¬ ((ip_Equal ip' metadataIP = true ∨ IsUnspecified ip' = true ∨ cidrContains builtinDeniedCIDRs ip' = true) ∨
     extraDenied g ip' = true ∨ (g_allowPrivate g = false ∧ any_private ip' = true)).
Proof.
  cbv zeta. unfold check_family, any_private. rewrite !orb_true_iff.
  repeat (case_match; try (split; [done|tauto])); split; try done; intros _;
    repeat match goal with H : _ = false |- _ => rewrite ?H; clear H end; intuition congruence.
Qed.

Lemma family_default ip : ip_ok ip → ip_ok (default ip (To4 ip)) ∧ family (default ip (To4 ip)) = family ip.
Proof.
  intros Hip. unfold family. destruct (To4_cases ip Hip) as [(v & E & Hl & Hb)|[E Hl]]; rewrite E; simpl.
  - split; [by split; [left|]|]. unfold To4. rewrite bool_decide_true by done. done.
  - by rewrite E.
Qed.

Lemma check_family_exact g deny ip :
  denies g deny → ip_ok ip →
  check_family g ip = None ↔ ¬ refused deny (g_allowPrivate g) (family ip).
Proof.
  intros Hg Hip. rewrite check_family_None. destruct (family_default ip Hip) as [Hok Hf].
  apply not_iff_compat. unfold refused. rewrite (extra_denied g deny _ Hg Hok), Hf. unfold family.
  destruct (To4_cases ip Hip) as [(v & E & Hl & Hb)|[E Hl]]; rewrite E; cbn [default from_option id].
  - destruct v as [|a [|b [|c [|d [|]]]]]; try done. rewrite !Forall_cons in Hb.
    destruct Hb as (Ha & Hb & Hc & Hd & _).
    rewrite v4_metadata, v4_unspecified, v4_builtin, v4_private by done. unfold always_refused. tauto.
  - destruct Hip as [_ Hb]. unfold metadataIP. rewrite v6_not_v4 by (done || (unfold is_byte; lia)).
    rewrite v6_unspecified, v6_builtin, v6_private by done. unfold always_refused. naive_solver.
Qed.

Lemma nat64_value ip :
  length ip = 16%nat → Forall is_byte ip → To4 ip = None →
  embeddedNAT64 ip = if be ip / 2 ^ 32 =? 0x64ff9b * 2 ^ 64 then Some (v4InV6Prefix ++ drop 12 ip) else None.
Proof.
  intros Hl Hb H4. unfold embeddedNAT64, To16. rewrite H4, Hl. cbn [bool_decide]. simpl.
  assert (Hp : Forall is_byte nat64Prefix) by (repeat (constructor; [unfold is_byte; lia|]); constructor).
  pose proof (prefix12 ip nat64Prefix Hl Hb eq_refl Hp) as Hpre.
  change (be nat64Prefix) with (0x64ff9b * 2 ^ 64) in Hpre.
  case_bool_decide as He.
  - rewrite (proj2 (Z.eqb_eq _ _) (proj1 Hpre He)). do 16 (destruct ip as [|? ip]; [done|]). by destruct ip.
  - by rewrite (proj2 (Z.eqb_neq _ _) (λ H, He (proj2 Hpre H))).
Qed.

(** The guard passes an address exactly when policy does not refuse the
    machine it reaches. *)
Lemma checkIP_exact g deny ip :
  g_allowAll g = false → denies g deny → length ip = 16%nat → Forall is_byte ip →
  checkIP g (Some ip) = None ↔ ¬ refused deny (g_allowPrivate g) (target (be ip)).
Proof.
  intros Hall Hg Hl Hb. unfold checkIP, target. rewrite Hall.
  pose proof (To4_value ip Hl Hb) as E4. destruct (Z.eqb_spec (be ip / 2 ^ 32) 0xffff) as [Hm|Hm]; simpl orb.
  - assert (embeddedNAT64 ip = None) as -> by (unfold embeddedNAT64; rewrite E4; by destruct (To16 ip)).
    rewrite (check_family_exact g deny ip Hg) by (split; [by right|done]).
    unfold family. by rewrite E4, low32.
  - rewrite (nat64_value ip Hl Hb E4). destruct (_ =? 0x64ff9b * 2 ^ 64); cbn [orb].
    + assert (Hv : Forall is_byte (v4InV6Prefix ++ drop 12 ip))
        by (apply Forall_app; split; [apply v4prefix_bytes|by apply Forall_drop]).
      assert (Hvl : length (v4InV6Prefix ++ drop 12 ip) = 16%nat) by (rewrite length_app, length_drop, Hl; done).
      rewrite (check_family_exact g deny _ Hg) by (split; [by right|done]). unfold family.
      assert (To4 (v4InV6Prefix ++ drop 12 ip) = Some (drop 12 ip)) as -> by (unfold To4; by rewrite Hvl).
      by rewrite low32.
    + rewrite (check_family_exact g deny ip Hg) by (split; [by right|done]). unfold family. by rewrite E4.
Qed.

(** ** Clients *)

(** What the options [o] refuse. *)
Definition policy_refuses (o : Options) (a : Addr) : Prop :=
  always_refused a ∨
  (∃ c ip n, c ∈ ExtraDenyCIDRs o ∧ cidr_parts (TrimSpace c) = Some (ip, n) ∧ covers ip n a) ∨
  (AllowPrivate o = false ∧ private_space a).

Lemma parse_denied_spec cidrs nets :
  parse_denied cidrs = Ok nets →
  ∃ deny, nets = (λ p, cidr_net p.1 p.2) <$> deny ∧ Forall cidr_ok deny ∧
    ∀ p, p ∈ deny ↔ ∃ c, c ∈ cidrs ∧ cidr_parts (TrimSpace c) = Some p.
Proof.
  revert nets. induction cidrs as [|c cidrs IH]; intros nets; simpl.
  { intros [= <-]. exists []. split_and!; [done|constructor|]. intros p. set_solver. }
  destruct (String.eqb_spec (TrimSpace c) "") as [He|He].
  { intros Hp. destruct (IH nets Hp) as (deny & -> & Hok & Hin). exists deny. split_and!; [done..|].
    intros p. rewrite Hin. setoid_rewrite elem_of_cons. split; [naive_solver|].
    intros (c' & [->|Hc] & Hcp); [by rewrite He in Hcp|eauto]. }
  unfold ParseCIDR. destruct (cidr_parts (TrimSpace c)) as [[ip n]|] eqn:Ec; [|done].
  destruct (parse_denied cidrs) as [rest|e]; [|done]. intros [= <-].
  destruct (IH rest eq_refl) as (deny & -> & Hok & Hin). exists ((ip, n) :: deny).
  split_and!; [done|constructor; [by eapply cidr_parts_ok|done]|].
  intros p. rewrite elem_of_cons, Hin. setoid_rewrite elem_of_cons. split; [naive_solver|].
  intros (c' & [->|Hc] & Hcp); [left; congruence|eauto].
Qed.

Section client.
Context `{HLow : !Casing}.

Lemma newGuard_spec o g :
  newGuard o = Ok g →
  g_allowAll g = allowAllForTest o ∧ g_allowPrivate g = AllowPrivate o ∧
  (∃ deny, denies g deny ∧ ∀ p, p ∈ deny ↔ ∃ c, c ∈ ExtraDenyCIDRs o ∧ cidr_parts (TrimSpace c) = Some p) ∧
  ∀ h, h ∈ g_allowHosts g ↔ h ≠ "" ∧ ∃ h', h' ∈ AllowHosts o ∧ h = host_key h'.
Proof using Type.
  unfold newGuard. destruct (parse_denied _) as [nets|] eqn:E; [|done]. intros [= <-]. simpl.
  destruct (parse_denied_spec _ _ E) as (deny & -> & Hok & Hin). split_and!; [done..| |].
  - exists deny. split; [by split|done].
  - intros h. rewrite elem_of_list_to_set, list_elem_of_In, filter_In, <- list_elem_of_In, list_elem_of_fmap.
    rewrite negb_true_iff. destruct (String.eqb_spec h ""); naive_solver.
Qed.

Lemma checkIP_policy o g ip :
  newGuard o = Ok g → allowAllForTest o = false → length ip = 16%nat → Forall is_byte ip →
  checkIP g (Some ip) = None ↔ ¬ policy_refuses o (target (be ip)).
Proof using Type.
  intros Hg Hall Hl Hb. destruct (newGuard_spec o g Hg) as (Ha & Hp & (deny & Hd & Hin) & _).
  rewrite (checkIP_exact g deny ip) by (done || congruence). apply not_iff_compat.
  unfold refused, policy_refuses. rewrite Hp. setoid_rewrite Hin. naive_solver.
Qed.

Lemma foldl_options opts o :
  allowAllForTest (foldl apply_option o opts) = allowAllForTest o ∧
  (AllowPrivate (foldl apply_option o opts) = true → AllowPrivate o = true ∨ WithAllowPrivate true ∈ opts).
Proof using Type.
  revert o. induction opts as [|x opts IH]; intros o; simpl; [auto|].
  destruct (IH (apply_option o x)) as [H1 H2]. rewrite H1. setoid_rewrite elem_of_cons.
  split; [by destruct x|]. intros [H|H]%H2; [|auto]. destruct x as [[]| | | | |]; simpl in H; (done || auto).
Qed.

Lemma buildOptions_spec env opts :
  let o := buildOptions false env opts in
  allowAllForTest o = false ∧
  (AllowPrivate o = true → WithAllowPrivate true ∈ opts ∨ envTrue (env_allow_private env) = true).
Proof using Type.
  simpl. destruct (foldl_options opts zeroOptions) as [H1 H2]. rewrite H1. split; [done|].
  rewrite orb_true_iff. intros [H|H]; [|auto]. destruct (H2 H) as [|]; [done|auto].
Qed.

Lemma dial_spec g addrs a : dial g addrs = Some a → control g a = None.
Proof using Type.
  induction addrs as [|[x up] addrs IH]; simpl; [done|].
  destruct (control g x) eqn:E; [done|]. destruct up; [by intros [= <-]|done].
Qed.

Lemma roundTrip_spec g req a :
  g_allowAll g = false → roundTrip g req = Some a →
  control g a = None ∧ (g_allowHosts g = ∅ ∨ ToLower (h_host req) ∈ g_allowHosts g).
Proof using Type.
  intros Hall. unfold roundTrip, hostGuarded, checkHost. rewrite Hall. cbn [orb].
  case_bool_decide; [intros H1%dial_spec; auto|].
  case_bool_decide; [intros H1%dial_spec; auto|done].
Qed.

Lemma client_do_spec g max via req next :
  g_allowAll g = false →
  (∀ hop a, (hop, a) ∈ client_do g max via req next →
     control g a = None ∧ (g_allowHosts g = ∅ ∨ ToLower (h_host hop) ∈ g_allowHosts g)) ∧
  Z.of_nat (length (client_do g max via req next)) ≤ Z.max 1 (max - Z.of_nat via).
Proof using Type.
  intros Hall. revert via req. induction next as [|req' next IH]; intros via req; cbn [client_do].
  - destruct (roundTrip g req) as [a|] eqn:Er; [|split; [set_solver|simpl; lia]].
    split; [|simpl; lia]. intros hop b [= -> ->]%list_elem_of_singleton. by apply roundTrip_spec.
  - destruct (roundTrip g req) as [a|] eqn:Er; [|split; [set_solver|simpl; lia]].
    destruct (checkRedirect g max (S via) req') as [e|] eqn:Ec.
    + split; [|simpl; lia]. intros hop b [= -> ->]%list_elem_of_singleton. by apply roundTrip_spec.
    + destruct (IH (S via) req') as [H1 H2]. split.
      * intros hop b [[= -> ->]|Hin]%elem_of_cons; [by apply roundTrip_spec|eauto].
      * unfold checkRedirect in Ec. destruct (max <? 0); [done|].
        destruct (Z.leb_spec max (Z.of_nat (S via))); [done|]. simpl length. lia.
Qed.

(** What the dialer's hook lets through, under the options it was built from. *)
Lemma control_policy env opts g a :
  newGuard (buildOptions false env opts) = Ok g → control g a = None →
  ∃ ip, ParseIP (match SplitHostPort a with Some (h, _) => h | None => a end) = Some ip ∧
    ¬ policy_refuses (buildOptions false env opts) (target (be ip)).
Proof using Type.
  intros Eg Hc. unfold control in Hc. destruct (ParseIP _) as [ip|] eqn:Ep; [|done]. exists ip. split; [done|].
  destruct (ParseIP_ok _ _ Ep) as [Hl Hb].
  apply (checkIP_policy (buildOptions false env opts) g ip); try done. apply buildOptions_spec.
Qed.

(** The transport under a connector's credentials connects to no refused
    address either; with a bad configuration the policy is the environment's. *)
Lemma guarded_base_policy env opts req a :
  guardedBase false env opts req = Some a →
  ∃ opts' ip, (opts' = opts ∨ opts' = []) ∧
    ParseIP (match SplitHostPort a with Some (h, _) => h | None => a end) = Some ip ∧
    ¬ policy_refuses (buildOptions false env opts') (target (be ip)).
Proof using Type.
  unfold guardedBase. destruct (newGuard (buildOptions false env opts)) as [g|e] eqn:Eg.
  - intros H. destruct (control_policy env opts g a Eg) as (ip & Hp & Hn); [|by exists opts, ip; eauto].
    revert H. unfold hostGuarded. case_bool_decide; [|destruct (checkHost _ _); [done|]]; apply dial_spec.
  - destruct (newGuard (buildOptions false env [])) as [g|] eqn:Eg'; [|done]. intros H.
    destruct (control_policy env [] g a Eg') as (ip & Hp & Hn); [|by exists [], ip; eauto].
    revert H. cbn. unfold hostGuarded. rewrite bool_decide_true by done. apply dial_spec.
Qed.

(** C16. The guard's decision is exactly the policy: for every configuration a
    client can be built with, [checkIP] passes an address if and only if the
    machine it reaches (the IPv4 host inside an IPv4-mapped or NAT64 address)
    is none of the ranges that are always refused, in none of the configured
    networks, and not in private space unless that was opened; the byte masks
    and CIDR arithmetic of the code decide precisely these numeric ranges. *)
Theorem guard_decision_exact env opts g ip :
  newGuard (buildOptions false env opts) = Ok g → length ip = 16%nat → Forall is_byte ip →
  checkIP g (Some ip) = None ↔ ¬ policy_refuses (buildOptions false env opts) (target (be ip)).
Proof using Type.
  intros Hg. apply checkIP_policy; [done|]. apply (buildOptions_spec env opts).
Qed.

(** C15. Whatever the servers redirect to and however names resolve, every
    connection a client built with the package's options opens goes to an
    address that policy does not refuse; private space is open only if an
    option or the environment opened it; under a host allowlist every request,
    redirected ones included, names an allowed host; and the requests of one
    exchange number at most the redirect cap (so a cap of n follows at most
    n - 1 redirects). *)
Theorem guarded_fetch env opts req next l :
  fetch false env opts req next = Ok l →
  let o := buildOptions false env opts in
  (∀ hop a, (hop, a) ∈ l →
    (∃ ip, ParseIP (match SplitHostPort a with Some (h, _) => h | None => a end) = Some ip ∧
       ¬ policy_refuses o (target (be ip))) ∧
    ((∀ h, h ∈ AllowHosts o → host_key h = "") ∨
     ∃ h, h ∈ AllowHosts o ∧ ToLower (h_host hop) = host_key h)) ∧
  (AllowPrivate o = true → WithAllowPrivate true ∈ opts ∨ envTrue (env_allow_private env) = true) ∧
  Z.of_nat (length l) ≤ Z.max 1 (MaxRedirects o).
Proof using Type.
  intros Hf o. unfold fetch in Hf. fold o in Hf. destruct (newGuard o) as [g|] eqn:Eg; [|done].
  injection Hf as <-. destruct (buildOptions_spec env opts) as [Hall Hpriv]. fold o in Hall, Hpriv.
  destruct (newGuard_spec o g Eg) as (Ha & _ & _ & Hh). rewrite Hall in Ha.
  destruct (client_do_spec g (MaxRedirects o) 0 req next Ha) as [Hin Hlen].
  change (Z.of_nat 0) with 0 in Hlen. rewrite Z.sub_0_r in Hlen.
  split_and!; [|exact Hpriv|exact Hlen]. intros hop a Hmem. destruct (Hin hop a Hmem) as [Hc Hhost]. split.
  - by apply (control_policy env opts g).
  - destruct Hhost as [He|He]; [left|right].
    + intros h Hm. destruct (decide (host_key h = "")) as [|Hne]; [done|].
      assert (host_key h ∈ g_allowHosts g) by (apply Hh; eauto). set_solver.
    + apply Hh in He as (_ & h & Hm & Heq). eauto.
Qed.
End client.

(** ** Witnesses *)
#[local] Instance ascii_lower : Casing := {| ToLower s := s; ToUpper s := s |}.

Definition prod_env : SafeEnv := mkSafeEnv "" "10.99.0.0/16, fd00::/8" "".

Definition demo_guard : guard :=
  default (mkGuard false false [] ∅) (match newGuard (buildOptions false prod_env []) with Ok g => Some g | Err _ => None end).

(** NAT64 of the metadata address is refused, a public address passes. *)
Lemma guard_decision_exact_witness :
  ¬ policy_refuses (buildOptions false prod_env []) (target (be [38; 6; 71; 0; 0; 0; 0; 0; 0; 0; 0; 0; 0; 0; 0; 1])) ∧
  checkIP demo_guard (Some [0; 100; 255; 155; 0; 0; 0; 0; 0; 0; 0; 0; 169; 254; 169; 254]) ≠ None.
Proof.
  split; [|vm_compute; congruence].
  apply (guard_decision_exact prod_env [] demo_guard); [vm_compute; reflexivity|reflexivity| |vm_compute; reflexivity].
  repeat (constructor; [unfold is_byte; lia|]). constructor.
Defined.

(** A public feed that redirects to a private address: one request is sent. *)
Definition feed : Hop := mkHop "https" "feed.example" [("93.184.216.34:443", true)].
Definition inner : Hop := mkHop "http" "vault" [("10.0.0.7:8200", true)].

Lemma guarded_fetch_witness :
  fetch false prod_env [] feed [inner] = Ok [(feed, "93.184.216.34:443")] ∧
  Z.of_nat (length [(feed, "93.184.216.34:443")]) ≤ Z.max 1 (MaxRedirects (buildOptions false prod_env [])).
Proof.
  assert (Hf : fetch false prod_env [] feed [inner] = Ok [(feed, "93.184.216.34:443")])
    by (vm_compute; reflexivity).
  split; [exact Hf|]. apply (guarded_fetch prod_env [] feed [inner] _ Hf).
Defined.
