(* ===== verification/GoDate.v ===== *)
(** * Calendar dates in a location

    The parts of the package [time] that resolve calendar phrases: the civil
    date of an instant ([In], [Date], [Weekday]), [time.Date] with its
    normalization and its zone lookup, [AddDate].  Instants are nanoseconds
    since the Unix epoch. *)

From stdpp Require Import base strings list.
From Stdlib Require Import Ascii ZArith Lia.
From S2P Require Import Prelude GoStrings GoTime.

Open Scope Z_scope.

Definition nsec : Z := 1000000000.
Definition day_secs : Z := 86400.

(** [Location.lookup]: the offset in effect at a Unix time, with the interval
    it is in effect. *)
Definition Location : Type := Z → Z * (Z * Z).

Definition fixed_zone (offset : Z) : Location := λ _, (offset, (- 2 ^ 63, 2 ^ 63 - 1)).
Definition UTC : Location := fixed_zone 0.

(** The proleptic Gregorian date of a day number (day 0 is 1970-01-01): the
    last year, month and day that do not start after it.  The mean year has
    146097/400 days, which puts the year next to [guess]. *)
Definition year_of (n : Z) : Z :=
  let guess := 1970 + (400 * n) / 146097 in
  if n <? days_to_year guess then guess - 1
  else if n <? days_to_year (guess + 1) then guess else guess + 1.

Definition month_of (y doy : Z) : Z :=
  foldl (λ best m, if days_to_month m y <=? doy then m else best) 1 [2; 3; 4; 5; 6; 7; 8; 9; 10; 11; 12].

Definition civil (n : Z) : Z * Z * Z :=
  let y := year_of n in
  let doy := n - days_to_year y in
  let m := month_of y doy in
  (y, m, doy - days_to_month m y + 1).

(** The local day number and the second of the day. *)
Definition local_day (loc : Location) (t : Z) : Z := (t / nsec + (loc (t / nsec)).1) / day_secs.
Definition local_sod (loc : Location) (t : Z) : Z := (t / nsec + (loc (t / nsec)).1) mod day_secs.

(** [Weekday]: Sunday is 0. *)
Definition Weekday (loc : Location) (t : Z) : Z := (local_day loc t + 4) mod 7.

(** [time.Date] at second [sod] of the day and [ns] nanoseconds: months and
    days are normalized, the seconds wrap at 64 bits, then the zone offset is
    looked up, first as if the local time were UTC. *)
Definition Date (y m d sod ns : Z) (loc : Location) : Z :=
  let y' := y + (m - 1) / 12 in
  let m' := (m - 1) mod 12 + 1 in
  let unix := wrap64 (unix_days y' m' d * day_secs + sod) in
  let '(offset, (start, end_)) := loc unix in
  let unix :=
    if offset =? 0 then unix
    else
      let utc := wrap64 (unix - offset) in
      wrap64 (unix - (if (utc <? start) || (end_ <=? utc) then (loc utc).1 else offset)) in
  unix * nsec + ns.

(** [t.AddDate] of a time in [loc]. *)
Definition AddDate (loc : Location) (t years months days : Z) : Z :=
  let '(y, m, d) := civil (local_day loc t) in
  Date (y + years) (m + months) (d + days) (local_sod loc t) (t mod nsec) loc.

Definition startOfDay (now : Z) (loc : Location) : Z :=
  let '(y, m, d) := civil (local_day loc now) in Date y m d 0 0 loc.

Definition startOfWeek (now : Z) (loc : Location) : Z :=
  let d := startOfDay now loc in
  AddDate loc d 0 0 (- ((Weekday loc d + 6) mod 7)).

Definition startOfMonth (now : Z) (loc : Location) : Z :=
  let '(y, m, _) := civil (local_day loc now) in Date y m 1 0 0 loc.

Definition startOfYear (now : Z) (loc : Location) : Z :=
  let '(y, _, _) := civil (local_day loc now) in Date y 1 1 0 0 loc.

(** ** [civil] inverts [unix_days] *)
Definition year_days (y : Z) : Z := if leap y then 366 else 365.

Lemma days_to_year_succ y : days_to_year (y + 1) = days_to_year y + year_days y.
Proof.
  unfold days_to_year, year_days, leap.
  destruct (Z.eqb_spec (y mod 4) 0), (Z.eqb_spec (y mod 100) 0), (Z.eqb_spec (y mod 400) 0); cbn [negb andb orb];
    Z.to_euclidean_division_equations; lia.
Qed.

Lemma year_of_spec n : days_to_year (year_of n) <= n < days_to_year (year_of n + 1).
Proof.
  unfold year_of. set (g := 1970 + _).
  assert (Hl : days_to_year (g - 1) <= n) by (subst g; unfold days_to_year; Z.to_euclidean_division_equations; lia).
  assert (Hu : n < days_to_year (g + 2)) by (subst g; unfold days_to_year; Z.to_euclidean_division_equations; lia).
  destruct (Z.ltb_spec n (days_to_year g)); [replace (g - 1 + 1) with g by lia; lia|].
  destruct (Z.ltb_spec n (days_to_year (g + 1))); [lia|]. replace (g + 1 + 1) with (g + 2) by lia. lia.
Qed.

(** The days before each month. *)
Definition month_table (m f : Z) : Z :=
  match m with
  | 2 => 31 | 3 => 31 + f | 4 => 62 + f | 5 => 92 + f | 6 => 123 + f | 7 => 153 + f | 8 => 184 + f
  | 9 => 215 + f | 10 => 245 + f | 11 => 276 + f | 12 => 306 + f | _ => 0
  end.

Lemma days_to_month_table m y :
  1 <= m <= 12 → days_to_month m y = month_table m (if leap y then 29 else 28).
Proof.
  assert (H : Forall (λ m, days_to_month m y = month_table m (if leap y then 29 else 28))
    [1; 2; 3; 4; 5; 6; 7; 8; 9; 10; 11; 12]).
  { repeat (constructor; [unfold days_to_month, daysIn; cbn; destruct (leap y); reflexivity|]). constructor. }
  rewrite Forall_forall in H. intros Hm. apply H. rewrite list_elem_of_In. cbn. lia.
Qed.

(** The month of a day of the year, and its bounds. *)
Lemma month_of_spec y doy :
  0 <= doy < year_days y →
  1 <= month_of y doy <= 12 ∧
  days_to_month (month_of y doy) y <= doy < days_to_month (month_of y doy) y + daysIn (month_of y doy) y.
Proof.
  intros H. unfold month_of. cbn [foldl]. rewrite !days_to_month_table by lia. unfold year_days in H.
  destruct (leap y) eqn:El; cbn [month_table];
    repeat match goal with |- context [?a <=? doy] => destruct (Z.leb_spec a doy); try lia end;
    (split; [lia|]); rewrite days_to_month_table by lia; unfold daysIn; rewrite El; cbn; lia.
Qed.

Lemma civil_spec n :
  let '(y, m, d) := civil n in
  unix_days y m d = n ∧ 1 <= m <= 12 ∧ 1 <= d <= daysIn m y.
Proof.
  unfold civil. pose proof (year_of_spec n) as Hy. rewrite days_to_year_succ in Hy.
  destruct (month_of_spec (year_of n) (n - days_to_year (year_of n)) ltac:(lia)) as [Hm Hd].
  unfold unix_days. split_and!; lia.
Qed.

(** ** Zones of a fixed offset *)

(** The instant at which a local day starts. *)
Definition day_start (off D : Z) : Z := (D * day_secs - off) * nsec.

(** Offsets and days far from the 64-bit bounds. *)
Definition zone_ok (off : Z) : Prop := - 86400 <= off <= 86400.
Definition day_ok (D : Z) : Prop := - 10 ^ 13 <= D <= 10 ^ 13.

Lemma wrap64_day D off :
  zone_ok off → day_ok D → wrap64 (D * day_secs) = D * day_secs ∧ wrap64 (D * day_secs - off) = D * day_secs - off.
Proof. unfold zone_ok, day_ok, day_secs. intros Ho HD. split; apply wrap64_id; unfold int64_ok; lia. Qed.

Lemma Date_fixed off y m d :
  zone_ok off → let D := unix_days (y + (m - 1) / 12) ((m - 1) mod 12 + 1) d in
  day_ok D → Date y m d 0 0 (fixed_zone off) = day_start off D.
Proof.
  intros Ho D HD. unfold Date, fixed_zone, day_start. fold D. rewrite !Z.add_0_r.
  destruct (wrap64_day D off Ho HD) as [-> Hw]. destruct (Z.eqb_spec off 0) as [->|_]; [lia|].
  destruct (_ || _); cbn [fst]; rewrite Hw; lia.
Qed.

Lemma Date_midnight off y m d :
  zone_ok off → 1 <= m <= 12 → day_ok (unix_days y m d) → Date y m d 0 0 (fixed_zone off) = day_start off (unix_days y m d).
Proof.
  intros Ho Hm HD.
  assert ((m - 1) / 12 = 0 ∧ (m - 1) mod 12 + 1 = m) as [H1 H2] by (Z.to_euclidean_division_equations; lia).
  rewrite Date_fixed; rewrite ?H1, ?H2, ?Z.add_0_r; done.
Qed.

Lemma local_day_start off D : local_day (fixed_zone off) (day_start off D) = D ∧ local_sod (fixed_zone off) (day_start off D) = 0.
Proof.
  unfold local_day, local_sod, day_start, fixed_zone, nsec, day_secs. cbn [fst].
  rewrite Z.div_mul by lia. replace (D * 86400 - off + off) with (D * 86400) by lia.
  by rewrite Z.div_mul, Z.mod_mul by lia.
Qed.

Lemma startOfDay_fixed off now :
  zone_ok off → day_ok (local_day (fixed_zone off) now) →
  startOfDay now (fixed_zone off) = day_start off (local_day (fixed_zone off) now).
Proof.
  intros Ho HD. unfold startOfDay. pose proof (civil_spec (local_day (fixed_zone off) now)) as H.
  destruct (civil _) as [[y m] d]. destruct H as (Hu & Hm & _).
  rewrite Date_midnight; by rewrite ?Hu.
Qed.

Lemma AddDate_days off D k :
  zone_ok off → day_ok (D + k) → AddDate (fixed_zone off) (day_start off D) 0 0 k = day_start off (D + k).
Proof.
  intros Ho HD. unfold AddDate. destruct (local_day_start off D) as [-> ->]. pose proof (civil_spec D) as H.
  destruct (civil D) as [[y m] d]. destruct H as (Hu & Hm & _). rewrite !Z.add_0_r.
  replace (day_start off D mod nsec) with 0 by (unfold day_start, nsec; by rewrite Z.mod_mul).
  assert (unix_days y m (d + k) = D + k) as Hk by (unfold unix_days in *; lia).
  rewrite Date_midnight; by rewrite ?Hk.
Qed.

(** An instant lies in its local day. *)
Lemma in_local_day off now :
  day_start off (local_day (fixed_zone off) now) <= now < day_start off (local_day (fixed_zone off) now + 1).
Proof. unfold day_start, local_day, fixed_zone, nsec, day_secs. cbn [fst]. Z.to_euclidean_division_equations; lia. Qed.

Lemma day_start_mono off D D' : D <= D' ↔ day_start off D <= day_start off D'.
Proof. unfold day_start, nsec, day_secs. lia. Qed.

(** ** The first of a month *)
Lemma days_to_year_mono y y' : y < y' → days_to_year (y + 1) <= days_to_year y'.
Proof. intros H. unfold days_to_year. Z.to_euclidean_division_equations; lia. Qed.

Lemma day_in_year y m d :
  1 <= m <= 12 → 1 <= d <= daysIn m y → days_to_year y <= unix_days y m d < days_to_year (y + 1).
Proof.
  intros Hm Hd. rewrite days_to_year_succ. unfold unix_days. rewrite days_to_month_table by done.
  unfold year_days. assert (Hc : m ∈ [1; 2; 3; 4; 5; 6; 7; 8; 9; 10; 11; 12]) by (rewrite list_elem_of_In; cbn; lia).
  repeat (apply elem_of_cons in Hc as [->|Hc]); try (by apply not_elem_of_nil in Hc);
    unfold daysIn in Hd; cbn in *; destruct (leap y); lia.
Qed.

(** A month number, case by case. *)
Ltac month_cases m :=
  let Hc := fresh in
  assert (Hc : m ∈ [1; 2; 3; 4; 5; 6; 7; 8; 9; 10; 11; 12]) by (rewrite list_elem_of_In; cbn; lia);
  repeat (apply elem_of_cons in Hc as [->|Hc]); [..|by apply not_elem_of_nil in Hc].

Lemma month_unique y m d m' d' :
  1 <= m <= 12 → 1 <= d <= daysIn m y → 1 <= m' <= 12 → 1 <= d' <= daysIn m' y →
  unix_days y m d = unix_days y m' d' → m = m'.
Proof.
  intros Hm Hd Hm' Hd' H. unfold unix_days in H. rewrite !days_to_month_table in H by done.
  unfold daysIn in *. destruct (leap y); month_cases m; month_cases m'; cbn in *; lia.
Qed.

Lemma civil_unix_days y m d :
  1 <= m <= 12 → 1 <= d <= daysIn m y → civil (unix_days y m d) = (y, m, d).
Proof.
  intros Hm Hd. pose proof (civil_spec (unix_days y m d)) as H. destruct (civil _) as [[y' m'] d'].
  destruct H as (Hu & Hm' & Hd'). pose proof (day_in_year y m d Hm Hd). pose proof (day_in_year y' m' d' Hm' Hd').
  assert (y' = y) as ->.
  { destruct (Z.lt_trichotomy y' y) as [Hlt|[->|Hlt]]; [|done|]; apply days_to_year_mono in Hlt; lia. }
  assert (m' = m) as -> by (eapply month_unique; eauto; lia). unfold unix_days in Hu. f_equal. lia.
Qed.

(** The first day of a month counted from month 1 of year 0. *)
Definition month_first (k : Z) : Z := unix_days (k / 12) (k mod 12 + 1) 1.

Lemma daysIn_pos m y : 28 <= daysIn m y.
Proof. unfold daysIn. repeat case_match; lia. Qed.

Lemma AddDate_months off k n :
  zone_ok off → day_ok (month_first (k + n)) →
  AddDate (fixed_zone off) (day_start off (month_first k)) 0 n 0 = day_start off (month_first (k + n)).
Proof.
  intros Ho HD. unfold AddDate. destruct (local_day_start off (month_first k)) as [-> ->]. unfold month_first at 1.
  pose proof (daysIn_pos (k mod 12 + 1) (k / 12)).
  rewrite civil_unix_days by (Z.to_euclidean_division_equations; lia).
  replace (day_start off (month_first k) mod nsec) with 0 by (unfold day_start, nsec; by rewrite Z.mod_mul).
  assert (k / 12 + 0 + (k mod 12 + 1 + n - 1) / 12 = (k + n) / 12 ∧ (k mod 12 + 1 + n - 1) mod 12 = (k + n) mod 12)
    as [H1 H2] by (Z.to_euclidean_division_equations; lia).
  change (1 + 0) with 1. unfold month_first in HD. rewrite Date_fixed; rewrite ?H1, ?H2; done.
Qed.

Lemma month_first_succ k : 28 <= month_first (k + 1) - month_first k <= 31.
Proof.
  unfold month_first, unix_days. set (y := k / 12). set (m := k mod 12 + 1).
  assert (Hm : 1 <= m <= 12) by (subst m; Z.to_euclidean_division_equations; lia).
  assert (Hn : ((k + 1) / 12 = if m =? 12 then y + 1 else y) ∧ ((k + 1) mod 12 + 1 = if m =? 12 then 1 else m + 1))
    by (destruct (Z.eqb_spec m 12); subst y m; Z.to_euclidean_division_equations; lia).
  destruct Hn as [-> ->]. clearbody y m. destruct (Z.eqb_spec m 12) as [->|Hne].
  - rewrite days_to_year_succ, !days_to_month_table by lia. unfold year_days. cbn. destruct (leap y); lia.
  - rewrite !days_to_month_table by lia. remember (m + 1) as m1 eqn:E1.
    destruct (leap y); month_cases m; vm_compute in E1; subst m1; cbn in *; try done; lia.
Qed.

(** The month an instant's local day lies in. *)
Lemma month_of_day D : ∃ k, month_first k <= D < month_first (k + 1) ∧
  ∀ y m d, civil D = (y, m, d) → k = 12 * y + m - 1.
Proof.
  pose proof (civil_spec D) as H. destruct (civil D) as [[y m] d] eqn:E. destruct H as (Hu & Hm & Hd).
  exists (12 * y + m - 1). split; [|by intros ??? [= <- <- <-]]. unfold month_first.
  assert (((12 * y + m - 1) / 12 = y ∧ (12 * y + m - 1) mod 12 + 1 = m) ∧
    (12 * y + m - 1 + 1) / 12 = (if m =? 12 then y + 1 else y) ∧
    (12 * y + m - 1 + 1) mod 12 + 1 = (if m =? 12 then 1 else m + 1)) as [[-> ->] [-> ->]]
    by (destruct (Z.eqb_spec m 12); Z.to_euclidean_division_equations; lia).
  rewrite <-Hu. unfold unix_days, daysIn in *. destruct (Z.eqb_spec m 12) as [->|Hne].
  - rewrite days_to_year_succ, !days_to_month_table by lia. unfold year_days. cbn in *. destruct (leap y); lia.
  - rewrite !days_to_month_table by lia. remember (m + 1) as m1 eqn:E1.
    destruct (leap y); month_cases m; vm_compute in E1; subst m1; cbn in *; try done; lia.
Qed.

(** An instant whose local day, and a few years around it, are in range. *)
Definition instant_ok (off now : Z) : Prop := - 10 ^ 12 <= local_day (fixed_zone off) now <= 10 ^ 12.

Lemma startOfMonth_fixed off now :
  zone_ok off → instant_ok off now →
  ∃ k, startOfMonth now (fixed_zone off) = day_start off (month_first k) ∧
    month_first k <= local_day (fixed_zone off) now < month_first (k + 1).
Proof.
  intros Ho Hn. destruct (month_of_day (local_day (fixed_zone off) now)) as (k & Hk & Hc). exists k. split; [|done].
  unfold startOfMonth. pose proof (civil_spec (local_day (fixed_zone off) now)) as H.
  destruct (civil _) as [[y m] d] eqn:E. destruct H as (_ & Hm & _). pose proof (month_first_succ k) as Hs.
  pose proof (Hc _ _ _ eq_refl) as Hkk.
  assert (unix_days y m 1 = month_first k) as Hu
    by (unfold month_first; f_equal; subst k; Z.to_euclidean_division_equations; lia).
  rewrite Date_midnight; rewrite ?Hu; try done. unfold day_ok, instant_ok in *. lia.
Qed.

(** The Monday of a day's week. *)
Lemma startOfWeek_fixed off now :
  zone_ok off → instant_ok off now → let D := local_day (fixed_zone off) now in
  startOfWeek now (fixed_zone off) = day_start off (D - (D + 3) mod 7).
Proof.
  intros Ho Hn D. unfold startOfWeek. unfold instant_ok in Hn. rewrite startOfDay_fixed by (unfold day_ok; lia || done).
  fold D in Hn |- *. unfold Weekday. rewrite (proj1 (local_day_start off D)).
  rewrite AddDate_days; [f_equal|done|unfold day_ok]; Z.to_euclidean_division_equations; lia.
Qed.

Lemma startOfYear_fixed off now :
  zone_ok off → instant_ok off now →
  ∃ y, startOfYear now (fixed_zone off) = day_start off (days_to_year y) ∧
    days_to_year y <= local_day (fixed_zone off) now < days_to_year (y + 1).
Proof.
  intros Ho Hn. unfold startOfYear. unfold civil. set (D := local_day _ _) in *. exists (year_of D).
  pose proof (year_of_spec D) as Hy. split; [|done]. pose proof (days_to_year_succ (year_of D)) as Hs.
  assert (unix_days (year_of D) 1 1 = days_to_year (year_of D)) as Hu by (unfold unix_days; rewrite days_to_month_table by lia; cbn; lia).
  rewrite Date_midnight; rewrite ?Hu; try done. unfold day_ok, instant_ok, year_days in *. fold D in Hn.
  destruct (leap _); lia.
Qed.

(** ** [time.Parse] with its nanoseconds *)

(** The digits of a fraction count down from 10^8; past nine they are ignored. *)
Fixpoint fraction (unit : Z) (l : bytes) : Z :=
  match l with a :: l' => if is_digit a then digit_val a * unit + fraction (unit / 10) l' else 0 | [] => 0 end.

Definition fraction_ns (l : bytes) : Z :=
  match l with
  | a :: (b :: _) as l1 =>
    if (Ascii.eqb a "." || Ascii.eqb a ",") && is_digit b then fraction 100000000 l1 else 0
  | _ => 0
  end.

Definition get_time_ns (l : bytes) : option (Z * bytes) :=
  l ← expect "T" l; '(hh, l) ← getnum false l; _ ← in_range 0 23 hh;
  l ← expect ":" l; '(mm, l) ← getnum true l; _ ← in_range 0 59 mm;
  l ← expect ":" l; '(ss, l) ← getnum true l; _ ← in_range 0 59 ss;
  Some ((hh * 3600 + mm * 60 + ss) * nsec + fraction_ns l, skip_fraction l).

(** [t, err := time.Parse(layout, s)]: the instant when [err] is nil. *)
Definition time_Parse (ly : layout) (s : string) : option Z :=
  let l := to_bytes s in
  match ly with
  | DateOnly => '(d, l) ← get_date l; at_end (d * nsec, l)
  | DateTime => '(d, l) ← get_date l; '(t, l) ← get_time_ns l; at_end (d * nsec + t, l)
  | RFC3339 =>
    '(d, l) ← get_date l; '(t, l) ← get_time_ns l; '(z, l) ← get_zone l; at_end ((d - z) * nsec + t, l)
  end.

Lemma fraction_bound n l : 0 <= fraction (10 ^ Z.of_nat n) l < 10 ^ Z.of_nat (S n).
Proof.
  revert n. induction l as [|a l IH]; intros n; cbn [fraction]; [lia|].
  destruct (is_digit a) eqn:E; [|lia].
  assert (Hd : 0 <= digit_val a <= 9).
  { unfold is_digit, byte_in, digit_val in *. apply andb_true_iff in E as [?%N.leb_le ?%N.leb_le]. lia. }
  rewrite (Nat2Z.inj_succ n), Z.pow_succ_r by lia. destruct n as [|n].
  - change (10 ^ Z.of_nat 0) with 1. change (1 / 10) with 0.
    assert (Hz : fraction 0 l = 0).
    { clear. induction l as [|b l IH]; cbn [fraction]; [done|]. destruct (is_digit b); [|done].
      change (0 / 10) with 0. rewrite IH. lia. }
    lia.
  - rewrite Nat2Z.inj_succ, Z.pow_succ_r, (Z.mul_comm 10), Z.div_mul by lia. specialize (IH n).
    rewrite Nat2Z.inj_succ, Z.pow_succ_r in IH by lia. nia.
Qed.

Lemma fraction_ns_bound l : 0 <= fraction_ns l < nsec.
Proof.
  unfold fraction_ns, nsec. destruct l as [|a [|b l]]; try lia. destruct (_ && _); [|lia].
  exact (fraction_bound 8 (b :: l)).
Qed.

(** The two readings of a layout agree on the second. *)
Lemma time_Parse_unix ly s : parse_unix ly s = (λ t, t / nsec) <$> time_Parse ly s.
Proof.
  assert (Ht : ∀ l, get_time l = (λ p, (p.1 / nsec, p.2)) <$> get_time_ns l ∧
    ∀ t l', get_time_ns l = Some (t, l') → 0 <= t).
  { intros l. unfold get_time, get_time_ns.
    destruct (expect "T" l) as [l1|]; [|done]. cbn. destruct (getnum false l1) as [[hh l2]|]; [|done]. cbn.
    destruct (in_range 0 23 hh) eqn:E1; [|done]. cbn. destruct (expect ":" l2) as [l3|]; [|done]. cbn.
    destruct (getnum true l3) as [[mm l4]|]; [|done]. cbn. destruct (in_range 0 59 mm) eqn:E2; [|done]. cbn.
    destruct (expect ":" l4) as [l5|]; [|done]. cbn. destruct (getnum true l5) as [[ss l6]|]; [|done]. cbn.
    destruct (in_range 0 59 ss) eqn:E3; [|done]. cbn. pose proof (fraction_ns_bound l6) as Hf.
    unfold in_range in *. repeat case_match; try done. split.
    - do 2 f_equal. unfold nsec in *. Z.to_euclidean_division_equations; lia.
    - intros t l' [= <- _]. unfold nsec. lia. }
  assert (He : ∀ a (l : bytes), at_end (a / nsec, l) = (λ t, t / nsec) <$> at_end (a, l)) by (intros a [|]; done).
  assert (Ha : ∀ d t, (d * nsec + t) / nsec = d + t / nsec)
    by (intros; rewrite Z.add_comm, Z.div_add by done; lia).
  unfold parse_unix, time_Parse. destruct ly; destruct (get_date (to_bytes s)) as [[d l]|]; cbn; try done.
  - destruct (Ht l) as [-> _]. destruct (get_time_ns l) as [[t l2]|]; cbn; [|done].
    destruct (get_zone l2) as [[z l3]|]; cbn; [|done]. rewrite <-He, Ha. do 2 f_equal. lia.
  - destruct (Ht l) as [-> _]. destruct (get_time_ns l) as [[t l2]|]; cbn; [|done]. by rewrite <-He, Ha.
  - rewrite <-He. by rewrite Z.div_mul.
Qed.

Example parse_fraction : time_Parse RFC3339 "2024-02-29T12:00:00.25+02:00" = Some 1709200800250000000.
Proof. reflexivity. Qed.
