(* ===== verification/GoRegex.v ===== *)
(** * Regular expressions

    The byte-level matcher behind the patterns the query service compiles with
    [regexp.MustCompile]: expressions by Brzozowski derivatives, whole-text
    matching ([^...$] with [MatchString]) and the longest match at a position.
    The expressions used denote the same languages as the source's; where the
    source asserts a word boundary the boundary is tested next to the match. *)

From stdpp Require Import base strings list.
From Stdlib Require Import Ascii ZArith Lia.
From S2P Require Import Prelude GoStrings GoText.

Open Scope nat_scope.

Inductive re :=
| RNone
| REps
| RCls (f : ascii → bool)
| RCat (a b : re)
| RAlt (a b : re)
| RStar (a : re).

Fixpoint nullable (r : re) : bool :=
  match r with
  | RNone | RCls _ => false
  | REps | RStar _ => true
  | RCat a b => nullable a && nullable b
  | RAlt a b => nullable a || nullable b
  end.

(** Constructors that drop the empty language and the empty word. *)
Definition cat (a b : re) : re :=
  match a, b with RNone, _ | _, RNone => RNone | REps, _ => b | _, _ => RCat a b end.
Definition alt (a b : re) : re :=
  match a, b with RNone, _ => b | _, RNone => a | _, _ => RAlt a b end.

Fixpoint deriv (c : ascii) (r : re) : re :=
  match r with
  | RNone | REps => RNone
  | RCls f => if f c then REps else RNone
  | RCat a b => if nullable a then alt (cat (deriv c a) b) (deriv c b) else cat (deriv c a) b
  | RAlt a b => alt (deriv c a) (deriv c b)
  | RStar a => cat (deriv c a) (RStar a)
  end.

Fixpoint re_match (r : re) (l : bytes) : bool :=
  match l with [] => nullable r | c :: l' => re_match (deriv c r) l' end.

Definition MatchString (r : re) (s : string) : bool := re_match r (to_bytes s).

(** The length of the longest prefix in the language. *)
Fixpoint longest (r : re) (l : bytes) : option nat :=
  match l with
  | [] => if nullable r then Some 0 else None
  | c :: l' =>
    match longest (deriv c r) l' with
    | Some n => Some (S n)
    | None => if nullable r then Some 0 else None
    end
  end.

(** ** Building expressions *)
Definition RStr (s : string) : re := foldr (λ c r, RCat (RCls (Ascii.eqb c)) r) REps (to_bytes s).
Definition ROpt (r : re) : re := RAlt REps r.
Definition RPlus (r : re) : re := RCat r (RStar r).
Definition RAny (l : list re) : re := foldr RAlt RNone l.
Definition RSeq (l : list re) : re := foldr RCat REps l.
Fixpoint RRep (lo hi : nat) (r : re) : re :=
  match lo, hi with
  | S lo', S hi' => RCat r (RRep lo' hi' r)
  | _, S hi' => ROpt (RCat r (RRep 0 hi' r))
  | _, O => REps
  end.

(** [\s], [\d], [.], letters. *)
Definition cls_space (c : ascii) : bool := existsb (Ascii.eqb c) ["009"; "010"; "012"; "013"; " "]%char.
Definition cls_digit (c : ascii) : bool := byte_in 48 57 c.
Definition cls_dot (c : ascii) : bool := negb (Ascii.eqb c "010").
Definition cls_letter (c : ascii) : bool := byte_in 65 90 c || byte_in 97 122 c.
(** [\w] *)
Definition cls_word (c : ascii) : bool := cls_letter c || cls_digit c || Ascii.eqb c "_".

(** ** The language of an expression *)
Inductive in_re : re → bytes → Prop :=
| in_eps : in_re REps []
| in_cls f c : f c = true → in_re (RCls f) [c]
| in_cat a b l1 l2 : in_re a l1 → in_re b l2 → in_re (RCat a b) (l1 ++ l2)
| in_alt_l a b l : in_re a l → in_re (RAlt a b) l
| in_alt_r a b l : in_re b l → in_re (RAlt a b) l
| in_star_nil a : in_re (RStar a) []
| in_star_app a l1 l2 : in_re a l1 → in_re (RStar a) l2 → in_re (RStar a) (l1 ++ l2).

#[local] Hint Constructors in_re : core.

Lemma in_none_iff l : in_re RNone l ↔ False.
Proof. split; [inversion 1|done]. Qed.

Lemma in_eps_iff l : in_re REps l ↔ l = [].
Proof. split; [by inversion 1|by intros ->]. Qed.

Lemma in_cls_iff f l : in_re (RCls f) l ↔ ∃ c, l = [c] ∧ f c = true.
Proof. split; [inversion 1; eauto|intros (c & -> & ?); auto]. Qed.

Lemma in_cat_iff a b l : in_re (RCat a b) l ↔ ∃ l1 l2, l = l1 ++ l2 ∧ in_re a l1 ∧ in_re b l2.
Proof. split; [inversion 1; eauto|intros (l1 & l2 & -> & ? & ?); auto]. Qed.

Lemma in_alt_iff a b l : in_re (RAlt a b) l ↔ in_re a l ∨ in_re b l.
Proof. split; [inversion 1; auto|intros [?|?]; auto]. Qed.

Lemma in_star_cons a c l :
  in_re (RStar a) (c :: l) ↔ ∃ l1 l2, l = l1 ++ l2 ∧ in_re a (c :: l1) ∧ in_re (RStar a) l2.
Proof.
  split.
  - intros H. remember (RStar a) as r eqn:Er. remember (c :: l) as cl eqn:El. revert a c l Er El.
    induction H as [| | | | | |a' l1 l2 H1 _ H2 IH]; intros a0 c0 l0 Er El; try done. injection Er as ->.
    destruct l1 as [|c1 l1]; [by eapply IH|]. injection El as -> <-. eauto.
  - intros (l1 & l2 & -> & H1 & H2). by apply (in_star_app a (c :: l1) l2).
Qed.

Lemma nullable_spec r : nullable r = true ↔ in_re r [].
Proof.
  induction r as [| |f|a IHa b IHb|a IHa b IHb|a IHa]; cbn.
  - by rewrite in_none_iff.
  - by rewrite in_eps_iff.
  - rewrite in_cls_iff. split; [done|]. by intros (c & ? & _).
  - rewrite andb_true_iff, IHa, IHb, in_cat_iff. split.
    + intros [Ha Hb]. by exists [], [].
    + intros (l1 & l2 & [-> ->]%eq_sym%app_eq_nil & ? & ?). done.
  - by rewrite orb_true_iff, IHa, IHb, in_alt_iff.
  - split; [auto|done].
Qed.

Lemma cat_spec a b l : in_re (cat a b) l ↔ in_re (RCat a b) l.
Proof.
  assert (Hl : ∀ x, in_re (RCat RNone x) l ↔ False).
  { intros x. rewrite in_cat_iff. setoid_rewrite in_none_iff. naive_solver. }
  assert (Hr : ∀ x, in_re (RCat x RNone) l ↔ False).
  { intros x. rewrite in_cat_iff. setoid_rewrite in_none_iff. naive_solver. }
  assert (He : ∀ x, in_re (RCat REps x) l ↔ in_re x l).
  { intros x. rewrite in_cat_iff. setoid_rewrite in_eps_iff. split; [by intros (l1 & l2 & -> & -> & ?)|].
    intros ?. by exists [], l. }
  destruct a, b; cbn [cat]; rewrite ?Hl, ?Hr, ?He, ?in_none_iff; done.
Qed.

Lemma alt_spec a b l : in_re (alt a b) l ↔ in_re (RAlt a b) l.
Proof. destruct a, b; cbn [alt]; rewrite ?in_alt_iff, ?in_none_iff; tauto. Qed.

Lemma deriv_spec c r l : in_re (deriv c r) l ↔ in_re r (c :: l).
Proof.
  revert l. induction r as [| |f|a IHa b IHb|a IHa b IHb|a IHa]; intros l; cbn [deriv].
  - by rewrite !in_none_iff.
  - by rewrite in_none_iff, in_eps_iff.
  - rewrite in_cls_iff. destruct (f c) eqn:E; rewrite ?in_eps_iff, ?in_none_iff; split.
    + intros ->. eauto.
    + by intros (c' & [= -> ->] & _).
    + done.
    + intros (c' & [= -> ->] & ?). congruence.
  - rewrite in_cat_iff.
    assert (Hc : in_re (cat (deriv c a) b) l ↔ ∃ l1 l2, l = l1 ++ l2 ∧ in_re a (c :: l1) ∧ in_re b l2)
      by (rewrite cat_spec, in_cat_iff; by setoid_rewrite IHa).
    destruct (nullable a) eqn:E; [rewrite alt_spec, in_alt_iff, IHb|]; rewrite Hc; split.
    + intros [(l1 & l2 & -> & ? & ?)|Hb]; [by exists (c :: l1), l2|]. exists [], (c :: l). by apply nullable_spec in E.
    + intros ([|c1 l1] & l2 & Heq & Ha & Hb); cbn in Heq; [subst; auto|]. injection Heq as <- ->. left. eauto.
    + intros (l1 & l2 & -> & ? & ?). by exists (c :: l1), l2.
    + intros ([|c1 l1] & l2 & Heq & Ha & Hb); cbn in Heq; [apply nullable_spec in Ha; congruence|]. injection Heq as <- ->. eauto.
  - by rewrite alt_spec, !in_alt_iff, IHa, IHb.
  - rewrite cat_spec, in_cat_iff, in_star_cons. by setoid_rewrite IHa.
Qed.

Lemma re_match_spec r l : re_match r l = true ↔ in_re r l.
Proof.
  revert r. induction l as [|c l IH]; intros r; cbn; [apply nullable_spec|]. by rewrite IH, deriv_spec.
Qed.

Lemma longest_spec r l :
  match longest r l with
  | Some n => n ≤ length l ∧ in_re r (take n l) ∧ ∀ m, n < m ≤ length l → ¬ in_re r (take m l)
  | None => ∀ m, m ≤ length l → ¬ in_re r (take m l)
  end.
Proof.
  revert r. induction l as [|c l IH]; intros r; cbn [longest].
  - destruct (nullable r) eqn:E.
    + split_and!; [done|by apply nullable_spec|cbn; lia].
    + intros m _. rewrite take_nil, <-nullable_spec. congruence.
  - specialize (IH (deriv c r)). destruct (longest _ l) as [n|].
    + destruct IH as (Hn & Hin & Hmax). split_and!; [cbn; lia|cbn; by apply deriv_spec|].
      intros [|m] Hm; [lia|]. cbn. rewrite <-deriv_spec. apply Hmax. cbn in Hm. lia.
    + assert (Hpos : ∀ m, 0 < m ≤ length (c :: l) → ¬ in_re r (take m (c :: l))).
      { intros [|m] Hm; [lia|]. cbn. rewrite <-deriv_spec. apply IH. cbn in Hm. lia. }
      destruct (nullable r) eqn:E.
      * split_and!; [cbn; lia|by apply nullable_spec|]. intros m Hm. apply Hpos. lia.
      * intros [|m] Hm; [|apply Hpos; lia]. cbn. rewrite <-nullable_spec. congruence.
Qed.
