(* ===== verification/QueryVespa.v ===== *)
(** * Retrieval from Vespa

    Models [services/query/vespa.go] and the passage helpers of
    [rerank_model.go] it uses: a tenant-scoped retrieval is rendered as YQL and
    request parameters, exchanged with Vespa over HTTP, and the answer decoded
    into hits.  Vespa's endpoint and [encoding/json] are interfaces; instants
    are nanoseconds since the Unix epoch. *)

From stdpp Require Import base gmap strings list pretty.
From Stdlib Require Import Ascii ZArith Lia.
From S2P Require Import Prelude GoStrings GoText GoFloat GoTime Tenancy Crypto ControlPlane Erasure Document.

Open Scope Z_scope.

(** ** Instants *)
Definition second : Z := 1000000000.

(** [time.Time{}]: January 1 of year 1. *)
Definition zeroTime : Z := -62135596800 * second.
Definition IsZero (t : Z) : bool := t =? zeroTime.
Definition Unix (t : Z) : Z := t / second.

(** ** Document types by name *)
Definition docTypeNamed : list (string * DocType) :=
  [("DOC_TYPE_UNSPECIFIED", DOC_TYPE_UNSPECIFIED); ("EMAIL", EMAIL); ("CHAT_MESSAGE", CHAT_MESSAGE);
   ("FILE", FILE); ("CALENDAR_EVENT", CALENDAR_EVENT); ("WIKI_PAGE", WIKI_PAGE); ("TICKET", TICKET);
   ("IMAGE", IMAGE); ("VIDEO", VIDEO); ("AUDIO", AUDIO)].

(** [DocType.String]; a value without a name prints as its number. *)
Definition docType_String (t : DocType) : string :=
  match t with
  | DOC_TYPE_UNSPECIFIED => "DOC_TYPE_UNSPECIFIED" | EMAIL => "EMAIL" | CHAT_MESSAGE => "CHAT_MESSAGE"
  | FILE => "FILE" | CALENDAR_EVENT => "CALENDAR_EVENT" | WIKI_PAGE => "WIKI_PAGE" | TICKET => "TICKET"
  | IMAGE => "IMAGE" | VIDEO => "VIDEO" | AUDIO => "AUDIO" | DocTypeNum n => pretty n
  end.

(** The generated map [DocType_value]. *)
Definition DocType_value (name : string) : option DocType :=
  snd <$> List.find (λ p, String.eqb p.1 name) docTypeNamed.

(** ** Queries *)
Inductive retrievalKind :=
| retrieveKeyword | retrieveHybrid | retrieveVector | retrieveFilterOnly | retrieveCLIP.

#[export] Instance retrievalKind_eq_dec : EqDecision retrievalKind.
Proof. solve_decision. Defined.

Definition profile (k : retrievalKind) : string :=
  match k with
  | retrieveHybrid | retrieveVector => "hybrid"
  | retrieveCLIP => "clip"
  | _ => "keyword"
  end.

Definition vespaQueryTimeout : string := "2s".
Definition nearestNeighborClause : string := "({targetHits:100}nearestNeighbor(embedding,q))".
Definition clipNearestNeighborClause : string := "({targetHits:100}nearestNeighbor(clip_embedding,qclip))".
Definition maxVespaResponseBytes : nat := 8388608.
Definition snippetFallbackMaxRunes : nat := 300.

Record textClause := mkClause { cl_Text : string; cl_Exclude : bool }.

(** Vectors carry the bit patterns of their float32 values; nil is []. *)
Record vespaQuery := mkQuery {
  vq_Tenant : TenantID;
  vq_Kind : retrievalKind;
  vq_Text : string;
  vq_Vector : list Z;
  vq_ClipVector : list Z;
  vq_DocTypes : list DocType;
  vq_From : Z; vq_To : Z;
  vq_Participant : string;
  vq_TextClauses : list textClause;
  vq_ToExclusive : bool;
  vq_EventFrom : Z; vq_EventTo : Z;
  vq_Hits : Z; vq_Offset : Z
}.

(** Errors of a retrieval: a context error, [errInvalidFilterValue] (wrapped),
    a [degradableError], any other. *)
Inductive QueryErr :=
| QE_Ctx (e : CtxErr)
| QE_InvalidFilter (text : string)
| QE_Degradable (text : string)
| QE_Msg (text : string).

Definition isDegradable (e : QueryErr) : bool := match e with QE_Degradable _ => true | _ => false end.

(** ** YQL *)

Definition quote : ascii := Ascii.ascii_of_N 34.
Definition backslash : ascii := "\"%char.

Definition control_rune (r : Z) : bool := (r <? 0x20) || (r =? 0x7f).

Definition yqlStringLiteral (s : string) : result QueryErr string :=
  if existsb (λ p, control_rune p.1) (runes s) then Err (QE_InvalidFilter "control character")
  else
    let s := ReplaceByte s backslash "\\" in
    let s := ReplaceByte s quote (String backslash (String quote "")) in
    Ok (String quote "" +:+ s +:+ String quote "").

(** The literals of a list of values, stopping at the first refused one. *)
Fixpoint literals (vs : list string) : result QueryErr (list string) :=
  match vs with
  | [] => Ok []
  | v :: vs' =>
    let? lit := yqlStringLiteral v in
    let? rest := literals vs' in
    Ok (lit :: rest)
  end.

Definition kind_clause (k : retrievalKind) : string :=
  match k with
  | retrieveFilterOnly => "true"
  | retrieveKeyword => "userQuery()"
  | retrieveHybrid => "rank(userQuery(), " +:+ nearestNeighborClause +:+ ")"
  | retrieveVector => nearestNeighborClause
  | retrieveCLIP => clipNearestNeighborClause
  end.

Definition type_clauses (types : list DocType) : result QueryErr (list string) :=
  match types with
  | [] => Ok []
  | _ =>
    let? lits := literals (docType_String <$> types) in
    let parts := (λ lit, "type contains " +:+ lit) <$> lits in
    let clause := Join parts " or " in
    Ok [if bool_decide (1 < length parts)%nat then "(" +:+ clause +:+ ")" else clause]
  end.

Definition time_clauses (q : vespaQuery) : list string :=
  (if IsZero (vq_From q) then [] else ["created_at >= " +:+ pretty (Unix (vq_From q))]) ++
  (if IsZero (vq_To q) then [] else
     ["created_at " +:+ (if vq_ToExclusive q then "<" else "<=") +:+ " " +:+ pretty (Unix (vq_To q))]) ++
  (if IsZero (vq_EventFrom q) then [] else
     ["(event_start >= " +:+ pretty (Unix (vq_EventFrom q)) +:+
      " or (!(event_start = 0) and event_end > " +:+ pretty (Unix (vq_EventFrom q)) +:+ "))"]) ++
  (if IsZero (vq_EventTo q) then [] else ["event_start < " +:+ pretty (Unix (vq_EventTo q))]).

Definition participant_clauses (p : string) : result QueryErr (list string) :=
  if String.eqb p "" then Ok []
  else
    let? lit := yqlStringLiteral p in
    let words := Fields p in
    if bool_decide (1 < length words)%nat && negb (ContainsAny p (String quote (String backslash ""))) then
      let? lits := literals words in
      Ok ["participants contains ({stem:false}phrase(" +:+ Join lits ", " +:+ "))"]
    else Ok ["participants contains ({substring:true}" +:+ lit +:+ ")"].

Definition text_clause (c : textClause) : result QueryErr string :=
  let? lits := literals (Fields (cl_Text c)) in
  match lits with
  | [] => Err (QE_InvalidFilter "empty text clause")
  | lit :: rest =>
    let match_ := match rest with [] => lit | _ => "phrase(" +:+ Join lits ", " +:+ ")" end in
    let match_ := "({stem:false}" +:+ match_ +:+ ")" in
    let expression := "(" +:+ Join ["title contains " +:+ match_; "body contains " +:+ match_;
      "chunks contains " +:+ match_] " or " +:+ ")" in
    Ok (if cl_Exclude c then "!" +:+ expression else expression)
  end.

Fixpoint text_clauses (cs : list textClause) : result QueryErr (list string) :=
  match cs with
  | [] => Ok []
  | c :: cs' =>
    let? s := text_clause c in
    let? rest := text_clauses cs' in
    Ok (s :: rest)
  end.

Definition buildYQL (q : vespaQuery) : result QueryErr string :=
  let? types := type_clauses (vq_DocTypes q) in
  let? people := participant_clauses (vq_Participant q) in
  let? texts := text_clauses (vq_TextClauses q) in
  let clauses := [kind_clause (vq_Kind q)] ++ types ++ time_clauses q ++ people ++ texts in
  let yql := "select * from sources * where " +:+ Join clauses " and " in
  Ok (if bool_decide (vq_Kind q = retrieveFilterOnly) && negb (IsZero (vq_EventFrom q))
      then yql +:+ " order by event_start asc" else yql).

(** ** The answer *)

Record Hit := mkHit {
  hit_DocId : string; hit_ConnectorId : string; hit_Type : DocType; hit_Title : string; hit_Snippet : string;
  hit_Score : float64;
  hit_Created : option Timestamp; hit_Modified : option Timestamp;
  hit_Metadata : gmap string string;
  hit_StartMs : Z; hit_EndMs : Z; hit_Modality : string; hit_ThumbnailKey : string;
  hit_Explanation : string; hit_Features : gmap string float64
}.

Definition set_score (s : float64) (h : Hit) : Hit :=
  mkHit (hit_DocId h) (hit_ConnectorId h) (hit_Type h) (hit_Title h) (hit_Snippet h) s (hit_Created h)
    (hit_Modified h) (hit_Metadata h) (hit_StartMs h) (hit_EndMs h) (hit_Modality h) (hit_ThumbnailKey h)
    (hit_Explanation h) (hit_Features h).

Definition set_media (start end_ : Z) (modality : string) (h : Hit) : Hit :=
  mkHit (hit_DocId h) (hit_ConnectorId h) (hit_Type h) (hit_Title h) (hit_Snippet h) (hit_Score h)
    (hit_Created h) (hit_Modified h) (hit_Metadata h) start end_ modality (hit_ThumbnailKey h)
    (hit_Explanation h) (hit_Features h).

Definition set_thumbnail (key : string) (h : Hit) : Hit :=
  mkHit (hit_DocId h) (hit_ConnectorId h) (hit_Type h) (hit_Title h) (hit_Snippet h) (hit_Score h)
    (hit_Created h) (hit_Modified h) (hit_Metadata h) (hit_StartMs h) (hit_EndMs h) (hit_Modality h) key
    (hit_Explanation h) (hit_Features h).

Record vespaResult := mkResult { Hits : list Hit; Total : Z; Passages : gmap string string }.

Definition noResult : vespaResult := mkResult [] 0 ∅.

(** [vespaHitFields]; raw JSON values are kept as their text. *)
Record vespaHitFields := mkHitFields {
  vf_DocID : string; vf_ConnectorID : string; vf_Type : string; vf_Title : string; vf_Snippet : string;
  vf_ChunkSnippets : list string; vf_MetadataJSON : string; vf_CreatedAt : Z; vf_ModifiedAt : Z;
  vf_ChunkStartsMs : list Z; vf_ChunkEndsMs : list Z; vf_ChunkModalities : list string;
  vf_ThumbnailKey : string;
  vf_SummaryFeatures : gmap string string
}.

Record vespaError := mkVespaError { ve_Code : Z; ve_Summary : string; ve_Message : string }.

Record vespaSearchResponse := mkResponse {
  vr_TotalCount : Z; vr_Errors : list vespaError; vr_Children : list (float64 * vespaHitFields)
}.

(** A value of a [map[string]any]: a string, or another value with its
    compact JSON text when it can be encoded. *)
Inductive AnyJson := JsonString (s : string) | JsonOther (text : option string).

(** [json.Unmarshal] into the shapes the file decodes. *)
Class VespaJson := {
  json_response : bytes → result string vespaSearchResponse;
  json_tensor : string → option (gmap string float64);
  json_cells : string → option (gmap string float64);
  json_any_map : string → option (gmap string AnyJson)
}.

Section answer.
Context `{!VespaJson}.

Definition hi : string := "<hi>".

Fixpoint find_index (f : string → bool) (l : list string) : Z :=
  match l with
  | [] => -1
  | x :: l' => if f x then 0 else let i := find_index f l' in if i <? 0 then -1 else i + 1
  end.

Definition matchedTextChunkIndex (chunkSnippets : list string) : Z := find_index (λ cs, Contains cs hi) chunkSnippets.

Definition firstTimedMediaChunkIndex (modalities : list string) : Z :=
  find_index (λ m, String.eqb m "asr" || String.eqb m "ocr") modalities.

(** [strconv.Atoi] is [ParseInt] at 64 bits. *)
Definition firstTensorLabel (cells : gmap string float64) : Z :=
  foldr (λ label best,
    match ParseInt label with
    | Some idx => if (0 <=? idx) && ((best <? 0) || (idx <? best)) then idx else best
    | None => best
    end) (-1) (map_to_list cells).*1.

Definition matchedClipChunkIndex (features : gmap string string) : Z :=
  match features !! "closest(clip_embedding)" with
  | None => -1
  | Some raw =>
    let bare := match json_cells raw with
      | Some cells => if bool_decide (cells = ∅) then -1 else firstTensorLabel cells
      | None => -1
      end in
    match json_tensor raw with
    | Some cells => if bool_decide (cells = ∅) then bare else firstTensorLabel cells
    | None => bare
    end
  end.

Definition populateMediaFields (hit : Hit) (f : vespaHitFields) (kind : retrievalKind) : Hit :=
  let hit := set_thumbnail (vf_ThumbnailKey f) hit in
  let idx :=
    if bool_decide (kind = retrieveCLIP) then matchedClipChunkIndex (vf_SummaryFeatures f)
    else
      let i := matchedTextChunkIndex (vf_ChunkSnippets f) in
      if i <? 0 then firstTimedMediaChunkIndex (vf_ChunkModalities f) else i in
  if idx <? 0 then hit
  else match vf_ChunkModalities f !! Z.to_nat idx with
  | None => hit
  | Some modality =>
    if String.eqb modality "" || String.eqb modality "text" then hit
    else set_media (default (hit_StartMs hit) (vf_ChunkStartsMs f !! Z.to_nat idx))
           (default (hit_EndMs hit) (vf_ChunkEndsMs f !! Z.to_nat idx)) modality hit
  end.

(** The runes beyond [n] are cut; an ellipsis marks the cut. *)
Definition truncateRunes (s : string) (n : nat) : string :=
  let rs := runes s in
  if bool_decide (length rs <= n)%nat then s
  else of_bytes (concat ((λ p, EncodeRune p.1) <$> take n rs)) +:+ "…".

Definition chooseSnippet (f : vespaHitFields) : string :=
  if negb (String.eqb (vf_Snippet f) "") && Contains (vf_Snippet f) hi then vf_Snippet f
  else match List.find (λ cs, Contains cs hi) (vf_ChunkSnippets f) with
  | Some cs => cs
  | None =>
    if negb (String.eqb (vf_Snippet f) "") then truncateRunes (vf_Snippet f) snippetFallbackMaxRunes
    else match vf_ChunkSnippets f with
    | cs :: _ => if String.eqb cs "" then vf_Title f else truncateRunes cs snippetFallbackMaxRunes
    | [] => vf_Title f
    end
  end.

Definition parseMetadataJSON (s : string) : gmap string string :=
  if String.eqb s "" then ∅
  else match json_any_map s with
  | None => ∅
  | Some raw => omap (λ v, match v with JsonString sv => Some sv | JsonOther b => b end) raw
  end.

(** ** Passages for the reranker *)
Definition maxRerankPassageRunes : nat := 8192.

Definition stripHighlights (s : string) : string := TrimSpace (ReplaceAll (ReplaceAll s "<hi>" "") "</hi>" "").

Fixpoint join_passages (passage : string) (fragments : list string) : string :=
  match fragments with
  | [] => passage
  | fragment :: rest =>
    let fragment := stripHighlights fragment in
    if String.eqb fragment "" || Contains passage fragment then join_passages passage rest
    else
      let passage := if Contains fragment passage then fragment
                     else passage +:+ String "010"%char "" +:+ fragment in
      if bool_decide (maxRerankPassageRunes <= length (runes passage))%nat
      then truncateRunes passage maxRerankPassageRunes
      else join_passages passage rest
  end.

Definition joinRerankPassages (fragments : list string) : string := join_passages "" fragments.

Definition chooseRerankPassage (f : vespaHitFields) : string :=
  joinRerankPassages
    ((if Contains (vf_Snippet f) hi then [vf_Snippet f] else []) ++
     List.filter (λ c, Contains c hi) (vf_ChunkSnippets f) ++
     [vf_Snippet f] ++ vf_ChunkSnippets f).

Definition mergeRerankPassages (results : list vespaResult) : gmap string string :=
  foldl (λ m r,
    foldl (λ m p, <[p.1 := joinRerankPassages [default "" (m !! p.1); p.2]]> m) m
      (map_to_list (Passages r))) ∅ results.

(** ** Hits *)
Definition unix_stamp (sec : Z) : option Timestamp := if 0 <? sec then Some (mkTimestamp sec 0) else None.

Definition hit_of (relevance : float64) (f : vespaHitFields) (kind : retrievalKind) : Hit :=
  populateMediaFields
    (mkHit (vf_DocID f) (vf_ConnectorID f) (default DOC_TYPE_UNSPECIFIED (DocType_value (vf_Type f)))
       (vf_Title f) (chooseSnippet f) relevance (unix_stamp (vf_CreatedAt f)) (unix_stamp (vf_ModifiedAt f))
       (parseMetadataJSON (vf_MetadataJSON f)) 0 0 "" "" "" ∅) f kind.

Definition parseVespaResponse (raw : bytes) (kind : retrievalKind) : result QueryErr vespaResult :=
  match json_response raw with
  | Err e => Err (QE_Msg ("vespa: decode response: " +:+ e))
  | Ok vr =>
    match vr_Errors vr, vr_Children vr with
    | e :: _, [] => Err (QE_Msg ("vespa: query error " +:+ pretty (ve_Code e) +:+ " (" +:+ ve_Summary e
        +:+ "): " +:+ ve_Message e))
    | _, _ =>
      let docs := List.filter (λ c, negb (String.eqb (vf_DocID c.2) "")) (vr_Children vr) in
      Ok (mkResult ((λ c, hit_of c.1 c.2 kind) <$> docs) (vr_TotalCount vr)
        (foldl (λ m c, <[vf_DocID c.2 := chooseRerankPassage c.2]> m) ∅ docs))
    end
  end.

Definition truncateForError (raw : bytes) : string :=
  let s := TrimSpace (of_bytes raw) in
  if bool_decide (512 < String.length s)%nat then take_str 512 s +:+ "..." else s.
End answer.

(** ** The exchange *)

(** The JSON body of a search request. *)
Record vespaRequest := mkRequest {
  rq_yql : string; rq_groupname : string; rq_hits : Z; rq_offset : Z; rq_profile : string;
  rq_summary : string; rq_timeout : string;
  rq_query : option string; rq_input_q : option (list Z); rq_input_qclip : option (list Z)
}.

(** What became of a request: it could not be marshalled or built, the
    transport or the read of the answer failed, or an answer came. *)
Inductive Exchange :=
| XMarshal (text : string)
| XBuild (text : string)
| XTransport (text : string)
| XRead (text : string)
| XResponse (status : Z) (body : bytes).

(** Vespa behind [http.Client.Do], and the time left of a context. *)
Class SearchAPI (V : Type) := {
  vespa_Do : Inp → string → vespaRequest → V → Exchange * V;
  time_left : Inp → Ctx → option Z
}.

Definition searchURL (baseURL : string) : string := TrimRightSlash baseURL +:+ "/search/".

Definition millisecond : Z := 1000000.

(** The timeout parameter for the time left; [None]: the deadline passed. *)
Definition body_timeout (left : option Z) : option string :=
  match left with
  | None => Some vespaQueryTimeout
  | Some remaining =>
    if remaining <=? 0 then None
    else if remaining <? 2 * second then Some (pretty (Z.max 1 (remaining / millisecond)) +:+ "ms")
    else Some vespaQueryTimeout
  end.

Definition search_body (q : vespaQuery) (yql timeout : string) : vespaRequest :=
  mkRequest yql (vq_Tenant q) (vq_Hits q) (vq_Offset q) (profile (vq_Kind q)) "search" timeout
    (if negb (String.eqb (vq_Text q) "") && negb (bool_decide (vq_Kind q = retrieveVector))
        && negb (bool_decide (vq_Kind q = retrieveCLIP)) then Some (vq_Text q) else None)
    (if negb (bool_decide (vq_Vector q = [])) && (bool_decide (vq_Kind q = retrieveHybrid)
        || bool_decide (vq_Kind q = retrieveVector)) then Some (vq_Vector q) else None)
    (if bool_decide (vq_Kind q = retrieveCLIP) && negb (bool_decide (vq_ClipVector q = []))
     then Some (vq_ClipVector q) else None).

Section search.
Context {V : Type} `{!SearchAPI V} `{!VespaJson}.

Definition vespa_Search (baseURL : string) (ctx : Ctx) (q : vespaQuery) : prog V (result QueryErr vespaResult) :=
  Atomic _ (input (λ i, (in_ctx i, time_left i ctx))) (λ env,
  match env.1 with
  | Some e => Ret (Err (QE_Ctx e))
  | None =>
    match buildYQL q with
    | Err e => Ret (Err e)
    | Ok yql =>
      match body_timeout env.2 with
      | None => Ret (Err (QE_Ctx DeadlineExceeded))
      | Some timeout =>
        Atomic _ (λ i v, vespa_Do i (searchURL baseURL) (search_body q yql timeout) v) (λ x,
        Ret match x with
        | XMarshal e => Err (QE_Msg ("vespa: marshal query: " +:+ e))
        | XBuild e => Err (QE_Msg ("vespa: build request: " +:+ e))
        | XTransport e => Err (QE_Degradable ("vespa: " +:+ e))
        | XRead e => Err (QE_Degradable ("vespa: read response: " +:+ e))
        | XResponse st body =>
          let raw := take maxVespaResponseBytes body in
          let text := "vespa: status " +:+ pretty st +:+ ": " +:+ truncateForError raw in
          if 500 <=? st then Err (QE_Degradable text)
          else if negb (st =? 200) then Err (QE_Msg text)
          else parseVespaResponse raw (vq_Kind q)
        end)
      end
    end
  end).
End search.
