(* ===== verification/QueryVespaProofs.v ===== *)
(** * The YQL a query renders to

    A lexer of YQL's double-quoted string literals, and the theorem that what
    [buildYQL] prints lexes to the printed form of an abstract filter in which
    every value of the caller is one literal token. *)

From stdpp Require Import base gmap strings list pretty.
From Stdlib Require Import Ascii ZArith Lia.
From S2P Require Import Prelude GoStrings GoText GoFloat GoTime Tenancy Crypto ControlPlane Erasure Document.
From S2P Require Import QueryVespa.

Open Scope Z_scope.

(** ** Lexing *)

(** A character outside the literals, or a whole literal with its value. *)
Inductive tok := TChr (a : ascii) | TLit (v : bytes).

(** The literal ends at the first quote that no backslash precedes. *)
Fixpoint lex (l : bytes) : option (list tok) :=
  match l with
  | [] => Some []
  | a :: l' => if Ascii.eqb a quote then lex_literal [] l' else (TChr a ::.) <$> lex l'
  end
with lex_literal (acc : bytes) (l : bytes) : option (list tok) :=
  match l with
  | [] => None
  | a :: l' =>
    if Ascii.eqb a quote then (TLit acc ::.) <$> lex l'
    else if Ascii.eqb a backslash then
      match l' with c :: l'' => lex_literal (acc ++ [c]) l'' | [] => None end
    else lex_literal (acc ++ [a]) l'
  end.

(** [l] lexes to [ts] wherever it stands outside a literal. *)
Definition lexes (l : bytes) (ts : list tok) : Prop := ∀ rest, lex (l ++ rest) = (ts ++.) <$> lex rest.

Lemma lexes_nil : lexes [] [].
Proof. intros rest. cbn. by destruct (lex rest). Qed.

Lemma lexes_app l1 ts1 l2 ts2 : lexes l1 ts1 → lexes l2 ts2 → lexes (l1 ++ l2) (ts1 ++ ts2).
Proof.
  intros H1 H2 rest. rewrite <-app_assoc, H1, H2. destruct (lex rest); cbn; by rewrite ?app_assoc.
Qed.

Definition chars (s : string) : list tok := TChr <$> to_bytes s.

Definition plain (s : string) : bool := str_forallb (λ a, negb (Ascii.eqb a quote)) s.

Lemma lexes_plain s : plain s = true → lexes (to_bytes s) (chars s).
Proof.
  unfold chars, plain. induction s as [|a s IH]; intros H; [apply lexes_nil|].
  unfold str_forallb in *. cbn in H. apply andb_true_iff in H as [Ha Hs].
  intros rest. cbn. apply negb_true_iff in Ha. rewrite Ha. unfold lexes in IH. unfold to_bytes in IH.
  rewrite IH by done. by destruct (lex rest).
Qed.

(** What the two replacements do to one byte. *)
Definition esc (a : ascii) : bytes :=
  if Ascii.eqb a backslash then [backslash; backslash]
  else if Ascii.eqb a quote then [backslash; quote] else [a].

Lemma escape_both l :
  replace_byte quote [backslash; quote] (replace_byte backslash [backslash; backslash] l) = l ≫= esc.
Proof.
  unfold replace_byte. induction l as [|a l IH]; [done|]. cbn [mbind list_bind].
  rewrite bind_app, IH. f_equal. unfold esc.
  destruct (Ascii.eqb_spec a backslash) as [->|Ha]; [done|]. cbn. by rewrite app_nil_r.
Qed.

Lemma lex_escaped acc l rest :
  lex_literal acc ((l ≫= esc) ++ quote :: rest) = (TLit (acc ++ l) ::.) <$> lex rest.
Proof.
  revert acc. induction l as [|a l IH]; intros acc; [cbn; by rewrite app_nil_r|].
  cbn [mbind list_bind]. rewrite <-app_assoc. unfold esc at 1.
  destruct (Ascii.eqb_spec a backslash) as [->|Hb]; [|destruct (Ascii.eqb_spec a quote) as [->|Hq]].
  - change (lex_literal (acc ++ [backslash]) ((l ≫= esc) ++ quote :: rest) = (TLit (acc ++ backslash :: l) ::.) <$> lex rest).
    rewrite IH. by rewrite <-app_assoc.
  - change (lex_literal (acc ++ [quote]) ((l ≫= esc) ++ quote :: rest) = (TLit (acc ++ quote :: l) ::.) <$> lex rest).
    rewrite IH. by rewrite <-app_assoc.
  - cbn [app lex_literal]. rewrite (proj2 (Ascii.eqb_neq _ _) Hq), (proj2 (Ascii.eqb_neq _ _) Hb).
    rewrite IH. by rewrite <-app_assoc.
Qed.

Lemma literal_lexes v lit : yqlStringLiteral v = Ok lit → lexes (to_bytes lit) [TLit (to_bytes v)].
Proof.
  unfold yqlStringLiteral. destruct (existsb _ _); [done|]. intros [= <-] rest.
  unfold ReplaceByte. rewrite !to_bytes_app, !to_of_bytes.
  change (to_bytes "\\") with [backslash; backslash].
  change (to_bytes (String backslash (String quote ""))) with [backslash; quote].
  rewrite escape_both. change (to_bytes (String quote "")) with [quote]. cbn [app lex].
  change (Ascii.eqb quote quote) with true. cbn [lex]. rewrite <-app_assoc. cbn [app].
  by rewrite lex_escaped.
Qed.

(** ** The abstract filter *)

(** The constraints of a query, each of them on its own. *)
Inductive Filter :=
| FTypes (names : list string)
| FCreatedFrom (sec : Z)
| FCreatedTo (exclusive : bool) (sec : Z)
| FEventFrom (sec : Z)
| FEventTo (sec : Z)
| FParticipant (value : string)
| FPersonPhrase (words : list string)
| FText (exclude : bool) (words : list string).

Definition type_filters (ts : list DocType) : list Filter :=
  match ts with [] => [] | _ => [FTypes (docType_String <$> ts)] end.

Definition time_filters (q : vespaQuery) : list Filter :=
  (if IsZero (vq_From q) then [] else [FCreatedFrom (Unix (vq_From q))]) ++
  (if IsZero (vq_To q) then [] else [FCreatedTo (vq_ToExclusive q) (Unix (vq_To q))]) ++
  (if IsZero (vq_EventFrom q) then [] else [FEventFrom (Unix (vq_EventFrom q))]) ++
  (if IsZero (vq_EventTo q) then [] else [FEventTo (Unix (vq_EventTo q))]).

Definition person_filters (p : string) : list Filter :=
  if String.eqb p "" then []
  else if bool_decide (1 < length (Fields p))%nat && negb (ContainsAny p (String quote (String backslash "")))
  then [FPersonPhrase (Fields p)] else [FParticipant p].

Definition text_filter (c : textClause) : Filter := FText (cl_Exclude c) (Fields (cl_Text c)).

Definition filters (q : vespaQuery) : list Filter :=
  type_filters (vq_DocTypes q) ++ time_filters q ++ person_filters (vq_Participant q) ++
  (text_filter <$> vq_TextClauses q).

Fixpoint sep_by (sep : list tok) (l : list (list tok)) : list tok :=
  match l with
  | [] => []
  | [x] => x
  | x :: l' => x ++ sep ++ sep_by sep l'
  end.

Definition lit (v : string) : list tok := [TLit (to_bytes v)].

Definition render_words (words : list string) : list tok :=
  match words with
  | [w] => lit w
  | _ => chars "phrase(" ++ sep_by (chars ", ") (lit <$> words) ++ chars ")"
  end.

Definition render (f : Filter) : list tok :=
  match f with
  | FTypes names =>
    let parts := (λ n, chars "type contains " ++ lit n) <$> names in
    match names with
    | [_] => sep_by (chars " or ") parts
    | _ => chars "(" ++ sep_by (chars " or ") parts ++ chars ")"
    end
  | FCreatedFrom z => chars "created_at >= " ++ chars (pretty z)
  | FCreatedTo ex z => chars (if ex then "created_at < " else "created_at <= ") ++ chars (pretty z)
  | FEventFrom z =>
    chars "(event_start >= " ++ chars (pretty z) ++ chars " or (!(event_start = 0) and event_end > " ++
    chars (pretty z) ++ chars "))"
  | FEventTo z => chars "event_start < " ++ chars (pretty z)
  | FParticipant v => chars "participants contains ({substring:true}" ++ lit v ++ chars ")"
  | FPersonPhrase ws =>
    chars "participants contains ({stem:false}phrase(" ++ sep_by (chars ", ") (lit <$> ws) ++ chars "))"
  | FText ex ws =>
    let match_ := chars "({stem:false}" ++ render_words ws ++ chars ")" in
    chars (if ex then "!(" else "(") ++
    sep_by (chars " or ") [chars "title contains " ++ match_; chars "body contains " ++ match_;
      chars "chunks contains " ++ match_] ++ chars ")"
  end.

Definition render_query (q : vespaQuery) : list tok :=
  chars "select * from sources * where " ++
  sep_by (chars " and ") (chars (kind_clause (vq_Kind q)) :: (render <$> filters q)) ++
  (if bool_decide (vq_Kind q = retrieveFilterOnly) && negb (IsZero (vq_EventFrom q))
   then chars " order by event_start asc" else []).

(** ** Rendering *)
Definition Lx (s : string) (ts : list tok) : Prop := lexes (to_bytes s) ts.

Create HintDb lexing.

Lemma Lx_app s t ts us : Lx s ts → Lx t us → Lx (s +:+ t) (ts ++ us).
Proof. unfold Lx. rewrite to_bytes_app. apply lexes_app. Qed.

Lemma Lx_plain s : plain s = true → Lx s (chars s).
Proof. apply lexes_plain. Qed.

Lemma Lx_pretty (z : Z) : Lx (pretty z) (chars (pretty z)).
Proof.
  apply Lx_plain. unfold plain, str_forallb. apply forallb_forall. intros a Ha.
  pose proof (str_forallb_elem _ _ a (pretty_Z_bytes z)) as Hn. rewrite list_elem_of_In in Hn. specialize (Hn Ha).
  by destruct (Ascii.eqb_spec a quote) as [->|].
Qed.

Lemma Lx_lit v s : yqlStringLiteral v = Ok s → Lx s (lit v).
Proof. apply literal_lexes. Qed.

#[export] Hint Resolve Lx_app Lx_pretty Lx_lit : lexing.
#[export] Hint Extern 1 (Lx _ (chars _)) => (apply Lx_plain; reflexivity) : lexing.

Lemma Lx_join sep parts tss :
  plain sep = true → Forall2 Lx parts tss → Lx (Join parts sep) (sep_by (chars sep) tss).
Proof.
  intros Hs H. unfold Join. induction H as [|s ts parts tss Hx H IH]; [apply lexes_nil|].
  destruct H as [|s' ts' parts tss Hx' H]; [done|].
  change (Lx (s +:+ sep +:+ String.concat sep (s' :: parts)) (ts ++ chars sep ++ sep_by (chars sep) (ts' :: tss))).
  auto using Lx_app, Lx_plain.
Qed.

Lemma literals_Lx vs ls : literals vs = Ok ls → Forall2 Lx ls (lit <$> vs).
Proof.
  revert ls. induction vs as [|v vs IH]; intros ls; cbn [literals]; [by intros [= <-]; constructor|].
  destruct (yqlStringLiteral v) eqn:Ev; cbn; [|done].
  destruct (literals vs) eqn:El; cbn; [|done]. intros [= <-]. constructor; [by apply Lx_lit|auto].
Qed.

Lemma fmap_Lx (f : string → string) (g : string → list tok) ls vs :
  (∀ s v, Lx s (lit v) → Lx (f s) (g v)) → Forall2 Lx ls (lit <$> vs) → Forall2 Lx (f <$> ls) (g <$> vs).
Proof.
  intros Hf. rewrite !Forall2_fmap, Forall2_fmap_r. intros H. eapply Forall2_impl; [exact H|]. cbn. auto.
Qed.

Lemma type_clauses_Lx ts cs :
  type_clauses ts = Ok cs →
  Forall2 Lx cs (render <$> type_filters ts).
Proof.
  destruct ts as [|t ts]; [by intros [= <-]; constructor|]. unfold type_clauses.
  destruct (literals _) as [ls|] eqn:El; cbn [mbind]; [|done].
  apply literals_Lx in El. intros [= <-]. constructor; [|constructor].
  pose proof (Forall2_length _ _ _ El) as Hl. rewrite !length_fmap in Hl. cbn [length] in Hl.
  pose proof (Lx_join " or " _ _ eq_refl (fmap_Lx (λ l, "type contains " +:+ l) (λ n, chars "type contains " ++ lit n) _ _
    ltac:(eauto with lexing) El)) as Hj.
  rewrite length_fmap, Hl. cbn [render]. destruct ts as [|t' ts]; [exact Hj|].
  rewrite bool_decide_true by (cbn; lia). cbn [fmap list_fmap] in *. eauto with lexing.
Qed.

Lemma time_clauses_Lx q :
  Forall2 Lx (time_clauses q) (render <$> time_filters q).
Proof.
  unfold time_clauses, time_filters. rewrite !fmap_app. repeat apply Forall2_app;
    (destruct (IsZero _); [constructor|]; constructor; [|constructor]); cbn [render]; try by eauto 10 with lexing.
  destruct (vq_ToExclusive q);
    [change (Lx ("created_at < " +:+ pretty (Unix (vq_To q))) (chars "created_at < " ++ chars (pretty (Unix (vq_To q)))))
    |change (Lx ("created_at <= " +:+ pretty (Unix (vq_To q))) (chars "created_at <= " ++ chars (pretty (Unix (vq_To q)))))];
    eauto with lexing.
Qed.

Lemma participant_clauses_Lx p cs :
  participant_clauses p = Ok cs →
  Forall2 Lx cs (render <$> person_filters p).
Proof.
  unfold participant_clauses, person_filters. destruct (String.eqb p ""); [by intros [= <-]; constructor|].
  destruct (yqlStringLiteral p) as [l|] eqn:Ep; cbn [mbind]; [|done].
  destruct (_ && _).
  - destruct (literals (Fields p)) as [ls|] eqn:El; cbn [mbind]; [|done]. intros [= <-].
    pose proof (Lx_join ", " _ _ eq_refl (literals_Lx _ _ El)). constructor; [|constructor]. cbn [render].
    eauto with lexing.
  - intros [= <-]. constructor; [|constructor]. cbn [render]. eauto with lexing.
Qed.

Lemma text_clause_Lx c s :
  text_clause c = Ok s → Lx s (render (text_filter c)).
Proof.
  unfold text_clause. destruct (literals _) as [ls|] eqn:El; cbn [mbind]; [|done]. apply literals_Lx in El.
  destruct ls as [|l rest]; [done|]. cbn [render text_filter].
  assert (Hm : Lx ("({stem:false}" +:+ match rest with [] => l | _ => "phrase(" +:+ Join (l :: rest) ", " +:+ ")" end +:+ ")")
    (chars "({stem:false}" ++ render_words (Fields (cl_Text c)) ++ chars ")")).
  { pose proof (Lx_join ", " _ _ eq_refl El) as Hj.
    destruct (Fields (cl_Text c)) as [|w ws]; [by inversion El|].
    apply Forall2_cons in El as [Hl Hr]. destruct rest as [|l' rest], ws as [|w' ws]; try by inversion Hr.
    - cbn [render_words]. eauto with lexing.
    - cbn [render_words] in *. cbn [fmap list_fmap] in *. eauto with lexing. }
  set (m := "({stem:false}" +:+ _) in *. clearbody m. intros [= <-].
  assert (He : Lx ("(" +:+ Join ["title contains " +:+ m; "body contains " +:+ m; "chunks contains " +:+ m] " or " +:+ ")")
    (chars "(" ++ sep_by (chars " or ")
      [chars "title contains " ++ chars "({stem:false}" ++ render_words (Fields (cl_Text c)) ++ chars ")";
       chars "body contains " ++ chars "({stem:false}" ++ render_words (Fields (cl_Text c)) ++ chars ")";
       chars "chunks contains " ++ chars "({stem:false}" ++ render_words (Fields (cl_Text c)) ++ chars ")"] ++ chars ")")).
  { apply Lx_app; [by apply Lx_plain|]. apply Lx_app; [|by apply Lx_plain]. apply Lx_join; [done|].
    repeat constructor; eauto with lexing. }
  destruct (cl_Exclude c); [|exact He].
  apply (Lx_app "!" _ (chars "!") _ (Lx_plain "!" eq_refl) He).
Qed.

Lemma text_clauses_Lx cs ss :
  text_clauses cs = Ok ss →
  Forall2 Lx ss (render <$> (text_filter <$> cs)).
Proof.
  revert ss. induction cs as [|c cs IH]; intros ss; cbn [text_clauses]; [by intros [= <-]; constructor|].
  destruct (text_clause c) as [s|] eqn:Ec; cbn [mbind]; [|done].
  destruct (text_clauses cs) as [ss'|]; cbn [mbind]; [|done]. intros [= <-].
  constructor; [by apply text_clause_Lx|auto].
Qed.

Lemma kind_clause_Lx k : Lx (kind_clause k) (chars (kind_clause k)).
Proof. by apply Lx_plain; destruct k. Qed.

Lemma buildYQL_Lx q s : buildYQL q = Ok s → Lx s (render_query q).
Proof.
  unfold buildYQL. destruct (type_clauses _) as [ts|] eqn:Et; cbn [mbind]; [|done].
  destruct (participant_clauses _) as [ps|] eqn:Ep; cbn [mbind]; [|done].
  destruct (text_clauses _) as [xs|] eqn:Ex; cbn [mbind]; [|done].
  assert (Hc : Forall2 Lx ([kind_clause (vq_Kind q)] ++ ts ++ time_clauses q ++ ps ++ xs)
    (chars (kind_clause (vq_Kind q)) :: (render <$> filters q))).
  { constructor; [apply kind_clause_Lx|]. unfold filters. rewrite !fmap_app.
    auto 6 using Forall2_app, type_clauses_Lx, time_clauses_Lx, participant_clauses_Lx, text_clauses_Lx. }
  apply (Lx_join " and " _ _ eq_refl) in Hc. intros [= <-]. unfold render_query.
  pose proof (Lx_app _ _ _ _ (Lx_plain "select * from sources * where " eq_refl) Hc) as Hq.
  destruct (_ && _); [|by rewrite app_nil_r]. rewrite (app_assoc (chars _)).
  exact (Lx_app _ _ _ _ Hq (Lx_plain " order by event_start asc" eq_refl)).
Qed.

(** ** Which queries are refused *)

(** No control character: none below U+0020 and no U+007F. *)
Definition clean (v : string) : bool := str_forallb (λ a, negb (control_rune (zbyte a))) v.

(** Every value can be written as a literal, every text clause has a word. *)
Definition acceptable (q : vespaQuery) : Prop :=
  clean (vq_Participant q) = true ∧
  Forall (λ c, Forall (λ w, clean w = true) (Fields (cl_Text c)) ∧ Fields (cl_Text c) ≠ []) (vq_TextClauses q).

Lemma control_bytes s : existsb (λ p, control_rune p.1) (runes s) = negb (clean s).
Proof.
  unfold runes. rewrite (runes_ascii_test control_rune 0 (to_bytes s));
    [|unfold control_rune; intros; lia|lia|by rewrite take_0; intros a []%not_elem_of_nil].
  unfold clean, str_forallb. unfold to_bytes. generalize (String.list_ascii_of_string s). intros l.
  induction l as [|a l IH]; [done|]. cbn. rewrite IH, negb_andb, negb_involutive. done.
Qed.

Lemma literal_result v :
  if clean v then ∃ s, yqlStringLiteral v = Ok s
  else yqlStringLiteral v = Err (QE_InvalidFilter "control character").
Proof. unfold yqlStringLiteral. rewrite control_bytes. destruct (clean v); cbn; eauto. Qed.

Lemma literals_result vs :
  if forallb clean vs then ∃ ls, literals vs = Ok ls ∧ length ls = length vs
  else literals vs = Err (QE_InvalidFilter "control character").
Proof.
  induction vs as [|v vs IH]; cbn [forallb literals]; [by exists []|].
  pose proof (literal_result v) as Hv. destruct (clean v); cbn [andb]; [|by rewrite Hv].
  destruct Hv as [s ->]. cbn [mbind]. destruct (forallb clean vs).
  - destruct IH as (ls & -> & Hl). cbn. exists (s :: ls). cbn. auto.
  - by rewrite IH.
Qed.

Lemma clean_word p w : clean p = true → w ∈ Fields p → clean w = true.
Proof.
  intros Hp Hw. unfold clean, str_forallb. apply forallb_forall. intros a Ha.
  apply list_elem_of_In in Ha. apply (str_forallb_elem _ _ a Hp). by eapply Fields_bytes.
Qed.

Lemma clean_words p : clean p = true → forallb clean (Fields p) = true.
Proof. intros Hp. apply forallb_forall. intros w Hw. apply list_elem_of_In in Hw. by eapply clean_word. Qed.

(** The name of a document type prints without control characters. *)
Lemma clean_type t : clean (docType_String t) = true.
Proof.
  destruct t as [| | | | | | | | | |n]; try done. cbn [docType_String]. unfold clean, str_forallb. apply forallb_forall.
  intros a Ha. apply list_elem_of_In in Ha. pose proof (str_forallb_elem _ _ a (pretty_Z_bytes n) Ha) as Hn.
  unfold num_byte, byte_in, control_rune, zbyte in *. destruct (Ascii.eqb_spec a "-") as [->|]; [done|].
  rewrite orb_false_r in Hn. apply andb_true_iff in Hn as [?%N.leb_le ?%N.leb_le]. lia.
Qed.

Lemma type_clauses_ok ts : ∃ cs, type_clauses ts = Ok cs.
Proof.
  destruct ts as [|t ts]; [by exists []|]. unfold type_clauses.
  pose proof (literals_result (docType_String <$> t :: ts)) as H.
  replace (forallb clean _) with true in H; [destruct H as (ls & -> & _); cbn; eauto|].
  symmetry. apply forallb_forall. intros n Hn. apply list_elem_of_In, list_elem_of_fmap in Hn as (t' & -> & _).
  apply clean_type.
Qed.

Lemma participant_clauses_result p :
  if clean p then ∃ cs, participant_clauses p = Ok cs
  else participant_clauses p = Err (QE_InvalidFilter "control character").
Proof.
  unfold participant_clauses. destruct (String.eqb_spec p "") as [->|_]; [cbn; eauto|].
  pose proof (literal_result p) as Hp. destruct (clean p) eqn:Ec; [|by rewrite Hp].
  destruct Hp as [s ->]. cbn [mbind]. destruct (_ && _); [|eauto].
  pose proof (literals_result (Fields p)) as Hl. rewrite (clean_words p Ec) in Hl. destruct Hl as (ls & -> & _).
  cbn. eauto.
Qed.

Definition text_ok (c : textClause) : bool :=
  forallb clean (Fields (cl_Text c)) && negb (bool_decide (Fields (cl_Text c) = [])).

Lemma text_clauses_result cs :
  if forallb text_ok cs then ∃ ss, text_clauses cs = Ok ss else ∃ m, text_clauses cs = Err (QE_InvalidFilter m).
Proof.
  induction cs as [|c cs IH]; cbn [forallb text_clauses]; [eauto|].
  assert (Hc : if text_ok c then ∃ s, text_clause c = Ok s else ∃ m, text_clause c = Err (QE_InvalidFilter m)).
  { unfold text_ok, text_clause. pose proof (literals_result (Fields (cl_Text c))) as Hl.
    destruct (forallb clean _); cbn [andb]; [|rewrite Hl; cbn; eauto]. destruct Hl as (ls & -> & Hl). cbn [mbind].
    destruct (Fields (cl_Text c)), ls; cbn in *; try lia; eauto. }
  destruct (text_ok c); cbn [andb]; [|destruct Hc as [m ->]; cbn; eauto]. destruct Hc as [s ->]. cbn [mbind].
  destruct (forallb text_ok cs); [destruct IH as [ss ->]|destruct IH as [m ->]]; cbn; eauto.
Qed.

Lemma acceptable_bool q :
  acceptable q ↔ clean (vq_Participant q) = true ∧ forallb text_ok (vq_TextClauses q) = true.
Proof.
  unfold acceptable, text_ok. rewrite forallb_forall, Forall_forall. apply and_iff_compat_l.
  split; intros H c Hc.
  - apply list_elem_of_In in Hc. destruct (H c Hc) as [Hw Hn]. rewrite Forall_forall in Hw.
    rewrite bool_decide_false, andb_true_r by done. apply forallb_forall. intros w Hw'. apply Hw.
    by apply list_elem_of_In.
  - apply list_elem_of_In in Hc. specialize (H c Hc). apply andb_true_iff in H as [Hw Hn].
    rewrite Forall_forall. split; [|by case_bool_decide]. intros w Hw'. rewrite forallb_forall in Hw. apply Hw.
    by apply list_elem_of_In.
Qed.

(** What is refused, and as what. *)
Lemma buildYQL_refuses q e : buildYQL q = Err e → ¬ acceptable q ∧ ∃ m, e = QE_InvalidFilter m.
Proof.
  rewrite acceptable_bool. unfold buildYQL.
  destruct (type_clauses_ok (vq_DocTypes q)) as [ts ->]. cbn [mbind].
  pose proof (participant_clauses_result (vq_Participant q)) as Hp.
  destruct (clean _); [destruct Hp as [ps ->]|rewrite Hp; intros [= <-]; naive_solver]. cbn [mbind].
  pose proof (text_clauses_result (vq_TextClauses q)) as Ht.
  destruct (forallb text_ok _); [by destruct Ht as [ss ->]|]. destruct Ht as [m ->]. intros [= <-]. naive_solver.
Qed.

(** C22. No YQL injection: [buildYQL] accepts a query exactly when its
    participant and the words of its text clauses are free of control
    characters and no text clause is empty, and refuses any other as an
    invalid filter value; and what it prints lexes to the printed form of the
    query's filters, in which every value of the caller, quotes, backslashes
    and all, is the content of exactly one string literal. *)
Theorem yql_injection_free q :
  match buildYQL q with
  | Ok s => acceptable q ∧ lex (to_bytes s) = Some (render_query q)
  | Err e => ¬ acceptable q ∧ ∃ m, e = QE_InvalidFilter m
  end.
Proof.
  destruct (buildYQL q) as [s|e] eqn:Eb.
  - split; [|pose proof (buildYQL_Lx q s Eb []) as H; rewrite app_nil_r in H; by rewrite H; cbn; rewrite app_nil_r].
    revert Eb. unfold buildYQL. rewrite acceptable_bool. destruct (type_clauses _); cbn [mbind]; [|done].
    pose proof (participant_clauses_result (vq_Participant q)) as Hp.
    destruct (clean _); [destruct Hp as [ps ->]|by rewrite Hp]. cbn [mbind].
    pose proof (text_clauses_result (vq_TextClauses q)) as Ht.
    destruct (forallb text_ok _); [done|]. by destruct Ht as [m ->].
  - by apply buildYQL_refuses.
Qed.
