(* ===== verification/QueryRank.v ===== *)
(** * Merging, fusing and paging hits

    Models the ranking helpers of the query service: [mergeHits],
    [mergedTotal] and [pageHits] of [server.go], [rrfFuse] of
    [rrf.go], [rerankByRecency] of [rerank.go] and the markers of
    [degrade.go]. *)

From stdpp Require Import base gmap strings list pretty sets sorting.
From Stdlib Require Import Ascii ZArith Lia.
From S2P Require Import Prelude GoStrings Tenancy Crypto ControlPlane Document GoTime GoText GoFloat QueryVespa.

Open Scope Z_scope.

(** ** Degradation markers *)
Definition degradedKeywordOnly : string := "keyword-only".
Definition degradedClipUnavailable : string := "clip-unavailable".
Definition degradedRerankUnavailable : string := "rerank-unavailable".
Definition degradedRerankNotEnabled : string := "rerank-not-enabled".
Definition degradedRerankNotApplicable : string := "rerank-not-applicable".

Definition addDegraded (reasons : list string) (reason : string) : list string :=
  if existsb (String.eqb reason) reasons then reasons else reasons ++ [reason].

Definition joinDegraded (reasons : list string) : string := Join reasons ",".

(** ** Merging two arms *)

(** [inheritMediaFields] *)
Definition inheritMediaFields (dst src : Hit) : Hit :=
  let dst := if String.eqb (hit_Modality dst) "" && negb (String.eqb (hit_Modality src) "")
    then set_media (hit_StartMs src) (hit_EndMs src) (hit_Modality src) dst else dst in
  if String.eqb (hit_ThumbnailKey dst) "" && negb (String.eqb (hit_ThumbnailKey src) "")
  then set_thumbnail (hit_ThumbnailKey src) dst else dst.

(** Document ids in the order first seen, and the hit of each. *)
Record Merge := mkMerge { m_order : list string; m_byDoc : gmap string Hit }.

Definition merge_add (m : Merge) (h : Hit) : Merge :=
  match m_byDoc m !! hit_DocId h with
  | None => mkMerge (m_order m ++ [hit_DocId h]) (<[hit_DocId h := h]> (m_byDoc m))
  | Some existing =>
    let existing := if fgt (hit_Score h) (hit_Score existing) then set_score (hit_Score h) existing else existing in
    mkMerge (m_order m) (<[hit_DocId h := inheritMediaFields existing h]> (m_byDoc m))
  end.

Definition merge_out (m : Merge) : list Hit := omap (λ id, m_byDoc m !! id) (m_order m).

Definition mergeHits (textHits clipHits : list Hit) : list Hit :=
  let m := foldl merge_add (mkMerge [] ∅) textHits in
  let m := foldl merge_add m clipHits in
  sort_desc hit_Score (merge_out m).

Definition mergedTotal (textResult clipResult : vespaResult) (distinct : Z) : Z :=
  let total := distinct in
  let total := if total <? Total textResult then Total textResult else total in
  if total <? Total clipResult then Total clipResult else total.

(** int32 arithmetic. *)
Definition wrap32 (z : Z) : Z := (z + 2 ^ 31) mod 2 ^ 32 - 2 ^ 31.

(** For offsets and limits of a normalized request the slice is in range
    ([pageHits_window]). *)
Definition pageHits {A} (hits : list A) (offset limit : Z) : list A :=
  let n := wrap32 (Z.of_nat (length hits)) in
  if n <=? offset then []
  else
    let end_ := wrap32 (offset + limit) in
    let end_ := if n <? end_ then n else end_ in
    take (Z.to_nat (end_ - offset)) (drop (Z.to_nat offset) hits).

(** ** Reciprocal rank fusion *)
Definition rrfK : Z := 60.

Record Fusion := mkFusion { f_order : list string; f_byDoc : gmap string Hit; f_fused : gmap string float64 }.

Definition rrf_add (f : Fusion) (rank : Z) (h : Hit) : Fusion :=
  let id := hit_DocId h in
  let fused := <[id := fadd (default fzero (f_fused f !! id)) (fdiv fone (float_of_Z (rrfK + rank)))]> (f_fused f) in
  match f_byDoc f !! id with
  | None => mkFusion (f_order f ++ [id]) (<[id := h]> (f_byDoc f)) fused
  | Some existing => mkFusion (f_order f) (<[id := inheritMediaFields existing h]> (f_byDoc f)) fused
  end.

(** One list: [seen] ids are skipped, ranks count the others from 1. *)
Fixpoint rrf_list (f : Fusion) (seen : list string) (rank : Z) (hits : list Hit) : Fusion :=
  match hits with
  | [] => f
  | h :: hits' =>
    if String.eqb (hit_DocId h) "" || existsb (String.eqb (hit_DocId h)) seen then rrf_list f seen rank hits'
    else rrf_list (rrf_add f (rank + 1) h) (hit_DocId h :: seen) (rank + 1) hits'
  end.

Definition rrf_out (f : Fusion) : list Hit :=
  omap (λ id, (λ h, set_score (default fzero (f_fused f !! id)) h) <$> f_byDoc f !! id) (f_order f).

Definition rrfFuse (lists : list (list Hit)) : list Hit :=
  sort_desc hit_Score (rrf_out (foldl (λ f l, rrf_list f [] 0 l) (mkFusion [] ∅ ∅) lists)).

(** ** Freshness *)

(** [math.Exp2], of the platform. *)
Class FloatMath := { Exp2 : float64 → float64 }.

Definition maxDuration : Z := 2 ^ 63 - 1.
Definition minDuration : Z := - 2 ^ 63.

(** [time.Time.Sub] saturates. *)
Definition time_Sub (t u : Z) : Z := Z.max minDuration (Z.min maxDuration (t - u)).

(** [Timestamp.AsTime] *)
Definition AsTime (ts : Timestamp) : Z := ts_seconds ts * second + ts_nanos ts.

Definition hitTime (h : Hit) : Z :=
  match hit_Modified h with
  | Some ts => AsTime ts
  | None => match hit_Created h with Some ts => AsTime ts | None => zeroTime end
  end.

Definition fneg (x : float64) : float64 := SpecFloat.SFopp x.

(** [scoreRange] of personalize.go, and the loop of [rerankByRecency]: the
    least and the greatest score, the first hit's where comparisons fail. *)
Definition scoreRange (hits : list Hit) : float64 * float64 :=
  match hits with
  | [] => (fzero, fzero)
  | h0 :: _ =>
    foldl (λ acc h,
      (if flt (hit_Score h) acc.1 then hit_Score h else acc.1,
       if fgt (hit_Score h) acc.2 then hit_Score h else acc.2)) (hit_Score h0, hit_Score h0) hits
  end.

Section recency.
Context `{!FloatMath}.

Definition recencyScore (t now halfLife : Z) : float64 :=
  if IsZero t then fzero
  else
    let age := time_Sub now t in
    if age <=? 0 then fone
    else Exp2 (fdiv (fneg (float_of_Z age)) (float_of_Z halfLife)).

Definition blended (weight minScore span : float64) (halfLife now : Z) (h : Hit) : float64 :=
  let rel := if fgt span fzero then fdiv (fsub (hit_Score h) minScore) span else fone in
  let rec := recencyScore (hitTime h) now halfLife in
  fadd (fmul (fsub fone weight) rel) (fmul weight rec).

(** The order the hits are left in. *)
Definition rerankByRecency (hits : list Hit) (weight : float64) (halfLife now : Z) : list Hit :=
  if fle weight fzero || (halfLife <=? 0) || bool_decide (length hits < 2)%nat then hits
  else
    let weight := if fgt weight fone then fone else weight in
    let '(minScore, maxScore) := scoreRange hits in
    let span := fsub maxScore minScore in
    fst <$> sort_desc snd ((λ h, (h, blended weight minScore span halfLife now h)) <$> hits).
End recency.

(** * Merged and fused rankings

    What [mergeHits] and [rrfFuse] compute, document by document, and that
    pages tile a ranking. *)

(** ** Pages *)
Lemma wrap32_id z : - 2 ^ 31 <= z < 2 ^ 31 → wrap32 z = z.
Proof. intros H. unfold wrap32. rewrite Z.mod_small; lia. Qed.

(** The window of a page; offsets and limits of a normalized request and
    rankings of fewer than 2^31 hits satisfy the bounds. *)
Lemma pageHits_window {A} (hits : list A) (offset limit : Z) :
  0 <= offset → 0 <= limit → offset + limit < 2 ^ 31 → Z.of_nat (length hits) < 2 ^ 31 →
  pageHits hits offset limit = take (Z.to_nat limit) (drop (Z.to_nat offset) hits).
Proof.
  intros Ho Hl Hol Hn. unfold pageHits. rewrite !wrap32_id by lia.
  destruct (Z.leb_spec (Z.of_nat (length hits)) offset) as [Hle|Hgt].
  - by rewrite drop_ge, take_nil by lia.
  - destruct (Z.ltb_spec (Z.of_nat (length hits)) (offset + limit)).
    + rewrite !take_ge; [done|rewrite length_drop; lia..].
    + f_equal. lia.
Qed.

(** Successive pages of one size tile the ranking. *)
Lemma pages_tile {A} (hits : list A) (limit : nat) (n : nat) :
  Z.of_nat (n * limit) < 2 ^ 31 → Z.of_nat (length hits) < 2 ^ 31 →
  concat ((λ k, pageHits hits (Z.of_nat (k * limit)) (Z.of_nat limit)) <$> seq 0 n) = take (n * limit) hits.
Proof.
  intros Hn Hl. induction n as [|n IH]; [done|].
  rewrite seq_S, fmap_app, concat_app, IH by lia. cbn [fmap list_fmap concat]. rewrite app_nil_r.
  rewrite pageHits_window by lia. rewrite !Nat2Z.id. cbn [Nat.add].
  replace (S n * limit)%nat with (n * limit + limit)%nat by lia.
  rewrite <-(take_drop (n * limit) hits) at 3. rewrite take_app. f_equal; [by rewrite take_take, Nat.min_r by lia|].
  rewrite length_take. destruct (decide (n * limit <= length hits)%nat).
  - f_equal. lia.
  - by rewrite drop_ge, !take_nil by lia.
Qed.

(** ** Grouping by document *)
Definition of_doc (id : string) (l : list Hit) : list Hit := List.filter (λ h, String.eqb (hit_DocId h) id) l.

Lemma of_doc_app id l1 l2 : of_doc id (l1 ++ l2) = of_doc id l1 ++ of_doc id l2.
Proof. apply List.filter_app. Qed.

Lemma of_doc_single id h : of_doc id [h] = if String.eqb (hit_DocId h) id then [h] else [].
Proof. done. Qed.

Lemma elem_of_of_doc id l h : h ∈ of_doc id l ↔ h ∈ l ∧ hit_DocId h = id.
Proof. unfold of_doc. rewrite !list_elem_of_In, filter_In, String.eqb_eq. done. Qed.

(** A hit of the same document absorbed by the first one. *)
Definition absorb (existing h : Hit) : Hit :=
  inheritMediaFields (if fgt (hit_Score h) (hit_Score existing) then set_score (hit_Score h) existing else existing) h.

(** The fields that belong to the first hit of a document. *)
Definition card (h : Hit) :=
  (hit_DocId h, hit_ConnectorId h, hit_Type h, hit_Title h, hit_Snippet h, hit_Created h, hit_Modified h,
   hit_Metadata h, hit_Explanation h, hit_Features h).

Lemma inherit_card dst src : card (inheritMediaFields dst src) = card dst ∧ hit_Score (inheritMediaFields dst src) = hit_Score dst.
Proof. unfold inheritMediaFields. repeat case_match; done. Qed.

Lemma absorb_card a b : card (absorb a b) = card a.
Proof. unfold absorb. rewrite (proj1 (inherit_card _ _)). by destruct (fgt _ _). Qed.

Lemma absorb_score a b : hit_Score (absorb a b) = if fgt (hit_Score b) (hit_Score a) then hit_Score b else hit_Score a.
Proof. unfold absorb. rewrite (proj2 (inherit_card _ _)). by destruct (fgt _ _). Qed.

Lemma foldl_absorb_card l h : card (foldl absorb h l) = card h.
Proof. revert h. induction l as [|x l IH]; intros h; [done|]. cbn. by rewrite IH, absorb_card. Qed.

(** The greatest score of the group, and none of it is greater. *)
Lemma foldl_absorb_score l h :
  Forall (λ x, is_nan (hit_Score x) = false) (h :: l) →
  hit_Score (foldl absorb h l) ∈ hit_Score <$> h :: l ∧
  Forall (λ x, flt (hit_Score (foldl absorb h l)) (hit_Score x) = false) (h :: l).
Proof.
  revert h. induction l as [|x l IH]; intros h Hn.
  { split; [set_solver|]. repeat constructor. apply flt_irrefl. }
  cbn [foldl]. apply Forall_cons in Hn as [Hh Hn]. apply Forall_cons in Hn as [Hx Hn].
  assert (Hs : is_nan (hit_Score (absorb h x)) = false) by (rewrite absorb_score; by destruct (fgt _ _)).
  destruct (IH (absorb h x)) as [Hin Hall]; [by constructor|]. apply Forall_cons in Hall as [Ha Hall].
  assert (Hm : is_nan (hit_Score (foldl absorb (absorb h x) l)) = false).
  { apply list_elem_of_fmap in Hin as (y & -> & Hy). apply elem_of_cons in Hy as [->|Hy]; [done|].
    rewrite Forall_forall in Hn. auto. }
  split.
  - cbn [fmap list_fmap] in *. apply elem_of_cons in Hin as [Hin|Hin]; [|set_solver].
    rewrite Hin, absorb_score. destruct (fgt _ _); set_solver.
  - assert (Hhx : flt (hit_Score (absorb h x)) (hit_Score h) = false ∧ flt (hit_Score (absorb h x)) (hit_Score x) = false).
    { rewrite absorb_score. destruct (fgt (hit_Score x) (hit_Score h)) eqn:E; unfold fgt in E.
      - split; [by apply flt_asym|apply flt_irrefl].
      - split; [apply flt_irrefl|done]. }
    destruct Hhx. constructor; [|constructor; [|done]].
    + by apply (nlt_trans _ (hit_Score (absorb h x))).
    + by apply (nlt_trans _ (hit_Score (absorb h x))).
Qed.

(** ** mergeHits *)
Definition merged (l : list Hit) : Merge := foldl merge_add (mkMerge [] ∅) l.

Lemma merged_snoc l h : merged (l ++ [h]) = merge_add (merged l) h.
Proof. unfold merged. by rewrite foldl_app. Qed.

Definition merge_group (id : string) (l : list Hit) : option Hit :=
  match of_doc id l with [] => None | h :: rest => Some (foldl absorb h rest) end.

Lemma merged_byDoc l id : m_byDoc (merged l) !! id = merge_group id l.
Proof.
  unfold merge_group. induction l as [|h l IH] using rev_ind; [done|].
  rewrite merged_snoc. unfold merge_add. rewrite of_doc_app, of_doc_single.
  destruct (String.eqb_spec (hit_DocId h) id) as [He|He].
  - rewrite He, IH. destruct (of_doc id l) as [|h0 rest]; cbn [m_byDoc].
    + by rewrite lookup_insert_eq.
    + rewrite lookup_insert_eq. cbn [app]. by rewrite foldl_app.
  - rewrite app_nil_r. destruct (m_byDoc _ !! hit_DocId h); cbn [m_byDoc];
      rewrite lookup_insert_ne by done; apply IH.
Qed.

Lemma merged_order l :
  NoDup (m_order (merged l)) ∧ ∀ id, id ∈ m_order (merged l) ↔ id ∈ hit_DocId <$> l.
Proof.
  induction l as [|h l [Hnd Hin]] using rev_ind; [split; [constructor|done]|].
  rewrite merged_snoc. unfold merge_add. rewrite merged_byDoc. unfold merge_group.
  destruct (of_doc (hit_DocId h) l) as [|h0 rest] eqn:E; cbn [m_order].
  - assert (hit_DocId h ∉ m_order (merged l)).
    { rewrite Hin. intros (h' & He & Hh')%list_elem_of_fmap.
      assert (Hm : h' ∈ of_doc (hit_DocId h) l) by by apply elem_of_of_doc. by rewrite E in Hm; apply not_elem_of_nil in Hm. }
    split; [apply NoDup_app; split_and!; [done| |apply NoDup_singleton]; set_solver|].
    intros id. rewrite elem_of_app, Hin, fmap_app, elem_of_app. done.
  - split; [done|]. intros id. rewrite Hin, fmap_app, elem_of_app. cbn.
    assert (h0 ∈ l ∧ hit_DocId h0 = hit_DocId h) as [Hl He] by (apply elem_of_of_doc; rewrite E; set_solver).
    split; [auto|]. intros [?|Heq]; [done|]. apply list_elem_of_singleton in Heq as ->. rewrite <-He. by apply list_elem_of_fmap_2.
Qed.

Lemma omap_total {A B} (f : A → option B) (g : B → A) (l : list A) :
  (∀ x, x ∈ l → ∃ y, f x = Some y ∧ g y = x) → g <$> omap f l = l.
Proof.
  induction l as [|x l IH]; intros H; [done|]. destruct (H x) as (y & Hy & Hg); [set_solver|].
  cbn. rewrite Hy. cbn. rewrite Hg, IH; [done|]. intros z Hz. apply H. set_solver.
Qed.

Lemma merge_out_ids l : hit_DocId <$> merge_out (merged l) = m_order (merged l).
Proof.
  apply omap_total. intros id Hid. apply (merged_order l), list_elem_of_fmap in Hid as (h & -> & Hh).
  rewrite merged_byDoc. unfold merge_group.
  destruct (of_doc (hit_DocId h) l) as [|h0 rest] eqn:E.
  - assert (Hm : h ∈ of_doc (hit_DocId h) l) by by apply elem_of_of_doc. by rewrite E in Hm; apply not_elem_of_nil in Hm.
  - exists (foldl absorb h0 rest). split; [done|]. pose proof (foldl_absorb_card rest h0) as [= Hc _].
    rewrite Hc. assert (Hm : h0 ∈ of_doc (hit_DocId h) l) by (rewrite E; set_solver). by apply elem_of_of_doc in Hm as [_ ?].
Qed.

Lemma merge_out_elem l h : h ∈ merge_out (merged l) → merge_group (hit_DocId h) l = Some h.
Proof.
  intros (id & Hid & Hl)%list_elem_of_omap. rewrite merged_byDoc in Hl. rewrite <-Hl. f_equal.
  unfold merge_group in Hl. destruct (of_doc id l) as [|h0 rest] eqn:E; [done|]. injection Hl as <-.
  pose proof (foldl_absorb_card rest h0) as [= Hc _]. rewrite Hc.
  assert (Hm : h0 ∈ of_doc id l) by (rewrite E; set_solver). by apply elem_of_of_doc in Hm as [_ ?].
Qed.

(** Merging the text and the CLIP arm: [mergeHits] lists every document
    of either arm exactly once, in descending order of score; a document's
    score is the greatest any of its hits has, and every other field of its
    card comes from its first hit, the text arm's when that arm found it. *)
Theorem merge_hits_correct textHits clipHits :
  Forall (λ h, is_nan (hit_Score h) = false) (textHits ++ clipHits) →
  let out := mergeHits textHits clipHits in
  NoDup (hit_DocId <$> out) ∧
  (∀ id, id ∈ hit_DocId <$> out ↔ id ∈ hit_DocId <$> textHits ++ clipHits) ∧
  StronglySorted (desc hit_Score) out ∧
  ∀ h, h ∈ out → ∃ first rest, of_doc (hit_DocId h) (textHits ++ clipHits) = first :: rest ∧
    card h = card first ∧ hit_Score h ∈ hit_Score <$> first :: rest ∧
    Forall (λ x, flt (hit_Score h) (hit_Score x) = false) (first :: rest).
Proof.
  intros Hn out. set (l := textHits ++ clipHits) in *.
  assert (Ho : out = sort_desc hit_Score (merge_out (merged l)))
    by (unfold out, mergeHits, l, merged; by rewrite foldl_app).
  pose proof (sort_desc_perm hit_Score (merge_out (merged l))) as Hp. rewrite <-Ho in Hp.
  pose proof (fmap_Permutation hit_DocId _ _ Hp) as Hpi. rewrite merge_out_ids in Hpi.
  assert (Hg : ∀ h, h ∈ out → ∃ first rest, of_doc (hit_DocId h) l = first :: rest ∧ h = foldl absorb first rest ∧
    Forall (λ x, is_nan (hit_Score x) = false) (first :: rest)).
  { intros h Hh. rewrite Hp in Hh. apply merge_out_elem in Hh. unfold merge_group in Hh.
    destruct (of_doc (hit_DocId h) l) as [|h0 rest] eqn:E; [done|]. injection Hh as <-. exists h0, rest.
    split_and!; [done..|]. rewrite <-E. rewrite Forall_forall in Hn |- *. intros x Hx. apply Hn.
    by apply elem_of_of_doc in Hx as [? _]. }
  split_and!.
  - rewrite Hpi. apply merged_order.
  - intros id. rewrite Hpi. apply merged_order.
  - rewrite Ho. apply sort_desc_sorted. rewrite <-Hp. apply Forall_forall. intros h Hh.
    destruct (Hg h Hh) as (h0 & rest & _ & -> & Hf). destruct (foldl_absorb_score rest h0 Hf) as [(x & -> & Hx)%list_elem_of_fmap _].
    rewrite Forall_forall in Hf. auto.
  - intros h Hh. destruct (Hg h Hh) as (h0 & rest & He & -> & Hf).
    destruct (foldl_absorb_score rest h0 Hf). exists h0, rest. split_and!; [exact He|apply foldl_absorb_card|done..].
Qed.

(** ** rrfFuse *)

(** The hits of one list that count: the first of each named document. *)
Fixpoint distinct (seen : list string) (l : list Hit) : list Hit :=
  match l with
  | [] => []
  | h :: l' =>
    if String.eqb (hit_DocId h) "" || existsb (String.eqb (hit_DocId h)) seen then distinct seen l'
    else h :: distinct (hit_DocId h :: seen) l'
  end.

(** A document's 1-based rank in a list. *)
Definition rank_in (id : string) (l : list Hit) : option Z :=
  (λ p, Z.of_nat p.1 + 1) <$> list_find (λ h, hit_DocId h = id) (distinct [] l).

(** Its fused score: 1/(60 + rank), summed over the lists that rank it. *)
Definition rrf_score (lists : list (list Hit)) (id : string) : float64 :=
  foldl (λ acc l, match rank_in id l with
    | Some r => fadd acc (fdiv fone (float_of_Z (rrfK + r))) | None => acc end) fzero lists.

Fixpoint rrf_ranked (f : Fusion) (rank : Z) (hits : list Hit) : Fusion :=
  match hits with [] => f | h :: hits' => rrf_ranked (rrf_add f (rank + 1) h) (rank + 1) hits' end.

Lemma rrf_list_distinct f seen rank l : rrf_list f seen rank l = rrf_ranked f rank (distinct seen l).
Proof.
  revert f seen rank. induction l as [|h l IH]; intros f seen rank; [done|]. cbn.
  destruct (_ || _); [apply IH|]. cbn. apply IH.
Qed.

Lemma distinct_spec seen l :
  NoDup (hit_DocId <$> distinct seen l) ∧
  ∀ h, h ∈ distinct seen l → hit_DocId h ≠ "" ∧ hit_DocId h ∉ seen ∧ h ∈ l.
Proof.
  revert seen. induction l as [|h l IH]; intros seen; cbn [distinct]; [split; [constructor|set_solver]|].
  destruct (_ || _) eqn:E.
  - destruct (IH seen) as [Hnd Hin]. split; [done|]. intros x Hx. destruct (Hin x Hx) as (? & ? & ?). set_solver.
  - apply orb_false_iff in E as [He Hs]. apply String.eqb_neq in He.
    assert (Hs' : hit_DocId h ∉ seen).
    { intros Hm. apply not_true_iff_false in Hs. apply Hs. apply existsb_exists.
      exists (hit_DocId h). rewrite String.eqb_refl. split; [by apply list_elem_of_In|done]. }
    destruct (IH (hit_DocId h :: seen)) as [Hnd Hin]. split.
    + cbn. constructor; [|done]. intros (x & Hx & Hm)%list_elem_of_fmap. destruct (Hin x Hm) as (_ & Hni & _). set_solver.
    + intros x [->|Hx]%elem_of_cons; [set_solver|]. destruct (Hin x Hx) as (? & ? & ?). set_solver.
Qed.

Lemma distinct_ids seen l id :
  id ≠ "" → id ∉ seen → id ∈ hit_DocId <$> distinct seen l ↔ id ∈ hit_DocId <$> l.
Proof.
  intros Hne Hs. split.
  - intros (h & -> & Hh)%list_elem_of_fmap. apply distinct_spec in Hh as (_ & _ & Hh). by apply list_elem_of_fmap_2.
  - revert seen Hs. induction l as [|h l IH]; intros seen Hs; [done|]. cbn [distinct fmap list_fmap].
    intros [->|Hin]%elem_of_cons.
    + destruct (_ || _) eqn:E; [|set_solver]. apply orb_true_iff in E as [E|E]; [by apply String.eqb_eq in E|].
      apply existsb_exists in E as (y & Hy & Heq%String.eqb_eq). apply list_elem_of_In in Hy. by rewrite Heq in Hs.
    + destruct (_ || _) eqn:E; [by apply IH|]. cbn. destruct (decide (id = hit_DocId h)) as [->|]; [set_solver|].
      apply elem_of_cons. right. apply IH; [set_solver|done].
Qed.

Lemma rrf_ranked_fused f rank l id :
  NoDup (hit_DocId <$> l) →
  f_fused (rrf_ranked f rank l) !! id =
    match list_find (λ h, hit_DocId h = id) l with
    | Some (i, _) => Some (fadd (default fzero (f_fused f !! id)) (fdiv fone (float_of_Z (rrfK + (rank + Z.of_nat i + 1)))))
    | None => f_fused f !! id
    end.
Proof.
  revert f rank. induction l as [|h l IH]; intros f rank Hnd; [done|]. cbn [rrf_ranked list_find].
  cbn in Hnd. apply NoDup_cons in Hnd as [Hni Hnd]. rewrite IH by done.
  assert (Hf : f_fused (rrf_add f (rank + 1) h) =
    <[hit_DocId h := fadd (default fzero (f_fused f !! hit_DocId h)) (fdiv fone (float_of_Z (rrfK + (rank + 1))))]> (f_fused f)).
  { unfold rrf_add. by destruct (f_byDoc f !! _). }
  rewrite Hf. case_decide as Hd.
  - assert (list_find (λ h, hit_DocId h = id) l = None) as ->.
    { apply list_find_None, Forall_forall. intros x Hx He. apply Hni. rewrite Hd, <-He. by apply list_elem_of_fmap_2. }
    rewrite Hd, lookup_insert_eq. do 5 f_equal. lia.
  - rewrite lookup_insert_ne by done. destruct (list_find _ l) as [[i x]|]; cbn; [|done]. do 5 f_equal. lia.
Qed.

(** The representatives: in order of first appearance, each with the card of
    the first hit of its document. *)
Definition reps (f : Fusion) (l : list Hit) : Prop :=
  NoDup (f_order f) ∧ (∀ id, id ∈ f_order f ↔ is_Some (f_byDoc f !! id)) ∧
  (∀ id, id ∈ f_order f ↔ id ≠ "" ∧ id ∈ hit_DocId <$> l) ∧
  (∀ id h, f_byDoc f !! id = Some h → ∃ h0, head (of_doc id l) = Some h0 ∧ card h = card h0).

Lemma head_of_doc_app id l h0 l' : head (of_doc id l) = Some h0 → head (of_doc id (l ++ l')) = Some h0.
Proof. rewrite of_doc_app. by destruct (of_doc id l). Qed.

Lemma rrf_add_reps f r h l :
  hit_DocId h ≠ "" → reps f l → reps (rrf_add f r h) (l ++ [h]).
Proof.
  intros Hne (Hnd & Hdom & Hin & Hc). unfold rrf_add. destruct (f_byDoc f !! hit_DocId h) as [ex|] eqn:E; split_and!; cbn.
  - done.
  - intros id. rewrite Hdom. destruct (decide (hit_DocId h = id)) as [<-|]; [rewrite lookup_insert_eq, E|rewrite lookup_insert_ne by done]; done.
  - intros id. rewrite Hin, fmap_app, elem_of_app. cbn. rewrite list_elem_of_singleton.
    assert (hit_DocId h ∈ hit_DocId <$> l) by (apply Hin, Hdom; by rewrite E). naive_solver.
  - intros id x. destruct (decide (hit_DocId h = id)) as [<-|Hd].
    + rewrite lookup_insert_eq. intros [= <-]. destruct (Hc _ _ E) as (h0 & Hh & Hcard). exists h0.
      split; [by apply head_of_doc_app|]. by rewrite (proj1 (inherit_card _ _)).
    + rewrite lookup_insert_ne by done. intros Hx. destruct (Hc _ _ Hx) as (h0 & Hh & Hcard). exists h0.
      split; [by apply head_of_doc_app|done].
  - apply NoDup_app. split_and!; [done| |apply NoDup_singleton]. intros id Hid ->%list_elem_of_singleton.
    apply Hdom in Hid. rewrite E in Hid. by destruct Hid.
  - intros id. rewrite elem_of_app, list_elem_of_singleton, Hdom. destruct (decide (hit_DocId h = id)) as [<-|Hd].
    + rewrite lookup_insert_eq. naive_solver.
    + rewrite lookup_insert_ne by done. naive_solver.
  - intros id. rewrite elem_of_app, list_elem_of_singleton, Hin, fmap_app, elem_of_app. cbn. rewrite list_elem_of_singleton.
    naive_solver.
  - intros id x. destruct (decide (hit_DocId h = id)) as [<-|Hd].
    + rewrite lookup_insert_eq. intros [= <-]. exists h. split; [|done].
      assert (of_doc (hit_DocId h) l = []) as Hnil.
      { destruct (of_doc (hit_DocId h) l) as [|y ys] eqn:Ey; [done|].
        assert (Hy : y ∈ l ∧ hit_DocId y = hit_DocId h) by (apply elem_of_of_doc; rewrite Ey; set_solver).
        assert (hit_DocId h ∈ f_order f) as Hm by (apply Hin; split; [done|]; destruct Hy as [Hy <-]; by apply list_elem_of_fmap_2).
        apply Hdom in Hm. rewrite E in Hm. by destruct Hm. }
      rewrite of_doc_app, Hnil, of_doc_single, String.eqb_refl. done.
    + rewrite lookup_insert_ne by done. intros Hx. destruct (Hc _ _ Hx) as (h0 & Hh & Hcard). exists h0.
      split; [by apply head_of_doc_app|done].
Qed.

(** A skipped hit changes nothing: its document is represented already. *)
Lemma skip_reps f h l :
  hit_DocId h = "" ∨ hit_DocId h ∈ f_order f → reps f l → reps f (l ++ [h]).
Proof.
  intros Hs (Hnd & Hdom & Hin & Hc). split_and!; [done..| |].
  - intros id. rewrite Hin, fmap_app, elem_of_app. cbn. rewrite list_elem_of_singleton. split; [naive_solver|].
    intros [Hne [?| ->]]; [done|]. destruct Hs as [?|Hs]; [done|]. by apply Hin in Hs.
  - intros id x Hx. destruct (Hc _ _ Hx) as (h0 & Hh & Hcard). exists h0. split; [by apply head_of_doc_app|done].
Qed.

Lemma rrf_list_reps f seen rank hits l :
  (∀ id, id ∈ seen → id ∈ f_order f) → reps f l → reps (rrf_list f seen rank hits) (l ++ hits).
Proof.
  revert f seen rank l. induction hits as [|h hits IH]; intros f seen rank l Hs Hr; cbn [rrf_list]; [by rewrite app_nil_r|].
  rewrite (app_assoc l [h] hits : l ++ h :: hits = _).
  destruct (_ || _) eqn:E.
  - apply IH; [done|]. apply skip_reps; [|done]. apply orb_true_iff in E as [E|E]; [left; by apply String.eqb_eq|right].
    apply existsb_exists in E as (y & Hy & Heq%String.eqb_eq). rewrite Heq. apply Hs. by apply list_elem_of_In.
  - apply orb_false_iff in E as [He%String.eqb_neq _]. pose proof (rrf_add_reps f (rank + 1) h l He Hr) as Hr'.
    apply IH; [|done]. destruct Hr' as (_ & _ & Hin' & _). destruct Hr as (_ & _ & Hin & _).
    intros id Hid. apply Hin'. rewrite fmap_app, elem_of_app. cbn. rewrite list_elem_of_singleton.
    apply elem_of_cons in Hid as [->|Hid]; [auto|]. apply Hs, Hin in Hid. naive_solver.
Qed.

Definition fusion (lists : list (list Hit)) : Fusion := foldl (λ f l, rrf_list f [] 0 l) (mkFusion [] ∅ ∅) lists.

Lemma fusion_snoc lists l : fusion (lists ++ [l]) = rrf_list (fusion lists) [] 0 l.
Proof. unfold fusion. by rewrite foldl_app. Qed.

Lemma fusion_reps lists : reps (fusion lists) (concat lists).
Proof.
  induction lists as [|l lists IH] using rev_ind.
  - split_and!; [constructor|intros id..|done]; cbn; rewrite ?lookup_empty; [|by split; [intros []%not_elem_of_nil|intros [_ []%not_elem_of_nil]]].
    split; [intros []%not_elem_of_nil|by intros []].
  - rewrite fusion_snoc, concat_app. cbn [concat]. rewrite app_nil_r. apply rrf_list_reps; [set_solver|done].
Qed.

Lemma fusion_score lists id : default fzero (f_fused (fusion lists) !! id) = rrf_score lists id.
Proof.
  unfold rrf_score. induction lists as [|l lists IH] using rev_ind; [done|].
  rewrite fusion_snoc, foldl_app. cbn [foldl]. rewrite rrf_list_distinct, rrf_ranked_fused by apply distinct_spec.
  rewrite <-IH. unfold rank_in. by destruct (list_find _ (distinct [] l)) as [[i x]|].
Qed.

Lemma rank_in_pos id l r : rank_in id l = Some r → 0 < r.
Proof. unfold rank_in. destruct (list_find _ _) as [[i x]|]; [|done]. intros [= <-]. lia. Qed.

Lemma rrf_score_nonneg lists id : nonneg (rrf_score lists id) = true.
Proof.
  unfold rrf_score. induction lists as [|l lists IH] using rev_ind; [done|]. rewrite foldl_app. cbn [foldl].
  destruct (rank_in id l) as [r|] eqn:E; [|done]. apply rank_in_pos in E. apply fadd_nonneg; [done|].
  apply fdiv_nonneg; [done|done| |done]. apply float_of_Z_nonneg. unfold rrfK. lia.
Qed.

Lemma rrf_out_elem lists h :
  h ∈ rrf_out (fusion lists) →
  hit_Score h = rrf_score lists (hit_DocId h) ∧
  ∃ first, head (of_doc (hit_DocId h) (concat lists)) = Some first ∧ card h = card first.
Proof.
  intros (id & Hid & Hh)%list_elem_of_omap. apply fmap_Some in Hh as (h' & Hh' & ->).
  destruct (fusion_reps lists) as (_ & _ & _ & Hc). destruct (Hc _ _ Hh') as (h0 & Hhd & Hcard).
  assert (hit_DocId h' = id) as Hi.
  { injection Hcard as Hd _. rewrite Hd. assert (Hm : h0 ∈ of_doc id (concat lists)) by (destruct (of_doc id (concat lists)); [done|]; injection Hhd as ->; set_solver).
    by apply elem_of_of_doc in Hm as [_ ?]. }
  cbn [hit_Score hit_DocId set_score]. rewrite Hi. split; [by apply fusion_score|]. exists h0. split; [done|].
  by rewrite <-Hcard.
Qed.

Lemma rrf_out_ids lists : hit_DocId <$> rrf_out (fusion lists) = f_order (fusion lists).
Proof.
  apply omap_total. intros id Hid. destruct (fusion_reps lists) as (_ & Hdom & _ & Hc).
  pose proof Hid as [h Hh]%Hdom. rewrite Hh. eexists. split; [done|]. cbn [hit_DocId set_score].
  destruct (Hc _ _ Hh) as (h0 & Hhd & Hcard). injection Hcard as Hd _. rewrite Hd.
  assert (Hm : h0 ∈ of_doc id (concat lists)) by (destruct (of_doc id (concat lists)); [done|]; injection Hhd as ->; set_solver).
  by apply elem_of_of_doc in Hm as [_ ?].
Qed.

(** Reciprocal rank fusion: [rrfFuse] lists every named document of any
    arm exactly once, in descending order of its fused score, which is the sum
    over the arms of 1/(60 + rank) with the 1-based rank among the arm's
    distinct documents; no score is NaN whatever the arms' scores are; and the
    other fields of a card come from the document's first hit. *)
Theorem rrf_fuse_correct lists :
  let out := rrfFuse lists in
  NoDup (hit_DocId <$> out) ∧
  (∀ id, id ∈ hit_DocId <$> out ↔ id ≠ "" ∧ id ∈ hit_DocId <$> concat lists) ∧
  StronglySorted (desc hit_Score) out ∧
  ∀ h, h ∈ out → hit_Score h = rrf_score lists (hit_DocId h) ∧ nonneg (hit_Score h) = true ∧
    ∃ first, head (of_doc (hit_DocId h) (concat lists)) = Some first ∧ card h = card first.
Proof.
  intros out. unfold out, rrfFuse. fold (fusion lists).
  pose proof (sort_desc_perm hit_Score (rrf_out (fusion lists))) as Hp.
  pose proof (fmap_Permutation hit_DocId _ _ Hp) as Hpi. rewrite rrf_out_ids in Hpi.
  destruct (fusion_reps lists) as (Hnd & _ & Hin & _).
  assert (Hall : ∀ h, h ∈ rrf_out (fusion lists) → nonneg (hit_Score h) = true).
  { intros h Hh. destruct (rrf_out_elem lists h Hh) as [-> _]. apply rrf_score_nonneg. }
  split_and!.
  - by rewrite Hpi.
  - intros id. rewrite Hpi. apply Hin.
  - apply sort_desc_sorted, Forall_forall. intros h Hh. by apply nonneg_nan, Hall.
  - intros h Hh. rewrite Hp in Hh. destruct (rrf_out_elem lists h Hh) as [Hs Hf]. auto.
Qed.

(** ** Witness *)
Definition demo_hit (id : string) (score : float64) : Hit :=
  mkHit id "" EMAIL id "" score None None ∅ 0 0 "" "" "" ∅.

Lemma merge_hits_correct_witness :
  (hit_DocId <$> mergeHits [demo_hit "a" (frac 1 2); demo_hit "b" (frac 1 4)] [demo_hit "b" (frac 3 4)]) = ["b"; "a"] ∧
  NoDup (hit_DocId <$> mergeHits [demo_hit "a" (frac 1 2); demo_hit "b" (frac 1 4)] [demo_hit "b" (frac 3 4)]).
Proof.
  split; [vm_compute; reflexivity|].
  apply (merge_hits_correct [demo_hit "a" (frac 1 2); demo_hit "b" (frac 1 4)] [demo_hit "b" (frac 3 4)]).
  repeat (constructor; [vm_compute; reflexivity|]). constructor.
Defined.
