(* ===== verification/QueryPlan.v ===== *)
(** * Query understanding

    Models [services/query/understand.go]: the request is normalized, and
    inline filters and quoted phrases are taken out of the query text into a
    plan. *)

From stdpp Require Import base gmap strings list.
From Stdlib Require Import Ascii ZArith Lia.
From S2P Require Import Prelude GoStrings GoText GoFloat GoTime GoDate GoRegex Tenancy ControlPlane Document QueryVespa QueryRank.

Open Scope Z_scope.

(** ** Requests *)
Inductive SearchMode := SEARCH_MODE_UNSPECIFIED | HYBRID | KEYWORD | VECTOR | SearchModeNum (n : Z).

#[export] Instance SearchMode_eq_dec : EqDecision SearchMode.
Proof. solve_decision. Defined.

#[export] Instance DocType_eq_dec : EqDecision DocType.
Proof. solve_decision. Defined.

Record SearchRequest := mkSearch {
  sr_Query : string; sr_DocTypes : list DocType;
  sr_FromDate : option Timestamp; sr_ToDate : option Timestamp;
  sr_Participant : string; sr_Limit : Z; sr_Offset : Z; sr_Mode : SearchMode;
  sr_Debug : bool; sr_Rerank : bool
}.

Definition defaultLimit : Z := 20.
Definition maxLimit : Z := 100.
Definition maxOffset : Z := 1000.

(** The loop of [dedupeDocTypes]; [seen] holds the types kept so far. *)
Fixpoint dedupe_loop (seen types : list DocType) : list DocType :=
  match types with
  | [] => []
  | t :: types' =>
    if bool_decide (t = DOC_TYPE_UNSPECIFIED) || bool_decide (t ∈ seen) then dedupe_loop seen types'
    else t :: dedupe_loop (t :: seen) types'
  end.

Definition dedupeDocTypes (types : list DocType) : list DocType := dedupe_loop [] types.

Definition normalizeRequest (req : SearchRequest) : SearchRequest :=
  let limit := if sr_Limit req <=? 0 then defaultLimit else sr_Limit req in
  let limit := if maxLimit <? limit then maxLimit else limit in
  let offset := if sr_Offset req <? 0 then 0 else sr_Offset req in
  let offset := if maxOffset <? offset then maxOffset else offset in
  let mode := if bool_decide (sr_Mode req = SEARCH_MODE_UNSPECIFIED) then HYBRID else sr_Mode req in
  mkSearch (TrimSpace (sr_Query req)) (dedupeDocTypes (sr_DocTypes req)) (sr_FromDate req) (sr_ToDate req)
    (TrimSpace (sr_Participant req)) limit offset mode (sr_Debug req) (sr_Rerank req).

(** ** Plans *)
Inductive intentClass := intentFreeform | intentFindItem | intentScheduleLookup | intentNeedsAttention.

#[export] Instance intentClass_eq_dec : EqDecision intentClass.
Proof. solve_decision. Defined.

Record parsedQuery := mkPlan {
  p_Text : string;
  p_DocTypes : list DocType;
  p_From : Z; p_To : Z;
  p_Participant : string;
  p_TextClauses : list textClause;
  p_Warnings : list string;
  p_SyntaxError : string;
  p_ToExclusive : bool;
  p_Intent : intentClass;
  p_EventFrom : Z; p_EventTo : Z;
  p_WinFrom : Z; p_WinTo : Z
}.

Definition emptyPlan : parsedQuery :=
  mkPlan "" [] zeroTime zeroTime "" [] [] "" false intentFreeform zeroTime zeroTime zeroTime zeroTime.

(** The assignments to a plan's fields. *)
Definition set_Text (v : string) (p : parsedQuery) : parsedQuery :=
  mkPlan v (p_DocTypes p) (p_From p) (p_To p) (p_Participant p) (p_TextClauses p) (p_Warnings p) (p_SyntaxError p)
    (p_ToExclusive p) (p_Intent p) (p_EventFrom p) (p_EventTo p) (p_WinFrom p) (p_WinTo p).
Definition set_DocTypes (v : list DocType) (p : parsedQuery) : parsedQuery :=
  mkPlan (p_Text p) v (p_From p) (p_To p) (p_Participant p) (p_TextClauses p) (p_Warnings p) (p_SyntaxError p)
    (p_ToExclusive p) (p_Intent p) (p_EventFrom p) (p_EventTo p) (p_WinFrom p) (p_WinTo p).
Definition set_dates (from to : Z) (p : parsedQuery) : parsedQuery :=
  mkPlan (p_Text p) (p_DocTypes p) from to (p_Participant p) (p_TextClauses p) (p_Warnings p) (p_SyntaxError p)
    (p_ToExclusive p) (p_Intent p) (p_EventFrom p) (p_EventTo p) (p_WinFrom p) (p_WinTo p).
Definition set_Participant (v : string) (p : parsedQuery) : parsedQuery :=
  mkPlan (p_Text p) (p_DocTypes p) (p_From p) (p_To p) v (p_TextClauses p) (p_Warnings p) (p_SyntaxError p)
    (p_ToExclusive p) (p_Intent p) (p_EventFrom p) (p_EventTo p) (p_WinFrom p) (p_WinTo p).
Definition add_clause (c : textClause) (p : parsedQuery) : parsedQuery :=
  mkPlan (p_Text p) (p_DocTypes p) (p_From p) (p_To p) (p_Participant p) (p_TextClauses p ++ [c]) (p_Warnings p)
    (p_SyntaxError p) (p_ToExclusive p) (p_Intent p) (p_EventFrom p) (p_EventTo p) (p_WinFrom p) (p_WinTo p).
Definition add_warning (w : string) (p : parsedQuery) : parsedQuery :=
  mkPlan (p_Text p) (p_DocTypes p) (p_From p) (p_To p) (p_Participant p) (p_TextClauses p) (addDegraded (p_Warnings p) w)
    (p_SyntaxError p) (p_ToExclusive p) (p_Intent p) (p_EventFrom p) (p_EventTo p) (p_WinFrom p) (p_WinTo p).
Definition set_SyntaxError (e : string) (p : parsedQuery) : parsedQuery :=
  mkPlan (p_Text p) (p_DocTypes p) (p_From p) (p_To p) (p_Participant p) (p_TextClauses p) (p_Warnings p) e
    (p_ToExclusive p) (p_Intent p) (p_EventFrom p) (p_EventTo p) (p_WinFrom p) (p_WinTo p).
Definition set_ToExclusive (b : bool) (p : parsedQuery) : parsedQuery :=
  mkPlan (p_Text p) (p_DocTypes p) (p_From p) (p_To p) (p_Participant p) (p_TextClauses p) (p_Warnings p) (p_SyntaxError p)
    b (p_Intent p) (p_EventFrom p) (p_EventTo p) (p_WinFrom p) (p_WinTo p).
Definition set_Intent (i : intentClass) (p : parsedQuery) : parsedQuery :=
  mkPlan (p_Text p) (p_DocTypes p) (p_From p) (p_To p) (p_Participant p) (p_TextClauses p) (p_Warnings p) (p_SyntaxError p)
    (p_ToExclusive p) i (p_EventFrom p) (p_EventTo p) (p_WinFrom p) (p_WinTo p).
Definition set_event (from to : Z) (p : parsedQuery) : parsedQuery :=
  mkPlan (p_Text p) (p_DocTypes p) (p_From p) (p_To p) (p_Participant p) (p_TextClauses p) (p_Warnings p) (p_SyntaxError p)
    (p_ToExclusive p) (p_Intent p) from to (p_WinFrom p) (p_WinTo p).
Definition set_win (from to : Z) (p : parsedQuery) : parsedQuery :=
  mkPlan (p_Text p) (p_DocTypes p) (p_From p) (p_To p) (p_Participant p) (p_TextClauses p) (p_Warnings p) (p_SyntaxError p)
    (p_ToExclusive p) (p_Intent p) (p_EventFrom p) (p_EventTo p) from to.

Definition hasFilters (p : parsedQuery) : bool :=
  negb (bool_decide (p_DocTypes p = [])) || negb (IsZero (p_From p)) || negb (IsZero (p_To p))
  || negb (String.eqb (p_Participant p) "") || negb (bool_decide (length (p_TextClauses p) = 0%nat)).

(** ** Tokens *)

(** The scan of [queryTokens]: [cur] holds the bytes of the token being read. *)
Fixpoint tokens_loop (cur : option bytes) (quoted escaped : bool) (rs : list (Z * bytes)) : list bytes * bool :=
  match rs with
  | [] => (match cur with Some c => [c] | None => [] end, quoted)
  | (r, b) :: rs' =>
    if bool_decide (cur = None) && IsSpace r then tokens_loop None quoted escaped rs'
    else
      let c := default [] cur in
      let quoted := if (r =? 34) && negb escaped then negb quoted else quoted in
      let escaped := (r =? 92) && negb escaped in
      if IsSpace r && negb quoted then
        let '(ts, q) := tokens_loop None quoted escaped rs' in (c :: ts, q)
      else tokens_loop (Some (c ++ b)) quoted escaped rs'
  end.

Definition queryTokens (raw : string) : list string * string :=
  let '(ts, quoted) := tokens_loop None false false (runes raw) in
  (of_bytes <$> ts, if quoted then "unterminated quoted phrase" else "").

(** [strconv.Unquote] of a text that starts with a double quote. *)
Definition hex_val (a : ascii) : option Z :=
  let b := zbyte a in
  if (48 <=? b) && (b <=? 57) then Some (b - 48)
  else if (97 <=? b) && (b <=? 102) then Some (b - 87)
  else if (65 <=? b) && (b <=? 70) then Some (b - 55)
  else None.

Definition oct_val (a : ascii) : option Z :=
  let b := zbyte a in if (48 <=? b) && (b <=? 55) then Some (b - 48) else None.

Fixpoint hex_digits (n : nat) (acc : Z) (l : bytes) : option (Z * bytes) :=
  match n with
  | O => Some (acc, l)
  | S n' => match l with
    | a :: l' => match hex_val a with Some v => hex_digits n' (acc * 16 + v) l' | None => None end
    | [] => None
    end
  end.

(** [utf8.ValidRune] *)
Definition ValidRune (r : Z) : bool := ((0 <=? r) && (r <? 0xD800)) || ((0xDFFF <? r) && (r <=? 0x10FFFF)).

(** What an escape denotes, after the backslash: bytes and the rest. *)
Definition unescape (l : bytes) : option (bytes * bytes) :=
  match l with
  | [] => None
  | c :: s =>
    let one z := Some ([ascii_of_N (Z.to_N z)], s) in
    let c := zbyte c in
    if c =? 97 then one 7 else if c =? 98 then one 8 else if c =? 102 then one 12
    else if c =? 110 then one 10 else if c =? 114 then one 13 else if c =? 116 then one 9
    else if c =? 118 then one 11
    else if c =? 120 then
      match hex_digits 2 0 s with Some (v, s') => Some ([ascii_of_N (Z.to_N v)], s') | None => None end
    else if (c =? 117) || (c =? 85) then
      match hex_digits (if c =? 117 then 4 else 8) 0 s with
      | Some (v, s') => if ValidRune v then Some (EncodeRune v, s') else None
      | None => None
      end
    else if (48 <=? c) && (c <=? 55) then
      match s with
      | d1 :: d2 :: s' =>
        match oct_val d1, oct_val d2 with
        | Some v1, Some v2 =>
          let v := (c - 48) * 64 + v1 * 8 + v2 in
          if 255 <? v then None else Some ([ascii_of_N (Z.to_N v)], s')
        | _, _ => None
        end
      | _ => None
      end
    else if c =? 92 then one 92
    else if c =? 34 then one 34
    else None
  end.

(** The body up to the closing quote, which must end the text. *)
Fixpoint unquote_loop (fuel : nat) (l : bytes) : option bytes :=
  match fuel with
  | O => None
  | S fuel' =>
    match l with
    | [] => None
    | a :: l' =>
      if zbyte a =? 34 then (if bool_decide (l' = []) then Some [] else None)
      else if zbyte a =? 10 then None
      else if zbyte a =? 92 then
        match unescape l' with
        | Some (b, rest) => (b ++.) <$> unquote_loop fuel' rest
        | None => None
        end
      else
        let '(r, n) := DecodeRune l in
        (EncodeRune r ++.) <$> unquote_loop fuel' (drop n l)
    end
  end.

Definition Unquote (s : string) : option string :=
  match to_bytes s with
  | a :: l => if zbyte a =? 34 then of_bytes <$> unquote_loop (length l) l else None
  | [] => None
  end.

(** ** Inline filters *)
Section understand.
Context `{!Casing}.

Definition parseDocType (name : string) : option DocType :=
  let upper := ToUpper name in
  let known n := match DocType_value n with
    | Some v => if bool_decide (v = DOC_TYPE_UNSPECIFIED) then None else Some v
    | None => None
    end in
  match known upper with
  | Some v => Some v
  | None => match CutSuffix upper "S" with Some singular => known singular | None => None end
  end.

(** [time.Parse("2006-01-02", s)], in UTC. *)
Definition parseDay (s : string) : option Z := (λ u, u * second) <$> parse_unix DateOnly s.

(** [^[A-Za-z]{2,16}[-_][0-9]{1,18}$] *)
Definition identifierLookup : re :=
  RSeq [RRep 2 16 (RCls cls_letter); RCls (λ c, Ascii.eqb c "-" || Ascii.eqb c "_"); RRep 1 18 (RCls cls_digit)].

Definition unsupported : string := "unsupported-filter-syntax".

(** The outcome of one token: the plan after it, and whether the token stays
    in the residual text. *)
Definition filter_token (p : parsedQuery) (tok : string) : parsedQuery * bool :=
  let lower := ToLower tok in
  let quote := String quote "" in
  if HasPrefix tok quote || HasPrefix tok ("-" +:+ quote) then
    let negative := HasPrefix tok "-" in
    match Unquote (if negative then drop_str 1 tok else tok) with
    | Some value =>
      if String.eqb (TrimSpace value) "" then (set_SyntaxError "invalid or empty quoted phrase" p, true)
      else (add_clause (mkClause value negative) p, negb negative)
    | None => (set_SyntaxError "invalid or empty quoted phrase" p, true)
    end
  else if HasPrefix tok "-" && bool_decide (1 < String.length tok)%nat && negb (Contains (drop_str 1 tok) ":") then
    (add_clause (mkClause (drop_str 1 tok) true) p, false)
  else if HasPrefix lower "from:" then
    let v := drop_str 5 tok in
    match (if HasPrefix v quote then Unquote v else Some v) with
    | None => (set_SyntaxError "invalid quoted participant" p, true)
    | Some v => if String.eqb v "" then (add_warning unsupported p, true) else (set_Participant v p, false)
    end
  else if HasPrefix lower "type:" then
    match parseDocType (drop_str 5 tok) with
    | None => (add_warning unsupported p, true)
    | Some dt => (if bool_decide (dt ∈ p_DocTypes p) then p else set_DocTypes (p_DocTypes p ++ [dt]) p, false)
    end
  else if HasPrefix lower "before:" then
    match parseDay (drop_str 7 tok) with
    | None => (add_warning unsupported p, true)
    | Some day => (set_dates (p_From p) (day + 24 * 3600 * second - second) p, false)
    end
  else if HasPrefix lower "after:" then
    match parseDay (drop_str 6 tok) with
    | None => (add_warning unsupported p, true)
    | Some day => (set_dates day (p_To p) p, false)
    end
  else
    match IndexByte lower ":" with
    | Some (S colon) =>
      if existsb (String.eqb (take_str (S colon) lower)) ["to"; "subject"; "has"; "is"; "label"; "in"]
      then (add_warning unsupported p, true) else (p, true)
    | _ => (p, true)
    end.

Definition filter_step (st : parsedQuery * list string) (tok : string) : parsedQuery * list string :=
  let '(p, keep) := filter_token st.1 tok in (p, if keep then st.2 ++ [tok] else st.2).

Definition extractInlineFilters (raw : string) : parsedQuery :=
  let '(tokens, syntaxErr) := queryTokens raw in
  let '(p, residual) := foldl filter_step (set_SyntaxError syntaxErr emptyPlan, []) tokens in
  let p := set_Text (Join residual " ") p in
  let p := if MatchString identifierLookup (p_Text p) then add_clause (mkClause (p_Text p) false) p else p in
  if bool_decide (32 < length (p_TextClauses p))%nat
  then set_SyntaxError "at most 32 hard text clauses are supported" p else p.

Definition understand (req : SearchRequest) : parsedQuery :=
  let p := extractInlineFilters (sr_Query req) in
  let types := dedupeDocTypes (sr_DocTypes req) in
  let p := if bool_decide (types = []) then p else set_DocTypes types p in
  let p := match sr_FromDate req with Some ts => set_dates (AsTime ts) (p_To p) p | None => p end in
  let p := match sr_ToDate req with Some ts => set_dates (p_From p) (AsTime ts) p | None => p end in
  if String.eqb (sr_Participant req) "" then p else set_Participant (sr_Participant req) p.
End understand.
