(* ===== verification/QueryScope.v ===== *)
(** * Temporal scope and intent

    Models [services/query/temporal.go], [intent.go] and [scope.go]: time
    phrases become windows in the user's time zone, the query's intent is
    classified, and [scopeQuery] maps both onto the plan's hard filters. *)

From stdpp Require Import base gmap strings list.
From Stdlib Require Import Ascii ZArith Lia.
From S2P Require Import Prelude GoStrings Tenancy Blob ControlPlane Document GoTime GoText GoFloat GoDate GoRegex QueryVespa QueryRank QueryPlan.

Open Scope Z_scope.

(** ** Windows *)
Record timeWindow := mkWindow { win_From : Z; win_To : Z }.

Definition zeroWindow : timeWindow := mkWindow zeroTime zeroTime.
Definition win_isZero (w : timeWindow) : bool := IsZero (win_From w) && IsZero (win_To w).

(** The fixed phrases, in the order they are tried, and their windows. *)
Inductive phrase :=
| ThisWeekend | NextWeekend | NextWeek | ThisWeek | LastWeek | NextMonth | ThisMonth | LastMonth
| Tomorrow | Yesterday | Today | ThisYear.

Definition temporalPhrases : list (string * phrase) :=
  [("this weekend", ThisWeekend); ("next weekend", NextWeekend); ("next week", NextWeek); ("this week", ThisWeek);
   ("last week", LastWeek); ("next month", NextMonth); ("this month", ThisMonth); ("last month", LastMonth);
   ("tomorrow", Tomorrow); ("yesterday", Yesterday); ("today", Today); ("this year", ThisYear)].

Definition phrase_window (ph : phrase) (now : Z) (loc : Location) : timeWindow :=
  let span start y m d := mkWindow start (AddDate loc start y m d) in
  match ph with
  | ThisWeekend => span (AddDate loc (startOfWeek now loc) 0 0 5) 0 0 2
  | NextWeekend => span (AddDate loc (startOfWeek now loc) 0 0 12) 0 0 2
  | NextWeek => span (AddDate loc (startOfWeek now loc) 0 0 7) 0 0 7
  | ThisWeek => span (startOfWeek now loc) 0 0 7
  | LastWeek => span (AddDate loc (startOfWeek now loc) 0 0 (-7)) 0 0 7
  | NextMonth => span (AddDate loc (startOfMonth now loc) 0 1 0) 0 1 0
  | ThisMonth => span (startOfMonth now loc) 0 1 0
  | LastMonth => span (AddDate loc (startOfMonth now loc) 0 (-1) 0) 0 1 0
  | Tomorrow => span (AddDate loc (startOfDay now loc) 0 0 1) 0 0 1
  | Yesterday => span (AddDate loc (startOfDay now loc) 0 0 (-1)) 0 0 1
  | Today => span (startOfDay now loc) 0 0 1
  | ThisYear => span (startOfYear now loc) 1 0 0
  end.

(** The parametric patterns, in order. *)
Inductive pattern := DaysFromNow | InDays | WeekFromNow | InAWeek | NextDays | RestOfWeek.

Definition sp : re := RPlus (RCls cls_space).
Definition digits : re := RPlus (RCls cls_digit).
Definition day_s : re := RCat (RStr "day") (ROpt (RStr "s")).

(** The expressions between the word-boundary assertions. *)
Definition pattern_re (pt : pattern) : re :=
  match pt with
  | DaysFromNow => RSeq [digits; sp; day_s; sp; RStr "from"; sp; RStr "now"]
  | InDays => RSeq [RStr "in"; sp; digits; sp; day_s]
  | WeekFromNow => RSeq [RAny [RStr "a"; RStr "one"]; sp; RStr "week"; ROpt (RStr "s"); sp; RStr "from"; sp; RStr "now"]
  | InAWeek => RSeq [RStr "in"; sp; RAny [RStr "a"; RStr "one"]; sp; RStr "week"]
  | NextDays => RSeq [ROpt (RSeq [RStr "in"; sp; RStr "the"; sp]); RStr "next"; sp; digits; sp; day_s]
  | RestOfWeek => RSeq [RStr "rest"; sp; RStr "of"; sp; RAny [RStr "the"; RStr "this"]; sp; RStr "week"]
  end.

Definition temporalPatterns : list pattern := [DaysFromNow; InDays; WeekFromNow; InAWeek; NextDays; RestOfWeek].

(** The captured count: the digits of the match; [strconv.Atoi] answers the
    greatest int when they are out of range. *)
Fixpoint take_digits (l : bytes) : bytes :=
  match l with a :: l' => if cls_digit a then a :: take_digits l' else [] | [] => [] end.

Fixpoint first_digits (l : bytes) : bytes :=
  match l with a :: l' => if cls_digit a then take_digits l else first_digits l' | [] => [] end.

Definition capture_digits (m : bytes) : Z := Z.min (digits_val (first_digits m)) (2 ^ 63 - 1).

Definition pattern_window (pt : pattern) (m : bytes) (now : Z) (loc : Location) : timeWindow :=
  match pt with
  | DaysFromNow | InDays =>
    let start := AddDate loc (startOfDay now loc) 0 0 (capture_digits m) in mkWindow start (AddDate loc start 0 0 1)
  | WeekFromNow | InAWeek =>
    let start := AddDate loc (startOfDay now loc) 0 0 7 in mkWindow start (AddDate loc start 0 0 1)
  | NextDays =>
    let n := if capture_digits m <? 1 then 1 else capture_digits m in
    let start := startOfDay now loc in mkWindow start (AddDate loc start 0 0 n)
  | RestOfWeek => mkWindow (startOfDay now loc) (AddDate loc (startOfWeek now loc) 0 0 7)
  end.

(** ** Finding a phrase *)

(** [maskQuotedText]: quoted spans become spaces, byte for byte. *)
Fixpoint mask_loop (quoted escaped : bool) (l : bytes) : bytes :=
  match l with
  | [] => []
  | b :: l' =>
    let quote := (zbyte b =? 34) && negb escaped in
    (if quote || quoted then " "%char else b)
    :: mask_loop (if quote then negb quoted else quoted) ((zbyte b =? 92) && negb escaped) l'
  end.

Definition maskQuotedText (text : string) : string := of_bytes (mask_loop false false (to_bytes text)).

(** [strings.Map] folding ASCII letters: an ill-formed byte becomes U+FFFD. *)
Definition fold_rune (p : Z * bytes) : bytes :=
  if (65 <=? p.1) && (p.1 <=? 90) then EncodeRune (p.1 + 32)
  else if (p.1 =? RuneError) && bool_decide (length p.2 = 1%nat) then EncodeRune RuneError
  else p.2.

Definition fold_ascii (s : string) : string := of_bytes (concat (fold_rune <$> runes s)).

Section finding.
Context `{!Letters} `{!Casing}.

Definition word_rune (r : Z) : bool := IsLetter r || IsNumber r || IsMark r || (r =? 95).

(** The last rune before a position ([utf8.DecodeLastRuneInString]). *)
Definition rune_before (l : bytes) (start : nat) : option Z := (λ p, p.1) <$> last (runes_from 0 (take start l)).
Definition rune_at (l : bytes) (end_ : nat) : option Z := (λ p, p.1) <$> head (runes_from 0 (drop end_ l)).

Definition bounded_by (word : Z → bool) (l : bytes) (start end_ : nat) : bool :=
  match rune_before l start with Some r => negb (word r) | None => true end
  && match rune_at l end_ with Some r => negb (word r) | None => true end.

Definition temporalWordBoundaries (l : bytes) (start end_ : nat) : bool := bounded_by word_rune l start end_.

(** The loop shared by [temporalPhraseIndex] and [containsAny]: the first
    occurrence of [sub] at or after [offset] with the given boundaries. *)
Fixpoint bounded_index (fuel : nat) (word : Z → bool) (l sub : bytes) (offset : nat) : option nat :=
  match fuel with
  | O => None
  | S fuel' =>
    if bool_decide (length l <= offset)%nat then None
    else match index_bytes sub (drop offset l) with
    | None => None
    | Some i =>
      let idx := (offset + i)%nat in
      if bounded_by word l idx (idx + length sub) then Some idx
      else bounded_index fuel' word l sub (idx + length sub)
    end
  end.

Definition temporalPhraseIndex (l : bytes) (ph : string) : option nat :=
  bounded_index (S (length l)) word_rune l (to_bytes ph) 0.

(** [\b] before and after byte positions: ASCII word characters. *)
Definition word_at (l : bytes) (i : nat) : bool := match l !! i with Some c => cls_word c | None => false end.
Definition word_before (l : bytes) (i : nat) : bool := match i with O => false | S j => word_at l j end.
Definition word_boundary (l : bytes) (i : nat) : bool := xorb (word_before l i) (word_at l i).

(** One pattern: its matches from left to right, the first that also has the
    Unicode boundaries. *)
Fixpoint pattern_find (fuel : nat) (r : re) (l : bytes) (i : nat) : option (nat * nat) :=
  match fuel with
  | O => None
  | S fuel' =>
    if bool_decide (length l < i)%nat then None
    else match (if word_boundary l i then longest r (drop i l) else None) with
    | Some n =>
      if word_boundary l (i + n) then
        if temporalWordBoundaries l i (i + n) then Some (i, (i + n)%nat) else pattern_find fuel' r l (i + n)
      else pattern_find fuel' r l (S i)
    | None => pattern_find fuel' r l (S i)
    end
  end.

(** [normalizeSpaces] *)
Definition normalizeSpaces (s : string) : string := Join (Fields s) " ".

Definition cut_span (text : string) (a b : nat) : string :=
  normalizeSpaces (take_str a text +:+ drop_str b text).

Fixpoint find_phrase (l : bytes) (phs : list (string * phrase)) : option (phrase * nat * nat) :=
  match phs with
  | [] => None
  | (s, ph) :: phs' =>
    match temporalPhraseIndex l s with
    | Some i => Some (ph, i, (i + String.length s)%nat)
    | None => find_phrase l phs'
    end
  end.

Fixpoint find_pattern (l : bytes) (pts : list pattern) : option (pattern * nat * nat) :=
  match pts with
  | [] => None
  | pt :: pts' =>
    match pattern_find (S (length l)) (pattern_re pt) l 0 with
    | Some (a, b) => Some (pt, a, b)
    | None => find_pattern l pts'
    end
  end.

(** The window, the text without the phrase. *)
Definition parseTemporal (text : string) (loc : Location) (now : Z) : option (timeWindow * string) :=
  let l := to_bytes (fold_ascii (maskQuotedText text)) in
  match find_phrase l temporalPhrases with
  | Some (ph, a, b) => Some (phrase_window ph now loc, cut_span text a b)
  | None =>
    match find_pattern l temporalPatterns with
    | Some (pt, a, b) => Some (pattern_window pt (take (b - a) (drop a l)) now loc, cut_span text a b)
    | None => None
    end
  end.

(** ** Intent *)
Definition plain_word (r : Z) : bool := IsLetter r || IsNumber r || (r =? 95).

Definition containsAny (haystack : string) (needles : list string) : bool :=
  let l := to_bytes haystack in
  existsb (λ n, bool_decide (is_Some (bounded_index (S (length l)) plain_word l (to_bytes n) 0))) needles.

Definition unquotedText (text : string) : string :=
  Join (List.filter (λ tok, negb (Contains tok (String quote ""))) (queryTokens text).1) " ".

Definition onlyCalendarTypes (docTypes : list string) : bool :=
  match docTypes with [t] => EqualFold t "CALENDAR_EVENT" | _ => false end.

Definition intentStopwords : list string :=
  ["what"; "whats"; "what's"; "is"; "are"; "the"; "a"; "an"; "on"; "in"; "my"; "me"; "i"; "do"; "does"; "have";
   "has"; "to"; "of"; "for"; "should"; "this"; "that"; "any"; "show"; "list"; "find"; "get"; "all"; "with"; "and";
   "about"; "am"; "at"; "anything"; "everything"; "something"; "going"; "there"; "tell"; "see";
   "calendar"; "schedule"; "scheduled"; "agenda"; "meeting"; "meetings"; "appointment"; "appointments"; "event";
   "events"; "attention"; "needs"; "need"; "action"; "items"; "item"; "todo"; "urgent"; "focus"; "upcoming";
   "coming"; "up"; "happening"; "busy"; "free"; "available"].

Definition trim_set : string := ".,?!:;" +:+ String quote "'`’".

Definition content_word (tok : string) : bool :=
  let clean := Trim (ToLower tok) trim_set in
  negb (bool_decide (String.length clean < 2)%nat || existsb (String.eqb clean) intentStopwords).

Definition contentResidual (text : string) : string := Join (List.filter content_word (Fields text)) " ".

Definition scheduleSignals : list string := ["coming up"; "upcoming"; "happening"; "busy"; "free"; "available"].

Definition hasScheduleSignal (text : string) : bool := containsAny (ToLower text) scheduleSignals.

(** The two alternatives of [scheduleRequest]; [\b.*$] after a word leaves
    nothing, or a character that is no word character and the rest of the
    line. *)
Definition words (l : list string) : re := RAny (RStr <$> l).
Definition opt_s (s : string) : re := RCat (RStr s) (ROpt (RStr "s")).

Definition schedule_noun : re :=
  RAny [RStr "calendar"; RStr "schedule"; RStr "agenda"; opt_s "meeting"; opt_s "appointment"; opt_s "event"].

Definition scheduleRequest : re :=
  RAlt
    (RSeq [ROpt (RSeq [words ["show"; "list"; "find"; "get"]; sp; ROpt (RCat (RStr "me") sp); ROpt (RCat (RStr "my") sp)]);
           schedule_noun;
           ROpt (RSeq [sp; words ["today"; "tomorrow"; "yesterday"; "this"; "next"; "last"; "upcoming"; "in"; "with";
                                  "about"; "on"; "for"];
                       ROpt (RCat (RCls (λ c, cls_dot c && negb (cls_word c))) (RStar (RCls cls_dot)))])])
    (RSeq [RAny [RStr "today"; RStr "tomorrow"; RStr "yesterday"; RSeq [words ["this"; "next"; "last"]; sp; RStr "week"]];
           ROpt (RAny [RStr "'s"; RStr "’s"]); sp; schedule_noun]).

Definition attention_phrases : list string :=
  ["need my attention"; "needs my attention"; "need attention"; "needs attention"; "my attention"; "action item";
   "action items"; "needs action"; "requires action"; "focus on"; "unread"; "unanswered"].
Definition followup_phrases : list string := ["follow up"; "follow-up"; "respond to"; "waiting on"; "overdue"; "deadline"].
Definition schedule_phrases : list string :=
  ["on my calendar"; "my calendar"; "my schedule"; "my agenda"; "what's on"; "whats on"; "do i have on"].

Definition classifyIntent (text : string) (docTypes : list string) : intentClass :=
  let lower := ToLower (unquotedText text) in
  if containsAny lower attention_phrases
     || (HasPrefix (TrimSpace lower) "what " && containsAny lower followup_phrases) then intentNeedsAttention
  else if (onlyCalendarTypes docTypes && String.eqb (TrimSpace text) "") || containsAny lower schedule_phrases
     || MatchString scheduleRequest lower then intentScheduleLookup
  else if negb (String.eqb (TrimSpace (contentResidual lower)) "") then intentFindItem
  else intentFreeform.

(** ** Scope *)
Definition docTypeNames (types : list DocType) : list string := docType_String <$> types.

(** [plan.EventFrom, plan.EventTo = plan.From, plan.To], the inclusive bound
    made exclusive, and the created-at bounds dropped. *)
Definition move_dates (plan : parsedQuery) : parsedQuery :=
  let plan := set_event (p_From plan) (p_To plan) plan in
  let plan := if negb (IsZero (p_EventTo plan)) && negb (p_ToExclusive plan)
    then set_event (p_EventFrom plan) (p_EventTo plan + second) plan else plan in
  set_dates zeroTime zeroTime plan.

Definition is_calendar (plan : parsedQuery) : bool := onlyCalendarTypes (docTypeNames (p_DocTypes plan)).

(** The intent, after the promotions and demotions. *)
Definition scope_intent (plan : parsedQuery) : intentClass :=
  let intent := classifyIntent (p_Text plan) (docTypeNames (p_DocTypes plan)) in
  if negb (bool_decide (p_DocTypes plan = [])) && negb (is_calendar plan)
     && bool_decide (intent = intentScheduleLookup) then intentFindItem else intent.

Definition no_content (text : string) : bool := String.eqb (contentResidual (ToLower text)) "".

Definition promote (plan : parsedQuery) (hasWin : bool) : parsedQuery :=
  if (bool_decide (p_Intent plan = intentFindItem) || bool_decide (p_Intent plan = intentFreeform))
     && (bool_decide (p_DocTypes plan = []) || is_calendar plan)
     && no_content (p_Text plan) && (hasWin || hasScheduleSignal (p_Text plan))
  then set_Intent intentScheduleLookup plan else plan.

Definition scope_calendar (plan : parsedQuery) (win : timeWindow) (hasWin : bool) : parsedQuery * bool :=
  let explicitDates := negb (IsZero (p_From plan)) || negb (IsZero (p_To plan)) in
  let calendarScoped := is_calendar plan && (explicitDates || hasWin) in
  if calendarScoped then
    let plan := if explicitDates then move_dates plan else set_event (win_From win) (win_To win) plan in
    let plan := set_dates zeroTime zeroTime plan in
    (set_win (p_EventFrom plan) (p_EventTo plan) plan, true)
  else (plan, false).

Definition scope_by_intent (plan : parsedQuery) (win : timeWindow) (hasWin calendarScoped : bool) (today : Z) : parsedQuery :=
  match p_Intent plan with
  | intentScheduleLookup =>
    let plan := if bool_decide (p_DocTypes plan = []) then set_DocTypes [CALENDAR_EVENT] plan else plan in
    let plan :=
      if negb calendarScoped && (negb (IsZero (p_From plan)) || negb (IsZero (p_To plan))) then
        let plan := move_dates plan in
        if negb (IsZero (p_EventFrom plan)) && negb (IsZero (p_EventTo plan))
        then set_win (p_EventFrom plan) (p_EventTo plan) plan else plan
      else if negb calendarScoped && hasWin then set_event (win_From win) (win_To win) plan
      else if negb calendarScoped then set_event today (p_EventTo plan) plan
      else plan in
    if no_content (p_Text plan) then set_Text "" plan else plan
  | intentNeedsAttention => if no_content (p_Text plan) then set_Text "" plan else plan
  | intentFindItem | intentFreeform =>
    if hasWin && negb calendarScoped && IsZero (p_From plan) && IsZero (p_To plan)
    then set_ToExclusive true (set_dates (win_From win) (win_To win) plan) else plan
  end.

Definition scopeQuery (plan : parsedQuery) (loc : Location) (now : Z) : parsedQuery :=
  let plan := set_Intent (scope_intent plan) plan in
  let tw := parseTemporal (p_Text plan) loc now in
  let win := default zeroWindow (fst <$> tw) in
  let hasWin := bool_decide (is_Some tw) in
  let plan := match tw with
    | Some (w, stripped) => set_win (win_From w) (win_To w) (set_Text stripped plan)
    | None => plan
    end in
  let plan := promote plan hasWin in
  let '(plan, calendarScoped) := scope_calendar plan win hasWin in
  scope_by_intent plan win hasWin calendarScoped (startOfDay now loc).

Definition intentDrivenEmptyText (plan : parsedQuery) : bool :=
  bool_decide (p_Intent plan = intentScheduleLookup) || bool_decide (p_Intent plan = intentNeedsAttention).
End finding.

(** * What understanding does to a request

    The windows of the time phrases in a zone of fixed offset, and what
    [scopeQuery] keeps of the filters a request states. *)

(** ** Windows *)
Section windows.
Context (off now : Z) (Hoff : zone_ok off) (Hnow : instant_ok off now).

Notation loc := (fixed_zone off).
Notation D := (local_day (fixed_zone off) now).

(** The Monday of the current week. *)
Definition monday : Z := D - (D + 3) mod 7.

Definition days_window (a n : Z) : timeWindow := mkWindow (day_start off a) (day_start off (a + n)).

Lemma monday_bounds : D - 6 <= monday <= D ∧ (monday + 4) mod 7 = 1.
Proof. unfold monday. Z.to_euclidean_division_equations; lia. Qed.

Lemma add_days a k : - 10 ^ 12 - 400 <= a + k <= 10 ^ 12 + 400 → AddDate loc (day_start off a) 0 0 k = day_start off (a + k).
Proof using Hoff. intros H. apply AddDate_days; [done|unfold day_ok; lia]. Qed.

Lemma week_start : startOfWeek now loc = day_start off monday.
Proof using Hoff Hnow. by apply startOfWeek_fixed. Qed.

Lemma today_start : startOfDay now loc = day_start off D.
Proof using Hoff Hnow. apply startOfDay_fixed; [done|]. unfold instant_ok, day_ok in *. lia. Qed.

(** The windows that count days. *)
Lemma day_phrases :
  phrase_window Today now loc = days_window D 1 ∧
  phrase_window Tomorrow now loc = days_window (D + 1) 1 ∧
  phrase_window Yesterday now loc = days_window (D - 1) 1 ∧
  phrase_window ThisWeek now loc = days_window monday 7 ∧
  phrase_window NextWeek now loc = days_window (monday + 7) 7 ∧
  phrase_window LastWeek now loc = days_window (monday - 7) 7 ∧
  phrase_window ThisWeekend now loc = days_window (monday + 5) 2 ∧
  phrase_window NextWeekend now loc = days_window (monday + 12) 2.
Proof using Hoff Hnow.
  pose proof monday_bounds as [Hm _]. pose proof Hnow as Hn. unfold instant_ok in Hn.
  unfold phrase_window. rewrite today_start, week_start. unfold days_window.
  repeat (rewrite add_days by lia). split_and!; f_equal; f_equal; lia.
Qed.

(** The windows that count months. *)
Lemma month_phrases :
  ∃ k, month_first k <= D < month_first (k + 1) ∧
  phrase_window ThisMonth now loc = mkWindow (day_start off (month_first k)) (day_start off (month_first (k + 1))) ∧
  phrase_window NextMonth now loc = mkWindow (day_start off (month_first (k + 1))) (day_start off (month_first (k + 2))) ∧
  phrase_window LastMonth now loc = mkWindow (day_start off (month_first (k - 1))) (day_start off (month_first k)).
Proof using Hoff Hnow.
  destruct (startOfMonth_fixed off now Hoff Hnow) as (k & Hs & Hk). exists k. split; [done|].
  pose proof Hnow as Hn. unfold instant_ok in Hn.
  pose proof (month_first_succ k). pose proof (month_first_succ (k + 1)). pose proof (month_first_succ (k - 1)).
  replace (k + 1 + 1) with (k + 2) in * by lia. replace (k - 1 + 1) with k in * by lia.
  assert (Ha : ∀ j n i, j + n = i → k - 1 <= i <= k + 2 →
    AddDate loc (day_start off (month_first j)) 0 n 0 = day_start off (month_first i)).
  { intros j n i <- Hi. apply AddDate_months; [done|]. unfold day_ok.
    assert (Hc : j + n = k - 1 ∨ j + n = k ∨ j + n = k + 1 ∨ j + n = k + 2) by lia.
    destruct Hc as [->|[->|[->| ->]]]; lia. }
  unfold phrase_window. rewrite Hs, (Ha k 1 (k + 1)), (Ha k (-1) (k - 1)) by lia.
  by rewrite (Ha (k + 1) 1 (k + 2)), (Ha (k - 1) 1 k) by lia.
Qed.

Lemma year_phrase :
  ∃ y, days_to_year y <= D < days_to_year (y + 1) ∧
  phrase_window ThisYear now loc = mkWindow (day_start off (days_to_year y)) (day_start off (days_to_year (y + 1))).
Proof using Hoff Hnow.
  destruct (startOfYear_fixed off now Hoff Hnow) as (y & Hs & Hy). exists y. split; [done|].
  unfold phrase_window. rewrite Hs. f_equal. unfold AddDate. destruct (local_day_start off (days_to_year y)) as [-> ->].
  assert (Hu : ∀ z, unix_days z 1 1 = days_to_year z) by (intros z; unfold unix_days; rewrite days_to_month_table by lia; cbn; lia).
  assert (Hc : civil (days_to_year y) = (y, 1, 1)).
  { rewrite <-(Hu y). apply civil_unix_days; [lia|]. cbn. lia. }
  rewrite Hc, !Z.add_0_r. replace (day_start off (days_to_year y) mod nsec) with 0 by (unfold day_start, nsec; by rewrite Z.mod_mul).
  rewrite Date_midnight; rewrite ?Hu; try done. pose proof (days_to_year_succ y) as Hsucc. pose proof Hnow as Hn.
  unfold instant_ok, day_ok, year_days in *. destruct (leap y); lia.
Qed.

(** A window of whole local days that holds the current one holds now. *)
Lemma window_holds a b : a <= D < b → day_start off a <= now < day_start off b.
Proof.
  intros H. pose proof (in_local_day off now) as Hn.
  pose proof (proj1 (day_start_mono off a D) ltac:(lia)). pose proof (proj1 (day_start_mono off (D + 1) b) ltac:(lia)). lia.
Qed.
End windows.

Lemma day_start_lt off a b : a < b → day_start off a < day_start off b.
Proof. unfold day_start, nsec, day_secs. lia. Qed.

(** C25. Time phrases resolve to the right windows: in a zone of any fixed
    offset every window is non-empty and starts at a local midnight; "today",
    "this week", "this month" and "this year" hold the current instant; days,
    weeks and months follow each other without gap or overlap; weeks start on
    a Monday and the weekend is the end of its week. *)
Theorem time_windows_correct off now :
  zone_ok off → instant_ok off now →
  let loc := fixed_zone off in
  let W ph := phrase_window ph now loc in
  (∀ ph, win_From (W ph) < win_To (W ph) ∧ local_sod loc (win_From (W ph)) = 0 ∧ local_sod loc (win_To (W ph)) = 0) ∧
  (∀ ph, ph ∈ [Today; ThisWeek; ThisMonth; ThisYear] → win_From (W ph) <= now < win_To (W ph)) ∧
  (win_To (W Yesterday) = win_From (W Today) ∧ win_To (W Today) = win_From (W Tomorrow)) ∧
  (win_To (W LastWeek) = win_From (W ThisWeek) ∧ win_To (W ThisWeek) = win_From (W NextWeek)) ∧
  (win_To (W LastMonth) = win_From (W ThisMonth) ∧ win_To (W ThisMonth) = win_From (W NextMonth)) ∧
  Weekday loc (win_From (W ThisWeek)) = 1 ∧
  (win_From (W ThisWeekend) = win_From (W ThisWeek) + 5 * day_secs * nsec ∧ win_To (W ThisWeekend) = win_To (W ThisWeek)) ∧
  (win_From (W NextWeekend) = win_From (W NextWeek) + 5 * day_secs * nsec ∧ win_To (W NextWeekend) = win_To (W NextWeek)).
Proof.
  intros Hoff Hnow loc W. unfold W, loc.
  destruct (day_phrases off now Hoff Hnow) as (Et & Eto & Ey & Ew & Enw & Elw & Ewe & Enwe).
  destruct (month_phrases off now Hoff Hnow) as (k & Hk & Em & Enm & Elm).
  destruct (year_phrase off now Hoff Hnow) as (y & Hy & Eyr).
  pose proof (monday_bounds off now) as [Hm Hm1]. set (D := local_day (fixed_zone off) now) in *.
  pose proof (month_first_succ k). pose proof (month_first_succ (k + 1)). pose proof (month_first_succ (k - 1)).
  replace (k + 1 + 1) with (k + 2) in * by lia. replace (k - 1 + 1) with k in * by lia.
  assert (Hw : ∀ ph, ∃ a b, a < b ∧ phrase_window ph now (fixed_zone off) = mkWindow (day_start off a) (day_start off b)).
  { intros ph. destruct ph; rewrite ?Et, ?Eto, ?Ey, ?Ew, ?Enw, ?Elw, ?Ewe, ?Enwe, ?Em, ?Enm, ?Elm, ?Eyr; unfold days_window;
      eexists _, _; (split; [|reflexivity]); lia. }
  split_and!.
  - intros ph. destruct (Hw ph) as (a & b & Hab & ->). cbn [win_From win_To].
    split_and!; [by apply day_start_lt|apply local_day_start..].
  - assert (Hf : Forall (λ ph, win_From (phrase_window ph now (fixed_zone off)) <= now < win_To (phrase_window ph now (fixed_zone off)))
      [Today; ThisWeek; ThisMonth; ThisYear]).
    { repeat (apply Forall_cons; split); [rewrite Et|rewrite Ew|rewrite Em|rewrite Eyr|constructor];
        cbn [win_From win_To days_window]; apply window_holds; fold D; lia. }
    rewrite Forall_forall in Hf. exact Hf.
  - rewrite Ey, Et. cbn. f_equal. lia.
  - by rewrite Et, Eto.
  - rewrite Elw, Ew. cbn. f_equal. lia.
  - by rewrite Ew, Enw.
  - by rewrite Elm, Em.
  - by rewrite Em, Enm.
  - rewrite Ew. cbn. unfold Weekday. by rewrite (proj1 (local_day_start _ _)).
  - rewrite Ewe, Ew. cbn. unfold day_start. ring.
  - rewrite Ewe, Ew. cbn. f_equal. lia.
  - rewrite Enwe, Enw. cbn. unfold day_start. ring.
  - rewrite Enwe, Enw. cbn. f_equal. lia.
Qed.

(** Thursday 2024-02-29, 22:00 in New York (UTC-5): the week starts on Monday
    the 26th, the month ends with that day. *)
Lemma time_windows_correct_witness :
  phrase_window ThisWeek 1709262000000000000 (fixed_zone (-18000)) = mkWindow 1708923600000000000 1709528400000000000 ∧
  win_From (phrase_window ThisMonth 1709262000000000000 (fixed_zone (-18000))) <= 1709262000000000000
    < win_To (phrase_window ThisMonth 1709262000000000000 (fixed_zone (-18000))).
Proof.
  split; [vm_compute; reflexivity|].
  apply (time_windows_correct (-18000) 1709262000000000000); [unfold zone_ok; lia| |].
  - split; vm_compute; discriminate.
  - apply list_elem_of_In. cbn. auto.
Defined.

(** ** Filters *)
Section filters.
Context {Le : Letters} {Ca : Casing}.

(** A plan before scoping: no occurrence window, an inclusive upper bound. *)
Definition unscoped (p : parsedQuery) : Prop :=
  p_ToExclusive p = false ∧ p_EventFrom p = zeroTime ∧ p_EventTo p = zeroTime.

Lemma filter_token_unscoped p tok : unscoped p → unscoped (filter_token p tok).1.
Proof. intros H. unfold filter_token. repeat case_match; exact H. Qed.

Lemma filter_steps_unscoped toks st : unscoped st.1 → unscoped (foldl filter_step st toks).1.
Proof.
  revert st. induction toks as [|tok toks IH]; intros st H; [done|]. cbn [foldl]. apply IH. unfold filter_step.
  pose proof (filter_token_unscoped st.1 tok H) as Hf. by destruct (filter_token st.1 tok).
Qed.

Lemma understand_unscoped req : unscoped (understand req).
Proof.
  assert (He : ∀ raw, unscoped (extractInlineFilters raw)).
  { intros raw. unfold extractInlineFilters. destruct (queryTokens raw) as [toks err].
    pose proof (filter_steps_unscoped toks (set_SyntaxError err emptyPlan, []) ltac:(done)) as H.
    destruct (foldl _ _ _) as [p residual]. cbn [fst] in H. repeat case_match; exact H. }
  unfold understand. repeat case_match; apply He.
Qed.

(** The parts of a plan scoping never touches. *)
Definition untouched (p : parsedQuery) := (p_Participant p, p_TextClauses p, p_Warnings p, p_SyntaxError p).

Definition explicit (p : parsedQuery) : bool := negb (IsZero (p_From p)) || negb (IsZero (p_To p)).

(** Where the stated dates end up: on the creation time as they are, or on the
    occurrence time with the inclusive bound made exclusive. *)
Definition dates_kept (p q : parsedQuery) : Prop :=
  (p_From q = p_From p ∧ p_To q = p_To p ∧ p_ToExclusive q = false ∧ p_EventFrom q = zeroTime ∧ p_EventTo q = zeroTime) ∨
  (p_From q = zeroTime ∧ p_To q = zeroTime ∧ p_EventFrom q = p_From p ∧
   p_EventTo q = if IsZero (p_To p) then zeroTime else p_To p + second).

Lemma zero_is_zero t : IsZero t = true → t = zeroTime.
Proof. unfold IsZero. lia. Qed.

Lemma move_dates_spec p :
  unscoped p → untouched (move_dates p) = untouched p ∧ p_DocTypes (move_dates p) = p_DocTypes p ∧
  p_Intent (move_dates p) = p_Intent p ∧ p_Text (move_dates p) = p_Text p ∧ dates_kept p (move_dates p) ∧
  explicit (move_dates p) = false.
Proof.
  intros (Hx & Hf & Ht). unfold move_dates. cbn [p_EventTo p_ToExclusive set_event]. rewrite Hx. cbn [negb]. rewrite andb_true_r.
  destruct (IsZero (p_To p)) eqn:Ez; cbn; split_and!; try done; right; cbn; rewrite ?Ez; split_and!; try done.
  by apply zero_is_zero.
Qed.

Lemma scope_calendar_spec p win hasWin :
  unscoped p → let '(q, scoped) := scope_calendar p win hasWin in
  untouched q = untouched p ∧ p_DocTypes q = p_DocTypes p ∧ p_Intent q = p_Intent p ∧
  (scoped = false → q = p) ∧ (scoped = true → is_calendar p = true) ∧
  (explicit p = true → scoped = true → dates_kept p q) ∧
  (scoped = true → explicit q = false).
Proof.
  intros Hu. destruct (move_dates_spec p Hu) as (Hut & Hty & Hin & Htx & Hk & He). unfold scope_calendar.
  fold (explicit p). destruct (is_calendar p) eqn:Ec; cbn [andb]; [|by split_and!].
  destruct (explicit p) eqn:Ee; cbn [orb].
  - by split_and!.
  - destruct hasWin; by split_and!.
Qed.

Lemma scope_by_intent_spec p win hasWin scoped today p0 :
  let q := scope_by_intent p win hasWin scoped today in
  untouched q = untouched p ∧
  (p_DocTypes p ≠ [] → p_DocTypes q = p_DocTypes p) ∧
  (p_DocTypes p = [] → p_DocTypes q = [] ∨ p_DocTypes q = [CALENDAR_EVENT] ∧ p_Intent q = intentScheduleLookup) ∧
  (scoped = true → dates_kept p0 p → dates_kept p0 q) ∧
  (scoped = false → explicit p = true → unscoped p → dates_kept p q).
Proof.
  intros q. unfold q, scope_by_intent. clear q.
  assert (Hself : unscoped p → dates_kept p p) by (intros (? & ? & ?); by left).
  destruct (p_Intent p) eqn:Ei; try (destruct (no_content _); by split_and!; auto).
  - destruct scoped, hasWin; cbn [negb andb]; try (by split_and!; auto).
    destruct (IsZero (p_From p)) eqn:Ef, (IsZero (p_To p)) eqn:Et; cbn [andb]; try (by split_and!; auto).
    split_and!; try done; auto. intros _ He. unfold explicit in He. by rewrite Ef, Et in He.
  - destruct scoped, hasWin; cbn [negb andb]; try (by split_and!; auto).
    destruct (IsZero (p_From p)) eqn:Ef, (IsZero (p_To p)) eqn:Et; cbn [andb]; try (by split_and!; auto).
    split_and!; try done; auto. intros _ He. unfold explicit in He. by rewrite Ef, Et in He.
  - set (p4 := if bool_decide (p_DocTypes p = []) then _ else p).
    assert (H4 : untouched p4 = untouched p ∧ p_Intent p4 = intentScheduleLookup ∧ explicit p4 = explicit p ∧
      (unscoped p → unscoped p4) ∧ (∀ r, dates_kept p4 r ↔ dates_kept p r) ∧ (∀ r, dates_kept r p4 ↔ dates_kept r p) ∧
      (p_DocTypes p ≠ [] → p_DocTypes p4 = p_DocTypes p) ∧ (p_DocTypes p = [] → p_DocTypes p4 = [CALENDAR_EVENT])).
    { subst p4. case_bool_decide; by split_and!. }
    clearbody p4. destruct H4 as (Hut & Hi & Hex & Hun & Hkl & Hkr & Hne & Hnil).
    set (p5 := if negb scoped && _ then _ else _).
    assert (H5 : untouched p5 = untouched p4 ∧ p_DocTypes p5 = p_DocTypes p4 ∧ p_Intent p5 = p_Intent p4 ∧
      (scoped = true → p5 = p4) ∧ (scoped = false → explicit p4 = true → unscoped p4 → dates_kept p4 p5)).
    { subst p5. fold (explicit p4). destruct scoped; cbn [negb andb]; [by split_and!|].
      assert (Hm : untouched (move_dates p4) = untouched p4 ∧ p_DocTypes (move_dates p4) = p_DocTypes p4 ∧
        p_Intent (move_dates p4) = p_Intent p4) by (unfold move_dates; by destruct (_ && _)).
      destruct Hm as (Hm1 & Hm2 & Hm3).
      destruct (explicit p4) eqn:Ee; [|destruct hasWin; by split_and!].
      destruct (_ && _); split_and!; try done; intros _ _ Hu4; by apply move_dates_spec. }
    clearbody p5. destruct H5 as (Hut5 & Hty5 & Hi5 & Hs5 & Hd5).
    assert (Hfin : ∀ p6, untouched p6 = untouched p5 → p_DocTypes p6 = p_DocTypes p5 → p_Intent p6 = p_Intent p5 →
      (∀ r, dates_kept r p5 → dates_kept r p6) →
      untouched p6 = untouched p ∧ (p_DocTypes p ≠ [] → p_DocTypes p6 = p_DocTypes p) ∧
      (p_DocTypes p = [] → p_DocTypes p6 = [] ∨ p_DocTypes p6 = [CALENDAR_EVENT] ∧ p_Intent p6 = intentScheduleLookup) ∧
      (scoped = true → dates_kept p0 p → dates_kept p0 p6) ∧
      (scoped = false → explicit p = true → unscoped p → dates_kept p p6)).
    { intros p6 E1 E2 E3 Hd. rewrite E1, E2, E3, Hut5, Hty5, Hi5, Hut, Hi. split_and!; auto.
      - intros Hs Hk. apply Hd. rewrite (Hs5 Hs). by apply Hkr.
      - intros Hs He Hu. apply Hd, Hkl. rewrite <-Hex in He. auto. }
    destruct (no_content _); apply Hfin; done || auto.
Qed.

(** C26. Understanding never drops or overrides what the request states: its
    participant, phrases, warnings and syntax error pass scoping unchanged;
    stated document types stay, and without any the only types scoping adds
    are the calendar's, for a schedule lookup; stated dates stay on the
    creation time exactly or move as a whole to the occurrence time, whatever
    time phrase the text holds. *)
Theorem scope_keeps_filters req loc now :
  let p := understand req in
  let q := scopeQuery p loc now in
  untouched q = untouched p ∧
  (p_DocTypes p ≠ [] → p_DocTypes q = p_DocTypes p) ∧
  (p_DocTypes p = [] → p_DocTypes q = [] ∨ p_DocTypes q = [CALENDAR_EVENT] ∧ p_Intent q = intentScheduleLookup) ∧
  (explicit p = true → dates_kept p q).
Proof.
  intros p q. pose proof (understand_unscoped req : unscoped p) as Hu. unfold q, scopeQuery. clear q.
  set (p1 := set_Intent (scope_intent p) p). set (tw := parseTemporal _ _ _).
  set (p2 := promote _ _). set (win := default zeroWindow _). set (hasWin := bool_decide (is_Some tw)).
  assert (H2 : untouched p2 = untouched p ∧ p_DocTypes p2 = p_DocTypes p ∧ unscoped p2 ∧ p_From p2 = p_From p ∧ p_To p2 = p_To p).
  { subst p2. clearbody tw. unfold promote. destruct tw as [[w t]|]; cbn; destruct (_ && _); cbn; split_and!; try done; apply Hu. }
  clearbody p2 win hasWin tw. destruct H2 as (Hut & Hty & Hu2 & Hf & Ht).
  assert (Hex : explicit p2 = explicit p) by (unfold explicit; by rewrite Hf, Ht).
  pose proof (scope_calendar_spec p2 win hasWin Hu2) as Hc. destruct (scope_calendar p2 win hasWin) as [p3 scoped].
  destruct Hc as (Hut3 & Hty3 & Hin3 & Hns & Hcal & Hk3 & He3).
  assert (Hkeep : ∀ r, dates_kept p2 r ↔ dates_kept p r) by (intros r; unfold dates_kept; by rewrite Hf, Ht).
  assert (Hne : scoped = true → p_DocTypes p ≠ []).
  { intros Hs Hnil. specialize (Hcal Hs). unfold is_calendar in Hcal. by rewrite Hty, Hnil in Hcal. }
  assert (Hs : untouched (scope_by_intent p3 win hasWin scoped (startOfDay now loc)) = untouched p3 ∧
    (p_DocTypes p3 ≠ [] → p_DocTypes (scope_by_intent p3 win hasWin scoped (startOfDay now loc)) = p_DocTypes p3) ∧
    (p_DocTypes p3 = [] → p_DocTypes (scope_by_intent p3 win hasWin scoped (startOfDay now loc)) = [] ∨
       p_DocTypes (scope_by_intent p3 win hasWin scoped (startOfDay now loc)) = [CALENDAR_EVENT] ∧
       p_Intent (scope_by_intent p3 win hasWin scoped (startOfDay now loc)) = intentScheduleLookup) ∧
    (scoped = true → dates_kept p2 p3 → dates_kept p2 (scope_by_intent p3 win hasWin scoped (startOfDay now loc))) ∧
    (scoped = false → explicit p3 = true → unscoped p3 → dates_kept p3 (scope_by_intent p3 win hasWin scoped (startOfDay now loc)))).
  { apply scope_by_intent_spec. }
  destruct Hs as (Hut4 & Hty4 & Hty4' & Hd1 & Hd2). rewrite Hut4, Hut3, Hut, <-Hty, <-Hty3. split_and!; [done..|].
  intros He. rewrite <-Hex in He. apply Hkeep. destruct scoped.
  - by apply Hd1, Hk3.
  - rewrite <-(Hns eq_refl) at 1. apply Hd2; [done| |]; by rewrite (Hns eq_refl).
Qed.
End filters.
