(* ===== verification/Personalization.v ===== *)
(** * The personalization package

    Models [platform/personalization]: the resolved profile and its
    sanitization ([profile.go]), the online logistic model ([model.go]), the
    combined score ([score.go]) and the Redis keys ([keys.go]).  [math.Exp]
    and the zone database are interfaces. *)

From stdpp Require Import base gmap strings list.
From Stdlib Require Import Ascii ZArith Lia.
From S2P Require Import Prelude GoStrings Store ControlPlane GoText GoFloat GoDate QueryRank.

Open Scope Z_scope.

(** [math.Exp] *)
Class MathExp := { Exp : float64 → float64 }.

(** [time.LoadLocation]; [None] when the name is unknown. *)
Class ZoneDB := { LoadLocation : string → option Location }.

(** ** Profiles *)
Definition maxListEntries : nat := 200.
Definition maxEntryLen : nat := 256.

Record Weights := mkWeights {
  w_Semantic : float64; w_Preference : float64; w_Behavioral : float64; w_Attention : float64; w_Fatigue : float64
}.

Definition DefaultWeights : Weights := mkWeights fone (frac 6 10) (frac 5 10) (frac 8 10) (frac 3 10).

Record WorkingHours := mkHours { StartHour : Z; EndHour : Z }.

Record MuteList := mkMute { mute_People : list string; mute_Topics : list string; mute_Sources : list string }.

Record Profile := mkProfile {
  pr_Version : Z;
  pr_SourceWeights : gmap string float64;
  pr_ImportantPeople : list string;
  pr_Topics : list string;
  pr_Mute : MuteList;
  pr_SelfEmails : list string;
  pr_Timezone : string;
  pr_WorkingHours : WorkingHours;
  pr_AttentionSensitivity : float64;
  pr_RecencyVsImportance : float64;
  pr_NoveltyVsFamiliarity : float64;
  pr_LearningPaused : bool;
  pr_Weights : Weights
}.

Definition DefaultProfile : Profile :=
  mkProfile 0 ∅ [] [] (mkMute [] [] []) [] "" (mkHours 9 17) (frac 5 10) (frac 5 10) (frac 15 100) false DefaultWeights.

Definition clamp01 (v : float64) : float64 := if flt v fzero then fzero else if fgt v fone then fone else v.
Definition clampNonNeg (v : float64) : float64 := if flt v fzero then fzero else v.

Definition clampWorkingHours (wh : WorkingHours) : WorkingHours :=
  let s := if (StartHour wh <? 0) || (23 <? StartHour wh) then 9 else StartHour wh in
  let e := if (EndHour wh <? 1) || (24 <? EndHour wh) then 17 else EndHour wh in
  if e <=? s then mkHours 9 17 else mkHours s e.

Definition sourceWeightMax : float64 := float_of_Z 5.

Section profile.
Context `{!Casing}.

(** [clampSourceWeights], given the order in which [range] visits the map. *)
Definition clampSourceWeights (visit : list (string * float64)) : gmap string float64 :=
  foldl (λ out kv,
    let key := ToUpper (TrimSpace kv.1) in
    if String.eqb key "" || bool_decide (maxListEntries <= size out)%nat then out
    else
      let v := if flt kv.2 fzero then fzero else kv.2 in
      let v := if fgt v sourceWeightMax then sourceWeightMax else v in
      <[key := v]> out) ∅ visit.

(** [string(r[:maxEntryLen])] of an entry with more runes. *)
Definition cut_entry (v : string) : string :=
  let rs := runes v in
  if bool_decide (maxEntryLen < length rs)%nat then of_bytes (concat ((λ p, EncodeRune p.1) <$> take maxEntryLen rs)) else v.

Fixpoint normalize_loop (lower : bool) (seen : list string) (count : nat) (l : list string) : list string :=
  match l with
  | [] => []
  | raw :: l' =>
    let v := TrimSpace raw in
    if String.eqb v "" then normalize_loop lower seen count l'
    else
      let v := if lower then ToLower v else v in
      let v := cut_entry v in
      let key := ToLower v in
      if existsb (String.eqb key) seen then normalize_loop lower seen count l'
      else v :: if bool_decide (maxListEntries <= S count)%nat then [] else normalize_loop lower (key :: seen) (S count) l'
  end.

Definition normalizeList (l : list string) (lower : bool) : list string := normalize_loop lower [] 0 l.

Fixpoint sources_loop (seen l : list string) : list string :=
  match l with
  | [] => []
  | raw :: l' =>
    let v := ToUpper (TrimSpace raw) in
    if String.eqb v "" || existsb (String.eqb v) seen then sources_loop seen l' else v :: sources_loop (v :: seen) l'
  end.

Definition normalizeSources (l : list string) : list string := sources_loop [] l.

(** [out.Weights == (Weights{})]: Go compares the fields as floats. *)
Definition feqb (x y : float64) : bool := SpecFloat.SFeqb x y.

Definition zero_weights (w : Weights) : bool :=
  feqb (w_Semantic w) fzero && feqb (w_Preference w) fzero && feqb (w_Behavioral w) fzero
  && feqb (w_Attention w) fzero && feqb (w_Fatigue w) fzero.

Definition clamp_weights (w : Weights) : Weights :=
  let w := mkWeights (clampNonNeg (w_Semantic w)) (clampNonNeg (w_Preference w)) (clampNonNeg (w_Behavioral w))
    (clampNonNeg (w_Attention w)) (clampNonNeg (w_Fatigue w)) in
  if zero_weights w then DefaultWeights else w.

Context `{!ZoneDB}.

Definition Clamp (visit : list (string * float64)) (p : Profile) : Profile :=
  mkProfile (pr_Version p) (clampSourceWeights visit) (normalizeList (pr_ImportantPeople p) true)
    (normalizeList (pr_Topics p) false)
    (mkMute (normalizeList (mute_People (pr_Mute p)) true) (normalizeList (mute_Topics (pr_Mute p)) false)
       (normalizeSources (mute_Sources (pr_Mute p))))
    (normalizeList (pr_SelfEmails p) true)
    (if String.eqb (pr_Timezone p) "" then "" else
       match LoadLocation (pr_Timezone p) with Some _ => pr_Timezone p | None => "" end)
    (clampWorkingHours (pr_WorkingHours p))
    (clamp01 (pr_AttentionSensitivity p)) (clamp01 (pr_RecencyVsImportance p)) (clamp01 (pr_NoveltyVsFamiliarity p))
    (pr_LearningPaused p) (clamp_weights (pr_Weights p)).

Definition profile_Location (p : Profile) : Location :=
  if String.eqb (pr_Timezone p) "" then UTC else default UTC (LoadLocation (pr_Timezone p)).

(** ** Matching *)
Definition anyMatch (needles candidates : list string) : bool :=
  existsb (λ n, negb (String.eqb n "") &&
    existsb (λ c, negb (String.eqb c "") &&
      (Contains (ToLower c) (ToLower n) || Contains (ToLower n) (ToLower c))) candidates) needles.

Definition matchedTerms (terms : list string) (text : string) : list string :=
  if String.eqb text "" then []
  else List.filter (λ t, negb (String.eqb t "") && Contains (ToLower text) (ToLower t)) terms.

Definition SourceWeight (p : Profile) (docType : string) : float64 := default fone (pr_SourceWeights p !! ToUpper docType).
Definition IsImportantPerson (p : Profile) (addrs : list string) : bool := anyMatch (pr_ImportantPeople p) addrs.
Definition IsMutedPerson (p : Profile) (addrs : list string) : bool := anyMatch (mute_People (pr_Mute p)) addrs.
Definition IsMutedSource (p : Profile) (docType : string) : bool :=
  existsb (λ s, String.eqb s (ToUpper docType)) (mute_Sources (pr_Mute p)).
Definition MatchedTopics (p : Profile) (text : string) : list string := matchedTerms (pr_Topics p) text.
Definition MutedTopics (p : Profile) (text : string) : list string := matchedTerms (mute_Topics (pr_Mute p)) text.

(** ** The learned model *)
Definition senderKey (s : string) : string :=
  let s := TrimSpace s in
  let s := match IndexByte s "<" with
    | Some i => match IndexByte (drop_str i s) ">" with
      | Some (S (S j)) => take_str (S j) (drop_str (i + 1) s)
      | _ => s
      end
    | None => s
    end in
  ToLower (TrimSpace s).

Definition nonempty (prefix v : string) : list string := if String.eqb v "" then [] else [prefix +:+ v].

Definition FeatureKeys (docType connectorID : string) (senders topics : list string) : list string :=
  nonempty "type:" (ToUpper (TrimSpace docType)) ++
  nonempty "src:" (ToLower (TrimSpace connectorID)) ++
  (senders ≫= λ s, nonempty "from:" (senderKey s)) ++
  (topics ≫= λ t, nonempty "topic:" (ToLower (TrimSpace t))).

Definition TrimPrefix (s p : string) : string := if HasPrefix s p then drop_str (String.length p) s else s.

Definition HumanizeFeature (key : string) : string :=
  if HasPrefix key "from:" then "from " +:+ TrimPrefix key "from:"
  else if HasPrefix key "topic:" then "about " +:+ TrimPrefix key "topic:"
  else if HasPrefix key "src:" then TrimPrefix key "src:"
  else if HasPrefix key "type:" then ToLower (TrimPrefix key "type:") +:+ "s"
  else key.

Definition LabelForAction (action : string) : option float64 :=
  let a := ToLower (TrimSpace action) in
  if existsb (String.eqb a) ["click"; "open"; "reply"; "dwell"; "show_more"; "show-more"; "like"] then Some fone
  else if existsb (String.eqb a) ["dismiss"; "hide"; "show_fewer"; "show-fewer"; "dislike"] then Some fzero
  else None.
End profile.

(** A nil map and an empty one are not distinguished: both read as zero. *)
Record LearnedModel := mkModel { lm_Weights : gmap string float64; lm_Bias : float64; lm_Samples : Z }.

Definition zeroModel : LearnedModel := mkModel ∅ fzero 0.

Definition DefaultLearningRate : float64 := frac 3 10.
Definition coefClamp : float64 := float_of_Z 6.

Definition clampCoef (v : float64) : float64 :=
  if fgt v coefClamp then coefClamp else if flt v (fneg coefClamp) then fneg coefClamp else v.

Section model.
Context `{!MathExp}.

Definition sigmoid (z : float64) : float64 := fdiv fone (fadd fone (Exp (fneg z))).

Definition Predict (m : LearnedModel) (features : list string) : float64 :=
  sigmoid (foldl (λ z f, fadd z (default fzero (lm_Weights m !! f))) (lm_Bias m) features).

(** [Update]; the step [lr * err] is the same for every coefficient. *)
Definition Update (m : LearnedModel) (features : list string) (label lr : float64) : LearnedModel :=
  let lr := if fle lr fzero then DefaultLearningRate else lr in
  let err := fsub label (Predict m features) in
  mkModel
    (foldl (λ w f, if String.eqb f "" then w
                   else <[f := clampCoef (fadd (default fzero (w !! f)) (fmul lr err))]> w) (lm_Weights m) features)
    (clampCoef (fadd (lm_Bias m) (fmul lr err)))
    (wrap64 (lm_Samples m + 1)).
End model.

(** Greater coefficient first, then the smaller key. *)
Definition feature_leb (a b : string * float64) : bool :=
  fgt a.2 b.2 || (feqb a.2 b.2 && str_leb a.1 b.1).

Definition TopPositiveFeatures (m : LearnedModel) (n : nat) : list string :=
  take n (fst <$> sort_by feature_leb (List.filter (λ kv, fgt kv.2 fzero) (map_to_list (lm_Weights m)))).

(** ** The combined score *)
Record Features := mkFeatures {
  ft_Semantic : float64; ft_Preference : float64; ft_Behavioral : float64; ft_Attention : float64; ft_Fatigue : float64
}.

Definition Score (f : Features) (w : Weights) : float64 :=
  fsub (fadd (fadd (fadd (fmul (w_Semantic w) (ft_Semantic f)) (fmul (w_Preference w) (ft_Preference f)))
    (fmul (w_Behavioral w) (ft_Behavioral f))) (fmul (w_Attention w) (ft_Attention f)))
    (fmul (w_Fatigue w) (ft_Fatigue f)).

Definition fabs (v : float64) : float64 := if flt v fzero then fneg v else v.

Definition Contributions (f : Features) (w : Weights) : list (string * float64) :=
  sort_desc (λ c, fabs c.2)
    [("semantic", fmul (w_Semantic w) (ft_Semantic f)); ("preference", fmul (w_Preference w) (ft_Preference f));
     ("behavioral", fmul (w_Behavioral w) (ft_Behavioral f)); ("attention", fmul (w_Attention w) (ft_Attention f));
     ("repetition", fmul (fneg (w_Fatigue w)) (ft_Fatigue f))].

(** ** Redis keys *)
Definition RedisProfileKey (tenantID : string) : string := "asker:pref:" +:+ tenantID.
Definition RedisWeightsKey (tenantID : string) : string := "asker:weights:" +:+ tenantID.

(** * Profiles and learned weights stay in range

    What [Clamp] guarantees of a profile, that learning keeps every
    coefficient within its bounds, and the instance by which the package
    serves the control plane's feedback handler. *)

(** ** The learned model *)
Class ExpLaws `{!MathExp} : Prop := Exp_nonneg : ∀ z, is_nan z = false → nonneg (Exp z) = true.

(** A coefficient within the clamp. *)
Definition coef_ok (v : float64) : Prop :=
  finite v = true ∧ flt coefClamp v = false ∧ flt v (fneg coefClamp) = false.

Definition model_ok (m : LearnedModel) : Prop :=
  coef_ok (lm_Bias m) ∧ ∀ k v, lm_Weights m !! k = Some v → coef_ok v.

Lemma finite_nan x : finite x = true → is_nan x = false.
Proof. by destruct x. Qed.

Lemma clampCoef_ok v : is_nan v = false → coef_ok (clampCoef v).
Proof.
  intros Hv. unfold clampCoef, fgt. fold (flt coefClamp v).
  destruct (flt coefClamp v) eqn:E1; [by repeat split|].
  destruct (flt v (fneg coefClamp)) eqn:E2; [by repeat split|]. split_and!; try done.
  destruct v as [|[]| |]; done.
Qed.

Lemma coef_default m f : model_ok m → finite (default fzero (lm_Weights m !! f)) = true.
Proof. intros [_ Hm]. destruct (lm_Weights m !! f) as [v|] eqn:E; [|done]. by destruct (Hm _ _ E). Qed.

Section learning.
Context `{!MathExp} `{!ExpLaws}.

Lemma Predict_not_nan m fs : model_ok m → is_nan (Predict m fs) = false.
Proof using Type*.
  intros Hm. unfold Predict, sigmoid.
  assert (Hz : is_nan (foldl (λ z f, fadd z (default fzero (lm_Weights m !! f))) (lm_Bias m) fs) = false).
  { assert (Hb : is_nan (lm_Bias m) = false) by (destruct Hm as [[Hb _] _]; by apply finite_nan).
    revert Hb. generalize (lm_Bias m). induction fs as [|f fs IH]; intros b Hb; [done|]. cbn [foldl]. apply IH.
    apply fadd_not_nan; [done|]. by apply coef_default. }
  apply fdiv_not_nan; [done|done|]. apply nonneg_nan, fadd_nonneg; [done|]. apply Exp_nonneg.
  by destruct (foldl _ _ _).
Qed.

Lemma Update_ok m fs label : finite label = true → model_ok m → model_ok (Update m fs label fzero).
Proof using Type*.
  intros Hl Hm. unfold Update. change (fle fzero fzero) with true. cbn [andb].
  set (step := fmul DefaultLearningRate (fsub label (Predict m fs))).
  assert (Hs : is_nan step = false).
  { apply fmul_not_nan; [done|done|]. by apply fsub_not_nan, Predict_not_nan. }
  split; cbn.
  - apply clampCoef_ok, fadd_not_nan_l; [|done]. by destruct Hm as [[Hb _] _].
  - destruct Hm as [_ Hw]. clearbody step. revert Hw. generalize (lm_Weights m). induction fs as [|f fs IH]; intros w Hw; [done|].
    cbn [foldl]. destruct (String.eqb f ""); [by apply IH|]. apply IH. intros k v.
    destruct (decide (f = k)) as [<-|Hne]; [|rewrite lookup_insert_ne by done; apply Hw].
    rewrite lookup_insert_eq. intros [= <-]. apply clampCoef_ok, fadd_not_nan_l; [|done].
    destruct (w !! f) as [c|] eqn:E; [|done]. by destruct (Hw _ _ E).
Qed.
End learning.

(** ** The control plane's interface *)

(** [encoding/json] of a profile's flag and of a model. *)
Class ModelJson := {
  json_paused : string → option bool;
  json_model : string → option LearnedModel;
  model_json : LearnedModel → result string string
}.

(** [json.Marshal] prints floats so that they read back exactly. *)
Class ModelJsonLaws `{!ModelJson} : Prop := model_json_roundtrip : ∀ m b, model_json m = Ok b → json_model b = Some m.

#[export] Instance learned_model `{!Casing} `{!MathExp} `{!ModelJson} : Model LearnedModel float64 := {|
  profile_paused := json_paused;
  model_zero := zeroModel;
  model_decode := json_model;
  model_encode := model_json;
  model_samples := lm_Samples;
  feature_keys := FeatureKeys;
  label_for_action := LabelForAction;
  model_update m fs label := Update m fs label fzero
|}.

Section feedback.
Context {Ca : Casing} {Me : MathExp} {El : ExpLaws} {Mj : ModelJson} {Ml : ModelJsonLaws}.

(** The stored text after a feedback event. *)
Definition learn (weightsJSON : string) (ev : PFeedback) : string :=
  match feedbackUpdate (M := LearnedModel) ev weightsJSON 0 with Ok (j, _) => j | Err _ => weightsJSON end.

Lemma label_finite a l : LabelForAction a = Some l → finite l = true.
Proof. unfold LabelForAction. repeat case_match; by intros [= <-]. Qed.

Lemma learn_ok j ev :
  model_ok (decodeModel (M := LearnedModel) j) → model_ok (decodeModel (M := LearnedModel) (learn j ev)).
Proof using Type*.
  intros Hj. unfold learn, feedbackUpdate. set (m := decodeModel j) in *.
  set (m' := match label_for_action _ with Some _ => _ | None => _ end).
  assert (Hm : model_ok m').
  { subst m'. cbn. destruct (LabelForAction (pf_action ev)) as [l|] eqn:E; [|done].
    case_bool_decide; [done|]. apply Update_ok; [by eapply label_finite|done]. }
  clearbody m'. cbn. destruct (model_json m') as [b|] eqn:E; [|done].
  unfold decodeModel. destruct (String.eqb b ""); [|cbn; by rewrite (model_json_roundtrip _ _ E)].
  by repeat split; try (intros ?? H; rewrite lookup_empty in H).
Qed.

(** C27. Learning cannot run away: after any sequence of feedback events, from
    a fresh model, the stored model's bias and every coefficient are finite
    and lie between -6 and 6, so no event history saturates or poisons the
    behavioural score. *)
Theorem learned_weights_bounded evs :
  model_ok (decodeModel (M := LearnedModel) (foldl learn "" evs)).
Proof using Type*.
  assert (H0 : model_ok (decodeModel (M := LearnedModel) "")) by
    (by repeat split; try (intros ?? H; rewrite lookup_empty in H)).
  revert H0. generalize "". induction evs as [|ev evs IH]; intros j Hj; [done|]. cbn [foldl]. by apply IH, learn_ok.
Qed.
End feedback.

(** ** Witness *)
#[local] Instance ascii_case : Casing := {| ToLower s := s; ToUpper s := s |}.
#[local] Instance flat_exp : MathExp := {| Exp _ := fone |}.
#[local] Instance flat_exp_laws : ExpLaws.
Proof. by intros z _. Qed.

#[export] Instance LearnedModel_eq_dec : EqDecision LearnedModel.
Proof. solve_decision. Defined.

Definition demo_event : PFeedback :=
  mkPFeedback "d1" "EMAIL" "gmail" "open" 0 "" ["Ann <ann@x>"] [].

(** A codec that knows the one model the event leads to. *)
Definition demo_model : LearnedModel := Update zeroModel (FeatureKeys "EMAIL" "gmail" ["Ann <ann@x>"] []) fone fzero.
#[local] Instance demo_json : ModelJson := {|
  json_paused _ := Some false;
  json_model b := if String.eqb b "m1" then Some demo_model else None;
  model_json m := if bool_decide (m = demo_model) then Ok "m1" else Err "unknown"
|}.
#[local] Instance demo_json_laws : ModelJsonLaws.
Proof. intros m b. cbn. case_bool_decide as H; [|done]. intros [= <-]. by rewrite H. Qed.

Lemma learned_weights_bounded_witness :
  foldl learn "" [demo_event] = "m1" ∧ model_ok (decodeModel (M := LearnedModel) (foldl learn "" [demo_event])).
Proof. split; [vm_compute; reflexivity|]. apply (learned_weights_bounded [demo_event]). Defined.

(** ** Profiles *)

(** In [0,1], or NaN, which JSON cannot carry. *)
Definition unit_range (v : float64) : Prop := is_nan v = true ∨ (flt v fzero = false ∧ flt fone v = false).

Lemma clamp01_range v : unit_range (clamp01 v).
Proof.
  unfold clamp01, fgt. fold (flt fone v). destruct (flt v fzero) eqn:E1; [by right|].
  destruct (flt fone v) eqn:E2; [by right|]. by right.
Qed.

Lemma clampNonNeg_range v : flt (clampNonNeg v) fzero = false.
Proof. unfold clampNonNeg. by destruct (flt v fzero) eqn:E. Qed.

Section clamp.
Context {Ca : Casing} {Zd : ZoneDB}.

Lemma normalize_loop_length lower seen count l :
  (count < maxListEntries)%nat → (count + length (normalize_loop lower seen count l) <= maxListEntries)%nat.
Proof.
  revert seen count. induction l as [|raw l IH]; intros seen count Hc; cbn [normalize_loop]; [cbn; lia|].
  destruct (String.eqb _ ""); [by apply IH|]. destruct (existsb _ seen); [by apply IH|]. cbn [length].
  case_bool_decide; [cbn; lia|]. specialize (IH (ToLower (cut_entry (if lower then ToLower (TrimSpace raw) else TrimSpace raw)) :: seen) (S count) ltac:(lia)). lia.
Qed.

Lemma normalizeList_length l lower : (length (normalizeList l lower) <= maxListEntries)%nat.
Proof. apply (normalize_loop_length lower [] 0). unfold maxListEntries. lia. Qed.

Lemma clampSourceWeights_range visit k v :
  clampSourceWeights visit !! k = Some v → flt v fzero = false ∧ flt sourceWeightMax v = false.
Proof.
  unfold clampSourceWeights.
  assert (Hg : ∀ (m : gmap string float64), (∀ k v, m !! k = Some v → flt v fzero = false ∧ flt sourceWeightMax v = false) →
    ∀ k v, foldl (λ out kv,
      let key := ToUpper (TrimSpace kv.1) in
      if String.eqb key "" || bool_decide (maxListEntries <= size out)%nat then out
      else
        let v := if flt kv.2 fzero then fzero else kv.2 in
        let v := if fgt v sourceWeightMax then sourceWeightMax else v in
        <[key := v]> out) m visit !! k = Some v → flt v fzero = false ∧ flt sourceWeightMax v = false).
  { induction visit as [|[k0 v0] visit IH]; intros m Hm; cbn [foldl]; [exact Hm|]. apply IH. cbn zeta.
    destruct (_ || _); [exact Hm|]. intros k' v'. cbn [fst snd].
    destruct (decide (ToUpper (TrimSpace k0) = k')) as [<-|Hne]; [|rewrite lookup_insert_ne by done; apply Hm].
    rewrite lookup_insert_eq. intros [= <-]. unfold fgt. destruct (flt v0 fzero) eqn:E1; [by split|].
    fold (flt sourceWeightMax v0). destruct (flt sourceWeightMax v0) eqn:E2; [by split|done]. }
  apply (Hg ∅). intros ??. by rewrite lookup_empty.
Qed.

(** A sanitized profile is in range, whatever was stored: sliders in
    [0,1], score weights not negative and not all zero, source weights in
    [0,5], at most 200 entries in each list of people, topics and addresses,
    a non-empty working day within 24 hours, and a time zone that resolves. *)
Theorem clamp_bounds visit p :
  let q := Clamp visit p in
  unit_range (pr_AttentionSensitivity q) ∧ unit_range (pr_RecencyVsImportance q) ∧ unit_range (pr_NoveltyVsFamiliarity q) ∧
  Forall (λ w, flt w fzero = false) [w_Semantic (pr_Weights q); w_Preference (pr_Weights q); w_Behavioral (pr_Weights q);
    w_Attention (pr_Weights q); w_Fatigue (pr_Weights q)] ∧
  zero_weights (pr_Weights q) = false ∧
  (∀ k v, pr_SourceWeights q !! k = Some v → flt v fzero = false ∧ flt sourceWeightMax v = false) ∧
  Forall (λ l, (length l <= maxListEntries)%nat) [pr_ImportantPeople q; pr_Topics q; pr_SelfEmails q;
    mute_People (pr_Mute q); mute_Topics (pr_Mute q)] ∧
  0 <= StartHour (pr_WorkingHours q) < EndHour (pr_WorkingHours q) ∧ EndHour (pr_WorkingHours q) <= 24 ∧
  (pr_Timezone q = "" ∨ is_Some (LoadLocation (pr_Timezone q))).
Proof.
  intros q. unfold q. clear q. split_and!; try apply clamp01_range.
  - change (pr_Weights (Clamp visit p)) with (clamp_weights (pr_Weights p)). unfold clamp_weights.
    destruct (zero_weights _); [by repeat constructor|]. cbn [w_Semantic w_Preference w_Behavioral w_Attention w_Fatigue].
    repeat (constructor; [apply clampNonNeg_range|]). constructor.
  - change (pr_Weights (Clamp visit p)) with (clamp_weights (pr_Weights p)). unfold clamp_weights.
    destruct (zero_weights (mkWeights _ _ _ _ _)) eqn:E; [reflexivity|exact E].
  - apply clampSourceWeights_range.
  - repeat (constructor; [apply normalizeList_length|]). constructor.
  - cbn. unfold clampWorkingHours. repeat case_match; cbn; lia.
  - cbn. unfold clampWorkingHours. repeat case_match; cbn; lia.
  - cbn. unfold clampWorkingHours. repeat case_match; cbn; lia.
  - cbn. destruct (String.eqb _ ""); [by left|]. destruct (LoadLocation _) eqn:E; [right; by rewrite E|by left].
Qed.
End clamp.

(** The comment on [Clamp] calls it idempotent. It is not: cutting an entry at
    256 runes can leave a trailing blank, which the next [Clamp] trims. *)
Definition long_topic : string := String.concat "" (replicate 255 "a") +:+ " b".

Lemma clamp_not_idempotent :
  let once := normalizeList [long_topic] false in
  normalizeList once false ≠ once.
Proof. vm_compute. discriminate. Qed.
