(* ===== verification/QueryPersonalize.v ===== *)
(** * Attention and personalized ranking

    Models [services/query/attention.go] and the ranking half of
    [personalize.go]: the salience of a hit, the hard filters, the combined
    score with its reasons, diversification and the page. *)

From stdpp Require Import base gmap strings list pretty sets sorting.
From Stdlib Require Import Ascii ZArith Lia.
From S2P Require Import Prelude GoStrings Tenancy ControlPlane Document GoTime GoText GoFloat GoDate QueryVespa QueryRank QueryPlan QueryScope Personalization.

Open Scope Z_scope.

Definition hour : Z := 3600 * second.
Definition day : Z := 24 * hour.

Definition attnRSVPPending : float64 := frac 9 10.
Definition attnOverdue : float64 := frac 9 10.
Definition attnUpcoming : float64 := frac 7 10.
Definition attnUnread : float64 := frac 4 10.
Definition attnImportant : float64 := frac 5 10.
Definition attnDirectlyToYou : float64 := frac 3 10.
Definition attnRecent : float64 := frac 2 10.
Definition attentionHorizon : Z := 7 * day.
Definition staleThreadHorizon : Z := 14 * day.

(** [Duration.Hours] *)
Definition Hours (d : Z) : float64 :=
  fadd (float_of_Z (Z.quot d hour)) (fdiv (float_of_Z (Z.rem d hour)) (float_of_Z hour)).

(** [math.Round]: half away from zero; the integer it denotes. *)
Definition fround (x : float64) : Z :=
  match x with
  | SpecFloat.S754_finite s m e =>
    let v := if 0 <=? e then Z.pos m * 2 ^ e else (Z.pos m + 2 ^ (- e - 1)) / 2 ^ (- e) in
    if s then - v else v
  | _ => 0
  end.

(** [md[k]]: the empty string when absent. *)
Definition md_str (md : gmap string string) (k : string) : string := default "" (md !! k).

Section attention.
Context {Ca : Casing} {Fo : Folding}.

Definition isDone (status : string) : bool :=
  existsb (String.eqb (ToLower (TrimSpace status)))
    ["done"; "closed"; "resolved"; "complete"; "completed"; "cancelled"; "canceled"].

Definition isFlagged (v : string) : bool := existsb (String.eqb (ToLower (TrimSpace v))) ["true"; "1"; "yes"].

Definition isUnread (md : gmap string string) : bool :=
  isFlagged (md_str md "unread") || fold_eq (TrimSpace (md_str md "read_status")) "unread".

Definition addressedTo (to : string) (selfEmails : list string) : bool :=
  if String.eqb to "" then false
  else existsb (λ self, negb (String.eqb self "") && Contains (ToLower to) (ToLower self)) selfEmails.

Definition rsvpPending (md : gmap string string) (selfEmails : list string) : bool :=
  existsb (λ kv,
    match CutPrefix kv.1 "response_status:" with
    | None => false
    | Some rest =>
      fold_eq (TrimSpace kv.2) "needsAction" &&
      existsb (λ self, negb (String.eqb self "") && Contains (ToLower rest) (ToLower self)) selfEmails
    end) (map_to_list md).

Definition flexibleTime (s : string) : option Z :=
  let s := TrimSpace s in
  if String.eqb s "" then None
  else match time_Parse RFC3339 s with
  | Some t => Some t
  | None => match time_Parse DateTime s with
    | Some t => Some t
    | None => match time_Parse DateOnly s with
      | Some t => Some t
      | None => match ParseInt s with
        | Some sec => if 0 <? sec then Some (sec * second) else None
        | None => None
        end
      end
    end
  end.

Definition firstFlexibleTime (md : gmap string string) (k1 k2 : string) : option Z :=
  match flexibleTime (md_str md k1) with Some t => Some t | None => flexibleTime (md_str md k2) end.

Definition daysBetween (a b : Z) : Z := Z.abs (fround (fdiv (Hours (time_Sub b a)) (float_of_Z 24))).

Definition humanizeDays (days : Z) : string :=
  if days <=? 0 then "today" else if days =? 1 then "1 day" else pretty days +:+ " days".

Definition humanizeUntil (d : Z) : string :=
  let days := ftrunc (fdiv (Hours d) (float_of_Z 24)) in
  if days <=? 0 then "today" else if days =? 1 then "tomorrow" else "in " +:+ pretty days +:+ " days".

Definition shortAddress (from : string) : string :=
  let from := TrimSpace from in
  let bare :=
    let from := Trim from "<>" in
    match IndexByte from "@" with Some (S i) => take_str (S i) from | _ => from end in
  match IndexByte from "<" with
  | Some (S i) =>
    let name := TrimSpace (take_str (S i) from) in
    if String.eqb name "" then bare else Trim name (String quote "")
  | _ => bare
  end.

(** The weight and the reason of an event ahead; [None] when it does not fire. *)
Definition upcomingScore (start : Z) (win : timeWindow) (now : Z) : option (float64 * string) :=
  if start <? now then None
  else
    let until := time_Sub start now in
    let inWindow := negb (win_isZero win) && negb (start <? win_From win) && (start <? win_To win) in
    if (attentionHorizon <? until) && negb inWindow then None
    else
      let frac_ := fsub fone (fdiv (float_of_Z until) (float_of_Z attentionHorizon)) in
      let frac_ := if flt frac_ fzero then fzero else frac_ in
      let w := fmul attnUpcoming frac_ in
      let half := fmul attnUpcoming (frac 5 10) in
      let w := if inWindow && flt w half then half else w in
      Some (w, "starts " +:+ humanizeUntil until).

(** The evidence of one hit, in order: each feature that fires with its
    weight and reason. *)
Definition attention_terms (hit : Hit) (profile : Profile) (win : timeWindow) (now : Z) : list (float64 * string) :=
  let md := hit_Metadata hit in
  (if rsvpPending md (pr_SelfEmails profile) then [(attnRSVPPending, "RSVP pending")] else []) ++
  (if bool_decide (hit_Type hit = CALENDAR_EVENT) then
     match flexibleTime (md_str md "start") with
     | Some start => match upcomingScore start win now with Some p => [p] | None => [] end
     | None => []
     end
   else []) ++
  (match firstFlexibleTime md "due" "deadline" with
   | Some due => if (due <? now) && negb (isDone (md_str md "status"))
     then [(attnOverdue, "overdue by " +:+ humanizeDays (daysBetween due now))] else []
   | None => []
   end) ++
  (if isUnread md then [(attnUnread, "unread")] else []) ++
  (if isFlagged (md_str md "important") then [(attnImportant, "marked important")]
   else
     let from := md_str md "from" in
     if negb (String.eqb from "") && IsImportantPerson profile [from]
     then [(attnImportant, "from " +:+ shortAddress from +:+ " (important)")] else []) ++
  (if addressedTo (md_str md "to") (pr_SelfEmails profile) then [(attnDirectlyToYou, "addressed to you")] else []) ++
  (let t := hitTime hit in
   if IsZero t then []
   else
     let age := time_Sub now t in
     if (0 <=? age) && (age <=? attentionHorizon) then [(attnRecent, "recent")]
     else if (staleThreadHorizon <? age) && isUnread md then [(attnRecent, "waiting a while")]
     else []).

(** The score, clamped to [0,1], and the reasons. *)
Definition scoreAttention (hit : Hit) (profile : Profile) (win : timeWindow) (now : Z) : float64 * list string :=
  let terms := attention_terms hit profile win now in
  let score := foldl (λ s p, fadd s p.1) fzero terms in
  let score := if fgt score fone then fone else score in
  let score := if flt score fzero then fzero else score in
  (score, snd <$> terms).

(** ** Hard filters *)
Record personalizeParams := mkParams {
  pp_profile : Profile; pp_model : LearnedModel; pp_intent : intentClass; pp_window : timeWindow; pp_now : Z;
  pp_halfLife : Z; pp_debug : bool; pp_limit : Z; pp_offset : Z
}.

Definition calendarOverlaps (start end_ : Z) (window : timeWindow) : bool :=
  if negb (IsZero (win_To window)) && negb (start <? win_To window) then false
  else if IsZero (win_From window) || negb (start <? win_From window) then true
  else (start <? end_) && (win_From window <? end_).

Definition eligible (p : personalizeParams) (h : Hit) : bool :=
  let md := hit_Metadata h in
  let from := md_str md "from" in
  negb (IsMutedSource (pp_profile p) (docType_String (hit_Type h))) &&
  negb (negb (String.eqb from "") && IsMutedPerson (pp_profile p) [from]) &&
  negb (bool_decide (pp_intent p = intentScheduleLookup) && negb (win_isZero (pp_window p)) &&
    match flexibleTime (md_str md "start") with
    | None => true
    | Some start =>
      negb (calendarOverlaps start (default zeroTime (flexibleTime (md_str md "end"))) (pp_window p))
    end) &&
  negb (bool_decide (pp_intent p = intentNeedsAttention) &&
    fle (scoreAttention h (pp_profile p) (pp_window p) (pp_now p)).1 fzero).

Definition filterCandidates (hits : list Hit) (p : personalizeParams) : list Hit := List.filter (eligible p) hits.
End attention.

(** ** The combined score *)
Record scoredHit := mkScored {
  sh_hit : Hit; sh_features : Features; sh_retrievalScore : float64; sh_combined : float64; sh_rankScore : float64;
  sh_relNorm : float64; sh_mmrApplied : bool; sh_mmrPenalty : float64; sh_docType : string; sh_sender : string;
  sh_reasons : list string
}.

Definition recencyBonusWeight : float64 := frac 6 10.
Definition behavioralReasonThreshold : float64 := frac 62 100.

(** [math.MaxFloat64] *)
Definition MaxFloat64 : float64 := SpecFloat.S754_finite false 9007199254740991 971.

(** [math.Copysign(math.MaxFloat64, x)] of an infinite [x]. *)
Definition bounded_sum (x : float64) : float64 :=
  match x with
  | SpecFloat.S754_infinity s => if s then fneg MaxFloat64 else MaxFloat64
  | _ => x
  end.

Definition clampPref (v : float64) : float64 :=
  if fgt v fone then fone else if flt v (fneg fone) then fneg fone else v.

Definition normalizedRelevance (value lo hi : float64) : float64 :=
  let span := fsub hi lo in
  if fle span fzero then fone
  else match span with
  | SpecFloat.S754_infinity false =>
    let two := float_of_Z 2 in
    let '(value, lo, hi) := (fdiv value two, fdiv lo two, fdiv hi two) in
    fdiv (fsub value lo) (fsub hi lo)
  | _ => fdiv (fsub value lo) span
  end.

Definition firstNonEmpty (ss : list string) : string :=
  default "" (head (List.filter (λ s, negb (String.eqb s "")) ss)).

Section ranking.
Context {Ca : Casing} {Fo : Folding} {Le : Letters} {Me : MathExp} {Fm : FloatMath}.

Definition extractEmail (from : string) : string :=
  let whole := ToLower (TrimSpace from) in
  match IndexByte from "<" with
  | Some i =>
    match IndexByte (drop_str i from) ">" with
    | Some (S j) => ToLower (TrimSpace (take_str j (drop_str (S i) from)))
    | _ => whole
    end
  | None => whole
  end.

Definition hitSenders (md : gmap string string) : list string :=
  let from := TrimSpace (md_str md "from") in
  if String.eqb from "" then [] else [extractEmail from].

(** The evidence of the explicit settings: weights and, where given, reasons. *)
Definition preferenceMatch (profile : Profile) (docType : string) (senders topics mutedTopics : list string) :
    float64 * list string :=
  let w := SourceWeight profile docType in
  let '(pref, reasons) := if feqb w fone then (fzero, [])
    else (fadd fzero (fmul (fsub w fone) (frac 5 10)), if fgt w fone then ["a source you prioritize"] else []) in
  let '(pref, reasons) := if IsImportantPerson profile senders
    then (fadd pref (frac 5 10), reasons ++ ["from someone important to you"]) else (pref, reasons) in
  let '(pref, reasons) := match topics with
    | [] => (pref, reasons)
    | t :: _ => (fadd pref (frac 3 10), reasons ++ ["about " +:+ t])
    end in
  let pref := match mutedTopics with [] => pref | _ => fsub pref (frac 5 10) end in
  (clampPref pref, reasons).

Definition scoreCandidate (h : Hit) (p : personalizeParams) (minScore maxScore : float64) : scoredHit :=
  let md := hit_Metadata h in
  let docType := docType_String (hit_Type h) in
  let senders := hitSenders md in
  let text := hit_Title h +:+ " " +:+ hit_Snippet h in
  let topics := MatchedTopics (pp_profile p) text in
  let mutedTopics := MutedTopics (pp_profile p) text in
  let '(pref, prefReasons) := preferenceMatch (pp_profile p) docType senders topics mutedTopics in
  let att := scoreAttention h (pp_profile p) (pp_window p) (pp_now p) in
  let needs := bool_decide (pp_intent p = intentNeedsAttention) in
  let f := mkFeatures (normalizedRelevance (hit_Score h) minScore maxScore) pref
    (Predict (pp_model p) (FeatureKeys docType (hit_ConnectorId h) senders topics))
    (if needs then att.1 else fzero) fzero in
  let combined := Score f (pr_Weights (pp_profile p)) in
  let slider := pr_RecencyVsImportance (pp_profile p) in
  let combined := if fgt slider fzero
    then fadd combined (fmul (fmul slider recencyBonusWeight) (recencyScore (hitTime h) (pp_now p) (pp_halfLife p)))
    else combined in
  let combined := bounded_sum combined in
  let reasons := (if needs then att.2 else []) ++ prefReasons ++
    (if fle behavioralReasonThreshold (ft_Behavioral f) then ["matches your usual activity"] else []) in
  mkScored h f (hit_Score h) combined combined fzero false fzero docType (firstNonEmpty senders) reasons.

(** ** Ordering *)

(** [sort.SliceStable] by [less]. *)
Fixpoint insert_less {A} (less : A → A → bool) (x : A) (l : list A) : list A :=
  match l with
  | [] => [x]
  | y :: l' => if less y x then y :: insert_less less x l' else x :: l
  end.

Definition sort_less {A} (less : A → A → bool) (l : list A) : list A := foldr (insert_less less) [] l.

Definition event_start (s : scoredHit) : option Z := flexibleTime (md_str (hit_Metadata (sh_hit s)) "start").

Definition starts_before (a b : scoredHit) : bool :=
  match event_start a, event_start b with
  | Some ti, Some tj => if ti =? tj then fgt (sh_combined a) (sh_combined b) else ti <? tj
  | Some _, None => true
  | None, Some _ => false
  | None, None => fgt (sh_combined a) (sh_combined b)
  end.

Definition sortByEventStart (scored : list scoredHit) : list scoredHit := sort_less starts_before scored.

Definition set_relNorm (r : float64) (s : scoredHit) : scoredHit :=
  mkScored (sh_hit s) (sh_features s) (sh_retrievalScore s) (sh_combined s) (sh_rankScore s) r (sh_mmrApplied s)
    (sh_mmrPenalty s) (sh_docType s) (sh_sender s) (sh_reasons s).

Definition normalizeRelevance (scored : list scoredHit) : list scoredHit :=
  match scored with
  | [] => []
  | s0 :: _ =>
    let '(lo, hi) := foldl (λ acc s,
      (if flt (sh_combined s) acc.1 then sh_combined s else acc.1,
       if fgt (sh_combined s) acc.2 then sh_combined s else acc.2)) (sh_combined s0, sh_combined s0) scored in
    (λ s, set_relNorm (normalizedRelevance (sh_combined s) lo hi) s) <$> scored
  end.

Fixpoint token_loop (tokens : gset string) (l : list string) : gset string :=
  match l with
  | [] => tokens
  | t :: l' =>
    if bool_decide (length (runes t) < 2)%nat then token_loop tokens l'
    else
      let tokens := {[ t ]} ∪ tokens in
      if Nat.eqb (size tokens) 128 then tokens else token_loop tokens l'
  end.

Definition redundancyTokens (text : string) : gset string :=
  token_loop ∅ (FieldsFunc (ToLower (truncateRunes text 2048)) (λ r, negb (IsLetter r) && negb (IsNumber r))).

Definition tokenJaccard (a b : gset string) : float64 :=
  if Nat.eqb (size a) 0 || Nat.eqb (size b) 0 then fzero
  else
    let common := Z.of_nat (size (a ∩ b)) in
    fdiv (float_of_Z common) (float_of_Z (Z.of_nat (size a) + Z.of_nat (size b) - common)).

(** The built-in [max] of two floats. *)
Definition fmax (x y : float64) : float64 :=
  if is_nan x then x else if is_nan y then y else if flt x y then y else x.

(** A candidate not yet selected: the hit, its tokens, its greatest
    similarity to a selected one. *)
Record mmrItem := mkItem { it_hit : scoredHit; it_tokens : gset string; it_maxSimilarity : float64 }.

Definition mmr_value (novelty : float64) (it : mmrItem) : float64 :=
  fsub (fmul (fsub fone novelty) (sh_relNorm (it_hit it))) (fmul novelty (it_maxSimilarity it)).

(** The first index of the greatest value. *)
Fixpoint best_index {A} (val : A → float64) (i : nat) (best : option (nat * float64)) (l : list A) :
    option (nat * float64) :=
  match l with
  | [] => best
  | x :: l' =>
    let best := match best with
      | None => Some (i, val x)
      | Some (_, bestVal) => if fgt (val x) bestVal then Some (i, val x) else best
      end in
    best_index val (S i) best l'
  end.

Definition selected_hit (novelty bestVal : float64) (it : mmrItem) : scoredHit :=
  let s := it_hit it in
  mkScored (sh_hit s) (sh_features s) (sh_retrievalScore s) (sh_combined s) bestVal (sh_relNorm s) true
    (fmul novelty (it_maxSimilarity it)) (sh_docType s) (sh_sender s) (sh_reasons s).

Definition raise_similarity (sel it : mmrItem) : mmrItem :=
  let sim := tokenJaccard (it_tokens sel) (it_tokens it) in
  let w := frac 5 10 in
  let w := if String.eqb (sh_docType (it_hit sel)) (sh_docType (it_hit it)) then fadd w (frac 25 100) else w in
  let w := if negb (String.eqb (sh_sender (it_hit sel)) "") && String.eqb (sh_sender (it_hit sel)) (sh_sender (it_hit it))
    then fadd w (frac 25 100) else w in
  mkItem (it_hit it) (it_tokens it) (fmax (it_maxSimilarity it) (fmul sim w)).

(** One selection per round; [fuel] is the number of candidates. *)
Fixpoint mmr_loop (fuel : nat) (novelty : float64) (remaining : list mmrItem) : list scoredHit :=
  match fuel with
  | O => []
  | S fuel' =>
    match best_index (mmr_value novelty) 0 None remaining with
    | None => []
    | Some (bestIdx, bestVal) =>
      match remaining !! bestIdx with
      | None => []
      | Some sel =>
        selected_hit novelty bestVal sel :: mmr_loop fuel' novelty (raise_similarity sel <$> delete bestIdx remaining)
      end
    end
  end.

Definition mmrReorder (scored : list scoredHit) (novelty : float64) : list scoredHit :=
  mmr_loop (length scored) novelty
    ((λ s, mkItem s (redundancyTokens (hit_Title (sh_hit s) +:+ " " +:+ stripHighlights (hit_Snippet (sh_hit s)))) fzero)
     <$> scored).

(** ** The page *)
Definition attentionPageLimit (limit : Z) (sensitivity : float64) : Z :=
  let scaled := fmul (float_of_Z limit) (fsub fone (fmul (frac 75 100) sensitivity)) in
  let out := wrap32 (ftrunc scaled) in
  let out := if out <? 3 then 3 else out in
  if limit <? out then limit else out.

Fixpoint reasons_loop (seen : list string) (l : list string) : list string :=
  match l with
  | [] => seen
  | r :: l' =>
    let r := TrimSpace r in
    if String.eqb r "" || existsb (String.eqb r) seen then reasons_loop seen l'
    else
      let seen := seen ++ [r] in
      if Nat.leb 3 (length seen) then seen else reasons_loop seen l'
  end.

Definition composeExplanation (reasons : list string) : string :=
  match reasons_loop [] reasons with
  | [] => "strong match for your query"
  | out => Join out " · "
  end.

Definition publish (score : float64) (explanation : string) (features : gmap string float64) (h : Hit) : Hit :=
  mkHit (hit_DocId h) (hit_ConnectorId h) (hit_Type h) (hit_Title h) (hit_Snippet h) score (hit_Created h)
    (hit_Modified h) (hit_Metadata h) (hit_StartMs h) (hit_EndMs h) (hit_Modality h) (hit_ThumbnailKey h)
    explanation features.

(** The features a debug request sees. *)
Definition debug_features (s : scoredHit) (w : Weights) : gmap string float64 :=
  let m := foldl (λ m c, <[c.1 := c.2]> m) (∅ : gmap string float64) (Contributions (sh_features s) w) in
  let m := <["retrieval_score" := sh_retrievalScore s]> m in
  let m := <["combined_score" := sh_combined s]> m in
  let m := <["ranking_score" := sh_rankScore s]> m in
  if sh_mmrApplied s
  then <["mmr_penalty" := sh_mmrPenalty s]> (<["mmr_relevance" := sh_relNorm s]> m) else m.

Definition applyExplanation (p : personalizeParams) (s : scoredHit) : Hit :=
  publish (sh_rankScore s) (composeExplanation (sh_reasons s))
    (if pp_debug p then debug_features s (pr_Weights (pp_profile p)) else hit_Features (sh_hit s)) (sh_hit s).

(** When the request is cancelled, as the checks of the pass see it. *)
Inductive cancelPoint := Alive | DuringScoring | DuringRanking.

Definition rank_scored (p : personalizeParams) (scored : list scoredHit) : list scoredHit :=
  if bool_decide (pp_intent p = intentScheduleLookup) then sortByEventStart scored
  else
    let scored := sort_desc sh_combined scored in
    let novelty := pr_NoveltyVsFamiliarity (pp_profile p) in
    if fgt novelty fzero && bool_decide (1 < length scored)%nat
    then mmrReorder (normalizeRelevance scored) novelty else scored.

Definition effLimit (p : personalizeParams) : Z :=
  if bool_decide (pp_intent p = intentNeedsAttention)
  then attentionPageLimit (pp_limit p) (pr_AttentionSensitivity (pp_profile p)) else pp_limit p.

Definition personalizeRank (at_ : cancelPoint) (hits : list Hit) (p : personalizeParams) : list Hit * Z :=
  let candidates := filterCandidates hits p in
  let '(minScore, maxScore) := scoreRange candidates in
  let scored := (λ h, scoreCandidate h p minScore maxScore) <$> candidates in
  let total := Z.of_nat (length scored) in
  match at_ with
  | DuringScoring => ([], 0)
  | DuringRanking => ([], total)
  | Alive => (pageHits (applyExplanation p <$> rank_scored p scored) (pp_offset p) (effLimit p), total)
  end.
End ranking.

(** * The personalized page

    What [personalizeRank] shows: a window of one ranking of exactly the
    candidates the settings let through, chronological for a schedule lookup,
    by greatest remaining utility when novelty is asked for, and by descending
    score otherwise. *)

(** ** Sorting by a comparison *)
Section sort_less.
Context {A : Type} (less : A → A → bool) (R : relation A).
Context (HT : Transitive R) (Hlt : ∀ x y, less x y = true → R x y) (Hge : ∀ x y, less x y = false → R y x).

Lemma insert_less_perm x l : insert_less less x l ≡ₚ x :: l.
Proof.
  induction l as [|y l IH]; simpl; [done|]. destruct (less y x); [|done]. rewrite IH. apply Permutation_swap.
Qed.

Lemma sort_less_perm l : sort_less less l ≡ₚ l.
Proof. induction l as [|x l IH]; simpl; [done|]. by rewrite insert_less_perm, IH. Qed.

Lemma insert_less_sorted x l : StronglySorted R l → StronglySorted R (insert_less less x l).
Proof using HT Hlt Hge.
  induction l as [|y l IH]; intros Hs; simpl; [repeat constructor|].
  apply StronglySorted_inv in Hs as [Hs Hy]. destruct (less y x) eqn:E.
  - constructor; [auto|]. rewrite insert_less_perm. constructor; [auto|done].
  - constructor; [by constructor|]. constructor; [auto|].
    eapply Forall_impl; [exact Hy|]. intros z Hz. cbn beta in Hz. etrans; eauto.
Qed.

Lemma sort_less_sorted l : StronglySorted R (sort_less less l).
Proof using HT Hlt Hge. induction l as [|x l IH]; simpl; [constructor|]. by apply insert_less_sorted. Qed.
End sort_less.

(** ** Diversification reorders *)
Lemma best_index_some {A} (val : A → float64) l : ∀ i best k v,
  best_index val i best l = Some (k, v) →
  best = Some (k, v) ∨ ∃ x, (i <= k)%nat ∧ l !! (k - i)%nat = Some x ∧ val x = v.
Proof.
  induction l as [|x l IH]; intros i best k v H; cbn [best_index] in H; [by left|].
  apply IH in H as [H|(y & Hle & Hy & <-)].
  - assert (best = Some (k, v) ∨ (i = k ∧ val x = v)) as [?|[-> <-]]; [|by left|].
    { destruct best as [[j w]|]; [|right; by simplify_eq]. destruct (fgt (val x) w); [right|left]; by simplify_eq. }
    right. exists x. rewrite Nat.sub_diag. split; [lia|done].
  - right. exists y. split; [lia|]. replace (k - i)%nat with (S (k - S i)) by lia. done.
Qed.

Lemma best_index_none {A} (val : A → float64) l : ∀ i best,
  best_index val i best l = None → best = None ∧ l = [].
Proof.
  induction l as [|x l IH]; intros i best H; cbn [best_index] in H; [done|].
  apply IH in H as [H _]. destruct best as [[j w]|]; [|done]. by destruct (fgt (val x) w).
Qed.

Lemma mmr_loop_perm novelty n : ∀ l, length l = n →
  sh_hit <$> mmr_loop n novelty l ≡ₚ (sh_hit ∘ it_hit) <$> l.
Proof.
  induction n as [|n IH]; intros l Hl; cbn [mmr_loop]; [by destruct l|].
  destruct (best_index (mmr_value novelty) 0 None l) as [[k v]|] eqn:E; cycle 1.
  { apply best_index_none in E as [_ ->]. done. }
  apply best_index_some in E as [?|(x & _ & Hx & _)]; [done|]. rewrite Nat.sub_0_r in Hx. rewrite Hx.
  cbn [fmap list_fmap]. rewrite IH.
  - etrans; [|symmetry; apply (fmap_Permutation (sh_hit ∘ it_hit) _ _ (delete_Permutation l k x Hx))].
    cbn [fmap list_fmap]. constructor. by rewrite <-list_fmap_compose.
  - rewrite length_fmap, length_delete by eauto. lia.
Qed.

(** The best index holds a greatest value. *)
Lemma best_index_max {A} (val : A → float64) l : ∀ i best k v,
  best_index val i best l = Some (k, v) →
  (∀ j w, best = Some (j, w) → is_nan w = false) → Forall (λ x, is_nan (val x) = false) l →
  (∀ j w, best = Some (j, w) → flt v w = false) ∧ Forall (λ x, flt v (val x) = false) l ∧ is_nan v = false.
Proof.
  induction l as [|x l IH]; intros i best k v H Hb Hn; cbn [best_index] in H.
  { subst best. split_and!; [|done|by eapply Hb]. intros j w [= -> ->]. apply flt_irrefl. }
  apply Forall_cons in Hn as [Hx Hn]. apply IH in H as (H1 & H2 & Hv); [|by intros j w; destruct best as [[j' w']|];
    [destruct (fgt (val x) w') eqn:E; intros [= <- <-]; [done|by eapply Hb]|intros [= <- <-]]|done].
  destruct best as [[j w]|].
  - pose proof (Hb _ _ eq_refl) as Hw. destruct (fgt (val x) w) eqn:E.
    + specialize (H1 _ _ eq_refl). split_and!; [|by constructor|done]. intros j' w' [= <- <-].
      apply (nlt_trans w (val x) v); [done|done|done|by apply flt_asym|exact H1].
    + specialize (H1 _ _ eq_refl). split_and!; [by intros j' w' [= <- <-]| |done]. constructor; [|done].
      by apply (nlt_trans (val x) w v).
  - specialize (H1 _ _ eq_refl). split_and!; [done|by constructor|done].
Qed.

Section page.
Context {Ca : Casing} {Fo : Folding} {Le : Letters} {Me : MathExp} {Fm : FloatMath}.
Implicit Types (p : personalizeParams) (h : Hit).

(** ** Maximal marginal relevance

    How alike two hits are: the overlap of their words, in full for hits of one
    type from one sender, by half for hits that share neither. *)
Definition hit_tokens (s : scoredHit) : gset string :=
  redundancyTokens (hit_Title (sh_hit s) +:+ " " +:+ stripHighlights (hit_Snippet (sh_hit s))).

Definition similarity (a b : scoredHit) : float64 :=
  let same_type := String.eqb (sh_docType a) (sh_docType b) in
  let same_sender := negb (String.eqb (sh_sender a) "") && String.eqb (sh_sender a) (sh_sender b) in
  fmul (tokenJaccard (hit_tokens a) (hit_tokens b))
    (match same_type, same_sender with
     | true, true => fadd (fadd (frac 5 10) (frac 25 100)) (frac 25 100)
     | true, false | false, true => fadd (frac 5 10) (frac 25 100)
     | false, false => frac 5 10
     end).

(** The utility of a hit after the hits [pre]: its relevance less its greatest
    likeness to one of them, weighed by the novelty asked for. *)
Definition utility (novelty : float64) (pre : list scoredHit) (s : scoredHit) : float64 :=
  fsub (fmul (fsub fone novelty) (sh_relNorm s)) (fmul novelty (foldl (λ m a, fmax m (similarity a s)) fzero pre)).

(** An order after the hits [pre] in which every hit is published with its
    utility at its place and no later hit has a greater one there. *)
Fixpoint greedy (novelty : float64) (pre order : list scoredHit) : Prop :=
  match order with
  | [] => True
  | s :: post =>
    sh_rankScore s = utility novelty pre s ∧
    (Forall (λ x, is_nan (utility novelty pre x) = false) (s :: post) →
     Forall (λ x, flt (utility novelty pre s) (utility novelty pre x) = false) post) ∧
    greedy novelty (pre ++ [s]) post
  end.

(** What the selection leaves of a hit. *)
Definition alike (a b : scoredHit) : Prop :=
  sh_hit a = sh_hit b ∧ sh_relNorm a = sh_relNorm b ∧ sh_docType a = sh_docType b ∧ sh_sender a = sh_sender b ∧ sh_combined a = sh_combined b.

Lemma similarity_alike a a' b b' : alike a a' → alike b b' → similarity a b = similarity a' b'.
Proof. intros (E1 & _ & E2 & E3 & _) (F1 & _ & F2 & F3 & _). unfold similarity, hit_tokens. by rewrite E1, E2, E3, F1, F2, F3. Qed.

Lemma utility_alike n pre a b : alike a b → utility n pre a = utility n pre b.
Proof.
  intros Hab. unfold utility. assert (sh_relNorm a = sh_relNorm b) as -> by apply Hab. do 2 f_equal.
  generalize fzero. induction pre as [|x pre IH]; intros z; cbn; [done|]. rewrite IH. by rewrite (similarity_alike x x a b).
Qed.

(** An item of the loop after the selections [pre]. *)
Definition item_after (pre : list scoredHit) (it : mmrItem) : Prop :=
  it_tokens it = hit_tokens (it_hit it) ∧ it_maxSimilarity it = foldl (λ m a, fmax m (similarity a (it_hit it))) fzero pre.

Lemma item_value n pre it : item_after pre it → mmr_value n it = utility n pre (it_hit it).
Proof. intros [_ E]. unfold mmr_value, utility. by rewrite E. Qed.

Lemma item_raised pre sel v n it :
  item_after pre sel → item_after pre it → item_after (pre ++ [selected_hit n v sel]) (raise_similarity sel it).
Proof.
  intros [Et _] [Et' Em]. split; [done|]. cbn [it_hit raise_similarity it_maxSimilarity]. rewrite foldl_app. cbn [foldl]. rewrite <- Em. f_equal.
  unfold similarity. cbn [selected_hit sh_docType sh_sender]. rewrite Et, Et'.
  change (hit_tokens (selected_hit n v sel)) with (hit_tokens (it_hit sel)). f_equal.
  by destruct (String.eqb (sh_docType _) _), (negb _ && _).
Qed.

Lemma mmr_loop_alike n fuel : ∀ l, length l = fuel → ∃ l', Forall2 alike (mmr_loop fuel n l) l' ∧ l' ≡ₚ it_hit <$> l.
Proof.
  induction fuel as [|fuel IH]; intros l Hl; cbn [mmr_loop]; [exists []; by destruct l|].
  destruct (best_index (mmr_value n) 0 None l) as [[k v]|] eqn:E; [|by apply best_index_none in E as [_ ->]].
  apply best_index_some in E as [?|(x & _ & Hx & _)]; [done|]. rewrite Nat.sub_0_r in Hx. rewrite Hx.
  destruct (IH (raise_similarity x <$> delete k l)) as (l' & Hf & Hp); [rewrite length_fmap, length_delete by eauto; lia|].
  exists (it_hit x :: l'). split; [by constructor|]. rewrite (delete_Permutation l k x Hx). cbn. constructor.
  etrans; [exact Hp|]. by rewrite <-list_fmap_compose.
Qed.

(** A property of utilities moves between hits alike. *)
Lemma Forall_alike (P : float64 → Prop) n pre (l1 l2 : list scoredHit) :
  Forall2 alike l1 l2 → Forall (λ x, P (utility n pre x)) l1 ↔ Forall (λ x, P (utility n pre x)) l2.
Proof.
  induction 1 as [|x y l1 l2 Hxy _ IH]; [done|]. by rewrite !Forall_cons, IH, (utility_alike n pre x y).
Qed.

Lemma mmr_loop_greedy n fuel : ∀ pre l, length l = fuel → Forall (item_after pre) l → greedy n pre (mmr_loop fuel n l).
Proof.
  induction fuel as [|fuel IH]; intros pre l Hl Hi; cbn [mmr_loop]; [done|].
  destruct (best_index (mmr_value n) 0 None l) as [[k v]|] eqn:E; [|done].
  pose proof (best_index_some _ _ _ _ _ _ E) as [?|(x & _ & Hx & Hv)]; [done|]. rewrite Nat.sub_0_r in Hx. rewrite Hx.
  pose proof (Forall_lookup_1 _ _ _ _ Hi Hx) as Hxi. cbn beta in Hxi. set (s := selected_hit n v x).
  assert (Hs : utility n pre s = v) by (rewrite <- Hv, (item_value n pre) by done; by apply utility_alike).
  destruct (mmr_loop_alike n fuel (raise_similarity x <$> delete k l)) as (l' & Ha & Hp); [rewrite length_fmap, length_delete by eauto; lia|].
  assert (Hp' : it_hit x :: l' ≡ₚ it_hit <$> l).
  { rewrite (delete_Permutation l k x Hx), Hp. cbn. constructor. by rewrite <-list_fmap_compose. }
  assert (Hval : ∀ P : float64 → Prop, Forall (λ it, P (mmr_value n it)) l ↔ P v ∧ Forall (λ y, P (utility n pre y)) l').
  { intros P. rewrite <- Hv, (item_value n pre x) by done. rewrite <- (Forall_cons (λ y, P (utility n pre y))), Hp', Forall_fmap.
    rewrite !Forall_forall. rewrite Forall_forall in Hi.
    split; intros HP it Hit; specialize (HP it Hit); cbn in *; [rewrite <- (item_value n pre)|rewrite (item_value n pre)]; auto. }
  split_and!; [done| |].
  - rewrite Hs. intros [Hn1 Hn2]%Forall_cons. rewrite Hs in Hn1. rewrite (Forall_alike (λ z, is_nan z = false) n pre _ _ Ha) in Hn2.
    apply (Forall_alike (λ z, flt v z = false) n pre _ _ Ha).
    apply (Hval (λ z, flt v z = false)). apply (best_index_max _ _ _ _ _ _ E); [done|]. apply (Hval (λ z, is_nan z = false)). by split.
  - apply IH; [rewrite length_fmap, length_delete by eauto; lia|]. apply Forall_fmap. apply (Forall_delete _ _ k) in Hi.
    eapply Forall_impl; [exact Hi|]. intros it Hit. by apply item_raised.
Qed.

Lemma mmrReorder_perm scored novelty : sh_hit <$> mmrReorder scored novelty ≡ₚ sh_hit <$> scored.
Proof.
  unfold mmrReorder. rewrite mmr_loop_perm by by rewrite length_fmap. by rewrite <-list_fmap_compose.
Qed.

Lemma mmrReorder_greedy scored n : greedy n [] (mmrReorder scored n).
Proof. apply mmr_loop_greedy; [by rewrite length_fmap|]. apply Forall_fmap, Forall_true. done. Qed.

(** The scores the relevance is scaled between. *)
Definition extremes (lo hi : float64) (order : list scoredHit) : Prop :=
  lo ∈ sh_combined <$> order ∧ hi ∈ sh_combined <$> order ∧
  (Forall (λ s, is_nan (sh_combined s) = false) order → Forall (λ s, flt (sh_combined s) lo = false ∧ flt hi (sh_combined s) = false) order).

Lemma extremes_perm lo hi (l1 l2 : list scoredHit) : sh_combined <$> l1 ≡ₚ sh_combined <$> l2 → extremes lo hi l1 → extremes lo hi l2.
Proof.
  intros Hp (H1 & H2 & H3). unfold extremes. rewrite <- Hp. split_and!; [done|done|].
  rewrite <- (Forall_fmap sh_combined (λ z, is_nan z = false)), <- Hp, Forall_fmap. intros Hn. specialize (H3 Hn).
  apply (Forall_fmap sh_combined (λ z, flt z lo = false ∧ flt hi z = false)). rewrite <- Hp. by apply Forall_fmap.
Qed.

Lemma range_extremes (l : list scoredHit) lo0 hi0 :
  let '(lo, hi) := foldl (λ acc s,
      (if flt (sh_combined s) acc.1 then sh_combined s else acc.1,
       if fgt (sh_combined s) acc.2 then sh_combined s else acc.2)) (lo0, hi0) l in
  (lo = lo0 ∨ lo ∈ sh_combined <$> l) ∧ (hi = hi0 ∨ hi ∈ sh_combined <$> l) ∧
  (is_nan lo0 = false → is_nan hi0 = false → Forall (λ s, is_nan (sh_combined s) = false) l →
   flt lo0 lo = false ∧ flt hi hi0 = false ∧ is_nan lo = false ∧ is_nan hi = false ∧
   Forall (λ s, flt (sh_combined s) lo = false ∧ flt hi (sh_combined s) = false) l).
Proof.
  revert lo0 hi0. induction l as [|s l IH]; intros lo0 hi0; cbn [foldl]; [by split_and!; auto; intros; rewrite !flt_irrefl|]. cbn [fst snd].
  set (lo1 := if flt _ _ then _ else _). set (hi1 := if fgt _ _ then _ else _). specialize (IH lo1 hi1).
  destruct (foldl _ (lo1, hi1) l) as [lo hi]. destruct IH as (H1 & H2 & H3). cbn [fmap list_fmap]. split_and!.
  - destruct H1 as [->|]; [|right; by right]. unfold lo1. destruct (flt _ _); [right; by left|by left].
  - destruct H2 as [->|]; [|right; by right]. unfold hi1. destruct (fgt _ _); [right; by left|by left].
  - intros Hl Hh [Hs Hn]%Forall_cons.
    assert (L : is_nan lo1 = false ∧ flt lo0 lo1 = false ∧ flt (sh_combined s) lo1 = false).
    { unfold lo1. destruct (flt _ lo0) eqn:E; split_and!; try done; try apply flt_irrefl. by apply flt_asym. }
    assert (H : is_nan hi1 = false ∧ flt hi1 hi0 = false ∧ flt hi1 (sh_combined s) = false).
    { unfold hi1, fgt. fold (flt hi0 (sh_combined s)). destruct (flt hi0 _) eqn:E; split_and!; try done; try apply flt_irrefl. by apply flt_asym. }
    destruct L as (L1 & L2 & L3), H as (K1 & K2 & K3). destruct (H3 L1 K1 Hn) as (G1 & G2 & G3 & G4 & G5).
    split_and!; [by apply (nlt_trans lo lo1 lo0)|by apply (nlt_trans hi0 hi1 hi)|done|done|].
    constructor; [|done]. split; [by apply (nlt_trans lo lo1 (sh_combined s))|by apply (nlt_trans (sh_combined s) hi1 hi)].
Qed.

Lemma normalizeRelevance_hits scored : sh_hit <$> normalizeRelevance scored = sh_hit <$> scored.
Proof.
  destruct scored as [|s l]; [done|]. unfold normalizeRelevance. destruct (foldl _ _ _) as [lo hi].
  by rewrite <-list_fmap_compose.
Qed.

Lemma rank_scored_perm p scored : sh_hit <$> rank_scored p scored ≡ₚ sh_hit <$> scored.
Proof.
  unfold rank_scored. case_bool_decide; [unfold sortByEventStart; by rewrite sort_less_perm|]. destruct (_ && _).
  - by rewrite mmrReorder_perm, normalizeRelevance_hits, sort_desc_perm.
  - by rewrite sort_desc_perm.
Qed.

(** A hit without what the ranking publishes on it. *)
Definition bare (h : Hit) : Hit := publish fzero "" ∅ h.

Lemma bare_applied p s : bare (applyExplanation p s) = bare (sh_hit s).
Proof. done. Qed.

Lemma bare_inj_eligible p h h' : bare h = bare h' → eligible p h = eligible p h'.
Proof.
  intros E. assert (∀ x, eligible p x = eligible p (bare x)) as Hb by done. by rewrite Hb, E, <-Hb.
Qed.

Lemma scored_hits p lo hi (l : list Hit) : sh_hit <$> ((λ h, scoreCandidate h p lo hi) <$> l) = l.
Proof.
  rewrite <-list_fmap_compose. etrans; [|apply list_fmap_id]. apply list_fmap_ext. intros _ h _. cbn.
  unfold scoreCandidate. by destruct (preferenceMatch _ _ _ _ _).
Qed.

(** Events in order of their start, those without one last. *)
Definition chronological (h h' : Hit) : Prop :=
  match flexibleTime (md_str (hit_Metadata h) "start"), flexibleTime (md_str (hit_Metadata h') "start") with
  | Some a, Some b => a <= b
  | None, Some _ => False
  | _, None => True
  end.

#[local] Instance chronological_trans : Transitive (λ a b, chronological (sh_hit a) (sh_hit b)).
Proof.
  intros a b c. unfold chronological.
  destruct (flexibleTime (md_str (hit_Metadata (sh_hit a)) _)), (flexibleTime (md_str (hit_Metadata (sh_hit b)) _)),
    (flexibleTime (md_str (hit_Metadata (sh_hit c)) _)); try done. lia.
Qed.

Lemma event_order scored : StronglySorted (λ a b, chronological (sh_hit a) (sh_hit b)) (sortByEventStart scored).
Proof.
  apply sort_less_sorted; [apply _|..]; intros x y; unfold starts_before, event_start, chronological;
    destruct (flexibleTime _) as [ti|], (flexibleTime _) as [tj|]; try done;
    destruct (Z.eqb_spec ti tj); destruct (Z.ltb_spec ti tj); intros; try done; lia.
Qed.

Lemma StronglySorted_fmap {A B} (f : A → B) (R : relation B) l :
  StronglySorted (λ a b, R (f a) (f b)) l → StronglySorted R (f <$> l).
Proof.
  induction 1 as [|x l _ IH Hx]; cbn; constructor; [done|]. by apply Forall_fmap.
Qed.

Lemma attentionPageLimit_bounds limit s :
  attentionPageLimit limit s <= limit ∧ Z.min 3 limit <= attentionPageLimit limit s.
Proof.
  unfold attentionPageLimit. set (o := if _ <? 3 then _ else _). assert (3 <= o).
  { unfold o. destruct (Z.ltb_spec (wrap32 (ftrunc (fmul (float_of_Z limit) (fsub fone (fmul (frac 75 100) s))))) 3); lia. }
  destruct (Z.ltb_spec limit o); lia.
Qed.

Lemma effLimit_bounds p : effLimit p <= pp_limit p ∧ Z.min 3 (pp_limit p) <= effLimit p.
Proof. unfold effLimit. case_bool_decide; [apply attentionPageLimit_bounds|lia]. Qed.

(** The ranking the pages are cut from. *)
Definition ranking (hits : list Hit) (p : personalizeParams) : list scoredHit :=
  let candidates := filterCandidates hits p in
  rank_scored p ((λ h, scoreCandidate h p (scoreRange candidates).1 (scoreRange candidates).2) <$> candidates).

Lemma ranking_hits hits p : sh_hit <$> ranking hits p ≡ₚ filterCandidates hits p.
Proof. unfold ranking. by rewrite rank_scored_perm, scored_hits. Qed.

Lemma ranking_length hits p : length (ranking hits p) = length (filterCandidates hits p).
Proof. rewrite <-(ranking_hits hits p). by rewrite length_fmap. Qed.

Lemma rank_value hits p :
  personalizeRank Alive hits p =
  (pageHits (applyExplanation p <$> ranking hits p) (pp_offset p) (effLimit p),
   Z.of_nat (length (filterCandidates hits p))).
Proof.
  unfold personalizeRank, ranking. destruct (scoreRange _) as [lo hi]. cbn [fst snd]. by rewrite length_fmap.
Qed.

(** Without novelty the published scores are the combined ones, in order. *)
Lemma ranking_by_score hits p :
  pp_intent p ≠ intentScheduleLookup → fgt (pr_NoveltyVsFamiliarity (pp_profile p)) fzero = false →
  Forall (λ h, is_nan (hit_Score h) = false) (applyExplanation p <$> ranking hits p) →
  StronglySorted (λ a b, flt (hit_Score a) (hit_Score b) = false) (applyExplanation p <$> ranking hits p).
Proof.
  intros Hi Hn HF'.
  assert (Forall (λ s, sh_rankScore s = sh_combined s) (ranking hits p)) as Heq.
  { unfold ranking, rank_scored. rewrite bool_decide_eq_false_2 by done. rewrite Hn. cbn [andb].
    rewrite sort_desc_perm. apply Forall_fmap, Forall_true. intros h.
    unfold compose, scoreCandidate. by destruct (preferenceMatch _ _ _ _ _). }
  assert (Forall (λ s, is_nan (sh_combined s) = false) (ranking hits p)) as HF.
  { apply Forall_fmap in HF'. rewrite Forall_forall in *. intros s Hs. rewrite <-(Heq s Hs). by apply HF'. }
  clear HF'. apply StronglySorted_fmap. cbn [applyExplanation publish hit_Score].
  assert (StronglySorted (λ a b, flt (sh_combined a) (sh_combined b) = false) (ranking hits p)) as Hs.
  { revert HF. unfold ranking, rank_scored. rewrite bool_decide_eq_false_2 by done. rewrite Hn. cbn [andb].
    intros HF. rewrite sort_desc_perm in HF. by apply sort_desc_sorted. }
  clear HF. revert Heq. induction Hs as [|s l _ IH Hl]; intros Heq; constructor; apply Forall_cons in Heq as [Hs Heq].
  { auto. }
  rewrite Forall_forall in *. intros x Hx. rewrite Hs, (Heq x Hx). by apply Hl.
Qed.

(** With novelty the order is greedy, on relevances scaled between the least and
    the greatest combined score. *)
Lemma mmrReorder_alike scored n : ∃ l', Forall2 alike (mmrReorder scored n) l' ∧ l' ≡ₚ scored.
Proof.
  unfold mmrReorder. destruct (mmr_loop_alike n (length scored)
    ((λ s, mkItem s (redundancyTokens (hit_Title (sh_hit s) +:+ " " +:+ stripHighlights (hit_Snippet (sh_hit s)))) fzero) <$> scored))
    as (l' & Ha & Hp); [by rewrite length_fmap|]. exists l'. split; [done|]. rewrite Hp, <-list_fmap_compose. by rewrite list_fmap_id.
Qed.

Definition scaled (lo hi : float64) (order : list scoredHit) : Prop :=
  extremes lo hi order ∧ Forall (λ s, sh_relNorm s = normalizedRelevance (sh_combined s) lo hi) order.

Lemma normalize_scaled scored : scored ≠ [] → ∃ lo hi, scaled lo hi (normalizeRelevance scored).
Proof.
  intros Hne. destruct scored as [|s l]; [done|]. unfold normalizeRelevance.
  pose proof (range_extremes (s :: l) (sh_combined s) (sh_combined s)) as H. destruct (foldl _ _ _) as [lo hi]. destruct H as (H1 & H2 & H3).
  exists lo, hi. split; [|by apply Forall_fmap, Forall_true].
  apply (extremes_perm lo hi (s :: l)); [by rewrite <-list_fmap_compose|]. split_and!.
  - destruct H1 as [->|]; [by left|done].
  - destruct H2 as [->|]; [by left|done].
  - intros Hn. pose proof (Forall_inv Hn) as Hs. by apply H3.
Qed.

Lemma scaled_alike lo hi l1 l2 : Forall2 alike l1 l2 → scaled lo hi l2 → scaled lo hi l1.
Proof.
  intros Ha [He Hs]. split.
  - eapply extremes_perm; [|exact He]. assert (sh_combined <$> l1 = sh_combined <$> l2) as ->; [|done].
    clear He Hs. induction Ha as [|x y l1 l2 (_ & _ & _ & _ & E) _ IH]; cbn; [done|]. by rewrite E, IH.
  - clear He. induction Ha as [|x y l1 l2 (_ & E' & _ & _ & E) _ IH]; [done|]. apply Forall_cons in Hs as [Hy Hs].
    constructor; [by rewrite E', E|by apply IH].
Qed.

Lemma ranking_greedy hits p :
  pp_intent p ≠ intentScheduleLookup → fgt (pr_NoveltyVsFamiliarity (pp_profile p)) fzero = true → (1 < length (ranking hits p))%nat →
  greedy (pr_NoveltyVsFamiliarity (pp_profile p)) [] (ranking hits p) ∧ ∃ lo hi, scaled lo hi (ranking hits p).
Proof.
  intros Hi Hn Hl. rewrite ranking_length in Hl. unfold ranking, rank_scored. rewrite bool_decide_eq_false_2 by done. rewrite Hn. cbn [andb].
  rewrite bool_decide_eq_true_2 by (rewrite sort_desc_length, length_fmap; done).
  split; [apply mmrReorder_greedy|]. set (sorted := sort_desc _ _).
  destruct (normalize_scaled sorted) as (lo & hi & Hs); [intros E; apply (f_equal length) in E; unfold sorted in E; rewrite sort_desc_length, length_fmap in E; cbn in E; lia|].
  exists lo, hi. destruct (mmrReorder_alike (normalizeRelevance sorted) (pr_NoveltyVsFamiliarity (pp_profile p))) as (l' & Ha & Hp).
  apply (scaled_alike _ _ _ l' Ha). destruct Hs as [He Hr]. split; [|by rewrite Hp].
  eapply extremes_perm; [|exact He]. by rewrite Hp.
Qed.

Definition unmuted (profile : Profile) (h : Hit) : Prop :=
  IsMutedSource profile (docType_String (hit_Type h)) = false ∧
  (md_str (hit_Metadata h) "from" ≠ "" → IsMutedPerson profile [md_str (hit_Metadata h) "from"] = false).

(** The event of a hit overlaps the window. *)
Definition in_window (w : timeWindow) (h : Hit) : Prop :=
  ∃ start, flexibleTime (md_str (hit_Metadata h) "start") = Some start ∧
    calendarOverlaps start (default zeroTime (flexibleTime (md_str (hit_Metadata h) "end"))) w = true.

Lemma eligible_unmuted p h : eligible p h = true → unmuted (pp_profile p) h.
Proof.
  unfold eligible. rewrite !andb_true_iff, !negb_true_iff. intros [[[H1 H2] _] _]. split; [done|].
  intros Hf. apply String.eqb_neq in Hf. by rewrite Hf in H2.
Qed.

Lemma eligible_in_window p h :
  pp_intent p = intentScheduleLookup → win_isZero (pp_window p) = false →
  eligible p h = true → in_window (pp_window p) h.
Proof.
  unfold eligible, in_window. intros -> Hw. rewrite !andb_true_iff, !negb_true_iff. intros [[_ H] _].
  rewrite Hw, bool_decide_eq_true_2 in H by done. cbn [andb negb] in H.
  destruct (flexibleTime _) as [start|]; [|done]. exists start. split; [done|]. by apply negb_false_iff.
Qed.

Lemma ranking_eligible hits p : Forall (λ h, eligible p h = true) (applyExplanation p <$> ranking hits p).
Proof.
  apply Forall_fmap. unfold compose. apply Forall_forall. intros s Hs.
  rewrite (bare_inj_eligible p _ (sh_hit s)) by apply bare_applied.
  apply (list_elem_of_fmap_2 sh_hit) in Hs. rewrite ranking_hits in Hs.
  unfold filterCandidates in Hs. rewrite list_elem_of_In, List.filter_In in Hs. tauto.
Qed.

(** C24. The personalized page is a window of one ranking: the ranking holds
    exactly the eligible candidates, each once and unchanged but for its
    published score, explanation and features; the total is their number;
    nothing muted appears; a schedule lookup lists only events of its window,
    by start time; otherwise, with novelty asked (as the default profile does)
    and two candidates or more, the ranking is the greedy order of marginal
    relevance: every hit is published with its utility given the hits before
    it, and no later hit has a greater one there; without novelty the published
    scores descend; and the page is never longer than the limit nor shorter
    than three of it.  The two order clauses exclude NaN scores. *)
Theorem personalized_page hits p :
  0 <= pp_offset p → 0 <= pp_limit p → pp_offset p + pp_limit p < 2 ^ 31 → Z.of_nat (length hits) < 2 ^ 31 →
  ∃ ranked : list Hit,
    personalizeRank Alive hits p =
      (take (Z.to_nat (effLimit p)) (drop (Z.to_nat (pp_offset p)) ranked), Z.of_nat (length ranked)) ∧
    bare <$> ranked ≡ₚ bare <$> List.filter (eligible p) hits ∧
    Forall (unmuted (pp_profile p)) ranked ∧
    (pp_intent p = intentScheduleLookup →
     StronglySorted chronological ranked ∧
     (win_isZero (pp_window p) = false → Forall (in_window (pp_window p)) ranked)) ∧
    (pp_intent p ≠ intentScheduleLookup → fgt (pr_NoveltyVsFamiliarity (pp_profile p)) fzero = true → (1 < length ranked)%nat →
     ∃ order, ranked = applyExplanation p <$> order ∧ greedy (pr_NoveltyVsFamiliarity (pp_profile p)) [] order ∧
       (∃ lo hi, scaled lo hi order) ∧ hit_Score <$> ranked = sh_rankScore <$> order) ∧
    (pp_intent p ≠ intentScheduleLookup → fgt (pr_NoveltyVsFamiliarity (pp_profile p)) fzero = false →
     Forall (λ h, is_nan (hit_Score h) = false) ranked →
     StronglySorted (λ a b, flt (hit_Score a) (hit_Score b) = false) ranked) ∧
    effLimit p <= pp_limit p ∧ Z.min 3 (pp_limit p) <= effLimit p.
Proof.
  intros Ho Hl Hol Hn. exists (applyExplanation p <$> ranking hits p).
  pose proof (effLimit_bounds p) as [Hb1 Hb2]. pose proof (ranking_eligible hits p) as He.
  assert (length (filterCandidates hits p) <= length hits)%nat as Hf by apply List.filter_length_le.
  repeat split_and.
  - rewrite rank_value, pageHits_window, length_fmap, ranking_length; [done|lia..|].
    rewrite length_fmap, ranking_length. lia.
  - rewrite <-list_fmap_compose. change (bare ∘ applyExplanation p) with (bare ∘ sh_hit).
    by rewrite list_fmap_compose, ranking_hits.
  - eapply Forall_impl; [exact He|]. apply eligible_unmuted.
  - intros Hi. split.
    + apply StronglySorted_fmap. unfold ranking, rank_scored. rewrite bool_decide_eq_true_2 by done.
      apply event_order.
    + intros Hw. eapply Forall_impl; [exact He|]. intros h. by apply eligible_in_window.
  - intros Hi Hnov Hlen. rewrite length_fmap in Hlen. exists (ranking hits p). destruct (ranking_greedy hits p Hi Hnov Hlen) as [Hg Hs].
    split_and!; [done|done|done|]. by rewrite <-list_fmap_compose.
  - apply ranking_by_score.
  - done.
  - done.
Qed.

(** A needs-attention page is cut to [effLimit] while the next page starts a
    whole limit later: what ranks between is on neither. *)
Lemma attention_pages_gap hits p :
  0 <= pp_offset p → 0 <= pp_limit p → pp_offset p + 2 * pp_limit p < 2 ^ 31 → Z.of_nat (length hits) < 2 ^ 31 →
  let next := mkParams (pp_profile p) (pp_model p) (pp_intent p) (pp_window p) (pp_now p) (pp_halfLife p)
    (pp_debug p) (pp_limit p) (pp_offset p + pp_limit p) in
  let ranked := applyExplanation p <$> ranking hits p in
  (personalizeRank Alive hits p).1 ++
    take (Z.to_nat (pp_limit p - effLimit p)) (drop (Z.to_nat (pp_offset p + effLimit p)) ranked) ++
    (personalizeRank Alive hits next).1 =
  take (Z.to_nat (pp_limit p + effLimit p)) (drop (Z.to_nat (pp_offset p)) ranked).
Proof.
  intros Ho Hl Hol Hn next ranked. pose proof (effLimit_bounds p) as [Hb1 Hb2].
  assert (length (filterCandidates hits p) <= length hits)%nat as Hf by apply List.filter_length_le.
  assert (Z.of_nat (length ranked) < 2 ^ 31) by (unfold ranked; rewrite length_fmap, ranking_length; lia).
  rewrite !rank_value. cbn [fst]. change (applyExplanation next <$> ranking hits next) with ranked.
  change (effLimit next) with (effLimit p). fold ranked. rewrite !pageHits_window by (cbn; lia). cbn [pp_offset next].
  replace (Z.to_nat (pp_offset p + effLimit p)) with (Z.to_nat (pp_offset p) + Z.to_nat (effLimit p))%nat by lia.
  replace (Z.to_nat (pp_offset p + pp_limit p))
    with (Z.to_nat (pp_offset p) + Z.to_nat (effLimit p) + Z.to_nat (pp_limit p - effLimit p))%nat by lia.
  replace (Z.to_nat (pp_limit p + effLimit p))
    with (Z.to_nat (effLimit p) + (Z.to_nat (pp_limit p - effLimit p) + Z.to_nat (effLimit p)))%nat by lia.
  rewrite <-!drop_drop. set (l := drop (Z.to_nat (pp_offset p)) ranked).
  by rewrite <-!take_take_drop.
Qed.
End page.

(** ** A concrete page *)
#[local] Instance demo_casing : Casing := {| ToLower s := s; ToUpper s := s |}.
#[local] Instance demo_folding : Folding := {| fold_eq := String.eqb |}.
#[local] Instance demo_letters : Letters :=
  {| IsLetter r := (97 <=? r) && (r <=? 122); IsNumber r := (48 <=? r) && (r <=? 57); IsMark _ := false |}.
#[local] Instance demo_exp : MathExp := {| Exp _ := fone |}.
#[local] Instance demo_exp2 : FloatMath := {| Exp2 _ := fone |}.

Definition demo_hit (id from : string) (score : float64) : Hit :=
  mkHit id "gmail" EMAIL "status report" "weekly" score None None {[ "from" := from ]} 0 0 "" "" "" ∅.

Definition demo_profile (novelty : float64) : Profile :=
  mkProfile 1 ∅ [] [] (mkMute ["bob@x"] [] []) [] "" (mkHours 9 17) fzero fzero novelty false DefaultWeights.

Definition demo_params (novelty : float64) : personalizeParams :=
  mkParams (demo_profile novelty) zeroModel intentFindItem (mkWindow zeroTime zeroTime) 0 day false 20 0.

Definition demo_hits : list Hit :=
  [demo_hit "d1" "ann@x" (frac 1 10); demo_hit "d2" "bob@x" (frac 9 10); demo_hit "d3" "ann@x" (frac 5 10)].

Lemma personalized_page_witness :
  (hit_DocId <$> (personalizeRank Alive demo_hits (demo_params fzero)).1) = ["d3"; "d1"] ∧
  (hit_DocId <$> (personalizeRank Alive demo_hits (demo_params (frac 15 100))).1) = ["d3"; "d1"] ∧
  ∃ ranked : list Hit,
    personalizeRank Alive demo_hits (demo_params (frac 15 100)) = (take 20 ranked, Z.of_nat (length ranked)) ∧
    bare <$> ranked ≡ₚ bare <$> List.filter (eligible (demo_params (frac 15 100))) demo_hits ∧
    ∃ order, ranked = applyExplanation (demo_params (frac 15 100)) <$> order ∧
      greedy (pr_NoveltyVsFamiliarity (pp_profile (demo_params (frac 15 100)))) [] order.
Proof.
  split; [vm_compute; reflexivity|]. split; [vm_compute; reflexivity|].
  destruct (personalized_page demo_hits (demo_params (frac 15 100))) as (ranked & E & Hp & _ & _ & Hg & _);
    [vm_compute; congruence|vm_compute; congruence|vm_compute; reflexivity|vm_compute; reflexivity|].
  assert (Hl : length ranked = 2%nat).
  { apply (f_equal snd) in E. cbn [snd] in E. apply Nat2Z.inj. rewrite <- E. vm_compute. reflexivity. }
  exists ranked. split; [exact E|]. split; [exact Hp|].
  destruct Hg as (order & Ho & Hg & _); [discriminate|vm_compute; reflexivity|rewrite Hl; constructor|]. exists order. split; [exact Ho|exact Hg].
Defined.
