(* ===== verification/QueryModels.v ===== *)
(** * Model services of the query path

    Models [services/query/embed.go], [clip.go], [reranker.go],
    [model_deadline.go] (the HTTP clients of the embedding and reranking
    services), [rerank_model.go] and [rerank_query.go] (the cross-encoder pass
    with its typo recovery), [candidate_debug.go] and [personalization_store.go].
    The services, the JSON decoders and Redis are parameters. *)

From stdpp Require Import base gmap strings list pretty sets sorting.
From Stdlib Require Import Ascii ZArith Lia.
From S2P Require Import Prelude GoStrings Tenancy Crypto ControlPlane Erasure Document Interleave GoTime GoText GoFloat GoDate QueryVespa QueryRank QueryPlan QueryScope Personalization.

Open Scope Z_scope.

(** ** Clients *)

(** What is posted: [{"inputs":[..]}] or [{"query":..,"documents":[..]}]. *)
Inductive payload := PInputs (texts : list string) | PRerank (query : string) (documents : list string).

(** What came back: an error of the transport, or a status and a body. *)
Inductive model_reply := RFailed (text : string) | RResponse (status : Z) (body : bytes).

(** The world of the services: whether a URL is one a request can be built
    for, the time left of the call's deadline, and the exchange, which carries
    the X-Request-Timeout-Ms header. *)
Class ModelAPI (W : Type) := {
  url_error : string → option string;
  model_left : Inp → Z;
  model_Do : Inp → string → payload → Z → W → model_reply * W
}.

(** [json.Decoder] on the three shapes; vectors as bit patterns. *)
Class InferenceJson := {
  dec_vectors : bytes → result string (list (list Z));
  dec_embeddings : bytes → result string (list (list Z));
  dec_scores : bytes → result string (list float64)
}.

(** Errors: the sentinels [errEmbedDim], [errClipDim] and [errRerankShape],
    a context error, any other. *)
Inductive ModelErr :=
| ME_Dim (text : string) | ME_Shape (text : string) | ME_Ctx (prefix : string) (e : CtxErr) | ME_Msg (text : string).

(** The [Error] texts of the context errors. *)
Definition ctxErr_text (e : CtxErr) : string :=
  match e with Canceled => "context canceled" | DeadlineExceeded => "context deadline exceeded" end.

Definition ModelErr_text (e : ModelErr) : string :=
  match e with ME_Dim t | ME_Shape t | ME_Msg t => t | ME_Ctx prefix e => prefix +:+ ctxErr_text e end.

Definition setRequestTimeoutHeader (err : option CtxErr) (left : Z) : result CtxErr Z :=
  match err with
  | Some e => Err e
  | None =>
    let ms := Z.quot left millisecond in
    if ms <=? 0 then Err DeadlineExceeded else Ok ms
  end.

Section clients.
Context {W : Type} `{!ModelAPI W} `{!InferenceJson}.

(** The exchange the three clients share: build, set the header, send, and
    refuse any status but 200. *)
Definition post (name url : string) (p : payload) : prog W (result ModelErr bytes) :=
  match url_error url with
  | Some e => Ret (Err (ME_Msg (name +:+ ": build request: " +:+ e)))
  | None =>
    Atomic _ (input (λ i, setRequestTimeoutHeader (in_ctx i) (model_left i))) (λ hdr,
    match hdr with
    | Err e => Ret (Err (ME_Ctx (name +:+ ": ") e))
    | Ok ms =>
      Atomic _ (λ i w, model_Do i url p ms w) (λ r,
      Ret match r with
      | RFailed e => Err (ME_Msg (name +:+ ": " +:+ e))
      | RResponse st body =>
        if negb (st =? 200) then
          Err (ME_Msg (name +:+ ": status " +:+ pretty st +:+ ": " +:+ TrimSpace (of_bytes (take 512 body))))
        else Ok body
      end)
    end)
  end.

(** The vector of a batch of one, of the configured dimension; [mismatch] words
    the error for another. *)
Definition single_vector (name what : string) (mismatch : string * string * string) (dim : nat) (vs : result string (list (list Z))) : result ModelErr (list Z) :=
  match vs with
  | Err e => Err (ME_Msg (name +:+ ": decode response: " +:+ e))
  | Ok [v] => if negb (Nat.eqb (length v) dim) 
      then Err (ME_Dim (mismatch.1.1 +:+ pretty (length v) +:+ mismatch.1.2 +:+ pretty dim +:+ mismatch.2)) else Ok v
  | Ok vs => Err (ME_Msg (name +:+ ": got " +:+ pretty (length vs) +:+ " " +:+ what +:+ " for 1 input"))
  end.

Definition then_decode {A} (r : result ModelErr bytes) (dec : bytes → result ModelErr A) : result ModelErr A :=
  match r with Err e => Err e | Ok body => dec body end.

Definition Embed (baseURL : string) (dim : nat) (text : string) : prog W (result ModelErr (list Z)) :=
  bind (post "tei" (TrimRightSlash baseURL +:+ "/embed") (PInputs [text])) (λ r,
  Ret (then_decode r (λ body, single_vector "tei" "vectors"
    ("embedding dimension mismatch: TEI returned ", " values, EMBEDDING_DIM=",
     " (ADR-005: EMBEDDING_DIM must match the served model)") dim (dec_vectors body)))).

Definition EmbedText (baseURL : string) (dim : nat) (text : string) : prog W (result ModelErr (list Z)) :=
  bind (post "clip" (TrimRightSlash baseURL +:+ "/embed/text") (PInputs [text])) (λ r,
  Ret (then_decode r (λ body, single_vector "clip" "embeddings"
    ("clip embedding dimension mismatch: clip returned ", " values, CLIP_DIM=",
     " (ADR-013: CLIP_DIM must match the served model)") dim (dec_embeddings body)))).

Definition Rerank (baseURL query : string) (documents : list string) : prog W (result ModelErr (list float64)) :=
  match documents with
  | [] => Ret (Ok [])
  | _ =>
    bind (post "reranker" (TrimRightSlash baseURL +:+ "/rerank") (PRerank query documents)) (λ r,
    Ret (then_decode r (λ body,
      match dec_scores body with
      | Err e => Err (ME_Msg ("reranker: decode response: " +:+ e))
      | Ok scores =>
        if negb (Nat.eqb (length scores) (length documents))
        then Err (ME_Shape ("reranker response shape mismatch: got " +:+ pretty (length scores) +:+ " scores for " +:+
               pretty (length documents) +:+ " documents"))
        else Ok scores
      end)))
  end.
End clients.

(** ** Typo recovery *)
Definition correctionStopwords : list string :=
  ["after"; "before"; "because"; "where"; "which"; "while"; "would"; "could"; "these"; "those";
   "their"; "there"; "other"; "under"; "until"].

Definition lower_letter (r : Z) : bool := (97 <=? r) && (r <=? 122).

Definition softCorrectionWord (word : string) : bool :=
  if bool_decide (String.length word < 5)%nat || bool_decide (24 < String.length word)%nat then false
  else forallb (λ p, lower_letter p.1) (runes word).

(** The scan of two texts of one length: [first] is the first index that
    differs. *)
Fixpoint edit_scan (a0 b0 : bytes) (i : nat) (first : option nat) (a b : bytes) : bool :=
  match a, b with
  | x :: a', y :: b' =>
    if Ascii.eqb x y then edit_scan a0 b0 (S i) first a' b'
    else match first with
    | None => edit_scan a0 b0 (S i) (Some i) a' b'
    | Some f =>
      Nat.eqb i (S f) && bool_decide (a0 !! f = Some y) && bool_decide (b0 !! f = Some x) && bool_decide (a' = b')
    end
  | _, _ => bool_decide (is_Some first)
  end.

(** The scan of a text against one a byte longer, of which one byte may be
    skipped. *)
Fixpoint skip_scan (skipped : bool) (a b : bytes) : bool :=
  match a, b with
  | [], _ => true
  | _, [] => false
  | x :: a', y :: b' =>
    if Ascii.eqb x y then skip_scan skipped a' b'
    else if skipped then false else skip_scan true a b'
  end.

Definition edit_apart (a b : bytes) : bool :=
  if bool_decide (a = b) || bool_decide (length b + 1 < length a)%nat || bool_decide (length a + 1 < length b)%nat then false
  else if Nat.eqb (length a) (length b) then edit_scan a b 0 None a b
  else if bool_decide (length b < length a)%nat then skip_scan false b a else skip_scan false a b.

Definition oneEditApart (a b : string) : bool := edit_apart (to_bytes a) (to_bytes b).

(** [strings.Replace(s, old, by, 1)] *)
Definition ReplaceOnce (s old by_ : string) : string :=
  match Index s old with
  | Some i => take_str i s +:+ by_ +:+ drop_str (i + String.length old) s
  | None => s
  end.

Section rerank_query.
Context {Ca : Casing}.

Definition maxVocabulary : nat := 2048.

(** The words of one title, each once, into the vocabulary. *)
Fixpoint count_words (freq : gmap string nat) (seen : list string) (ws : list string) : gmap string nat :=
  match ws with
  | [] => freq
  | w :: ws' =>
    if negb (softCorrectionWord w) || existsb (String.eqb w) seen then count_words freq seen ws'
    else
      let freq := match freq !! w with
        | Some n => <[w := S n]> freq
        | None => if bool_decide (size freq < maxVocabulary)%nat then <[w := 1%nat]> freq else freq
        end in
      count_words freq (w :: seen) ws'
  end.

Definition title_words (title : string) : list string :=
  FieldsFunc (ToLower (truncateRunes title 256)) (λ r, negb (lower_letter r)).

Fixpoint vocabulary (freq : gmap string nat) (seen : list string) (head : list Hit) : gmap string nat :=
  match head with
  | [] => freq
  | h :: head' =>
    let id := hit_DocId h in
    if String.eqb id "" || existsb (String.eqb id) seen then vocabulary freq seen head'
    else vocabulary (count_words freq [] (title_words (hit_Title h))) (id :: seen) head'
  end.

Definition trim_token (token : string) : string := Trim token ".,?!()[]{};".

Definition stopword (w : string) : bool :=
  existsb (String.eqb w) intentStopwords || existsb (String.eqb w) correctionStopwords.

Definition anchored (freq : gmap string nat) (words : list string) : bool :=
  existsb (λ token,
    let w := ToLower (trim_token token) in
    softCorrectionWord w && bool_decide (2 <= default 0 (freq !! w))%nat && negb (stopword w)) words.

(** The one known word an edit away that two titles support. *)
Definition correction (freq : gmap string nat) (word : string) : option string :=
  match List.filter (λ kv, bool_decide (2 <= kv.2)%nat && oneEditApart word kv.1) (map_to_list freq) with
  | [kv] => Some kv.1
  | _ => None
  end.

Definition correct_token (freq : gmap string nat) (token : string) : option string :=
  let word := trim_token token in
  if negb (softCorrectionWord word) || bool_decide (is_Some (freq !! word)) || stopword word then None
  else (λ c, ReplaceOnce token word c) <$> correction freq word.

(** At most [limit] corrections; the count of those made. *)
Fixpoint correct_words (freq : gmap string nat) (limit : nat) (words : list string) : list string * nat :=
  match limit, words with
  | O, _ => (words, 0%nat)
  | _, [] => ([], 0%nat)
  | S limit', w :: words' =>
    match correct_token freq w with
    | Some w' => let '(ws, n) := correct_words freq limit' words' in (w' :: ws, S n)
    | None => let '(ws, n) := correct_words freq limit words' in (w :: ws, n)
    end
  end.

(** [cancelled]: some check of the pass saw the context done. *)
Definition correctRerankQuery (cancelled : bool) (query : string) (head : list Hit) : string :=
  if cancelled || ContainsAny query (String quote "':") then query
  else
    let words := Fields query in
    if bool_decide (40 < length words)%nat then query
    else
      let freq := vocabulary ∅ [] head in
      let limit := if anchored freq words then 3%nat else 2%nat in
      let '(words', n) := correct_words freq limit words in
      if Nat.eqb n 0 then query else Join words' " ".
End rerank_query.

(** ** The cross-encoder pass *)
Definition rerankTitlePassage (title passage : string) (docChars : nat) : string :=
  let t := TrimSpace title in
  let s := stripHighlights passage in
  let b := if String.eqb s "" then t else if String.eqb t "" then s else t +:+ String "010" s in
  truncateRunes b docChars.

Definition rerankDocText (h : Hit) (docChars : nat) : string := rerankTitlePassage (hit_Title h) (hit_Snippet h) docChars.

(** The depth of the head: all hits when [maxCand] is not positive. *)
Definition head_depth (maxCand : Z) (hits : list Hit) : nat :=
  if (0 <? maxCand) && (maxCand <? Z.of_nat (length hits)) then Z.to_nat maxCand else length hits.

Definition rerank_doc (passages : gmap string string) (docChars : nat) (h : Hit) : string :=
  let p := default "" (passages !! hit_DocId h) in
  rerankTitlePassage (hit_Title h) (if String.eqb p "" then hit_Snippet h else p) docChars.

(** One scale for the whole order. *)
Definition ordinal (n i : nat) : float64 := fdiv (float_of_Z (Z.of_nat (n - i))) (float_of_Z (Z.of_nat n)).

Definition ordinal_scores (l : list Hit) : list Hit := imap (λ i h, set_score (ordinal (length l) i) h) l.

(** The head by descending model score, then the tail. *)
Definition reorder (n : nat) (hits : list Hit) (scores : list float64) : list Hit :=
  ordinal_scores ((fst <$> sort_desc snd (zip (take n hits) scores)) ++ drop n hits).

(** The client of the reranking service, or another implementation. *)
Class Reranker (W : Type) := { reranker_Rerank : string → list string → prog W (result ModelErr (list float64)) }.

Section apply.
Context {W : Type} {Rk : Reranker W} {Ca : Casing}.

Definition applyRerank (query : string) (hits : list Hit) (passages : gmap string string) (correctTypos : bool)
    (maxCand : Z) (docChars : nat) : prog W (result ModelErr (list Hit)) :=
  match hits with
  | [] => Ret (Ok hits)
  | _ =>
    Atomic _ (input in_ctx) (λ e, match e with Some e => Ret (Err (ME_Ctx "" e)) | None =>
    let n := head_depth maxCand hits in
    let docs := rerank_doc passages docChars <$> take n hits in
    Atomic _ (input in_ctx) (λ e0,
    let query := if correctTypos then correctRerankQuery (bool_decide (is_Some e0)) query (take n hits) else query in
    Atomic _ (input in_ctx) (λ e, match e with Some e => Ret (Err (ME_Ctx "" e)) | None =>
    bind (reranker_Rerank query docs) (λ r,
    match r with
    | Err e => Ret (Err e)
    | Ok scores =>
      if negb (Nat.eqb (length scores) n) then Ret (Err (ME_Shape "reranker response shape mismatch"))
      else Atomic _ (input in_ctx) (λ e, match e with Some e => Ret (Err (ME_Ctx "" e)) | None =>
        if existsb (λ s, is_nan s || is_inf s) scores then Ret (Err (ME_Shape "reranker response shape mismatch"))
        else Ret (Ok (reorder n hits scores))
      end)
    end)
    end))
    end)
  end.
End apply.

(** ** Candidate debug payload *)
Record candidateDebugPayload := mkDebug {
  cd_DocIDs : list string; cd_Count : Z; cd_Depth : Z; cd_Complete : bool
}.

Definition maxCandidateDebugBytes : nat := 4096.

(** [json.Marshal] of the payload, whose scope is "pre_rerank_head". *)
Class DebugJson := { debug_json : candidateDebugPayload → option bytes }.

Section debug.
Context {Dj : DebugJson}.

(** Drop ids from the end until the text fits; [ids] is reversed. The slice of
    an empty list panics: [None]. *)
Fixpoint debug_loop (rev_ids : list string) (count depth : Z) (complete : bool) : option (option bytes) :=
  match debug_json (mkDebug (rev rev_ids) count depth complete) with
  | None => Some None
  | Some data =>
    if bool_decide (length data <= maxCandidateDebugBytes)%nat then Some (Some data)
    else match rev_ids with
    | [] => None
    | _ :: rev_ids' => debug_loop rev_ids' count depth false
    end
  end.

Definition encodeCandidateDebug (hits : list Hit) (maxCand : Z) : option (option bytes) :=
  let depth := if 0 <? maxCand then Nat.min (length hits) (Z.to_nat maxCand) else length hits in
  debug_loop (rev (hit_DocId <$> take depth hits)) (Z.of_nat (length hits)) (Z.of_nat depth) true.
End debug.

(** ** Profiles *)

(** Redis GET: a value, or an error (a missing key is one). *)
Class ProfileStore (W : Type) := { redis_Get : Inp → string → W → option bytes * W }.

(** [json.Unmarshal]: a profile or an error; what it leaves in the zero model,
    also on an error; and the order a map is visited in. *)
Class ProfileJson := {
  json_profile : bytes → option Profile;
  json_into_model : bytes → LearnedModel;
  visit_order : Inp → gmap string float64 → list (string * float64)
}.

Section load.
Context {W : Type} {Ps : ProfileStore W} {Pj : ProfileJson} {Ca : Casing} {Zd : ZoneDB}.

Definition Load (tenant : TenantID) : prog W (Profile * LearnedModel) :=
  Atomic _ (input in_ctx) (λ e, match e with Some _ => Ret (DefaultProfile, zeroModel) | None =>
  Atomic _ (λ i w, let '(d, w) := redis_Get i (RedisProfileKey tenant) w in ((d, i), w)) (λ got,
  let profile := match got.1 with
    | Some data => match json_profile data with
      | Some p => Clamp (visit_order got.2 (pr_SourceWeights p)) p
      | None => DefaultProfile
      end
    | None => DefaultProfile
    end in
  Atomic _ (input in_ctx) (λ e, match e with Some _ => Ret (profile, zeroModel) | None =>
  Atomic _ (λ i w, redis_Get i (RedisWeightsKey tenant) w) (λ d,
  Ret (profile, match d with Some data => json_into_model data | None => zeroModel end))
  end))
  end).
End load.

(** * The rerank pass and typo recovery

    [oneEditApart] decides the one-edit relation, and [applyRerank] only
    reorders the head of the candidates by model score. *)

(** ** One edit *)
Inductive one_edit : bytes → bytes → Prop :=
| edit_substitute p x y s : x ≠ y → one_edit (p ++ x :: s) (p ++ y :: s)
| edit_transpose p x y s : x ≠ y → one_edit (p ++ x :: y :: s) (p ++ y :: x :: s)
| edit_insert p y s : one_edit (p ++ s) (p ++ y :: s)
| edit_delete p x s : one_edit (p ++ x :: s) (p ++ s).

Lemma one_edit_cons x a b : one_edit a b → one_edit (x :: a) (x :: b).
Proof. intros []; rewrite !app_comm_cons; by constructor. Qed.

Lemma skip_scan_true a : ∀ b, length a = length b → skip_scan true a b = true ↔ a = b.
Proof.
  induction a as [|x a IH]; intros [|y b] Hl; try done. injection Hl as Hl. cbn [skip_scan].
  destruct (Ascii.eqb_spec x y) as [->|Hn]; [rewrite IH by done; naive_solver|naive_solver].
Qed.

Lemma skip_scan_self s : ∀ y, skip_scan false s (y :: s) = true.
Proof.
  induction s as [|x s IH]; intros y; [done|]. cbn [skip_scan].
  destruct (Ascii.eqb_spec x y) as [->|]; [apply IH|]. rewrite Ascii.eqb_refl. by apply skip_scan_true.
Qed.

Lemma skip_scan_false a : ∀ b, length b = S (length a) →
  skip_scan false a b = true ↔ ∃ p y s, a = p ++ s ∧ b = p ++ y :: s.
Proof.
  intros b Hl. split.
  - revert b Hl. induction a as [|x a IH]; intros [|y b] Hl; try done.
    + intros _. destruct b; [|done]. by exists [], y, [].
    + injection Hl as Hl. cbn [skip_scan]. destruct (Ascii.eqb_spec x y) as [->|Hn].
      * intros H. apply IH in H as (p & z & s & -> & ->); [|done]. by exists (y :: p), z, s.
      * intros H. apply (skip_scan_true (x :: a)) in H as <-; [|by rewrite Hl]. by exists [], y, (x :: a).
  - intros (p & y & s & -> & ->). clear Hl. induction p as [|z p IH]; [apply skip_scan_self|].
    cbn [app skip_scan]. by rewrite Ascii.eqb_refl.
Qed.

(** Past the first difference. *)
Lemma edit_scan_some a0 b0 f a : ∀ b i, (f < i)%nat → length a = length b →
  edit_scan a0 b0 i (Some f) a b = true ↔
  a = b ∨ i = S f ∧ ∃ x y s, x ≠ y ∧ a = x :: s ∧ b = y :: s ∧ a0 !! f = Some y ∧ b0 !! f = Some x.
Proof.
  induction a as [|x a IH]; intros [|y b] i Hf Hl; try done; [cbn; naive_solver|].
  injection Hl as Hl. cbn [edit_scan]. destruct (Ascii.eqb_spec x y) as [->|Hn].
  - rewrite IH by (done || lia). split; [intros [->|[? _]]; [by left|lia]|].
    intros [[= ->]|(_ & ? & ? & ? & ? & ? & ? & _)]; [by left|naive_solver].
  - rewrite !andb_true_iff, Nat.eqb_eq, !bool_decide_eq_true. split.
    + intros [[[-> Ha] Hb] ->]. right. split; [done|]. by exists x, y, b.
    + intros [?|(-> & x' & y' & s & _ & [= -> ->] & [= -> ->] & ? & ?)]; [naive_solver|done].
Qed.

(** Up to it: the texts read so far agree. *)
Lemma edit_scan_none a : ∀ b pre, length a = length b →
  edit_scan (pre ++ a) (pre ++ b) (length pre) None a b = true ↔
  ∃ p x y s, x ≠ y ∧ (a = p ++ x :: s ∧ b = p ++ y :: s ∨ a = p ++ x :: y :: s ∧ b = p ++ y :: x :: s).
Proof.
  induction a as [|x a IH]; intros [|y b] pre Hl; try done.
  - cbn. split; [done|]. intros ([|] & ? & ? & ? & _ & [[? _]|[? _]]); done.
  - injection Hl as Hl. cbn [edit_scan]. destruct (Ascii.eqb_spec x y) as [->|Hn].
    + specialize (IH b (pre ++ [y]) Hl). rewrite length_app, Nat.add_comm in IH. cbn [length Nat.add] in IH.
      rewrite <-!app_assoc in IH. cbn [app] in IH. rewrite IH. split.
      * intros (p & u & v & s & ? & [[-> ->]|[-> ->]]); exists (y :: p), u, v, s; naive_solver.
      * intros ([|z p] & u & v & s & ? & [[??]|[??]]); simplify_eq/=; exists p, u, v, s; naive_solver.
    + rewrite edit_scan_some by (done || lia). split.
      * intros [->|(_ & u & v & s & ? & -> & -> & Ha & Hb)]; [exists [], x, y, b; naive_solver|].
        rewrite !list_lookup_middle in Ha, Hb by done. simplify_eq. exists [], v, u, s; naive_solver.
      * intros ([|z p] & u & v & s & ? & [[??]|[??]]); simplify_eq/=.
        -- by left.
        -- right. split; [done|]. exists v, u, s. by rewrite !list_lookup_middle.
Qed.

Lemma edit_scan_one_edit a b : length a = length b → edit_scan a b 0 None a b = true ↔ one_edit a b.
Proof.
  intros Hl. rewrite (edit_scan_none a b [] Hl). split.
  - intros (p & x & y & s & ? & [[-> ->]|[-> ->]]); by constructor.
  - intros H. destruct H as [p x y s|p x y s|p y s|p x s];
      [exists p, x, y, s; naive_solver|exists p, x, y, s; naive_solver|
       rewrite !length_app in Hl; cbn in Hl; lia..].
Qed.

Lemma one_edit_neq a b : one_edit a b → a ≠ b.
Proof.
  intros H Heq. assert (∀ p (x : ascii) s, length (p ++ x :: s) = S (length (p ++ s))) as Hlen
    by (intros; rewrite !length_app; cbn; lia).
  destruct H as [p x y s|p x y s|p y s|p x s].
  - apply app_inv_head in Heq. naive_solver.
  - apply app_inv_head in Heq. naive_solver.
  - apply (f_equal length) in Heq. rewrite Hlen in Heq. lia.
  - apply (f_equal length) in Heq. rewrite Hlen in Heq. lia.
Qed.

(** [oneEditApart] decides exactly the relation it names: one insertion,
    deletion, substitution or adjacent transposition of unequal bytes. *)
Theorem one_edit_apart_exact (a b : string) : oneEditApart a b = true ↔ one_edit (to_bytes a) (to_bytes b).
Proof.
  unfold oneEditApart. generalize (to_bytes a) (to_bytes b). clear a b. intros a b.
  unfold edit_apart. case_bool_decide as Hab; [subst; split; [done|]; by intros ?%one_edit_neq|]. cbn [orb].
  destruct (decide (length b + 1 < length a ∨ length a + 1 < length b)%nat) as [Hfar|Hnear].
  { replace (bool_decide _ || bool_decide _) with true
      by (destruct Hfar; [rewrite (bool_decide_eq_true_2 (length b + 1 < length a)%nat)
          |rewrite (bool_decide_eq_true_2 (length a + 1 < length b)%nat), orb_true_r]; done).
    split; [done|]. intros H. exfalso. destruct H; rewrite !length_app in Hfar; cbn in Hfar; lia. }
  rewrite !bool_decide_eq_false_2 by lia. cbn [orb]. destruct (Nat.eqb_spec (length a) (length b)) as [Hl|Hl].
  { by apply edit_scan_one_edit. }
  case_bool_decide; rewrite skip_scan_false by lia; (split; [intros (p & y & s & -> & ->); apply edit_insert || apply edit_delete|]);
    intros He; destruct He; rewrite ?length_app in *; cbn in *; try lia; eauto.
Qed.

(** ** The pass *)
Lemma zip_fst_take n (hits : list Hit) (scores : list float64) :
  length scores = length (take n hits) → fst <$> zip (take n hits) scores = take n hits.
Proof. intros. apply fst_zip. lia. Qed.

Lemma ordinal_scores_length l : length (ordinal_scores l) = length l.
Proof. apply length_imap. Qed.

Lemma ordinal_scores_lookup l i h :
  ordinal_scores l !! i = Some h → ∃ h0, l !! i = Some h0 ∧ h = set_score (ordinal (length l) i) h0.
Proof. unfold ordinal_scores. rewrite list_lookup_imap. destruct (l !! i) as [h0|]; naive_solver. Qed.

Lemma ordinal_scores_unscored l : set_score fzero <$> ordinal_scores l = set_score fzero <$> l.
Proof.
  apply list_eq. intros i. rewrite !list_lookup_fmap. unfold ordinal_scores. rewrite list_lookup_imap.
  by destruct (l !! i).
Qed.

Lemma reorder_length n hits scores :
  length scores = length (take n hits) → length (reorder n hits scores) = length hits.
Proof.
  intros Hl. unfold reorder. rewrite ordinal_scores_length, length_app, length_fmap, sort_desc_length, length_zip_with, Hl.
  rewrite Nat.min_id. rewrite <-(take_drop n hits) at 3. by rewrite length_app.
Qed.

Lemma finite_not_nan (scores : list float64) :
  existsb (λ s, is_nan s || is_inf s) scores = false → Forall (λ s, finite s = true) scores.
Proof.
  intros H. apply Forall_forall. intros s Hs. apply list_elem_of_In in Hs.
  assert (is_nan s || is_inf s = false) as E.
  { apply not_true_iff_false. intros E. apply not_true_iff_false in H. apply H, existsb_exists. eauto. }
  by destruct s.
Qed.

Section pass.
Context {W : Type} {Rk : Reranker W} {Ca : Casing}.

(** What a pass that succeeds returns. *)
Lemma applyRerank_each query hits passages typos maxCand docChars :
  each anyhow anything
    (λ r, match r with
      | Err _ => True
      | Ok out => hits = [] ∧ out = [] ∨
        ∃ scores, length scores = length (take (head_depth maxCand hits) hits) ∧ Forall (λ s, finite s = true) scores ∧
          out = reorder (head_depth maxCand hits) hits scores
      end)
    (applyRerank query hits passages typos maxCand docChars).
Proof.
  unfold applyRerank. destruct hits as [|h hits]; [by left|]. set (l := h :: hits). set (n := head_depth maxCand l).
  assert (length (take n l) = n) as Hn.
  { rewrite length_take. apply Nat.min_l. unfold n, head_depth.
    destruct (_ && _) eqn:E; [|done]. apply andb_true_iff in E as [?%Z.ltb_lt ?%Z.ltb_lt]. lia. }
  intros i w _. split; [done|]. cbn [input fst]. destruct (in_ctx i); [done|].
  intros i0 w0 _. split; [done|]. intros i1 w1 _. split; [done|]. cbn [input fst]. destruct (in_ctx i1); [done|].
  apply each_bind. generalize (reranker_Rerank (W := W) (if typos then correctRerankQuery (bool_decide (is_Some (in_ctx i0))) query (take n l)
    else query) (rerank_doc passages docChars <$> take n l)). intros p.
  induction p as [[scores|e]|X f k IH]; [|done|intros i' w' _; split; [done|apply IH]].
  cbn [each]. destruct (Nat.eqb_spec (length scores) n) as [Hs|Hs]; [|done]. cbn [negb].
  intros i2 w2 _. split; [done|]. cbn [input fst]. destruct (in_ctx i2); [done|].
  destruct (existsb _ scores) eqn:E; [done|]. right. exists scores. split_and!; [lia|by apply finite_not_nan|done].
Qed.

(** A rerank pass that succeeds changes nothing but order and score: the
    head is the same hits by descending model score, ties in retrieval order;
    the tail below the model depth stays as it was; and the score at every
    position is its ordinal. *)
Theorem rerank_only_reorders query hits passages typos maxCand docChars ins (w : W) :
  let n := head_depth maxCand hits in
  match (run (applyRerank query hits passages typos maxCand docChars) ins w).1 with
  | Err _ => True
  | Ok out =>
    ∃ (scores : list float64) (ranked : list (Hit * float64)),
      ranked ≡ₚ zip (take n hits) scores ∧ fst <$> zip (take n hits) scores = take n hits ∧
      Forall (λ s, finite s = true) scores ∧
      StronglySorted (λ a b, flt a.2 b.2 = false) ranked ∧
      (∀ s, finite s = true →
        List.filter (λ x, bool_decide (x.2 = s)) ranked = List.filter (λ x, bool_decide (x.2 = s)) (zip (take n hits) scores)) ∧
      set_score fzero <$> out = set_score fzero <$> ((fst <$> ranked) ++ drop n hits) ∧
      length out = length hits ∧
      ∀ i h, out !! i = Some h → hit_Score h = ordinal (length hits) i
  end.
Proof.
  intros n. destruct (each_run _ _ _ _ ins w (λ _, Logic.I) (applyRerank_each query hits passages typos maxCand docChars)) as [H _].
  fold n in H. destruct (run _ ins w).1 as [out|e]; [|done]. destruct H as [[-> ->]|(scores & Hl & Hf & ->)].
  { exists [], []. rewrite take_nil, drop_nil. split_and!; try done. constructor. }
  exists scores, (sort_desc snd (zip (take n hits) scores)).
  split_and!.
  - apply sort_desc_perm.
  - by apply zip_fst_take.
  - done.
  - apply sort_desc_sorted. apply Forall_forall. intros [h s] Hin. apply elem_of_zip_r in Hin.
    rewrite Forall_forall in Hf. apply Hf in Hin. by destruct s.
  - intros s Hs. apply sort_desc_stable. intros y z Hy Hz. apply bool_decide_eq_true in Hy, Hz.
    rewrite Hy, Hz. apply flt_irrefl.
  - apply ordinal_scores_unscored.
  - by apply reorder_length.
  - intros i h Hi. pose proof (reorder_length n hits scores Hl) as Hlen. unfold reorder in *.
    rewrite ordinal_scores_length in Hlen. apply ordinal_scores_lookup in Hi as (h0 & _ & ->). by rewrite Hlen.
Qed.
End pass.
