(* ===== verification/QueryServer.v ===== *)
(** * The query service

    Models [services/query/server.go] ([Search], [Count] and the retrieval
    arms), [degrade.go], [cache.go] and the retrieval half of
    [personalize.go].  The arms of a search run side by side ([par_list]).
    Hashing, the JSON of the cache binding and the wire form of a response are
    parameters; logs and metrics are left out. *)

From stdpp Require Import base gmap strings list pretty.
From Stdlib Require Import Ascii ZArith Lia.
From S2P Require Import Prelude GoStrings GoText GoFloat GoTime GoDate Tenancy Crypto Interleave Blob ControlPlane Document.
From S2P Require Import QueryVespa QueryRank QueryPlan QueryScope Personalization QueryPersonalize QueryModels.

Open Scope Z_scope.

(** ** The server *)

(** [sv_profiles] and [sv_reranker]: whether the optional parts are wired. *)
Record server := mkServer {
  sv_clipEnabled : bool; sv_cacheNamespace : string; sv_resultCacheEnabled : bool;
  sv_recencyWeight : float64; sv_recencyHalfLife : Z;
  sv_profiles : bool; sv_rrfEnabled : bool; sv_candidateCap : Z;
  sv_reranker : bool; sv_rerankCandidates : Z; sv_rerankDocChars : nat
}.

Definition newServer : server := mkServer true "" true fzero 0 false false 0 false 0 0.

Record SearchResponse := mkResponse {
  rs_Hits : list Hit; rs_Total : Z; rs_Degraded : string; rs_TookMs : Z; rs_Cached : bool
}.

(** What the service calls. *)
Class QueryDeps (W : Type) := {
  dep_Embed : string → prog W (result ModelErr (list Z));
  dep_EmbedText : string → prog W (result ModelErr (list Z));
  dep_Search : vespaQuery → prog W (result QueryErr vespaResult);
  dep_Load : TenantID → prog W (Profile * LearnedModel);
  dep_Reranker : Reranker W
}.
#[export] Existing Instance dep_Reranker.

Class resultCache (W : Type) := {
  cache_Get : Inp → string → W → result string (option bytes) * W;
  cache_Set : Inp → string → bytes → Z → W → result string unit * W
}.

(** ** Cache keys *)
Definition docType_num (t : DocType) : Z :=
  match t with
  | DOC_TYPE_UNSPECIFIED => 0 | EMAIL => 1 | CHAT_MESSAGE => 2 | FILE => 3 | CALENDAR_EVENT => 4 | WIKI_PAGE => 5
  | TICKET => 6 | IMAGE => 7 | VIDEO => 8 | AUDIO => 9 | DocTypeNum n => n
  end.

Definition mode_num (m : SearchMode) : Z :=
  match m with SEARCH_MODE_UNSPECIFIED => 0 | HYBRID => 1 | KEYWORD => 2 | VECTOR => 3 | SearchModeNum n => n end.

Definition us : string := String "031" "".
Definition bool_text (b : bool) : string := if b then "true" else "false".

Definition timestamp_field (ts : option Timestamp) : string :=
  match ts with
  | Some t => pretty (ts_seconds t) +:+ "." +:+ pretty (ts_nanos t)
  | None => "-"
  end.

Definition types_field (types : list DocType) : string :=
  String.concat "" ((λ n, pretty n +:+ ",") <$> sort_by Z.leb (docType_num <$> types)).

(** The text that is hashed. *)
Definition key_text (req : SearchRequest) (clipArm : bool) (profileVersion : Z) : string :=
  sr_Query req +:+ us +:+ types_field (sr_DocTypes req) +:+ us +:+
  timestamp_field (sr_FromDate req) +:+ us +:+ timestamp_field (sr_ToDate req) +:+ us +:+
  sr_Participant req +:+ us +:+ pretty (sr_Limit req) +:+ us +:+ pretty (sr_Offset req) +:+ us +:+
  pretty (mode_num (sr_Mode req)) +:+ us +:+ bool_text clipArm +:+ us +:+ pretty profileVersion +:+ us +:+
  bool_text (sr_Rerank req).

Definition cacheTTL : Z := 60 * second.

(** The struct [boundCacheKey] marshals. *)
Record Binding := mkBinding {
  bd_Recipe : string; bd_Namespace : string;
  bd_Personalizing : bool; bd_RRF : bool; bd_Rerank : bool; bd_Debug : bool;
  bd_CandidateCap : Z; bd_RRFK : Z; bd_RerankCandidates : Z; bd_RerankDocChars : nat;
  bd_RecencyWeight : float64; bd_RecencyHalfLife : Z; bd_Intent : intentClass;
  bd_From : Z; bd_To : Z; bd_EventFrom : Z; bd_EventTo : Z; bd_WinFrom : Z; bd_WinTo : Z;
  bd_ToExclusive : bool; bd_TextClauses : list textClause;
  bd_Profile : option Profile; bd_Model : option LearnedModel
}.

(** SHA-256, [json.Marshal] of a binding (which fails on a NaN or an infinity),
    and the wire form of a response. *)
Class CacheCodec := {
  sha256 : bytes → bytes;
  binding_json : Binding → result string bytes;
  resp_Marshal : SearchResponse → result string bytes;
  resp_Unmarshal : bytes → option SearchResponse
}.

(** [base[:strings.LastIndexByte(base, ':')+1]] *)
Fixpoint upto_last (c : ascii) (l : bytes) : bytes :=
  match l with
  | [] => []
  | a :: l' => if existsb (Ascii.eqb c) l' then a :: upto_last c l' else if Ascii.eqb c a then [a] else []
  end.

Section keys.
Context {Cc : CacheCodec}.

Definition cacheKey (tenant : TenantID) (req : SearchRequest) (clipArm : bool) (profileVersion : Z) : string :=
  "q:" +:+ tenant +:+ ":" +:+ EncodeToString (sha256 (to_bytes (key_text req clipArm profileVersion))).

Definition binding_of (s : server) (plan : parsedQuery) (personalizing rerankActive debug : bool)
    (profile : Profile) (model : LearnedModel) : Binding :=
  mkBinding "search-v9-final-personalized-score" (sv_cacheNamespace s) personalizing (sv_rrfEnabled s) rerankActive debug
    (sv_candidateCap s) rrfK (sv_rerankCandidates s) (sv_rerankDocChars s) (sv_recencyWeight s) (sv_recencyHalfLife s)
    (p_Intent plan) (p_From plan) (p_To plan) (p_EventFrom plan) (p_EventTo plan) (p_WinFrom plan) (p_WinTo plan)
    (p_ToExclusive plan) (p_TextClauses plan)
    (if personalizing then Some profile else None) (if personalizing then Some model else None).

Definition boundCacheKey (base : string) (b : Binding) : result string string :=
  let? data := binding_json b in
  let sum := sha256 (to_bytes base ++ ["031"%char] ++ data) in
  Ok (of_bytes (upto_last ":" (to_bytes base)) +:+ EncodeToString sum).
End keys.

(** ** Retrieval *)
Definition permitsMedia (types : list DocType) : bool :=
  match types with
  | [] => true
  | _ => existsb (λ t, bool_decide (t = IMAGE) || bool_decide (t = AUDIO) || bool_decide (t = VIDEO)) types
  end.

(** [None] is the nil vector. *)
Definition retrievalPlan (plan : parsedQuery) (mode : SearchMode) (vector : option (list Z)) : retrievalKind :=
  if String.eqb (p_Text plan) "" then retrieveFilterOnly
  else if bool_decide (mode = KEYWORD) || bool_decide (vector = None) then retrieveKeyword
  else if bool_decide (mode = VECTOR) then retrieveVector
  else retrieveHybrid.

Definition set_arm (kind : retrievalKind) (vector clipVector : list Z) (hits offset : Z) (q : vespaQuery) : vespaQuery :=
  mkQuery (vq_Tenant q) kind (vq_Text q) vector clipVector (vq_DocTypes q) (vq_From q) (vq_To q) (vq_Participant q)
    (vq_TextClauses q) (vq_ToExclusive q) (vq_EventFrom q) (vq_EventTo q) hits offset.

Definition emptyResult : vespaResult := mkResult [] 0 ∅.

(** An arm that failed carries no result. *)
Record retrievalArmResult := mkArm { arm_result : result QueryErr vespaResult; arm_keywordFallback : bool }.

Section retrieval.
Context {W : Type} {De : QueryDeps W}.

Definition searchWithDegradation (vq : vespaQuery) : prog W (result QueryErr vespaResult * bool) :=
  Atomic _ (input in_ctx) (λ e, match e with Some e => Ret (Err (QE_Ctx e), false) | None =>
  bind (dep_Search vq) (λ r,
  match r with
  | Ok res => Ret (Ok res, false)
  | Err err =>
    if negb (bool_decide (vq_Kind vq = retrieveHybrid)) || negb (isDegradable err) then Ret (Err err, false)
    else Atomic _ (input in_ctx) (λ e, match e with Some e => Ret (Err (QE_Ctx e), false) | None =>
      bind (dep_Search (set_arm retrieveKeyword [] (vq_ClipVector vq) (vq_Hits vq) (vq_Offset vq) vq)) (λ r,
      Ret (r, true))
    end)
  end)
  end).

Definition arm (primaryFallback : bool) (i : nat) (q : vespaQuery) : prog W retrievalArmResult :=
  Atomic _ (input in_ctx) (λ e, match e with Some e => Ret (mkArm (Err (QE_Ctx e)) false) | None =>
  if Nat.eqb i 0 && primaryFallback
  then bind (searchWithDegradation q) (λ r, Ret (mkArm r.1 r.2))
  else bind (dep_Search q) (λ r, Ret (mkArm r false))
  end).

(** Wait for the arms in order: a done context or a failed first arm ends it. *)
Fixpoint collect (i : nat) (arms : list retrievalArmResult) : prog W (result QueryErr (list retrievalArmResult)) :=
  match arms with
  | [] => Ret (Ok [])
  | a :: arms' =>
    Atomic _ (input in_ctx) (λ e, match e with Some e => Ret (Err (QE_Ctx e)) | None =>
    match i, arm_result a with
    | O, Err err => Ret (Err err)
    | _, _ => bind (collect (S i) arms') (λ r, Ret (let? l := r in Ok (a :: l)))
    end
    end)
  end.

Definition parallelSearch (queries : list vespaQuery) (primaryFallback : bool) :
    prog W (result QueryErr (list retrievalArmResult)) :=
  Atomic _ (input in_ctx) (λ e, match e with Some e => Ret (Err (QE_Ctx e)) | None =>
  bind (par_list (imap (arm primaryFallback) queries)) (collect 0)
  end).

(** A result with the degradation reasons so far. *)
Abbreviation served := (result QueryErr (vespaResult * list string)).

Definition with_fallback (reasons : list string) (a : retrievalArmResult) : list string :=
  if arm_keywordFallback a then addDegraded reasons degradedKeywordOnly else reasons.

Definition searchMerged (textQ clipQ : vespaQuery) (limit offset : Z) (reasons : list string) : prog W served :=
  let prefix := wrap32 (offset + limit) in
  let textQ := set_arm (vq_Kind textQ) (vq_Vector textQ) (vq_ClipVector textQ) prefix 0 textQ in
  let clipQ := set_arm (vq_Kind clipQ) (vq_Vector clipQ) (vq_ClipVector clipQ) prefix 0 clipQ in
  bind (parallelSearch [textQ; clipQ] true) (λ r, Ret (
  match r with
  | Err e => Err e
  | Ok [t; c] =>
    match arm_result t with
    | Err e => Err e
    | Ok textResult =>
      let reasons := with_fallback reasons t in
      let '(clipResult, reasons) := match arm_result c with
        | Ok x => (x, reasons)
        | Err _ => (emptyResult, addDegraded reasons degradedClipUnavailable)
        end in
      let merged := mergeHits (Hits textResult) (Hits clipResult) in
      let total := mergedTotal textResult clipResult (Z.of_nat (length merged)) in
      Ok (mkResult (pageHits merged offset limit) total ∅, reasons)
    end
  | Ok _ => Ok (emptyResult, reasons)
  end)).

(** The arms after the first: a failed one is dropped and named. *)
Fixpoint rrf_arms (i : nat) (arms : list retrievalArmResult) (reasons : list string) : list vespaResult * list string :=
  match arms with
  | [] => ([], reasons)
  | a :: arms' =>
    match arm_result a with
    | Err _ => rrf_arms (S i) arms'
        (addDegraded reasons (if Nat.eqb i 1 then degradedKeywordOnly else degradedClipUnavailable))
    | Ok r => let '(rs, reasons) := rrf_arms (S i) arms' reasons in (r :: rs, reasons)
    end
  end.

Definition retrieveRRF (base : vespaQuery) (vector : list Z) (clipActive : bool) (clipVector : list Z) (candCap : Z)
    (reasons : list string) : prog W served :=
  let kq := set_arm retrieveKeyword (vq_Vector base) (vq_ClipVector base) candCap 0 base in
  let vq := set_arm retrieveVector vector (vq_ClipVector base) candCap 0 base in
  let cq := set_arm retrieveCLIP (vq_Vector base) clipVector candCap 0 base in
  bind (parallelSearch ([kq; vq] ++ (if clipActive then [cq] else [])) false) (λ r, Ret (
  match r with
  | Err e => Err e
  | Ok [] => Ok (emptyResult, reasons)
  | Ok (a :: arms) =>
    match arm_result a with
    | Err e => Err e
    | Ok first =>
      let '(rest, reasons) := rrf_arms 1 arms reasons in
      let results := first :: rest in
      let maxTotal := foldl (λ m r, if m <? Total r then Total r else m) (Total first) rest in
      let fused := rrfFuse (Hits <$> results) in
      let total := Z.of_nat (length fused) in
      Ok (mkResult fused (if total <? maxTotal then maxTotal else total) (mergeRerankPassages results), reasons)
    end
  end)).

Definition retrievePersonalized (s : server) (base : vespaQuery) (plan : parsedQuery) (mode : SearchMode)
    (vector : option (list Z)) (clipActive : bool) (clipVector : list Z) (reasons : list string) : prog W served :=
  let candCap := Z.max (sv_candidateCap s) (vq_Hits base) in
  let candCap := if candCap <=? 0 then maxLimit else candCap in
  let rrf := sv_rrfEnabled s && bool_decide (mode = HYBRID) && negb (String.eqb (p_Text plan) "") in
  match rrf, vector with
  | true, Some v => retrieveRRF base v clipActive clipVector candCap reasons
  | _, _ =>
    let textQ := set_arm (retrievalPlan plan mode vector) (default [] vector) (vq_ClipVector base) candCap 0 base in
    if negb clipActive then
      bind (searchWithDegradation textQ) (λ r, Ret (
      let? res := r.1 in Ok (res, if r.2 then addDegraded reasons degradedKeywordOnly else reasons)))
    else
      let clipQ := set_arm retrieveCLIP (vq_Vector base) clipVector candCap 0 base in
      bind (parallelSearch [textQ; clipQ] true) (λ r, Ret (
      match r with
      | Err e => Err e
      | Ok [t; c] =>
        match arm_result t with
        | Err e => Err e
        | Ok textRes =>
          let reasons := with_fallback reasons t in
          match arm_result c with
          | Err _ => Ok (textRes, addDegraded reasons degradedClipUnavailable)
          | Ok clipRes =>
            let fused := rrfFuse [Hits textRes; Hits clipRes] in
            Ok (mkResult fused (mergedTotal textRes clipRes (Z.of_nat (length fused)))
                  (mergeRerankPassages [textRes; clipRes]), reasons)
          end
        end
      | Ok _ => Ok (emptyResult, reasons)
      end))
  end.
End retrieval.

(** ** Responses *)
Definition FromContextError (e : CtxErr) : Status :=
  match e with
  | Canceled => mkStatus CanceledCode (ctxErr_text Canceled)
  | DeadlineExceeded => mkStatus DeadlineExceededCode (ctxErr_text DeadlineExceeded)
  end.

Definition QueryErr_text (e : QueryErr) : string :=
  match e with
  | QE_Ctx e => ctxErr_text e
  | QE_InvalidFilter t => "invalid filter value: " +:+ t
  | QE_Degradable t | QE_Msg t => t
  end.

(** The headers the deferred function sets. *)
Record Headers := mkHeaders { hd_rerankApplied : bool; hd_candidates : option bytes }.
Definition noHeaders : Headers := mkHeaders false None.

(** What a search has settled before it retrieves. *)
Record SearchCall := mkCall {
  c_tenant : TenantID; c_start : Z; c_now : Z; c_norm : SearchRequest; c_plan : parsedQuery;
  c_profile : Profile; c_model : LearnedModel; c_clipPlanned : bool; c_rerankActive : bool;
  c_key : string; c_bypass : bool
}.

Definition plan_error (plan : parsedQuery) : option Status :=
  if negb (String.eqb (p_SyntaxError plan) "") then Some (mkStatus InvalidArgument ("query: " +:+ p_SyntaxError plan))
  else if negb (IsZero (p_From plan)) && negb (IsZero (p_To plan)) && (p_To plan <? p_From plan)
  then Some (mkStatus InvalidArgument "query: from date is after to date")
  else None.

Definition base_query (c : SearchCall) : vespaQuery :=
  let plan := c_plan c in
  mkQuery (c_tenant c) retrieveKeyword (p_Text plan) [] [] (p_DocTypes plan) (p_From plan) (p_To plan)
    (p_Participant plan) (p_TextClauses plan) (p_ToExclusive plan) (p_EventFrom plan) (p_EventTo plan) 0 0.

Definition initial_reasons (s : server) (c : SearchCall) : list string :=
  if sr_Rerank (c_norm c) && negb (c_rerankActive c)
  then addDegraded (p_Warnings (c_plan c))
         (if negb (sv_reranker s) then degradedRerankNotEnabled else degradedRerankNotApplicable)
  else p_Warnings (c_plan c).

(** The deterministic path: one ranking of a bounded candidate set. *)
Definition ranks_candidates (s : server) (c : SearchCall) : bool := sv_profiles s || sv_rrfEnabled s || c_rerankActive c.

Definition defaultPersonalizationHalfLife : Z := 720 * hour.

Definition rank_params (s : server) (c : SearchCall) : personalizeParams :=
  mkParams (c_profile c) (c_model c) (p_Intent (c_plan c)) (mkWindow (p_WinFrom (c_plan c)) (p_WinTo (c_plan c)))
    (c_now c) (if sv_recencyHalfLife s <=? 0 then defaultPersonalizationHalfLife else sv_recencyHalfLife s)
    (sr_Debug (c_norm c)) (sr_Limit (c_norm c)) (sr_Offset (c_norm c)).

Section search.
Context {W : Type} {De : QueryDeps W} {Rc : resultCache W} {Cc : CacheCodec} {Dj : DebugJson}.
Context {Ca : Casing} {Fo : Folding} {Le : Letters} {Me : MathExp} {Fm : FloatMath} {Zd : ZoneDB}.

Abbreviation outcome := (result Status SearchResponse * Headers)%type.

(** [if ctx.Err() != nil { return nil, status.FromContextError(..) }] *)
Definition alive (hd : Headers) (k : prog W outcome) : prog W outcome :=
  Atomic _ (input in_ctx) (λ e, match e with Some e => Ret (Err (FromContextError e), hd) | None => k end).

Definition refuse (st : Status) (hd : Headers) : prog W outcome := Ret (Err st, hd).

Definition read_clock {A} (k : Z → prog W A) : prog W A := Atomic _ (input (λ i, clock (in_env i) 0)) k.

Definition elapsed_ms (start now : Z) : Z := Z.quot (now - start) millisecond.

Definition cacheGet (key : string) : prog W (option SearchResponse) :=
  Atomic _ (λ i w, cache_Get i key w) (λ r,
  Ret match r with
  | Err _ | Ok None => None
  | Ok (Some data) => resp_Unmarshal data
  end).

Definition cacheSet (key : string) (resp : SearchResponse) : prog W unit :=
  match resp_Marshal resp with
  | Err _ => Ret tt
  | Ok data => Atomic _ (λ i w, cache_Set i key data cacheTTL w) (λ _, Ret tt)
  end.

(** Stage 7: respond, and cache what is not degraded. *)
Definition respond (c : SearchCall) (hd : Headers) (result : vespaResult) (reasons : list string) : prog W outcome :=
  let degraded := joinDegraded reasons in
  read_clock (λ t,
  let resp := mkResponse (Hits result) (Total result) degraded (elapsed_ms (c_start c) t) false in
  let finish :=
    alive hd (read_clock (λ t,
      Ret (Ok (mkResponse (rs_Hits resp) (rs_Total resp) degraded (elapsed_ms (c_start c) t) false), hd))) in
  if String.eqb degraded "" && negb (c_bypass c) then
    Atomic _ (input in_ctx) (λ e,
    match e with
    | None => bind (cacheSet (c_key c) resp) (λ _, finish)
    | Some _ => finish
    end)
  else finish).

(** A failed retrieval. *)
Definition retrieval_failed (err : QueryErr) (hd : Headers) : prog W outcome :=
  alive hd (refuse
    match err with
    | QE_InvalidFilter _ => mkStatus InvalidArgument ("query: " +:+ QueryErr_text err)
    | _ => mkStatus Unavailable ("query: search backend: " +:+ QueryErr_text err)
    end hd).

(** Rank the reranked candidates and cut the page. *)
Definition rank_page (s : server) (c : SearchCall) (hd : Headers) (candidates : vespaResult) (reasons : list string) :
    prog W outcome :=
  let result :=
    if sv_profiles s then
      let '(page, total) := personalizeRank Alive (Hits candidates) (rank_params s c) in mkResult page total ∅
    else
      let ranked := rerankByRecency (Hits candidates) (sv_recencyWeight s) (sv_recencyHalfLife s) (c_now c) in
      mkResult (pageHits ranked (sr_Offset (c_norm c)) (sr_Limit (c_norm c))) (Z.of_nat (length (Hits candidates))) ∅ in
  alive hd (respond c hd result reasons).

Definition set_Hits (hits : list Hit) (r : vespaResult) : vespaResult := mkResult hits (Total r) (Passages r).

(** The cross-encoder pass over the eligible candidates. *)
Definition rerank_stage (s : server) (c : SearchCall) (candidates : vespaResult) (reasons : list string) : prog W outcome :=
  let hd := mkHeaders false
    (if sr_Debug (c_norm c) && c_rerankActive c
     then default None (encodeCandidateDebug (Hits candidates) (sv_rerankCandidates s)) else None) in
  if c_rerankActive c && negb (bool_decide (Hits candidates = [])) then
    let correctTypos := negb (hasFilters (c_plan c)) && bool_decide (p_Warnings (c_plan c) = []) in
    bind (applyRerank (p_Text (c_plan c)) (Hits candidates) (Passages candidates) correctTypos (sv_rerankCandidates s)
            (sv_rerankDocChars s)) (λ r,
    alive hd
      match r with
      | Err _ => rank_page s c hd candidates (addDegraded reasons degradedRerankUnavailable)
      | Ok reranked =>
        let hd := mkHeaders (negb (bool_decide (reranked = []))) (hd_candidates hd) in
        rank_page s c hd (set_Hits reranked candidates) reasons
      end)
  else rank_page s c hd candidates reasons.

Definition candidate_stage (s : server) (c : SearchCall) (vector : option (list Z)) (clip : option (list Z)) (reasons : list string) :
    prog W outcome :=
  let limit := sr_Limit (c_norm c) in
  let offset := sr_Offset (c_norm c) in
  let b := base_query c in
  let base := set_arm (vq_Kind b) [] [] (Z.min 1000 (Z.max (sv_candidateCap s) (wrap32 (limit + offset)))) 0 b in
  bind (retrievePersonalized s base (c_plan c) (sr_Mode (c_norm c)) vector (bool_decide (is_Some clip)) (default [] clip) reasons)
    (λ r,
  alive noHeaders
    match r with
    | Err err => alive noHeaders (alive noHeaders (retrieval_failed err noHeaders))
    | Ok (candidates, reasons) =>
      let candidates := if sv_profiles s
        then set_Hits (filterCandidates (Hits candidates) (rank_params s c)) candidates else candidates in
      alive noHeaders (rerank_stage s c candidates reasons)
    end).

(** The plain path: merged arms, or one arm paged by the engine. *)
Definition page_stage (s : server) (c : SearchCall) (vector : option (list Z)) (clip : option (list Z)) (reasons : list string) :
    prog W outcome :=
  let limit := sr_Limit (c_norm c) in
  let offset := sr_Offset (c_norm c) in
  let kind := retrievalPlan (c_plan c) (sr_Mode (c_norm c)) vector in
  let base := base_query c in
  bind
    match clip with
    | Some cv =>
      searchMerged (set_arm kind (default [] vector) [] 0 0 base) (set_arm retrieveCLIP [] cv 0 0 base) limit offset reasons
    | None =>
      bind (searchWithDegradation (set_arm kind (default [] vector) [] limit offset base)) (λ r, Ret (
      let? res := r.1 in Ok (res, if r.2 then addDegraded reasons degradedKeywordOnly else reasons)))
    end (λ r,
  match r with
  | Err err => retrieval_failed err noHeaders
  | Ok (result, reasons) =>
    let hits := rerankByRecency (Hits result) (sv_recencyWeight s) (sv_recencyHalfLife s) (c_now c) in
    respond c noHeaders (set_Hits hits result) reasons
  end).

(** Stage 4: both embeddings run side by side and are awaited in turn. *)
Definition optionally {A} (b : bool) (p : prog W A) : prog W (option A) :=
  if b then bind p (λ a, Ret (Some a)) else Ret None.

Definition retrieve_stage (s : server) (c : SearchCall) (vector : option (list Z)) (clip : option (list Z)) (reasons : list string) :
    prog W outcome :=
  if ranks_candidates s c then candidate_stage s c vector clip reasons else page_stage s c vector clip reasons.

Definition clip_stage (s : server) (c : SearchCall) (vector : option (list Z)) (clip : option (result ModelErr (list Z)))
    (reasons : list string) : prog W outcome :=
  match clip with
  | None => retrieve_stage s c vector None reasons
  | Some r =>
    alive noHeaders
      match r with
      | Ok cv => retrieve_stage s c vector (Some cv) reasons
      | Err _ => retrieve_stage s c vector None (addDegraded reasons degradedClipUnavailable)
      end
  end.

Definition embed_stage (s : server) (c : SearchCall) : prog W outcome :=
  let mode := sr_Mode (c_norm c) in
  let text := p_Text (c_plan c) in
  let textPlanned := negb (String.eqb text "") && (bool_decide (mode = HYBRID) || bool_decide (mode = VECTOR)) in
  let reasons := initial_reasons s c in
  bind (par (optionally textPlanned (dep_Embed text)) (optionally (c_clipPlanned c) (dep_EmbedText text))) (λ r,
  match r.1 with
  | None => clip_stage s c None r.2 reasons
  | Some embedded =>
    alive noHeaders
      match embedded with
      | Ok v => clip_stage s c (Some v) r.2 reasons
      | Err e =>
        if bool_decide (mode = VECTOR)
        then refuse (mkStatus Unavailable ("query: embedding unavailable in VECTOR mode: " +:+ ModelErr_text e)) noHeaders
        else clip_stage s c None r.2 (addDegraded reasons degradedKeywordOnly)
      end
  end).

(** Stage 3: the result cache. *)
Definition cache_stage (s : server) (c : SearchCall) : prog W outcome :=
  if c_bypass c then alive noHeaders (embed_stage s c)
  else bind (cacheGet (c_key c)) (λ cached,
    alive noHeaders
      match cached with
      | Some r => read_clock (λ t,
          Ret (Ok (mkResponse (rs_Hits r) (rs_Total r) (rs_Degraded r) (elapsed_ms (c_start c) t) true), noHeaders))
      | None => embed_stage s c
      end).

(** [metadata.ValueFromIncomingContext(ctx, "x-asker-cache-bypass")] *)
Definition asks_bypass (ctx : Ctx) : bool :=
  existsb (String.eqb "true") (md_get (default ∅ (ctx_md_in ctx)) "x-asker-cache-bypass").

Definition make_call (s : server) (ctx : Ctx) (tenant : TenantID) (start now : Z) (norm : SearchRequest)
    (plan : parsedQuery) (profile : Profile) (model : LearnedModel) : SearchCall :=
  let mode := sr_Mode norm in
  let has_text := negb (String.eqb (p_Text plan) "") in
  let clipPlanned := sv_clipEnabled s && has_text && bool_decide (mode = HYBRID) && permitsMedia (p_DocTypes plan) in
  let rerankActive := sv_reranker s && sr_Rerank norm && bool_decide (mode = HYBRID) && has_text in
  let version := if sv_profiles s then pr_Version profile else 0 in
  let key := boundCacheKey (cacheKey tenant norm clipPlanned version)
    (binding_of s plan (sv_profiles s) rerankActive (sr_Debug norm) profile model) in
  mkCall tenant start now norm plan profile model clipPlanned rerankActive
    (match key with Ok k => k | Err _ => "" end)
    (negb (is_ok key) || negb (sv_resultCacheEnabled s) || asks_bypass ctx).

Definition Search (s : server) (ctx : Ctx) (req : SearchRequest) : prog W outcome :=
  read_clock (λ start,
  match FromContext ctx with
  | Err _ => refuse (mkStatus Unauthenticated "query: no tenant in request context") noHeaders
  | Ok tc =>
    read_clock (λ now,
    let norm := normalizeRequest req in
    let plan := understand norm in
    match plan_error plan with
    | Some st => refuse st noHeaders
    | None =>
      bind (if sv_profiles s then dep_Load (tenantID tc) else Ret (DefaultProfile, zeroModel)) (λ pm,
      let plan := scopeQuery plan (profile_Location pm.1) now in
      alive noHeaders (
        if String.eqb (p_Text plan) "" && negb (hasFilters plan) && negb (intentDrivenEmptyText plan)
        then refuse (mkStatus InvalidArgument "query: empty query with no filters") noHeaders
        else cache_stage s (make_call s ctx (tenantID tc) start now norm plan pm.1 pm.2)))
    end)
  end).

Definition Count (ctx : Ctx) : prog W (result Status Z) :=
  match FromContext ctx with
  | Err _ => Ret (Err (mkStatus Unauthenticated "query: no tenant in request context"))
  | Ok tc =>
    bind (dep_Search (mkQuery (tenantID tc) retrieveFilterOnly "" [] [] [] zeroTime zeroTime "" [] false zeroTime zeroTime 0 0))
      (λ r, Ret match r with
        | Err e => Err (mkStatus Unavailable ("query: count: " +:+ QueryErr_text e))
        | Ok res => Ok (Total res)
        end)
  end.
End search.

(** ** The wired service *)
Record QueryConfig := mkConfig {
  cfg_VespaURL : string; cfg_TEIURL : string; cfg_EmbeddingDim : nat; cfg_ClipURL : string; cfg_ClipDim : nat;
  cfg_RerankURL : string
}.

(** The clients of [main.go]; [ctx] is the context the calls run under. *)
Definition wired {W} `{!SearchAPI W, !VespaJson, !ModelAPI W, !InferenceJson, !ProfileStore W, !ProfileJson, !Casing, !ZoneDB}
    (cfg : QueryConfig) (ctx : Ctx) : QueryDeps W := {|
  dep_Embed := Embed (cfg_TEIURL cfg) (cfg_EmbeddingDim cfg);
  dep_EmbedText := EmbedText (cfg_ClipURL cfg) (cfg_ClipDim cfg);
  dep_Search := vespa_Search (cfg_VespaURL cfg) ctx;
  dep_Load := Load;
  dep_Reranker := {| reranker_Rerank := Rerank (cfg_RerankURL cfg) |}
|}.
