(* ===== verification/QueryCacheProofs.v ===== *)
(** * Result-cache keys

    Keys of two tenants differ, and equal keys mean equal requests and equal
    ranking inputs, unless SHA-256 collides. *)

From stdpp Require Import base gmap sets strings list pretty.
From Stdlib Require Import Ascii ZArith NArith Lia.
From S2P Require Import Prelude GoStrings GoText GoFloat GoTime GoDate Tenancy Crypto Interleave Blob ControlPlane Document.
From S2P Require Import QueryVespa QueryRank QueryPlan QueryScope Personalization QueryPersonalize QueryModels QueryServer.

Open Scope Z_scope.

(** ** Splitting at a separator *)
Lemma split_first {A} (c : A) a1 : ∀ a2 b1 b2,
  c ∉ a1 → c ∉ a2 → a1 ++ c :: b1 = a2 ++ c :: b2 → a1 = a2 ∧ b1 = b2.
Proof.
  induction a1 as [|x a1 IH]; intros [|y a2] b1 b2 H1 H2 E; simplify_eq/=; [done|set_solver|set_solver|].
  destruct (IH a2 b1 b2) as [-> ->]; [set_solver|set_solver|done|done].
Qed.

Lemma split_last {A} (c : A) a1 a2 b1 b2 :
  c ∉ b1 → c ∉ b2 → a1 ++ c :: b1 = a2 ++ c :: b2 → a1 = a2 ∧ b1 = b2.
Proof.
  intros H1 H2 E. apply (f_equal reverse) in E. rewrite !reverse_app, !reverse_cons, <-!app_assoc in E.
  cbn [app] in E. apply split_first in E as [Eb Ea]; [|by rewrite elem_of_reverse..].
  by apply (inj reverse) in Ea, Eb.
Qed.

(** Texts made of other bytes hold no separator. *)
Lemma not_in_bytes (P : ascii → bool) (c : ascii) s : P c = false → str_forallb P s = true → c ∉ to_bytes s.
Proof.
  unfold str_forallb. intros Hc Hs Hin. apply list_elem_of_In in Hin. rewrite forallb_forall in Hs.
  by rewrite (Hs _ Hin) in Hc.
Qed.

Lemma pretty_free (c : ascii) (z : Z) : num_byte c = false → c ∉ to_bytes (pretty z).
Proof. intros Hc. eapply not_in_bytes; [done|apply pretty_Z_bytes]. Qed.

(** ** Hexadecimal *)
Definition hex_byte (a : ascii) : bool := byte_in 48 57 a || byte_in 97 102 a.

Definition nibble (a : ascii) : N := (if byte_val a <? 58 then byte_val a - 48 else byte_val a - 87)%N.

Lemma nibble_digit n : (n < 16)%N → nibble (hex_digit n) = n ∧ hex_byte (hex_digit n) = true.
Proof.
  intros Hn. assert (∀ k, (k < 16)%nat → nibble (hex_digit (N.of_nat k)) = N.of_nat k ∧ hex_byte (hex_digit (N.of_nat k)) = true) as H.
  { intros k Hk. do 16 (destruct k as [|k]; [by vm_compute|]). lia. }
  rewrite <-(N2Nat.id n). apply H. lia.
Qed.

Lemma nibble_hex n : (n < 16)%N → nibble (hex_digit n) = n.
Proof. apply nibble_digit. Qed.

Lemma byte_val_bound a : (byte_val a < 256)%N.
Proof. unfold byte_val. apply N_ascii_bounded. Qed.

Lemma EncodeToString_cons a b :
  to_bytes (EncodeToString (a :: b)) =
  hex_digit (byte_val a / 16) :: hex_digit (byte_val a mod 16) :: to_bytes (EncodeToString b).
Proof. unfold EncodeToString. by rewrite !to_of_bytes. Qed.

Lemma EncodeToString_bytes b : Forall (λ a, hex_byte a = true) (to_bytes (EncodeToString b)).
Proof.
  induction b as [|a b IH]; [constructor|]. rewrite EncodeToString_cons. pose proof (byte_val_bound a).
  assert (byte_val a / 16 < 16)%N by (apply N.Div0.div_lt_upper_bound; lia).
  assert (byte_val a mod 16 < 16)%N by (by apply N.mod_lt).
  repeat constructor; [by apply nibble_digit|by apply nibble_digit|done].
Qed.

Lemma EncodeToString_free c b : hex_byte c = false → c ∉ to_bytes (EncodeToString b).
Proof. intros Hc Hin. pose proof (EncodeToString_bytes b) as H. rewrite Forall_forall in H. by rewrite (H _ Hin) in Hc. Qed.

Lemma EncodeToString_inj b1 : ∀ b2, EncodeToString b1 = EncodeToString b2 → b1 = b2.
Proof.
  intros b2 E. apply (f_equal to_bytes) in E. revert b2 E.
  induction b1 as [|a1 b1 IH]; intros [|a2 b2] E; [done|by rewrite EncodeToString_cons in E..|].
  rewrite !EncodeToString_cons in E. injection E as E1 E2 E. f_equal; [|by apply IH].
  pose proof (byte_val_bound a1). pose proof (byte_val_bound a2).
  assert (∀ a, (byte_val a < 256)%N → (byte_val a / 16 < 16)%N) as Hd by (intros; apply N.Div0.div_lt_upper_bound; lia).
  assert (byte_val a1 = byte_val a2) as Ev.
  { rewrite (N.div_mod (byte_val a1) 16), (N.div_mod (byte_val a2) 16) by done. f_equal; [f_equal|].
    - apply (f_equal nibble) in E1. by rewrite !nibble_hex in E1 by auto.
    - apply (f_equal nibble) in E2. by rewrite !nibble_hex in E2 by by apply N.mod_lt. }
  unfold byte_val in Ev. by rewrite <-(ascii_N_embedding a1), Ev, ascii_N_embedding.
Qed.

Lemma upto_last_spec c pre l : c ∉ l → upto_last c (pre ++ c :: l) = pre ++ [c].
Proof.
  intros Hl. induction pre as [|a pre IH]; cbn [app upto_last].
  - rewrite Ascii.eqb_refl. destruct (existsb (Ascii.eqb c) l) eqn:E; [|done].
    apply existsb_exists in E as (x & Hx & Ex). apply Ascii.eqb_eq in Ex as <-. by apply list_elem_of_In in Hx.
  - rewrite IH. replace (existsb _ _) with true; [done|]. symmetry. apply existsb_exists. exists c.
    split; [|apply Ascii.eqb_refl]. apply in_or_app. right. by left.
Qed.

(** ** The hashed text *)
Definition us_free (s : string) : Prop := "031"%char ∉ to_bytes s.

Lemma us_split s1 s2 r1 r2 :
  us_free s1 → us_free s2 → s1 +:+ us +:+ r1 = s2 +:+ us +:+ r2 → s1 = s2 ∧ r1 = r2.
Proof.
  intros H1 H2 E. apply (f_equal to_bytes) in E. rewrite !to_bytes_app in E.
  apply split_first in E as [E1 E2]; [|done..]. split; by apply to_bytes_inj.
Qed.

Lemma us_free_pretty (z : Z) : us_free (pretty z).
Proof. by apply pretty_free. Qed.

Lemma us_free_bool b : us_free (bool_text b).
Proof. destruct b; apply (bool_decide_eq_true_1 _); vm_compute; reflexivity. Qed.

Lemma us_free_app s1 s2 : us_free s1 → us_free s2 → us_free (s1 +:+ s2).
Proof. unfold us_free. rewrite to_bytes_app. set_solver. Qed.

Lemma us_free_lit (c : ascii) : c ≠ "031"%char → us_free (String c "").
Proof. unfold us_free. cbn. set_solver. Qed.

Lemma us_free_timestamp ts : us_free (timestamp_field ts).
Proof.
  destruct ts as [ts|]; [|by apply us_free_lit]. repeat apply us_free_app; [apply us_free_pretty|by apply us_free_lit|apply us_free_pretty].
Qed.

(** The list of numbers [types_field] prints. *)
Definition comma_list (l : list Z) : string := String.concat "" ((λ n, pretty n +:+ ",") <$> l).

Lemma concat_empty_cons s l : String.concat "" (s :: l) = s +:+ String.concat "" l.
Proof.
  destruct l as [|s' l]; [|done]. cbn. apply to_bytes_inj. by rewrite to_bytes_app, app_nil_r.
Qed.

Lemma comma_list_cons n l : comma_list (n :: l) = pretty n +:+ "," +:+ comma_list l.
Proof.
  unfold comma_list. rewrite fmap_cons, concat_empty_cons. apply to_bytes_inj. by rewrite !to_bytes_app, <-app_assoc.
Qed.

Lemma us_free_comma l : us_free (comma_list l).
Proof.
  induction l as [|n l IH]; [apply not_elem_of_nil|]. rewrite comma_list_cons.
  repeat apply us_free_app; [apply us_free_pretty|by apply us_free_lit|done].
Qed.

Lemma comma_list_inj l1 : ∀ l2, comma_list l1 = comma_list l2 → l1 = l2.
Proof.
  assert (∀ n l, comma_list (n :: l) ≠ "") as Hne.
  { intros n l E. rewrite comma_list_cons in E. apply (f_equal to_bytes) in E. rewrite !to_bytes_app in E.
    by destruct (to_bytes (pretty n)). }
  induction l1 as [|n1 l1 IH]; intros [|n2 l2] E; [done|by symmetry in E; apply Hne in E|by apply Hne in E|].
  rewrite !comma_list_cons in E. apply (f_equal to_bytes) in E. rewrite !to_bytes_app in E.
  apply split_first in E as [E1 E2]; [|by apply pretty_free..].
  apply to_bytes_inj in E1, E2. f_equal; [by apply (inj pretty)|by apply IH].
Qed.

Lemma timestamp_field_inj ts1 ts2 : timestamp_field ts1 = timestamp_field ts2 → ts1 = ts2.
Proof.
  assert (∀ t, timestamp_field (Some t) ≠ "-") as Hne.
  { intros t E. apply (f_equal to_bytes) in E. cbn [timestamp_field] in E. rewrite !to_bytes_app in E.
    assert ("."%char ∈ to_bytes (pretty (ts_seconds t)) ++ to_bytes "." ++ to_bytes (pretty (ts_nanos t))) as H by set_solver.
    rewrite E in H. cbn in H. set_solver. }
  destruct ts1 as [[s1 n1]|], ts2 as [[s2 n2]|]; intros E; [|by apply Hne in E|by symmetry in E; apply Hne in E|done].
  apply (f_equal to_bytes) in E. cbn [timestamp_field ts_seconds ts_nanos] in E. rewrite !to_bytes_app in E.
  apply split_first in E as [E1 E2]; [|by apply pretty_free..].
  apply to_bytes_inj in E1, E2. by apply (inj pretty) in E1, E2; subst.
Qed.

Lemma bool_text_inj b1 b2 : bool_text b1 = bool_text b2 → b1 = b2.
Proof. by destruct b1, b2. Qed.

(** The request as far as its key tells: its document types as a multiset of
    numbers, its debug flag aside. *)
Definition same_request (r1 r2 : SearchRequest) : Prop :=
  sr_Query r1 = sr_Query r2 ∧
  sort_by Z.leb (docType_num <$> sr_DocTypes r1) = sort_by Z.leb (docType_num <$> sr_DocTypes r2) ∧
  sr_FromDate r1 = sr_FromDate r2 ∧ sr_ToDate r1 = sr_ToDate r2 ∧ sr_Participant r1 = sr_Participant r2 ∧
  sr_Limit r1 = sr_Limit r2 ∧ sr_Offset r1 = sr_Offset r2 ∧ mode_num (sr_Mode r1) = mode_num (sr_Mode r2) ∧
  sr_Rerank r1 = sr_Rerank r2.

Lemma key_text_inj r1 c1 v1 r2 c2 v2 :
  us_free (sr_Query r1) → us_free (sr_Query r2) → us_free (sr_Participant r1) → us_free (sr_Participant r2) →
  key_text r1 c1 v1 = key_text r2 c2 v2 → same_request r1 r2 ∧ c1 = c2 ∧ v1 = v2.
Proof.
  intros Q1 Q2 P1 P2 E. unfold key_text in E.
  change (types_field (sr_DocTypes r1)) with (comma_list (sort_by Z.leb (docType_num <$> sr_DocTypes r1))) in E.
  change (types_field (sr_DocTypes r2)) with (comma_list (sort_by Z.leb (docType_num <$> sr_DocTypes r2))) in E.
  apply us_split in E as [EQ E]; [|done..]. apply us_split in E as [ET E]; [|apply us_free_comma..].
  apply us_split in E as [EF E]; [|apply us_free_timestamp..]. apply us_split in E as [ETo E]; [|apply us_free_timestamp..].
  apply us_split in E as [EP E]; [|done..]. apply us_split in E as [EL E]; [|apply us_free_pretty..].
  apply us_split in E as [EO E]; [|apply us_free_pretty..]. apply us_split in E as [EM E]; [|apply us_free_pretty..].
  apply us_split in E as [EC E]; [|apply us_free_bool..]. apply us_split in E as [EV E]; [|apply us_free_pretty..].
  apply comma_list_inj in ET. apply timestamp_field_inj in EF, ETo. apply (inj pretty) in EL, EO, EM, EV.
  apply bool_text_inj in EC, E. by repeat split.
Qed.

Section keys.
Context {Cc : CacheCodec}.

Lemma cacheKey_bytes t req clip v :
  to_bytes (cacheKey t req clip v) =
  (to_bytes "q:" ++ to_bytes t) ++ ":"%char :: to_bytes (EncodeToString (sha256 (to_bytes (key_text req clip v)))).
Proof. unfold cacheKey. by rewrite !to_bytes_app, <-!app_assoc. Qed.

Lemma boundCacheKey_shape t req clip v b k :
  boundCacheKey (cacheKey t req clip v) b = Ok k → ∃ data, binding_json b = Ok data ∧
    k = "q:" +:+ t +:+ ":" +:+ EncodeToString (sha256 (to_bytes (cacheKey t req clip v) ++ ["031"%char] ++ data)).
Proof.
  unfold boundCacheKey. generalize (cacheKey_bytes t req clip v). generalize (cacheKey t req clip v). intros base Hb.
  destruct (binding_json b) as [data|] eqn:E; [|done]. intros [= <-]. exists data. split; [done|]. rewrite Hb, upto_last_spec by by apply EncodeToString_free.
  apply to_bytes_inj. rewrite !to_bytes_app, to_of_bytes, <-!app_assoc. done.
Qed.

(** SHA-256 tells these two texts apart. *)
Definition told_apart (x y : bytes) : Prop := sha256 x = sha256 y → x = y.

(** The two texts a key hashes: the request, and the request's key with the
    ranking inputs. *)
Definition request_text (r : SearchRequest) (clip : bool) (v : Z) : bytes := to_bytes (key_text r clip v).
Definition bound_text (t : TenantID) (r : SearchRequest) (clip : bool) (v : Z) (data : bytes) : bytes :=
  to_bytes (cacheKey t r clip v) ++ "031"%char :: data.

Lemma same_request_text r1 r2 c v : same_request r1 r2 → key_text r1 c v = key_text r2 c v.
Proof.
  intros (EQ & ET & EF & ETo & EP & EL & EO & EM & ER). unfold key_text, types_field. by rewrite EQ, ET, EF, ETo, EP, EL, EO, EM, ER.
Qed.

(** C23. Cache keys identify what they stand for.  Two searches with the same
    key are of one tenant; if SHA-256 tells the very texts apart that the two
    keys hash, they carry the same ranking inputs and, when no separator byte
    (0x1f) occurs in the queries and participants, the same request up to the
    order of its document types, the same CLIP plan and the same profile
    version.  Conversely searches of one tenant that agree in these share their
    key. *)
Theorem cache_keys_faithful t1 r1 c1 v1 b1 t2 r2 c2 v2 b2 d1 d2 :
  binding_json b1 = Ok d1 → binding_json b2 = Ok d2 →
  (boundCacheKey (cacheKey t1 r1 c1 v1) b1 = boundCacheKey (cacheKey t2 r2 c2 v2) b2 →
   t1 = t2 ∧
   (told_apart (bound_text t1 r1 c1 v1 d1) (bound_text t2 r2 c2 v2 d2) → told_apart (request_text r1 c1 v1) (request_text r2 c2 v2) →
    d1 = d2 ∧
    (us_free (sr_Query r1) → us_free (sr_Query r2) → us_free (sr_Participant r1) → us_free (sr_Participant r2) →
     same_request r1 r2 ∧ c1 = c2 ∧ v1 = v2))) ∧
  (t1 = t2 → d1 = d2 → same_request r1 r2 → c1 = c2 → v1 = v2 →
   boundCacheKey (cacheKey t1 r1 c1 v1) b1 = boundCacheKey (cacheKey t2 r2 c2 v2) b2).
Proof.
  intros Hd1 Hd2. split.
  - intros E. destruct (boundCacheKey (cacheKey t1 r1 c1 v1) b1) as [k|e] eqn:H1; [|unfold boundCacheKey in H1; by rewrite Hd1 in H1].
    symmetry in E. apply boundCacheKey_shape in H1 as (x1 & Hx1 & ->). apply boundCacheKey_shape in E as (x2 & Hx2 & E).
    rewrite Hd1 in Hx1. rewrite Hd2 in Hx2. injection Hx1 as <-. injection Hx2 as <-.
    apply (f_equal to_bytes) in E. rewrite !to_bytes_app in E. apply app_inv_head in E.
    cbn [to_bytes app] in E. apply split_last in E as [Et Eh]; [|by apply EncodeToString_free..].
    apply to_bytes_inj in Et as <-. split; [done|]. apply to_bytes_inj, EncodeToString_inj in Eh.
    intros Hb Hr. apply Hb in Eh as Exy. unfold bound_text in Exy.
    rewrite !cacheKey_bytes, <-!(app_assoc (to_bytes "q:" ++ to_bytes t1)) in Exy. apply app_inv_head in Exy.
    cbn [app] in Exy. injection Exy as Exy. apply split_first in Exy as [Eb Ed]; [|by apply EncodeToString_free..].
    apply to_bytes_inj, EncodeToString_inj in Eb. apply Hr in Eb. split; [done|]. intros. apply key_text_inj; try done. by apply to_bytes_inj.
  - intros <- <- Hs <- <-. unfold boundCacheKey, cacheKey. by rewrite Hd1, Hd2, (same_request_text r1 r2).
Qed.
End keys.

(** A separator byte in the query shifts the fields: a request with one and a
    request that names a participant hash the same text. *)
Lemma key_text_collides :
  let a := mkSearch "plan" [] None None ("x" +:+ us +:+ us +:+ "-" +:+ us +:+ "-" +:+ us +:+ "bob") 20 0 HYBRID false false in
  let b := mkSearch ("plan" +:+ us +:+ us +:+ "-" +:+ us +:+ "-" +:+ us +:+ "x") [] None None "bob" 20 0 HYBRID false false in
  normalizeRequest a = a ∧ normalizeRequest b = b ∧ a ≠ b ∧ key_text a true 0 = key_text b true 0.
Proof. cbn zeta. split_and!; [vm_compute; reflexivity..|discriminate|vm_compute; reflexivity]. Qed.

(** ** A concrete pair of keys *)
#[local] Instance plain_codec : CacheCodec := {|
  sha256 b := b; binding_json _ := Ok (to_bytes "{}"); resp_Marshal _ := Err "none"; resp_Unmarshal _ := None
|}.

Definition demo_request (types : list DocType) : SearchRequest :=
  mkSearch "plan" types None None "" 20 0 HYBRID false false.

Definition demo_binding : Binding := binding_of newServer emptyPlan false false false DefaultProfile zeroModel.

Definition demo_key (types : list DocType) : result string string :=
  boundCacheKey (cacheKey "acme" (demo_request types) true 0) demo_binding.

Lemma cache_keys_faithful_witness :
  is_ok (demo_key [EMAIL; FILE]) = true ∧ demo_key [EMAIL; FILE] = demo_key [FILE; EMAIL] ∧
  demo_key [EMAIL] ≠ demo_key [FILE].
Proof.
  split; [vm_compute; reflexivity|]. split.
  - apply (cache_keys_faithful (Cc := plain_codec) "acme" (demo_request [EMAIL; FILE]) true 0 demo_binding
      "acme" (demo_request [FILE; EMAIL]) true 0 demo_binding (to_bytes "{}") (to_bytes "{}") eq_refl eq_refl);
      [reflexivity|reflexivity| |reflexivity|reflexivity].
    repeat split; vm_compute; reflexivity.
  - intros E. destruct (cache_keys_faithful (Cc := plain_codec) "acme" (demo_request [EMAIL]) true 0 demo_binding
      "acme" (demo_request [FILE]) true 0 demo_binding (to_bytes "{}") (to_bytes "{}") eq_refl eq_refl) as [H _].
    destruct (H E) as [_ H']. destruct H' as [_ H'']; [exact (λ e, e)|exact (λ e, e)|].
    assert (Hf : us_free "plan" ∧ us_free "") by (split; apply (bool_decide_eq_true_1 _); vm_compute; reflexivity).
    destruct Hf as [Hq Hp]. destruct (H'' Hq Hq Hp Hp) as [(_ & Ht & _) _]. vm_compute in Ht. discriminate.
Defined.
