(* ===== verification/QueryServerProofs.v ===== *)
(** * What a search touches and how it fails

    [Search] and [Count] against the interfaces of what they call: every
    retrieval, profile read and cache key is of the tenant of the context, only
    full-fidelity responses are cached, and a search whose keyword path works
    does not fail. *)

From stdpp Require Import base gmap sets strings list pretty.
From Stdlib Require Import Ascii ZArith Lia.
From S2P Require Import Prelude GoStrings GoText GoFloat GoTime GoDate Tenancy Crypto Interleave Blob ControlPlane Document.
From S2P Require Import QueryVespa QueryVespaProofs QueryRank QueryPlan QueryScope Personalization QueryPersonalize QueryModels QueryServer QueryCacheProofs.

Open Scope Z_scope.

(** ** The stages, against any interface

    [I] the inputs considered, [G] the moves allowed, [E] the codes a search
    may fail with. *)
Section stages.
Context {W : Type} {De : QueryDeps W} {Rc : resultCache W} {Cc : CacheCodec} {Dj : DebugJson}.
Context {Ca : Casing} {Fo : Folding} {Le : Letters} {Me : MathExp} {Fm : FloatMath} {Zd : ZoneDB}.
Context (I : Inp → Prop) (G : W → W → Prop) (E : code → Prop) (t : TenantID).

(** The keys of the tenant. *)
Definition tenant_key (t : TenantID) (k : string) : Prop := ∃ rest, k = "q:" +:+ t +:+ ":" +:+ rest.

(** Retrieval errors a search may end with. *)
Definition fails (e : QueryErr) : Prop := match e with QE_InvalidFilter _ => True | _ => E Unavailable end.
Definition serves {A} (r : result QueryErr A) : Prop := match r with Ok _ => True | Err e => fails e end.
Definition ends (out : result Status SearchResponse * Headers) : Prop :=
  match out.1 with Ok _ => True | Err st => E (st_code st) end.

Context `{HR : !Reflexive G}.
Context (E_invalid : E InvalidArgument) (E_ctx : ∀ i e, I i → in_ctx i = Some e → E Unavailable ∧ E CanceledCode ∧ E DeadlineExceededCode).
Context (H_any : ∀ q, vq_Tenant q = t → each I G (λ _, True) (dep_Search q)).
Context (H_text : ∀ q, vq_Tenant q = t → vq_Kind q = retrieveKeyword ∨ vq_Kind q = retrieveFilterOnly →
  each I G serves (dep_Search q)).
Context (H_hybrid : ∀ q, vq_Tenant q = t → vq_Kind q = retrieveHybrid →
  each I G (λ r, serves r ∨ ∃ e, r = Err e ∧ isDegradable e = true) (dep_Search q)).
Context (H_embed : ∀ s, each I G (λ _, True) (dep_Embed s)) (H_clip : ∀ s, each I G (λ _, True) (dep_EmbedText s)).
Context (H_rerank : ∀ q ds, each I G (λ _, True) (reranker_Rerank q ds)).
Context (H_load : each I G (λ _, True) (dep_Load t)).
Context (H_get : ∀ i k w, tenant_key t k → G w (cache_Get i k w).2).
Context (H_set : ∀ i k resp data w, tenant_key t k → resp_Marshal resp = Ok data →
  rs_Degraded resp = "" → rs_Cached resp = false → G w (cache_Set i k data cacheTTL w).2).

Lemma each_read {A B} (f : Inp → B) (Q : A → Prop) (k : B → prog W A) :
  (∀ i, I i → each I G Q (k (f i))) → each I G Q (Atomic B (input f) k).
Proof using All. intros H i w Hi. split; [apply HR|]. by apply H. Qed.

Lemma each_ctx {A} (Q : A → Prop) (bad : CtxErr → prog W A) (k : prog W A) :
  (∀ e, E Unavailable ∧ E CanceledCode ∧ E DeadlineExceededCode → each I G Q (bad e)) → each I G Q k →
  each I G Q (Atomic _ (input in_ctx) (λ e, match e with Some e => bad e | None => k end)).
Proof using All.
  intros Hb Hk. apply each_read. intros i Hi. destruct (in_ctx i) as [e|] eqn:He; [|done].
  apply Hb. by eapply E_ctx.
Qed.

Lemma alive_each hd k : each I G ends k → each I G ends (alive hd k).
Proof using All. intros Hk. apply each_ctx; [|done]. intros [] He; apply He. Qed.

(** A text query: not a vector one, unless that may fail. *)
Definition text_query (q : vespaQuery) : Prop :=
  vq_Tenant q = t ∧ (E Unavailable ∨ vq_Kind q = retrieveKeyword ∨ vq_Kind q = retrieveFilterOnly ∨ vq_Kind q = retrieveHybrid).

Lemma fails_any e : E Unavailable → fails e.
Proof. by destruct e. Qed.

Lemma ladder_each q : text_query q → each I G (λ r, serves r.1) (searchWithDegradation q).
Proof using All.
  intros [Ht Hk]. apply each_ctx; [intros e He; apply He|]. apply each_bind.
  assert (each I G (λ r, serves r ∨ vq_Kind q = retrieveHybrid ∧ ∃ e, r = Err e ∧ isDegradable e = true) (dep_Search q)) as Hs.
  { destruct Hk as [Hu|[Hk|[Hk|Hk]]]; cycle 3.
    { eapply each_conseq; [|by apply H_hybrid]. naive_solver. }
    { eapply each_conseq; [|by apply H_any]. intros [r|e] _; left; [done|by apply fails_any]. }
    all: eapply each_conseq; [|by apply H_text; auto]; naive_solver. }
  eapply each_conseq; [|exact Hs]. clear Hs. intros [r|e] Hr; [done|]. cbn beta.
  destruct (_ || _) eqn:Ed.
  - destruct Hr as [Hr|(Hh & e' & [= <-] & Hd)]; [done|]. rewrite Hh, Hd in Ed. done.
  - apply each_ctx; [intros e' He; apply He|]. apply each_bind.
    eapply each_conseq; [|apply H_text; [done|by left]]. done.
Qed.

Lemma arm_each b i q : vq_Tenant q = t → each I G (λ _, True) (arm b i q).
Proof using All.
  intros Ht. apply each_ctx; [done|]. destruct (_ && _); apply each_bind.
  - apply each_ctx; [done|]. apply each_bind. eapply each_conseq; [|by apply H_any].
    intros [r|e] _; [done|]. cbn beta. destruct (_ || _); [done|]. apply each_ctx; [done|]. apply each_bind.
    eapply each_conseq; [|by apply H_any]. done.
  - eapply each_conseq; [|by apply H_any]. done.
Qed.

(** The first arm, when it is a text query with the ladder or a keyword one. *)
Definition first_ok (b : bool) (q : vespaQuery) : Prop := vq_Tenant q = t ∧ (b = true ∧ text_query q ∨ vq_Kind q = retrieveKeyword).

Lemma first_arm_each b q : first_ok b q → each I G (λ a, serves (arm_result a)) (arm b 0 q).
Proof using All.
  intros [Ht Hk]. apply each_ctx; [intros e He; apply He|]. cbn [Nat.eqb andb].
  destruct b; apply each_bind.
  - eapply each_conseq; [|apply ladder_each]; [by intros [r f]|].
    destruct Hk as [[_ ?]|Hk]; [done|]. split; [done|]. auto.
  - destruct Hk as [[? _]|Hk]; [done|]. eapply each_conseq; [|apply H_text; auto]. done.
Qed.

(** The arms collected, the first of which served. *)
Definition armed (r : result QueryErr (list retrievalArmResult)) : Prop :=
  match r with Ok (a :: _) => serves (arm_result a) | Ok [] => True | Err e => fails e end.

Lemma collect_rest i arms : each I G serves (collect (W := W) (S i) arms).
Proof using All.
  revert i. induction arms as [|a arms IH]; intros i; [done|]. apply each_ctx; [intros e He; apply He|].
  apply each_bind. eapply each_conseq; [|by apply IH]. by intros [l|e].
Qed.

Lemma collect_each a arms : serves (arm_result a) → each I G armed (collect (W := W) 0 (a :: arms)).
Proof using All.
  intros Ha. apply each_ctx; [intros e He; apply He|]. destruct (arm_result a) as [r|e] eqn:Er; [|done].
  apply each_bind. eapply each_conseq; [|apply collect_rest]. intros [l|e] Hl; [|done]. cbn. by rewrite Er.
Qed.

Lemma parallel_each b q qs :
  first_ok b q → Forall (λ q, vq_Tenant q = t) qs → each I G armed (parallelSearch (q :: qs) b).
Proof using All.
  intros Hq Hqs. apply each_ctx; [intros e He; apply He|]. apply each_bind. cbn [imap par_list]. apply each_bind.
  eapply each_conseq; [|apply each_par; [done|by apply first_arm_each|apply (each_par_list I G (λ _, True)); [done|]]].
  - intros [a arms] [Ha _]. by apply collect_each.
  - apply Forall_lookup. intros j p Hp. rewrite list_lookup_imap in Hp.
    destruct (qs !! j) as [q'|] eqn:Eq; [|done]. injection Hp as <-.
    apply arm_each. by eapply Forall_lookup_1 in Hqs.
Qed.

Lemma merged_each textQ clipQ limit offset reasons :
  text_query textQ → vq_Tenant clipQ = t → each I G serves (searchMerged textQ clipQ limit offset reasons).
Proof using All.
  intros Ht Hc. apply each_bind. eapply each_conseq; [|apply parallel_each]; cycle 1.
  { destruct Ht as [? ?]. split; [done|]. left. by repeat split. }
  { by repeat constructor. }
  intros [[|a [|c [|? ?]]]|e] Hr; try done. cbn [each armed] in *. destruct (arm_result a) as [r|e]; [|done].
  by destruct (arm_result c).
Qed.

Lemma rrf_each base v clipActive cv cap reasons :
  vq_Tenant base = t → each I G serves (retrieveRRF base v clipActive cv cap reasons).
Proof using All.
  intros Ht. apply each_bind. eapply each_conseq; [|apply parallel_each]; cycle 1.
  { split; [done|]. by right. }
  { destruct clipActive; by repeat constructor. }
  intros [[|a arms]|e] Hr; try done. cbn [each armed] in *. destruct (arm_result a) as [r|e]; [|done].
  by destruct (rrf_arms 1 arms reasons).
Qed.

Definition mode_ok (mode : SearchMode) : Prop := E Unavailable ∨ mode ≠ VECTOR.

Lemma plan_text_query plan mode vector v cv hits offset base :
  mode_ok mode → vq_Tenant base = t → text_query (set_arm (retrievalPlan plan mode vector) v cv hits offset base).
Proof using All.
  intros Hm Ht. split; [done|]. destruct Hm as [Hm|Hm]; [by left|right]. cbn [vq_Kind set_arm]. unfold retrievalPlan.
  destruct (String.eqb _ _); [auto|]. destruct (_ || _); [auto|]. rewrite bool_decide_eq_false_2 by done. auto.
Qed.

(** The tail of a single text arm. *)
Lemma single_each q reasons : text_query q →
  each I G serves (bind (searchWithDegradation q) (λ r, Ret (
    let? res := r.1 in Ok (res, if r.2 then addDegraded reasons degradedKeywordOnly else reasons)))).
Proof using All.
  intros Hq. apply each_bind. eapply each_conseq; [|by apply ladder_each]. by intros [[r|e] f].
Qed.

Lemma personalized_each s base plan mode vector clipActive cv reasons :
  mode_ok mode → vq_Tenant base = t →
  each I G serves (retrievePersonalized s base plan mode vector clipActive cv reasons).
Proof using All.
  intros Hm Ht. unfold retrievePersonalized.
  set (fallback := if negb clipActive then _ else _).
  assert (each I G serves fallback) as Hf; cycle 1.
  { destruct (_ && _ && _), vector as [v|]; [by apply rrf_each|done..]. }
  unfold fallback. destruct clipActive; cbn [negb].
  - apply each_bind. eapply each_conseq; [|apply parallel_each]; cycle 1.
    { split; [done|]. left. split; [done|]. by apply plan_text_query. }
    { by repeat constructor. }
    intros [[|a [|c [|? ?]]]|e] Hr; try done. cbn [each armed] in *. destruct (arm_result a) as [r|e]; [|done].
    by destruct (arm_result c).
  - by apply single_each, plan_text_query.
Qed.

(** A call of the tenant: its key is the tenant's, unless the cache is
    bypassed. *)
Definition call_ok (c : SearchCall) : Prop :=
  c_tenant c = t ∧ mode_ok (sr_Mode (c_norm c)) ∧ (c_bypass c = false → tenant_key t (c_key c)).

Lemma clock_each {A} (Q : A → Prop) k : (∀ z, each I G Q (k z)) → each I G Q (read_clock (W := W) k).
Proof using All. intros Hk. apply each_read. intros i _. apply Hk. Qed.

Lemma respond_each c hd res reasons : call_ok c → each I G ends (respond c hd res reasons).
Proof using All.
  intros (_ & _ & Hkey). apply clock_each. intros z. cbv zeta. set (finish := alive (W := W) hd _).
  assert (each I G ends finish) as Hf by (apply alive_each, clock_each; by intros z').
  destruct (_ && _) eqn:Ec; [|done]. apply andb_true_iff in Ec as [Hd Hb].
  apply String.eqb_eq in Hd. apply negb_true_iff in Hb.
  apply each_read. intros i _. destruct (in_ctx i); [done|]. apply each_bind. unfold cacheSet.
  destruct (resp_Marshal _) as [data|] eqn:Em; [|done]. intros i' w Hi'. split; [|done].
  eapply H_set; eauto.
Qed.

Lemma failed_each err hd : fails err → each I G ends (retrieval_failed (W := W) err hd).
Proof using All. intros Hf. apply alive_each. by destruct err. Qed.

Lemma rank_page_each s c hd cands reasons : call_ok c → each I G ends (rank_page s c hd cands reasons).
Proof using All. intros Hc. by apply alive_each, respond_each. Qed.

Lemma applyRerank_moves query hits passages typos maxCand docChars :
  each I G (λ _, True) (applyRerank query hits passages typos maxCand docChars).
Proof using All.
  unfold applyRerank. destruct hits as [|h hits]; [done|]. apply each_ctx; [done|]. apply each_read. intros i _.
  apply each_ctx; [done|]. apply each_bind. eapply each_conseq; [|apply H_rerank]. intros [scores|e] _; [|done].
  cbn beta. destruct (negb _); [done|]. apply each_ctx; [done|]. by destruct (existsb _ scores).
Qed.

Lemma rerank_stage_each s c cands reasons : call_ok c → each I G ends (rerank_stage s c cands reasons).
Proof using All.
  intros Hc. unfold rerank_stage. destruct (_ && _); [|by apply rank_page_each].
  apply each_bind. eapply each_conseq; [|apply applyRerank_moves]. intros [r|e] _; by apply alive_each, rank_page_each.
Qed.

Lemma candidate_stage_each s c vector clip reasons : call_ok c → each I G ends (candidate_stage s c vector clip reasons).
Proof using All.
  intros Hc. apply each_bind. eapply each_conseq; [|apply personalized_each]; [|apply Hc|apply Hc].
  intros [[cands rs]|e] Hr; [by do 2 apply alive_each; apply rerank_stage_each|].
  do 3 apply alive_each. by apply failed_each.
Qed.

Lemma page_stage_each s c vector clip reasons : call_ok c → each I G ends (page_stage s c vector clip reasons).
Proof using All.
  intros Hc. apply each_bind. eapply each_conseq with (Q := serves).
  { intros [[res rs]|e] Hr; [by apply respond_each|by apply failed_each]. }
  pose proof Hc as (Ht & Hm & _).
  destruct clip; [apply merged_each; [by apply plan_text_query|done]|by apply single_each, plan_text_query].
Qed.

Lemma retrieve_stage_each s c vector clip reasons : call_ok c → each I G ends (retrieve_stage s c vector clip reasons).
Proof using All.
  intros Hc. unfold retrieve_stage. destruct (ranks_candidates s c); [by apply candidate_stage_each|by apply page_stage_each].
Qed.

Lemma clip_stage_each s c vector clip reasons : call_ok c → each I G ends (clip_stage s c vector clip reasons).
Proof using All.
  intros Hc. destruct clip as [[cv|e]|]; [by apply alive_each, retrieve_stage_each..|by apply retrieve_stage_each].
Qed.

Lemma optionally_each {A} b (p : prog W A) : each I G (λ _, True) p → each I G (λ _, True) (optionally b p).
Proof using All. intros Hp. destruct b; [|done]. apply each_bind. eapply each_conseq; [|exact Hp]. done. Qed.

Lemma embed_stage_each s c : call_ok c → each I G ends (embed_stage s c).
Proof using All.
  intros Hc. apply each_bind.
  eapply each_conseq; [|apply each_par; [done|by apply optionally_each|by apply optionally_each]].
  intros [[[v|e]|] clip] _; cbn [fst snd]; [| |by apply clip_stage_each]; apply alive_each; [by apply clip_stage_each|].
  case_bool_decide as Hv; [|by apply clip_stage_each]. pose proof Hc as (_ & [?|?] & _); done.
Qed.

Lemma cache_stage_each s c : call_ok c → each I G ends (cache_stage s c).
Proof using All.
  intros Hc. unfold cache_stage. destruct (c_bypass c) eqn:Hb; [by apply alive_each, embed_stage_each|].
  apply each_bind. intros i w Hi. split; [apply H_get; by apply Hc|]. cbn [each].
  apply alive_each. destruct (match (cache_Get i (c_key c) w).1 with Ok (Some data) => _ | _ => _ end);
    [apply clock_each; by intros z|by apply embed_stage_each].
Qed.

Lemma make_call_ok s ctx start now norm plan profile model :
  mode_ok (sr_Mode norm) → call_ok (make_call s ctx t start now norm plan profile model).
Proof using All.
  intros Hm. split_and!; [done|done|]. unfold make_call. cbn [c_bypass c_key].
  destruct (boundCacheKey _ _) as [k|e] eqn:Ek; [|done]. intros _.
  apply boundCacheKey_shape in Ek as (data & _ & ->). by eexists.
Qed.

(** A search of the tenant. *)
Lemma search_each s ctx tc req :
  FromContext ctx = Ok tc → tenantID tc = t → mode_ok (sr_Mode (normalizeRequest req)) → each I G ends (Search s ctx req).
Proof using All.
  intros Htc Ht Hm. apply clock_each. intros start. rewrite Htc. apply clock_each. intros now. cbv zeta.
  destruct (plan_error _) as [st|] eqn:Ep.
  { unfold plan_error in Ep. destruct (negb _); [by injection Ep as <-|]. destruct (_ && _); [by injection Ep as <-|done]. }
  rewrite Ht. apply each_bind. eapply each_conseq with (Q := λ _, True).
  { intros pm _. apply alive_each. destruct (_ && _); [done|]. by apply cache_stage_each, make_call_ok. }
  by destruct (sv_profiles s).
Qed.
End stages.

(** ** The wired service keeps to its tenant *)
Section wired.
Context {W : Type} {Va : SearchAPI W} {Vj : VespaJson} {Ma : ModelAPI W} {Ij : InferenceJson} {Ps : ProfileStore W}.
Context {Pj : ProfileJson} {Rc : resultCache W} {Cc : CacheCodec} {Dj : DebugJson}.
Context {Ca : Casing} {Fo : Folding} {Le : Letters} {Me : MathExp} {Fm : FloatMath} {Zd : ZoneDB}.

(** What one action may do for tenant [t]. *)
Inductive touches (t : TenantID) : W → W → Prop :=
| touch_none w : touches t w w
| touch_vespa i url rq w : rq_groupname rq = t → touches t w (vespa_Do i url rq w).2
| touch_model i url p ms w : touches t w (model_Do i url p ms w).2
| touch_profile i k w : k = RedisProfileKey t ∨ k = RedisWeightsKey t → touches t w (redis_Get i k w).2
| touch_cached i k w : tenant_key t k → touches t w (cache_Get i k w).2
| touch_cache i k resp data w :
    tenant_key t k → resp_Marshal resp = Ok data → rs_Degraded resp = "" → rs_Cached resp = false →
    touches t w (cache_Set i k data cacheTTL w).2.

#[local] Instance touches_refl t : Reflexive (touches t).
Proof. constructor. Qed.

Lemma vespa_each I cfgURL ctx q :
  each I (touches (vq_Tenant q)) (λ _, True) (vespa_Search cfgURL ctx q).
Proof.
  intros i w _. split; [constructor|]. cbn [input fst snd]. destruct (in_ctx i); [done|].
  destruct (buildYQL q); [|done]. destruct (body_timeout _); [|done].
  intros i' w' _. split; [|done]. by apply touch_vespa.
Qed.

Lemma post_each I t name url p : each I (touches t) (λ _, True) (post name url p).
Proof.
  unfold post. destruct (url_error url); [done|]. intros i w _. split; [constructor|]. cbn [input fst snd].
  destruct (setRequestTimeoutHeader _ _); [|done]. intros i' w' _. split; [apply touch_model|done].
Qed.

Lemma load_each I t : each I (touches t) (λ _, True) (Load t).
Proof.
  intros i w _. split; [constructor|]. cbn [input fst snd]. destruct (in_ctx i); [done|].
  intros i' w' _. destruct (redis_Get i' (RedisProfileKey t) w') as [d w1] eqn:E1. cbn [fst snd].
  split. { replace w1 with (redis_Get i' (RedisProfileKey t) w').2 by by rewrite E1. by apply touch_profile; left. }
  intros i2 w2 _. split; [constructor|]. cbn [input fst snd]. destruct (in_ctx i2); [done|].
  intros i3 w3 _. split; [|done]. by apply touch_profile; right.
Qed.

(** The codes a search may end with. *)
Definition search_codes : list code := [InvalidArgument; Unavailable; CanceledCode; DeadlineExceededCode].

(** C17. A search and a count act for the tenant of the verified context and no
    other, in any interleaving with other calls: every Vespa query names the
    tenant's group, every profile read and every cache key is the tenant's,
    and what is cached is a response that is not degraded.  Without a tenant
    both are refused as Unauthenticated and touch nothing; with one, a search
    fails only with the documented codes. *)
Theorem search_tenant_scoped (s : server) (cfg : QueryConfig) (ctx : Ctx) (req : SearchRequest) :
  let search := Search (De := wired cfg ctx) s ctx req in
  let count := Count (De := wired cfg ctx) ctx in
  match FromContext ctx with
  | Err _ =>
    each anyhow eq (λ out, ∃ msg, out.1 = Err (mkStatus Unauthenticated msg)) search ∧
    each anyhow eq (λ out, ∃ msg, out = Err (mkStatus Unauthenticated msg)) count
  | Ok tc =>
    each anyhow (touches (tenantID tc))
      (λ out, match out.1 with Ok _ => True | Err st => st_code st ∈ search_codes end) search ∧
    each anyhow (touches (tenantID tc)) (λ _, True) count
  end.
Proof.
  cbv zeta. destruct (FromContext ctx) as [tc|e] eqn:Htc; cycle 1.
  { split; [intros i w _; split; [done|]|]; unfold Count; rewrite Htc; by eexists. }
  assert (∀ q, vq_Tenant q = tenantID tc →
    each anyhow (touches (tenantID tc)) (λ _, True) (dep_Search (QueryDeps := wired cfg ctx) q)) as Hs
    by (intros q <-; apply vespa_each).
  split.
  - eapply search_each with (E := λ c, c ∈ search_codes) (t := tenantID tc); try done.
    all: try (unfold search_codes; intros; set_solver).
    all: try (by intros; apply each_bind; (eapply each_conseq; [|apply post_each])).
    all: try (by intros; eapply each_conseq; [|by apply Hs]; intros [|[]] _; cbn; unfold search_codes; set_solver).
    + apply touches_refl.
    + intros q ds. cbn. unfold Rerank. destruct ds; [done|]. apply each_bind. eapply each_conseq; [|apply post_each]. done.
    + apply load_each.
    + intros. by apply touch_cached.
    + intros. by eapply touch_cache.
    + left. unfold search_codes. set_solver.
  - unfold Count. rewrite Htc. apply each_bind. eapply each_conseq; [|by apply Hs]. done.
Qed.
End wired.

(** ** A search does not fail closed *)
Definition uncancelled (i : Inp) : Prop := in_ctx i = None.

(** An answer to a hybrid query that the ladder takes for final: any but a
    failed exchange, a 5xx status and a result. *)
Definition terminal `{!VespaJson} (x : Exchange) : Prop :=
  match x with
  | XTransport _ | XRead _ => False
  | XMarshal _ | XBuild _ => True
  | XResponse st body => st < 500 ∧ (st = 200 → is_ok (parseVespaResponse (take maxVespaResponseBytes body) retrieveHybrid) = false)
  end.

#[local] Instance anything_refl {W} : Reflexive (@anything W).
Proof. done. Qed.

Lemma each_anything {W A} I (p : prog W A) : each I anything (λ _, True) p.
Proof. induction p as [a|X f k IH]; [done|]. intros i w _. split; [done|apply IH]. Qed.

Section never_closed.
Context {W : Type} {Va : SearchAPI W} {Vj : VespaJson} {Ma : ModelAPI W} {Ij : InferenceJson} {Ps : ProfileStore W}.
Context {Pj : ProfileJson} {Rc : resultCache W} {Cc : CacheCodec} {Dj : DebugJson}.
Context {Ca : Casing} {Fo : Folding} {Le : Letters} {Me : MathExp} {Fm : FloatMath} {Zd : ZoneDB}.

(** Every keyword query is answered, with a result. *)
Definition keyword_up : Prop := ∀ i url rq (w : W), rq_profile rq = "keyword" →
  ∃ body, (vespa_Do i url rq w).1 = XResponse 200 body ∧
    ∀ kind, is_ok (parseVespaResponse (take maxVespaResponseBytes body) kind) = true.

(** Some hybrid query of the tenant is refused for good. *)
Definition hybrid_refused (t : TenantID) : Prop :=
  ∃ i url rq (w : W), rq_profile rq = "hybrid" ∧ rq_groupname rq = t ∧ terminal (vespa_Do i url rq w).1.

(** The codes a search may fail with. *)
Definition closed_codes (t : TenantID) (c : code) : Prop := c = InvalidArgument ∨ c = Unavailable ∧ hybrid_refused t.

Context (cfg : QueryConfig) (ctx : Ctx) (H_left : ∀ i, is_Some (body_timeout (time_left i ctx))).

Lemma text_serves t q : keyword_up → vq_Kind q = retrieveKeyword ∨ vq_Kind q = retrieveFilterOnly →
  each uncancelled anything (serves (closed_codes t)) (dep_Search (QueryDeps := wired cfg ctx) q).
Proof using H_left.
  intros Hup Hk i w Hi. split; [done|]. cbn [input fst snd]. rewrite Hi.
  destruct (buildYQL q) as [yql|e] eqn:Ey; [|apply buildYQL_refuses in Ey as [_ [m ->]]; done].
  destruct (H_left i) as [tmo ->]. intros i' w' _. split; [done|]. cbn [each].
  destruct (Hup i' (searchURL (cfg_VespaURL cfg)) (search_body q yql tmo) w') as (body & -> & Hp);
    [by destruct Hk as [Hk|Hk]; cbn; rewrite Hk|]. specialize (Hp (vq_Kind q)). cbv beta iota zeta.
  change (500 <=? 200) with false. change (negb (200 =? 200)) with false. cbv iota.
  by destruct (parseVespaResponse _ _) as [r|[]].
Qed.

Lemma hybrid_serves t q : vq_Tenant q = t → vq_Kind q = retrieveHybrid →
  each uncancelled anything (λ r, serves (closed_codes t) r ∨ ∃ e, r = Err e ∧ isDegradable e = true)
    (dep_Search (QueryDeps := wired cfg ctx) q).
Proof using H_left.
  intros Ht Hk i w Hi. split; [done|]. cbn [input fst snd]. rewrite Hi.
  destruct (buildYQL q) as [yql|e] eqn:Ey; [|apply buildYQL_refuses in Ey as [_ [m ->]]; by left].
  destruct (H_left i) as [tmo ->]. intros i' w' _. split; [done|]. cbn [each]. cbn beta.
  destruct (vespa_Do i' _ _ w').1 as [e|e|e|e|st body] eqn:Ex; [| |right; by eexists|right; by eexists|].
  - left. right. split; [done|]. eexists _, _, _, _. split_and!; [| |by rewrite Ex]; [by cbn; rewrite Hk|done].
  - left. right. split; [done|]. eexists _, _, _, _. split_and!; [| |by rewrite Ex]; [by cbn; rewrite Hk|done].
  - cbv zeta. destruct (Z.leb_spec 500 st) as [|Hst]; [right; by eexists|].
    assert (Hterm : (st = 200 → is_ok (parseVespaResponse (take maxVespaResponseBytes body) retrieveHybrid) = false) → hybrid_refused t).
    { intros Hb. eexists _, _, _, _. split_and!; [| |rewrite Ex; split; [done|exact Hb]]; [by cbn; rewrite Hk|done]. }
    destruct (Z.eqb_spec st 200) as [->|Hne]; cbn [negb]; [|left; right; split; [done|by apply Hterm]].
    rewrite Hk. destruct (parseVespaResponse _ _) as [r|e] eqn:Ep; [by left|]. left.
    destruct e; try done; (right; split; [done|by apply Hterm]).
Qed.

End never_closed.

(** ** A concrete outage: models, cache, profiles and the hybrid profile down *)
#[local] Instance out_vespa : SearchAPI unit := {|
  vespa_Do _ _ rq w := (if String.eqb (rq_profile rq) "keyword" then XResponse 200 [] else XTransport "down", w);
  time_left _ _ := None
|}.
#[local] Instance out_json : VespaJson := {|
  json_response _ := Ok (QueryVespa.mkResponse 3 [] []);
  json_tensor _ := None; json_cells _ := None; json_any_map _ := None
|}.
#[local] Instance out_models : ModelAPI unit := {|
  url_error _ := None; model_left _ := second; model_Do _ _ _ _ w := (RFailed "down", w)
|}.
#[local] Instance out_inference : InferenceJson := {|
  dec_vectors _ := Err "none"; dec_embeddings _ := Err "none"; dec_scores _ := Err "none"
|}.
#[local] Instance out_profiles : ProfileStore unit := {| redis_Get _ _ w := (None, w) |}.
#[local] Instance out_profile_json : ProfileJson := {|
  json_profile _ := None; json_into_model _ := zeroModel; visit_order _ _ := []
|}.
#[local] Instance out_cache : resultCache unit := {|
  cache_Get _ _ w := (Err "down", w); cache_Set _ _ _ _ w := (Err "down", w)
|}.
#[local] Instance out_codec : CacheCodec := {|
  sha256 b := b; binding_json _ := Err "none"; resp_Marshal _ := Err "none"; resp_Unmarshal _ := None
|}.
#[local] Instance out_debug : DebugJson := {| debug_json _ := None |}.
#[local] Instance out_casing : Casing := {| ToLower s := s; ToUpper s := s |}.
#[local] Instance out_folding : Folding := {| fold_eq := String.eqb |}.
#[local] Instance out_letters : Letters := {| IsLetter r := 97 <=? r; IsNumber _ := false; IsMark _ := false |}.
#[local] Instance out_exp : MathExp := {| Exp _ := fone |}.
#[local] Instance out_exp2 : FloatMath := {| Exp2 _ := fone |}.
#[local] Instance out_zones : ZoneDB := {| LoadLocation _ := None |}.

Definition out_cfg : QueryConfig := mkConfig "http://vespa" "http://tei" 4 "http://clip" 4 "http://rerank".
Definition out_ctx : Ctx := mkCtx None (Some (mkContext "acme" "acme")) None ∅.
Definition out_ins (n : nat) : Inp := mkInp None None (mkEnv (λ _, 0) (λ _, 0) "").
Definition out_req : SearchRequest := mkSearch "quarterly plan" [] None None "" 20 0 HYBRID false true.

Lemma out_keyword_up : keyword_up (W := unit).
Proof. intros i url rq w Hp. cbn [vespa_Do out_vespa fst]. rewrite Hp. by eexists. Qed.

Lemma out_not_refused : ¬ hybrid_refused (W := unit) "acme".
Proof. intros (i & url & rq & w & Hp & _ & Ht). cbn [vespa_Do out_vespa fst] in Ht. by rewrite Hp in Ht. Qed.


Example outage_search :
  (run (Search (De := wired out_cfg out_ctx) newServer out_ctx out_req) out_ins tt).1.1 =
  Ok (mkResponse [] 3 "rerank-not-enabled,keyword-only,clip-unavailable" 0 false).
Proof. lazy. reflexivity. Qed.
