(* ===== verification/OAuth.v ===== *)
(** * OAuth credentials

    Models [platform/oauth]: the table of OAuth connectors (provider.go), the
    client configuration (config.go), the parts of token.go the hub does not
    use, and the service that builds authorize URLs, exchanges codes and
    refreshes tokens (service.go), with Slack's own token envelope.
    golang.org/x/oauth2, the HTTP client and JSON are parameters. *)

From stdpp Require Import base gmap strings list pretty.
From Stdlib Require Import Ascii ZArith Lia.
From S2P Require Import Prelude GoStrings GoText Tenancy Crypto Interleave Erasure Kafka QueryVespa HubScheduler HubSync.

Open Scope Z_scope.

(** ** provider.go *)
Abbreviation Provider := string (only parsing).

Definition Google : Provider := "google".
Definition Microsoft : Provider := "microsoft".
Definition Slack : Provider := "slack".
Definition Atlassian : Provider := "atlassian".

Definition Providers : list Provider := [Google; Microsoft; Slack; Atlassian].

Definition ParseProvider (s : string) : option Provider :=
  if bool_decide (s ∈ Providers) then Some s else None.

Definition provider_Valid (p : Provider) : bool := bool_decide (is_Some (ParseProvider p)).

Definition connectorMapping : list (string * (Provider * list string)) :=
  [("gmail", (Google, ["https://www.googleapis.com/auth/gmail.readonly"]));
   ("gcal", (Google, ["https://www.googleapis.com/auth/calendar.readonly"]));
   ("gdrive", (Google, ["https://www.googleapis.com/auth/drive.readonly"]));
   ("outlook-mail", (Microsoft, ["Mail.Read"; "offline_access"]));
   ("outlook-cal", (Microsoft, ["Calendars.Read"; "offline_access"]));
   ("msteams", (Microsoft, ["Chat.Read"; "ChannelMessage.Read.All"; "offline_access"]));
   ("slack", (Slack, ["channels:history"; "channels:read"; "users:read"]));
   ("jira", (Atlassian, ["read:jira-work"; "offline_access"]));
   ("confluence", (Atlassian, ["read:confluence-content.all"; "offline_access"]))].

Definition ConnectorOAuth (connectorID : string) : option (Provider * list string) :=
  snd <$> find (λ e, String.eqb e.1 connectorID) connectorMapping.

Definition errUnconfigured `{!Quoting} (p : Provider) : string :=
  "oauth: provider " +:+ Quote p +:+ " is not configured (missing client_id/client_secret)".
Definition errUnknownProvider `{!Quoting} (p : Provider) : string := "oauth: unknown provider " +:+ Quote p.

(** ** config.go *)
Definition defaultGoogleAuthURL : string := "https://accounts.google.com/o/oauth2/v2/auth".
Definition defaultGoogleTokenURL : string := "https://oauth2.googleapis.com/token".
Definition defaultMicrosoftAuthTmpl : string := "https://login.microsoftonline.com/%s/oauth2/v2.0/authorize".
Definition defaultMicrosoftTokenTmpl : string := "https://login.microsoftonline.com/%s/oauth2/v2.0/token".
Definition defaultSlackAuthURL : string := "https://slack.com/oauth/v2/authorize".
Definition defaultSlackTokenURL : string := "https://slack.com/api/oauth.v2.access".
Definition defaultAtlassianAuthURL : string := "https://auth.atlassian.com/authorize".
Definition defaultAtlassianTokenURL : string := "https://auth.atlassian.com/oauth/token".
Definition defaultMicrosoftTenant : string := "common".
Definition defaultAtlassianAudience : string := "api.atlassian.com".

Record ProviderConfig := mkProviderConfig {
  pc_ClientID : string; pc_ClientSecret : string; pc_AuthURL : string; pc_TokenURL : string;
  pc_Tenant : string; pc_Audience : string
}.

Record Config := mkOAuthConfig {
  cfg_Google : ProviderConfig; cfg_Microsoft : ProviderConfig;
  cfg_Slack : ProviderConfig; cfg_Atlassian : ProviderConfig
}.

Definition providerConfig (c : Config) (p : Provider) : option ProviderConfig :=
  if String.eqb p Google then Some (cfg_Google c)
  else if String.eqb p Microsoft then Some (cfg_Microsoft c)
  else if String.eqb p Slack then Some (cfg_Slack c)
  else if String.eqb p Atlassian then Some (cfg_Atlassian c)
  else None.

Definition has_credentials (pc : ProviderConfig) : bool :=
  negb (String.eqb (pc_ClientID pc) "") && negb (String.eqb (pc_ClientSecret pc) "").

Definition IsConfigured (c : Config) (p : Provider) : bool :=
  match providerConfig c p with Some pc => has_credentials pc | None => false end.

Fixpoint firstNonEmpty (vals : list string) : string :=
  match vals with [] => "" | v :: vals' => if String.eqb v "" then firstNonEmpty vals' else v end.

(** [strings.Replace(s, old, by, 1)] *)
Definition replace_first (s old by_ : string) : string :=
  match Index s old with
  | Some n => take_str n s +:+ by_ +:+ drop_str (n + String.length old) s
  | None => s
  end.

Definition msEndpoint (tmpl tenant : string) : string := replace_first tmpl "%s" tenant.

Section load.
Context `{!Casing} (os_Getenv : string → string).

Definition envPrefix : string := "ASKER_OAUTH_".

Definition getenv (p : Provider) (suffix : string) : string :=
  os_Getenv (envPrefix +:+ ToUpper p +:+ "_" +:+ suffix).

Definition LoadConfig : Config :=
  let tenant := firstNonEmpty [os_Getenv (envPrefix +:+ "MICROSOFT_TENANT"); defaultMicrosoftTenant] in
  let audience := firstNonEmpty [os_Getenv (envPrefix +:+ "ATLASSIAN_AUDIENCE"); defaultAtlassianAudience] in
  let load p auth token := mkProviderConfig (getenv p "CLIENT_ID") (getenv p "CLIENT_SECRET")
    (firstNonEmpty [getenv p "AUTH_URL"; auth]) (firstNonEmpty [getenv p "TOKEN_URL"; token]) in
  mkOAuthConfig
    (load Google defaultGoogleAuthURL defaultGoogleTokenURL "" "")
    (load Microsoft (msEndpoint defaultMicrosoftAuthTmpl tenant) (msEndpoint defaultMicrosoftTokenTmpl tenant) tenant "")
    (load Slack defaultSlackAuthURL defaultSlackTokenURL "" "")
    (load Atlassian defaultAtlassianAuthURL defaultAtlassianTokenURL "" audience).
End load.

(** ** golang.org/x/oauth2 *)
Record oauth2Config := mkOAuth2Config {
  o2_ClientID : string; o2_ClientSecret : string; o2_AuthURL : string; o2_TokenURL : string;
  o2_RedirectURL : string; o2_Scopes : list string
}.

(** [o2_scope] is [Extra("scope")] as a string. *)
Record oauth2Token := mkOAuth2Token {
  o2_AccessToken : string; o2_RefreshToken : string; o2_TokenType : string; o2_Expiry : option Z;
  o2_scope : string
}.

(** Slack's reply, as [json.Unmarshal] reads it. *)
Record slackTokenResponse := mkSlackResponse {
  sl_OK : bool; sl_Error : string; sl_Scope : string; sl_TokenType : string;
  sl_AccessToken : string; sl_RefreshToken : string; sl_UserTokenType : string; sl_UserScope : string;
  sl_ExpiresIn : Z
}.

(** A POST that got no response, and one that got a status and a body that may
    fail to be read. *)
Abbreviation post_reply := (result string (Z * result string bytes)).

(** [Config.AuthCodeURL] with its extra parameters, [Config.Exchange] with a
    PKCE verifier, the [Token] of a [TokenSource], the injected HTTP client,
    and [json.Unmarshal] of Slack's reply. *)
Class OAuth2 (W : Type) := {
  lib_AuthCodeURL : oauth2Config → string → list (string * string) → string;
  lib_Exchange : oauth2Config → string → string → Inp → W → result string oauth2Token * W;
  lib_Token : oauth2Config → oauth2Token → Inp → W → result string oauth2Token * W;
  lib_NewRequest : string → option string;
  lib_Post : string → string → Inp → W → post_reply * W;
  slack_json : bytes → result string slackTokenResponse
}.

(** ** token.go *)
Definition OAuth2Token (t : Token) : oauth2Token :=
  mkOAuth2Token (tk_access t) (tk_refresh t) (tk_type t) (tk_expiry t) "".

Definition or_else (s d : string) : string := if String.eqb s "" then d else s.
Definition or_expiry (e d : option Z) : option Z := match e with None => d | Some _ => e end.

Definition noToken : Token := mkOAuthToken "" "" "" "" "" "" None "".

Definition tokenFrom (provider : Provider) (connectorID : string) (tok : oauth2Token) (prev : Token) : Token :=
  mkOAuthToken tokenMarker provider connectorID (o2_AccessToken tok)
    (or_else (o2_RefreshToken tok) (tk_refresh prev)) (o2_TokenType tok)
    (or_expiry (o2_Expiry tok) (tk_expiry prev)) (or_else (o2_scope tok) (tk_scope prev)).

(** ** service.go *)
Section service.
Context `{!Quoting} {W : Type} `{!OAuth2 W} (cfg : Config).

Definition oauthConfig (p : Provider) (scopes : list string) (redirectURI : string) :
    result string (oauth2Config * ProviderConfig) :=
  match providerConfig cfg p with
  | None => Err (errUnknownProvider p)
  | Some pc =>
    if negb (has_credentials pc) then Err (errUnconfigured p)
    else Ok (mkOAuth2Config (pc_ClientID pc) (pc_ClientSecret pc) (pc_AuthURL pc) (pc_TokenURL pc) redirectURI scopes, pc)
  end.

Definition provider_params (p : Provider) (pc : ProviderConfig) (scopes : list string) : list (string * string) :=
  if String.eqb p Google then [("access_type", "offline"); ("prompt", "consent")]
  else if String.eqb p Atlassian then [("audience", pc_Audience pc); ("prompt", "consent")]
  else if String.eqb p Slack then [("user_scope", Join scopes ",")]
  else [].

Definition oauth_AuthCodeURL (p : Provider) (scopes : list string) (redirectURI state challenge : string) :
    result string string :=
  let? r := oauthConfig p scopes redirectURI in
  let '(conf, pc) := r in
  let opts := [("code_challenge", challenge); ("code_challenge_method", "S256")] ++ provider_params p pc scopes in
  let conf := if String.eqb p Slack
    then mkOAuth2Config (o2_ClientID conf) (o2_ClientSecret conf) (o2_AuthURL conf) (o2_TokenURL conf) (o2_RedirectURL conf) []
    else conf in
  Ok (lib_AuthCodeURL conf state opts).

Definition slackErr (code : string) : string := if String.eqb code "" then "unknown_error" else code.

(** [1 << 20] *)
Definition slackBodyLimit : nat := Z.to_nat (2 ^ 20).

(** The reply as a token, at the instant [now]. *)
Definition slack_token (op : string) (sr : slackTokenResponse) (now : Z) : result string Token :=
  if negb (sl_OK sr) then Err ("oauth: slack " +:+ op +:+ " failed: " +:+ slackErr (sl_Error sr))
  else if String.eqb (sl_AccessToken sr) "" then Err ("oauth: slack " +:+ op +:+ ": no user access token in response")
  else
    let tokenType := firstNonEmpty [sl_UserTokenType sr; sl_TokenType sr; "Bearer"] in
    let scope := firstNonEmpty [sl_UserScope sr; sl_Scope sr] in
    let expiry := if 0 <? sl_ExpiresIn sr then Some (now + wrap64 (sl_ExpiresIn sr * second)) else None in
    Ok (mkOAuthToken tokenMarker Slack "" (sl_AccessToken sr) (sl_RefreshToken sr) tokenType expiry scope).

Definition slackTokenRequest (tokenURL : string) (form : list (string * string)) (op : string) :
    prog W (result string Token) :=
  match lib_NewRequest tokenURL with
  | Some e => Ret (Err ("oauth: slack " +:+ op +:+ " request: " +:+ e))
  | None =>
  Atomic _ (lib_Post tokenURL (encode_values form)) (λ r,
  match r with
  | Err e => Ret (Err ("oauth: slack " +:+ op +:+ ": " +:+ e))
  | Ok (_, Err e) => Ret (Err ("oauth: slack " +:+ op +:+ ": read body: " +:+ e))
  | Ok (status, Ok body) =>
    if negb (status =? 200) then Ret (Err ("oauth: slack " +:+ op +:+ ": HTTP " +:+ pretty status))
    else match slack_json (take slackBodyLimit body) with
    | Err e => Ret (Err ("oauth: slack " +:+ op +:+ ": decode: " +:+ e))
    | Ok sr => Atomic _ (input (λ i, clock (in_env i) 0)) (λ now, Ret (slack_token op sr now))
    end
  end)
  end.

(** The forms are encoded in key order. *)
Definition exchangeSlack (code redirectURI pkceVerifier : string) : prog W (result string Token) :=
  match oauthConfig Slack [] redirectURI with
  | Err e => Ret (Err e)
  | Ok (conf, _) =>
    slackTokenRequest (o2_TokenURL conf)
      [("client_id", o2_ClientID conf); ("client_secret", o2_ClientSecret conf); ("code", code);
       ("code_verifier", pkceVerifier); ("redirect_uri", redirectURI)] "exchange"
  end.

Definition oauth_Exchange (p : Provider) (code redirectURI pkceVerifier : string) : prog W (result string Token) :=
  if String.eqb p Slack then exchangeSlack code redirectURI pkceVerifier
  else match oauthConfig p [] redirectURI with
  | Err e => Ret (Err e)
  | Ok (conf, _) =>
    Atomic _ (lib_Exchange conf code pkceVerifier) (λ r, Ret (
    match r with
    | Err e => Err ("oauth: " +:+ p +:+ " exchange: " +:+ e)
    | Ok tok => Ok (tokenFrom p "" tok noToken)
    end))
  end.

Definition refreshSlack (t : Token) : prog W (result string Token) :=
  match oauthConfig Slack [] "" with
  | Err e => Ret (Err e)
  | Ok (conf, _) =>
    bind (slackTokenRequest (o2_TokenURL conf)
      [("client_id", o2_ClientID conf); ("client_secret", o2_ClientSecret conf); ("grant_type", "refresh_token");
       ("refresh_token", tk_refresh t)] "refresh") (λ r, Ret (
    let? tok := r in
    Ok (mkOAuthToken (tk_asker_oauth tok) (tk_provider tok) (tk_connector t) (tk_access tok)
      (or_else (tk_refresh tok) (tk_refresh t)) (tk_type tok) (or_expiry (tk_expiry tok) (tk_expiry t))
      (or_else (tk_scope tok) (tk_scope t)))))
  end.

Definition oauth_Refresh (p : Provider) (t : Token) : prog W (result string Token) :=
  if negb (IsConfigured cfg p) then
    Ret (Err (match providerConfig cfg p with None => errUnknownProvider p | Some _ => errUnconfigured p end))
  else if String.eqb (tk_refresh t) "" then Ret (Ok t)
  else if String.eqb p Slack then refreshSlack t
  else match oauthConfig p [] "" with
  | Err e => Ret (Err e)
  | Ok (conf, _) =>
    Atomic _ (lib_Token conf (OAuth2Token t)) (λ r, Ret (
    match r with
    | Err e => Err ("oauth: " +:+ p +:+ " refresh: " +:+ e)
    | Ok tok => Ok (tokenFrom p (tk_connector t) tok t)
    end))
  end.
End service.

(** ** Properties *)
Lemma or_else_nonempty s d : d ≠ "" → or_else s d ≠ "".
Proof. unfold or_else. by destruct (String.eqb_spec s ""). Qed.

Lemma or_expiry_some e d x : d = Some x → is_Some (or_expiry e d).
Proof. intros ->. destruct e; simpl; eauto. Qed.

(** [t'] renews [t] at provider [p]: nothing [t] needs to be renewed again is lost. *)
Definition renews (p : Provider) (t t' : Token) : Prop :=
  tk_asker_oauth t' = tokenMarker ∧ tk_provider t' = p ∧ tk_connector t' = tk_connector t ∧
  tk_refresh t' ≠ "" ∧ (tk_scope t ≠ "" → tk_scope t' ≠ "") ∧ (is_Some (tk_expiry t) → is_Some (tk_expiry t')).

Section proofs.
Context `{!Quoting} {W : Type} `{!OAuth2 W} (cfg : Config).

Lemma tokenFrom_renews p tok t : tk_refresh t ≠ "" → renews p t (tokenFrom p (tk_connector t) tok t).
Proof using Type.
  intros Hr. split_and!; [done|done|done|by apply or_else_nonempty|apply or_else_nonempty|].
  intros [x Hx]. by eapply or_expiry_some.
Qed.

Lemma slackTokenRequest_marked tokenURL form op :
  each anyhow anything (λ r, ∀ t, r = Ok t →
    tk_asker_oauth t = tokenMarker ∧ tk_provider t = Slack ∧ tk_access t ≠ "")
    (slackTokenRequest tokenURL form op : prog W _).
Proof using Type.
  unfold slackTokenRequest. destruct (lib_NewRequest _); [done|]. intros i w _. split; [done|].
  destruct (lib_Post _ _ _ _) as [[[status [body|]]|] w']; cbn [fst]; [|done|done].
  destruct (negb _); [done|]. destruct (slack_json _) as [sr|]; [|done]. intros j w2 _. split; [done|].
  cbn [input fst each]. intros t. unfold slack_token. destruct (negb _); [done|].
  destruct (String.eqb_spec (sl_AccessToken sr) ""); [done|]. by intros [= <-].
Qed.

Lemma refreshSlack_renews t :
  tk_refresh t ≠ "" → each anyhow anything (λ r, ∀ t', r = Ok t' → renews Slack t t') (refreshSlack cfg t : prog W _).
Proof using Type.
  intros Hr. unfold refreshSlack. destruct (oauthConfig _ _ _ _) as [[conf pc]|]; [|done]. apply each_bind.
  eapply each_conseq; [|apply slackTokenRequest_marked]. intros [tok|e] Hq; cbn; [|done]. intros t' [= <-].
  destruct (Hq tok eq_refl) as (Hm & Hp & _). split_and!; cbn; [done|done|done|by apply or_else_nonempty|apply or_else_nonempty|].
  intros [x Hx]. by eapply or_expiry_some.
Qed.
End proofs.

(** A refresh never loses a credential: whatever the provider answers, a
    token without a refresh token comes back as it was, and any other token
    that comes back carries the marker, the provider, its connector, a
    non-empty refresh token, a scope and an expiry if it had them; so a
    renewed token with an expiry asks for the next refresh as soon as the
    margin before that expiry is reached, and the token vault reads it back as
    an OAuth credential.  A provider without credentials is refused before any
    call. *)
Theorem refresh_keeps_credential `{!Quoting, !HubDeps} {W} `{!OAuth2 W} (cfg : Config) (p : Provider) (t : Token) :
  each anyhow anything (λ r, ∀ t', r = Ok t' →
    (tk_refresh t = "" → t' = t) ∧
    (tk_refresh t ≠ "" → renews p t t' ∧
      (∀ e skew, tk_expiry t = Some e → ∃ e', ∀ now, NeedsRefresh t' now skew = (e' - skew <=? now)) ∧
      (∀ b, oauth_Marshal t' = Ok b → json_to_token b = Ok t' → oauth_Parse b = Some t')))
    (oauth_Refresh cfg p t : prog W _) ∧
  (IsConfigured cfg p = false → ∃ e, (oauth_Refresh cfg p t : prog W _) = Ret (Err e)).
Proof.
  assert (Hren : ∀ t', renews p t t' →
    (∀ e skew, tk_expiry t = Some e → ∃ e', ∀ now, NeedsRefresh t' now skew = (e' - skew <=? now)) ∧
    (∀ b, oauth_Marshal t' = Ok b → json_to_token b = Ok t' → oauth_Parse b = Some t')).
  { intros t' (Hm & _ & _ & Hr & _ & He). split.
    - intros e skew Hte. destruct He as [e' He']; [by rewrite Hte|]. exists e'. intros now.
      unfold NeedsRefresh. rewrite He', (proj2 (String.eqb_neq _ _) Hr). by rewrite Z.leb_antisym.
    - intros b _ Hb. unfold oauth_Parse. by rewrite Hb, Hm, String.eqb_refl. }
  split; [|unfold oauth_Refresh; intros ->; eauto]. unfold oauth_Refresh. destruct (negb _); [done|].
  destruct (String.eqb_spec (tk_refresh t) "") as [He|Hne]; [by intros t' [= <-]|].
  destruct (String.eqb_spec p Slack) as [->|Hp].
  - eapply each_conseq; [|by apply refreshSlack_renews]. intros r Hq t' Ht. split; [done|]. eauto.
  - destruct (oauthConfig _ _ _ _) as [[conf pc]|]; [|done]. intros i w _. split; [done|].
    destruct (lib_Token _ _ _ _) as [[tok|] w']; [|done]. intros t' [= <-]. split; [done|]. intros _.
    pose proof (tokenFrom_renews p tok t Hne). auto.
Qed.
