(* ===== verification/GoHttp.v ===== *)
(** * net/http

    Requests and responses as handlers see them, URL paths, and the matching of
    [http.ServeMux]: the part of the standard library the gateway's routing
    rests on. *)

From stdpp Require Import base gmap strings list.
From Stdlib Require Import Ascii ZArith Lia.
From S2P Require Import Prelude GoStrings GoText GoNet.

Open Scope Z_scope.

(** ** Headers and query values: canonical key to values *)
Abbreviation Values := (gmap string (list string)).

Definition values_Get (v : Values) (k : string) : string := default "" (head (default [] (v !! k))).
Definition values_All (v : Values) (k : string) : list string := default [] (v !! k).
Definition header_Set (k v : string) (h : Values) : Values := <[k := [v]]> h.
Definition header_Add (k v : string) (h : Values) : Values := <[k := values_All h k ++ [v]]> h.

(** ** Paths *)

(** [url.PathUnescape]; [None] on a malformed escape. *)
Fixpoint unescape (l : bytes) : option bytes :=
  match l with
  | [] => Some []
  | "%"%char :: a :: b :: l' =>
    x ← hex_digit a; y ← hex_digit b; t ← unescape l'; Some (ascii_of_N (Z.to_N (16 * x + y)) :: t)
  | "%"%char :: _ => None
  | a :: l' => t ← unescape l'; Some (a :: t)
  end.

Definition PathUnescape (s : string) : option string := of_bytes <$> unescape (to_bytes s).

(** ServeMux falls back to the text of a segment that does not unescape. *)
Definition segment_text (s : string) : string := default s (PathUnescape s).

(** [path.Clean] of a rooted path: the elements that are left. *)
Fixpoint clean_elems (acc : list string) (l : list string) : list string :=
  match l with
  | [] => rev acc
  | e :: l' =>
    if String.eqb e "" || String.eqb e "." then clean_elems acc l'
    else if String.eqb e ".." then clean_elems (tail acc) l'
    else clean_elems (e :: acc) l'
  end.

Definition last_byte (s : string) : option ascii := last (to_bytes s).

(** [cleanPath]: rooted, cleaned, with its trailing slash kept. *)
Definition cleanPath (p : string) : string :=
  let elems := clean_elems [] (Split p "/") in
  let np := "/" +:+ Join elems "/" in
  if bool_decide (last_byte p = Some "/"%char) && negb (String.eqb np "/") then np +:+ "/" else np.

(** The segments of a clean path; a trailing slash is a segment of its own. *)
Definition segments (p : string) : list string :=
  match Split p "/" with
  | [] => []
  | _ :: l =>
    match rev l with
    | "" :: l' => (segment_text <$> rev l') ++ ["/"]
    | _ => segment_text <$> l
    end
  end.

(** ** Requests and responses *)

(** [rq_Path] is the escaped path of the URL; the body is what a reader of it
    gets: its bytes, then its end or an error. *)
Record HttpRequest := mkHttpRequest {
  rq_Method : string; rq_Path : string; rq_Query : Values; rq_Header : Values;
  rq_RemoteAddr : string; rq_ContentLength : Z; rq_Body : bytes
}.

(** [r.URL.Path] *)
Definition url_Path (r : HttpRequest) : string := segment_text (rq_Path r).

(** ** ServeMux *)

(** A pattern: a method or any, and the elements of its path. *)
Inductive elem := Lit (s : string) | Wild.
Record mux_pattern := mkPattern { pat_method : option string; pat_path : list elem }.

(** The values of the wildcards, when the elements match; a wildcard never
    matches a trailing slash. *)
Fixpoint match_elems (es : list elem) (segs : list string) : option (list string) :=
  match es, segs with
  | [], [] => Some []
  | Lit s :: es', g :: segs' => if String.eqb s g then match_elems es' segs' else None
  | Wild :: es', g :: segs' => if String.eqb g "/" then None else (λ l, g :: l) <$> match_elems es' segs'
  | _, _ => None
  end.

Definition match_pattern (p : mux_pattern) (method : string) (segs : list string) : option (list string) :=
  match pat_method p with
  | Some m => if String.eqb m method || (String.eqb m "GET" && String.eqb method "HEAD")
              then match_elems (pat_path p) segs else None
  | None => match_elems (pat_path p) segs
  end.

(** The first pattern of the table that matches: the table lists a pattern
    after the more specific ones it overlaps with. *)
Fixpoint find_route {H} (table : list (mux_pattern * H)) (method : string) (segs : list string) :
    option (H * list string) :=
  match table with
  | [] => None
  | (p, h) :: table' =>
    match match_pattern p method segs with Some vs => Some (h, vs) | None => find_route table' method segs end
  end.

(** The route found is one of the table, and matches. *)
Lemma find_route_in {T} (table : list (mux_pattern * T)) m segs h vs :
  find_route table m segs = Some (h, vs) → ∃ p, (p, h) ∈ table ∧ match_pattern p m segs = Some vs.
Proof.
  induction table as [|[p h'] table IH]; cbn; [done|]. destruct (match_pattern p m segs) as [vs'|] eqn:E.
  - intros [= <- <-]. exists p. split; [by left|done].
  - intros Hf. destruct (IH Hf) as (p' & ? & ?). exists p'. split; [by right|done].
Qed.
