(* ===== verification/GatewayEdge.v ===== *)
(** * The gateway's edge

    Models the middleware of [services/gateway]: bearer authentication
    (auth.go), the admin claim (admin.go), CORS (cors.go), the security headers
    (secheaders.go), the throttle in front of authentication (preauth.go) and
    the per-tenant rate limiter (ratelimit.go) with its Redis counter
    (redis.go).  Token verification is a parameter, logs are left out. *)

From stdpp Require Import base gmap strings list pretty.
From Stdlib Require Import Ascii ZArith Lia.
From S2P Require Import Prelude GoStrings GoText GoFloat GoNet GoTime GoDate GoHttp Tenancy Crypto Blob Erasure QueryVespa.

Open Scope Z_scope.

(** ** JSON values

    [JObj] lists the entries of an object, one per key; [JRaw] is text that is
    JSON already. *)
Inductive Json :=
| JNull | JBool (b : bool) | JNum (f : float64) | JInt (n : Z) | JStr (s : string)
| JArr (l : list Json) | JObj (l : list (string * Json)) | JRaw (b : bytes).

(** ** Calls and responses *)
Inductive Body := BNone | BJson (j : Json) | BBytes (b : bytes).

Record Response := mkResp { re_Status : Z; re_Header : Values; re_Body : Body }.

Abbreviation Claims := (gmap string Json).

(** What a handler is called with: the request with its context, the claims
    the auth middleware stored there, the values of the path's wildcards, and
    the response headers set so far. *)
Record Call := mkHCall {
  c_req : HttpRequest; c_ctx : Ctx; c_claims : option Claims; c_vars : list string; c_hdr : Values
}.

Definition Handler (W : Type) : Type := Call → prog W Response.

Definition set_header (k v : string) (c : Call) : Call :=
  mkHCall (c_req c) (c_ctx c) (c_claims c) (c_vars c) (header_Set k v (c_hdr c)).

Definition PathValue (c : Call) (n : nat) : string := default "" (c_vars c !! n).

Definition writeJSON (c : Call) (status : Z) (body : Json) : Response :=
  mkResp status (header_Set "Content-Type" "application/json" (c_hdr c)) (BJson body).

Definition WriteHeader (c : Call) (status : Z) : Response := mkResp status (c_hdr c) BNone.

Definition json_error (msg : string) : Json := JObj [("error", JStr msg)].

(** ** auth.go *)

(** What [tenancy.FromClaims] sees of a claim. *)
Definition any_of (j : Json) : AnyVal := match j with JStr s => AnyString s | _ => AnyOther end.

Definition bearerToken `{!Folding} (r : HttpRequest) : option string :=
  let prefix := "Bearer " in
  let h := values_Get (rq_Header r) "Authorization" in
  if (String.length h <=? String.length prefix)%nat || negb (fold_eq (take_str (String.length prefix) h) prefix) then None
  else
    let token := TrimSpace (drop_str (String.length prefix) h) in
    if String.eqb token "" then None else Some token.

(** [Verify] of the OIDC verifier, then [Claims] of the token. *)
Class Verifier := { verify : Inp → string → result string Claims }.

Definition unauthorized (c : Call) : Response := writeJSON c 401 (json_error "unauthorized").

Definition auth_middleware `{!Folding, !Verifier} {W} (next : Handler W) : Handler W := λ c,
  match bearerToken (c_req c) with
  | None => Ret (unauthorized c)
  | Some raw =>
    Atomic _ (input (λ i, verify i raw)) (λ r,
    match r with
    | Err _ => Ret (unauthorized c)
    | Ok claims =>
      match FromClaims (any_of <$> claims) with
      | Err _ => Ret (unauthorized c)
      | Ok tc => next (mkHCall (c_req c) (WithContext (c_ctx c) tc) (Some claims) (c_vars c) (c_hdr c))
      end
    end)
  end.

(** ** admin.go: the admin claim *)
Definition adminRoleName : string := "asker-admin".
Definition adminScopeName : string := "asker:admin".

Definition obj_get (k : string) (j : Json) : option Json :=
  match j with JObj l => snd <$> find (λ e, String.eqb e.1 k) l | _ => None end.

Definition hasRole (roles : option Json) (want : string) : bool :=
  match roles with
  | Some (JArr l) => existsb (λ r, match r with JStr s => String.eqb s want | _ => false end) l
  | _ => false
  end.

Definition isAdmin (claims : option Claims) (audience : string) : bool :=
  match claims with
  | None => false
  | Some cl =>
    hasRole (ra ← cl !! "realm_access"; obj_get "roles" ra) adminRoleName
    || hasRole (rsa ← cl !! "resource_access"; client ← obj_get audience rsa; obj_get "roles" client) adminRoleName
    || match cl !! "scope" with
       | Some (JStr scope) => existsb (String.eqb adminScopeName) (Fields scope)
       | _ => false
       end
  end.

Definition requireAdmin {W} (audience : string) (next : Handler W) : Handler W := λ c,
  if isAdmin (c_claims c) audience then next c
  else Ret (writeJSON c 403 (json_error "admin role required")).

Fixpoint first_claim (cl : Claims) (keys : list string) : string :=
  match keys with
  | [] => "unknown"
  | k :: keys' =>
    match cl !! k with
    | Some (JStr v) => if String.eqb (TrimSpace v) "" then first_claim cl keys' else TrimSpace v
    | _ => first_claim cl keys'
    end
  end.

Definition adminSubject (claims : option Claims) : string :=
  match claims with None => "unknown" | Some cl => first_claim cl ["sub"; "email"] end.

(** ** cors.go *)
Definition newCORSPolicy (csv : string) : gset string :=
  list_to_set (TrimRightSlash <$>
    List.filter (λ o, negb (String.eqb o "" || String.eqb o "*")) (TrimSpace <$> Split csv ",")).

Definition cors_middleware {W} (origins : gset string) (next : Handler W) : Handler W := λ c,
  let c := mkHCall (c_req c) (c_ctx c) (c_claims c) (c_vars c) (header_Add "Vary" "Origin" (c_hdr c)) in
  let origin := values_Get (rq_Header (c_req c)) "Origin" in
  let allowed := negb (String.eqb origin "") && bool_decide (origin ∈ origins) in
  let c := if allowed then set_header "Access-Control-Allow-Origin" origin c else c in
  if String.eqb (rq_Method (c_req c)) "OPTIONS"
     && negb (String.eqb (values_Get (rq_Header (c_req c)) "Access-Control-Request-Method") "")
  then
    let c := if allowed then
        set_header "Access-Control-Max-Age" "600"
          (set_header "Access-Control-Allow-Headers" "Authorization,Content-Type"
            (set_header "Access-Control-Allow-Methods" "GET,POST,PUT,DELETE,OPTIONS" c))
      else c in
    Ret (WriteHeader c 204)
  else next c.

(** ** secheaders.go *)
Definition securityHeaders : list (string * string) :=
  [("X-Content-Type-Options", "nosniff"); ("X-Frame-Options", "DENY"); ("Referrer-Policy", "no-referrer");
   ("Content-Security-Policy", "default-src 'none'; frame-ancestors 'none'; base-uri 'none'; form-action 'none'")].

Definition securityHeadersMiddleware {W} (next : Handler W) : Handler W := λ c,
  next (foldl (λ c kv, set_header kv.1 kv.2 c) c securityHeaders).

(** ** preauth.go *)

(** [Time.Sub]: saturates.  [Duration.Seconds]. *)
Definition time_Sub (t u : Z) : Z := Z.max (- 2 ^ 63) (Z.min (2 ^ 63 - 1) (t - u)).
Definition duration_Seconds (d : Z) : float64 :=
  fadd (float_of_Z (Z.quot d second)) (fdiv (float_of_Z (Z.rem d second)) (float_of_Z second)).

(** The built-in [min] on floats. *)
Definition fmin (x y : float64) : float64 :=
  if is_nan x || is_nan y then SpecFloat.S754_nan else if flt y x then y else x.

Record tokenBucket := mkBucket {
  tb_capacity : float64; tb_tokens : float64; tb_refillPerSec : float64; tb_last : Z
}.

Definition newTokenBucket (capacity refillPerSec : float64) (now : Z) : tokenBucket :=
  mkBucket capacity capacity refillPerSec now.

Definition bucket_allow (now : Z) (b : tokenBucket) : bool * tokenBucket :=
  let elapsed := duration_Seconds (time_Sub now (tb_last b)) in
  let b := if fgt elapsed fzero
    then mkBucket (tb_capacity b) (fmin (tb_capacity b) (fadd (tb_tokens b) (fmul elapsed (tb_refillPerSec b))))
           (tb_refillPerSec b) now
    else b in
  if fle fone (tb_tokens b)
  then (true, mkBucket (tb_capacity b) (fsub (tb_tokens b) fone) (tb_refillPerSec b) (tb_last b))
  else (false, b).

Record ipEntry := mkEntry { ie_bucket : tokenBucket; ie_seen : Z }.

Definition ipEntryTTL : Z := 10 * 60 * second.
Definition ipSweepEvery : Z := 60 * second.
Definition maxTrackedIPs : Z := 50000.

Record preAuthLimiter := mkLimiter {
  pl_perIPCap : float64; pl_perIPRefill : float64; pl_global : option tokenBucket; pl_trustProxy : bool;
  pl_ips : gmap string ipEntry; pl_lastWeep : Z
}.

Definition newPreAuthLimiter (perIPPerMinute globalPerSecond globalBurst : Z) (trustProxy : bool) (now : Z) : preAuthLimiter :=
  let on := 0 <? perIPPerMinute in
  mkLimiter
    (if on then float_of_Z perIPPerMinute else fzero)
    (if on then fdiv (float_of_Z perIPPerMinute) (float_of_Z 60) else fzero)
    (if 0 <? globalPerSecond then
       let burst := if globalBurst <=? 0 then globalPerSecond else globalBurst in
       Some (newTokenBucket (float_of_Z burst) (float_of_Z globalPerSecond) now)
     else None)
    trustProxy ∅ zeroTime.

Definition set_ips (ips : gmap string ipEntry) (lastWeep : Z) (l : preAuthLimiter) : preAuthLimiter :=
  mkLimiter (pl_perIPCap l) (pl_perIPRefill l) (pl_global l) (pl_trustProxy l) ips lastWeep.
Definition set_global (g : option tokenBucket) (l : preAuthLimiter) : preAuthLimiter :=
  mkLimiter (pl_perIPCap l) (pl_perIPRefill l) g (pl_trustProxy l) (pl_ips l) (pl_lastWeep l).

Definition sweepLocked (now : Z) (l : preAuthLimiter) : preAuthLimiter :=
  if time_Sub now (pl_lastWeep l) <? ipSweepEvery then l
  else set_ips (base.filter (λ kv, ~ ipEntryTTL < time_Sub now (ie_seen kv.2)) (pl_ips l)) now l.

(** [clk]: the readings of the clock, in order. *)
Definition allowIP (ip : string) (clk : nat → Z) (l : preAuthLimiter) : bool * preAuthLimiter :=
  let now := clk 0%nat in
  let l := sweepLocked now l in
  let tracked (b : tokenBucket) (t : nat) :=
    let '(ok, b) := bucket_allow (clk t) b in
    (ok, set_ips (<[ip := mkEntry b now]> (pl_ips l)) (pl_lastWeep l) l) in
  match pl_ips l !! ip with
  | Some e => tracked (ie_bucket e) 1%nat
  | None =>
    if maxTrackedIPs <=? Z.of_nat (size (pl_ips l)) then (true, l)
    else tracked (newTokenBucket (pl_perIPCap l) (pl_perIPRefill l) (clk 1%nat)) 2%nat
  end.

Definition allowGlobal (clk : nat → Z) (l : preAuthLimiter) : bool * preAuthLimiter :=
  match pl_global l with
  | None => (true, l)
  | Some b => let '(ok, b) := bucket_allow (clk 0%nat) b in (ok, set_global (Some b) l)
  end.

(** [lastIndexByte] and [trimSpace] of preauth.go. *)
Definition lastIndexByte (s : string) (b : ascii) : option nat := last_index b (to_bytes s).

Definition blank (a : ascii) : bool := Ascii.eqb a " " || Ascii.eqb a "009".
Fixpoint drop_blank (l : bytes) : bytes :=
  match l with [] => [] | a :: l' => if blank a then drop_blank l' else l end.
Definition trimSpace (s : string) : string := of_bytes (rev (drop_blank (rev (drop_blank (to_bytes s))))).

Definition clientIP (trustProxy : bool) (r : HttpRequest) : string :=
  let xff := values_Get (rq_Header r) "X-Forwarded-For" in
  let hop := match lastIndexByte xff "," with
    | Some i => trimSpace (drop_str (S i) xff)
    | None => trimSpace xff
    end in
  if trustProxy && negb (String.eqb xff "") && negb (String.eqb hop "") then hop
  else match SplitHostPort (rq_RemoteAddr r) with Some (host, _) => host | None => rq_RemoteAddr r end.

Definition tooMany (c : Call) : Response :=
  writeJSON (set_header "Retry-After" "1" c) 429 (json_error "too many requests").

(** Where the process keeps the limiter. *)
Class HasLimiter (W : Type) := { get_limiter : W → preAuthLimiter; set_limiter : preAuthLimiter → W → W }.

Definition on_limiter {W} `{!HasLimiter W} (f : (nat → Z) → preAuthLimiter → bool * preAuthLimiter) (i : Inp) (w : W) : bool * W :=
  let '(ok, l) := f (clock (in_env i)) (get_limiter w) in (ok, set_limiter l w).

(** What [newPreAuthLimiter] settled: whether each dimension is on, and whose
    address counts. *)
Record preAuthConfig := mkPreAuth { pa_perIP : bool; pa_global : bool; pa_trustProxy : bool }.

Definition preAuth_middleware {W} `{!HasLimiter W} (cfg : preAuthConfig) (next : Handler W) : Handler W :=
  if negb (pa_perIP cfg) && negb (pa_global cfg) then next else λ c,
  let perIP :=
    if pa_perIP cfg then
      Atomic _ (on_limiter (allowIP (clientIP (pa_trustProxy cfg) (c_req c)))) (λ ok : bool,
      if ok then next c else Ret (tooMany c))
    else next c in
  if pa_global cfg then
    Atomic _ (on_limiter allowGlobal) (λ ok : bool, if ok then perIP else Ret (tooMany c))
  else perIP.
