(* ===== verification/GatewayRedis.v ===== *)
(** * The gateway's Redis

    Models [services/gateway/redis.go] over the Redis commands it sends (a
    pipeline is its commands in order, not a transaction) and the per-tenant
    rate limiter of [ratelimit.go] that counts in it.  Redis itself is a
    parameter with its documented behaviour on counters and single keys. *)

From stdpp Require Import base gmap strings list pretty.
From Stdlib Require Import Ascii ZArith Lia.
From S2P Require Import Prelude GoStrings GoHttp Tenancy Crypto QueryVespa GatewayEdge.

Open Scope Z_scope.

(** ** The commands *)
Class Redis (R : Type) := {
  INCR : string → Inp → R → result string Z * R;
  EXPIRE : string → Z → Inp → R → result string unit * R;
  SET : string → string → Z → Inp → R → result string unit * R;
  GETDEL : string → Inp → R → result string (option string) * R;
  DEL : string → Inp → R → result string unit * R;
  LREM : string → string → Inp → R → result string unit * R;
  LPUSH : string → string → Inp → R → result string unit * R;
  LTRIM : string → Z → Z → Inp → R → result string unit * R;
  LRANGE : string → Z → Z → Inp → R → result string (list string) * R
}.

(** The instant of an action, in nanoseconds. *)
Definition now_of (i : Inp) : Z := clock (in_env i) 0.

(** A counter key holds a number and, once [EXPIRE] was sent, the instant it
    vanishes at. *)
Definition live (now : Z) (x : option (Z * option Z)) : option (Z * option Z) :=
  match x with
  | Some (n, Some e) => if now <? e then Some (n, Some e) else None
  | _ => x
  end.

Definition incremented (now : Z) (x : option (Z * option Z)) : Z * option Z :=
  match live now x with Some (n, e) => (n + 1, e) | None => (1, None) end.

Definition expiring (now ttl : Z) (x : option (Z * option Z)) : option (Z * option Z) :=
  match live now x with Some (n, _) => Some (n, Some (now + ttl)) | None => None end.

(** [INCR], [EXPIRE], [SET] and [GETDEL] as Redis documents them, on the
    counter and the text a key holds.  A command whose answer is lost may have
    run. *)
Class RedisLaws (R : Type) `{!Redis R} := {
  rd_counter : R → string → option (Z * option Z);
  rd_text : R → string → option string;
  INCR_counter k i r :
    let '(a, r') := INCR k i r in
    (∀ k', k' ≠ k → rd_counter r' k' = rd_counter r k') ∧
    match a with
    | Ok n => n = (incremented (now_of i) (rd_counter r k)).1 ∧ rd_counter r' k = Some (incremented (now_of i) (rd_counter r k))
    | Err _ => rd_counter r' k = rd_counter r k ∨ rd_counter r' k = Some (incremented (now_of i) (rd_counter r k))
    end;
  EXPIRE_counter k ttl i r :
    let '(a, r') := EXPIRE k ttl i r in
    (∀ k', k' ≠ k → rd_counter r' k' = rd_counter r k') ∧
    match a with
    | Ok _ => rd_counter r' k = expiring (now_of i) ttl (rd_counter r k)
    | Err _ => rd_counter r' k = rd_counter r k ∨ rd_counter r' k = expiring (now_of i) ttl (rd_counter r k)
    end;
  SET_text k v ttl i r :
    let '(a, r') := SET k v ttl i r in
    (∀ k', k' ≠ k → rd_text r' k' = rd_text r k') ∧
    match a with
    | Ok _ => rd_text r' k = Some v
    | Err _ => rd_text r' k = rd_text r k ∨ rd_text r' k = Some v
    end;
  GETDEL_text k i r :
    let '(a, r') := GETDEL k i r in
    (∀ k', k' ≠ k → rd_text r' k' = rd_text r k') ∧
    match a with
    | Ok (Some v) => rd_text r k = Some v ∧ rd_text r' k = None
    | Ok None => rd_text r' k = None
    | Err _ => rd_text r' k = rd_text r k ∨ rd_text r' k = None
    end
}.

(** ** redis.go *)
Inductive RedisErr := errStateNotFound | RedisFailed (text : string).

Section redis.
Context {R : Type} `{!Redis R}.

(** [Exec] answers the first error of the pipeline. *)
Definition first_error {A} (r : result string unit) (k : result string A) : result string A :=
  match r with Err e => Err e | Ok _ => k end.

Definition redis_Incr (key : string) (ttl : Z) : prog R (result string Z) :=
  Atomic _ (INCR key) (λ n,
  Atomic _ (EXPIRE key ttl) (λ e, Ret (let? n := n in first_error e (Ok n)))).

Definition redis_Set (key value : string) (ttl : Z) : prog R (result string unit) := Atomic _ (SET key value ttl) Ret.
Definition redis_DeleteKey (key : string) : prog R (result string unit) := Atomic _ (DEL key) Ret.

Definition redis_GetDel (key : string) : prog R (result RedisErr string) :=
  Atomic _ (GETDEL key) (λ r, Ret (
  match r with Err e => Err (RedisFailed e) | Ok None => Err errStateNotFound | Ok (Some v) => Ok v end)).

Definition redis_RecordRecent (key value : string) (maxN ttl : Z) : prog R (result string unit) :=
  Atomic _ (LREM key value) (λ a, Atomic _ (LPUSH key value) (λ b,
  Atomic _ (LTRIM key 0 (maxN - 1)) (λ c, Atomic _ (EXPIRE key ttl) (λ d,
  Ret (first_error a (first_error b (first_error c d))))))).

Definition redis_RecentList (key : string) (n : Z) : prog R (result string (list string)) :=
  Atomic _ (LRANGE key 0 (n - 1)) Ret.
Definition redis_RemoveRecent (key value : string) : prog R (result string unit) := Atomic _ (LREM key value) Ret.
Definition redis_ClearRecent (key : string) : prog R (result string unit) := Atomic _ (DEL key) Ret.
End redis.

(** ** ratelimit.go *)
Definition rateWindowTTL : Z := 90 * second.

(** [now.Unix()/60] *)
Definition rate_window (now : Z) : Z := Z.quot (Unix now) 60.

Definition rate_key (t : TenantID) (now : Z) : string := "rl:" +:+ t +:+ ":" +:+ pretty (rate_window now).

Inductive verdict := FailOpen | Limited (retryAfter : Z) | Within (n : Z).

(** The count of the request at [now] against the tenant's window. *)
Definition rate_check {R} `{!Redis R} (limit : Z) (t : TenantID) (now : Z) : prog R verdict :=
  bind (redis_Incr (rate_key t now) rateWindowTTL) (λ r, Ret (
  match r with
  | Err _ => FailOpen
  | Ok n => if limit <? n then Limited (60 - Z.rem (Unix now) 60) else Within n
  end)).

Class HasRedis (R W : Type) := { redis_of : W → R; set_redis : R → W → W }.

Definition on_redis {R W A} `{!HasRedis R W} (p : prog R A) : prog W A := zoom redis_of set_redis p.

Definition limiter_middleware {R W} `{!Redis R, !HasRedis R W} (limit : Z) (next : Handler W) : Handler W :=
  if limit <=? 0 then next else λ c,
  match FromContext (c_ctx c) with
  | Err _ => Ret (unauthorized c)
  | Ok tc =>
    Atomic _ (input now_of) (λ now,
    bind (on_redis (rate_check limit (tenantID tc) now)) (λ v,
    match v with
    | FailOpen | Within _ => next c
    | Limited s => Ret (writeJSON (set_header "Retry-After" (pretty s) c) 429 (json_error "rate limited"))
    end))
  end.
