(* ===== verification/GatewaySearch.v ===== *)
(** * Search at the gateway

    Models [services/gateway/search.go]: the query parameters, the REST shape
    of hits with their source links, and the candidate diagnostics.  URL
    parsing, [%q] and the JSON of the diagnostics are parameters. *)

From stdpp Require Import base gmap strings list pretty.
From Stdlib Require Import Ascii ZArith Lia.
From S2P Require Import Prelude GoStrings GoText GoEncode GoFloat GoTime GoDate GoHttp Tenancy Crypto ControlPlane Document Kafka.
From S2P Require Import QueryVespa QueryPlan QueryServer GatewayEdge.

Open Scope Z_scope.

(** [strconv.Atoi] on a 64-bit platform. *)
Definition Atoi (s : string) : option Z := ParseInt s.

(** ** Times as text *)
Definition digit_char (d : Z) : ascii := ascii_of_N (Z.to_N (48 + d)).

(** The low [n] decimal digits of [z]. *)
Fixpoint low_digits (n : nat) (z : Z) : string :=
  match n with O => "" | S n' => low_digits n' (z / 10) +:+ String (digit_char (z mod 10)) "" end.

(** [appendInt]: at least [n] digits. *)
Definition append_int (n : nat) (z : Z) : string :=
  let a := Z.abs z in
  (if z <? 0 then "-" else "") +:+ (if a <? 10 ^ Z.of_nat n then low_digits n a else pretty a).

(** [Format(time.RFC3339)] in UTC, of seconds since the epoch. *)
Definition format_RFC3339 (sec : Z) : string :=
  let '(y, m, d) := civil (sec / day_secs) in
  let s := sec mod day_secs in
  append_int 4 y +:+ "-" +:+ append_int 2 m +:+ "-" +:+ append_int 2 d +:+ "T" +:+
  append_int 2 (s / 3600) +:+ ":" +:+ append_int 2 (s / 60 mod 60) +:+ ":" +:+ append_int 2 (s mod 60) +:+ "Z".

(** [AsTime] of a timestamp carries its nanoseconds into the seconds. *)
Definition rfc3339OrEmpty (ts : option Timestamp) : string :=
  match ts with None => "" | Some t => format_RFC3339 (ts_seconds t + ts_nanos t / nsec) end.

(** [timestamppb.New] *)
Definition timestamp_New (t : Z) : Timestamp := mkTimestamp (t / nsec) (t mod nsec).

(** ** Query parameters *)
Section parse.
Context `{!Quoting}.

Fixpoint parse_types (names : list string) : result string (list DocType) :=
  match names with
  | [] => Ok []
  | name :: names' =>
    match DocType_value name with
    | None | Some DOC_TYPE_UNSPECIFIED => Err ("unknown doc type " +:+ Quote name)
    | Some t => let? l := parse_types names' in Ok (t :: l)
    end
  end.

Definition parseRFC3339Param (q : Values) (name : string) : result string (option Timestamp) :=
  let raw := values_Get q name in
  if String.eqb raw "" then Ok None
  else match time_Parse RFC3339 raw with
  | None => Err ("invalid " +:+ name +:+ " timestamp " +:+ Quote raw +:+ ": must be RFC3339")
  | Some t => Ok (Some (timestamp_New t))
  end.

Definition parseIntParam (q : Values) (name : string) : result string Z :=
  let raw := values_Get q name in
  if String.eqb raw "" then Ok 0
  else match Atoi raw with
  | Some n => if (n <? 0) || (2 ^ 31 - 1 <? n) then Err ("invalid " +:+ name +:+ " " +:+ Quote raw +:+ ": must be a non-negative integer") else Ok n
  | None => Err ("invalid " +:+ name +:+ " " +:+ Quote raw +:+ ": must be a non-negative integer")
  end.

Definition parse_mode (raw : string) : result string SearchMode :=
  if String.eqb raw "" || String.eqb raw "hybrid" then Ok HYBRID
  else if String.eqb raw "keyword" then Ok KEYWORD
  else if String.eqb raw "vector" then Ok VECTOR
  else Err ("invalid mode " +:+ Quote raw +:+ ": want hybrid, keyword or vector").

Definition parse_switch (name raw : string) : result string bool :=
  if String.eqb raw "" || String.eqb raw "0" || String.eqb raw "false" then Ok false
  else if String.eqb raw "1" || String.eqb raw "true" then Ok true
  else Err ("invalid " +:+ name +:+ " " +:+ Quote raw +:+ ": want 1 or 0").

Definition parseSearchRequest (q : Values) (maxQueryChars : Z) : result string SearchRequest :=
  let query := values_Get q "q" in
  let chars := Z.of_nat (length (runes query)) in
  if (0 <? maxQueryChars) && (maxQueryChars <? chars) then
    Err ("query too long: " +:+ pretty chars +:+ " characters exceeds the " +:+ pretty maxQueryChars +:+ " limit")
  else
    let rawTypes := values_Get q "types" in
    let? types := (if String.eqb rawTypes "" then Ok [] else parse_types (Split rawTypes ",")) in
    let? from := parseRFC3339Param q "from" in
    let? to := parseRFC3339Param q "to" in
    let? limit := parseIntParam q "limit" in
    let? offset := parseIntParam q "offset" in
    let? mode := parse_mode (values_Get q "mode") in
    let? debug := parse_switch "debug" (values_Get q "debug") in
    let? rerank := parse_switch "rerank" (values_Get q "rerank") in
    Ok (mkSearch query types from to (values_Get q "participant") limit offset mode debug rerank).
End parse.

Definition sourceDocTypes (source : string) : option (list DocType) :=
  if String.eqb source "email" then Some [EMAIL]
  else if String.eqb source "files" then Some [FILE; WIKI_PAGE; TICKET]
  else if String.eqb source "messages" then Some [CHAT_MESSAGE]
  else if String.eqb source "calendar" then Some [CALENDAR_EVENT]
  else if String.eqb source "photos" then Some [IMAGE; VIDEO; AUDIO]
  else None.

(** The scan of the cache directives: one hint per matching directive. *)
Definition directive_name (d : string) : string := TrimSpace (default "" (head (Split d "="))).

Definition bypass_hints `{!Folding} (r : HttpRequest) : nat :=
  length (List.filter (λ d, fold_eq (directive_name d) "no-cache" || fold_eq (directive_name d) "no-store")
    (concat ((λ h, Split h ",") <$> values_All (rq_Header r) "Cache-Control"))).

(** ** Source links *)

Definition sourceLinkKeys : list string :=
  ["source_url"; "web_link"; "web_view_link"; "permalink"; "html_link"; "web_url"; "url"].

Definition link_ok `{!URLs} (v : string) : bool :=
  match url_Parse v with
  | Some (scheme, host) => (String.eqb scheme "http" || String.eqb scheme "https") && negb (String.eqb host "")
  | None => false
  end.

Fixpoint first_link `{!URLs} (md : gmap string string) (keys : list string) : string :=
  match keys with
  | [] => ""
  | k :: keys' =>
    let v := TrimSpace (default "" (md !! k)) in
    if negb (String.eqb v "") && link_ok v then v else first_link md keys'
  end.

Definition sourceURLFromMetadata `{!URLs} (md : gmap string string) : string := first_link md sourceLinkKeys.

(** ** The response *)

(** A map as JSON lists its keys in order. *)
Definition json_of_map {A} (f : A → Json) (m : gmap string A) : Json :=
  JObj ((λ kv, (kv.1, f kv.2)) <$> sort_by (λ a b : string * A, str_leb a.1 b.1) (map_to_list m)).

Record candidateDebugJSON := mkCandidateDebug {
  dj_Scope : string; dj_DocIDs : list string; dj_Count : Z; dj_Depth : Z; dj_Complete : bool
}.

Class CandidateJson := { candidate_json : string → option candidateDebugJSON }.

(** The ids, none empty, over 1024 bytes or seen before. *)
Fixpoint ids_ok (seen ids : list string) : bool :=
  match ids with
  | [] => true
  | id :: ids' =>
    if String.eqb id "" || (1024 <? slen id) || bool_decide (id ∈ seen) then false else ids_ok (id :: seen) ids'
  end.

Definition candidateDebug `{!CandidateJson} (headers : Values) : option candidateDebugJSON :=
  match values_All headers "x-asker-candidates-bin" with
  | [raw] =>
    if 4096 <? slen raw then None
    else match candidate_json raw with
    | None => None
    | Some v =>
      let n := Z.of_nat (length (dj_DocIDs v)) in
      if negb (String.eqb (dj_Scope v) "pre_rerank_head" || String.eqb (dj_Scope v) "retrieval_candidates")
         || (dj_Count v <? 0) || (dj_Depth v <? 0) || (dj_Count v <? dj_Depth v)
         || (dj_Depth v <? n) || (dj_Complete v && negb (n =? dj_Depth v))
      then None
      else if ids_ok [] (dj_DocIDs v) then Some v else None
    end
  | _ => None
  end.

Section rest.
Context `{!URLs}.

Definition searchHitJSON (h : Hit) : Json :=
  JObj ([("doc_id", JStr (hit_DocId h)); ("connector_id", JStr (hit_ConnectorId h));
    ("type", JStr (docType_String (hit_Type h))); ("title", JStr (hit_Title h)); ("snippet", JStr (hit_Snippet h));
    ("score", JNum (hit_Score h)); ("created", JStr (rfc3339OrEmpty (hit_Created h)));
    ("modified", JStr (rfc3339OrEmpty (hit_Modified h))); ("metadata", json_of_map JStr (hit_Metadata h));
    ("source_url", JStr (sourceURLFromMetadata (hit_Metadata h)));
    ("start_ms", JInt (hit_StartMs h)); ("end_ms", JInt (hit_EndMs h)); ("modality", JStr (hit_Modality h));
    ("thumbnail_key", JStr (hit_ThumbnailKey h)); ("explanation", JStr (hit_Explanation h))]
    ++ (if bool_decide (hit_Features h = ∅) then [] else [("features", json_of_map JNum (hit_Features h))])).

Definition candidate_debug_json (v : candidateDebugJSON) : Json :=
  JObj [("scope", JStr (dj_Scope v)); ("doc_ids", JArr (JStr <$> dj_DocIDs v)); ("count", JInt (dj_Count v));
    ("depth", JInt (dj_Depth v)); ("complete", JBool (dj_Complete v))].

Definition restSearchResponse (resp : SearchResponse) (rerankRequested rerankApplied : bool)
    (debug : option candidateDebugJSON) : Json :=
  JObj ([("hits", JArr (searchHitJSON <$> rs_Hits resp)); ("total", JInt (rs_Total resp));
    ("degraded", JStr (rs_Degraded resp)); ("took_ms", JInt (rs_TookMs resp)); ("cached", JBool (rs_Cached resp));
    ("rerank_requested", JBool rerankRequested); ("rerank_applied", JBool rerankApplied)]
    ++ match debug with Some v => [("candidate_debug", candidate_debug_json v)] | None => [] end).

Definition writeSearchResponse `{!CandidateJson} (c : Call) (req : SearchRequest) (resp : SearchResponse)
    (headers : Values) : Response :=
  let applied := existsb (String.eqb "true") (values_All headers "x-asker-rerank-applied") in
  let debug := if sr_Debug req then candidateDebug headers else None in
  writeJSON (set_header "Cache-Control" "private, no-store" c) 200 (restSearchResponse resp (sr_Rerank req) applied debug).
End rest.
