(* ===== verification/GatewayPeople.v ===== *)
(** * The people tab

    Models [services/gateway/people.go]: contacts aggregated from the hits of a
    search, ranked by how often and how recently they occur.  [net/mail], the
    real-number functions and the order maps are visited in are parameters. *)

From stdpp Require Import base gmap strings list pretty sorting.
From Stdlib Require Import Ascii ZArith Lia.
From S2P Require Import Prelude GoStrings GoText GoEncode GoFloat GoTime GoDate GoHttp Tenancy Crypto ControlPlane Document Personalization.
From S2P Require Import QueryVespa QueryPlan GatewayEdge GatewaySearch.

Open Scope Z_scope.

Definition peopleScanLimit : Z := 100.
Definition peopleMaxResults : nat := 20.
Definition peopleHalfLifeDays : float64 := float_of_Z 30.

Class RealFuns := { Exp2 : float64 → float64; Log1p : float64 → float64 }.

(** The order a map of the metadata is ranged over. *)
Class MapOrder := { range_md : gmap string string → list (string * string) }.

Record personRef := mkRef { ref_name : string; ref_email : string }.

(** [pa_last] is the zero time for a person without a date. *)
Record personAgg := mkAgg {
  pa_name : string; pa_email : string; pa_count : Z; pa_last : Z; pa_byCat : gmap string Z
}.

Definition displayNameFromEmail (email : string) : string :=
  match IndexByte email "@" with
  | Some (S i) => take_str (S i) email
  | _ => email
  end.

Definition betterName (stored candidate : string) : string :=
  let candidate := TrimSpace candidate in
  if String.eqb candidate "" then stored
  else if String.eqb stored "" then candidate
  else if Contains candidate " " && negb (Contains stored " ") then candidate
  else stored.

Definition personCategory (t : DocType) : string :=
  match t with EMAIL => "email" | CHAT_MESSAGE => "message" | CALENDAR_EVENT => "event" | _ => "" end.

(** [AsTime] *)
Definition stamp_time (ts : Timestamp) : Z := ts_seconds ts * nsec + ts_nanos ts.

Definition hitGatewayTime (h : Hit) : Z :=
  match hit_Modified h, hit_Created h with
  | Some ts, _ => stamp_time ts
  | None, Some ts => stamp_time ts
  | None, None => zeroTime
  end.

Definition plural (n : Z) (one many : string) : string :=
  if n =? 1 then "1 " +:+ one else pretty n +:+ " " +:+ many.

Definition cat_count (a : personAgg) (cat : string) : Z := default 0 (pa_byCat a !! cat).

Definition agg_summary (a : personAgg) : string :=
  let part cat one many := if 0 <? cat_count a cat then [plural (cat_count a cat) one many] else [] in
  Join (part "email" "email" "emails" ++ part "message" "message" "messages" ++ part "event" "event" "events") " · ".

Definition displayPersonName (a : personAgg) : string :=
  if negb (String.eqb (pa_name a) "") then pa_name a
  else if negb (String.eqb (pa_email a) "") then pa_email a
  else "Unknown".

Record personJSON := mkPerson {
  pj_Name : string; pj_Email : string; pj_Count : Z; pj_LastContacted : string; pj_Summary : string
}.

Definition agg_toJSON (a : personAgg) : personJSON :=
  mkPerson (displayPersonName a) (pa_email a) (pa_count a)
    (if IsZero (pa_last a) then "" else format_RFC3339 (pa_last a / nsec)) (agg_summary a).

Section people.
Context `{!Casing, !Mail, !RealFuns, !MapOrder}.

Definition refFromAddr (a : string * string) : personRef :=
  let email := ToLower (TrimSpace a.2) in
  let name := TrimSpace a.1 in
  mkRef (if String.eqb name "" then displayNameFromEmail email else name) email.

Definition refsFromAddrs (l : list (string * string)) : list personRef := refFromAddr <$> l.

(** The fragments of a list that parse on their own. *)
Definition salvage (s : string) : list personRef :=
  omap (λ frag, let frag := TrimSpace frag in
    if String.eqb frag "" then None else refFromAddr <$> ParseAddress frag) (Split s ",").

Definition parsePeople (s : string) : list personRef :=
  let s := TrimSpace s in
  if String.eqb s "" then []
  else match ParseAddressList s with
  | Some (a :: l) => refsFromAddrs (a :: l)
  | _ =>
    match (if Contains s "," then salvage s else []) with
    | [] => [mkRef s ""]
    | out => out
    end
  end.

Definition add_people (s : string) : list personRef := if String.eqb s "" then [] else parsePeople s.

Definition peopleFromHit (md : gmap string string) (dtype : DocType) : list personRef :=
  let get k := default "" (md !! k) in
  match dtype with
  | EMAIL => add_people (get "from") ++ add_people (get "to") ++ add_people (get "cc")
  | CHAT_MESSAGE => if negb (String.eqb (get "from") "") then add_people (get "from") else add_people (get "sender")
  | CALENDAR_EVENT =>
    add_people (get "organizer") ++ add_people (get "attendees") ++
    concat ((λ kv, if HasPrefix kv.1 "response_status:" then add_people (TrimPrefix kv.1 "response_status:") else [])
              <$> range_md md)
  | _ => []
  end.

Definition ref_key (ref : personRef) : string :=
  if String.eqb (ref_email ref) "" then ToLower (ref_name ref) else ref_email ref.

(** One mention. *)
Definition mention (cat : string) (when : Z) (ref : personRef) (a : personAgg) : personAgg :=
  mkAgg (betterName (pa_name a) (ref_name ref)) (pa_email a) (pa_count a + 1)
    (if pa_last a <? when then when else pa_last a)
    (if String.eqb cat "" then pa_byCat a else <[cat := cat_count a cat + 1]> (pa_byCat a)).

Definition add_mention (cat : string) (when : Z) (aggs : gmap string personAgg) (ref : personRef) : gmap string personAgg :=
  let key := ref_key ref in
  if String.eqb key "" then aggs
  else <[key := mention cat when ref (default (mkAgg "" (ref_email ref) 0 zeroTime ∅) (aggs !! key))]> aggs.

Definition add_hit (aggs : gmap string personAgg) (h : Hit) : gmap string personAgg :=
  foldl (add_mention (personCategory (hit_Type h)) (hitGatewayTime h)) aggs (peopleFromHit (hit_Metadata h) (hit_Type h)).

Definition personMatches (a : personAgg) (terms : list string) : bool :=
  forallb (Contains (ToLower (pa_name a +:+ " " +:+ pa_email a))) terms.

(** [Duration.Hours] *)
Definition hours (d : Z) : float64 :=
  let h := 3600 * second in
  fadd (float_of_Z (Z.quot d h)) (fdiv (float_of_Z (Z.rem d h)) (float_of_Z h)).

Definition fneg (x : float64) : float64 := SpecFloat.SFopp x.

Definition personScore (now : Z) (a : personAgg) : float64 :=
  let rec_ :=
    if IsZero (pa_last a) then fzero
    else
      let ageDays := fdiv (hours (time_Sub now (pa_last a))) (float_of_Z 24) in
      let ageDays := if flt ageDays fzero then fzero else ageDays in
      Exp2 (fdiv (fneg ageDays) peopleHalfLifeDays) in
  fadd (Log1p (float_of_Z (pa_count a))) rec_.

(** The order of the sort. *)
Definition person_less (now : Z) (a b : personAgg) : bool :=
  let sa := personScore now a in let sb := personScore now b in
  if negb (feqb sa sb) then fgt sa sb
  else if negb (String.eqb (displayPersonName a) (displayPersonName b))
  then str_ltb (displayPersonName a) (displayPersonName b)
  else str_ltb (pa_email a) (pa_email b).

(** Insertion keeps the order of equals. *)
Definition sort_people (now : Z) (l : list personAgg) : list personAgg :=
  sort_by (λ a b, negb (person_less now b a)) l.

(** [aggs] listed in the order the map is ranged over. *)
Definition rank_people (aggs : list personAgg) (query : string) (now : Z) : list personJSON :=
  let terms := Fields (ToLower query) in
  let matched := List.filter (λ a, personMatches a terms) aggs in
  let other := List.filter (λ a, negb (personMatches a terms)) aggs in
  let pick := match matched with [] => other | _ => matched end in
  agg_toJSON <$> take peopleMaxResults (sort_people now pick).

Definition people_of (hits : list Hit) : gmap string personAgg := foldl add_hit ∅ hits.

Definition aggregatePeople (order : gmap string personAgg → list personAgg) (hits : list Hit) (query : string) (now : Z) :
    list personJSON :=
  rank_people (order (people_of hits)) query now.
End people.

(** ** The response *)
Definition person_json (p : personJSON) : Json :=
  JObj [("name", JStr (pj_Name p)); ("email", JStr (pj_Email p)); ("count", JInt (pj_Count p));
    ("last_contacted", JStr (pj_LastContacted p)); ("summary", JStr (pj_Summary p))].

Definition peopleResponseJSON (people : list personJSON) (tookMs : Z) : Json :=
  JObj [("people", JArr (person_json <$> people)); ("total", JInt (Z.of_nat (length people))); ("took_ms", JInt tookMs)].
