(* ===== verification/Gateway.v ===== *)
(** * The gateway

    Models the rest of [services/gateway]: the downstream clients with the
    tenancy interceptor (clients.go, grpcerr.go), the handlers (search.go,
    people.go, recent.go, personalization.go, connectors.go, index.go, me.go,
    media.go, upload.go, oauth.go, admin.go) and the routes with their
    middleware chain (routes.go).  The services behind the clients, JSON
    decoding and Go's map order are parameters; logs, metrics and deadlines are
    left out (a deadline reaches the model as an error of a call). *)

From stdpp Require Import base gmap strings list pretty.
From Stdlib Require Import Ascii ZArith Lia.
From S2P Require Import Prelude GoStrings GoText GoEncode GoFloat GoDate GoHttp Tenancy Crypto Blob ControlPlane Erasure Admin Document Kafka.
From S2P Require Import HubScheduler HubSync QueryVespa QueryPlan Personalization QueryModels QueryServer OAuth.
From S2P Require Import GatewayEdge GatewayRedis GatewaySearch GatewayPeople.

Open Scope Z_scope.

(** ** The RPCs of the downstream services *)
Inductive Rpc : Type → Type :=
| EnsureTenant : Rpc PTenant
| CreateConnectorInstance (connectorId displayName configJson : string) : Rpc PInstance
| ListConnectorInstances : Rpc (list PInstance)
| GetConnectorInstance (id : string) : Rpc PInstance
| DeleteConnectorInstance (id : string) : Rpc unit
| GetSyncState (id : string) : Rpc PSyncState
| SetSyncState (st : PSyncState) : Rpc PSyncState
| PutToken (id token : string) : Rpc unit
| GetPersonalization : Rpc PersonalizationResponse
| PutPreferences (profileJson : string) : Rpc Z
| RecordFeedback (ev : PFeedback) : Rpc FeedbackResponse
| ResetLearning : Rpc Z
| DeleteTenant (confirm : string) : Rpc DeleteReport
| ListTenants (limit : Z) (pageToken : string) : Rpc ListTenantsResponse
| GetTenantUsage (tenant : string) : Rpc PTenantUsage
| SuspendTenant (tenant : string) (suspended : bool) : Rpc Z
| AdminDeleteTenantRpc (tenant : string) : Rpc DeleteReport
| SearchRpc (req : SearchRequest) : Rpc (SearchResponse * Values)
| CountRpc : Rpc Z.

(** The operator's RPCs, which name the tenant they act on. *)
Definition is_operator {A} (r : Rpc A) : bool :=
  match r with
  | ListTenants _ _ | GetTenantUsage _ | SuspendTenant _ _ | AdminDeleteTenantRpc _ => true
  | _ => false
  end.

Definition method_name {A} (r : Rpc A) : string :=
  match r with
  | EnsureTenant => "EnsureTenant" | CreateConnectorInstance _ _ _ => "CreateConnectorInstance"
  | ListConnectorInstances => "ListConnectorInstances" | GetConnectorInstance _ => "GetConnectorInstance"
  | DeleteConnectorInstance _ => "DeleteConnectorInstance" | GetSyncState _ => "GetSyncState"
  | SetSyncState _ => "SetSyncState" | PutToken _ _ => "PutToken" | GetPersonalization => "GetPersonalization"
  | PutPreferences _ => "PutPreferences" | RecordFeedback _ => "RecordFeedback" | ResetLearning => "ResetLearning"
  | DeleteTenant _ => "DeleteTenant" | ListTenants _ _ => "ListTenants" | GetTenantUsage _ => "GetTenantUsage"
  | SuspendTenant _ _ => "SuspendTenant" | AdminDeleteTenantRpc _ => "AdminDeleteTenant"
  | SearchRpc _ => "Search" | CountRpc => "Count"
  end.

(** A request to the connector hub over HTTP, and its answer; of a failed call,
    whether it says the body was too large. *)
Record HubRequest := mkHubRequest {
  hq_method : string; hq_url : string; hq_tenant : string; hq_contentType : string; hq_length : Z; hq_body : bytes;
  hq_over : bool
}.
Record HubReply := mkHubReply { hp_status : Z; hp_contentType : string; hp_body : bytes }.

(** What the gateway calls.  [upload] tells the two HTTP clients apart. *)
Class Upstream (W : Type) := {
  invoke {A} : Rpc A → Ctx → prog W (result Status A);
  hub_Do : HubRequest → Inp → W → result bool HubReply * W;
  jwks_probe : Inp → result string Z;
  metrics : Inp → Z * string * bytes
}.

(** ** Encodings *)
Inductive decoded (A : Type) := DOk (a : A) | DMore | DBad.
Arguments DOk {A} _. Arguments DMore {A}. Arguments DBad {A}.

Record createConnectorBody := mkCreate { cb_ConnectorID : string; cb_DisplayName : string; cb_Config : option string }.

Record oauthFlowState := mkFlow {
  fl_Tenant : string; fl_InstanceID : string; fl_ConnectorID : string; fl_Provider : string; fl_Verifier : string;
  fl_CreatedAt : Z
}.

Inductive PMsg :=
| PMInstance (i : PInstance) | PMSync (s : PSyncState) | PMTenants (r : ListTenantsResponse) | PMUsage (u : PTenantUsage).

(** JSON decoders (a value, more input needed, or malformed) and encoders,
    protojson, PKCE and the random sources.  [url_Query] parses a URL: its query
    values, and the URL again with another raw query. *)
Class GatewayCodecs := {
  dec_create : bytes → decoded createConnectorBody;
  dec_token : bytes → decoded string;
  dec_suspend : bytes → decoded bool;
  dec_recent : bytes → decoded string;
  dec_profile : bytes → decoded Profile;
  dec_feedback : bytes → decoded PFeedback;
  profile_Marshal : Profile → result string string;
  profile_Unmarshal : string → option Profile;
  profile_Json : Profile → Json;
  model_Unmarshal : string → LearnedModel;
  model_Json : LearnedModel → Json;
  flow_Marshal : oauthFlowState → result string string;
  flow_Unmarshal : string → result string oauthFlowState;
  userEmail_json : string → option string;
  proto_Marshal : PMsg → result string bytes;
  ParseMediaType : string → option string;
  url_ok : string → bool;
  GenerateVerifier : Inp → string;
  S256ChallengeFromVerifier : string → string;
  RawURLEncode : bytes → string;
  url_Query : string → option (Values * (string → string));
  range_people : gmap string personAgg → list personAgg;
  range_weights : Inp → gmap string float64 → list (string * float64)
}.

(** What the handlers of [deps] are configured with; the booleans say whether
    the optional parts are wired. *)
Record deps := mkDeps {
  d_hubURL : string; d_recent : bool; d_prefs : bool; d_maxUploadBytes : Z; d_maxMediaBytes : Z;
  d_oidcAudience : string; d_maxQueryChars : Z; d_oauth : bool; d_oauthState : bool; d_oauthCfg : Config;
  d_gatewayPublicURL : string; d_webAppURL : string
}.

Section gateway.
Context {W R : Type} {HU : Upstream W} {HR : Redis R} {HRW : HasRedis R W} {HL : HasLimiter W} {HO : OAuth2 W}.
Context `{!Folding, !Casing, !ZoneDB, !Quoting, !URLs, !CandidateJson, !Mail, !RealFuns, !MapOrder}.
Context `{!Verifier, !GatewayCodecs, !HubDeps}.
Context (d : deps).

Abbreviation handler := (Handler W).
Abbreviation redis p := (on_redis (R := R) p).

(** ** Clients *)

(** A stub of a connection dialled with the tenancy client interceptor. *)
Definition grpc_call {A} (ctx : Ctx) (r : Rpc A) : prog W (result Status A) :=
  match FromContext ctx with
  | Err _ => Ret (Err (mkStatus FailedPrecondition ("tenancygrpc: refusing tenant-less call to " +:+ method_name r)))
  | Ok tc => invoke r (AppendToOutgoingContext ctx MetadataKey (HeaderValue tc))
  end.

Definition upstreamError (c : Call) (st : Status) : Response :=
  let '(code, msg) := match st_code st with
    | InvalidArgument => (400, st_msg st)
    | NotFound => (404, "not found")
    | AlreadyExists => (409, "already exists")
    | PermissionDenied => (403, "forbidden")
    | ResourceExhausted => (429, "rate limited")
    | DeadlineExceededCode => (504, "upstream timeout")
    | Unauthenticated | FailedPrecondition => (500, "internal error")
    | _ => (502, "upstream error")
    end in
  writeJSON c code (json_error msg).

Definition internalError (c : Call) : Response := writeJSON c 500 (json_error "internal error").

(** Go on with the answer of a call, or answer its error. *)
Definition rpc {A} (c : Call) (ctx : Ctx) (r : Rpc A) (k : A → prog W Response) : prog W Response :=
  bind (grpc_call ctx r) (λ a, match a with Err st => Ret (upstreamError c st) | Ok a => k a end).

(** Handlers that need the tenant themselves. *)
Definition with_tenant (c : Call) (k : Context → prog W Response) : prog W Response :=
  match FromContext (c_ctx c) with Err _ => Ret (unauthorized c) | Ok tc => k tc end.

Definition bad_request (c : Call) (msg : string) : Response := writeJSON c 400 (json_error msg).

(** ** connectors.go *)
Definition maxConnectorBodyBytes : nat := Z.to_nat (2 ^ 20).

Definition decodeJSONBody {A} (c : Call) (dec : bytes → decoded A) (k : A → prog W Response) : prog W Response :=
  let body := rq_Body (c_req c) in
  match dec (take maxConnectorBodyBytes body) with
  | DOk a => k a
  | DMore =>
    if (maxConnectorBodyBytes <? length body)%nat
    then Ret (writeJSON c 413 (json_error "request body too large"))
    else Ret (bad_request c "invalid JSON body")
  | DBad => Ret (bad_request c "invalid JSON body")
  end.

Definition writeProtoJSON (c : Call) (status : Z) (m : PMsg) : Response :=
  match proto_Marshal m with
  | Err _ => internalError c
  | Ok b => mkResp status (header_Set "Content-Type" "application/json" (c_hdr c)) (BBytes (b ++ ["010"%char]))
  end.

Definition handleCreateConnector : handler := λ c,
  decodeJSONBody c dec_create (λ body,
  if String.eqb (cb_ConnectorID body) "" then Ret (bad_request c "connector_id is required")
  else
    let configJSON := default "{}" (cb_Config body) in
    rpc c (c_ctx c) EnsureTenant (λ _,
    rpc c (c_ctx c) (CreateConnectorInstance (cb_ConnectorID body) (cb_DisplayName body) configJSON) (λ inst,
    Ret (writeProtoJSON c 201 (PMInstance inst))))).

Fixpoint list_entries (c : Call) (insts : list PInstance) (entries : list Json) : prog W Response :=
  match insts with
  | [] => Ret (writeJSON c 200 (JArr (rev entries)))
  | inst :: insts' =>
    match proto_Marshal (PMInstance inst) with
    | Err _ => Ret (internalError c)
    | Ok instJSON =>
      bind (grpc_call (c_ctx c) (GetSyncState (pi_id inst))) (λ r,
      match r with
      | Ok st =>
        match proto_Marshal (PMSync st) with
        | Err _ => Ret (internalError c)
        | Ok syncJSON => list_entries c insts' (JObj [("instance", JRaw instJSON); ("sync", JRaw syncJSON)] :: entries)
        end
      | Err st =>
        if bool_decide (st_code st = NotFound)
        then list_entries c insts' (JObj [("instance", JRaw instJSON); ("sync", JNull)] :: entries)
        else Ret (upstreamError c st)
      end)
    end
  end.

Definition handleListConnectors : handler := λ c,
  rpc c (c_ctx c) ListConnectorInstances (λ insts, list_entries c insts []).

Definition handleDeleteConnector : handler := λ c,
  rpc c (c_ctx c) (DeleteConnectorInstance (PathValue c 0)) (λ _, Ret (WriteHeader c 204)).

Definition handlePutToken : handler := λ c,
  decodeJSONBody c dec_token (λ token,
  if String.eqb token "" then Ret (bad_request c "token is required")
  else rpc c (c_ctx c) (PutToken (PathValue c 0) token) (λ _, Ret (WriteHeader c 204))).

(** ** index.go *)
Record indexStatus := mkIndexStatus { ix_Emitted : Z; ix_Syncing : bool; ix_Connectors : list Json }.

Definition phase_text (p : Z) : string := default (pretty p) (SyncPhase_name p).

Definition indexConnectorJSON (inst : PInstance) (phase : string) (docs : Z) (completed lastError : string) : Json :=
  JObj [("id", JStr (pi_id inst)); ("connector_id", JStr (pi_connector inst)); ("display_name", JStr (pi_display inst));
    ("phase", JStr phase); ("docs_emitted", JInt docs); ("last_sync_completed", JStr completed);
    ("last_error", JStr lastError)].

Fixpoint index_entries (c : Call) (insts : list PInstance) (out : indexStatus) (k : indexStatus → prog W Response) :
    prog W Response :=
  match insts with
  | [] => k out
  | inst :: insts' =>
    bind (grpc_call (c_ctx c) (GetSyncState (pi_id inst))) (λ r,
    match r with
    | Ok s =>
      index_entries c insts' (mkIndexStatus (wrap64 (ix_Emitted out + ps_docs s))
        (ix_Syncing out || (ps_phase s =? 1) || (ps_phase s =? 2))
        (ix_Connectors out ++ [indexConnectorJSON inst (phase_text (ps_phase s)) (ps_docs s)
           (rfc3339OrEmpty (ps_completed s)) (ps_last_error s)])) k
    | Err st =>
      if bool_decide (st_code st = NotFound)
      then index_entries c insts' (mkIndexStatus (ix_Emitted out) (ix_Syncing out)
             (ix_Connectors out ++ [indexConnectorJSON inst (phase_text 0) 0 "" ""])) k
      else Ret (upstreamError c st)
    end)
  end.

Definition handleIndexStatus : handler := λ c,
  bind (grpc_call (c_ctx c) CountRpc) (λ r,
  let indexed := match r with Ok n => n | Err _ => -1 end in
  rpc c (c_ctx c) ListConnectorInstances (λ insts,
  index_entries c insts (mkIndexStatus 0 false []) (λ out,
  let backlog := if (0 <=? indexed) && (indexed <? ix_Emitted out) then wrap64 (ix_Emitted out - indexed) else 0 in
  Ret (writeJSON c 200 (JObj [("indexed", JInt indexed); ("emitted", JInt (ix_Emitted out)); ("backlog", JInt backlog);
    ("syncing", JBool (ix_Syncing out || (0 <? backlog))); ("connectors", JArr (ix_Connectors out))]))))).

Definition handleReindexConnector : handler := λ c,
  rpc c (c_ctx c) (SetSyncState (mkPSyncState (PathValue c 0) "" 1 None None "" 0)) (λ _,
  Ret (writeJSON c 202 (JObj [("status", JStr "reindexing")]))).
(** ** recent.go *)
Definition maxRecentSearches : Z := 20.
Definition recentSearchTTL : Z := 90 * 24 * 3600 * second.
Definition maxRecentQueryLen : nat := 256.
Definition maxRecentBodyBytes : nat := 4096.

Definition recentKey (tenant : TenantID) : string := "asker:recent:" +:+ tenant.

Definition normalizeRecentQuery (q : string) : string :=
  let q := Join (Fields q) " " in
  if (maxRecentQueryLen <? length (runes q))%nat
  then TrimSpace (of_bytes (concat ((λ r, EncodeRune r.1) <$> take maxRecentQueryLen (runes q))))
  else q.

(** Best effort: errors are logged. *)
Definition recordRecent (ctx : Ctx) (q : string) : prog W unit :=
  if negb (d_recent d) then Ret tt
  else match FromContext ctx with
  | Err _ => Ret tt
  | Ok tc =>
    let norm := normalizeRecentQuery q in
    if String.eqb norm "" then Ret tt
    else bind (redis (redis_RecordRecent (recentKey (tenantID tc)) norm maxRecentSearches recentSearchTTL)) (λ _, Ret tt)
  end.

Definition handleListRecent : handler := λ c,
  with_tenant c (λ tc,
  let answer l := Ret (writeJSON c 200 (JObj [("searches", JArr (JStr <$> l))])) in
  if d_recent d then
    bind (redis (redis_RecentList (recentKey (tenantID tc)) maxRecentSearches)) (λ r,
    answer (match r with Ok l => l | Err _ => [] end))
  else answer []).

(** [Decode] under an [io.LimitReader]. *)
Definition decode_limited {A} (c : Call) (limit : nat) (dec : bytes → decoded A) (k : A → prog W Response) : prog W Response :=
  match dec (take limit (rq_Body (c_req c))) with
  | DOk a => k a
  | _ => Ret (bad_request c "invalid JSON body")
  end.

Definition handlePostRecent : handler := λ c,
  decode_limited c maxRecentBodyBytes dec_recent (λ q,
  bind (recordRecent (c_ctx c) q) (λ _, Ret (WriteHeader c 204))).

Definition handleDeleteRecent : handler := λ c,
  with_tenant c (λ tc,
  if negb (d_recent d) then Ret (WriteHeader c 204)
  else
    let key := recentKey (tenantID tc) in
    let q := normalizeRecentQuery (values_Get (rq_Query (c_req c)) "q") in
    bind (if negb (String.eqb q "") then redis (redis_RemoveRecent key q) else redis (redis_ClearRecent key)) (λ _,
    Ret (WriteHeader c 204))).

(** ** search.go: the handlers *)
Definition searchRPC (c : Call) (req : SearchRequest) : prog W (result Status (SearchResponse * Values)) :=
  let ctx := Nat.iter (bypass_hints (c_req c)) (λ ctx, AppendToOutgoingContext ctx "x-asker-cache-bypass" "true") (c_ctx c) in
  grpc_call ctx (SearchRpc req).

Definition serve_search (c : Call) (req : SearchRequest) : prog W Response :=
  bind (searchRPC c req) (λ r,
  match r with
  | Err st => Ret (upstreamError c st)
  | Ok (resp, headers) =>
    bind (recordRecent (c_ctx c) (sr_Query req)) (λ _, Ret (writeSearchResponse c req resp headers))
  end).

Definition handleSearch : handler := λ c,
  match parseSearchRequest (rq_Query (c_req c)) (d_maxQueryChars d) with
  | Err e => Ret (bad_request c e)
  | Ok req => serve_search c req
  end.

Definition set_scope (types : list DocType) (limit offset : Z) (req : SearchRequest) : SearchRequest :=
  mkSearch (sr_Query req) types (sr_FromDate req) (sr_ToDate req) (sr_Participant req) limit offset (sr_Mode req)
    (sr_Debug req) (sr_Rerank req).

Definition handlePeopleSearch : handler := λ c,
  match parseSearchRequest (rq_Query (c_req c)) (d_maxQueryChars d) with
  | Err e => Ret (bad_request c e)
  | Ok req =>
    let req := set_scope [EMAIL; CHAT_MESSAGE; CALENDAR_EVENT] peopleScanLimit 0 req in
    Atomic _ (input now_of) (λ start,
    rpc c (c_ctx c) (SearchRpc req) (λ resp,
    bind (recordRecent (c_ctx c) (sr_Query req)) (λ _,
    Atomic _ (input now_of) (λ now,
    let people := aggregatePeople range_people (rs_Hits resp.1) (sr_Query req) now in
    Atomic _ (input now_of) (λ end_,
    Ret (writeJSON c 200 (peopleResponseJSON people (Z.quot (time_Sub end_ start) millisecond))))))))
  end.

Definition handleSourceSearch : handler := λ c,
  let source := PathValue c 0 in
  if String.eqb source "people" then handlePeopleSearch c
  else match sourceDocTypes source with
  | None => Ret (writeJSON c 404 (json_error "unknown source"))
  | Some types =>
    match parseSearchRequest (rq_Query (c_req c)) (d_maxQueryChars d) with
    | Err e => Ret (bad_request c e)
    | Ok req => serve_search c (set_scope types (sr_Limit req) (sr_Offset req) req)
    end
  end.

(** ** personalization.go *)
Definition maxPreferencesBodyBytes : nat := Z.to_nat (64 * 1024).
Definition maxFeedbackBodyBytes : nat := Z.to_nat (8 * 1024).

Definition set_version (v : Z) (p : Profile) : Profile :=
  mkProfile v (pr_SourceWeights p) (pr_ImportantPeople p) (pr_Topics p) (pr_Mute p) (pr_SelfEmails p) (pr_Timezone p)
    (pr_WorkingHours p) (pr_AttentionSensitivity p) (pr_RecencyVsImportance p) (pr_NoveltyVsFamiliarity p)
    (pr_LearningPaused p) (pr_Weights p).

Definition set_self (l : list string) (p : Profile) : Profile :=
  mkProfile (pr_Version p) (pr_SourceWeights p) (pr_ImportantPeople p) (pr_Topics p) (pr_Mute p) l (pr_Timezone p)
    (pr_WorkingHours p) (pr_AttentionSensitivity p) (pr_RecencyVsImportance p) (pr_NoveltyVsFamiliarity p)
    (pr_LearningPaused p) (pr_Weights p).

(** [i] gives the order [Clamp] ranges over the source weights in. *)
Definition resolveProfile (i : Inp) (profileJSON : string) (version : Z) : Profile :=
  let profile :=
    if String.eqb profileJSON "" then DefaultProfile
    else match profile_Unmarshal profileJSON with
    | Some p => Clamp (range_weights i (pr_SourceWeights p)) p
    | None => DefaultProfile
    end in
  set_version version profile.

Definition callerEmail (c : Call) : string :=
  match c_claims c with
  | Some cl => match cl !! "email" with Some (JStr e) => e | _ => "" end
  | None => ""
  end.

Definition cache_put (ctx : Ctx) (key : TenantID → string) (value : string) : prog W unit :=
  if negb (d_prefs d) then Ret tt
  else match FromContext ctx with
  | Err _ => Ret tt
  | Ok tc => bind (redis (redis_Set (key (tenantID tc)) value 0)) (λ _, Ret tt)
  end.

Definition cacheProfile (ctx : Ctx) (p : Profile) : prog W unit :=
  match profile_Marshal p with
  | Err _ => Ret tt
  | Ok body => cache_put ctx RedisProfileKey body
  end.

Definition cacheWeights (ctx : Ctx) (weightsJSON : string) : prog W unit := cache_put ctx RedisWeightsKey weightsJSON.

Definition handleGetPreferences : handler := λ c,
  rpc c (c_ctx c) GetPersonalization (λ resp,
  Atomic _ (input (λ i, resolveProfile i (pr_profile resp) (pr_version resp))) (λ profile,
  Ret (writeJSON c 200 (JObj [("profile", profile_Json profile); ("sample_count", JInt (pr_samples resp))])))).

Definition handlePutPreferences : handler := λ c,
  decode_limited c maxPreferencesBodyBytes dec_profile (λ p,
  Atomic _ (input (λ i, Clamp (range_weights i (pr_SourceWeights p)) p)) (λ p,
  let p := match pr_SelfEmails p with
    | [] => if String.eqb (callerEmail c) "" then p else set_self [ToLower (callerEmail c)] p
    | _ => p
    end in
  match profile_Marshal p with
  | Err _ => Ret (writeJSON c 500 (json_error "encode profile"))
  | Ok body =>
    rpc c (c_ctx c) (PutPreferences body) (λ version,
    bind (cacheProfile (c_ctx c) (set_version version p)) (λ _,
    Ret (writeJSON c 200 (JObj [("version", JInt version)]))))
  end)).

Definition handleFeedback : handler := λ c,
  decode_limited c maxFeedbackBodyBytes dec_feedback (λ fb,
  if String.eqb (TrimSpace (pf_action fb)) "" then Ret (bad_request c "action is required")
  else rpc c (c_ctx c) (RecordFeedback fb) (λ resp,
  bind (if String.eqb (fr_weights resp) "" then Ret tt else cacheWeights (c_ctx c) (fr_weights resp)) (λ _,
  Ret (writeJSON c 200 (JObj [("learning_paused", JBool (fr_paused resp)); ("sample_count", JInt (fr_samples resp))]))))).

Definition handleResetLearning : handler := λ c,
  rpc c (c_ctx c) ResetLearning (λ deleted,
  bind (match d_prefs d, FromContext (c_ctx c) with
        | true, Ok tc => bind (redis (redis_DeleteKey (RedisWeightsKey (tenantID tc)))) (λ _, Ret tt)
        | _, _ => Ret tt
        end) (λ _,
  Ret (writeJSON c 200 (JObj [("feedback_deleted", JInt deleted)])))).

Definition handleExportPersonalization : handler := λ c,
  rpc c (c_ctx c) GetPersonalization (λ resp,
  let model := if String.eqb (pr_weights resp) "" then zeroModel else model_Unmarshal (pr_weights resp) in
  Atomic _ (input (λ i, resolveProfile i (pr_profile resp) (pr_version resp))) (λ profile,
  Ret (writeJSON c 200 (JObj [("learned_model", model_Json model); ("profile", profile_Json profile);
    ("sample_count", JInt (pr_samples resp))])))).

(** ** me.go *)
Definition receipt (rep : DeleteReport) : list (string * Json) :=
  [("blobs_deleted", JInt (rep_blobs rep)); ("connector_instances_deleted", JInt (rep_instances rep));
   ("dek_destroyed", JBool (rep_dek rep)); ("deleted", JBool true); ("redis_purged", JBool (rep_redis rep));
   ("tenant_id", JStr (rep_tenant rep)); ("tokens_deleted", JInt (rep_tokens rep));
   ("verified_empty", JBool (rep_verified rep)); ("vespa_group_purged", JBool (rep_vespa rep))].

Definition handleDeleteMyData : handler := λ c,
  with_tenant c (λ tc,
  rpc c (c_ctx c) (DeleteTenant (tenantID tc)) (λ rep, Ret (writeJSON c 200 (JObj (receipt rep))))).

Definition handleMe : handler := λ c,
  with_tenant c (λ tc,
  Ret (writeJSON c 200 (JObj [("email", JStr (callerEmail c)); ("subject", JStr (subject tc)); ("tenant_id", JStr (tenantID tc))]))).

(** ** media.go *)
Definition media_headers : list (string * string) :=
  [("X-Content-Type-Options", "nosniff"); ("Content-Disposition", "attachment");
   ("Content-Security-Policy", "default-src 'none'; sandbox"); ("X-Frame-Options", "DENY")].

Definition handleMedia : handler := λ c,
  with_tenant c (λ tc,
  let key := values_Get (rq_Query (c_req c)) "key" in
  if String.eqb key "" then Ret (bad_request c "key is required")
  else
    let target := d_hubURL d +:+ "/internal/media?key=" +:+ QueryEscape key in
    if negb (url_ok target) then Ret (bad_request c "invalid key")
    else Atomic _ (hub_Do (mkHubRequest "GET" target (HeaderValue tc) "" 0 [] false)) (λ r,
    match r with
    | Err _ => Ret (writeJSON c 502 (json_error "media unavailable"))
    | Ok resp =>
      let c := if String.eqb (hp_contentType resp) "" then c else set_header "Content-Type" (hp_contentType resp) c in
      let c := foldl (λ c kv, set_header kv.1 kv.2 c) c media_headers in
      Ret (mkResp (hp_status resp) (c_hdr c) (BBytes (take (Z.to_nat (d_maxMediaBytes d)) (hp_body resp))))
    end)).

(** ** upload.go *)
Definition writeUploadTooLarge (c : Call) : Response := writeJSON c 413 (json_error "request body too large").

(** The body flows through [http.MaxBytesReader]. *)
Definition handleUpload : handler := λ c,
  with_tenant c (λ tc,
  let contentType := values_Get (rq_Header (c_req c)) "Content-Type" in
  if negb (bool_decide (ParseMediaType contentType = Some "multipart/form-data"))
  then Ret (bad_request c "expected multipart/form-data")
  else if d_maxUploadBytes d <? rq_ContentLength (c_req c) then Ret (writeUploadTooLarge c)
  else if negb (url_ok (d_hubURL d +:+ "/upload")) then Ret (internalError c)
  else
    let cap := Z.to_nat (d_maxUploadBytes d) in
    Atomic _ (hub_Do (mkHubRequest "POST" (d_hubURL d +:+ "/upload") (HeaderValue tc) contentType (rq_ContentLength (c_req c))
      (take cap (rq_Body (c_req c))) (cap <? length (rq_Body (c_req c)))%nat)) (λ r,
    match r with
    | Err true => Ret (writeUploadTooLarge c)
    | Err false => Ret (writeJSON c 502 (json_error "upload unavailable"))
    | Ok resp =>
      let c := if String.eqb (hp_contentType resp) "" then c else set_header "Content-Type" (hp_contentType resp) c in
      Ret (mkResp (hp_status resp) (c_hdr c) (BBytes (hp_body resp)))
    end)).

(** ** oauth.go *)
Definition oauthStateTTL : Z := 10 * 60 * second.
Definition oauthStateBytes : nat := 32.
Definition statePrefix : string := "oauthstate:".

Definition randomState (i : Inp) : option string := RawURLEncode <$> ReadFull i oauthStateBytes.

(** [url.Values.Encode]: by key. *)
Definition values_Encode (q : Values) : string :=
  encode_values (flat_map (λ kv, pair kv.1 <$> kv.2) (sort_by (λ a b, str_leb a.1 b.1) (map_to_list q))).

Definition appendQueryParam (rawURL key value : string) : string :=
  match url_Query rawURL with
  | None => rawURL
  | Some (q, with_query) => with_query (values_Encode (header_Set key value q))
  end.

Definition userEmailFromConfig (configJSON : string) : string :=
  if String.eqb configJSON "" then "" else default "" (userEmail_json configJSON).

Definition callback_uri : string := d_gatewayPublicURL d +:+ "/v1/oauth/callback".

Definition handleOAuthStart : handler := λ c,
  if negb (d_oauth d && d_oauthState d) then Ret (writeJSON c 501 (json_error "oauth not configured"))
  else with_tenant c (λ tc,
  let instanceID := PathValue c 0 in
  rpc c (c_ctx c) (GetConnectorInstance instanceID) (λ inst,
  match ConnectorOAuth (pi_connector inst) with
  | None => Ret (bad_request c "connector is not an OAuth connector")
  | Some (provider, scopes) =>
    if negb (IsConfigured (d_oauthCfg d) provider) then Ret (bad_request c "oauth provider not configured")
    else Atomic _ (input (λ i, (GenerateVerifier i, randomState i, now_of i))) (λ s,
    let '(verifier, state, now) := s in
    match state with
    | None => Ret (internalError c)
    | Some state =>
      match flow_Marshal (mkFlow (tenantID tc) instanceID (pi_connector inst) provider verifier now) with
      | Err _ => Ret (internalError c)
      | Ok blob =>
        bind (redis (redis_Set (statePrefix +:+ state) blob oauthStateTTL)) (λ r,
        match r with
        | Err _ => Ret (internalError c)
        | Ok _ =>
          match oauth_AuthCodeURL (d_oauthCfg d) provider scopes callback_uri state (S256ChallengeFromVerifier verifier) with
          | Err _ => Ret (internalError c)
          | Ok authURL =>
            let hint := userEmailFromConfig (pi_config inst) in
            let authURL := if String.eqb provider Google && negb (String.eqb hint "")
              then appendQueryParam authURL "login_hint" hint else authURL in
            Ret (writeJSON c 200 (JObj [("authorize_url", JStr authURL)]))
          end
        end)
      end
    end)
  end)).

(** [http.Redirect]; its HTML body is left out. *)
Definition http_Redirect (c : Call) (url : string) (status : Z) : Response :=
  mkResp status (header_Set "Location" url (c_hdr c)) BNone.

Definition redirectOAuthError (c : Call) : Response := http_Redirect c (d_webAppURL d +:+ "/connectors?oauth=error") 302.

Definition stamp_token (flow : oauthFlowState) (t : Token) : Token :=
  mkOAuthToken (tk_asker_oauth t) (fl_Provider flow) (fl_ConnectorID flow) (tk_access t) (tk_refresh t) (tk_type t)
    (tk_expiry t) (tk_scope t).

(** What follows once the state is consumed. *)
Definition finish_flow (c : Call) (flow : oauthFlowState) : prog W Response :=
  let q := rq_Query (c_req c) in
  if negb (String.eqb (values_Get q "error") "") then Ret (redirectOAuthError c)
  else
    let code := values_Get q "code" in
    if String.eqb code "" then Ret (redirectOAuthError c)
    else match FromHeaderValue (fl_Tenant flow) with
    | Err _ => Ret (redirectOAuthError c)
    | Ok tc =>
      let ctx := WithContext (c_ctx c) tc in
      bind (oauth_Exchange (d_oauthCfg d) (fl_Provider flow) code callback_uri (fl_Verifier flow)) (λ r,
      match r with
      | Err _ => Ret (redirectOAuthError c)
      | Ok token =>
        match oauth_Marshal (stamp_token flow token) with
        | Err _ => Ret (redirectOAuthError c)
        | Ok blobOut =>
          bind (grpc_call ctx (PutToken (fl_InstanceID flow) blobOut)) (λ r,
          match r with
          | Err _ => Ret (redirectOAuthError c)
          | Ok _ => Ret (http_Redirect c (d_webAppURL d +:+ "/connectors?oauth=connected") 302)
          end)
        end
      end)
    end.

Definition handleOAuthCallback : handler := λ c,
  if negb (d_oauth d && d_oauthState d) then Ret (redirectOAuthError c)
  else
    let state := values_Get (rq_Query (c_req c)) "state" in
    if String.eqb state "" then Ret (redirectOAuthError c)
    else bind (redis (redis_GetDel (statePrefix +:+ state))) (λ r,
    match r with
    | Err _ => Ret (redirectOAuthError c)
    | Ok blob =>
      match flow_Unmarshal blob with
      | Err _ => Ret (redirectOAuthError c)
      | Ok flow => finish_flow c flow
      end
    end).

(** ** admin.go: the handlers *)
Definition withAdminSubject (c : Call) : Ctx :=
  AppendToOutgoingContext (c_ctx c) adminSubjectMetadataKey (adminSubject (c_claims c)).

Definition handleAdminListTenants : handler := λ c,
  let q := rq_Query (c_req c) in
  let list n := rpc c (withAdminSubject c) (ListTenants n (values_Get q "page_token")) (λ resp,
    Ret (writeProtoJSON c 200 (PMTenants resp))) in
  let raw := values_Get q "limit" in
  if String.eqb raw "" then list 0
  else match Atoi raw with
  | Some n => if n <? 0 then Ret (bad_request c "invalid limit") else list (QueryRank.wrap32 n)
  | None => Ret (bad_request c "invalid limit")
  end.

Definition handleAdminGetTenant : handler := λ c,
  rpc c (withAdminSubject c) (GetTenantUsage (PathValue c 0)) (λ u, Ret (writeProtoJSON c 200 (PMUsage u))).

Definition handleAdminSuspendTenant : handler := λ c,
  decodeJSONBody c dec_suspend (λ suspended,
  rpc c (withAdminSubject c) (SuspendTenant (PathValue c 0) suspended) (λ n,
  Ret (writeJSON c 200 (JObj [("instances_changed", JInt n); ("suspended", JBool suspended);
    ("tenant_id", JStr (PathValue c 0))])))).

Definition handleAdminDeleteTenant : handler := λ c,
  rpc c (withAdminSubject c) (AdminDeleteTenantRpc (PathValue c 0)) (λ rep,
  Ret (writeJSON c 200 (JObj (("actor", JStr (rep_actor rep)) :: receipt rep)))).

(** ** routes.go *)
Definition method_not_allowed (c : Call) (allow : string) : Response :=
  writeJSON (set_header "Allow" allow c) 405 (json_error "method not allowed").

Definition getOnly (h : handler) : handler := λ c,
  if String.eqb (rq_Method (c_req c)) "GET" then h c else Ret (method_not_allowed c "GET").

Definition methods (hs : list (string * handler)) : handler := λ c,
  match find (λ e, String.eqb e.1 (rq_Method (c_req c))) hs with
  | Some (_, h) => h c
  | None => Ret (method_not_allowed c (Join (sort_by str_leb hs.*1) ", "))
  end.

Definition handleHealthz : handler := λ c, Ret (writeJSON c 200 (JObj [("status", JStr "ok")])).

Definition handleReadyz : handler := λ c,
  Atomic _ (input jwks_probe) (λ r, Ret (
  match r with
  | Ok status => if (200 <=? status) && (status <=? 299) then writeJSON c 200 (JObj [("status", JStr "ready")])
                 else writeJSON c 503 (JObj [("status", JStr "unavailable")])
  | Err _ => writeJSON c 503 (JObj [("status", JStr "unavailable")])
  end)).

Definition handleNotFound : handler := λ c, Ret (writeJSON c 404 (json_error "not found")).

Definition handleMetrics : handler := λ c,
  Atomic _ (input metrics) (λ r, let '(status, contentType, body) := r in
  Ret (mkResp status (header_Set "Content-Type" contentType (c_hdr c)) (BBytes body))).

Record gatewayConfig := mkGatewayConfig {
  gc_RateLimitPerMinute : Z; gc_CORSAllowedOrigins : string; gc_PreAuthPerIPPerMinute : Z; gc_PreAuthGlobalPerSec : Z;
  gc_TrustProxyHeaders : bool
}.

(** What a route is registered with. *)
Inductive access := Public | Authed | AdminAuthed.

Definition path (l : list string) : mux_pattern :=
  mkPattern None ((λ s, if String.eqb s "*" then Wild else Lit s) <$> l).

Definition routes : list (mux_pattern * (access * handler)) :=
  [(path ["healthz"], (Public, getOnly handleHealthz));
   (path ["readyz"], (Public, getOnly handleReadyz));
   (mkPattern (Some "GET") [Lit "metrics"], (Public, handleMetrics));
   (path ["v1"; "me"], (Authed, getOnly handleMe));
   (path ["v1"; "me"; "data"], (Authed, methods [("DELETE", handleDeleteMyData)]));
   (path ["v1"; "search"], (Authed, getOnly handleSearch));
   (path ["v1"; "search"; "*"], (Authed, getOnly handleSourceSearch));
   (path ["v1"; "searches"; "recent"], (Authed, getOnly handleListRecent));
   (path ["v1"; "searches"], (Authed, methods [("POST", handlePostRecent); ("DELETE", handleDeleteRecent)]));
   (path ["v1"; "preferences"], (Authed, methods [("GET", handleGetPreferences); ("PUT", handlePutPreferences)]));
   (path ["v1"; "preferences"; "reset"], (Authed, methods [("POST", handleResetLearning)]));
   (path ["v1"; "preferences"; "export"], (Authed, getOnly handleExportPersonalization));
   (path ["v1"; "feedback"], (Authed, methods [("POST", handleFeedback)]));
   (path ["v1"; "media"], (Authed, getOnly handleMedia));
   (path ["v1"; "connectors"], (Authed, methods [("GET", handleListConnectors); ("POST", handleCreateConnector)]));
   (path ["v1"; "connectors"; "*"], (Authed, methods [("DELETE", handleDeleteConnector)]));
   (path ["v1"; "connectors"; "*"; "token"], (Authed, methods [("PUT", handlePutToken)]));
   (path ["v1"; "index"; "status"], (Authed, getOnly handleIndexStatus));
   (path ["v1"; "connectors"; "*"; "reindex"], (Authed, methods [("POST", handleReindexConnector)]));
   (path ["v1"; "connectors"; "*"; "oauth"; "start"], (Authed, getOnly handleOAuthStart));
   (path ["v1"; "upload"], (Authed, methods [("POST", handleUpload)]));
   (path ["v1"; "oauth"; "callback"], (Public, getOnly handleOAuthCallback));
   (path ["v1"; "admin"; "tenants"], (AdminAuthed, getOnly handleAdminListTenants));
   (path ["v1"; "admin"; "tenants"; "*"],
     (AdminAuthed, methods [("GET", handleAdminGetTenant); ("DELETE", handleAdminDeleteTenant)]));
   (path ["v1"; "admin"; "tenants"; "*"; "suspend"], (AdminAuthed, methods [("POST", handleAdminSuspendTenant)]))].

Definition authed (cfg : gatewayConfig) (h : handler) : handler :=
  auth_middleware (limiter_middleware (R := R) (gc_RateLimitPerMinute cfg) h).

Definition adminAuthed (cfg : gatewayConfig) (h : handler) : handler :=
  authed cfg (requireAdmin (d_oidcAudience d) h).

Definition registered (cfg : gatewayConfig) (a : access) (h : handler) : handler :=
  match a with Public => h | Authed => authed cfg h | AdminAuthed => adminAuthed cfg h end.

Definition set_vars (vs : list string) (c : Call) : Call := mkHCall (c_req c) (c_ctx c) (c_claims c) vs (c_hdr c).

(** [ServeHTTP] of the mux: the redirect to the clean path first (its query is
    left out). *)
Definition mux_ServeHTTP (cfg : gatewayConfig) : handler := λ c,
  let r := c_req c in
  let serve p := match find_route routes (rq_Method r) (segments p) with
    | Some ((a, h), vs) => registered cfg a h (set_vars vs c)
    | None => handleNotFound c
    end in
  if String.eqb (rq_Path r) "*" then Ret (WriteHeader c 400)
  else if String.eqb (rq_Method r) "CONNECT" then serve (rq_Path r)
  else if negb (String.eqb (cleanPath (rq_Path r)) (rq_Path r)) then Ret (http_Redirect c (cleanPath (rq_Path r)) 301)
  else serve (rq_Path r).

Definition newHandler (cfg : gatewayConfig) : handler :=
  let preAuth := mkPreAuth (0 <? gc_PreAuthPerIPPerMinute cfg) (0 <? gc_PreAuthGlobalPerSec cfg) (gc_TrustProxyHeaders cfg) in
  securityHeadersMiddleware (cors_middleware (newCORSPolicy (gc_CORSAllowedOrigins cfg))
    (preAuth_middleware preAuth (mux_ServeHTTP cfg))).

(** One request: no tenant, no claims, no metadata of its own. *)
Definition serve_request (cfg : gatewayConfig) (r : HttpRequest) : prog W Response :=
  newHandler cfg (mkHCall r (mkCtx None None None ∅) None [] ∅).
End gateway.
