(* ===== verification/GatewayProofs.v ===== *)
(** * The gateway: proofs

    What any request can make the gateway do: every call downstream names the
    tenant of a verified token, operator calls need the admin claim, and the
    public OAuth callback acts only for the tenant of a state it consumes. *)

From stdpp Require Import base gmap strings list pretty.
From Stdlib Require Import Ascii ZArith Lia.
From S2P Require Import Prelude GoStrings GoText GoEncode GoFloat GoHttp Tenancy Crypto CryptoProofs Interleave Blob ControlPlane Erasure Admin Kafka.
From S2P Require Import HubScheduler HubSync QueryVespa QueryPlan Personalization QueryModels QueryServer OAuth.
From S2P Require Import GatewayEdge GatewayRedis GatewaySearch GatewayPeople Gateway.

Open Scope Z_scope.

(** What holds of every answer, and of the answers given the actions. *)
Lemma acts_rets {W A} (G : Inp → W → W → Prop) (Q Q' : A → Prop) (p : prog W A) :
  rets Q p → acts G Q' p → acts G (λ a, Q a ∧ Q' a) p.
Proof.
  induction p as [a|X f k IH]; [done|]. intros Hr He i w. destruct (He i w). split; [done|]. apply IH; [apply Hr|done].
Qed.

(** ** Outgoing metadata *)
Lemma md_append ctx k v : md_get (ctx_md_out (AppendToOutgoingContext ctx k v)) k = md_get (ctx_md_out ctx) k ++ [v].
Proof. unfold AppendToOutgoingContext, md_get at 1. cbn [ctx_md_out]. by rewrite lookup_insert_eq. Qed.

Lemma md_append_ne ctx k k' v : k' ≠ k → md_get (ctx_md_out (AppendToOutgoingContext ctx k v)) k' = md_get (ctx_md_out ctx) k'.
Proof. intros Hk. unfold AppendToOutgoingContext, md_get at 1. cbn [ctx_md_out]. by rewrite lookup_insert_ne. Qed.

(** ** Redis commands on a set of keys *)
Inductive redis_touch {R} `{!Redis R} (P : string → Prop) : Inp → R → R → Prop :=
| rt_incr k i r : P k → redis_touch P i r (INCR k i r).2
| rt_expire k ttl i r : P k → redis_touch P i r (EXPIRE k ttl i r).2
| rt_set k v ttl i r : P k → redis_touch P i r (SET k v ttl i r).2
| rt_del k i r : P k → redis_touch P i r (DEL k i r).2
| rt_lrem k v i r : P k → redis_touch P i r (LREM k v i r).2
| rt_lpush k v i r : P k → redis_touch P i r (LPUSH k v i r).2
| rt_ltrim k a b i r : P k → redis_touch P i r (LTRIM k a b i r).2
| rt_lrange k a b i r : P k → redis_touch P i r (LRANGE k a b i r).2.
Create HintDb gw.
#[export] Hint Constructors redis_touch : gw.

(** The keys of a tenant. *)
Definition tenant_key (t : TenantID) (k : string) : Prop :=
  (∃ now, k = rate_key t now) ∨ k = recentKey t ∨ k = RedisProfileKey t ∨ k = RedisWeightsKey t.

Lemma rate_own t now : tenant_key t (rate_key t now).
Proof. left. eauto. Qed.
Lemma recent_own t : tenant_key t (recentKey t).
Proof. by right; left. Qed.
Lemma profile_own t : tenant_key t (RedisProfileKey t).
Proof. by right; right; left. Qed.
Lemma weights_own t : tenant_key t (RedisWeightsKey t).
Proof. by right; right; right. Qed.
#[export] Hint Resolve rate_own recent_own profile_own weights_own : gw.

(** ** Response headers *)
Definition secured (h : Values) : Prop :=
  h !! "X-Content-Type-Options" = Some ["nosniff"] ∧ h !! "X-Frame-Options" = Some ["DENY"].

Lemma secured_insert k v h :
  k ≠ "X-Content-Type-Options" → k ≠ "X-Frame-Options" → secured h → secured (<[k := v]> h).
Proof. intros H1 H2 [Ha Hb]. split; by rewrite lookup_insert_ne. Qed.

Definition safe (r : Response) : Prop := secured (re_Header r).

Lemma writeJSON_safe c s b : secured (c_hdr c) → safe (writeJSON c s b).
Proof. intros H. by apply secured_insert. Qed.

Lemma WriteHeader_safe c s : secured (c_hdr c) → safe (WriteHeader c s).
Proof. done. Qed.

Lemma set_header_secured k v c :
  k ≠ "X-Content-Type-Options" → k ≠ "X-Frame-Options" → secured (c_hdr c) → secured (c_hdr (set_header k v c)).
Proof. intros. by apply secured_insert. Qed.

Section safety.
Context {W R : Type} {HU : Upstream W} {HR : Redis R} {HRW : HasRedis R W} {HL : HasLimiter W} {HO : OAuth2 W}.
Context `{!Folding, !Casing, !ZoneDB, !Quoting, !URLs, !CandidateJson, !Mail, !RealFuns, !MapOrder}.
Context `{!Verifier, !GatewayCodecs, !HubDeps}.
Context (d : deps).

(** The bearer token of the request verifies to these claims of this tenant. *)
Definition verified (r : HttpRequest) (claims : Claims) (tc : Context) : Prop :=
  ∃ raw i, bearerToken r = Some raw ∧ verify i raw = Ok claims ∧ FromClaims (any_of <$> claims) = Ok tc.

(** What a request may do to the world. *)
Inductive effect (r : HttpRequest) : Inp → W → W → Prop :=
| eff_none i w : effect r i w w
| eff_limiter l i w : effect r i w (set_limiter l w)
| eff_call A (rp : Rpc A) ctx claims tc i w w' :
    verified r claims tc → md_get (ctx_md_out ctx) MetadataKey = [tenantID tc] →
    (is_operator rp = true → isAdmin (Some claims) (d_oidcAudience d) = true) →
    does (invoke rp ctx) i w w' → effect r i w w'
| eff_hub q i claims tc w : verified r claims tc → hq_tenant q = tenantID tc → effect r i w (hub_Do q i w).2
| eff_redis claims tc i w rd :
    verified r claims tc → redis_touch (tenant_key (tenantID tc)) i (redis_of w) rd → effect r i w (set_redis rd w)
| eff_flow claims tc flow blob state i w :
    verified r claims tc → fl_Tenant flow = tenantID tc → flow_Marshal flow = Ok blob →
    effect r i w (set_redis (SET (statePrefix +:+ state) blob oauthStateTTL i (redis_of w)).2 w).

(** A call past authentication. *)
Record authed_call (c : Call) (claims : Claims) (tc : Context) : Prop := {
  ac_verified : verified (c_req c) claims tc;
  ac_claims : c_claims c = Some claims;
  ac_tenant : FromContext (c_ctx c) = Ok tc;
  ac_md : md_get (ctx_md_out (c_ctx c)) MetadataKey = [];
  ac_hdr : secured (c_hdr c)
}.

Definition served (c : Call) (p : prog W Response) : Prop := acts (effect (c_req c)) safe p.

Section handlers.
Context (c : Call) (claims : Claims) (tc : Context) (Hc : authed_call c claims tc).

Abbreviation G := (effect (c_req c)).

Lemma ret_served x : safe x → served c (Ret x).
Proof using Type. done. Qed.

Lemma json_served s b : served c (Ret (writeJSON c s b)).
Proof using Hc. apply writeJSON_safe, Hc. Qed.

Lemma upstreamError_served st : served c (Ret (upstreamError c st)).
Proof using Hc. unfold upstreamError. destruct (st_code st); apply json_served. Qed.

Lemma writeProtoJSON_served s m : served c (Ret (writeProtoJSON c s m)).
Proof using Hc.
  unfold writeProtoJSON. destruct (proto_Marshal m); [|apply json_served]. by apply secured_insert, Hc.
Qed.

(** A call with the context's own tenant. *)
Lemma grpc_call_each {A} ctx (rp : Rpc A) :
  FromContext ctx = Ok tc → md_get (ctx_md_out ctx) MetadataKey = [] →
  (is_operator rp = true → isAdmin (Some claims) (d_oidcAudience d) = true) →
  acts G (λ _, True) (grpc_call ctx rp).
Proof using Hc.
  intros Hx Hm Ha. unfold grpc_call. rewrite Hx. eapply acts_mono; [|apply acts_does]. intros i w w' Hd.
  eapply eff_call; [by apply Hc| |done|exact Hd]. by rewrite md_append, Hm.
Qed.

Lemma call_bind {A} (rp : Rpc A) (k : result Status A → prog W Response) :
  is_operator rp = false → (∀ a, served c (k a)) → served c (bind (grpc_call (c_ctx c) rp) k).
Proof using Hc.
  intros Hop Hk. apply acts_bind. eapply acts_conseq; [|apply grpc_call_each; [apply Hc|apply Hc|by rewrite Hop]].
  intros a _. apply Hk.
Qed.

Lemma rpc_served {A} (rp : Rpc A) (k : A → prog W Response) :
  is_operator rp = false → (∀ a, served c (k a)) → served c (rpc c (c_ctx c) rp k).
Proof using Hc. intros Hop Hk. apply call_bind; [done|]. intros [a|st]; [apply Hk|apply upstreamError_served]. Qed.

Lemma input_served {X} (f : Inp → X) (k : X → prog W Response) :
  (∀ x, served c (k x)) → served c (Atomic X (input f) k).
Proof using Type. intros Hk i w. split; [apply eff_none|apply Hk]. Qed.

(** Redis commands on the tenant's own keys. *)
Lemma redis_each {A} (p : prog R A) :
  acts (redis_touch (tenant_key (tenantID tc))) (λ _, True) p → acts G (λ _, True) (on_redis (W := W) p).
Proof using Hc.
  induction p as [a|X f k IH]; [done|]. intros Hp i w. cbn. destruct (Hp i (redis_of w)) as [Ht Hk].
  destruct (f i (redis_of w)) as [x rd]. split; [by eapply eff_redis; [apply Hc|]|by apply IH].
Qed.

Lemma redis_bind {A} (p : prog R A) (k : A → prog W Response) :
  acts (redis_touch (tenant_key (tenantID tc))) (λ _, True) p → (∀ a, served c (k a)) →
  served c (bind (on_redis p) k).
Proof using Hc. intros Hp Hk. apply acts_bind. eapply acts_conseq; [|by apply redis_each]. intros a _. apply Hk. Qed.
Lemma recordRecent_each q : acts G (λ _, True) (recordRecent d (c_ctx c) q).
Proof using Hc.
  unfold recordRecent. destruct (negb _); [done|]. rewrite (ac_tenant _ _ _ Hc). destruct (String.eqb _ _); [done|].
  apply acts_bind. eapply acts_conseq; [|apply redis_each]; [done|].
  do 4 (intros ??; split; [auto with gw|]). done.
Qed.

Lemma cache_put_each key v :
  (∀ t, tenant_key t (key t)) → acts G (λ _, True) (cache_put d (c_ctx c) key v).
Proof using Hc.
  intros Hk. unfold cache_put. destruct (negb _); [done|]. rewrite (ac_tenant _ _ _ Hc).
  apply acts_bind. eapply acts_conseq; [|apply redis_each]; [done|]. intros ??. split; [|done]. constructor. apply Hk.
Qed.

Lemma each_then {A} (p : prog W A) (k : A → prog W Response) :
  acts G (λ _, True) p → (∀ a, served c (k a)) → served c (bind p k).
Proof using Type. intros Hp Hk. apply acts_bind. eapply acts_conseq; [|exact Hp]. intros a _. apply Hk. Qed.

Lemma with_tenant_served k : served c (k tc) → served c (with_tenant c k).
Proof using Hc. unfold with_tenant. by rewrite (ac_tenant _ _ _ Hc). Qed.

Lemma decodeJSONBody_served {A} (dec : bytes → decoded A) k :
  (∀ a, served c (k a)) → served c (decodeJSONBody c dec k).
Proof using Hc.
  intros Hk. unfold decodeJSONBody. destruct (dec _); [apply Hk| |apply json_served].
  destruct (_ <? _)%nat; apply json_served.
Qed.

Lemma decode_limited_served {A} n (dec : bytes → decoded A) k :
  (∀ a, served c (k a)) → served c (decode_limited c n dec k).
Proof using Hc. intros Hk. unfold decode_limited. destruct (dec _); [apply Hk|apply json_served|apply json_served]. Qed.

(** ** Each handler *)
Lemma list_entries_served insts entries : served c (list_entries c insts entries).
Proof using Hc.
  revert entries. induction insts as [|inst insts IH]; intros entries; cbn [list_entries]; [apply json_served|].
  destruct (proto_Marshal (PMInstance inst)); [|apply json_served]. apply call_bind; [done|]. intros [st|st].
  - destruct (proto_Marshal (PMSync st)); [apply IH|apply json_served].
  - destruct (bool_decide _); [apply IH|apply upstreamError_served].
Qed.

Lemma index_entries_served insts out k : (∀ o, served c (k o)) → served c (index_entries c insts out k).
Proof using Hc.
  intros Hk. revert out. induction insts as [|inst insts IH]; intros out; cbn [index_entries]; [apply Hk|].
  apply call_bind; [done|]. intros [st|st]; [apply IH|]. destruct (bool_decide _); [apply IH|apply upstreamError_served].
Qed.

Lemma searchRPC_each req : acts G (λ _, True) (searchRPC c req).
Proof using Hc.
  apply grpc_call_each; [| |done].
  - generalize (bypass_hints (c_req c)). intros n. induction n as [|n IH]; [apply Hc|exact IH].
  - generalize (bypass_hints (c_req c)). intros n. induction n as [|n IH]; [apply Hc|].
    cbn [Nat.iter nat_rect]. by rewrite md_append_ne.
Qed.

Lemma serve_search_served req : served c (serve_search d c req).
Proof using Hc.
  apply each_then; [apply searchRPC_each|]. intros [[resp h]|st]; [|apply upstreamError_served].
  apply each_then; [apply recordRecent_each|]. intros _. apply ret_served. apply writeJSON_safe.
  by apply set_header_secured, Hc.
Qed.
Lemma media_secured k v (x : Call) :
  (k = "X-Content-Type-Options" → v = "nosniff") → (k = "X-Frame-Options" → v = "DENY") →
  secured (c_hdr x) → secured (c_hdr (set_header k v x)).
Proof using Type.
  intros Hx Hy [Ha Hb]. unfold set_header, header_Set. cbn [c_hdr]. split.
  - destruct (decide (k = "X-Content-Type-Options")) as [->|]; [by rewrite lookup_insert_eq, Hx|by rewrite lookup_insert_ne].
  - destruct (decide (k = "X-Frame-Options")) as [->|]; [by rewrite lookup_insert_eq, Hy|by rewrite lookup_insert_ne].
Qed.

(** The hub is asked for the tenant's own. *)
Lemma hub_served q (k : result bool HubReply → prog W Response) :
  hq_tenant q = tenantID tc → (∀ a, served c (k a)) → served c (Atomic _ (hub_Do q) k).
Proof using Hc. intros Hq Hk i w. split; [by eapply eff_hub; [apply Hc|]|apply Hk]. Qed.

Lemma flow_served key blob flow state (k : result string unit → prog W Response) :
  key = statePrefix +:+ state → fl_Tenant flow = tenantID tc → flow_Marshal flow = Ok blob → (∀ a, served c (k a)) →
  served c (bind (on_redis (redis_Set key blob oauthStateTTL)) k).
Proof using Hc.
  intros -> Hf Hm Hk i w. cbn. destruct (SET _ _ _ _ _) as [a rd] eqn:E. cbn. split; [|apply Hk].
  replace rd with (SET (statePrefix +:+ state) blob oauthStateTTL i (redis_of w)).2 by by rewrite E.
  by eapply eff_flow; [apply Hc| |].
Qed.

Lemma admin_rpc_served {A} (rp : Rpc A) (k : A → prog W Response) :
  isAdmin (Some claims) (d_oidcAudience d) = true → (∀ a, served c (k a)) →
  served c (rpc c (withAdminSubject c) rp k).
Proof using Hc.
  intros Ha Hk. apply each_then; [|intros [a|st]; [apply Hk|apply upstreamError_served]].
  apply grpc_call_each; [by destruct Hc| |done]. unfold withAdminSubject. rewrite md_append_ne by done. apply Hc.
Qed.

(** One step for each way a handler goes on. *)
Ltac serve :=
  repeat match goal with
  | |- served _ (Ret (writeJSON _ _ _)) => apply json_served
  | |- served _ (Ret (bad_request _ _)) => apply json_served
  | |- served _ (Ret (internalError _)) => apply json_served
  | |- served _ (Ret (writeUploadTooLarge _)) => apply json_served
  | |- served _ (Ret (upstreamError _ _)) => apply upstreamError_served
  | |- served _ (Ret (writeProtoJSON _ _ _)) => apply writeProtoJSON_served
  | |- served _ (Ret (WriteHeader _ _)) => apply ret_served, WriteHeader_safe, Hc
  | |- served _ (with_tenant _ _) => apply with_tenant_served
  | |- served _ (rpc _ (withAdminSubject _) _ _) => apply admin_rpc_served; [assumption|intros ?]
  | |- served _ (rpc _ _ _ _) => apply rpc_served; [reflexivity|intros ?]
  | |- served _ (decodeJSONBody _ _ _) => apply decodeJSONBody_served; intros ?
  | |- served _ (decode_limited _ _ _ _) => apply decode_limited_served; intros ?
  | |- served _ (Atomic _ (input _) _) => apply input_served; intros ?
  | |- served _ (bind (grpc_call _ _) _) => apply call_bind; [reflexivity|intros ?]
  | |- served _ (bind (recordRecent _ _ _) _) => apply each_then; [apply recordRecent_each|intros ?]
  | |- served _ (bind (on_redis _) _) => apply redis_bind; [intros ? ?; split; [auto with gw|exact I]|intros ?]
  | |- served _ (if ?b then _ else _) => destruct b
  end.

Lemma handleMedia_served : served c (handleMedia d c).
Proof using Hc.
  unfold handleMedia. serve. apply hub_served; [done|]. intros [resp|]; [|apply json_served]. apply ret_served.
  unfold safe, media_headers. cbn [foldl re_Header fst snd]. repeat (apply media_secured; [done|done|]).
  destruct (String.eqb _ _); [apply Hc|]. by apply set_header_secured, Hc.
Qed.

Lemma handleUpload_served : served c (handleUpload d c).
Proof using Hc.
  unfold handleUpload. serve. apply hub_served; [done|]. intros [resp|[]]; [|apply json_served|apply json_served].
  apply ret_served. unfold safe. cbn [re_Header]. destruct (String.eqb _ _); [apply Hc|]. by apply set_header_secured, Hc.
Qed.

Lemma handleOAuthStart_served : served c (handleOAuthStart d c).
Proof using Hc.
  unfold handleOAuthStart. serve. destruct (ConnectorOAuth _) as [[provider scopes]|]; [|serve]. serve.
  destruct x as [[verifier [state|]] now]; [|serve].
  destruct (flow_Marshal _) as [blob|] eqn:Em; [|serve]. eapply flow_served; [done| |exact Em|]; [done|].
  intros [|]; [|serve]. destruct (oauth_AuthCodeURL _ _ _ _ _ _) as [u|]; serve.
Qed.

Lemma handlePeopleSearch_served : served c (handlePeopleSearch d c).
Proof using Hc. unfold handlePeopleSearch. destruct (parseSearchRequest _ _); serve. Qed.

Lemma handleSourceSearch_served : served c (handleSourceSearch d c).
Proof using Hc.
  unfold handleSourceSearch. destruct (String.eqb _ _); [apply handlePeopleSearch_served|].
  destruct (sourceDocTypes _); [|serve]. destruct (parseSearchRequest _ _); [apply serve_search_served|serve].
Qed.

Lemma getOnly_served (h : Handler W) : served c (h c) → served c (getOnly h c).
Proof using Hc. intros Hh. unfold getOnly. destruct (String.eqb _ _); [done|]. apply writeJSON_safe. by apply set_header_secured, Hc. Qed.

Lemma methods_served (hs : list (string * Handler W)) : Forall (λ e, served c (e.2 c)) hs → served c (methods hs c).
Proof using Hc.
  intros Hs. unfold methods. destruct (find _ hs) as [[m h]|] eqn:E.
  - apply find_some in E as [Hin _]. by apply (proj1 (List.Forall_forall _ _) Hs (m, h) Hin).
  - apply writeJSON_safe. by apply set_header_secured, Hc.
Qed.

Lemma handlePutPreferences_served : served c (handlePutPreferences d c).
Proof using Hc.
  unfold handlePutPreferences. serve. destruct (profile_Marshal _); [|serve]. serve.
  apply each_then; [|intros ?; serve]. unfold cacheProfile. destruct (profile_Marshal _); [|done].
  apply cache_put_each. auto with gw.
Qed.

Lemma handleFeedback_served : served c (handleFeedback d c).
Proof using Hc.
  unfold handleFeedback. serve. apply each_then; [|intros ?; serve]. destruct (String.eqb _ _); [done|].
  apply cache_put_each. auto with gw.
Qed.

Lemma handleResetLearning_served : served c (handleResetLearning d c).
Proof using Hc.
  unfold handleResetLearning. serve. apply each_then; [|intros ?; serve]. rewrite (ac_tenant _ _ _ Hc).
  destruct (d_prefs d); [|done]. apply acts_bind. eapply acts_conseq; [|apply redis_each]; [done|].
  intros ? ?. split; [auto with gw|done].
Qed.

Lemma authed_routes : Forall (λ e, e.2.1 = Authed → served c (e.2.2 c)) (routes d).
Proof using Hc.
  unfold routes. repeat apply Forall_cons_2; try apply Forall_nil_2; cbn [fst snd]; intros E; try discriminate; clear E;
    first [apply getOnly_served | apply methods_served; repeat apply Forall_cons_2; try apply Forall_nil_2; cbn [snd]].
  - unfold handleMe. serve.
  - unfold handleDeleteMyData. serve.
  - unfold handleSearch. destruct (parseSearchRequest _ _); [apply serve_search_served|serve].
  - apply handleSourceSearch_served.
  - unfold handleListRecent. serve.
  - unfold handlePostRecent. serve.
  - unfold handleDeleteRecent. serve. destruct (negb _); serve.
  - unfold handleGetPreferences. serve.
  - apply handlePutPreferences_served.
  - apply handleResetLearning_served.
  - unfold handleExportPersonalization. serve.
  - apply handleFeedback_served.
  - apply handleMedia_served.
  - unfold handleListConnectors. serve. apply list_entries_served.
  - unfold handleCreateConnector. serve.
  - unfold handleDeleteConnector. serve.
  - unfold handlePutToken. serve.
  - unfold handleIndexStatus. serve. apply index_entries_served. intros o. serve.
  - unfold handleReindexConnector. serve.
  - apply handleOAuthStart_served.
  - apply handleUpload_served.
Qed.

Lemma admin_routes :
  isAdmin (Some claims) (d_oidcAudience d) = true → Forall (λ e, e.2.1 = AdminAuthed → served c (e.2.2 c)) (routes d).
Proof using Hc.
  intros Ha. unfold routes. repeat apply Forall_cons_2; try apply Forall_nil_2; cbn [fst snd]; intros E; try discriminate; clear E;
    first [apply getOnly_served | apply methods_served; repeat apply Forall_cons_2; try apply Forall_nil_2; cbn [snd]].
  - unfold handleAdminListTenants. serve. destruct (Atoi _); serve.
  - unfold handleAdminGetTenant. serve.
  - unfold handleAdminDeleteTenant. serve.
  - unfold handleAdminSuspendTenant. serve.
Qed.
End handlers.
(** ** The public routes *)

(** What the OAuth callback may do: consume the state the request names, call
    the provider's token endpoint, and store a token for the tenant and the
    instance of a consumed flow. *)
Inductive callback_effect (r : HttpRequest) : Inp → W → W → Prop :=
| ce_consume i w :
    callback_effect r i w (set_redis (GETDEL (statePrefix +:+ values_Get (rq_Query r) "state") i (redis_of w)).2 w)
| ce_exchange flow code i w w' :
    does (oauth_Exchange (d_oauthCfg d) (fl_Provider flow) code (callback_uri d) (fl_Verifier flow)) i w w' →
    callback_effect r i w w'
| ce_put flow blob ctx i w w' :
    validTenant (fl_Tenant flow) = true → md_get (ctx_md_out ctx) MetadataKey = [fl_Tenant flow] →
    does (invoke (PutToken (fl_InstanceID flow) blob) ctx) i w w' → callback_effect r i w w'.

(** The answers of the callback: a redirect to the configured web app. *)
Definition fixed_redirect (x : Response) : Prop :=
  re_Status x = 302 ∧ ∃ s, s ∈ ["error"; "connected"] ∧
    values_Get (re_Header x) "Location" = d_webAppURL d +:+ "/connectors?oauth=" +:+ s.

Lemma redirect_fixed c s : s ∈ ["error"; "connected"] →
  fixed_redirect (http_Redirect c (d_webAppURL d +:+ "/connectors?oauth=" +:+ s) 302).
Proof using Type.
  intros Hs. split; [done|]. exists s. split; [done|]. unfold values_Get, http_Redirect, header_Set. cbn [re_Header].
  by rewrite lookup_insert_eq.
Qed.

Lemma redirect_safe c u : secured (c_hdr c) → safe (http_Redirect c u 302).
Proof using Type. by apply secured_insert. Qed.

Lemma error_redirect c : fixed_redirect (redirectOAuthError d c).
Proof using Type. apply (redirect_fixed c "error"). by left. Qed.

(** The actions for one flow. *)
Definition flow_effect (flow : oauthFlowState) (i : Inp) (w w' : W) : Prop :=
  (∃ code, does (oauth_Exchange (d_oauthCfg d) (fl_Provider flow) code (callback_uri d) (fl_Verifier flow)) i w w') ∨
  (∃ token ctx, validTenant (fl_Tenant flow) = true ∧ md_get (ctx_md_out ctx) MetadataKey = [fl_Tenant flow] ∧
     does (invoke (PutToken (fl_InstanceID flow) token) ctx) i w w').

Lemma finish_flow_bound c flow :
  md_get (ctx_md_out (c_ctx c)) MetadataKey = [] →
  acts (flow_effect flow) (fixed_redirect) (finish_flow d c flow).
Proof using Type.
  intros Hm. pose proof (error_redirect c) as He.
  unfold finish_flow. destruct (negb _); [exact He|]. destruct (String.eqb (values_Get _ "code") ""); [exact He|].
  destruct (FromHeaderValue (fl_Tenant flow)) as [tc|] eqn:Et; [|exact He]. apply FromHeaderValue_Ok in Et as [Hv ->].
  apply acts_bind. eapply acts_conseq; [|eapply acts_mono; [|apply acts_does]; intros ? ? ? Hd; left; by eexists].
  intros [tok|] _; [|exact He]. destruct (oauth_Marshal _) as [blob|]; [|exact He]. apply acts_bind.
  unfold grpc_call. rewrite FromContext_WithContext by done.
  eapply acts_conseq; [|eapply acts_mono; [|apply acts_does]; intros ? ? ? Hd; right; eexists _, _; split_and!; [done| |exact Hd]].
  - intros [[]|] _; [|exact He]. apply (redirect_fixed c "connected"). by right; left.
  - by rewrite md_append; cbn [ctx_md_out WithContext]; rewrite Hm.
Qed.

Lemma finish_flow_safe c flow : secured (c_hdr c) → rets safe (finish_flow d c flow).
Proof using Type.
  intros Hs. pose proof (redirect_safe c (d_webAppURL d +:+ "/connectors?oauth=error") Hs) as He.
  unfold finish_flow. destruct (negb _); [exact He|]. destruct (String.eqb (values_Get _ "code") ""); [exact He|].
  destruct (FromHeaderValue (fl_Tenant flow)) as [tc|]; [|exact He]. apply rets_bind.
  intros [tok|]; [|exact He]. destruct (oauth_Marshal _) as [blob|]; [|exact He]. apply rets_bind.
  intros [[]|]; [|exact He]. by apply redirect_safe.
Qed.

Lemma finish_flow_each c flow :
  md_get (ctx_md_out (c_ctx c)) MetadataKey = [] → secured (c_hdr c) →
  acts (callback_effect (c_req c)) (λ x, safe x ∧ fixed_redirect x) (finish_flow d c flow).
Proof using Type.
  intros Hm Hs. apply acts_rets; [by apply finish_flow_safe|]. eapply acts_mono; [|by apply finish_flow_bound].
  intros i w w' [[code Hd]|(token & ctx & Hv & Hx & Hd)]; [by eapply ce_exchange|by eapply ce_put].
Qed.

Lemma callback_each c :
  md_get (ctx_md_out (c_ctx c)) MetadataKey = [] → secured (c_hdr c) →
  acts (callback_effect (c_req c)) (λ x, safe x ∧ fixed_redirect x) (handleOAuthCallback d c).
Proof using Type.
  intros Hm Hs. pose proof (conj (redirect_safe c (d_webAppURL d +:+ "/connectors?oauth=error") Hs) (error_redirect c)) as He.
  unfold handleOAuthCallback. destruct (negb _); [exact He|]. destruct (String.eqb _ ""); [exact He|].
  intros i w. cbn. pose proof (ce_consume (c_req c) i w) as Hg. destruct (GETDEL _ _ _) as [a rd].
  split; [exact Hg|]. destruct a as [[blob|]|]; [|exact He|exact He]. cbn.
  destruct (flow_Unmarshal blob) as [flow|]; [|exact He]. by apply finish_flow_each.
Qed.
(** ** The routes *)
Definition callback_route : list string := ["v1"; "oauth"; "callback"].

Definition is_callback (r : HttpRequest) : Prop := segments (rq_Path r) = callback_route.

(** What serving a request may do. *)
Definition allowed (r : HttpRequest) (i : Inp) (w w' : W) : Prop :=
  effect r i w w' ∨ (is_callback r ∧ callback_effect r i w w').

(** A fresh call: no tenant, no outgoing metadata. *)
Definition fresh_call (c : Call) : Prop :=
  secured (c_hdr c) ∧ ctx_md_out (c_ctx c) = ∅.

(** A registered handler behaves under the access it is registered with. *)
Definition route_ok (e : mux_pattern * (access * Handler W)) : Prop :=
  match e.2.1 with
  | Public => ∀ c, fresh_call c →
      acts (λ i w w', effect (c_req c) i w w' ∨ (e.1 = path callback_route ∧ callback_effect (c_req c) i w w')) safe (e.2.2 c)
  | Authed => ∀ c claims tc, authed_call c claims tc → served c (e.2.2 c)
  | AdminAuthed => ∀ c claims tc, authed_call c claims tc →
      isAdmin (Some claims) (d_oidcAudience d) = true → served c (e.2.2 c)
  end.

Lemma public_ok p (h : Handler W) :
  (∀ c, secured (c_hdr c) → acts (effect (c_req c)) safe (h c)) → route_ok (p, (Public, h)).
Proof using Type.
  intros Hh c [Hs _]. eapply acts_mono; [|by apply Hh]. intros i w w'. by left.
Qed.

Lemma public_get (h : Handler W) c (E : Inp → W → W → Prop) :
  secured (c_hdr c) → acts E safe (h c) → acts E safe (getOnly h c).
Proof using Type.
  intros Hs Hh. unfold getOnly. destruct (String.eqb _ _); [done|]. apply writeJSON_safe. by apply set_header_secured.
Qed.

Lemma routes_ok : Forall route_ok (routes d).
Proof using Type.
  apply Forall_forall. intros [p [a h]] Hin. unfold route_ok. cbn [fst snd]. destruct a.
  - revert Hin. unfold routes. rewrite !elem_of_cons. intros Hin.
    repeat destruct Hin as [[= -> ->]|Hin]; try discriminate; [| | | |by apply elem_of_nil in Hin].
    + apply (public_ok (path ["healthz"])). intros c Hs. apply public_get; [done|]. by apply writeJSON_safe.
    + apply (public_ok (path ["readyz"])). intros c Hs. apply public_get; [done|]. intros i w. split; [apply eff_none|].
      cbn. destruct (jwks_probe i); [destruct (_ && _)|]; by apply writeJSON_safe.
    + apply (public_ok (mkPattern (Some "GET") [Lit "metrics"])). intros c Hs i w. split; [apply eff_none|]. cbn.
      destruct (metrics i) as [[st ct] b]. by apply secured_insert.
    + intros c [Hs Hm]. apply public_get; [done|]. eapply acts_mono; [|eapply acts_conseq; [|apply callback_each]];
        [intros i w w'; by right|by intros x [? _]|by rewrite Hm|done].
  - intros c claims tc Hc. by apply (proj1 (Forall_forall _ _) (authed_routes c claims tc Hc) _ Hin).
  - intros c claims tc Hc Ha. by apply (proj1 (Forall_forall _ _) (admin_routes c claims tc Hc Ha) _ Hin).
Qed.
(** ** The middleware *)
Lemma FromClaims_valid claims tc : FromClaims claims = Ok tc → valid_ctx tc.
Proof using Type. intros Hc. pose proof (from_claims_spec claims) as Hs. rewrite Hc in Hs. apply Hs. Qed.

(** Past authentication the call is the verified tenant's; before it, nothing
    happens. *)
Lemma auth_each c (next : Handler W) (E : Inp → W → W → Prop) (Q : Response → Prop) :
  fresh_call c → (∀ i w, E i w w) → Q (unauthorized c) →
  (∀ claims tc c', c_req c' = c_req c → authed_call c' claims tc → c_vars c' = c_vars c → acts E Q (next c')) →
  acts E Q (auth_middleware next c).
Proof using Type.
  intros [Hs Hm] HE HQ Hn. unfold auth_middleware. destruct (bearerToken _) as [raw|] eqn:Eb; [|done].
  intros i w. split; [apply HE|]. cbn. destruct (verify i raw) as [claims|] eqn:Ev; [|done].
  destruct (FromClaims _) as [tc|] eqn:Ef; [|done]. apply (Hn claims tc); [done| |done].
  split; cbn [c_req c_claims c_ctx c_hdr ctx_md_out WithContext]; [by exists raw, i|done| |by rewrite Hm|done].
  apply FromContext_WithContext. by eapply FromClaims_valid.
Qed.

Lemma limiter_served c claims tc limit (next : Handler W) :
  authed_call c claims tc → served c (next c) → served c (limiter_middleware (R := R) limit next c).
Proof using Type.
  intros Hc Hn. unfold limiter_middleware. destruct (limit <=? 0); [done|]. rewrite (ac_tenant _ _ _ Hc).
  apply input_served. intros now. eapply each_then; [eapply redis_each; [exact Hc|]|].
  - intros ? ?. split; [auto with gw|]. intros ? ?. split; [auto with gw|done].
  - intros [|s|n]; [done| |done]. apply writeJSON_safe. apply set_header_secured; [done|done|apply Hc].
Qed.

Lemma registered_served cfg c e :
  e ∈ routes d → fresh_call c →
  acts (λ i w w', effect (c_req c) i w w' ∨ (e.1 = path callback_route ∧ callback_effect (c_req c) i w w')) safe
    (registered (R := R) d cfg e.2.1 e.2.2 c).
Proof using Type.
  intros Hin Hf. pose proof (proj1 (Forall_forall _ _) routes_ok e Hin) as Hok. unfold route_ok in Hok.
  destruct e as [p [a h]]. cbn [fst snd] in *.
  destruct a; cbn [registered]; [by apply Hok| |]; apply auth_each; try done;
    try (by intros; left; apply eff_none); try (by apply writeJSON_safe, Hf);
    intros claims tc c' Hr Hc _; rewrite <- Hr; (eapply acts_mono; [intros i w w' He; by left|]);
    (eapply limiter_served; [exact Hc|]).
  - by eapply Hok.
  - unfold requireAdmin. rewrite (ac_claims _ _ _ Hc). destruct (isAdmin _ _) eqn:Ea; [by eapply Hok|].
    apply writeJSON_safe, Hc.
Qed.

Lemma match_literals l segs vs : match_elems (Lit <$> l) segs = Some vs → segs = l.
Proof using Type.
  revert segs vs. induction l as [|s l IH]; intros [|g segs] vs; cbn; try done.
  destruct (String.eqb_spec s g) as [->|]; [|done]. intros Hm. f_equal. by eapply IH.
Qed.

Lemma callback_match m segs vs : match_pattern (path callback_route) m segs = Some vs → segs = callback_route.
Proof using Type. intros Hm. by apply (match_literals callback_route segs vs). Qed.

Lemma mux_each cfg c : fresh_call c → acts (allowed (c_req c)) safe (mux_ServeHTTP (R := R) d cfg c).
Proof using Type.
  intros Hf. assert (Hserve : acts (allowed (c_req c)) safe
    match find_route (routes d) (rq_Method (c_req c)) (segments (rq_Path (c_req c))) with
    | Some ((a, h), vs) => registered (R := R) d cfg a h (set_vars vs c)
    | None => handleNotFound c
    end).
  { destruct (find_route _ _ _) as [[[a h] vs]|] eqn:Er; [|apply writeJSON_safe, Hf].
    apply find_route_in in Er as (p & Hin & Hp).
    eapply acts_mono; [|apply (registered_served cfg (set_vars vs c) (p, (a, h)) Hin Hf)].
    intros i w w' [He|[Hc Hce]]; [by left|right]. cbn [fst] in Hc. subst p. split; [|done].
    by eapply callback_match. }
  unfold mux_ServeHTTP. destruct (String.eqb (rq_Path _) "*"); [apply Hf|].
  destruct (String.eqb _ _); [done|]. destruct (negb _); [|done]. by apply secured_insert, Hf.
Qed.

Lemma limiter_step (E : Inp → W → W → Prop) f i w : (∀ l i w, E i w (set_limiter l w)) → E i w (on_limiter (W := W) f i w).2.
Proof using Type. intros HE. unfold on_limiter. destruct (f _ _). apply HE. Qed.

Lemma preAuth_each cfg c (next : Handler W) (Q : Response → Prop) E :
  (∀ l i w, E i w (set_limiter l w)) → Q (tooMany c) → acts E Q (next c) →
  acts E Q (preAuth_middleware cfg next c).
Proof using Type.
  intros HE HQ Hn. unfold preAuth_middleware. destruct (negb _ && negb _); [done|].
  assert (Hip : acts E Q (if pa_perIP cfg then
      Atomic _ (on_limiter (allowIP (clientIP (pa_trustProxy cfg) (c_req c)))) (λ ok : bool, if ok then next c else Ret (tooMany c))
    else next c)).
  { destruct (pa_perIP cfg); [|done]. intros i w. split; [by apply limiter_step|]. by destruct (_.1). }
  destruct (pa_global cfg); [|done]. intros i w. split; [by apply limiter_step|]. by destruct (_.1).
Qed.

(** What the chain in front of the mux hands on. *)
Lemma chain_each cfg r (E : Inp → W → W → Prop) (Q : Response → Prop) :
  (∀ l i w, E i w (set_limiter l w)) →
  (∀ c, c_req c = r → fresh_call c → Q (tooMany c) ∧ Q (WriteHeader c 204)) →
  (∀ c, c_req c = r → fresh_call c → acts E Q (mux_ServeHTTP (R := R) d cfg c)) →
  acts E Q (serve_request (R := R) d cfg r).
Proof using Type.
  intros HE HQ Hm. unfold serve_request, newHandler, securityHeadersMiddleware, cors_middleware.
  set (c0 := foldl _ _ _). assert (Hc0 : fresh_call c0 ∧ c_req c0 = r).
  { split; [|done]. split; [|done]. split; vm_compute; reflexivity. }
  destruct Hc0 as [[Hs Hm0] Hr]. clearbody c0. cbv zeta.
  set (c1 := mkHCall _ _ _ _ (header_Add _ _ _)).
  assert (Hc1 : fresh_call c1 ∧ c_req c1 = r) by (split; [split; [by apply secured_insert|done]|done]). clearbody c1.
  set (ok := (_ && bool_decide _)%bool). clearbody ok.
  set (c2 := if ok then _ else c1). assert (Hc2 : fresh_call c2 ∧ c_req c2 = r).
  { unfold c2. destruct ok; [|done]. destruct Hc1 as [[? ?] ?]. split; [split; [by apply set_header_secured|done]|done]. }
  clearbody c2. destruct Hc2 as [Hc2 Hr2].
  destruct (_ && _)%bool.
  - apply HQ; [by destruct ok|]. destruct ok; [|done]. destruct Hc2. split; [|done].
    repeat (apply set_header_secured; [done|done|]). done.
  - apply preAuth_each; [done|by apply HQ|by apply Hm].
Qed.
Lemma request_allowed cfg r : acts (allowed r) safe (serve_request (R := R) d cfg r).
Proof using Type.
  apply chain_each.
  - intros l i w. left. apply eff_limiter.
  - intros c _ Hc. split; [|apply Hc]. apply writeJSON_safe. by apply set_header_secured, Hc.
  - intros c <- Hc. by apply mux_each.
Qed.

(** ** Without a verified token *)
Definition protected (r : HttpRequest) : Prop :=
  ∃ a h vs, find_route (routes d) (rq_Method r) (segments (rq_Path r)) = Some ((a, h), vs) ∧ a ≠ Public.

(** Only the throttle's own table changes. *)
Definition throttle_only (i : Inp) (w w' : W) : Prop := w' = w ∨ ∃ l, w' = set_limiter l w.

Lemma unverified_refused cfg r :
  protected r → (∀ claims tc, ~ verified r claims tc) →
  acts throttle_only (λ x, re_Status x ∈ [204; 301; 400; 401; 429]) (serve_request (R := R) d cfg r).
Proof using Type.
  intros (a & h & vs & Hf & Ha) Hn. apply chain_each.
  - intros l i w. right. eauto.
  - intros c _ _. split; [by do 4 right; left|by left].
  - intros c Hr Hc. subst r. unfold mux_ServeHTTP. rewrite Hf.
    assert (Hreg : acts throttle_only (λ x, re_Status x ∈ [204; 301; 400; 401; 429])
      (registered (R := R) d cfg a h (set_vars vs c))).
    { destruct a; [done| |]; (apply auth_each; [done|by left|by do 3 right; left|]);
        intros claims tc c' Hr' Hc' _; exfalso; apply (Hn claims tc); cbn in Hr'; rewrite <- Hr'; apply Hc'. }
    destruct (String.eqb (rq_Path _) "*"); [by do 2 right; left|].
    destruct (String.eqb _ _); [done|]. destruct (negb _); [by right; left|done].
Qed.
End safety.

(** The gateway acts only for verified tenants.  Whatever a request holds
    and whatever else happens meanwhile, every action of serving it is one of:
    the throttle's own bookkeeping; an RPC whose metadata names exactly the
    tenant of the request's verified token, an operator RPC only if its claims
    carry the admin role; a hub call in that tenant's name; a Redis command on
    that tenant's own keys; an OAuth state recorded for that tenant; or, on the
    public callback route alone, consuming the state the request names and
    storing the token of a flow under the flow's valid tenant.  Every response
    carries the security headers.  On a route that is not public a request
    without a verified token changes nothing but the throttle and is answered
    401, unless the preflight, path or throttle layers answer first. *)
Theorem gateway_tenant_scoped {W R} {HU : Upstream W} {HR : Redis R} {HRW : HasRedis R W} {HL : HasLimiter W} {HO : OAuth2 W}
    `{!Folding, !Casing, !ZoneDB, !Quoting, !URLs, !CandidateJson, !Mail, !RealFuns, !MapOrder}
    `{!Verifier, !GatewayCodecs, !HubDeps} (d : deps) (cfg : gatewayConfig) (r : HttpRequest) :
  acts (allowed (R := R) d r) safe (serve_request (R := R) d cfg r : prog W Response) ∧
  (protected (R := R) d r → (∀ claims tc, ~ verified r claims tc) →
   acts throttle_only (λ x, re_Status x ∈ [204; 301; 400; 401; 429])
     (serve_request (R := R) d cfg r : prog W Response)).
Proof.
  split; [apply request_allowed|apply unverified_refused].
Qed.
