(* ===== verification/GatewayLimitsProofs.v ===== *)
(** * The gateway's limits: proofs

    The per-tenant rate limit holds under any interleaving of requests with
    each other and with other Redis clients; the throttle in front of
    authentication keeps a bounded table and keys it by an address the client
    cannot forge; an OAuth state is used once. *)

From stdpp Require Import base gmap strings list pretty.
From Stdlib Require Import Ascii ZArith Lia.
From S2P Require Import Prelude GoStrings GoText GoEncode GoFloat GoNet GoHttp Tenancy Crypto Interleave Kafka QueryVespa OAuth HubSync.
From S2P Require Import Personalization ControlPlane QueryModels GatewayEdge GatewayRedis GatewaySearch GatewayPeople Gateway GatewayProofs.

Open Scope Z_scope.

(** ** Keys of the windows *)
Lemma rate_key_inj t g t' g' :
  validTenant t = true → validTenant t' = true → rate_key t g = rate_key t' g' →
  t = t' ∧ rate_window g = rate_window g'.
Proof.
  intros Ht Ht' He. unfold rate_key in He. apply str_app_inj_l in He. apply (f_equal to_bytes) in He.
  rewrite !to_bytes_app in He. cbn [to_bytes String.list_ascii_of_string app] in He.
  apply sep_unique in He as [Hb Hw]; [|by apply validTenant_no_byte..].
  split; [by apply to_bytes_inj|]. apply to_bytes_inj in Hw. by apply (inj pretty).
Qed.

Lemma rate_key_prefix t g : HasPrefix (rate_key t g) "rl:" = true.
Proof. unfold HasPrefix, rate_key. generalize (t +:+ ":" +:+ pretty (rate_window g)). intros s. by destruct s. Qed.

(** The instants of a window. *)
Lemma window_instants g : 0 <= g → rate_window g * 60 * second <= g < (rate_window g + 1) * 60 * second.
Proof.
  intros Hg. unfold rate_window, Unix, second. rewrite Z.quot_div_nonneg by (try lia; apply Z.div_pos; lia).
  rewrite Z.div_div by lia. pose proof (Z.div_mod g (1000000000 * 60)). pose proof (Z.mod_pos_bound g (1000000000 * 60)). lia.
Qed.

(** ** Requests counting in one Redis *)
Section rate.
Context {R : Type} {HR : Redis R} {HRL : RedisLaws R} (limit : Z).

(** A request: its tenant, the instant it read, and what it has left to do. *)
Abbreviation thread := (TenantID * Z * prog R verdict)%type.

(** A call to Redis answers, or is given up, within this time. *)
Definition call_time : Z := 30 * second.

Inductive limiter_step : R * list thread → R * list thread → Prop :=
| ls_other r r' ths :
    (∀ k, HasPrefix k "rl:" = true → rd_counter r' k = rd_counter r k) → limiter_step (r, ths) (r', ths)
| ls_act r ths j t g X f k i :
    ths !! j = Some (t, g, Atomic X f k) → g <= now_of i < g + call_time →
    limiter_step (r, ths) ((f i r).2, <[j := (t, g, k (f i r).1)]> ths).

Definition arrivals (reqs : list (TenantID * Z)) : list thread := (λ q, (q.1, q.2, rate_check limit q.1 q.2)) <$> reqs.

(** ** The invariant *)
Definition decide_rate (g : Z) (r : result string Z) : verdict :=
  match r with
  | Err _ => FailOpen
  | Ok n => if limit <? n then Limited (60 - Z.rem (Unix g) 60) else Within n
  end.

Definition after_incr (t : TenantID) (g : Z) (a : result string Z) : prog R verdict :=
  Atomic _ (EXPIRE (rate_key t g) rateWindowTTL) (λ e, Ret (decide_rate g (let? n := a in first_error e (Ok n)))).

Lemma rate_check_shape t g : rate_check limit t g = Atomic _ (INCR (rate_key t g)) (after_incr t g).
Proof using Type. reflexivity. Qed.

(** How far a request is, by what it was given: nothing yet, no answer, or a
    number. *)
Definition shape (t : TenantID) (g : Z) (gh : option (option Z)) (p : prog R verdict) : Prop :=
  match gh with
  | None => p = rate_check limit t g
  | Some None => (∃ e, p = after_incr t g (Err e)) ∨ p = Ret FailOpen
  | Some (Some n) => p = after_incr t g (Ok n) ∨ p = Ret FailOpen ∨ p = Ret (decide_rate g (Ok n))
  end.

Context (reqs : list (TenantID * Z)) (reqs_ok : ∀ q, q ∈ reqs → validTenant q.1 = true ∧ 0 <= q.2).

Definition key_at (j : nat) : option string := (λ q, rate_key q.1 q.2) <$> reqs !! j.

(** The requests that asked to be counted under [k]. *)
Definition tried (G : gmap nat (option Z)) (k : string) : gmap nat (option Z) := base.filter (λ e, key_at e.1 = Some k) G.

Definition key_ok (r : R) (G : gmap nat (option Z)) (k : string) : Prop :=
  match rd_counter r k with
  | None => ∀ j n, key_at j = Some k → G !! j ≠ Some (Some n)
  | Some (v, e) =>
    v <= Z.of_nat (size (tried G k)) ∧
    (∀ j q, reqs !! j = Some q → key_at j = Some k →
       match e with Some x => rate_window q.2 * 60 * second + rateWindowTTL <= x | None => True end) ∧
    (∀ j n, key_at j = Some k → G !! j = Some (Some n) → 1 <= n <= v) ∧ 0 <= v
  end.

Record counted (s : R * list thread) (G : gmap nat (option Z)) : Prop := {
  ct_shape j t g p : s.2 !! j = Some (t, g, p) → reqs !! j = Some (t, g) ∧ shape t g (G !! j) p;
  ct_keys k : HasPrefix k "rl:" = true → key_ok s.1 G k;
  ct_unique j j' k n : key_at j = Some k → key_at j' = Some k → G !! j = Some (Some n) → G !! j' = Some (Some n) → j = j'
}.

Lemma start_counted r :
  (∀ k, HasPrefix k "rl:" = true → rd_counter r k = None) → counted (r, arrivals reqs) ∅.
Proof using Type.
  intros Hr. split.
  - intros j t g p. cbn. unfold arrivals. rewrite list_lookup_fmap. destruct (reqs !! j) as [[t' g']|]; [|done].
    cbn. by intros [= -> -> <-].
  - intros k Hk. unfold key_ok. cbn. by rewrite Hr.
  - done.
Qed.
Lemma key_at_Some j t g : reqs !! j = Some (t, g) → key_at j = Some (rate_key t g).
Proof using Type. intros Hj. unfold key_at. by rewrite Hj. Qed.

Lemma same_window j j' q q' : reqs !! j = Some q → reqs !! j' = Some q' → key_at j = key_at j' →
  q.1 = q'.1 ∧ rate_window q.2 = rate_window q'.2.
Proof using reqs_ok.
  intros Hj Hj' Hk. unfold key_at in Hk. rewrite Hj, Hj' in Hk. cbn [fmap option_fmap option_map] in Hk. apply (inj Some) in Hk.
  apply list_elem_of_lookup_2 in Hj, Hj'. apply rate_key_inj; [by apply reqs_ok..|done].
Qed.

(** A window's counter outlives the requests of the window. *)
Lemma still_live r G j t g now :
  key_ok r G (rate_key t g) → reqs !! j = Some (t, g) → now < g + call_time →
  live now (rd_counter r (rate_key t g)) = rd_counter r (rate_key t g).
Proof using reqs_ok.
  unfold key_ok. intros Hk Hj Hn. destruct (rd_counter r _) as [[v [x|]]|]; [|done|done]. cbn.
  destruct Hk as (_ & He & _). specialize (He j _ Hj (key_at_Some _ _ _ Hj)). cbn in He.
  pose proof (window_instants g). destruct (reqs_ok (t, g)) as [_ Hg]; [by eapply list_elem_of_lookup_2|].
  cbn in Hg. unfold call_time, rateWindowTTL, second in *. destruct (Z.ltb_spec now x); [done|lia].
Qed.

Lemma tried_insert G j k x : G !! j = None → key_at j = Some k → size (tried (<[j := x]> G) k) = S (size (tried G k)).
Proof using Type.
  intros Hj Hk. unfold tried. rewrite map_filter_insert_True by done. rewrite map_size_insert_None; [done|].
  apply map_lookup_filter_None_2. by left.
Qed.

Lemma tried_insert_ne G j k x : key_at j ≠ Some k → G !! j = None → tried (<[j := x]> G) k = tried G k.
Proof using Type. intros Hk Hj. unfold tried. rewrite map_filter_insert_not; [done|]. by intros ?. Qed.

(** A key whose counter did not change. *)
Lemma key_ok_frame r r' G k : rd_counter r' k = rd_counter r k → key_ok r G k → key_ok r' G k.
Proof using Type. unfold key_ok. by intros ->. Qed.

(** A request that asked to be counted under another key. *)
Lemma key_ok_other r r' G j k x :
  key_at j ≠ Some k → G !! j = None → rd_counter r' k = rd_counter r k → key_ok r G k → key_ok r' (<[j := x]> G) k.
Proof using Type.
  intros Hk Hj Hr. unfold key_ok. rewrite Hr. rewrite tried_insert_ne by done.
  assert (Hl : ∀ j' n, key_at j' = Some k → <[j := x]> G !! j' = Some (Some n) → G !! j' = Some (Some n)).
  { intros j' n Hk' Hl. rewrite lookup_insert_ne in Hl; [done|]. by intros ->. }
  destruct (rd_counter r k) as [[v e]|]; [|eauto 8]. intros (? & ? & ? & ?). split_and!; eauto.
Qed.

(** A request that was, or may have been, counted. *)
Lemma key_ok_counted r r' G j k n :
  key_at j = Some k → G !! j = None → key_ok r G k →
  rd_counter r' k = Some (match rd_counter r k with Some (v, e) => (v + 1, e) | None => (1, None) end) →
  n = None ∨ n = Some (match rd_counter r k with Some (v, _) => v + 1 | None => 1 end) →
  key_ok r' (<[j := n]> G) k.
Proof using Type.
  intros Hk Hj Hok Hr Hn. unfold key_ok in *. rewrite Hr.
  assert (Hl : ∀ j' m, key_at j' = Some k → <[j := n]> G !! j' = Some (Some m) →
    n = Some m ∨ G !! j' = Some (Some m)).
  { intros j' m _. destruct (decide (j' = j)) as [->|]; [rewrite lookup_insert_eq; intros [= ->]; by left|].
    rewrite lookup_insert_ne by done. by right. }
  destruct (rd_counter r k) as [[v e]|]; rewrite tried_insert by done.
  - destruct Hok as (Hv & He & Hm & Hp). split_and!; [lia|done| |lia].
    intros j' m Hj' [->|Hg]%Hl; [|destruct (Hm _ _ Hj' Hg); lia|done]. destruct Hn as [|[= ->]]; [done|lia].
  - split_and!; [lia|done| |lia]. intros j' m Hj' [->|Hg]%Hl; [|by destruct (Hok _ _ Hj' Hg)|done].
    destruct Hn as [|[= ->]]; [done|lia].
Qed.

(** A request whose count was lost before it happened. *)
Lemma key_ok_lost r r' G j k :
  key_at j = Some k → G !! j = None → key_ok r G k → rd_counter r' k = rd_counter r k → key_ok r' (<[j := None]> G) k.
Proof using Type.
  intros Hk Hj Hok Hr. unfold key_ok in *. rewrite Hr. rewrite tried_insert by done.
  assert (Hl : ∀ j' m, <[j := None]> G !! j' = Some (Some m) → G !! j' = Some (Some m)).
  { intros j' m. destruct (decide (j' = j)) as [->|]; [by rewrite lookup_insert_eq|by rewrite lookup_insert_ne]. }
  destruct (rd_counter r k) as [[v e]|].
  - destruct Hok as (? & ? & Hm & ?). split_and!; [lia|done| |done]. intros j' m Hj' Hg%Hl. by eapply Hm.
  - intros j' m Hj' Hg%Hl. by eapply Hok.
Qed.
(** ** Steps *)

(** One action of a program. *)
Definition act {A} (p : prog R A) (i : Inp) (r : R) : option (prog R A * R) :=
  match p with Ret _ => None | Atomic X f k => Some (k (f i r).1, (f i r).2) end.

(** The thread [j] moves to [p'] and is given [x]. *)
Lemma counted_move r r' ths G j t g p' :
  counted (r, ths) G → is_Some (ths !! j) → reqs !! j = Some (t, g) → shape t g (G !! j) p' →
  (∀ k, HasPrefix k "rl:" = true → key_ok r' G k) →
  counted (r', <[j := (t, g, p')]> ths) G.
Proof using Type.
  intros HC Hj Hq Hs Hk. split; [|done|apply (ct_unique _ _ HC)].
  intros j' t' g' q. cbn. rewrite list_lookup_insert_Some.
  intros [(<- & [= <- <- <-] & _)|[Hne Hl]]; [done|by apply (ct_shape _ _ HC)].
Qed.

Lemma counted_incr r r' ths G j t g a i :
  counted (r, ths) G → ths !! j = Some (t, g, rate_check limit t g) → G !! j = None → reqs !! j = Some (t, g) →
  now_of i < g + call_time → INCR (rate_key t g) i r = (a, r') →
  counted (r', <[j := (t, g, after_incr t g a)]> ths)
    (<[j := match a with Ok n => Some n | Err _ => None end]> G).
Proof using reqs_ok HRL.
  intros HC Hj HG Hq Hn Ei. pose proof (key_at_Some _ _ _ Hq) as Hkj. set (k0 := rate_key t g) in *.
  pose proof (ct_keys _ _ HC k0 (rate_key_prefix t g)) as Hk0. cbn in Hk0.
  pose proof (INCR_counter k0 i r) as Hlaw. rewrite Ei in Hlaw. destruct Hlaw as [Hoth Hlaw].
  pose proof (still_live r G j t g (now_of i) Hk0 Hq Hn) as Hlive. fold k0 in Hlive.
  unfold incremented in Hlaw. rewrite Hlive in Hlaw.
  set (x := match a with Ok n => Some n | Err _ => None end).
  assert (Hnew : key_ok r' (<[j := x]> G) k0).
  { unfold x. destruct a as [n|e].
    - destruct Hlaw as [-> Hc]. eapply key_ok_counted; [done..| |].
      + rewrite Hc. by destruct (rd_counter r k0) as [[]|].
      + right. by destruct (rd_counter r k0) as [[]|].
    - destruct Hlaw as [Hc|Hc]; [by eapply key_ok_lost|]. eapply key_ok_counted; [done..| |by left].
      rewrite Hc. by destruct (rd_counter r k0) as [[]|]. }
  assert (Hbig : ∀ n j', a = Ok n → key_at j' = Some k0 → G !! j' ≠ Some (Some n)).
  { intros n j' -> Hj' Hg. destruct Hlaw as [-> _]. unfold key_ok in Hk0.
    destruct (rd_counter r k0) as [[v e]|]; [|by eapply Hk0]. destruct Hk0 as (_ & _ & Hm & _). destruct (Hm _ _ Hj' Hg). cbn in *. lia. }
  split; cbn.
  - intros j' t' g' q. rewrite list_lookup_insert_Some. intros [(<- & [= <- <- <-] & _)|[Hne Hl]].
    + split; [done|]. rewrite lookup_insert_eq. unfold x. destruct a; cbn; eauto.
    + rewrite lookup_insert_ne by done. by apply (ct_shape _ _ HC).
  - intros k Hk. destruct (decide (k = k0)) as [->|Hne]; [done|].
    eapply key_ok_other; [|done|by apply Hoth|by apply (ct_keys _ _ HC)]. rewrite Hkj. congruence.
  - intros j1 j2 k n Hk1 Hk2. destruct (decide (j1 = j)) as [->|H1], (decide (j2 = j)) as [->|H2]; [done| | |];
      rewrite ?lookup_insert_eq, ?lookup_insert_ne by done.
    + intros [= Hx] Hg. exfalso. rewrite Hkj in Hk1. injection Hk1 as <-. unfold x in Hx.
      destruct a as [m|]; [|done]. injection Hx as ->. by eapply (Hbig n j2).
    + intros Hg [= Hx]. exfalso. rewrite Hkj in Hk2. injection Hk2 as <-. unfold x in Hx.
      destruct a as [m|]; [|done]. injection Hx as ->. by eapply (Hbig n j1).
    + apply (ct_unique _ _ HC j1 j2 k n Hk1 Hk2).
Qed.

Lemma expire_keys r r' ths G j t g e i :
  counted (r, ths) G → reqs !! j = Some (t, g) → g <= now_of i < g + call_time →
  EXPIRE (rate_key t g) rateWindowTTL i r = (e, r') → ∀ k, HasPrefix k "rl:" = true → key_ok r' G k.
Proof using reqs_ok HRL.
  intros HC Hq Hn Ei k Hk. pose proof (EXPIRE_counter (rate_key t g) rateWindowTTL i r) as Hlaw. rewrite Ei in Hlaw.
  destruct Hlaw as [Hoth Hlaw]. destruct (decide (k = rate_key t g)) as [->|Hne];
    [|eapply key_ok_frame; [by apply Hoth|by apply (ct_keys _ _ HC)]].
  pose proof (ct_keys _ _ HC _ Hk) as Hk0. cbn in Hk0.
  assert (Hor : rd_counter r' (rate_key t g) = rd_counter r (rate_key t g) ∨
    rd_counter r' (rate_key t g) = expiring (now_of i) rateWindowTTL (rd_counter r (rate_key t g))) by (destruct e; auto).
  destruct Hor as [Hc|Hc]; [by eapply key_ok_frame|]. unfold expiring in Hc. rewrite (still_live r G j t g) in Hc by (done || lia).
  unfold key_ok in *. rewrite Hc. destruct (rd_counter r _) as [[v x]|]; [|done].
  destruct Hk0 as (H1 & _ & H3 & H4). split_and!; [done| |done|done]. intros j' q Hj' Hkj'.
  destruct (same_window j' j q (t, g)) as [_ ->]; [done|done|by rewrite Hkj', (key_at_Some _ _ _ Hq)|].
  destruct (reqs_ok (t, g)) as [_ Hg]; [by eapply list_elem_of_lookup_2|].
  pose proof (window_instants g Hg). cbn. lia.
Qed.

Lemma counted_step s s' G : counted s G → limiter_step s s' → ∃ G', counted s' G'.
Proof using reqs_ok HRL.
  intros HC Hst. revert HC. destruct Hst as [r r' ths Hr|r ths j t g X f k i Hj Hn]; intros HC.
  - exists G. split; [apply (ct_shape _ _ HC)| |apply (ct_unique _ _ HC)].
    intros k Hk. eapply key_ok_frame; [by apply Hr|by apply (ct_keys _ _ HC)].
  - destruct (ct_shape _ _ HC j t g _ Hj) as [Hq Hs].
    assert (Hact : act (Atomic X f k) i r = Some (k (f i r).1, (f i r).2)) by done.
    destruct (G !! j) as [[n|]|] eqn:EG; cbn in Hs.
    + destruct Hs as [Hp|[Hp|Hp]]; rewrite Hp in Hact; try done. cbn in Hact.
      destruct (EXPIRE _ _ i r) as [e r'] eqn:Ee. cbn in Hact. injection Hact as <- <-. exists G.
      eapply counted_move; [done|by rewrite Hj|done| |by eapply expire_keys].
      rewrite EG. cbn. right. destruct e; cbn; auto.
    + destruct Hs as [[x Hp]|Hp]; rewrite Hp in Hact; [|done]. cbn in Hact.
      destruct (EXPIRE _ _ i r) as [e r'] eqn:Ee. cbn in Hact. injection Hact as <- <-. exists G.
      eapply counted_move; [done|by rewrite Hj|done| |by eapply expire_keys]. rewrite EG. cbn. by right.
    + rewrite Hs in Hact, Hj. cbn in Hact. destruct (INCR _ i r) as [a r'] eqn:Ei. cbn in Hact. injection Hact as <- <-.
      eexists. by apply (counted_incr r r' ths G j t g a i HC Hj EG Hq (proj2 Hn)).
Qed.

Lemma counted_reach s s' G : counted s G → star limiter_step s s' → ∃ G', counted s' G'.
Proof using reqs_ok HRL.
  intros HC Hs. revert G HC. induction Hs as [s|s1 s2 s3 H1 _ IH]; intros G HC; [by exists G|].
  destruct (counted_step _ _ _ HC H1) as [G' HC']. by eapply IH.
Qed.

(** A request that ended, and what it was given. *)
Lemma ended s G j t g v : counted s G → s.2 !! j = Some (t, g, Ret v) →
  (v = FailOpen ∧ is_Some (G !! j)) ∨ ∃ n, G !! j = Some (Some n) ∧ v = decide_rate g (Ok n).
Proof using Type.
  intros HC Hj. destruct (ct_shape _ _ HC j t g _ Hj) as [_ Hs]. destruct (G !! j) as [[n|]|]; cbn in Hs.
  - destruct Hs as [?|[[= ->]|[= ->]]]; [done|left; eauto|right; eauto].
  - destruct Hs as [[? ?]|[= ->]]; [done|left; eauto].
  - done.
Qed.
End rate.

(** Numbers that differ and lie between 1 and [b] are at most [b]. *)
Lemma distinct_bounded (l : list Z) (b : Z) : 0 <= b → NoDup l → (∀ n, n ∈ l → 1 <= n <= b) → Z.of_nat (length l) <= b.
Proof.
  intros Hb Hd Hl. assert (Hle : (length l <= length (seqZ 1 b))%nat).
  { apply submseteq_length, NoDup_submseteq; [done|]. intros n Hn%Hl. apply elem_of_seqZ. lia. }
  rewrite length_seqZ in Hle. lia.
Qed.

(** C19. The rate limit holds.  Let requests of any valid tenants be counted in
    one Redis, their commands interleaved in any way with each other and with
    other clients that leave the limiter's keys alone, answers lost or not,
    each command within 30 seconds of its request.  Then of the requests of one
    tenant in one minute at most [limit] are let through by their count; and a
    request is refused only if its own tenant made more than [limit] requests
    in that minute, whatever the other tenants do. *)
Theorem rate_limit_holds {R} `{!Redis R, !RedisLaws R} (limit : Z) (reqs : list (TenantID * Z)) (r r' : R) ths :
  0 <= limit → (∀ q, q ∈ reqs → validTenant q.1 = true ∧ 0 <= q.2) →
  (∀ k, HasPrefix k "rl:" = true → rd_counter r k = None) →
  star limiter_step (r, arrivals limit reqs) (r', ths) →
  (∀ t m js, NoDup js →
     (∀ j, j ∈ js → ∃ g n, ths !! j = Some (t, g, Ret (Within n)) ∧ rate_window g = m) →
     Z.of_nat (length js) <= limit) ∧
  (∀ j t g s, ths !! j = Some (t, g, Ret (Limited s)) →
     ∃ js, NoDup js ∧ limit < Z.of_nat (length js) ∧
       ∀ j', j' ∈ js → ∃ g', reqs !! j' = Some (t, g') ∧ rate_window g' = rate_window g).
Proof.
  intros Hlim Hreqs Hr Hs.
  destruct (counted_reach limit reqs Hreqs _ _ _ (start_counted limit reqs r Hr) Hs) as [G HC]. split.
  - intros t m js Hd Hjs.
    assert (Hgot : ∀ j, j ∈ js → ∃ n, G !! j = Some (Some n) ∧ 1 <= n <= limit ∧ ∃ g, reqs !! j = Some (t, g) ∧ rate_window g = m).
    { intros j Hj. destruct (Hjs j Hj) as (g & n & Hth & Hm). destruct (ct_shape _ _ _ _ HC j t g _ Hth) as [Hq _].
      destruct (ended limit reqs _ _ _ _ _ _ HC Hth) as [[? _]|(n' & Hg & Hv)]; [done|]. exists n'.
      unfold decide_rate in Hv. destruct (Z.ltb_spec limit n'); [done|]. split_and!; [done| |lia|by eauto].
      pose proof (ct_keys _ _ _ _ HC _ (rate_key_prefix t g)) as Hk. unfold key_ok in Hk. cbn in Hk.
      pose proof (key_at_Some _ _ _ _ Hq) as Hka. destruct (rd_counter r' _) as [[v e]|]; [|by destruct (Hk _ _ Hka Hg)].
      destruct Hk as (_ & _ & Hn & _). by destruct (Hn _ _ Hka Hg). }
    pose (num j := default 0 (default None (G !! j))).
    assert (Hnum : NoDup (num <$> js)).
    { apply NoDup_fmap_2_strong; [|done]. intros j1 j2 H1 H2 He.
      destruct (Hgot _ H1) as (n1 & G1 & _ & g1 & Q1 & W1). destruct (Hgot _ H2) as (n2 & G2 & _ & g2 & Q2 & W2).
      unfold num in He. rewrite G1, G2 in He. cbn in He. subst n2.
      apply (ct_unique _ _ _ _ HC j1 j2 (rate_key t g1) n1); [by apply key_at_Some| |done|done].
      rewrite (key_at_Some _ _ _ _ Q2). unfold rate_key. by rewrite W1, W2. }
    rewrite <- (length_fmap num js). apply distinct_bounded; [done|done|]. intros n Hn.
    apply list_elem_of_fmap in Hn as (j & -> & Hj). destruct (Hgot j Hj) as (n & Gj & Hb & _). unfold num. by rewrite Gj.
  - intros j t g s Hth. destruct (ct_shape _ _ _ _ HC j t g _ Hth) as [Hq _].
    destruct (ended limit reqs _ _ _ _ _ _ HC Hth) as [[? _]|(n & Hg & Hv)]; [done|].
    unfold decide_rate in Hv. destruct (Z.ltb_spec limit n) as [Hl|]; [|done].
    pose proof (ct_keys _ _ _ _ HC _ (rate_key_prefix t g)) as Hk. unfold key_ok in Hk. cbn in Hk.
    pose proof (key_at_Some _ _ _ _ Hq) as Hka. destruct (rd_counter r' _) as [[v e]|]; [|by destruct (Hk _ _ Hka Hg)].
    destruct Hk as (Hv' & _ & Hn & _). destruct (Hn _ _ Hka Hg) as [_ Hnv].
    exists (map_to_list (tried reqs G (rate_key t g))).*1. split_and!; [apply NoDup_fst_map_to_list| |].
    + rewrite length_fmap, length_map_to_list. lia.
    + intros j' Hj'. apply list_elem_of_fmap in Hj' as ([j1 x] & -> & Hin). apply elem_of_map_to_list in Hin.
      apply map_lookup_filter_Some in Hin as [_ Hkey]. cbn [fst] in *. unfold key_at in Hkey.
      destruct (reqs !! j1) as [[t' g']|] eqn:E1; [|done].
      destruct (same_window reqs Hreqs j1 j (t', g') (t, g) E1 Hq) as [Ht Hw]; [by rewrite Hka; unfold key_at; rewrite E1|].
      cbn in Ht, Hw. subst t'. eauto.
Qed.

(** ** The throttle in front of authentication *)

(** A request by address, with the clock it reads. *)
Definition throttle (l : preAuthLimiter) (q : string * (nat → Z)) : preAuthLimiter := (allowIP q.1 q.2 l).2.

Lemma sweep_lookup now l ip :
  pl_ips (sweepLocked now l) !! ip = pl_ips l !! ip ∨
  ∃ e, pl_ips l !! ip = Some e ∧ ipEntryTTL < time_Sub now (ie_seen e) ∧ pl_ips (sweepLocked now l) !! ip = None.
Proof.
  unfold sweepLocked. destruct (_ <? _); [by left|]. cbn [set_ips pl_ips].
  destruct (pl_ips l !! ip) as [e|] eqn:E; [|left; by apply map_lookup_filter_None_2; left].
  destruct (decide (ipEntryTTL < time_Sub now (ie_seen e))) as [Hs|Hs].
  - right. exists e. split_and!; [done|done|]. apply map_lookup_filter_None_2. right. intros e' He'. cbn.
    rewrite E in He'. injection He' as <-. by intros ?.
  - left. by apply map_lookup_filter_Some_2.
Qed.

Lemma sweep_size now l : (size (pl_ips (sweepLocked now l)) <= size (pl_ips l))%nat.
Proof.
  unfold sweepLocked. destruct (_ <? _); [done|]. cbn [set_ips pl_ips].
  apply map_subseteq_size, map_filter_subseteq.
Qed.

Lemma allowIP_size ip clk l :
  Z.of_nat (size (pl_ips l)) <= maxTrackedIPs → Z.of_nat (size (pl_ips (allowIP ip clk l).2)) <= maxTrackedIPs.
Proof.
  intros Hs. pose proof (sweep_size (clk 0%nat) l) as Hw. unfold allowIP.
  destruct (pl_ips (sweepLocked _ l) !! ip) as [e|] eqn:E.
  - destruct (bucket_allow _ _) as [ok b]. cbn [snd pl_ips set_ips]. rewrite map_size_insert_Some by eauto. lia.
  - destruct (Z.leb_spec maxTrackedIPs (Z.of_nat (size (pl_ips (sweepLocked (clk 0%nat) l))))); [cbn; lia|].
    destruct (bucket_allow _ _) as [ok b]. cbn [snd pl_ips set_ips]. rewrite map_size_insert_None by done. lia.
Qed.

Lemma allowIP_other ip ip' clk l : ip' ≠ ip →
  pl_ips (allowIP ip clk l).2 !! ip' = pl_ips (sweepLocked (clk 0%nat) l) !! ip'.
Proof.
  intros Hne. unfold allowIP. destruct (pl_ips (sweepLocked _ l) !! ip) as [e|];
    [|destruct (_ <=? _); [done|]]; destruct (bucket_allow _ _) as [ok b]; cbn [snd pl_ips set_ips];
    by rewrite lookup_insert_ne.
Qed.

(** The throttle's table stays bounded and fair: after any sequence of
    requests it holds at most 50000 addresses; a request changes the entry of
    no other address, except to drop one unseen for more than ten minutes; and
    a request is refused only when its own address is tracked with less than
    one token left. *)
Theorem throttle_table_bounded perIP perSec burst trust start (qs : list (string * (nat → Z))) ip clk :
  let l := foldl throttle (newPreAuthLimiter perIP perSec burst trust start) qs in
  let '(ok, l') := allowIP ip clk l in
  Z.of_nat (size (pl_ips l)) <= maxTrackedIPs ∧
  (∀ ip', ip' ≠ ip → pl_ips l' !! ip' = pl_ips l !! ip' ∨
     ∃ e, pl_ips l !! ip' = Some e ∧ ipEntryTTL < time_Sub (clk 0%nat) (ie_seen e) ∧ pl_ips l' !! ip' = None) ∧
  (ok = false → ∃ e, pl_ips l' !! ip = Some e ∧ fle fone (tb_tokens (ie_bucket e)) = false).
Proof.
  intros l. destruct (allowIP ip clk l) as [ok l'] eqn:Ea. split_and!.
  - unfold l. clear Ea. induction qs as [|q qs IH] using rev_ind; [done|]. rewrite foldl_app. cbn. by apply allowIP_size.
  - intros ip' Hne. pose proof (allowIP_other ip ip' clk l Hne) as Ho. rewrite Ea in Ho. cbn in Ho.
    destruct (sweep_lookup (clk 0%nat) l ip') as [Hs|(e & He & Ht & Hs)]; rewrite Ho, Hs; eauto.
  - intros ->. revert Ea. unfold allowIP.
    assert (Hb : ∀ now b b', bucket_allow now b = (false, b') → fle fone (tb_tokens b') = false).
    { intros now b b'. unfold bucket_allow. destruct (fle _ _) eqn:E; [done|]. by intros [= <-]. }
    destruct (pl_ips (sweepLocked _ l) !! ip) as [e|]; [|destruct (_ <=? _); [done|]];
      destruct (bucket_allow _ _) as [ok b] eqn:E; intros [= -> <-]; eexists; cbn [pl_ips set_ips];
      (split; [by apply lookup_insert_eq|]); cbn; by eapply Hb.
Qed.

(** The address the throttle counts behind a trusted proxy is the one the
    proxy appended, whatever the client put before it. *)
Lemma last_index_app (c : ascii) (l m : bytes) : c ∉ m → last_index c (l ++ c :: m) = Some (length l).
Proof.
  intros Hm. assert (Hn : last_index c m = None).
  { clear l. induction m as [|b m IH]; [done|]. rewrite not_elem_of_cons in Hm. cbn. rewrite IH by naive_solver.
    destruct (Ascii.eqb_spec b c); [naive_solver|]. destruct (Ascii.eqb_spec c b); naive_solver. }
  induction l as [|b l IH]; cbn; [by rewrite Hn, ?Ascii.eqb_refl|by rewrite IH].
Qed.

Theorem client_ip_unforgeable (r : HttpRequest) (spoofed hop : string) :
  values_Get (rq_Header r) "X-Forwarded-For" = spoofed +:+ "," +:+ hop →
  ","%char ∉ to_bytes hop → trimSpace hop ≠ "" → clientIP true r = trimSpace hop.
Proof.
  intros Hx Hc Hb. unfold clientIP, lastIndexByte. rewrite Hx.
  rewrite !to_bytes_app. cbn [to_bytes String.list_ascii_of_string app]. rewrite last_index_app by done.
  assert (Hd : drop_str (S (length (to_bytes spoofed))) (spoofed +:+ "," +:+ hop) = hop).
  { clear. induction spoofed as [|a s IH]; [by destruct hop|]. exact IH. }
  rewrite Hd. assert (Hne : spoofed +:+ "," +:+ hop ≠ "") by (by destruct spoofed).
  by rewrite (proj2 (String.eqb_neq _ _) Hne), (proj2 (String.eqb_neq _ _) Hb).
Qed.

(** ** The OAuth callback *)

(** C20. An OAuth state is used once and only as it was recorded.  The first
    action of a callback takes the state its request names out of Redis; when
    that answers, the key is empty from then on, so every later callback with
    the same state finds nothing.  Only a recorded flow that was still there
    lets the callback go on, and then every action is the exchange of the code
    at that flow's provider with its PKCE verifier, or storing the token for
    that flow's own tenant and instance; in every other case it stops there.
    The browser is always sent to the configured web app. *)
Theorem oauth_state_single_use {W R} {HU : Upstream W} {HR : Redis R} {HRL : RedisLaws R} {HRW : HasRedis R W} {HO : OAuth2 W}
    `{!Quoting, !GatewayCodecs, !HubDeps} (d : deps) (c : Call) (i : Inp) (w : W) :
  let state := values_Get (rq_Query (c_req c)) "state" in
  let key := statePrefix +:+ state in
  d_oauth d && d_oauthState d = true → state ≠ "" →
  md_get (ctx_md_out (c_ctx c)) MetadataKey = [] →
  ∃ k, (handleOAuthCallback (R := R) d c : prog W Response) = Atomic _ (λ i w, let '(a, r) := GETDEL key i (redis_of w) in (a, set_redis r w)) k ∧
    let '(a, r) := GETDEL key i (redis_of w) in
    match a with
    | Ok found =>
      rd_text r key = None ∧
      match found with
      | Some blob =>
        rd_text (redis_of w) key = Some blob ∧
        match flow_Unmarshal blob with
        | Ok flow =>
          acts (flow_effect (W := W) d flow) (fixed_redirect d) (k a)
        | Err _ => k a = Ret (redirectOAuthError d c)
        end
      | None => k a = Ret (redirectOAuthError d c)
      end
    | Err _ => k a = Ret (redirectOAuthError d c)
    end.
Proof.
  intros state key Hon Hs Hm. unfold handleOAuthCallback. rewrite Hon. cbn [negb]. fold state key.
  rewrite (proj2 (String.eqb_neq _ _) Hs). eexists. split; [reflexivity|].
  pose proof (GETDEL_text key i (redis_of w)) as Hlaw. destruct (GETDEL key i (redis_of w)) as [[[blob|]|e] r]; destruct Hlaw as [_ Hlaw];
    [|by split|done].
  destruct Hlaw as [Hb Hn]. split; [done|]. split; [done|]. cbn.
  destruct (flow_Unmarshal blob) as [flow|]; [|done]. by apply finish_flow_bound.
Qed.

(** ** A Redis in memory *)
Record memRedis := mkMemRedis { mr_counters : gmap string (Z * option Z); mr_texts : gmap string string }.

#[local] Instance mem_redis : Redis memRedis := {|
  INCR k i r :=
    let x := incremented (now_of i) (mr_counters r !! k) in (Ok x.1, mkMemRedis (<[k := x]> (mr_counters r)) (mr_texts r));
  EXPIRE k ttl i r :=
    (Ok (), mkMemRedis (partial_alter (expiring (now_of i) ttl) k (mr_counters r)) (mr_texts r));
  SET k v ttl i r := (Ok (), mkMemRedis (mr_counters r) (<[k := v]> (mr_texts r)));
  GETDEL k i r := (Ok (mr_texts r !! k), mkMemRedis (mr_counters r) (delete k (mr_texts r)));
  DEL k i r := (Ok (), mkMemRedis (delete k (mr_counters r)) (delete k (mr_texts r)));
  LREM _ _ _ r := (Err "", r); LPUSH _ _ _ r := (Err "", r); LTRIM _ _ _ _ r := (Err "", r); LRANGE _ _ _ _ r := (Err "", r)
|}.

#[local] Instance mem_redis_laws : RedisLaws memRedis.
Proof.
  refine {| rd_counter r k := mr_counters r !! k; rd_text r k := mr_texts r !! k |}; intros; cbn.
  - split; [intros k' Hk; by rewrite lookup_insert_ne|]. by rewrite lookup_insert_eq.
  - split; [intros k' Hk; by rewrite lookup_partial_alter_ne|]. by rewrite lookup_partial_alter_eq.
  - split; [intros k' Hk; by rewrite lookup_insert_ne|]. by rewrite lookup_insert_eq.
  - split; [intros k' Hk; by rewrite lookup_delete_ne|]. rewrite lookup_delete_eq. by destruct (mr_texts r !! k).
Defined.

(** Two requests of alice within a minute that allows one: both count, then
    both set the expiry. *)
Definition two_requests : list (TenantID * Z) := [("alice", 1000); ("alice", 2000)].

Definition at_instant (n : Z) : Inp := mkInp None None (mkEnv (λ _, n) (λ _, n) "").

Definition counted_twice : memRedis := mkMemRedis {[ "rl:alice:0" := (2, Some (4000 + rateWindowTTL)) ]} ∅.

Lemma rate_limit_holds_witness :
  star (limiter_step (R := memRedis)) (mkMemRedis ∅ ∅, arrivals 1 two_requests)
    (counted_twice, [("alice", 1000, Ret (Within 1)); ("alice", 2000, Ret (Limited 60))]) ∧
  ∃ js, NoDup js ∧ 1 < Z.of_nat (length js) ∧
    ∀ j', j' ∈ js → ∃ g', two_requests !! j' = Some ("alice", g') ∧ rate_window g' = rate_window 2000.
Proof.
  assert (Hs : star (limiter_step (R := memRedis)) (mkMemRedis ∅ ∅, arrivals 1 two_requests)
    (counted_twice, [("alice", 1000, Ret (Within 1)); ("alice", 2000, Ret (Limited 60))])).
  { eapply star_step; [eapply (ls_act _ _ 0%nat "alice" 1000 _ _ _ (at_instant 1000)); [reflexivity|done]|].
    eapply star_step; [eapply (ls_act _ _ 1%nat "alice" 2000 _ _ _ (at_instant 2000)); [reflexivity|done]|].
    eapply star_step; [eapply (ls_act _ _ 0%nat "alice" 1000 _ _ _ (at_instant 3000)); [reflexivity|done]|].
    eapply star_step; [eapply (ls_act _ _ 1%nat "alice" 2000 _ _ _ (at_instant 4000)); [reflexivity|done]|].
    match goal with |- star _ ?a ?b => replace a with b by (vm_compute; reflexivity) end. apply star_refl. }
  split; [exact Hs|].
  refine (proj2 (rate_limit_holds 1 two_requests _ _ _ _ _ _ Hs) 1%nat "alice" 2000 60 eq_refl);
    [lia| |intros k _; apply lookup_empty].
  intros q Hq. apply (list_elem_of_In) in Hq. cbn in Hq. destruct Hq as [<-|[<-|[]]]; split; cbn; (reflexivity || lia).
Defined.

(** ** A callback for alice's flow *)
#[local] Instance no_upstream : Upstream (memRedis * unit) := {|
  invoke A r ctx := Ret (Err (mkStatus Unavailable "down"));
  hub_Do q i w := (Err false, w);
  jwks_probe i := Err "";
  metrics i := (200, "", [])
|}.
#[local] Instance pair_redis : HasRedis memRedis (memRedis * unit) := {| redis_of := fst; set_redis r w := (r, w.2) |}.
#[local] Instance no_oauth2 : OAuth2 (memRedis * unit) := {|
  lib_AuthCodeURL _ _ _ := ""; lib_Exchange _ _ _ _ w := (Err "", w); lib_Token _ _ _ w := (Err "", w);
  lib_NewRequest _ := None; lib_Post _ _ _ w := (Err "", w); slack_json _ := Err ""
|}.
#[local] Instance raw_quoting : Quoting := {| Quote s := s |}.
#[local] Instance flow_codecs : GatewayCodecs := {|
  dec_create _ := DBad; dec_token _ := DBad; dec_suspend _ := DBad; dec_recent _ := DBad; dec_profile _ := DBad;
  dec_feedback _ := DBad; profile_Marshal _ := Err ""; profile_Unmarshal _ := None; profile_Json _ := JNull;
  model_Unmarshal _ := zeroModel; model_Json _ := JNull;
  flow_Marshal f := Ok (fl_Tenant f);
  flow_Unmarshal s := Ok (mkFlow s "i1" "gmail" Google "v" 0);
  userEmail_json _ := None; proto_Marshal _ := Err ""; ParseMediaType _ := None; url_ok _ := true;
  GenerateVerifier _ := "v"; S256ChallengeFromVerifier s := s; RawURLEncode := of_bytes; url_Query _ := None;
  range_people m := (map_to_list m).*2; range_weights _ := map_to_list
|}.
#[local] Instance no_hub_deps : HubDeps := {|
  json_to_token _ := Err ""; token_to_json _ := Ok ""; json_to_map _ := Ok None; map_to_json _ := Ok "";
  string_to_json s := s; oauth_refresh _ _ t := Ok t
|}.

Definition callback_deps : deps :=
  let pc := mkProviderConfig "id" "secret" "auth" "token" "" "" in
  mkDeps "" false false 0 0 "" 0 true true (mkOAuthConfig pc pc pc pc) "https://gw" "https://app".

Definition callback_call : Call :=
  mkHCall (mkHttpRequest "GET" "/v1/oauth/callback" (<["state" := ["s1"]]> (<["code" := ["c1"]]> ∅)) ∅ "" 0 [])
    (mkCtx None None None ∅) None [] ∅.

Lemma oauth_state_single_use_witness :
  ∃ k, handleOAuthCallback (R := memRedis) callback_deps callback_call =
    Atomic _ (λ i w, let '(a, r) := GETDEL "oauthstate:s1" i (redis_of w) in (a, set_redis r w)) k ∧
  acts (flow_effect callback_deps (mkFlow "alice" "i1" "gmail" Google "v" 0)) (fixed_redirect callback_deps)
    (k (Ok (Some "alice"))).
Proof.
  destruct (oauth_state_single_use (R := memRedis) callback_deps callback_call (at_instant 0)
    (mkMemRedis ∅ {[ "oauthstate:s1" := "alice" ]}, ())) as (k & Hk & Hg); [reflexivity|discriminate|reflexivity|].
  exists k. split; [exact Hk|]. exact (proj2 (proj2 Hg)).
Defined.
