(* ===== verification/GatewayStack.v ===== *)
(** * The gateway over the control plane

    The gateway of [Gateway] with the control plane of [ControlPlane],
    [Erasure] and [Admin] behind its clients: requests pass the client
    interceptor, the wire, the server interceptor
    ([services/control-plane/main.go]) and the RPC handler.  The query service,
    the hub, the providers and Redis stay parameters. *)

From stdpp Require Import base gmap strings list pretty.
From Stdlib Require Import Ascii ZArith Lia.
From S2P Require Import Prelude GoStrings GoText GoEncode GoFloat GoHttp Tenancy Store StoreLoops StoreIsolation Crypto CryptoProofs Interleave Blob.
From S2P Require Import ControlPlane ControlPlaneProofs Erasure ErasureProofs Admin Kafka HubScheduler HubSync.
From S2P Require Import QueryVespa QueryPlan Personalization QueryModels QueryServer OAuth.
Import memStore.
From S2P Require Import GatewayEdge GatewayRedis GatewaySearch GatewayPeople Gateway GatewayProofs.

Open Scope Z_scope.

(** The processes: the control plane, the gateway's Redis and throttle, and
    the rest. *)
Record Stack (OB V R Rg Q : Type) := mkStack {
  sk_cp : World memStore memDEKStore OB V R; sk_redis : Rg; sk_limiter : preAuthLimiter; sk_rest : Q
}.
Arguments mkStack {OB V R Rg Q}. Arguments sk_cp {OB V R Rg Q}. Arguments sk_redis {OB V R Rg Q}.
Arguments sk_limiter {OB V R Rg Q}. Arguments sk_rest {OB V R Rg Q}.

(** What stays a parameter. *)
Class Rest (Q : Type) := {
  rest_Search : Ctx → SearchRequest → prog Q (result Status (SearchResponse * Values));
  rest_Count : Ctx → prog Q (result Status Z);
  rest_hub : HubRequest → Inp → Q → result bool HubReply * Q;
  rest_jwks : Inp → result string Z;
  rest_metrics : Inp → Z * string * bytes
}.

Section stack.
Context `{HD : !Deps} `{HG : !GCM} {K : Type} `{HK : !KEKProvider K} (kek : K) {M L : Type} `{HM : !Model M L}.
Context {OB : Type} `{HOB : !objectAPI OB} {V : Type} `{HV : !VespaHTTP V} {R : Type} `{HRA : !RedisAPI R}.
Context {Rg : Type} `{HRd : !Redis Rg} {Q : Type} `{HQ : !Rest Q} `{HO2 : !OAuth2 Q}.
Context (cfg : serverConfig) (bucket : string) (vespa : httpVespaPurger) (scan_fuel : nat).

Abbreviation CW := (World memStore memDEKStore OB V R).
Abbreviation SW := (Stack OB V R Rg Q).

Definition set_cp (w : CW) (s : SW) : SW := mkStack w (sk_redis s) (sk_limiter s) (sk_rest s).
Definition set_rest (q : Q) (s : SW) : SW := mkStack (sk_cp s) (sk_redis s) (sk_limiter s) q.

#[global] Instance stack_redis : HasRedis Rg SW := {|
  redis_of := sk_redis; set_redis r s := mkStack (sk_cp s) r (sk_limiter s) (sk_rest s) |}.
#[global] Instance stack_limiter : HasLimiter SW := {|
  get_limiter := sk_limiter; set_limiter l s := mkStack (sk_cp s) (sk_redis s) l (sk_rest s) |}.

Definition on_rest {A} (f : Inp → Q → A * Q) (i : Inp) (s : SW) : A * SW :=
  let '(a, q) := f i (sk_rest s) in (a, set_rest q s).

#[global] Instance stack_oauth : OAuth2 SW := {|
  lib_AuthCodeURL := lib_AuthCodeURL (W := Q);
  lib_Exchange c code v := on_rest (lib_Exchange c code v);
  lib_Token c t := on_rest (lib_Token c t);
  lib_NewRequest := lib_NewRequest (W := Q);
  lib_Post u b := on_rest (lib_Post u b);
  slack_json := slack_json (W := Q)
|}.

(** The methods without a tenant gate. *)
Definition exempt_methods : list string :=
  ["ListAllInstances"; "ListTenants"; "GetTenantUsage"; "SuspendTenant"; "AdminDeleteTenant"].

Definition gated {A} (ctx : Ctx) (m : string) (h : Ctx → prog CW (result Status A)) : prog CW (result Status A) :=
  match tenantInterceptorSkipping exempt_methods ctx m Ok with Err st => Ret (Err st) | Ok ctx' => h ctx' end.

Definition on_cp {A} (p : prog CW A) : prog SW A := zoom sk_cp set_cp p.
Definition on_q {A} (p : prog Q A) : prog SW A := zoom sk_rest set_rest p.

(** The services at the other end of the wire. *)
Definition serve_rpc {A} (r : Rpc A) (ctx : Ctx) : prog SW (result Status A) :=
  match r in Rpc B return prog SW (result Status B) with
  | EnsureTenant => on_cp (gated ctx "EnsureTenant" server_EnsureTenant)
  | CreateConnectorInstance c n j =>
    on_cp (gated ctx "CreateConnectorInstance" (λ x, server_CreateConnectorInstance cfg x c n j))
  | ListConnectorInstances => on_cp (gated ctx "ListConnectorInstances" server_ListConnectorInstances)
  | GetConnectorInstance id => on_cp (gated ctx "GetConnectorInstance" (λ x, server_GetConnectorInstance x id))
  | DeleteConnectorInstance id => on_cp (gated ctx "DeleteConnectorInstance" (λ x, server_DeleteConnectorInstance x id))
  | GetSyncState id => on_cp (gated ctx "GetSyncState" (λ x, server_GetSyncState x id))
  | SetSyncState st => on_cp (gated ctx "SetSyncState" (λ x, server_SetSyncState x (Some st)))
  | PutToken id tok => on_cp (gated ctx "PutToken" (λ x, server_PutToken kek x id tok))
  | GetPersonalization => on_cp (gated ctx "GetPersonalization" server_GetPersonalization)
  | PutPreferences p => on_cp (gated ctx "PutPreferences" (λ x, server_PutPreferences x p))
  | RecordFeedback ev => on_cp (gated ctx "RecordFeedback" (λ x, server_RecordFeedback x (Some ev)))
  | ResetLearning => on_cp (gated ctx "ResetLearning" server_ResetLearning)
  | DeleteTenant c =>
    on_cp (gated ctx "DeleteTenant" (λ x, server_DeleteTenant cfg bucket vespa scan_fuel x c))
  | ListTenants n t => on_cp (gated ctx "ListTenants" (λ x, admin_ListTenants x n t))
  | GetTenantUsage t => on_cp (gated ctx "GetTenantUsage" (λ x, admin_GetTenantUsage x t))
  | SuspendTenant t b => on_cp (gated ctx "SuspendTenant" (λ x, admin_SuspendTenant x t b))
  | AdminDeleteTenantRpc t =>
    on_cp (gated ctx "AdminDeleteTenant" (λ x, AdminDeleteTenant cfg bucket vespa scan_fuel x t))
  | SearchRpc req => on_q (rest_Search ctx req)
  | CountRpc => on_q (rest_Count ctx)
  end.

#[global] Instance stack_upstream : Upstream SW := {|
  invoke A r ctx := serve_rpc r (wire ctx);
  hub_Do q := on_rest (rest_hub q);
  jwks_probe := rest_jwks;
  metrics := rest_metrics
|}.

(** ** Actions through the stack *)
Lemma does_zoom {X Y A} (get : Y → X) (put : X → Y → Y) (p : prog X A) i (y y' : Y) :
  does (zoom get put p) i y y' → ∃ x', does p i (get y) x' ∧ y' = put x' y.
Proof using Type.
  induction p as [a|Z f k IH]; [done|]. cbn. intros [->|[b Hb]].
  - exists (f i (get y)).2. destruct (f i (get y)) as [b x']. cbn. auto.
  - destruct (IH b Hb) as (x' & Hx & ->). eauto.
Qed.

Lemma does_reply {A} (f : A → Reply) (p : prog CW (result Status A)) i w w' : does p i w w' → does (reply f p) i w w'.
Proof using Type. induction p as [[a|e]|Z g k IH]; [done|done|]. cbn. intros [->|[x Hx]]; eauto. Qed.

(** The control plane keeps every other tenant's view. *)
Definition views_kept (t : TenantID) (w w' : CW) : Prop :=
  WF (w_store w') ∧ ∀ t', t' ≠ t → restrict_w t' w' = restrict_w t' w.

Lemma scoped_does {A} t (p : prog CW A) i w w' :
  scoped t p → does p i w w' → WF (w_store w) → fresh_inp i w → views_kept t w w'.
Proof using Type.
  induction p as [a|Z f k IH]; [done|]. cbn. intros [Hf Hk] Hd Hw Hi. destruct Hd as [->|[x Hx]]; [|by eapply IH].
  by destruct (Hf i w Hw Hi) as (_ & ? & ?).
Qed.

Lemma does_bind {X A B} (p : prog X A) (q : A → prog X B) i w w' : does (bind p q) i w w' → does p i w w' ∨ ∃ a, does (q a) i w w'.
Proof using Type.
  induction p as [a|Z f k IH]; cbn; [eauto|]. intros [->|[x Hx]]; [by left; left|].
  destruct (IH x Hx) as [Hd|[a Ha]]; [left; right|right]; eauto.
Qed.

(** ** Erasure and the operator

    No row and no key of a tenant other than [t] changes. *)
Definition others_untouched (t : TenantID) (w w' : CW) : Prop :=
  ∀ t', t' ≠ t → restrict t' (w_store w') = restrict t' (w_store w) ∧ restrict_c t' (w_cipher w') = restrict_c t' (w_cipher w).

Lemma untouched_refl t w : others_untouched t w w.
Proof using Type. by intros t' _. Qed.

Lemma untouched_store t w s : (∀ t', t' ≠ t → restrict t' s = restrict t' (w_store w)) → others_untouched t w (set_store s w).
Proof using Type. intros Hs t' Hne. split; [by apply Hs|done]. Qed.

Lemma own_delete {A} t t' (m : gmap string A) : t' ≠ t → own t' (delete t m) = own t' m.
Proof using Type.
  intros Hne. unfold own. apply map_eq. intros j. destruct (decide (j = t)) as [->|Hj].
  - rewrite (map_lookup_filter_None_2 _ (delete t m)) by (left; apply lookup_delete_eq).
    symmetry. apply map_lookup_filter_None_2. right. cbn. congruence.
  - apply option_eq. intros x. rewrite !map_lookup_filter_Some, lookup_delete_ne by done. done.
Qed.

Lemma status_untouched t ctx s i w :
  WF (w_store w) → others_untouched t w (on_store (λ i, Store_SetTenantConnectorStatus (in_env i) (at_ctx ctx i) t s) i w).2.
Proof using Type.
  intros Hw. unfold on_store. destruct (SetStatus_frame (in_env i) (at_ctx ctx i) t s (w_store w) Hw) as [_ Hf].
  change Store_SetTenantConnectorStatus with SetTenantConnectorStatus.
  destruct (SetTenantConnectorStatus _ _ _ _ _) as [a m]. by apply untouched_store.
Qed.

Lemma purge_untouched t ctx i w : WF (w_store w) → others_untouched t w (on_store (λ i, Store_PurgeTenant (at_ctx ctx i) t) i w).2.
Proof using Type.
  intros Hw. unfold on_store. cbn [Store_PurgeTenant]. destruct (in_ctx i) as [e|] eqn:Hi.
  - unfold PurgeTenant, guarded, at_ctx. cbn. rewrite Hi. by apply untouched_store.
  - rewrite PurgeTenant_spec by done. apply untouched_store. intros t' Hne. by apply purged_frame.
Qed.

Lemma dek_untouched t i w : others_untouched t w (on_dek (λ i, DeleteDEK i t) i w).2.
Proof using Type.
  unfold on_dek. change (DeleteDEK i t (store (w_cipher w))) with (mem_Delete i t (store (w_cipher w))). unfold mem_Delete.
  destruct (in_ctx i); [by intros t' _|]. destruct (String.eqb t ""); [by intros t' _|].
  intros t' Hne. split; [done|]. unfold restrict_c. cbn. by rewrite own_delete.
Qed.

Lemma forget_untouched t i w : others_untouched t w (forget t i w).2.
Proof using Type. intros t' Hne. split; [done|]. unfold restrict_c. cbn. by rewrite own_delete. Qed.

Lemma blobs_untouched tc i w w' : does (on_blobs (DeletePrefix bucket tc)) i w w' → others_untouched (tenantID tc) w w'.
Proof using Type.
  intros Hd. apply does_zoom in Hd as ([c o] & Hd & ->). unfold DeletePrefix in Hd. destruct (String.eqb _ _); [done|].
  cbn in Hd. destruct (removePrefix _ _ _ _) as [x o'] eqn:E. cbn in Hd. destruct Hd as [Hd|[[n [e|]] []]]. injection Hd as -> ->. by intros t' _.
Qed.

(** Every action of a program leaves the other tenants' rows and keys. *)
Definition erases {A} (t : TenantID) (p : prog CW A) : Prop :=
  ∀ i w w', does p i w w' → WF (w_store w) → others_untouched t w w'.

Lemma erases_ret {A} t (a : A) : erases t (Ret a).
Proof using Type. by intros i w w'. Qed.

Lemma erases_atomic {A X} t f (k : X → prog CW A) :
  (∀ i w, WF (w_store w) → others_untouched t w (f i w).2) → (∀ x, erases t (k x)) → erases t (Atomic X f k).
Proof using Type. intros Hf Hk i w w' [->|[x Hx]] Hw; [by apply Hf|by eapply Hk]. Qed.

Lemma erases_bind {A B} t (p : prog CW A) (q : A → prog CW B) : erases t p → (∀ a, erases t (q a)) → erases t (bind p q).
Proof using Type. intros Hp Hq i w w' [Hd|[a Ha]]%does_bind Hw; [by eapply Hp|by eapply Hq]. Qed.

(** What works on neither rows nor keys. *)
Lemma erases_zoom {X A} t get (put : X → CW → CW) (p : prog X A) :
  (∀ x w, w_store (put x w) = w_store w ∧ w_cipher (put x w) = w_cipher w) → erases t (zoom get put p).
Proof using Type. intros Hput i w w' (x & _ & ->)%does_zoom _ t' _. by destruct (Hput x w) as [-> ->]. Qed.

Lemma erases_fence {A} ctx t (k : prog CW (result Status A)) : erases t k → erases t (step_fence ctx t k).
Proof using Type. intros Hk. apply erases_atomic; [by intros; apply status_untouched|]. intros [n|e]; [done|apply erases_ret]. Qed.

Lemma erases_shred {A} t (k : bool → prog CW (result Status A)) : (∀ b, erases t (k b)) → erases t (step_shred cfg t k).
Proof using Type.
  intros Hk. unfold step_shred.
  assert (Hf : ∀ b, erases t (Atomic _ (forget t) (λ _, k b))) by (intros b; by apply erases_atomic; [intros; apply forget_untouched|]).
  destruct (cfg_dek cfg); [|apply Hf]. apply erases_atomic; [by intros; apply dek_untouched|]. intros [[]|e]; [apply Hf|apply erases_ret].
Qed.

Lemma erases_store {A} ctx t (k : PurgeCounts → prog CW (result Status A)) : (∀ c, erases t (k c)) → erases t (step_store ctx t k).
Proof using Type. intros Hk. apply erases_atomic; [by intros; apply purge_untouched|]. intros [c|e]; [done|apply erases_ret]. Qed.

Lemma erases_vespa {A} t (k : bool → prog CW (result Status A)) : (∀ b, erases t (k b)) → erases t (step_vespa cfg vespa t k).
Proof using Type.
  intros Hk. unfold step_vespa. destruct (cfg_vespa cfg); [|done]. apply erases_bind; [by apply erases_zoom|].
  intros [[]|e]; [done|apply erases_ret].
Qed.

Lemma erases_blobs {A} tc (k : Z → prog CW (result Status A)) :
  (∀ n, erases (tenantID tc) (k n)) → erases (tenantID tc) (step_blobs cfg bucket tc k).
Proof using Type.
  intros Hk. unfold step_blobs. destruct (cfg_blobs cfg); [|done]. apply erases_bind; [intros i w w' Hd _; by eapply blobs_untouched|].
  intros [n [e|]]; [apply erases_ret|done].
Qed.

Lemma erases_redis {A} t (k : bool → bool → prog CW (result Status A)) : (∀ a b, erases t (k a b)) → erases t (step_redis cfg scan_fuel t k).
Proof using Type.
  intros Hk. unfold step_redis. destruct (cfg_cache cfg); [|done]. apply erases_bind; [by apply erases_zoom|]. by intros [[]|e].
Qed.

Lemma cascade_untouched ctx t actor : erases t (cascadeDelete cfg bucket vespa scan_fuel ctx t actor).
Proof using Type.
  unfold cascadeDelete. destruct (String.eqb t ""); [apply erases_ret|]. destruct (FromHeaderValue t) as [tc|] eqn:Et; [|apply erases_ret].
  assert (tenantID tc = t) as <- by (unfold FromHeaderValue in Et; destruct (validTenant t); by inversion Et). clear Et.
  apply erases_fence, erases_shred. intros b. apply erases_store. intros c. apply erases_vespa. intros v. apply erases_blobs. intros n.
  apply erases_redis. intros p f. apply erases_atomic; [intros; apply untouched_refl|]. intros [[]|e]; apply erases_ret.
Qed.

Lemma admin_tenant_valid raw t : adminTenant raw = Ok t → t = raw ∧ validTenant t = true.
Proof using Type.
  unfold adminTenant, FromHeaderValue. destruct (String.eqb raw ""); [done|]. destruct (validTenant raw) eqn:E; [|done]. by intros [= <-].
Qed.

(** What an operator's RPC may do: read, suspend the connectors of the tenant
    it names, or run the cascade for the tenant it names. *)
Inductive operator_action (i : Inp) (w w' : CW) : Prop :=
| oa_read : w' = w → operator_action i w w'
| oa_suspend ctx t b :
    validTenant t = true → does (admin_SuspendTenant ctx t b) i w w' → others_untouched t w w' → operator_action i w w'
| oa_delete ctx t :
    validTenant t = true → does (AdminDeleteTenant cfg bucket vespa scan_fuel ctx t) i w w' → others_untouched t w w' →
    operator_action i w w'.

Lemma operator_call {A} (rp : Rpc A) ctx i (s s' : SW) :
  is_operator rp = true → does (serve_rpc rp ctx) i s s' → WF (w_store (sk_cp s)) → operator_action i (sk_cp s) (sk_cp s').
Proof using Type.
  intros Hop Hd Hw. destruct rp; try discriminate; cbn in Hd; apply does_zoom in Hd as (w' & Hd & ->);
    unfold gated, tenantInterceptorSkipping in Hd; rewrite bool_decide_true in Hd by (by apply (bool_decide_unpack _); vm_compute); cbn [sk_cp set_cp].
  - apply oa_read. destruct Hd as [->|[[us|e] Hd]]; done.
  - apply oa_read. unfold admin_GetTenantUsage in Hd. destruct (adminTenant _); [|done]. destruct Hd as [->|[[us|e] Hd]]; done.
  - assert (Hd' := Hd). unfold admin_SuspendTenant in Hd'. destruct (adminTenant tenant) as [t|] eqn:Et; [|done].
    apply admin_tenant_valid in Et as [-> Hv]. eapply oa_suspend; [exact Hv|exact Hd|]. destruct Hd' as [->|[[us|e] Hd']]; [|done|done].
    by apply status_untouched.
  - assert (Hd' := Hd). unfold AdminDeleteTenant in Hd'. destruct (adminTenant tenant) as [t|] eqn:Et; [|done].
    apply admin_tenant_valid in Et as [-> Hv]. eapply oa_delete; [exact Hv|exact Hd|]. by eapply cascade_untouched.
Qed.

(** The gate admits the tenant the metadata names. *)
Lemma gated_tenant {A} ctx t m (h : Ctx → prog CW (result Status A)) :
  m ∉ exempt_methods → validTenant t = true → md_get (ctx_md_out ctx) MetadataKey = [t] →
  ∃ ctx', FromContext ctx' = Ok (mkContext t t) ∧ gated (wire ctx) m h = h ctx'.
Proof using Type.
  intros Hm Hv Hmd. unfold gated, tenantInterceptorSkipping. rewrite bool_decide_false by done.
  unfold UnaryServerInterceptor, wire. cbn [ctx_md_in]. rewrite Hmd. unfold FromHeaderValue. rewrite Hv.
  eexists. split; [by apply FromContext_WithContext|done].
Qed.

(** A tenant RPC of the control plane is an action of the tenant named. *)
Lemma call_kept {A} ctx t m (h : Ctx → prog CW (result Status A)) (f : A → Reply) (rq : Request) i (s s' : SW) :
  (∀ c, reply f (h c) = handle kek cfg c rq) → m ∉ exempt_methods → validTenant t = true →
  md_get (ctx_md_out ctx) MetadataKey = [t] →
  does (on_cp (gated (wire ctx) m h)) i s s' → WF (w_store (sk_cp s)) → fresh_inp i (sk_cp s) →
  views_kept t (sk_cp s) (sk_cp s').
Proof using Type.
  intros Hr Hm Hv Hmd Hd Hw Hi. apply does_zoom in Hd as (w' & Hd & ->).
  destruct (gated_tenant ctx t m h Hm Hv Hmd) as (c & Hc & E). rewrite E in Hd.
  eapply (scoped_does t (handle kek cfg c rq)); [by apply (handle_scoped kek cfg c (mkContext t t))| |done|done].
  rewrite <- Hr. by apply does_reply.
Qed.
Ltac kept f rq :=
  right; left; eapply (call_kept _ _ _ _ f rq); [reflexivity| |eassumption..]; by apply (bool_decide_unpack _); vm_compute.

Lemma tenant_call {A} (rp : Rpc A) ctx t i (s s' : SW) :
  is_operator rp = false → validTenant t = true → md_get (ctx_md_out ctx) MetadataKey = [t] → does (invoke rp ctx) i s s' →
  WF (w_store (sk_cp s)) → fresh_inp i (sk_cp s) →
  sk_cp s' = sk_cp s ∨ views_kept t (sk_cp s) (sk_cp s') ∨
  ∃ ctx' c, FromContext ctx' = Ok (mkContext t t) ∧
    does (server_DeleteTenant cfg bucket vespa scan_fuel ctx' c) i (sk_cp s) (sk_cp s').
Proof using Type.
  intros Hop Hv Hmd Hd Hw Hi.
  destruct rp; try discriminate; cbn in Hd.
  - kept RpTenant RqEnsureTenant.
  - kept RpInstance (RqCreate connectorId displayName configJson).
  - kept RpInstances RqList.
  - kept RpInstance (RqGet id).
  - kept (λ _ : unit, RpUnit) (RqDelete id).
  - kept RpSync (RqGetSync id).
  - kept RpSync (RqSetSync (Some st)).
  - kept (λ _ : unit, RpUnit) (RqPutToken id token).
  - kept RpPersonalization RqGetPersonalization.
  - kept RpNumber (RqPutPreferences profileJson).
  - kept RpFeedback (RqFeedback (Some ev)).
  - kept RpNumber RqResetLearning.
  - right; right. apply does_zoom in Hd as (w' & Hd & ->). 
    destruct (gated_tenant ctx t "DeleteTenant" (λ x, server_DeleteTenant cfg bucket vespa scan_fuel x confirm)) as (c & Hc & E);
      [by apply (bool_decide_unpack _); vm_compute|done|done|]. rewrite E in Hd. eauto.
  - left. by apply does_zoom in Hd as (q & _ & ->).
  - left. by apply does_zoom in Hd as (q & _ & ->).
Qed.

Lemma exchange_rest `{!Quoting} (ocfg : Config) p code uri v i (s s' : SW) :
  does (oauth_Exchange ocfg p code uri v) i s s' → sk_cp s' = sk_cp s.
Proof using Type.
  assert (Hr : ∀ A (f : Inp → Q → A * Q), sk_cp (on_rest f i s).2 = sk_cp s).
  { intros A f. unfold on_rest. by destruct (f i (sk_rest s)). }
  unfold oauth_Exchange, exchangeSlack, slackTokenRequest. destruct (String.eqb _ _).
  - destruct (oauthConfig _ _ _ _) as [[conf pc]|]; [|done]. destruct (lib_NewRequest _); [done|].
    intros [->|[[[status [body|]]|] Hd]]; [apply Hr| |done|done].
    destruct (negb _); [done|]. destruct (slack_json _); [|done]. by destruct Hd as [->|[x Hx]].
  - destruct (oauthConfig _ _ _ _) as [[conf pc]|]; [|done]. intros [->|[x Hd]]; [apply Hr|done].
Qed.

Section request.
Context `{!Folding, !Casing, !ZoneDB, !Quoting, !URLs, !CandidateJson, !Mail, !RealFuns, !MapOrder}.
Context `{!Verifier, !GatewayCodecs, !HubDeps} (d : deps) (r : HttpRequest).

Lemma erase_untouched ctx t c i w w' : FromContext ctx = Ok (mkContext t t) →
  does (server_DeleteTenant cfg bucket vespa scan_fuel ctx c) i w w' → WF (w_store w) → others_untouched t w w'.
Proof using Type.
  intros Hc Hd Hw. unfold server_DeleteTenant, callerTenant in Hd. rewrite Hc in Hd. cbn [check tenantID] in Hd.
  destruct (negb _); [done|]. by eapply cascade_untouched.
Qed.

(** What one action of serving a request may do to the control plane. *)
Inductive cp_action (i : Inp) (w w' : CW) : Prop :=
| ca_none : w' = w → cp_action i w w'
| ca_tenant claims tc : verified r claims tc → views_kept (tenantID tc) w w' → cp_action i w w'
| ca_erase claims tc ctx c :
    verified r claims tc → FromContext ctx = Ok (mkContext (tenantID tc) (tenantID tc)) →
    does (server_DeleteTenant cfg bucket vespa scan_fuel ctx c) i w w' → others_untouched (tenantID tc) w w' → cp_action i w w'
| ca_operator claims tc :
    verified r claims tc → isAdmin (Some claims) (d_oidcAudience d) = true → operator_action i w w' → cp_action i w w'
| ca_callback t : is_callback r → validTenant t = true → views_kept t w w' → cp_action i w w'.

Definition stack_action (i : Inp) (s s' : SW) : Prop :=
  WF (w_store (sk_cp s)) → fresh_inp i (sk_cp s) → cp_action i (sk_cp s) (sk_cp s').

Lemma verified_valid claims tc : verified r claims tc → validTenant (tenantID tc) = true.
Proof using Type. intros (raw & i & _ & _ & Hc). by apply FromClaims_valid in Hc. Qed.

Lemma effect_action i (s s' : SW) : effect (R := Rg) d r i s s' → stack_action i s s'.
Proof using Type.
  intros He Hw Hi. revert Hw Hi. destruct He as [i s|l i s|A rp ctx claims tc i s s' Hv Hmd Ha Hd|q i claims tc s Hv|claims tc i s rd Hv Hr|claims tc flow blob state i s Hv]; intros Hw Hi; try by apply ca_none.
  - destruct (is_operator rp) eqn:Eo; [eapply ca_operator; [exact Hv|by apply Ha|apply (operator_call rp (wire ctx)); [exact Eo|exact Hd|exact Hw]]|].
    destruct (tenant_call rp ctx (tenantID tc) i s s' Eo (verified_valid _ _ Hv) Hmd Hd Hw Hi)
      as [Hs|[Hs|(c' & c & Hc & Hs)]]; [by apply ca_none|by eapply ca_tenant|].
    eapply ca_erase; [exact Hv|exact Hc|exact Hs|]. by eapply erase_untouched.
  - apply ca_none. cbn. unfold on_rest. by destruct (rest_hub _ _ _).
Qed.

Lemma callback_action i (s s' : SW) : is_callback r → callback_effect (R := Rg) d r i s s' → stack_action i s s'.
Proof using Type.
  intros Hc He. destruct He as [i s|flow code i s s' Hd|flow blob ctx i s s' Hv Hmd Hd]; intros Hw Hi.
  - by apply ca_none.
  - apply ca_none. by eapply exchange_rest.
  - eapply ca_callback; [done|exact Hv|]. cbn in Hd.
    eapply (call_kept _ _ _ _ (λ _ : unit, RpUnit) (RqPutToken (fl_InstanceID flow) blob));
      [reflexivity| |eassumption..]. by apply (bool_decide_unpack _); vm_compute.
Qed.
End request.
End stack.

(** C3. The whole path from the network to the control plane's state: serving
    any HTTP request through the gateway's middleware, routes and handlers,
    the client interceptor, the wire, the control plane's interceptor and its
    RPC handler, every action taken in any interleaving with other traffic
    leaves the control plane alone, or leaves every tenant but the one the
    request's verified token names as it was, or is an action of that tenant's
    own erasure, which changes no row and no key of another tenant, or, for a
    token with the admin role only, is an action of SuspendTenant or
    AdminDeleteTenant, which changes no row and no key but of the one valid
    tenant the call names, or is the OAuth callback storing a token under one
    valid tenant.  Every answer carries the security headers. *)
Theorem gateway_isolation `{HD : !ControlPlane.Deps} `{HG : !GCM} {K} `{HK : !KEKProvider K} (kek : K)
    {OB V R Rg Q : Type} `{HOB : !objectAPI OB, HV : !VespaHTTP V, HRA : !RedisAPI R, HRd : !Redis Rg, HQ : !Rest Q, HO2 : !OAuth2 Q}
    (cfg : serverConfig) (bucket : string) (vespa : httpVespaPurger) (scan_fuel : nat)
    `{!Folding, !Casing, !ZoneDB, !Quoting, !URLs, !CandidateJson, !Mail, !RealFuns, !MapOrder}
    `{!Verifier, !GatewayCodecs, !HubDeps} (d : deps) (gcfg : gatewayConfig) (r : HttpRequest) :
  let U := stack_upstream kek cfg bucket vespa scan_fuel in
  acts (stack_action cfg bucket vespa scan_fuel d r) safe
    (serve_request (R := Rg) d gcfg r : prog (Stack OB V R Rg Q) Response).
Proof.
  intros U. eapply acts_mono; [|apply request_allowed].
  intros i s s' Ha. destruct Ha as [Ha|[Hc Ha]]; [by eapply effect_action|by eapply callback_action].
Qed.
