(* ===== verification/ConnectorRun.v ===== *)
(** * Connectors

    The shape of a connector of [connectors/]: a program that asks its source
    ([Q] lists the requests), emits documents, checkpoints cursors and finally
    answers.  [resolve] is the run the hub drives, with the source's answers
    given; [astep] executes the program against a source that keeps changing
    while it runs.  A loop over pages takes fuel and hangs when it runs out. *)

From stdpp Require Import base gmap strings list.
From Stdlib Require Import Ascii ZArith Lia.
From S2P Require Import Prelude GoStrings Crypto Document Kafka HubSync.

Inductive api (Q : Type → Type) (A : Type) : Type :=
| ARet (a : A)
| ACall (X : Type) (q : Q X) (k : X → api Q A)
| AEmit (doc : Document) (k : result GoErr unit → api Q A)
| ACheckpoint (cur : string) (k : result GoErr unit → api Q A)
| APanic
| AHang.
Arguments ARet {Q A} _. Arguments ACall {Q A X} _ _. Arguments AEmit {Q A} _ _.
Arguments ACheckpoint {Q A} _ _. Arguments APanic {Q A}. Arguments AHang {Q A}.

Fixpoint abind {Q A B} (m : api Q A) (f : A → api Q B) : api Q B :=
  match m with
  | ARet a => f a
  | ACall q k => ACall q (λ x, abind (k x) f)
  | AEmit doc k => AEmit doc (λ r, abind (k r) f)
  | ACheckpoint cur k => ACheckpoint cur (λ r, abind (k r) f)
  | APanic => APanic
  | AHang => AHang
  end.

(** A step that may fail ends the program with its error. *)
Definition atry {Q A B} (m : api Q (result ConnErr A)) (f : A → api Q (result ConnErr B)) : api Q (result ConnErr B) :=
  abind m (λ r, match r with Err e => ARet (Err e) | Ok a => f a end).

Definition call {Q X} (q : Q X) : api Q X := ACall q ARet.

(** An error of a callback, passed on as it is. *)
Definition passed {A} (r : result GoErr A) : result ConnErr A :=
  match r with Ok a => Ok a | Err e => Err (mkConnErr false (err_text e)) end.

Definition emit {Q} (doc : Document) : api Q (result ConnErr unit) := AEmit doc (λ r, ARet (passed r)).
Definition checkpoint {Q} (cur : string) : api Q (result ConnErr unit) := ACheckpoint cur (λ r, ARet (passed r)).

Declare Scope api_scope.
Delimit Scope api_scope with api.
Notation "'do' x := m 'in' k" := (atry m (λ x, k)) (at level 200, x pattern, m at level 100, k at level 200) : api_scope.
Notation "'ask' x := q 'in' k" := (ACall q (λ x, k)) (at level 200, x pattern, q at level 100, k at level 200) : api_scope.

(** What became of an HTTP request: it could not be built, it failed, or it was
    answered, with a body that could be read or not. *)
Inductive HttpAnswer := BadRequest (e : string) | NoAnswer (e : string) | Answered (status : Z) (body : result string bytes).

(** [io.LimitReader] read to its end. *)
Definition limited (n : Z) (l : bytes) : bytes := if (Z.of_nat (length l) <=? n)%Z then l else take (Z.to_nat n) l.

(** ** Under the hub *)

(** The source's answer to the [n]-th request. *)
Definition Oracle (Q : Type → Type) : Type := nat → ∀ X, Q X → X.

Fixpoint resolve {Q} (o : Oracle Q) (n : nat) (m : api Q (result ConnErr string)) : connRun :=
  match m with
  | ARet (Ok cur) => ConnRet cur None
  | ARet (Err e) => ConnRet "" (Some e)
  | ACall q k => resolve o (S n) (k (o n _ q))
  | AEmit doc k => ConnEmit (Some doc) (λ r, resolve o n (k r))
  | ACheckpoint cur k => ConnCheckpoint cur (λ r, resolve o n (k r))
  | APanic => ConnPanic
  | AHang => ConnHang
  end.

(** ** Against a live source

    The state of the world: the source, the document last emitted per source
    record, and the cursor last stored. *)
Record Synced (S : Type) := mkSynced { sy_source : S; sy_index : gmap string Document; sy_cursor : string }.
Arguments mkSynced {S}. Arguments sy_source {S}. Arguments sy_index {S}. Arguments sy_cursor {S}.

Section live.
Context {Q : Type → Type} {S : Type} (answer : ∀ X, Q X → Inp → S → X) (change : S → S → Prop).

Definition index_put (doc : Document) (w : Synced S) : Synced S :=
  mkSynced (sy_source w) (<[source_native_id doc := doc]> (sy_index w)) (sy_cursor w).
Definition store_cursor (cur : string) (w : Synced S) : Synced S := mkSynced (sy_source w) (sy_index w) cur.
Definition move (s : S) (w : Synced S) : Synced S := mkSynced s (sy_index w) (sy_cursor w).

(** The steps of a run.  The source changes at any time; a failed emit or
    checkpoint may have gone through. *)
Inductive astep {A} : api Q A * Synced S → api Q A * Synced S → Prop :=
| as_call X (q : Q X) k i w : astep (ACall q k, w) (k (answer X q i (sy_source w)), w)
| as_emit doc k r w : astep (AEmit doc k, w) (k r, index_put doc w)
| as_emit_lost doc k e w : astep (AEmit doc k, w) (k (Err e), w)
| as_checkpoint cur k r w : astep (ACheckpoint cur k, w) (k r, store_cursor cur w)
| as_checkpoint_lost cur k e w : astep (ACheckpoint cur k, w) (k (Err e), w)
| as_change m s w : change (sy_source w) s → astep (m, w) (m, move s w).

(** ** Reasoning about runs

    [sure I m P w]: from [w], whatever the source does, the program neither
    panics nor hangs, every world passed through satisfies [I], and [P] holds of
    the answer and the last world. *)
Fixpoint sure {A} (I : Synced S → Prop) (m : api Q A) (P : A → Synced S → Prop) (w : Synced S) : Prop :=
  ∀ s, change (sy_source w) s → let w := move s w in
  I w ∧
  match m with
  | ARet a => P a w
  | ACall q k => ∀ i, sure I (k (answer _ q i s)) P w
  | AEmit doc k => ∀ r, sure I (k r) P (index_put doc w) ∧ ((∃ e, r = Err e) → sure I (k r) P w)
  | ACheckpoint cur k => ∀ r, sure I (k r) P (store_cursor cur w) ∧ ((∃ e, r = Err e) → sure I (k r) P w)
  | APanic | AHang => False
  end.

Context `{!PreOrder change}.

Lemma move_self (w : Synced S) : move (sy_source w) w = w.
Proof using Type. by destruct w. Qed.

Lemma sure_moved {A} I (m : api Q A) P w s : change (sy_source w) s → sure I m P w → sure I m P (move s w).
Proof using PreOrder0. intros Hs Hm. destruct m; intros s' Hs'; apply Hm; by etrans. Qed.

Lemma sure_step {A} I P (x y : api Q A * Synced S) : sure I x.1 P x.2 → astep x y → sure I y.1 P y.2.
Proof using PreOrder0.
  intros Hx Hs. destruct Hs as [X q k i w|doc k r w|doc k e w|cur k r w|cur k e w|m s w Hs]; cbn [fst snd] in *;
    [..|by apply sure_moved]; destruct (Hx (sy_source w) (reflexivity _)) as [_ Hk]; rewrite move_self in Hk.
  - apply Hk.
  - apply (Hk r).
  - apply (Hk (Err e)). eauto.
  - apply (Hk r).
  - apply (Hk (Err e)). eauto.
Qed.

Lemma sure_reach {A} I (m m' : api Q A) P w w' :
  sure I m P w → star astep (m, w) (m', w') → m' ≠ APanic ∧ m' ≠ AHang ∧ I w' ∧ (∀ a, m' = ARet a → P a w').
Proof using PreOrder0.
  intros Hm Hs. apply (star_invariant astep (λ x, sure I x.1 P x.2)) in Hs; [|by intros ??; apply sure_step|done].
  destruct m' as [a| | | | |]; destruct (Hs (sy_source w') (reflexivity _)) as [Hi Hk]; cbn [snd] in Hi, Hk; rewrite move_self in Hi;
    try done; (split_and!; [done|done|exact Hi|]); intros b Hb; try discriminate. rewrite move_self in Hk. by injection Hb as <-.
Qed.

Lemma sure_bind {A B} I (m : api Q A) (f : A → api Q B) P w :
  sure I m (λ a, sure I (f a) P) w → sure I (abind m f) P w.
Proof using PreOrder0.
  revert w. induction m as [a|X q k IH|doc k IH|cur k IH| |]; intros w Hm; cbn [abind].
  - apply (sure_moved _ _ _ _ (sy_source w)) in Hm; [|done]. destruct (Hm _ (reflexivity _)) as [_ Hk].
    by rewrite !move_self in Hk.
  - intros s Hs. destruct (Hm s Hs) as [Hi Hk]. split; [done|]. intros i. apply IH, Hk.
  - intros s Hs. destruct (Hm s Hs) as [Hi Hk]. split; [done|]. intros r. destruct (Hk r) as [H1 H2]. split; [by apply IH|].
    intros He. by apply IH, H2.
  - intros s Hs. destruct (Hm s Hs) as [Hi Hk]. split; [done|]. intros r. destruct (Hk r) as [H1 H2]. split; [by apply IH|].
    intros He. by apply IH, H2.
  - exact Hm.
  - exact Hm.
Qed.

Lemma sure_mono {A} I (m : api Q A) (P P' : A → Synced S → Prop) w :
  (∀ a w, P a w → P' a w) → sure I m P w → sure I m P' w.
Proof using Type.
  intros HP. revert w. induction m as [a|X q k IH|doc k IH|cur k IH| |]; intros w Hm s Hs; destruct (Hm s Hs) as [Hi Hk];
    (split; [exact Hi|]); [by apply HP|intros i; apply IH, Hk| | |done|done];
    intros r; destruct (Hk r) as [H1 H2]; (split; [by apply IH|]); intros He; by apply IH, H2.
Qed.

(** What no change of the source breaks holds to the end. *)
Lemma sure_frame {A} I (K : S → Prop) (m : api Q A) P w :
  (∀ s s', change s s' → K s → K s') → K (sy_source w) → sure I m P w → sure I m (λ a w, P a w ∧ K (sy_source w)) w.
Proof using Type.
  intros HK. revert w. induction m as [a|X q k IH|doc k IH|cur k IH| |]; intros w Hw Hm s Hs; destruct (Hm s Hs) as [Hi Hk];
    (split; [exact Hi|]); assert (K s) by (by eapply HK); [by split|intros i; apply IH; [done|apply Hk]| | |done|done];
    intros r; destruct (Hk r) as [H1 H2]; (split; [by apply IH|]); intros He; by apply IH, H2.
Qed.

Lemma sure_try {A B} I (m : api Q (result ConnErr A)) (f : A → api Q (result ConnErr B)) P w :
  sure I m (λ r w, match r with Ok a => sure I (f a) P w | Err e => sure I (ARet (Err e)) P w end) w →
  sure I (atry m f) P w.
Proof using PreOrder0. intros Hm. apply sure_bind. eapply sure_mono; [|exact Hm]. by intros [a|e]. Qed.

(** Assertions no change of the source breaks. *)
Definition stable (J : Synced S → Prop) : Prop := ∀ w s, change (sy_source w) s → J w → J (move s w).

Lemma sure_ask {A X} I J (q : Q X) (k : X → api Q A) P w :
  stable J → (∀ w, J w → I w) → J w → (∀ w i, J w → sure I (k (answer X q i (sy_source w))) P w) → sure I (ACall q k) P w.
Proof using Type. intros HJ HI Hw Hk s Hs. pose proof (HJ w s Hs Hw) as Hw'. split; [by apply HI|]. intros i. by apply (Hk (move s w)). Qed.

Lemma sure_ret {A} I J (a : A) P w :
  stable J → (∀ w, J w → I w) → J w → (∀ w, J w → P a w) → sure I (ARet a) P w.
Proof using Type. intros HJ HI Hw HP s Hs. pose proof (HJ w s Hs Hw) as Hw'. split; [by apply HI|by apply HP]. Qed.

Lemma sure_emit I J (R : Synced S → Prop) doc w :
  stable J → (∀ w, J w → I w) → stable R → (∀ w, R w → J w) → J w →
  (∀ s, change (sy_source w) s → R (index_put doc (move s w))) →
  sure I (emit doc) (λ r w, J w ∧ (∀ a, r = Ok a → R w)) w.
Proof using PreOrder0.
  intros HJ HI HR HRJ Hw Hput s Hs. split; [by apply HI, HJ|]. intros r. split.
  - apply (sure_ret I R); [done|by intros ??; apply HI, HRJ|by apply Hput|]. intros w' Hr. split; [by apply HRJ|done].
  - intros [e ->]. apply (sure_ret I J); [done|done|by apply HJ|]. done.
Qed.

Lemma sure_checkpoint I J (R : Synced S → Prop) cur w :
  stable J → (∀ w, J w → I w) → stable R → (∀ w, R w → J w) → J w →
  (∀ s, change (sy_source w) s → R (store_cursor cur (move s w))) →
  sure I (checkpoint cur) (λ r w, J w ∧ (∀ a, r = Ok a → R w)) w.
Proof using PreOrder0.
  intros HJ HI HR HRJ Hw Hput s Hs. split; [by apply HI, HJ|]. intros r. split.
  - apply (sure_ret I R); [done|by intros ??; apply HI, HRJ|by apply Hput|]. intros w' Hr. split; [by apply HRJ|done].
  - intros [e ->]. apply (sure_ret I J); [done|done|by apply HJ|]. done.
Qed.

(** The answer of a step is asked for with an assertion that stays true. *)
Lemma sure_do {A B} I J (m : api Q (result ConnErr A)) (f : A → api Q (result ConnErr B)) (R : A → Synced S → Prop) P w :
  stable J → (∀ w, J w → I w) → (∀ e w, J w → P (Err e) w) →
  sure I m (λ r w, J w ∧ (∀ a, r = Ok a → R a w)) w → (∀ a w, J w → R a w → sure I (f a) P w) → sure I (atry m f) P w.
Proof using PreOrder0.
  intros HJ HI HE Hm Hf. apply sure_try. eapply sure_mono; [|exact Hm]. intros [a|e] w' [Hj Hr]; [by apply Hf; auto|].
  apply (sure_ret I J); auto.
Qed.

(** ** Steps that change the index only

    What a successful step brings about, told of the index alone. *)
Abbreviation surely m P w := (sure (λ _, True) m P w).
Definition ok_with {A} (R : A → gmap string Document → Prop) (r : result ConnErr A) (w : Synced S) : Prop := ∀ a, r = Ok a → R a (sy_index w).

Lemma i_ret {A} (R : A → gmap string Document → Prop) a w : R a (sy_index w) → surely (ARet (Ok a)) (ok_with R) w.
Proof using Type. intros HQ s _. split; [done|]. by intros x [= <-]. Qed.

Lemma i_fail {A} (R : A → gmap string Document → Prop) e w : surely (ARet (Err e)) (ok_with R) w.
Proof using Type. intros s _. by split. Qed.

Lemma i_ask {A X} (R : A → gmap string Document → Prop) (q : Q X) (k : X → api Q (result ConnErr A)) w :
  (∀ x w', sy_index w' = sy_index w → surely (k x) (ok_with R) w') → surely (ACall q k) (ok_with R) w.
Proof using Type. intros Hk s _. split; [done|]. intros i. by apply Hk. Qed.

Lemma i_then {A B} (R : A → gmap string Document → Prop) (R' : B → gmap string Document → Prop) (m : api Q (result ConnErr A)) f w :
  surely m (ok_with R) w → (∀ a w', R a (sy_index w') → surely (f a) (ok_with R') w') → surely (atry m f) (ok_with R') w.
Proof using PreOrder0.
  intros Hm Hf. apply sure_try. eapply sure_mono; [|exact Hm]. intros [a|e] w' Hr; [by apply Hf, Hr|apply i_fail].
Qed.

(** The same where something is known of the source that no change breaks. *)
Lemma i_then_kept {A B} (K : S → Prop) (R : A → gmap string Document → Prop) (R' : B → gmap string Document → Prop)
    (m : api Q (result ConnErr A)) f w : (∀ s s', change s s' → K s → K s') → K (sy_source w) → surely m (ok_with R) w →
  (∀ a w', K (sy_source w') → R a (sy_index w') → surely (f a) (ok_with R') w') → surely (atry m f) (ok_with R') w.
Proof using PreOrder0.
  intros HK Hw Hm Hf. apply sure_try. eapply sure_mono; [|by apply (sure_frame _ K); [..|exact Hm]].
  intros [a|e] w' [Hr Hk]; [by apply Hf, Hr|apply i_fail].
Qed.

Lemma i_emit doc w : surely (emit doc) (ok_with (λ _ : unit, eq (<[source_native_id doc := doc]> (sy_index w)))) w.
Proof using Type.
  intros s _. split; [done|]. intros r. split; intros; intros s' _; (split; [done|]); [by intros|]. match goal with H : ∃ _, _ |- _ => by destruct H as [? ->] end.
Qed.

Lemma i_checkpoint cur w : surely (checkpoint cur) (ok_with (λ _ : unit, eq (sy_index w))) w.
Proof using Type. intros s _. split; [done|]. intros r. split; intros; intros s' _; by split. Qed.

(** A request for no more than leave to go on. *)
Lemma i_ctx {B} (R : B → gmap string Document → Prop) (q : Q (result GoErr unit)) f w :
  (∀ w', sy_index w' = sy_index w → surely (f tt) (ok_with R) w') → surely (atry (ACall q (λ r, ARet (passed r))) f) (ok_with R) w.
Proof using PreOrder0.
  intros Hf. eapply (i_then (λ _, eq (sy_index w))).
  - apply i_ask. intros r w' E. destruct r as [[]|e]; [by apply i_ret|apply i_fail].
  - intros [] w' E. by apply Hf.
Qed.

(** ** Concrete runs

    Every call succeeds, every answer is the source's; before each step the
    source moves to the next state of [moves], if there is one. *)
Definition moved (moves : list S) (w : Synced S) : Synced S := match moves with [] => w | s :: _ => move s w end.

Fixpoint play {A} (i : Inp) (moves : list S) (m : api Q A) (w : Synced S) : api Q A * Synced S :=
  let w' := moved moves w in
  match m with
  | ACall q k => play i (tail moves) (k (answer _ q i (sy_source w'))) w'
  | AEmit doc k => play i (tail moves) (k (Ok tt)) (index_put doc w')
  | ACheckpoint cur k => play i (tail moves) (k (Ok tt)) (store_cursor cur w')
  | m => (m, w)
  end.

Fixpoint chain (s : S) (moves : list S) : Prop :=
  match moves with [] => True | s' :: moves' => change s s' ∧ chain s' moves' end.

Lemma play_star {A} i moves (m : api Q A) w : chain (sy_source w) moves → star astep (m, w) (play i moves m w).
Proof using Type.
  assert (Hmoved : ∀ (n : api Q A) moves w y, chain (sy_source w) moves → star astep (n, moved moves w) y → star astep (n, w) y).
  { intros n [|s l] v y; [done|]. cbn. intros [Hs _]. by apply star_step, as_change. }
  assert (Htail : ∀ moves w, chain (sy_source w) moves → chain (sy_source (moved moves w)) (tail moves)).
  { intros [|s l] v; [done|]. by intros [_ ?]. }
  revert moves w. induction m as [a|X q k IH|doc k IH|cur k IH| |]; intros moves w Hc; cbn [play]; try apply star_refl;
    apply (Hmoved _ moves); [done| |done| |done|]; (eapply star_step; [constructor|]); apply IH; by apply Htail.
Qed.
End live.

Arguments i_then {Q S answer change PreOrder0 A B} R R' m f w _ _.
Arguments i_then_kept {Q S answer change PreOrder0 A B} K R R' m f w _ _ _ _.
Arguments i_ctx {Q S answer change PreOrder0 B} R q f w _.
