(* ===== verification/HtmlText.v ===== *)
(** * HTML to text

    Models [stripHTML] of the connectors: the same function in
    [connectors/gmail/message.go], [connectors/outlook-mail/message.go],
    [connectors/outlook-cal/event.go], [connectors/msteams/message.go] and,
    after a check for plain text, [connectors/gcal/event.go].  It slices the
    text with positions found in its lower-cased copy; a slice out of range
    panics, which is [None] here. *)

From stdpp Require Import base strings list.
From Stdlib Require Import Ascii ZArith Lia.
From S2P Require Import Prelude GoStrings GoText GoEncode.

Open Scope nat_scope.

(** [s[:n]] and [s[n:]] *)
Definition slice_to (n : nat) (s : string) : option string := if n <=? String.length s then Some (take_str n s) else None.
Definition slice_from (n : nat) (s : string) : option string := if n <=? String.length s then Some (drop_str n s) else None.

Definition blockTags : list string :=
  ["br"; "p"; "div"; "li"; "ul"; "ol"; "tr"; "table"; "h1"; "h2"; "h3"; "h4"; "h5"; "h6"; "blockquote"].

Section html.
Context `{!Casing, !HtmlEntities}.

(** One round of the loop over [<script>] or [<style>] blocks: done, or what is
    left of both texts. *)
Inductive block_step := BlockDone (s lower : string) | BlockCut (s lower : string).

Definition drop_block (blocked s lower : string) : option block_step :=
  match Index lower ("<" +:+ blocked) with
  | None => Some (BlockDone s lower)
  | Some start =>
    match Index (drop_str start lower) ("</" +:+ blocked +:+ ">") with
    | None => s' ← slice_to start s; Some (BlockDone s' (take_str start lower))
    | Some end_ =>
      let cut := start + end_ + String.length ("</" +:+ blocked +:+ ">") in
      a ← slice_to start s; b ← slice_from cut s;
      Some (BlockCut (a +:+ b) (take_str start lower +:+ drop_str cut lower))
    end
  end.

(** Every round shortens the lower-cased text: [S (length lower)] rounds are
    enough. *)
Fixpoint drop_blocks (fuel : nat) (blocked s lower : string) : option (string * string) :=
  match fuel with
  | O => Some (s, lower)
  | S n =>
    r ← drop_block blocked s lower;
    match r with
    | BlockDone s' lower' => Some (s', lower')
    | BlockCut s' lower' => drop_blocks n blocked s' lower'
    end
  end.

Definition tag_text (inner : string) : string :=
  match Fields inner with
  | f :: _ => if existsb (String.eqb (ToLower (Trim f "/"))) blockTags then String "010" "" else ""
  | [] => ""
  end.

(** The text between the tags; every round drops a tag. *)
Fixpoint strip_tags (fuel : nat) (s : string) : string :=
  match fuel with
  | O => s
  | S n =>
    match IndexByte s "<" with
    | None => s
    | Some open_ =>
      let rest := drop_str open_ s in
      match IndexByte rest ">" with
      | None => take_str open_ s
      | Some close_ =>
        take_str open_ s +:+ tag_text (take_str (close_ - 1) (drop_str 1 rest)) +:+ strip_tags n (drop_str (close_ + 1) rest)
      end
    end
  end.

Definition tidy_lines (text : string) : string :=
  Join (List.filter (λ l, negb (String.eqb l "")) (TrimSpace <$> Split text "010")) (String "010" "").

Definition stripHTML (s : string) : option string :=
  '(s, lower) ← drop_blocks (S (String.length (ToLower s))) "script" s (ToLower s);
  '(s, lower) ← drop_blocks (S (String.length lower)) "style" s lower;
  Some (tidy_lines (UnescapeString (strip_tags (S (String.length s)) s))).
End html.

(** ** Lemmas *)
Lemma is_prefix_length p l : is_prefix p l = true → length p ≤ length l.
Proof. revert l. induction p as [|a p IH]; intros [|b l]; cbn; try done; [lia|]. intros [_ H]%andb_prop. apply IH in H. lia. Qed.

Lemma index_bytes_bound sub l i : index_bytes sub l = Some i → i + length sub ≤ length l.
Proof.
  revert i. induction l as [|a l IH]; intros i.
  - cbn. destruct sub; [|done]. by intros [= <-].
  - cbn [index_bytes]. destruct (is_prefix sub (a :: l)) eqn:E.
    + intros [= <-]. by apply is_prefix_length in E.
    + destruct (index_bytes sub l) as [j|] eqn:Ej; [|done]. intros [= <-]. specialize (IH j eq_refl). cbn. lia.
Qed.

Lemma Index_bound s sub i : Index s sub = Some i → i + String.length sub ≤ String.length s.
Proof. unfold Index. intros H%index_bytes_bound. by rewrite !length_to_bytes in H. Qed.

Lemma length_append (s t : string) : String.length (s +:+ t) = String.length s + String.length t.
Proof. rewrite <- !length_to_bytes, to_bytes_app. apply length_app. Qed.

(** ** What follows the blocks

    Of a lower-cased text: the next block is absent, unclosed from a position
    on, or closed, with what is left of the text without it and how many bytes
    follow it. *)
Inductive shed_step := ShedDone | ShedOpen (start : nat) | ShedBlock (rest : string) (tail : nat).

Definition shed_block (blocked lower : string) : shed_step :=
  match Index lower ("<" +:+ blocked) with
  | None => ShedDone
  | Some start =>
    match Index (drop_str start lower) ("</" +:+ blocked +:+ ">") with
    | None => ShedOpen start
    | Some end_ =>
      let after := drop_str (start + end_ + String.length ("</" +:+ blocked +:+ ">")) lower in
      ShedBlock (take_str start lower +:+ after) (String.length after)
    end
  end.

(** The bytes after every block, what is left, and whether an unclosed block
    ended the text; an unclosed block counts the bytes from its tag on. *)
Fixpoint shed (fuel : nat) (blocked lower : string) : list nat * string * bool :=
  match fuel with
  | O => ([], lower, false)
  | S n =>
    match shed_block blocked lower with
    | ShedDone => ([], lower, false)
    | ShedOpen start => ([String.length lower - start], take_str start lower, true)
    | ShedBlock rest tail => let '(tails, rest', open_) := shed n blocked rest in (tail :: tails, rest', open_)
    end
  end.

(** Script blocks, then style blocks.  After an unclosed script block the text
    and its copy end at one position, and nothing can be out of range. *)
Definition block_tails (lower : string) : list nat :=
  let '(tails, rest, open_) := shed (S (String.length lower)) "script" lower in
  tails ++ (if open_ then [] else (shed (S (String.length rest)) "style" rest).1.1).

(** Lower-casing lengthens the text by no more than follows every block. *)
Definition room_for_cuts `{!Casing} (s : string) : Prop :=
  Forall (λ n, String.length (ToLower s) ≤ String.length s + n) (block_tails (ToLower s)).

(** ** A text that panics *)
Fixpoint times (n : nat) (s : string) : string := match n with O => "" | S n' => s +:+ times n' s end.

(** U+023A, two bytes long, and its lower case U+2C65, three bytes long. *)
Definition wide_capital : string := String "200" (String "186" "").
Definition wide_small : string := String "226" (String "177" (String "165" "")).

Definition wide_text : string := times 20 wide_capital +:+ "<style".
Definition wide_lower : string := times 20 wide_small +:+ "<style".

Section lemmas.
Context `{!Casing, !HtmlEntities}.

(** Beside a lower-cased copy that is [d] bytes longer, a round stays in range
    when [d] is no more than what follows the block, and keeps the difference
    unless it cuts both texts at one position. *)
Lemma drop_block_room blocked s lower :
  match shed_block blocked lower with
  | ShedDone => drop_block blocked s lower = Some (BlockDone s lower)
  | ShedOpen start =>
    String.length (take_str start lower) = start ∧
    if start <=? String.length s then drop_block blocked s lower = Some (BlockDone (take_str start s) (take_str start lower))
    else drop_block blocked s lower = None
  | ShedBlock rest tail =>
    tail ≤ String.length rest ∧ String.length rest < String.length lower ∧
    if String.length lower <=? String.length s + tail
    then ∃ s', drop_block blocked s lower = Some (BlockCut s' rest) ∧
      (Z.of_nat (String.length rest) - Z.of_nat (String.length s') = Z.of_nat (String.length lower) - Z.of_nat (String.length s))%Z
    else drop_block blocked s lower = None
  end.
Proof using Type.
  unfold shed_block, drop_block. destruct (Index lower _) as [start|] eqn:Es; [|done].
  apply Index_bound in Es. rewrite length_append in Es. cbn [String.length] in Es.
  destruct (Index (drop_str start lower) _) as [e|] eqn:Ee.
  - apply Index_bound in Ee. rewrite length_drop_str in Ee.
    set (n := String.length ("</" +:+ blocked +:+ ">")) in *. assert (Hn : 0 < n) by (unfold n; rewrite length_append; cbn; lia).
    rewrite !length_append, length_take_str, !length_drop_str. split; [lia|]. split; [lia|]. unfold slice_to, slice_from.
    destruct (Nat.leb_spec (String.length lower) (String.length s + (String.length lower - (start + e + n)))).
    + destruct (Nat.leb_spec start (String.length s)); [|lia]. destruct (Nat.leb_spec (start + e + n) (String.length s)); [|lia].
      cbn. eexists. split; [done|]. rewrite !length_append, !length_take_str, !length_drop_str. lia.
    + destruct (Nat.leb_spec (start + e + n) (String.length s)); [lia|]. by destruct (Nat.leb start (String.length s)).
  - rewrite length_take_str. split; [lia|]. unfold slice_to. by destruct (Nat.leb start (String.length s)).
Qed.

Lemma drop_blocks_room fuel blocked s lower :
  String.length lower < fuel →
  match shed fuel blocked lower with
  | (tails, rest, open_) =>
    (Exists (λ n, String.length s + n < String.length lower) tails ∧ drop_blocks fuel blocked s lower = None) ∨
    (Forall (λ n, String.length lower ≤ String.length s + n) tails ∧
     ∃ s', drop_blocks fuel blocked s lower = Some (s', rest) ∧
       if open_ : bool then String.length s' = String.length rest
       else (Z.of_nat (String.length rest) - Z.of_nat (String.length s') = Z.of_nat (String.length lower) - Z.of_nat (String.length s))%Z)
  end.
Proof using Type.
  revert s lower. induction fuel as [|f IH]; intros s lower Hf; [lia|]. cbn [shed drop_blocks].
  pose proof (drop_block_room blocked s lower) as Hr. destruct (shed_block blocked lower) as [|start|rest tail].
  - rewrite Hr. right. split; [constructor|]. by exists s.
  - destruct Hr as [Hlen Hr]. assert (start ≤ String.length lower) by (rewrite length_take_str in Hlen; lia).
    destruct (Nat.leb_spec start (String.length s)); rewrite Hr; cbn.
    + right. split; [constructor; [lia|constructor]|]. eexists. split; [done|]. rewrite !length_take_str. lia.
    + left. split; [|done]. left. lia.
  - destruct Hr as (Ht & Hl & Hr). destruct (Nat.leb_spec (String.length lower) (String.length s + tail)).
    + destruct Hr as (s' & -> & Hd). cbn. specialize (IH s' rest ltac:(lia)). destruct (shed f blocked rest) as [[tails rest'] open_].
      destruct IH as [[He Hn]|(Ha & s2 & Hn & Hk)].
      * left. split; [|done]. right. eapply Exists_impl; [exact He|]. cbn. lia.
      * right. split; [constructor; [done|]; eapply Forall_impl; [exact Ha|]; cbn; lia|]. exists s2. split; [done|].
        destruct open_; [done|lia].
    + rewrite Hr. destruct (shed f blocked rest) as [[? ?] ?]. left. split; [left; lia|done].
Qed.

(** Both ways of one question. *)
Lemma stripHTML_cases s :
  (Exists (λ n, String.length s + n < String.length (ToLower s)) (block_tails (ToLower s)) ∧ stripHTML s = None) ∨
  (Forall (λ n, String.length (ToLower s) ≤ String.length s + n) (block_tails (ToLower s)) ∧ is_Some (stripHTML s)).
Proof using Type.
  unfold block_tails, stripHTML. set (lower := ToLower s).
  pose proof (drop_blocks_room (S (String.length lower)) "script" s lower ltac:(lia)) as H1.
  destruct (shed _ "script" lower) as [[t1 l1] open_]. destruct H1 as [[He ->]|(Ha & s1 & -> & Hk)].
  - left. split; [|done]. apply Exists_app. by left.
  - cbn [mbind option_bind]. pose proof (drop_blocks_room (S (String.length l1)) "style" s1 l1 ltac:(lia)) as H2.
    destruct (shed _ "style" l1) as [[t2 l2] open2]. destruct open_.
    + rewrite app_nil_r. right. split; [done|]. destruct H2 as [[He _]|(_ & s2 & -> & _)]; [|by eexists].
      apply Exists_exists in He as (n & _ & Hn). lia.
    + cbn [fst]. destruct H2 as [[He ->]|(Hb & s2 & -> & _)].
      * left. split; [|done]. apply Exists_app. right. eapply Exists_impl; [exact He|]. cbn. lia.
      * right. split; [|by eexists]. apply Forall_app. split; [done|]. eapply Forall_impl; [exact Hb|]. cbn. lia.
Qed.

(** Lower-casing that leaves room keeps [stripHTML] in range. *)
Lemma stripHTML_safe s : room_for_cuts s → is_Some (stripHTML s).
Proof using Type.
  unfold room_for_cuts. intros Hr. destruct (stripHTML_cases s) as [[He _]|[_ Hs]]; [|done].
  apply Exists_exists in He as (n & Hn & Hl). rewrite Forall_forall in Hr. specialize (Hr n Hn). lia.
Qed.

(** Texts with room: those no longer in lower case, and those without a block. *)
Lemma room_not_longer s : String.length (ToLower s) ≤ String.length s → room_for_cuts s.
Proof using Type. intros Hl. apply Forall_true. intros n. lia. Qed.

Lemma room_without_blocks s :
  Index (ToLower s) "<script" = None → Index (ToLower s) "<style" = None → room_for_cuts s.
Proof using Type.
  intros H1 H2. unfold room_for_cuts, block_tails. cbn [shed]. unfold shed_block. change ("<" +:+ "script") with "<script". rewrite H1.
  cbn [fst snd shed]. unfold shed_block. change ("<" +:+ "style") with "<style". rewrite H2. constructor.
Qed.

(** C40. When stripping HTML crashes the process.  [stripHTML] cuts the text at
    positions found in its lower-cased copy.  It panics exactly when lower-casing
    lengthens the text by more bytes than follow one of the script and style
    blocks it drops (for an unclosed block: than there are from its tag on);
    on every other text, so on every text that lower-casing does not lengthen
    and on every text without such a block, it returns. *)
Theorem stripHTML_panics_exactly s :
  stripHTML s = None ↔
  Exists (λ n, String.length s + n < String.length (ToLower s)) (block_tails (ToLower s)).
Proof using Type.
  destruct (stripHTML_cases s) as [[He ->]|[Ha [t ->]]]; [done|]. split; [done|]. intros He.
  apply Exists_exists in He as (n & Hn & Hl). rewrite Forall_forall in Ha. specialize (Ha n Hn). lia.
Qed.

(** Where lower-casing follows Unicode. *)
Lemma stripHTML_panics : ToLower wide_text = wide_lower → stripHTML wide_text = None.
Proof using Type. intros Hl. unfold stripHTML. rewrite Hl. vm_compute. reflexivity. Qed.

End lemmas.
