(* ===== verification/Gmail.v ===== *)
(** * The Gmail connector

    Models [connectors/gmail]: configuration (gmail.go), cursors (cursor.go),
    messages as documents (message.go), full and incremental sync (sync.go)
    and push notifications (webhook.go), over the Gmail API as a source.  A nil
    pointer the API's JSON can hold is [None]; following one panics, and a
    function that may panic answers [None] then.  Logs are left out. *)

From stdpp Require Import base gmap strings list sorting.
From Stdlib Require Import Ascii ZArith Lia Sorting.Sorted.
From S2P Require Import Prelude GoStrings Tenancy Crypto Blob ControlPlane Document Kafka GoTime HubSync GoText GoEncode ConnectorRun HtmlText.

Open Scope Z_scope.

Definition connectorID : string := "gmail".
Definition maxWebhookBody : nat := Z.to_nat (2 ^ 20).

(** ** The API's messages *)
Inductive MessagePart := mkPart {
  mp_MimeType : string; mp_Headers : list (option (string * string)); mp_Data : option string;
  mp_Parts : list (option MessagePart)
}.

Record Message := mkMessage {
  ms_Id : string; ms_ThreadId : string; ms_LabelIds : list string; ms_HistoryId : Z; ms_InternalDate : Z;
  ms_Payload : option MessagePart
}.

(** A list entry's message: its id, [None] when it is nil. *)
Record History := mkHistory {
  hi_Id : Z; hi_Deleted : list (option (option string)); hi_Added : list (option (option string))
}.

Record ApiErr := mkApiErr { ae_404 : bool; ae_text : string }.
Definition isNotFound (e : ApiErr) : bool := ae_404 e.

(** The requests the connector makes, and what it reads besides. *)
Inductive GmailReq : Type → Type :=
| NewService : GmailReq (result string unit)
| GetProfile : GmailReq (result ApiErr (string * Z))
| ListOne : GmailReq (result ApiErr unit)
| ListMessages (pageToken : string) : GmailReq (result ApiErr (list (option string) * string))
| GetMessage (id : string) : GmailReq (result ApiErr Message)
| ListHistory (start : Z) (pageToken : string) : GmailReq (result ApiErr (list (option History) * Z * string))
| ProbeHistory : GmailReq (result ApiErr Z)
| Watch (pushURL : string) : GmailReq (result ApiErr unit)
| CheckCtx : GmailReq (result GoErr unit)
| TimeNow : GmailReq Z.

(** ** cursor.go *)
Definition cursorPrefix : string := "history:".
Definition cursorPageSep : string := "|page:".

(** The page token of a mid-backfill cursor. *)
Record cursorState := mkCursor { cs_historyID : Z; cs_page : option string }.

Definition incrementalCursor (historyID : Z) : string := cursorPrefix +:+ FormatUint historyID.
Definition backfillCursor (historyID : Z) (pageToken : string) : string :=
  cursorPrefix +:+ FormatUint historyID +:+ cursorPageSep +:+ pageToken.

(** The error of [strconv.ParseUint]. *)
Definition uint_error `{!Quoting} (s : string) : string :=
  "strconv.ParseUint: parsing " +:+ Quote s +:+ ": " +:+
  (if bool_decide (s = "") || negb (forallb is_digit (to_bytes s)) then "invalid syntax" else "value out of range").

Definition parseCursor `{!Quoting} (s : string) : result string cursorState :=
  match CutPrefix s cursorPrefix with
  | None => Err ("gmail: cursor " +:+ Quote s +:+ " does not start with " +:+ Quote cursorPrefix)
  | Some rest =>
    let '(rest, page) := match Cut rest cursorPageSep with Some (i, t) => (i, Some t) | None => (rest, None) end in
    if bool_decide (page = Some "") then Err ("gmail: backfill cursor " +:+ Quote s +:+ " has an empty page token")
    else match ParseUint rest with
    | None => Err ("gmail: cursor " +:+ Quote s +:+ " has a malformed history id: " +:+ uint_error rest)
    | Some id => Ok (mkCursor id page)
    end
  end.

(** ** message.go *)
Definition noSubjectTitle : string := "(no subject)".

Fixpoint header_in `{!Folding} (hs : list (option (string * string))) (name : string) : option string :=
  match hs with
  | [] => Some ""
  | None :: _ => None
  | Some (n, v) :: hs' => if fold_eq n name then Some v else header_in hs' name
  end.

Definition headerValue `{!Folding} (payload : option MessagePart) (name : string) : option string :=
  match payload with None => Some "" | Some p => header_in (mp_Headers p) name end.

(** The parts [walkParts] visits, in order. *)
Fixpoint walkParts (p : MessagePart) : list MessagePart :=
  match p with
  | mkPart mt hs data parts =>
    p :: (fix go l := match l with [] => [] | None :: l' => go l' | Some c :: l' => walkParts c ++ go l' end) parts
  end.

Definition base64Codecs : list Encoding := [RawURLEncoding; URLEncoding; StdEncoding; RawStdEncoding].

Fixpoint decode_with (encs : list Encoding) (s : string) : option bytes :=
  match encs with
  | [] => None
  | e :: encs' => match DecodeString e s with Some b => Some b | None => decode_with encs' s end
  end.

Definition decodeBase64 (s : string) : option bytes := decode_with base64Codecs s.

Section message.
Context `{!Casing, !Folding, !HtmlEntities, !Mail, !Deps} (sha256 : bytes → bytes).

(** One part's text: plain or HTML. *)
Definition part_text (p : MessagePart) : option (list string * list string) :=
  match mp_Data p with
  | None | Some "" => Some ([], [])
  | Some data =>
    let mt := ToLower (mp_MimeType p) in
    if HasPrefix mt "text/plain" then
      Some (match decodeBase64 data with Some b => ([of_bytes b], []) | None => ([], []) end)
    else if HasPrefix mt "text/html" then
      match decodeBase64 data with
      | Some b => t ← stripHTML (of_bytes b); Some ([], [t])
      | None => Some ([], [])
      end
    else Some ([], [])
  end.

Definition extractBody (payload : option MessagePart) : option string :=
  texts ← mapM part_text (match payload with None => [] | Some p => walkParts p end);
  let plains := concat texts.*1 in
  let htmls := concat texts.*2 in
  let sep := String "010" (String "010" "") in
  Some (match plains with [] => TrimSpace (Join htmls sep) | _ => TrimSpace (Join plains sep) end).

Definition header_people (payload : option MessagePart) (header role : string) : option (list Participant) :=
  v ← headerValue payload header;
  let raw := TrimSpace v in
  Some (if String.eqb raw "" then []
        else match ParseAddressList raw with
        | None => [mkParticipant raw "" "" role]
        | Some addrs => (λ a, mkParticipant a.1 a.2 "" role) <$> addrs
        end).

Definition gmail_participants (payload : option MessagePart) : option (list Participant) :=
  from ← header_people payload "From" "from"; to ← header_people payload "To" "to"; cc ← header_people payload "Cc" "cc";
  Some (from ++ to ++ cc).

Definition hasLabel (labelIds : list string) (label : string) : bool := existsb (String.eqb label) labelIds.

Definition put (k v : string) (md : gmap string string) : gmap string string :=
  if String.eqb v "" then md else <[k := v]> md.

Definition gmail_metadata (msg : Message) : option (gmap string string) :=
  from ← headerValue (ms_Payload msg) "From"; to ← headerValue (ms_Payload msg) "To";
  let md := put "web_link" ("https://mail.google.com/mail/u/0/#all/" +:+ ms_Id msg)
    (put "message_id" (ms_Id msg) (put "thread_id" (ms_ThreadId msg) (put "to" to (put "from" from ∅)))) in
  let md := if hasLabel (ms_LabelIds msg) "UNREAD" then put "unread" "true" md else md in
  Some (if hasLabel (ms_LabelIds msg) "IMPORTANT" then put "important" "true" md else md).

Definition millisecond : Z := 1000000.

Definition messageDocument (tenant : string) (msg : Message) : option (result string Document) :=
  if String.eqb (ms_Id msg) "" then Some (Err "gmail: messages.get returned a message without an id")
  else
    subject ← headerValue (ms_Payload msg) "Subject";
    let title := if String.eqb (TrimSpace subject) "" then noSubjectTitle else subject in
    body ← extractBody (ms_Payload msg);
    let etag := if ms_HistoryId msg =? 0 then EncodeToString (sha256 (to_bytes body)) else FormatUint (ms_HistoryId msg) in
    people ← gmail_participants (ms_Payload msg);
    md ← gmail_metadata msg;
    let ts := if 0 <? ms_InternalDate msg
      then Some (mkTimestamps (Some (ts_New (ms_InternalDate msg * millisecond))) None None) else None in
    Some (Ok (mkDoc tenant (DocID sha256 connectorID (ms_Id msg)) connectorID (ms_Id msg) EMAIL title body [] md people ts
      None None etag None None)).

Definition tombstoneDocument (tenant msgID : string) (historyID now : Z) : Document :=
  mkDoc tenant (DocID sha256 connectorID msgID) connectorID msgID EMAIL "" "" [] ∅ [] None None None (FormatUint historyID)
    (Some (mkTombstone true (Some (ts_New now)))) None.
End message.

(** ** Folding history *)
Inductive changeKind := changeAdded | changeDeleted.

Record lastChange := mkLast { lc_msgID : string; lc_kind : changeKind; lc_historyID : Z; lc_seq : Z }.

(** The events of a record: deletions first. *)
Definition record_events (r : History) : option (list (string * changeKind * Z)) :=
  let events kind l := m ← mapM id l; Some (omap (λ x, (λ i, (i, kind, hi_Id r)) <$> x) m) in
  d ← events changeDeleted (hi_Deleted r); a ← events changeAdded (hi_Added r); Some (d ++ a).

(** [note]: the last change of a message, updated in place or appended. *)
Fixpoint set_change (c : lastChange) (l : list lastChange) : list lastChange :=
  match l with
  | [] => [c]
  | x :: l' => if String.eqb (lc_msgID x) (lc_msgID c) then c :: l' else x :: set_change c l'
  end.

Definition note (st : Z * list lastChange) (e : string * changeKind * Z) : Z * list lastChange :=
  let '(msgID, kind, historyID) := e in
  if String.eqb msgID "" then st
  else (st.1 + 1, set_change (mkLast msgID kind historyID (st.1 + 1)) st.2).

Definition foldHistory (records : list (option History)) : option (list lastChange) :=
  recs ← mapM id records;
  events ← mapM record_events (sort_by (λ a b, hi_Id a <=? hi_Id b) recs);
  Some (sort_by (λ a b, lc_seq a <=? lc_seq b) (foldl note (0, []) (concat events)).2).

(** ** gmail.go *)
Record instanceConfig := mkGmailConfig { gc_BaseURL : string; gc_UserEmail : string; gc_WebhookURL : string }.

(** [json.Unmarshal] of a configuration, of a push envelope (its message.data)
    and of a notification (mailbox and history id). *)
Class GmailJson := {
  config_json : string → result string instanceConfig;
  envelope_json : bytes → result string string;
  notification_json : bytes → result string (string * Z)
}.

Section sync.
Context `{!Casing, !Folding, !HtmlEntities, !Mail, !Deps, !Quoting, !URLs, !GmailJson} (sha256 : bytes → bytes).

Definition parseConfig (raw : string) : result string instanceConfig :=
  if String.eqb raw "" then Err "gmail: config is empty; user_email is required"
  else match config_json raw with
  | Err e => Err ("gmail: config is not valid JSON: " +:+ e)
  | Ok conf =>
    let conf := mkGmailConfig (gc_BaseURL conf) (TrimSpace (gc_UserEmail conf)) (gc_WebhookURL conf) in
    if String.eqb (gc_UserEmail conf) "" then Err "gmail: config field user_email is required"
    else if String.eqb (gc_BaseURL conf) "" then Ok conf
    else match url_Parse (gc_BaseURL conf) with
    | Some (scheme, host) =>
      if negb (String.eqb host "") && (String.eqb scheme "http" || String.eqb scheme "https") then Ok conf
      else Err ("gmail: config field base_url " +:+ Quote (gc_BaseURL conf) +:+ " is not a valid http(s) URL")
    | None => Err ("gmail: config field base_url " +:+ Quote (gc_BaseURL conf) +:+ " is not a valid http(s) URL")
    end
  end.

Abbreviation gmail A := (api GmailReq A).
Open Scope api_scope.

(** An error of the connector's own. *)
Definition fail {A} (msg : string) : gmail (result ConnErr A) := ARet (Err (mkConnErr false msg)).

Definition config (cfg : Config) : gmail (result ConnErr instanceConfig) :=
  match parseConfig (c_config_json cfg) with Err e => fail e | Ok conf => ARet (Ok conf) end.

Definition service : gmail (result ConnErr unit) :=
  ask r := NewService in match r with Err e => fail ("gmail: build API client: " +:+ e) | Ok _ => ARet (Ok tt) end.

Definition check_ctx : gmail (result ConnErr unit) := ask r := CheckCtx in ARet (passed r).

Definition Validate (cfg : Config) : gmail (result ConnErr unit) :=
  do conf := config cfg in
  if String.eqb (default "" (c_token cfg)) "" then ARet (Ok tt)
  else
    do _ := service in
    ask r := GetProfile in
    match r with
    | Ok (email, _) =>
      if negb (String.eqb email "") && negb (fold_eq email (gc_UserEmail conf))
      then fail ("gmail: token authenticates mailbox " +:+ Quote email +:+ " but config user_email is " +:+ Quote (gc_UserEmail conf))
      else ARet (Ok tt)
    | Err e =>
      if isNotFound e then
        ask l := ListOne in
        match l with Err e => fail ("gmail: credential check failed: " +:+ ae_text e) | Ok _ => ARet (Ok tt) end
      else fail ("gmail: credential check failed: " +:+ ae_text e)
    end.

Definition currentHistoryID : gmail (result ConnErr Z) :=
  ask r := GetProfile in
  match r with
  | Ok (_, h) => ARet (Ok h)
  | Err e =>
    if negb (isNotFound e) then fail ("gmail: users.getProfile: " +:+ ae_text e)
    else
      ask p := ProbeHistory in
      match p with
      | Err e => fail ("gmail: users.getProfile returned 404 and the history.list probe failed: " +:+ ae_text e)
      | Ok h => ARet (Ok h)
      end
  end.

(** ** sync.go *)

(** A message fetched and emitted. *)
Definition emit_message (tenant : string) (msg : Message) : gmail (result ConnErr unit) :=
  match messageDocument sha256 tenant msg with
  | None => APanic
  | Some (Err e) => fail e
  | Some (Ok doc) => emit doc
  end.

Fixpoint backfill_page (tenant : string) (refs : list (option string)) : gmail (result ConnErr unit) :=
  match refs with
  | [] => ARet (Ok tt)
  | None :: _ => APanic
  | Some id :: refs' =>
    ask r := GetMessage id in
    match r with
    | Err e =>
      if isNotFound e then backfill_page tenant refs'
      else fail ("gmail: messages.get " +:+ id +:+ ": " +:+ ae_text e)
    | Ok msg => do _ := emit_message tenant msg in backfill_page tenant refs'
    end
  end.

Definition registerWatch (conf : instanceConfig) : gmail (result ConnErr unit) :=
  if String.eqb (gc_WebhookURL conf) "" then ARet (Ok tt)
  else ask _ := Watch (gc_WebhookURL conf) in ARet (Ok tt).

(** [fuel] bounds the pages. *)
Fixpoint backfill (fuel : nat) (tenant : string) (conf : instanceConfig) (historyID : Z) (pageToken : string) :
    gmail (result ConnErr string) :=
  match fuel with
  | O => AHang
  | S n =>
    do _ := check_ctx in
    ask r := ListMessages pageToken in
    match r with
    | Err e => fail ("gmail: messages.list: " +:+ ae_text e)
    | Ok (refs, next) =>
      do _ := backfill_page tenant refs in
      if String.eqb next "" then
        let cur := incrementalCursor historyID in
        do _ := checkpoint cur in
        do _ := registerWatch conf in
        ARet (Ok cur)
      else
        do _ := checkpoint (backfillCursor historyID next) in
        backfill n tenant conf historyID next
    end
  end.

Definition gmail_FullSync (fuel : nat) (cfg : Config) : gmail (result ConnErr string) :=
  do conf := config cfg in
  do _ := service in
  do historyID := currentHistoryID in
  backfill fuel (tenantID (c_tenant cfg)) conf historyID "".

Definition expired_err (msg : string) : ConnErr :=
  mkConnErr true (msg +:+ ": sdk: sync cursor expired at the source").

Fixpoint history_pages (fuel : nat) (startID : Z) (records : list (option History)) (currentID : Z) (pageToken : string) :
    gmail (result ConnErr (list (option History) * Z)) :=
  match fuel with
  | O => AHang
  | S n =>
    do _ := check_ctx in
    ask r := ListHistory startID pageToken in
    match r with
    | Err e =>
      if isNotFound e
      then ARet (Err (expired_err ("gmail: history.list startHistoryId=" +:+ FormatUint startID +:+ " returned 404 (" +:+
             ae_text e +:+ ")")))
      else fail ("gmail: history.list: " +:+ ae_text e)
    | Ok (recs, historyID, next) =>
      let records := records ++ recs in
      let currentID := if currentID <? historyID then historyID else currentID in
      if String.eqb next "" then ARet (Ok (records, currentID))
      else history_pages n startID records currentID next
    end
  end.

Definition emit_tombstone (tenant msgID : string) (historyID : Z) : gmail (result ConnErr unit) :=
  ask now := TimeNow in emit (tombstoneDocument sha256 tenant msgID historyID now).

(** One change, emitted as the mailbox has it. *)
Definition replay_change (tenant : string) (currentID : Z) (ch : lastChange) : gmail (result ConnErr unit) :=
  match lc_kind ch with
  | changeDeleted => emit_tombstone tenant (lc_msgID ch) (lc_historyID ch)
  | changeAdded =>
    ask r := GetMessage (lc_msgID ch) in
    match r with
    | Err e =>
      if isNotFound e then emit_tombstone tenant (lc_msgID ch) currentID
      else fail ("gmail: messages.get " +:+ lc_msgID ch +:+ ": " +:+ ae_text e)
    | Ok msg => emit_message tenant msg
    end
  end.

Fixpoint replay_changes (tenant : string) (currentID : Z) (changes : list lastChange) : gmail (result ConnErr unit) :=
  match changes with
  | [] => ARet (Ok tt)
  | ch :: changes' =>
    do _ := check_ctx in
    do _ := replay_change tenant currentID ch in
    replay_changes tenant currentID changes'
  end.

Definition replayHistory (fuel : nat) (tenant : string) (startID : Z) : gmail (result ConnErr string) :=
  do x := history_pages fuel startID [] startID "" in
  match foldHistory x.1 with
  | None => APanic
  | Some changes => do _ := replay_changes tenant x.2 changes in ARet (Ok (incrementalCursor x.2))
  end.

Definition gmail_IncrementalSync (fuel : nat) (cfg : Config) (cur : string) : gmail (result ConnErr string) :=
  do conf := config cfg in
  match parseCursor cur with
  | Err e => ARet (Err (expired_err e))
  | Ok st =>
    do _ := service in
    match cs_page st with
    | Some page => backfill fuel (tenantID (c_tenant cfg)) conf (cs_historyID st) page
    | None => replayHistory fuel (tenantID (c_tenant cfg)) (cs_historyID st)
    end
  end.

(** The connector as the hub runs it, given the source's answers. *)
Definition gmail_connector (fuel : nat) (o : Oracle GmailReq) : Connector :=
  mkConnector (λ cfg, resolve o 0 (gmail_FullSync fuel cfg)) (λ cfg cur, resolve o 0 (gmail_IncrementalSync fuel cfg cur)).

(** ** webhook.go *)

(** The body as it is read, or why it could not be. *)
Definition gmail_HandleWebhook (cfg : Config) (body : result string bytes) : result string unit :=
  let? conf := parseConfig (c_config_json cfg) in
  match body with
  | Err e => Err ("gmail: read webhook body: " +:+ e)
  | Ok body =>
    match envelope_json (take maxWebhookBody body) with
    | Err e => Err ("gmail: webhook payload is not a Pub/Sub push envelope: " +:+ e)
    | Ok data =>
      if String.eqb data "" then Err "gmail: webhook envelope has no message.data"
      else match decodeBase64 data with
      | None => Err "gmail: webhook message.data is not base64"
      | Some raw =>
        match notification_json raw with
        | Err e => Err ("gmail: webhook message.data is not a Gmail notification: " +:+ e)
        | Ok (email, _) =>
          if String.eqb email "" then Err "gmail: webhook notification has no emailAddress"
          else if negb (fold_eq email (gc_UserEmail conf)) then
            Err ("gmail: webhook notification is for mailbox " +:+ Quote email +:+ ", not this instance's " +:+
                 Quote (gc_UserEmail conf))
          else Ok tt
        end
      end
    end
  end.
End sync.

(** * The Gmail connector: proofs

    Cursors read back as they were written, and a history replay keeps the last
    event of every message. *)

(** ** Cursors *)
Lemma digits_no_sep n : "|"%char ∉ to_bytes (FormatUint n).
Proof.
  intros H%list_elem_of_In. destruct (FormatUint_digits n) as [Hd _]. by apply (proj1 (forallb_forall _ _) Hd) in H.
Qed.

Lemma Cut_digits n t : Cut (FormatUint n +:+ cursorPageSep +:+ t) cursorPageSep = Some (FormatUint n, t).
Proof.
  unfold Cut, Index. rewrite to_bytes_app, to_bytes_app.
  change (to_bytes cursorPageSep) with ("|"%char :: to_bytes "page:"). rewrite index_bytes_skip by apply digits_no_sep.
  assert (Hp : ∀ p l, is_prefix p (p ++ l) = true).
  { induction p as [|a p IH]; [done|]. intros l. cbn. by rewrite Ascii.eqb_refl, IH. }
  replace (index_bytes _ _) with (Some 0%nat); cycle 1.
  { symmetry. cbn [app index_bytes]. pose proof (Hp ("|"%char :: to_bytes "page:") (to_bytes t)) as E. cbn [app] in E. by rewrite E. }
  cbn [fmap option_fmap option_map]. rewrite Nat.add_0_r, length_to_bytes, take_str_app.
  do 2 f_equal. rewrite Nat.add_comm. assert (Hd : ∀ a b s, drop_str (a + b) s = drop_str a (drop_str b s)).
  { intros a b. induction b as [|b IH]; intros s; [by rewrite Nat.add_0_r; destruct s|].
    rewrite Nat.add_succ_r. destruct s; [by destruct a|]. apply IH. }
  rewrite Hd, drop_str_app. apply drop_str_app.
Qed.

Lemma Cut_digits_none n : Cut (FormatUint n) cursorPageSep = None.
Proof.
  unfold Cut, Index. change (to_bytes cursorPageSep) with ("|"%char :: to_bytes "page:").
  rewrite <- (app_nil_r (to_bytes (FormatUint n))), index_bytes_skip by apply digits_no_sep. done.
Qed.

Section cursors.
Context `{!Quoting}.

Lemma parse_incremental h : 0 <= h < 2 ^ 64 → parseCursor (incrementalCursor h) = Ok (mkCursor h None).
Proof using Type.
  intros Hh. unfold parseCursor, incrementalCursor, CutPrefix.
  rewrite (proj2 (HasPrefix_spec _ _)) by eauto. rewrite drop_str_app, Cut_digits_none.
  rewrite bool_decide_false by done. by rewrite ParseUint_FormatUint.
Qed.

Lemma parse_backfill h t : 0 <= h < 2 ^ 64 → t ≠ "" → parseCursor (backfillCursor h t) = Ok (mkCursor h (Some t)).
Proof using Type.
  intros Hh Ht. unfold parseCursor, backfillCursor, CutPrefix.
  rewrite (proj2 (HasPrefix_spec _ _)) by eauto. rewrite drop_str_app, Cut_digits.
  rewrite bool_decide_false by congruence. by rewrite ParseUint_FormatUint.
Qed.

Lemma parseCursor_bound s st : parseCursor s = Ok st → 0 <= cs_historyID st < 2 ^ 64 ∧ cs_page st ≠ Some "".
Proof using Type.
  unfold parseCursor. destruct (CutPrefix _ _); [|done]. destruct (match Cut _ _ with Some _ => _ | None => _ end) as [r page].
  destruct (bool_decide (page = Some "")) eqn:E; [done|]. apply bool_decide_eq_false in E.
  destruct (ParseUint r) as [n|] eqn:Ep; [|done]. intros [= <-]. split; [|done]. unfold ParseUint in Ep. cbn.
  destruct (_ || _) eqn:Eo; [done|]. destruct (Z.ltb_spec (digits_val (to_bytes r)) (2 ^ 64)); [|done]. injection Ep as <-.
  split; [|done]. apply orb_false_elim in Eo as [_ Eo]. apply negb_false_iff in Eo. clear -Eo. unfold digits_val.
  assert (H : ∀ l n, 0 <= n → forallb is_digit l = true → 0 <= foldl (λ n a, 10 * n + digit_val a) n l).
  { induction l as [|a l IH]; intros n Hn; [done|]. cbn [foldl forallb]. intros [Ha Hl]%andb_prop. apply IH; [|done].
    unfold is_digit, byte_in in Ha. apply andb_prop in Ha as [Ha _]. apply N.leb_le in Ha. unfold digit_val. lia. }
  by apply H.
Qed.
End cursors.

(** ** Folding history *)
Abbreviation event := (string * changeKind * Z)%type.
Definition ev_id (e : event) : string := e.1.1.
Definition ev_at (e : event) : Z := e.2.

(** The events of the records of a listing. *)
Definition in_records (recs : list (option History)) (e : event) : Prop :=
  ∃ r evs, Some r ∈ recs ∧ record_events r = Some evs ∧ e ∈ evs.

Lemma set_change_ids c l : lc_msgID <$> set_change c l =
  if decide (lc_msgID c ∈ lc_msgID <$> l) then lc_msgID <$> l else (lc_msgID <$> l) ++ [lc_msgID c].
Proof.
  induction l as [|x l IH]; [done|]. cbn [set_change]. destruct (String.eqb_spec (lc_msgID x) (lc_msgID c)) as [E|E].
  - rewrite decide_True by (rewrite fmap_cons, <- E; left). cbn. by rewrite E.
  - rewrite fmap_cons, IH. destruct (decide (lc_msgID c ∈ lc_msgID <$> l)).
    + by rewrite decide_True by (by right).
    + rewrite decide_False; [done|]. by intros [|]%elem_of_cons.
Qed.

Lemma set_change_NoDup c l : NoDup (lc_msgID <$> l) → NoDup (lc_msgID <$> set_change c l).
Proof.
  intros Hn. rewrite set_change_ids. destruct (decide _); [done|]. apply NoDup_app. split_and!; [done| |apply NoDup_singleton].
  intros i Hi ->%list_elem_of_singleton. done.
Qed.

Lemma set_change_elem c l x : NoDup (lc_msgID <$> l) →
  x ∈ set_change c l → x = c ∨ (x ∈ l ∧ lc_msgID x ≠ lc_msgID c).
Proof.
  induction l as [|y l IH]; [by intros _ ->%list_elem_of_singleton; left|]. rewrite fmap_cons, NoDup_cons. intros [Hy Hn].
  cbn [set_change]. destruct (String.eqb_spec (lc_msgID y) (lc_msgID c)) as [E|E].
  - intros [->|Hx]%elem_of_cons; [by left|]. right. split; [by right|]. intros Ex. apply Hy. rewrite E, <- Ex.
    by apply list_elem_of_fmap_2.
  - intros [->|Hx]%elem_of_cons; [right; split; [by left|done]|]. destruct (IH Hn Hx) as [|[? ?]]; [by left|].
    right. split; [by right|done].
Qed.

(** What the fold has kept of the events so far, the latest last. *)
Record folded (l : list event) (L : list lastChange) : Prop := {
  fo_nodup : NoDup (lc_msgID <$> L);
  fo_last ch : ch ∈ L → (lc_msgID ch, lc_kind ch, lc_historyID ch) ∈ l ∧ lc_msgID ch ≠ "" ∧
    ∀ e, e ∈ l → ev_id e = lc_msgID ch → ev_at e <= lc_historyID ch;
  fo_all e : e ∈ l → ev_id e ≠ "" → ev_id e ∈ lc_msgID <$> L
}.

Lemma note_folded l : StronglySorted Z.le (ev_at <$> l) → folded l (foldl note (0, []) l).2.
Proof.
  induction l as [|e l IH] using rev_ind; intros Hs.
  { split; [constructor|by intros ? ?%not_elem_of_nil|by intros ? ?%not_elem_of_nil]. }
  rewrite fmap_app in Hs. apply StronglySorted_app in Hs as (Hle & Hs & _). specialize (IH Hs). rewrite foldl_app. cbn [foldl].
  set (st := foldl note (0, []) l) in *. destruct e as [[i k] h]. unfold note. cbn [fst snd].
  assert (Hmax : ∀ e, e ∈ l → ev_at e <= h).
  { intros e He. apply Hle; [by apply list_elem_of_fmap_2|]. by left. }
  destruct (String.eqb_spec i "") as [->|Hi]; cbn [snd].
  - split; [apply IH| |].
    + intros ch Hch. destruct (fo_last _ _ IH ch Hch) as (H1 & H2 & H3). split_and!; [apply elem_of_app; by left|done|].
      intros e [He|He%list_elem_of_singleton]%elem_of_app Hid; [by apply H3|]. subst e. by destruct H2.
    + intros e [He|He%list_elem_of_singleton]%elem_of_app Hne; [by apply (fo_all _ _ IH)|by subst e].
  - split; [by apply set_change_NoDup, IH| |].
    + intros ch Hch. apply set_change_elem in Hch as [->|[Hch Hd]]; [| |apply IH].
      * cbn. split_and!; [apply elem_of_app; right; by left|done|].
        intros e [He|He%list_elem_of_singleton]%elem_of_app _; [by apply Hmax|by subst e].
      * destruct (fo_last _ _ IH ch Hch) as (H1 & H2 & H3). split_and!; [apply elem_of_app; by left|done|].
        intros e [He|He%list_elem_of_singleton]%elem_of_app Hid; [by apply H3|]. subst e. by destruct Hd.
    + intros e He Hne. rewrite set_change_ids. cbn [lc_msgID]. apply elem_of_app in He as [He|He%list_elem_of_singleton]; [|subst e].
      * pose proof (fo_all _ _ IH e He Hne). destruct (decide _); [done|]. apply elem_of_app. by left.
      * unfold ev_id. cbn [fst]. destruct (decide _); [done|]. apply elem_of_app. right. by left.
Qed.

Lemma mapM_elem {A B} (f : A → option B) l ys x : mapM f l = Some ys → x ∈ l → ∃ y, f x = Some y ∧ y ∈ ys.
Proof.
  intros H%mapM_Some_1 Hx. apply list_elem_of_lookup in Hx as [i Hi]. destruct (Forall2_lookup_l _ _ _ _ _ H Hi) as (y & Hy & E).
  exists y. split; [done|]. by eapply list_elem_of_lookup_2.
Qed.

Lemma mapM_elem_inv {A B} (f : A → option B) l ys y : mapM f l = Some ys → y ∈ ys → ∃ x, f x = Some y ∧ x ∈ l.
Proof.
  intros H%mapM_Some_1 Hy. apply list_elem_of_lookup in Hy as [i Hi]. destruct (Forall2_lookup_r _ _ _ _ _ H Hi) as (x & Hx & E).
  exists x. split; [done|]. by eapply list_elem_of_lookup_2.
Qed.

Lemma record_events_at r evs e : record_events r = Some evs → e ∈ evs → ev_at e = hi_Id r.
Proof.
  unfold record_events. destruct (mapM id (hi_Deleted r)) as [d|]; [|done]. destruct (mapM id (hi_Added r)) as [a|]; [|done].
  cbn. intros [= <-] [H|H]%elem_of_app; apply list_elem_of_omap in H as (x & _ & Hx); destruct x; cbn in Hx; by simplify_eq.
Qed.

Lemma list_elem_of_concat {A} (x : A) ls : x ∈ concat ls ↔ ∃ l, l ∈ ls ∧ x ∈ l.
Proof. rewrite list_elem_of_In, in_concat. setoid_rewrite list_elem_of_In. done. Qed.

Lemma constant_sorted h (l : list event) : (∀ e, e ∈ l → ev_at e = h) → StronglySorted Z.le (ev_at <$> l).
Proof.
  induction l as [|a l IH]; intros Hl; [constructor|]. rewrite fmap_cons. constructor; [apply IH; intros e He; apply Hl; by right|].
  apply Forall_fmap, Forall_forall. intros e He. cbn. rewrite (Hl a), (Hl e); [done|by right|by left].
Qed.

(** The events in the order they are folded: by history id. *)
Lemma sorted_events recs evss :
  mapM record_events (sort_by (λ a b, hi_Id a <=? hi_Id b) recs) = Some evss → StronglySorted Z.le (ev_at <$> concat evss).
Proof.
  assert (Hs : StronglySorted (λ a b, Is_true (hi_Id a <=? hi_Id b)) (sort_by (λ a b, hi_Id a <=? hi_Id b) recs)).
  { apply (sort_by_sorted (λ a b, hi_Id a <=? hi_Id b)); intros; lia. }
  revert evss. generalize dependent (sort_by (λ a b, hi_Id a <=? hi_Id b) recs). clear recs.
  intros l Hs. induction Hs as [|r l Hs IH Hall]; intros evss Hm%mapM_Some_1.
  - apply Forall2_nil_inv_l in Hm as ->. constructor.
  - apply Forall2_cons_inv_l in Hm as (evs & rest & Er & El & ->). apply mapM_Some_2 in El.
    cbn [concat]. rewrite fmap_app. apply StronglySorted_app. split_and!; [| |by apply IH].
    + intros x y Hx Hy. apply list_elem_of_fmap in Hx as (e & -> & He). apply list_elem_of_fmap in Hy as (e' & -> & He').
      rewrite (record_events_at _ _ _ Er He). apply list_elem_of_concat in He' as (evs' & Hin & He').
      destruct (mapM_elem_inv _ _ _ _ El Hin) as (r' & Hr' & Hl). rewrite (record_events_at _ _ _ Hr' He').
      rewrite Forall_forall in Hall. specialize (Hall r' Hl). apply Is_true_true in Hall. lia.
    + apply (constant_sorted (hi_Id r)). intros e. by apply record_events_at.
Qed.

(** Every message the records name is kept once, with an event of theirs that
    no other event of the message comes after. *)
Lemma foldHistory_spec recs chs : foldHistory recs = Some chs →
  NoDup (lc_msgID <$> chs) ∧
  (∀ ch, ch ∈ chs → in_records recs (lc_msgID ch, lc_kind ch, lc_historyID ch) ∧ lc_msgID ch ≠ "" ∧
     ∀ e, in_records recs e → ev_id e = lc_msgID ch → ev_at e <= lc_historyID ch) ∧
  (∀ e, in_records recs e → ev_id e ≠ "" → ev_id e ∈ lc_msgID <$> chs).
Proof.
  unfold foldHistory. destruct (mapM id recs) as [rs|] eqn:Er; [|done]. cbn.
  destruct (mapM record_events _) as [evss|] eqn:Ee; [|done]. cbn. intros [= <-].
  pose proof (note_folded (concat evss) (sorted_events _ _ Ee)) as [Hn Hl Ha].
  set (L := (foldl note (0, []) (concat evss)).2) in *.
  assert (Hp : sort_by (λ a b, lc_seq a <=? lc_seq b) L ≡ₚ L) by apply sort_by_perm.
  assert (Hrec : ∀ e, in_records recs e ↔ e ∈ concat evss).
  { intros e. rewrite list_elem_of_concat. split.
    - intros (r & evs & Hr & Hevs & He). destruct (mapM_elem _ _ _ _ Er Hr) as (r' & Hid & Hr'). cbn in Hid. simplify_eq.
      destruct (mapM_elem record_events _ _ r' Ee) as (evs' & H1 & H2); [by rewrite sort_by_perm|]. simplify_eq. eauto.
    - intros (evs & Hin & He). destruct (mapM_elem_inv _ _ _ _ Ee Hin) as (r & Hr & Hin'). rewrite sort_by_perm in Hin'.
      destruct (mapM_elem_inv _ _ _ _ Er Hin') as (x & Hx & Hin''). cbn in Hx. subst x. by exists r, evs. }
  setoid_rewrite Hrec. rewrite Hp. setoid_rewrite Hp. done.
Qed.
