(* ===== verification/GmailSyncProofs.v ===== *)
(** * The Gmail connector: synchronisation converges

    Against a mailbox that changes while the connector runs, every stored cursor
    tells the truth: a message nothing happened to after the cursor's history id
    is in the index as it is in the mailbox, or still to be listed. *)

From stdpp Require Import base gmap strings list sorting.
From Stdlib Require Import Ascii ZArith Lia.
From S2P Require Import Prelude GoStrings Tenancy Crypto ControlPlane Document Kafka GoTime HubSync GoText GoEncode ConnectorRun HtmlText Gmail.

Open Scope Z_scope.

(** ** A mailbox

    What the API is documented to do.  [mail] is the mailbox, [log] the
    messages added to and deleted from it so far, each with the history id it
    happened at, [now_id] the current history id.  [unlisted s t] are the
    messages a listing continued with the token [t] has yet to yield,
    [position h t] the history id a replay from [h] has reached at [t];
    [pages_left] and [history_left] bound the pages still to come.  Label
    changes are not in the log the connector asks for, so only the [core] of a
    message is known to stay as it is. *)
Definition core (m : Message) : Message :=
  mkMessage (ms_Id m) (ms_ThreadId m) [] 0 (ms_InternalDate m) (ms_Payload m).

(** No entry of a listing is nil. *)
Definition whole (recs : list (option History)) : Prop :=
  ∀ r, r ∈ recs → ∃ h, r = Some h ∧ is_Some (record_events h).

Class Mailbox (S : Type) := {
  g_answer : ∀ X, GmailReq X → Inp → S → X;
  g_change : S → S → Prop;
  mail : S → gmap string Message;
  log : S → list event;
  now_id : S → Z;
  unlisted : S → string → gset string;
  position : Z → string → Z;
  pages_left : string → nat;
  history_left : Z → string → nat
}.

Class MailboxLaws (S : Type) `{!Mailbox S} : Prop := {
  mb_preorder : PreOrder g_change;
  mb_ids s i m : mail s !! i = Some m → ms_Id m = i ∧ i ≠ "";
  mb_now s : 0 <= now_id s < 2 ^ 64;
  mb_logged s e : e ∈ log s → ev_at e <= now_id s ∧ ev_id e ≠ "";
  mb_deleted s i h : (i, changeDeleted, h) ∈ log s → (∀ e, e ∈ log s → ev_id e = i → ev_at e <= h) → mail s !! i = None;
  mb_later s s' : g_change s s' →
    now_id s <= now_id s' ∧
    (∀ e, e ∈ log s → e ∈ log s') ∧
    (∀ e, e ∈ log s' → e ∈ log s ∨ now_id s < ev_at e);
  mb_core s s' i : g_change s s' → (∀ e, e ∈ log s' → ev_id e = i → e ∈ log s) → core <$> mail s' !! i = core <$> mail s !! i;
  mb_unlisted s s' t i : g_change s s' → i ∈ unlisted s t → is_Some (mail s' !! i) → i ∈ unlisted s' t;
  mb_first s i : is_Some (mail s !! i) → i ∈ unlisted s "";
  mb_profile i s e h : g_answer _ GetProfile i s = Ok (e, h) → h = now_id s;
  mb_probe i s h : g_answer _ ProbeHistory i s = Ok h → h = now_id s;
  mb_list i s t refs next j : g_answer _ (ListMessages t) i s = Ok (refs, next) → j ∈ unlisted s t →
    Some j ∈ refs ∨ (next ≠ "" ∧ j ∈ unlisted s next);
  mb_listed i s t refs next : g_answer _ (ListMessages t) i s = Ok (refs, next) →
    None ∉ refs ∧ (next ≠ "" → (pages_left next < pages_left t)%nat);
  mb_get i s j m : g_answer _ (GetMessage j) i s = Ok m → mail s !! j = Some m;
  mb_get_gone i s j e : g_answer _ (GetMessage j) i s = Err e → ae_404 e = true → mail s !! j = None;
  mb_position h : position h "" = h;
  mb_history i s h t recs cur next : g_answer _ (ListHistory h t) i s = Ok (recs, cur, next) →
    cur = now_id s ∧ (next ≠ "" → position h next <= now_id s ∧ (history_left h next < history_left h t)%nat) ∧
    whole recs ∧ (∀ e, in_records recs e → e ∈ log s ∧ h < ev_at e) ∧
    (∀ e, e ∈ log s → position h t < ev_at e → next = "" ∨ ev_at e <= position h next → in_records recs e)
}.

Section converge.
Context `{!Casing, !Folding, !HtmlEntities, !Mail, !Deps, !Quoting, !URLs, !GmailJson} (sha256 : bytes → bytes).
Context {S : Type} {HM : Mailbox S} {HL : MailboxLaws S} (tenant : string).

Abbreviation W := (Synced S).
Open Scope api_scope.
#[local] Existing Instance mb_preorder.

(** Nothing happened to [i] after [h]. *)
Definition quiet (h : Z) (i : string) (s : S) : Prop := ∀ e, e ∈ log s → ev_id e = i → ev_at e <= h.

(** The index entry of a message: its document, up to labels; of no message:
    none or a tombstone. *)
Definition agrees (m : option Message) (d : option Document) : Prop :=
  match m with
  | Some m => ∃ m' doc, core m' = core m ∧ messageDocument sha256 tenant m' = Some (Ok doc) ∧ d = Some doc
  | None => ∀ doc, d = Some doc → is_deleted doc = true
  end.

(** Up to [h] the index agrees with the mailbox, the messages [U] excepted. *)
Definition inv (h : Z) (U : S → string → Prop) (w : W) : Prop :=
  h <= now_id (sy_source w) ∧
  ∀ i, quiet h i (sy_source w) → U (sy_source w) i ∨ agrees (mail (sy_source w) !! i) (sy_index w !! i).

Definition steady (h : Z) (U : S → string → Prop) : Prop :=
  ∀ s s' i, g_change s s' → h <= now_id s → quiet h i s' → U s i → U s' i.

Definition nobody (s : S) (i : string) : Prop := False.
Definition to_list (t : string) (s : S) (i : string) : Prop := i ∈ unlisted s t ∧ is_Some (mail s !! i).

Definition caught_up (h : Z) (w : W) : Prop := inv h nobody w.

(** What a cursor promises. *)
Definition truthful (w : W) : Prop :=
  match parseCursor (sy_cursor w) with
  | Ok (mkCursor h None) => caught_up h w
  | Ok (mkCursor h (Some t)) => inv h (to_list t) w
  | Err _ => True
  end.

Lemma quiet_before h i s s' : g_change s s' → quiet h i s' → quiet h i s.
Proof using HL. intros Hc Hq e He. apply Hq. by apply (mb_later s s' Hc). Qed.

Lemma quiet_core h i s s' : g_change s s' → h <= now_id s → quiet h i s' → core <$> mail s' !! i = core <$> mail s !! i.
Proof using HL.
  intros Hc Hh Hq. apply mb_core; [done|]. intros e He Hi. specialize (Hq e He Hi).
  destruct (mb_later s s' Hc) as (_ & _ & Hn). destruct (Hn e He); [done|lia].
Qed.

Lemma agrees_core m m' d : core <$> m' = core <$> m → agrees m d → agrees m' d.
Proof using Type.
  destruct m as [m|], m' as [m'|]; try done. cbn. intros [= E]. intros (x & doc & Hx & Hd & ->). exists x, doc.
  split_and!; [|done|done]. rewrite Hx. unfold core in *. congruence.
Qed.

Lemma inv_move h U w s : steady h U → g_change (sy_source w) s → inv h U w → inv h U (move s w).
Proof using HL.
  intros HU Hc [Hh Hi]. split; [cbn; destruct (mb_later _ _ Hc); lia|]. intros i Hq. cbn in *.
  destruct (Hi i (quiet_before _ _ _ _ Hc Hq)) as [Hu|Ha]; [left; by eapply HU|right].
  eapply agrees_core; [|exact Ha]. by eapply quiet_core.
Qed.

Lemma steady_nobody h : steady h nobody.
Proof using Type. by intros s s' i. Qed.

Lemma steady_to_list h t : steady h (to_list t).
Proof using HL.
  intros s s' i Hc Hh Hq [Hu Hm]. pose proof (quiet_core _ _ _ _ Hc Hh Hq) as E.
  assert (Hm' : is_Some (mail s' !! i)). { destruct Hm as [m Hm]. rewrite Hm in E. destruct (mail s' !! i); [eauto|done]. }
  split; [by eapply mb_unlisted|done].
Qed.

Lemma steady_in h (l : list string) : steady h (λ _ i, i ∈ l).
Proof using Type. by intros s s' i. Qed.

Lemma steady_or h U V : steady h U → steady h V → steady h (λ s i, U s i ∨ V s i).
Proof using Type. intros HU HV s s' i Hc Hh Hq [Hu|Hv]; [left; by eapply HU|right; by eapply HV]. Qed.

Lemma inv_weaken h (U V : S → string → Prop) w : (∀ i, U (sy_source w) i → V (sy_source w) i) → inv h U w → inv h V w.
Proof using Type. intros HUV [Hh Hi]. split; [done|]. intros i Hq. destruct (Hi i Hq); [left|right]; auto. Qed.

(** A document that says the truth about its message to the readers up to [h]. *)
Definition settled (h : Z) (s : S) (doc : Document) : Prop :=
  ∀ g s', g <= h → g_change s s' → quiet g (source_native_id doc) s' → agrees (mail s' !! source_native_id doc) (Some doc).

Lemma settled_later h s s' doc : g_change s s' → settled h s doc → settled h s' doc.
Proof using HL. intros Hc Hd g s'' Hg Hc'. apply Hd; [done|by etrans]. Qed.

Lemma inv_put h U g w s doc :
  steady g U → g_change (sy_source w) s → inv g U w → g <= h → settled h (sy_source w) doc →
  inv g (λ s i, U s i ∧ i ≠ source_native_id doc) (index_put doc (move s w)).
Proof using HL.
  intros HU Hc Hi Hb Hd. pose proof (inv_move g U w s HU Hc Hi) as [Hh Hi']. split; [done|]. intros i Hq. cbn in *.
  destruct (decide (i = source_native_id doc)) as [->|Hne].
  - right. rewrite lookup_insert_eq. by apply (Hd g).
  - rewrite lookup_insert_ne by done. destruct (Hi' i Hq); auto.
Qed.

Lemma truthful_move w s : g_change (sy_source w) s → truthful w → truthful (move s w).
Proof using HL.
  unfold truthful. cbn [sy_cursor move]. intros Hc. destruct (parseCursor (sy_cursor w)) as [[g [t|]]|]; [| |done];
    apply inv_move; [apply steady_to_list|done|apply steady_nobody|done].
Qed.

(** The stored cursor promises nothing after [h]. *)
Definition in_sight (h : Z) (w : W) : Prop := ∀ st, parseCursor (sy_cursor w) = Ok st → cs_historyID st <= h.

Lemma truthful_put h w s doc :
  g_change (sy_source w) s → truthful w → in_sight h w → settled h (sy_source w) doc → truthful (index_put doc (move s w)).
Proof using HL.
  unfold truthful, in_sight. cbn [sy_cursor index_put move]. intros Hc Ht Hb Hd.
  destruct (parseCursor (sy_cursor w)) as [[g [t|]]|]; [| |done]; specialize (Hb _ eq_refl).
  - eapply inv_weaken; [|by apply (inv_put h (to_list t) g w s doc); [apply steady_to_list|..]]. by intros i [? _].
  - eapply inv_weaken; [|by apply (inv_put h nobody g w s doc); [apply steady_nobody|..]]. by intros i [? _].
Qed.

(** ** While the connector runs *)

(** The connector works towards the history id [h], with the messages [U] still
    to do. *)
Record during (h : Z) (U : S → string → Prop) (w : W) : Prop := {
  du_truth : truthful w; du_sight : in_sight h w; du_inv : inv h U w
}.

Abbreviation surely m P w := (sure g_answer g_change truthful m P w).
Abbreviation but U j := (λ s i, U s i ∧ i ≠ j).

Lemma steady_but h U j : steady h U → steady h (but U j).
Proof using Type. intros HU s s' i Hc Hh Hq [Hu Hj]. split; [by eapply HU|done]. Qed.

Lemma during_stable h U : steady h U → stable g_change (during h U).
Proof using HL. intros HU w s Hc [Hw1 Hw2 Hw3]. split; [by apply truthful_move|done|by apply inv_move]. Qed.

Lemma during_weaken h (U V : S → string → Prop) w :
  (∀ i, U (sy_source w) i → V (sy_source w) i) → during h U w → during h V w.
Proof using Type. intros HUV [Hw1 Hw2 Hw3]. split; [done|done|]. by eapply inv_weaken. Qed.

Lemma sure_settled h U doc w :
  steady h U → during h U w → settled h (sy_source w) doc →
  surely (emit doc) (λ r w, during h U w ∧ (∀ a, r = Ok a → during h (but U (source_native_id doc)) w)) w.
Proof using HL.
  intros HU Hw Hd. apply sure_emit; [apply mb_preorder|by apply during_stable|by intros ? []|by apply during_stable, steady_but| |done|].
  - intros w'. apply during_weaken. by intros i [? _].
  - intros s Hs. destruct Hw as [Hw1 Hw2 Hw3]. split; [by eapply truthful_put|done|by eapply inv_put].
Qed.

(** A document built from the mailbox is settled, and so is a tombstone of a
    message that is gone, or whose last event up to [h] is a deletion. *)
Lemma message_id m doc : messageDocument sha256 tenant m = Some (Ok doc) → source_native_id doc = ms_Id m.
Proof using Type.
  unfold messageDocument. destruct (String.eqb _ _); [done|]. intros Hd.
  do 4 (match type of Hd with (_ ≫= _) = _ => apply bind_Some in Hd as (? & _ & Hd) end). by injection Hd as <-.
Qed.

Lemma settled_message h s i m doc :
  h <= now_id s → mail s !! i = Some m → messageDocument sha256 tenant m = Some (Ok doc) → settled h s doc.
Proof using HL.
  intros Hh Hm Hd g s' Hg Hc Hq. rewrite (message_id _ _ Hd), (proj1 (mb_ids s i m Hm)) in *.
  assert (E : core <$> mail s' !! i = core <$> mail s !! i) by (apply (quiet_core g); [done|lia|done]). rewrite Hm in E.
  destruct (mail s' !! i) as [m'|]; [|done]. cbn in E. injection E as E. exists m, doc. split_and!; [|done|done].
  unfold core. congruence.
Qed.

Lemma settled_gone h s i h0 now : h <= now_id s → mail s !! i = None → settled h s (tombstoneDocument sha256 tenant i h0 now).
Proof using HL.
  intros Hh Hm g s' Hg Hc Hq. cbn in *.
  assert (E : core <$> mail s' !! i = core <$> mail s !! i) by (apply (quiet_core g); [done|lia|done]). rewrite Hm in E.
  destruct (mail s' !! i); [done|]. by intros doc [= <-].
Qed.

Lemma settled_deleted h s i hd now :
  h <= now_id s → (i, changeDeleted, hd) ∈ log s → (∀ e, e ∈ log s → ev_id e = i → ev_at e <= h → ev_at e <= hd) →
  settled h s (tombstoneDocument sha256 tenant i hd now).
Proof using HL.
  intros Hh Hd Hl g s' Hg Hc Hq. cbn in *. destruct (mb_later s s' Hc) as (_ & Hold & Hnew).
  rewrite (mb_deleted s' i hd); [by intros doc [= <-]|by apply Hold|]. intros e He Hi. specialize (Hq e He Hi).
  destruct (Hnew e He); [|lia]. apply Hl; [done|done|lia].
Qed.

(** ** Readable mail

    The mail a pass can read: no header entry is null, and in every HTML part
    lower-casing lengthens the text by no more than follows each of its script
    and style blocks. *)
Definition html_room (p : MessagePart) : Prop :=
  ∀ data b, mp_Data p = Some data → HasPrefix (ToLower (mp_MimeType p)) "text/html" = true → decodeBase64 data = Some b →
    room_for_cuts (of_bytes b).

Definition readable_mail (m : Message) : Prop :=
  ∀ p, ms_Payload m = Some p → Forall is_Some (mp_Headers p) ∧ Forall html_room (walkParts p).

Lemma header_in_some hs name : Forall is_Some hs → is_Some (header_in hs name).
Proof using Type. induction 1 as [|? hs [[n v] ->] _ IH]; cbn; [eauto|]. destruct (fold_eq n name); eauto. Qed.

Lemma header_readable m name : readable_mail m → is_Some (headerValue (ms_Payload m) name).
Proof using Type.
  intros Hm. unfold readable_mail in Hm. destruct (ms_Payload m) as [p|]; cbn; [|eauto]. apply header_in_some. by apply (Hm p).
Qed.

Lemma part_readable p : html_room p → is_Some (part_text p).
Proof using Type.
  unfold html_room, part_text. intros Hp. destruct (mp_Data p) as [[|a d]|]; [eauto| |eauto].
  destruct (HasPrefix (ToLower (mp_MimeType p)) "text/plain"); [eauto|].
  destruct (HasPrefix (ToLower (mp_MimeType p)) "text/html"); [|eauto].
  destruct (decodeBase64 (String a d)) as [b|] eqn:Eb; [|eauto].
  destruct (stripHTML_safe (of_bytes b)) as [t ->]; [by eapply Hp|]. cbn. eauto.
Qed.

Lemma body_readable m : readable_mail m → is_Some (extractBody (ms_Payload m)).
Proof using Type.
  intros Hm. unfold readable_mail in Hm. unfold extractBody.
  assert (is_Some (mapM part_text (match ms_Payload m with None => [] | Some p => walkParts p end))) as [t ->]; [|cbn; eauto].
  apply mapM_is_Some_2. destruct (ms_Payload m) as [p|]; [|constructor].
  eapply Forall_impl; [by apply (Hm p)|]. apply part_readable.
Qed.

Lemma readable_document m : readable_mail m → messageDocument sha256 tenant m ≠ None.
Proof using Type.
  intros Hm. unfold messageDocument. destruct (String.eqb _ _); [done|].
  destruct (header_readable m "Subject" Hm) as [v0 ->]. cbn [mbind option_bind]. destruct (body_readable m Hm) as [b ->]. cbn [mbind option_bind].
  unfold gmail_participants, header_people, gmail_metadata.
  destruct (header_readable m "From" Hm) as [v1 ->], (header_readable m "To" Hm) as [v2 ->], (header_readable m "Cc" Hm) as [v3 ->].
  done.
Qed.

(** ** Backfill *)
Context (readable : ∀ s i m, mail s !! i = Some m → readable_mail m).

Lemma sure_message h U s i m w :
  steady h U → during h U w → h <= now_id s → g_change s (sy_source w) → mail s !! i = Some m →
  surely (emit_message sha256 tenant m) (λ r w, during h U w ∧ (∀ a, r = Ok a → during h (but U i) w)) w.
Proof using HL readable.
  intros HU Hw Hh Hc Hm. unfold emit_message. pose proof (readable_document m (readable s i m Hm)) as Hr.
  destruct (messageDocument sha256 tenant m) as [[doc|e]|] eqn:Hd; [| |done].
  - rewrite <- (proj1 (mb_ids s i m Hm)), <- (message_id _ _ Hd). apply sure_settled; [done|done|].
    eapply settled_later; [exact Hc|]. by eapply settled_message.
  - apply (sure_ret _ _ _ (during h U)); [by apply during_stable|by intros ? []|done|]. done.
Qed.

(** The messages of [refs] still to fetch. *)
Definition awaited (refs : list (option string)) (s : S) (i : string) : Prop := Some i ∈ refs ∧ is_Some (mail s !! i).
Abbreviation also U V := (λ s i, U s i ∨ V s i).

Lemma steady_awaited h refs : steady h (awaited refs).
Proof using HL.
  intros s s' i Hc Hh Hq [Hu Hm]. pose proof (quiet_core _ _ _ _ Hc Hh Hq) as E. split; [done|].
  destruct Hm as [m Hm]. rewrite Hm in E. destruct (mail s' !! i); [eauto|done].
Qed.

Lemma sure_page h V refs w :
  steady h V → None ∉ refs → during h (also (awaited refs) V) w →
  surely (backfill_page sha256 tenant refs) (λ r w, during h (also (awaited refs) V) w ∧ (∀ a, r = Ok a → during h V w)) w.
Proof using HL readable.
  intros HV. revert w. induction refs as [|[j|] refs IH]; intros w Hn Hw; cbn [backfill_page].
  - apply (sure_ret _ _ _ (during h (also (awaited []) V))); [apply during_stable, steady_or; [apply steady_awaited|done]| |done|].
    { by intros ? []. }
    intros w' Hw'. split; [done|]. intros _ _. eapply during_weaken; [|exact Hw']. intros i [[Hi _]|]; [by apply not_elem_of_nil in Hi|done].
  - apply not_elem_of_cons in Hn as [_ Hn].
    assert (HJ : stable g_change (during h (also (awaited (Some j :: refs)) V))).
    { apply during_stable, steady_or; [apply steady_awaited|done]. }
    assert (Hkeep : ∀ w, during h (also (awaited refs) V) w → during h (also (awaited (Some j :: refs)) V) w).
    { intros w'. apply during_weaken. intros i [[Hi Hm]|]; [left|by right]. split; [by right|done]. }
    eapply sure_ask; [exact HJ|by intros ? []|exact Hw|]. clear w Hw. intros w ip Hw.
    destruct (g_answer _ (GetMessage j) ip (sy_source w)) as [m|e] eqn:Eg.
    + apply mb_get in Eg.
      eapply (sure_do _ _ _ (during h (also (awaited (Some j :: refs)) V)) _ _ (λ _, during h (also (awaited refs) V)));
        [exact HJ|by intros ? []|done| |].
      * eapply sure_mono; [|eapply (sure_message h _ (sy_source w) j m w)];
          [|apply steady_or; [apply steady_awaited|done]|done|apply Hw|done|done].
        intros r w' [Hw1 Hw2]. split; [done|]. intros a Ha. eapply during_weaken; [|exact (Hw2 a Ha)].
        intros i [[[[Hi|Hi]%elem_of_cons Hm]|] Hij]; [congruence|left; by split|by right].
      * intros _ w' _ Hw'. eapply sure_mono; [|by apply IH]. intros r w'' [Hw1 Hw2]. split; [by apply Hkeep|done].
    + destruct (isNotFound e) eqn:Ee.
      * apply (mb_get_gone _ _ _ _ Eg) in Ee. eapply sure_mono; [|apply IH; [done|]].
        -- intros r w'' [Hw1 Hw2]. split; [by apply Hkeep|done].
        -- eapply during_weaken; [|exact Hw]. intros i [[[Hi|Hi]%elem_of_cons Hm]|]; [|left; by split|by right]. injection Hi as ->. rewrite Ee in Hm. by destruct Hm.
      * by apply (sure_ret _ _ _ (during h (also (awaited (Some j :: refs)) V))); [|intros ? []|..].
  - exfalso. apply Hn. by left.
Qed.

(** An answer that is a cursor promises what holds. *)
Definition kept (h : Z) (r : result ConnErr string) (w : W) : Prop :=
  truthful w ∧ ∀ cur, r = Ok cur → cur = incrementalCursor h ∧ 0 <= h < 2 ^ 64 ∧ caught_up h w.

(** Progress stored on the way. *)
Lemma sure_stored h U cur page w :
  steady h U → parseCursor cur = Ok (mkCursor h page) → (∀ w, inv h U w → truthful (store_cursor cur w)) → during h U w →
  surely (checkpoint cur) (λ r w, during h U w ∧ (∀ a, r = Ok a → during h U w)) w.
Proof using HL.
  intros HU Hp Ht Hw. apply sure_checkpoint; [apply mb_preorder|by apply during_stable|by intros ? []|by apply during_stable|done|done|].
  intros s Hs. destruct (during_stable h U HU w s Hs Hw) as [_ _ Hi]. split; [by apply Ht| |exact Hi].
  intros st. cbn. rewrite Hp. by intros [= <-].
Qed.

Lemma during_bound h U w : 0 <= h → during h U w → 0 <= h < 2 ^ 64.
Proof using HL. intros Hh [_ _ [Hn _]]. pose proof (mb_now (sy_source w)). lia. Qed.

Lemma kept_err h U e w : during h U w → kept h (Err e) w.
Proof using Type. intros []. by split. Qed.

Lemma sure_finished h conf w :
  0 <= h → during h nobody w →
  surely (do _ := checkpoint (incrementalCursor h) in do _ := registerWatch conf in ARet (Ok (incrementalCursor h))) (kept h) w.
Proof using HL.
  intros Hh Hw. pose proof (during_bound _ _ _ Hh Hw) as Hb. pose proof (parse_incremental h Hb) as Hp.
  assert (HN : stable g_change (during h nobody)) by apply during_stable, steady_nobody.
  assert (HI : ∀ w, during h nobody w → truthful w) by (intros ? []; done).
  assert (Hend : ∀ w, during h nobody w → kept h (Ok (incrementalCursor h)) w).
  { intros w' [Hw1 _ Hw3]. split; [done|]. by intros cur [= <-]. }
  eapply (sure_do _ _ _ (during h nobody) _ _ (λ _, during h nobody)); [exact HN|exact HI|by intros e w'; apply kept_err| |].
  { eapply (sure_stored _ _ _ None); [apply steady_nobody|exact Hp| |done].
    intros w' Hi. unfold truthful. cbn. by rewrite Hp. }
  clear w Hw. intros _ w _ Hw.
  eapply (sure_do _ _ _ (during h nobody) _ _ (λ _, during h nobody)); [exact HN|exact HI|by intros e w'; apply kept_err| |].
  { unfold registerWatch. destruct (String.eqb _ _); [by apply (sure_ret _ _ _ (during h nobody))|].
    eapply sure_ask; [exact HN|exact HI|exact Hw|]. intros w' ip Hw'. by apply (sure_ret _ _ _ (during h nobody)). }
  clear w Hw. intros _ w _ Hw. by apply (sure_ret _ _ _ (during h nobody)).
Qed.

Lemma sure_ctx (J : W → Prop) w :
  stable g_change J → (∀ w, J w → truthful w) → J w → surely check_ctx (λ r w, J w ∧ (∀ a, r = Ok a → J w)) w.
Proof using Type.
  intros HJ HI Hw. eapply sure_ask; [exact HJ|exact HI|exact Hw|]. intros w' ip Hw'. by apply (sure_ret _ _ _ J).
Qed.

Lemma sure_backfill h conf fuel t w :
  0 <= h → (pages_left t < fuel)%nat → during h (to_list t) w → surely (backfill sha256 fuel tenant conf h t) (kept h) w.
Proof using HL readable.
  intros Hh. revert t w. induction fuel as [|fuel IH]; intros t w Hf Hw; [lia|]. cbn [backfill].
  assert (HJ : stable g_change (during h (to_list t))) by apply during_stable, steady_to_list.
  assert (HI : ∀ w, during h (to_list t) w → truthful w) by (intros ? []; done).
  assert (HE : ∀ U e w, during h U w → kept h (Err e) w) by (intros U e w'; apply kept_err).
  eapply (sure_do _ _ _ (during h (to_list t)) _ _ (λ _, during h (to_list t))); [exact HJ|exact HI|apply HE|by apply sure_ctx|].
  clear w Hw. intros _ w _ Hw. eapply sure_ask; [exact HJ|exact HI|exact Hw|]. clear w Hw. intros w ip Hw.
  destruct (g_answer _ (ListMessages t) ip (sy_source w)) as [[refs next]|e] eqn:El;
    [|by apply (sure_ret _ _ _ (during h (to_list t))); [..|intros w'; apply HE]].
  destruct (mb_listed _ _ _ _ _ El) as [Hnil Hleft].
  set (V := if String.eqb next "" then nobody else to_list next).
  assert (HV : steady h V) by (unfold V; destruct (String.eqb next ""); [apply steady_nobody|apply steady_to_list]).
  eapply (sure_do _ _ _ (during h (also (awaited refs) V)) _ _ (λ _, during h V));
    [apply during_stable, steady_or; [apply steady_awaited|done]|by intros ? []|apply HE|apply sure_page; [done|done|]|].
  { eapply during_weaken; [|exact Hw]. intros i [Hi Hm]. destruct (mb_list _ _ _ _ _ _ El Hi) as [|[Hne Hu]]; [by left; split|].
    right. unfold V. destruct (String.eqb_spec next ""); [done|]. by split. }
  clear w Hw El. intros _ w _ Hw. subst V. destruct (String.eqb_spec next "") as [->|Hne].
  - by apply sure_finished.
  - pose proof (parse_backfill h next (during_bound _ _ _ Hh Hw) Hne) as Hp.
    eapply (sure_do _ _ _ (during h (to_list next)) _ _ (λ _, during h (to_list next)));
      [by apply during_stable|by intros ? []|apply HE| |].
    { eapply (sure_stored _ _ _ (Some next)); [done|exact Hp| |done].
      intros w' Hi. unfold truthful. cbn. by rewrite Hp. }
    clear w Hw. intros _ w _ Hw. apply IH; [|done]. specialize (Hleft Hne). lia.
Qed.

(** ** Replaying history *)

(** The records hold every event after [h] up to [p]. *)
Record collected (h : Z) (recs : list (option History)) (p : Z) (w : W) : Prop := {
  co_during : during h nobody w;
  co_now : p <= now_id (sy_source w);
  co_whole : whole recs;
  co_log e : in_records recs e → e ∈ log (sy_source w) ∧ h < ev_at e;
  co_all e : e ∈ log (sy_source w) → h < ev_at e → ev_at e <= p → in_records recs e
}.

Lemma collected_stable h recs p : stable g_change (collected h recs p).
Proof using HL.
  intros w s Hc [Hd Hn Hw Hl Ha]. destruct (mb_later _ _ Hc) as (Hnow & Hold & Hnew). split; cbn.
  - apply during_stable; [apply steady_nobody|done..].
  - lia.
  - done.
  - intros e He. destruct (Hl e He). auto.
  - intros e He Hh Hp. destruct (Hnew e He); [auto|lia].
Qed.

Lemma in_records_app a b e : in_records (a ++ b) e ↔ in_records a e ∨ in_records b e.
Proof using Type. unfold in_records. setoid_rewrite elem_of_app. naive_solver. Qed.

(** While pages are read, at the token [t]. *)
Record reading (h n0 : Z) (recs : list (option History)) (cur : Z) (t : string) (w : W) : Prop := {
  re_got : collected h recs (position h t) w;
  re_cur : h <= cur <= now_id (sy_source w);
  re_start : n0 <= now_id (sy_source w)
}.

Lemma reading_stable h n0 recs cur t : stable g_change (reading h n0 recs cur t).
Proof using HL.
  intros w s Hc [Hg Hcur Hst]. destruct (mb_later _ _ Hc) as (Hnow & _). split; [by apply collected_stable|cbn; lia..].
Qed.

Lemma reading_page h n0 recs cur t w ip recs' now next :
  reading h n0 recs cur t w → g_answer _ (ListHistory h t) ip (sy_source w) = Ok (recs', now, next) →
  let cur := if cur <? now then now else cur in
  (next = "" → collected h (recs ++ recs') cur w ∧ h <= cur ∧ n0 <= cur) ∧ (next ≠ "" → reading h n0 (recs ++ recs') cur next w).
Proof using HL.
  intros [[Hd Hn Hw Hl Ha] Hcur Hst] El. destruct (mb_history _ _ _ _ _ _ _ El) as (-> & Hnext & Hw' & Hl' & Ha').
  set (cur' := if cur <? now_id (sy_source w) then now_id (sy_source w) else cur).
  assert (cur' = now_id (sy_source w)) as -> by (subst cur'; destruct (Z.ltb_spec cur (now_id (sy_source w))); lia).
  assert (Hget : ∀ p, p <= now_id (sy_source w) → (next = "" ∨ p <= position h next) → collected h (recs ++ recs') p w).
  { intros p Hp Hor. split; [done|done| | |].
    - intros r [Hr|Hr]%elem_of_app; auto.
    - intros e [He|He]%in_records_app; auto.
    - intros e He Hh Hep. apply in_records_app. destruct (Z.le_gt_cases (ev_at e) (position h t)); [left; auto|right].
      apply Ha'; [done|lia|]. destruct Hor; [by left|right; lia]. }
  cbn. split.
  - intros ->. split_and!; [apply Hget; [lia|by left]|lia|lia].
  - intros Hne. destruct (Hnext Hne). split; [apply Hget; [done|right; lia]|lia|lia].
Qed.

Lemma sure_history h n0 fuel recs cur t w :
  (history_left h t < fuel)%nat → reading h n0 recs cur t w →
  surely (history_pages fuel h recs cur t)
    (λ r w, truthful w ∧ (∀ a, r = Ok a → collected h a.1 a.2 w ∧ h <= a.2 ∧ n0 <= a.2)) w.
Proof using HL.
  revert recs cur t w. induction fuel as [|fuel IH]; intros recs cur t w Hf Hw; [lia|]. cbn [history_pages].
  assert (HJ : stable g_change (reading h n0 recs cur t)) by apply reading_stable.
  assert (HI : ∀ w, reading h n0 recs cur t w → truthful w) by (by intros ? [[[] _ _ _ _] _ _]).
  eapply (sure_do _ _ _ (reading h n0 recs cur t) _ _ (λ _, reading h n0 recs cur t));
    [exact HJ|exact HI|intros e w' Hw'; split; [by apply HI|done]|by apply sure_ctx|].
  clear w Hw. intros _ w _ Hw. eapply sure_ask; [exact HJ|exact HI|exact Hw|]. clear w Hw. intros w ip Hw.
  destruct (g_answer _ (ListHistory h t) ip (sy_source w)) as [[[recs' now] next]|e] eqn:El.
  - destruct (reading_page _ _ _ _ _ _ _ _ _ _ Hw El) as [Hlast Hmore]. destruct (String.eqb_spec next "") as [->|Hne].
    + destruct (Hlast eq_refl) as (Hc & Hh & Hn).
      apply (sure_ret _ _ _ (collected h (recs ++ recs') (if cur <? now then now else cur)));
        [apply collected_stable|by intros ? [[] _ _ _ _]|done|]. intros w' Hw'. split; [by destruct Hw' as [[] _ _ _ _]|].
      by intros a [= <-].
    + apply IH; [|auto]. destruct (mb_history _ _ _ _ _ _ _ El) as (_ & Hnext & _). destruct (Hnext Hne). lia.
  - destruct (isNotFound e); apply (sure_ret _ _ _ (reading h n0 recs cur t)); try done; intros w' Hw'; (split; [by apply HI|done]).
Qed.

Lemma whole_fold recs : whole recs → foldHistory recs ≠ None.
Proof using Type.
  intros Hw. unfold foldHistory. destruct (mapM id recs) as [rs|] eqn:Er; cbn.
  - destruct (mapM record_events _) as [evss|] eqn:Ee; cbn; [done|]. exfalso. apply eq_None_not_Some in Ee. apply Ee.
    apply mapM_is_Some, Forall_forall. intros r Hr. rewrite sort_by_perm in Hr.
    destruct (mapM_elem_inv _ _ _ _ Er Hr) as (x & Hx & Hin). cbn in Hx. subst x.
    destruct (Hw _ Hin) as (h & [= ->] & Hs). done.
  - exfalso. apply eq_None_not_Some in Er. apply Er. apply mapM_is_Some, Forall_forall. intros r Hr.
    destruct (Hw _ Hr) as (h & -> & _). by exists h.
Qed.

(** The changes still to emit, on the way to the history id [cur]. *)
Record replaying (cur : Z) (chs : list lastChange) (w : W) : Prop := {
  rp_during : during cur (λ _ i, i ∈ lc_msgID <$> chs) w;
  rp_deleted ch now : ch ∈ chs → lc_kind ch = changeDeleted →
    settled cur (sy_source w) (tombstoneDocument sha256 tenant (lc_msgID ch) (lc_historyID ch) now)
}.

Lemma replaying_stable cur chs : stable g_change (replaying cur chs).
Proof using HL.
  intros w s Hc [Hd Hs]. split; [by apply during_stable; [apply steady_in|..]|]. intros ch now Hch Hk.
  eapply settled_later; [exact Hc|]. by apply Hs.
Qed.

Lemma collected_replaying h recs cur chs w :
  collected h recs cur w → h <= cur → foldHistory recs = Some chs → replaying cur chs w.
Proof using HL.
  intros [[Ht Hs [Hh Hi]] Hn _ Hl Ha] Hle Hf. destruct (foldHistory_spec _ _ Hf) as (_ & Hlast & Hall). split; [split|].
  - done.
  - intros st Hst. specialize (Hs st Hst). lia.
  - split; [done|]. intros i Hq. destruct (decide (i ∈ lc_msgID <$> chs)) as [|Hni]; [by left|right].
    destruct (Hi i) as [[]|]; [|done]. intros e He Hid. destruct (Z.le_gt_cases (ev_at e) h) as [|Hgt]; [done|]. exfalso.
    apply Hni. rewrite <- Hid. apply Hall; [apply Ha; [done|lia|by apply Hq]|by apply (mb_logged _ _ He)].
  - intros ch now Hch Hk. destruct (Hlast ch Hch) as (Hin & _ & Hmax). rewrite Hk in Hin. destruct (Hl _ Hin) as [Hlog Hafter].
    apply settled_deleted; [done|done|]. intros e He Hid Hcur. destruct (Z.le_gt_cases (ev_at e) h) as [|Hgt]; [cbn in Hafter; lia|].
    apply Hmax; [by apply Ha|done].
Qed.

Lemma sure_tombstone cur U i h0 w :
  steady cur U → during cur U w → (∀ now, settled cur (sy_source w) (tombstoneDocument sha256 tenant i h0 now)) →
  surely (emit_tombstone sha256 tenant i h0) (λ r w, during cur U w ∧ (∀ a, r = Ok a → during cur (but U i) w)) w.
Proof using HL.
  intros HU Hw Hs s Hc. split; [by apply truthful_move; [|apply Hw]|]. intros ip. apply (sure_settled cur U); [done| |].
  - by apply during_stable.
  - eapply settled_later; [exact Hc|]. apply Hs.
Qed.

Lemma sure_change cur ch chs w :
  replaying cur (ch :: chs) w →
  surely (replay_change sha256 tenant cur ch) (λ r w, truthful w ∧ (∀ a, r = Ok a → during cur (λ _ i, i ∈ lc_msgID <$> chs) w)) w.
Proof using HL readable.
  intros Hw. set (U := λ (_ : S) (i : string), i ∈ lc_msgID <$> ch :: chs). assert (HU : steady cur U) by apply steady_in.
  assert (Hpost : ∀ (r : result ConnErr unit) v, during cur U v ∧ (∀ a, r = Ok a → during cur (but U (lc_msgID ch)) v) →
    truthful v ∧ (∀ a, r = Ok a → during cur (λ _ i, i ∈ lc_msgID <$> chs) v)).
  { intros r w' [Hd Hok]. split; [by destruct Hd|]. intros a Ha. eapply during_weaken; [|exact (Hok a Ha)].
    intros i [[?|?]%elem_of_cons Hne]; [by destruct Hne|done]. }
  unfold replay_change. destruct (lc_kind ch) eqn:Hk.
  - eapply sure_ask; [apply replaying_stable|by intros ? [[] _]|exact Hw|]. clear w Hw. intros w ip [Hd Hs].
    destruct (g_answer _ (GetMessage (lc_msgID ch)) ip (sy_source w)) as [m|e] eqn:Eg.
    + eapply sure_mono; [exact Hpost|]. apply mb_get in Eg. by eapply (sure_message cur U (sy_source w)); [|..|apply Hd| |].
    + destruct (isNotFound e) eqn:Ee.
      * apply (mb_get_gone _ _ _ _ Eg) in Ee. eapply sure_mono; [exact Hpost|]. apply (sure_tombstone cur U); [done|done|].
        intros now. apply settled_gone; [apply Hd|done].
      * apply (sure_ret _ _ _ (during cur U)); [by apply during_stable|by intros ? []|done|]. intros w' []. done.
  - destruct Hw as [Hd Hs]. eapply sure_mono; [exact Hpost|]. apply (sure_tombstone cur U); [done|done|].
    intros now. apply Hs; [by left|done].
Qed.

Lemma sure_changes cur chs w :
  replaying cur chs w →
  surely (replay_changes sha256 tenant cur chs) (λ r w, truthful w ∧ (∀ a, r = Ok a → during cur nobody w)) w.
Proof using HL readable.
  assert (Hst : stable g_change truthful) by (intros w' s; apply truthful_move).
  revert w. induction chs as [|ch chs IH]; intros w Hw; cbn [replay_changes].
  { apply (sure_ret _ _ _ (replaying cur [])); [apply replaying_stable|by intros ? [[] _]|done|].
    intros w' [Hd _]. split; [by destruct Hd|]. intros _ _. eapply during_weaken; [|exact Hd]. by intros i ?%not_elem_of_nil. }
  eapply (sure_do _ _ _ (replaying cur (ch :: chs)) _ _ (λ _, replaying cur (ch :: chs)));
    [apply replaying_stable|by intros ? [[] _]|by intros e w' [[] _]|apply sure_ctx; [apply replaying_stable|by intros ? [[] _]|done]|].
  clear w Hw. intros _ w _ Hw.
  eapply (sure_do _ _ _ truthful _ _ (λ _, replaying cur chs)); [done|done|by intros e w'| |by intros _ w' _; apply IH].
  eapply sure_mono; [|eapply (sure_frame _ _ _ (λ s, ∀ c now, c ∈ chs → lc_kind c = changeDeleted →
    settled cur s (tombstoneDocument sha256 tenant (lc_msgID c) (lc_historyID c) now))); [| |by apply sure_change]].
  - intros r w' [[Ht Hok] Hk]. split; [done|]. intros a Ha. split; [by apply (Hok a)|by apply Hk].
  - intros s s' Hc Hk c now Hin Hkc. eapply settled_later; [exact Hc|]. by apply Hk.
  - intros c now Hin Hkc. apply Hw; [by right|done].
Qed.

Lemma sure_replay h n0 fuel w :
  0 <= h → n0 <= now_id (sy_source w) → (history_left h "" < fuel)%nat → during h nobody w →
  surely (replayHistory sha256 fuel tenant h)
    (λ r w, truthful w ∧ (∀ cur, r = Ok cur → ∃ g, cur = incrementalCursor g ∧ 0 <= g < 2 ^ 64 ∧ n0 <= g ∧ caught_up g w)) w.
Proof using HL readable.
  intros Hh Hn0 Hf Hw. assert (Hst : stable g_change truthful) by (intros w' s; apply truthful_move). unfold replayHistory.
  eapply (sure_do _ _ _ truthful _ _ (λ a w, collected h a.1 a.2 w ∧ h <= a.2 ∧ n0 <= a.2)); [done|done|by intros e w'| |].
  - apply sure_history; [done|]. pose proof (du_inv _ _ _ Hw) as [Hn _]. split; [|lia|done]. rewrite mb_position.
    split; [done|done|by intros r ?%not_elem_of_nil| |intros; lia]. by intros e (r & evs & ?%not_elem_of_nil & _).
  - clear w Hw Hn0. intros [recs cur] w _ (Hc & Hle & Hn). cbn [fst snd] in *.
    destruct (foldHistory recs) as [chs|] eqn:Ef; [|by apply whole_fold in Ef; [|apply Hc]].
    eapply (sure_do _ _ _ truthful _ _ (λ _, during cur nobody)); [done|done|by intros e w'| |].
    + apply sure_changes. by eapply collected_replaying.
    + clear w Hc. intros _ w _ Hw. apply (sure_ret _ _ _ (during cur nobody)); [apply during_stable, steady_nobody|by intros ? []|done|].
      intros w' Hw'. split; [by destruct Hw'|]. intros c [= <-]. exists cur.
      assert (Hcur : 0 <= cur) by lia.
      split_and!; [done|done|apply (during_bound _ _ _ Hcur Hw')|done|apply Hw'].
Qed.

(** ** A pass *)

(** A pass: a full sync when no cursor is stored, an incremental one otherwise. *)
Definition gmail_pass (fuel : nat) (cfg : Config) (cur : string) : api GmailReq (result ConnErr string) :=
  if String.eqb cur "" then gmail_FullSync sha256 fuel cfg else gmail_IncrementalSync sha256 fuel cfg cur.

(** Fuel for the pages a pass may read. *)
Definition enough (fuel : nat) (cur : string) : Prop :=
  match parseCursor cur with
  | Ok (mkCursor h None) => (history_left h "" < fuel)%nat
  | Ok (mkCursor _ (Some t)) => (pages_left t < fuel)%nat
  | Err _ => (pages_left "" < fuel)%nat
  end.

(** Nothing was indexed, or it was deleted since. *)
Definition fresh (w : W) : Prop := sy_cursor w = "" ∧ ∀ i doc, sy_index w !! i = Some doc → is_deleted doc = true.

(** What a pass that began at the history id [n0] with the cursor [cur0] answers. *)
Definition pass_answer (n0 : Z) (cur0 : string) (r : result ConnErr string) (w : W) : Prop :=
  ∀ cur, r = Ok cur → ∃ h, cur = incrementalCursor h ∧ caught_up h w ∧ truthful (store_cursor cur w) ∧
    match parseCursor cur0 with Ok (mkCursor g (Some _)) => h = g | _ => n0 <= h end.

Lemma answer_intro n0 cur0 r w h :
  (∀ cur, r = Ok cur → cur = incrementalCursor h ∧ 0 <= h < 2 ^ 64 ∧ caught_up h w) →
  match parseCursor cur0 with Ok (mkCursor g (Some _)) => h = g | _ => n0 <= h end → pass_answer n0 cur0 r w.
Proof using Type.
  intros Hr Hc cur Hok. destruct (Hr cur Hok) as (-> & Hb & Hw). exists h. split_and!; [done|done| |done].
  unfold truthful. cbn. by rewrite parse_incremental.
Qed.

(** What a step answers while [J] holds of every world. *)
Lemma sure_config (J : W → Prop) cfg w :
  stable g_change J → (∀ w, J w → truthful w) → J w → surely (config cfg) (λ r w, J w ∧ (∀ a, r = Ok a → J w)) w.
Proof using Type.
  intros HJ HI Hw. unfold config, fail. destruct (parseConfig _); by apply (sure_ret _ _ _ J).
Qed.

Lemma sure_service (J : W → Prop) w :
  stable g_change J → (∀ w, J w → truthful w) → J w → surely service (λ r w, J w ∧ (∀ a, r = Ok a → J w)) w.
Proof using Type.
  intros HJ HI Hw. eapply sure_ask; [exact HJ|exact HI|exact Hw|]. intros w' ip Hw'. unfold fail.
  destruct (g_answer _ _ _ _); by apply (sure_ret _ _ _ J).
Qed.

Lemma fresh_truthful w : fresh w → truthful w.
Proof using Type. intros [Hc _]. unfold truthful. by rewrite Hc. Qed.

Lemma fresh_during w : fresh w → during (now_id (sy_source w)) (to_list "") w.
Proof using HL.
  intros Hw. split; [by apply fresh_truthful|destruct Hw as [Hc _]; intros st; by rewrite Hc|]. split; [done|]. intros i _.
  destruct Hw as [_ Ht]. destruct (mail (sy_source w) !! i) as [m|] eqn:Em; [left|right].
  - split; [apply mb_first|]; eauto.
  - intros doc. apply Ht.
Qed.

Lemma sure_current n0 w :
  n0 <= now_id (sy_source w) → fresh w →
  surely currentHistoryID (λ r w, truthful w ∧ (∀ h, r = Ok h → 0 <= h ∧ n0 <= h ∧ during h (to_list "") w)) w.
Proof using HL.
  intros Hn Hw. set (J := λ w : W, n0 <= now_id (sy_source w) ∧ fresh w).
  assert (HJ : stable g_change J) by (intros w' s Hc [? ?]; destruct (mb_later _ _ Hc); split; [cbn; lia|done]).
  assert (HI : ∀ w, J w → truthful w) by (intros w' [_ ?]; by apply fresh_truthful).
  assert (Hok : ∀ w, J w → surely (ARet (Ok (now_id (sy_source w))))
    (λ (r : result ConnErr Z) w, truthful w ∧ (∀ h, r = Ok h → 0 <= h ∧ n0 <= h ∧ during h (to_list "") w)) w).
  { intros w' [Hn' Hf]. pose proof (mb_now (sy_source w')). apply (sure_ret _ _ _ (during (now_id (sy_source w')) (to_list ""))).
    - apply during_stable, steady_to_list.
    - by intros ? [].
    - by apply fresh_during.
    - intros w'' Hd. split; [by destruct Hd|]. intros h [= <-]. split_and!; [lia|done|done]. }
  unfold currentHistoryID, fail. eapply sure_ask; [exact HJ|exact HI|by split|]. clear w Hn Hw. intros w ip Hw.
  destruct (g_answer _ GetProfile ip (sy_source w)) as [[e h]|e] eqn:Eg; [by rewrite (mb_profile _ _ _ _ Eg); apply Hok|].
  destruct (negb _); [apply (sure_ret _ _ _ J); try done; intros ??; split; [by apply HI|done]|].
  eapply sure_ask; [exact HJ|exact HI|exact Hw|]. clear w Eg Hw. intros w jp Hw.
  destruct (g_answer _ ProbeHistory jp (sy_source w)) as [h|e'] eqn:Ep; [by rewrite (mb_probe _ _ _ Ep); apply Hok|].
  apply (sure_ret _ _ _ J); try done; intros ??; split; [by apply HI|done].
Qed.

Lemma sure_full fuel cfg w :
  tenantID (c_tenant cfg) = tenant → (pages_left "" < fuel)%nat → fresh w →
  surely (gmail_FullSync sha256 fuel cfg) (pass_answer (now_id (sy_source w)) "") w.
Proof using HL readable.
  intros Ht Hf Hw. unfold gmail_FullSync. rewrite Ht. set (n0 := now_id (sy_source w)). set (J := λ w : W, n0 <= now_id (sy_source w) ∧ fresh w).
  assert (HJ : stable g_change J) by (intros w' s Hc [? ?]; destruct (mb_later _ _ Hc); split; [cbn; lia|done]).
  assert (HI : ∀ w, J w → truthful w) by (intros w' [_ ?]; by apply fresh_truthful).
  assert (Hj : J w) by by split. clearbody n0. clear Hw.
  eapply (sure_do _ _ _ J _ _ (λ _, J)); [exact HJ|exact HI|by intros e w' _ cur|by apply sure_config|].
  clear w Hj. intros conf w _ Hj. eapply (sure_do _ _ _ J _ _ (λ _, J)); [exact HJ|exact HI|by intros e w' _ cur|by apply sure_service|].
  clear w Hj. intros _ w _ [Hn Hw]. eapply (sure_do _ _ _ truthful); [intros w' s; apply truthful_move|done|by intros e w' _ cur|by apply (sure_current n0)|].
  clear w Hn Hw. intros h w _ (Hh & Hn & Hd). eapply sure_mono; [|by apply sure_backfill].
  intros r w' [_ Hk]. apply (answer_intro _ _ _ _ h Hk). done.
Qed.

Lemma sure_incremental fuel cfg w :
  tenantID (c_tenant cfg) = tenant → enough fuel (sy_cursor w) → truthful w →
  surely (gmail_IncrementalSync sha256 fuel cfg (sy_cursor w)) (pass_answer (now_id (sy_source w)) (sy_cursor w)) w.
Proof using HL readable.
  intros Ht Hf Hw. unfold gmail_IncrementalSync, enough in *. rewrite Ht. set (n0 := now_id (sy_source w)).
  set (J := λ v : W, n0 <= now_id (sy_source v) ∧ sy_cursor v = sy_cursor w ∧ truthful v).
  assert (HJ : stable g_change J).
  { intros w' s Hc (? & ? & ?). destruct (mb_later _ _ Hc). split_and!; [cbn; lia|done|by apply truthful_move]. }
  assert (HI : ∀ w, J w → truthful w) by by intros w' (_ & _ & ?).
  assert (Hj : J w) by done. clearbody n0. clear Hw. generalize dependent (sy_cursor w). intros cur0 Hf J HJ HI Hj.
  eapply (sure_do _ _ _ J _ _ (λ _, J)); [exact HJ|exact HI|by intros e w' _ cur|by apply sure_config|].
  clear w Hj. intros conf w _ Hj. destruct (parseCursor cur0) as [[h page]|e] eqn:Ep; [|by apply (sure_ret _ _ _ J)].
  destruct (parseCursor_bound _ _ Ep) as [Hb _]. cbn [cs_page cs_historyID] in *.
  eapply (sure_do _ _ _ J _ _ (λ _, J)); [exact HJ|exact HI|by intros e w' _ cur|by apply sure_service|].
  clear w Hj. intros _ w _ (Hn & Hc & Hw). assert (Hs : in_sight h w) by (intros st; rewrite Hc, Ep; by intros [= <-]).
  pose proof Hw as Ht'. unfold truthful in Ht'. rewrite Hc, Ep in Ht'. destruct page as [t|].
  - eapply sure_mono; [|by apply (sure_backfill h conf fuel t); [apply Hb|..]]. intros r w' [_ Hk].
    apply (answer_intro _ _ _ _ h Hk). by rewrite Ep.
  - eapply sure_mono; [|by apply (sure_replay h n0); [apply Hb|..]]. intros r w' [_ Hk] cur Hok.
    destruct (Hk cur Hok) as (g & -> & Hg & Hn' & Hcu).
    eapply (answer_intro _ _ (Ok (incrementalCursor g))); [by intros c [= <-]|by rewrite Ep|done].
Qed.
End converge.


(** ** A mailbox with two states

    First it holds the message a, added at history id 1; then a is deleted at 2
    and b added at 3. *)
#[local] Instance two_casing : Casing := {| ToLower s := s; ToUpper s := s |}.
#[local] Instance two_folding : Folding := {| fold_eq := String.eqb |}.
#[local] Instance two_html : HtmlEntities := {| UnescapeString s := s |}.
#[local] Instance two_mail : Mail := {| ParseAddressList _ := None; ParseAddress _ := None |}.
#[local] Instance two_quoting : Quoting := {| Quote s := s |}.
#[local] Instance two_urls : URLs := {| url_Parse _ := None |}.
#[local] Instance two_deps : Deps :=
  {| uuid_Parse s := Some s; ts_CheckValid _ := true; ts_AsTime _ := 0; ts_New _ := mkTimestamp 0 0 |}.
#[local] Instance two_json : GmailJson := {|
  config_json _ := Ok (mkGmailConfig "" "u@x" ""); envelope_json _ := Err "";
  notification_json _ := Err "" |}.

Definition two_message (i : string) : Message := mkMessage i "t" [] 1 0 None.

Definition two_log (s : bool) : list event :=
  if s then [("a", changeAdded, 1); ("a", changeDeleted, 2); ("b", changeAdded, 3)] else [("a", changeAdded, 1)].

Definition two_mailbox (s : bool) : gmap string Message :=
  if s then {["b" := two_message "b"]} else {["a" := two_message "a"]}.

Definition two_now (s : bool) : Z := if s then 3 else 1.

Definition two_record (e : event) : option History :=
  Some (match e with
        | (i, changeAdded, h) => mkHistory h [] [Some (Some i)]
        | (i, changeDeleted, h) => mkHistory h [Some (Some i)] []
        end).

Definition two_answer X (q : GmailReq X) (_ : Inp) (s : bool) : X :=
  match q with
  | NewService => Ok tt
  | GetProfile => Ok ("u@x", two_now s)
  | ListOne => Ok tt
  | ListMessages t =>
    if String.eqb t "" then Ok ([Some (if s then "b" else "a")], "") else Err (mkApiErr false "invalid page token")
  | GetMessage i => match two_mailbox s !! i with Some m => Ok m | None => Err (mkApiErr true "not found") end
  | ListHistory h t =>
    if String.eqb t "" then Ok (two_record <$> List.filter (λ e, h <? ev_at e) (two_log s), two_now s, "")
    else Err (mkApiErr false "invalid page token")
  | ProbeHistory => Ok (two_now s)
  | Watch _ => Ok tt
  | CheckCtx => Ok tt
  | TimeNow => 0
  end.

#[local] Instance two_states : Mailbox bool := {|
  g_answer := two_answer;
  g_change s s' := s = true → s' = true;
  mail := two_mailbox; log := two_log; now_id := two_now;
  unlisted s t := if String.eqb t "" then dom (two_mailbox s) else ∅;
  position h t := h; pages_left _ := 0%nat; history_left _ _ := 0%nat |}.

Lemma two_records l e : in_records (two_record <$> l) e ↔ e ∈ l.
Proof.
  split.
  - intros (r & evs & Hr & He & Hin). apply list_elem_of_fmap in Hr as ([[i k] h] & Hx & Hl).
    destruct k; injection Hx as ->; cbn in He; injection He as <-; by apply list_elem_of_singleton in Hin as ->.
  - intros He. destruct e as [[i k] h]. apply (list_elem_of_fmap_2 two_record) in He.
    destruct k; eexists _, _; (split_and!; [exact He|done|by left]).
Qed.

Lemma two_lookup s i m : two_mailbox s !! i = Some m ↔ i = (if s then "b" else "a") ∧ m = two_message i.
Proof. destruct s; (etrans; [apply lookup_singleton_Some|naive_solver]). Qed.

Lemma two_logged s e : e ∈ two_log s ↔
  e = ("a", changeAdded, 1) ∨ s = true ∧ (e = ("a", changeDeleted, 2) ∨ e = ("b", changeAdded, 3)).
Proof. destruct s; unfold two_log; rewrite !elem_of_cons, elem_of_nil; naive_solver. Qed.

Lemma two_core s s' i : (s = true → s' = true) → (∀ e, e ∈ two_log s' → ev_id e = i → e ∈ two_log s) →
  core <$> two_mailbox s' !! i = core <$> two_mailbox s !! i.
Proof.
  intros Hc Hl. destruct s, s'; [done|by discriminate Hc| |done]. unfold two_mailbox.
  rewrite (lookup_singleton_ne "b"), (lookup_singleton_ne "a"); [done| |]; intros <-.
  - specialize (Hl ("a", changeDeleted, 2)). rewrite !two_logged in Hl. naive_solver.
  - specialize (Hl ("b", changeAdded, 3)). rewrite !two_logged in Hl. naive_solver.
Qed.

#[local] Instance two_laws : MailboxLaws bool.
Proof.
  split; cbn.
  - split; [by intros s|by intros s1 s2 s3 H1 H2 H3; auto].
  - intros s i m [-> ->]%two_lookup. by destruct s.
  - intros []; cbn; lia.
  - intros s e. rewrite two_logged. intros [->|[-> [-> | ->]]]; cbn; [destruct s; cbn| |]; (split; [lia|done]).
  - intros s i h. rewrite two_logged. intros Hd _. destruct Hd as [?|[-> [?|?]]]; simplify_eq. done.
  - intros s s' Hc. split_and!; [destruct s, s'; cbn; (lia || by discriminate Hc)|intros e; rewrite !two_logged; naive_solver|].
    intros e. rewrite !two_logged. destruct s; [naive_solver|]. intros [->|[-> [-> | ->]]]; [left; by left|right; done..].
  - apply two_core.
  - intros s s' t i Hc Hu Hm. destruct (String.eqb t ""); [by apply elem_of_dom|done].
  - intros s i Hm. by apply elem_of_dom.
  - by intros i s e h [= _ <-].
  - by intros i s h [= <-].
  - intros i s t refs next j Ha Hj. destruct (String.eqb t ""); [|done]. injection Ha as <- <-. left.
    apply elem_of_dom in Hj as [m [-> _]%two_lookup]. by left.
  - intros i s t refs next Ha. destruct (String.eqb t ""); [|done]. injection Ha as <- <-. split; [|done].
    by intros ?%list_elem_of_singleton.
  - intros i s j m Ha. destruct (two_mailbox s !! j); [|done]. by injection Ha as <-.
  - intros i s j e Ha. by destruct (two_mailbox s !! j).
  - done.
  - intros i s h t recs cur next Ha. destruct (String.eqb t ""); [|done]. injection Ha as <- <- <-. split_and!; [done|done| | |].
    + intros r Hr. apply list_elem_of_fmap in Hr as ([[j k] h'] & -> & _). destruct k; eexists; (split; [done|by eexists]).
    + intros e He%two_records. rewrite list_elem_of_In, filter_In, <- list_elem_of_In in He. destruct He. split; [done|lia].
    + intros e He Hh _. apply two_records. rewrite list_elem_of_In, filter_In, <- list_elem_of_In. split; [done|lia].
Qed.

Definition two_cfg : Config := mkSdkConfig (mkContext "t1" "t1") "i1" "{}" None.
Definition two_inp : Inp := mkInp None None (mkEnv (λ _, 0) (λ _, 0) "").

(** The first sync of the mailbox, which changes after the listing. *)
Definition two_start : Synced bool := mkSynced false ∅ "".
Definition two_end : Synced bool := mkSynced true ∅ "history:1".

Lemma two_readable s i m : mail s !! i = Some m → readable_mail m.
Proof. by intros [-> ->]%two_lookup p. Qed.


(** * The Gmail connector: what goes wrong

    Three behaviours the code does not mean to have: a mail body whose lower
    case is longer than itself, and a null entry in a listing, panic the
    connector, and with it the hub; and a full sync after an expired cursor
    leaves deleted messages in the index. *)

(** A message with that text as its HTML body, in base64. *)
Definition wide_mail (id : string) : Message :=
  mkMessage id "t" [] 1 0 (Some (mkPart "text/html" [] (Some "yLrIusi6yLrIusi6yLrIusi6yLrIusi6yLrIusi6yLrIusi6yLrIujxzdHlsZQ==") [])).

Lemma wide_data : decodeBase64 "yLrIusi6yLrIusi6yLrIusi6yLrIusi6yLrIusi6yLrIusi6yLrIujxzdHlsZQ==" = Some (to_bytes wide_text).
Proof. vm_compute. reflexivity. Qed.

Section faults.
Context `{!Casing, !Folding, !HtmlEntities, !Mail, !Deps, !Quoting, !URLs, !GmailJson} (sha256 : bytes → bytes).

Lemma wide_mail_panics tenant id :
  ToLower wide_text = wide_lower → ToLower "text/html" = "text/html" → id ≠ "" → messageDocument sha256 tenant (wide_mail id) = None.
Proof using Type.
  intros Hl Ht Hid. unfold messageDocument. cbn [ms_Id wide_mail]. destruct (String.eqb_spec id ""); [done|].
  cbn [ms_Payload wide_mail headerValue mp_Headers header_in mbind option_bind].
  unfold extractBody. cbn [walkParts mapM]. unfold part_text. cbn [mp_Data mp_MimeType]. rewrite Ht, wide_data, of_to_bytes.
  change (HasPrefix "text/html" "text/plain") with false. change (HasPrefix "text/html" "text/html") with true. cbn iota.
  by rewrite stripHTML_panics.
Qed.

Lemma page_panics tenant id refs (o : Oracle GmailReq) n (k : unit → api GmailReq (result ConnErr string)) :
  messageDocument sha256 tenant (wide_mail id) = None → o n _ (GetMessage id) = Ok (wide_mail id) →
  resolve o n (atry (backfill_page sha256 tenant (Some id :: refs)) k) = ConnPanic.
Proof using Type. intros Hm Ho. cbn [backfill_page atry abind resolve]. rewrite Ho. unfold emit_message. by rewrite Hm. Qed.
End faults.

(** Where lower-casing follows Unicode, twenty times U+023A before an unclosed
    style tag make a text that is longer in lower case: a first sync that is
    answered a mail with it as its HTML body ends in a panic. *)
Lemma html_mail_panics
    `{!Casing, !Folding, !HtmlEntities, !Mail, !Deps, !Quoting, !URLs, !GmailJson}
    (sha256 : bytes → bytes) (fuel : nat) (o : Oracle GmailReq) (cfg : Config) conf email h id refs next :
  ToLower wide_text = wide_lower → ToLower "text/html" = "text/html" →
  parseConfig (c_config_json cfg) = Ok conf → id ≠ "" →
  o 0%nat _ NewService = Ok tt → o 1%nat _ GetProfile = Ok (email, h) → o 2%nat _ CheckCtx = Ok tt →
  o 3%nat _ (ListMessages "") = Ok (Some id :: refs, next) → o 4%nat _ (GetMessage id) = Ok (wide_mail id) →
  FullSync (gmail_connector sha256 (S fuel) o) cfg = ConnPanic.
Proof.
  intros Hl Ht Hc Hid A0 A1 A2 A3 A4. cbn [FullSync gmail_connector]. unfold gmail_FullSync, config. rewrite Hc.
  cbn [atry abind service resolve]. rewrite A0. cbn [atry abind currentHistoryID resolve]. rewrite A1.
  cbn [atry abind backfill check_ctx resolve]. rewrite A2. cbn [passed atry abind resolve]. rewrite A3.
  by apply page_panics; [apply wide_mail_panics|].
Qed.

(** ** Examples *)
#[local] Existing Instances two_folding two_html two_mail two_quoting two_urls two_deps two_json.

#[local] Instance wide_casing : Casing :=
  {| ToLower s := if String.eqb s wide_text then wide_lower else s; ToUpper s := s |}.

Definition wide_oracle : Oracle GmailReq := λ _ X q,
  match q with
  | NewService => Ok tt
  | GetProfile => Ok ("u@x", 1)
  | ListOne => Ok tt
  | ListMessages _ => Ok ([Some "m1"], "")
  | GetMessage i => Ok (wide_mail i)
  | ListHistory _ _ => Ok ([], 1, "")
  | ProbeHistory => Ok 1
  | Watch _ => Ok tt
  | CheckCtx => Ok tt
  | TimeNow => 0
  end.

Example wide_mail_crashes : FullSync (gmail_connector id 1 wide_oracle) two_cfg = ConnPanic.
Proof. by apply (html_mail_panics id 0 wide_oracle two_cfg (mkGmailConfig "" "u@x" "") "u@x" 1 "m1" [] ""). Qed.

(** A listing with a null entry. *)
Definition null_oracle : Oracle GmailReq := λ n X q,
  match q with ListMessages _ => Ok ([None], "") | q => wide_oracle n _ q end.

Example null_entry_panics : FullSync (gmail_connector id 1 null_oracle) two_cfg = ConnPanic.
Proof. vm_compute. reflexivity. Qed.

(** The message a, indexed, was deleted while the cursor expired: the full sync
    that follows lists b, answers a cursor and leaves a as it was. *)
Example resync_keeps_deleted :
  match messageDocument id "t1" (two_message "a") with
  | Some (Ok d) =>
    let '(m, w) := play two_answer two_inp [] (gmail_FullSync id 1 two_cfg) (mkSynced true {["a" := d]} "") in
    m = ARet (Ok "history:3") ∧ sy_index w !! "a" = Some d ∧ is_deleted d = false ∧ two_mailbox (sy_source w) !! "a" = None
  | _ => False
  end.
Proof. vm_compute. tauto. Qed.
