(* ===== verification/GoMime.v ===== *)
(** * package mime

    [ParseMediaType] up to the parameters, whose grammar (continuations and
    character sets) is a parameter, and [FormatMediaType], as uploads use them;
    [path.Ext] and [utf8.DecodeLastRune]. *)

From stdpp Require Import base gmap strings list.
From Stdlib Require Import Ascii ZArith Lia.
From S2P Require Import Prelude GoStrings GoText GoEncode Chunker.

Open Scope Z_scope.

(** The parameters of a media type, or an error; sorted by name. *)
Class MediaParams := { media_params : string → option (list (string * string)) }.

(** [strings.ToLower] of ASCII text lowers its letters. *)
Definition ascii_text (s : string) : bool := str_forallb (λ a, (byte_val a <? 128)%N) s.
Definition ascii_lower (s : string) : string := of_bytes (Blob.lower_byte <$> to_bytes s).
Class CasingLaws `{!Casing} : Prop := ToLower_ascii : ∀ s, ascii_text s = true → ToLower s = ascii_lower s.

(** ** Tokens *)
Definition tspecials : list ascii :=
  ["("; ")"; "<"; ">"; "@"; ","; ";"; ":"; "\"; "034"; "/"; "["; "]"; "?"; "="]%char.
Definition isTSpecial (a : ascii) : bool := existsb (Ascii.eqb a) tspecials.
Definition isTokenChar (a : ascii) : bool := (0x20 <? zbyte a) && (zbyte a <? 0x7f) && negb (isTSpecial a).

(** [consumeToken] *)
Fixpoint token_bytes (l : bytes) : bytes * bytes :=
  match l with
  | [] => ([], [])
  | a :: l' => if isTokenChar a then let '(t, r) := token_bytes l' in (a :: t, r) else ([], l)
  end.

Definition isToken (s : string) : bool := negb (String.eqb s "") && str_forallb isTokenChar s.

Definition checkMediaTypeDisposition (s : string) : bool :=
  match token_bytes (to_bytes s) with
  | ([], _) => false
  | (_, []) => true
  | (_, "/"%char :: rest) => match token_bytes rest with ([], _) => false | (_, r) => bool_decide (r = []) end
  | _ => false
  end.

Definition before_semicolon (v : string) : string := match Cut v ";" with Some (b, _) => b | None => v end.

Definition mime_ParseMediaType `{!Casing, !MediaParams} (v : string) : option (string * list (string * string)) :=
  let base := before_semicolon v in
  let mediatype := TrimSpace (ToLower base) in
  if checkMediaTypeDisposition mediatype then
    params ← media_params (drop_str (String.length base) v); Some (mediatype, params)
  else None.

(** ** Formatting *)
Definition needsEncoding (v : string) : bool :=
  existsb (λ r, ((r.1 <? 0x20) || (0x7e <? r.1)) && negb (r.1 =? 9)) (runes v).

Definition upper_hex (n : N) : ascii := ascii_of_N (if (n <? 10)%N then 48 + n else 55 + n)%N.

Definition percent_byte (a : ascii) : bytes :=
  if (zbyte a <=? 0x20) || (0x7f <=? zbyte a) || existsb (Ascii.eqb a) ["*"; "'"; "%"]%char || isTSpecial a
  then ["%"%char; upper_hex (byte_val a / 16); upper_hex (byte_val a mod 16)] else [a].

Definition quote_byte (a : ascii) : bytes := if Ascii.eqb a "034" || Ascii.eqb a "\" then ["\"%char; a] else [a].

Definition format_param `{!Casing} (p : string * string) : option string :=
  let '(attribute, value) := p in
  if negb (isToken attribute) then None
  else
    let head := "; " +:+ ToLower attribute in
    Some (if needsEncoding value then head +:+ "*=utf-8''" +:+ of_bytes (flat_map percent_byte (to_bytes value))
          else if isToken value then head +:+ "=" +:+ value
          else head +:+ "=" +:+ of_bytes ("034"%char :: flat_map quote_byte (to_bytes value) ++ ["034"%char])).

(** [""] when the result would be malformed. *)
Definition mime_FormatMediaType `{!Casing} (t : string) (params : list (string * string)) : string :=
  let head :=
    match Cut t "/" with
    | None => if isToken t then Some (ToLower t) else None
    | Some (major, sub) => if isToken major && isToken sub then Some (ToLower major +:+ "/" +:+ ToLower sub) else None
    end in
  match head, mapM format_param params with
  | Some h, Some ps => h +:+ String.concat "" ps
  | _, _ => ""
  end.

(** ** path and utf8 *)
Fixpoint ext_rev (acc : bytes) (l : bytes) : bytes :=
  match l with
  | [] => []
  | a :: l' => if Ascii.eqb a "/" then [] else if Ascii.eqb a "." then a :: acc else ext_rev (a :: acc) l'
  end.

(** [path.Ext] *)
Definition Ext (p : string) : string := of_bytes (ext_rev [] (rev (to_bytes p))).

(** Where the last rune may start: at the last [RuneStart] byte among the [n]
    before [start], [lim] when there is none. *)
Fixpoint rune_back (b : bytes) (n start : nat) : nat :=
  match n, start with
  | O, _ => start
  | _, O => O
  | S n', S start' =>
    match b !! start' with
    | Some a => if RuneStart a then start' else rune_back b n' start'
    | None => start'
    end
  end.

(** [utf8.DecodeLastRune] of a non-empty text: whether it is (RuneError, 1). *)
Definition last_rune_broken (b : bytes) : bool :=
  match last b with
  | None => false
  | Some a =>
    if (byte_val a <? 128)%N then false
    else
      let start := rune_back b 3 (length b - 1) in
      let '(r, size) := DecodeRune (drop start b) in
      negb (start + size =? length b)%nat || ((r =? RuneError) && (size =? 1)%nat)
  end.
