(* ===== verification/Upload.v ===== *)
(** * Direct uploads

    Models [connectors/upload]: [HandleUpload] with the content type it keeps,
    the document it builds and the blob it stores, and the connector that has
    nothing to sync. *)

From stdpp Require Import base gmap strings list pretty.
From Stdlib Require Import Ascii ZArith Lia.
From S2P Require Import Prelude GoStrings GoText GoEncode Tenancy Crypto CryptoProofs Blob ControlPlane Document Kafka HubSync GoMime.

Open Scope Z_scope.

Definition MaxUploadBytes : Z := 32 * 2 ^ 20.
Definition maxBodyTextBytes : Z := 2 ^ 20.
Definition ID : string := "upload".

Inductive UploadErr := ErrTooLarge | UpErr_NoTenant | UpErr_Msg (msg : string) | UpErr_Store (e : BlobErr).

Definition activeContentTypes : list string :=
  ["text/html"; "application/xhtml+xml"; "image/svg+xml"; "application/xml"; "text/xml"; "application/xslt+xml";
   "text/javascript"; "application/javascript"; "application/x-javascript"; "application/ecmascript"; "text/ecmascript";
   "application/x-shockwave-flash"].

Section upload.
Context `{!Casing, !MediaParams}.

Definition sanitizeContentType (contentType : string) : string :=
  match mime_ParseMediaType contentType with
  | None => defaultContentType
  | Some (mediaType, params) =>
    let mediaType := ToLower (TrimSpace mediaType) in
    match IndexByte mediaType "/" with
    | None => defaultContentType
    | Some slash =>
      if (slash =? 0)%nat || (slash =? String.length mediaType - 1)%nat then defaultContentType
      else if existsb (String.eqb mediaType) activeContentTypes then defaultContentType
      else
        let formatted := mime_FormatMediaType mediaType params in
        if String.eqb formatted "" then mediaType else formatted
    end
  end.

Definition classifyDocType (contentType : string) : DocType :=
  match mime_ParseMediaType contentType with
  | None => FILE
  | Some (mediaType, _) =>
    if HasPrefix mediaType "image/" then IMAGE
    else if HasPrefix mediaType "video/" then VIDEO
    else if HasPrefix mediaType "audio/" then AUDIO else FILE
  end.

Definition isTextual (contentType filename : string) : bool :=
  match mime_ParseMediaType contentType with
  | Some (mediaType, _) => HasPrefix mediaType "text/"
  | None => false
  end || existsb (String.eqb (ToLower (Ext filename))) [".txt"; ".md"].

(** Rounds of the loop that drops a broken last rune. *)
Fixpoint drop_broken (n : nat) (b : bytes) : bytes :=
  match n with
  | O => b
  | S n' => if bool_decide (b = []) || negb (last_rune_broken b) then b else drop_broken n' (take (length b - 1) b)
  end.

Definition truncateUTF8 (b : bytes) (max : Z) : string :=
  of_bytes (if Z.of_nat (length b) <=? max then b else drop_broken 3 (take (Z.to_nat max) b)).

Context `{!GCM} {DS : Type} `{!DEKStore DS} {K : Type} `{!KEKProvider K} (kek : K).
Context {O : Type} `{!objectAPI O} `{!Deps} (sha256 : bytes → bytes) (bucket : string).

Definition upload_key (content : bytes) : string := "upload/" +:+ EncodeToString (sha256 content).

(** The document of a stored file. *)
Definition upload_document (tc : Context) (content : bytes) (filename title contentType : string) (ref : BlobRef) (now : Z) :
    Document :=
  let filename := ToValidUTF8 filename in
  let docTitle := ToValidUTF8 title in
  let docTitle := if String.eqb docTitle "" then filename else docTitle in
  let bodyText := if isTextual contentType filename
    then truncateUTF8 (to_bytes (ToValidUTF8 (of_bytes content))) maxBodyTextBytes else "" in
  mkDoc (tenantID tc) (DocID sha256 ID (upload_key content)) ID (upload_key content) (classifyDocType contentType) docTitle
    bodyText []
    (<["filename" := filename]> (<["content_type" := contentType]> {["size" := pretty (Z.of_nat (length content))]}))
    [] (Some (mkTimestamps (Some (ts_New now)) None None)) None (Some ref) (EncodeToString (sha256 content)) None None.

(** [blobs]: whether a store was wired; the reader yields the file's bytes or an
    error; at most one byte more than the limit is read. *)
Definition HandleUpload (blobs : bool) (tc : Context) (file : option (result string bytes)) (filename title contentType : string)
    (size : Z) : prog (TenantCipher DS * O) (result UploadErr Document) :=
  if negb blobs then Ret (Err (UpErr_Msg "upload: Deps.Blobs is required"))
  else if String.eqb (tenantID tc) "" then Ret (Err UpErr_NoTenant)
  else match file with
  | None => Ret (Err (UpErr_Msg "upload: nil file reader"))
  | Some file =>
    if MaxUploadBytes <? size then Ret (Err ErrTooLarge)
    else match file with
    | Err e => Ret (Err (UpErr_Msg ("upload: read file: " +:+ e)))
    | Ok content =>
      if MaxUploadBytes <? Z.of_nat (length content) then Ret (Err ErrTooLarge)
      else
        let contentType := sanitizeContentType (ToValidUTF8 contentType) in
        bind (Put kek sha256 bucket tc (upload_key content) contentType content) (λ r,
        match r with
        | Err e => Ret (Err (UpErr_Store e))
        | Ok ref =>
          Atomic _ (input (λ i, clock (in_env i) 0)) (λ now,
          Ret (Ok (upload_document tc content filename title contentType ref now)))
        end)
    end
  end.

(** Nothing to sync: a full sync ends at once, an incremental one keeps its
    cursor. *)
Definition upload_connector : Connector := mkConnector (λ _, ConnRet "" None) (λ _ cur, ConnRet cur None).
End upload.
