(* ===== verification/HubHttp.v ===== *)
(** * The connector hub's HTTP surface

    Models [services/connector-hub/internal/hub/http.go] and [media.go]: the
    webhook receiver, direct uploads, the sync-status listing and the internal
    media hop, as programs over the scheduler, the control plane, the broker
    and the blob store.  [net/http] recovers a handler's panic and drops the
    connection: no response then.  The multipart parser is a parameter; logs
    and the telemetry middleware are left out. *)

From stdpp Require Import base gmap strings list pretty.
From Stdlib Require Import Ascii ZArith Lia.
From S2P Require Import Prelude GoStrings Tenancy Crypto CryptoProofs Blob ControlPlane Document Interleave Kafka KafkaProofs Ingest HubScheduler HubSync HubClient GoText GoEncode GoHttp GatewayEdge Gmail GoMime Upload.

Open Scope Z_scope.

Definition tenantHeader : string := "X-Asker-Tenant".
Definition maxUploadBytes : Z := 32 * 2 ^ 20.
Definition maxMediaBytes : Z := 200 * 2 ^ 20.
Definition defaultMediaContentType : string := "application/octet-stream".

Definition in_quotes (s : string) : string := String "034" (s +:+ String "034" "").

(** A parsed form: the part "file" (its name, content type, size and bytes) and
    the value "title". *)
Record FormFile := mkFormFile { ff_name : string; ff_type : string; ff_size : Z; ff_data : result string bytes }.
Record Form := mkForm { fm_file : option FormFile; fm_title : string }.

(** [ParseMultipartForm] on a body cut at the limit; the flag of an error tells
    a body that is too large. *)
Class Multipart := { parse_form : Z → HttpRequest → result bool Form }.

(** [ListConnectorInstances] of the control-plane client. *)
Class StatusClient (C : Type) := { cp_List : Inp → Ctx → C → result CallErr (list PInstance) }.

Definition ConnectorStatus_name (s : Z) : string :=
  if s =? 0 then "CONNECTOR_STATUS_UNSPECIFIED" else if s =? 1 then "ACTIVE" else if s =? 2 then "PAUSED"
  else if s =? 3 then "ERROR" else pretty s.

(** What a connector does with a webhook: it emits and answers, nil or an error
    that may wrap ErrWebhookUnsupported, or panics. *)
Inductive hookRun :=
| HookRet (err : option (bool * string))
| HookPanic
| HookEmit (doc : option Document) (k : result GoErr unit → hookRun).

Section hub.
Context {C : Type} `{!ControlPlaneClient C, !StatusClient C} {B : Type} `{!KafkaAPI B, !ProtoCodec, !Quoting}.
Context `{!Deps, !HubDeps, !Casing, !MediaParams, !Multipart}.
Context `{!GCM} {DS : Type} `{!DEKStore DS} {K : Type} `{!KEKProvider K} (kek : K).
Context {O : Type} `{!objectAPI O} (sha256 : bytes → bytes) (bucket : string).
Context (registry : string → option (Config → HttpRequest → hookRun)) (oauth_on : bool) (base topic : string).
Context (json_Valid : string → bool) (time_JSON : Z → string) (read_body : Inp → bool).
Context (mediaBlobs : bool).

(** The hub's world: its scheduler, the control plane and the broker, the blobs. *)
Record HubWorld := mkHub { hw_sched : scheduler; hw_bus : C * B; hw_blobs : TenantCipher DS * O }.

Definition set_bus (b : C * B) (w : HubWorld) : HubWorld := mkHub (hw_sched w) b (hw_blobs w).
Definition set_blobs (b : TenantCipher DS * O) (w : HubWorld) : HubWorld := mkHub (hw_sched w) (hw_bus w) b.
Definition on_bus {A} (p : prog (C * B) A) : prog HubWorld A := zoom hw_bus set_bus p.
Definition on_blobs {A} (p : prog (TenantCipher DS * O) A) : prog HubWorld A := zoom hw_blobs set_blobs p.
Definition on_broker {A} (p : prog B A) : prog HubWorld A := on_bus (zoom snd (λ b w, (w.1, b)) p).

(** A handler answers, or its panic ends the request. *)
Abbreviation handler := (Call → prog HubWorld (option Response)).
Definition reply (c : Call) (status : Z) (j : Json) : prog HubWorld (option Response) := Ret (Some (writeJSON c status j)).

Definition tenantFromHeader (c : Call) (k : Context → prog HubWorld (option Response)) : prog HubWorld (option Response) :=
  match FromHeaderValue (values_Get (rq_Header (c_req c)) tenantHeader) with
  | Err _ => reply c 401 (json_error "missing or invalid tenant")
  | Ok tc => k tc
  end.

(** ** Webhooks *)
Fixpoint drive_hook (tctx : Ctx) (tc : Context) (connectorID : string) (h : hookRun) :
    prog HubWorld (option (option (bool * string))) :=
  match h with
  | HookRet e => Ret (Some e)
  | HookPanic => Ret None
  | HookEmit doc k => bind (on_broker (emit_doc topic tctx tc connectorID doc)) (λ r, drive_hook tctx tc connectorID (k r))
  end.

Definition handleWebhook : handler := λ c,
  let connectorID := PathValue c 0 in
  let instanceID := PathValue c 1 in
  Atomic _ (λ _ w, (lookup_instance (hw_sched w) instanceID, w)) (λ snap,
  match snap with
  | None => reply c 404 (json_error "unknown connector instance")
  | Some snap =>
    if negb (String.eqb (pi_connector (snap_inst snap)) connectorID) then reply c 404 (json_error "unknown connector instance")
    else match registry connectorID with
    | None => reply c 404 (json_error "unknown connector")
    | Some conn =>
      let tctx := WithContext (c_ctx c) (snap_tenant snap) in
      bind (on_bus (buildConfig oauth_on base tctx snap)) (λ cfg,
      match cfg with
      | Err CfgPanics => Ret None
      | Err (CfgFailed _) => reply c 500 (json_error "webhook processing failed")
      | Ok cfg =>
        bind (drive_hook tctx (snap_tenant snap) connectorID (conn cfg (c_req c))) (λ r,
        match r with
        | None => Ret None
        | Some None =>
          Atomic _ (λ _ w, (tt, mkHub (trigger instanceID (hw_sched w)) (hw_bus w) (hw_blobs w))) (λ _,
          reply c 202 (JObj [("status", JStr "accepted")]))
        | Some (Some (true, _)) => reply c 404 (json_error "connector does not support webhooks")
        | Some (Some (false, _)) => reply c 500 (json_error "webhook processing failed")
        end)
      end)
    end
  end).

(** ** Uploads *)
Definition handleUpload : handler := λ c,
  tenantFromHeader c (λ tc,
  let tctx := WithContext (c_ctx c) tc in
  match parse_form maxUploadBytes (c_req c) with
  | Err tooLarge => reply c (if tooLarge then 413 else 400) (json_error "invalid multipart body")
  | Ok form =>
    match fm_file form with
    | None => reply c 400 (json_error ("multipart field " +:+ in_quotes "file" +:+ " is required"))
    | Some f =>
      bind (on_blobs (HandleUpload kek sha256 bucket true tc (Some (ff_data f)) (ff_name f) (fm_title form) (ff_type f) (ff_size f)))
        (λ r,
      match r with
      | Err _ => reply c 500 (json_error "upload failed")
      | Ok doc =>
        bind (on_broker (emit_doc topic tctx tc "upload" (Some doc))) (λ r,
        match r with
        | Err _ => reply c 500 (json_error "upload failed")
        | Ok _ => reply c 202 (JObj [("doc_id", JStr (doc_id doc))])
        end)
      end)
    end
  end).

(** ** Sync status *)
Definition instanceToJSON (inst : PInstance) : Json :=
  let cfg := pi_config inst in
  JObj [("id", JStr (pi_id inst)); ("connector_id", JStr (pi_connector inst)); ("display_name", JStr (pi_display inst));
        ("config", JRaw (to_bytes (if String.eqb cfg "" || negb (json_Valid cfg) then "{}" else cfg)));
        ("status", JStr (ConnectorStatus_name (pi_status inst))); ("created", JStr (time_JSON (ts_AsTime (pi_created inst))));
        ("updated", JStr (time_JSON (ts_AsTime (pi_updated inst))))].

(** Absent times and an empty error are omitted. *)
Definition syncStateToJSON (st : PSyncState) : Json :=
  let time k ts := match ts with Some ts => [(k, JStr (time_JSON (ts_AsTime ts)))] | None => [] end in
  JObj ([("phase", JStr (default (pretty (ps_phase st)) (SyncPhase_name (ps_phase st))))] ++
        time "last_sync_started" (ps_started st) ++ time "last_sync_completed" (ps_completed st) ++
        (if String.eqb (ps_last_error st) "" then [] else [("last_error", JStr (ps_last_error st))]) ++
        [("docs_emitted", JInt (ps_docs st))]).

Definition read_client {A} (f : Inp → C → A) (i : Inp) (w : HubWorld) : A * HubWorld := (f i (hw_bus w).1, w).

(** The rows of the listing; [None] when a state cannot be read. *)
Fixpoint status_rows (tctx : Ctx) (l : list PInstance) (out : list Json) : prog HubWorld (option (list Json)) :=
  match l with
  | [] => Ret (Some out)
  | inst :: l' =>
    Atomic _ (read_client (λ i, cp_GetSyncState i tctx (pi_id inst))) (λ r,
    match r with
    | Err e => if is_not_found e then status_rows tctx l' out else Ret None
    | Ok st => status_rows tctx l' (out ++ [JObj [("instance", instanceToJSON inst); ("sync", syncStateToJSON st)]])
    end)
  end.

Definition handleSyncStatus : handler := λ c,
  tenantFromHeader c (λ tc,
  let tctx := WithContext (c_ctx c) tc in
  Atomic _ (read_client (λ i, cp_List i tctx)) (λ r,
  match r with
  | Err _ => reply c 502 (json_error "control plane unavailable")
  | Ok l =>
    bind (status_rows tctx l []) (λ rows,
    match rows with
    | None => reply c 502 (json_error "control plane unavailable")
    | Some out => reply c 200 (JObj [("instances", JArr out)])
    end)
  end)).

(** ** Media *)
Definition mediaSecurityHeaders : list (string * string) :=
  [("X-Content-Type-Options", "nosniff"); ("Content-Disposition", "attachment");
   ("Content-Security-Policy", "default-src 'none'; sandbox"); ("X-Frame-Options", "DENY")].

Definition setMediaSecurityHeaders (c : Call) : Call := foldl (λ c kv, set_header kv.1 kv.2 c) c mediaSecurityHeaders.

Definition handleMediaGet : handler := λ c,
  tenantFromHeader c (λ tc,
  if negb mediaBlobs then reply c 503 (json_error "media store unavailable")
  else
    let key := values_Get (rq_Query (c_req c)) "key" in
    if String.eqb key "" then reply c 400 (json_error ("query parameter " +:+ in_quotes "key" +:+ " is required"))
    else
      bind (on_blobs (GetByKey kek bucket tc key)) (λ r,
      match r with
      | Err BErr_NotFound | Err BErr_TenantMismatch => reply c 404 (json_error "not found")
      | Err BErr_NoTenant => reply c 401 (json_error "missing or invalid tenant")
      | Err _ => reply c 500 (json_error "media fetch failed")
      | Ok (data, contentType) =>
        let contentType := if String.eqb contentType "" then defaultMediaContentType else contentType in
        let c := setMediaSecurityHeaders (set_header "Content-Type" contentType c) in
        Ret (Some (mkResp 200 (c_hdr c) (BBytes data)))
      end)).

Definition mediaBlobRef (ref : BlobRef) : Json :=
  JObj [("bucket", JStr (br_bucket ref)); ("key", JStr (br_key ref)); ("size_bytes", JInt (br_size ref));
        ("content_type", JStr (br_content_type ref)); ("sha256", JStr (br_sha256 ref))].

(** The body is read through [http.MaxBytesReader]; [read_body] is a read that
    fails before the limit. *)
Definition handleMediaPut : handler := λ c,
  tenantFromHeader c (λ tc,
  if negb mediaBlobs then reply c 503 (json_error "media store unavailable")
  else
    let key := values_Get (rq_Query (c_req c)) "key" in
    if String.eqb key "" then reply c 400 (json_error ("query parameter " +:+ in_quotes "key" +:+ " is required"))
    else
      let contentType := values_Get (rq_Query (c_req c)) "content_type" in
      let contentType := if String.eqb contentType "" then defaultMediaContentType else contentType in
      Atomic _ (input read_body) (λ ok,
      if negb ok then reply c 400 (json_error "could not read media body")
      else if maxMediaBytes <? Z.of_nat (length (rq_Body (c_req c))) then reply c 413 (json_error "media body too large")
      else
        bind (on_blobs (Put kek sha256 bucket tc key contentType (rq_Body (c_req c)))) (λ r,
        match r with
        | Err _ => reply c 500 (json_error "media store failed")
        | Ok ref => reply c 201 (mediaBlobRef ref)
        end))).

(** ** Routes *)
Definition hub_routes : list (mux_pattern * handler) :=
  [(mkPattern (Some "POST") [Lit "webhooks"; Wild; Wild], handleWebhook);
   (mkPattern (Some "POST") [Lit "upload"], handleUpload);
   (mkPattern (Some "GET") [Lit "v1"; Lit "sync-status"], handleSyncStatus);
   (mkPattern (Some "GET") [Lit "internal"; Lit "media"], handleMediaGet);
   (mkPattern (Some "PUT") [Lit "internal"; Lit "media"], handleMediaPut)].

Definition hub_route (c : Call) (p : string) : prog HubWorld (option Response) :=
  match find_route hub_routes (rq_Method (c_req c)) (segments p) with
  | Some (h, vs) => h (mkHCall (c_req c) (c_ctx c) (c_claims c) vs (c_hdr c))
  | None => reply c 404 (json_error "not found")
  end.

(** [ServeHTTP] of the mux: the redirect to the clean path first. *)
Definition hub_ServeHTTP : handler := λ c,
  let p := rq_Path (c_req c) in
  if String.eqb p "*" then Ret (Some (WriteHeader c 400))
  else if String.eqb (rq_Method (c_req c)) "CONNECT" then hub_route c p
  else if negb (String.eqb (cleanPath p) p) then Ret (Some (mkResp 301 (header_Set "Location" (cleanPath p) (c_hdr c)) BNone))
  else hub_route c p.
End hub.

(** * The hub's HTTP surface: proofs

    A content type kept from an upload names no type a browser runs script
    from; an uploaded file is served back to its tenant as it came, and to
    nobody else; and every action of serving a request is one of the tenant the
    request, or the notified instance, belongs to. *)

(** ** Media types *)
Definition token_text (l : bytes) : Prop := l ≠ [] ∧ Forall (λ a, isTokenChar a = true) l.

Lemma isToken_spec s : isToken s = true ↔ token_text (to_bytes s).
Proof.
  unfold isToken, token_text, str_forallb. rewrite andb_true_iff, negb_true_iff, String.eqb_neq, forallb_forall, Forall_forall.
  setoid_rewrite <- list_elem_of_In. split; intros [H1 H2]; (split; [|done]); [by destruct s|by intros ->].
Qed.

Lemma token_bytes_spec l : l = (token_bytes l).1 ++ (token_bytes l).2 ∧ Forall (λ a, isTokenChar a = true) (token_bytes l).1.
Proof.
  induction l as [|a l [IH1 IH2]]; [done|]. cbn. destruct (isTokenChar a) eqn:E; [|done].
  destruct (token_bytes l) as [t r]. cbn in *. split; [by rewrite IH1 at 1|by constructor].
Qed.

(** A checked media type: one token, or two with a slash between. *)
Lemma check_shape s : checkMediaTypeDisposition s = true →
  isToken s = true ∨ ∃ major sub, s = major +:+ "/" +:+ sub ∧ isToken major = true ∧ isToken sub = true.
Proof.
  unfold checkMediaTypeDisposition. destruct (token_bytes_spec (to_bytes s)) as [Hs Ht].
  destruct (token_bytes (to_bytes s)) as [[|a t] r] eqn:E1; [done|]. cbn [fst snd] in *.
  destruct r as [|b r]; [intros _; left; apply isToken_spec; rewrite Hs, app_nil_r; by split|].
  destruct (Ascii.eqb_spec b "/") as [->|Hb].
  - destruct (token_bytes_spec r) as [Hr Hu]. destruct (token_bytes r) as [[|a' t'] r'] eqn:E2; [done|]. cbn [fst snd] in *.
    intros Hd%bool_decide_eq_true. subst r'. rewrite app_nil_r in Hr. right. exists (of_bytes (a :: t)), (of_bytes (a' :: t')).
    split_and!; [|by apply isToken_spec; rewrite to_of_bytes; split..].
    apply to_bytes_inj. rewrite !to_bytes_app, !to_of_bytes, Hs, Hr. done.
  - intros H. exfalso. destruct b as [[] [] [] [] [] [] [] []]; done.
Qed.

(** Lower-casing ASCII letters twice is lower-casing them, and tokens stay
    tokens. *)
Lemma lower_byte_idem a : lower_byte (lower_byte a) = lower_byte a.
Proof. by destruct a as [[] [] [] [] [] [] [] []]. Qed.

Lemma lower_token a : isTokenChar a = true → isTokenChar (lower_byte a) = true.
Proof. by destruct a as [[] [] [] [] [] [] [] []]. Qed.

Lemma ascii_lower_idem s : ascii_lower (ascii_lower s) = ascii_lower s.
Proof.
  unfold ascii_lower. rewrite to_of_bytes, <- list_fmap_compose. f_equal. apply list_fmap_ext. intros ? a _. apply lower_byte_idem.
Qed.

Lemma ascii_lower_app s t : ascii_lower (s +:+ t) = ascii_lower s +:+ ascii_lower t.
Proof. unfold ascii_lower. apply to_bytes_inj. by rewrite to_of_bytes, !to_bytes_app, !to_of_bytes, fmap_app. Qed.

Lemma ascii_lower_token s : isToken s = true → isToken (ascii_lower s) = true.
Proof.
  rewrite !isToken_spec. unfold ascii_lower. rewrite to_of_bytes. intros [Hne Hall]. split; [by destruct (to_bytes s)|].
  rewrite Forall_fmap. eapply Forall_impl; [exact Hall|]. intros a. apply lower_token.
Qed.

Lemma token_ascii s : isToken s = true → ascii_text s = true.
Proof.
  rewrite isToken_spec. intros [_ Hall]. unfold ascii_text, str_forallb. apply forallb_forall. intros a Ha%list_elem_of_In.
  rewrite Forall_forall in Hall. specialize (Hall a Ha). by destruct a as [[] [] [] [] [] [] [] []].
Qed.

Lemma token_no_byte s a : isToken s = true → isTokenChar a = false → a ∉ to_bytes s.
Proof. rewrite isToken_spec. intros [_ Hall] Ha Hin. rewrite Forall_forall in Hall. specialize (Hall a Hin). congruence. Qed.

(** What must not be served: HTML, XHTML, SVG, plain XML and XSLT documents,
    scripts and Flash. *)
Definition script_types : list string :=
  ["text/html"; "application/xhtml+xml"; "image/svg+xml"; "text/xml"; "application/xml"; "application/xslt+xml";
   "text/javascript"; "text/ecmascript"; "application/javascript"; "application/x-javascript"; "application/ecmascript";
   "application/x-shockwave-flash"].

(** A content type whose media type, before any parameters, is a lower-case type
    and subtype, and none of these. *)
Definition inert (ct : string) : Prop :=
  ∃ major sub rest, ct = (major +:+ "/" +:+ sub) +:+ rest ∧ (rest = "" ∨ ∃ r, rest = ";" +:+ r) ∧
    isToken major = true ∧ isToken sub = true ∧ ascii_lower (major +:+ "/" +:+ sub) = major +:+ "/" +:+ sub ∧
    (major +:+ "/" +:+ sub) ∉ script_types.

Lemma script_types_active t : t ∈ script_types → existsb (String.eqb t) activeContentTypes = true.
Proof.
  assert (Hall : forallb (λ t, existsb (String.eqb t) activeContentTypes) script_types = true) by (vm_compute; reflexivity).
  intros Ht%list_elem_of_In. exact (proj1 (forallb_forall _ _) Hall t Ht).
Qed.

Section media.
Context `{!Casing} {HCL : CasingLaws} `{!MediaParams}.

Lemma ToLower_token s : isToken s = true → ToLower s = ascii_lower s.
Proof using HCL. intros Hs. by apply ToLower_ascii, token_ascii. Qed.

Lemma params_text ps l : mapM format_param ps = Some l → String.concat "" l = "" ∨ ∃ r, String.concat "" l = ";" +:+ r.
Proof using Type.
  intros Hps%mapM_Some_1. destruct Hps as [|[a v] x ps l Hx _]; [by left|right]. unfold format_param in Hx.
  destruct (negb _); [done|]. injection Hx as <-.
  destruct (needsEncoding v), (isToken v), l; cbn; by eexists.
Qed.

Lemma FormatMediaType_head major sub ps :
  isToken major = true → isToken sub = true → ascii_lower (major +:+ "/" +:+ sub) = major +:+ "/" +:+ sub →
  mime_FormatMediaType (major +:+ "/" +:+ sub) ps = "" ∨
  ∃ rest, mime_FormatMediaType (major +:+ "/" +:+ sub) ps = (major +:+ "/" +:+ sub) +:+ rest ∧ (rest = "" ∨ ∃ r, rest = ";" +:+ r).
Proof using HCL.
  intros Hm Hs Hl. unfold mime_FormatMediaType.
  assert (Hcut : Cut (major +:+ "/" +:+ sub) "/" = Some (major, sub)).
  { change (major +:+ "/" +:+ sub) with (major +:+ String "/" sub). unfold Cut. pose proof (Index_first "/" major sub) as Hi. unfold IndexByte in Hi. unfold Index.
    change (to_bytes "/") with ["/"%char]. rewrite Hi by by apply token_no_byte.
    rewrite take_str_app. do 2 f_equal. rewrite Nat.add_comm. cbn [String.length Nat.add].
    clear. induction major as [|a major IH]; [done|]. apply IH. }
  rewrite Hcut, Hm, Hs. cbn [andb]. rewrite !ToLower_token by done.
  destruct (mapM format_param ps) as [l|] eqn:El; [|by left]. right. exists (String.concat "" l).
  split; [|by eapply params_text]. f_equal. rewrite !ascii_lower_app in Hl. exact Hl.
Qed.

Lemma default_inert : inert defaultContentType.
Proof using Type.
  exists "application", "octet-stream", "". split_and!; [done|by left|done|done|done|].
  intros Hin%list_elem_of_In. vm_compute in Hin. destruct_or!; done.
Qed.

(** What is kept of an untrusted content type is inert. *)
Lemma sanitize_inert ct : inert (sanitizeContentType ct).
Proof using HCL.
  unfold sanitizeContentType, mime_ParseMediaType. set (mt0 := TrimSpace (ToLower (before_semicolon ct))).
  destruct (checkMediaTypeDisposition mt0) eqn:Ec; [|apply default_inert]. destruct (media_params _) as [ps|]; [|apply default_inert].
  cbn [mbind option_bind]. assert (Hidem : TrimSpace mt0 = mt0).
  { apply to_bytes_inj. unfold mt0. by rewrite !TrimSpace_trim, trim_idem. }
  rewrite Hidem. clearbody mt0. destruct (check_shape _ Ec) as [Ht|(major & sub & -> & Hm & Hs)].
  - rewrite ToLower_token, Index_none by (try apply token_no_byte; try apply ascii_lower_token; done). apply default_inert.
  - assert (Hl : ToLower (major +:+ "/" +:+ sub) = ascii_lower major +:+ "/" +:+ ascii_lower sub).
    { rewrite ToLower_ascii; [by rewrite !ascii_lower_app|]. unfold ascii_text. rewrite !str_forallb_app.
      by rewrite !andb_true_iff; split_and!; [apply token_ascii| |apply token_ascii]. }
    rewrite Hl. apply ascii_lower_token in Hm, Hs. set (a := ascii_lower major) in *. set (b := ascii_lower sub) in *.
    assert (Hlow : ascii_lower (a +:+ "/" +:+ b) = a +:+ "/" +:+ b).
    { rewrite !ascii_lower_app. unfold a, b. by rewrite !ascii_lower_idem. }
    change (a +:+ "/" +:+ b) with (a +:+ String "/" b) at 1. rewrite Index_first by by apply token_no_byte.
    destruct (_ || _); [apply default_inert|]. destruct (existsb _ _) eqn:Ea; [apply default_inert|].
    assert (Hact : (a +:+ "/" +:+ b) ∉ script_types) by (intros Hin%script_types_active; congruence).
    destruct (FormatMediaType_head a b ps Hm Hs Hlow) as [->|(rest & -> & Hr)].
    + exists a, b, "". split_and!; [by apply to_bytes_inj; rewrite (to_bytes_app _ ""), app_nil_r|by left|done..].
    + destruct (String.eqb_spec ((a +:+ "/" +:+ b) +:+ rest) "") as [E|_]; [by destruct a|].
      exists a, b, rest. done.
Qed.
End media.

(** ** Uploads served back *)
Lemma hex_digits b a : a ∈ to_bytes (EncodeToString b) → ∃ n, (n < 16)%N ∧ a = Blob.hex_digit n.
Proof.
  unfold EncodeToString. rewrite to_of_bytes. intros Hin. apply list_elem_of_join in Hin as (l & Ha & Hl).
  apply list_elem_of_fmap in Hl as (x & -> & _). pose proof (byte_val_lt x).
  apply elem_of_cons in Ha as [->|[->|?%not_elem_of_nil]%elem_of_cons]; [| |done]; eexists; (split; [|done]).
  - apply N.Div0.div_lt_upper_bound. lia.
  - by apply N.mod_upper_bound.
Qed.

Lemma hex_digit_not n a : (n < 16)%N → a ∈ ["/"; "."]%char → Blob.hex_digit n ≠ a.
Proof.
  intros Hn Ha. assert (Hall : ∀ m, m ∈ seq 0 16 → Blob.hex_digit (N.of_nat m) ≠ a).
  { apply elem_of_cons in Ha as [->|[->|?%not_elem_of_nil]%elem_of_cons]; [| |done]; intros m Hm;
      apply elem_of_seq in Hm; do 16 (destruct m as [|m]; [done|]); lia. }
  specialize (Hall (N.to_nat n)). rewrite N2Nat.id in Hall. apply Hall, elem_of_seq. lia.
Qed.

Lemma upload_key_valid sha256 content : (∀ b, sha256 b ≠ []) → validKey (upload_key sha256 content) = true.
Proof.
  intros Hsha. unfold upload_key. set (h := EncodeToString (sha256 content)).
  assert (Hno : ∀ a, a ∈ ["/"; "."]%char → a ∉ to_bytes h).
  { intros a Ha Hin. apply hex_digits in Hin as (n & Hn & ->). by apply (hex_digit_not n (Blob.hex_digit n)). }
  assert (Hne : h ≠ "") by by apply EncodeToString_nonempty.
  assert (Hs : Split ("upload/" +:+ h) "/" = ["upload"; h]).
  { unfold Split. rewrite to_bytes_app. transitivity (of_bytes <$> (to_bytes "upload" :: split_bytes "/" [] (to_bytes h))); [done|].
    rewrite split_none by (apply Hno; by left). cbn [rev app fmap list_fmap]. by rewrite !of_to_bytes. }
  unfold validKey. rewrite Hs. cbn [String.eqb String.append forallb]. rewrite andb_true_r.
  destruct (String.eqb_spec h ""); [done|]. destruct (String.eqb_spec h ".") as [E|]; [|destruct (String.eqb_spec h "..") as [E|]; [|done]].
  - destruct (Hno "."%char); [right; by left|]. rewrite E. by left.
  - destruct (Hno "."%char); [right; by left|]. rewrite E. by left.
Qed.

Section served.
Context {C : Type} `{!ControlPlaneClient C, !StatusClient C} {B : Type} `{!KafkaAPI B, !ProtoCodec, !Quoting}.
Context `{!Deps, !HubDeps, !Casing, !MediaParams, !Multipart} {HCL : CasingLaws}.
Context `{HG : !GCM} `{HL : !GCMLaws} (k : fileKEK) {O : Type} `{HO : !objectAPI O} `{HOL : !objectAPILaws O}.
Context (sha256 : bytes → bytes) (bucket topic : string).

Abbreviation HW := (HubWorld (C := C) (B := B) (DS := memDEKStore) (O := O)).

Lemma run_on_blobs {A} (p : prog (TenantCipher memDEKStore * O) A) ins (w : HW) :
  run (on_blobs p) ins w = ((run p ins (hw_blobs w)).1, set_blobs (run p ins (hw_blobs w)).2 w).
Proof using Type. unfold on_blobs. apply run_zoom; by intros []. Qed.

Lemma run_on_broker {A} (p : prog B A) ins (w : HW) : hw_blobs (run (on_broker p) ins w).2 = hw_blobs w.
Proof using Type.
  unfold on_broker, on_bus. rewrite run_zoom; [done|by intros []|done|done].
Qed.

(** The key of an upload's object. *)
Definition served_key (tc : Context) (content : bytes) : string := object_key (tenantID tc) (upload_key sha256 content).

(** An accepted upload leaves its content sealed under its key. *)
Lemma accepted_upload c ins (w : HW) tc form f content resp w1 :
  (∀ b, sha256 b ≠ []) → (∀ n, healthy (ins n)) → coherent k (hw_blobs w).1 → usable k (tenantID tc) (store (hw_blobs w).1) →
  FromHeaderValue (values_Get (rq_Header (c_req c)) tenantHeader) = Ok tc →
  parse_form HubHttp.maxUploadBytes (c_req c) = Ok form → fm_file form = Some f → ff_data f = Ok content →
  run (handleUpload k sha256 bucket topic c) ins w = (Some resp, w1) → re_Status resp = 202 →
  ∃ ct dek blob, inert ct ∧ ct ≠ "" ∧ key_of k (store (hw_blobs w1).1) (tenantID tc) = Some dek ∧
    is_blob dek (tenantID tc) content blob ∧ obj_view (hw_blobs w1).2 !! (bucket, served_key tc content) = Some (ct, blob).
Proof using HL HOL HCL.
  intros Hsha Hins Hc Hu Hh Hp Hf Hd. destruct (proj1 (FromHeaderValue_Ok _ _) Hh) as [Hv Htc].
  assert (Ht : tenantID tc ≠ "") by (rewrite Htc; by apply validTenant_nonempty).
  unfold handleUpload, tenantFromHeader. rewrite Hh, Hp, Hf.
  match goal with |- context [bind ?p ?q] => destruct (run_bind_inputs healthy p q ins w) as (ins' & _ & ->); [done|] end.
  rewrite run_on_blobs. unfold HandleUpload. rewrite Hd. cbn [negb]. rewrite (proj2 (String.eqb_neq _ "")) by done.
  destruct (MaxUploadBytes <? ff_size f); [by intros [= <- <-]|].
  destruct (MaxUploadBytes <? Z.of_nat (length content)); [by intros [= <- <-]|].
  set (ct := sanitizeContentType _).
  match goal with |- context [bind (Put ?a ?b ?c ?d ?e ?f ?g) ?q] =>
    destruct (run_bind_inputs healthy (Put a b c d e f g) q ins (hw_blobs w)) as (ins2 & _ & ->); [done|] end.
  pose proof (Put_sealed k sha256 bucket tc (upload_key sha256 content) ct content ins (hw_blobs w) Hins Ht
    (upload_key_valid sha256 content Hsha) Hc Hu) as Hput.
  destruct (run (Put k sha256 bucket tc (upload_key sha256 content) ct content) ins (hw_blobs w)) as [[ref|e] wb];
    [|by intros [= <- <-]].
  destruct Hput as (-> & dek & blob & Hdek & Hb & Hview). cbn [run fst snd input].
  match goal with |- context [bind ?p ?q] =>
    destruct (run_bind_inputs (λ _, True) p q ins' (set_blobs wb w)) as (ins3 & _ & ->); [done|];
    pose proof (run_on_broker (emit_doc topic (WithContext (c_ctx c) tc) tc "upload" (Some (upload_document sha256 tc content
      (ff_name f) (fm_title form) ct (mkBlobRef bucket (object_key (tenantID tc) (upload_key sha256 content))
      (Z.of_nat (length content)) ct (EncodeToString (sha256 content))) (clock (in_env (ins2 0%nat)) 0)))) ins' (set_blobs wb w)) as Hblobs;
    destruct (run p ins' (set_blobs wb w)) as [[[]|e] w2] end; [|by intros [= <- <-]].
  intros [= <- <-] _. cbn [snd] in Hblobs. rewrite Hblobs. cbn [hw_blobs set_blobs].
  assert (Hin : inert ct) by apply sanitize_inert. exists ct, dek, blob. split_and!; [done| |done|done|].
  - destruct Hin as (major & sub & rest & -> & _ & Hm & _). by destruct major.
  - rewrite Hview. apply lookup_insert_eq.
Qed.

Abbreviation media_get := (handleMediaGet (C := C) (B := B) (O := O) k bucket true).

(** Reading it by its tenant, and by anybody else. *)
Lemma media_of_owner c ins (w : HW) tc key ct dek blob content :
  (∀ n, healthy (ins n)) → coherent k (hw_blobs w).1 → validKey key = true → ct ≠ "" →
  FromHeaderValue (values_Get (rq_Header (c_req c)) tenantHeader) = Ok tc →
  values_Get (rq_Query (c_req c)) "key" = object_key (tenantID tc) key →
  key_of k (store (hw_blobs w).1) (tenantID tc) = Some dek → is_blob dek (tenantID tc) content blob →
  obj_view (hw_blobs w).2 !! (bucket, object_key (tenantID tc) key) = Some (ct, blob) →
  is_ok (getObject (ins 0%nat) bucket (object_key (tenantID tc) key) (hw_blobs w).2) = true →
  (run (media_get c) ins w).1 = Some (mkResp 200 (c_hdr (setMediaSecurityHeaders (set_header "Content-Type" ct c))) (BBytes content)).
Proof using HL HOL.
  intros Hins Hc Hvk Hct Hh Hq Hdek Hb Hobj Hget. destruct (proj1 (FromHeaderValue_Ok _ _) Hh) as [Hv Htc].
  assert (Ht : tenantID tc ≠ "") by (rewrite Htc; by apply validTenant_nonempty).
  unfold handleMediaGet, tenantFromHeader. rewrite Hh, Hq. cbn [negb].
  destruct (String.eqb_spec (object_key (tenantID tc) key) "") as [E|_]; [by unfold object_key in E; destruct (tenantID tc)|].
  match goal with |- context [bind ?p ?q] => destruct (run_bind_inputs healthy p q ins w) as (ins' & _ & ->); [done|] end.
  rewrite run_on_blobs. cbn [fst snd]. rewrite (GetByKey_sealed k bucket tc key ct content blob dek) by done.
  destruct (getObject _ _ _ _); [|done]. rewrite !(proj2 (String.eqb_neq ct "")) by done. done.
Qed.

Lemma media_of_other c ins (w : HW) tc tc' key :
  valid_ctx tc → FromHeaderValue (values_Get (rq_Header (c_req c)) tenantHeader) = Ok tc' → tenantID tc' ≠ tenantID tc →
  values_Get (rq_Query (c_req c)) "key" = object_key (tenantID tc) key →
  run (media_get c) ins w = (Some (writeJSON c 404 (json_error "not found")), w).
Proof using Type.
  intros Hv Hh Hne Hq. destruct (proj1 (FromHeaderValue_Ok _ _) Hh) as [Hv' Htc].
  assert (Ht : tenantID tc' ≠ "") by (rewrite Htc; by apply validTenant_nonempty).
  unfold handleMediaGet, tenantFromHeader. rewrite Hh, Hq. cbn [negb].
  destruct (String.eqb_spec (object_key (tenantID tc) key) "") as [E|_]; [by unfold object_key in E; destruct (tenantID tc)|].
  unfold GetByKey. rewrite (proj2 (String.eqb_neq _ "")) by done.
  rewrite (proj2 (String.eqb_neq (object_key _ _) "")) by (unfold object_key; by destruct (tenantID tc)).
  destruct (checkTenantKey_result tc' (object_key (tenantID tc) key)) as [E|E]; rewrite E; [|by destruct w].
  apply checkTenantKey_spec in E as (rest & E & _). apply object_key_inj in E as [E _]; [by destruct Hne|done|].
  rewrite Htc. done.
Qed.

(** C38. An upload comes back as it was sent, to its owner only, and inert.
    After an accepted upload, and for as long as its object stays, the media
    endpoint answers the tenant's request for the object's key with exactly the
    uploaded bytes (when the object store answers at all), with a content type
    that is none of the HTML, XHTML, SVG, XML, XSLT, script and Flash types
    named in [script_types], whatever the client declared (other types are kept,
    XML formats such as application/atom+xml among them), and with the headers
    that forbid sniffing, make it a download, sandbox it without any source and
    forbid framing; any other tenant gets the answer for a missing object and
    reads nothing. *)
Theorem upload_served_back c ins (w : HW) tc form f content resp w1 :
  (∀ b, sha256 b ≠ []) → (∀ n, healthy (ins n)) → coherent k (hw_blobs w).1 → usable k (tenantID tc) (store (hw_blobs w).1) →
  FromHeaderValue (values_Get (rq_Header (c_req c)) tenantHeader) = Ok tc →
  parse_form HubHttp.maxUploadBytes (c_req c) = Ok form → fm_file form = Some f → ff_data f = Ok content →
  run (handleUpload k sha256 bucket topic c) ins w = (Some resp, w1) → re_Status resp = 202 →
  ∀ c2 ins2 (w2 : HW) tc2, (∀ n, healthy (ins2 n)) → coherent k (hw_blobs w2).1 →
    store (hw_blobs w1).1 ⊆ store (hw_blobs w2).1 →
    obj_view (hw_blobs w2).2 !! (bucket, served_key tc content) = obj_view (hw_blobs w1).2 !! (bucket, served_key tc content) →
    values_Get (rq_Query (c_req c2)) "key" = served_key tc content →
    FromHeaderValue (values_Get (rq_Header (c_req c2)) tenantHeader) = Ok tc2 →
    if decide (tenantID tc2 = tenantID tc) then
      is_ok (getObject (ins2 0%nat) bucket (served_key tc content) (hw_blobs w2).2) = true →
      ∃ r ct, (run (media_get c2) ins2 w2).1 = Some r ∧ re_Status r = 200 ∧ re_Body r = BBytes content ∧
        values_All (re_Header r) "Content-Type" = [ct] ∧ inert ct ∧
        values_All (re_Header r) "X-Content-Type-Options" = ["nosniff"] ∧ values_All (re_Header r) "Content-Disposition" = ["attachment"] ∧
        values_All (re_Header r) "Content-Security-Policy" = ["default-src 'none'; sandbox"] ∧ values_All (re_Header r) "X-Frame-Options" = ["DENY"]
    else run (media_get c2) ins2 w2 = (Some (writeJSON c2 404 (json_error "not found")), w2).
Proof using HL HOL HCL.
  intros Hsha Hins Hc Hu Hh Hp Hf Hd Hrun H202 c2 ins2 w2 tc2 Hins2 Hc2 Hsub Hobj Hq Hh2.
  destruct (proj1 (FromHeaderValue_Ok _ _) Hh) as [Hv Htc]. assert (Hvc : valid_ctx tc) by (unfold valid_ctx; by rewrite Htc).
  destruct (accepted_upload _ _ _ _ _ _ _ _ _ Hsha Hins Hc Hu Hh Hp Hf Hd Hrun H202) as (ct & dek & blob & Hin & Hct & Hdek & Hb & Hv1).
  destruct (decide (tenantID tc2 = tenantID tc)) as [Ht|Ht].
  - intros Hget. unfold served_key in *. rewrite Hv1 in Hobj. rewrite <- Ht in *.
    erewrite (media_of_owner c2 ins2 w2 tc2 (upload_key sha256 content) ct dek blob content);
      [|done..|by apply upload_key_valid|done|done|done|by eapply key_of_mono|done|done|done].
    eexists _, ct. split_and!; [done|done|done| |done|..]; cbn; unfold values_All, header_Set; by simplify_map_eq.
  - by eapply media_of_other.
Qed.
End served.

(** ** Every action is its tenant's *)
Lemma acts_zoom {V W A} (get : W → V) (put : V → W → W) (G : Inp → V → V → Prop) (G' : Inp → W → W → Prop) (Q : A → Prop) p :
  (∀ i w v', G i (get w) v' → G' i w (put v' w)) → acts G Q p → acts G' Q (zoom get put p).
Proof.
  intros HG. induction p as [a|X f k IH]; [done|]. intros Hp i w. destruct (Hp i (get w)) as [Hf Hk].
  destruct (f i (get w)) as [b v]. cbn in *. auto.
Qed.

Section scoped.
Context {C : Type} `{!ControlPlaneClient C, !StatusClient C} {B : Type} `{!KafkaAPI B} {HKL : KafkaLaws B} `{!ProtoCodec, !Quoting}.
Context `{!Deps, !HubDeps, !Casing, !MediaParams, !Multipart}.
Context `{!GCM} {DS : Type} `{!DEKStore DS} {K : Type} `{!KEKProvider K} (kek : K) {O : Type} `{!objectAPI O} {HOL : objectAPILaws O}.
Context (sha256 : bytes → bytes) (bucket topic : string).

Abbreviation BW := (TenantCipher DS * O)%type.
Abbreviation HW := (HubWorld (C := C) (B := B) (DS := DS) (O := O)).

(** What an action for [tc] may do: objects of other tenants stay, records
    added are documents of the tenant, tokens are stored under the tenant, and
    the instance [who] may be woken. *)
Definition blob_effect (tc : Context) (i : Inp) (w w' : BW) : Prop :=
  ∀ t key, validTenant t = true → t ≠ tenantID tc →
    obj_view w'.2 !! (bucket, object_key t key) = obj_view w.2 !! (bucket, object_key t key).

Definition record_of (tc : Context) (rec : KRec) : Prop :=
  ∃ doc v p o, tenant_id doc = tenantID tc ∧ Marshal doc = Ok v ∧ rec = placed (document_record topic v doc) p o.

Definition broker_effect (tc : Context) (i : Inp) (b b' : B) : Prop :=
  ∃ new, klog b' = klog b ++ new ∧ Forall (record_of tc) new.

Definition token_effect (tc : Context) (i : Inp) (c c' : C) : Prop :=
  c' = c ∨ ∃ ctx id blob, FromContext ctx = Ok tc ∧ c' = (cp_PutToken i ctx id blob c).2.

Record hub_effect (tc : Context) (who : option string) (i : Inp) (w w' : HW) : Prop := {
  he_blobs : blob_effect tc i (hw_blobs w) (hw_blobs w');
  he_records : broker_effect tc i (hw_bus w).2 (hw_bus w').2;
  he_control : token_effect tc i (hw_bus w).1 (hw_bus w').1;
  he_sched : hw_sched w' = hw_sched w ∨ ∃ id, who = Some id ∧ hw_sched w' = trigger id (hw_sched w)
}.

Abbreviation any := (λ _, True).

Lemma broker_refl tc i b : broker_effect tc i b b.
Proof using Type. exists []. by rewrite app_nil_r. Qed.

Lemma effect_refl tc who i w : hub_effect tc who i w w.
Proof using Type. split; [done|apply broker_refl|by left|by left]. Qed.

Lemma acts_broker {A} tc who (Q : A → Prop) p : acts (broker_effect tc) Q p → acts (hub_effect tc who) Q (on_broker p).
Proof using Type.
  intros Hp. eapply acts_zoom; [|eapply (acts_zoom _ _ _ (λ i (v v' : C * B), v'.1 = v.1 ∧ broker_effect tc i v.2 v'.2)); [|exact Hp]].
  - intros i w v' [Hc Hb]. split; [done|done|by left|by left].
  - by intros i w v' Hb.
Qed.

Lemma acts_blobs {A} tc who (Q : A → Prop) p : acts (blob_effect tc) Q p → acts (hub_effect tc who) Q (on_blobs p).
Proof using Type. apply acts_zoom. intros i w v' Hb. split; [done|apply broker_refl|by left|by left]. Qed.

Lemma acts_cipher {A} tc (p : prog (TenantCipher DS) A) : acts (blob_effect tc) any (lift p : prog BW A).
Proof using Type. unfold lift. eapply acts_zoom; [|apply acts_does]. by intros i [c o] v' _. Qed.

Lemma acts_emit tc ctx cid doc : valid_ctx tc → acts (broker_effect tc) any (emit_doc topic ctx tc cid doc).
Proof using Type.
  intros Hv. unfold emit_doc. destruct doc as [doc|]; [|done]. destruct (String.eqb_spec (tenant_id doc) (tenantID tc)) as [Ht|]; [|done].
  cbn [negb]. intros i b. split; [apply broker_refl|]. cbn [input fst]. set (doc' := set_connector_ts _ _ doc).
  assert (Ht' : tenant_id doc' = tenantID tc) by done. clearbody doc'. apply acts_bind. unfold ProduceDocument.
  destruct (String.eqb topic ""); [done|]. rewrite FromContext_WithContext by done. rewrite Ht', String.eqb_refl. cbn [negb].
  destruct (Marshal doc') as [v|e] eqn:Em; [|done]. intros j b'. split; [|by destruct (ProduceSync _ _ _) as [[]]].
  destruct (produce_log j (document_record topic v doc') b') as [E|(p & o & E & _)];
    [exists []; by rewrite app_nil_r|]. exists [placed (document_record topic v doc') p o]. split; [done|]. apply Forall_singleton. by exists doc', v, p, o.
Qed.

Lemma acts_put tc key ct data : valid_ctx tc → acts (blob_effect tc) any (Put kek sha256 bucket tc key ct data).
Proof using Type.
  intros Hv. unfold Put. destruct (String.eqb _ _); [done|]. destruct (negb _); [done|]. apply acts_bind.
  eapply acts_conseq; [|apply acts_cipher]. intros [ct'|e] _; [|done]. intros i w. split; [|by destruct (put_object _ _ _ _ _ _) as [[]]].
  intros t k' Ht Hne. unfold put_object. pose proof (obj_put_other i bucket (tenantID tc +:+ "/" +:+ key) ct ct' w.2 bucket (object_key t k')) as Ho.
  destruct (putObject _ _ _ _ _ _) as [r o']. cbn in *. apply Ho. intros [= E].
  apply (object_key_inj t (tenantID tc) k' key) in E as [E _]; [done|done|exact Hv].
Qed.

Lemma acts_get tc key : acts (blob_effect tc) any (GetByKey kek bucket tc key).
Proof using Type.
  unfold GetByKey. destruct (String.eqb _ _); [done|]. destruct (String.eqb _ _); [done|]. destruct (checkTenantKey _ _); [|done].
  intros i w. split; [done|]. cbn. destruct (getObject _ _ _ _) as [[d ct]|]; [|done]. apply acts_bind.
  eapply acts_conseq; [|apply acts_cipher]. by intros [].
Qed.

Lemma acts_upload tc blobs file name title ct size :
  valid_ctx tc → acts (blob_effect tc) any (HandleUpload kek sha256 bucket blobs tc file name title ct size).
Proof using Type.
  intros Hv. unfold HandleUpload. destruct (negb _); [done|]. destruct (String.eqb _ _); [done|]. destruct file as [[content|e]|]; [| |done].
  - destruct (_ <? _); [done|]. destruct (_ <? _); [done|]. apply acts_bind. eapply acts_conseq; [|by apply acts_put].
    intros [ref|e] _; [|done]. by intros i w.
  - by destruct (_ <? _).
Qed.

Context (registry : string → option (Config → HttpRequest → hookRun)) (oauth_on : bool) (base : string).
Context (json_Valid : string → bool) (time_JSON : Z → string) (read_body : Inp → bool) (mediaBlobs : bool).

Abbreviation upload := (handleUpload kek sha256 bucket topic : Call → prog HW (option Response)).
Abbreviation status := (handleSyncStatus json_Valid time_JSON : Call → prog HW (option Response)).
Abbreviation media_get := (handleMediaGet kek bucket mediaBlobs : Call → prog HW (option Response)).
Abbreviation media_put := (handleMediaPut kek sha256 bucket read_body mediaBlobs : Call → prog HW (option Response)).
Abbreviation webhook := (handleWebhook registry oauth_on base topic : Call → prog HW (option Response)).
Abbreviation serve := (hub_ServeHTTP kek sha256 bucket registry oauth_on base topic json_Valid time_JSON read_body mediaBlobs
  : Call → prog HW (option Response)).

Lemma acts_read {A X} tc who (Q : A → Prop) (f : Inp → C → X) (k : X → prog HW A) :
  (∀ x, acts (hub_effect tc who) Q (k x)) → acts (hub_effect tc who) Q (Atomic X (read_client f) k).
Proof using Type. intros Hk i w. split; [apply effect_refl|apply Hk]. Qed.

Lemma acts_rows tc who tctx l out : acts (hub_effect tc who) any (status_rows json_Valid time_JSON tctx l out : prog HW _).
Proof using Type.
  revert out. induction l as [|inst l IH]; intros out; [done|]. apply acts_read. intros [st|e]; [apply IH|].
  by destruct (is_not_found e).
Qed.

(** The handlers that take their tenant from the header. *)
Lemma acts_tenant c h tc :
  FromHeaderValue (values_Get (rq_Header (c_req c)) tenantHeader) = Ok tc → h ∈ [upload; status; media_get; media_put] →
  acts (hub_effect tc None) any (h c).
Proof using Type.
  intros Hh Hin. assert (Hv : valid_ctx tc) by (apply FromHeaderValue_Ok in Hh as [Hv ->]; done).
  rewrite !elem_of_cons, elem_of_nil in Hin. destruct Hin as [->|[->|[->|[->|[]]]]];
    unfold handleUpload, handleSyncStatus, handleMediaGet, handleMediaPut, tenantFromHeader; rewrite Hh.
  - destruct (parse_form _ _) as [form|]; [|done]. destruct (fm_file form) as [f|]; [|done]. apply acts_bind.
    eapply acts_conseq; [|by apply acts_blobs, acts_upload]. intros [doc|] _; [|done]. apply acts_bind.
    eapply acts_conseq; [|by apply acts_broker, acts_emit]. by intros [].
  - apply acts_read. intros [l|]; [|done]. apply acts_bind. eapply acts_conseq; [|apply acts_rows]. by intros [].
  - destruct (negb _); [done|]. destruct (String.eqb _ _); [done|]. apply acts_bind.
    eapply acts_conseq; [|apply acts_blobs, acts_get]. by intros [[]|[]].
  - destruct (negb _); [done|]. destruct (String.eqb _ _); [done|]. intros i w. split; [apply effect_refl|]. cbn [input fst].
    destruct (negb _); [done|]. destruct (_ <? _); [done|]. apply acts_bind.
    eapply acts_conseq; [|by apply acts_blobs, acts_put]. by intros [].
Qed.

Lemma tenantless c h :
  is_ok (FromHeaderValue (values_Get (rq_Header (c_req c)) tenantHeader)) = false → h ∈ [upload; status; media_get; media_put] →
  h c = Ret (Some (writeJSON c 401 (json_error "missing or invalid tenant"))).
Proof using Type.
  intros Hh Hin. rewrite !elem_of_cons, elem_of_nil in Hin. destruct Hin as [->|[->|[->|[->|[]]]]];
    unfold handleUpload, handleSyncStatus, handleMediaGet, handleMediaPut, tenantFromHeader; by destruct (FromHeaderValue _).
Qed.

(** Building a configuration may refresh and store the tenant's token. *)
Lemma acts_config tc who tctx snap :
  FromContext tctx = Ok tc → acts (hub_effect tc who) any (on_bus (buildConfig oauth_on base tctx snap) : prog HW _).
Proof using Type.
  intros Hc. eapply (acts_zoom _ _ (λ i (v v' : C * B), v'.2 = v.2 ∧ token_effect tc i v.1 v'.1)).
  { intros i w v' [Hb Ht]. split; [done|cbn; rewrite Hb; apply broker_refl|done|by left]. }
  assert (Hrefl : ∀ i (v : C * B), v.2 = v.2 ∧ token_effect tc i v.1 v.1) by (intros; split; [done|by left]).
  unfold buildConfig. apply acts_bind. eapply (acts_conseq _ any); [intros [token|e] _; [by destruct (mergeWebhookURL _ _ _ _)|done]|].
  unfold fetchToken. intros i w. split; [apply Hrefl|]. cbn [read_cp fst]. destruct (cp_GetToken _ _ _ _) as [stored|st]; [|by destruct (is_not_found st)].
  destruct (oauth_Parse stored) as [tok|]; [|done]. intros i1 w1. split; [apply Hrefl|]. cbn [input fst].
  destruct (negb (NeedsRefresh _ _ _)); [done|]. destruct (negb oauth_on); [done|]. intros i2 w2. split; [apply Hrefl|]. cbn [input fst].
  destruct (oauth_refresh _ _ _) as [new|e]; [|done]. destruct (String.eqb _ _); [done|]. destruct (_ || _); [|done].
  destruct (oauth_Marshal new) as [blob|e]; [|done]. intros i3 w3.
  assert (Hput : token_effect tc i3 w3.1 (cp_PutToken i3 tctx (pi_id (snap_inst snap)) blob w3.1).2) by (right; eauto).
  destruct (cp_PutToken i3 tctx _ blob w3.1) as [[] c']; done.
Qed.

Lemma acts_hook tc who tctx cid h : valid_ctx tc → acts (hub_effect tc who) any (drive_hook topic tctx tc cid h : prog HW _).
Proof using Type.
  intros Hv. induction h as [e| |doc k IH]; [done|done|]. cbn [drive_hook]. apply acts_bind.
  eapply acts_conseq; [|by apply acts_broker, acts_emit]. intros r _. apply IH.
Qed.

(** A webhook acts for the tenant of the instance it names. *)
Lemma acts_webhook c : ∃ k : option instanceSnap → prog HW (option Response),
  webhook c = Atomic _ (λ _ w, (lookup_instance (hw_sched w) (PathValue c 1), w)) k ∧ (∃ r, k None = Ret (Some r)) ∧
  ∀ snap, valid_ctx (snap_tenant snap) → acts (hub_effect (snap_tenant snap) (Some (PathValue c 1))) any (k (Some snap)).
Proof using Type.
  eexists. split; [reflexivity|]. split; [by eexists|]. intros snap Hv. cbn beta iota. destruct (negb _); [done|].
  destruct (registry _) as [conn|]; [|done]. apply acts_bind.
  eapply acts_conseq; [|apply acts_config, FromContext_WithContext; exact Hv]. intros [cfg|[]] _; [|done|done]. apply acts_bind.
  eapply acts_conseq; [|by apply acts_hook]. intros [[[[] msg]|]|] _; [done|done| |done]. intros i w. split; [|done].
  split; [done|apply broker_refl|by left|right; by eexists].
Qed.

(** C18. The hub's HTTP surface keeps tenants apart.  Serving any request
    either answers at once without touching anything, as a request without a
    valid tenant is answered; or acts, action by action and so in any
    interleaving, only for the tenant of the request's header: objects of other
    tenants stay as they are and every record it produces is a document of the
    tenant; or is a webhook, which looks the named instance up and then acts
    only for that instance's tenant, may store that tenant's refreshed token
    and wakes at most that instance. *)
Theorem hub_http_scoped c :
  (∃ r, serve c = Ret (Some r)) ∨
  (∃ tc, FromHeaderValue (values_Get (rq_Header (c_req c)) tenantHeader) = Ok tc ∧ acts (hub_effect tc None) any (serve c)) ∨
  (∃ id (k : option instanceSnap → prog HW (option Response)),
     serve c = Atomic _ (λ _ w, (lookup_instance (hw_sched w) id, w)) k ∧ (∃ r, k None = Ret (Some r)) ∧
     ∀ snap, valid_ctx (snap_tenant snap) → acts (hub_effect (snap_tenant snap) (Some id)) any (k (Some snap))).
Proof using Type.
  assert (Hpath : ∀ p, let q := hub_route kek sha256 bucket registry oauth_on base topic json_Valid time_JSON read_body mediaBlobs c p in
    (∃ r, q = Ret (Some r)) ∨ (∃ tc, FromHeaderValue (values_Get (rq_Header (c_req c)) tenantHeader) = Ok tc ∧ acts (hub_effect tc None) any q) ∨
    ∃ id (k : option instanceSnap → prog HW (option Response)),
      q = Atomic _ (λ _ w, (lookup_instance (hw_sched w) id, w)) k ∧ (∃ r, k None = Ret (Some r)) ∧
      ∀ snap, valid_ctx (snap_tenant snap) → acts (hub_effect (snap_tenant snap) (Some id)) any (k (Some snap))).
  { intros p. unfold hub_route, hub_routes. cbn zeta.
    destruct (find_route _ _ _) as [[h vs]|] eqn:Ef; [|by left; eexists]. apply find_route_in in Ef as (pat & Ef & _).
    rewrite !elem_of_cons, elem_of_nil in Ef. set (c' := mkHCall _ _ _ vs _). destruct Ef as [[= _ ->]|Ef].
    - right; right. exists (PathValue c' 1). apply acts_webhook.
    - assert (Hin : h ∈ [upload; status; media_get; media_put]) by (rewrite !elem_of_cons, elem_of_nil; naive_solver).
      destruct (FromHeaderValue _) as [tc|e] eqn:Eh.
      + right; left. exists tc. split; [done|]. by apply (acts_tenant c').
      + left. eexists. apply (tenantless c'); [cbn; by rewrite Eh|done]. }
  unfold hub_ServeHTTP. destruct (String.eqb _ _); [by left; eexists|]. destruct (String.eqb _ _); [apply Hpath|].
  destruct (negb _); [by left; eexists|apply Hpath].
Qed.
End scoped.

(** ** An upload of alice's *)
#[local] Existing Instances toy_GCM toy_GCMLaws memObjects_api memObjects_laws.
#[local] Instance up_casing : Casing := {| ToLower := ascii_lower; ToUpper s := s |}.
#[local] Instance up_casing_laws : CasingLaws.
Proof. by intros s _. Qed.
#[local] Instance up_params : MediaParams := {| media_params _ := Some [] |}.
#[local] Instance up_quoting : Quoting := {| Quote s := s |}.
#[local] Instance up_codec : ProtoCodec := {| Marshal d := Ok (doc_id d); Unmarshal _ := Err "" |}.
#[local] Instance up_broker : KafkaAPI memBroker := memKafka [TopicDocsRaw].
#[local] Instance up_deps : Deps :=
  {| uuid_Parse s := Some s; ts_CheckValid _ := true; ts_AsTime _ := 0; ts_New _ := mkTimestamp 0 0 |}.
#[local] Instance up_form : Multipart :=
  {| parse_form _ r := Ok (mkForm (Some (mkFormFile "a.html" "Text/HTML; charset=utf-8" 5 (Ok (rq_Body r)))) "") |}.

Definition up_call (tenant key : string) (body : bytes) : Call :=
  mkHCall (mkHttpRequest "POST" "/upload" {["key" := [key]]} {[tenantHeader := [tenant]]} "" 0 body)
    (mkCtx None None None ∅) None [] ∅.

Definition up_world : HubWorld (C := unit) (B := memBroker) (DS := memDEKStore) (O := memObjects) :=
  mkHub (newScheduler (mkOpts "" 1 0 0 0)) (tt, mkMemBroker [] ∅ ∅) Blob.demo_world.

Definition up_run := run (handleUpload demo_kek Blob.demo_sha "bkt" TopicDocsRaw (up_call "alice" "" (to_bytes "hello"))) demo_rand up_world.

(** The client called it HTML; it is kept as plain bytes. *)
Example up_kept : (λ o, o.1) <$> obj_view (hw_blobs up_run.2).2 !! ("bkt", "alice/upload/61") = Some defaultContentType.
Proof. vm_compute. reflexivity. Qed.

Lemma answered {A W} (d : A) (x : option A * W) : bool_decide (is_Some x.1) = true → x = (Some (default d x.1), x.2).
Proof. intros H%bool_decide_eq_true. destruct x as [[a|] w]; [done|]. by destruct H. Qed.

Definition up_resp : Response := default (mkResp 0 ∅ BNone) up_run.1.

Lemma up_status : re_Status up_resp = 202.
Proof. vm_compute. reflexivity. Qed.

Lemma up_answered : up_run = (Some up_resp, up_run.2).
Proof. apply answered. vm_compute. reflexivity. Qed.

Lemma upload_served_back_witness :
  ∃ resp w1, up_run = (Some resp, w1) ∧ re_Status resp = 202 ∧
  ∀ c2 ins2 (w2 : HubWorld (C := unit) (B := memBroker) (DS := memDEKStore) (O := memObjects)) tc2, (∀ n, healthy (ins2 n)) → coherent demo_kek (hw_blobs w2).1 →
    store (hw_blobs w1).1 ⊆ store (hw_blobs w2).1 →
    obj_view (hw_blobs w2).2 !! ("bkt", "alice/upload/61") = obj_view (hw_blobs w1).2 !! ("bkt", "alice/upload/61") →
    values_Get (rq_Query (c_req c2)) "key" = "alice/upload/61" →
    FromHeaderValue (values_Get (rq_Header (c_req c2)) tenantHeader) = Ok tc2 →
    if decide (tenantID tc2 = "alice") then
      is_ok (getObject (ins2 0%nat) "bkt" "alice/upload/61" (hw_blobs w2).2) = true →
      ∃ r ct, (run (handleMediaGet (C := unit) (B := memBroker) (O := memObjects) demo_kek "bkt" true c2) ins2 w2).1 = Some r ∧ re_Status r = 200 ∧
        re_Body r = BBytes (to_bytes "hello") ∧ values_All (re_Header r) "Content-Type" = [ct] ∧ inert ct ∧
        values_All (re_Header r) "X-Content-Type-Options" = ["nosniff"] ∧ values_All (re_Header r) "Content-Disposition" = ["attachment"] ∧
        values_All (re_Header r) "Content-Security-Policy" = ["default-src 'none'; sandbox"] ∧ values_All (re_Header r) "X-Frame-Options" = ["DENY"]
    else run (handleMediaGet (C := unit) (B := memBroker) (O := memObjects) demo_kek "bkt" true c2) ins2 w2 = (Some (writeJSON c2 404 (json_error "not found")), w2).
Proof.
  exists up_resp, up_run.2. split; [exact up_answered|]. split; [exact up_status|].
  apply (upload_served_back demo_kek Blob.demo_sha "bkt" TopicDocsRaw (up_call "alice" "" (to_bytes "hello")) demo_rand up_world demo_tc
    (mkForm (Some (mkFormFile "a.html" "Text/HTML; charset=utf-8" 5 (Ok (to_bytes "hello")))) "")
    (mkFormFile "a.html" "Text/HTML; charset=utf-8" 5 (Ok (to_bytes "hello"))) (to_bytes "hello") up_resp up_run.2).
  - discriminate.
  - intros n. split; [reflexivity|eexists; reflexivity].
  - intros t k. simpl. rewrite lookup_empty. discriminate.
  - left. reflexivity.
  - vm_compute. reflexivity.
  - reflexivity.
  - reflexivity.
  - reflexivity.
  - exact up_answered.
  - exact up_status.
Defined.
