(* ===== verification/Slack.v ===== *)
(** * The Slack connector

    Models [connectors/slack]: configuration and the Web API client (slack.go),
    cursors (cursor.go), messages as documents (message.go), full and
    incremental sync (sync.go) and Events API callbacks (webhook.go).  The HTTP
    exchange is a request; JSON, HMAC and URL parsing are parameters.  A nil
    map is [None]: storing into it panics. *)

From stdpp Require Import base gmap strings list pretty.
From Stdlib Require Import Ascii ZArith Lia.
From S2P Require Import Prelude GoStrings Tenancy Crypto Blob ControlPlane Document Kafka GoTime HubSync GoText GoEncode GoHttp GatewayEdge ConnectorRun.

Open Scope Z_scope.

Definition slackID : string := "slack".
Definition defaultBaseURL : string := "https://slack.com/api".
Definition historyLimit : Z := 200.
Definition slack_maxWebhookBody : nat := Z.to_nat (2 ^ 20).

(** ** The API *)
Record channelInfo := mkChannel {
  ch_ID : string; ch_Name : string; ch_IsPrivate : bool; ch_IsIM : bool; ch_IsMPIM : bool; ch_Members : list string
}.

(** [sm_Edited]: the ts of the last edit. *)
Record slackMessage := mkSlackMessage {
  sm_Type : string; sm_Subtype : string; sm_User : string; sm_BotID : string; sm_Text : string; sm_TS : string;
  sm_ThreadTS : string; sm_Team : string; sm_Edited : option string
}.

Record messageEvent := mkEvent {
  ev_Type : string; ev_Subtype : string; ev_Channel : string; ev_EventTS : string; ev_User : string; ev_BotID : string;
  ev_Text : string; ev_TS : string; ev_ThreadTS : string; ev_Team : string; ev_DeletedTS : string; ev_Message : option slackMessage
}.

Inductive SlackReq : Type → Type :=
| ApiGet (base method : string) (params : list (string * string)) : SlackReq HttpAnswer
| SlackCtx : SlackReq (result GoErr unit)
| SlackNow : SlackReq Z.

(** [json.Unmarshal] into the types of the code, and [json.Marshal] of a
    string. *)
Class SlackJson := {
  sl_config : string → result string (string * string);
  sl_ok : bytes → result string (bool * string);
  sl_auth : bytes → result string unit;
  sl_channels : bytes → result string (list channelInfo * string);
  sl_channel : bytes → result string channelInfo;
  sl_history : bytes → result string (list slackMessage * string);
  sl_envelope : bytes → result string (string * bytes);
  sl_event : bytes → result string messageEvent;
  sl_cursor : string → result string (option (gmap string string));
  sl_string : string → string
}.

(** [hmac.New(sha256.New, key)] of a text. *)
Class Hmac := { hmac_sha256 : bytes → bytes → bytes }.

(** ** cursor.go *)
Abbreviation cursorMap := (option (gmap string string)).

Section slack.
Context `{!SlackJson, !Hmac, !Quoting, !URLs, !Deps} (sha256 : bytes → bytes).

Definition slack_parseCursor (cur : string) : result string cursorMap :=
  if String.eqb cur "" then Ok (Some ∅)
  else match sl_cursor cur with
  | Err e => Err ("slack: cursor " +:+ Quote cur +:+ " is not a channel->ts JSON object: " +:+ e)
  | Ok st => Ok st
  end.

(** Sorted by channel. *)
Definition cursor_entries (m : gmap string string) : list (string * string) := sort_by (λ a b, str_leb a.1 b.1) (map_to_list m).

Definition cursor_text (l : list (string * string)) : string :=
  "{" +:+ Join ((λ kv, sl_string kv.1 +:+ ":" +:+ sl_string kv.2) <$> l) "," +:+ "}".

Definition encode (st : cursorMap) : string :=
  match st with
  | None => "{}"
  | Some m => if bool_decide (m = ∅) then "{}" else cursor_text (cursor_entries m)
  end.

(** [None] is a panic. *)
Definition advance (channel ts : string) (st : cursorMap) : option cursorMap :=
  if String.eqb ts "" then Some st
  else match st with
  | None => None
  | Some m =>
    Some (Some (match m !! channel with
                | Some cur => if str_ltb cur ts then <[channel := ts]> m else m
                | None => <[channel := ts]> m
                end))
  end.

(** ** message.go *)
Definition titleMaxRunes : nat := 80.

Definition displayName (ch : channelInfo) : string := if String.eqb (ch_Name ch) "" then ch_ID ch else "#" +:+ ch_Name ch.

Definition nativeID (channel ts : string) : string := channel +:+ ":" +:+ ts.

Definition author (m : slackMessage) : string := if String.eqb (sm_User m) "" then sm_BotID m else sm_User m.

Definition versionEtag (m : slackMessage) : string :=
  match sm_Edited m with Some ts => if String.eqb ts "" then sm_TS m else ts | None => sm_TS m end.

Definition collapseWhitespace (s : string) : string := Join (Fields s) " ".

Definition messageTitle (ch : channelInfo) (text : string) : string :=
  let t := TrimSpace (collapseWhitespace text) in
  if String.eqb t "" then displayName ch +:+ " message"
  else if (titleMaxRunes <? length (runes t))%nat
  then TrimSpace (of_bytes (flat_map (λ r, EncodeRune r.1) (take titleMaxRunes (runes t)))) else t.

Definition messageParticipants (m : slackMessage) : list Participant :=
  if String.eqb (author m) "" then [] else [mkParticipant "" "" (author m) "from"].

Definition permalink (team channel ts : string) : string :=
  if String.eqb team "" || String.eqb channel "" || String.eqb ts "" then ""
  else "https://app.slack.com/archives/" +:+ channel +:+ "/p" +:+ ReplaceAll ts "." "".

Definition put_nonempty (md : gmap string string) (kv : string * string) : gmap string string :=
  if String.eqb kv.2 "" then md else <[kv.1 := kv.2]> md.

Definition messageMetadata (ch : channelInfo) (m : slackMessage) : gmap string string :=
  foldl put_nonempty ∅
    [("channel", ch_ID ch); ("channel_name", ch_Name ch); ("ts", sm_TS m); ("thread_ts", sm_ThreadTS m); ("team", sm_Team m);
     ("user", author m); ("permalink", permalink (sm_Team m) (ch_ID ch) (sm_TS m))].

Definition channelACL (ch : channelInfo) : option AclInfo :=
  if ch_IsIM ch then None else Some (mkAcl (ch_Members ch) (ch_IsPrivate ch)).

Definition parseSlackTS (ts : string) : option Timestamp :=
  if String.eqb ts "" then None
  else
    let '(secStr, fracStr) := match Cut ts "." with Some p => p | None => (ts, "") end in
    sec ← ParseInt secStr;
    nanos ← (if String.eqb fracStr "" then Some 0 else ParseInt (take_str 9 (fracStr +:+ "000000000")));
    Some (ts_New (sec * 1000000000 + nanos)).

Definition slack_messageDocument (tenant : string) (ch : channelInfo) (m : slackMessage) : Document :=
  let native := nativeID (ch_ID ch) (sm_TS m) in
  let ts := (λ t, mkTimestamps (Some t) (sm_Edited m ≫= parseSlackTS) None) <$> parseSlackTS (sm_TS m) in
  mkDoc tenant (DocID sha256 slackID native) slackID native CHAT_MESSAGE (messageTitle ch (sm_Text m)) (TrimSpace (sm_Text m)) []
    (messageMetadata ch m) (messageParticipants m) ts (channelACL ch) None (versionEtag m) None None.

Definition slack_tombstoneDocument (tenant channel ts eventTS : string) (now : Z) : Document :=
  let native := nativeID channel ts in
  mkDoc tenant (DocID sha256 slackID native) slackID native CHAT_MESSAGE "" "" [] ∅ [] None None None
    (if String.eqb eventTS "" then ts else eventTS) (Some (mkTombstone true (Some (ts_New now)))) None.

(** ** slack.go *)
Record slackConfig := mkSlackConfig { sc_BaseURL : string; sc_SigningSecret : string }.

Definition slack_parseConfig (raw : string) : result string slackConfig :=
  if String.eqb raw "" then Ok (mkSlackConfig "" "")
  else match sl_config raw with
  | Err e => Err ("slack: config is not valid JSON: " +:+ e)
  | Ok (baseURL, secret) =>
    let conf := mkSlackConfig baseURL secret in
    let bad := Err ("slack: config field base_url " +:+ Quote baseURL +:+ " is not a valid http(s) URL") in
    if String.eqb baseURL "" then Ok conf
    else match url_Parse baseURL with
    | None => bad
    | Some (scheme, host) =>
      if negb (String.eqb host "") && (String.eqb scheme "http" || String.eqb scheme "https") then Ok conf else bad
    end
  end.

Fixpoint trim_slashes (l : bytes) : bytes := match l with "/"%char :: l' => trim_slashes l' | _ => l end.

Definition client_base (conf : slackConfig) : string :=
  of_bytes (rev (trim_slashes (rev (to_bytes (if String.eqb (sc_BaseURL conf) "" then defaultBaseURL else sc_BaseURL conf))))).

(** An error of the API call: the reason of a [slackError], and its text. *)
Record SlackErr := mkSlackErr { se_reason : option string; se_text : string }.

Definition isAPIError (e : SlackErr) (reason : string) : bool := bool_decide (se_reason e = Some reason).

Abbreviation slack A := (api SlackReq A).
Open Scope api_scope.

(** What a call makes of its answer. *)
Definition slack_decode {A} (method : string) (out : bytes → result string A) (r : HttpAnswer) : result SlackErr A :=
  let failed msg := Err (mkSlackErr None msg) in
  match r with
  | BadRequest e => failed ("slack: build request for " +:+ method +:+ ": " +:+ e)
  | NoAnswer e => failed ("slack: " +:+ method +:+ ": " +:+ e)
  | Answered _ (Err e) => failed ("slack: read " +:+ method +:+ " response: " +:+ e)
  | Answered status (Ok body) =>
    let body := take slack_maxWebhookBody body in
    if negb (Z.quot status 100 =? 2) then failed ("slack: " +:+ method +:+ ": HTTP status " +:+ pretty status)
    else match out body with
    | Err e => failed ("slack: decode " +:+ method +:+ " response: " +:+ e)
    | Ok a =>
      match sl_ok body with
      | Err e => failed ("slack: decode " +:+ method +:+ " envelope: " +:+ e)
      | Ok (true, _) => Ok a
      | Ok (false, reason) =>
        let reason := if String.eqb reason "" then "unknown" else reason in
        Err (mkSlackErr (Some reason) ("slack: " +:+ method +:+ " failed: slack: API error " +:+ reason))
      end
    end
  end.

Definition slack_get {A} (base method : string) (params : list (string * string)) (out : bytes → result string A) :
    slack (result SlackErr A) :=
  ask r := ApiGet base method params in ARet (slack_decode method out r).

Definition conn_err (e : SlackErr) : ConnErr := mkConnErr false (se_text e).
Definition slack_fail {A} (msg : string) : slack (result ConnErr A) := ARet (Err (mkConnErr false msg)).

Definition slack_config (cfg : Config) : slack (result ConnErr slackConfig) :=
  match slack_parseConfig (c_config_json cfg) with Err e => slack_fail e | Ok conf => ARet (Ok conf) end.

Definition slack_ctx : slack (result ConnErr unit) := ask r := SlackCtx in ARet (passed r).

Definition slack_Validate (cfg : Config) : slack (result ConnErr unit) :=
  do conf := slack_config cfg in
  if String.eqb (default "" (c_token cfg)) "" then ARet (Ok tt)
  else abind (slack_get (client_base conf) "auth.test" [] sl_auth) (λ r,
  match r with Err e => slack_fail ("slack: credential check failed: " +:+ se_text e) | Ok _ => ARet (Ok tt) end).

(** ** sync.go *)
Definition isUserMessage (m : slackMessage) : bool :=
  (String.eqb (sm_Type m) "" || String.eqb (sm_Type m) "message") && negb (String.eqb (sm_TS m) "") &&
  existsb (String.eqb (sm_Subtype m)) [""; "bot_message"; "thread_broadcast"; "me_message"; "file_share"].

Definition with_cursor (cursor : string) : list (string * string) := if String.eqb cursor "" then [] else [("cursor", cursor)].

Definition list_params (cursor : string) : list (string * string) :=
  [("limit", pretty historyLimit); ("types", "public_channel,private_channel,mpim,im"); ("exclude_archived", "true")] ++
  with_cursor cursor.

Fixpoint listChannels (fuel : nat) (base : string) (out : list channelInfo) (cursor : string) :
    slack (result ConnErr (list channelInfo)) :=
  match fuel with
  | O => AHang
  | S n =>
    do _ := slack_ctx in
    abind (slack_get base "conversations.list" (list_params cursor) sl_channels) (λ r,
    match r with
    | Err e => ARet (Err (conn_err e))
    | Ok (chs, next) => if String.eqb next "" then ARet (Ok (out ++ chs)) else listChannels n base (out ++ chs) next
    end)
  end.

Definition channelInfoByID (base channelID : string) : slack (result SlackErr channelInfo) :=
  slack_get base "conversations.info" [("channel", channelID)] sl_channel.

(** The messages of a page, emitted; the state advances with them. *)
Fixpoint emit_messages (tenant : string) (ch : channelInfo) (ms : list slackMessage) (st : cursorMap) :
    slack (result ConnErr cursorMap) :=
  match ms with
  | [] => ARet (Ok st)
  | m :: ms' =>
    if negb (isUserMessage m) then emit_messages tenant ch ms' st
    else
      do _ := emit (slack_messageDocument tenant ch m) in
      match advance (ch_ID ch) (sm_TS m) st with None => APanic | Some st' => emit_messages tenant ch ms' st' end
  end.

Definition history_params (channel oldest cursor : string) : list (string * string) :=
  [("channel", channel); ("limit", pretty historyLimit)] ++
  (if String.eqb oldest "" then [] else [("oldest", oldest); ("inclusive", "false")]) ++ with_cursor cursor.

Fixpoint backfillChannel (fuel : nat) (base tenant : string) (ch : channelInfo) (st : cursorMap) (cursor : string) :
    slack (result ConnErr cursorMap) :=
  match fuel with
  | O => AHang
  | S n =>
    do _ := slack_ctx in
    abind (slack_get base "conversations.history" (history_params (ch_ID ch) "" cursor) sl_history) (λ r,
    match r with
    | Err e => ARet (Err (conn_err e))
    | Ok (ms, next) =>
      do st' := emit_messages tenant ch ms st in
      if String.eqb next "" then ARet (Ok st') else backfillChannel n base tenant ch st' next
    end)
  end.

Fixpoint backfill_channels (fuel : nat) (base tenant : string) (chs : list channelInfo) (st : cursorMap) :
    slack (result ConnErr cursorMap) :=
  match chs with
  | [] => ARet (Ok st)
  | ch :: chs' =>
    do _ := slack_ctx in
    do st' := backfillChannel fuel base tenant ch st "" in
    do _ := checkpoint (encode st') in
    backfill_channels fuel base tenant chs' st'
  end.

Definition slack_FullSync (fuel : nat) (cfg : Config) : slack (result ConnErr string) :=
  do conf := slack_config cfg in
  do channels := listChannels fuel (client_base conf) [] "" in
  do st := backfill_channels fuel (client_base conf) (tenantID (c_tenant cfg)) channels (Some ∅) in
  ARet (Ok (encode st)).

Definition slack_expired (msg : string) : ConnErr := mkConnErr true (msg +:+ ": sdk: sync cursor expired at the source").

Fixpoint syncChannelSince (fuel : nat) (base tenant : string) (ch : channelInfo) (oldest : string) (st : cursorMap)
    (cursor : string) : slack (result ConnErr cursorMap) :=
  match fuel with
  | O => AHang
  | S n =>
    do _ := slack_ctx in
    abind (slack_get base "conversations.history" (history_params (ch_ID ch) oldest cursor) sl_history) (λ r,
    match r with
    | Err e =>
      if isAPIError e "channel_not_found" then ARet (Ok st)
      else if isAPIError e "invalid_cursor"
      then ARet (Err (slack_expired ("slack: conversations.history channel=" +:+ ch_ID ch)))
      else ARet (Err (conn_err e))
    | Ok (ms, next) =>
      do st' := emit_messages tenant ch ms st in
      if String.eqb next "" then ARet (Ok st') else syncChannelSince n base tenant ch oldest st' next
    end)
  end.

Fixpoint sync_channels (fuel : nat) (base tenant : string) (chs : list channelInfo) (st : cursorMap) :
    slack (result ConnErr cursorMap) :=
  match chs with
  | [] => ARet (Ok st)
  | ch :: chs' =>
    do _ := slack_ctx in
    do st' := syncChannelSince fuel base tenant ch (default "" (st ≫= λ m, m !! ch_ID ch)) st "" in
    sync_channels fuel base tenant chs' st'
  end.

Definition slack_IncrementalSync (fuel : nat) (cfg : Config) (cur : string) : slack (result ConnErr string) :=
  do conf := slack_config cfg in
  match slack_parseCursor cur with
  | Err e => ARet (Err (slack_expired e))
  | Ok st =>
    do channels := listChannels fuel (client_base conf) [] "" in
    do st' := sync_channels fuel (client_base conf) (tenantID (c_tenant cfg)) channels st in
    ARet (Ok (encode st'))
  end.

Definition slack_connector (fuel : nat) (o : Oracle SlackReq) : Connector :=
  mkConnector (λ cfg, resolve o 0 (slack_FullSync fuel cfg)) (λ cfg cur, resolve o 0 (slack_IncrementalSync fuel cfg cur)).

(** ** webhook.go *)
Definition signatureVersion : string := "v0".
Definition signatureHeader : string := "X-Slack-Signature".
Definition timestampHeader : string := "X-Slack-Request-Timestamp".
Definition maxTimestampSkew : Z := 5 * 60 * 1000000000.

Definition computeSignature (secret timestamp : string) (body : bytes) : string :=
  let base := to_bytes (signatureVersion +:+ ":" +:+ timestamp +:+ ":") ++ body in
  signatureVersion +:+ "=" +:+ EncodeToString (hmac_sha256 (to_bytes secret) base).

(** The error of [strconv.ParseInt]. *)
Definition int_error (s : string) : string :=
  let digits := match to_bytes s with "+"%char :: l | "-"%char :: l => l | l => l end in
  "strconv.ParseInt: parsing " +:+ Quote s +:+ ": " +:+
  (if bool_decide (digits = []) || negb (forallb GoTime.is_digit digits) then "invalid syntax" else "value out of range").

Definition verifySignature (conf : slackConfig) (header : Values) (body : bytes) (now : Z) : result string unit :=
  if String.eqb (sc_SigningSecret conf) "" then
    Err "slack: signing_secret is not configured; cannot verify webhook authenticity"
  else
    let tsStr := values_Get header timestampHeader in
    if String.eqb tsStr "" then Err ("slack: webhook missing " +:+ timestampHeader)
    else match ParseInt tsStr with
    | None => Err ("slack: webhook " +:+ timestampHeader +:+ " is not an integer: " +:+ int_error tsStr)
    | Some tsSec =>
      let skew := time_Sub now (tsSec * 1000000000) in
      if (maxTimestampSkew <? skew) || (skew <? - maxTimestampSkew) then
        Err "slack: webhook timestamp is outside the allowed window (possible replay)"
      else
        let got := values_Get header signatureHeader in
        if String.eqb got "" then Err ("slack: webhook missing " +:+ signatureHeader)
        else
          let want := computeSignature (sc_SigningSecret conf) tsStr body in
          if String.eqb want got then Ok tt else Err "slack: webhook signature mismatch"
    end.

Definition id_channel (channelID : string) : channelInfo := mkChannel channelID "" false false false [].

Definition set_channel_id (id : string) (ch : channelInfo) : channelInfo :=
  mkChannel id (ch_Name ch) (ch_IsPrivate ch) (ch_IsIM ch) (ch_IsMPIM ch) (ch_Members ch).

Definition resolveChannel (conf : slackConfig) (cfg : Config) (channelID : string) : slack channelInfo :=
  if String.eqb (default "" (c_token cfg)) "" then ARet (id_channel channelID)
  else abind (channelInfoByID (client_base conf) channelID) (λ r,
  ARet (match r with
        | Err _ => id_channel channelID
        | Ok ch => if String.eqb (ch_ID ch) "" then set_channel_id channelID ch else ch
        end)).

(** The message a plain event carries. *)
Definition event_message (ev : messageEvent) : slackMessage :=
  mkSlackMessage "message" (ev_Subtype ev) (ev_User ev) (ev_BotID ev) (ev_Text ev) (ev_TS ev) (ev_ThreadTS ev) (ev_Team ev) None.

Definition handleEvent (cfg : Config) (conf : slackConfig) (raw : bytes) : slack (result ConnErr unit) :=
  if bool_decide (raw = []) then slack_fail "slack: event_callback has no event"
  else match sl_event raw with
  | Err e => slack_fail ("slack: webhook event is not a message event: " +:+ e)
  | Ok ev =>
    let tenant := tenantID (c_tenant cfg) in
    if negb (String.eqb (ev_Type ev) "message") then ARet (Ok tt)
    else if String.eqb (ev_Subtype ev) "message_deleted" then
      if String.eqb (ev_DeletedTS ev) "" || String.eqb (ev_Channel ev) ""
      then slack_fail "slack: message_deleted event missing channel or deleted_ts"
      else ask now := SlackNow in emit (slack_tombstoneDocument tenant (ev_Channel ev) (ev_DeletedTS ev) (ev_EventTS ev) now)
    else if String.eqb (ev_Subtype ev) "message_changed" then
      match ev_Message ev with
      | Some m =>
        if String.eqb (ev_Channel ev) "" then slack_fail "slack: message_changed event missing channel or message"
        else abind (resolveChannel conf cfg (ev_Channel ev)) (λ ch, emit (slack_messageDocument tenant ch m))
      | None => slack_fail "slack: message_changed event missing channel or message"
      end
    else if existsb (String.eqb (ev_Subtype ev)) [""; "bot_message"; "thread_broadcast"; "me_message"; "file_share"] then
      if String.eqb (ev_TS ev) "" || String.eqb (ev_Channel ev) "" then slack_fail "slack: message event missing channel or ts"
      else abind (resolveChannel conf cfg (ev_Channel ev)) (λ ch, emit (slack_messageDocument tenant ch (event_message ev)))
    else ARet (Ok tt)
  end.

(** The body as it is read, or why it could not be; [None] when there is none. *)
Definition slack_HandleWebhook (cfg : Config) (header : Values) (body : option (result string bytes)) : slack (result ConnErr unit) :=
  do conf := slack_config cfg in
  match body with
  | None => slack_fail "slack: webhook request has no body"
  | Some (Err e) => slack_fail ("slack: read webhook body: " +:+ e)
  | Some (Ok body) =>
    let body := take slack_maxWebhookBody body in
    ask now := SlackNow in
    match verifySignature conf header body now with
    | Err e => slack_fail e
    | Ok _ =>
      match sl_envelope body with
      | Err e => slack_fail ("slack: webhook payload is not a Slack event envelope: " +:+ e)
      | Ok (type, event) =>
        if String.eqb type "event_callback" then handleEvent cfg conf event else ARet (Ok tt)
      end
    end
  end.
End slack.

(** * The Slack connector: callbacks

    A callback that Slack did not sign, or signed too long ago, does nothing. *)

Section webhook.
Context `{!SlackJson, !Hmac, !Quoting, !URLs, !Deps}.

(** Slack signed the body, at most five minutes from now. *)
Definition signed (conf : slackConfig) (header : Values) (body : bytes) (now : Z) : Prop :=
  sc_SigningSecret conf ≠ "" ∧
  ∃ sec, ParseInt (values_Get header timestampHeader) = Some sec ∧ Z.abs (now - sec * 1000000000) <= maxTimestampSkew ∧
    values_Get header signatureHeader = computeSignature (sc_SigningSecret conf) (values_Get header timestampHeader) body.

Lemma verify_signed conf header body now : is_ok (verifySignature conf header body now) = true ↔ signed conf header body now.
Proof using Type.
  unfold verifySignature, signed. destruct (String.eqb_spec (sc_SigningSecret conf) "") as [->|Hs]; [naive_solver|].
  destruct (String.eqb_spec (values_Get header timestampHeader) "") as [->|Ht].
  { split; [done|]. intros (_ & sec & Hp & _). by vm_compute in Hp. }
  destruct (ParseInt _) as [sec|]; [|naive_solver].
  assert (Hskew : (maxTimestampSkew <? time_Sub now (sec * 1000000000)) || (time_Sub now (sec * 1000000000) <? - maxTimestampSkew) = false ↔
    Z.abs (now - sec * 1000000000) <= maxTimestampSkew).
  { unfold time_Sub, maxTimestampSkew. lia. }
  destruct (_ || _).
  { split; [done|]. intros (_ & sec' & [= <-] & Hk & _). apply Hskew in Hk. done. }
  pose proof (proj1 Hskew eq_refl) as E.
  destruct (String.eqb_spec (values_Get header signatureHeader) "") as [Hg|Hg].
  { split; [done|]. intros (_ & sec' & _ & _ & Hsig). rewrite Hg in Hsig. done. }
  destruct (String.eqb_spec (computeSignature (sc_SigningSecret conf) (values_Get header timestampHeader) body)
    (values_Get header signatureHeader)) as [Hsig|Hsig].
  - split; [|done]. intros _. split; [done|]. by exists sec.
  - split; [done|]. intros (_ & sec' & _ & _ & ?). congruence.
Qed.

(** C32. A callback is acted on only if Slack signed it.  After reading the clock
    the connector goes on exactly when the instance has a signing secret, the
    request carries a timestamp within five minutes of the clock, and its
    signature is the HMAC of that timestamp and of the body as it is read, under
    the secret; any other request ends at once with an error, without an API
    call or a document. *)
Theorem webhook_authentic (sha256 : bytes → bytes) cfg conf header body :
  slack_parseConfig (c_config_json cfg) = Ok conf →
  ∃ k, slack_HandleWebhook sha256 cfg header (Some (Ok body)) = ACall SlackNow k ∧
  ∀ now, let body := take slack_maxWebhookBody body in
    (¬ signed conf header body now → ∃ e, k now = ARet (Err e)) ∧
    (signed conf header body now → ∀ event, sl_envelope body = Ok ("event_callback", event) → k now = handleEvent sha256 cfg conf event).
Proof using Type.
  intros Hc. unfold slack_HandleWebhook, slack_config. rewrite Hc. eexists. split; [reflexivity|]. intros now. cbn beta zeta.
  pose proof (verify_signed conf header (take slack_maxWebhookBody body) now) as Hv.
  destruct (verifySignature _ _ _ _) as [[]|e]; cbn [is_ok] in Hv.
  - split; [intros Hn; by destruct Hn; apply Hv|]. intros _ event He. rewrite He. reflexivity.
  - split; [by eexists|]. intros Hs. by apply Hv in Hs.
Qed.
End webhook.

(** ** A signed callback *)
#[local] Instance hook_json : SlackJson := {|
  sl_config _ := Ok ("", "s3cret"); sl_ok _ := Ok (true, ""); sl_auth _ := Ok tt; sl_channels _ := Err ""; sl_channel _ := Err "";
  sl_history _ := Err ""; sl_cursor _ := Ok None; sl_string s := s;
  sl_envelope body := Ok ("event_callback", body);
  sl_event _ := Ok (mkEvent "message" "message_deleted" "C" "9" "" "" "" "" "" "T" "1" None) |}.
#[local] Instance hook_hmac : Hmac := {| hmac_sha256 key text := key ++ text |}.
#[local] Instance hook_quoting : Quoting := {| Quote s := s |}.
#[local] Instance hook_urls : URLs := {| url_Parse _ := None |}.
#[local] Instance hook_deps : Deps :=
  {| uuid_Parse s := Some s; ts_CheckValid _ := true; ts_AsTime _ := 0; ts_New _ := mkTimestamp 0 0 |}.

Definition hook_cfg : Config := mkSdkConfig (mkContext "t1" "t1") "i1" "{}" None.
Definition hook_header : Values :=
  {[timestampHeader := ["100"]; signatureHeader := [computeSignature "s3cret" "100" (to_bytes "x")]]}.

(** A hundred seconds later the deletion is a tombstone; an hour later it is a replay. *)
Lemma webhook_authentic_witness :
  ∃ k, slack_HandleWebhook id hook_cfg hook_header (Some (Ok (to_bytes "x"))) = ACall SlackNow k ∧
  k 200000000000 = handleEvent id hook_cfg (mkSlackConfig "" "s3cret") (to_bytes "x") ∧
  ∃ e, k 3600000000000 = ARet (Err e).
Proof.
  assert (Hc : slack_parseConfig (c_config_json hook_cfg) = Ok (mkSlackConfig "" "s3cret")) by (vm_compute; reflexivity).
  destruct (webhook_authentic id hook_cfg (mkSlackConfig "" "s3cret") hook_header (to_bytes "x") Hc) as (k & Hk & Hnow).
  exists k. split; [exact Hk|].
  assert (Hb : take slack_maxWebhookBody (to_bytes "x") = to_bytes "x") by (apply take_ge; unfold slack_maxWebhookBody; cbn; lia).
  cbv zeta in Hnow. rewrite Hb in Hnow. split.
  - apply (Hnow 200000000000); [|reflexivity]. split; [done|]. exists 100. split_and!; [by vm_compute|by vm_compute|by vm_compute].
  - apply (Hnow 3600000000000). intros (_ & sec & Hp & Hd & _). vm_compute in Hp. injection Hp as <-. by vm_compute in Hd.
Defined.
