(* ===== verification/SlackSyncProofs.v ===== *)
(** * The Slack connector: no message is missed

    Against a workspace where people keep writing while the connector runs,
    every stored cursor tells the truth, and a sync that completes has indexed
    every message of the channels' histories posted before it began. *)

From stdpp Require Import base gmap strings list.
From Stdlib Require Import Ascii ZArith Lia.
From S2P Require Import Prelude GoStrings GoText GoTime GoEncode Tenancy Crypto Blob ControlPlane Document Kafka HubSync ConnectorRun.
From S2P Require Import GoHttp GatewayEdge Slack.

Open Scope Z_scope.

Notation "a ⪯ b" := (str_leb a b = true) (at level 70).

(** ** A workspace

    What the API is documented to do.  [posts s c] are the messages the history
    of the channel [c] shows (the replies of a thread are not among them, those
    broadcast to the channel excepted), [clock] the time of the workspace as a message ts,
    [lost s c] that the channel has been archived or out of the connector's
    reach at some time.  History pages run back in time: [horizon c o t] is the
    newest ts a listing since [o] continued with the token [t] may yield.
    [unlisted_channel s t c]: a listing continued with [t] has yet to yield the
    channel.  [history_left] and [listing_left] bound the pages to come. *)
(** A message as it was posted: its first reply gives it a thread. *)
Definition as_posted (m : slackMessage) : slackMessage :=
  mkSlackMessage (sm_Type m) (sm_Subtype m) (sm_User m) (sm_BotID m) (sm_Text m) (sm_TS m) "" (sm_Team m) (sm_Edited m).

Class Workspace (S : Type) := {
  s_answer : ∀ X, SlackReq X → Inp → S → X;
  s_change : S → S → Prop;
  posts : S → string → list slackMessage;
  lost : S → string → Prop;
  clock : S → string;
  horizon : string → string → string → string;
  unlisted_channel : S → string → string → Prop;
  history_left : string → string → string → nat;
  listing_left : string → nat
}.

Class WorkspaceLaws (S : Type) `{!SlackJson, !Workspace S} : Prop := {
  ws_preorder : PreOrder s_change;
  ws_clock s s' : s_change s s' → clock s ⪯ clock s';
  ws_posted s c m : m ∈ posts s c → sm_TS m ⪯ clock s ∧ ":"%char ∉ to_bytes c ∧ valid_text c ∧ valid_text (sm_TS m);
  ws_unique s c m m' : m ∈ posts s c → m' ∈ posts s c → sm_TS m = sm_TS m' → m = m';
  ws_older s s' c m : s_change s s' → m ∈ posts s' c → sm_TS m ⪯ clock s → ¬ lost s' c →
    ∃ m0, m0 ∈ posts s c ∧ sm_TS m0 = sm_TS m ∧ (isUserMessage m = true → isUserMessage m0 = true) ∧
      (sm_Edited m = None → as_posted m0 = as_posted m);
  ws_lost s s' c : s_change s s' → lost s c → lost s' c;
  ws_history i s b c o t ms next :
    slack_decode "conversations.history" sl_history
      (s_answer _ (ApiGet b "conversations.history" (history_params c o t)) i s) = Ok (ms, next) →
    (∀ m, m ∈ ms → m ∈ posts s c ∧ (t ≠ "" → sm_TS m ⪯ horizon c o t)) ∧
    (next ≠ "" → horizon c o next ⪯ clock s ∧ (t ≠ "" → horizon c o next ⪯ horizon c o t) ∧
       (history_left c o next < history_left c o t)%nat) ∧
    (∀ m, m ∈ posts s c → ¬ sm_TS m ⪯ o → t = "" ∨ sm_TS m ⪯ horizon c o t →
       m ∈ ms ∨ (next ≠ "" ∧ sm_TS m ⪯ horizon c o next));
  ws_not_found i s b c o t e :
    slack_decode "conversations.history" sl_history
      (s_answer _ (ApiGet b "conversations.history" (history_params c o t)) i s) = Err e →
    isAPIError e "channel_not_found" = true → lost s c;
  ws_list i s b t chs next :
    slack_decode "conversations.list" sl_channels (s_answer _ (ApiGet b "conversations.list" (list_params t)) i s) = Ok (chs, next) →
    (next ≠ "" → (listing_left next < listing_left t)%nat) ∧
    (∀ c, unlisted_channel s t c → c ∈ ch_ID <$> chs ∨ (next ≠ "" ∧ unlisted_channel s next c));
  ws_listed_later s s' t c : s_change s s' → unlisted_channel s t c → ¬ lost s' c → unlisted_channel s' t c;
  ws_listed s c m : m ∈ posts s c → ¬ lost s c → unlisted_channel s "" c
}.

(** A cursor of valid text is read back as it was written; what is read is valid
    text. *)
Definition valid_cursor (m : gmap string string) : Prop := map_Forall (λ c t, valid_text c ∧ valid_text t) m.

Class SlackCursorLaws `{!SlackJson} : Prop := {
  sl_cursor_text l : NoDup l.*1 → Forall (λ kv, valid_text kv.1 ∧ valid_text kv.2) l → sl_cursor (cursor_text l) = Ok (Some (list_to_map l));
  sl_cursor_valid cur m : sl_cursor cur = Ok (Some m) → valid_cursor m
}.

Section sync.
Context `{!SlackJson, !Hmac, !Quoting, !URLs, !Deps} (sha256 : bytes → bytes).
Context {S : Type} {HW : Workspace S} {HL : WorkspaceLaws S} {HC : SlackCursorLaws} (tenant : string).

Abbreviation W := (Synced S).
Open Scope api_scope.
#[local] Existing Instance ws_preorder.

Lemma str_leb_refl a : a ⪯ a.
Proof using Type. by destruct (str_leb_total a a). Qed.

(** ** Cursors *)
Lemma cursor_roundtrip m : valid_cursor m → slack_parseCursor (encode (Some m)) = Ok (Some m).
Proof using HC.
  intros Hv. assert (Ht : slack_parseCursor (cursor_text (cursor_entries m)) = Ok (Some m)).
  { unfold slack_parseCursor. destruct (String.eqb_spec (cursor_text (cursor_entries m)) "") as [E|_]; [done|].
    assert (Hp : cursor_entries m ≡ₚ map_to_list m) by apply sort_by_perm.
    assert (Hn : NoDup (cursor_entries m).*1) by (rewrite Hp; apply NoDup_fst_map_to_list).
    rewrite sl_cursor_text; [|done|rewrite Hp; by apply map_Forall_to_list in Hv; eapply Forall_impl; [exact Hv|intros []]]. do 2 f_equal. rewrite (list_to_map_proper _ (map_to_list m)); [|done|done]. apply list_to_map_to_list. }
  unfold encode. case_bool_decide as E; [|done]. subst. exact Ht.
Qed.

Lemma parse_valid cur m : slack_parseCursor cur = Ok (Some m) → valid_cursor m.
Proof using HC.
  unfold slack_parseCursor. destruct (String.eqb cur ""); [intros [= <-]; apply map_Forall_empty|].
  destruct (sl_cursor cur) as [st|] eqn:E; [|done]. intros [= ->]. by eapply sl_cursor_valid.
Qed.

Lemma nativeID_inj c c' t t' : ":"%char ∉ to_bytes c → ":"%char ∉ to_bytes c' → nativeID c t = nativeID c' t' → c = c' ∧ t = t'.
Proof using Type.
  unfold nativeID. revert c'. induction c as [|a c IH]; intros [|b c'] Hc Hc' E; cbn in *.
  - by injection E.
  - injection E as <- E. destruct Hc'. by left.
  - injection E as -> E. destruct Hc. by left.
  - injection E as <- E. destruct (IH c') as [-> ->]; [by intros ?; apply Hc; right|by intros ?; apply Hc'; right|done|done].
Qed.

(** ** The index *)

(** The index has the message: the document of what was posted, unless it was
    edited since. *)
Definition indexed (w : W) (c : string) (m : slackMessage) : Prop :=
  ∃ ch m', ch_ID ch = c ∧ sm_TS m' = sm_TS m ∧ (sm_Edited m = None → as_posted m' = as_posted m) ∧
    sy_index w !! nativeID c (sm_TS m) = Some (slack_messageDocument sha256 tenant ch m').

(** The messages of [V] are indexed. *)
Definition inv (V : string → string → Prop) (w : W) : Prop :=
  (∀ c t, V c t → t ⪯ clock (sy_source w)) ∧
  ∀ c m, m ∈ posts (sy_source w) c → isUserMessage m = true → ¬ lost (sy_source w) c → V c (sm_TS m) → indexed w c m.

(** What a cursor promises: the messages up to the ts of their channel. *)
Definition covers (st : gmap string string) (c t : string) : Prop := ∃ T, st !! c = Some T ∧ t ⪯ T.

Definition truthful (w : W) : Prop :=
  match slack_parseCursor (sy_cursor w) with
  | Ok (Some st) => inv (covers st) w
  | Ok None => False
  | Err _ => True
  end.

Lemma edited_posted m m' : as_posted m = as_posted m' → sm_Edited m = sm_Edited m'.
Proof using Type. intros E. by apply (f_equal sm_Edited) in E. Qed.

Lemma slack_inv_move V w s : s_change (sy_source w) s → inv V w → inv V (move s w).
Proof using HL.
  intros Hc [Hb Hi]. split.
  { intros c t Hv. cbn. eapply str_leb_trans; [by eapply Hb|by apply ws_clock]. }
  intros c m Hm Hu Hl Hv. cbn in Hm, Hl.
  destruct (ws_older _ _ _ _ Hc Hm (Hb _ _ Hv) Hl) as (m0 & Hm0 & Ht & Hu0 & He).
  destruct (Hi c m0) as (ch & m' & Hch & Ht' & He' & Hx);
    [done|by apply Hu0|by intros Hlost; apply Hl, (ws_lost _ _ _ Hc)|by rewrite Ht|].
  rewrite Ht in *. exists ch, m'. split_and!; [done|done| |done]. intros Hn. rewrite <- (He Hn). apply He'. by rewrite (edited_posted _ _ (He Hn)).
Qed.

(** [U] may grow to [V] where the new messages are indexed already, or are none. *)
Lemma inv_grow (U V : string → string → Prop) w :
  (∀ c t, V c t → t ⪯ clock (sy_source w)) →
  (∀ c m, m ∈ posts (sy_source w) c → isUserMessage m = true → ¬ lost (sy_source w) c → V c (sm_TS m) → U c (sm_TS m)) →
  inv U w → inv V w.
Proof using Type. intros Hb HUV [_ Hi]. split; [done|]. intros c m Hm Hu Hl Hv. apply Hi; eauto. Qed.

(** A page read at [s0], its message indexed now. *)
Lemma slack_inv_put V s0 w ch m :
  m ∈ posts s0 (ch_ID ch) → s_change s0 (sy_source w) → inv V w →
  inv (λ c t, V c t ∨ (c = ch_ID ch ∧ t = sm_TS m)) (index_put (slack_messageDocument sha256 tenant ch m) w).
Proof using HL.
  intros Hm Hc [Hb Hi]. destruct (ws_posted _ _ _ Hm) as (Hclk & Hcol & _).
  assert (Hnow : sm_TS m ⪯ clock (sy_source w)) by (eapply str_leb_trans; [done|by apply ws_clock]).
  split; [by intros c t [Hv|[_ ->]]; [eapply Hb|]|]. intros c m1 Hm1 Hu Hl Hv. cbn [index_put sy_source] in *.
  destruct (decide (nativeID c (sm_TS m1) = nativeID (ch_ID ch) (sm_TS m))) as [E|E].
  - apply nativeID_inj in E as [-> Ht]; [|by eapply ws_posted|done]. exists ch, m. split_and!; [done|done| |].
    + intros Hn. rewrite <- Ht in Hclk. destruct (ws_older _ _ _ _ Hc Hm1 Hclk Hl) as (m0 & Hm0 & Ht0 & _ & He).
      rewrite <- (He Hn). f_equal. eapply ws_unique; [exact Hm|done|congruence].
    + cbn. rewrite Ht. by apply lookup_insert_eq.
  - destruct Hv as [Hv|[-> Ht]]; [|by rewrite Ht in E]. destruct (Hi c m1) as (ch' & m' & Hch & Ht' & He & Hx); [done..|].
    exists ch', m'. split_and!; [done|done|done|]. cbn. by rewrite lookup_insert_ne.
Qed.

(** ** While the connector runs

    Since [s0], the stored cursor is true and the messages of [V] are indexed. *)
Record during (s0 : S) (V : string → string → Prop) (w : W) : Prop := {
  du_truth : truthful w; du_inv : inv V w; du_since : s_change s0 (sy_source w)
}.

Abbreviation surely m P w := (sure s_answer s_change truthful m P w).
Abbreviation nothing := (λ _ _ : string, False).

Lemma slack_truthful_move w s : s_change (sy_source w) s → truthful w → truthful (move s w).
Proof using HL. unfold truthful. cbn. intros Hc. destruct (slack_parseCursor _) as [[st|]|]; [by apply slack_inv_move|done|done]. Qed.

Lemma slack_during_stable s0 V : stable s_change (during s0 V).
Proof using HL. intros w s Hc [Hw1 Hw2 Hw3]. split; [by apply slack_truthful_move|by apply slack_inv_move|by etrans]. Qed.

Lemma during_grow s0 (U V : string → string → Prop) w :
  (∀ c t, V c t → t ⪯ clock (sy_source w)) →
  (∀ c m, m ∈ posts (sy_source w) c → isUserMessage m = true → ¬ lost (sy_source w) c → V c (sm_TS m) → U c (sm_TS m)) →
  during s0 U w → during s0 V w.
Proof using Type. intros Hb HUV [Hw1 Hw2 Hw3]. split; [done|by eapply inv_grow|done]. Qed.

Lemma during_shrink s0 (U V : string → string → Prop) w : (∀ c t, V c t → U c t) → during s0 U w → during s0 V w.
Proof using Type.
  intros HV Hw. eapply during_grow; [|by intros c m _ _ _; apply HV|exact Hw]. intros c t Hv.
  by apply (proj1 (du_inv _ _ _ Hw) c), HV.
Qed.

Lemma during_nothing s0 V w : during s0 V w → during s0 nothing w.
Proof using Type. by apply during_shrink. Qed.

Lemma during_since s s0 V w : s_change s s0 → during s0 V w → during s V w.
Proof using HL. intros Hc [Hw1 Hw2 Hw3]. split; [done|done|by etrans]. Qed.

Lemma during_now s0 V w : during s0 V w → during (sy_source w) V w.
Proof using HL. intros [Hw1 Hw2 Hw3]. by split. Qed.

(** A message that is there now and was posted before [s0] was there then. *)
Lemma seen_before s0 V w c m :
  during s0 V w → m ∈ posts (sy_source w) c → ¬ lost (sy_source w) c → sm_TS m ⪯ clock s0 →
  ∃ m0, m0 ∈ posts s0 c ∧ sm_TS m0 = sm_TS m ∧ (isUserMessage m = true → isUserMessage m0 = true).
Proof using HL.
  intros Hw Hm Hl Ht. destruct (ws_older _ _ _ _ (du_since _ _ _ Hw) Hm Ht Hl) as (m0 & Hp & He & Hu & _). eauto.
Qed.

Lemma clock_since s0 V w t : during s0 V w → t ⪯ clock s0 → t ⪯ clock (sy_source w).
Proof using HL. intros Hw Ht. eapply str_leb_trans; [exact Ht|]. apply ws_clock, (du_since _ _ _ Hw). Qed.

(** A step that failed, or whose answer is [R]. *)
Definition done_with {A} (s0 : S) (R : A → W → Prop) (r : result ConnErr A) (w : W) : Prop :=
  during s0 nothing w ∧ ∀ a, r = Ok a → R a w.

Lemma sure_then {A B} s0 (m : api SlackReq (result ConnErr A)) (f : A → api SlackReq (result ConnErr B)) R (P : B → W → Prop) w :
  surely m (done_with s0 R) w → (∀ a w, R a w → surely (f a) (done_with s0 P) w) → surely (atry m f) (done_with s0 P) w.
Proof using HL.
  intros Hm Hf. eapply (sure_do _ _ (PreOrder0 := ws_preorder) _ (during s0 nothing)); [apply slack_during_stable|by intros ? []|by split|exact Hm|].
  intros a w' _ Hr. by apply Hf.
Qed.

Lemma sure_stop {A} s0 (J : W → Prop) (a : A) (P : A → W → Prop) w :
  stable s_change J → (∀ w, J w → during s0 nothing w) → (∀ w, J w → P a w) → J w → surely (ARet (Ok a)) (done_with s0 P) w.
Proof using Type.
  intros HJ HI HP Hw. eapply (sure_ret _ _ _ J); [done| |done|].
  - intros w' Hw'. by apply (HI w').
  - intros w' Hw'. split; [by apply HI|]. intros a' [= <-]. by apply HP.
Qed.

Lemma sure_fail {A} s0 V e (P : A → W → Prop) w : during s0 V w → surely (ARet (Err e)) (done_with s0 P) w.
Proof using HL.
  intros Hw. eapply (sure_ret _ _ _ (during s0 V)); [apply slack_during_stable|by intros ? []|done|].
  intros w' Hw'. split; [by eapply during_nothing|done].
Qed.

Lemma slack_sure_ctx {B} s0 (J : W → Prop) (f : unit → api SlackReq (result ConnErr B)) (P : B → W → Prop) w :
  stable s_change J → (∀ w, J w → during s0 nothing w) → J w → (∀ w, J w → surely (f tt) (done_with s0 P) w) →
  surely (atry slack_ctx f) (done_with s0 P) w.
Proof using HL.
  intros HJ HI Hw Hf. eapply (sure_ask _ _ _ J); [done|by intros w' Hw'; apply (HI w')|done|]. intros w' i Hw'. cbn.
  destruct (s_answer _ _ _ _) as [[]|e]; [by apply Hf|]. by eapply sure_fail, HI.
Qed.

Lemma sure_get {A B} s0 (J : W → Prop) base method params (out : bytes → result string A) (f : result SlackErr A → api SlackReq (result ConnErr B))
    (P : B → W → Prop) w :
  stable s_change J → (∀ w, J w → during s0 nothing w) → J w →
  (∀ w i, J w → surely (f (slack_decode method out (s_answer _ (ApiGet base method params) i (sy_source w)))) (done_with s0 P) w) →
  surely (abind (slack_get base method params out) f) (done_with s0 P) w.
Proof using Type.
  intros HJ HI Hw Hf. eapply (sure_ask _ _ _ J); [done|by intros w' Hw'; apply (HI w')|done|]. intros w' i Hw'. by apply Hf.
Qed.

Lemma sure_post s0 V s1 ch m w :
  m ∈ posts s1 (ch_ID ch) → s_change s1 (sy_source w) → during s0 V w →
  surely (emit (slack_messageDocument sha256 tenant ch m))
    (done_with s0 (λ _ : unit, during s0 (λ c t, V c t ∨ (c = ch_ID ch ∧ t = sm_TS m)))) w.
Proof using HL.
  intros Hm Hc Hw. eapply sure_mono; [|apply (sure_emit _ _ (PreOrder0 := ws_preorder) _ (during s0 V)
    (during s0 (λ c t, V c t ∨ (c = ch_ID ch ∧ t = sm_TS m)))); [apply slack_during_stable|by intros ? []|apply slack_during_stable| |done|]].
  - intros r w' [Hj Hr]. split; [by eapply during_nothing|done].
  - intros w'. apply during_shrink. auto.
  - intros s Hs. destruct (slack_during_stable s0 V w s Hs Hw) as [Ht Hi Hsince].
    assert (Hc' : s_change s1 (sy_source (move s w))) by (by etrans).
    split; [|by apply (slack_inv_put _ s1)|done]. unfold truthful in *. cbn [index_put sy_cursor] in *.
    destruct (slack_parseCursor _) as [[st|]|]; [|done|done].
    pose proof (slack_inv_put _ s1 _ _ _ Hm Hc' Ht) as Hput. refine (inv_grow _ _ _ _ _ Hput); [apply Ht|]. by left.
Qed.

(** ** A channel

    The cursor map [st'] is [st] with the channel's ts moved to [K] at most. *)
Definition advanced (cid K : string) (st st' : gmap string string) : Prop :=
  ∀ c, st' !! c = st !! c ∨ (c = cid ∧ ∃ T, st' !! c = Some T ∧ T ⪯ K ∧ valid_text c ∧ valid_text T).

Lemma advanced_trans cid K st1 st2 st3 : advanced cid K st1 st2 → advanced cid K st2 st3 → advanced cid K st1 st3.
Proof using Type. intros H12 H23 c. destruct (H23 c) as [->|]; [apply H12|by right]. Qed.

Lemma advanced_valid cid K st st' : advanced cid K st st' → valid_cursor st → valid_cursor st'.
Proof using Type.
  intros Ha Hv c t Hc. destruct (Ha c) as [E|(-> & T & E & _ & Hk)]; [apply Hv; by rewrite <- E|]. rewrite E in Hc. by injection Hc as <-.
Qed.

Lemma slack_advance_spec cid t K st : t ⪯ K → t ≠ "" → valid_text cid → valid_text t → ∃ st', advance cid t (Some st) = Some (Some st') ∧ advanced cid K st st'.
Proof using Type.
  intros Hk Hne Hvc Hvt. unfold advance. rewrite (proj2 (String.eqb_neq t "") Hne).
  assert (Hin : advanced cid K st (<[cid := t]> st)).
  { intros c. destruct (decide (c = cid)) as [->|]; [right|left; by rewrite lookup_insert_ne].
    split; [done|]. exists t. by rewrite lookup_insert_eq. }
  eexists. split; [reflexivity|]. destruct (st !! cid); [|done]. case_match; [done|]. intros c. by left.
Qed.

Lemma user_ts m : isUserMessage m = true → sm_TS m ≠ "".
Proof using Type. unfold isUserMessage. intros Hu Ht. rewrite Ht in Hu. cbn in Hu. by rewrite andb_false_r in Hu. Qed.

(** The messages of [V] but those still to emit. *)
Abbreviation but V cid ms := (λ c t, V c t ∧ (c = cid → t ∉ sm_TS <$> ms)).

Lemma sure_messages s1 ch K V ms st w :
  (∀ m, m ∈ ms → m ∈ posts s1 (ch_ID ch) ∧ sm_TS m ⪯ K) → (∀ c t, V c t → t ⪯ clock s1) →
  during s1 (but V (ch_ID ch) ms) w →
  surely (emit_messages sha256 tenant ch ms (Some st))
    (done_with s1 (λ st' w, ∃ m', st' = Some m' ∧ advanced (ch_ID ch) K st m' ∧ during s1 V w)) w.
Proof using HL.
  revert st w. induction ms as [|m ms IH]; intros st w Hms Hb Hw; cbn [emit_messages].
  { eapply sure_stop; [apply slack_during_stable|by intros w'; apply during_nothing| |exact Hw]. intros w' Hw'. exists st.
    split_and!; [done|by left|]. eapply during_shrink; [|exact Hw']. cbn. intros c t Hv. split; [done|]. intros _. apply not_elem_of_nil. }
  destruct (Hms m) as [Hm Hk]; [by left|]. destruct (ws_posted _ _ _ Hm) as (Hclk & _ & Hvc & Hvt).
  assert (Hrest : ∀ x, x ∈ ms → x ∈ posts s1 (ch_ID ch) ∧ sm_TS x ⪯ K) by (intros x Hx; apply Hms; by right).
  destruct (isUserMessage m) eqn:Hu; cbn [negb].
  - eapply sure_then; [by eapply (sure_post s1 _ s1); [|apply Hw|exact Hw]|]. clear w Hw. intros a w Hw.
    destruct (slack_advance_spec (ch_ID ch) (sm_TS m) K st Hk (user_ts _ Hu) Hvc Hvt) as (st' & -> & Hadv).
    eapply sure_mono; [|apply IH; [done|done|]].
    + intros r w' [Hj Hr]. split; [done|]. intros a' Ha. destruct (Hr a' Ha) as (m' & -> & Hadv' & Hw').
      exists m'. split_and!; [done|by eapply advanced_trans|done].
    + eapply during_shrink; [|exact Hw]. intros c t [Hv Hn]. destruct (decide (c = ch_ID ch ∧ t = sm_TS m)); [by right|left].
      split; [done|]. intros -> [->|Hin]%elem_of_cons; [naive_solver|by apply Hn].
  - apply IH; [done|done|]. eapply during_grow; [| |exact Hw].
    { intros c t [Hv _]. eapply clock_since; [exact Hw|eauto]. }
    intros c x Hx Hux Hl [Hv Hn]. split; [done|]. intros -> [Hin|Hin]%elem_of_cons; [|by apply Hn].
    destruct (seen_before _ _ _ _ _ Hw Hx Hl) as (x0 & Hx0 & Ht0 & Hu0); [eauto|].
    assert (x0 = m) as -> by (eapply ws_unique; [done|done|congruence]). by rewrite Hu0 in Hu.
Qed.

Section channel.
Context (s0 : S) (ch : channelInfo) (oldest : string) (base : string → string → Prop) (st0 : gmap string string).
Context (old : ∀ t, t ⪯ oldest → t ≠ "" → base (ch_ID ch) t).

(** Read up to the token [t], counted from the time [K]. *)
Definition read_to (K t : string) : string → string → Prop :=
  λ c ts, base c ts ∨ (c = ch_ID ch ∧ ¬ ts ⪯ oldest ∧ ts ⪯ K ∧ ¬ (t ≠ "" ∧ ts ⪯ horizon (ch_ID ch) oldest t)).

Definition reading (t : string) (st : gmap string string) (w : W) : Prop :=
  if String.eqb t "" then st = st0 ∧ during s0 base w
  else ∃ K, clock s0 ⪯ K ∧ K ⪯ clock (sy_source w) ∧ horizon (ch_ID ch) oldest t ⪯ K ∧
    advanced (ch_ID ch) K st0 st ∧ during s0 (read_to K t) w.

Definition channel_read (st : cursorMap) (w : W) : Prop :=
  ∃ m K, st = Some m ∧ clock s0 ⪯ K ∧ K ⪯ clock (sy_source w) ∧ advanced (ch_ID ch) K st0 m ∧ during s0 (read_to K "") w.

Lemma reading_during t st w : reading t st w → during s0 base w.
Proof using Type.
  unfold reading. destruct (String.eqb t ""); [by intros []|]. intros (K & _ & _ & _ & _ & Hw).
  eapply during_shrink; [|exact Hw]. by left.
Qed.

Lemma slack_reading_stable t st : stable s_change (reading t st).
Proof using HL.
  intros w s Hc. unfold reading. destruct (String.eqb t ""); [intros []; split; [done|by apply slack_during_stable]|].
  intros (K & HK & Hn & Hh & Ha & Hw). exists K. split_and!; [done| |done|done|by apply slack_during_stable].
  eapply str_leb_trans; [exact Hn|by apply ws_clock].
Qed.

Lemma channel_read_stable st : stable s_change (channel_read st).
Proof using HL.
  intros w s Hc (m & K & -> & HK & Hn & Ha & Hw). exists m, K. split_and!; [done|done| |done|by apply slack_during_stable].
  eapply str_leb_trans; [exact Hn|by apply ws_clock].
Qed.

Lemma base_bound w c t : during s0 base w → base c t → t ⪯ clock (sy_source w).
Proof using Type. intros Hw. apply (du_inv _ _ _ Hw). Qed.

Lemma read_to_bound K t w c ts : during s0 base w → K ⪯ clock (sy_source w) → read_to K t c ts → ts ⪯ clock (sy_source w).
Proof using HL. intros Hw Hk [Hb|(_ & _ & Ht & _)]; [by eapply base_bound|by eapply str_leb_trans]. Qed.

(** The time a page counts from. *)
Lemma reading_time t st w : reading t st w →
  ∃ K, clock s0 ⪯ K ∧ K ⪯ clock (sy_source w) ∧ (t ≠ "" → horizon (ch_ID ch) oldest t ⪯ K) ∧ advanced (ch_ID ch) K st0 st ∧
    (t = "" → K = clock (sy_source w)) ∧ during s0 (λ c ts, base c ts ∨ (t ≠ "" ∧ read_to K t c ts)) w.
Proof using HL.
  unfold reading. destruct (String.eqb_spec t "") as [->|Ht].
  - intros [-> Hw]. exists (clock (sy_source w)).
    split_and!; [by apply ws_clock, (du_since _ _ _ Hw)|apply str_leb_refl|done|by left|done|].
    eapply during_shrink; [|exact Hw]. by intros c ts [?|[? _]].
  - intros (K & HK & Hn & Hh & Ha & Hw). exists K. split_and!; [done..|].
    eapply during_shrink; [|exact Hw]. intros c ts [Hb|[_ Hr]]; [by left|done].
Qed.

(** The messages a page leaves to emit are those it shows. *)
Lemma page_step t st w i b ms next :
  reading t st w →
  slack_decode "conversations.history" sl_history
    (s_answer _ (ApiGet b "conversations.history" (history_params (ch_ID ch) oldest t)) i (sy_source w)) = Ok (ms, next) →
  ∃ K, clock s0 ⪯ K ∧ K ⪯ clock (sy_source w) ∧ (next ≠ "" → horizon (ch_ID ch) oldest next ⪯ K) ∧ advanced (ch_ID ch) K st0 st ∧
    (∀ m, m ∈ ms → m ∈ posts (sy_source w) (ch_ID ch) ∧ sm_TS m ⪯ K) ∧
    during (sy_source w) (but (read_to K next) (ch_ID ch) ms) w.
Proof using HL.
  intros Hw Hp. pose proof (reading_during _ _ _ Hw) as Hbase. destruct (reading_time _ _ _ Hw) as (K & HK & Hn & Hh & Ha & Hfirst & Hd).
  destruct (ws_history _ _ _ _ _ _ _ _ Hp) as (Hms & Hnext & Hcov). exists K. split_and!; [done|done| |done| |].
  - intros Hne. destruct (Hnext Hne) as (Hc & Ht & _). destruct (decide (t = "")) as [E|E]; [by rewrite Hfirst|].
    eapply str_leb_trans; [by apply Ht|by apply Hh].
  - intros m Hm. destruct (Hms m Hm) as [Hpm Ht]. split; [done|]. destruct (decide (t = "")) as [E|E].
    + rewrite Hfirst by done. by eapply ws_posted.
    + eapply str_leb_trans; [by apply Ht|by apply Hh].
  - eapply during_grow; [by intros c ts [Hr _]; eapply read_to_bound| |by eapply during_now].
    intros c m Hm Hu Hl [[Hb|(-> & Ho & Hk & Hr)] Hin']; [by left|]. right.
    destruct (decide (t ≠ "" ∧ ¬ sm_TS m ⪯ horizon (ch_ID ch) oldest t)) as [[Ht1 Ht2]|Ht].
    + split; [done|]. right. split_and!; [done..|]. by intros [].
    + exfalso. destruct (Hcov m Hm Ho) as [Hin|Hrest]; [|by apply (Hin' eq_refl), list_elem_of_fmap_2|done].
      destruct (decide (t = "")); [by left|right]. destruct (str_leb (sm_TS m) (horizon (ch_ID ch) oldest t)) eqn:E; [done|].
      by destruct Ht.
Qed.

(** A page emitted, and the listing continued. *)
Lemma slack_sure_history t st w i b ms next (more : cursorMap → api SlackReq (result ConnErr cursorMap)) :
  reading t st w →
  slack_decode "conversations.history" sl_history
    (s_answer _ (ApiGet b "conversations.history" (history_params (ch_ID ch) oldest t)) i (sy_source w)) = Ok (ms, next) →
  (∀ st w, next ≠ "" → reading next st w → surely (more (Some st)) (done_with s0 channel_read) w) →
  surely (do st' := emit_messages sha256 tenant ch ms (Some st) in if String.eqb next "" then ARet (Ok st') else more st')
    (done_with s0 channel_read) w.
Proof using HL.
  intros Hw Hp Hmore. pose proof (reading_during _ _ _ Hw) as Hbase.
  destruct (page_step _ _ _ _ _ _ _ Hw Hp) as (K & HK & Hn & Hh & Ha & Hms & Hd). pose proof (du_since _ _ _ Hbase) as Hs.
  eapply sure_then; [eapply sure_mono; [|eapply (sure_messages (sy_source w) ch K (read_to K next))]|].
  - intros r w' [Hj Hr]. split; [by eapply during_since|exact Hr].
  - exact Hms.
  - intros c ts. by eapply read_to_bound.
  - exact Hd.
  - cbn beta. intros st' w' (m' & -> & Ha' & Hw'). assert (Hn' : K ⪯ clock (sy_source w')) by (by eapply clock_since).
    assert (Hadv : advanced (ch_ID ch) K st0 m') by (by eapply advanced_trans).
    apply (during_since s0) in Hw'; [|done]. destruct (String.eqb_spec next "") as [->|Hne].
    + eapply sure_stop; [apply (channel_read_stable (Some m'))| | |by exists m', K].
      * intros w'' (? & ? & _ & _ & _ & _ & Hd'). by eapply during_nothing.
      * done.
    + apply Hmore; [done|]. unfold reading. rewrite (proj2 (String.eqb_neq next "") Hne). exists K. eauto 10.
Qed.

(** A channel out of reach promises nothing. *)
Lemma lost_read t st w : reading t st w → lost (sy_source w) (ch_ID ch) → channel_read (Some st) w.
Proof using HL.
  intros Hw Hl. destruct (reading_time _ _ _ Hw) as (K & HK & Hn & _ & Ha & _). pose proof (reading_during _ _ _ Hw) as Hb.
  exists st, K. split_and!; [done..|]. eapply during_grow; [intros c ts; by eapply read_to_bound| |exact Hb].
  intros c m _ _ Hc [?|(-> & _)]; done.
Qed.

Lemma channel_read_nothing st w : channel_read st w → during s0 nothing w.
Proof using Type. intros (? & ? & _ & _ & _ & _ & Hd). by eapply during_nothing. Qed.

Lemma reading_nothing t st w : reading t st w → during s0 nothing w.
Proof using Type. intros Hw. by eapply during_nothing, reading_during. Qed.

Lemma sure_channel_since fuel b t st w :
  (history_left (ch_ID ch) oldest t < fuel)%nat → reading t st w →
  surely (syncChannelSince sha256 fuel b tenant ch oldest (Some st) t) (done_with s0 channel_read) w.
Proof using HL.
  revert t st w. induction fuel as [|fuel IH]; intros t st w Hf Hw; [lia|]. cbn [syncChannelSince].
  apply (slack_sure_ctx _ (reading t st)); [apply slack_reading_stable|apply reading_nothing|done|]. clear w Hw. intros w Hw.
  apply (sure_get _ (reading t st)); [apply slack_reading_stable|apply reading_nothing|done|]. clear w Hw. intros w i Hw.
  destruct (slack_decode _ _ _) as [[ms next]|e] eqn:E.
  - eapply slack_sure_history; [done|done|]. intros st' w' Hne Hw'. apply IH; [|done].
    destruct (ws_history _ _ _ _ _ _ _ _ E) as (_ & Hnext & _). destruct (Hnext Hne) as (_ & _ & ?). lia.
  - destruct (isAPIError e "channel_not_found") eqn:Hl.
    + eapply sure_stop; [apply (channel_read_stable (Some st))|apply channel_read_nothing|done|].
      eapply lost_read; [done|]. by eapply ws_not_found.
    + destruct (isAPIError e "invalid_cursor"); by eapply sure_fail, reading_nothing.
Qed.
End channel.

Section backfill.
Context (s0 : S) (ch : channelInfo) (base : string → string → Prop) (st0 : gmap string string).

Lemma slack_sure_backfill fuel b t st w :
  (history_left (ch_ID ch) "" t < fuel)%nat → reading s0 ch "" base st0 t st w →
  surely (backfillChannel sha256 fuel b tenant ch (Some st) t) (done_with s0 (channel_read s0 ch "" base st0)) w.
Proof using HL.
  revert t st w. induction fuel as [|fuel IH]; intros t st w Hf Hw; [lia|]. cbn [backfillChannel].
  apply (slack_sure_ctx _ (reading s0 ch "" base st0 t st)); [apply slack_reading_stable|apply reading_nothing|done|]. clear w Hw. intros w Hw.
  apply (sure_get _ (reading s0 ch "" base st0 t st)); [apply slack_reading_stable|apply reading_nothing|done|]. clear w Hw. intros w i Hw.
  destruct (slack_decode _ _ _) as [[ms next]|e] eqn:E; [|by eapply sure_fail, reading_nothing].
  eapply slack_sure_history; [done|done|]. intros st' w' Hne Hw'. apply IH; [|done].
  destruct (ws_history _ _ _ _ _ _ _ _ E) as (_ & Hnext & _). destruct (Hnext Hne) as (_ & _ & ?). lia.
Qed.
End backfill.

(** ** All channels

    The channels [ids] are read up to [s0], the others as [st] says. *)
Definition read_all (s0 : S) (st : gmap string string) (ids : list string) : string → string → Prop :=
  λ c t, covers st c t ∨ (c ∈ ids ∧ t ⪯ clock s0).

Lemma channel_done s0 ch oldest st ids st' w :
  valid_cursor st → (∀ t, t ⪯ oldest → t ≠ "" → covers st (ch_ID ch) t) → channel_read s0 ch oldest (read_all s0 st ids) st st' w →
  ∃ m, st' = Some m ∧ valid_cursor m ∧ during s0 (read_all s0 m (ids ++ [ch_ID ch])) w.
Proof using HL.
  intros Hv Hold (m & K & -> & HK & Hn & Ha & Hw). exists m. split; [done|]. split; [by eapply advanced_valid|].
  assert (Hc : ∀ c t, covers m c t → covers st c t ∨ (c = ch_ID ch ∧ t ⪯ K)).
  { intros c t (T & HT & Ht). destruct (Ha c) as [E|(-> & T' & E & HT' & _)]; [left; exists T; by rewrite <- E|].
    right. split; [done|]. rewrite HT in E. injection E as ->. by eapply str_leb_trans. }
  assert (Hall : ∀ c t, read_all s0 m (ids ++ [ch_ID ch]) c t → read_all s0 st ids c t ∨ (c = ch_ID ch ∧ t ⪯ K)).
  { intros c t [[?|?]%Hc|[[Hin|Hin%list_elem_of_singleton]%elem_of_app Ht]]; [by left; left|by right|by left; right|].
    right. split; [done|by eapply str_leb_trans]. }
  eapply during_grow; [| |exact Hw].
  - intros c t [Hr|[_ Ht]]%Hall; [by apply (proj1 (du_inv _ _ _ Hw) c); left|by eapply str_leb_trans].
  - intros c x Hx Hu Hl [Hr|[-> Ht]]%Hall; [by left|]. destruct (str_leb (sm_TS x) oldest) eqn:E.
    + left. left. apply Hold; [done|by apply user_ts].
    + right. split_and!; [done|by rewrite E|done|]. by intros [].
Qed.

Context (fuel : nat) (enough_pages : ∀ c o, (history_left c o "" < fuel)%nat).

Definition channels_read (s0 : S) (ids : list string) (st : cursorMap) (w : W) : Prop :=
  ∃ m, st = Some m ∧ valid_cursor m ∧ during s0 (read_all s0 m ids) w.

Lemma channels_read_stable s0 ids st : stable s_change (channels_read s0 ids st).
Proof using HL. intros w s Hc (m & -> & Hv & Hw). exists m. split_and!; [done|done|by apply slack_during_stable]. Qed.

Lemma channels_read_nothing s0 ids st w : channels_read s0 ids st w → during s0 nothing w.
Proof using Type. intros (m & _ & _ & Hw). by eapply during_nothing. Qed.

Lemma sure_sync_channels s0 b chs ids st w :
  channels_read s0 ids st w →
  surely (sync_channels sha256 fuel b tenant chs st) (done_with s0 (channels_read s0 (ids ++ (ch_ID <$> chs)))) w.
Proof using HL enough_pages.
  revert ids st w. induction chs as [|ch chs IH]; intros ids st w Hw; cbn [sync_channels fmap list_fmap].
  { rewrite app_nil_r. by eapply (sure_stop _ (channels_read s0 ids st)); [apply channels_read_stable|apply channels_read_nothing|..]. }
  eapply slack_sure_ctx; [apply channels_read_stable|apply channels_read_nothing|exact Hw|]. clear w Hw. intros w (m & -> & Hv & Hw).
  eapply sure_then; [eapply (sure_channel_since s0 ch _ (read_all s0 m ids) m); [apply enough_pages|by split]|].
  cbn beta. intros st w' Hw'. rewrite (cons_middle (ch_ID ch) ids), (assoc_L (++)). apply IH. eapply channel_done; [done| |exact Hw'].
  intros t Ht Hne. cbn in Ht. destruct (m !! ch_ID ch) as [T|] eqn:E; cbn in Ht; [by exists T|]. destruct t; [done|by vm_compute in Ht].
Qed.

Lemma truthful_stored s0 m ids w : valid_cursor m → during s0 (read_all s0 m ids) w → truthful (store_cursor (encode (Some m)) w).
Proof using HC.
  intros Hv Hw. unfold truthful. cbn [sy_cursor store_cursor]. rewrite cursor_roundtrip by done.
  apply (during_shrink _ _ (covers m)) in Hw; [exact (du_inv _ _ _ Hw)|]. by left.
Qed.

Lemma slack_sure_stored s0 m ids w :
  valid_cursor m → during s0 (read_all s0 m ids) w →
  surely (checkpoint (encode (Some m))) (done_with s0 (λ _ : unit, channels_read s0 ids (Some m))) w.
Proof using HL HC.
  intros Hv Hw. eapply sure_mono; [|apply (sure_checkpoint _ _ (PreOrder0 := ws_preorder) _ (during s0 (read_all s0 m ids))
    (during s0 (read_all s0 m ids))); [apply slack_during_stable|by intros ? []|apply slack_during_stable|done|exact Hw|]].
  - intros r w' [Hj Hr]. split; [by eapply during_nothing|]. intros a Ha. exists m. eauto.
  - intros s Hs. apply (slack_during_stable s0 _ _ _ Hs) in Hw as Hw'. split; [by eapply truthful_stored|apply Hw'|apply Hw'].
Qed.

Lemma sure_backfill_channels s0 b chs ids st w :
  channels_read s0 ids st w →
  surely (backfill_channels sha256 fuel b tenant chs st) (done_with s0 (channels_read s0 (ids ++ (ch_ID <$> chs)))) w.
Proof using HL HC enough_pages.
  revert ids st w. induction chs as [|ch chs IH]; intros ids st w Hw; cbn [backfill_channels fmap list_fmap].
  { rewrite app_nil_r. by eapply (sure_stop _ (channels_read s0 ids st)); [apply channels_read_stable|apply channels_read_nothing|..]. }
  eapply slack_sure_ctx; [apply channels_read_stable|apply channels_read_nothing|exact Hw|]. clear w Hw. intros w (m & -> & Hv & Hw).
  eapply sure_then; [eapply (slack_sure_backfill s0 ch (read_all s0 m ids) m); [apply enough_pages|by split]|].
  cbn beta. intros st w' Hw'. apply channel_done in Hw' as (m' & -> & Hv' & Hw'); [|done|by intros [|??]].
  eapply sure_then; [by apply slack_sure_stored|]. cbn beta. intros _u w'' Hw''. rewrite (cons_middle (ch_ID ch) ids), (assoc_L (++)). by apply IH.
Qed.

(** ** The listing of channels *)
Definition all_listed (s0 : S) (chs : list channelInfo) (s : S) : Prop :=
  ∀ c m, m ∈ posts s0 c → ¬ lost s c → c ∈ ch_ID <$> chs.

Definition listing (s0 : S) V (out : list channelInfo) (t : string) (w : W) : Prop :=
  during s0 V w ∧ ∀ c m, m ∈ posts s0 c → ¬ lost (sy_source w) c → c ∈ ch_ID <$> out ∨ unlisted_channel (sy_source w) t c.

Lemma listing_stable s0 V out t : stable s_change (listing s0 V out t).
Proof using HL.
  intros w s Hc [Hw Hl]. split; [by apply slack_during_stable|]. intros c m Hm Hlost. cbn in *.
  destruct (Hl c m Hm) as [?|Hu]; [by intros ?; apply Hlost, (ws_lost _ _ _ Hc)|by left|right]. by eapply ws_listed_later.
Qed.

Lemma all_listed_later s0 chs s s' : s_change s s' → all_listed s0 chs s → all_listed s0 chs s'.
Proof using HL. intros Hc Hl c m Hm Hlost. apply (Hl c m Hm). intros ?. by apply Hlost, (ws_lost _ _ _ Hc). Qed.

Lemma sure_list s0 V n b out t w :
  (listing_left t < n)%nat → listing s0 V out t w →
  surely (listChannels n b out t) (done_with s0 (λ chs w, during s0 V w ∧ all_listed s0 chs (sy_source w))) w.
Proof using HL.
  revert out t w. induction n as [|n IH]; intros out t w Hf Hw; [lia|]. cbn [listChannels].
  assert (Hno : ∀ w, listing s0 V out t w → during s0 nothing w) by (intros w' [Hw' _]; by eapply during_nothing).
  eapply slack_sure_ctx; [apply listing_stable|exact Hno|exact Hw|]. clear w Hw. intros w Hw.
  eapply sure_get; [apply listing_stable|exact Hno|exact Hw|]. clear w Hw. intros w i Hw.
  destruct (slack_decode _ _ _) as [[chs next]|e] eqn:E; [|by eapply sure_fail, Hno].
  destruct (ws_list _ _ _ _ _ _ E) as [Hleft Hcov]. destruct Hw as [Hd Hl].
  assert (Hl' : ∀ c m, m ∈ posts s0 c → ¬ lost (sy_source w) c → c ∈ ch_ID <$> out ++ chs ∨ (next ≠ "" ∧ unlisted_channel (sy_source w) next c)).
  { intros c m Hm Hlost. rewrite fmap_app, elem_of_app. destruct (Hl c m Hm Hlost) as [?|Hu]; [by left; left|].
    destruct (Hcov c Hu); [by left; right|by right]. }
  destruct (String.eqb_spec next "") as [->|Hne].
  - eapply (sure_stop _ (λ w, during s0 V w ∧ all_listed s0 (out ++ chs) (sy_source w))); [|by intros w' [? _]; eapply during_nothing|done|].
    + intros w' s Hc [Hw1 Hw2]. split; [by apply slack_during_stable|by eapply all_listed_later].
    + split; [done|]. intros c m Hm Hlost. destruct (Hl' c m Hm Hlost) as [?|[? _]]; done.
  - apply IH; [specialize (Hleft Hne); lia|]. split; [done|]. intros c m Hm Hlost. destruct (Hl' c m Hm Hlost) as [?|[_ ?]]; auto.
Qed.

(** ** Syncs *)
Context (enough_lists : (listing_left "" < fuel)%nat).

(** Every message posted before [s0] is in the index, those of lost channels
    excepted. *)
Definition complete (s0 : S) (w : W) : Prop :=
  ∀ c m, m ∈ posts (sy_source w) c → isUserMessage m = true → ¬ lost (sy_source w) c → sm_TS m ⪯ clock s0 → indexed w c m.

Definition synced (s0 : S) (cur : string) (w : W) : Prop := truthful (store_cursor cur w) ∧ complete s0 w.

Lemma started V w : truthful w → inv V w → during (sy_source w) V w.
Proof using HL. by split. Qed.

Lemma inv_nothing w : inv nothing w.
Proof using Type. by split. Qed.

Lemma listing_start V w : during (sy_source w) V w → listing (sy_source w) V [] "" w.
Proof using HL. intros Hw. split; [done|]. intros c m Hm Hl. right. by eapply ws_listed. Qed.

Lemma read_complete s0 chs st w : channels_read s0 (ch_ID <$> chs) st w → all_listed s0 chs (sy_source w) → synced s0 (encode st) w.
Proof using HL HC.
  intros (m & -> & Hv & Hw) Hl. split; [by eapply truthful_stored|]. intros c x Hx Hu Hlost Ht.
  destruct (seen_before _ _ _ _ _ Hw Hx Hlost Ht) as (x0 & Hx0 & _). apply (proj2 (du_inv _ _ _ Hw)); [done..|].
  right. split; [by eapply Hl|done].
Qed.

(** The channels listed, then read one by one. *)
Lemma sure_all V s0 b w (go : list channelInfo → api SlackReq (result ConnErr cursorMap)) :
  listing s0 V [] "" w →
  (∀ chs w, during s0 V w → surely (go chs) (done_with s0 (channels_read s0 (ch_ID <$> chs))) w) →
  surely (do chs := listChannels fuel b [] "" in do st := go chs in ARet (Ok (encode st))) (done_with s0 (synced s0)) w.
Proof using HL HC enough_lists.
  intros Hw Hgo. eapply sure_then; [by apply (sure_list s0 V)|]. cbn beta. clear w Hw. intros chs w [Hw Hl].
  eapply (sure_then _ _ _ (λ st w, channels_read s0 (ch_ID <$> chs) st w ∧ all_listed s0 chs (sy_source w))).
  - eapply sure_mono; [|eapply (sure_frame _ _ _ (all_listed s0 chs)); [by intros s s'; apply all_listed_later|exact Hl|by apply Hgo]].
    intros r w' [[Hj Hr] Hl']. split; [done|]. intros a Ha. split; [by apply Hr|done].
  - cbn beta. clear w Hw Hl. intros st w Hw.
    eapply (sure_stop _ (λ w, channels_read s0 (ch_ID <$> chs) st w ∧ all_listed s0 chs (sy_source w))); [| |by intros ? []; eapply read_complete|done].
    + intros w' s Hc [Hw1 Hw2]. split; [by apply channels_read_stable|by eapply all_listed_later].
    + intros w' [Hw1 _]. by eapply channels_read_nothing.
Qed.

Lemma slack_sure_config {A} s0 cfg (f : slackConfig → api SlackReq (result ConnErr A)) (P : A → W → Prop) w :
  during s0 nothing w → (∀ conf, surely (f conf) (done_with s0 P) w) → surely (atry (slack_config cfg) f) (done_with s0 P) w.
Proof using HL. intros Hw Hf. unfold slack_config. destruct (slack_parseConfig _); [by apply Hf|by eapply sure_fail]. Qed.

Lemma slack_sure_full cfg w :
  tenantID (c_tenant cfg) = tenant → truthful w →
  surely (slack_FullSync sha256 fuel cfg) (done_with (sy_source w) (synced (sy_source w))) w.
Proof using HL HC enough_pages enough_lists.
  intros Ht Hw. pose proof (started nothing w Hw (inv_nothing w)) as Hd. apply slack_sure_config; [done|]. intros conf. rewrite Ht.
  apply (sure_all nothing); [by apply listing_start|]. clear Hw Hd. intros chs w' Hw'. apply (sure_backfill_channels _ _ _ []).
  exists ∅. split_and!; [done|apply map_Forall_empty|]. eapply during_shrink; [|exact Hw']. intros c t [(T & HT & _)|[Hin _]]; [done|by apply not_elem_of_nil in Hin].
Qed.

Lemma slack_sure_incremental cfg w :
  tenantID (c_tenant cfg) = tenant → truthful w →
  surely (slack_IncrementalSync sha256 fuel cfg (sy_cursor w)) (done_with (sy_source w) (synced (sy_source w))) w.
Proof using HL HC enough_pages enough_lists.
  intros Ht Hw. pose proof (started nothing w Hw (inv_nothing w)) as Hd. apply slack_sure_config; [done|]. intros conf. rewrite Ht.
  pose proof Hw as Hc. unfold truthful in Hc. destruct (slack_parseCursor (sy_cursor w)) as [[st|]|e] eqn:Ep; [|done|by eapply sure_fail]. apply parse_valid in Ep.
  apply (sure_all (covers st)); [by apply listing_start, started|]. clear Hw Hd Hc. intros chs w' Hw'. apply (sure_sync_channels _ _ _ []).
  exists st. split_and!; [done|done|]. eapply during_shrink; [|exact Hw']. intros c t [?|[Hin _]]; [done|by apply not_elem_of_nil in Hin].
Qed.
End sync.

(** What the hub runs: a full sync where there is no cursor. *)
Definition slack_pass `{!SlackJson, !Quoting, !URLs, !Deps} (sha256 : bytes → bytes) (fuel : nat) (cfg : Config) (cur : string) :
    api SlackReq (result ConnErr string) :=
  if String.eqb cur "" then slack_FullSync sha256 fuel cfg else slack_IncrementalSync sha256 fuel cfg cur.

(** C13. A Slack sync misses no message of a channel's history.  Against a
    workspace where people keep writing, replying, editing and deleting while
    the connector runs, a pass that starts with a true cursor never panics and
    never runs out of pages; at every moment the stored cursor is true: each
    message the channel's history shows up to the ts the cursor holds for the
    channel is in the index.  A pass that returns a cursor returns a true one,
    and every message shown in the history of a channel and posted before the
    pass began is then in the index, unless its channel was archived or out of
    reach: with its content as it is if it was never edited, up to the thread
    mark its first reply gives it.  Replies in a thread that are not broadcast
    to the channel are not in its history, and the pass does not fetch them. *)
Theorem slack_sync_complete {S : Type} `{!SlackJson, !Quoting, !URLs, !Deps} `{!Workspace S, !WorkspaceLaws S, !SlackCursorLaws}
    (sha256 : bytes → bytes) (fuel : nat) (cfg : Config) (w : Synced S) m' w' :
  (∀ c o, (history_left c o "" < fuel)%nat) → (listing_left "" < fuel)%nat → truthful sha256 (tenantID (c_tenant cfg)) w →
  star (astep s_answer s_change) (slack_pass sha256 fuel cfg (sy_cursor w), w) (m', w') →
  m' ≠ APanic ∧ m' ≠ AHang ∧ truthful sha256 (tenantID (c_tenant cfg)) w' ∧
  (∀ cur, m' = ARet (Ok cur) → synced sha256 (tenantID (c_tenant cfg)) (sy_source w) cur w').
Proof.
  intros Hp Hl Hw Hs. set (tenant := tenantID (c_tenant cfg)) in *.
  assert (Hsure : sure s_answer s_change (truthful sha256 tenant) (slack_pass sha256 fuel cfg (sy_cursor w))
    (done_with sha256 tenant (sy_source w) (synced sha256 tenant (sy_source w))) w).
  { unfold slack_pass. destruct (String.eqb (sy_cursor w) ""); [by apply slack_sure_full|by apply slack_sure_incremental]. }
  destruct (sure_reach s_answer s_change (PreOrder0 := ws_preorder) _ _ _ _ _ _ Hsure Hs) as (Hnp & Hnh & Ht & Ha).
  split_and!; [done|done|done|]. intros cur ->. by apply (Ha _ eq_refl).
Qed.

(** ** A workspace with two states

    One channel; first it has the message 1, then also the message 2.  In its
    cursors every character of a channel and of a ts is escaped. *)
Definition esc (s : string) : string := of_bytes (flat_map (λ a, ["\"%char; a]) (to_bytes s)).

(** Reads [{k:v,k:v}]; [key] and [cur] are what the current entry has so far. *)
Fixpoint unesc (l : bytes) (key : option string) (cur : bytes) : list (string * string) :=
  match l with
  | "\"%char :: a :: l' => unesc l' key (cur ++ [a])
  | ":"%char :: l' => unesc l' (Some (of_bytes cur)) []
  | a :: l' =>
    match key with Some k => (k, of_bytes cur) :: unesc l' None [] | None => unesc l' None [] end
  | [] => []
  end.

Lemma unesc_esc s l key cur : unesc (to_bytes (esc s) ++ l) key cur = unesc l key (cur ++ to_bytes s).
Proof.
  unfold esc. rewrite to_of_bytes. generalize (to_bytes s). intros bs. revert cur. induction bs as [|a bs IH]; intros cur; cbn.
  - by rewrite app_nil_r.
  - rewrite IH. by rewrite <- (assoc_L (++)).
Qed.

#[local] Instance two_json : SlackJson := {|
  sl_config _ := Ok ("", ""); sl_ok _ := Ok (true, ""); sl_auth _ := Ok tt;
  sl_channels _ := Ok ([mkChannel "C" "general" false false false []], "");
  sl_channel _ := Err ""; sl_envelope _ := Err ""; sl_event _ := Err "";
  sl_history body :=
    let m t := mkSlackMessage "message" "" "U1" "" "hello" t "" "T" None in
    Ok (match body with ["1"%char] => [m "1"] | ["2"%char] => [m "2"] | ["*"%char] => [m "2"; m "1"] | _ => [] end, "");
  sl_cursor s :=
    let l := unesc (to_bytes s) None [] in
    if bool_decide (Forall (λ kv, valid_text kv.1 ∧ valid_text kv.2) l) then Ok (Some (list_to_map l)) else Err "invalid text";
  sl_string := esc |}.

Lemma unesc_text l : unesc (to_bytes (cursor_text l)) None [] = l.
Proof.
  unfold cursor_text. rewrite to_bytes_app. cbn [to_bytes unesc app].
  assert (Hl : ∀ l, unesc (to_bytes (Join ((λ kv : string * string, sl_string kv.1 +:+ ":" +:+ sl_string kv.2) <$> l) "," +:+ "}")) None [] = l).
  { clear l. intros l. induction l as [|[k v] l IH]; [done|]. destruct l as [|kv l].
    - unfold Join; cbn [fmap list_fmap String.concat fst snd]. rewrite !to_bytes_app, <- !(assoc_L (++)). cbn [sl_string two_json]. rewrite unesc_esc. cbn.
      rewrite unesc_esc. cbn. by rewrite !of_to_bytes.
    - unfold Join in *; cbn [fmap list_fmap String.concat fst snd] in *. rewrite !to_bytes_app, <- !(assoc_L (++)). cbn [sl_string two_json] in *. rewrite unesc_esc.
      cbn. rewrite unesc_esc. cbn. rewrite !of_to_bytes. f_equal. rewrite to_bytes_app in IH. exact IH. }
  apply Hl.
Qed.

#[local] Instance two_cursor : SlackCursorLaws.
Proof.
  split; cbn [sl_cursor two_json].
  - intros l _ Hv. rewrite unesc_text. by rewrite bool_decide_eq_true_2.
  - intros cur m. cbv zeta. case_bool_decide as Hv; [|done]. intros [= <-] c t Hc. apply elem_of_list_to_map_2 in Hc.
    rewrite Forall_forall in Hv. by apply (Hv _ Hc).
Qed.

Definition two_message (t : string) : slackMessage := mkSlackMessage "message" "" "U1" "" "hello" t "" "T" None.

Definition two_posts (s : bool) (c : string) : list slackMessage :=
  if String.eqb c "C" then if s then [two_message "2"; two_message "1"] else [two_message "1"] else [].

(** The messages after [o]. *)
Definition two_since (s : bool) (c o : string) : list slackMessage := List.filter (λ m, negb (str_leb (sm_TS m) o)) (two_posts s c).

Definition param (params : list (string * string)) (k : string) : string :=
  default "" (snd <$> List.find (λ kv, String.eqb kv.1 k) params).

Definition two_body (ms : list slackMessage) : string := match ms with [] => "0" | [m] => sm_TS m | _ => "*" end.

Definition two_answer X (q : SlackReq X) (_ : Inp) (s : bool) : X :=
  match q with
  | ApiGet _ method params => Answered 200 (Ok (to_bytes (two_body (two_since s (param params "channel") (param params "oldest")))))
  | SlackCtx => Ok tt
  | SlackNow => 0
  end.

#[local] Instance two_states : Workspace bool := {|
  s_answer := two_answer; s_change s s' := s = true → s' = true;
  posts := two_posts; lost _ _ := False; clock s := if s then "2" else "1"; horizon _ _ _ := "2";
  unlisted_channel _ _ c := c = "C"; history_left _ _ _ := 0%nat; listing_left _ := 0%nat |}.

Lemma two_posted s c m : m ∈ two_posts s c → c = "C" ∧ (m = two_message "1" ∨ s = true ∧ m = two_message "2").
Proof.
  unfold two_posts. destruct (String.eqb_spec c "C") as [->|]; [|by intros ?%not_elem_of_nil].
  destruct s; rewrite ?elem_of_cons, elem_of_nil; naive_solver.
Qed.

Lemma two_read s b c o t i :
  slack_decode "conversations.history" sl_history
    (s_answer _ (ApiGet b "conversations.history" (history_params c o t)) i s) = Ok (two_since s c o, "").
Proof.
  cbn [s_answer two_states two_answer].
  assert (Ho : param (history_params c o t) "oldest" = o).
  { unfold param, history_params, with_cursor. cbn. destruct (String.eqb_spec o "") as [->|]; [|done]. by destruct (String.eqb t ""). }
  assert (Hc : param (history_params c o t) "channel" = c) by done. rewrite Ho, Hc. unfold slack_decode.
  assert (Hb : ∃ a, to_bytes (two_body (two_since s c o)) = [a] ∧ sl_history [a] = Ok (two_since s c o, "")).
  { unfold two_since, two_posts. destruct (String.eqb c "C"); [|by eexists].
    destruct s; cbn [List.filter sm_TS two_message]; destruct (str_leb "1" o), (str_leb "2" o); by eexists. }
  destruct Hb as (a & -> & Ha). rewrite take_ge by (unfold slack_maxWebhookBody; cbn; lia). cbv beta iota zeta. rewrite Ha. done.
Qed.

#[local] Instance two_laws : WorkspaceLaws bool.
Proof.
  split.
  - split; [by intros s Hs|]. intros s1 s2 s3 H12 H23 Hs. by apply H23, H12.
  - intros [] [] Hc; [done|by discriminate Hc|done|done].
  - intros s c m [-> [->|[-> ->]]]%two_posted; (split_and!; [by try destruct s|by intros ?%list_elem_of_singleton|done|done]).
  - intros s c m m' [-> Hm]%two_posted [_ Hm']%two_posted. naive_solver.
  - intros s s' c m Hc Hm Ht _. exists m. split_and!; [|done..]. apply two_posted in Hm as [-> Hm].
    destruct s, Hm as [->|[-> ->]]; cbn; rewrite ?elem_of_cons; auto. by vm_compute in Ht.
  - done.
  - intros i s b c o t ms next. rewrite two_read. intros [= <- <-]. split_and!; [|done|].
    + intros m Hm. apply list_elem_of_In, filter_In in Hm as [Hm _]. apply list_elem_of_In in Hm. split; [done|].
      apply two_posted in Hm as [_ [->|[_ ->]]]; done.
    + intros m Hm Ho _. left. apply list_elem_of_In, filter_In. split; [by apply list_elem_of_In|]. by destruct (str_leb (sm_TS m) o).
  - intros i s b c o t e. by rewrite two_read.
  - intros i s b t chs next. cbn. intros [= <- <-]. split; [done|]. intros c ->. left. by left.
  - done.
  - by intros s c m [-> _]%two_posted.
Qed.

Definition two_inp : Inp := mkInp None None (mkEnv (λ _, 0) (λ _, 0) "").
#[local] Instance two_quoting : Quoting := {| Quote s := s |}.
#[local] Instance two_urls : URLs := {| url_Parse _ := None |}.
#[local] Instance two_deps : Deps :=
  {| uuid_Parse s := Some s; ts_CheckValid _ := true; ts_AsTime _ := 0; ts_New _ := mkTimestamp 0 0 |}.
Definition two_cfg : Config := mkSdkConfig (mkContext "t1" "t1") "i1" "" None.

(** A sync from the cursor of an empty channel, which the message 2 overtakes. *)
Definition two_start : Synced bool := mkSynced false ∅ "{}".
Definition two_end : Synced bool :=
  let ch := mkChannel "C" "general" false false false [] in
  mkSynced true (<["C:1" := slack_messageDocument id "t1" ch (two_message "1")]> ∅) "{}".

Lemma slack_sync_complete_witness :
  star (astep s_answer s_change) (slack_pass id 1 two_cfg "{}", two_start) (ARet (Ok "{\C:\1}"), two_end) ∧
  truthful id "t1" two_end ∧ synced id "t1" false "{\C:\1}" two_end.
Proof.
  assert (Hs : star (astep s_answer s_change) (slack_pass id 1 two_cfg "{}", two_start) (ARet (Ok "{\C:\1}"), two_end)).
  { replace (ARet (Ok "{\C:\1}"), two_end) with
      (play s_answer two_inp [false; false; false; false; false; true] (slack_pass id 1 two_cfg "{}") two_start) by (vm_compute; reflexivity).
    apply play_star. cbn. tauto. }
  destruct (slack_sync_complete (S := bool) id 1 two_cfg two_start (ARet (Ok "{\C:\1}")) two_end) as (_ & _ & Ht & Ha).
  - intros c o. cbn. lia.
  - cbn. lia.
  - split; [by intros c t (T & HT & _)|]. by intros c m _ _ _ (T & HT & _).
  - exact Hs.
  - split; [exact Hs|]. split; [exact Ht|]. apply Ha. reflexivity.
Defined.
