(* ===== verification/ICal.v ===== *)
(** * The iCalendar feed connector

    Models [connectors/ical]: the RFC 5545 parser (parse.go), events as
    documents (event.go), cursors (cursor.go), configuration and the feed fetch
    (ical.go), full and incremental sync (sync.go).  The HTTP exchange is a
    request; JSON and URL parsing, and the text of a base64 error, are
    parameters.  A text is a byte list while it is parsed. *)

From stdpp Require Import base gmap strings list pretty.
From Stdlib Require Import Ascii ZArith Lia.
From S2P Require Import Prelude GoStrings Tenancy Crypto Blob ControlPlane Document Kafka GoTime HubSync GoText GoEncode GoDate ConnectorRun.

Open Scope Z_scope.

Definition icalID : string := "ical".
Definition maxFeedBytes : Z := 64 * 2 ^ 20.

Definition LF : ascii := "010".
Definition CR : ascii := "013".
Definition TAB : ascii := "009".
Definition DQUOTE : ascii := "034".

(** [json.Unmarshal] of the configuration (its feed_url) and of a cursor (hash,
    max_dtstamp, events, [None] when they are nil), [json.Marshal] of a cursor,
    and the text of a [base64.CorruptInputError]. *)
Class ICalJson := {
  ic_config : string → result string string;
  ic_cursor : bytes → result string (string * string * option (gmap string string));
  ic_cursor_json : string * string * gmap string string → bytes;
  ic_base64_error : string → string
}.

(** The query of a URL, [None] when it does not parse. *)
Class URLQuery := { url_RawQuery : string → option string }.

(** ** parse.go *)
Record property := mkProperty { pr_name : string; pr_params : gmap string string; pr_value : string }.
Record vevent := mkVEvent { ve_props : list property; ve_raw : string }.

(** [strings.TrimSuffix(raw, "\r")] *)
Definition trim_cr (l : bytes) : bytes := match rev l with "013"%char :: l' => rev l' | _ => l end.

(** One line of the feed; the logical lines so far, the last one first. *)
Definition unfold_line (out : list bytes) (raw : bytes) : list bytes :=
  match trim_cr raw, out with
  | [], _ => [] :: out
  | a :: rest, last :: out' => if Ascii.eqb a " " || Ascii.eqb a TAB then (last ++ rest) :: out' else (a :: rest) :: out
  | a :: rest, [] => [a :: rest]
  end.

Definition unfold (body : bytes) : list bytes := rev (foldl unfold_line [] (split_bytes LF [] body)).

Fixpoint unquoted_from (inQuote : bool) (ch : ascii) (l : bytes) : option nat :=
  match l with
  | [] => None
  | a :: l' =>
    if Ascii.eqb a DQUOTE then S <$> unquoted_from (negb inQuote) ch l'
    else if Ascii.eqb a ch && negb inQuote then Some 0%nat
    else S <$> unquoted_from inQuote ch l'
  end.

Definition unquotedIndex (l : bytes) (ch : ascii) : option nat := unquoted_from false ch l.

(** [start]: the bytes of the current piece, reversed. *)
Fixpoint split_unquoted (inQuote : bool) (sep : ascii) (start : bytes) (l : bytes) : list bytes :=
  match l with
  | [] => [rev start]
  | a :: l' =>
    if Ascii.eqb a DQUOTE then split_unquoted (negb inQuote) sep (a :: start) l'
    else if Ascii.eqb a sep && negb inQuote then rev start :: split_unquoted inQuote sep [] l'
    else split_unquoted inQuote sep (a :: start) l'
  end.

Definition splitUnquoted (l : bytes) (sep : ascii) : list bytes := split_unquoted false sep [] l.

(** The name, the parameters and the value. *)
Definition splitLine (line : bytes) : bytes * bytes * bytes :=
  let cut head value :=
    match index_bytes [";"%char] head with
    | Some semi => (take semi head, drop (S semi) head, value)
    | None => (head, [], value)
    end in
  match unquotedIndex line ":" with
  | None => cut line []
  | Some colon => cut (take colon line) (drop (S colon) line)
  end.

Definition unquoteParam (v : bytes) : bytes :=
  match v with
  | a :: (_ :: _) as v' => if Ascii.eqb a DQUOTE && Ascii.eqb (List.last v a) DQUOTE then removelast v' else v
  | _ => v
  end.

Fixpoint unescape (l : bytes) : bytes :=
  match l with
  | "\"%char :: c :: l' => (if Ascii.eqb c "n" || Ascii.eqb c "N" then LF else c) :: unescape l'
  | a :: l' => a :: unescape l'
  | [] => []
  end.

Definition unescapeText (l : bytes) : bytes := if existsb (Ascii.eqb "\") l then unescape l else l.

Section parse.
Context `{!Casing}.

Definition upper (l : bytes) : string := ToUpper (of_bytes l).
Definition upper_trimmed (l : bytes) : string := ToUpper (TrimSpace (of_bytes l)).

Definition property_param (p : property) (name : string) : option string := pr_params p !! ToUpper name.

Definition event_get (e : vevent) (name : string) : option property :=
  List.find (λ p, String.eqb (pr_name p) (ToUpper name)) (ve_props e).

Definition event_getAll (e : vevent) (name : string) : list property :=
  List.filter (λ p, String.eqb (pr_name p) (ToUpper name)) (ve_props e).

Definition event_value (e : vevent) (name : string) : string := default "" (pr_value <$> event_get e name).

Definition add_param (params : gmap string string) (part : bytes) : gmap string string :=
  match part with
  | [] => params
  | _ =>
    match index_bytes ["="%char] part with
    | None => <[upper_trimmed part := ""]> params
    | Some eq => <[upper_trimmed (take eq part) := of_bytes (unquoteParam (drop (S eq) part))]> params
    end
  end.

Definition parseParams (seg : bytes) : gmap string string :=
  match seg with [] => ∅ | _ => foldl add_param ∅ (splitUnquoted seg ";") end.

Definition parseProperty (line : bytes) : property :=
  let '(name, paramSeg, value) := splitLine line in
  mkProperty (upper_trimmed name) (parseParams paramSeg) (of_bytes (unescapeText value)).

(** The events so far, the open components (innermost first), and the
    properties and lines of the event being read; each list the last first. *)
Record parse_state := mkParse {
  ps_events : list vevent; ps_stack : list string; ps_cur : option (list property * list bytes)
}.

Definition parse_line (st : parse_state) (line : bytes) : parse_state :=
  match line with
  | [] => st
  | _ =>
    let '(name, _, value) := splitLine line in
    if String.eqb (upper name) "BEGIN" then
      let comp := upper_trimmed value in
      mkParse (ps_events st) (comp :: ps_stack st)
        (match ps_cur st with None => if String.eqb comp "VEVENT" then Some ([], []) else None | cur => cur end)
    else if String.eqb (upper name) "END" then
      let comp := upper_trimmed value in
      let stack := match ps_stack st with top :: stack' => if String.eqb top comp then stack' else ps_stack st | [] => [] end in
      match ps_cur st with
      | Some (props, raws) =>
        if String.eqb comp "VEVENT"
        then mkParse (mkVEvent (rev props) (Join (of_bytes <$> rev raws) (String LF "")) :: ps_events st) stack None
        else mkParse (ps_events st) stack (Some (props, raws))
      | None => mkParse (ps_events st) stack None
      end
    else
      match ps_cur st, ps_stack st with
      | Some (props, raws), top :: _ =>
        if String.eqb top "VEVENT"
        then mkParse (ps_events st) (ps_stack st) (Some (parseProperty line :: props, line :: raws)) else st
      | _, _ => st
      end
  end.

Definition parseEvents (body : bytes) : list vevent :=
  rev (ps_events (foldl parse_line (mkParse [] [] None) (unfold body))).
End parse.

(** ** event.go *)
Definition statusCancelled : string := "CANCELLED".
Definition noTitle : string := "(no title)".

Definition ical_nativeID (instanceID uid : string) : string := instanceID +:+ ":" +:+ uid.

(** "20060102" *)
Definition compact_date (l : bytes) : option (Z * bytes) :=
  '(y, l) ← get_year l; '(m, l) ← getnum true l; _ ← in_range 1 12 m;
  '(d, l) ← getnum true l; _ ← in_range 1 (daysIn m y) d;
  Some (unix_days y m d * 86400 * nsec, l).

(** "T150405" *)
Definition compact_time (l : bytes) : option (Z * bytes) :=
  l ← expect "T" l; '(hh, l) ← getnum false l; _ ← in_range 0 23 hh;
  '(mm, l) ← getnum true l; _ ← in_range 0 59 mm; '(ss, l) ← getnum true l; _ ← in_range 0 59 ss;
  Some ((hh * 3600 + mm * 60 + ss) * nsec + fraction_ns l, skip_fraction l).

(** [time.Parse] with each of the layouts, in turn. *)
Definition icalLayouts : list (bytes → option Z) :=
  [(λ l, '(d, l) ← compact_date l; '(t, l) ← compact_time l; l ← expect "Z" l; at_end (d + t, l));
   (λ l, '(d, l) ← compact_date l; '(t, l) ← compact_time l; at_end (d + t, l));
   (λ l, '(d, l) ← compact_date l; at_end (d, l))].

Fixpoint first_layout (layouts : list (bytes → option Z)) (l : bytes) : option Z :=
  match layouts with [] => None | p :: ps => match p l with Some t => Some t | None => first_layout ps l end end.

Section event.
Context `{!Casing, !Folding, !Deps} (sha256 : bytes → bytes).

Definition parseICalTime (s : string) : option Timestamp :=
  let s := TrimSpace s in
  if String.eqb s "" then None else ts_New <$> first_layout icalLayouts (to_bytes s).

Definition trimmed_value (ev : vevent) (name : string) : string := TrimSpace (event_value ev name).

Definition ical_versionEtag (ev : vevent) : string :=
  let seq := trimmed_value ev "SEQUENCE" in
  let mod_ := trimmed_value ev "LAST-MODIFIED" in
  if negb (String.eqb seq "") then "seq:" +:+ seq
  else if negb (String.eqb mod_ "") then "mod:" +:+ mod_
  else "sha256:" +:+ EncodeToString (sha256 (to_bytes (ve_raw ev))).

Definition eventBody (ev : vevent) : string :=
  Join (List.filter (λ s, negb (String.eqb s "")) [trimmed_value ev "DESCRIPTION"; trimmed_value ev "LOCATION"])
    (String LF (String LF "")).

Definition cutPrefixFold (s prefix : string) : option string :=
  let n := String.length prefix in
  if (n <=? String.length s)%nat && fold_eq (take_str n s) prefix then Some (drop_str n s) else None.

Definition mailtoAddr (v : string) : string :=
  match cutPrefixFold (TrimSpace v) "mailto:" with Some rest => TrimSpace rest | None => "" end.

Definition actor (p : property) (role : string) : list Participant :=
  let name := match property_param p "CN" with Some cn => TrimSpace cn | None => "" end in
  let email := mailtoAddr (pr_value p) in
  if String.eqb name "" && String.eqb email "" then [] else [mkParticipant name email "" role].

Definition attendee_role (att : property) : string :=
  match property_param att "ROLE" with
  | Some r => if String.eqb (TrimSpace r) "" then "attendee" else ToLower (TrimSpace r)
  | None => "attendee"
  end.

Definition ical_participants (ev : vevent) : list Participant :=
  match event_get ev "ORGANIZER" with Some org => actor org "organizer" | None => [] end ++
  flat_map (λ att, actor att (attendee_role att)) (event_getAll ev "ATTENDEE").

Definition put_trimmed (md : gmap string string) (kv : string * string) : gmap string string :=
  let v := TrimSpace kv.2 in if String.eqb v "" then md else <[kv.1 := v]> md.

Definition all_day (ev : vevent) : bool :=
  match event_get ev "DTSTART" with
  | Some p => match property_param p "VALUE" with Some v => fold_eq (TrimSpace v) "DATE" | None => false end
  | None => false
  end.

Definition ical_metadata (ev : vevent) : gmap string string :=
  let md := foldl put_trimmed ∅
    [("uid", event_value ev "UID"); ("location", event_value ev "LOCATION"); ("dtstart", event_value ev "DTSTART");
     ("dtend", event_value ev "DTEND"); ("status", event_value ev "STATUS"); ("url", event_value ev "URL");
     ("sequence", event_value ev "SEQUENCE"); ("rrule", event_value ev "RRULE")] in
  if all_day ev then <["all_day" := "true"]> md else md.

Definition eventTimestamps (ev : vevent) : option Timestamps :=
  match parseICalTime (event_value ev "CREATED"), parseICalTime (event_value ev "LAST-MODIFIED") with
  | None, None => None
  | created, modified => Some (mkTimestamps created modified None)
  end.

Definition dtstamp (ev : vevent) : string :=
  default "" (head (List.filter (λ s, negb (String.eqb s ""))
    [trimmed_value ev "DTSTAMP"; trimmed_value ev "LAST-MODIFIED"; trimmed_value ev "CREATED"])).

Definition event_uid (ev : vevent) : string := trimmed_value ev "UID".
Definition canceled (ev : vevent) : bool := fold_eq (trimmed_value ev "STATUS") statusCancelled.

Definition ical_tombstone (tenant instanceID uid etag : string) (now : Z) : Document :=
  let native := ical_nativeID instanceID uid in
  mkDoc tenant (DocID sha256 icalID native) icalID native CALENDAR_EVENT "" "" [] ∅ [] None None None etag
    (Some (mkTombstone true (Some (ts_New now)))) None.

Definition disappearedTombstone (tenant instanceID uid : string) (now : Z) : Document :=
  ical_tombstone tenant instanceID uid (EncodeToString (sha256 (to_bytes ("deleted:" +:+ uid)))) now.

(** The time is that of a tombstone. *)
Definition eventDocument (tenant instanceID : string) (ev : vevent) (now : Z) : Document :=
  if canceled ev then ical_tombstone tenant instanceID (event_uid ev) (ical_versionEtag ev) now
  else
    let native := ical_nativeID instanceID (event_uid ev) in
    let title := trimmed_value ev "SUMMARY" in
    mkDoc tenant (DocID sha256 icalID native) icalID native CALENDAR_EVENT (if String.eqb title "" then noTitle else title)
      (eventBody ev) [] (ical_metadata ev) (ical_participants ev) (eventTimestamps ev) None None (ical_versionEtag ev) None None.

(** ** cursor.go *)
Record ical_cursorState := mkICalCursor { ic_Hash : string; ic_MaxDTStamp : string; ic_Events : gmap string string }.

Definition ical_cursorPrefix : string := "ical1:".

(** [feedHash] of ical.go. *)
Definition feedHash (body : bytes) : string := EncodeToString (sha256 body).

Definition note_event (st : ical_cursorState) (ev : vevent) : ical_cursorState :=
  let uid := event_uid ev in
  if String.eqb uid "" then st
  else mkICalCursor (ic_Hash st) (if str_ltb (ic_MaxDTStamp st) (dtstamp ev) then dtstamp ev else ic_MaxDTStamp st)
         (<[uid := ical_versionEtag ev]> (ic_Events st)).

Definition buildCursorState (body : bytes) (events : list vevent) : ical_cursorState :=
  foldl note_event (mkICalCursor (feedHash body) "" ∅) events.

Definition sortedUIDs (m : gmap string string) : list string := sort_by str_leb (map_to_list m).*1.
End event.

(** ** ical.go *)
Inductive ICalReq : Type → Type :=
| FeedGet (url : string) : ICalReq HttpAnswer
| ICalCtx : ICalReq (result GoErr unit)
| ICalNow : ICalReq Z.

Section connector.
Context `{!Casing, !Folding, !Deps, !Quoting, !URLs, !URLQuery, !ICalJson} (sha256 : bytes → bytes).
Abbreviation ical A := (api ICalReq A).
Open Scope api_scope.

(** [parseConfig] of ical.go: the feed's URL. *)
Definition ical_parseConfig (raw : string) : result string string :=
  let conf := if String.eqb raw "" then Ok "" else ic_config raw in
  match conf with
  | Err e => Err ("ical: config is not valid JSON: " +:+ e)
  | Ok feed =>
    let feed := TrimSpace feed in
    let bad := Err ("ical: config field feed_url " +:+ Quote feed +:+ " is not a valid http(s) URL") in
    if String.eqb feed "" then Err "ical: config field feed_url is required"
    else match url_Parse feed with
    | None => bad
    | Some (scheme, host) =>
      if negb (String.eqb host "") && (String.eqb scheme "http" || String.eqb scheme "https") then Ok feed else bad
    end
  end.

(** What a fetch makes of its answer. *)
Definition feed_body (r : HttpAnswer) : result string bytes :=
  match r with
  | BadRequest e => Err ("build feed request: " +:+ e)
  | NoAnswer e => Err e
  | Answered _ (Err e) => Err ("read feed response: " +:+ e)
  | Answered status (Ok body) =>
    if (status <? 200) || (300 <=? status) then Err ("feed status " +:+ pretty status) else Ok (limited maxFeedBytes body)
  end.

Definition fetch (feedURL : string) : ical (result string bytes) := ask r := FeedGet feedURL in ARet (feed_body r).

Definition redactURL (err feedURL : string) : string :=
  match url_RawQuery feedURL with
  | None | Some "" => err
  | Some query => ReplaceAll err query "REDACTED"
  end.

Definition looksLikeICalendar (body : bytes) : bool := Contains (ToUpper (of_bytes body)) "BEGIN:VCALENDAR".

Definition ical_fail {A} (msg : string) : ical (result ConnErr A) := ARet (Err (mkConnErr false msg)).

Definition ical_config (cfg : Config) : ical (result ConnErr string) :=
  match ical_parseConfig (c_config_json cfg) with Err e => ical_fail e | Ok feed => ARet (Ok feed) end.

(** A fetch whose error is passed on without the URL's query. *)
Definition fetch_feed (feed : string) : ical (result ConnErr bytes) :=
  abind (fetch feed) (λ r, match r with Err e => ical_fail (redactURL e feed) | Ok body => ARet (Ok body) end).

Definition ical_Validate (cfg : Config) : ical (result ConnErr unit) :=
  do feed := ical_config cfg in
  abind (fetch feed) (λ r,
  match r with
  | Err e => ical_fail ("ical: feed fetch failed: " +:+ redactURL e feed)
  | Ok body =>
    if looksLikeICalendar body then ARet (Ok tt) else ical_fail "ical: feed did not return iCalendar data (no BEGIN:VCALENDAR)"
  end).

(** ** cursor.go, encoded *)
Definition ical_encode (st : ical_cursorState) : string :=
  ical_cursorPrefix +:+ base64_Encode RawURLEncoding (ic_cursor_json (ic_Hash st, ic_MaxDTStamp st, ic_Events st)).

Definition ical_parseCursor (cur : string) : result string ical_cursorState :=
  match CutPrefix cur ical_cursorPrefix with
  | None => Err "ical: cursor has an unrecognized prefix"
  | Some enc =>
    match DecodeString RawURLEncoding enc with
    | None => Err ("ical: cursor is not valid base64: " +:+ ic_base64_error enc)
    | Some raw =>
      match ic_cursor raw with
      | Err e => Err ("ical: cursor is not valid JSON: " +:+ e)
      | Ok (hash, max, events) => Ok (mkICalCursor hash max (default ∅ events))
      end
    end
  end.

(** ** sync.go *)
Definition ical_ctx : ical (result ConnErr unit) := ask r := ICalCtx in ARet (passed r).

(** The document of an event, emitted; the clock is read for a tombstone only. *)
Definition emit_event (tenant instanceID : string) (ev : vevent) : ical (result ConnErr unit) :=
  if canceled ev then ask now := ICalNow in emit (eventDocument sha256 tenant instanceID ev now)
  else emit (eventDocument sha256 tenant instanceID ev 0).

Fixpoint emit_events (tenant instanceID : string) (events : list vevent) : ical (result ConnErr unit) :=
  match events with
  | [] => ARet (Ok tt)
  | ev :: events' =>
    do _ := ical_ctx in
    if String.eqb (event_uid ev) "" then emit_events tenant instanceID events'
    else do _ := emit_event tenant instanceID ev in emit_events tenant instanceID events'
  end.

Definition ical_FullSync (cfg : Config) : ical (result ConnErr string) :=
  do feed := ical_config cfg in
  do body := fetch_feed feed in
  let events := parseEvents body in
  do _ := emit_events (tenantID (c_tenant cfg)) (c_instance cfg) events in
  let cur := ical_encode (buildCursorState sha256 body events) in
  do _ := checkpoint cur in
  ARet (Ok cur).

(** The events of the new feed; the UIDs present are returned. *)
Fixpoint diff_events (tenant instanceID : string) (prev : gmap string string) (events : list vevent) (present : gset string) :
    ical (result ConnErr (gset string)) :=
  match events with
  | [] => ARet (Ok present)
  | ev :: events' =>
    do _ := ical_ctx in
    let uid := event_uid ev in
    if String.eqb uid "" then diff_events tenant instanceID prev events' present
    else
      let present := {[uid]} ∪ present in
      if canceled ev || negb (bool_decide (prev !! uid = Some (ical_versionEtag sha256 ev)))
      then do _ := emit_event tenant instanceID ev in diff_events tenant instanceID prev events' present
      else diff_events tenant instanceID prev events' present
  end.

Fixpoint emit_gone (tenant instanceID : string) (present : gset string) (uids : list string) : ical (result ConnErr unit) :=
  match uids with
  | [] => ARet (Ok tt)
  | uid :: uids' =>
    if bool_decide (uid ∈ present) then emit_gone tenant instanceID present uids'
    else
      do _ := ical_ctx in
      ask now := ICalNow in
      do _ := emit (disappearedTombstone sha256 tenant instanceID uid now) in
      emit_gone tenant instanceID present uids'
  end.

Definition wrapExpired (err : string) : ConnErr := mkConnErr true (err +:+ ": sdk: sync cursor expired at the source").

Definition ical_IncrementalSync (cfg : Config) (cur : string) : ical (result ConnErr string) :=
  do feed := ical_config cfg in
  match ical_parseCursor cur with
  | Err e => ARet (Err (wrapExpired e))
  | Ok prev =>
    do body := fetch_feed feed in
    if String.eqb (feedHash sha256 body) (ic_Hash prev) then ARet (Ok cur)
    else
      let events := parseEvents body in
      let tenant := tenantID (c_tenant cfg) in
      do present := diff_events tenant (c_instance cfg) (ic_Events prev) events ∅ in
      do _ := emit_gone tenant (c_instance cfg) present (sortedUIDs (ic_Events prev)) in
      ARet (Ok (ical_encode (buildCursorState sha256 body events)))
  end.

Definition ical_connector (o : Oracle ICalReq) : Connector :=
  mkConnector (λ cfg, resolve o 0 (ical_FullSync cfg)) (λ cfg cur, resolve o 0 (ical_IncrementalSync cfg cur)).
End connector.

(** * The iCalendar feed connector: parsing

    A calendar printed by the rules of RFC 5545 reads back as it is: values
    escaped, parameters quoted, components nested, lines folded anywhere. *)

(** ** Calendars as text *)

(** Property, parameter and component names: upper-case letters, digits and
    hyphens. *)
Definition name_byte (a : ascii) : bool := byte_in 65 90 a || byte_in 48 57 a || Ascii.eqb a "-".
Definition is_name (l : bytes) : Prop := l ≠ [] ∧ Forall (λ a, name_byte a = true) l.

(** A property: its name, its parameters and its value. *)
Record prop_text := mkPropText { pt_name : bytes; pt_params : list (bytes * bytes); pt_value : bytes }.

(** Component trees. *)
Inductive item := IProp (p : prop_text) | IComp (name : bytes) (items : list item).

Definition escape (l : bytes) : bytes :=
  flat_map (λ a, if Ascii.eqb a LF then ["\"; "n"]%char
                 else if Ascii.eqb a "\" || Ascii.eqb a ";" || Ascii.eqb a "," then ["\"%char; a] else [a]) l.

Definition param_text (kv : bytes * bytes) : bytes := kv.1 ++ "="%char :: DQUOTE :: kv.2 ++ [DQUOTE].
Definition line_text (p : prop_text) : bytes :=
  pt_name p ++ flat_map (λ kv, ";"%char :: param_text kv) (pt_params p) ++ ":"%char :: escape (pt_value p).

Definition begin_line (name : bytes) : bytes := line_text (mkPropText (to_bytes "BEGIN") [] name).
Definition end_line (name : bytes) : bytes := line_text (mkPropText (to_bytes "END") [] name).

Fixpoint item_lines (it : item) : list bytes :=
  match it with
  | IProp p => [line_text p]
  | IComp name items =>
    begin_line name :: flat_map item_lines items ++ [end_line name]
  end.

(** A line folded into pieces: each but the first on a line of its own, after a
    space or a tab.  [eol] ends every line. *)
Definition folded_line (eol : bytes) (first : bytes) (more : list (ascii * bytes)) : bytes :=
  first ++ flat_map (λ p, eol ++ p.1 :: p.2) more ++ eol.

Definition is_eol (eol : bytes) : Prop := eol = [LF] ∨ eol = [CR; LF].
Definition is_blank (a : ascii) : Prop := a = " "%char ∨ a = TAB.

(** [text] is the lines, each ended and folded in some way. *)
Inductive folded : list bytes → bytes → Prop :=
| folded_nil : folded [] []
| folded_cons eol first more lines text :
    is_eol eol → Forall (λ p, is_blank p.1) more → folded lines text →
    folded ((first ++ concat more.*2) :: lines) (folded_line eol first more ++ text).

(** ** What is read *)
Definition prop_of (p : prop_text) : property :=
  mkProperty (of_bytes (pt_name p)) (foldl (λ m kv, <[of_bytes kv.1 := of_bytes kv.2]> m) ∅ (pt_params p)) (of_bytes (pt_value p)).

Definition direct_props (items : list item) : list prop_text :=
  flat_map (λ it, match it with IProp p => [p] | IComp _ _ => [] end) items.

Definition event_of (items : list item) : vevent :=
  mkVEvent (prop_of <$> direct_props items) (Join (of_bytes <$> (line_text <$> direct_props items)) (String LF "")).

Definition VEVENT : bytes := to_bytes "VEVENT".

(** The events of a tree, in order. *)
Fixpoint item_events (it : item) : list vevent :=
  match it with
  | IProp _ => []
  | IComp name items =>
    if bool_decide (name = VEVENT) then [event_of items]
    else flat_map item_events items
  end.

(** ** Well-formed trees: names are names, texts hold no line break but in
    values, and no event is inside an event. *)
Definition one_line (l : bytes) : Prop := LF ∉ l ∧ CR ∉ l.

Definition wf_prop (p : prop_text) : Prop :=
  is_name (pt_name p) ∧ pt_name p ≠ to_bytes "BEGIN" ∧ pt_name p ≠ to_bytes "END" ∧ CR ∉ pt_value p ∧
  Forall (λ kv, is_name kv.1 ∧ DQUOTE ∉ kv.2 ∧ one_line kv.2) (pt_params p).

Fixpoint wf_item (inside : bool) (it : item) : Prop :=
  match it with
  | IProp p => wf_prop p
  | IComp name items =>
    is_name name ∧ (inside = true → name ≠ VEVENT) ∧
    foldr and True (wf_item (inside || bool_decide (name = VEVENT)) <$> items)
  end.

(** [strings.ToUpper] on ASCII text. *)
Definition upper_byte (a : ascii) : ascii := if byte_in 97 122 a then ascii_of_N (byte_val a - 32) else a.
Class UpperLaws `{!Casing} : Prop := {
  ToUpper_ascii l : Forall (λ a, (byte_val a < 128)%N) l → ToUpper (of_bytes l) = of_bytes (upper_byte <$> l)
}.

Section read.
Context `{!Casing} {HU : UpperLaws}.

Lemma name_byte_range a : name_byte a = true → (byte_val a <= 90)%N ∧ byte_in 97 122 a = false ∧ is_space1 a = false ∧
  a ≠ ":"%char ∧ a ≠ ";"%char ∧ a ≠ "="%char ∧ a ≠ DQUOTE ∧ a ≠ LF ∧ a ≠ CR ∧ a ≠ " "%char ∧ a ≠ TAB.
Proof using Type.
  destruct a as [[] [] [] [] [] [] [] []]; try (vm_compute; discriminate); intros _; split_and!;
    try (intros E; vm_compute in E; congruence); vm_compute; congruence.
Qed.

Lemma name_bytes l : is_name l → ∀ a, a ∈ l → name_byte a = true.
Proof using Type. intros [_ Hl]. by apply Forall_forall. Qed.

Lemma name_free l a : name_byte a = false → is_name l → a ∉ l.
Proof using Type. intros Ha Hl Hin. rewrite (name_bytes l Hl a Hin) in Ha. done. Qed.

Lemma trim_name l : is_name l → TrimSpace (of_bytes l) = of_bytes l.
Proof using Type.
  intros [_ Hl]. unfold TrimSpace. rewrite to_of_bytes. f_equal.
  assert (Htrim : ∀ l, Forall (λ a, name_byte a = true) l → trim_left l = l ∧ trim_right_rev l = l).
  { clear l Hl. intros l Hl. destruct Hl as [|a l Ha Hl]; [done|]. destruct (name_byte_range a Ha) as (Hr & _ & Hs & _).
    cbn [trim_left trim_right_rev]. rewrite Hs.
    assert (Hne : ∀ k, (90 < k)%N → (byte_val a =? k)%N = false) by (intros k Hk; apply N.eqb_neq; lia).
    assert (Hin : byte_in 128 138 a = false) by (unfold byte_in; by rewrite (proj2 (N.leb_gt _ _)) by lia).
    assert (Hs2 : ∀ b, is_space2 a b = false ∧ is_space2 b a = false).
    { intros b. unfold is_space2. rewrite !Hne by done. by rewrite !andb_false_r. }
    assert (Hs3 : ∀ b c, is_space3 a b c = false ∧ is_space3 c b a = false).
    { intros b c. unfold is_space3. rewrite Hin, !Hne by done. by rewrite !andb_false_r. }
    destruct l as [|b l]; [done|]. destruct (Hs2 b) as [-> ->]. destruct l as [|c l]; [done|]. by destruct (Hs3 b c) as [-> ->]. }
  unfold trim_right. rewrite (proj1 (Htrim l Hl)), (proj2 (Htrim (rev l) (Forall_rev Hl))). by rewrite rev_involutive.
Qed.

Lemma upper_name l : is_name l → upper l = of_bytes l.
Proof using HU.
  intros [_ Hl]. unfold upper. rewrite ToUpper_ascii.
  - f_equal. induction Hl as [|a l Ha _ IH]; [done|]. cbn. rewrite IH. f_equal. unfold upper_byte.
    by destruct (name_byte_range a Ha) as (_ & -> & _).
  - eapply Forall_impl; [exact Hl|]. intros a Ha. destruct (name_byte_range a Ha). lia.
Qed.

Lemma upper_trimmed_name l : is_name l → upper_trimmed l = of_bytes l.
Proof using HU. intros Hl. unfold upper_trimmed. rewrite trim_name by done. by apply upper_name. Qed.

(** ** One property *)
Lemma unescape_escape l : unescapeText (escape l) = l.
Proof using Type.
  unfold unescapeText. assert (Hu : unescape (escape l) = l).
  { induction l as [|a l IH]; [done|]. unfold escape in *. cbn [flat_map]. destruct (Ascii.eqb_spec a LF) as [->|Hlf]; [cbn; by rewrite IH|].
    destruct (_ || _) eqn:E; cbn [app].
    - cbn [unescape]. rewrite IH. f_equal. destruct (Ascii.eqb_spec a "n") as [->|]; [done|]. by destruct (Ascii.eqb_spec a "N") as [->|].
    - apply orb_false_iff in E as [[E _]%orb_false_iff _]. cbn [unescape].
      destruct a as [[] [] [] [] [] [] [] []]; try done; by f_equal. }
  destruct (existsb _ _) eqn:E; [done|]. rewrite <- Hu at 2. clear Hu. revert E. generalize (escape l). clear l.
  intros l. induction l as [|a l IH]; [done|]. cbn [existsb]. intros [Ha Hl]%orb_false_iff. destruct (Ascii.eqb_spec "\" a) as [|Hne]; [done|].
  transitivity (a :: unescape l); [f_equal; by apply IH|]. destruct a as [[] [] [] [] [] [] [] []]; try done; by destruct l.
Qed.

Lemma unquoted_skip ch l m : DQUOTE ∉ l → ch ∉ l → unquoted_from false ch (l ++ m) = (λ i, (length l + i)%nat) <$> unquoted_from false ch m.
Proof using Type.
  intros Hq Hc. induction l as [|a l IH]; [cbn; by destruct (unquoted_from _ _ m)|].
  rewrite not_elem_of_cons in Hq, Hc. cbn [app unquoted_from].
  rewrite (proj2 (Ascii.eqb_neq a DQUOTE)), (proj2 (Ascii.eqb_neq a ch)) by naive_solver. rewrite IH by naive_solver. cbn.
  by destruct (unquoted_from _ _ m).
Qed.

Lemma quoted_skip ch l m : DQUOTE ∉ l → unquoted_from true ch (l ++ DQUOTE :: m) = (λ i, (S (length l) + i)%nat) <$> unquoted_from false ch m.
Proof using Type.
  intros Hq. induction l as [|a l IH]; [cbn; by destruct (unquoted_from _ _ m)|]. rewrite not_elem_of_cons in Hq. cbn [app unquoted_from].
  rewrite (proj2 (Ascii.eqb_neq a DQUOTE)) by naive_solver. rewrite andb_false_r, IH by naive_solver. cbn. by destruct (unquoted_from _ _ m).
Qed.

Lemma param_skip ch kv m : is_name kv.1 → DQUOTE ∉ kv.2 → name_byte ch = false → ch ≠ "="%char → ch ≠ DQUOTE →
  unquoted_from false ch (param_text kv ++ m) = (λ i, (length (param_text kv) + i)%nat) <$> unquoted_from false ch m.
Proof using Type.
  intros Hk Hv Hn Heq Hd. destruct kv as [k v]. unfold param_text. cbn [fst snd] in *. rewrite <- !(assoc_L (++)). cbn [app].
  replace (k ++ "="%char :: DQUOTE :: (v ++ [DQUOTE]) ++ m) with ((k ++ ["="%char]) ++ DQUOTE :: v ++ DQUOTE :: m)
    by (by rewrite <- !(assoc_L (++))).
  rewrite unquoted_skip; [| |].
  - cbn [unquoted_from]. rewrite Ascii.eqb_refl. cbn [negb]. rewrite quoted_skip by done.
    destruct (unquoted_from false ch m); [|done]. cbn. f_equal. rewrite !length_app. cbn. rewrite length_app. cbn. lia.
  - rewrite elem_of_app, list_elem_of_singleton. intros [Hin|Hin]; [by apply (name_free _ DQUOTE) in Hin|done].
  - rewrite elem_of_app, list_elem_of_singleton. intros [Hin|Hin]; [by apply (name_free _ ch) in Hin|congruence].
Qed.

Definition params_text (ps : list (bytes * bytes)) : bytes := flat_map (λ kv, ";"%char :: param_text kv) ps.
Definition wf_params (ps : list (bytes * bytes)) : Prop := Forall (λ kv, is_name kv.1 ∧ DQUOTE ∉ kv.2 ∧ one_line kv.2) ps.

Lemma params_colon ps m : wf_params ps →
  unquoted_from false ":" (params_text ps ++ ":"%char :: m) = Some (length (params_text ps)).
Proof using Type.
  intros Hp. induction Hp as [|kv ps (Hk & Hv & _) _ IH]; [done|]. unfold params_text. cbn [flat_map]. fold (params_text ps).
  rewrite <- (assoc_L (++)). cbn [app unquoted_from]. change (Ascii.eqb ";" DQUOTE) with false. change (Ascii.eqb ";" ":") with false. cbn [andb].
  rewrite param_skip by done. rewrite IH. cbn. by rewrite length_app.
Qed.

Lemma split_plain sep start l m : DQUOTE ∉ l → sep ∉ l →
  split_unquoted false sep start (l ++ m) = split_unquoted false sep (rev l ++ start) m.
Proof using Type.
  revert start. induction l as [|a l IH]; intros start Hq Hs; [done|]. rewrite not_elem_of_cons in Hq, Hs. cbn [app split_unquoted rev].
  rewrite (proj2 (Ascii.eqb_neq a DQUOTE)), (proj2 (Ascii.eqb_neq a sep)) by naive_solver. cbn [andb]. rewrite IH by naive_solver.
  by rewrite <- app_assoc.
Qed.

Lemma split_quoted sep start l m : DQUOTE ∉ l →
  split_unquoted true sep start (l ++ DQUOTE :: m) = split_unquoted false sep (DQUOTE :: rev l ++ start) m.
Proof using Type.
  revert start. induction l as [|a l IH]; intros start Hq; [done|]. rewrite not_elem_of_cons in Hq. cbn [app split_unquoted rev].
  rewrite (proj2 (Ascii.eqb_neq a DQUOTE)) by naive_solver. rewrite andb_false_r. rewrite IH by naive_solver. by rewrite <- app_assoc.
Qed.

Lemma split_param start kv m : is_name kv.1 → DQUOTE ∉ kv.2 →
  split_unquoted false ";" start (param_text kv ++ m) = split_unquoted false ";" (rev (param_text kv) ++ start) m.
Proof using Type.
  intros Hk Hv. destruct kv as [k v]. unfold param_text. cbn [fst snd] in *.
  replace ((k ++ "="%char :: DQUOTE :: v ++ [DQUOTE]) ++ m) with ((k ++ ["="%char]) ++ DQUOTE :: v ++ DQUOTE :: m)
    by (rewrite <- !(assoc_L (++)); cbn; by rewrite <- (assoc_L (++))).
  rewrite split_plain.
  - cbn [split_unquoted]. rewrite Ascii.eqb_refl. cbn [negb]. rewrite split_quoted by done. f_equal.
    rewrite !rev_app_distr. cbn [rev app]. rewrite !rev_app_distr. cbn. by rewrite <- !(assoc_L (++)).
  - rewrite elem_of_app, list_elem_of_singleton. intros [Hin|Hin]; [by apply (name_free _ DQUOTE) in Hin|done].
  - rewrite elem_of_app, list_elem_of_singleton. intros [Hin|Hin]; [by apply (name_free _ ";") in Hin|done].
Qed.

Lemma split_params start ps : wf_params ps → split_unquoted false ";" start (params_text ps) = rev start :: (param_text <$> ps).
Proof using Type.
  intros Hp. revert start. induction Hp as [|kv ps (Hk & Hv & _) _ IH]; intros start; [done|].
  unfold params_text. cbn [flat_map app split_unquoted]. change (Ascii.eqb ";" DQUOTE) with false. cbn [negb andb Ascii.eqb Bool.eqb]. fold (params_text ps). rewrite split_param, IH by done. by rewrite app_nil_r, rev_involutive.
Qed.

Lemma add_param_text m kv : is_name kv.1 → add_param m (param_text kv) = <[of_bytes kv.1 := of_bytes kv.2]> m.
Proof using HU.
  intros Hk. destruct kv as [k v]. unfold param_text. cbn [fst snd] in *. unfold add_param.
  destruct (k ++ "="%char :: DQUOTE :: v ++ [DQUOTE]) eqn:E; [by destruct k|]. rewrite <- E. clear E.
  rewrite index_bytes_skip by (by apply name_free). cbn [index_bytes is_prefix]. rewrite Ascii.eqb_refl. cbn [andb fmap option_fmap option_map].
  rewrite Nat.add_0_r, take_app_length, upper_trimmed_name by done.
  rewrite (drop_app_ge k) by lia. replace (S (length k) - length k)%nat with 1%nat by lia. cbn [drop]. do 2 f_equal.
  unfold unquoteParam. destruct (v ++ [DQUOTE]) eqn:E; [by destruct v|]. rewrite <- E. rewrite Ascii.eqb_refl.
  rewrite (last_last (DQUOTE :: v) DQUOTE DQUOTE : List.last (DQUOTE :: v ++ [DQUOTE]) DQUOTE = DQUOTE).
  rewrite Ascii.eqb_refl. cbn [andb]. by rewrite removelast_last.
Qed.

Lemma parse_params ps : wf_params ps →
  parseParams (drop 1 (params_text ps)) = foldl (λ m kv, <[of_bytes kv.1 := of_bytes kv.2]> m) ∅ ps.
Proof using HU.
  intros Hp. destruct Hp as [|kv ps (Hk & Hv & _) Hp]; [done|]. unfold params_text. cbn [flat_map app drop]. fold (params_text ps).
  assert (Hne : ∀ seg, seg ≠ [] → parseParams seg = foldl add_param ∅ (splitUnquoted seg ";")) by (by intros []).
  rewrite Hne by (destruct kv as [[] ?]; by try destruct Hk). unfold splitUnquoted.
  rewrite drop_0, split_param, split_params by done. rewrite app_nil_r, rev_involutive. cbn [foldl].
  rewrite add_param_text by done. generalize (<[of_bytes kv.1:=of_bytes kv.2]> (∅ : gmap string string)). clear Hk Hv kv.
  induction Hp as [|kv ps (Hk & _) _ IH]; intros m; [done|]. cbn. rewrite add_param_text by done. apply IH.
Qed.

(** The pieces of a printed line. *)
Lemma split_line p : is_name (pt_name p) → wf_params (pt_params p) → splitLine (line_text p) = (pt_name p, drop 1 (params_text (pt_params p)), escape (pt_value p)).
Proof using Type.
  intros Hn Hp. unfold splitLine, unquotedIndex, line_text. fold (params_text (pt_params p)).
  rewrite unquoted_skip; [|by apply name_free..]. rewrite params_colon by done. cbn [fmap option_fmap option_map].
  rewrite (assoc_L (++)), <- length_app, take_app_length, (drop_app_ge _) by (rewrite ?length_app; lia).
  replace (S (length (pt_name p ++ params_text (pt_params p))) - length (pt_name p ++ params_text (pt_params p)))%nat with 1%nat by lia. cbn [drop].
  destruct (pt_params p) as [|kv ps].
  - unfold params_text. cbn [flat_map drop]. rewrite app_nil_r. rewrite <- (app_nil_r (pt_name p)) at 1. rewrite index_bytes_skip by (by apply name_free).
    done.
  - unfold params_text. cbn [flat_map app]. rewrite index_bytes_skip by (by apply name_free). cbn [index_bytes is_prefix]. rewrite Ascii.eqb_refl.
    cbn [andb fmap option_fmap option_map]. rewrite Nat.add_0_r, take_app_length, (drop_app_ge _) by lia.
    by replace (S (length (pt_name p)) - length (pt_name p))%nat with 1%nat by lia.
Qed.

Lemma parse_property p : wf_prop p → parseProperty (line_text p) = prop_of p.
Proof using HU.
  intros (Hn & _ & _ & _ & Hps). unfold parseProperty. rewrite split_line by done.
  rewrite upper_trimmed_name, parse_params, unescape_escape by done. done.
Qed.

(** ** Lines *)
Lemma trim_cr_plain l : CR ∉ l → trim_cr l = l.
Proof using Type.
  intros Hl. unfold trim_cr. destruct (rev l) as [|a r] eqn:E; [done|]. assert (Ha : a ∈ l) by (apply list_elem_of_In, in_rev; rewrite E; by left).
  destruct (decide (a = CR)) as [->|Hne]; [done|]. destruct a as [[] [] [] [] [] [] [] []]; done.
Qed.

Lemma trim_cr_cr l : trim_cr (l ++ [CR]) = l.
Proof using Type. unfold trim_cr. rewrite rev_app_distr. cbn. apply rev_involutive. Qed.

Lemma split_lf l m : LF ∉ l → ∀ cur, split_bytes LF cur (l ++ LF :: m) = (rev cur ++ l) :: split_bytes LF [] m.
Proof using Type.
  induction l as [|a l IH]; intros Hl cur; [cbn; by rewrite app_nil_r|]. rewrite not_elem_of_cons in Hl. cbn [app split_bytes].
  rewrite (proj2 (Ascii.eqb_neq a LF)) by naive_solver. rewrite IH by naive_solver. cbn. by rewrite <- app_assoc.
Qed.

(** A physical line, whichever way it ends. *)
Lemma read_eol eol x m out : is_eol eol → one_line x →
  foldl unfold_line out (split_bytes LF [] (x ++ eol ++ m)) = foldl unfold_line (unfold_line out x) (split_bytes LF [] m).
Proof using Type.
  intros He [Hlf Hcr]. destruct He as [-> | ->]; cbn [app].
  - rewrite split_lf by done. done.
  - replace (x ++ CR :: LF :: m) with ((x ++ [CR]) ++ LF :: m) by (by rewrite <- app_assoc).
    rewrite split_lf by (rewrite elem_of_app, list_elem_of_singleton; by intros [|]). cbn [foldl rev app]. f_equal.
    unfold unfold_line. by rewrite trim_cr_cr, trim_cr_plain.
Qed.

Definition starts_line (l : bytes) : Prop := ∀ a l', l = a :: l' → ¬ is_blank a.

Lemma unfold_first out x : one_line x → starts_line x → unfold_line out x = x :: out.
Proof using Type.
  intros [_ Hcr] Hs. unfold unfold_line. rewrite trim_cr_plain by done. destruct x as [|a x]; [done|]. destruct out as [|l out]; [done|].
  specialize (Hs a x eq_refl). unfold is_blank in Hs.
  by rewrite (proj2 (Ascii.eqb_neq a " ")), (proj2 (Ascii.eqb_neq a TAB)) by naive_solver.
Qed.

Lemma unfold_more out l b x : is_blank b → CR ∉ x → unfold_line (l :: out) (b :: x) = (l ++ x) :: out.
Proof using Type.
  intros Hb Hx. unfold unfold_line. rewrite trim_cr_plain; [by destruct Hb as [-> | ->]|].
  rewrite elem_of_cons. intros [<-|]; [by destruct Hb|done].
Qed.

Lemma one_line_app l m : one_line (l ++ m) ↔ one_line l ∧ one_line m.
Proof using Type. unfold one_line. rewrite !elem_of_app. naive_solver. Qed.

Lemma read_folded eol more : is_eol eol → Forall (λ p, is_blank p.1) more → one_line (concat more.*2) → ∀ x text o l out,
  unfold_line o x = l :: out → one_line x →
  foldl unfold_line o (split_bytes LF [] (x ++ flat_map (λ p, eol ++ p.1 :: p.2) more ++ eol ++ text)) =
  foldl unfold_line ((l ++ concat more.*2) :: out) (split_bytes LF [] text).
Proof using Type.
  intros He Hm. induction Hm as [|[b y] more Hb _ IH]; cbn [fmap list_fmap concat flat_map snd fst].
  - intros _ x text o l out Hx Hl. cbn [app]. rewrite read_eol, Hx, app_nil_r by done. done.
  - rewrite one_line_app. intros [Hy Hmore] x text o l out Hx Hl.
    replace (x ++ ((eol ++ b :: y) ++ flat_map (λ p, eol ++ p.1 :: p.2) more) ++ eol ++ text) with
      (x ++ eol ++ (b :: y) ++ flat_map (λ p, eol ++ p.1 :: p.2) more ++ eol ++ text) by (by rewrite <- !app_assoc).
    rewrite read_eol, Hx by done. rewrite (IH Hmore _ _ _ (l ++ y) out).
    + by rewrite <- app_assoc.
    + apply unfold_more; [done|apply Hy].
    + change (b :: y) with ([b] ++ y). apply one_line_app. split; [|done]. unfold one_line. rewrite !list_elem_of_singleton.
      destruct Hb as [Hb|Hb]; cbn in Hb; subst b; done.
Qed.

Lemma unfold_folded lines text : folded lines text → Forall (λ l, one_line l ∧ starts_line l) lines → unfold text = lines ++ [[]].
Proof using Type.
  intros Hf Hl. unfold unfold.
  enough (Hall : ∀ out, foldl unfold_line out (split_bytes LF [] text) = [] :: rev lines ++ out).
  { rewrite Hall, app_nil_r. cbn. by rewrite rev_involutive. }
  induction Hf as [|eol first more lines text He Hb _ IH]; intros out; [done|]. apply Forall_cons in Hl as [[Hl Hs] Hls].
  apply one_line_app in Hl as [Hl1 Hl2]. unfold folded_line. rewrite <- !app_assoc. rewrite (read_folded eol more He Hb Hl2 _ _ _ first out); [|apply unfold_first|].
  - rewrite IH by done. cbn. by rewrite <- app_assoc.
  - done.
  - intros a l' E. apply (Hs a (l' ++ concat more.*2)). by rewrite E.
  - done.
Qed.

(** ** Trees *)
Lemma item_ind_nested (P : item → Prop) :
  (∀ p, P (IProp p)) → (∀ name items, Forall P items → P (IComp name items)) → ∀ it, P it.
Proof using Type.
  intros Hp Hc. fix IH 1. intros [p|name items]; [apply Hp|]. apply Hc. induction items as [|it items IHi]; constructor; [apply IH|exact IHi].
Qed.

Lemma escape_name l : is_name l → escape l = l.
Proof using Type.
  intros [_ Hl]. induction Hl as [|a l Ha _ IH]; [done|]. unfold escape in *. cbn [flat_map]. rewrite IH.
  destruct a as [[] [] [] [] [] [] [] []]; try done; by vm_compute in Ha.
Qed.

Lemma begin_name : is_name (to_bytes "BEGIN").
Proof using Type. split; [done|]. repeat constructor. Qed.
Lemma end_name : is_name (to_bytes "END").
Proof using Type. split; [done|]. repeat constructor. Qed.

(** Lines are whole. *)
Lemma line_text_plain p : is_name (pt_name p) → wf_params (pt_params p) → CR ∉ pt_value p →
  one_line (line_text p) ∧ starts_line (line_text p) ∧ line_text p ≠ [].
Proof using Type.
  intros Hn Hp Hv. assert (Hname : ∀ l, is_name l → one_line l) by (intros l Hl; split; by apply name_free).
  assert (Hesc : one_line (escape (pt_value p))).
  { revert Hv. generalize (pt_value p). intros v Hv. split.
    - clear Hv. induction v as [|a v IH]; [apply not_elem_of_nil|]. unfold escape in *. cbn [flat_map]. rewrite elem_of_app. intros [Ha|Ha]; [|done].
      destruct (Ascii.eqb_spec a LF) as [->|Hne]; [|destruct (_ || _)]; rewrite ?elem_of_cons, elem_of_nil in Ha; naive_solver.
    - induction v as [|a v IH]; [apply not_elem_of_nil|]. rewrite not_elem_of_cons in Hv. unfold escape in *. cbn [flat_map].
      rewrite elem_of_app. intros [Ha|Ha]; [|naive_solver].
      destruct (Ascii.eqb_spec a LF) as [->|Hne]; [|destruct (_ || _)]; rewrite ?elem_of_cons, elem_of_nil in Ha; naive_solver. }
  assert (Hps : one_line (params_text (pt_params p))).
  { induction Hp as [|kv ps (Hk & _ & Hv') _ IH]; [split; apply not_elem_of_nil|]. unfold params_text. cbn [flat_map]. apply one_line_app.
    split; [|done]. change (";"%char :: param_text kv) with ([";"%char] ++ param_text kv). unfold param_text.
    change ("="%char :: DQUOTE :: kv.2 ++ [DQUOTE]) with (["="%char; DQUOTE] ++ kv.2 ++ [DQUOTE]). rewrite !one_line_app.
    split_and!; [|by apply Hname| |done|]; split; rewrite ?elem_of_cons, elem_of_nil; naive_solver. }
  split_and!.
  - unfold line_text. fold (params_text (pt_params p)). change (":"%char :: escape (pt_value p)) with ([":"%char] ++ escape (pt_value p)).
    rewrite !one_line_app. split_and!; [by apply Hname|done| |done]. split; rewrite ?elem_of_cons, elem_of_nil; naive_solver.
  - intros a l' E. destruct Hn as [Hne Hn]. unfold line_text in E. destruct (pt_name p) as [|b n]; [done|]. injection E as -> _.
    apply Forall_cons in Hn as [Hb _]. destruct (name_byte_range _ Hb) as (_ & _ & _ & _ & _ & _ & _ & _ & _ & ? & ?). by intros [|].
  - destruct Hn as [Hne _]. unfold line_text. by destruct (pt_name p).
Qed.

Lemma parse_nonempty st line : line ≠ [] → ∀ name seg value, splitLine line = (name, seg, value) →
  parse_line st line =
    if String.eqb (upper name) "BEGIN" then
      mkParse (ps_events st) (upper_trimmed value :: ps_stack st)
        (match ps_cur st with None => if String.eqb (upper_trimmed value) "VEVENT" then Some ([], []) else None | cur => cur end)
    else if String.eqb (upper name) "END" then
      let stack := match ps_stack st with top :: stack' => if String.eqb top (upper_trimmed value) then stack' else ps_stack st | [] => [] end in
      match ps_cur st with
      | Some (props, raws) =>
        if String.eqb (upper_trimmed value) "VEVENT"
        then mkParse (mkVEvent (rev props) (Join (of_bytes <$> rev raws) (String LF "")) :: ps_events st) stack None
        else mkParse (ps_events st) stack (Some (props, raws))
      | None => mkParse (ps_events st) stack None
      end
    else
      match ps_cur st, ps_stack st with
      | Some (props, raws), top :: _ =>
        if String.eqb top "VEVENT" then mkParse (ps_events st) (ps_stack st) (Some (parseProperty line :: props, line :: raws)) else st
      | _, _ => st
      end.
Proof using Type. intros Hne name seg value Hs. destruct line; [done|]. unfold parse_line. by rewrite Hs. Qed.

Lemma name_eqb l t : String.eqb (of_bytes l) t = bool_decide (l = to_bytes t).
Proof using Type.
  destruct (String.eqb_spec (of_bytes l) t) as [<-|Hne].
  - by rewrite bool_decide_eq_true_2 by (by rewrite to_of_bytes).
  - rewrite bool_decide_eq_false_2; [done|]. intros ->. by rewrite of_to_bytes in Hne.
Qed.

Lemma parse_begin st name : is_name name →
  parse_line st (begin_line name) =
    mkParse (ps_events st) (of_bytes name :: ps_stack st)
      (match ps_cur st with None => if bool_decide (name = VEVENT) then Some ([], []) else None | cur => cur end).
Proof using HU.
  intros Hn. pose proof (line_text_plain (mkPropText (to_bytes "BEGIN") [] name) begin_name (Forall_nil_2 _) (name_free name CR eq_refl Hn)) as (_ & _ & Hne).
  unfold begin_line. rewrite (parse_nonempty _ _ Hne _ _ _ (split_line (mkPropText _ [] name) begin_name (Forall_nil_2 _))).
  cbn [pt_name pt_value]. rewrite (upper_name _ begin_name), of_to_bytes. cbn [String.eqb]. rewrite escape_name, upper_trimmed_name, name_eqb by done. done.
Qed.

Lemma parse_end st name : is_name name →
  parse_line st (end_line name) =
    let stack := match ps_stack st with top :: stack' => if String.eqb top (of_bytes name) then stack' else ps_stack st | [] => [] end in
    match ps_cur st with
    | Some (props, raws) =>
      if bool_decide (name = VEVENT)
      then mkParse (mkVEvent (rev props) (Join (of_bytes <$> rev raws) (String LF "")) :: ps_events st) stack None
      else mkParse (ps_events st) stack (Some (props, raws))
    | None => mkParse (ps_events st) stack None
    end.
Proof using HU.
  intros Hn. pose proof (line_text_plain (mkPropText (to_bytes "END") [] name) end_name (Forall_nil_2 _) (name_free name CR eq_refl Hn)) as (_ & _ & Hne).
  unfold end_line. rewrite (parse_nonempty _ _ Hne _ _ _ (split_line (mkPropText _ [] name) end_name (Forall_nil_2 _))).
  cbn [pt_name pt_value]. rewrite (upper_name _ end_name), of_to_bytes. cbn [String.eqb]. rewrite escape_name, upper_trimmed_name, name_eqb by done. done.
Qed.

Lemma parse_prop st p : wf_prop p →
  parse_line st (line_text p) =
    match ps_cur st, ps_stack st with
    | Some (props, raws), top :: _ =>
      if String.eqb top "VEVENT" then mkParse (ps_events st) (ps_stack st) (Some (prop_of p :: props, line_text p :: raws)) else st
    | _, _ => st
    end.
Proof using HU.
  intros Hp. pose proof Hp as (Hn & Hb & He & Hv & Hps). pose proof (line_text_plain p Hn Hps Hv) as (_ & _ & Hne).
  rewrite (parse_nonempty _ _ Hne _ _ _ (split_line p Hn Hps)), (upper_name _ Hn), !name_eqb.
  rewrite !bool_decide_eq_false_2 by done. by rewrite parse_property.
Qed.

Definition wf_items (inside : bool) (items : list item) : Prop := foldr and True (wf_item inside <$> items).

Lemma parse_app st l m : foldl parse_line st (l ++ m) = foldl parse_line (foldl parse_line st l) m.
Proof using Type. apply foldl_app. Qed.

(** A component inside an event leaves no trace. *)
Lemma parse_other it : wf_item true it → ∀ evs top stack cur, top ≠ "VEVENT" →
  foldl parse_line (mkParse evs (top :: stack) (Some cur)) (item_lines it) = mkParse evs (top :: stack) (Some cur).
Proof using HU.
  induction it as [p|name items IH] using item_ind_nested; intros Hw evs top stack cur Ht.
  - cbn [item_lines foldl]. rewrite parse_prop by done. cbn [ps_cur ps_stack]. destruct cur. by rewrite (proj2 (String.eqb_neq _ _) Ht).
  - destruct Hw as (Hn & Hv & Hi). cbn [item_lines foldl]. rewrite parse_begin, parse_app by done. cbn [ps_events ps_stack ps_cur].
    assert (Hit : foldl parse_line (mkParse evs (of_bytes name :: top :: stack) (Some cur)) (flat_map item_lines items) =
      mkParse evs (of_bytes name :: top :: stack) (Some cur)).
    { clear Ht. cbn [orb] in Hi. induction IH as [|it items IHit _ IHs]; [done|]. destruct Hi as [Hi1 Hi2]. cbn [flat_map].
      rewrite parse_app, IHit, IHs; [done|done|done|]. intros E. apply Hv; [done|]. by rewrite <- (to_of_bytes name), E. }
    rewrite Hit. cbn [foldl]. rewrite parse_end by done. cbn [ps_events ps_stack ps_cur]. rewrite String.eqb_refl. destruct cur.
    by rewrite bool_decide_eq_false_2 by (by apply Hv).
Qed.

(** The items of an event. *)
Lemma parse_event items : wf_items true items → ∀ evs stack props raws,
  foldl parse_line (mkParse evs ("VEVENT" :: stack) (Some (props, raws))) (flat_map item_lines items) =
  mkParse evs ("VEVENT" :: stack)
    (Some (rev (prop_of <$> direct_props items) ++ props, rev (line_text <$> direct_props items) ++ raws)).
Proof using HU.
  induction items as [|it items IH]; intros Hw evs stack props raws; [done|]. destruct Hw as [Hit Hw]. cbn [flat_map]. rewrite parse_app.
  destruct it as [p|name sub].
  - cbn [item_lines foldl]. rewrite parse_prop by done. cbn [ps_cur ps_stack ps_events]. rewrite String.eqb_refl, IH by done.
    unfold direct_props. cbn [flat_map app fmap list_fmap rev]. by rewrite <- !app_assoc.
  - assert (Hsame : foldl parse_line (mkParse evs ("VEVENT" :: stack) (Some (props, raws))) (item_lines (IComp name sub)) =
      mkParse evs ("VEVENT" :: stack) (Some (props, raws))).
    { destruct Hit as (Hn & Hv & Hi). cbn [item_lines foldl]. rewrite parse_begin, parse_app by done. cbn [ps_events ps_stack ps_cur].
      assert (Hne : of_bytes name ≠ "VEVENT") by (intros E; apply Hv; [done|]; by rewrite <- (to_of_bytes name), E).
      assert (Hsub : foldl parse_line (mkParse evs (of_bytes name :: "VEVENT" :: stack) (Some (props, raws))) (flat_map item_lines sub) =
        mkParse evs (of_bytes name :: "VEVENT" :: stack) (Some (props, raws))).
      { cbn [orb] in Hi. induction sub as [|it sub IHs]; [done|]. destruct Hi as [Hi1 Hi2]. cbn [flat_map].
        by rewrite parse_app, parse_other, IHs. }
      rewrite Hsub. cbn [foldl]. rewrite parse_end by done. cbn [ps_events ps_stack ps_cur]. rewrite String.eqb_refl.
      by rewrite bool_decide_eq_false_2 by (by apply Hv). }
    rewrite Hsame, IH by done. done.
Qed.

Lemma parse_item it : wf_item false it → ∀ evs stack,
  foldl parse_line (mkParse evs stack None) (item_lines it) = mkParse (rev (item_events it) ++ evs) stack None.
Proof using HU.
  induction it as [p|name items IH] using item_ind_nested; intros Hw evs stack.
  - cbn [item_lines foldl]. rewrite parse_prop by done. done.
  - destruct Hw as (Hn & _ & Hi). cbn [item_lines foldl item_events]. rewrite parse_begin, parse_app by done. cbn [ps_events ps_stack ps_cur].
    destruct (bool_decide_reflect (name = VEVENT)) as [->|Hne].
    + change (of_bytes VEVENT) with "VEVENT". rewrite parse_event by done. cbn [foldl]. rewrite parse_end by done. cbn [ps_events ps_stack ps_cur].
      rewrite bool_decide_eq_true_2 by done. change (of_bytes VEVENT) with "VEVENT". rewrite String.eqb_refl, !app_nil_r, !rev_involutive. done.
    + assert (Hsub : ∀ evs, foldl parse_line (mkParse evs (of_bytes name :: stack) None) (flat_map item_lines items) =
        mkParse (rev (flat_map item_events items) ++ evs) (of_bytes name :: stack) None).
      { cbn [orb] in Hi. induction IH as [|it items IHit _ IHs]; intros evs'; [done|]. destruct Hi as [Hi1 Hi2]. cbn [flat_map].
        rewrite parse_app, IHit, IHs by done. by rewrite rev_app_distr, <- app_assoc. }
      rewrite Hsub. cbn [foldl]. rewrite parse_end by done. cbn [ps_events ps_stack ps_cur]. by rewrite String.eqb_refl.
Qed.

Lemma item_lines_plain it : ∀ inside, wf_item inside it → Forall (λ l, one_line l ∧ starts_line l) (item_lines it).
Proof using Type.
  assert (Hplain : ∀ p, is_name (pt_name p) → wf_params (pt_params p) → CR ∉ pt_value p → one_line (line_text p) ∧ starts_line (line_text p)).
  { intros p Hn Hp Hv. by destruct (line_text_plain p Hn Hp Hv) as (? & ? & _). }
  induction it as [p|name items IH] using item_ind_nested; intros inside Hw.
  - destruct Hw as (Hn & _ & _ & Hv & Hp). constructor; [by apply Hplain|constructor].
  - destruct Hw as (Hn & _ & Hi). pose proof (name_free name CR eq_refl Hn) as Hcr. cbn [item_lines]. constructor.
    { apply Hplain; [apply begin_name|constructor|done]. }
    apply Forall_app. split; [|constructor; [apply Hplain; [apply end_name|constructor|done]|constructor]].
    induction IH as [|it items IHit _ IHs]; [constructor|]. destruct Hi as [Hi1 Hi2]. cbn [flat_map]. apply Forall_app. split; [by eapply IHit|by apply IHs].
Qed.

(** C34. A calendar reads back as it was written.  However components are nested,
    values escaped, parameters quoted, lines folded and ended, parsing the text
    of a well-formed calendar gives its events in order, each with its own
    properties: names, parameters and values as they were, and the lines its
    fingerprint is computed from. *)
Theorem calendar_roundtrip items text :
  wf_items false items → folded (flat_map item_lines items) text → parseEvents text = flat_map item_events items.
Proof using HU.
  intros Hw Hf. unfold parseEvents. rewrite (unfold_folded _ _ Hf).
  - rewrite parse_app. cbn [foldl parse_line].
    enough (Hall : ∀ evs, foldl parse_line (mkParse evs [] None) (flat_map item_lines items) = mkParse (rev (flat_map item_events items) ++ evs) [] None).
    { rewrite Hall. cbn [ps_events]. by rewrite app_nil_r, rev_involutive. }
    clear Hf. induction items as [|it items IH]; intros evs; [done|]. destruct Hw as [Hit Hw]. cbn [flat_map].
    rewrite parse_app, parse_item, IH by done. by rewrite rev_app_distr, <- app_assoc.
  - clear Hf. induction items as [|it items IH]; [constructor|]. destruct Hw as [Hit Hw]. cbn [flat_map].
    apply Forall_app. split; [by eapply item_lines_plain|by apply IH].
Qed.
End read.

(** ** A calendar *)
#[local] Instance cal_casing : Casing := {| ToLower s := s; ToUpper s := of_bytes (upper_byte <$> to_bytes s) |}.
#[local] Instance cal_upper : UpperLaws.
Proof. split. intros l _. cbn. by rewrite to_of_bytes. Qed.

Definition cal_items : list item :=
  [IComp (to_bytes "VCALENDAR")
     [IProp (mkPropText (to_bytes "VERSION") [] (to_bytes "2.0"));
      IComp VEVENT
        [IProp (mkPropText (to_bytes "UID") [] (to_bytes "u1"));
         IProp (mkPropText (to_bytes "SUMMARY") [(to_bytes "X-NOTE", to_bytes "a:b;c")] (to_bytes "Tea, cake" ++ [LF] ++ to_bytes "and more"));
         IComp (to_bytes "VALARM") [IProp (mkPropText (to_bytes "ACTION") [] (to_bytes "DISPLAY"))]]]].

(** Its lines: how each ends and where it is folded. *)
Definition cal_folds : list (bytes * bytes * list (ascii * bytes)) :=
  let crlf := [CR; LF] in
  [(crlf, to_bytes "BEGIN:VCALENDAR", []); (crlf, to_bytes "VERSION:2.0", []); ([LF], to_bytes "BEGIN:VEVENT", []); (crlf, to_bytes "UID:u1", []);
   (crlf, to_bytes "SUMMARY;X-NOTE=" ++ [DQUOTE] ++ to_bytes "a:b;c" ++ [DQUOTE] ++ to_bytes ":Tea\,", [(" "%char, to_bytes " cake"); (TAB, to_bytes "\nand more")]);
   (crlf, to_bytes "BEGIN:VALARM", []); (crlf, to_bytes "ACTION:DISPLAY", []); (crlf, to_bytes "END:VALARM", []);
   (crlf, to_bytes "END:VEVENT", []); (crlf, to_bytes "END:VCALENDAR", [])].

Definition fold_lines (l : list (bytes * bytes * list (ascii * bytes))) : list bytes := (λ x, x.1.2 ++ concat x.2.*2) <$> l.
Definition fold_bytes (l : list (bytes * bytes * list (ascii * bytes))) : bytes := flat_map (λ x, folded_line x.1.1 x.1.2 x.2) l.

Lemma fold_folded l : Forall (λ x, is_eol x.1.1 ∧ Forall (λ p, is_blank p.1) x.2) l → folded (fold_lines l) (fold_bytes l).
Proof. intros Hl. induction Hl as [|[[eol first] more] l [He Hm] _ IH]; [constructor|]. by apply folded_cons. Qed.

Definition name_check (l : bytes) : bool := bool_decide (l ≠ []) && forallb name_byte l.
Definition prop_check (p : prop_text) : bool :=
  name_check (pt_name p) && bool_decide (pt_name p ≠ to_bytes "BEGIN" ∧ pt_name p ≠ to_bytes "END" ∧ CR ∉ pt_value p) &&
  forallb (λ kv, name_check kv.1 && bool_decide (DQUOTE ∉ kv.2 ∧ LF ∉ kv.2 ∧ CR ∉ kv.2)) (pt_params p).

Lemma name_checked l : name_check l = true → is_name l.
Proof.
  unfold name_check. intros [Hne%bool_decide_eq_true Hl]%andb_true_iff. split; [done|]. apply Forall_forall. intros a Ha.
  apply (proj1 (forallb_forall _ _) Hl), list_elem_of_In, Ha.
Qed.

Lemma prop_checked p : prop_check p = true → wf_prop p.
Proof.
  unfold prop_check. intros [[Hn (Hb & He & Hv)%bool_decide_eq_true]%andb_true_iff Hp]%andb_true_iff.
  split_and!; [by apply name_checked|done|done|done|]. apply Forall_forall. intros kv Hkv.
  apply list_elem_of_In, (proj1 (forallb_forall _ _) Hp) in Hkv. apply andb_true_iff in Hkv as [Hk (Hd & Hlf & Hcr)%bool_decide_eq_true].
  split_and!; [by apply name_checked|done|by split].
Qed.

Lemma calendar_roundtrip_witness :
  wf_items false cal_items ∧ folded (flat_map item_lines cal_items) (fold_bytes cal_folds) ∧
  parseEvents (fold_bytes cal_folds) =
    [mkVEvent [mkProperty "UID" ∅ "u1"; mkProperty "SUMMARY" {["X-NOTE" := "a:b;c"]} ("Tea, cake" +:+ String LF "and more")]
       ("UID:u1" +:+ String LF ("SUMMARY;X-NOTE=" +:+ String DQUOTE ("a:b;c" +:+ String DQUOTE ":Tea\, cake\nand more")))].
Proof.
  assert (Hw : wf_items false cal_items).
  { cbn. split_and!; try (apply prop_checked; vm_compute; reflexivity); try (apply name_checked; vm_compute; reflexivity); done. }
  assert (Hf : folded (flat_map item_lines cal_items) (fold_bytes cal_folds)).
  { replace (flat_map item_lines cal_items) with (fold_lines cal_folds) by (vm_compute; reflexivity). apply fold_folded.
    repeat (apply Forall_cons; split; [split; [(by left) || by right|repeat (apply Forall_cons; split; [(by left) || by right|]); apply Forall_nil_2]|]).
    apply Forall_nil_2. }
  split_and!; [exact Hw|exact Hf|].
  rewrite (calendar_roundtrip cal_items (fold_bytes cal_folds) Hw Hf). vm_compute. reflexivity.
Defined.
