(* ===== verification/ICalSyncProofs.v ===== *)
(** * The iCalendar feed connector: synchronisation

    After a pass that completes, the index mirrors the feed: every event of it
    is there, what left it is deleted, and the new cursor describes exactly
    that.  Feeds that repeat a UID, and feeds that fail with a page instead of
    an error, show what the connector then does wrong. *)

From stdpp Require Import base gmap strings list.
From Stdlib Require Import Ascii ZArith Lia.
From S2P Require Import Prelude GoStrings GoText GoTime GoEncode Tenancy Crypto Blob ControlPlane Document Kafka HubSync ConnectorRun ICal.

Open Scope Z_scope.

(** A server of feeds that changes as it likes. *)
Class Feed (S : Type) := { f_answer : ∀ X, ICalReq X → Inp → S → X; f_change : S → S → Prop }.

(** JSON keeps valid UTF-8. *)
Class ICalJsonLaws `{!ICalJson} : Prop := {
  ic_cursor_read b m e : valid_text m → (∀ k v, e !! k = Some v → valid_text k ∧ valid_text v) →
    ic_cursor (ic_cursor_json (EncodeToString b, m, e)) = Ok (EncodeToString b, m, Some e)
}.

Section sync.
Context `{!Casing, !Folding, !Deps, !Quoting, !URLs, !URLQuery} {HJ : ICalJson} {HJL : ICalJsonLaws} (sha256 : bytes → bytes).
Context {S : Type} {HF : Feed S} {HP : PreOrder f_change} (tenant inst : string).

Abbreviation W := (Synced S).
Abbreviation Index := (gmap string Document).
Open Scope api_scope.

(** ** What a pass brings about *)
Definition uids (events : list vevent) : list string := List.filter (λ u, negb (String.eqb u "")) (event_uid <$> events).

(** A feed whose events have UIDs of their own, and text JSON can carry. *)
Definition good_feed (body : bytes) : Prop :=
  NoDup (uids (parseEvents body)) ∧
  ∀ ev, ev ∈ parseEvents body → valid_text (event_uid ev) ∧ valid_text (ical_versionEtag sha256 ev) ∧ valid_text (dtstamp ev).

(** The index has a version of the event with its etag. *)
Definition held (idx : Index) (u etag : string) (gone : bool) : Prop :=
  ∃ ev now, event_uid ev = u ∧ ical_versionEtag sha256 ev = etag ∧ (gone = true → canceled ev = true) ∧
    idx !! ical_nativeID inst u = Some (eventDocument sha256 tenant inst ev now).

Definition dead (idx : Index) (u : string) : Prop := ∀ doc, idx !! ical_nativeID inst u = Some doc → is_deleted doc = true.

Definition mirrors (events : list vevent) (idx : Index) : Prop :=
  (∀ ev, ev ∈ events → event_uid ev ≠ "" → held idx (event_uid ev) (ical_versionEtag sha256 ev) (canceled ev)) ∧
  (∀ u, u ∉ uids events → dead idx u).

Lemma elem_of_uids u events : u ∈ uids events ↔ u ≠ "" ∧ ∃ ev, ev ∈ events ∧ event_uid ev = u.
Proof using Type.
  unfold uids. rewrite list_elem_of_In, filter_In, <- list_elem_of_In, list_elem_of_fmap. split.
  - intros [(ev & -> & Hev) Hne%negb_true_iff%String.eqb_neq]. eauto.
  - intros [Hne (ev & Hev & <-)]. split; [eauto|]. by apply negb_true_iff, String.eqb_neq.
Qed.

Lemma uids_cons ev events : uids (ev :: events) = if String.eqb (event_uid ev) "" then uids events else event_uid ev :: uids events.
Proof using Type. unfold uids. cbn. by destruct (String.eqb _ ""). Qed.

(** ** Cursors *)
Abbreviation noted := (foldl (note_event sha256)).

Lemma noted_from l st u e : ic_Events (noted st l) !! u = Some e → ic_Events st !! u = Some e ∨
  ∃ ev, ev ∈ l ∧ event_uid ev = u ∧ u ≠ "" ∧ ical_versionEtag sha256 ev = e.
Proof using Type.
  revert st. induction l as [|ev l IH]; intros st Hu; [by left|]. cbn [foldl] in Hu. apply IH in Hu as [Hu|(x & Hx & ?)]; [|right; exists x; by split; [right|]].
  unfold note_event in Hu. destruct (String.eqb_spec (event_uid ev) "") as [|Hne]; [by left|]. cbn in Hu.
  apply lookup_insert_Some in Hu as [[<- <-]|[_ Hu]]; [|by left]. right. exists ev. by split; [left|].
Qed.

Lemma noted_kept l st u e : u ∉ uids l → ic_Events st !! u = Some e → ic_Events (noted st l) !! u = Some e.
Proof using Type.
  revert st. induction l as [|ev l IH]; intros st Hu He; [done|]. rewrite uids_cons in Hu. cbn [foldl]. unfold note_event at 2.
  destruct (String.eqb_spec (event_uid ev) "") as [|Hne]; [by apply IH|]. rewrite not_elem_of_cons in Hu. apply IH; [naive_solver|]. cbn.
  by rewrite lookup_insert_ne by naive_solver.
Qed.

Lemma noted_has l st ev : NoDup (uids l) → ev ∈ l → event_uid ev ≠ "" →
  ic_Events (noted st l) !! event_uid ev = Some (ical_versionEtag sha256 ev).
Proof using Type.
  revert st. induction l as [|x l IH]; intros st Hn Hev Hne; [by apply not_elem_of_nil in Hev|]. cbn [foldl]. rewrite uids_cons in Hn.
  apply elem_of_cons in Hev as [<-|Hev].
  - rewrite (proj2 (String.eqb_neq _ _) Hne) in Hn. apply NoDup_cons in Hn as [Hn _]. apply noted_kept; [done|].
    unfold note_event. rewrite (proj2 (String.eqb_neq _ _) Hne). cbn. by rewrite lookup_insert_eq.
  - apply IH; [|done|done]. destruct (String.eqb (event_uid x) ""); [done|]. by apply NoDup_cons in Hn as [_ ?].
Qed.

Lemma noted_hash l st : ic_Hash (noted st l) = ic_Hash st.
Proof using Type. revert st. induction l as [|ev l IH]; intros st; [done|]. cbn [foldl]. rewrite IH. unfold note_event. by destruct (String.eqb _ ""). Qed.

Lemma noted_max l st : valid_text (ic_MaxDTStamp st) → (∀ ev, ev ∈ l → valid_text (dtstamp ev)) → valid_text (ic_MaxDTStamp (noted st l)).
Proof using Type.
  revert st. induction l as [|ev l IH]; intros st Hs Hl; [done|]. cbn [foldl]. apply IH; [|by intros x Hx; apply Hl; right].
  unfold note_event. destruct (String.eqb _ ""); [done|]. cbn. case_match; [|done]. apply Hl. by left.
Qed.

(** A cursor of a good feed reads back. *)
Lemma parse_built body : good_feed body →
  ical_parseCursor (ical_encode (buildCursorState sha256 body (parseEvents body))) = Ok (buildCursorState sha256 body (parseEvents body)).
Proof using HJL.
  intros [_ Hv]. unfold ical_parseCursor, ical_encode, CutPrefix.
  rewrite (proj2 (HasPrefix_spec _ _)) by eauto. rewrite drop_str_app, DecodeString_Encode by done.
  set (st := buildCursorState sha256 body (parseEvents body)).
  assert (Hh : ic_Hash st = EncodeToString (sha256 body)) by apply noted_hash.
  rewrite Hh, ic_cursor_read.
  - cbn [default]. rewrite <- Hh. by destruct st.
  - apply noted_max; [done|]. intros ev Hev. by apply Hv.
  - intros k v Hk. apply noted_from in Hk as [Hk|(ev & Hev & <- & _ & <-)]; [done|]. by split; apply Hv.
Qed.

(** ** Steps that change the index only *)
Abbreviation surely m P w := (sure f_answer f_change (λ _, True) m P w).
Lemma i_event ev w :
  surely (emit_event sha256 tenant inst ev)
    (ok_with (λ _ : unit, λ idx, ∃ now, idx = <[ical_nativeID inst (event_uid ev) := eventDocument sha256 tenant inst ev now]> (sy_index w))) w.
Proof using HP.
  assert (Hid : ∀ now, source_native_id (eventDocument sha256 tenant inst ev now) = ical_nativeID inst (event_uid ev)).
  { intros now. unfold eventDocument. by destruct (canceled ev). }
  assert (Hemit : ∀ now w', sy_index w' = sy_index w → surely (emit (eventDocument sha256 tenant inst ev now))
    (ok_with (λ _ : unit, λ idx, ∃ now, idx = <[ical_nativeID inst (event_uid ev) := eventDocument sha256 tenant inst ev now]> (sy_index w))) w').
  { intros now w' E. eapply sure_mono; [|apply i_emit]. intros r w'' Hr a Ha. exists now. specialize (Hr a Ha). cbn in Hr. by rewrite <- Hr, Hid, E. }
  unfold emit_event. destruct (canceled ev); [|by apply Hemit]. apply i_ask. intros now w' E. by apply Hemit.
Qed.

(** ** One entry written *)
Lemma native_inj u u' : ical_nativeID inst u = ical_nativeID inst u' → u = u'.
Proof using Type. unfold ical_nativeID. intros E. by apply str_app_inj_l, (str_app_inj_l ":") in E. Qed.

Lemma held_put idx ev now u etag gone : u ≠ event_uid ev → held idx u etag gone →
  held (<[ical_nativeID inst (event_uid ev) := eventDocument sha256 tenant inst ev now]> idx) u etag gone.
Proof using Type.
  intros Hne (x & n & Hu & He & Hg & Hx). exists x, n. split_and!; [done..|]. rewrite lookup_insert_ne; [done|]. intros E%native_inj. congruence.
Qed.

Lemma held_new idx ev now :
  held (<[ical_nativeID inst (event_uid ev) := eventDocument sha256 tenant inst ev now]> idx) (event_uid ev) (ical_versionEtag sha256 ev) (canceled ev).
Proof using Type. exists ev, now. split_and!; [done..|]. by rewrite lookup_insert_eq. Qed.

Lemma dead_put idx u u' doc : u ≠ u' → dead idx u → dead (<[ical_nativeID inst u' := doc]> idx) u.
Proof using Type. intros Hne Hd d. rewrite lookup_insert_ne; [apply Hd|]. intros E%native_inj. congruence. Qed.

(** ** The events of a feed

    [done] have been seen; of the others the index has what the cursor said. *)
Definition tracking (prev : gmap string string) (done : list vevent) (idx : Index) : Prop :=
  (∀ ev, ev ∈ done → event_uid ev ≠ "" → held idx (event_uid ev) (ical_versionEtag sha256 ev) (canceled ev)) ∧
  (∀ u, u ∉ uids done → match prev !! u with Some e => held idx u e false | None => dead idx u end).

Lemma uids_snoc done ev : uids (done ++ [ev]) = if String.eqb (event_uid ev) "" then uids done else uids done ++ [event_uid ev].
Proof using Type. unfold uids. rewrite fmap_app, List.filter_app. cbn. destruct (String.eqb _ ""); [by rewrite app_nil_r|done]. Qed.

Lemma track_nameless prev done ev idx : event_uid ev = "" → tracking prev done idx → tracking prev (done ++ [ev]) idx.
Proof using Type.
  intros Hu [Hd Ho]. split.
  - intros x [Hx|Hx%list_elem_of_singleton]%elem_of_app Hne; [by apply Hd|]. by subst.
  - rewrite uids_snoc, Hu. exact Ho.
Qed.

Lemma track_emitted prev done ev now idx : event_uid ev ≠ "" → event_uid ev ∉ uids done → tracking prev done idx →
  tracking prev (done ++ [ev]) (<[ical_nativeID inst (event_uid ev) := eventDocument sha256 tenant inst ev now]> idx).
Proof using Type.
  intros Hne Hnew [Hd Ho]. split.
  - intros x [Hx|Hx%list_elem_of_singleton]%elem_of_app Hx'; [|subst; apply held_new].
    apply held_put; [|by apply Hd]. intros E. apply Hnew, elem_of_uids. rewrite <- E. eauto.
  - intros u. rewrite uids_snoc, (proj2 (String.eqb_neq _ _) Hne), elem_of_app, list_elem_of_singleton. intros Hu.
    specialize (Ho u). destruct (prev !! u); [apply held_put|apply dead_put]; naive_solver.
Qed.

Lemma track_same prev done ev idx : event_uid ev ∉ uids done → canceled ev = false →
  prev !! event_uid ev = Some (ical_versionEtag sha256 ev) → tracking prev done idx → tracking prev (done ++ [ev]) idx.
Proof using Type.
  intros Hnew Hc Hp [Hd Ho]. split.
  - intros x [Hx|Hx%list_elem_of_singleton]%elem_of_app Hx'; [by apply Hd|]. subst x. specialize (Ho _ Hnew). rewrite Hp in Ho. by rewrite Hc.
  - intros u Hu. apply Ho. intros Hin. apply Hu. rewrite uids_snoc. destruct (String.eqb _ ""); [done|]. apply elem_of_app. by left.
Qed.

Lemma fresh_uid done ev events : NoDup (uids (done ++ ev :: events)) → event_uid ev ≠ "" → event_uid ev ∉ uids done.
Proof using Type.
  unfold uids. rewrite fmap_app, List.filter_app. cbn. intros Hn Hne. rewrite (proj2 (String.eqb_neq _ _) Hne) in Hn. cbn in Hn.
  apply NoDup_app in Hn as (_ & Hn & _). intros Hin. apply (Hn _ Hin). by left.
Qed.

Lemma i_emit_events events done w : NoDup (uids (done ++ events)) → tracking ∅ done (sy_index w) →
  surely (emit_events sha256 tenant inst events) (ok_with (λ _ : unit, tracking ∅ (done ++ events))) w.
Proof using HP.
  revert done w. induction events as [|ev events IH]; intros done w Hn Hw; cbn [emit_events]; [rewrite app_nil_r; by apply i_ret|].
  apply i_ctx. intros w' E. rewrite <- E in Hw. clear E w. rewrite (cons_middle ev done events), (assoc_L (++)) in *.
  destruct (String.eqb_spec (event_uid ev) "") as [Hu|Hu]; [by apply IH; [|apply track_nameless]|].
  eapply i_then; [apply i_event|]. cbn beta. intros _ w (now & E). apply IH; [done|]. rewrite E. apply track_emitted; [done| |done].
  rewrite <- (assoc_L (++)) in Hn. by eapply fresh_uid.
Qed.

Lemma i_diff_events prev events done w : NoDup (uids (done ++ events)) → tracking prev done (sy_index w) →
  surely (diff_events sha256 tenant inst prev events (list_to_set (uids done)))
    (ok_with (λ present idx, present = list_to_set (uids (done ++ events)) ∧ tracking prev (done ++ events) idx)) w.
Proof using HP.
  revert done w. induction events as [|ev events IH]; intros done w Hn Hw; cbn [diff_events]; [rewrite app_nil_r; by apply i_ret|].
  apply i_ctx. intros w' E. rewrite <- E in Hw. clear E w. pose proof (fresh_uid _ _ _ Hn) as Hnew.
  rewrite (cons_middle ev done events), (assoc_L (++)) in *.
  assert (Hset : event_uid ev ≠ "" → {[event_uid ev]} ∪ list_to_set (uids done) =@{gset string} list_to_set (uids (done ++ [ev]))).
  { intros Hu. rewrite uids_snoc, (proj2 (String.eqb_neq _ _) Hu). clear. set_solver. }
  destruct (String.eqb_spec (event_uid ev) "") as [Hu|Hu].
  - replace (uids done) with (uids (done ++ [ev])) by (rewrite uids_snoc; by rewrite Hu). by apply IH; [|apply track_nameless].
  - cbv zeta. rewrite Hset by done. destruct (canceled ev || _) eqn:Ec.
    + eapply i_then; [apply i_event|]. cbn beta. intros _ w (now & E). apply IH; [done|]. rewrite E. by apply track_emitted; [|apply Hnew|].
    + apply orb_false_iff in Ec as [Hc Hp%negb_false_iff%bool_decide_eq_true]. apply IH; [done|]. by apply track_same; [apply Hnew|..].
Qed.

(** ** What left the feed *)
Lemma i_gone events l w :
  (∀ ev, ev ∈ events → event_uid ev ≠ "" → held (sy_index w) (event_uid ev) (ical_versionEtag sha256 ev) (canceled ev)) →
  (∀ u, u ∉ uids events → u ∈ l ∨ dead (sy_index w) u) →
  surely (emit_gone sha256 tenant inst (list_to_set (uids events)) l) (ok_with (λ _ : unit, mirrors events)) w.
Proof using HP.
  revert w. induction l as [|u l IH]; intros w Hh Hd; cbn [emit_gone].
  { apply i_ret. split; [done|]. intros u Hu. destruct (Hd u Hu) as [Hin|]; [by apply not_elem_of_nil in Hin|done]. }
  case_bool_decide as Hp; rewrite elem_of_list_to_set in Hp.
  { apply IH; [done|]. intros v Hv. destruct (Hd v Hv) as [[->|]%elem_of_cons|]; auto. done. }
  apply i_ctx. intros w' E. apply i_ask. intros now w'' E'. eapply i_then; [apply i_emit|]. cbn beta. intros _ w3 Hw3.
  cbn [source_native_id disappearedTombstone ical_tombstone] in Hw3. rewrite E', E in Hw3. apply IH; rewrite <- Hw3.
  - intros ev Hev Hne. destruct (Hh ev Hev Hne) as (x & n & Hu & He & Hg & Hx). exists x, n. split_and!; [done..|].
    rewrite lookup_insert_ne; [done|]. intros Eq%native_inj. apply Hp, elem_of_uids. rewrite Eq. eauto.
  - intros v Hv. destruct (decide (v = u)) as [->|Hne].
    + right. intros doc. rewrite lookup_insert_eq. by intros [= <-].
    + destruct (Hd v Hv) as [[->|]%elem_of_cons|Hdead]; [done|by left|right]. by apply dead_put.
Qed.

(** ** Passes *)

(** A body the feed was answered with after [s0]. *)
Definition served (s0 : S) (body : bytes) : Prop :=
  ∃ url i s, f_change s0 s ∧ feed_body (f_answer _ (FeedGet url) i s) = Ok body.

(** The index mirrors a feed, and the cursor is of that feed. *)
Definition synced_with (body : bytes) (cur : string) (idx : Index) : Prop :=
  good_feed body ∧ cur = ical_encode (buildCursorState sha256 body (parseEvents body)) ∧ mirrors (parseEvents body) idx.

(** What a pass from [w0] promises: the index mirrors the feed it was answered
    with, or that feed hashes like the one mirrored before and all is as it
    was. *)
Definition mirrored (w0 : W) (cur : string) (idx : Index) : Prop :=
  ∃ body, served (sy_source w0) body ∧
    (synced_with body cur idx ∨
     ∃ body0, feedHash sha256 body = feedHash sha256 body0 ∧ synced_with body0 cur idx ∧ cur = sy_cursor w0 ∧ idx = sy_index w0).

Context (good : ∀ s0 body, served s0 body → good_feed body).

Lemma i_fetch s0 feed (Q : string → Index → Prop) f w : f_change s0 (sy_source w) →
  (∀ body w', served s0 body → sy_index w' = sy_index w → surely (f body) (ok_with Q) w') → surely (atry (fetch_feed feed) f) (ok_with Q) w.
Proof using HP.
  intros Hs0 Hf. eapply (i_then (λ body idx, served s0 body ∧ idx = sy_index w)).
  - intros s Hs. split; [done|]. intros i. cbn. destruct (feed_body _) as [body|e] eqn:E; [|apply i_fail].
    apply i_ret. split; [|done]. exists feed, i, s. split; [by etrans|done].
  - intros body w' [Hb Hi]. by apply Hf.
Qed.

Lemma i_config cfg (Q : string → Index → Prop) f w : (∀ feed, surely (f feed) (ok_with Q) w) → surely (atry (ical_config cfg) f) (ok_with Q) w.
Proof using HP. intros Hf. unfold ical_config. destruct (ical_parseConfig _); [by apply Hf|apply i_fail]. Qed.

Lemma tracking_mirrors events idx : tracking ∅ events idx → mirrors events idx.
Proof using Type. intros [Hd Ho]. split; [done|]. intros u Hu. specialize (Ho u Hu). by rewrite lookup_empty in Ho. Qed.

Lemma i_full cfg w : tenantID (c_tenant cfg) = tenant → c_instance cfg = inst → (∀ u, dead (sy_index w) u) →
  surely (ical_FullSync sha256 cfg) (ok_with (mirrored w)) w.
Proof using HP good.
  intros Ht Hi Hdead. apply i_config. intros feed. apply (i_fetch (sy_source w)); [done|]. intros body w' Hb E. rewrite Ht, Hi.
  pose proof (good _ _ Hb) as Hg. eapply (i_then (λ _ : unit, mirrors (parseEvents body))).
  - eapply sure_mono; [|apply (i_emit_events _ [])]; [|apply Hg|].
    + intros r w'' Hr a Ha. apply tracking_mirrors, (Hr a Ha).
    + split; [by intros ev Hev%not_elem_of_nil|]. intros u _. rewrite lookup_empty, E. apply Hdead.
  - cbn beta. intros _ w1 Hm. eapply i_then; [apply i_checkpoint|]. cbn beta. intros _ w2 E2. apply i_ret. exists body.
    split; [done|]. left. split_and!; [done..|by rewrite <- E2].
Qed.

Lemma built_tracking body idx : good_feed body → mirrors (parseEvents body) idx →
  tracking (ic_Events (buildCursorState sha256 body (parseEvents body))) [] idx.
Proof using Type.
  intros [Hn _] [Hh Hd]. split; [by intros ev Hev%not_elem_of_nil|]. intros u _. unfold buildCursorState.
  destruct (ic_Events _ !! u) as [e|] eqn:E.
  - apply noted_from in E as [E|(ev & Hev & <- & Hne & <-)]; [done|]. destruct (Hh ev Hev Hne) as (x & n & Hu & He & _ & Hx). exists x, n. by split_and!.
  - apply Hd. intros Hin. apply elem_of_uids in Hin as (Hne & ev & Hev & <-).
    by rewrite (noted_has _ _ ev Hn Hev Hne) in E.
Qed.

Lemma elem_of_sortedUIDs u m : u ∈ sortedUIDs m ↔ is_Some (m !! u).
Proof using Type.
  unfold sortedUIDs. rewrite sort_by_perm, list_elem_of_fmap. split.
  - intros ([k v] & -> & Hkv%elem_of_map_to_list). eauto.
  - intros [v Hv]. exists (u, v). by rewrite elem_of_map_to_list.
Qed.

Lemma i_incremental cfg body0 w : tenantID (c_tenant cfg) = tenant → c_instance cfg = inst → synced_with body0 (sy_cursor w) (sy_index w) →
  surely (ical_IncrementalSync sha256 cfg (sy_cursor w)) (ok_with (mirrored w)) w.
Proof using HP HJL good.
  intros Ht Hi (Hg0 & Hcur & Hm). apply i_config. intros feed. rewrite Hcur, parse_built by done.
  set (st := buildCursorState sha256 body0 (parseEvents body0)).
  apply (i_fetch (sy_source w)); [done|]. intros body w' Hb E. rewrite Ht, Hi. pose proof (good _ _ Hb) as Hg.
  destruct (String.eqb_spec (feedHash sha256 body) (ic_Hash st)) as [Hh|_].
  - apply i_ret. exists body. split; [done|]. right. exists body0. split; [rewrite Hh; apply noted_hash|]. rewrite E, Hcur. done.
  - cbv zeta. change (∅ : gset string) with (list_to_set (uids []) : gset string).
    eapply i_then; [apply (i_diff_events (ic_Events st) (parseEvents body) [])|].
    + apply Hg.
    + rewrite E. by apply built_tracking.
    + cbn [app]. cbn beta. intros present w1 [-> [Hh Ho]]. eapply i_then; [apply (i_gone (parseEvents body)); [exact Hh|]|].
      * intros u Hu. specialize (Ho u Hu). destruct (ic_Events st !! u) eqn:Eu; [left; apply elem_of_sortedUIDs; by eexists|by right].
      * cbn beta. intros _ w2 Hm2. apply i_ret. exists body. split; [done|]. left. by split_and!.
Qed.
End sync.

(** What the hub runs: a full sync where there is no cursor. *)
Definition ical_pass `{!Casing, !Folding, !Deps, !Quoting, !URLs, !URLQuery, !ICalJson} (sha256 : bytes → bytes) (cfg : Config) (cur : string) :
    api ICalReq (result ConnErr string) :=
  if String.eqb cur "" then ical_FullSync sha256 cfg else ical_IncrementalSync sha256 cfg cur.

(** Before a pass: no cursor and nothing live of this instance, or a cursor of
    the feed the index mirrors. *)
Definition in_step `{!Casing, !Folding, !Deps, !ICalJson} (sha256 : bytes → bytes) (tenant inst cur : string) (idx : gmap string Document) : Prop :=
  if String.eqb cur "" then ∀ u, dead inst idx u else ∃ body, synced_with sha256 tenant inst body cur idx.


(** ** A feed with two states

    First two events; then one has left and the other has moved on. *)
#[local] Instance feed_casing : Casing := {| ToLower s := s; ToUpper s := s |}.
#[local] Instance feed_folding : Folding := {| fold_eq := String.eqb |}.
#[local] Instance feed_quoting : Quoting := {| Quote s := s |}.
#[local] Instance feed_urls : URLs := {| url_Parse _ := Some ("https", "h") |}.
#[local] Instance feed_query : URLQuery := {| url_RawQuery _ := Some "" |}.
#[local] Instance feed_deps : Deps :=
  {| uuid_Parse s := Some s; ts_CheckValid _ := true; ts_AsTime _ := 0; ts_New _ := mkTimestamp 0 0 |}.

(** A cursor is the digits of its number. *)
#[local] Instance feed_json : ICalJson := {|
  ic_config _ := Ok "https://h/feed.ics"; ic_base64_error _ := "";
  ic_cursor l := match decode (bytes_number l) : option (string * string * gmap string string) with
                 | Some (h, m, e) => Ok (h, m, Some e) | None => Err "" end;
  ic_cursor_json x := number_bytes (encode x) |}.
#[local] Instance feed_json_laws : ICalJsonLaws.
Proof. split. intros b m e _ _. cbn [ic_cursor ic_cursor_json feed_json]. by rewrite bytes_number_bytes, decode_encode. Qed.

Definition feed_event (lines : list string) : list string := "BEGIN:VEVENT" :: lines ++ ["END:VEVENT"].
Definition feed_text (s : bool) : bytes :=
  to_bytes (Join (["BEGIN:VCALENDAR"] ++
    (if s then feed_event ["UID:u2"; "SEQUENCE:1"; "SUMMARY:moved"]
     else feed_event ["UID:u1"; "SEQUENCE:0"] ++ feed_event ["UID:u2"; "SEQUENCE:0"; "SUMMARY:tea"]) ++ ["END:VCALENDAR"]) (String LF "")).

Definition feed_answer X (q : ICalReq X) (_ : Inp) (s : bool) : X :=
  match q with FeedGet _ => Answered 200 (Ok (feed_text s)) | ICalCtx => Ok tt | ICalNow => 0 end.
#[local] Instance feed_states : Feed bool := {| f_answer := feed_answer; f_change s s' := s = true → s' = true |}.
#[local] Instance feed_preorder : PreOrder f_change.
Proof. split; [by intros s Hs|]. intros s1 s2 s3 H12 H23 Hs. by apply H23, H12. Qed.

Definition feed_sha (l : bytes) : bytes := [byte_of (Z.of_nat (length l))].

Lemma feed_good s0 body : served s0 body → good_feed feed_sha body.
Proof.
  intros (url & i & s & _ & Hb). assert (Hs : feed_body (feed_answer _ (FeedGet url) i s) = Ok (feed_text s)) by (by destruct s; vm_compute).
  cbn [f_answer feed_states] in Hb. rewrite Hs in Hb. injection Hb as <-. split.
  - destruct s; (eapply bool_decide_eq_true_1; vm_compute; reflexivity).
  - intros ev Hev. assert (Hall : forallb (λ ev, bool_decide (valid_text (event_uid ev) ∧ valid_text (ical_versionEtag feed_sha ev) ∧ valid_text (dtstamp ev)))
      (parseEvents (feed_text s)) = true) by (by destruct s; vm_compute).
    apply list_elem_of_In, (proj1 (forallb_forall _ _) Hall) in Hev. by apply bool_decide_eq_true in Hev.
Qed.

Definition feed_cfg : Config := mkSdkConfig (mkContext "t1" "t1") "i1" "{}" None.
Definition feed_inp : Inp := mkInp None None (mkEnv (λ _, 0) (λ _, 0) "").
Definition feed_cursor (s : bool) : string := ical_encode (buildCursorState feed_sha (feed_text s) (parseEvents (feed_text s))).
Definition feed_start : Synced bool := mkSynced false ∅ "".

(** The world after a first pass, and after a second one the feed changes before. *)
Definition feed_first : Synced bool := (play f_answer feed_inp [] (ical_pass feed_sha feed_cfg "") feed_start).2.
Definition feed_second : Synced bool := (play f_answer feed_inp [true] (ical_pass feed_sha feed_cfg (feed_cursor false)) feed_first).2.


(** ** Feeds the connector gets wrong *)

(** Two passes over a feed that answers [a] and then [b], each with 200. *)
Definition two_feeds (a b : list string) X (q : ICalReq X) (_ : Inp) (s : bool) : X :=
  match q with
  | FeedGet _ => Answered 200 (Ok (to_bytes (Join (if s then b else a) (String LF ""))))
  | ICalCtx => Ok tt
  | ICalNow => 0
  end.
Definition after_first (a b : list string) : Synced bool := (play (two_feeds a b) feed_inp [] (ical_pass feed_sha feed_cfg "") feed_start).2.
Definition after_second (a b : list string) : Synced bool :=
  let w := after_first a b in (play (two_feeds a b) feed_inp [true] (ical_pass feed_sha feed_cfg (sy_cursor w)) w).2.

(** A moved occurrence of a series is an event of its own with the UID of the
    series.  A full sync leaves the one that comes last in the index, the next
    sync that sees any change the one that comes first. *)
Definition series : list string :=
  feed_event ["UID:u"; "SEQUENCE:0"; "SUMMARY:weekly"] ++ feed_event ["UID:u"; "RECURRENCE-ID:20260603"; "SEQUENCE:1"; "SUMMARY:moved"].

Lemma repeated_uid_flips :
  let fst := after_first series (series ++ feed_event ["UID:v"]) in
  let snd := after_second series (series ++ feed_event ["UID:v"]) in
  title <$> sy_index fst !! "i1:u" = Some "moved" ∧ title <$> sy_index snd !! "i1:u" = Some "weekly".
Proof. split; vm_compute; reflexivity. Qed.

(** A page instead of the calendar, answered with 200, deletes every event. *)
Lemma error_page_deletes :
  is_deleted <$> sy_index (after_second series ["<html>please log in</html>"]) !! "i1:u" = Some true.
Proof. vm_compute. reflexivity. Qed.

(** An edit that keeps its SEQUENCE is not seen. *)
Lemma same_sequence_missed :
  title <$> sy_index (after_second (feed_event ["UID:u"; "SEQUENCE:0"; "SUMMARY:tea"]) (feed_event ["UID:u"; "SEQUENCE:0"; "SUMMARY:coffee"])) !! "i1:u" =
  Some "tea".
Proof. vm_compute. reflexivity. Qed.
