(* ===== verification/GoFormat.v ===== *)
(** * Times as text

    [Time.Format] for the layouts the connectors print in UTC, and that what is
    printed with nanoseconds reads back. *)

From stdpp Require Import base strings list pretty.
From Stdlib Require Import Ascii ZArith Lia.
From S2P Require Import Prelude GoStrings GoText GoTime GoDate.

Open Scope Z_scope.

(** [appendInt] *)
Definition pad (width : nat) (n : Z) : string :=
  let digits := pretty (Z.abs_N n) in
  (if n <? 0 then "-" else "") +:+ of_bytes (repeat "0"%char (width - String.length digits)) +:+ digits.

Definition format_date (sep : string) (t : Z) : string :=
  let '(y, m, d) := civil (local_day UTC t) in pad 4 y +:+ sep +:+ pad 2 m +:+ sep +:+ pad 2 d.
Definition format_minute (t : Z) : string := let sod := local_sod UTC t in pad 2 (sod / 3600) +:+ ":" +:+ pad 2 (sod / 60 mod 60).
Definition format_second (t : Z) : string := format_minute t +:+ ":" +:+ pad 2 (local_sod UTC t mod 60).

(** [t.UTC().Format] with ["2006/01/02 15:04"] and with [time.RFC3339] *)
Definition format_jql (t : Z) : string := format_date "/" t +:+ " " +:+ format_minute t.
Definition format_rfc3339 (t : Z) : string := format_date "-" t +:+ "T" +:+ format_second t +:+ "Z".

(** [appendNano]: the digits of a fraction in units of [10 ^ n], up to the last
    one that is not zero. *)
Definition digit_char (n : Z) : ascii := ascii_of_N (Z.to_N (48 + n)).
Fixpoint nano_digits (n : nat) (ns : Z) : bytes :=
  if ns =? 0 then [] else digit_char (ns / 10 ^ Z.of_nat n) :: match n with O => [] | S n' => nano_digits n' (ns mod 10 ^ Z.of_nat n) end.

(** [t.UTC().Format(time.RFC3339Nano)] *)
Definition format_nano (t : Z) : string :=
  let ns := t mod nsec in
  format_date "-" t +:+ "T" +:+ format_second t +:+ (if ns =? 0 then "" else "." +:+ of_bytes (nano_digits 8 ns)) +:+ "Z".

Example format_epoch : format_jql 0 = "1970/01/01 00:00" ∧ format_rfc3339 (86399 * nsec) = "1970-01-01T23:59:59Z".
Proof. by split. Qed.
Example format_fraction : format_nano (86399 * nsec + 120000000) = "1970-01-01T23:59:59.12Z".
Proof. reflexivity. Qed.

(** ** Reading it back *)

(** A property of a range of numbers, by trying them. *)
Lemma range_check (P : Z → bool) (k : nat) n : forallb (λ i, P (Z.of_nat i)) (seq 0 k) = true → 0 <= n < Z.of_nat k → P n = true.
Proof.
  intros Hall Hn. replace n with (Z.of_nat (Z.to_nat n)) by lia.
  apply (proj1 (forallb_forall _ _) Hall), in_seq. lia.
Qed.

Definition two_digits (n : Z) : bytes := [digit_char (n / 10); digit_char (n mod 10)].
Definition four_digits (n : Z) : bytes := two_digits (n / 100) ++ two_digits (n mod 100).

Lemma pad_two n : 0 <= n < 100 → to_bytes (pad 2 n) = two_digits n.
Proof.
  intros Hn. eapply bool_decide_eq_true_1. apply (range_check (λ n, bool_decide (to_bytes (pad 2 n) = two_digits n)) 100 n); [|done].
  vm_compute. reflexivity.
Qed.

Lemma pad_four n : 0 <= n < 10000 → to_bytes (pad 4 n) = four_digits n.
Proof.
  intros Hn. eapply bool_decide_eq_true_1. apply (range_check (λ n, bool_decide (to_bytes (pad 4 n) = four_digits n)) (100 * 100) n); [|done].
  vm_compute. reflexivity.
Qed.

Lemma digit_char_spec n : 0 <= n < 10 → is_digit (digit_char n) = true ∧ digit_val (digit_char n) = n.
Proof.
  intros Hn. pose proof (range_check (λ n, is_digit (digit_char n) && (digit_val (digit_char n) =? n)) 10 n eq_refl Hn) as E.
  apply andb_true_iff in E as [? ?%Z.eqb_eq]. done.
Qed.

Ltac zdiv := Z.to_euclidean_division_equations; lia.

Lemma getnum_two fixed n l : 0 <= n < 100 → getnum fixed (two_digits n ++ l) = Some (n, l).
Proof.
  intros Hn. cbn [two_digits app getnum]. destruct (digit_char_spec (n / 10)) as [-> ->]; [zdiv|].
  destruct (digit_char_spec (n mod 10)) as [-> ->]; [zdiv|]. do 2 f_equal. zdiv.
Qed.

Lemma get_year_four n l : 0 <= n < 10000 → get_year (four_digits n ++ l) = Some (n, l).
Proof.
  intros Hn. cbn [four_digits two_digits app get_year]. destruct (digit_char_spec (n / 100 / 10)) as [-> ->]; [zdiv|].
  destruct (digit_char_spec ((n / 100) mod 10)) as [-> ->]; [zdiv|]. destruct (digit_char_spec (n mod 100 / 10)) as [-> ->]; [zdiv|].
  destruct (digit_char_spec ((n mod 100) mod 10)) as [-> ->]; [zdiv|]. cbn [andb]. do 2 f_equal. zdiv.
Qed.

Lemma nano_read n ns rest : 0 <= ns < 10 ^ Z.of_nat (S n) →
  fraction (10 ^ Z.of_nat n) (nano_digits n ns ++ "Z"%char :: rest) = ns ∧ skip_digits (nano_digits n ns ++ "Z"%char :: rest) = "Z"%char :: rest.
Proof.
  revert ns. induction n as [|n IH]; intros ns Hn; cbn [nano_digits]; destruct (Z.eqb_spec ns 0) as [->|Hne]; try done.
  - destruct (digit_char_spec (ns / 10 ^ Z.of_nat 0)) as [Hd Hv]; [change (10 ^ Z.of_nat 0) with 1; change (10 ^ Z.of_nat 1) with 10 in Hn; rewrite Z.div_1_r; lia|].
    cbn [app fraction skip_digits]. rewrite Hd, Hv. change (10 ^ Z.of_nat 0) with 1. rewrite Z.div_1_r. change (is_digit "Z") with false. cbv iota. split; [lia|done].
  - rewrite Nat2Z.inj_succ, Z.pow_succ_r in Hn by lia. set (u := 10 ^ Z.of_nat (S n)) in *.
    assert (Hu : 0 < u) by (unfold u; apply Z.pow_pos_nonneg; lia).
    destruct (digit_char_spec (ns / u)) as [Hd Hv]; [split; [apply Z.div_pos; lia|apply Z.div_lt_upper_bound; lia]|].
    cbn [app fraction skip_digits]. rewrite Hd, Hv. replace (u / 10) with (10 ^ Z.of_nat n).
    2:{ unfold u. rewrite Nat2Z.inj_succ, Z.pow_succ_r by lia. rewrite Z.mul_comm, Z.div_mul; lia. }
    destruct (IH (ns mod u)) as [-> ->]; [by apply Z.mod_pos_bound|]. split; [|done]. rewrite (Z.div_mod ns u) at 3 by lia. lia.
Qed.

(** Instants whose year has four digits. *)
Definition four_digit_year (t : Z) : Prop := 0 <= (civil (local_day UTC t)).1.1 < 10000.

Lemma expect_lit c l : expect c (to_bytes (String c "") ++ l) = Some l.
Proof. cbn. by rewrite Ascii.eqb_refl. Qed.

Lemma in_range_ok lo hi n : lo <= n <= hi → in_range lo hi n = Some tt.
Proof. intros Hn. unfold in_range. by destruct (Z.leb_spec lo n), (Z.leb_spec n hi); [|lia..]. Qed.

Lemma read_date t l : four_digit_year t → get_date (to_bytes (format_date "-" t) ++ l) = Some (local_day UTC t * 86400, l).
Proof.
  unfold four_digit_year, format_date. pose proof (civil_spec (local_day UTC t)) as Hc. destruct (civil (local_day UTC t)) as [[y m] d].
  destruct Hc as (Hu & Hm & Hd). cbn [fst]. intros Hy. assert (d < 100). { unfold daysIn in Hd. repeat case_match; lia. }
  rewrite !to_bytes_app, pad_four, !pad_two, <- !app_assoc by lia. unfold get_date. rewrite get_year_four by done.
  cbn [mbind option_bind]. rewrite (expect_lit "-"). cbn [mbind option_bind]. rewrite getnum_two by lia. cbn [mbind option_bind].
  rewrite in_range_ok by lia. cbn [mbind option_bind]. rewrite (expect_lit "-"). cbn [mbind option_bind].
  rewrite getnum_two by lia. cbn [mbind option_bind]. rewrite in_range_ok by lia. cbn [mbind option_bind]. by rewrite Hu.
Qed.

Definition nano_text (ns : Z) : string := if ns =? 0 then "" else "." +:+ of_bytes (nano_digits 8 ns).

Lemma nano_digits_head n ns : 0 <= ns < 10 ^ Z.of_nat (S n) → ns ≠ 0 → ∃ a l, nano_digits n ns = a :: l ∧ is_digit a = true.
Proof.
  intros Hn Hne. assert (Hd : 0 <= ns / 10 ^ Z.of_nat n < 10).
  { assert (0 < 10 ^ Z.of_nat n) by (apply Z.pow_pos_nonneg; lia). rewrite Nat2Z.inj_succ, Z.pow_succ_r in Hn by lia.
    split; [apply Z.div_pos; lia|apply Z.div_lt_upper_bound; lia]. }
  destruct n; cbn [nano_digits]; rewrite (proj2 (Z.eqb_neq _ _) Hne); (eexists _, _; split; [reflexivity|by apply digit_char_spec]).
Qed.

Lemma read_fraction ns : 0 <= ns < nsec → let l := to_bytes (nano_text ns) ++ to_bytes "Z" in fraction_ns l = ns ∧ skip_fraction l = to_bytes "Z".
Proof.
  intros Hn. unfold nano_text. destruct (Z.eqb_spec ns 0) as [->|Hne]; [done|]. rewrite to_bytes_app, to_of_bytes. cbv zeta.
  destruct (nano_read 8 ns [] Hn) as [Hf Hs]. destruct (nano_digits_head 8 ns Hn Hne) as (a & l & E & Ha). rewrite E in *.
  change (to_bytes "Z") with ["Z"%char]. cbn [to_bytes String.list_ascii_of_string app] in *. unfold fraction_ns, skip_fraction. rewrite Ha.
  cbn [orb andb]. by change (Ascii.eqb "." ".") with true.
Qed.

Lemma read_time t : get_time_ns (to_bytes ("T" +:+ format_second t +:+ nano_text (t mod nsec) +:+ "Z")) =
  Some (local_sod UTC t * nsec + t mod nsec, to_bytes "Z").
Proof.
  unfold format_second, format_minute. set (sod := local_sod UTC t). assert (Hs : 0 <= sod < 86400) by (by apply Z.mod_pos_bound).
  assert (Hns : 0 <= t mod nsec < nsec) by (by apply Z.mod_pos_bound).
  rewrite !to_bytes_app, !pad_two by zdiv. unfold get_time_ns. rewrite <- !app_assoc. rewrite (expect_lit "T"). cbn [mbind option_bind].
  rewrite getnum_two by zdiv. cbn [mbind option_bind]. rewrite in_range_ok by zdiv. cbn [mbind option_bind]. rewrite (expect_lit ":").
  cbn [mbind option_bind]. rewrite getnum_two by zdiv. cbn [mbind option_bind]. rewrite in_range_ok by zdiv. cbn [mbind option_bind].
  rewrite (expect_lit ":"). cbn [mbind option_bind]. rewrite getnum_two by zdiv. cbn [mbind option_bind]. rewrite in_range_ok by zdiv.
  cbn [mbind option_bind]. destruct (read_fraction (t mod nsec) Hns) as [Hf Hk]. rewrite Hf, Hk.
  replace (sod / 3600 * 3600 + sod / 60 mod 60 * 60 + sod mod 60) with sod by zdiv. done.
Qed.

(** A time printed with its nanoseconds reads back. *)
Lemma parse_format_nano t : four_digit_year t → time_Parse RFC3339 (format_nano t) = Some t.
Proof.
  intros Hy. unfold time_Parse, format_nano. fold (nano_text (t mod nsec)). rewrite (to_bytes_app (format_date "-" t)), read_date by done.
  cbn [mbind option_bind]. rewrite read_time. cbn [mbind option_bind]. change (get_zone (to_bytes "Z")) with (Some (0, @nil ascii)).
  cbn [mbind option_bind at_end snd fst]. f_equal. unfold local_day, local_sod, UTC, fixed_zone, day_secs, nsec. cbn [fst]. zdiv.
Qed.
