(* ===== verification/Jira.v ===== *)
(** * The Jira connector

    Models [connectors/jira]: configuration and the search client (jira.go),
    cursors (cursor.go), issues as documents (issue.go), the Atlassian Document
    Format as text (adf.go) and the scan (sync.go).  The HTTP exchange is a
    request; JSON and the text of a time error are parameters.  A nil pointer
    that JSON can hold is [None]; following one panics. *)

From stdpp Require Import base gmap strings list pretty.
From Stdlib Require Import Ascii ZArith Lia.
From S2P Require Import Prelude GoStrings Tenancy Crypto Blob ControlPlane Erasure Document Kafka GoTime HubSync GoText GoEncode GoDate ConnectorRun GoFormat.

Open Scope Z_scope.

Definition jiraID : string := "jira".
Definition jira_defaultBaseURL : string := "https://your-domain.atlassian.net".
Definition pageSize : Z := 50.

(** ** The API *)
Inductive adfNode := mkADF {
  ad_Type : string; ad_Text : string; ad_Content : list (option adfNode); ad_Attrs : bytes; ad_plain : string
}.

Record userRef := mkUser { us_AccountID : string; us_DisplayName : string; us_EmailAddress : string }.
Record comment := mkComment { cm_Author : option userRef; cm_Body : option adfNode }.

(** [if_Status], [if_IssueType] and [if_Priority]: the names; [if_Project]: the
    key; [if_Comment]: the comments. *)
Record issueFields := mkFields {
  if_Summary : string; if_Description : option adfNode; if_Status : option string; if_IssueType : option string;
  if_Priority : option string; if_Project : option string; if_Reporter : option userRef; if_Assignee : option userRef;
  if_Creator : option userRef; if_Created : string; if_Updated : string; if_Comment : option (list (option comment))
}.
Record issue := mkIssue { is_ID : string; is_Key : string; is_Fields : issueFields }.
Record searchResponse := mkSearch { sr_Total : Z; sr_Issues : list (option issue) }.

Inductive JiraReq : Type → Type :=
| JiraSearch (base jql : string) (startAt maxResults : Z) : JiraReq HttpAnswer
| JiraCtx : JiraReq (result GoErr unit)
| JiraNow : JiraReq Z.

(** JSON decoding of a configuration, a search response and node attributes
    (text, shortName, url), and the text of a [time.ParseError]. *)
Class JiraJson := {
  jr_config : string → result string (string * list string * list string);
  jr_search : bytes → result string searchResponse;
  jr_attrs : bytes → option (string * string * string);
  jr_time_error : string → string
}.

(** ** adf.go *)
Definition blockTypes : list string :=
  ["paragraph"; "heading"; "blockquote"; "bulletList"; "orderedList"; "listItem"; "codeBlock"; "panel"; "rule"; "tableRow"; "tableCell";
   "tableHeader"; "mediaGroup"; "mediaSingle"].

Definition newline : ascii := "010".

Section adf.
Context `{!JiraJson}.

Definition attrLabel (raw : bytes) : string :=
  match raw with
  | [] => ""
  | _ =>
    match jr_attrs raw with
    | None => ""
    | Some (text, shortName, url) =>
      if negb (String.eqb text "") then text else if negb (String.eqb shortName "") then shortName else url
    end
  end.

(** The text of a node before its children. *)
Definition node_text (type text : string) (attrs : bytes) : bytes :=
  if String.eqb type "text" then to_bytes text
  else if String.eqb type "hardBreak" then [newline]
  else if existsb (String.eqb type) ["mention"; "emoji"; "inlineCard"] then to_bytes (attrLabel attrs) else [].

Fixpoint walkADF (n : adfNode) : bytes :=
  match n with
  | mkADF type text content attrs _ =>
    node_text type text attrs ++
    flat_map (λ c, match c with Some c => walkADF c | None => [] end) content ++
    (if existsb (String.eqb type) blockTypes then [newline] else [])
  end.

Definition is_pad (a : ascii) : bool := Ascii.eqb a " " || Ascii.eqb a "009".
Fixpoint drop_pad (l : bytes) : bytes := match l with a :: l' => if is_pad a then drop_pad l' else l | [] => [] end.

Definition normalizeText (l : bytes) : bytes :=
  let lines := (λ line, drop_pad (rev (drop_pad (rev line)))) <$> split_bytes newline [] l in
  to_bytes (Join (of_bytes <$> List.filter (λ line, negb (bool_decide (line = []))) lines) (String newline "")).

Definition adfText (n : option adfNode) : string :=
  match n with
  | None => ""
  | Some n => if negb (String.eqb (ad_plain n) "") then TrimSpace (ad_plain n) else of_bytes (normalizeText (walkADF n))
  end.

(** ** issue.go *)

(** [-0700] *)
Definition get_numeric_zone (l : bytes) : option (Z * bytes) :=
  match l with
  | a :: h1 :: h2 :: m1 :: m2 :: l' =>
    '(hr, _) ← getnum true [h1; h2]; '(mm, _) ← getnum true [m1; m2];
    _ ← in_range 0 24 hr; _ ← in_range 0 60 mm;
    if Ascii.eqb a "+" then Some ((hr * 60 + mm) * 60, l')
    else if Ascii.eqb a "-" then Some (- ((hr * 60 + mm) * 60), l')
    else None
  | _ => None
  end.

(** [15:04:05] without a fraction of its own. *)
Definition clock_time (l : bytes) : option (Z * bytes) :=
  l ← expect "T" l; '(hh, l) ← getnum false l; _ ← in_range 0 23 hh;
  l ← expect ":" l; '(mm, l) ← getnum true l; _ ← in_range 0 59 mm;
  l ← expect ":" l; '(ss, l) ← getnum true l; _ ← in_range 0 59 ss;
  Some ((hh * 3600 + mm * 60 + ss) * nsec, l).

(** [.000] *)
Definition get_millis (l : bytes) : option (Z * bytes) :=
  match l with
  | a :: d1 :: d2 :: d3 :: l' =>
    if (Ascii.eqb a "." || Ascii.eqb a ",") && is_digit d1 && is_digit d2 && is_digit d3
    then Some ((100 * digit_val d1 + 10 * digit_val d2 + digit_val d3) * 1000000, l') else None
  | _ => None
  end.

Definition jiraTimeLayouts : list (bytes → option Z) :=
  [(λ l, '(d, l) ← get_date l; '(t, l) ← clock_time l; '(f, l) ← get_millis l; '(z, l) ← get_numeric_zone l; at_end ((d - z) * nsec + t + f, l));
   (λ l, '(d, l) ← get_date l; '(t, l) ← get_time_ns l; '(z, l) ← get_numeric_zone l; at_end ((d - z) * nsec + t, l));
   (λ l, time_Parse RFC3339 (of_bytes l)); (λ l, time_Parse RFC3339 (of_bytes l))].

Fixpoint first_parse (layouts : list (bytes → option Z)) (l : bytes) : option Z :=
  match layouts with [] => None | p :: ps => match p l with Some t => Some t | None => first_parse ps l end end.

Definition parseJiraTime (s : string) : option Z :=
  let s := TrimSpace s in if String.eqb s "" then None else first_parse jiraTimeLayouts (to_bytes s).
End adf.

(** ** Times as text *)

(** A space of a layout: any run of spaces. *)
Fixpoint drop_spaces (l : bytes) : bytes := match l with a :: l' => if Ascii.eqb a " " then drop_spaces l' else l | [] => [] end.
Definition expect_space (l : bytes) : option bytes :=
  match l with a :: _ => if Ascii.eqb a " " then Some (drop_spaces l) else None | [] => Some [] end.

(** [time.Parse("2006/01/02 15:04", s)] succeeds. *)
Definition jql_time (l : bytes) : option unit :=
  '(y, l) ← get_year l; l ← expect "/" l; '(m, l) ← getnum true l; _ ← in_range 1 12 m; l ← expect "/" l;
  '(d, l) ← getnum true l; _ ← in_range 1 (daysIn m y) d; l ← expect_space l;
  '(hh, l) ← getnum false l; _ ← in_range 0 23 hh; l ← expect ":" l; '(mm, l) ← getnum true l; _ ← in_range 0 59 mm;
  match l with [] => Some tt | _ => None end.

Section jira.
Context `{!Casing, !Deps, !Quoting, !URLs, !JiraJson} (sha256 : bytes → bytes).

(** [None]: a nil comment is followed. *)
Definition comment_text (cm : option comment) : option (list string) :=
  cm ← cm;
  let text := adfText (cm_Body cm) in
  Some (if String.eqb text "" then []
        else match cm_Author cm with
        | Some u => if String.eqb (us_DisplayName u) "" then [text] else [us_DisplayName u +:+ ": " +:+ text]
        | None => [text]
        end).

Definition issueBody (iss : issue) : option string :=
  let desc := adfText (if_Description (is_Fields iss)) in
  cms ← mapM comment_text (default [] (if_Comment (is_Fields iss)));
  Some (Join ((if String.eqb desc "" then [] else [desc]) ++ concat cms) (String newline (String newline ""))).

Definition put_some (md : gmap string string) (kv : string * option string) : gmap string string :=
  match kv.2 with Some v => if String.eqb v "" then md else <[kv.1 := v]> md | None => md end.

Definition issueMetadata (base : string) (iss : issue) : gmap string string :=
  let f := is_Fields iss in
  foldl put_some ∅
    [("issue_key", Some (is_Key iss)); ("issue_id", Some (is_ID iss)); ("project", if_Project f); ("status", if_Status f);
     ("issue_type", if_IssueType f); ("priority", if_Priority f);
     ("web_url", if String.eqb (is_Key iss) "" then None else Some (base +:+ "/browse/" +:+ is_Key iss))].

Definition add_user (u : option userRef) (role : string) : list Participant :=
  match u with
  | None => []
  | Some u =>
    if String.eqb (us_DisplayName u) "" && String.eqb (us_EmailAddress u) "" && String.eqb (us_AccountID u) "" then []
    else [mkParticipant (us_DisplayName u) (us_EmailAddress u) (us_AccountID u) role]
  end.

Definition issueParticipants (iss : issue) : list Participant :=
  let f := is_Fields iss in
  add_user (if_Reporter f) "reporter" ++ add_user (if_Assignee f) "assignee" ++ add_user (if_Creator f) "creator".

Definition issueTimestamps (iss : issue) : option Timestamps :=
  match parseJiraTime (if_Created (is_Fields iss)), parseJiraTime (if_Updated (is_Fields iss)) with
  | None, None => None
  | c, m => Some (mkTimestamps (ts_New <$> c) (ts_New <$> m) None)
  end.

(** [None] is a panic. *)
Definition issueDocument (tenant base : string) (iss : issue) : option Document :=
  let summary := if_Summary (is_Fields iss) in
  body ← issueBody iss;
  Some (mkDoc tenant (DocID sha256 jiraID (is_ID iss)) jiraID (is_ID iss) TICKET
    (if String.eqb summary "" then is_Key iss else is_Key iss +:+ ": " +:+ summary) body [] (issueMetadata base iss) (issueParticipants iss)
    (issueTimestamps iss) None None (if_Updated (is_Fields iss)) None None).

Definition jira_tombstone (tenant : string) (iss : issue) (etag : string) (now : Z) : Document :=
  mkDoc tenant (DocID sha256 jiraID (is_ID iss)) jiraID (is_ID iss) TICKET "" "" [] ∅ [] None None None etag
    (Some (mkTombstone true (Some (ts_New now)))) None.

(** ** cursor.go *)
Definition cursorUpdatedPrefix : string := "updated:".
Definition cursorKeySep : string := "|key:".
Record jira_cursorState := mkJiraCursor { jc_updatedJQL : string; jc_boundaryKey : string }.

Definition makeCursor (updatedJQL key : string) : string := cursorUpdatedPrefix +:+ updatedJQL +:+ cursorKeySep +:+ key.

Definition cursorForIssue (iss : issue) : option string :=
  (λ t, makeCursor (format_jql t) (is_Key iss)) <$> parseJiraTime (if_Updated (is_Fields iss)).

Definition jira_parseCursor (s : string) : result string jira_cursorState :=
  if String.eqb s "" then Ok (mkJiraCursor "" "")
  else match CutPrefix s cursorUpdatedPrefix with
  | None => Err ("jira: cursor " +:+ Quote s +:+ " does not start with " +:+ Quote cursorUpdatedPrefix)
  | Some rest =>
    match Cut rest cursorKeySep with
    | None => Err ("jira: cursor " +:+ Quote s +:+ " is missing the " +:+ Quote cursorKeySep +:+ " separator")
    | Some (updated, key) =>
      if String.eqb updated "" then Err ("jira: cursor " +:+ Quote s +:+ " has an empty updated bound")
      else match jql_time (to_bytes updated) with
      | None => Err ("jira: cursor " +:+ Quote s +:+ " has a malformed updated bound: " +:+ jr_time_error updated)
      | Some _ => Ok (mkJiraCursor updated key)
      end
    end
  end.

Definition cursor_jql (st : jira_cursorState) : string :=
  if String.eqb (jc_updatedJQL st) "" then "order by updated asc"
  else "updated >= '" +:+ jc_updatedJQL st +:+ "' order by updated asc".

(** ** jira.go *)
Record jiraConfig := mkJiraConfig { jf_BaseURL : string; jf_ProjectKeys : list string; jf_DeletedStatuses : list string }.

Definition jira_parseConfig (raw : string) : result string jiraConfig :=
  if String.eqb (TrimSpace raw) "" then Ok (mkJiraConfig "" [] [])
  else match jr_config raw with
  | Err e => Err ("jira: config is not valid JSON: " +:+ e)
  | Ok (baseURL, keys, statuses) =>
    let baseURL := TrimSpace baseURL in
    let conf := mkJiraConfig baseURL keys statuses in
    let bad := Err ("jira: config field base_url " +:+ Quote baseURL +:+ " is not a valid http(s) URL") in
    if String.eqb baseURL "" then Ok conf
    else match url_Parse baseURL with
    | None => bad
    | Some (scheme, host) =>
      if negb (String.eqb host "") && (String.eqb scheme "http" || String.eqb scheme "https") then Ok conf else bad
    end
  end.

Definition jira_baseURL (conf : jiraConfig) : string :=
  TrimRightSlash (if String.eqb (jf_BaseURL conf) "" then jira_defaultBaseURL else jf_BaseURL conf).

(** An error of the search: the status of an [apiError], and its text. *)
Record JiraErr := mkJiraErr { je_status : option Z; je_text : string }.

Definition isCursorRejected (e : JiraErr) : bool := bool_decide (je_status e = Some 400).

Abbreviation jira A := (api JiraReq A).
Open Scope api_scope.

Definition search_answer (r : HttpAnswer) : result JiraErr searchResponse :=
  match r with
  | BadRequest e => Err (mkJiraErr None ("jira: build search request: " +:+ e))
  | NoAnswer e => Err (mkJiraErr None ("jira: search request: " +:+ e))
  | Answered status body =>
    if negb (status =? 200) then Err (mkJiraErr (Some status) ("jira: API returned status " +:+ pretty status))
    else match body with
    | Err e => Err (mkJiraErr None ("jira: decode search response: " +:+ e))
    | Ok body =>
      match jr_search body with
      | Err e => Err (mkJiraErr None ("jira: decode search response: " +:+ e))
      | Ok page => Ok page
      end
    end
  end.

Definition search (base jql : string) (startAt maxResults : Z) : jira (result JiraErr searchResponse) :=
  ask r := JiraSearch base jql startAt maxResults in ARet (search_answer r).

Definition jira_fail {A} (msg : string) : jira (result ConnErr A) := ARet (Err (mkConnErr false msg)).

Definition jira_config (cfg : Config) : jira (result ConnErr jiraConfig) :=
  match jira_parseConfig (c_config_json cfg) with Err e => jira_fail e | Ok conf => ARet (Ok conf) end.

Definition jira_Validate (cfg : Config) : jira (result ConnErr unit) :=
  do conf := jira_config cfg in
  if String.eqb (default "" (c_token cfg)) "" then ARet (Ok tt)
  else abind (search (jira_baseURL conf) "order by updated asc" 0 1) (λ r,
  match r with
  | Err _ => jira_fail "jira: could not reach Jira with the supplied credentials; check the site URL and that the connection is authorized"
  | Ok _ => ARet (Ok tt)
  end).

(** ** sync.go *)
Definition cleanKeys (keys : list string) : list string := List.filter (λ k, negb (String.eqb k "")) (TrimSpace <$> keys).

Definition withProjectFilter (jql : string) (keys : list string) : string :=
  match cleanKeys keys with
  | [] => jql
  | clean =>
    let filter := "project in (" +:+ Join ((λ k, "'" +:+ k +:+ "'") <$> clean) ", " +:+ ")" in
    match Index (ToLower jql) "order by" with
    | Some idx =>
      let head := TrimSpace (take_str idx jql) in
      let order := drop_str idx jql in
      if String.eqb head "" then filter +:+ " " +:+ order else head +:+ " AND " +:+ filter +:+ " " +:+ order
    | None => if String.eqb (TrimSpace jql) "" then filter else jql +:+ " AND " +:+ filter
    end
  end.

Definition deletedStatusSet (names : list string) : gset string := list_to_set (ToLower <$> cleanKeys names).

Definition isDeletedStatus (deleted : gset string) (iss : issue) : bool :=
  match if_Status (is_Fields iss) with Some name => bool_decide (ToLower name ∈ deleted) | None => false end.

Definition startCursor (start : jira_cursorState) : string :=
  if String.eqb (jc_updatedJQL start) "" then "" else makeCursor (jc_updatedJQL start) (jc_boundaryKey start).

Definition jira_ctx : jira (result ConnErr unit) := ask r := JiraCtx in ARet (passed r).

Definition emitIssue (tenant base : string) (deleted : gset string) (iss : issue) : jira (result ConnErr unit) :=
  if isDeletedStatus deleted iss then
    if String.eqb (if_Updated (is_Fields iss)) "" then
      ask t := JiraNow in ask now := JiraNow in emit (jira_tombstone tenant iss (format_rfc3339 t) now)
    else ask now := JiraNow in emit (jira_tombstone tenant iss (if_Updated (is_Fields iss)) now)
  else match issueDocument tenant base iss with None => APanic | Some doc => emit doc end.

(** The issues of a page; the cursor after them. *)
Fixpoint emit_issues (tenant base : string) (deleted : gset string) (boundary : string) (issues : list (option issue)) (cursor : string) :
    jira (result ConnErr string) :=
  match issues with
  | [] => ARet (Ok cursor)
  | None :: issues' => emit_issues tenant base deleted boundary issues' cursor
  | Some iss :: issues' =>
    if String.eqb (is_ID iss) "" || String.eqb (is_Key iss) "" || String.eqb (is_Key iss) boundary
    then emit_issues tenant base deleted boundary issues' cursor
    else
      do _ := emitIssue tenant base deleted iss in
      emit_issues tenant base deleted boundary issues' (default cursor (cursorForIssue iss))
  end.

Fixpoint scan_pages (fuel : nat) (tenant base : string) (deleted : gset string) (boundary jql : string) (expireOnReject : bool)
    (startAt : Z) (cursor : string) : jira (result ConnErr string) :=
  match fuel with
  | O => AHang
  | S n =>
    do _ := jira_ctx in
    abind (search base jql startAt pageSize) (λ r,
    match r with
    | Err e =>
      if expireOnReject && isCursorRejected e
      then ARet (Err (mkConnErr true ("jira: search rejected the cursor bound (" +:+ je_text e +:+ "): sdk: sync cursor expired at the source")))
      else jira_fail ("jira: search startAt=" +:+ pretty startAt +:+ ": " +:+ je_text e)
    | Ok page =>
      do cursor := emit_issues tenant base deleted boundary (sr_Issues page) cursor in
      let startAt := startAt + Z.of_nat (length (sr_Issues page)) in
      if bool_decide (sr_Issues page = []) || (sr_Total page <=? startAt) then ARet (Ok cursor)
      else do _ := checkpoint cursor in scan_pages n tenant base deleted boundary jql expireOnReject startAt cursor
    end)
  end.

Definition scan (fuel : nat) (cfg : Config) (conf : jiraConfig) (start : jira_cursorState) (expireOnReject : bool) : jira (result ConnErr string) :=
  scan_pages fuel (tenantID (c_tenant cfg)) (jira_baseURL conf) (deletedStatusSet (jf_DeletedStatuses conf)) (jc_boundaryKey start)
    (withProjectFilter (cursor_jql start) (jf_ProjectKeys conf)) expireOnReject 0 (startCursor start).

Definition jira_FullSync (fuel : nat) (cfg : Config) : jira (result ConnErr string) :=
  do conf := jira_config cfg in scan fuel cfg conf (mkJiraCursor "" "") false.

Definition jira_IncrementalSync (fuel : nat) (cfg : Config) (cur : string) : jira (result ConnErr string) :=
  do conf := jira_config cfg in
  match jira_parseCursor cur with
  | Err e => ARet (Err (mkConnErr true (e +:+ ": sdk: sync cursor expired at the source")))
  | Ok st => scan fuel cfg conf st true
  end.

Definition jira_connector (fuel : nat) (o : Oracle JiraReq) : Connector :=
  mkConnector (λ cfg, resolve o 0 (jira_FullSync fuel cfg)) (λ cfg cur, resolve o 0 (jira_IncrementalSync fuel cfg cur)).
End jira.

(** * The Jira connector: proofs

    Over a site that does not change, a pass ends and brings every issue the
    search finds into the index, but the boundary issue of its cursor.  On a
    site that does change, the connector loses updates; the last part shows
    how. *)

(** A Jira site. *)
Class Site (S : Type) := { j_answer : ∀ X, JiraReq X → Inp → S → X; j_change : S → S → Prop }.

(** The issues of search results a pass emits: those with an id and a key that
    is not the boundary. *)
Definition wanted (boundary : string) (found : list (option issue)) : list issue :=
  List.filter (λ iss, negb (String.eqb (is_ID iss) "" || String.eqb (is_Key iss) "" || String.eqb (is_Key iss) boundary)) (omap id found).

(** No comment is null. *)
Definition whole (iss : issue) : Prop := Forall is_Some (default [] (if_Comment (is_Fields iss))).

(** The cursor after issues. *)
Definition newest (cursor : string) (l : list issue) : string := foldl (λ c iss, default c (cursorForIssue iss)) cursor l.

Section scan.
Context `{!Casing, !Deps, !Quoting, !URLs, !JiraJson} (sha256 : bytes → bytes).
Context {S : Type} {HS : Site S} {HP : PreOrder j_change}.
Context (tenant base boundary : string) (deleted : gset string) (idx0 : gmap string Document).

Abbreviation Index := (gmap string Document).
Abbreviation emits m P w := (sure j_answer j_change (λ _, True) m P w).

(** The index has the issue: its document, or its tombstone if its status
    stands for deleted. *)
Definition has_issue (idx : Index) (iss : issue) : Prop :=
  if isDeletedStatus deleted iss then
    ∃ etag now, (if_Updated (is_Fields iss) ≠ "" → etag = if_Updated (is_Fields iss)) ∧
      idx !! is_ID iss = Some (jira_tombstone sha256 tenant iss etag now)
  else ∃ doc, issueDocument sha256 tenant base iss = Some doc ∧ idx !! is_ID iss = Some doc.

(** Exactly these issues have been written. *)
Definition scanned (l : list issue) (idx : Index) : Prop :=
  (∀ iss, iss ∈ l → has_issue idx iss) ∧ (∀ id, id ∉ (is_ID <$> l) → idx !! id = idx0 !! id).

Lemma scanned_put l iss doc idx : NoDup (is_ID <$> l ++ [iss]) → source_native_id doc = is_ID iss → has_issue (<[is_ID iss := doc]> idx) iss →
  scanned l idx → scanned (l ++ [iss]) (<[source_native_id doc := doc]> idx).
Proof using Type.
  intros Hn -> Hi [Hl Ho]. rewrite fmap_app in Hn. apply NoDup_app in Hn as (_ & Hn & _). split.
  - intros x [Hx| ->%list_elem_of_singleton]%elem_of_app; [|done]. specialize (Hl x Hx).
    assert (is_ID iss ≠ is_ID x) as Hne by (intros E; apply (Hn (is_ID x)); [by apply list_elem_of_fmap_2|rewrite <- E; by left]).
    unfold has_issue in *. by destruct (isDeletedStatus deleted x); rewrite lookup_insert_ne.
  - intros id Hid. rewrite fmap_app, not_elem_of_app in Hid. destruct Hid as [Hid Hid']. rewrite lookup_insert_ne; [by apply Ho|].
    intros <-. apply Hid'. by left.
Qed.

(** ** One issue *)
Lemma whole_body iss : whole iss → is_Some (issueBody iss).
Proof using Type.
  intros Hw. unfold issueBody. assert (is_Some (mapM comment_text (default [] (if_Comment (is_Fields iss))))) as [cms ->]; [|by eexists].
  apply mapM_is_Some, (Forall_impl _ _ _ Hw). intros cm [c ->]. by eexists.
Qed.

Lemma whole_document iss : whole iss → ∃ doc, issueDocument sha256 tenant base iss = Some doc ∧ source_native_id doc = is_ID iss.
Proof using Type. intros [body Hb]%whole_body. unfold issueDocument. rewrite Hb. cbn. eauto. Qed.

Lemma i_issue l iss w : whole iss → NoDup (is_ID <$> l ++ [iss]) → scanned l (sy_index w) →
  emits (emitIssue sha256 tenant base deleted iss) (ok_with (λ _ : unit, scanned (l ++ [iss]))) w.
Proof using Type.
  intros Hw Hn Hl. unfold emitIssue. destruct (isDeletedStatus deleted iss) eqn:Hd.
  - assert (Hput : ∀ etag now w', (if_Updated (is_Fields iss) ≠ "" → etag = if_Updated (is_Fields iss)) → sy_index w' = sy_index w →
      emits (emit (jira_tombstone sha256 tenant iss etag now)) (ok_with (λ _ : unit, scanned (l ++ [iss]))) w').
    { intros etag now w' He E. eapply sure_mono; [|apply i_emit]. intros r w'' Hr a Ha. rewrite <- (Hr a Ha), E. apply scanned_put; [done|done| |done].
      unfold has_issue. rewrite Hd, lookup_insert_eq. eauto. }
    destruct (String.eqb_spec (if_Updated (is_Fields iss)) "").
    + apply i_ask. intros t w1 E1. apply i_ask. intros now w2 E2. apply Hput; [done|by rewrite E2].
    + apply i_ask. intros now w1 E1. by apply Hput.
  - destruct (whole_document iss Hw) as (doc & Hdoc & Hid). rewrite Hdoc. eapply sure_mono; [|apply i_emit].
    intros r w' Hr a Ha. rewrite <- (Hr a Ha). apply scanned_put; [done|done| |done]. unfold has_issue. rewrite Hd, lookup_insert_eq. eauto.
Qed.

(** ** A page *)
Lemma wanted_app a b : wanted boundary (a ++ b) = wanted boundary a ++ wanted boundary b.
Proof using Type. unfold wanted. by rewrite omap_app, List.filter_app. Qed.

Lemma wanted_some iss found : wanted boundary (Some iss :: found) =
  if String.eqb (is_ID iss) "" || String.eqb (is_Key iss) "" || String.eqb (is_Key iss) boundary
  then wanted boundary found else iss :: wanted boundary found.
Proof using Type. unfold wanted. cbn. by destruct (_ || _). Qed.

Lemma i_page found l cursor w : Forall whole (wanted boundary found) → NoDup (is_ID <$> l ++ wanted boundary found) → scanned l (sy_index w) →
  emits (emit_issues sha256 tenant base deleted boundary found cursor)
    (ok_with (λ cur idx, cur = newest cursor (wanted boundary found) ∧ scanned (l ++ wanted boundary found) idx)) w.
Proof using HP.
  revert l cursor w. induction found as [|[iss|] found IH]; intros l cursor w Hw Hn Hl; cbn [emit_issues].
  - apply i_ret. by rewrite app_nil_r.
  - rewrite wanted_some in *. destruct (_ || _); [by apply IH|]. apply Forall_cons in Hw as [Hiss Hw].
    rewrite cons_middle, (app_assoc l [iss]) in *.
    eapply (i_then (λ _ : unit, scanned (l ++ [iss]))).
    + apply i_issue; [done| |done]. rewrite fmap_app in Hn. by apply NoDup_app in Hn as [? _].
    + intros _ w' Hl'. by eapply sure_mono; [|apply IH].
  - by apply IH.
Qed.

(** ** The scan *)

(** From [s0] on, a search that succeeds answers with the slice it was asked for
    of the same results. *)
Definition quiet (s0 : S) (jql : string) (found : list (option issue)) : Prop :=
  ∀ s i k page, j_change s0 s → search_answer (j_answer _ (JiraSearch base jql (Z.of_nat k) pageSize) i s) = Ok page →
    sr_Total page = Z.of_nat (length found) ∧ sr_Issues page = take (Z.to_nat pageSize) (drop k found).

Lemma page_split {A} n k (l : list A) :
  let pg := take n (drop k l) in take k l ++ pg = take (k + length pg) l ∧ drop k l = pg ++ drop (k + length pg) l.
Proof using Type.
  intros pg. assert (E : pg = take (length pg) (drop k l)).
  { unfold pg. rewrite length_take. destruct (Nat.min_spec n (length (drop k l))) as [[_ ->]|[Hge ->]]; [done|]. by rewrite !take_ge. }
  split; [rewrite E at 1; apply take_take_drop|]. rewrite <- drop_drop, E at 1. by rewrite take_drop.
Qed.

Lemma i_scan fuel s0 jql found expire k cursor w :
  quiet s0 jql found → Forall whole (wanted boundary found) → NoDup (is_ID <$> wanted boundary found) →
  (k ≤ length found < k + fuel)%nat → j_change s0 (sy_source w) → scanned (wanted boundary (take k found)) (sy_index w) →
  emits (scan_pages sha256 fuel tenant base deleted boundary jql expire (Z.of_nat k) cursor)
    (ok_with (λ cur idx, cur = newest cursor (wanted boundary (drop k found)) ∧ scanned (wanted boundary found) idx)) w.
Proof using HP.
  intros Hq Hw Hn. revert k cursor w. induction fuel as [|fuel IH]; intros k cursor w Hk Hs Hl; [lia|]. cbn [scan_pages].
  assert (HK : ∀ s s', j_change s s' → j_change s0 s → j_change s0 s') by (intros; by etrans).
  eapply (i_then_kept (j_change s0) (λ _, eq (sy_index w))); [done|done|by apply i_ask; intros [[]|e] w' E; [apply i_ret|apply i_fail]|].
  intros _ w1 Hs1 E1. intros s Hs2. split; [done|]. intros i. cbn [abind search]. assert (Hs3 : j_change s0 s) by (by etrans).
  destruct (search_answer _) as [page|e] eqn:Hpage; [|destruct (_ && _); apply i_fail].
  destruct (Hq s i k page Hs3 Hpage) as [Htot Hpg]. rewrite Hpg.
  set (pg := take (Z.to_nat pageSize) (drop k found)).
  destruct (page_split (Z.to_nat pageSize) k found) as [Htake Hdrop]. fold pg in Htake, Hdrop.
  assert (Hlen : (k + length pg ≤ length found)%nat) by (unfold pg; rewrite length_take, length_drop; lia).
  eapply (i_then_kept (j_change s0)); [done|exact Hs3|apply (i_page pg (wanted boundary (take k found)))|].
  - rewrite Forall_forall in Hw |- *. intros iss Hi. apply Hw. rewrite <- (take_drop k found), Hdrop, !wanted_app, !elem_of_app. tauto.
  - rewrite <- wanted_app, Htake. rewrite <- (take_drop (k + length pg) found), wanted_app, fmap_app in Hn. by apply NoDup_app in Hn as [? _].
  - cbn. by rewrite <- E1.
  - rewrite <- wanted_app, Htake. cbn beta. intros cur w2 Hs4 [-> Hl2]. rewrite Hdrop, wanted_app. unfold newest. rewrite foldl_app.
    set (cur := foldl _ cursor (wanted boundary pg)). replace (Z.of_nat k + Z.of_nat (length pg)) with (Z.of_nat (k + length pg)) by lia.
    rewrite Htot. destruct (_ || _) eqn:Hlast.
    + assert (length found ≤ k + length pg)%nat.
      { apply orb_true_iff in Hlast as [Hnil%bool_decide_eq_true|Hge]; [|by apply Nat2Z.inj_le, Z.leb_le]. apply (f_equal length) in Hdrop. rewrite Hnil in *.
        unfold pg in Hnil. apply (f_equal length) in Hnil. rewrite length_take, length_drop in Hnil. cbn in *. unfold pageSize in Hnil. lia. }
      rewrite drop_ge by done. rewrite take_ge in Hl2 by done. by apply i_ret.
    + apply orb_false_iff in Hlast as [Hne%bool_decide_eq_false Hlt]. assert (length pg ≠ 0)%nat by (by destruct pg).
      eapply (i_then_kept (j_change s0)); [done|exact Hs4|apply i_checkpoint|]. cbn beta. intros _ w3 Hs5 E3.
      apply IH; [lia|done|by rewrite <- E3].
Qed.
End scan.

(** What the hub runs: a full sync where there is no cursor. *)
Definition jira_pass `{!Casing, !Deps, !Quoting, !URLs, !JiraJson} (sha256 : bytes → bytes) (fuel : nat) (cfg : Config) (cur : string) :
    api JiraReq (result ConnErr string) :=
  if String.eqb cur "" then jira_FullSync sha256 fuel cfg else jira_IncrementalSync sha256 fuel cfg cur.

(** C35. A Jira pass over a quiet site is complete.  If, while it runs, every
    search that succeeds answers with a slice of the same results, and the
    issues to be taken from them have distinct ids and no null entry among their
    comments (the connector panics on one), a pass from the stored cursor ends
    within one page request per issue, without a panic; if it returns a cursor, exactly the issues found that have an id, a key, and
    a key other than the cursor's are in the index, each as its document or, in
    a status that stands for deleted, as its tombstone, nothing else of the
    index has changed, and the cursor is that of the newest of them (the old one
    if there is none). *)
Theorem jira_scan_complete {S : Type} `{!Casing, !Deps, !Quoting, !URLs, !JiraJson} `{!Site S, !PreOrder j_change}
    (sha256 : bytes → bytes) (fuel : nat) (cfg : Config) (conf : jiraConfig) (st : jira_cursorState) found (w : Synced S) m' w' :
  jira_parseConfig (c_config_json cfg) = Ok conf → jira_parseCursor (sy_cursor w) = Ok st →
  quiet (jira_baseURL conf) (sy_source w) (withProjectFilter (cursor_jql st) (jf_ProjectKeys conf)) found →
  Forall whole (wanted (jc_boundaryKey st) found) → NoDup (is_ID <$> wanted (jc_boundaryKey st) found) → (length found < fuel)%nat →
  star (astep j_answer j_change) (jira_pass sha256 fuel cfg (sy_cursor w), w) (m', w') →
  m' ≠ APanic ∧ m' ≠ AHang ∧
  (∀ cur, m' = ARet (Ok cur) →
     cur = newest (startCursor st) (wanted (jc_boundaryKey st) found) ∧
     scanned sha256 (tenantID (c_tenant cfg)) (jira_baseURL conf) (deletedStatusSet (jf_DeletedStatuses conf)) (sy_index w)
       (wanted (jc_boundaryKey st) found) (sy_index w')).
Proof.
  intros Hconf Hst Hq Hw Hn Hf Hs.
  assert (Hsure : sure j_answer j_change (λ _, True) (jira_pass sha256 fuel cfg (sy_cursor w))
    (ok_with (λ cur idx, cur = newest (startCursor st) (wanted (jc_boundaryKey st) found) ∧
       scanned sha256 (tenantID (c_tenant cfg)) (jira_baseURL conf) (deletedStatusSet (jf_DeletedStatuses conf)) (sy_index w)
         (wanted (jc_boundaryKey st) found) idx)) w).
  { assert (Hscan := λ expire, i_scan sha256 (tenantID (c_tenant cfg)) (jira_baseURL conf) (jc_boundaryKey st)
      (deletedStatusSet (jf_DeletedStatuses conf)) (sy_index w) fuel (sy_source w) _ found expire 0 (startCursor st) w Hq Hw Hn
      ltac:(lia) ltac:(done) ltac:(split; [by intros ??%not_elem_of_nil|done])).
    unfold jira_pass, jira_FullSync, jira_IncrementalSync, jira_config. rewrite Hconf, Hst.
    destruct (String.eqb_spec (sy_cursor w) "") as [E|_]; [|apply Hscan].
    rewrite E in Hst. injection Hst as <-. apply Hscan. }
  destruct (sure_reach j_answer j_change _ _ _ _ _ _ Hsure Hs) as (Hnp & Hnh & _ & Ha).
  split_and!; [done|done|]. intros cur ->. by apply (Ha _ eq_refl).
Qed.

(** ** Sites

    A page of a body: its first byte names the site, the rest is the offset or
    the time bound. *)
Definition plain_issue (id key updated : string) : issue :=
  mkIssue id key (mkFields "s" None (Some "Open") None None None None None None "" updated None).

Definition many : list (option issue) :=
  (λ n, Some (plain_issue (pretty n) ("P-" +:+ pretty n) "2026-06-10T09:15:00.000+0000")) <$> (N.of_nat <$> seq 1 60).

(** Fifty-two issues in the order of their update, before and after P-1 was
    updated again. *)
Definition drifter : issue := plain_issue "1" "P-1" "2026-06-10T09:20:00.000+0000".
Definition drifting (later : bool) : list (option issue) :=
  if later then drop 1 (take 52 many) ++ [Some drifter] else take 52 many.

(** P-1 as it was at nine, and as it is at five past, with P-2 of ten past. *)
Definition site_issues (later : bool) : list issue :=
  if later then [plain_issue "1" "P-1" "2026-06-10T09:05:00.000+0000"; plain_issue "2" "P-2" "2026-06-10T09:10:00.000+0000"]
  else [plain_issue "1" "P-1" "2026-06-10T09:00:00.000+0000"].

(** The issues updated since a time of JQL. *)
Definition since (bound : string) (later : bool) : list (option issue) :=
  Some <$> List.filter (λ iss, match parseJiraTime (if_Updated (is_Fields iss)) with Some t => String.leb bound (format_jql t) | None => false end)
    (site_issues later).

#[local] Instance site_casing : Casing := {| ToLower s := s; ToUpper s := s |}.
#[local] Instance site_quoting : Quoting := {| Quote s := s |}.
#[local] Instance site_urls : URLs := {| url_Parse _ := Some ("https", "h") |}.
#[local] Instance site_deps : Deps :=
  {| uuid_Parse s := Some s; ts_CheckValid _ := true; ts_AsTime _ := 0; ts_New _ := mkTimestamp 0 0 |}.
#[local] Instance site_json : JiraJson := {|
  jr_config _ := Ok ("", [], []); jr_attrs _ := None; jr_time_error _ := "";
  jr_search body :=
    match body with
    | "m"%char :: l => Ok (mkSearch 60 (take 50 (drop (length l) many)))
    | "d"%char :: l => Ok (mkSearch 52 (take 50 (drop (length l) (drifting false))))
    | "e"%char :: l => Ok (mkSearch 52 (take 50 (drop (length l) (drifting true))))
    | "f"%char :: _ => Ok (mkSearch 1 [Some drifter])
    | c :: l => let found := since (of_bytes l) (Ascii.eqb c "1") in Ok (mkSearch (Z.of_nat (length found)) found)
    | [] => Err "unexpected end of JSON input"
    end |}.

Definition site_cfg : Config := mkSdkConfig (mkContext "t1" "t1") "i1" "{}" None.
Definition site_inp : Inp := mkInp None None (mkEnv (λ _, 0) (λ _, 0) "").
Definition site_sha (l : bytes) : bytes := [byte_of (Z.of_nat (length l))].

(** A site of sixty issues that fails every search or none. *)
Definition many_answer X (q : JiraReq X) (_ : Inp) (s : unit) : X :=
  match q with JiraSearch _ _ startAt _ => Answered 200 (Ok ("m"%char :: repeat "x"%char (Z.to_nat startAt))) | JiraCtx => Ok tt | JiraNow => 0 end.
#[local] Instance many_site : Site unit := {| j_answer := many_answer; j_change := eq |}.

Definition many_start : Synced unit := mkSynced tt ∅ "updated:2026/06/10 09:15|key:P-3".
Definition many_end : Synced unit := (play j_answer site_inp [] (jira_pass site_sha 61 site_cfg (sy_cursor many_start)) many_start).2.

Lemma jira_scan_complete_witness :
  star (astep j_answer j_change) (jira_pass site_sha 61 site_cfg (sy_cursor many_start), many_start)
    (ARet (Ok "updated:2026/06/10 09:15|key:P-60"), many_end) ∧
  has_issue site_sha "t1" jira_defaultBaseURL ∅ (sy_index many_end) (plain_issue "60" "P-60" "2026-06-10T09:15:00.000+0000") ∧
  sy_index many_end !! "3" = None ∧ size (sy_index many_end) = 59%nat.
Proof.
  assert (Hs : star (astep j_answer j_change) (jira_pass site_sha 61 site_cfg (sy_cursor many_start), many_start)
    (ARet (Ok "updated:2026/06/10 09:15|key:P-60"), many_end)).
  { assert (Hret : (play j_answer site_inp [] (jira_pass site_sha 61 site_cfg (sy_cursor many_start)) many_start).1 =
      ARet (Ok "updated:2026/06/10 09:15|key:P-60")) by (vm_compute; reflexivity).
    rewrite <- Hret. unfold many_end. rewrite <- surjective_pairing.
    apply play_star. exact I. }
  destruct (jira_scan_complete (S := unit) site_sha 61 site_cfg (mkJiraConfig "" [] []) (mkJiraCursor "2026/06/10 09:15" "P-3") many many_start
    (ARet (Ok "updated:2026/06/10 09:15|key:P-60")) many_end) as (_ & _ & Ha).
  - vm_compute. reflexivity.
  - vm_compute. reflexivity.
  - intros s i k page _. cbn. rewrite repeat_length, Nat2Z.id. intros [= <-]. by split.
  - apply Forall_forall. intros iss Hi. unfold whole.
    assert (Hc : forallb (λ iss, bool_decide (Forall is_Some (default [] (if_Comment (is_Fields iss))))) (wanted "P-3" many) = true) by (vm_compute; reflexivity).
    apply list_elem_of_In, (proj1 (forallb_forall _ _) Hc) in Hi. by apply bool_decide_eq_true in Hi.
  - eapply bool_decide_eq_true_1. vm_compute. reflexivity.
  - vm_compute. lia.
  - exact Hs.
  - destruct (Ha _ eq_refl) as [_ [Hh Ho]]. split; [exact Hs|]. split_and!.
    + apply Hh, (list_elem_of_lookup_2 _ 58). vm_compute. reflexivity.
    + vm_compute. reflexivity.
    + vm_compute. reflexivity.
Defined.

(** ** Updates that are lost *)

(** Searches of a site answer with the issues since the bound of their JQL. *)
Definition bound_of (jql : string) : string := if HasPrefix jql "updated >= '" then take_str 16 (drop_str 12 jql) else "".
Definition busy_answer X (q : JiraReq X) (_ : Inp) (later : bool) : X :=
  match q with
  | JiraSearch _ jql _ _ => Answered 200 (Ok ((if later then "1"%char else "0"%char) :: to_bytes (bound_of jql)))
  | JiraCtx => Ok tt
  | JiraNow => 0
  end.
Definition busy_pass (later : bool) (w : Synced bool) : Synced bool :=
  let w := move later w in
  match play busy_answer site_inp [] (jira_pass site_sha 3 site_cfg (sy_cursor w)) w with
  | (ARet (Ok cur), w') => store_cursor cur w'
  | (_, w') => w'
  end.
Definition busy_first : Synced bool := busy_pass false (mkSynced false ∅ "").

(** The boundary issue is skipped even when it has been updated again; the next
    issue moves the cursor past the update, and no later pass changes a thing:
    the index keeps the old version. *)
Lemma boundary_update_lost :
  let second := busy_pass true busy_first in
  sy_cursor busy_first = "updated:2026/06/10 09:00|key:P-1" ∧ sy_cursor second = "updated:2026/06/10 09:10|key:P-2" ∧
  version_etag <$> sy_index second !! "1" = Some "2026-06-10T09:00:00.000+0000" ∧
  version_etag <$> sy_index second !! "2" = Some "2026-06-10T09:10:00.000+0000" ∧
  busy_pass true second = second.
Proof. split_and!; vm_compute; reflexivity. Qed.

(** A search whose first page was answered before P-1 moved to the end: the
    second page starts one too far, P-51 is never seen, and the cursor is
    past it. *)
Definition drift_answer X (q : JiraReq X) (_ : Inp) (later : bool) : X :=
  match q with
  | JiraSearch _ jql startAt _ =>
    Answered 200 (Ok ((if String.eqb (bound_of jql) "" then if later then "e"%char else "d"%char else "f"%char) :: repeat "x"%char (Z.to_nat startAt)))
  | JiraCtx => Ok tt
  | JiraNow => 0
  end.
Definition drift_pass (moves : list bool) (w : Synced bool) : Synced bool :=
  match play drift_answer site_inp moves (jira_pass site_sha 53 site_cfg (sy_cursor w)) w with
  | (ARet (Ok cur), w') => store_cursor cur w'
  | (_, w') => w'
  end.
Definition drift_first : Synced bool := drift_pass (repeat false 53 ++ [true]) (mkSynced false ∅ "").

Lemma page_drift_loses :
  sy_cursor drift_first = "updated:2026/06/10 09:20|key:P-1" ∧ sy_index drift_first !! "51" = None ∧ size (sy_index drift_first) = 51%nat ∧
  sy_index (drift_pass [] drift_first) !! "51" = None ∧ sy_cursor (drift_pass [] drift_first) = sy_cursor drift_first.
Proof. split_and!; vm_compute; reflexivity. Qed.

(** An issue with a null comment stops the connector with a panic. *)
Lemma null_comment_panics base deleted :
  emitIssue site_sha "t1" base deleted
    (mkIssue "1" "P-1" (mkFields "s" None None None None None None None None "" "" (Some [None]))) = APanic.
Proof. reflexivity. Qed.
