(* ===== verification/GCal.v ===== *)
(** * The Google Calendar connector

    Models [connectors/gcal]: configuration and validation (gcal.go), the
    events.list client (client.go), cursors (cursor.go), events as documents
    (event.go), backfill and replay (sync.go).  The HTTP exchange is a request;
    JSON, URL parsing and the entity table of package html are parameters.
    [stripHTML] can panic, so a document is an option. *)

From stdpp Require Import base gmap strings list pretty.
From Stdlib Require Import Ascii ZArith Lia.
From S2P Require Import Prelude GoStrings Tenancy Crypto Blob ControlPlane Erasure Document Kafka GoTime HubSync GoText GoEncode GoDate ConnectorRun HtmlText.

Open Scope Z_scope.

Definition gcalID : string := "gcal".
Definition gcal_defaultBaseURL : string := "https://www.googleapis.com/calendar/v3".
Definition defaultCalendarID : string := "primary".
Definition listPageSize : Z := 250.
Definition maxResponseBody : Z := 32 * 2 ^ 20.
Definition statusCanceled : string := "cancelled".
Definition gcal_noTitle : string := "(no title)".

(** ** The API *)
Record eventDateTime := mkEventTime { et_Date : string; et_DateTime : string }.
Record eventActor := mkActor { ac_DisplayName : string; ac_Email : string }.
Record attendee := mkAttendee { at_DisplayName : string; at_Email : string; at_ResponseStatus : string }.
Record calEvent := mkCalEvent {
  ce_ID : string; ce_Status : string; ce_Etag : string; ce_Summary : string; ce_Description : string; ce_Location : string;
  ce_HTMLLink : string; ce_Created : string; ce_Updated : string; ce_Start : option eventDateTime; ce_End : option eventDateTime;
  ce_Organizer : option eventActor; ce_Attendees : list (option attendee)
}.
Record eventsList := mkEventsList { el_Items : list (option calEvent); el_NextPageToken : string; el_NextSyncToken : string }.
Record listParams := mkListParams { lp_pageToken : string; lp_syncToken : string; lp_maxResults : Z }.

Inductive CalReq : Type → Type :=
| CalGet (endpoint : string) : CalReq HttpAnswer
| CalCtx : CalReq (result GoErr unit)
| CalNow : CalReq Z.

(** [json.Unmarshal] of a configuration (base_url, calendar_id) and of a page. *)
Class CalJson := {
  cal_config : string → result string (string * string);
  cal_events : bytes → result string eventsList
}.

(** ** cursor.go *)
Definition syncPrefix : string := "sync:".
Definition pagePrefix : string := "page:".
Inductive cal_cursorState := CalSync (syncToken : string) | CalPage (pageToken : string).

Definition syncCursor (syncToken : string) : string := syncPrefix +:+ syncToken.
Definition pageCursor (pageToken : string) : string := pagePrefix +:+ pageToken.

Section gcal.
Context `{!Casing, !HtmlEntities, !Deps, !Quoting, !URLs, !CalJson} (sha256 : bytes → bytes).

Definition gcal_parseCursor (s : string) : result string cal_cursorState :=
  match CutPrefix s pagePrefix with
  | Some token =>
    if String.eqb token "" then Err ("gcal: backfill cursor " +:+ Quote s +:+ " has an empty page token") else Ok (CalPage token)
  | None =>
    match CutPrefix s syncPrefix with
    | Some token =>
      if String.eqb token "" then Err ("gcal: sync cursor " +:+ Quote s +:+ " has an empty sync token") else Ok (CalSync token)
    | None => Err ("gcal: cursor " +:+ Quote s +:+ " has an unrecognized prefix")
    end
  end.

(** ** event.go *)
Definition gcal_nativeID (calendarID eventID : string) : string := calendarID +:+ ":" +:+ eventID.

Definition gcal_stripHTML (s : string) : option string := if ContainsAny s "<&" then stripHTML s else Some (TrimSpace s).

Definition gcal_eventBody (ev : calEvent) : option string :=
  desc ← gcal_stripHTML (ce_Description ev);
  Some (Join (List.filter (λ s, negb (String.eqb s "")) [TrimSpace desc; TrimSpace (ce_Location ev)]) (String "010" (String "010" ""))).

Definition gcal_versionEtag (ev : calEvent) (body : string) : string :=
  let etag := TrimSpace (ce_Etag ev) in
  if negb (String.eqb etag "") then etag
  else
    let seed := if String.eqb body "" then ce_ID ev +:+ ":" +:+ ce_Updated ev else body in
    EncodeToString (sha256 (to_bytes seed)).

Definition attendee_people (a : option attendee) : list Participant :=
  match a with
  | Some a => if String.eqb (at_Email a) "" && String.eqb (at_DisplayName a) "" then [] else [mkParticipant (at_DisplayName a) (at_Email a) "" "attendee"]
  | None => []
  end.

Definition gcal_participants (ev : calEvent) : list Participant :=
  match ce_Organizer ev with
  | Some o => if negb (String.eqb (ac_Email o) "") || negb (String.eqb (ac_DisplayName o) "")
              then [mkParticipant (ac_DisplayName o) (ac_Email o) "" "organizer"] else []
  | None => []
  end ++ flat_map attendee_people (ce_Attendees ev).

Definition event_time_value (d : option eventDateTime) : string :=
  match d with None => "" | Some d => if negb (String.eqb (et_DateTime d) "") then et_DateTime d else et_Date d end.

Definition cal_put (md : gmap string string) (kv : string * string) : gmap string string := if String.eqb kv.2 "" then md else <[kv.1 := kv.2]> md.

Definition response_status (a : option attendee) : list (string * string) :=
  match a with
  | Some a =>
    let key := if String.eqb (at_Email a) "" then at_DisplayName a else at_Email a in
    if String.eqb (at_ResponseStatus a) "" || String.eqb key "" then [] else [("response_status:" +:+ key, at_ResponseStatus a)]
  | None => []
  end.

Definition gcal_metadata (calendarID : string) (ev : calEvent) : gmap string string :=
  foldl cal_put ∅
    ([("event_id", ce_ID ev); ("calendar_id", calendarID); ("html_link", ce_HTMLLink ev); ("location", ce_Location ev); ("status", ce_Status ev);
      ("start", event_time_value (ce_Start ev)); ("end", event_time_value (ce_End ev))] ++ flat_map response_status (ce_Attendees ev)).

Definition parseRFC3339 (s : string) : option Timestamp :=
  let s := TrimSpace s in if String.eqb s "" then None else ts_New <$> time_Parse RFC3339 s.

Definition gcal_eventTimestamps (ev : calEvent) : option Timestamps :=
  match parseRFC3339 (ce_Created ev), parseRFC3339 (ce_Updated ev) with
  | None, None => None
  | created, modified => Some (mkTimestamps created modified None)
  end.

Definition gcal_tombstone (tenant calendarID : string) (ev : calEvent) (now : Z) : Document :=
  let native := gcal_nativeID calendarID (ce_ID ev) in
  mkDoc tenant (DocID sha256 gcalID native) gcalID native CALENDAR_EVENT "" "" [] ∅ [] None None None (gcal_versionEtag ev "")
    (Some (mkTombstone true (Some (ts_New now)))) None.

(** An event that is not cancelled. *)
Definition live_event (tenant calendarID : string) (ev : calEvent) : option Document :=
  let native := gcal_nativeID calendarID (ce_ID ev) in
  let title := TrimSpace (ce_Summary ev) in
  body ← gcal_eventBody ev;
  Some (mkDoc tenant (DocID sha256 gcalID native) gcalID native CALENDAR_EVENT (if String.eqb title "" then gcal_noTitle else title) body []
    (gcal_metadata calendarID ev) (gcal_participants ev) (gcal_eventTimestamps ev) None None (gcal_versionEtag ev body) None None).

(** ** gcal.go *)
Record calConfig := mkCalConfig { cf_BaseURL : string; cf_CalendarID : string }.

Definition gcal_parseConfig (raw : string) : result string calConfig :=
  match (if String.eqb raw "" then Ok ("", "") else cal_config raw) with
  | Err e => Err ("gcal: config is not valid JSON: " +:+ e)
  | Ok (baseURL, calendarID) =>
    let baseURL := TrimSpace baseURL in
    let calendarID := TrimSpace calendarID in
    let calendarID := if String.eqb calendarID "" then defaultCalendarID else calendarID in
    let bad := Err ("gcal: config field base_url " +:+ Quote baseURL +:+ " is not a valid http(s) URL") in
    if String.eqb baseURL "" then Ok (mkCalConfig gcal_defaultBaseURL calendarID)
    else match url_Parse baseURL with
    | None => bad
    | Some (scheme, host) =>
      if String.eqb host "" || (negb (String.eqb scheme "http") && negb (String.eqb scheme "https")) then bad
      else Ok (mkCalConfig baseURL calendarID)
    end
  end.

Abbreviation cal A := (api CalReq A).
Open Scope api_scope.

Definition gcal_fail {A} (msg : string) : cal (result ConnErr A) := ARet (Err (mkConnErr false msg)).

(** ** client.go *)

(** The values in the order of their keys. *)
Definition list_url (conf : calConfig) (p : listParams) : string :=
  let q :=
    (if 0 <? lp_maxResults p then [("maxResults", pretty (lp_maxResults p))] else []) ++
    (if String.eqb (lp_syncToken p) "" && negb (String.eqb (lp_pageToken p) "") then [("pageToken", lp_pageToken p)] else []) ++
    [("singleEvents", "true")] ++
    (if String.eqb (lp_syncToken p) "" then [] else [("syncToken", lp_syncToken p)]) in
  TrimRightSlash (cf_BaseURL conf) +:+ "/calendars/" +:+ PathEscape (cf_CalendarID conf) +:+ "/events?" +:+ encode_values q.

Definition gcal_apiError (status : Z) (body : bytes) : string :=
  "calendar API status " +:+ pretty status +:+ ": " +:+ of_bytes (take 256 body).

Definition list_answer (r : HttpAnswer) : result ConnErr eventsList :=
  match r with
  | BadRequest e => Err (mkConnErr false ("gcal: build events.list request: " +:+ e))
  | NoAnswer e => Err (mkConnErr false ("gcal: events.list: " +:+ e))
  | Answered status body =>
    match body with
    | Err e => Err (mkConnErr false ("gcal: read events.list response: " +:+ e))
    | Ok body =>
      let body := limited maxResponseBody body in
      if status =? 410 then Err (mkConnErr true "gcal: events.list syncToken expired (410 Gone): sdk: sync cursor expired at the source")
      else if (status <? 200) || (300 <=? status) then Err (mkConnErr false (gcal_apiError status body))
      else match cal_events body with
      | Err e => Err (mkConnErr false ("gcal: decode events.list response: " +:+ e))
      | Ok out => Ok out
      end
    end
  end.

Definition listEvents (conf : calConfig) (p : listParams) : cal (result ConnErr eventsList) :=
  ask r := CalGet (list_url conf p) in ARet (list_answer r).

Definition gcal_config (cfg : Config) : cal (result ConnErr calConfig) :=
  match gcal_parseConfig (c_config_json cfg) with Err e => gcal_fail e | Ok conf => ARet (Ok conf) end.

Definition gcal_Validate (cfg : Config) : cal (result ConnErr unit) :=
  do conf := gcal_config cfg in
  if String.eqb (default "" (c_token cfg)) "" then ARet (Ok tt)
  else abind (listEvents conf (mkListParams "" "" 1)) (λ r,
  match r with
  | Err e => gcal_fail (if expired e then "gcal: credential check failed" else "gcal: credential check failed: " +:+ ce_text e)
  | Ok _ => ARet (Ok tt)
  end).

(** ** sync.go *)
Definition gcal_ctx : cal (result ConnErr unit) := ask r := CalCtx in ARet (passed r).

(** [emit(ctx, c.eventDocument(tenant, calendarID, ev))] *)
Definition emit_calEvent (tenant calendarID : string) (ev : calEvent) : cal (result ConnErr unit) :=
  if String.eqb (ce_Status ev) statusCanceled then ask now := CalNow in emit (gcal_tombstone tenant calendarID ev now)
  else match live_event tenant calendarID ev with None => APanic | Some doc => emit doc end.

Fixpoint emit_items (tenant calendarID : string) (items : list (option calEvent)) : cal (result ConnErr unit) :=
  match items with
  | [] => ARet (Ok tt)
  | None :: items' => emit_items tenant calendarID items'
  | Some ev :: items' =>
    if String.eqb (ce_ID ev) "" then emit_items tenant calendarID items'
    else do _ := emit_calEvent tenant calendarID ev in emit_items tenant calendarID items'
  end.

Fixpoint gcal_backfill (fuel : nat) (tenant : string) (conf : calConfig) (pageToken : string) : cal (result ConnErr string) :=
  match fuel with
  | O => AHang
  | S n =>
    do _ := gcal_ctx in
    do page := listEvents conf (mkListParams pageToken "" listPageSize) in
    do _ := emit_items tenant (cf_CalendarID conf) (el_Items page) in
    if negb (String.eqb (el_NextPageToken page) "") then
      do _ := checkpoint (pageCursor (el_NextPageToken page)) in gcal_backfill n tenant conf (el_NextPageToken page)
    else if String.eqb (el_NextSyncToken page) "" then gcal_fail "gcal: final events.list page carried no nextSyncToken"
    else do _ := checkpoint (syncCursor (el_NextSyncToken page)) in ARet (Ok (syncCursor (el_NextSyncToken page)))
  end.

Definition replay_failed (e : ConnErr) : ConnErr :=
  if expired e then mkConnErr true ("gcal: incremental sync from syncToken failed: " +:+ ce_text e) else e.

Fixpoint replaySync (fuel : nat) (tenant : string) (conf : calConfig) (syncToken pageToken : string) : cal (result ConnErr string) :=
  match fuel with
  | O => AHang
  | S n =>
    do _ := gcal_ctx in
    let params := if negb (String.eqb pageToken "") then mkListParams pageToken "" listPageSize else mkListParams "" syncToken listPageSize in
    abind (listEvents conf params) (λ r,
    match r with
    | Err e => ARet (Err (replay_failed e))
    | Ok page =>
      do _ := emit_items tenant (cf_CalendarID conf) (el_Items page) in
      if negb (String.eqb (el_NextPageToken page) "") then replaySync n tenant conf syncToken (el_NextPageToken page)
      else if String.eqb (el_NextSyncToken page) "" then gcal_fail "gcal: incremental events.list page carried no nextSyncToken"
      else ARet (Ok (syncCursor (el_NextSyncToken page)))
    end)
  end.

Definition gcal_FullSync (fuel : nat) (cfg : Config) : cal (result ConnErr string) :=
  do conf := gcal_config cfg in gcal_backfill fuel (tenantID (c_tenant cfg)) conf "".

Definition gcal_IncrementalSync (fuel : nat) (cfg : Config) (cur : string) : cal (result ConnErr string) :=
  do conf := gcal_config cfg in
  match gcal_parseCursor cur with
  | Err e => ARet (Err (mkConnErr true (e +:+ ": sdk: sync cursor expired at the source")))
  | Ok (CalPage pageToken) => gcal_backfill fuel (tenantID (c_tenant cfg)) conf pageToken
  | Ok (CalSync syncToken) => replaySync fuel (tenantID (c_tenant cfg)) conf syncToken ""
  end.

Definition gcal_connector (fuel : nat) (o : Oracle CalReq) : Connector :=
  mkConnector (λ cfg, resolve o 0 (gcal_FullSync fuel cfg)) (λ cfg cur, resolve o 0 (gcal_IncrementalSync fuel cfg cur)).
End gcal.

(** * The Google Calendar connector: cursors tell the truth

    Against a calendar that changes while the connector runs, whatever cursor is
    stored: an event the index does not show as it is will be delivered to a
    sync that goes on from that cursor. *)

(** ** A calendar

    What the API is documented to do.  [events] has every event, a deleted one
    as cancelled.  A listing starts anew ([None]) or goes on from a token;
    [due s q] are the events it has yet to deliver, [left q] bounds the pages
    still to come, [issued s t] are the tokens given out. *)
Definition params_of (q : option cal_cursorState) : listParams :=
  match q with
  | None => mkListParams "" "" listPageSize
  | Some (CalPage t) => mkListParams t "" listPageSize
  | Some (CalSync t) => mkListParams "" t listPageSize
  end.

(** Where a listing goes on after a page. *)
Definition next_of (page : eventsList) : cal_cursorState :=
  if String.eqb (el_NextPageToken page) "" then CalSync (el_NextSyncToken page) else CalPage (el_NextPageToken page).

Definition token_of (t : cal_cursorState) : string := match t with CalSync t => t | CalPage t => t end.

Definition cancelled (ev : calEvent) : bool := String.eqb (ce_Status ev) statusCanceled.

Class Calendar (S : Type) := {
  k_answer : ∀ X, CalReq X → Inp → S → X;
  k_change : S → S → Prop;
  events : S → gmap string calEvent;
  issued : S → cal_cursorState → Prop;
  due : S → option cal_cursorState → gset string;
  left : option cal_cursorState → nat
}.

Class CalendarLaws (S : Type) `{!Calendar S, !CalJson} (conf : calConfig) : Prop := {
  k_preorder : PreOrder k_change;
  k_ids s i ev : events s !! i = Some ev → ce_ID ev = i;
  k_issued s s' t : k_change s s' → issued s t → issued s' t;
  k_due s s' t i : k_change s s' → issued s t → i ∈ due s (Some t) → i ∈ due s' (Some t);
  k_changed s s' t i : k_change s s' → issued s t → events s' !! i = events s !! i ∨ i ∈ due s' (Some t);
  k_first s i ev : events s !! i = Some ev → cancelled ev = false → i ∈ due s None;
  k_page i s q page : (∀ t, q = Some t → issued s t) → list_answer (k_answer _ (CalGet (list_url conf (params_of q))) i s) = Ok page →
    (∀ ev, Some ev ∈ el_Items page → ce_ID ev ≠ "" → events s !! ce_ID ev = Some ev) ∧
    (token_of (next_of page) ≠ "" → issued s (next_of page)) ∧
    (∀ j, j ∈ due s q → (∃ ev, Some ev ∈ el_Items page ∧ ce_ID ev = j ∧ j ≠ "") ∨ j ∈ due s (Some (next_of page))) ∧
    (el_NextPageToken page ≠ "" → (left (Some (next_of page)) < left q)%nat)
}.

Lemma gcal_stripHTML_safe `{!Casing, !HtmlEntities} s : room_for_cuts s → is_Some (gcal_stripHTML s).
Proof. intros Hs. unfold gcal_stripHTML. destruct (ContainsAny s "<&"); [by apply stripHTML_safe|eauto]. Qed.

Section truth.
Context `{!Casing, !HtmlEntities, !Deps, !Quoting, !URLs, !CalJson} (sha256 : bytes → bytes).
Context {S : Type} {HC : Calendar S} (conf : calConfig) {HL : CalendarLaws S conf} (tenant : string).

(** Lower-casing lengthens no description by more than follows each of its
    script and style blocks. *)
Context (room : ∀ s i ev, events s !! i = Some ev → room_for_cuts (ce_Description ev)).

Abbreviation W := (Synced S).
Abbreviation Index := (gmap string Document).
Abbreviation native := (gcal_nativeID (cf_CalendarID conf)).
Open Scope api_scope.
#[local] Instance k_change_preorder : PreOrder k_change := k_preorder (conf := conf).

(** The index entry of a live event is its document, of any other none or a
    tombstone. *)
Definition shown (e : option calEvent) (d : option Document) : Prop :=
  match e with
  | Some ev => if cancelled ev then ∀ doc, d = Some doc → is_deleted doc = true
               else ∃ doc, live_event sha256 tenant (cf_CalendarID conf) ev = Some doc ∧ d = Some doc
  | None => ∀ doc, d = Some doc → is_deleted doc = true
  end.

(** What is not shown is due, or among [X]. *)
Definition covered (t : cal_cursorState) (X : list string) (s : S) (idx : Index) : Prop :=
  ∀ i, i ∈ due s (Some t) ∨ i ∈ X ∨ shown (events s !! i) (idx !! native i).

Definition truthful (w : W) : Prop :=
  ∀ t, gcal_parseCursor (sy_cursor w) = Ok t → issued (sy_source w) t ∧ covered t [] (sy_source w) (sy_index w).

(** Nothing of the calendar is in the index. *)
Definition none_live (idx : Index) : Prop := ∀ i doc, idx !! native i = Some doc → is_deleted doc = true.

Lemma cal_native_inj i j : native i = native j → i = j.
Proof using Type. unfold gcal_nativeID. intros E. do 2 apply (inj _) in E. done. Qed.

Lemma covered_move t X s s' idx : k_change s s' → issued s t → covered t X s idx → covered t X s' idx.
Proof using HL.
  intros Hc Ht Hi i. destruct (k_changed s s' t i Hc Ht) as [E|?]; [|by left]. rewrite E.
  destruct (Hi i) as [Hd|Hr]; [left; by eapply k_due|by right].
Qed.

(** What is emitted for an event. *)
Definition doc_of (ev : calEvent) (doc : Document) : Prop :=
  source_native_id doc = native (ce_ID ev) ∧
  if cancelled ev then is_deleted doc = true else live_event sha256 tenant (cf_CalendarID conf) ev = Some doc.

Lemma covered_put t X s1 s idx ev doc : k_change s1 s → issued s1 t → events s1 !! ce_ID ev = Some ev → doc_of ev doc →
  covered t (ce_ID ev :: X) s idx → covered t X s (<[source_native_id doc := doc]> idx).
Proof using HL.
  intros Hc Ht He [-> Hdoc] Hi i. destruct (decide (i = ce_ID ev)) as [->|Hne].
  - destruct (k_changed s1 s t (ce_ID ev) Hc Ht) as [E|?]; [|by left]. right; right. rewrite E, He, lookup_insert_eq. unfold shown.
    destruct (cancelled ev); [by intros d [= <-]|eauto].
  - rewrite lookup_insert_ne by (intros E; by apply cal_native_inj in E). destruct (Hi i) as [?|[Hx|?]]; [by left| |by right; right].
    right; left. by apply elem_of_cons in Hx as [?|?].
Qed.

Lemma stable_truthful : stable k_change truthful.
Proof using HL.
  intros w s Hs Hw t Ht. destruct (Hw t Ht) as [Hi Hc]. split; [by eapply k_issued|by eapply covered_move].
Qed.

(** ** The items of a page

    [s1]: the calendar when it was answered. *)
Definition item_ids (items : list (option calEvent)) : list string := List.filter (λ i, negb (String.eqb i "")) (ce_ID <$> omap id items).

Definition paging (s1 : S) (nx : cal_cursorState) (items : list (option calEvent)) (w : W) : Prop :=
  k_change s1 (sy_source w) ∧
  (∀ t, gcal_parseCursor (sy_cursor w) = Ok t → issued s1 t ∧ covered t [] (sy_source w) (sy_index w)) ∧
  (issued s1 nx → covered nx (item_ids items) (sy_source w) (sy_index w)).

Lemma paging_truthful s1 nx items w : paging s1 nx items w → truthful w.
Proof using HL. intros (Hc & Ht & _) t E. destruct (Ht t E). split; [by eapply k_issued|done]. Qed.

Lemma stable_paging s1 nx items : stable k_change (paging s1 nx items).
Proof using HL.
  intros w s Hs (Hc & Ht & Hn). split_and!; [by etrans| |].
  - intros t E. destruct (Ht t E) as [Hi Hv]. split; [done|]. eapply covered_move; [exact Hs| |exact Hv]. by eapply k_issued.
  - intros Hi. eapply covered_move; [exact Hs| |by apply Hn]. by eapply k_issued.
Qed.

Lemma covered_weaken t X Y s idx : (∀ i, i ∈ X → i ∈ Y) → covered t X s idx → covered t Y s idx.
Proof using Type. intros HX Hi i. destruct (Hi i) as [?|[?|?]]; auto. Qed.

Lemma item_ids_some ev items : item_ids (Some ev :: items) = if String.eqb (ce_ID ev) "" then item_ids items else ce_ID ev :: item_ids items.
Proof using Type. unfold item_ids. cbn. by destruct (String.eqb _ ""). Qed.

Lemma paging_put s1 nx ev items doc w : ce_ID ev ≠ "" → events s1 !! ce_ID ev = Some ev → doc_of ev doc →
  paging s1 nx (Some ev :: items) w → paging s1 nx items (index_put doc w).
Proof using HL.
  intros Hne He Hd (Hc & Ht & Hn). rewrite item_ids_some, (proj2 (String.eqb_neq _ _) Hne) in Hn. split_and!; [done| |].
  - intros t E. destruct (Ht t E) as [Hi Hv]. split; [done|]. eapply covered_put; [done..|]. eapply covered_weaken; [|exact Hv].
    by intros i ?%not_elem_of_nil.
  - intros Hi. eapply covered_put; [done..|]. by apply Hn.
Qed.

Lemma sure_event s1 nx ev items w : ce_ID ev ≠ "" → events s1 !! ce_ID ev = Some ev → paging s1 nx (Some ev :: items) w →
  sure k_answer k_change truthful (emit_calEvent sha256 tenant (cf_CalendarID conf) ev)
    (λ r w, truthful w ∧ (∀ a : unit, r = Ok a → paging s1 nx items w)) w.
Proof using HL room.
  intros Hne He Hw. unfold emit_calEvent. fold (cancelled ev).
  assert (Hemit : ∀ doc w, doc_of ev doc → paging s1 nx (Some ev :: items) w → sure k_answer k_change truthful (emit doc)
    (λ r w, truthful w ∧ (∀ a : unit, r = Ok a → paging s1 nx items w)) w).
  { intros doc v Hd Hv. apply sure_emit; [apply k_change_preorder|apply stable_truthful|done|apply stable_paging|by apply paging_truthful|by eapply paging_truthful|].
    intros s Hs. by apply (paging_put s1 nx ev), stable_paging. }
  destruct (cancelled ev) eqn:Ec.
  - eapply (sure_ask _ _ _ (paging s1 nx (Some ev :: items))); [apply stable_paging|by apply paging_truthful|done|].
    intros v i Hv. apply Hemit; [|done]. split; [done|]. by rewrite Ec.
  - destruct (gcal_stripHTML_safe _ (room _ _ _ He)) as [desc Hs]. assert (Hl : ∃ doc, live_event sha256 tenant (cf_CalendarID conf) ev = Some doc ∧ doc_of ev doc).
    { unfold doc_of. rewrite Ec. unfold live_event, gcal_eventBody. rewrite Hs. cbn. eauto. }
    destruct Hl as (doc & -> & Hd). by apply Hemit.
Qed.

Lemma sure_items s1 nx items w : (∀ ev, Some ev ∈ items → ce_ID ev ≠ "" → events s1 !! ce_ID ev = Some ev) → paging s1 nx items w →
  sure k_answer k_change truthful (emit_items sha256 tenant (cf_CalendarID conf) items)
    (λ r w, truthful w ∧ (∀ a : unit, r = Ok a → paging s1 nx [] w)) w.
Proof using HL room.
  revert w. induction items as [|[ev|] items IH]; intros w He Hw; cbn [emit_items].
  - apply (sure_ret _ _ _ (paging s1 nx [])); [apply stable_paging|by apply paging_truthful|done|]. intros v Hv. split; [by eapply paging_truthful|done].
  - assert (He' : ∀ e, Some e ∈ items → ce_ID e ≠ "" → events s1 !! ce_ID e = Some e) by (intros e Hin; apply He; by right).
    destruct (String.eqb_spec (ce_ID ev) "") as [E|Hne].
    + apply IH; [done|]. destruct Hw as (? & ? & Hn). split_and!; [done..|]. by rewrite item_ids_some, E in Hn.
    + eapply (sure_do _ _ _ truthful); [apply stable_truthful|done|done|apply (sure_event s1 nx ev items); [done|apply He; [by left|done]|done]|].
      cbn beta. intros _ v _ Hv. by apply IH.
  - apply IH; [intros e Hin; apply He; by right|done].
Qed.

(** ** The passes *)

(** A listing is about to start or to go on at [q]. *)
Definition listing (q : option cal_cursorState) (w : W) : Prop :=
  truthful w ∧
  match q with
  | Some t => issued (sy_source w) t ∧ covered t [] (sy_source w) (sy_index w)
  | None => none_live (sy_index w)
  end.

Lemma stable_listing q : stable k_change (listing q).
Proof using HL.
  intros w s Hs [Ht Hq]. split; [by apply stable_truthful|]. destruct q as [t|]; [|done]. destruct Hq as [Hi Hc].
  split; [by eapply k_issued|by eapply covered_move].
Qed.

(** A page is answered: what it leaves out is due at the next. *)
Lemma listing_page q i w page : listing q w → list_answer (k_answer _ (CalGet (list_url conf (params_of q))) i (sy_source w)) = Ok page →
  paging (sy_source w) (next_of page) (el_Items page) w.
Proof using HL.
  intros [Ht Hq] Hp. assert (Hiss : ∀ t, q = Some t → issued (sy_source w) t) by (intros t ->; apply Hq).
  destruct (k_page i (sy_source w) q page Hiss Hp) as (_ & _ & Hdue & _). split_and!; [done|done|]. intros _ j.
  assert (Hj : j ∈ due (sy_source w) q ∨ shown (events (sy_source w) !! j) (sy_index w !! native j)).
  { destruct q as [t|].
    - destruct (proj2 Hq j) as [?|[[]%not_elem_of_nil|?]]; auto.
    - unfold shown. destruct (events (sy_source w) !! j) as [ev|] eqn:E; [|right; apply Hq].
      destruct (cancelled ev) eqn:Ec; [right; apply Hq|left; by eapply k_first]. }
  destruct Hj as [Hj|Hj]; [|by right; right]. destruct (Hdue j Hj) as [(ev & Hin & <- & Hne)|?]; [|by left]. right; left.
  unfold item_ids. apply list_elem_of_In, filter_In. split; [|by apply negb_true_iff, String.eqb_neq].
  apply list_elem_of_In, list_elem_of_fmap_2, list_elem_of_omap. by exists (Some ev).
Qed.

(** At the end of a page the next token can be stored. *)
Lemma paging_next s1 nx w : issued s1 nx → paging s1 nx [] w → listing (Some nx) w.
Proof using HL. intros Hi Hp. split; [by eapply paging_truthful|]. destruct Hp as (Hc & _ & Hn). split; [by eapply k_issued|by apply Hn]. Qed.

Lemma CutPrefix_app p t : CutPrefix (p +:+ t) p = Some t.
Proof using Type. unfold CutPrefix. rewrite (proj2 (HasPrefix_spec _ _)) by eauto. by rewrite drop_str_app. Qed.

Definition cursor_of (t : cal_cursorState) : string := match t with CalSync t => syncCursor t | CalPage t => pageCursor t end.

Lemma parse_cursor_of t : token_of t ≠ "" → gcal_parseCursor (cursor_of t) = Ok t.
Proof using Type.
  intros Hne. unfold gcal_parseCursor. destruct t as [t|t]; cbn [cursor_of token_of] in *; unfold syncCursor, pageCursor.
  - rewrite CutPrefix_app, (proj2 (String.eqb_neq _ _) Hne). by unfold CutPrefix.
  - by rewrite CutPrefix_app, (proj2 (String.eqb_neq _ _) Hne).
Qed.

Lemma listing_stored t w : token_of t ≠ "" → listing (Some t) w → listing (Some t) (store_cursor (cursor_of t) w).
Proof using Type. intros Hne [_ Ht]. split; [|done]. intros t' E. cbn in E. rewrite parse_cursor_of in E by done. by injection E as <-. Qed.

(** What a pass ends with: a cursor that can be stored. *)
Definition ends (r : result ConnErr string) (w : W) : Prop := truthful w ∧ ∀ cur, r = Ok cur → truthful (store_cursor cur w).

Abbreviation truly m P w := (sure k_answer k_change truthful m P w).

Lemma ends_fail e w : truthful w → truly (ARet (Err e)) ends w.
Proof using HL. intros Hw. apply (sure_ret _ _ _ truthful); [apply stable_truthful|done|done|]. by split. Qed.

(** One page: asked for, answered, emitted. *)
Lemma cal_page q err (f : eventsList → api CalReq (result ConnErr string)) w : listing q w →
  (∀ page w', truthful w' → (token_of (next_of page) ≠ "" → listing (Some (next_of page)) w') →
     (el_NextPageToken page ≠ "" → (left (Some (next_of page)) < left q)%nat) → truly (f page) ends w') →
  truly (do _ := gcal_ctx in
    abind (listEvents conf (params_of q)) (λ r, match r with
      | Err e => ARet (Err (err e))
      | Ok page => do _ := emit_items sha256 tenant (cf_CalendarID conf) (el_Items page) in f page
      end)) ends w.
Proof using HL room.
  intros Hw Hf. eapply (sure_do _ _ _ (listing q) _ _ (λ _, listing q)); [apply stable_listing|by intros ? []|by intros e ? [? _]| |].
  { eapply (sure_ask _ _ _ (listing q)); [apply stable_listing|by intros ? []|done|]. intros v i Hv.
    apply (sure_ret _ _ _ (listing q)); [apply stable_listing|by intros ? []|done|]. by intros. }
  intros _ v Hv _. cbn [abind listEvents]. eapply (sure_ask _ _ _ (listing q)); [apply stable_listing|by intros ? []|done|].
  intros v1 i Hv1. destruct (list_answer _) as [page|e] eqn:Hp; [|by apply ends_fail, Hv1].
  assert (Hiss : ∀ t, q = Some t → issued (sy_source v1) t) by (intros t ->; apply Hv1).
  destruct (k_page i (sy_source v1) q page Hiss Hp) as (Hit & Hnx & _ & Hleft).
  eapply (sure_do _ _ _ truthful); [apply stable_truthful|done|by intros|apply sure_items; [exact Hit|by eapply listing_page]|].
  cbn beta. intros _ v2 Ht Hpg. apply Hf; [done| |done]. intros Hne. eapply paging_next; [|exact Hpg]. by apply Hnx.
Qed.

(** A cursor is checkpointed. *)
Lemma sure_store t f w : token_of t ≠ "" → listing (Some t) w → (∀ w', listing (Some t) w' → truthful (store_cursor (cursor_of t) w') → truly f ends w') →
  truly (do _ := checkpoint (cursor_of t) in f) ends w.
Proof using HL.
  intros Hne Hw Hf. eapply (sure_do _ _ _ (listing (Some t)) _ _ (λ _, listing (Some t))); [apply stable_listing|by intros ? []|by intros e ? [? _]| |].
  - apply sure_checkpoint; [apply k_change_preorder|apply stable_listing|by intros ? []|apply stable_listing|done|done|].
    intros s Hs. by apply listing_stored, stable_listing.
  - intros _ v Hv _. apply Hf; [done|]. by apply listing_stored.
Qed.

Lemma ends_with t w : token_of t ≠ "" → listing (Some t) w → truly (ARet (Ok (cursor_of t))) ends w.
Proof using HL.
  intros Hne Hw. apply (sure_ret _ _ _ (listing (Some t))); [apply stable_listing|by intros ? []|done|]. intros v Hv. split; [apply Hv|].
  intros cur [= <-]. by apply listing_stored.
Qed.

Lemma next_page page : el_NextPageToken page ≠ "" → next_of page = CalPage (el_NextPageToken page).
Proof using Type. intros Hne. unfold next_of. by rewrite (proj2 (String.eqb_neq _ _) Hne). Qed.

Lemma cal_backfill fuel q t w : params_of q = mkListParams t "" listPageSize → (left q < fuel)%nat → listing q w →
  truly (gcal_backfill sha256 fuel tenant conf t) ends w.
Proof using HL room.
  revert q t w. induction fuel as [|fuel IH]; intros q t w Hq Hf Hw; [lia|]. cbn [gcal_backfill]. rewrite <- Hq.
  apply (cal_page q (λ e, e)); [done|]. intros page v Ht Hnx Hleft. destruct (String.eqb_spec (el_NextPageToken page) "") as [E|Hne].
  - unfold next_of in Hnx. rewrite E in Hnx. cbn in Hnx. cbn [negb]. destruct (String.eqb_spec (el_NextSyncToken page) "") as [_|Hs]; [by apply ends_fail|].
    apply (sure_store (CalSync (el_NextSyncToken page))); [done|by apply Hnx|]. intros v' Hv' _. by apply (ends_with (CalSync _)).
  - rewrite next_page in Hnx, Hleft by done. apply (sure_store (CalPage (el_NextPageToken page))); [done|by apply Hnx|]. intros v' Hv' _.
    apply (IH (Some (CalPage (el_NextPageToken page)))); [done| |done]. specialize (Hleft Hne). lia.
Qed.

Lemma cal_replay fuel q tok pt w : params_of q = (if negb (String.eqb pt "") then mkListParams pt "" listPageSize else mkListParams "" tok listPageSize) →
  (left q < fuel)%nat → listing q w → truly (replaySync sha256 fuel tenant conf tok pt) ends w.
Proof using HL room.
  revert q pt w. induction fuel as [|fuel IH]; intros q pt w Hq Hf Hw; [lia|]. cbn [replaySync]. rewrite <- Hq.
  apply (cal_page q replay_failed); [done|]. intros page v Ht Hnx Hleft. destruct (String.eqb_spec (el_NextPageToken page) "") as [E|Hne].
  - unfold next_of in Hnx. rewrite E in Hnx. cbn in Hnx. cbn [negb]. destruct (String.eqb_spec (el_NextSyncToken page) "") as [_|Hs]; [by apply ends_fail|].
    apply (ends_with (CalSync _)); [done|by apply Hnx].
  - rewrite next_page in Hnx, Hleft by done. cbn [negb]. apply (IH (Some (CalPage (el_NextPageToken page)))).
    + by rewrite (proj2 (String.eqb_neq _ _) Hne).
    + specialize (Hleft Hne). lia.
    + by apply Hnx.
Qed.
End truth.

(** What the hub runs: a full sync where there is no cursor. *)
Definition gcal_pass `{!Casing, !HtmlEntities, !Deps, !Quoting, !URLs, !CalJson} (sha256 : bytes → bytes) (fuel : nat) (cfg : Config) (cur : string) :
    api CalReq (result ConnErr string) :=
  if String.eqb cur "" then gcal_FullSync sha256 fuel cfg else gcal_IncrementalSync sha256 fuel cfg cur.


(** ** A calendar with two states

    First two live events a and b, then a has a new summary and b is
    cancelled.  A full listing has two pages and leaves cancelled
    events out. *)
#[local] Instance duo_casing : Casing := {| ToLower s := s; ToUpper s := s |}.
#[local] Instance duo_html : HtmlEntities := {| UnescapeString s := s |}.
#[local] Instance duo_quoting : Quoting := {| Quote s := s |}.
#[local] Instance duo_urls : URLs := {| url_Parse _ := Some ("https", "h") |}.
#[local] Instance duo_deps : Deps :=
  {| uuid_Parse s := Some s; ts_CheckValid _ := true; ts_AsTime _ := 0; ts_New _ := mkTimestamp 0 0 |}.

Definition duo_event (id status summary : string) : calEvent :=
  mkCalEvent id status "" summary "" "" "" "" "" None None None [].
Definition duo_a (s : bool) : calEvent := duo_event "a" "confirmed" (if s then "moved" else "tea").
Definition duo_b (s : bool) : calEvent := duo_event "b" (if s then "cancelled" else "confirmed") "b".
Definition duo_events (s : bool) : gmap string calEvent := <["a" := duo_a s]> {["b" := duo_b s]}.

(** A body names the request and the state. *)
#[local] Instance duo_json : CalJson := {|
  cal_config _ := Ok ("", "");
  cal_events body :=
    match body with
    | [c; st] =>
      let s := Ascii.eqb st "1" in
      if Ascii.eqb c "f" then Ok (mkEventsList [Some (duo_a s)] "p" "")
      else if Ascii.eqb c "p" then Ok (mkEventsList (if s then [] else [Some (duo_b s)]) "" "0")
      else if Ascii.eqb c "0" then Ok (if s then mkEventsList [Some (duo_a s); Some (duo_b s)] "" "1" else mkEventsList [] "" "0")
      else Ok (mkEventsList [] "" "1")
    | _ => Err "unexpected end of JSON input"
    end |}.

Definition duo_conf : calConfig := mkCalConfig gcal_defaultBaseURL "primary".
Definition duo_requests : list (option cal_cursorState * ascii) :=
  [(None, "f"%char); (Some (CalPage "p"), "p"%char); (Some (CalSync "0"), "0"%char); (Some (CalSync "1"), "1"%char)].

Definition duo_answer X (q : CalReq X) (_ : Inp) (s : bool) : X :=
  match q with
  | CalGet url =>
    match List.find (λ r, String.eqb url (list_url duo_conf (params_of r.1))) duo_requests with
    | Some (_, c) => Answered 200 (Ok [c; if s then "1"%char else "0"%char])
    | None => Answered 410 (Ok [])
    end
  | CalCtx => Ok tt
  | CalNow => 0
  end.

#[local] Instance duo_calendar : Calendar bool := {|
  k_answer := duo_answer;
  k_change s s' := s = true → s' = true;
  events := duo_events;
  issued s t := t = CalPage "p" ∨ t = CalSync "0" ∨ (t = CalSync "1" ∧ s = true);
  due s q :=
    match q with
    | None => if s then {["a"]} else {["a"; "b"]}
    | Some (CalPage _) => if s then {["a"; "b"]} else {["b"]}
    | Some (CalSync t) => if s && String.eqb t "0" then {["a"; "b"]} else ∅
    end;
  left q := match q with None => 1%nat | _ => 0%nat end
|}.

Lemma duo_events_some s i ev : duo_events s !! i = Some ev → i = "a" ∧ ev = duo_a s ∨ i = "b" ∧ ev = duo_b s.
Proof. unfold duo_events. intros [[<- <-]|[_ [<- <-]%lookup_singleton_Some]]%lookup_insert_Some; auto. Qed.

Lemma duo_page q s i page : (∀ t, q = Some t → issued s t) → list_answer (duo_answer _ (CalGet (list_url duo_conf (params_of q))) i s) = Ok page →
  page = match q with
         | None => mkEventsList [Some (duo_a s)] "p" ""
         | Some (CalPage _) => mkEventsList (if s then [] else [Some (duo_b s)]) "" "0"
         | Some (CalSync t) => if String.eqb t "1" then mkEventsList [] "" "1"
                               else if s then mkEventsList [Some (duo_a s); Some (duo_b s)] "" "1" else mkEventsList [] "" "0"
         end.
Proof.
  intros Hi Hp. destruct q as [t|]; [|destruct s; vm_compute in Hp; by injection Hp as <-].
  destruct (Hi t eq_refl) as [->|[->|[-> ->]]]; try destruct s; vm_compute in Hp; by injection Hp as <-.
Qed.

#[local] Instance duo_laws : CalendarLaws bool duo_conf.
Proof.
  split.
  - split; [by intros s Hs|]. intros s1 s2 s3 H12 H23 Hs. by apply H23, H12.
  - intros s i ev [[-> ->]|[-> ->]]%duo_events_some; done.
  - intros s s' t Hc [->|[->|[-> ->]]]; cbn; auto.
  - intros [|] [|] t i Hc Hi; try done; [by discriminate (Hc eq_refl)|]. destruct Hi as [->|[->|[-> ?]]]; cbn; [set_solver..|done].
  - intros [|] [|] t i Hc Hi; try (by left); [by discriminate (Hc eq_refl)|].
    destruct (decide (i ∈ ({["a"; "b"]} : gset string))) as [Hin|Hout].
    + right. by destruct Hi as [->|[->|[-> ?]]].
    + left. cbn. unfold duo_events. rewrite !lookup_insert_ne, !lookup_singleton_ne by set_solver. done.
  - intros s i ev [[-> ->]|[-> ->]]%duo_events_some Hc; destruct s; cbn; [set_solver..|done|set_solver].
  - intros i s q page Hi Hp. apply duo_page in Hp; [|done]. subst page. destruct q as [[t|t]|]; cbn.
    + destruct (Hi _ eq_refl) as [?|[[= ->]|[[= ->] ->]]]; [done| |]; try destruct s; cbn; split_and!; try done; try (by auto).
      * intros ev Hin _. rewrite !elem_of_cons in Hin. destruct Hin as [[= ->]|[[= ->]|[]%not_elem_of_nil]]; reflexivity.
      * intros j Hj. left. apply elem_of_union in Hj as [->%elem_of_singleton| ->%elem_of_singleton];
          [exists (duo_a true)|exists (duo_b true)]; (split; [rewrite !elem_of_cons; auto|done]).
      * by intros ev ?%not_elem_of_nil.
      * by intros ev ?%not_elem_of_nil.
    + destruct (Hi _ eq_refl) as [[= ->]|[?|[? _]]]; [|done|done]. split_and!; [|auto| |done].
      * intros ev Hin _. destruct s; [by apply not_elem_of_nil in Hin|]. by apply list_elem_of_singleton in Hin as [= ->].
      * intros j Hj. destruct s; [by right|left]. apply elem_of_singleton in Hj as ->. eexists. split; [by left|done].
    + split_and!; [|auto| |lia].
      * intros ev Hin _. apply list_elem_of_singleton in Hin as [= ->]. by destruct s.
      * intros j Hj. destruct s; [right; set_solver|]. apply elem_of_union in Hj as [->%elem_of_singleton|Hj]; [left|by right].
        eexists. split; [by left|done].
Qed.

Lemma duo_room s i ev : events s !! i = Some ev → room_for_cuts (ce_Description ev).
Proof. intros _. apply room_not_longer. cbn. lia. Qed.

Definition duo_cfg : Config := mkSdkConfig (mkContext "t1" "t1") "i1" "{}" None.
Definition duo_inp : Inp := mkInp None None (mkEnv (λ _, 0) (λ _, 0) "").
Definition duo_start : Synced bool := mkSynced false ∅ "".

(** A first sync while the calendar changes after its first page, and the sync
    that goes on from it. *)
Definition duo_first : Synced bool := (play k_answer duo_inp [false; false; true] (gcal_pass id 2 duo_cfg "") duo_start).2.
Definition duo_second : Synced bool := (play k_answer duo_inp [] (gcal_pass id 2 duo_cfg "sync:0") duo_first).2.


(** ** What goes wrong *)

(** After an expired cursor the full sync upserts what is live: an event
    cancelled in the gap stays in the index. *)
Example gcal_resync_keeps_cancelled :
  match live_event id "t1" "primary" (duo_b false) with
  | Some d =>
    let '(m, w) := play k_answer duo_inp [] (gcal_pass id 2 duo_cfg "") (mkSynced true {["primary:b" := d]} "") in
    m = ARet (Ok "sync:0") ∧ sy_index w !! "primary:b" = Some d ∧ is_deleted d = false ∧ cancelled (duo_b (sy_source w)) = true
  | None => False
  end.
Proof. vm_compute. tauto. Qed.

(** A description that panics the connector. *)
Lemma gcal_html_panics `{!Casing, !HtmlEntities, !Deps} sha256 tenant calendarID id : ToLower wide_text = wide_lower →
  live_event sha256 tenant calendarID (mkCalEvent id "" "" "" wide_text "" "" "" "" None None None []) = None.
Proof.
  intros Hl. unfold live_event, gcal_eventBody. cbn [ce_Description]. unfold gcal_stripHTML.
  replace (ContainsAny wide_text "<&") with true by (vm_compute; reflexivity). by rewrite stripHTML_panics.
Qed.
