(* ===== verification/GoLayout.v ===== *)
(** * [time.Parse] with a layout

    The elements of a reference time the connectors' layouts are made of, and
    parsing by them; a time without a zone is in UTC. *)

From stdpp Require Import base strings list.
From Stdlib Require Import Ascii ZArith Lia.
From S2P Require Import Prelude GoStrings GoText GoTime GoDate.

Open Scope Z_scope.

Inductive chunk :=
| stdLongYear | stdYear | stdZeroMonth | stdNumMonth | stdZeroDay | stdDay | stdHour | stdHour12 | stdZeroMinute | stdZeroSecond | stdPM
| literal (a : ascii).

(** The elements by their text, the longer ones of the same start first. *)
Definition chunk_texts : list (string * chunk) :=
  [("2006", stdLongYear); ("01", stdZeroMonth); ("02", stdZeroDay); ("04", stdZeroMinute); ("05", stdZeroSecond); ("06", stdYear);
   ("15", stdHour); ("1", stdNumMonth); ("2", stdDay); ("3", stdHour12); ("PM", stdPM)].

(** [skip] bytes belong to the last element. *)
Fixpoint chunks_from (skip : nat) (l : bytes) : list chunk :=
  match l with
  | [] => []
  | a :: l' =>
    match skip with
    | S k => chunks_from k l'
    | O =>
      match List.find (λ t, is_prefix (to_bytes t.1) l) chunk_texts with
      | Some (text, c) => c :: chunks_from (String.length text - 1) l'
      | None => literal a :: chunks_from 0 l'
      end
    end
  end.

Definition chunks (layout : string) : list chunk := chunks_from 0 (to_bytes layout).

Example chunks_layout : chunks "1/2/06, 15:04" =
  [stdNumMonth; literal "/"; stdDay; literal "/"; stdYear; literal ","; literal " "; stdHour; literal ":"; stdZeroMinute].
Proof. reflexivity. Qed.

(** What has been read; the half of the day as AM ([false]) or PM. *)
Record clock := mkClock { ck_year : Z; ck_month : Z; ck_day : Z; ck_hour : Z; ck_min : Z; ck_sec : Z; ck_ns : Z; ck_pm : option bool }.
Definition clock_zero : clock := mkClock 0 1 1 0 0 0 0 None.

Fixpoint cutspace (l : bytes) : bytes := match l with a :: l' => if Ascii.eqb a " " then cutspace l' else l | [] => [] end.

(** One byte of the text between the elements; spaces stand for any run of
    them. *)
Definition skip_literal (a : ascii) (l : bytes) : option bytes :=
  if Ascii.eqb a " " then match l with b :: _ => if Ascii.eqb b " " then Some (cutspace l) else None | [] => Some [] end
  else expect a l.

Definition read_chunk (c : chunk) (t : clock) (l : bytes) : option (clock * bytes) :=
  let '(mkClock y mo d h mi s ns pm) := t in
  match c with
  | stdLongYear => '(y, l) ← get_year l; Some (mkClock y mo d h mi s ns pm, l)
  | stdYear =>
    '(n, l) ← getnum true l; Some (mkClock (if 69 <=? n then n + 1900 else n + 2000) mo d h mi s ns pm, l)
  | stdZeroMonth => '(n, l) ← getnum true l; _ ← in_range 1 12 n; Some (mkClock y n d h mi s ns pm, l)
  | stdNumMonth => '(n, l) ← getnum false l; _ ← in_range 1 12 n; Some (mkClock y n d h mi s ns pm, l)
  | stdZeroDay => '(n, l) ← getnum true l; Some (mkClock y mo n h mi s ns pm, l)
  | stdDay => '(n, l) ← getnum false l; Some (mkClock y mo n h mi s ns pm, l)
  | stdHour => '(n, l) ← getnum false l; _ ← in_range 0 23 n; Some (mkClock y mo d n mi s ns pm, l)
  | stdHour12 => '(n, l) ← getnum false l; _ ← in_range 0 12 n; Some (mkClock y mo d n mi s ns pm, l)
  | stdZeroMinute => '(n, l) ← getnum true l; _ ← in_range 0 59 n; Some (mkClock y mo d h n s ns pm, l)
  | stdZeroSecond => '(n, l) ← getnum true l; _ ← in_range 0 59 n; Some (mkClock y mo d h mi n (fraction_ns l) pm, skip_fraction l)
  | stdPM =>
    match l with
    | a :: b :: l' =>
      if Ascii.eqb a "P" && Ascii.eqb b "M" then Some (mkClock y mo d h mi s ns (Some true), l')
      else if Ascii.eqb a "A" && Ascii.eqb b "M" then Some (mkClock y mo d h mi s ns (Some false), l')
      else None
    | _ => None
    end
  | literal a => l ← skip_literal a l; Some (t, l)
  end.

(** Adjacent spaces of a layout are one, as the first takes them all. *)
Fixpoint read_chunks (cs : list chunk) (t : clock) (l : bytes) : option clock :=
  match cs with
  | [] => match l with [] => Some t | _ => None end
  | c :: cs' => '(t, l) ← read_chunk c t l; read_chunks cs' t l
  end.

Definition clock_instant (t : clock) : option Z :=
  let hour :=
    match ck_pm t with
    | Some true => if ck_hour t <? 12 then ck_hour t + 12 else ck_hour t
    | Some false => if ck_hour t =? 12 then 0 else ck_hour t
    | None => ck_hour t
    end in
  _ ← in_range 1 (daysIn (ck_month t) (ck_year t)) (ck_day t);
  Some ((unix_days (ck_year t) (ck_month t) (ck_day t) * 86400 + hour * 3600 + ck_min t * 60 + ck_sec t) * nsec + ck_ns t).

Definition layout_Parse (layout s : string) : option Z := t ← read_chunks (chunks layout) clock_zero (to_bytes s); clock_instant t.

Example noon_parses : layout_Parse "1/2/06, 3:04 PM" "3/15/24, 12:42 PM" = time_Parse RFC3339 "2024-03-15T12:42:00Z".
Proof. reflexivity. Qed.
Example midnight_parses : layout_Parse "2006-01-02, 3:04:05 PM" "2024-03-15, 12:42:13 AM" = time_Parse RFC3339 "2024-03-15T00:42:13Z".
Proof. reflexivity. Qed.
Example no_such_day : layout_Parse "1/2/06, 15:04" "2/30/24, 09:42" = None.
Proof. reflexivity. Qed.
