(* ===== verification/WhatsApp.v ===== *)
(** * The WhatsApp export connector

    Models [connectors/whatsapp-export]: the parser of exported chats
    (parser.go), messages as documents (document.go), cursors (cursor.go),
    configuration, the download and the syncs (whatsapp.go).  The HTTP exchange
    is a request; JSON and URL parsing are parameters. *)

From stdpp Require Import base gmap strings list pretty.
From Stdlib Require Import Ascii ZArith Lia.
From S2P Require Import Prelude GoStrings Tenancy Crypto Blob ControlPlane Document Kafka GoTime HubSync GoText GoEncode GoDate ConnectorRun GoLayout.

Open Scope Z_scope.

Definition whatsappID : string := "whatsapp-export".
Definition maxExportBytes : Z := 64 * 2 ^ 20.
Definition systemSender : string := "system".
Definition wa_titleMaxRunes : nat := 60.
Definition NL : string := String "010" "".
Definition NUL : string := String "000" "".

(** ** parser.go *)

(** [sentAt] only of messages with a time: every message has one. *)
Record wa_message := mkWa {
  wm_sender : string; wm_text : string; wm_sentAt : Z; wm_rawSentAt : string; wm_lineIndex : nat; wm_occurrence : nat;
  wm_system : bool; wm_format : string
}.

Definition bracketTimeLayouts : list string :=
  ["2006-01-02, 3:04:05 PM"; "2006-01-02, 15:04:05"; "2006-01-02, 3:04 PM"; "2006-01-02, 15:04"; "1/2/06, 3:04:05 PM"; "1/2/06, 15:04:05";
   "1/2/06, 3:04 PM"; "1/2/06, 15:04"; "1/2/2006, 3:04:05 PM"; "1/2/2006, 15:04:05"; "1/2/2006, 3:04 PM"; "1/2/2006, 15:04";
   "02/01/2006, 3:04:05 PM"; "02/01/2006, 15:04:05"].

Definition dashTimeLayouts : list string :=
  ["1/2/06, 3:04 PM"; "1/2/06, 15:04"; "1/2/06, 3:04:05 PM"; "1/2/06, 15:04:05"; "1/2/2006, 3:04 PM"; "1/2/2006, 15:04"; "2006-01-02, 15:04";
   "2006-01-02, 3:04 PM"; "02/01/2006, 15:04"].

Fixpoint first_of (layouts : list string) (stamp : string) : option Z :=
  match layouts with [] => None | ly :: layouts' => match layout_Parse ly stamp with Some t => Some t | None => first_of layouts' stamp end end.

Definition parseTimestamp (stamp : string) (layouts : list string) : option Z := first_of layouts (Join (Fields stamp) " ").

(** The instant, the raw stamp and the rest of the line. *)
Definition parseBracketHeader (line : string) : option (Z * string * string) :=
  match line with
  | String "[" tail =>
    match IndexByte line "]" with
    | None => None
    | Some end_ =>
      let inner := TrimSpace (take_str (end_ - 1) tail) in
      let rest := TrimSpace (drop_str (end_ + 1) line) in
      (λ t, (t, inner, rest)) <$> parseTimestamp inner bracketTimeLayouts
    end
  | _ => None
  end.

Definition parseDashHeader (line : string) : option (Z * string * string) :=
  match Index line " - " with
  | None => None
  | Some sep =>
    let stamp := TrimSpace (take_str sep line) in
    let rest := TrimSpace (drop_str (sep + 3) line) in
    (λ t, (t, stamp, rest)) <$> parseTimestamp stamp dashTimeLayouts
  end.

Definition parseHeader (line : string) : option (Z * string * string * string) :=
  match parseBracketHeader line with
  | Some (t, raw, rest) => Some (t, raw, rest, "bracket")
  | None => match parseDashHeader line with Some (t, raw, rest) => Some (t, raw, rest, "dash") | None => None end
  end.

(** The sender, the text and whether it is a system line. *)
Definition splitSenderText (rest : string) : string * string * bool :=
  match Index rest ": " with
  | None => ("", TrimSpace rest, true)
  | Some idx =>
    let sender := TrimSpace (take_str idx rest) in
    if String.eqb sender "" then ("", TrimSpace rest, true) else (sender, drop_str (idx + 2) rest, false)
  end.

Definition dirMarks : list Z := [0x200E; 0x200F; 0x2066; 0x2067; 0x2068; 0x2069].

Definition stripDirMarks (s : string) : string :=
  let is_mark r := existsb (Z.eqb r) dirMarks in
  if existsb (λ r, is_mark r.1) (runes s)
  then of_bytes (flat_map (λ r, if is_mark r.1 then [] else EncodeRune r.1) (runes s)) else s.

Definition set_text (m : wa_message) (text : string) : wa_message :=
  mkWa (wm_sender m) text (wm_sentAt m) (wm_rawSentAt m) (wm_lineIndex m) (wm_occurrence m) (wm_system m) (wm_format m).
Definition set_occurrence (m : wa_message) (n : nat) : wa_message :=
  mkWa (wm_sender m) (wm_text m) (wm_sentAt m) (wm_rawSentAt m) (wm_lineIndex m) n (wm_system m) (wm_format m).

(** A line goes on with the message before it. *)
Definition continue (raw : string) (m : wa_message) : wa_message :=
  set_text m (if String.eqb (wm_text m) "" then raw else wm_text m +:+ NL +:+ raw).

(** The messages so far, the newest first. *)
Definition read_line (msgs : list wa_message) (raw : string) : list wa_message :=
  match parseHeader (stripDirMarks raw) with
  | None => match msgs with [] => [] | cur :: before => continue raw cur :: before end
  | Some (t, stamp, rest, format) =>
    let '(sender, text, isSystem) := splitSenderText rest in
    mkWa sender text t stamp (length msgs) 0 isSystem format :: msgs
  end.

Definition identityKey (m : wa_message) : string :=
  ToValidUTF8 (wm_sender m) +:+ NUL +:+ wm_rawSentAt m +:+ NUL +:+ ToValidUTF8 (wm_text m).

Fixpoint assign_from (seen : gmap string nat) (msgs : list wa_message) : list wa_message :=
  match msgs with
  | [] => []
  | m :: msgs' =>
    let n := default 0%nat (seen !! identityKey m) in
    set_occurrence m n :: assign_from (<[identityKey m := S n]> seen) msgs'
  end.

Definition assignOccurrences (msgs : list wa_message) : list wa_message := assign_from ∅ msgs.

Definition export_lines (body : string) : list string :=
  let body := ReplaceAll (ReplaceAll body (String "013" NL) NL) (String "013" "") NL in
  let body := match CutSuffix body NL with Some b => b | None => body end in
  Split body "010".

Definition parseExport (body : string) : list wa_message := assignOccurrences (rev (foldl read_line [] (export_lines body))).

Section whatsapp.
Context (sha256 : bytes → bytes).

(** ** document.go *)
Definition wa_nativeID (chatName rawSentAt sender text : string) (occurrence : nat) : string :=
  let id := EncodeToString (sha256 (to_bytes (chatName +:+ "|" +:+ rawSentAt +:+ "|" +:+ sender +:+ "|" +:+ text))) in
  if (0 <? occurrence)%nat then id +:+ ":" +:+ pretty occurrence else id.

Definition messageEtag (m : wa_message) : string :=
  EncodeToString (sha256 (to_bytes (wm_sender m +:+ NUL +:+ wm_rawSentAt m +:+ NUL +:+ wm_text m))).

Definition wa_title (chatName text : string) : string :=
  let t := TrimSpace (ReplaceAll text NL " ") in
  if String.eqb t "" then if String.eqb chatName "" then "message" else chatName +:+ " message"
  else if (length (runes t) <=? wa_titleMaxRunes)%nat then t
  else TrimSpace (of_bytes (concat (take wa_titleMaxRunes (runes t)).*2)).

Definition wa_participants (sender : string) (system : bool) : list Participant :=
  if system || String.eqb sender "" then [] else [mkParticipant sender "" sender "sender"].

Definition wa_metadata (chatName sender : string) (m : wa_message) : gmap string string :=
  let md := {["line_index" := pretty (wm_lineIndex m)]} in
  let md := if String.eqb chatName "" then md else <["chat_name" := chatName]> md in
  let md := if wm_system m then <["sender" := systemSender]> md else if String.eqb sender "" then md else <["sender" := sender]> md in
  let md := if String.eqb (wm_rawSentAt m) "" then md else <["sent_at" := ToValidUTF8 (wm_rawSentAt m)]> md in
  if String.eqb (wm_format m) "" then md else <["msg_format" := wm_format m]> md.

Definition message_native (chatName : string) (m : wa_message) : string :=
  wa_nativeID chatName (wm_rawSentAt m) (ToValidUTF8 (wm_sender m)) (ToValidUTF8 (wm_text m)) (wm_occurrence m).

Context `{!Deps, !Quoting, !URLs}.

Definition toDocument (tenant chatName : string) (m : wa_message) : Document :=
  let text := ToValidUTF8 (wm_text m) in
  let sender := ToValidUTF8 (wm_sender m) in
  let native := message_native chatName m in
  mkDoc tenant (DocID sha256 whatsappID native) whatsappID native CHAT_MESSAGE (wa_title chatName text) text [] (wa_metadata chatName sender m)
    (wa_participants sender (wm_system m)) (Some (mkTimestamps (Some (ts_New (wm_sentAt m))) None None)) None None (messageEtag m) None None.

(** ** cursor.go *)
Definition prefix_hash (msgs : list wa_message) : string :=
  EncodeToString (sha256 (to_bytes (String.concat "" ((λ m, messageEtag m +:+ NL) <$> msgs)))).

Definition wa_makeCursor (msgs : list wa_message) (n : nat) : string :=
  let n := Nat.min n (length msgs) in pretty n +:+ ":" +:+ prefix_hash (take n msgs).

Record parsedCursor := mkParsed { pc_count : Z; pc_prefixHash : string }.

Definition wa_parseCursor (s : string) : result string parsedCursor :=
  if String.eqb s "" then Ok (mkParsed 0 "")
  else match IndexByte s ":" with
  | None => Err ("whatsapp-export: cursor " +:+ Quote s +:+ " is not " +:+ String "034" ("<count>:<hash>" +:+ String "034" ""))
  | Some idx =>
    match ParseInt (take_str idx s) with
    | None => Err ("whatsapp-export: cursor " +:+ Quote s +:+ " has a bad count")
    | Some n =>
      if n <? 0 then Err ("whatsapp-export: cursor " +:+ Quote s +:+ " has a bad count")
      else
        let hash := drop_str (idx + 1) s in
        if negb (String.length hash =? 64)%nat then Err ("whatsapp-export: cursor " +:+ Quote s +:+ " has a bad prefix hash")
        else Ok (mkParsed n hash)
    end
  end.

Definition prefixHashOf (msgs : list wa_message) (n : nat) : string :=
  let s := wa_makeCursor msgs n in match IndexByte s ":" with Some idx => drop_str (idx + 1) s | None => "" end.
End whatsapp.

(** ** whatsapp.go *)
Inductive WaReq : Type → Type :=
| ExportGet (url : string) : WaReq HttpAnswer
| WaCtx : WaReq (result GoErr unit).

(** [json.Unmarshal] of a configuration: export_url, chat_name, base_url. *)
Class WaJson := { wa_config_json : string → result string (string * string * string) }.

Record wa_config := mkWaConfig { wc_ExportURL : string; wc_ChatName : string; wc_BaseURL : string }.

Definition exportURL (ic : wa_config) : string :=
  let u := TrimSpace (wc_ExportURL ic) in if String.eqb u "" then TrimSpace (wc_BaseURL ic) else u.

Section sync.
Context `{!Deps, !Quoting, !URLs, !WaJson} (sha256 : bytes → bytes).

Definition wa_parseConfig (raw : string) : result string wa_config :=
  match (if String.eqb raw "" then Ok ("", "", "") else wa_config_json raw) with
  | Err e => Err ("whatsapp-export: config is not valid JSON: " +:+ e)
  | Ok (exportU, chatName, baseU) =>
    let ic := mkWaConfig exportU (TrimSpace chatName) baseU in
    let u := exportURL ic in
    let bad := Err ("whatsapp-export: config field export_url " +:+ Quote u +:+ " is not a valid http(s) URL") in
    if String.eqb u "" then Ok ic
    else match url_Parse u with
    | None => bad
    | Some (scheme, host) =>
      if String.eqb host "" || (negb (String.eqb scheme "http") && negb (String.eqb scheme "https")) then bad else Ok ic
    end
  end.

Abbreviation wa A := (api WaReq A).
Open Scope api_scope.

Definition wa_fail {A} (msg : string) : wa (result ConnErr A) := ARet (Err (mkConnErr false msg)).
Definition wa_expired {A} (msg : string) : wa (result ConnErr A) := ARet (Err (mkConnErr true (msg +:+ ": sdk: sync cursor expired at the source"))).

Definition wa_Validate (cfg : Config) : wa (result ConnErr unit) :=
  match wa_parseConfig (c_config_json cfg) with Err e => wa_fail e | Ok _ => ARet (Ok tt) end.

Definition wa_config_of (cfg : Config) : wa (result ConnErr wa_config) :=
  match wa_parseConfig (c_config_json cfg) with Err e => wa_fail e | Ok ic => ARet (Ok ic) end.

Definition export_answer (r : HttpAnswer) : result ConnErr string :=
  match r with
  | BadRequest e => Err (mkConnErr false ("whatsapp-export: build export request: " +:+ e))
  | NoAnswer e => Err (mkConnErr false ("whatsapp-export: fetch export: " +:+ e))
  | Answered status body =>
    match body with
    | Err e => Err (mkConnErr false ("whatsapp-export: read export: " +:+ e))
    | Ok body =>
      if (status <? 200) || (300 <=? status) then Err (mkConnErr false ("whatsapp-export: export URL returned status " +:+ pretty status))
      else Ok (of_bytes (limited maxExportBytes body))
    end
  end.

Definition fetchExport (url : string) : wa (result ConnErr string) :=
  if String.eqb url "" then wa_fail "whatsapp-export: no export_url configured"
  else ask r := ExportGet url in ARet (export_answer r).

Definition wa_ctx : wa (result ConnErr unit) := ask r := WaCtx in ARet (passed r).

(** [emitRange]: the messages from [from] on. *)
Fixpoint emitRange (tenant chatName : string) (msgs : list wa_message) : wa (result ConnErr unit) :=
  match msgs with
  | [] => ARet (Ok tt)
  | m :: msgs' => do _ := wa_ctx in do _ := emit (toDocument sha256 tenant chatName m) in emitRange tenant chatName msgs'
  end.

Definition wa_FullSync (cfg : Config) : wa (result ConnErr string) :=
  do ic := wa_config_of cfg in
  do body := fetchExport (exportURL ic) in
  let msgs := parseExport body in
  do _ := emitRange (tenantID (c_tenant cfg)) (wc_ChatName ic) msgs in
  do _ := checkpoint (wa_makeCursor sha256 msgs (length msgs)) in
  ARet (Ok (wa_makeCursor sha256 msgs (length msgs))).

Definition wa_IncrementalSync (cfg : Config) (cur : string) : wa (result ConnErr string) :=
  do ic := wa_config_of cfg in
  match wa_parseCursor cur with
  | Err e => wa_expired e
  | Ok pc =>
    do body := fetchExport (exportURL ic) in
    let msgs := parseExport body in
    let count := Z.to_nat (pc_count pc) in
    if Z.of_nat (length msgs) <? pc_count pc
    then wa_expired ("whatsapp-export: export shrank from " +:+ pretty (pc_count pc) +:+ " to " +:+ pretty (length msgs) +:+ " messages")
    else if (0 <? pc_count pc) && negb (String.eqb (prefixHashOf sha256 msgs count) (pc_prefixHash pc))
    then wa_expired "whatsapp-export: export prefix changed since the last sync"
    else if Z.of_nat (length msgs) =? pc_count pc then ARet (Ok cur)
    else
      do _ := emitRange (tenantID (c_tenant cfg)) (wc_ChatName ic) (drop count msgs) in
      ARet (Ok (wa_makeCursor sha256 msgs (length msgs)))
  end.

Definition wa_connector (o : Oracle WaReq) : Connector :=
  mkConnector (λ cfg, resolve o 0 (wa_FullSync cfg)) (λ cfg cur, resolve o 0 (wa_IncrementalSync cfg cur)).
End sync.

(** * The WhatsApp export connector: proofs

    A pass that completes has every message of the export it read in the index,
    under an id that does not depend on its position.  The last part shows what
    the ids and the re-import do not achieve. *)

(** ** Occurrences *)
Definition message_key (m : wa_message) : string * string * string := (wm_sender m, wm_rawSentAt m, wm_text m).

(** What an id depends on. *)
Definition id_key (m : wa_message) : string * string * string * nat := (message_key m, wm_occurrence m).

Lemma identity_of_key m m' : message_key m = message_key m' → identityKey m = identityKey m'.
Proof. unfold message_key, identityKey. intros [= -> -> ->]. done. Qed.

Lemma take_assign n seen l : take n (assign_from seen l) = assign_from seen (take n l).
Proof. revert seen l. induction n as [|n IH]; intros seen [|m l]; cbn; [done..|]. by rewrite IH. Qed.

Lemma length_assign seen l : length (assign_from seen l) = length l.
Proof. revert seen. induction l as [|m l IH]; intros seen; cbn; [done|]. by rewrite IH. Qed.

Lemma assign_keys seen l : message_key <$> assign_from seen l = message_key <$> l.
Proof. revert seen. induction l as [|m l IH]; intros seen; cbn; [done|]. by rewrite IH. Qed.

(** Equal texts in equal order have equal occurrences. *)
Lemma assign_id_keys seen l l' : message_key <$> l = message_key <$> l' → id_key <$> assign_from seen l = id_key <$> assign_from seen l'.
Proof.
  revert seen l'. induction l as [|m l IH]; intros seen [|m' l']; cbn; [done..|]. intros [= Es Er Et El].
  assert (Ek : message_key m = message_key m') by (unfold message_key; congruence). rewrite (identity_of_key _ _ Ek).
  unfold id_key at 1 3. unfold message_key at 1 2. cbn. rewrite Es, Er, Et. by rewrite (IH _ l').
Qed.

(** The occurrence of a message counts the earlier ones that are the same: what
    comes between without being the same does not matter. *)
Lemma assign_counts seen l : assign_from seen l =
  imap (λ i m, set_occurrence m (default 0 (seen !! identityKey m) + length (List.filter (λ x, String.eqb (identityKey x) (identityKey m)) (take i l)))%nat) l.
Proof.
  revert seen. induction l as [|m l IH]; intros seen; [done|]. cbn [assign_from imap]. f_equal; [cbn; by rewrite Nat.add_0_r|].
  rewrite IH. apply imap_ext. intros i x Hx. cbn [compose take List.filter]. f_equal.
  destruct (String.eqb_spec (identityKey m) (identityKey x)) as [->|Hne].
  - rewrite lookup_insert_eq. cbn. lia.
  - by rewrite lookup_insert_ne.
Qed.

(** So the id of a message does not depend on its position: [a] may change in
    any way that keeps the number of messages equal to it. *)
Lemma occurrence_of a m b : assignOccurrences (a ++ m :: b) !! length a =
  Some (set_occurrence m (length (List.filter (λ x, String.eqb (identityKey x) (identityKey m)) a))).
Proof.
  unfold assignOccurrences. rewrite assign_counts, list_lookup_imap, lookup_app_r, Nat.sub_diag by done. cbn. by rewrite lookup_empty, take_app_length.
Qed.

Definition exported (msgs : list wa_message) : Prop := ∃ body, msgs = parseExport body.

Lemma exported_prefix n msgs msgs' : exported msgs → exported msgs' → message_key <$> take n msgs = message_key <$> msgs' →
  id_key <$> take n msgs = id_key <$> msgs'.
Proof.
  intros [b ->] [b' ->]. unfold parseExport, assignOccurrences. rewrite take_assign, !assign_keys. apply assign_id_keys.
Qed.

(** ** The number of messages *)
Lemma length_replace old by_ skip l : (length by_ ≤ 1)%nat → (length (replace_from old by_ skip l) ≤ length l)%nat.
Proof.
  intros Hb. revert skip. induction l as [|a l IH]; intros [|k]; cbn [replace_from]; [done..| |].
  - destruct (is_prefix old (a :: l)); rewrite ?length_app; cbn [length]; [specialize (IH (length old - 1)%nat)|specialize (IH O)]; lia.
  - specialize (IH k). cbn. lia.
Qed.

Lemma length_ReplaceAll t old by_ : (String.length by_ ≤ 1)%nat → (String.length (ReplaceAll t old by_) ≤ String.length t)%nat.
Proof. intros Hb. unfold ReplaceAll. rewrite <- !length_to_bytes, to_of_bytes in *. by apply length_replace. Qed.

Lemma length_split sep cur l : (length (split_bytes sep cur l) ≤ length l + 1)%nat.
Proof. revert cur. induction l as [|a l IH]; intros cur; cbn; [lia|]. destruct (Ascii.eqb a sep); cbn; [specialize (IH [])|specialize (IH (a :: cur))]; lia. Qed.

Lemma length_lines body : (length (export_lines body) ≤ String.length body + 1)%nat.
Proof.
  unfold export_lines. set (t := ReplaceAll (ReplaceAll body _ _) _ _).
  assert (Ht : (String.length t ≤ String.length body)%nat) by (etrans; apply length_ReplaceAll; cbn; lia).
  assert (Hc : ∀ u, CutSuffix t NL = Some u → (String.length u ≤ String.length t)%nat).
  { intros u. unfold CutSuffix. case_match; [|done]. intros [= <-]. rewrite length_take_str. lia. }
  unfold Split. rewrite length_fmap. etrans; [apply length_split|]. rewrite length_to_bytes.
  destruct (CutSuffix t NL) as [u|] eqn:E; [specialize (Hc u eq_refl)|]; lia.
Qed.

Lemma length_read msgs raw : (length (read_line msgs raw) ≤ length msgs + 1)%nat.
Proof.
  unfold read_line. destruct (parseHeader _) as [[[[t stamp] rest] format]|]; [|destruct msgs; cbn; lia].
  destruct (splitSenderText rest) as [[sender text] isSystem]. cbn. lia.
Qed.

Lemma length_export body : (length (parseExport body) ≤ String.length body + 1)%nat.
Proof.
  unfold parseExport, assignOccurrences. rewrite length_assign, length_rev. etrans; [|apply length_lines].
  assert (Hf : ∀ l msgs, (length (foldl read_line msgs l) ≤ length msgs + length l)%nat).
  { intros l. induction l as [|raw l IH]; intros msgs; cbn; [lia|]. etrans; [apply IH|]. pose proof (length_read msgs raw). lia. }
  apply (Hf _ []).
Qed.

(** ** Cursors *)
Section cursors.
Context (sha256 : bytes → bytes) `{!Quoting}.

Lemma pretty_FormatUint (n : nat) : pretty n = FormatUint (Z.of_nat n).
Proof using Type. unfold FormatUint. change (pretty n) with (pretty (N.of_nat n)). f_equal. lia. Qed.

Lemma cursor_index (n : nat) h : IndexByte (pretty n +:+ ":" +:+ h) ":" = Some (String.length (pretty n)).
Proof using Type. rewrite pretty_FormatUint. apply (Index_first ":" _ h). by apply FormatUint_free. Qed.

Lemma cursor_hash (n : nat) h : drop_str (String.length (pretty n) + 1) (pretty n +:+ ":" +:+ h) = h.
Proof using Type. generalize (pretty n). intros s. by induction s. Qed.

Lemma prefixHashOf_take msgs n : (n ≤ length msgs)%nat → prefixHashOf sha256 msgs n = prefix_hash sha256 (take n msgs).
Proof using Type. intros Hn. unfold prefixHashOf, wa_makeCursor. rewrite Nat.min_l by done. by rewrite cursor_index, cursor_hash. Qed.

Lemma length_hex l : String.length (EncodeToString l) = (2 * length l)%nat.
Proof using Type.
  unfold EncodeToString. rewrite <- length_to_bytes, to_of_bytes. set (f := λ a, _).
  induction l as [|a l IH]; [done|]. change (mjoin (f <$> a :: l)) with (f a ++ mjoin (f <$> l)). rewrite length_app, IH. cbn. lia.
Qed.

Lemma parse_makeCursor msgs : (∀ l, length (sha256 l) = 32%nat) → Z.of_nat (length msgs) < 2 ^ 63 →
  wa_parseCursor (wa_makeCursor sha256 msgs (length msgs)) = Ok (mkParsed (Z.of_nat (length msgs)) (prefix_hash sha256 msgs)).
Proof using Type.
  intros Hs Hn. unfold wa_parseCursor, wa_makeCursor. rewrite Nat.min_id, take_ge by done.
  destruct (String.eqb_spec (pretty (length msgs) +:+ ":" +:+ prefix_hash sha256 msgs) "") as [E|_].
  { pose proof (cursor_index (length msgs) (prefix_hash sha256 msgs)) as Hi. by rewrite E in Hi. }
  rewrite cursor_index, take_str_app, cursor_hash, pretty_FormatUint, ParseInt_FormatUint by lia.
  destruct (Z.ltb_spec (Z.of_nat (length msgs)) 0); [lia|]. unfold prefix_hash. by rewrite length_hex, Hs.
Qed.
End cursors.

(** ** Synchronisation *)

(** A server of exports that changes as it likes. *)
Class Exports (S : Type) := { x_answer : ∀ X, WaReq X → Inp → S → X; x_change : S → S → Prop }.

(** A body the server answered with, from [s0] on. *)
Definition served_export {S} `{!Exports S} (s0 : S) (body : string) : Prop :=
  ∃ url i s, x_change s0 s ∧ export_answer (x_answer _ (ExportGet url) i s) = Ok body.

(** A body the connector reads whole. *)
Definition fits (body : string) : Prop := Z.of_nat (String.length body) <= maxExportBytes.

Lemma served_fits {S} `{!Exports S} s0 body : served_export s0 body → fits body.
Proof.
  intros (url & i & s & _ & E). unfold export_answer in E. destruct (x_answer _ _ _ _) as [|?|status [b|]]; try done.
  destruct (_ || _); [done|]. injection E as <-. unfold fits, limited, maxExportBytes. rewrite <- length_to_bytes, to_of_bytes.
  destruct (Z.leb_spec (Z.of_nat (length b)) (64 * 2 ^ 20)); [done|]. rewrite length_take. lia.
Qed.

Section sync.
Context `{!Deps, !Quoting, !URLs, !WaJson} (sha256 : bytes → bytes).
Context {S : Type} {HE : Exports S} {HP : PreOrder x_change} (tenant chat : string).

Abbreviation Index := (gmap string Document).
Abbreviation native := (message_native sha256 chat).
Abbreviation wa_surely m P w := (sure x_answer x_change (λ _, True) m P w).

(** The index has the text of the message, in this version, under its id. *)
Definition held (idx : Index) (m : wa_message) : Prop :=
  ∃ doc, idx !! native m = Some doc ∧ body_text doc = ToValidUTF8 (wm_text m) ∧ version_etag doc = messageEtag sha256 m ∧ is_deleted doc = false.

(** Under the id of every message, that message or another of the export with the
    same id. *)
Definition all_held (msgs : list wa_message) (idx : Index) : Prop :=
  ∀ m, m ∈ msgs → ∃ m', m' ∈ msgs ∧ native m' = native m ∧ held idx m'.

(** The cursor of an export the index has. *)
Definition synced_to (cur : string) (idx : Index) : Prop :=
  ∃ body, fits body ∧ cur = wa_makeCursor sha256 (parseExport body) (length (parseExport body)) ∧ all_held (parseExport body) idx.

Lemma held_key idx m m' : id_key m = id_key m' → held idx m → held idx m'.
Proof using Type.
  intros [= Es Er Et Eo] (doc & Hd & Hb & Hv & Hx). exists doc. unfold message_native, messageEtag in *. rewrite <- Es, <- Er, <- Et, <- Eo. done.
Qed.

Lemma native_key m m' : id_key m = id_key m' → native m = native m'.
Proof using Type. intros [= Es Er Et Eo]. unfold message_native. by rewrite Es, Er, Et, Eo. Qed.

Lemma all_held_keys msgs msgs' idx : id_key <$> msgs = id_key <$> msgs' → all_held msgs' idx → all_held msgs idx.
Proof using Type.
  intros E Hh m Hm. assert (Hk : id_key m ∈ id_key <$> msgs') by (rewrite <- E; by apply list_elem_of_fmap_2).
  apply list_elem_of_fmap in Hk as (m1 & Hk & Hm1). destruct (Hh m1 Hm1) as (m2 & Hm2 & Hn & Hd).
  assert (Hk2 : id_key m2 ∈ id_key <$> msgs) by (rewrite E; by apply list_elem_of_fmap_2).
  apply list_elem_of_fmap in Hk2 as (m3 & Hk3 & Hm3). exists m3. split_and!; [done| |by apply (held_key _ m2)].
  rewrite (native_key _ _ Hk), <- Hn. symmetry. by apply native_key.
Qed.

Lemma wa_held_put idx m m' : native m ≠ native m' → held idx m → held (<[native m' := toDocument sha256 tenant chat m']> idx) m.
Proof using Type. intros Hne (doc & Hd & Hr). exists doc. by rewrite lookup_insert_ne. Qed.

Lemma wa_held_new idx m : held (<[native m := toDocument sha256 tenant chat m]> idx) m.
Proof using Type. eexists. rewrite lookup_insert_eq. by split_and!. Qed.

Lemma i_range done msgs w : all_held done (sy_index w) →
  wa_surely (emitRange sha256 tenant chat msgs) (ok_with (λ _ : unit, all_held (done ++ msgs))) w.
Proof using HP.
  revert done w. induction msgs as [|m msgs IH]; intros done w Hd; cbn [emitRange].
  - apply i_ret. by rewrite app_nil_r.
  - rewrite cons_middle, (app_assoc done [m]) in *. apply i_ctx. intros w1 E1.
    eapply i_then; [apply i_emit|]. cbn beta. intros _ w2 E2. apply IH. rewrite <- E2, E1. cbn [source_native_id toDocument].
    assert (Hnew : m ∈ done ++ [m]) by (apply elem_of_app; right; by left).
    intros x [Hx| ->%list_elem_of_singleton]%elem_of_app; [|exists m; split_and!; [done|done|apply wa_held_new]].
    destruct (Hd x Hx) as (x' & Hx' & Hn & Hh). destruct (decide (native x' = native m)) as [E|E].
    + exists m. split_and!; [done|congruence|apply wa_held_new].
    + exists x'. split_and!; [apply elem_of_app; by left|done|by apply wa_held_put].
Qed.

Lemma i_export s0 url (Q : string → Index → Prop) f w : x_change s0 (sy_source w) →
  (∀ body w', served_export s0 body → sy_index w' = sy_index w → wa_surely (f body) (ok_with Q) w') →
  wa_surely (atry (fetchExport url) f) (ok_with Q) w.
Proof using HP.
  intros Hs0 Hf. eapply (i_then (λ body idx, served_export s0 body ∧ idx = sy_index w)).
  - unfold fetchExport. destruct (String.eqb url ""); [apply i_fail|]. intros s Hs. split; [done|]. intros i. cbv beta.
    destruct (export_answer _) as [body|e] eqn:E; [|apply i_fail]. apply i_ret. split; [|done]. exists url, i, s. split; [by etrans|done].
  - intros body w' [Hb Hi]. by apply Hf.
Qed.

(** What a pass from the cursor [cur0] brings about with the export [body]: all of
    it is held; or the export [body0] of the cursor is not a prefix of it, and
    its hash did not show it. *)
Definition imported (body cur : string) (idx : Index) : Prop :=
  all_held (parseExport body) idx ∧ cur = wa_makeCursor sha256 (parseExport body) (length (parseExport body)).

Definition unseen_change (body0 body : string) : Prop :=
  let msgs0 := parseExport body0 in let msgs := parseExport body in
  prefix_hash sha256 (take (length msgs0) msgs) = prefix_hash sha256 msgs0 ∧ message_key <$> take (length msgs0) msgs ≠ message_key <$> msgs0.

Definition pass_result (s0 : S) (cur0 cur : string) (idx : Index) : Prop :=
  ∃ body, served_export s0 body ∧
    (imported body cur idx ∨
     ∃ body0, cur0 = wa_makeCursor sha256 (parseExport body0) (length (parseExport body0)) ∧ unseen_change body0 body).

Lemma i_wa_full cfg ic w : wa_parseConfig (c_config_json cfg) = Ok ic → wc_ChatName ic = chat → tenantID (c_tenant cfg) = tenant →
  wa_surely (wa_FullSync sha256 cfg) (ok_with (pass_result (sy_source w) (sy_cursor w))) w.
Proof using HP.
  intros Hc Hchat Ht. unfold wa_FullSync, wa_config_of. rewrite Hc. apply (i_export (sy_source w)); [done|]. intros body w' Hb E.
  rewrite Hchat, Ht. cbv zeta. eapply i_then; [apply (i_range []); by intros m ?%not_elem_of_nil|]. cbn beta. intros _ w1 Hh.
  eapply i_then; [apply i_checkpoint|]. cbn beta. intros _ w2 E2. apply i_ret. rewrite <- E2. exists body. split; [done|]. by left.
Qed.

(** The prefix of an export that hashes like the export before. *)
Lemma prefix_held body0 body idx : all_held (parseExport body0) idx → ¬ unseen_change body0 body →
  prefix_hash sha256 (take (length (parseExport body0)) (parseExport body)) = prefix_hash sha256 (parseExport body0) →
  all_held (take (length (parseExport body0)) (parseExport body)) idx.
Proof using Type.
  intros Hh Hu Hp. apply (all_held_keys _ (parseExport body0)); [|done]. apply exported_prefix; [by exists body|by exists body0|].
  destruct (decide (message_key <$> take (length (parseExport body0)) (parseExport body) = message_key <$> parseExport body0)); [done|].
  by destruct Hu.
Qed.

Lemma same_cursor msgs0 msgs : length msgs = length msgs0 → prefix_hash sha256 (take (length msgs0) msgs) = prefix_hash sha256 msgs0 →
  wa_makeCursor sha256 msgs0 (length msgs0) = wa_makeCursor sha256 msgs (length msgs).
Proof using Type. intros Hl Hp. unfold wa_makeCursor. rewrite !Nat.min_id, !take_ge in * by lia. by rewrite Hl, Hp. Qed.

Lemma i_wa_incremental cfg ic w : (∀ l, length (sha256 l) = 32%nat) →
  wa_parseConfig (c_config_json cfg) = Ok ic → wc_ChatName ic = chat → tenantID (c_tenant cfg) = tenant → synced_to (sy_cursor w) (sy_index w) →
  wa_surely (wa_IncrementalSync sha256 cfg (sy_cursor w)) (ok_with (pass_result (sy_source w) (sy_cursor w))) w.
Proof using HP.
  intros Hsha Hc Hchat Ht (body0 & Hf0 & Hcur & Hh0). unfold wa_IncrementalSync, wa_config_of. rewrite Hc. set (msgs0 := parseExport body0) in *.
  assert (Hlen0 : Z.of_nat (length msgs0) < 2 ^ 63) by (pose proof (length_export body0); unfold fits, maxExportBytes in Hf0; subst msgs0; lia).
  rewrite Hcur, parse_makeCursor by done. rewrite <- Hcur.
  apply (i_export (sy_source w)); [done|]. intros body w' Hb E.
  cbn [pc_count pc_prefixHash]. rewrite Nat2Z.id, Hchat, Ht. cbv zeta. set (msgs := parseExport body).
  destruct (Z.ltb_spec (Z.of_nat (length msgs)) (Z.of_nat (length msgs0))) as [|Hlen]; [apply i_fail|].
  rewrite prefixHashOf_take by lia.
  destruct (_ && _) eqn:Hchg; [apply i_fail|].
  assert (Hp : prefix_hash sha256 (take (length msgs0) msgs) = prefix_hash sha256 msgs0).
  { apply andb_false_iff in Hchg as [Hz%Z.ltb_ge|Hq%negb_false_iff%String.eqb_eq]; [|done].
    replace (length msgs0) with 0%nat by lia. destruct msgs0; [done|cbn in Hz; lia]. }
  destruct (decide (message_key <$> take (length msgs0) msgs = message_key <$> msgs0)) as [Hk|Hk].
  2:{ assert (Hu : ∀ cur idx, pass_result (sy_source w) (sy_cursor w) cur idx) by (intros cur idx; exists body; split; [done|]; right; by exists body0).
      destruct (Z.eqb _ _); [by apply i_ret|]. eapply i_then; [apply (i_range []); by intros m ?%not_elem_of_nil|]. cbn beta. intros _ w1 _. by apply i_ret. }
  assert (Hpre : all_held (take (length msgs0) msgs) (sy_index w')).
  { rewrite E. apply prefix_held; [done|by intros [_ Hno]|done]. }
  destruct (Z.eqb_spec (Z.of_nat (length msgs)) (Z.of_nat (length msgs0))) as [Heq|Hne].
  - apply i_ret. exists body. split; [done|]. left. split; [by rewrite take_ge in Hpre by (fold msgs; lia)|]. rewrite Hcur. apply same_cursor; [fold msgs; lia|done].
  - eapply i_then; [apply (i_range (take (length msgs0) msgs)); done|]. cbn beta. intros _ w1 Hh.
    rewrite take_drop in Hh. apply i_ret. exists body. split; [done|]. by left.
Qed.
End sync.

(** What the hub runs: a full sync where there is no cursor. *)
Definition wa_pass `{!Deps, !Quoting, !URLs, !WaJson} (sha256 : bytes → bytes) (cfg : Config) (cur : string) : api WaReq (result ConnErr string) :=
  if String.eqb cur "" then wa_FullSync sha256 cfg else wa_IncrementalSync sha256 cfg cur.


(** ** A chat that grows *)
#[local] Instance chat_quoting : Quoting := {| Quote s := s |}.
#[local] Instance chat_urls : URLs := {| url_Parse _ := Some ("https", "h") |}.
#[local] Instance chat_deps : Deps :=
  {| uuid_Parse s := Some s; ts_CheckValid _ := true; ts_AsTime _ := 0; ts_New _ := mkTimestamp 0 0 |}.
#[local] Instance chat_json : WaJson := {| wa_config_json _ := Ok ("https://h/chat.txt", "team", "") |}.

Definition chat_lines (later : bool) : list string :=
  ["[2024-03-15, 9:42:13 AM] Alice: hello"; "and more"; "3/15/24, 09:43 - Bob: hello"; "3/15/24, 09:43 - Bob: hello"] ++
  (if later then ["[2024-03-15, 9:44:00 AM] Alice added Carol"] else []).
Definition chat_text (later : bool) : string := Join (chat_lines later) NL.

Definition chat_answer X (q : WaReq X) (_ : Inp) (later : bool) : X :=
  match q with ExportGet _ => Answered 200 (Ok (to_bytes (chat_text later))) | WaCtx => Ok tt end.
#[local] Instance chat_exports : Exports bool := {| x_answer := chat_answer; x_change s s' := s = true → s' = true |}.
#[local] Instance chat_preorder : PreOrder x_change.
Proof. split; [by intros s Hs|]. intros s1 s2 s3 H12 H23 Hs. by apply H23, H12. Qed.

(** A digest of 32 bytes: a checksum and the length. *)
Definition chat_sha (l : bytes) : bytes :=
  let sum := foldl (λ n a, (n * 31 + zbyte a) mod 2 ^ 64) 7 l in
  byte_of sum :: byte_of (sum / 2 ^ 8) :: byte_of (sum / 2 ^ 16) :: byte_of (Z.of_nat (length l)) :: repeat "000"%char 28.

Definition chat_cfg : Config := mkSdkConfig (mkContext "t1" "t1") "i1" "{}" None.
Definition chat_inp : Inp := mkInp None None (mkEnv (λ _, 0) (λ _, 0) "").
Definition chat_cursor (later : bool) : string := let msgs := parseExport (chat_text later) in wa_makeCursor chat_sha msgs (length msgs).
Definition chat_start : Synced bool := mkSynced false ∅ "".
Definition chat_first : Synced bool := (play x_answer chat_inp [] (wa_pass chat_sha chat_cfg "") chat_start).2.
Definition chat_second : Synced bool := (play x_answer chat_inp [true] (wa_pass chat_sha chat_cfg (chat_cursor false)) chat_first).2.

(** The pass over the chat that has grown. *)
Definition holds (idx : gmap string Document) (m : wa_message) : bool :=
  match idx !! message_native chat_sha "team" m with
  | Some doc => String.eqb (body_text doc) (ToValidUTF8 (wm_text m)) && String.eqb (version_etag doc) (messageEtag chat_sha m) && negb (is_deleted doc)
  | None => false
  end.

Lemma all_hold idx msgs : forallb (holds idx) msgs = true → all_held chat_sha "team" msgs idx.
Proof.
  intros Hall m Hm. exists m. split_and!; [done|done|]. apply list_elem_of_In, (proj1 (forallb_forall _ _) Hall) in Hm. unfold holds in Hm. unfold held.
  destruct (idx !! message_native chat_sha "team" m) as [doc|]; [|done]. apply andb_prop in Hm as [[Hb Hv]%andb_prop Hd].
  exists doc. split_and!; [done|by apply String.eqb_eq|by apply String.eqb_eq|by apply negb_true_iff].
Qed.

Lemma chat_before : synced_to chat_sha "team" (chat_cursor false) (sy_index chat_first).
Proof. exists (chat_text false). split; [by vm_compute|]. split; [reflexivity|]. apply all_hold. vm_compute. reflexivity. Qed.


(** ** What goes wrong *)

(** Ids join their parts with a bar that senders and texts may hold: two
    different messages of one minute get one id, whatever the hash, and the
    second takes the place of the first. *)
Definition bar_chat : string := Join ["3/15/24, 09:43 - A|B: c"; "3/15/24, 09:43 - A: B|c"] NL.

Lemma bar_ids_collide sha256 chat : ∃ m m', parseExport bar_chat = [m; m'] ∧ message_key m ≠ message_key m' ∧
  message_native sha256 chat m = message_native sha256 chat m'.
Proof. eexists _, _. split; [vm_compute; reflexivity|]. by split. Qed.

(** A message that is gone from a later export stays in the index: the prefix
    has changed, and the import from scratch writes only what is there. *)
Lemma removed_message_stays :
  let w := (play (λ X (q : WaReq X) _ (_ : bool), match q with ExportGet _ => Answered 200 (Ok (to_bytes "3/15/24, 09:43 - Bob: hello")) | WaCtx => Ok tt end)
    chat_inp [] (wa_pass chat_sha chat_cfg "") (store_cursor "" chat_first)).2 in
  size (sy_index w) = 3%nat ∧ ∀ i doc, sy_index w !! i = Some doc → is_deleted doc = false.
Proof.
  cbv zeta. split; [vm_compute; reflexivity|]. intros i doc Hd.
  assert (Hall : forallb (λ x, negb (is_deleted x.2)) (map_to_list (sy_index ((play (λ X (q : WaReq X) _ (_ : bool),
    match q with ExportGet _ => Answered 200 (Ok (to_bytes "3/15/24, 09:43 - Bob: hello")) | WaCtx => Ok tt end)
    chat_inp [] (wa_pass chat_sha chat_cfg "") (store_cursor "" chat_first)).2))) = true) by (vm_compute; reflexivity).
  apply elem_of_map_to_list, list_elem_of_In, (proj1 (forallb_forall _ _) Hall) in Hd. by apply negb_true_iff in Hd.
Qed.
