(* ===== verification/PgStore.v ===== *)
(** * The control plane's Postgres store

    Models [services/control-plane/store_pg.go] with the schema of its
    migrations: the tables are maps from primary keys to rows, a statement is a
    function on the tables that answers or fails as a whole, and a method is a
    program of round trips.  [run] executes a method against a database that
    answers; [run_with] against one whose connection may fail at every round
    trip, before or after the statement took effect.  Cascades of foreign keys
    are part of the statements that delete.  What Postgres does to values is a
    parameter: which texts it stores, the normal form of a [jsonb] and of a
    [uuid], the collation.  Locks order concurrent transactions and do nothing
    to the tables. *)

From stdpp Require Import base gmap strings list.
From Stdlib Require Import Ascii ZArith Lia.
From S2P Require Import Prelude GoStrings Tenancy Store Crypto.

Open Scope Z_scope.

Class PgTypes := {
  pg_text : string → bool;
  pg_jsonb : string → option string;
  pg_uuid : string → option string;
  coll_leb : string → string → bool
}.

(** [timestamptz] has microseconds. *)
Definition pg_time (t : Z) : Z := t / 1000 * 1000.
Definition pg_now (env : Env) : Z := pg_time (clock env 0).

(** ** The tables *)
Record Database := mkDB {
  db_tenants : gmap TenantID Z;
  db_instances : gmap string ConnectorInstance;
  db_syncs : gmap string SyncState;
  db_tokens : gmap string (TenantID * string);
  db_prefs : gmap TenantID (string * Z);
  db_weights : gmap TenantID (string * Z);
  db_feedback : list (TenantID * FeedbackEvent)
}.
Definition db_empty : Database := mkDB ∅ ∅ ∅ ∅ ∅ ∅ [].

Definition with_tenants f d := mkDB (f (db_tenants d)) (db_instances d) (db_syncs d) (db_tokens d) (db_prefs d) (db_weights d) (db_feedback d).
Definition with_instances f d := mkDB (db_tenants d) (f (db_instances d)) (db_syncs d) (db_tokens d) (db_prefs d) (db_weights d) (db_feedback d).
Definition with_syncs f d := mkDB (db_tenants d) (db_instances d) (f (db_syncs d)) (db_tokens d) (db_prefs d) (db_weights d) (db_feedback d).
Definition with_tokens f d := mkDB (db_tenants d) (db_instances d) (db_syncs d) (f (db_tokens d)) (db_prefs d) (db_weights d) (db_feedback d).
Definition with_prefs f d := mkDB (db_tenants d) (db_instances d) (db_syncs d) (db_tokens d) (f (db_prefs d)) (db_weights d) (db_feedback d).
Definition with_weights f d := mkDB (db_tenants d) (db_instances d) (db_syncs d) (db_tokens d) (db_prefs d) (f (db_weights d)) (db_feedback d).
Definition with_feedback f d := mkDB (db_tenants d) (db_instances d) (db_syncs d) (db_tokens d) (db_prefs d) (db_weights d) (f (db_feedback d)).

(** ** Programs *)
Definition sql (A : Type) : Type := Database → result string (A * Database).

Inductive tx (A : Type) : Type :=
| TxEnd (e : StoreErr)
| TxStmt (X : Type) (label : string) (q : sql X) (k : X → tx A)
| TxCommit (label : string) (a : A).
Arguments TxEnd {A} _. Arguments TxStmt {A X} _ _ _. Arguments TxCommit {A} _ _.

Inductive pg (A : Type) : Type :=
| PgRet (r : result StoreErr A)
| PgStmt (X : Type) (label : string) (q : sql X) (k : X → pg A)
| PgTx (label : string) (body : tx A).
Arguments PgRet {A} _. Arguments PgStmt {A X} _ _ _. Arguments PgTx {A} _ _.

Definition labelled (label e : string) : StoreErr := ErrOther (label +:+ ": " +:+ e).

(** A transaction that began at [d0]. *)
Fixpoint run_tx {A} (d0 : Database) (p : tx A) (d : Database) : result StoreErr A * Database :=
  match p with
  | TxEnd e => (Err e, d0)
  | TxStmt label q k => match q d with Err e => (Err (labelled label e), d0) | Ok (x, d') => run_tx d0 (k x) d' end
  | TxCommit _ a => (Ok a, d)
  end.

Fixpoint run_pg {A} (p : pg A) (d : Database) : result StoreErr A * Database :=
  match p with
  | PgRet r => (r, d)
  | PgStmt label q k => match q d with Err e => (Err (labelled label e), d) | Ok (x, d') => run_pg (k x) d' end
  | PgTx _ body => run_tx d body d
  end.

(** The pool checks the context before it sends anything. *)
Definition run {A} (ctx : Ctx) (p : pg A) (d : Database) : result StoreErr A * Database :=
  match ctx_err ctx with Some e => (Err (ErrCtx e), d) | None => run_pg p d end.

(** A round trip is answered, fails before the statement took effect, or after
    it did. *)
Inductive Fate := Answered | Refused (e : string) | Unheard (e : string).

Definition fate (fs : list Fate) : Fate := default Answered (head fs).

Fixpoint run_tx_with {A} (fs : list Fate) (d0 : Database) (p : tx A) (d : Database) : result StoreErr A * Database :=
  match p with
  | TxEnd e => (Err e, d0)
  | TxStmt label q k =>
    match fate fs with
    | Answered => match q d with Err e => (Err (labelled label e), d0) | Ok (x, d') => run_tx_with (tail fs) d0 (k x) d' end
    | Refused e | Unheard e => (Err (labelled label e), d0)
    end
  | TxCommit label a =>
    match fate fs with
    | Answered => (Ok a, d)
    | Refused e => (Err (labelled label e), d0)
    | Unheard e => (Err (labelled label e), d)
    end
  end.

Fixpoint run_with {A} (fs : list Fate) (p : pg A) (d : Database) : result StoreErr A * Database :=
  match p with
  | PgRet r => (r, d)
  | PgStmt label q k =>
    match fate fs with
    | Answered => match q d with Err e => (Err (labelled label e), d) | Ok (x, d') => run_with (tail fs) (k x) d' end
    | Refused e => (Err (labelled label e), d)
    | Unheard e => (Err (labelled label e), match q d with Err _ => d | Ok (_, d') => d' end)
    end
  | PgTx label body =>
    match fate fs with
    | Answered => run_tx_with (tail fs) d body d
    | Refused e | Unheard e => (Err (labelled label e), d)
    end
  end.

Section statements.
Context `{!PgTypes}.

(** ** Statements *)
Definition params {A} (texts : list string) (q : sql A) : sql A :=
  λ d, if forallb pg_text texts then q d else Err "invalid byte sequence for encoding UTF8".

Definition uuid_param {A} (id : string) (q : string → sql A) : sql A :=
  λ d, match pg_uuid id with None => Err "invalid input syntax for type uuid" | Some id => q id d end.

Definition jsonb_param {A} (text : string) (q : string → sql A) : sql A :=
  λ d, match pg_jsonb text with None => Err "invalid input syntax for type json" | Some j => q j d end.

Definition answer {A} (a : A) : sql A := λ d, Ok (a, d).
Definition select {A} (f : Database → A) : sql A := λ d, Ok (f d, d).
Definition write {A} (a : A) (f : Database → Database) : sql A := λ d, Ok (a, f d).

Definition fk_violation {A} : result string A := Err "violates foreign key constraint".

(** [INSERT INTO tenants .. ON CONFLICT DO NOTHING] *)
Definition insert_tenant (t : TenantID) (now : Z) : sql unit :=
  params [t] (λ d, Ok (tt, match db_tenants d !! t with Some _ => d | None => with_tenants (insert t now) d end)).

(** [.. ON CONFLICT DO UPDATE SET tenant_id = excluded.tenant_id RETURNING created_at] *)
Definition upsert_tenant (t : TenantID) (now : Z) : sql Z :=
  params [t] (λ d, match db_tenants d !! t with Some created => Ok (created, d) | None => Ok (now, with_tenants (insert t now) d) end).

Definition owned_rows (t : TenantID) (d : Database) : gmap string ConnectorInstance :=
  base.filter (λ kv, ci_tenant kv.2 = t) (db_instances d).

(** The gated [INSERT .. SELECT .. RETURNING]: [None] when it writes no row. *)
Definition insert_instance (inst : ConnectorInstance) (maxInstances : Z) (id : string) (now : Z) : sql (option unit) :=
  params [ci_tenant inst; ci_connector inst; ci_display inst; ci_status inst] (jsonb_param (ci_config inst) (λ config d,
  if (maxInstances <=? 0) || (Z.of_nat (size (owned_rows (ci_tenant inst) d)) <? maxInstances) then
    if bool_decide (is_Some (db_instances d !! id)) then Err "duplicate key value violates unique constraint"
    else if bool_decide (is_Some (db_tenants d !! ci_tenant inst)) then
      Ok (Some tt, with_instances (insert id (mkInstance id (ci_tenant inst) (ci_connector inst) (ci_display inst) config (ci_status inst) now now)) d)
    else fk_violation
  else Ok (None, d))).

Definition find_instance (t : TenantID) (id : string) (d : Database) : option ConnectorInstance :=
  match db_instances d !! id with Some inst => if String.eqb (ci_tenant inst) t then Some inst else None | None => None end.

(** [ORDER BY created_at, id] *)
Definition select_owned (t : TenantID) : sql (list ConnectorInstance) :=
  params [t] (select (λ d, sort_by memStore.inst_leb (map_to_list (owned_rows t d)).*2)).

Definition select_instance (t : TenantID) (id : string) : sql (option ConnectorInstance) :=
  params [t] (uuid_param id (λ id, select (find_instance t id))).

(** [ORDER BY tenant_id, created_at, id], by the collation of the column. *)
Definition coll_all_leb (a b : ConnectorInstance) : bool :=
  if negb (coll_leb (ci_tenant b) (ci_tenant a)) then true
  else if negb (coll_leb (ci_tenant a) (ci_tenant b)) then false
  else memStore.inst_leb a b.

Definition select_all : sql (list ConnectorInstance) := select (λ d, sort_by coll_all_leb (map_to_list (db_instances d)).*2).

Definition count_owned (t : TenantID) : sql Z := params [t] (select (λ d, Z.of_nat (size (owned_rows t d)))).

(** [DELETE FROM connector_instances WHERE id = .. AND tenant_id = ..], and its
    cascade; the rows affected. *)
Definition delete_instance (t : TenantID) (id : string) : sql Z :=
  params [t] (uuid_param id (λ id d,
  match find_instance t id d with
  | None => Ok (0, d)
  | Some _ => Ok (1, with_tokens (delete id) (with_syncs (delete id) (with_instances (delete id) d)))
  end)).

Definition joined_sync (inst : ConnectorInstance) (row : option SyncState) : SyncState :=
  match row with
  | Some ss => mkSyncState (ci_id inst) (ci_tenant inst) (ss_cursor ss) (ss_phase ss) (ss_started ss) (ss_completed ss) (ss_last_error ss) (ss_docs ss)
  | None => mkSyncState (ci_id inst) (ci_tenant inst) "" "PENDING" None None "" 0
  end.

Definition select_sync (t : TenantID) (id : string) : sql (option SyncState) :=
  params [t] (uuid_param id (λ id, select (λ d, (λ inst, joined_sync inst (db_syncs d !! id)) <$> find_instance t id d))).

Definition upsert_sync (t : TenantID) (st : SyncState) : sql (option SyncState) :=
  params [t; ss_cursor st; ss_phase st; ss_last_error st] (uuid_param (ss_instance st) (λ id d,
  match find_instance t id d with
  | None => Ok (None, d)
  | Some inst =>
    let owner := match db_syncs d !! id with Some old => ss_tenant old | None => ci_tenant inst end in
    let row := mkSyncState id owner (ss_cursor st) (ss_phase st) (pg_time <$> ss_started st) (pg_time <$> ss_completed st) (ss_last_error st) (ss_docs st) in
    Ok (Some row, with_syncs (insert id row) d)
  end)).

Definition upsert_token (t : TenantID) (id ciphertext : string) : sql Z :=
  params [t] (uuid_param id (λ id d,
  match find_instance t id d with
  | None => Ok (0, d)
  | Some inst =>
    let owner := match db_tokens d !! id with Some (old, _) => old | None => ci_tenant inst end in
    Ok (1, with_tokens (insert id (owner, ciphertext)) d)
  end)).

Definition find_token (t : TenantID) (id : string) (d : Database) : option string :=
  match db_tokens d !! id with Some (owner, c) => if String.eqb owner t then Some c else None | None => None end.

Definition select_token (t : TenantID) (id : string) : sql (option string) := params [t] (uuid_param id (λ id, select (find_token t id))).

Definition delete_token (t : TenantID) (id : string) : sql Z :=
  params [t] (uuid_param id (λ id d, match find_token t id d with None => Ok (0, d) | Some _ => Ok (1, with_tokens (delete id) d) end)).

(** The rows of a table whose instance goes away. *)
Definition cascade {A} (gone : gmap string ConnectorInstance) (m : gmap string A) : gmap string A :=
  base.filter (λ kv, gone !! kv.1 = None) m.

Definition delete_tokens (t : TenantID) : sql Z :=
  params [t] (λ d, Ok (Z.of_nat (size (base.filter (λ kv, kv.2.1 = t) (db_tokens d))), with_tokens (base.filter (λ kv, kv.2.1 ≠ t)) d)).
Definition delete_syncs (t : TenantID) : sql unit := params [t] (write tt (with_syncs (base.filter (λ kv, ss_tenant kv.2 ≠ t)))).
Definition delete_feedback (t : TenantID) : sql Z :=
  params [t] (λ d, Ok (Z.of_nat (length (List.filter (λ r, String.eqb r.1 t) (db_feedback d))),
    with_feedback (List.filter (λ r, negb (String.eqb r.1 t))) d)).
Definition delete_weights (t : TenantID) : sql unit := params [t] (write tt (with_weights (delete t))).
Definition delete_prefs (t : TenantID) : sql unit := params [t] (write tt (with_prefs (delete t))).

Definition drop_instances (t : TenantID) (d : Database) : Database :=
  let gone := owned_rows t d in
  with_tokens (cascade gone) (with_syncs (cascade gone) (with_instances (base.filter (λ kv, ci_tenant kv.2 ≠ t)) d)).
Definition delete_instances (t : TenantID) : sql Z := params [t] (λ d, Ok (Z.of_nat (size (owned_rows t d)), drop_instances t d)).

Definition delete_tenant (t : TenantID) : sql unit :=
  params [t] (write tt (λ d, with_tenants (delete t) (with_prefs (delete t) (with_weights (delete t)
    (with_feedback (List.filter (λ r, negb (String.eqb r.1 t))) (drop_instances t d)))))).

Definition residue (t : TenantID) : sql bool :=
  params [t] (select (λ d,
    bool_decide (is_Some (db_tenants d !! t)) || existsb (λ kv, String.eqb (ci_tenant kv.2) t) (map_to_list (db_instances d))
    || existsb (λ kv, String.eqb (ss_tenant kv.2) t) (map_to_list (db_syncs d))
    || existsb (λ kv, String.eqb kv.2.1 t) (map_to_list (db_tokens d)) || bool_decide (is_Some (db_prefs d !! t))
    || bool_decide (is_Some (db_weights d !! t)) || existsb (λ r, String.eqb r.1 t) (db_feedback d))).

(** One group of the aggregate; a sum that is no [int64] fails to scan. *)
Definition docs_sum (t : TenantID) (d : Database) : Z :=
  map_fold (λ id _ n, n + match db_syncs d !! id with Some ss => ss_docs ss | None => 0 end) 0 (owned_rows t d).

Definition usage_row (d : Database) (row : TenantID * Z) : result string TenantUsage :=
  let '(t, created) := row in
  let n := Z.of_nat (size (owned_rows t d)) in
  let paused := Z.of_nat (size (base.filter (λ kv, ci_status kv.2 = "PAUSED") (owned_rows t d))) in
  let docs := docs_sum t d in
  if (- 2 ^ 63 <=? docs) && (docs <? 2 ^ 63) then Ok (mkTenantUsage t created n docs ((0 <? n) && (paused =? n))) else Err "cannot scan numeric into int64".

Fixpoint scan_rows (d : Database) (rows : list (TenantID * Z)) : result string (list TenantUsage) :=
  match rows with
  | [] => Ok []
  | row :: rows' =>
    match usage_row d row with
    | Err e => Err e
    | Ok u => match scan_rows d rows' with Err e => Err e | Ok us => Ok (u :: us) end
    end
  end.

Definition select_tenants (after : string) (limit : Z) : sql (list TenantUsage) :=
  params [after] (λ d,
  if limit <? 0 then Err "LIMIT must not be negative"
  else
    let rows := sort_by (λ a b, coll_leb a.1 b.1) (List.filter (λ kv, negb (coll_leb kv.1 after)) (map_to_list (db_tenants d))) in
    match scan_rows d (take (Z.to_nat limit) rows) with Err e => Err ("scan: " +:+ e) | Ok us => Ok (us, d) end).

Definition select_usage (t : TenantID) : sql (option TenantUsage) :=
  params [t] (λ d,
  match db_tenants d !! t with
  | None => Ok (None, d)
  | Some created => match usage_row d (t, created) with Err e => Err e | Ok u => Ok (Some u, d) end
  end).

Definition update_status (t : TenantID) (status : string) (now : Z) : sql Z :=
  params [t; status] (λ d,
    let hit (kv : string * ConnectorInstance) := ci_tenant kv.2 = t ∧ ci_status kv.2 ≠ status in
    Ok (Z.of_nat (size (base.filter hit (db_instances d))),
      with_instances (map_imap (λ id inst, Some (if decide (hit (id, inst)) then memStore.set_status inst status now else inst))) d)).

Definition select_prefs (t : TenantID) : sql (option (string * Z)) := params [t] (select (λ d, db_prefs d !! t)).
Definition select_weights (t : TenantID) : sql (option (string * Z)) := params [t] (select (λ d, db_weights d !! t)).

Definition upsert_prefs (t : TenantID) (profileJSON : string) : sql Z :=
  params [t] (jsonb_param profileJSON (λ profile d,
  if bool_decide (is_Some (db_tenants d !! t)) then
    match db_prefs d !! t with
    | None => Ok (1, with_prefs (insert t (profile, 1)) d)
    | Some (_, version) =>
      if version + 1 <? 2 ^ 63 then Ok (version + 1, with_prefs (insert t (profile, version + 1)) d) else Err "bigint out of range"
    end
  else fk_violation)).

Definition insert_feedback (t : TenantID) (ev : FeedbackEvent) : sql unit :=
  params [t; fe_doc ev; fe_type ev; fe_connector ev; fe_action ev; fe_query ev] (λ d,
  if bool_decide (is_Some (db_tenants d !! t)) then Ok (tt, with_feedback (λ l, l ++ [(t, ev)]) d) else fk_violation).

Definition insert_weights (t : TenantID) : sql unit :=
  params [t] (λ d,
  if bool_decide (is_Some (db_tenants d !! t)) then
    Ok (tt, match db_weights d !! t with Some _ => d | None => with_weights (insert t ("{}", 0)) d end)
  else fk_violation).

(** [SELECT .. FOR UPDATE]: no row cannot be scanned. *)
Definition lock_weights (t : TenantID) : sql (string * Z) :=
  params [t] (λ d, match db_weights d !! t with Some row => Ok (row, d) | None => Err "no rows in result set" end).

Definition update_weights (t : TenantID) (weightsJSON : string) (samples : Z) : sql unit :=
  params [t] (jsonb_param weightsJSON (λ w d,
    Ok (tt, match db_weights d !! t with Some _ => with_weights (insert t (w, samples)) d | None => d end))).

(** ** The methods *)
Definition found {A} (x : option A) : pg A := match x with Some a => PgRet (Ok a) | None => PgRet (Err ErrNotFound) end.
Definition affected (n : Z) : pg unit := if n =? 0 then PgRet (Err ErrNotFound) else PgRet (Ok tt).

Definition pg_EnsureTenant (env : Env) (t : TenantID) : pg Tenant :=
  PgStmt "ensure tenant" (upsert_tenant t (pg_now env)) (λ created, PgRet (Ok (mkTenant t created))).

Definition pg_CreateConnectorInstance (env : Env) (inst : ConnectorInstance) (maxInstances : Z) : pg ConnectorInstance :=
  let create : tx ConnectorInstance :=
    TxStmt "create connector instance: ensure tenant" (insert_tenant (ci_tenant inst) (pg_now env)) (λ _,
    TxStmt "create connector instance: insert" (insert_instance inst maxInstances (new_uuid env) (pg_now env)) (λ row,
    match row with
    | None => TxEnd ErrQuotaExceeded
    | Some _ =>
      TxCommit "create connector instance: commit"
        (mkInstance (new_uuid env) (ci_tenant inst) (ci_connector inst) (ci_display inst) (ci_config inst) (ci_status inst) (pg_now env) (pg_now env))
    end)) in
  PgTx "create connector instance: begin"
    (if 0 <? maxInstances then TxStmt "create connector instance: lock" (params [ci_tenant inst] (answer tt)) (λ _, create) else create).

Definition pg_ListConnectorInstances (t : TenantID) : pg (list ConnectorInstance) :=
  PgStmt "list connector instances" (select_owned t) (λ l, PgRet (Ok l)).
Definition pg_GetConnectorInstance (t : TenantID) (id : string) : pg ConnectorInstance :=
  PgStmt "get connector instance" (select_instance t id) found.
Definition pg_DeleteConnectorInstance (t : TenantID) (id : string) : pg unit :=
  PgStmt "delete connector instance" (delete_instance t id) affected.
Definition pg_GetSyncState (t : TenantID) (id : string) : pg SyncState := PgStmt "get sync state" (select_sync t id) found.
Definition pg_SetSyncState (t : TenantID) (st : SyncState) : pg SyncState := PgStmt "set sync state" (upsert_sync t st) found.
Definition pg_PutToken (t : TenantID) (id ciphertext : string) : pg unit := PgStmt "put token" (upsert_token t id ciphertext) affected.
Definition pg_GetToken (t : TenantID) (id : string) : pg string := PgStmt "get token" (select_token t id) found.
Definition pg_DeleteToken (t : TenantID) (id : string) : pg unit := PgStmt "delete token" (delete_token t id) affected.
Definition pg_ListAll : pg (list ConnectorInstance) := PgStmt "list all instances" select_all (λ l, PgRet (Ok l)).
Definition pg_CountConnectorInstances (t : TenantID) : pg Z := PgStmt "count connector instances" (count_owned t) (λ n, PgRet (Ok n)).

(** The three personalization tables are emptied in the order of a Go map. *)
Definition pg_PurgeTenant (t : TenantID) : pg PurgeCounts :=
  PgTx "purge tenant: begin"
    (TxStmt "purge tenant: delete tokens" (delete_tokens t) (λ tokens,
     TxStmt "purge tenant: delete sync states" (delete_syncs t) (λ _,
     TxStmt "purge tenant: delete feedback events" (delete_feedback t) (λ _,
     TxStmt "purge tenant: delete learned weights" (delete_weights t) (λ _,
     TxStmt "purge tenant: delete preferences" (delete_prefs t) (λ _,
     TxStmt "purge tenant: delete connector instances" (delete_instances t) (λ instances,
     TxStmt "purge tenant: delete tenant row" (delete_tenant t) (λ _,
     TxCommit "purge tenant: commit" (mkPurgeCounts instances tokens))))))))).

Definition pg_TenantResidue (t : TenantID) : pg bool := PgStmt "tenant residue" (residue t) (λ b, PgRet (Ok (negb b))).
Definition pg_ListTenants (after : string) (limit : Z) : pg (list TenantUsage) :=
  PgStmt "list tenants" (select_tenants after limit) (λ l, PgRet (Ok l)).
Definition pg_GetTenantUsage (t : TenantID) : pg TenantUsage := PgStmt "get tenant usage" (select_usage t) found.
Definition pg_SetTenantConnectorStatus (env : Env) (t : TenantID) (status : string) : pg Z :=
  PgStmt "set tenant connector status" (update_status t status (pg_now env)) (λ n, PgRet (Ok n)).

Definition pg_GetPersonalization (t : TenantID) : pg (UserPreferences * LearnedWeights) :=
  PgStmt "get preferences" (select_prefs t) (λ p,
  let prefs := match p with Some (profile, version) => mkPrefs profile version true | None => zeroPrefs end in
  PgStmt "get learned weights" (select_weights t) (λ w,
  PgRet (Ok (prefs, match w with Some (weights, samples) => mkWeights weights samples true | None => zeroWeights end)))).

Definition pg_PutPreferences (env : Env) (t : TenantID) (profileJSON : string) : pg Z :=
  PgTx "put preferences: begin"
    (TxStmt "put preferences: ensure tenant" (insert_tenant t (pg_now env)) (λ _,
     TxStmt "put preferences: upsert" (upsert_prefs t profileJSON) (λ version,
     TxCommit "put preferences: commit" version))).

Definition pg_AppendFeedback (env : Env) (t : TenantID) (ev : FeedbackEvent) : pg unit :=
  PgStmt "append feedback: ensure tenant" (insert_tenant t (pg_now env)) (λ _,
  PgStmt "append feedback" (insert_feedback t ev) (λ _, PgRet (Ok tt))).

Definition pg_UpdateLearnedWeights (env : Env) (t : TenantID) (update : string → Z → result StoreErr (string * Z)) : pg unit :=
  PgTx "update learned weights: begin"
    (TxStmt "update learned weights: ensure tenant" (insert_tenant t (pg_now env)) (λ _,
     TxStmt "update learned weights: ensure row" (insert_weights t) (λ _,
     TxStmt "update learned weights: lock" (lock_weights t) (λ cur,
     match update cur.1 cur.2 with
     | Err e => TxEnd e
     | Ok (newJSON, newSamples) =>
       TxStmt "update learned weights: write" (update_weights t newJSON newSamples) (λ _, TxCommit "update learned weights: commit" tt)
     end)))).

Definition pg_ResetLearning (t : TenantID) : pg Z :=
  PgTx "reset learning: begin"
    (TxStmt "reset learning: delete weights" (delete_weights t) (λ _,
     TxStmt "reset learning: delete feedback" (delete_feedback t) (λ n,
     TxCommit "reset learning: commit" n))).

(** The store, behind the interface of the control plane. *)
#[global] Instance pgStore_Store : Store Database := {
  Store_EnsureTenant env ctx t := run ctx (pg_EnsureTenant env t);
  Store_CreateConnectorInstance env ctx inst max := run ctx (pg_CreateConnectorInstance env inst max);
  Store_ListConnectorInstances ctx t d := (run ctx (pg_ListConnectorInstances t) d).1;
  Store_GetConnectorInstance ctx t id d := (run ctx (pg_GetConnectorInstance t id) d).1;
  Store_DeleteConnectorInstance ctx t id := run ctx (pg_DeleteConnectorInstance t id);
  Store_GetSyncState ctx t id d := (run ctx (pg_GetSyncState t id) d).1;
  Store_SetSyncState ctx t st := run ctx (pg_SetSyncState t st);
  Store_PutToken ctx t id c := run ctx (pg_PutToken t id c);
  Store_GetToken ctx t id d := (run ctx (pg_GetToken t id) d).1;
  Store_DeleteToken ctx t id := run ctx (pg_DeleteToken t id);
  Store_ListAll ctx d := (run ctx pg_ListAll d).1;
  Store_CountConnectorInstances ctx t d := (run ctx (pg_CountConnectorInstances t) d).1;
  Store_PurgeTenant ctx t := run ctx (pg_PurgeTenant t);
  Store_TenantResidue ctx t d := (run ctx (pg_TenantResidue t) d).1;
  Store_ListTenants ctx after limit d := (run ctx (pg_ListTenants after limit) d).1;
  Store_GetTenantUsage ctx t d := (run ctx (pg_GetTenantUsage t) d).1;
  Store_SetTenantConnectorStatus env ctx t status := run ctx (pg_SetTenantConnectorStatus env t status);
  Store_GetPersonalization ctx t d := (run ctx (pg_GetPersonalization t) d).1;
  Store_PutPreferences env ctx t p := run ctx (pg_PutPreferences env t p);
  Store_AppendFeedback env ctx t ev := run ctx (pg_AppendFeedback env t ev);
  Store_UpdateLearnedWeights env ctx t update := run ctx (pg_UpdateLearnedWeights env t update);
  Store_ResetLearning ctx t := run ctx (pg_ResetLearning t)
}.
End statements.

(** ** [pgDEKStore]

    The table tenant_deks; [dek_link] says which actions lose the connection,
    before or after the statement took effect. *)
Class DekLink := { dek_link : Inp → Fate }.

Record pgDEKStore := mkPgDeks { pd_rows : gmap TenantID bytes }.

Section deks.
Context `{!DekLink}.

(** A round trip: the answer of the statement, and the rows after it. *)
Definition dek_exec {A} (i : Inp) (label : string) (s : pgDEKStore) (a : A) (rows : gmap TenantID bytes) : result BackErr A * pgDEKStore :=
  match in_ctx i with
  | Some e => (Err (BE_Ctx e), s)
  | None =>
    match dek_link i with
    | Answered => (Ok a, mkPgDeks rows)
    | Refused e => (Err (BE_Other (label +:+ ": " +:+ e)), s)
    | Unheard e => (Err (BE_Other (label +:+ ": " +:+ e)), mkPgDeks rows)
    end
  end.

Definition pg_GetWrappedDEK (i : Inp) (t : TenantID) (s : pgDEKStore) : result BackErr bytes :=
  if String.eqb t "" then Err BE_NoTenant
  else match (dek_exec i "get wrapped DEK" s (pd_rows s !! t) (pd_rows s)).1 with
  | Err e => Err e
  | Ok None => Err BE_DEKNotFound
  | Ok (Some wrapped) => Ok wrapped
  end.

Definition pg_PutWrappedDEK (i : Inp) (t : TenantID) (wrapped : bytes) (s : pgDEKStore) : result BackErr unit * pgDEKStore :=
  if String.eqb t "" then (Err BE_NoTenant, s)
  else if bool_decide (length wrapped = 0%nat) then (Err (BE_Other "control-plane: refusing to store empty wrapped DEK"), s)
  else dek_exec i "put wrapped DEK" s tt (match pd_rows s !! t with Some _ => pd_rows s | None => <[t := wrapped]> (pd_rows s) end).

Definition pg_DeleteDEK (i : Inp) (t : TenantID) (s : pgDEKStore) : result BackErr unit * pgDEKStore :=
  if String.eqb t "" then (Err BE_NoTenant, s) else dek_exec i "delete wrapped DEK" s tt (delete t (pd_rows s)).

#[export] Instance pgDEKStore_DEKStore : DEKStore pgDEKStore := Build_DEKStore _ pg_GetWrappedDEK pg_PutWrappedDEK pg_DeleteDEK.
End deks.
