(* ===== verification/PgStoreProofs.v ===== *)
(** * The two stores of the control plane agree

    [pgStore] behaves like [memStore]: [view] reads the tables of a database as
    the maps of the in-memory store, and every tenant-scoped call answers the
    same and leaves the same rows behind, as long as the texts it passes are
    ones the database stores unchanged ([clean_call]).  The theorems about
    [memStore] thereby hold of the database.  A method interrupted by a lost
    connection either happened or did not ([all_or_nothing]), and the table of
    wrapped keys keeps the laws of [DEKStore]. *)

From stdpp Require Import base gmap strings list.
From Stdlib Require Import ZArith Lia.
From S2P Require Import Prelude GoStrings Tenancy Store StoreLoops StoreIsolation Crypto PgStore.
Import memStore.

Open Scope Z_scope.

(** ** Calls against any store *)
Definition lift {S A} (f : result StoreErr A → Resp) (x : result StoreErr A * S) : Resp * S := (f x.1, x.2).

Definition perform {S} `{!Store S} (c : Call) (s : S) : Resp * S :=
  let '(mkCall t ctx env op) := c in
  match op with
  | OpEnsureTenant => lift RTenant (Store_EnsureTenant env ctx t s)
  | OpCreate cn d cfg st max => lift RInst (Store_CreateConnectorInstance env ctx (mkInstance "" t cn d cfg st 0 0) max s)
  | OpList => (RInsts (Store_ListConnectorInstances ctx t s), s)
  | OpGet id => (RInst (Store_GetConnectorInstance ctx t id s), s)
  | OpDelete id => lift RUnit (Store_DeleteConnectorInstance ctx t id s)
  | OpGetSync id => (RSync (Store_GetSyncState ctx t id s), s)
  | OpSetSync st => lift RSync (Store_SetSyncState ctx t st s)
  | OpPutToken id c => lift RUnit (Store_PutToken ctx t id c s)
  | OpGetToken id => (RBytes (Store_GetToken ctx t id s), s)
  | OpDeleteToken id => lift RUnit (Store_DeleteToken ctx t id s)
  | OpCount => (RCount (Store_CountConnectorInstances ctx t s), s)
  | OpPurge => lift RPurge (Store_PurgeTenant ctx t s)
  | OpResidue => (RBool (Store_TenantResidue ctx t s), s)
  | OpUsage => (RUsage (Store_GetTenantUsage ctx t s), s)
  | OpSetStatus st => lift RCount (Store_SetTenantConnectorStatus env ctx t st s)
  | OpGetPersonalization => (RPers (Store_GetPersonalization ctx t s), s)
  | OpPutPreferences p => lift RCount (Store_PutPreferences env ctx t p s)
  | OpAppendFeedback ev => lift RUnit (Store_AppendFeedback env ctx t ev s)
  | OpUpdateWeights f => lift RUnit (Store_UpdateLearnedWeights env ctx t f s)
  | OpResetLearning => lift RCount (Store_ResetLearning ctx t s)
  end.

Fixpoint perform_all {S} `{!Store S} (cs : list Call) (s : S) : list Resp * S :=
  match cs with
  | [] => ([], s)
  | c :: cs => let '(r, s) := perform c s in let '(rs, s) := perform_all cs s in (r :: rs, s)
  end.

Lemma perform_exec c (m : memStore) : perform c m = exec c m.
Proof. by destruct c as [???[]]. Qed.

(** The call with every clock reading the one of the transaction. *)
Definition tx_env (env : Env) : Env := mkEnv (λ _, pg_now env) (λ _, pg_now env) (new_uuid env).

(** ** The view *)
Definition rows_of (t : TenantID) (l : list (TenantID * FeedbackEvent)) : list FeedbackEvent :=
  (List.filter (λ r, String.eqb r.1 t) l).*2.
Definition by_tenant (l : list (TenantID * FeedbackEvent)) : gmap TenantID (list FeedbackEvent) :=
  foldl (λ m r, <[r.1 := default [] (m !! r.1) ++ [r.2]]> m) ∅ l.

Definition view (d : Database) : memStore :=
  mk (db_tenants d) (db_instances d) (db_syncs d)
    ((λ r, mkToken r.1 r.2) <$> db_tokens d)
    ((λ r, mkPrefs r.1 r.2 true) <$> db_prefs d)
    ((λ r, mkWeights r.1 r.2 true) <$> db_weights d)
    (by_tenant (db_feedback d)).

Lemma lookup_by_tenant l t :
  by_tenant l !! t = match rows_of t l with [] => None | evs => Some evs end.
Proof.
  induction l as [|r l IH] using rev_ind; [done|].
  unfold by_tenant, rows_of in *. rewrite foldl_app, List.filter_app, fmap_app. simpl.
  destruct (String.eqb_spec r.1 t) as [<-|Hne]; simpl.
  - rewrite lookup_insert_eq, IH. by destruct (List.filter _ _).
  - rewrite lookup_insert_ne, IH, app_nil_r by done. done.
Qed.

Lemma default_by_tenant l t : default [] (by_tenant l !! t) = rows_of t l.
Proof. rewrite lookup_by_tenant. by destruct (rows_of t l). Qed.

Lemma by_tenant_app t ev l : by_tenant (l ++ [(t, ev)]) = <[t := default [] (by_tenant l !! t) ++ [ev]]> (by_tenant l).
Proof. unfold by_tenant. by rewrite foldl_app. Qed.

Lemma rows_of_drop t u l :
  rows_of u (List.filter (λ r, negb (String.eqb r.1 t)) l) = if decide (u = t) then [] else rows_of u l.
Proof.
  unfold rows_of. induction l as [|r l IH]; simpl; [by case_decide|].
  destruct (String.eqb_spec r.1 t) as [Hr|Hr]; simpl; [rewrite IH|].
  - case_decide; [done|]. destruct (String.eqb_spec r.1 u); [congruence|done].
  - destruct (String.eqb_spec r.1 u); csimpl; rewrite IH; case_decide; done || congruence.
Qed.

Lemma by_tenant_drop t l : by_tenant (List.filter (λ r, negb (String.eqb r.1 t)) l) = delete t (by_tenant l).
Proof.
  apply map_eq. intros u. rewrite lookup_by_tenant, rows_of_drop. case_decide as Hu.
  - subst. by rewrite lookup_delete_eq.
  - by rewrite lookup_delete_ne, lookup_by_tenant by done.
Qed.

(** The guard of every method, and its round trips. *)
Ltac method := unfold run, guarded, guarded_read; destruct (ctx_err _); [done|]; simpl.

(** ** What the database stores of a call *)
Section agree.
Context `{!PgTypes}.

Definition jsonb_form (j : string) : string := default j (pg_jsonb j).
Definition uuid_form (id : string) : string := default id (pg_uuid id).
Definition sync_form (st : SyncState) : SyncState :=
  mkSyncState (uuid_form (ss_instance st)) (ss_tenant st) (ss_cursor st) (ss_phase st)
    (pg_time <$> ss_started st) (pg_time <$> ss_completed st) (ss_last_error st) (ss_docs st).

(** An update sees an absent model as the default of the column. *)
Definition update_form (f : string → Z → result StoreErr (string * Z)) (w : string) (n : Z) : result StoreErr (string * Z) :=
  match f (if String.eqb w "" then "{}" else w) n with Ok (j, k) => Ok (jsonb_form j, k) | Err e => Err e end.

Definition stored_op (op : Op) : Op :=
  match op with
  | OpCreate cn dn cfg st max => OpCreate cn dn (jsonb_form cfg) st max
  | OpGet id => OpGet (uuid_form id)
  | OpDelete id => OpDelete (uuid_form id)
  | OpGetSync id => OpGetSync (uuid_form id)
  | OpSetSync st => OpSetSync (sync_form st)
  | OpPutToken id c => OpPutToken (uuid_form id) c
  | OpGetToken id => OpGetToken (uuid_form id)
  | OpDeleteToken id => OpDeleteToken (uuid_form id)
  | OpPutPreferences p => OpPutPreferences (jsonb_form p)
  | OpUpdateWeights f => OpUpdateWeights (update_form f)
  | _ => op
  end.

Definition stored (c : Call) : Call := mkCall (c_tenant c) (c_ctx c) (tx_env (c_env c)) (stored_op (c_op c)).

(** [CreateConnectorInstance] answers with the text of its caller. *)
Definition stored_resp (c : Call) (r : Resp) : Resp :=
  match c_op c, r with
  | OpCreate _ _ _ _ _, RInst (Ok i) =>
    RInst (Ok (mkInstance (ci_id i) (ci_tenant i) (ci_connector i) (ci_display i) (jsonb_form (ci_config i)) (ci_status i) (ci_created i) (ci_updated i)))
  | _, _ => r
  end.

(** The values the database accepts: its texts, a uuid no row has, counters
    within [bigint], and an update that fails only for a registered tenant. *)
Definition accepts (texts : list string) : Prop := forallb pg_text texts = true.

Definition clean_op (t : TenantID) (env : Env) (op : Op) (d : Database) : Prop :=
  match op with
  | OpCreate cn dn cfg st _ => accepts [t; cn; dn; st] ∧ is_Some (pg_jsonb cfg) ∧ db_instances d !! new_uuid env = None
  | OpGet id | OpDelete id | OpGetSync id | OpPutToken id _ | OpGetToken id | OpDeleteToken id => accepts [t] ∧ is_Some (pg_uuid id)
  | OpSetSync st => accepts [t; ss_cursor st; ss_phase st; ss_last_error st] ∧ is_Some (pg_uuid (ss_instance st))
  | OpUsage => accepts [t] ∧ int64_ok (docs_sum t d)
  | OpSetStatus st => accepts [t; st]
  | OpPutPreferences p => accepts [t] ∧ is_Some (pg_jsonb p) ∧ match db_prefs d !! t with Some row => 0 <= row.2 < 2 ^ 63 - 1 | None => True end
  | OpAppendFeedback ev => accepts [t; fe_doc ev; fe_type ev; fe_connector ev; fe_action ev; fe_query ev]
  | OpUpdateWeights f =>
    accepts [t] ∧ let cur := default ("{}", 0) (db_weights d !! t) in
    cur.1 ≠ "" ∧ match f cur.1 cur.2 with Ok (j, _) => is_Some (pg_jsonb j) | Err _ => is_Some (db_tenants d !! t) end
  | _ => accepts [t]
  end.

Definition clean_call (c : Call) (d : Database) : Prop := clean_op (c_tenant c) (c_env c) (c_op c) d.

Fixpoint clean_calls (cs : list Call) (d : Database) : Prop :=
  match cs with [] => True | c :: cs => clean_call c d ∧ clean_calls cs (perform c d).2 end.

(** ** Statements that pass their parameters *)
Lemma params_ok {A} texts (q : sql A) d : accepts texts → params texts q d = q d.
Proof. unfold accepts, params. by intros ->. Qed.

Lemma uuid_ok {A} id (q : string → sql A) d : is_Some (pg_uuid id) → uuid_param id q d = q (uuid_form id) d.
Proof. unfold uuid_param, uuid_form. by intros [? ->]. Qed.

Lemma jsonb_ok {A} j (q : string → sql A) d : is_Some (pg_jsonb j) → jsonb_param j q d = q (jsonb_form j) d.
Proof. unfold jsonb_param, jsonb_form. by intros [? ->]. Qed.

Lemma accepts_head t l : accepts (t :: l) → accepts [t].
Proof. unfold accepts. simpl. by destruct (pg_text t). Qed.

Definition ensured (t : TenantID) (now : Z) (d : Database) : Database :=
  match db_tenants d !! t with Some _ => d | None => with_tenants (insert t now) d end.

Lemma insert_tenant_ok t now d : accepts [t] → insert_tenant t now d = Ok (tt, ensured t now d).
Proof. intros. unfold insert_tenant. by rewrite params_ok. Qed.

Lemma ensured_same t now d :
  db_instances (ensured t now d) = db_instances d ∧ db_prefs (ensured t now d) = db_prefs d ∧
  db_weights (ensured t now d) = db_weights d ∧ db_feedback (ensured t now d) = db_feedback d.
Proof. unfold ensured. by destruct (db_tenants d !! t). Qed.

Lemma ensured_row t now d : is_Some (db_tenants (ensured t now d) !! t).
Proof. unfold ensured. destruct (db_tenants d !! t) eqn:E; [by rewrite E|]. simpl. by rewrite lookup_insert_eq. Qed.

Lemma view_ensured t now d : view (ensured t now d) = ensureRow t now (view d).
Proof. unfold ensured, ensureRow. simpl. by destruct (db_tenants d !! t). Qed.

Lemma find_instance_view t id d : find_instance t id d = ownedInstance t id (view d).
Proof. done. Qed.

Lemma find_token_view t id d : find_token t id d = tok_cipher <$> ownedToken t id (view d).
Proof.
  unfold find_token, ownedToken. simpl. rewrite lookup_fmap.
  destruct (db_tokens d !! id) as [[o c]|]; simpl; [|done]. by destruct (String.eqb o t).
Qed.

Lemma count_owned_view t d : Z.of_nat (size (owned_rows t d)) = countOwned t (instances (view d)).
Proof. by rewrite countOwned_countZ. Qed.

(** ** The methods, one by one *)
Notation "m '≈' x" := (m = (x.1, view x.2)) (at level 70, x at level 69).

Lemma EnsureTenant_agrees env ctx t d : accepts [t] → EnsureTenant (tx_env env) ctx t (view d) ≈ run ctx (pg_EnsureTenant env t) d.
Proof.
  intros Ht. unfold EnsureTenant. method. unfold upsert_tenant. rewrite params_ok by done.
  by destruct (db_tenants d !! t).
Qed.

Lemma Create_agrees env ctx t cn dn cfg st max d :
  accepts [t; cn; dn; st] → is_Some (pg_jsonb cfg) → db_instances d !! new_uuid env = None →
  let x := run ctx (pg_CreateConnectorInstance env (mkInstance "" t cn dn cfg st 0 0) max) d in
  CreateConnectorInstance (tx_env env) ctx (mkInstance "" t cn dn (jsonb_form cfg) st 0 0) max (view d) =
  (match x.1 with
   | Ok i => Ok (mkInstance (ci_id i) (ci_tenant i) (ci_connector i) (ci_display i) (jsonb_form (ci_config i)) (ci_status i) (ci_created i) (ci_updated i))
   | Err e => Err e end, view x.2).
Proof.
  intros Ht Hj Hid. pose proof (accepts_head _ _ Ht) as Ht1.
  destruct (ensured_same t (pg_now env) d) as (Hi & _). destruct (ensured_row t (pg_now env) d) as [r Hr].
  unfold CreateConnectorInstance. method.
  assert (Hlock : ∀ k : tx ConnectorInstance, run_tx d (if 0 <? max then TxStmt "create connector instance: lock" (params [t] (answer tt)) (λ _, k) else k) d = run_tx d k d).
  { intros k. destruct (0 <? max); [|done]. simpl. by rewrite params_ok. }
  rewrite Hlock. simpl. rewrite insert_tenant_ok by done. simpl. unfold insert_instance. simpl.
  rewrite params_ok, jsonb_ok by done. simpl.
  replace (size (owned_rows t (ensured t (pg_now env) d))) with (size (owned_rows t d)) by (unfold owned_rows; by rewrite Hi).
  rewrite count_owned_view. change (instances (view d)) with (db_instances d).
  rewrite (Z.leb_antisym 0 max), (Z.leb_antisym (countOwned t (db_instances d)) max), Hi.
  destruct (0 <? max); simpl; [destruct (_ <? _); simpl; [|done]|];
    rewrite bool_decide_false by (rewrite Hid; by intros [? [=]]);
    rewrite bool_decide_true by eauto; simpl; rewrite <- view_ensured; done.
Qed.

Lemma Get_agrees ctx t id d :
  accepts [t] → is_Some (pg_uuid id) → GetConnectorInstance ctx t (uuid_form id) (view d) = (run ctx (pg_GetConnectorInstance t id) d).1.
Proof.
  intros Ht Hid. unfold GetConnectorInstance. method. unfold select_instance. rewrite params_ok, uuid_ok by done.
  simpl. rewrite find_instance_view. by destruct (ownedInstance t (uuid_form id) (view d)).
Qed.

Lemma Delete_agrees ctx t id d :
  accepts [t] → is_Some (pg_uuid id) → DeleteConnectorInstance ctx t (uuid_form id) (view d) ≈ run ctx (pg_DeleteConnectorInstance t id) d.
Proof.
  intros Ht Hid. unfold DeleteConnectorInstance. method. unfold delete_instance. rewrite params_ok, uuid_ok by done.
  rewrite find_instance_view. destruct (ownedInstance t (uuid_form id) (view d)); [|done].
  simpl. f_equal. apply store_eq; try done. simpl. by rewrite fmap_delete.
Qed.

Lemma GetSync_agrees ctx t id d :
  WF (view d) → accepts [t] → is_Some (pg_uuid id) → GetSyncState ctx t (uuid_form id) (view d) = (run ctx (pg_GetSyncState t id) d).1.
Proof.
  intros Hwf Ht Hid. unfold GetSyncState. method. unfold select_sync. rewrite params_ok, uuid_ok by done.
  simpl. rewrite find_instance_view. destruct (ownedInstance t (uuid_form id) (view d)) as [inst|] eqn:E; [|done].
  apply ownedInstance_Some in E as [Hi Ht']. pose proof (wf_id _ Hwf _ _ Hi) as Hii. simpl.
  destruct (db_syncs d !! uuid_form id) as [ss|] eqn:Es; simpl; [|by rewrite Hii, Ht'].
  destruct (wf_sync _ Hwf _ _ Es) as (Hs & inst' & Hi' & Ht''). rewrite Hi in Hi'. injection Hi' as <-.
  unfold cloneSyncState. destruct ss; simpl in *. congruence.
Qed.

Lemma SetSync_agrees ctx t st d :
  WF (view d) → accepts [t; ss_cursor st; ss_phase st; ss_last_error st] → is_Some (pg_uuid (ss_instance st)) →
  SetSyncState ctx t (sync_form st) (view d) ≈ run ctx (pg_SetSyncState t st) d.
Proof.
  intros Hwf Ht Hid. unfold SetSyncState. method. unfold upsert_sync. rewrite params_ok, uuid_ok by done.
  rewrite find_instance_view. destruct (ownedInstance t (uuid_form (ss_instance st)) (view d)) as [inst|] eqn:E; [|done].
  apply ownedInstance_Some in E as [Hi Ht'].
  assert (match db_syncs d !! uuid_form (ss_instance st) with Some old => ss_tenant old | None => ci_tenant inst end = t) as ->; [|done].
  destruct (db_syncs d !! _) eqn:Es; [|done]. destruct (wf_sync _ Hwf _ _ Es) as (_ & ? & ? & ?). congruence.
Qed.

Lemma PutToken_agrees ctx t id c d :
  WF (view d) → accepts [t] → is_Some (pg_uuid id) → PutToken ctx t (uuid_form id) c (view d) ≈ run ctx (pg_PutToken t id c) d.
Proof.
  intros Hwf Ht Hid. unfold PutToken. method. unfold upsert_token. rewrite params_ok, uuid_ok by done.
  rewrite find_instance_view. destruct (ownedInstance t (uuid_form id) (view d)) as [inst|] eqn:E; [|done].
  apply ownedInstance_Some in E as [Hi Ht'].
  assert (match db_tokens d !! uuid_form id with Some (old, _) => old | None => ci_tenant inst end = t) as ->.
  { destruct (db_tokens d !! _) as [[o k]|] eqn:Es; [|done].
    destruct (wf_tok _ Hwf (uuid_form id) (mkToken o k)) as (? & ? & ?); [simpl; by rewrite lookup_fmap, Es|]. simpl in *. congruence. }
  simpl. f_equal. apply store_eq; try done. simpl. by rewrite fmap_insert.
Qed.

Lemma GetToken_agrees ctx t id d :
  accepts [t] → is_Some (pg_uuid id) → GetToken ctx t (uuid_form id) (view d) = (run ctx (pg_GetToken t id) d).1.
Proof.
  intros Ht Hid. unfold GetToken. method. unfold select_token. rewrite params_ok, uuid_ok by done.
  simpl. rewrite find_token_view. by destruct (ownedToken t (uuid_form id) (view d)).
Qed.

Lemma DeleteToken_agrees ctx t id d :
  accepts [t] → is_Some (pg_uuid id) → DeleteToken ctx t (uuid_form id) (view d) ≈ run ctx (pg_DeleteToken t id) d.
Proof.
  intros Ht Hid. unfold DeleteToken. method. unfold delete_token. rewrite params_ok, uuid_ok by done.
  rewrite find_token_view. destruct (ownedToken t (uuid_form id) (view d)); [|done].
  simpl. f_equal. apply store_eq; try done. simpl. by rewrite fmap_delete.
Qed.

Lemma List_agrees ctx t d :
  WF (view d) → accepts [t] → ListConnectorInstances ctx t (view d) = (run ctx (pg_ListConnectorInstances t) d).1.
Proof.
  intros Hwf Ht. unfold ListConnectorInstances. method. unfold select_owned. rewrite params_ok by done. simpl. f_equal.
  apply sort_unique; eauto using inst_leb_total, inst_leb_trans.
  - intros a b Ha Hb H1 H2. apply (instances_id_inj (view d)); [done|..|by apply inst_leb_antisym];
      (eapply elem_of_submseteq; [eassumption|]; apply sublist_submseteq, fmap_sublist, sublist_filter).
  - apply (fmap_Permutation snd). apply filter_map_to_list.
Qed.

Lemma Count_agrees ctx t d : accepts [t] → CountConnectorInstances ctx t (view d) = (run ctx (pg_CountConnectorInstances t) d).1.
Proof. intros Ht. unfold CountConnectorInstances. method. unfold count_owned. rewrite params_ok by done. simpl. by rewrite count_owned_view. Qed.

Lemma Residue_agrees ctx t d :
  WF (view d) → accepts [t] → TenantResidue ctx t (view d) = (run ctx (pg_TenantResidue t) d).1.
Proof.
  intros Hwf Ht. unfold TenantResidue. method. unfold residue. rewrite params_ok by done. simpl.
  rewrite map_to_list_fmap, !lookup_fmap, default_by_tenant.
  assert (Htok : existsb (λ kv, String.eqb (tok_tenant kv.2) t) (prod_map id (λ r, mkToken r.1 r.2) <$> map_to_list (db_tokens d))
    = existsb (λ kv, String.eqb kv.2.1 t) (map_to_list (db_tokens d))) by (induction (map_to_list (db_tokens d)) as [|? ? IH]; csimpl; [done|by rewrite IH]).
  rewrite Htok.
  assert (Hfb : bool_decide (0 < length (rows_of t (db_feedback d)))%nat = existsb (λ r, String.eqb r.1 t) (db_feedback d)).
  { unfold rows_of. induction (db_feedback d) as [|r l IH]; simpl; [done|]. by destruct (String.eqb r.1 t). }
  rewrite Hfb.
  destruct (existsb (λ kv, String.eqb (ci_tenant kv.2) t) (map_to_list (db_instances d))) eqn:Ei; [by destruct (db_tenants d !! t)|].
  assert (existsb (λ kv, String.eqb (ss_tenant kv.2) t) (map_to_list (db_syncs d)) = false) as ->.
  { apply not_true_iff_false. intros ([id ss] & Hin & Heq)%existsb_exists. apply list_elem_of_In, elem_of_map_to_list in Hin.
    destruct (wf_sync _ Hwf _ _ Hin) as (_ & inst & Hi & Hten). apply not_true_iff_false in Ei. apply Ei.
    apply existsb_exists. exists (id, inst). split; [by apply list_elem_of_In, elem_of_map_to_list|]. simpl in *. by rewrite Hten. }
  by destruct (db_tenants d !! t), (existsb _ (map_to_list (db_tokens d))), (db_prefs d !! t), (db_weights d !! t), (existsb _ (db_feedback d)).
Qed.

Lemma SetStatus_agrees env ctx t st d :
  accepts [t; st] → SetTenantConnectorStatus (tx_env env) ctx t st (view d) ≈ run ctx (pg_SetTenantConnectorStatus env t st) d.
Proof.
  intros Ht. destruct (ctx_err ctx) eqn:E; [unfold SetTenantConnectorStatus, run, guarded; by rewrite E|].
  rewrite SetTenantConnectorStatus_spec by done. unfold run. rewrite E. simpl. unfold update_status. by rewrite params_ok.
Qed.

Lemma GetPersonalization_agrees ctx t d : accepts [t] → GetPersonalization ctx t (view d) = (run ctx (pg_GetPersonalization t) d).1.
Proof.
  intros Ht. unfold GetPersonalization. method. unfold select_prefs. rewrite params_ok by done. simpl.
  unfold select_weights. rewrite params_ok by done. simpl. rewrite !lookup_fmap.
  by destruct (db_prefs d !! t) as [[]|], (db_weights d !! t) as [[]|].
Qed.

Lemma PutPreferences_agrees env ctx t p d :
  accepts [t] → is_Some (pg_jsonb p) → match db_prefs d !! t with Some row => 0 <= row.2 < 2 ^ 63 - 1 | None => True end →
  PutPreferences (tx_env env) ctx t (jsonb_form p) (view d) ≈ run ctx (pg_PutPreferences env t p) d.
Proof.
  intros Ht Hp Hv. unfold PutPreferences. method. rewrite insert_tenant_ok by done. unfold upsert_prefs.
  rewrite params_ok, jsonb_ok, bool_decide_true by (done || apply ensured_row).
  rewrite <- view_ensured. simpl. rewrite lookup_fmap.
  destruct (ensured_same t (pg_now env) d) as (_ & Hprefs & _). rewrite Hprefs.
  destruct (db_prefs d !! t) as [[prof v]|] eqn:E; simpl.
  - simpl in Hv. assert (wrap64 (v + 1) = v + 1) as ->
      by (apply wrap64_id; unfold int64_ok; lia).
    rewrite (proj2 (Z.ltb_lt (v + 1) (2 ^ 63))) by lia. rewrite (proj2 (Z.ltb_ge (v + 1) 1)) by lia.
    simpl. f_equal. apply store_eq; try done. simpl. by rewrite fmap_insert.
  - f_equal. apply store_eq; try done. simpl. by rewrite fmap_insert.
Qed.

Lemma AppendFeedback_agrees env ctx t ev d :
  accepts [t; fe_doc ev; fe_type ev; fe_connector ev; fe_action ev; fe_query ev] →
  AppendFeedback (tx_env env) ctx t ev (view d) ≈ run ctx (pg_AppendFeedback env t ev) d.
Proof.
  intros Ht. unfold AppendFeedback. method. rewrite insert_tenant_ok by (by eapply accepts_head). unfold insert_feedback.
  rewrite params_ok, bool_decide_true by (done || apply ensured_row). simpl. rewrite <- view_ensured.
  f_equal. apply store_eq; try done. simpl. by rewrite by_tenant_app.
Qed.

Lemma UpdateWeights_agrees env ctx t f d :
  clean_op t env (OpUpdateWeights f) d →
  UpdateLearnedWeights (tx_env env) ctx t (update_form f) (view d) ≈ run ctx (pg_UpdateLearnedWeights env t f) d.
Proof.
  intros (Ht & Hne & Hf). unfold UpdateLearnedWeights. method. rewrite insert_tenant_ok by done. unfold insert_weights.
  rewrite params_ok, bool_decide_true by (done || apply ensured_row). rewrite <- view_ensured.
  destruct (ensured_same t (pg_now env) d) as (_ & _ & Hw & _). simpl. rewrite lookup_fmap, Hw.
  assert (Hun : is_Some (db_tenants d !! t) → ensured t (pg_now env) d = d) by (intros [? E]; unfold ensured; by rewrite E).
  unfold lock_weights. rewrite params_ok by done. unfold update_form.
  destruct (db_weights d !! t) as [[w n]|] eqn:E; simpl in *; [rewrite Hw, E|rewrite lookup_insert_eq]; simpl;
    [rewrite (proj2 (String.eqb_neq w "")) by done|];
    (destruct (f _ _) as [[j k]|e]; simpl; [|by rewrite Hun]);
    unfold update_weights; rewrite params_ok, jsonb_ok by done; simpl;
    rewrite ?Hw, ?E, ?lookup_insert_eq; simpl; f_equal; apply store_eq; try done; simpl; rewrite ?Hw, ?insert_insert_eq; by rewrite fmap_insert.
Qed.

Lemma ResetLearning_agrees ctx t d : accepts [t] → ResetLearning ctx t (view d) ≈ run ctx (pg_ResetLearning t) d.
Proof.
  intros Ht. unfold ResetLearning. method. unfold delete_weights. rewrite params_ok by done. simpl.
  unfold delete_feedback. rewrite params_ok by done. simpl. rewrite default_by_tenant. unfold rows_of. rewrite length_fmap.
  f_equal. apply store_eq; try done; simpl; [by rewrite fmap_delete|by rewrite by_tenant_drop].
Qed.

(** ** Usage *)
Lemma usage_fold t d ds :
  map_fold (usage_round t (view d)) (0, 0, 0) ds =
  (countZ (owned t) ds, countZ (λ kv, ci_status kv.2 = "PAUSED") (base.filter (owned t) ds),
   wrap64 (map_fold (λ id _ n, n + match db_syncs d !! id with Some ss => ss_docs ss | None => 0 end) 0 (base.filter (owned t) ds))).
Proof.
  induction ds as [|i x ds Hi IH] using map_ind; [by rewrite map_filter_empty, !countZ_empty, !map_fold_empty|].
  rewrite map_fold_insert_L by (auto using usage_round_comm). rewrite IH. unfold usage_round. rewrite eqb_decide, countZ_insert by done.
  assert (Hif : base.filter (owned t) ds !! i = None) by (apply map_lookup_filter_None; by left).
  destruct (decide (owned t (i, x))) as [Ho|Ho].
  - rewrite bool_decide_true, map_filter_insert_True, countZ_insert by done.
    rewrite map_fold_insert_L by (auto; intros; lia). rewrite eqb_decide. simpl.
    f_equal; [f_equal|].
    + case_bool_decide; case_decide; done || lia.
    + destruct (db_syncs d !! i); [apply wrap64_wrap|by rewrite Z.add_0_r].
  - rewrite bool_decide_false, map_filter_insert_False, delete_id by done. by rewrite Z.add_0_r.
Qed.

Lemma usage_agrees t created d :
  int64_ok (docs_sum t d) → usage_row d (t, created) = Ok (usageLocked t created (view d)).
Proof.
  intros Hs. unfold usage_row, usageLocked. rewrite usage_fold. fold (owned_rows t d).
  change (map_fold _ 0 (base.filter (owned t) (instances (view d)))) with (docs_sum t d). rewrite wrap64_id by done.
  unfold int64_ok in Hs. rewrite (proj2 (Z.leb_le _ _)), (proj2 (Z.ltb_lt _ _)) by lia. done.
Qed.

#[local] Arguments usage_row : simpl never.

Lemma Usage_agrees ctx t d :
  accepts [t] → int64_ok (docs_sum t d) → GetTenantUsage ctx t (view d) = (run ctx (pg_GetTenantUsage t) d).1.
Proof.
  intros Ht Hs. unfold GetTenantUsage. method. unfold select_usage. rewrite params_ok by done. simpl.
  destruct (db_tenants d !! t) as [created|]; [|done]. by rewrite usage_agrees.
Qed.

(** ** Purging *)
Lemma lookup_cascade {A} t d (m : gmap string A) id :
  cascade (owned_rows t d) m !! id = match db_instances d !! id with Some i => if decide (ci_tenant i = t) then None else m !! id | None => m !! id end.
Proof.
  assert (Hg : owned_rows t d !! id = None ↔ (∀ i, db_instances d !! id = Some i → ci_tenant i ≠ t)).
  { unfold owned_rows. rewrite map_lookup_filter_None. simpl. destruct (db_instances d !! id); naive_solver. }
  apply option_eq. intros x. unfold cascade. rewrite map_lookup_filter_Some. simpl. rewrite Hg.
  destruct (db_instances d !! id) as [i|]; [case_decide|]; naive_solver.
Qed.

Lemma drop_instances_spec t d :
  db_instances (drop_instances t d) = minus (owned t) (db_instances d) (db_instances d) ∧
  db_syncs (drop_instances t d) = minus (owned t) (db_instances d) (db_syncs d) ∧
  db_tokens (drop_instances t d) = minus (owned t) (db_instances d) (db_tokens d).
Proof.
  split_and!; apply map_eq; intros id; rewrite lookup_minus; simpl; [|by rewrite lookup_cascade..].
  rewrite map_lookup_filter. destruct (db_instances d !! id) as [i|]; simpl; [|done]. unfold owned. simpl.
  case_decide; [by rewrite option_guard_False by tauto|by rewrite option_guard_True].
Qed.

Lemma owner_filter {A} (f : A → TenantID) t (insts : gmap string ConnectorInstance) (m : gmap string A) :
  (∀ id x, m !! id = Some x → ∃ i, insts !! id = Some i ∧ ci_tenant i = f x) →
  minus (owned t) insts (base.filter (λ kv, f kv.2 ≠ t) m) = minus (owned t) insts m.
Proof.
  intros Hm. apply map_eq. intros id. rewrite !lookup_minus. destruct (insts !! id) as [i|] eqn:Ei.
  - case_decide as Ho; [done|]. rewrite map_lookup_filter. destruct (m !! id) as [x|] eqn:Ex; [|done]. simpl.
    destruct (Hm _ _ Ex) as (i' & Hi' & Hf). rewrite option_guard_True; [done|]. unfold owned in Ho. simpl in *. congruence.
  - rewrite map_lookup_filter. destruct (m !! id) as [x|] eqn:Ex; [|done]. destruct (Hm _ _ Ex) as (? & ? & _). congruence.
Qed.

Lemma token_count t d :
  WF (view d) → countZ (purged_token t (view d)) (db_instances d) = Z.of_nat (size (base.filter (λ kv, kv.2.1 = t) (db_tokens d))).
Proof.
  intros Hwf. unfold countZ. do 1 f_equal. rewrite <- !size_dom. f_equal. apply set_eq. intros id. rewrite !elem_of_dom.
  unfold is_Some. setoid_rewrite map_lookup_filter_Some. unfold purged_token. simpl. split.
  - intros (i & Hi & Ht & tok & Hk). apply ownedToken_Some in Hk as [Hk Hkt]. simpl in Hk. rewrite lookup_fmap in Hk.
    destruct (db_tokens d !! id) as [r|]; [|done]. simplify_eq/=. eauto.
  - intros (r & Hr & Ht). destruct (wf_tok _ Hwf id (mkToken r.1 r.2)) as (i & Hi & Hit); [simpl; by rewrite lookup_fmap, Hr|].
    simpl in *. exists i. split; [done|]. split; [congruence|]. eexists. apply ownedToken_Some. simpl. rewrite lookup_fmap, Hr. by split.
Qed.

Lemma purged_tokens t d :
  WF (view d) → minus (purged_token t (view d)) (db_instances d) (tokens (view d)) = minus (owned t) (db_instances d) (tokens (view d)).
Proof.
  intros Hwf. apply map_eq. intros id. rewrite !lookup_minus. destruct (db_instances d !! id) as [i|] eqn:Ei; [|done].
  destruct (tokens (view d) !! id) as [tok|] eqn:Ek; [|by do 2 case_decide].
  destruct (wf_tok _ Hwf _ _ Ek) as (i' & Hi' & Hit). simpl in Hi'. rewrite Ei in Hi'. injection Hi' as <-.
  apply decide_ext. unfold purged_token, owned. simpl. split; [by intros []|]. intros Ho. split; [done|].
  exists tok. apply ownedToken_Some. split; [done|congruence].
Qed.

Lemma minus_fmap {A B C} (P : string * A → Prop) `{∀ x, Decision (P x)} (f : B → C) ds m : minus P ds (f <$> m) = f <$> minus P ds m.
Proof.
  apply map_eq. intros id. rewrite lookup_fmap, !lookup_minus, lookup_fmap. destruct (ds !! id); [by case_decide|done].
Qed.

(** Deleting the instances a second time does nothing. *)
Lemma minus_again {B} t insts (m : gmap string B) : minus (owned t) (minus (owned t) insts insts) m = m.
Proof.
  apply map_eq. intros id. rewrite !lookup_minus. destruct (insts !! id) as [i|]; [|done].
  case_decide; [done|]. by rewrite decide_False.
Qed.

Lemma Purge_agrees ctx t d :
  WF (view d) → accepts [t] → PurgeTenant ctx t (view d) ≈ run ctx (pg_PurgeTenant t) d.
Proof.
  intros Hwf Ht. destruct (ctx_err ctx) eqn:Ec; [unfold PurgeTenant, run, guarded; by rewrite Ec|].
  rewrite PurgeTenant_spec by done. unfold run. rewrite Ec. simpl.
  unfold delete_tokens, delete_syncs, delete_feedback, delete_weights, delete_prefs, delete_instances, delete_tenant.
  repeat (rewrite params_ok by done; simpl). rewrite token_count by done. f_equal.
  match goal with |- context [drop_instances t (drop_instances t ?x)] => set (d1 := x) end.
  pose proof (drop_instances_spec t (drop_instances t d1)) as (Hi2 & Hs2 & Hk2). pose proof (drop_instances_spec t d1) as (Hi1 & Hs1 & Hk1).
  rewrite Hi1, minus_again in Hi2. rewrite Hi1, minus_again, Hs1 in Hs2. rewrite Hi1, minus_again, Hk1 in Hk2.
  apply store_eq; [done|by simpl|..].
  - symmetry. etrans; [exact Hs2|]. apply (owner_filter ss_tenant). intros id ss Hss. by apply (wf_sync _ Hwf).
  - etrans; [by apply purged_tokens|]. symmetry. simpl. rewrite minus_fmap. f_equal.
    etrans; [exact Hk2|]. apply (owner_filter fst). intros id r Hr.
    apply (wf_tok _ Hwf id (mkToken r.1 r.2)). simpl. by rewrite lookup_fmap, Hr.
  - simpl. by rewrite !fmap_delete, delete_delete_eq.
  - simpl. by rewrite !fmap_delete, delete_delete_eq.
  - simpl. by rewrite !by_tenant_drop, delete_delete_eq.
Qed.

(** ** Every call *)
Lemma perform_agrees c d :
  WF (view d) → clean_call c d →
  exec (stored c) (view d) = (stored_resp c (perform c d).1, view (perform c d).2).
Proof.
  intros Hwf Hc. destruct c as [t ctx env op]. unfold clean_call in Hc. simpl in Hc.
  destruct op; simpl in Hc; unfold exec, stored, wrap_st; cbn [stored_op c_tenant c_ctx c_env c_op].
  - by rewrite (EnsureTenant_agrees _ _ _ _ Hc).
  - destruct Hc as (Ht & Hj & Hid). rewrite (Create_agrees env ctx t connector display config status maxInstances d) by done.
    simpl. by destruct (run ctx _ d).1.
  - by rewrite List_agrees.
  - by rewrite Get_agrees by naive_solver.
  - by rewrite (Delete_agrees ctx t id d) by naive_solver.
  - by rewrite GetSync_agrees by naive_solver.
  - by rewrite (SetSync_agrees ctx t st d) by naive_solver.
  - by rewrite (PutToken_agrees ctx t id ciphertext d) by naive_solver.
  - by rewrite GetToken_agrees by naive_solver.
  - by rewrite (DeleteToken_agrees ctx t id d) by naive_solver.
  - by rewrite Count_agrees.
  - by rewrite (Purge_agrees ctx t d).
  - by rewrite Residue_agrees.
  - by rewrite Usage_agrees by naive_solver.
  - by rewrite (SetStatus_agrees env ctx t status d).
  - by rewrite GetPersonalization_agrees.
  - by rewrite (PutPreferences_agrees env ctx t profileJSON d) by (by destruct Hc as (? & ? & ?)).
  - by rewrite (AppendFeedback_agrees env ctx t ev d).
  - by rewrite (UpdateWeights_agrees env ctx t update d).
  - by rewrite (ResetLearning_agrees ctx t d).
Qed.

Lemma clean_fresh c d : clean_call c d → fresh_call (stored c) (view d).
Proof. destruct c as [t ctx env []]; simpl; try done. by intros (_ & _ & ?). Qed.

Fixpoint stored_resps (cs : list Call) (rs : list Resp) : list Resp :=
  match cs, rs with c :: cs, r :: rs => stored_resp c r :: stored_resps cs rs | _, _ => rs end.
End agree.

(** C5. The Postgres store refines the in-memory one: for any sequence of
    tenant-scoped calls whose values the database accepts, it answers what
    [memStore] answers to the same calls with their documents, identifiers and
    times in the form the database stores (the answer to a creation carries the
    configuration as its caller wrote it), and its tables keep reading as the
    maps of [memStore]. *)
Theorem pg_refines_mem `{!PgTypes} cs d :
  WF (view d) → clean_calls cs d →
  perform_all (stored <$> cs) (view d) = (stored_resps cs (perform_all cs d).1, view (perform_all cs d).2)
  ∧ WF (view (perform_all cs d).2).
Proof.
  revert d. induction cs as [|c cs IH]; intros d Hwf Hc; [done|]. destruct Hc as [Hc Hcs].
  pose proof (perform_agrees c d Hwf Hc) as Hstep.
  pose proof (exec_WF (stored c) (view d) Hwf (clean_fresh c d Hc)) as Hwf'. rewrite Hstep in Hwf'.
  rewrite fmap_cons. cbn [perform_all]. rewrite perform_exec, Hstep.
  destruct (perform c d) as [r d'] eqn:E. simpl in *. destruct (IH d' Hwf' Hcs) as [Hrun Hwf2].
  rewrite Hrun. by destruct (perform_all cs d') as [rs d''].
Qed.

(** ** The listings across tenants

    With the collation of bytes they are the ones of [memStore]; a page of
    tenants must have a positive size. *)
Section listings.
Context `{!PgTypes} (Hcoll : ∀ a b, coll_leb a b = str_leb a b).

Lemma coll_all_bytes a b : coll_all_leb a b = all_leb a b.
Proof using Hcoll.
  unfold coll_all_leb, all_leb. rewrite !Hcoll. unfold str_leb.
  rewrite (string_compare_antisym (ci_tenant b) (ci_tenant a)). by destruct (String.compare (ci_tenant a) (ci_tenant b)).
Qed.

Lemma ListAll_agrees ctx d : ListAll ctx (view d) = (run ctx pg_ListAll d).1.
Proof using Hcoll.
  unfold ListAll. method. f_equal. symmetry. apply sort_ext. apply coll_all_bytes.
Qed.

Lemma scan_rows_agree d rows :
  (∀ row, row ∈ rows → int64_ok (docs_sum row.1 d)) → scan_rows d rows = Ok ((λ kv, usageLocked kv.1 kv.2 (view d)) <$> rows).
Proof using Type.
  induction rows as [|[t created] rows IH]; intros Hs; [done|]. cbn [scan_rows].
  rewrite usage_agrees by (apply (Hs (t, created)); left). by rewrite IH by (intros; apply Hs; by right).
Qed.

Lemma ListTenants_agrees ctx after limit d :
  accepts [after] → 0 < limit → (∀ t, int64_ok (docs_sum t d)) →
  ListTenants ctx after limit (view d) = (run ctx (pg_ListTenants after limit) d).1.
Proof using Hcoll.
  intros Ha Hl Hs. unfold ListTenants. method. unfold select_tenants. rewrite params_ok by done.
  rewrite (proj2 (Z.ltb_lt 0 limit)), (proj2 (Z.ltb_ge limit 0)) by lia.
  rewrite scan_rows_agree by (intros; apply Hs). simpl. do 3 f_equal.
  rewrite (sort_ext (λ a b, coll_leb a.1 b.1) (λ a b, str_leb a.1 b.1)) by (intros; apply Hcoll). f_equal.
  apply List.filter_ext. intros kv. rewrite Hcoll. unfold str_ltb, str_leb.
  rewrite (string_compare_antisym kv.1 after). by destruct (String.compare after kv.1).
Qed.
End listings.

(** ** Lost connections *)
Definition failed (r : Resp) : Prop :=
  match r with
  | RTenant (Err _) | RInst (Err _) | RInsts (Err _) | RUnit (Err _) | RSync (Err _) | RBytes (Err _)
  | RCount (Err _) | RPurge (Err _) | RBool (Err _) | RUsage (Err _) | RPers (Err _) => True
  | _ => False
  end.

Section faults.
Context `{!PgTypes}.

Definition run_faulty {A} (fs : list Fate) (ctx : Ctx) (p : pg A) (d : Database) : result StoreErr A * Database :=
  match ctx_err ctx with Some e => (Err (ErrCtx e), d) | None => run_with fs p d end.

Definition perform_with (fs : list Fate) (c : Call) (d : Database) : Resp * Database :=
  let '(mkCall t ctx env op) := c in
  match op with
  | OpEnsureTenant => lift RTenant (run_faulty fs ctx (pg_EnsureTenant env t) d)
  | OpCreate cn dn cfg st max => lift RInst (run_faulty fs ctx (pg_CreateConnectorInstance env (mkInstance "" t cn dn cfg st 0 0) max) d)
  | OpList => lift RInsts (run_faulty fs ctx (pg_ListConnectorInstances t) d)
  | OpGet id => lift RInst (run_faulty fs ctx (pg_GetConnectorInstance t id) d)
  | OpDelete id => lift RUnit (run_faulty fs ctx (pg_DeleteConnectorInstance t id) d)
  | OpGetSync id => lift RSync (run_faulty fs ctx (pg_GetSyncState t id) d)
  | OpSetSync st => lift RSync (run_faulty fs ctx (pg_SetSyncState t st) d)
  | OpPutToken id c => lift RUnit (run_faulty fs ctx (pg_PutToken t id c) d)
  | OpGetToken id => lift RBytes (run_faulty fs ctx (pg_GetToken t id) d)
  | OpDeleteToken id => lift RUnit (run_faulty fs ctx (pg_DeleteToken t id) d)
  | OpCount => lift RCount (run_faulty fs ctx (pg_CountConnectorInstances t) d)
  | OpPurge => lift RPurge (run_faulty fs ctx (pg_PurgeTenant t) d)
  | OpResidue => lift RBool (run_faulty fs ctx (pg_TenantResidue t) d)
  | OpUsage => lift RUsage (run_faulty fs ctx (pg_GetTenantUsage t) d)
  | OpSetStatus st => lift RCount (run_faulty fs ctx (pg_SetTenantConnectorStatus env t st) d)
  | OpGetPersonalization => lift RPers (run_faulty fs ctx (pg_GetPersonalization t) d)
  | OpPutPreferences p => lift RCount (run_faulty fs ctx (pg_PutPreferences env t p) d)
  | OpAppendFeedback ev => lift RUnit (run_faulty fs ctx (pg_AppendFeedback env t ev) d)
  | OpUpdateWeights f => lift RUnit (run_faulty fs ctx (pg_UpdateLearnedWeights env t f) d)
  | OpResetLearning => lift RCount (run_faulty fs ctx (pg_ResetLearning t) d)
  end.

(** [x] happened as [y], or failed with the tables of before or of after. *)
Definition settled {A} (d : Database) (x y : result StoreErr A * Database) : Prop :=
  x = y ∨ ∃ e, x.1 = Err e ∧ (x.2 = d ∨ x.2 = y.2).

Lemma run_tx_settled {A} d0 (p : tx A) : ∀ fs d, settled d0 (run_tx_with fs d0 p d) (run_tx d0 p d).
Proof.
  unfold settled. induction p as [e|X label q k IH|label a]; intros fs d; simpl; [by left|..].
  - destruct (fate fs); [|right; eauto..]. destruct (q d) as [[x d']|err]; [apply IH|by left].
  - destruct (fate fs); [by left|right; eauto..].
Qed.

(** A method of one statement or of one transaction. *)
Definition single {A} (p : pg A) : Prop :=
  match p with PgStmt _ _ k => ∀ x, ∃ r, k x = PgRet r | _ => True end.

Lemma run_settled {A} (p : pg A) fs ctx d : single p → settled d (run_faulty fs ctx p d) (run ctx p d).
Proof.
  unfold run_faulty, run. destruct (ctx_err ctx); [by left|]. destruct p as [r|X label q k|label b]; simpl.
  - by left.
  - intros Hk. unfold settled. destruct (fate fs); [|right; eauto|right].
    + destruct (q d) as [[x d']|err]; [|by left]. destruct (Hk x) as [r ->]. by left.
    + destruct (q d) as [[x d']|err]; [|by eauto]. destruct (Hk x) as [r ->]. eauto.
  - intros _. destruct (fate fs); [apply run_tx_settled|right; eauto..].
Qed.

(** A read changes no table. *)
Definition reads {A} (q : sql A) : Prop := ∀ d, match q d with Ok (_, d') => d' = d | Err _ => True end.

Lemma reads_params {A} texts (q : sql A) : reads q → reads (params texts q).
Proof. intros Hq d. unfold params. destruct (forallb _ _); [apply Hq|done]. Qed.

Lemma reads_uuid {A} id (q : string → sql A) : (∀ id, reads (q id)) → reads (uuid_param id q).
Proof. intros Hq d. unfold uuid_param. destruct (pg_uuid id); [apply Hq|done]. Qed.

Lemma reads_select {A} (f : Database → A) : reads (select f).
Proof. by intros d. Qed.

Lemma reads_usage t : reads (select_usage t).
Proof.
  apply reads_params. intros d. cbn beta. destruct (db_tenants d !! t) as [created|]; [|done]. by destruct (usage_row d (t, created)).
Qed.

Fixpoint reading {A} (p : pg A) : Prop :=
  match p with PgRet _ => True | PgStmt _ q k => reads q ∧ ∀ x, reading (k x) | PgTx _ _ => False end.

Lemma run_reading {A} (p : pg A) ctx d :
  reading p → (run ctx p d).2 = d ∧ ∀ fs, settled d (run_faulty fs ctx p d) (run ctx p d).
Proof.
  unfold run, run_faulty. destruct (ctx_err ctx); [by split; [|left]|].
  induction p as [r|X label q k IH|label b]; simpl; [by split; [|left]| |done].
  intros [Hq Hk]. specialize (Hq d). unfold settled. destruct (q d) as [[x d']|err].
  - subst d'. destruct (IH x (Hk x)) as [Hr Hs]. split; [done|]. intros fs.
    destruct (fate fs); [apply Hs|right; eauto..].
  - split; [done|]. intros fs. destruct (fate fs); [by left|right; eauto..].
Qed.

(** What a call interrupted at any round trip may come to. *)
Definition interrupted (c : Call) (d : Database) (x : Resp * Database) : Prop :=
  x = perform c d ∨
  failed x.1 ∧ (x.2 = d ∨ x.2 = (perform c d).2 ∨
    ∃ ev, c_op c = OpAppendFeedback ev ∧ x.2 = ensured (c_tenant c) (pg_now (c_env c)) d).

Lemma write_interrupted {A} R (p : pg A) c fs d :
  single p → (∀ e, failed (R (Err e))) → perform c d = lift R (run (c_ctx c) p d) → interrupted c d (lift R (run_faulty fs (c_ctx c) p d)).
Proof.
  intros Hp HR Hc. unfold interrupted. rewrite Hc. unfold lift.
  destruct (run_settled p fs (c_ctx c) d Hp) as [->|(e & -> & Hd)]; [by left|right]. split; [apply HR|]. simpl. tauto.
Qed.

Lemma read_interrupted {A} R (p : pg A) c fs d :
  reading p → (∀ e, failed (R (Err e))) → perform c d = (R (run (c_ctx c) p d).1, d) → interrupted c d (lift R (run_faulty fs (c_ctx c) p d)).
Proof.
  intros Hp HR Hc. unfold interrupted. rewrite Hc. unfold lift.
  destruct (run_reading p (c_ctx c) d Hp) as [Hd Hs]. destruct (Hs fs) as [->|(e & -> & Hx)]; [left; by rewrite Hd|right].
  split; [apply HR|]. simpl. rewrite Hd in Hx. tauto.
Qed.

Lemma feedback_interrupted ev c fs d :
  c_op c = OpAppendFeedback ev → perform c d = lift RUnit (run (c_ctx c) (pg_AppendFeedback (c_env c) (c_tenant c) ev) d) →
  interrupted c d (lift RUnit (run_faulty fs (c_ctx c) (pg_AppendFeedback (c_env c) (c_tenant c) ev) d)).
Proof.
  intros Hop Hc. unfold interrupted. rewrite Hc. unfold lift, run, run_faulty. destruct (ctx_err (c_ctx c)); [by left|]. simpl.
  assert (Hins : insert_tenant (c_tenant c) (pg_now (c_env c)) d = Ok (tt, ensured (c_tenant c) (pg_now (c_env c)) d)
    ∨ ∃ e, insert_tenant (c_tenant c) (pg_now (c_env c)) d = Err e).
  { unfold insert_tenant, params. destruct (forallb _ _); [by left|right; eauto]. }
  destruct (fate fs); [|right; split; [done|by left]|right; split; [done|]; destruct Hins as [->|[e' ->]]; simpl; by eauto 7].
  destruct Hins as [->|[e' ->]]; [|by left]. set (d1 := ensured _ _ d).
  destruct (fate (tail fs)); simpl; [by left|right; split; [done|]; simpl; by eauto 7|].
  right. split; [done|]. simpl. destruct (insert_feedback _ ev d1) as [[? d2]|]; by eauto 7.
Qed.
End faults.

Ltac read_stmt := first [apply reads_usage | repeat (apply reads_params || (apply reads_uuid; intros ?)); apply reads_select].
Ltac interrupted_by L :=
  match goal with |- interrupted ?c _ (lift ?R (run_faulty ?fs _ ?p _)) => apply (L _ R p c fs) end; [|done|reflexivity].

(** C30. A method of the Postgres store that loses its connection at any of its
    round trips, before or after the statement took effect, has not happened or
    has happened entirely, and reports success only in the second case; only
    [AppendFeedback], which is no transaction, may leave the row of the tenant
    alone. *)
Theorem pg_all_or_nothing `{!PgTypes} c fs d : interrupted c d (perform_with fs c d).
Proof.
  destruct c as [t ctx env op]. destruct op; unfold perform_with.
  all: try (apply (feedback_interrupted ev (mkCall t ctx env (OpAppendFeedback ev))); done).
  all: try (interrupted_by (@write_interrupted _); exact I || (intros x; unfold affected, found; repeat case_match; eauto)).
  all: interrupted_by (@read_interrupted _); split; [read_stmt|]; intros x; unfold found; repeat case_match; try done.
  all: split; [read_stmt|done].
Qed.

(** ** The table of wrapped keys keeps the contract of [DEKStore] *)
#[export] Instance pgDEKStore_Laws `{!DekLink} : DEKStoreLaws pgDEKStore.
Proof.
  refine {| dek_view := pd_rows |}; simpl.
  - intros i t s w. unfold pg_GetWrappedDEK, dek_exec.
    destruct (String.eqb t ""), (in_ctx i), (dek_link i); simpl; try done. destruct (pd_rows s !! t); by intros [= ->].
  - intros i t s. unfold pg_GetWrappedDEK, dek_exec.
    destruct (String.eqb t ""), (in_ctx i), (dek_link i); simpl; try done. by destruct (pd_rows s !! t).
  - intros i t w s. unfold pg_PutWrappedDEK, dek_exec.
    destruct (String.eqb t ""); [by left|]. case_bool_decide; [by left|]. destruct (in_ctx i); [by left|].
    destruct (dek_link i); simpl; try (by left); (destruct (pd_rows s !! t) eqn:E; [by left|by right]).
  - intros i t s. unfold pg_DeleteDEK, dek_exec. by destruct (String.eqb t ""), (in_ctx i), (dek_link i).
Defined.

(** ** Witness *)
#[local] Instance demo_pg : PgTypes := {|
  pg_text := λ s, negb (existsb (λ a, Ascii.eqb a Ascii.zero) (String.list_ascii_of_string s));
  pg_jsonb := λ j, if String.eqb j "[1,2]" then Some "[1, 2]" else if String.eqb j "{}" then Some "{}" else None;
  pg_uuid := λ id, if String.eqb id "I1" || String.eqb id "i1" then Some "i1" else None;
  coll_leb := str_leb
|}.

Definition pg_calls : list Call :=
  [ mkCall "alice" demo_ctx (demo_env "i1") (OpCreate "gmail" "mail" "[1,2]" "ACTIVE" 1);
    mkCall "alice" demo_ctx (demo_env "i2") (OpCreate "slack" "chat" "{}" "ACTIVE" 1);
    mkCall "alice" demo_ctx (demo_env "") (OpGet "I1");
    mkCall "alice" demo_ctx (demo_env "") (OpSetSync (mkSyncState "I1" "" "c" "STEADY" (Some 1500) None "" 40));
    mkCall "alice" demo_ctx (demo_env "") (OpPutToken "I1" "secret");
    mkCall "bob" demo_ctx (demo_env "") (OpGetToken "i1");
    mkCall "alice" demo_ctx (demo_env "") (OpPutPreferences "[1,2]");
    mkCall "alice" demo_ctx (demo_env "") (OpUpdateWeights (λ w n, Ok ("[1,2]", n + 1)));
    mkCall "alice" demo_ctx (demo_env "") OpUsage;
    mkCall "alice" demo_ctx (demo_env "") OpPurge;
    mkCall "alice" demo_ctx (demo_env "") OpResidue ].

Lemma pg_calls_clean : clean_calls pg_calls db_empty.
Proof. vm_compute. repeat split; eauto; try discriminate. Qed.

Lemma pg_refines_mem_witness :
  (perform_all pg_calls db_empty).2 = db_empty ∧
  perform_all (stored <$> pg_calls) (view db_empty) = (stored_resps pg_calls (perform_all pg_calls db_empty).1, view (perform_all pg_calls db_empty).2).
Proof.
  split; [vm_compute; reflexivity|]. apply (pg_refines_mem pg_calls db_empty); [apply newMemStore_WF|apply pg_calls_clean].
Defined.
