(* ===== verification/KeyCustody.v ===== *)
(** * Where the keys come from

    Models the back ends behind the interfaces of [Crypto]: the file of the
    development KEK (kek.go, loadOrCreateKEKFile and readKEKFile), the Vault
    Transit client (vault.go), the choice between them (selectkek.go) and the
    hub's directory of wrapped DEKs (services/connector-hub/dekstore.go).

    A file system maps names to nodes; every system call is one action, which
    may fail.  [os.CreateTemp] makes a name nobody else uses: the name is an
    argument of the program, and that names differ is a hypothesis of the
    theorems. *)

From stdpp Require Import base gmap strings list pretty.
From Stdlib Require Import Ascii ZArith Lia.
From S2P Require Import Prelude GoStrings GoText GoEncode Tenancy Crypto Kafka ConnectorRun Erasure.

(** ** Files *)
Record Node := mkNode { nd_regular : bool; nd_perm : Z; nd_bytes : bytes }.
Abbreviation FS := (gmap string Node) (only parsing).

Inductive FsErr := FsNotExist | FsExist | FsOther (msg : string).

(** Which system calls fail, how much a failed write had written, and the
    random part of a temporary name. *)
Class Disk := {
  disk_fault : Inp → string → option string;
  disk_cut : Inp → nat;
  disk_temp : Inp → N
}.

Section files.
Context `{!Disk}.

Definition syscall {A} (name : string) (ok : FS → result FsErr A * FS) (i : Inp) (fs : FS) : result FsErr A * FS :=
  match disk_fault i name with Some e => (Err (FsOther e), fs) | None => ok fs end.

Definition os_Lstat (path : string) : Inp → FS → result FsErr Node * FS :=
  syscall "lstat" (λ fs, (match fs !! path with Some n => Ok n | None => Err FsNotExist end, fs)).

Definition os_ReadFile (path : string) : Inp → FS → result FsErr bytes * FS :=
  syscall "open" (λ fs, (match fs !! path with Some n => Ok (nd_bytes n) | None => Err FsNotExist end, fs)).

(** Directories are not nodes of the model. *)
Definition os_MkdirAll : Inp → FS → result FsErr unit * FS := syscall "mkdir" (λ fs, (Ok tt, fs)).

Definition os_CreateTemp (tmp : string) : Inp → FS → result FsErr unit * FS :=
  syscall "create" (λ fs,
    match fs !! tmp with Some _ => (Err FsExist, fs) | None => (Ok tt, <[tmp := mkNode true 384 []]> fs) end).

Definition append_to (tmp : string) (b : bytes) (fs : FS) : FS :=
  match fs !! tmp with Some n => <[tmp := mkNode (nd_regular n) (nd_perm n) (nd_bytes n ++ b)]> fs | None => fs end.

Definition os_Write (tmp : string) (b : bytes) (i : Inp) (fs : FS) : result FsErr unit * FS :=
  match disk_fault i "write" with
  | Some e => (Err (FsOther e), append_to tmp (take (disk_cut i) b) fs)
  | None => (Ok tt, append_to tmp b fs)
  end.

Definition os_Close : Inp → FS → result FsErr unit * FS := syscall "close" (λ fs, (Ok tt, fs)).

Definition os_Chmod (tmp : string) (perm : Z) : Inp → FS → result FsErr unit * FS :=
  syscall "chmod" (λ fs,
    match fs !! tmp with Some n => (Ok tt, <[tmp := mkNode (nd_regular n) perm (nd_bytes n)]> fs) | None => (Err FsNotExist, fs) end).

Definition os_Link (tmp path : string) : Inp → FS → result FsErr unit * FS :=
  syscall "link" (λ fs,
    match fs !! tmp, fs !! path with
    | None, _ => (Err FsNotExist, fs)
    | _, Some _ => (Err FsExist, fs)
    | Some n, None => (Ok tt, <[path := n]> fs)
    end).

Definition os_Remove (path : string) : Inp → FS → result FsErr unit * FS :=
  syscall "remove" (λ fs, match fs !! path with None => (Err FsNotExist, fs) | Some _ => (Ok tt, delete path fs) end).

(** A call, and what follows. *)
Definition call {A B} (f : Inp → FS → A * FS) (k : A → prog FS B) : prog FS B := Atomic _ f k.

Definition fs_text (e : FsErr) : string :=
  match e with FsNotExist => "file does not exist" | FsExist => "file already exists" | FsOther m => m end.

(** Errors of the KEK file: the wrapped file error stays recognisable. *)
Inductive FileErr := FileFs (msg : string) (e : FsErr) | FileBad (msg : string).

(** ** The KEK file (kek.go) *)
Definition kekSize : nat := 32%nat.

Definition readKEKFile (path : string) : prog FS (result FileErr bytes) :=
  call (os_Lstat path) (λ info,
  match info with
  | Err e => Ret (Err (FileFs "crypto: stat KEK file" e))
  | Ok n =>
    if negb (nd_regular n) then Ret (Err (FileBad "crypto: KEK file is not a regular file"))
    else if negb (Z.land (nd_perm n) 63 =? 0)%Z then Ret (Err (FileBad "crypto: refusing KEK file with group/world-accessible mode"))
    else call (os_ReadFile path) (λ r,
      match r with
      | Err e => Ret (Err (FileFs "crypto: read KEK file" e))
      | Ok key =>
        if negb (bool_decide (length key = kekSize)) then Ret (Err (FileBad "crypto: KEK file must be 32 bytes"))
        else Ret (Ok key)
      end)
  end).

(** [defer os.Remove(tmpName)]: the result is there before it runs. *)
Definition removing {A} (tmp : string) (r : A) : prog FS A := call (os_Remove tmp) (λ _, Ret r).

(** From the temporary file to the link. *)
Definition installKEK (tmp path : string) (key : bytes) : prog FS (result FileErr bytes) :=
  call (os_Write tmp key) (λ r,
  match r with
  | Err e => call os_Close (λ _, removing tmp (Err (FileFs "crypto: write KEK" e)))
  | Ok _ =>
    call os_Close (λ r,
    match r with
    | Err e => removing tmp (Err (FileFs "crypto: write KEK" e))
    | Ok _ =>
      call (os_Chmod tmp 384) (λ r,
      match r with
      | Err e => removing tmp (Err (FileFs "crypto: chmod KEK" e))
      | Ok _ =>
        call (os_Link tmp path) (λ r,
        match r with
        | Err FsExist => bind (readKEKFile path) (removing tmp)
        | Err e => removing tmp (Err (FileFs "crypto: install KEK file" e))
        | Ok _ => removing tmp (Ok key)
        end)
      end)
    end)
  end).

Definition createKEK (tmp path : string) : prog FS (result FileErr bytes) :=
  call os_MkdirAll (λ r,
  match r with
  | Err e => Ret (Err (FileFs "crypto: create KEK directory" e))
  | Ok _ =>
    call (input (λ i, ReadFull i kekSize)) (λ key,
    match key with
    | None => Ret (Err (FileBad "crypto: generate KEK"))
    | Some key =>
      call (os_CreateTemp tmp) (λ r,
      match r with
      | Err e => Ret (Err (FileFs "crypto: create KEK temp file" e))
      | Ok _ => installKEK tmp path key
      end)
    end)
  end).

Definition loadOrCreateKEKFile (tmp path : string) : prog FS (result FileErr bytes) :=
  bind (readKEKFile path) (λ r,
  match r with
  | Ok key => Ret (Ok key)
  | Err (FileFs _ FsNotExist) => createKEK tmp path
  | Err e => Ret (Err e)
  end).

Definition NewFileKEK (tmp path : string) : prog FS (result FileErr fileKEK) :=
  bind (loadOrCreateKEKFile tmp path) (λ r,
  match r with
  | Err e => Ret (Err e)
  | Ok key => match newAESGCM key with Err e => Ret (Err (FileBad ("crypto: init KEK cipher: " +:+ e))) | Ok aead => Ret (Ok (mkFileKEK aead)) end
  end).

(** ** The hub's directory of wrapped DEKs (dekstore.go)

    The directory is a clean path and a tenant holds no separator, so that
    filepath.Join only puts one between them. *)
Definition dek_path (dir : string) (t : TenantID) : string := dir +:+ "/" +:+ t +:+ ".dek".
Definition dek_temp (dir : string) (i : Inp) : string := dir +:+ "/.dek-tmp-" +:+ pretty (disk_temp i).

(** The guards every method starts with. *)
Definition dek_guard {A} (t : TenantID) (k : prog FS (result BackErr A)) : prog FS (result BackErr A) :=
  call (input in_ctx) (λ c,
  match c with Some e => Ret (Err (BE_Ctx e)) | None => if String.eqb t "" then Ret (Err BE_NoTenant) else k end).

Definition dek_err (label : string) (e : FsErr) : BackErr := BE_Other ("connector-hub: " +:+ label +:+ ": " +:+ fs_text e).

Definition fd_GetWrappedDEK (dir : string) (t : TenantID) : prog FS (result BackErr bytes) :=
  dek_guard t (call (os_ReadFile (dek_path dir t)) (λ r,
  match r with
  | Err FsNotExist => Ret (Err BE_DEKNotFound)
  | Err e => Ret (Err (dek_err "read wrapped DEK" e))
  | Ok b => if bool_decide (length b = 0%nat) then Ret (Err (BE_Other ("connector-hub: wrapped DEK file for tenant " +:+ t +:+ " is empty"))) else Ret (Ok b)
  end)).

(** From the temporary file to the link. *)
Definition install_dek (tmp path : string) (wrapped : bytes) : prog FS (result BackErr unit) :=
  call (os_Write tmp wrapped) (λ r,
  match r with
  | Err e => call os_Close (λ _, removing tmp (Err (dek_err "write wrapped DEK" e)))
  | Ok _ =>
    call os_Close (λ r,
    match r with
    | Err e => removing tmp (Err (dek_err "close temp DEK file" e))
    | Ok _ =>
      call (os_Link tmp path) (λ r,
      match r with
      | Err FsExist => removing tmp (Ok tt)
      | Err e => removing tmp (Err (dek_err "store wrapped DEK" e))
      | Ok _ => removing tmp (Ok tt)
      end)
    end)
  end).

Definition fd_PutWrappedDEK (dir tmp : string) (t : TenantID) (wrapped : bytes) : prog FS (result BackErr unit) :=
  dek_guard t
    (if bool_decide (length wrapped = 0%nat) then Ret (Err (BE_Other "connector-hub: refusing to store empty wrapped DEK"))
     else call os_MkdirAll (λ r,
       match r with
       | Err e => Ret (Err (dek_err "create DEK dir" e))
       | Ok _ =>
         call (os_CreateTemp tmp) (λ r,
         match r with
         | Err e => Ret (Err (dek_err "create temp DEK file" e))
         | Ok _ => install_dek tmp (dek_path dir t) wrapped
         end)
       end)).

Definition fd_Delete (dir : string) (t : TenantID) : prog FS (result BackErr unit) :=
  dek_guard t (call (os_Remove (dek_path dir t)) (λ r,
  match r with
  | Ok _ | Err FsNotExist => Ret (Ok tt)
  | Err e => Ret (Err (dek_err "delete wrapped DEK" e))
  end)).

(** The store as the cipher calls it, a method at a time. *)
Record fileDEKStore := mkFileDeks { fd_dir : string; fd_files : FS }.

Definition fd_run {A} (p : prog FS A) (i : Inp) (s : fileDEKStore) : A * fileDEKStore :=
  let '(a, fs) := run p (λ _, i) (fd_files s) in (a, mkFileDeks (fd_dir s) fs).

#[export] Instance fileDEKStore_DEKStore : DEKStore fileDEKStore := {|
  GetWrappedDEK i t s := (fd_run (fd_GetWrappedDEK (fd_dir s) t) i s).1;
  PutWrappedDEK i t wrapped s := fd_run (fd_PutWrappedDEK (fd_dir s) (dek_temp (fd_dir s) i) t wrapped) i s;
  DeleteDEK i t s := fd_run (fd_Delete (fd_dir s) t) i s
|}.
End files.

(** ** Vault Transit (vault.go) *)
Definition maxVaultRespBody : Z := 1048576.

Record VaultConfig := mkVaultConfig { vc_Addr : string; vc_Token : string; vc_KeyName : string }.

(** What became of a request: it could not be built, it failed, or it was
    answered with a body that could be read or not. *)
Inductive VaultAnswer := Unbuilt (e : string) | Unreachable (e : BackErr) | Replied (status : Z) (body : result BackErr bytes).

(** [json.Marshal] of a map of strings, by key; a POST with the token; the
    text of a field of data, empty when there is none; the field errors. *)
Class Vault := {
  vault_json : list (string * string) → string;
  vault_post : Inp → string → string → string → VaultAnswer;
  vault_data : string → bytes → result string string;
  vault_errs : bytes → option (list string)
}.

(** The client, with the parts its two URLs are made of. *)
Record vaultKEK := mkVaultKEK { vk_addr : string; vk_keySeg : string; vk_token : string }.
Definition encryptURL (k : vaultKEK) : string := vk_addr k +:+ "/v1/transit/encrypt/" +:+ vk_keySeg k.
Definition decryptURL (k : vaultKEK) : string := vk_addr k +:+ "/v1/transit/decrypt/" +:+ vk_keySeg k.

Section vault.
Context `{!Vault} `{!URLs} `{!Quoting}.

Definition NewVaultKEK (cfg : VaultConfig) : result string vaultKEK :=
  let addr := TrimRightSlash (TrimSpace (vc_Addr cfg)) in
  if String.eqb addr "" then Err "crypto: vault KEK: empty Addr"
  else match url_Parse addr with
  | None => Err "crypto: vault KEK: invalid Addr"
  | Some _ =>
    if String.eqb (vc_Token cfg) "" then Err "crypto: vault KEK: empty Token"
    else if String.eqb (vc_KeyName cfg) "" then Err "crypto: vault KEK: empty KeyName"
    else Ok (mkVaultKEK addr (PathEscape (vc_KeyName cfg)) (vc_Token cfg))
  end.

Definition tenantContext (t : TenantID) : string := base64_Encode StdEncoding (to_bytes t).

Definition vaultErrors (body : bytes) : string :=
  match vault_errs body with
  | Some ((_ :: _) as errs) => Join errs "; "
  | _ => let s := TrimSpace (of_bytes body) in if String.eqb s "" then "(no body)" else s
  end.

(** An error with its context; what errors.Is recognises stays. *)
Definition within (label : string) (e : BackErr) : BackErr := match e with BE_Other m => BE_Other (label +:+ ": " +:+ m) | _ => e end.

(** [do], with the field that is wanted of the answer. *)
Definition vault_do (k : vaultKEK) (i : Inp) (url : string) (body : list (string * string)) (field : string) : result BackErr string :=
  match vault_post i url (vk_token k) (vault_json body) with
  | Unbuilt e => Err (BE_Other ("build request: " +:+ e))
  | Unreachable e => Err (within "vault request" e)
  | Replied _ (Err e) => Err (within "read vault response" e)
  | Replied status (Ok resp) =>
    let resp := limited maxVaultRespBody resp in
    if (status <? 200)%Z || (300 <=? status)%Z then Err (BE_Other ("vault returned HTTP " +:+ FormatUint status +:+ ": " +:+ vaultErrors resp))
    else match vault_data field resp with Err e => Err (BE_Other ("decode vault response: " +:+ e)) | Ok text => Ok text end
  end.

Definition vault_WrapDEK (k : vaultKEK) (i : Inp) (t : TenantID) (dek : bytes) : result BackErr bytes :=
  match in_ctx i with
  | Some e => Err (BE_Ctx e)
  | None =>
    if String.eqb t "" then Err BE_NoTenant
    else if negb (bool_decide (length dek = dekSize)) then Err (BE_Other "crypto: vault wrap DEK: key size")
    else
      let label := "crypto: vault wrap DEK for tenant " +:+ Quote t in
      match vault_do k i (encryptURL k) [("context", tenantContext t); ("plaintext", base64_Encode StdEncoding dek)] "ciphertext" with
      | Err e => Err (within label e)
      | Ok c => if String.eqb c "" then Err (BE_Other (label +:+ ": empty ciphertext in response")) else Ok (to_bytes c)
      end
  end.

Definition vault_UnwrapDEK (k : vaultKEK) (i : Inp) (t : TenantID) (wrapped : bytes) : result BackErr bytes :=
  match in_ctx i with
  | Some e => Err (BE_Ctx e)
  | None =>
    if String.eqb t "" then Err BE_NoTenant
    else if bool_decide (length wrapped = 0%nat) then Err (BE_Other "crypto: vault unwrap DEK: empty blob")
    else
      let label := "crypto: vault unwrap DEK for tenant " +:+ Quote t in
      match vault_do k i (decryptURL k) [("ciphertext", of_bytes wrapped); ("context", tenantContext t)] "plaintext" with
      | Err e => Err (within label e)
      | Ok p =>
        match DecodeString StdEncoding p with
        | None => Err (BE_Other (label +:+ ": decode plaintext"))
        | Some dek => if negb (bool_decide (length dek = dekSize)) then Err (BE_Other (label +:+ ": unexpected key size")) else Ok dek
        end
      end
  end.

#[export] Instance vaultKEK_KEKProvider : KEKProvider vaultKEK := Build_KEKProvider _ vault_WrapDEK vault_UnwrapDEK.

(** ** The choice (selectkek.go) *)
Record KEKSelection := mkSelection {
  sel_VaultAddr : string;
  sel_VaultToken : string;
  sel_VaultKeyName : string;
  sel_KEKFile : string;
  sel_IsProd : bool
}.

Inductive anyKEK := VaultBacked (k : vaultKEK) | FileBacked (k : fileKEK).

Inductive SelectErr := ErrProdRequiresVault | ErrVault (msg : string) | ErrFile (path : string) (e : FileErr).

Context `{!GCM} `{!Disk}.

#[export] Instance anyKEK_KEKProvider : KEKProvider anyKEK := {|
  WrapDEK k := match k with VaultBacked v => WrapDEK v | FileBacked f => WrapDEK f end;
  UnwrapDEK k := match k with VaultBacked v => UnwrapDEK v | FileBacked f => UnwrapDEK f end
|}.

Definition SelectKEK (tmp : string) (sel : KEKSelection) : prog FS (result SelectErr anyKEK) :=
  if negb (String.eqb (sel_VaultAddr sel) "") then
    match NewVaultKEK (mkVaultConfig (sel_VaultAddr sel) (sel_VaultToken sel)
      (if String.eqb (sel_VaultKeyName sel) "" then "asker-kek" else sel_VaultKeyName sel)) with
    | Err e => Ret (Err (ErrVault e))
    | Ok k => Ret (Ok (VaultBacked k))
    end
  else if sel_IsProd sel then Ret (Err ErrProdRequiresVault)
  else bind (NewFileKEK tmp (sel_KEKFile sel)) (λ r,
    match r with Err e => Ret (Err (ErrFile (sel_KEKFile sel) e)) | Ok k => Ret (Ok (FileBacked k)) end).
End vault.
