(* ===== verification/KeyCustodyProofs.v ===== *)
(** * Where the keys come from: proofs

    However many processes start at once, and wherever they crash, they agree
    on one key-encryption key ([kek_file_converges]); the hub's directory of
    wrapped keys and the Vault client meet the contracts the cipher is proved
    against ([fileDEKStore_Laws], [vaultKEK_Laws]); and production never runs on
    the development key ([prod_needs_vault]). *)

From stdpp Require Import base gmap strings list pretty.
From Stdlib Require Import Ascii ZArith Lia.
From S2P Require Import Prelude GoStrings GoText GoEncode HtmlText Tenancy Crypto CryptoProofs Kafka Erasure Interleave KeyCustody.

(** ** Agreement on the KEK file *)
Definition usable_key (n : Node) : Prop :=
  nd_regular n = true ∧ Z.land (nd_perm n) 63 = 0%Z ∧ length (nd_bytes n) = kekSize.

(** Everyone else leaves the key file and the temporary files alone. *)
Definition others_away (path : string) (tmp : nat → string) (w w' : gmap string Node) : Prop :=
  ∀ name, name = path ∨ (∃ j, name = tmp j) → w' !! name = w !! name.

Section agree.
Context `{!Disk} (path : string) (tmp : nat → string) (w0 : gmap string Node).
Hypothesis tmp_path : ∀ j, tmp j ≠ path.
Hypothesis tmp_inj : ∀ j j', tmp j = tmp j' → j = j'.

Definition fs_rely (j : nat) (w w' : gmap string Node) : Prop :=
  (∀ n, w !! path = Some n → w' !! path = Some n) ∧ w' !! tmp j = w !! tmp j.
Definition fs_guar (j : nat) (w w' : gmap string Node) : Prop :=
  (∀ n, w !! path = Some n → w' !! path = Some n) ∧ ∀ name, name ≠ path → name ≠ tmp j → w' !! name = w !! name.

(** What is at the path is what was there first, or a usable key. *)
Definition fs_inv (w : gmap string Node) : Prop :=
  (∀ n, w0 !! path = Some n → w !! path = Some n) ∧ (w0 !! path = None → ∀ n, w !! path = Some n → usable_key n).

Definition holds_key (r : result FileErr bytes) (w : gmap string Node) : Prop :=
  ∀ key, r = Ok key → ∃ n, w !! path = Some n ∧ nd_bytes n = key ∧ usable_key n.

#[local] Instance fs_rely_trans j : Transitive (fs_rely j).
Proof. intros a b c [H1 H2] [H3 H4]. split; [auto|congruence]. Qed.

Lemma fs_guar_refl j w : fs_guar j w w.
Proof. by split. Qed.

Lemma holds_key_stable r j w w' : fs_rely j w w' → holds_key r w → holds_key r w'.
Proof. intros [Hp _] Hh key Hr. destruct (Hh key Hr) as (n & ? & ?). eauto. Qed.

(** Moves that only touch the thread's own temporary file. *)
Definition at_tmp (j : nat) (w w' : gmap string Node) : Prop := ∀ name, name ≠ tmp j → w' !! name = w !! name.

Lemma at_tmp_ok j w w' : at_tmp j w w' → fs_inv w → fs_guar j w w' ∧ fs_inv w'.
Proof using tmp_path.
  intros Ht [Hi1 Hi2]. pose proof (Ht path (not_eq_sym (tmp_path j))) as Hp. split; [split|split].
  - intros n. by rewrite Hp.
  - intros name _ Hn. by apply Ht.
  - intros n Hn. rewrite Hp. auto.
  - intros Hn n. rewrite Hp. auto.
Qed.

Lemma at_tmp_insert j w n : at_tmp j w (<[tmp j := n]> w).
Proof. intros name Hn. by rewrite lookup_insert_ne. Qed.

Lemma at_tmp_refl j w : at_tmp j w w.
Proof. done. Qed.

Abbreviation rg' j Q p w := (rg fs_inv (fs_rely j) (fs_guar j) Q p w).

(** A call that only touches the temporary file, by its cases. *)
Lemma rg_own {A B} j (f : Inp → gmap string Node → A * gmap string Node) (k : A → prog _ B) Q w1 :
  (∀ i w, fs_rely j w1 w → fs_inv w → at_tmp j w (f i w).2 ∧ rg' j Q (k (f i w).1) (f i w).2) → rg' j Q (call f k) w1.
Proof using tmp_path.
  intros Hf i w Hr Hi. destruct (Hf i w Hr Hi) as [Ht Hk]. destruct (at_tmp_ok j w _ Ht Hi). auto.
Qed.

Lemma rg_removing j r w1 : holds_key r w1 → rg' j holds_key (removing (tmp j) r) w1.
Proof using tmp_path.
  intros Hh. apply rg_own. intros i w Hr Hi. unfold os_Remove, syscall.
  pose proof (holds_key_stable _ _ _ _ Hr Hh) as Hw.
  destruct (disk_fault i "remove"); [by split|]. destruct (w !! tmp j); cbn [fst snd negb]; [|by split]. split.
  - intros name Hn. by rewrite lookup_delete_ne.
  - intros key Hk. destruct (Hw key Hk) as (m & Hm & ?). exists m. rewrite lookup_delete_ne by apply tmp_path. auto.
Qed.

Lemma rg_failing j e w1 : rg' j holds_key (removing (tmp j) (Err e)) w1.
Proof using tmp_path. by apply rg_removing. Qed.

Lemma rg_readKEKFile j w1 : rg' j holds_key (readKEKFile path) w1.
Proof using tmp_path.
  apply rg_own. intros i w _ _. unfold os_Lstat, syscall. destruct (disk_fault i "lstat"); [by split|]. split; [done|]. cbn [fst snd negb].
  destruct (w !! path) as [n|] eqn:En; [|done].
  destruct (nd_regular n) eqn:Ereg; [|done]. destruct (Z.land (nd_perm n) 63 =? 0)%Z eqn:Ep; [|done]. cbn [fst snd negb].
  apply rg_own. intros i' w' [Hr _] _. unfold os_ReadFile, syscall. destruct (disk_fault i' "open"); [by split|]. split; [done|].
  specialize (Hr _ En). cbn [fst snd negb]. rewrite Hr. case_bool_decide as Hl; [|done]. cbn [fst snd negb]. intros key [= <-].
  exists n. split_and!; [done..|]. apply Z.eqb_eq in Ep. by split_and!.
Qed.

(** The node under the temporary name, as it is known to its thread. *)
Lemma rg_installKEK j key w1 perm :
  length key = kekSize → w1 !! tmp j = Some (mkNode true perm []) → rg' j holds_key (installKEK (tmp j) path key) w1.
Proof using tmp_path.
  intros Hk H1. apply rg_own. intros i w [_ Hr] _. rewrite H1 in Hr. unfold os_Write, append_to. rewrite Hr. cbn [fst snd negb].
  destruct (disk_fault i "write"); cbn [fst snd negb]; (split; [apply at_tmp_insert|]).
  { apply rg_own. intros i' w' _ _. unfold os_Close, syscall. destruct (disk_fault i' "close"); (split; [done|apply rg_failing]). }
  apply rg_own. intros i2 w2 [_ Hr2] _. rewrite lookup_insert_eq in Hr2. unfold os_Close, syscall.
  destruct (disk_fault i2 "close"); (split; [done|]); cbn [fst snd negb]; [apply rg_failing|].
  apply rg_own. intros i3 w3 [_ Hr3] _. rewrite Hr2 in Hr3. unfold os_Chmod, syscall.
  destruct (disk_fault i3 "chmod"); [split; [done|apply rg_failing]|]. rewrite Hr3. cbn [fst snd negb]. split; [apply at_tmp_insert|].
  intros i4 w4 [_ Hr4] Hi4. rewrite lookup_insert_eq in Hr4. unfold os_Link, syscall.
  destruct (disk_fault i4 "link"); cbn [fst snd negb]; [split_and!; [apply fs_guar_refl|done|apply rg_failing]|]. rewrite Hr4.
  destruct (w4 !! path) as [n|] eqn:Ep; cbn [fst snd negb].
  - split_and!; [apply fs_guar_refl|done|]. apply rg_bind. eapply rg_conseq; [|apply rg_readKEKFile].
    intros r w5 Hh. by apply rg_removing.
  - assert (Hgood : usable_key (mkNode true 384 key)) by done. split_and!.
    + split; [by intros n; rewrite Ep|]. intros name Hn _. by rewrite lookup_insert_ne.
    + destruct Hi4 as [Hi _]. split; [intros n Hn; specialize (Hi _ Hn); congruence|].
      intros _ n. rewrite lookup_insert_eq. by intros [= <-].
    + apply rg_removing. intros key' [= <-]. exists (mkNode true 384 key). by rewrite lookup_insert_eq.
Qed.

Lemma rg_createKEK j w1 : rg' j holds_key (createKEK (tmp j) path) w1.
Proof using tmp_path.
  apply rg_own. intros i w _ _. unfold os_MkdirAll, syscall. destruct (disk_fault i "mkdir"); (split; [done|]); cbn [fst snd negb]; [by intros ? [=]|].
  apply rg_own. intros i2 w2 _ _. split; [done|]. unfold input. cbn [fst snd]. destruct (ReadFull i2 kekSize) as [key|] eqn:Ek; [|by intros ? [=]].
  apply rg_own. intros i3 w3 _ _. unfold os_CreateTemp, syscall.
  destruct (disk_fault i3 "create"); [by split|]. destruct (w3 !! tmp j); [by split|]. cbn [fst snd negb]. split; [apply at_tmp_insert|].
  eapply rg_installKEK; [by eapply ReadFull_length|apply lookup_insert_eq].
Qed.

Lemma rg_loadOrCreate j w1 : rg' j holds_key (loadOrCreateKEKFile (tmp j) path) w1.
Proof using tmp_path.
  apply rg_bind. eapply rg_conseq; [|apply rg_readKEKFile]. intros [key|[m []|m]] w Hh; try done. apply rg_createKEK.
Qed.
End agree.

(** C7. However many processes load or create the key file at once, whatever
    system calls fail and wherever a process stops, all that end with a key end
    with the one in the file; a file that was there is never replaced, and one
    that was not is never seen before it is complete, private and of the right
    size. *)
Theorem kek_file_converges `{!Disk} path tmp (w0 : gmap string Node) n N :
  (∀ j, tmp j ≠ path) → (∀ j j', tmp j = tmp j' → j = j') →
  star (net_step (others_away path tmp)) (mkNet w0 ((λ j, loadOrCreateKEKFile (tmp j) path) <$> seq 0 n)) N →
  (∀ j key, net_threads N !! j = Some (Ret (Ok key)) →
    ∃ node, net_world N !! path = Some node ∧ nd_bytes node = key ∧ usable_key node) ∧
  (∀ node, w0 !! path = Some node → net_world N !! path = Some node) ∧
  (w0 !! path = None → ∀ node, net_world N !! path = Some node → usable_key node).
Proof.
  intros Htp Hinj Hs.
  assert (Hok : net_ok (fs_inv path w0) (fs_rely path tmp) (fs_guar path tmp) (λ _, holds_key path) N).
  { eapply (net_invariant (others_away path tmp)); [..|exact Hs].
    - intros j. apply fs_rely_trans.
    - intros j a w w'. apply holds_key_stable.
    - intros j j' w w' Hne [Hp Hg]. split; [done|]. apply Hg; [apply Htp|]. intros E. by apply Hinj in E.
    - intros j w. by split.
    - intros j w w' _ He. split; [|apply He; eauto]. intros m. rewrite (He path) by auto. done.
    - intros w w' [Hi1 Hi2] He. pose proof (He path (or_introl eq_refl)) as Hp. split; intros; rewrite Hp in *; auto.
    - split; [split; [done|]; simpl; congruence|]. intros j p Hp. simpl in *.
      apply list_lookup_fmap_Some in Hp as (j' & -> & Hj). apply lookup_seq in Hj as [-> _]. by apply rg_loadOrCreate. }
  destruct Hok as [[Hi1 Hi2] Ht]. split; [|by split].
  intros j key Hj. exact (Ht j _ Hj key eq_refl).
Qed.

(** With a working disk and random source a process alone gets a key, leaves no
    temporary file, and the next one gets the same. *)
Definition disk_works `{!Disk} (i : Inp) : Prop := ∀ call, disk_fault i call = None.

Lemma kek_file_available `{!Disk} tmp path ins w :
  (∀ n, disk_works (ins n) ∧ is_Some (in_rand (ins n))) → tmp ≠ path → w !! tmp = None → w !! path = None →
  ∃ key, length key = kekSize ∧ run (loadOrCreateKEKFile tmp path) ins w = (Ok key, <[path := mkNode true 384 key]> w).
Proof.
  intros Hins Hne Ht Hp. assert (Hf : ∀ n c, disk_fault (ins n) c = None) by apply Hins.
  destruct (Hins 2%nat) as [_ [g Hg]]. exists (g <$> seq 0 kekSize). split; [by rewrite length_fmap, length_seq|].
  unfold loadOrCreateKEKFile, readKEKFile, call, os_Lstat, syscall. simpl. rewrite Hf, Hp. simpl.
  unfold os_MkdirAll, syscall. rewrite Hf. simpl. unfold ReadFull. rewrite Hg. simpl.
  unfold os_CreateTemp, syscall. rewrite Hf, Ht. simpl. unfold os_Write, append_to. rewrite Hf, lookup_insert_eq. simpl.
  unfold os_Close, syscall. rewrite Hf. simpl. unfold os_Chmod, syscall. rewrite Hf, insert_insert_eq, lookup_insert_eq. simpl.
  unfold os_Link, syscall. rewrite Hf, insert_insert_eq, lookup_insert_eq, lookup_insert_ne, Hp by done. simpl.
  unfold os_Remove, syscall. rewrite Hf, lookup_insert_ne, lookup_insert_eq by done. simpl. f_equal.
  by rewrite delete_insert_ne, delete_insert_id by done.
Qed.

(** ** The hub's directory meets the contract of [DEKStore] *)
Definition tenant_of (dir name : string) : option TenantID :=
  let dir := dir +:+ "/" in
  if HasPrefix name dir then
    let rest := drop_str (String.length dir) name in
    let t := take_str (String.length rest - 4) rest in
    if String.eqb rest (t +:+ ".dek") then Some t else None
  else None.

Lemma dek_path_app dir t : dek_path dir t = (dir +:+ "/") +:+ (t +:+ ".dek").
Proof. apply to_bytes_inj. unfold dek_path. by rewrite !to_bytes_app, <- !app_assoc. Qed.

Lemma tenant_of_spec dir name t : tenant_of dir name = Some t ↔ name = dek_path dir t.
Proof.
  unfold tenant_of. rewrite dek_path_app. split.
  - destruct (HasPrefix name (dir +:+ "/")) eqn:E; [|done]. apply HasPrefix_spec in E as [rest ->]. rewrite drop_str_app.
    destruct (String.eqb_spec rest (take_str (String.length rest - 4) rest +:+ ".dek")) as [Hr|]; [|done].
    intros [= <-]. by rewrite <- Hr.
  - intros ->. rewrite (proj2 (HasPrefix_spec _ _)) by eauto. rewrite drop_str_app, length_append.
    replace (String.length t + String.length ".dek" - 4)%nat with (String.length t) by (cbn; lia).
    by rewrite take_str_app, String.eqb_refl.
Qed.

Lemma dek_path_inj dir t u : dek_path dir t = dek_path dir u → t = u.
Proof. intros Hp. apply tenant_of_spec in Hp. rewrite (proj2 (tenant_of_spec dir _ t) eq_refl) in Hp. congruence. Qed.

(** The wrapped keys of the directory, by tenant. *)
Definition dek_files (dir : string) (fs : gmap string Node) : gmap TenantID bytes :=
  map_fold (λ name n m, match tenant_of dir name with Some t => <[t := nd_bytes n]> m | None => m end) ∅ fs.

Lemma lookup_dek_files dir fs t : dek_files dir fs !! t = nd_bytes <$> fs !! dek_path dir t.
Proof.
  revert t. unfold dek_files. apply (map_fold_weak_ind (λ r m, ∀ t, r !! t = nd_bytes <$> m !! dek_path dir t)); [done|].
  intros name n m r Hn IH t. destruct (tenant_of dir name) as [u|] eqn:E.
  - apply tenant_of_spec in E as ->. destruct (decide (u = t)) as [->|Hne]; [by rewrite !lookup_insert_eq|].
    rewrite !lookup_insert_ne; [apply IH| |done]. intros Hp. by apply dek_path_inj in Hp.
  - rewrite lookup_insert_ne; [apply IH|]. intros ->. by rewrite (proj2 (tenant_of_spec dir _ t) eq_refl) in E.
Qed.

(** A temporary name is no tenant's. *)
Lemma dek_temp_path `{!Disk} dir i t : dek_temp dir i ≠ dek_path dir t.
Proof.
  unfold dek_temp, dek_path. intros Hp. apply (f_equal to_bytes) in Hp. rewrite !to_bytes_app in Hp. apply app_inv_head in Hp.
  apply (f_equal (@rev ascii)) in Hp. rewrite !rev_app_distr in Hp.
  destruct (FormatUint_digits (Z.of_N (disk_temp i))) as (_ & Hne & _). pose proof (FormatUint_free "k" (Z.of_N (disk_temp i)) eq_refl) as Hk.
  unfold FormatUint in *. rewrite N2Z.id in *. destruct (rev (to_bytes (pretty (disk_temp i)))) as [|c l] eqn:E.
  - apply Hne. by rewrite <- (rev_involutive (to_bytes _)), E.
  - apply Hk. injection Hp as Hc _. subst c. apply list_elem_of_In, in_rev. rewrite E. by left.
Qed.

(** What a method leaves of the tenants' files: all as before, or a tenant
    without a key has got the one that was put. *)
Definition put_effect (dir : string) (t : TenantID) (wrapped : bytes) (fs fs' : gmap string Node) : Prop :=
  dek_files dir fs' = dek_files dir fs ∨
  dek_files dir fs !! t = None ∧ dek_files dir fs' = <[t := wrapped]> (dek_files dir fs).

Lemma dek_files_ext dir (fs fs' : gmap string Node) :
  (∀ u, fs' !! dek_path dir u = fs !! dek_path dir u) → dek_files dir fs' = dek_files dir fs.
Proof. intros Hu. apply map_eq. intros u. by rewrite !lookup_dek_files, Hu. Qed.

Section put.
Context `{!Disk} (dir tmp : string) (i : Inp).
Hypothesis Htmp : ∀ u, tmp ≠ dek_path dir u.

Lemma files_insert_tmp n fs : dek_files dir (<[tmp := n]> fs) = dek_files dir fs.
Proof using Htmp. apply dek_files_ext. intros u. by rewrite lookup_insert_ne. Qed.

Lemma files_delete_tmp fs : dek_files dir (delete tmp fs) = dek_files dir fs.
Proof using Htmp. apply dek_files_ext. intros u. by rewrite lookup_delete_ne. Qed.

Lemma files_append_tmp b fs : dek_files dir (append_to tmp b fs) = dek_files dir fs.
Proof using Htmp. unfold append_to. destruct (fs !! tmp); [apply files_insert_tmp|done]. Qed.

Lemma removing_files {A} (r : A) ins fs : dek_files dir (run (removing tmp r) ins fs).2 = dek_files dir fs.
Proof using Htmp.
  unfold removing, call, os_Remove, syscall. cbn. destruct (disk_fault _ _); [done|]. destruct (fs !! tmp); [apply files_delete_tmp|done].
Qed.

#[local] Arguments removing : simpl never.

Lemma install_effect t wrapped ins fs n :
  fs !! tmp = Some n → nd_bytes n = [] → put_effect dir t wrapped fs (run (install_dek tmp (dek_path dir t) wrapped) ins fs).2.
Proof using Htmp.
  intros Hn Hb. unfold install_dek, call. cbn. unfold os_Write. destruct (disk_fault _ "write"); cbn.
  { unfold os_Close, syscall. destruct (disk_fault _ "close"); cbn; left; rewrite removing_files; apply files_append_tmp. }
  unfold os_Close, syscall. destruct (disk_fault _ "close"); cbn; [left; rewrite removing_files; apply files_append_tmp|].
  unfold os_Link, syscall. destruct (disk_fault _ "link"); cbn; [left; rewrite removing_files; apply files_append_tmp|].
  unfold append_to. rewrite Hn, Hb, lookup_insert_eq. cbn. rewrite lookup_insert_ne by done.
  destruct (fs !! dek_path dir t) eqn:Ep; cbn; [left; rewrite removing_files; apply files_insert_tmp|].
  right. rewrite lookup_dek_files, Ep. split; [done|]. rewrite removing_files. apply map_eq. intros u.
  rewrite lookup_dek_files. destruct (decide (t = u)) as [->|Hne]; [by rewrite !lookup_insert_eq|].
  rewrite !lookup_insert_ne by (done || (intros Hp; by apply dek_path_inj in Hp)). by rewrite lookup_dek_files.
Qed.

#[local] Arguments install_dek : simpl never.

Lemma put_run t wrapped ins fs : put_effect dir t wrapped fs (run (fd_PutWrappedDEK dir tmp t wrapped) ins fs).2.
Proof using Htmp.
  unfold fd_PutWrappedDEK, dek_guard, call. cbn. destruct (in_ctx _); [by left|]. destruct (String.eqb t ""); [by left|].
  case_bool_decide; [by left|]. cbn. unfold os_MkdirAll, syscall. destruct (disk_fault _ "mkdir"); cbn; [by left|].
  unfold os_CreateTemp, syscall. destruct (disk_fault _ "create"); cbn; [by left|]. destruct (fs !! tmp) eqn:Et; cbn; [by left|].
  match goal with |- context [run ?p ?ins ?f] => pose proof (install_effect t wrapped ins f _ (lookup_insert_eq fs tmp _) eq_refl) as [He|He] end.
  - left. by rewrite He, files_insert_tmp.
  - right. by rewrite files_insert_tmp in He.
Qed.
End put.

#[export] Instance fileDEKStore_Laws `{!Disk} : DEKStoreLaws fileDEKStore.
Proof.
  refine {| dek_view := λ s, dek_files (fd_dir s) (fd_files s) |}; cbn.
  - intros i t [dir fs] w. rewrite lookup_dek_files. unfold fd_run, fd_GetWrappedDEK, dek_guard, call, os_ReadFile, syscall. cbn.
    destruct (in_ctx i), (String.eqb t ""); try done. cbn. destruct (disk_fault i "open"); [done|].
    destruct (fs !! dek_path dir t) as [n|]; [|done]. cbn. case_bool_decide; [done|]. cbn. by intros [= ->].
  - intros i t [dir fs]. rewrite lookup_dek_files. unfold fd_run, fd_GetWrappedDEK, dek_guard, call, os_ReadFile, syscall. cbn.
    destruct (in_ctx i), (String.eqb t ""); try done. cbn. destruct (disk_fault i "open"); [done|].
    destruct (fs !! dek_path dir t) as [n|]; [|done]. cbn. by case_bool_decide.
  - intros i t w [dir fs]. unfold fd_run. cbn. pose proof (put_run dir _ (λ u, dek_temp_path dir i u) t w (λ _, i) fs) as Hp.
    by destruct (run _ _ fs).
  - intros i t [dir fs]. unfold fd_run, fd_Delete, dek_guard, call, os_Remove, syscall. cbn.
    destruct (in_ctx i), (String.eqb t ""); try done. cbn. destruct (disk_fault i "remove"); [done|].
    destruct (fs !! dek_path dir t) as [n|] eqn:E; cbn; intros _; apply map_eq; intros u.
    + rewrite lookup_dek_files. destruct (decide (t = u)) as [->|Hne]; [by rewrite !lookup_delete_eq|].
      rewrite !lookup_delete_ne by (done || (intros Hp; by apply dek_path_inj in Hp)). by rewrite lookup_dek_files.
    + destruct (decide (t = u)) as [->|Hne]; [by rewrite lookup_delete_eq, lookup_dek_files, E|by rewrite lookup_delete_ne].
Defined.

(** ** Vault Transit meets the contract of [KEKProvider]

    What the engine documents of a derived key: a ciphertext it has returned
    decrypts, under the same key and context, to the plaintext, and decryption
    is a function of key, context and ciphertext. *)
Class VaultLaws `{!Vault} := {
  transit_open : string → string → string → string → option string;
  transit_encrypt i addr seg token x p status resp c :
    vault_post i (addr +:+ "/v1/transit/encrypt/" +:+ seg) token (vault_json [("context", x); ("plaintext", p)]) = Replied status (Ok resp) →
    (200 <= status < 300)%Z → vault_data "ciphertext" (ConnectorRun.limited maxVaultRespBody resp) = Ok c → c ≠ "" →
    transit_open addr seg x c = Some p;
  transit_decrypt i addr seg token x c status resp p :
    vault_post i (addr +:+ "/v1/transit/decrypt/" +:+ seg) token (vault_json [("ciphertext", c); ("context", x)]) = Replied status (Ok resp) →
    (200 <= status < 300)%Z → vault_data "plaintext" (ConnectorRun.limited maxVaultRespBody resp) = Ok p →
    transit_open addr seg x c = Some p
}.

Section vault.
Context `{HV : !Vault} `{HVL : !VaultLaws} `{HQ : !Quoting}.

Definition vault_spec (k : vaultKEK) (t : TenantID) (w : bytes) : option bytes :=
  p ← transit_open (vk_addr k) (vk_keySeg k) (tenantContext t) (of_bytes w);
  d ← DecodeString StdEncoding p;
  if bool_decide (length d = dekSize) then Some d else None.

(** An answer that [vault_do] takes. *)
Lemma vault_do_ok k i url body field text :
  vault_do k i url body field = Ok text →
  ∃ status resp, vault_post i url (vk_token k) (vault_json body) = Replied status (Ok resp) ∧ (200 <= status < 300)%Z ∧
    vault_data field (ConnectorRun.limited maxVaultRespBody resp) = Ok text.
Proof using Type.
  unfold vault_do. destruct (vault_post _ _ _ _) as [e|e|status [resp|e]]; try done.
  destruct (Z.ltb_spec status 200), (Z.leb_spec 300 status); try done. cbn.
  destruct (vault_data _ _) eqn:E; [|done]. intros [= ->]. exists status, resp. by split_and!.
Qed.

#[export] Instance vaultKEK_Laws : KEKLaws vaultKEK.
Proof using HVL.
  refine {| kek_spec := vault_spec |}; cbn.
  - intros k i t w d. unfold vault_UnwrapDEK, vault_spec. destruct (in_ctx i), (String.eqb t ""); try done.
    case_bool_decide; [done|]. destruct (vault_do _ _ _ _ _) as [p|] eqn:E; [|done].
    apply vault_do_ok in E as (status & resp & Hpost & Hst & Hdata). rewrite (transit_decrypt _ _ _ _ _ _ _ _ _ Hpost Hst Hdata). cbn [mbind option_bind].
    destruct (DecodeString StdEncoding p) as [d'|]; [|done]. cbn [mbind option_bind]. case_bool_decide; [|done]. by intros [= ->].
  - intros k i t d w. unfold vault_WrapDEK, vault_spec. destruct (in_ctx i), (String.eqb t ""); try done.
    case_bool_decide as Hd; [|done]. cbn [negb]. destruct (vault_do _ _ _ _ _) as [c|] eqn:E; [|done].
    apply vault_do_ok in E as (status & resp & Hpost & Hst & Hdata).
    destruct (String.eqb_spec c "") as [|Hne]; [done|]. intros [= <-].
    rewrite of_to_bytes, (transit_encrypt _ _ _ _ _ _ _ _ _ Hpost Hst Hdata Hne). cbn [mbind option_bind].
    rewrite DecodeString_Encode. cbn [mbind option_bind]. by rewrite bool_decide_true.
  - intros k t w d. unfold vault_spec. destruct (transit_open _ _ _ _) as [p|]; [|done]. cbn [mbind option_bind].
    destruct (DecodeString _ _) as [d'|]; [|done]. cbn [mbind option_bind]. case_bool_decide; [|done]. by intros [= <-].
Defined.

(** Whichever back end was chosen, the cipher's contract holds. *)
Context `{HG : !GCM} `{HL : !GCMLaws}.

#[export] Instance anyKEK_Laws : KEKLaws anyKEK.
Proof using HVL HL.
  refine {| kek_spec k := match k with VaultBacked v => kek_spec v | FileBacked f => kek_spec f end |}; intros [v|f]; intros *.
  - exact (kek_unwrap_ok v _ _ _ _).
  - exact (kek_unwrap_ok f _ _ _ _).
  - exact (kek_wrap_ok v _ _ _ _).
  - exact (kek_wrap_ok f _ _ _ _).
  - exact (kek_spec_size v _ _ _).
  - exact (kek_spec_size f _ _ _).
Defined.
End vault.

(** ** The choice *)

(** In production the key is Vault's or there is none, and no file is touched;
    elsewhere the file is used exactly when no Vault is configured. *)
Lemma prod_needs_vault `{!Vault, !URLs, !GCM, !Disk} tmp sel ins w :
  sel_IsProd sel = true →
  let '(r, w') := run (SelectKEK tmp sel) ins w in
  w' = w ∧ match r with
    | Ok (VaultBacked _) | Err (ErrVault _) => sel_VaultAddr sel ≠ ""
    | Err ErrProdRequiresVault => sel_VaultAddr sel = ""
    | _ => False
    end.
Proof.
  intros Hp. unfold SelectKEK. destruct (String.eqb_spec (sel_VaultAddr sel) "") as [He|He]; cbn; [by rewrite Hp|].
  by destruct (NewVaultKEK _).
Qed.

(** Two services configured alike talk to the same key of the same server. *)
Lemma selection_deterministic `{!Vault, !URLs, !GCM, !Disk} tmp tmp' sel ins ins' w w' :
  sel_VaultAddr sel ≠ "" → (run (SelectKEK tmp sel) ins w).1 = (run (SelectKEK tmp' sel) ins' w').1.
Proof.
  intros He. unfold SelectKEK. rewrite (proj2 (String.eqb_neq _ _) He). cbn. by destruct (NewVaultKEK _).
Qed.

(** ** A Transit engine that meets its laws

    Texts are the binary digits of an encoding; the key, context and plaintext
    are readable in the ciphertext. *)
Definition toy_text {A} `{Countable A} (a : A) : string := of_bytes (number_bytes (encode a)).
Definition toy_read {A} `{Countable A} (s : string) : option A := decode (bytes_number (to_bytes s)).

Lemma toy_read_text {A} `{Countable A} (a : A) : toy_read (toy_text a) = Some a.
Proof. unfold toy_read, toy_text. by rewrite to_of_bytes, bytes_number_bytes, decode_encode. Qed.

Definition toy_open (x c : string) : option string :=
  match toy_read c with Some (x', p) => if String.eqb x x' then Some p else None | None => None end.

(** A text that would not arrive whole is refused. *)
Definition toy_reply (s : string) : VaultAnswer :=
  if (Z.of_nat (length (to_bytes s)) <=? maxVaultRespBody)%Z then Replied 200 (Ok (to_bytes s)) else Replied 413 (Ok []).

#[local] Instance toy_vault : Vault := {|
  vault_json l := toy_text l;
  vault_post _ _ _ payload :=
    match toy_read payload with
    | Some [("context", x); ("plaintext", p)] => toy_reply (toy_text (x, p))
    | Some [("ciphertext", c); ("context", x)] => match toy_open x c with Some p => toy_reply p | None => Replied 400 (Ok []) end
    | _ => Replied 400 (Ok [])
    end;
  vault_data _ b := Ok (of_bytes b);
  vault_errs _ := None
|}.

Lemma toy_reply_ok s status resp : toy_reply s = Replied status (Ok resp) → (200 <= status < 300)%Z →
  of_bytes (ConnectorRun.limited maxVaultRespBody resp) = s.
Proof.
  unfold toy_reply, ConnectorRun.limited. destruct (_ <=? _)%Z eqn:E; intros [= <- <-] Hs; [|lia]. rewrite E. apply of_to_bytes.
Qed.

#[local] Instance toy_vault_laws : VaultLaws.
Proof.
  refine {| transit_open _ _ := toy_open |}; cbn -[toy_read toy_text].
  - intros i addr seg token x p status resp c. rewrite toy_read_text. intros Hr Hs [= <-] _.
    rewrite (toy_reply_ok _ _ _ Hr Hs). unfold toy_open. by rewrite toy_read_text, String.eqb_refl.
  - intros i addr seg token x c status resp p. rewrite toy_read_text. destruct (toy_open x c) as [p'|]; [|intros [= <-]; lia].
    intros Hr Hs [= <-]. by rewrite (toy_reply_ok _ _ _ Hr Hs).
Defined.

(** ** Witness: two processes, action by action *)
#[local] Instance sound_disk : Disk := {| disk_fault _ _ := None; disk_cut _ := 0%nat; disk_temp _ := 0%N |}.

Definition race_tmp (j : nat) : string := ".kek-" +:+ pretty (N.of_nat j).
Definition race_inp (a : ascii) : Inp := mkInp None (Some (λ _, a)) (mkEnv (λ _, 0%Z) (λ _, 0%Z) "").
Definition race : Net (gmap string Node) (result FileErr bytes) :=
  schedule (concat (replicate 12 [(0%nat, race_inp "a"); (1%nat, race_inp "b")]))
    (mkNet ∅ ((λ j, loadOrCreateKEKFile (race_tmp j) "kek") <$> seq 0 2)).

Lemma race_tmp_path j : race_tmp j ≠ "kek".
Proof. done. Qed.

Lemma race_tmp_inj j j' : race_tmp j = race_tmp j' → j = j'.
Proof. intros E. apply str_app_inj_l, (inj pretty) in E. lia. Qed.

Lemma kek_file_converges_witness :
  net_threads race = [Ret (Ok (replicate 32 "a"%char)); Ret (Ok (replicate 32 "a"%char))] ∧
  ∃ node, net_world race !! "kek" = Some node ∧ nd_bytes node = replicate 32 "a"%char ∧ usable_key node.
Proof.
  assert (Hrace : net_threads race = [Ret (Ok (replicate 32 "a"%char)); Ret (Ok (replicate 32 "a"%char))]) by (vm_compute; reflexivity).
  split; [exact Hrace|].
  apply (kek_file_converges "kek" race_tmp ∅ 2 race race_tmp_path race_tmp_inj (schedule_star _ _ _)) with (j := 1%nat).
  rewrite Hrace. reflexivity.
Defined.
