(* ===== verification/S3.v ===== *)
(** * The S3 connector

    Models [connectors/s3]: configuration and credentials, the walk over a
    bucket, objects as documents, cursors that carry the keys of the last pass,
    backfill with checkpoints, and the reconciliation of a new listing with the
    last one.  minio-go, JSON, URL parsing and the table of media types are
    parameters.  A listing is one answer, whenever its pages arrive; a [range]
    over the set of keys goes over them in an unspecified order. *)

From stdpp Require Import base gmap strings list pretty.
From Stdlib Require Import Ascii ZArith Lia.
From S2P Require Import Prelude GoStrings Tenancy Crypto Blob ControlPlane Document Kafka GoTime HubSync GoText GoEncode GoDate ConnectorRun GoMime GoFormat.

Open Scope Z_scope.

Definition s3ID : string := "s3".
Definition bodyCap : Z := 2 ^ 20.
Definition s3_listPageSize : Z := 1000.
Definition checkpointEvery : nat := 200.

(** [time.Time{}] in nanoseconds. *)
Definition zero_instant : Z := -62135596800 * nsec.

(** [mime.TypeByExtension] *)
Class MimeTable := { TypeByExtension : string → string }.

(** ** client.go *)
Record object := mkObject { ob_key : string; ob_etag : string; ob_size : Z; ob_storageClass : string; ob_lastModified : Z }.

Inductive S3Req : Type → Type :=
| GuardedTransport : S3Req (result string unit)
| MinioNew (endpoint accessKey secretKey region : string) (secure : bool) : S3Req (result string unit)
| ListObjects (bucket prefix startAfter : string) (maxKeys : Z) : S3Req (list (result string object))
| GetObject (bucket key : string) : S3Req (result string (bytes * string))
| S3Now : S3Req Z
| S3Ctx : S3Req (result GoErr unit).

(** ** object.go *)
Section objects.
Context `{!Casing, !MimeTable, !Deps} (sha256 : bytes → bytes).

Definition s3_nativeID (bucket key : string) : string := bucket +:+ "/" +:+ key.

(** [path.Base] *)
Fixpoint drop_slashes (l : bytes) : bytes :=
  match l with a :: l' => if Ascii.eqb a "/" then drop_slashes l' else l | [] => [] end.
Fixpoint until_slash (l : bytes) : bytes :=
  match l with a :: l' => if Ascii.eqb a "/" then [] else a :: until_slash l' | [] => [] end.
Definition path_Base (p : string) : string :=
  if String.eqb p "" then "."
  else match until_slash (drop_slashes (rev (to_bytes p))) with [] => "/" | l => of_bytes (rev l) end.

Definition trim_quotes (etag : string) : string := Trim etag (String "034" "").

Definition s3_versionEtag (o : object) : string :=
  let e := trim_quotes (ob_etag o) in
  if negb (String.eqb e "") then e else EncodeToString (sha256 (to_bytes (ob_key o +:+ ":" +:+ pretty (ob_size o)))).

Definition contentTypeForKey (key : string) : string :=
  let ext := Ext key in
  if String.eqb ext "" then ""
  else
    let ct := TypeByExtension ext in
    if String.eqb ct "" then ""
    else match IndexByte ct ";" with Some i => TrimSpace (take_str i ct) | None => ct end.

Definition s3_put (k v : string) (md : gmap string string) : gmap string string := if String.eqb v "" then md else <[k := v]> md.

Definition objectMetadata (bucket : string) (o : object) (contentType : string) : gmap string string :=
  let md := s3_put "storage_class" (ob_storageClass o) (s3_put "size" (pretty (ob_size o)) (s3_put "etag" (trim_quotes (ob_etag o))
    (s3_put "key" (ob_key o) (s3_put "bucket" bucket ∅)))) in
  let contentType := if String.eqb contentType "" then contentTypeForKey (ob_key o) else contentType in
  s3_put "content_type" contentType md.

Definition objectDocument (tenant bucket : string) (o : object) (body contentType : string) : Document :=
  let nat := s3_nativeID bucket (ob_key o) in
  let ts := if ob_lastModified o =? zero_instant then None
    else Some (mkTimestamps (Some (ts_New (ob_lastModified o))) (Some (ts_New (ob_lastModified o))) None) in
  mkDoc tenant (DocID sha256 s3ID nat) s3ID nat FILE (path_Base (ob_key o)) body [] (objectMetadata bucket o contentType) [] ts None None
    (s3_versionEtag o) None None.

Definition s3_tombstone (tenant bucket key : string) (now : Z) : Document :=
  let nat := s3_nativeID bucket key in
  mkDoc tenant (DocID sha256 s3ID nat) s3ID nat FILE "" "" [] ∅ [] None None None ("deleted-" +:+ pretty (wrap64 now))
    (Some (mkTombstone true (Some (ts_New now)))) None.

Definition isTextContentType (ct : string) : bool :=
  let ct := ToLower (TrimSpace ct) in
  if String.eqb ct "" then false
  else if HasPrefix ct "text/" then true
  else existsb (String.eqb ct) ["application/json"; "application/xml"; "application/yaml"; "application/x-yaml"; "application/csv"].

Definition shouldFetchBody (o : object) : bool :=
  if (ob_size o <=? 0) || (bodyCap <? ob_size o) then false else isTextContentType (contentTypeForKey (ob_key o)).
End objects.

(** ** cursor.go

    [json.Unmarshal] of a configuration (endpoint, bucket, prefix, region,
    use_ssl) and of a cursor (k, m, keys), and [json.Marshal] of a cursor. *)
Class S3Json := {
  s3_config_json : string → result string (string * string * string * string * bool);
  s3_cursor_write : string * string * list string → string;
  s3_cursor_read : string → result string (string * string * list string)
}.

Record s3_cursorState := mkS3Cursor { sc_LastKey : string; sc_MaxModified : string; sc_Keys : list string }.

Definition maxModifiedTime (s : s3_cursorState) : Z :=
  if String.eqb (sc_MaxModified s) "" then zero_instant
  else match time_Parse RFC3339 (sc_MaxModified s) with None => zero_instant | Some t => t end.

Definition keySet (s : s3_cursorState) : gset string := list_to_set (sc_Keys s).

(** [sort.Strings] sorts the slice itself. *)
Definition sort_Strings (l : list string) : list string := sort_by str_leb l.

Section cursors.
Context `{!S3Json}.

Definition s3_encodeCursor (st : s3_cursorState) : string := s3_cursor_write (sc_LastKey st, sc_MaxModified st, sc_Keys st).

Definition max_text (maxMod : Z) : string := if maxMod =? zero_instant then "" else format_nano maxMod.

Definition completedCursor (maxMod : Z) (keys : list string) : string :=
  s3_encodeCursor (mkS3Cursor "" (max_text maxMod) (sort_Strings keys)).

Definition checkpointCursor (lastKey : string) (maxMod : Z) (keys : list string) : string :=
  s3_encodeCursor (mkS3Cursor lastKey (max_text maxMod) (sort_Strings keys)).

Definition s3_parseCursor (cur : string) : result string s3_cursorState :=
  if String.eqb cur "" then Err "s3: empty cursor"
  else match s3_cursor_read cur with
  | Err e => Err ("s3: cursor is not valid JSON: " +:+ e)
  | Ok (k, m, keys) => Ok (mkS3Cursor k m keys)
  end.
End cursors.

(** ** s3.go *)
Record s3_config := mkS3Config { s3_Endpoint : string; s3_Bucket : string; s3_Prefix : string; s3_Region : string; s3_UseSSL : bool }.

Section sync.
Context `{!Casing, !MimeTable, !Deps, !Quoting, !URLs, !S3Json} (sha256 : bytes → bytes).

Definition s3_parseConfig (raw : string) : result string s3_config :=
  if String.eqb raw "" then Err "s3: config is required (endpoint and bucket)"
  else match s3_config_json raw with
  | Err e => Err ("s3: config is not valid JSON: " +:+ e)
  | Ok (endpoint, bucket, prefix, region, useSSL) =>
    let endpoint := TrimSpace endpoint in
    let conf := mkS3Config endpoint (TrimSpace bucket) (TrimSpace prefix) (TrimSpace region) useSSL in
    if String.eqb endpoint "" then Err "s3: config field endpoint is required"
    else if String.eqb (s3_Bucket conf) "" then Err "s3: config field bucket is required"
    else if Contains endpoint "://" then
      match url_Parse endpoint with
      | Some (scheme, host) =>
        if String.eqb host "" then Err ("s3: config field endpoint " +:+ Quote endpoint +:+ " is not a valid host or URL")
        else Ok (mkS3Config host (s3_Bucket conf) (s3_Prefix conf) (s3_Region conf) (String.eqb scheme "https"))
      | None => Err ("s3: config field endpoint " +:+ Quote endpoint +:+ " is not a valid host or URL")
      end
    else Ok conf
  end.

Definition splitToken (token : string) : result string (string * string) :=
  match Cut token ":" with
  | Some (id, secret) =>
    if String.eqb id "" || String.eqb secret "" then Err ("s3: credential must be " +:+ Quote "<accessKeyID>:<secretAccessKey>") else Ok (id, secret)
  | None => Err ("s3: credential must be " +:+ Quote "<accessKeyID>:<secretAccessKey>")
  end.

Abbreviation s3 A := (api S3Req A).
Open Scope api_scope.

Definition s3_fail {A} (msg : string) : s3 (result ConnErr A) := ARet (Err (mkConnErr false msg)).

(** An error of a library call, with its context. *)
Definition s3_asked {A} (label : string) (r : result string A) : s3 (result ConnErr A) :=
  match r with Err e => s3_fail (label +:+ ": " +:+ e) | Ok a => ARet (Ok a) end.

Definition newClient (conf : s3_config) (token : string) : s3 (result ConnErr unit) :=
  match splitToken token with
  | Err e => s3_fail e
  | Ok (accessKey, secretKey) =>
    let region := if String.eqb (s3_Region conf) "" then "us-east-1" else s3_Region conf in
    ask r := GuardedTransport in
    do _ := s3_asked "s3: build guarded transport" r in
    ask r := MinioNew (s3_Endpoint conf) accessKey secretKey region (s3_UseSSL conf) in
    s3_asked "s3: build client for endpoint" r
  end.

Definition s3_ctx : s3 (result ConnErr unit) := ask r := S3Ctx in ARet (passed r).

(** [probe]: the first of the listing. *)
Definition probe (conf : s3_config) : s3 (result ConnErr unit) :=
  ask l := ListObjects (s3_Bucket conf) (s3_Prefix conf) "" 1 in
  match l with
  | [] => s3_ctx
  | Err e :: _ => s3_fail e
  | Ok _ :: _ => ARet (Ok tt)
  end.

Definition s3_config_of (cfg : Config) : s3 (result ConnErr s3_config) :=
  match s3_parseConfig (c_config_json cfg) with Err e => s3_fail e | Ok conf => ARet (Ok conf) end.

Definition s3_Validate (cfg : Config) : s3 (result ConnErr unit) :=
  do conf := s3_config_of cfg in
  if String.eqb (default "" (c_token cfg)) "" then ARet (Ok tt)
  else
    do _ := newClient conf (default "" (c_token cfg)) in
    abind (probe conf) (λ r,
    match r with Err e => ARet (Err (mkConnErr (expired e) ("s3: credential or bucket check failed: " +:+ ce_text e))) | Ok _ => ARet (Ok tt) end).

(** [list]: the walk, with a function that passes a state along. *)
Fixpoint walk {A} (fn : A → object → s3 (result ConnErr A)) (acc : A) (l : list (result string object)) : s3 (result ConnErr A) :=
  match l with
  | [] => do _ := s3_ctx in ARet (Ok acc)
  | Err e :: _ => s3_fail ("s3: list objects: " +:+ e)
  | Ok o :: l' => do acc := fn acc o in walk fn acc l'
  end.

Definition s3_list {A} (conf : s3_config) (startAfter : string) (fn : A → object → s3 (result ConnErr A)) (acc : A) : s3 (result ConnErr A) :=
  ask l := ListObjects (s3_Bucket conf) (s3_Prefix conf) startAfter s3_listPageSize in walk fn acc l.

(** ** sync.go *)
Definition documentForObject (tenant : string) (conf : s3_config) (o : object) : s3 (result ConnErr Document) :=
  if negb (shouldFetchBody o) then ARet (Ok (objectDocument sha256 tenant (s3_Bucket conf) o "" ""))
  else
    ask r := GetObject (s3_Bucket conf) (ob_key o) in
    match r with
    | Err _ => ARet (Ok (objectDocument sha256 tenant (s3_Bucket conf) o "" ""))
    | Ok (data, contentType) => ARet (Ok (objectDocument sha256 tenant (s3_Bucket conf) o (of_bytes (limited bodyCap data)) contentType))
    end.

Definition emit_object (tenant : string) (conf : s3_config) (o : object) : s3 (result ConnErr unit) :=
  do doc := documentForObject tenant conf o in emit doc.

Definition later (a b : Z) : Z := if a <? b then b else a.

(** The variables of the loop: keys, maxMod, lastKey, since. *)
Record progress := mkProgress { pg_keys : list string; pg_max : Z; pg_lastKey : string; pg_since : nat }.

Definition backfill_object (tenant : string) (conf : s3_config) (p : progress) (o : object) : s3 (result ConnErr progress) :=
  do _ := s3_ctx in
  do _ := emit_object tenant conf o in
  let keys := pg_keys p ++ [ob_key o] in
  let maxMod := later (pg_max p) (ob_lastModified o) in
  let since := S (pg_since p) in
  if (checkpointEvery <=? since)%nat then
    do _ := checkpoint (checkpointCursor (ob_key o) maxMod keys) in
    ARet (Ok (mkProgress (sort_Strings keys) maxMod (ob_key o) 0))
  else ARet (Ok (mkProgress keys maxMod (ob_key o) since)).

Definition s3_backfill (cfg : Config) (conf : s3_config) (seed : s3_cursorState) : s3 (result ConnErr string) :=
  let tenant := tenantID (c_tenant cfg) in
  do p := s3_list conf (sc_LastKey seed) (backfill_object tenant conf)
    (mkProgress (sc_Keys seed) (maxModifiedTime seed) (sc_LastKey seed) 0) in
  let cur := completedCursor (pg_max p) (pg_keys p) in
  do _ := checkpoint cur in
  ARet (Ok cur).

Definition s3_FullSync (cfg : Config) : s3 (result ConnErr string) :=
  do conf := s3_config_of cfg in
  do _ := newClient conf (default "" (c_token cfg)) in
  s3_backfill cfg conf (mkS3Cursor "" "" []).

(** The variables of the loop: keys, seen (its set), maxMod. *)
Definition reconcile_object (tenant : string) (conf : s3_config) (prevMax : Z) (acc : list string * Z) (o : object) : s3 (result ConnErr (list string * Z)) :=
  do _ := s3_ctx in
  let acc := (acc.1 ++ [ob_key o], later acc.2 (ob_lastModified o)) in
  if prevMax <? ob_lastModified o then
    do _ := emit_object tenant conf o in ARet (Ok acc)
  else ARet (Ok acc).

Fixpoint emit_vanished (tenant bucket : string) (seen : list string) (prev : list string) : s3 (result ConnErr unit) :=
  match prev with
  | [] => ARet (Ok tt)
  | key :: prev' =>
    do _ := s3_ctx in
    if bool_decide (key ∈ seen) then emit_vanished tenant bucket seen prev'
    else
      ask now := S3Now in
      do _ := emit (s3_tombstone sha256 tenant bucket key now) in
      emit_vanished tenant bucket seen prev'
  end.

Definition s3_reconcile (cfg : Config) (conf : s3_config) (st : s3_cursorState) : s3 (result ConnErr string) :=
  let tenant := tenantID (c_tenant cfg) in
  let prevMax := maxModifiedTime st in
  do acc := s3_list conf "" (reconcile_object tenant conf prevMax) ([], prevMax) in
  do _ := emit_vanished tenant (s3_Bucket conf) acc.1 (elements (keySet st)) in
  ARet (Ok (completedCursor acc.2 acc.1)).

Definition s3_IncrementalSync (cfg : Config) (cur : string) : s3 (result ConnErr string) :=
  do conf := s3_config_of cfg in
  match s3_parseCursor cur with
  | Err e => ARet (Err (mkConnErr true (e +:+ ": sdk: sync cursor expired at the source")))
  | Ok st =>
    do _ := newClient conf (default "" (c_token cfg)) in
    if negb (String.eqb (sc_LastKey st) "") then s3_backfill cfg conf st
    else s3_reconcile cfg conf st
  end.

Definition s3_connector (o : Oracle S3Req) : Connector :=
  mkConnector (λ cfg, resolve o 0 (s3_FullSync cfg)) (λ cfg cur, resolve o 0 (s3_IncrementalSync cfg cur)).
End sync.

(** * The S3 connector: proofs

    What a completed pass brings about, from any cursor, any index and any
    listing ([s3_pass_exact]); and two ways in which that is less than a mirror
    of the bucket ([overwrite_behind_lost], [partial_pass_keeps]). *)

(** A bucket that changes while the connector runs. *)
Class Bucket (S : Type) := { b_answer : ∀ X, S3Req X → Inp → S → X; b_change : S → S → Prop }.

(** JSON of a cursor: keys of valid UTF-8 are read back. *)
Class S3JsonLaws `{!S3Json} : Prop := {
  s3_cursor_back t keys : Forall valid_text keys → s3_cursor_read (s3_cursor_write ("", max_text t, keys)) = Ok ("", max_text t, keys);
  s3_cursor_object x : s3_cursor_write x ≠ ""
}.

(** A complete listing of the bucket, after a key. *)
Definition listed {S} `{!Bucket S} (bucket prefix after : string) (s : S) (l : list object) : Prop :=
  ∃ i, b_answer _ (ListObjects bucket prefix after s3_listPageSize) i s = Ok <$> l.

Definition keys_of (l : list object) : list string := ob_key <$> l.

Definition max_of (m : Z) (l : list object) : Z := foldl (λ m o, later m (ob_lastModified o)) m l.

(** The state a pass starts from; whether it goes on with a first walk. *)
Definition start_of `{!S3Json} (cur : string) : result string s3_cursorState :=
  if String.eqb cur "" then Ok (mkS3Cursor "" "" []) else s3_parseCursor cur.

Definition walking (cur : string) (st : s3_cursorState) : bool := String.eqb cur "" || negb (String.eqb (sc_LastKey st) "").

(** The listed objects a pass emits: all of a first walk, later those newer than
    the newest so far. *)
Definition wanted (first : bool) (st : s3_cursorState) (o : object) : bool := first || (maxModifiedTime st <? ob_lastModified o).

(** The keys a pass deletes. *)
Definition vanished (first : bool) (st : s3_cursorState) (l : list object) (key : string) : Prop :=
  first = false ∧ key ∈ sc_Keys st ∧ key ∉ keys_of l.

Section sync.
Context `{!Casing, !MimeTable, !Deps, !Quoting, !URLs} {HJ : S3Json} (sha256 : bytes → bytes).
Context {S : Type} {HB : Bucket S} {HP : PreOrder b_change} (tenant : string) (conf : s3_config).

Abbreviation Index := (gmap string Document).
Abbreviation surely m P w := (sure b_answer b_change (λ _, True) m P w).
Abbreviation native key := (s3_nativeID (s3_Bucket conf) key).

(** ** What a pass brings about *)

(** The document of the object as listed; its text only where it is fetched. *)
Definition indexed (idx : Index) (o : object) : Prop :=
  ∃ body ct, (shouldFetchBody o = false → body = "" ∧ ct = "") ∧
    idx !! native (ob_key o) = Some (objectDocument sha256 tenant (s3_Bucket conf) o body ct).

Definition emits (want : object → bool) (l : list object) (idx idx' : Index) : Prop :=
  (∀ o, o ∈ l → want o = true → ∃ o', o' ∈ l ∧ want o' = true ∧ ob_key o' = ob_key o ∧ indexed idx' o') ∧
  (∀ n, (∀ o, o ∈ l → want o = true → n ≠ native (ob_key o)) → idx' !! n = idx !! n).

(** The wanted objects are indexed (of several under one key, one), the
    vanished keys have tombstones, and nothing else has changed. *)
Record brought (first : bool) (st : s3_cursorState) (l : list object) (idx idx' : Index) : Prop := {
  br_wanted o : o ∈ l → wanted first st o = true →
    ∃ o', o' ∈ l ∧ wanted first st o' = true ∧ ob_key o' = ob_key o ∧ indexed idx' o';
  br_vanished key : vanished first st l key → ∃ now, idx' !! native key = Some (s3_tombstone sha256 tenant (s3_Bucket conf) key now);
  br_kept n : (∀ o, o ∈ l → wanted first st o = true → n ≠ native (ob_key o)) → (∀ key, vanished first st l key → n ≠ native key) →
    idx' !! n = idx !! n
}.

(** The index has the listed version of the object; it has nothing live under
    the key; it mirrors a listing. *)
Definition shown (idx : Index) (o : object) : Prop :=
  ∃ doc, idx !! native (ob_key o) = Some doc ∧ version_etag doc = s3_versionEtag sha256 o ∧ tombstone doc = None ∧ tenant_id doc = tenant.
Definition gone (idx : Index) (key : string) : Prop := ∀ doc, idx !! native key = Some doc → tombstone doc ≠ None.
Definition mirrors (l : list object) (idx : Index) : Prop := (∀ o, o ∈ l → shown idx o) ∧ (∀ key, key ∉ keys_of l → gone idx key).

Lemma s3_native_inj k k' : native k = native k' → k = k'.
Proof. unfold s3_nativeID. intros E. by apply str_app_inj_l, str_app_inj_l in E. Qed.

Lemma key_listed o l : o ∈ l → ob_key o ∈ keys_of l.
Proof. apply list_elem_of_fmap_2. Qed.

Lemma indexed_shown idx o : indexed idx o → shown idx o.
Proof. intros (body & ct & _ & E). eexists. by split; [exact E|]. Qed.

Lemma distinct_keys l o o' : NoDup (keys_of l) → o ∈ l → o' ∈ l → ob_key o = ob_key o' → o = o'.
Proof.
  intros Hn Ho Ho' E. apply list_elem_of_lookup in Ho as [i Hi], Ho' as [j Hj].
  assert (i = j) as ->; [|congruence]. eapply (NoDup_lookup (keys_of l)); [done|..]; unfold keys_of; rewrite list_lookup_fmap.
  - by rewrite Hi.
  - rewrite Hj. cbn. by rewrite E.
Qed.

(** An index that was right about all else mirrors the listing. *)
Lemma brought_mirrors first st l idx idx' :
  brought first st l idx idx' → NoDup (keys_of l) →
  (∀ o, o ∈ l → wanted first st o = false → shown idx o) →
  (∀ key, key ∉ keys_of l → ¬ vanished first st l key → gone idx key) → mirrors l idx'.
Proof.
  intros [Hw Hv Hk] Hn Hs Hg. split.
  - intros o Ho. destruct (wanted first st o) eqn:Eo.
    + destruct (Hw o Ho Eo) as (o' & Ho' & _ & E & Hi). rewrite <- (distinct_keys l o' o Hn Ho' Ho E). by apply indexed_shown.
    + destruct (Hs o Ho Eo) as (doc & Hd & Hr). exists doc. split; [|done]. rewrite Hk; [done|..].
      * intros o' Ho' Eo' E%s3_native_inj. rewrite (distinct_keys l o o' Hn Ho Ho' E) in Eo. congruence.
      * intros key (_ & _ & Hkey) <-%s3_native_inj. by apply Hkey, key_listed.
  - intros key Hkey doc Hd. destruct (decide (first = false ∧ key ∈ sc_Keys st)) as [[Hf Hin]|Hno].
    + destruct (Hv key) as [now E]; [done|]. rewrite E in Hd. by injection Hd as <-.
    + apply (Hg key Hkey); [by intros (? & ? & _); apply Hno|]. rewrite <- Hk; [done|..].
      * intros o Ho _ ->%s3_native_inj. by apply Hkey, key_listed.
      * intros k (Hf & Hin & _) <-%s3_native_inj. by apply Hno.
Qed.

(** ** One object *)
Lemma i_object o w : surely (emit_object sha256 tenant conf o)
  (ok_with (λ _ : unit, λ idx, indexed idx o ∧ ∀ n, n ≠ native (ob_key o) → idx !! n = sy_index w !! n)) w.
Proof using HP.
  assert (Hemit : ∀ body ct w', (shouldFetchBody o = false → body = "" ∧ ct = "") → sy_index w' = sy_index w →
    surely (emit (objectDocument sha256 tenant (s3_Bucket conf) o body ct))
      (ok_with (λ _ : unit, λ idx, indexed idx o ∧ ∀ n, n ≠ native (ob_key o) → idx !! n = sy_index w !! n)) w').
  { intros body ct w' Hb E. eapply sure_mono; [|apply i_emit]. intros r w'' Hr [] Ha. rewrite <- (Hr tt Ha), E. split.
    - exists body, ct. split; [done|]. apply lookup_insert_eq.
    - intros n Hn. by apply lookup_insert_ne. }
  unfold emit_object, documentForObject. destruct (shouldFetchBody o) eqn:Hf; [|by apply Hemit].
  apply i_ask. intros [[data ct]|e] w' E; by apply Hemit.
Qed.

Lemma emits_more want done o idx idx1 idx2 :
  emits want done idx idx1 → want o = true → indexed idx2 o → (∀ n, n ≠ native (ob_key o) → idx2 !! n = idx1 !! n) →
  emits want (done ++ [o]) idx idx2.
Proof.
  intros [Hs Hk] Ho Hi Hn. split.
  - intros x [Hx| ->%list_elem_of_singleton]%elem_of_app Ex; [|exists o; split_and!; [|done..]; apply elem_of_app; right; by left].
    destruct (decide (ob_key x = ob_key o)) as [E|E].
    + exists o. split_and!; [|done|done|done]. apply elem_of_app. right. by left.
    + destruct (Hs x Hx Ex) as (x' & Hx' & Ex' & Ek & body & ct & Hb & Hd). exists x'. split_and!; [apply elem_of_app; by left|done|done|].
      exists body, ct. split; [done|]. rewrite Hn; [done|]. rewrite Ek. by intros ?%s3_native_inj.
  - intros n Hne. rewrite Hn, Hk; [done|..].
    + intros x Hx. apply Hne, elem_of_app. by left.
    + apply Hne; [apply elem_of_app; right; by left|done].
Qed.

Lemma emits_skip want done o idx idx1 : emits want done idx idx1 → want o = false → emits want (done ++ [o]) idx idx1.
Proof.
  intros [Hs Hk] Ho. split.
  - intros x [Hx| ->%list_elem_of_singleton]%elem_of_app Ex; [|congruence]. destruct (Hs x Hx Ex) as (x' & Hx' & ?). exists x'.
    split; [apply elem_of_app; by left|done].
  - intros n Hne. apply Hk. intros x Hx. apply Hne, elem_of_app. by left.
Qed.

Lemma max_of_snoc m l o : max_of m (l ++ [o]) = later (max_of m l) (ob_lastModified o).
Proof. unfold max_of. by rewrite foldl_app. Qed.

Lemma keys_snoc l o : keys_of (l ++ [o]) = keys_of l ++ [ob_key o].
Proof. unfold keys_of. by rewrite fmap_app. Qed.

(** ** Walks *)
Lemma i_walk {A} (fn : A → object → api S3Req (result ConnErr A)) (R : list object → A → Index → Prop) l done acc w :
  R done acc (sy_index w) →
  (∀ done o acc w, R done acc (sy_index w) → surely (fn acc o) (ok_with (λ acc', R (done ++ [o]) acc')) w) →
  surely (walk fn acc (Ok <$> l)) (ok_with (λ acc', R (done ++ l) acc')) w.
Proof using HP.
  intros Hr Hfn. revert done acc w Hr. induction l as [|o l IH]; intros done acc w Hr; cbn [walk fmap list_fmap].
  - rewrite app_nil_r in *. apply i_ctx. intros w' E. apply i_ret. by rewrite E.
  - eapply i_then; [apply (Hfn done), Hr|]. cbn beta. intros acc' w' Hr'. rewrite (cons_middle o done l), (assoc_L (++)) in *. by apply IH.
Qed.

(** A first walk. *)
Definition first_walk (st : s3_cursorState) (idx0 : Index) (done : list object) (p : progress) (idx : Index) : Prop :=
  pg_keys p ≡ₚ sc_Keys st ++ keys_of done ∧ pg_max p = max_of (maxModifiedTime st) done ∧ emits (wanted true st) done idx0 idx.

Lemma i_first st l w :
  surely (walk (backfill_object sha256 tenant conf) (mkProgress (sc_Keys st) (maxModifiedTime st) (sc_LastKey st) 0) (Ok <$> l))
    (ok_with (first_walk st (sy_index w) l)) w.
Proof using HP.
  apply (i_walk _ (first_walk st (sy_index w)) l []).
  { split_and!; [cbn; by rewrite app_nil_r|done|split; [by intros o Ho%not_elem_of_nil|done]]. }
  generalize (sy_index w). clear w. intros idx0 done o p w (Hp & Hm & He). unfold backfill_object. apply i_ctx. intros w1 E1.
  eapply i_then; [apply i_object|]. cbn beta. intros _ w2 [Hi Hn]. rewrite E1 in Hn.
  assert (Hall : ∀ since idx keys, keys ≡ₚ pg_keys p ++ [ob_key o] → idx = sy_index w2 →
    first_walk st idx0 (done ++ [o]) (mkProgress keys (later (pg_max p) (ob_lastModified o)) (ob_key o) since) idx).
  { intros since idx keys Hkeys ->. split_and!; cbn [pg_keys pg_max]; [|by rewrite max_of_snoc, Hm|by eapply emits_more].
    by rewrite Hkeys, keys_snoc, Hp, (assoc_L (++)). }
  destruct (_ <=? _)%nat; [|apply i_ret; by apply Hall].
  eapply i_then; [apply i_checkpoint|]. cbn beta. intros _ w3 E3. apply i_ret. apply Hall; [apply sort_by_perm|done].
Qed.

(** A later walk. *)
Definition next_walk (st : s3_cursorState) (idx0 : Index) (done : list object) (acc : list string * Z) (idx : Index) : Prop :=
  acc.1 = keys_of done ∧ acc.2 = max_of (maxModifiedTime st) done ∧ emits (wanted false st) done idx0 idx.

Lemma i_next st l w :
  surely (walk (reconcile_object sha256 tenant conf (maxModifiedTime st)) ([], maxModifiedTime st) (Ok <$> l))
    (ok_with (next_walk st (sy_index w) l)) w.
Proof using HP.
  apply (i_walk _ (next_walk st (sy_index w)) l []).
  { split_and!; [done|done|split; [by intros o Ho%not_elem_of_nil|done]]. }
  generalize (sy_index w). clear w. intros idx0 done o [keys m] w (Hp & Hm & He). cbn [fst snd] in *. unfold reconcile_object.
  apply i_ctx. intros w1 E1. cbn [fst snd]. destruct (maxModifiedTime st <? ob_lastModified o) eqn:Hlt.
  - eapply i_then; [apply i_object|]. cbn beta. intros _ w2 [Hi Hn]. rewrite E1 in Hn. apply i_ret.
    split_and!; cbn [fst snd]; [by rewrite keys_snoc, Hp|by rewrite max_of_snoc, Hm|by eapply emits_more].
  - apply i_ret. rewrite E1. split_and!; cbn [fst snd]; [by rewrite keys_snoc, Hp|by rewrite max_of_snoc, Hm|by apply emits_skip].
Qed.

(** ** What left the bucket *)
Definition buried (l : list object) (keys : list string) (idx idx' : Index) : Prop :=
  (∀ key, key ∈ keys → key ∉ keys_of l → ∃ now, idx' !! native key = Some (s3_tombstone sha256 tenant (s3_Bucket conf) key now)) ∧
  (∀ n, (∀ key, key ∈ keys → key ∉ keys_of l → n ≠ native key) → idx' !! n = idx !! n).

Lemma i_vanished l prev w :
  surely (emit_vanished sha256 tenant (s3_Bucket conf) (keys_of l) prev) (ok_with (λ _ : unit, buried l prev (sy_index w))) w.
Proof using HP.
  revert w. induction prev as [|key prev IH]; intros w; cbn [emit_vanished].
  { apply i_ret. split; [by intros k Hk%not_elem_of_nil|done]. }
  apply i_ctx. intros w1 E1. case_bool_decide as Hp.
  { eapply sure_mono; [|apply IH]. intros r w2 Hr a Ha. destruct (Hr a Ha) as [Hd Hk]. rewrite E1 in Hk. split.
    - intros k [->|Hin]%elem_of_cons Hno; [done|by apply Hd].
    - intros n Hn. apply Hk. intros k Hin. apply Hn. by right. }
  apply i_ask. intros now w2 E2. eapply i_then; [apply i_emit|]. cbn beta. intros _ w3 E3. rewrite E2, E1 in E3. eapply sure_mono; [|apply IH].
  intros r w4 Hr a Ha. destruct (Hr a Ha) as [Hd Hk]. split.
  - intros k Hin Hno. destruct (decide (k ∈ prev)) as [Hp'|Hp']; [by apply Hd|]. apply elem_of_cons in Hin as [->|]; [|done]. exists now.
    rewrite Hk, <- E3; [by apply lookup_insert_eq|]. intros k' Hk' _ <-%s3_native_inj. done.
  - intros n Hn. rewrite Hk, <- E3; [rewrite lookup_insert_ne; [done|]|].
    + intros <-. by apply (Hn key); [left|..].
    + intros k Hin. apply Hn. by right.
Qed.

(** ** Listings *)
Abbreviation quietly m w := (surely m (ok_with (λ _ _, True)) w).

Lemma i_object_quiet o w : quietly (emit_object sha256 tenant conf o) w.
Proof using HP. eapply sure_mono; [|apply i_object]. by intros r w' Hr a Ha. Qed.

Lemma i_backfill_quiet p o w : quietly (backfill_object sha256 tenant conf p o) w.
Proof using HP.
  unfold backfill_object. apply i_ctx. intros w1 _. eapply i_then; [apply i_object_quiet|]. cbn beta. intros _ w2 _.
  destruct (_ <=? _)%nat; [|by apply i_ret]. eapply i_then; [apply i_checkpoint|]. cbn beta. intros _ w3 _. by apply i_ret.
Qed.

Lemma i_reconcile_quiet m acc o w : quietly (reconcile_object sha256 tenant conf m acc o) w.
Proof using HP.
  unfold reconcile_object. apply i_ctx. intros w1 _. destruct (_ <? _); [|by apply i_ret].
  eapply i_then; [apply i_object_quiet|]. cbn beta. intros _ w2 _. by apply i_ret.
Qed.

Lemma whole_or_cut (items : list (result string object)) : (∃ l, items = Ok <$> l) ∨ ∃ l e rest, items = (Ok <$> l) ++ Err e :: rest.
Proof.
  induction items as [|[o|e] items [[l ->]|(l & e' & rest & ->)]]; [by left; exists []|by left; exists (o :: l)|by right; exists (o :: l), e', rest|..];
    right; by eexists [], e, _.
Qed.

Lemma i_walk_cut {A} (fn : A → object → api S3Req (result ConnErr A)) (R : A → Index → Prop) l e rest acc w :
  (∀ acc o w, quietly (fn acc o) w) → surely (walk fn acc ((Ok <$> l) ++ Err e :: rest)) (ok_with R) w.
Proof using HP.
  intros Hfn. revert acc w. induction l as [|o l IH]; intros acc w; cbn [walk app fmap list_fmap]; [apply i_fail|].
  eapply i_then; [apply Hfn|]. cbn beta. intros acc' w' _. apply IH.
Qed.

Lemma kept s s1 s2 : b_change s1 s2 → b_change s s1 → b_change s s2.
Proof using HP. intros Hx Hy. by etrans. Qed.

(** A walk over the listing of some state the bucket was in meanwhile. *)
Lemma i_list {A} after (fn : A → object → api S3Req (result ConnErr A)) (R : list object → A → Index → Prop) acc w :
  (∀ acc o w, quietly (fn acc o) w) →
  (∀ s l, surely (walk fn acc (Ok <$> l)) (ok_with (R l)) (move s w)) →
  surely (s3_list conf after fn acc) (λ r w', ∀ a, r = Ok a →
    ∃ s l, b_change (sy_source w) s ∧ listed (s3_Bucket conf) (s3_Prefix conf) after s l ∧ R l a (sy_index w') ∧ b_change s (sy_source w')) w.
Proof using HP.
  intros Hfn Hl s Hs. split; [done|]. intros i.
  destruct (whole_or_cut (b_answer _ (ListObjects (s3_Bucket conf) (s3_Prefix conf) after s3_listPageSize) i s)) as [[l E]|(l & e & rest & E)]; rewrite E.
  - assert (Hls : listed (s3_Bucket conf) (s3_Prefix conf) after s l) by (by exists i).
    eapply sure_mono; [|apply (sure_frame b_answer b_change _ (b_change s)); [| |exact (Hl s l)]].
    + intros r w' [Hr Hk] x ->. exists s, l. split_and!; [done|done|by apply Hr|done].
    + apply kept.
    + done.
  - eapply sure_mono; [|apply (i_walk_cut fn (λ _ _, False)); exact Hfn]. intros r w' Hr x Hx. by destruct (Hr x Hx).
Qed.

(** ** Passes

    From the state [st] and the index [idx0]: a listing was walked, brought
    about, and is what the cursor says. *)
Definition concluded (first : bool) (st : s3_cursorState) (idx0 : Index) (s : S) (l : list object) (cur : string) (idx : Index) : Prop :=
  listed (s3_Bucket conf) (s3_Prefix conf) (if first then sc_LastKey st else "") s l ∧ brought first st l idx0 idx ∧
  ∃ keys, keys ≡ₚ (if first then sc_Keys st else []) ++ keys_of l ∧ cur = completedCursor (max_of (maxModifiedTime st) l) keys.

Definition concluded_since (first : bool) (st : s3_cursorState) (idx0 : Index) (s0 : S) (r : result ConnErr string) (w : Synced S) : Prop :=
  ∀ cur, r = Ok cur → ∃ s l, b_change s0 s ∧ b_change s (sy_source w) ∧ concluded first st idx0 s l cur (sy_index w).

Lemma since_fail first st idx0 s0 e w : concluded_since first st idx0 s0 (Err e) w.
Proof using Type. by intros cur. Qed.

Lemma i_client token (P : result ConnErr string → Synced S → Prop) f w : (∀ e w, P (Err e) w) →
  (∀ w', sy_index w' = sy_index w → b_change (sy_source w) (sy_source w') → surely (f tt) P w') → surely (atry (newClient conf token) f) P w.
Proof using HP.
  intros HE Hf. apply (sure_try b_answer b_change).
  assert (Hc : surely (newClient conf token) (λ r w', ok_with (λ _ : unit, eq (sy_index w)) r w' ∧ b_change (sy_source w) (sy_source w')) w).
  { apply (sure_frame b_answer b_change _ (b_change (sy_source w))); [apply kept|done|].
    unfold newClient. destruct (splitToken token) as [[a k]|e]; [|apply i_fail]. apply i_ask. intros [[]|e] w1 E1; [|apply i_fail].
    cbn. apply i_ask. intros [[]|e] w2 E2; [|apply i_fail]. apply i_ret. by rewrite E2, E1. }
  eapply sure_mono; [|exact Hc]. intros [[]|e] w' [Hr Hk]; [by apply Hf; [symmetry; apply (Hr tt)|]|]. intros s _. split; [done|]. apply HE.
Qed.

(** The end of a pass, once a listing [l] of [s] has been walked. *)
Lemma i_finish first st idx0 s0 s (m : api S3Req (result ConnErr string)) w l : b_change s0 s → b_change s (sy_source w) →
  surely m (ok_with (concluded first st idx0 s l)) w → surely m (concluded_since first st idx0 s0) w.
Proof using HP.
  intros Hb0 Hs Hm. eapply sure_mono; [|apply (sure_frame b_answer b_change _ (b_change s)); [apply kept|exact Hs|exact Hm]].
  intros r w' [Hr Hk] cur ->. exists s, l. split_and!; [done|done|by apply Hr].
Qed.

Lemma i_backfill cfg st w : tenantID (c_tenant cfg) = tenant →
  surely (s3_backfill sha256 cfg conf st) (concluded_since true st (sy_index w) (sy_source w)) w.
Proof using HP.
  intros Ht. unfold s3_backfill. rewrite Ht. apply (sure_try b_answer b_change).
  eapply sure_mono; [|apply (i_list _ _ (λ l p idx, first_walk st (sy_index w) l p idx)); [apply i_backfill_quiet|]].
  2:{ intros s l. apply (i_first st l (move s w)). }
  intros [p|e] w1 Hp; [|by intros s' _]. destruct (Hp p eq_refl) as (s & l & Hs & Hl & (Hpk & Hm & He & Hk) & Hsw).
  apply (i_finish _ _ _ _ s _ _ l); [done|done|]. eapply i_then; [apply i_checkpoint|]. cbn beta. intros _ w2 E2. apply i_ret.
  split_and!; [done| |by exists (pg_keys p); rewrite Hm]. rewrite <- E2. split; [exact He|by intros key (? & _)|].
  intros n Hn _. by apply Hk.
Qed.

Lemma i_reconcile cfg st w : tenantID (c_tenant cfg) = tenant →
  surely (s3_reconcile sha256 cfg conf st) (concluded_since false st (sy_index w) (sy_source w)) w.
Proof using HP.
  intros Ht. unfold s3_reconcile. rewrite Ht. apply (sure_try b_answer b_change).
  eapply sure_mono; [|apply (i_list _ _ (λ l acc idx, next_walk st (sy_index w) l acc idx)); [apply i_reconcile_quiet|]].
  2:{ intros s l. apply (i_next st l (move s w)). }
  intros [[keys m]|e] w1 Hp; [|by intros s' _]. destruct (Hp _ eq_refl) as (s & l & Hs & Hl & (Hkeys & Hm & He & Hk) & Hsw). cbn [fst snd] in *.
  apply (i_finish _ _ _ _ s _ _ l); [done|done|]. rewrite Hkeys. eapply i_then; [apply i_vanished|]. cbn beta. intros _ w2 [Hd Hk2]. apply i_ret.
  assert (Hset : ∀ key, key ∈ elements (keySet st) ↔ key ∈ sc_Keys st).
  { intros key. rewrite elem_of_elements. unfold keySet. apply elem_of_list_to_set. }
  split_and!; [done| |by exists (keys_of l); rewrite Hm]. split.
  - intros o Ho Eo. destruct (He o Ho Eo) as (o' & Ho' & Eo' & E & body & ct & Hb & Hx). exists o'. split_and!; [done..|].
    exists body, ct. split; [done|]. rewrite Hk2; [done|]. intros key _ Hno <-%s3_native_inj. by apply Hno, key_listed.
  - intros key (_ & Hin & Hno). apply Hd; [by apply Hset|done].
  - intros n Hn Hv. rewrite Hk2; [by apply Hk|]. intros key Hin Hno. apply Hv. split_and!; [done|by apply Hset|done].
Qed.
End sync.

(** ** Cursors *)
Lemma max_text_back m keys : four_digit_year m → maxModifiedTime (mkS3Cursor "" (max_text m) keys) = m.
Proof.
  intros Hy. unfold maxModifiedTime, max_text. cbn [sc_MaxModified]. destruct (Z.eqb_spec m zero_instant) as [->|_]; [done|].
  pose proof (parse_format_nano m Hy) as Hp. destruct (String.eqb_spec (format_nano m) "") as [E|_]; [by rewrite E in Hp|by rewrite Hp].
Qed.

(** The state the next pass starts from. *)
Lemma start_completed `{!S3Json, !S3JsonLaws} m keys : Forall valid_text keys → four_digit_year m →
  ∃ st, start_of (completedCursor m keys) = Ok st ∧ sc_LastKey st = "" ∧ maxModifiedTime st = m ∧ sc_Keys st ≡ₚ keys.
Proof.
  intros Hk Hm. exists (mkS3Cursor "" (max_text m) (sort_Strings keys)). split_and!; [|done|by apply max_text_back|apply sort_by_perm].
  unfold start_of, s3_parseCursor, completedCursor, s3_encodeCursor. cbn [sc_LastKey sc_MaxModified sc_Keys].
  rewrite !(proj2 (String.eqb_neq _ _) (s3_cursor_object _)). rewrite s3_cursor_back; [done|]. unfold sort_Strings. by rewrite sort_by_perm.
Qed.

(** What the hub runs: a full sync where there is no cursor. *)
Definition s3_pass `{!Casing, !MimeTable, !Deps, !Quoting, !URLs, !S3Json} (sha256 : bytes → bytes) (cfg : Config) (cur : string) :
    api S3Req (result ConnErr string) :=
  if String.eqb cur "" then s3_FullSync sha256 cfg else s3_IncrementalSync sha256 cfg cur.

(** C36. What a completed S3 sync brings about, exactly.  From any cursor and any
    index, whatever the bucket does, a pass neither panics nor hangs.  When it
    returns a cursor, it has walked one complete listing, as the store answered
    it during the pass: every listed object (of a first walk or one it resumes;
    later, every one modified after the newest the cursor knows) is in the index
    as listed; every key of the cursor the listing lacks has a tombstone (not in
    a first walk); no other entry of the index has changed; and the new cursor
    has the newest time and the keys of the listing (of a resumed walk, with
    those of the cursor), from which, if they are valid UTF-8 and the years have
    four digits, the next pass starts.  So where the listed keys are distinct
    and the index before was right about everything the pass left alone, the
    index mirrors the listing. *)
Theorem s3_pass_exact {S : Type} `{!Casing, !MimeTable, !Deps, !Quoting, !URLs, !S3Json, !S3JsonLaws} `{!Bucket S, !PreOrder b_change}
    (sha256 : bytes → bytes) (cfg : Config) (conf : s3_config) (w : Synced S) m' w' :
  s3_parseConfig (c_config_json cfg) = Ok conf →
  star (astep b_answer b_change) (s3_pass sha256 cfg (sy_cursor w), w) (m', w') →
  m' ≠ APanic ∧ m' ≠ AHang ∧
  (∀ cur, m' = ARet (Ok cur) → ∃ st s l keys,
     let first := walking (sy_cursor w) st in
     start_of (sy_cursor w) = Ok st ∧ b_change (sy_source w) s ∧ b_change s (sy_source w') ∧
     listed (s3_Bucket conf) (s3_Prefix conf) (if first then sc_LastKey st else "") s l ∧
     brought sha256 (tenantID (c_tenant cfg)) conf first st l (sy_index w) (sy_index w') ∧
     keys ≡ₚ (if first then sc_Keys st else []) ++ keys_of l ∧ cur = completedCursor (max_of (maxModifiedTime st) l) keys ∧
     (Forall valid_text keys → four_digit_year (max_of (maxModifiedTime st) l) →
        ∃ st', start_of cur = Ok st' ∧ walking cur st' = false ∧ maxModifiedTime st' = max_of (maxModifiedTime st) l ∧ sc_Keys st' ≡ₚ keys) ∧
     (NoDup (keys_of l) →
        (∀ o, o ∈ l → wanted first st o = false → shown sha256 (tenantID (c_tenant cfg)) conf (sy_index w) o) →
        (∀ key, key ∉ keys_of l → ¬ vanished first st l key → gone conf (sy_index w) key) →
        mirrors sha256 (tenantID (c_tenant cfg)) conf l (sy_index w'))).
Proof.
  intros Hconf Hs. set (tenant := tenantID (c_tenant cfg)) in *.
  assert (Hsure : sure b_answer b_change (λ _, True) (s3_pass sha256 cfg (sy_cursor w)) (λ r w', ∀ cur, r = Ok cur →
    ∃ st, start_of (sy_cursor w) = Ok st ∧
      concluded_since sha256 tenant conf (walking (sy_cursor w) st) st (sy_index w) (sy_source w) r w') w).
  { unfold s3_pass, start_of, walking, s3_FullSync, s3_IncrementalSync, s3_config_of. destruct (String.eqb (sy_cursor w) "").
    - rewrite Hconf. cbn [atry abind]. apply i_client; [done|]. intros w1 E1 Hk1.
      eapply sure_mono; [|by apply (i_backfill sha256 tenant conf)]. intros r v Hr cur ->. eexists. split; [done|].
      intros c Hc. destruct (Hr c Hc) as (s & l & Hx1 & Hx2 & Hx3). rewrite E1 in Hx3. exists s, l. split; [by etrans|]. split; [done|exact Hx3].
    - rewrite Hconf. cbn [atry abind]. destruct (s3_parseCursor (sy_cursor w)) as [st|e]; [|by intros s _].
      apply i_client; [done|]. intros w1 E1 Hk1. cbn [orb]. destruct (String.eqb (sc_LastKey st) "") eqn:El; cbn [negb].
      + eapply sure_mono; [|by apply (i_reconcile sha256 tenant conf)]. intros r v Hr cur ->. exists st. split; [done|]. rewrite El. cbn [negb].
        intros c Hc. destruct (Hr c Hc) as (s & l & Hx1 & Hx2 & Hx3). rewrite E1 in Hx3. exists s, l. split; [by etrans|]. split; [done|exact Hx3].
      + eapply sure_mono; [|by apply (i_backfill sha256 tenant conf)]. intros r v Hr cur ->. exists st. split; [done|]. rewrite El. cbn [negb].
        intros c Hc. destruct (Hr c Hc) as (s & l & Hx1 & Hx2 & Hx3). rewrite E1 in Hx3. exists s, l. split; [by etrans|]. split; [done|exact Hx3]. }
  destruct (sure_reach b_answer b_change _ _ _ _ _ _ Hsure Hs) as (Hnp & Hnh & _ & Ha).
  split_and!; [done|done|]. intros cur ->. destruct (Ha _ eq_refl cur eq_refl) as (st & Hst & Hc).
  destruct (Hc cur eq_refl) as (s & l & Hc1 & Hc2 & Hl & Hb & keys & Hkeys & ->). exists st, s, l, keys. cbv zeta. split_and!; [done..| |].
  - intros Hv Hy. destruct (start_completed _ _ Hv Hy) as (st' & Hst' & Hk & ?). exists st'. split_and!; [done| |tauto..].
    unfold walking. rewrite Hk. unfold completedCursor, s3_encodeCursor. by rewrite (proj2 (String.eqb_neq _ _) (s3_cursor_object _)).
  - intros. by eapply brought_mirrors.
Qed.

(** ** A bucket with a few states

    What a listing returns in each. *)
#[local] Instance demo_casing : Casing := {| ToLower s := s; ToUpper s := s |}.
#[local] Instance demo_mime : MimeTable := {| TypeByExtension e := if String.eqb e ".txt" then "text/plain; charset=utf-8" else "" |}.
#[local] Instance demo_quoting : Quoting := {| Quote s := s |}.
#[local] Instance demo_urls : URLs := {| url_Parse _ := Some ("https", "h") |}.
#[local] Instance demo_deps : Deps :=
  {| uuid_Parse s := Some s; ts_CheckValid _ := true; ts_AsTime _ := 0; ts_New _ := mkTimestamp 0 0 |}.
#[local] Instance demo_json : S3Json := {|
  s3_config_json _ := Ok ("h", "bk", "", "", true);
  s3_cursor_write x := String "c" (of_bytes (number_bytes (encode x)));
  s3_cursor_read s := match decode (bytes_number (to_bytes (drop_str 1 s))) : option (string * string * list string) with Some x => Ok x | None => Err "" end |}.
#[local] Instance demo_json_laws : S3JsonLaws.
Proof.
  split; [|done]. intros t keys _. cbn -[encode decode]. change (drop_str 1 (String "c" ?s)) with s. rewrite to_of_bytes, bytes_number_bytes, decode_encode. done.
Qed.

Definition demo_sha (l : bytes) : bytes := [].
Definition demo_cfg : Config := mkSdkConfig (mkContext "t1" "t1") "i1" "{}" (Some "id:secret").
Definition demo_conf : s3_config := mkS3Config "h" "bk" "" "" true.
Definition demo_inp : Inp := mkInp None None (mkEnv (λ _, 0) (λ _, 0) "").

Definition obj (key etag : string) (t : Z) : object := mkObject key etag 3 "" (t * nsec).

(** The state is the number of the listing. *)
Definition demo_answer (listing : nat → list (result string object)) X (q : S3Req X) (_ : Inp) (s : nat) : X :=
  match q with
  | GuardedTransport => Ok tt
  | MinioNew _ _ _ _ _ => Ok tt
  | ListObjects _ _ _ _ => listing s
  | GetObject _ _ => Ok ([], "")
  | S3Now => 0
  | S3Ctx => Ok tt
  end.

(** First [a] and [b]; then [a] has changed, [b] has left and [c] has come. *)
Definition steady_listing (s : nat) : list (result string object) :=
  match s with O => [Ok (obj "a" "v1" 10); Ok (obj "b" "v1" 11)] | _ => [Ok (obj "a" "v2" 20); Ok (obj "c" "v1" 21)] end.
#[local] Instance steady_bucket : Bucket nat := {| b_answer := demo_answer steady_listing; b_change s s' := (s <= s')%nat |}.
#[local] Instance steady_preorder : PreOrder b_change.
Proof. split; [intros s; cbn; lia|intros a b c; cbn; lia]. Qed.

Definition steady_objects (s : nat) : list object :=
  match s with O => [obj "a" "v1" 10; obj "b" "v1" 11] | _ => [obj "a" "v2" 20; obj "c" "v1" 21] end.

Lemma steady_listed s l : listed "bk" "" "" s l → l = steady_objects s.
Proof.
  intros [i E]. cbn in E. unfold steady_listing in E. destruct s; cbn in E;
    (destruct l as [|x [|y [|]]]; try done; cbn in E; by injection E as <- <-).
Qed.

Definition pass_on (listing : nat → list (result string object)) (moves : list nat) (cur : string) (w : Synced nat) :
    api S3Req (result ConnErr string) * Synced nat := play (demo_answer listing) demo_inp moves (s3_pass demo_sha demo_cfg cur) w.

Definition steady_first : Synced nat := (pass_on steady_listing [] "" (mkSynced 0%nat ∅ "")).2.
Definition steady_second : Synced nat := (pass_on steady_listing [1%nat] (sy_cursor steady_first) steady_first).2.
Definition steady_cursor : string := completedCursor (21 * nsec) ["a"; "c"].

Lemma steady_run : (pass_on steady_listing [] "" (mkSynced 0%nat ∅ "")).1 = ARet (Ok (sy_cursor steady_first)) ∧
  (pass_on steady_listing [1%nat] (sy_cursor steady_first) steady_first).1 = ARet (Ok steady_cursor).
Proof. split; vm_compute; reflexivity. Qed.

Lemma demo_parsed : s3_parseConfig (c_config_json demo_cfg) = Ok demo_conf.
Proof. vm_compute. reflexivity. Qed.

(** The second of two passes, the bucket changed in between. *)
Definition steady_between : Synced nat := move 1%nat steady_first.

Lemma steady_stale : (∀ o, o ∈ steady_objects 1 → (11 * nsec <? ob_lastModified o) = true) ∧
  (∀ key, key ≠ "a" → key ≠ "b" → gone demo_conf (sy_index steady_between) key).
Proof.
  split.
  - intros o Ho. cbn in Ho. repeat (apply elem_of_cons in Ho as [->|Ho]; [reflexivity|]). by apply not_elem_of_nil in Ho.
  - intros key Ha Hb doc Hd. exfalso.
    assert (Hdom : dom (sy_index steady_between) = {["bk/a"; "bk/b"]}) by (vm_compute; reflexivity).
    assert (Hin : s3_nativeID "bk" key ∈ dom (sy_index steady_between)) by by apply elem_of_dom_2 in Hd.
    rewrite Hdom in Hin. apply elem_of_union in Hin as [Hin%elem_of_singleton|Hin%elem_of_singleton];
      [apply (s3_native_inj demo_conf key "a") in Hin|apply (s3_native_inj demo_conf key "b") in Hin]; done.
Qed.

Lemma s3_pass_exact_witness :
  mirrors demo_sha "t1" demo_conf (steady_objects 1) (sy_index steady_second) ∧
  version_etag <$> sy_index steady_second !! "bk/a" = Some "v2" ∧ is_deleted <$> sy_index steady_second !! "bk/b" = Some true.
Proof.
  assert (Hs : star (astep b_answer b_change) (s3_pass demo_sha demo_cfg (sy_cursor steady_between), steady_between) (ARet (Ok steady_cursor), steady_second)).
  { replace (ARet (Ok steady_cursor), steady_second) with (pass_on steady_listing [] (sy_cursor steady_between) steady_between) by (vm_compute; reflexivity).
    by apply play_star. }
  destruct (s3_pass_exact demo_sha demo_cfg demo_conf steady_between (ARet (Ok steady_cursor)) steady_second demo_parsed Hs) as (_ & _ & Ha).
  destruct (Ha _ eq_refl) as (st & s & l & keys & Hst & Hc & _ & Hl & _ & _ & _ & _ & Hm).
  assert (Est : start_of (sy_cursor steady_between) = Ok (mkS3Cursor "" (max_text (11 * nsec)) ["a"; "b"])) by (vm_compute; reflexivity).
  rewrite Est in Hst. injection Hst as <-.
  assert (Ew : ∀ st, sc_LastKey st = "" → walking (sy_cursor steady_between) st = false).
  { intros st' E. unfold walking. rewrite E, orb_false_r. vm_compute. reflexivity. }
  rewrite Ew in Hl, Hm by reflexivity. apply steady_listed in Hl. destruct s as [|s]; [cbn in Hc; lia|]. rewrite Hl in Hm. clear Hl.
  destruct steady_stale as [Hnew Hold]. split.
  - apply Hm.
    + eapply bool_decide_eq_true_1. vm_compute. reflexivity.
    + intros o Ho E. specialize (Hnew o Ho). unfold wanted in E. rewrite max_text_back in E by (vm_compute; by split). cbn [orb] in E. congruence.
    + intros key Hk Hv. apply Hold; intros ->; [by apply Hk; left|]. apply Hv. split_and!; [reflexivity|by right; left|exact Hk].
  - split; vm_compute; reflexivity.
Defined.

(** ** Defects *)

(** While the bucket is listed, [a] is overwritten after it was listed, and [z]
    after that but before it is: the listing has the old [a] and the new [z].
    The cursor keeps the time of [z], which the overwrite of [a] is before, so
    no later pass emits it. *)
Definition torn_listing (s : nat) : list (result string object) :=
  match s with O => [Ok (obj "a" "v1" 10); Ok (obj "z" "v2" 30)] | _ => [Ok (obj "a" "v2" 20); Ok (obj "z" "v2" 30)] end.

Lemma overwrite_behind_lost :
  let first := pass_on torn_listing [] "" (mkSynced 0%nat ∅ "") in
  let second := pass_on torn_listing [1%nat] (sy_cursor first.2) first.2 in
  first.1 = ARet (Ok (sy_cursor first.2)) ∧ second.1 = ARet (Ok (sy_cursor first.2)) ∧
  torn_listing (sy_source second.2) = [Ok (obj "a" "v2" 20); Ok (obj "z" "v2" 30)] ∧
  version_etag <$> sy_index second.2 !! "bk/a" = Some "v1".
Proof. cbv zeta. split_and!; vm_compute; reflexivity. Qed.

(** A first pass emits [a] and then fails; [a] is deleted.  The pass that
    follows starts afresh and completes, and [a] stays. *)
Definition failing_listing (s : nat) : list (result string object) :=
  match s with O => [Ok (obj "a" "v1" 10); Err "timeout"] | _ => [Ok (obj "b" "v1" 11)] end.

Lemma partial_pass_keeps :
  let first := pass_on failing_listing [] "" (mkSynced 0%nat ∅ "") in
  let second := pass_on failing_listing [1%nat] (sy_cursor first.2) first.2 in
  sy_cursor first.2 = "" ∧ second.1 = ARet (Ok (completedCursor (11 * nsec) ["b"])) ∧
  is_deleted <$> sy_index second.2 !! "bk/a" = Some false.
Proof. cbv zeta. split_and!; vm_compute; reflexivity. Qed.
